(* ===== verification/_CoqProject ===== *)
-Q . S2P
Prelude.v
Uint256.v
Bignum.v
Serialize.v
Tx.v
Script.v
Interp.v
SigCheck.v
Chain.v
Utxo.v
ScriptStd.v
Mempool.v
Block.v
Decode.v
Scrypt.v
CheckQueue.v
ConnectBlock.v
Base58.v
Encoding.v
NetAddr.v
AddrMan.v
BlockIndex.v
Kernel.v
BestChain.v
BlockFiles.v
ChainOps.v
Checkpoints.v
ProcessBlock.v
Key.v
KeyStore.v
Sign.v
WalletTx.v
CoinSelect.v
KeyPool.v
CreateTx.v
Miner.v
Stake.v
