(* ===== verification/Prelude.v ===== *)
(** * NovaCoin in Rocq

    A model of the core of the NovaCoin node (the C++ sources under src/), with the theorems that make it correct.

    ** The program

    A node keeps a tree of blocks ([mapBlockIndex]) and, for the best chain, an
    index from transaction hashes to the outputs already spent.  A transaction
    spends outputs by presenting scripts; the script interpreter decides whether
    a spend is valid.  Blocks are admitted by proof of work or proof of stake
    against targets computed from the chain.  Around this core are the memory
    pool, the wallet, the network, the RPC server and the graphical interface.

    ** The files, in dependency order

    - [Prelude]: machine integers as [Z] with explicit wrap-around ([u8], [u32],
      [u64], [i32], [i64]), counting loops, digits in a base, the hint database
      [nova] and the tactic [mlia].
    - [Uint256]: [base_uint], [uint160] and [uint256] of src/uint256.h and
      src/uint256.cpp, as lists of 32-bit limbs, low limb first.  The operators
      refine arithmetic modulo [2^BITS]; division, the compact encoding, text
      and byte round trips; what [operator*=] really does.
    - [Bignum]: [CBigNum] of src/bignum.h and src/bignum.cpp.  OpenSSL's BIGNUM
      functions are the class [OpenSSL_BN], their documented behaviour the class
      [OpenSSL_BN_ok], instantiated by plain integers ([Z_BN]).  The conversions
      that build MPI images byte by byte store and return the right numbers, and
      the compact format agrees with the one of [uint256].
    - [Serialize]: compact sizes, variable-length integers and vectors of
      src/serialize.h; the class [Codec] of serializable types with its laws
      [CodecOk].
    - [Tx]: outpoints, inputs, outputs and transactions of src/main.h with their
      serialization and hash (digests are the class [Digests]), and the checks
      that need no context: [CheckTransaction], [GetValueOut], [GetMinFee],
      [IsFinal], [IsNewerThan].
    - [Script]: the opcodes of src/script.h, decoding and pushing,
      [FindAndDelete], signature operation counts, strict DER (src/script.cpp,
      src/key.cpp), lock times.
    - [Interp]: [EvalScript] of src/script.cpp.  The local variables are the
      record [machine]; one turn of the loop is [step], each group of opcodes a
      definition; [eval_loop] iterates.  Resource limits, termination,
      arithmetic, the lock-time opcodes, multi-signatures, pay to public key
      hash; a simulation lemma relates runs with different signature checks.
    - [SigCheck]: [SignatureHash], the signature cache, [CheckSig] and
      [VerifyScript].  The cache is transparent; pay to script hash.
    - [Chain]: rewards, targets, retargeting, proof of work and block trust of
      src/main.cpp, over a chain given as the list of block indexes from the tip
      down (the [pprev] links).
    - [Utxo]: the transaction index: [FetchInputs], [ConnectInputs],
      [DisconnectInputs], [GetCoinAge].  Connecting is safe, checks every script
      and is undone by disconnecting; what a stake may create.
    - [ScriptStd]: the templates of standard scripts, [Solver], [IsStandard] and
      [AreInputsStandard].
    - [Mempool]: [CTxMemPool], its maps and [accept]: the pool stays consistent
      and takes only valid transactions.
    - [Block]: [CBlock], the merkle tree and its branches, the block signature,
      [CheckBlock].
    - [CheckQueue]: the queue of src/checkqueue.h as a step relation over the
      master and the worker threads, one step per critical section or batch.
      [Wait] returns the verdict of all checks in every interleaving, and does
      return unless the program is shut down.
    - [ConnectBlock]: [ConnectBlock] and [DisconnectBlock] over [Utxo], [Block]
      and [CheckQueue]: a block is connected transaction by transaction, creates
      no more than its reward, and can be disconnected.
    - [Base58]: src/base58.cpp: the conversions, addresses and secrets.
    - [Encoding]: base64, base32, hexadecimal, amounts, dump escapes and wildcard
      masks of src/util.cpp.
    - [NetAddr]: [CNetAddr] and [CService] of src/netbase.cpp: classes, groups,
      reachability, names of hidden services, the order of services.
    - [AddrMan]: [CAddrMan] of src/addrman.cpp: its tables stay consistent in every
      state the operations reach, whatever the draws.
    - [BlockIndex]: [CBlockIndex], [mapBlockIndex] with its [pprev] and [pnext]
      links, the search for a fork and the relinking of [Reorganize], block
      locators.  [tree_ok] and [links_ok] are the invariants of the tree.
    - [Kernel]: src/kernel.cpp and src/kernel_worker.cpp: entropy bits, the stake
      modifier, the kernel hash and the searches for a kernel.
    - [BestChain]: [AddToBlockIndex], [SetBestChain] and [Reorganize] of
      src/main.cpp: tree, links and database stay in step, the heaviest chain wins.
    - [BlockFiles]: the files blkNNNN.dat: [WriteToDisk] and [ReadFromDisk] of blocks,
      headers and transactions; the positions in the transaction index are right.
    - [ChainOps]: what [BestChain] promises to its users, as a class of operations
      with their laws and the instance.
    - [Checkpoints]: src/checkpoints.cpp, against [ChainOps].
    - [ProcessBlock]: [AcceptBlock], [ProcessBlock] and the orphan blocks, on the
      state of the whole node; the synchronised checkpoint is safe.
    - [Decode]: what readers return from arbitrary bytes is well typed.
    - [Scrypt]: the proof-of-work hash, portable and with vector instructions: both are
      the scrypt of RFC 7914, over a class for PBKDF2.
    - [Key]: src/key.cpp over a class of curve operations: signatures, key recovery,
      malleable keys.
    - [KeyStore]: src/keystore.cpp and src/crypter.cpp, the store of keys and its
      encryption, with the interface [CKeyStore] for the code that signs.
    - [Sign]: [IsMine], [SignSignature] and [CombineSignatures] of src/script.cpp against
      that interface: what is mine can be spent.
    - [WalletTx]: the transactions of the wallet (src/wallet.cpp): where they are in the
      chain, spent flags, cached amounts, balances, adding and merging, the records of
      the wallet file.
    - [CoinSelect]: the choice of coins for an amount.
    - [KeyPool]: the keys generated ahead and their reservations.
    - [CreateTx]: making, committing and sending a transaction: the wallet, its keys, the
      signatures and the memory pool together.
    - [Miner]: the assembly of a new block from the memory pool.
    - [Stake]: minting: the search for a kernel among the coins of the wallet, the
      coinstake, and handing the signed block to the node.

    ** Conventions

    A C++ integer is a [Z] with the conversion written where the code converts.
    A failed assertion or an exception is [None]; a handler that reports errors
    by value returns them (DoS scores included).  State that a function changes
    is passed and returned.  Functions that depend on code outside the sources
    (OpenSSL, the digests, the random choice of an eviction victim) take it as
    an argument or a class.  Log output is not modelled.

    ** Fuel

    Loops over a script take the length of the script: every turn consumes at
    least one byte ([EvalScript_terminates]).  The bisections for rewards take 30
    turns: each turn halves an interval of at most 10^8 units.  The loop of
    [ComputeMaxBits] takes one turn per day of elapsed time; the digit loop of
    [ToString] one per bit; eviction from the cache one per entry; the work queue of
    [ProcessBlock] one per orphan ([ProcessBlock_orphans]); [IsMine] one per redeem
    script, where the program would not return from a cycle of script hashes.  The
    fee of [CreateTransaction] grows within a list of at most 1200 values and ten per
    payment, which is the bound on its turns ([CreateTransaction_ok]); the queue of
    supporting transactions takes the inputs of all that can be found.  [CreateNewBlock]
    takes one turn per transaction that is queued or waits ([CreateNewBlock_ok]), and the
    fee of [CreateCoinStake] has fewer than 1040 values ([CreateCoinStake_ok]).

    ** Not modelled

    Sockets, threads other than those of the check queue, the databases (the index
    and the wallet file are maps), the arithmetic of the curve, AES, PBKDF2 and the
    digests, accounts and the address book of the wallet, the loops of the mining threads, RPC and the
    graphical interface.

    ** Plan

    Next: orphan transactions, the file format of the address manager, the block
    index on disk. *)

From stdpp Require Import base list gmap strings numbers.
From Stdlib Require Import ZArith Lia.

Open Scope Z_scope.

(** ** Machine integers

    A [w]-bit C integer is a [Z]; every place where the code converts to the
    type applies the corresponding conversion. *)

Definition u8 (x : Z) : Z := x mod 2 ^ 8.
Definition u32 (x : Z) : Z := x mod 2 ^ 32.
Definition u64 (x : Z) : Z := x mod 2 ^ 64.
Definition i32 (x : Z) : Z := (x + 2 ^ 31) mod 2 ^ 32 - 2 ^ 31.
Definition i64 (x : Z) : Z := (x + 2 ^ 63) mod 2 ^ 64 - 2 ^ 63.

(** Unfold the machine-integer conversions and hand the goal to [lia]. *)
Ltac mlia :=
  unfold u8, u32, u64, i32, i64 in *; Z.div_mod_to_equations; lia.

Lemma u8_small x : 0 <= x < 2 ^ 8 → u8 x = x.
Proof. apply Z.mod_small. Qed.
Lemma u32_small x : 0 <= x < 2 ^ 32 → u32 x = x.
Proof. apply Z.mod_small. Qed.
Lemma u64_small x : 0 <= x < 2 ^ 64 → u64 x = x.
Proof. apply Z.mod_small. Qed.
Lemma i32_small x : - 2 ^ 31 <= x < 2 ^ 31 → i32 x = x.
Proof. intros. unfold i32. rewrite Z.mod_small; lia. Qed.
Lemma i64_small x : - 2 ^ 63 <= x < 2 ^ 63 → i64 x = x.
Proof. intros. unfold i64. rewrite Z.mod_small; lia. Qed.
Lemma u8_range x : 0 <= u8 x < 2 ^ 8.
Proof. apply Z.mod_pos_bound. lia. Qed.
Lemma u32_range x : 0 <= u32 x < 2 ^ 32.
Proof. apply Z.mod_pos_bound. lia. Qed.
Lemma u64_range x : 0 <= u64 x < 2 ^ 64.
Proof. apply Z.mod_pos_bound. lia. Qed.
Lemma i64_add_l a b : i64 (i64 a + b) = i64 (a + b).
Proof. unfold i64. mlia. Qed.
Lemma i64_add a b : i64 (i64 a + i64 b) = i64 (a + b).
Proof. unfold i64. mlia. Qed.
Lemma i64_sub a b : i64 (i64 a - i64 b) = i64 (a - b).
Proof. unfold i64. mlia. Qed.
Lemma i64_range x : - 2 ^ 63 <= i64 x < 2 ^ 63.
Proof. unfold i64. pose proof (Z.mod_pos_bound (x + 2 ^ 63) (2 ^ 64)). lia. Qed.
Lemma i32_range x : - 2 ^ 31 <= i32 x < 2 ^ 31.
Proof. unfold i32. pose proof (Z.mod_pos_bound (x + 2 ^ 31) (2 ^ 32)). lia. Qed.

(** ** Counting loops

    [for_loop n f s] is [for (i = 0; i < n; i++) s = f(i, s)]. *)

Definition for_loop {S} (n : nat) (f : nat → S → S) (s : S) : S :=
  fold_left (λ s i, f i s) (seq 0 n) s.

Lemma for_loop_0 {S} (f : nat → S → S) s : for_loop 0 f s = s.
Proof. done. Qed.

Lemma for_loop_S {S} n (f : nat → S → S) s :
  for_loop (Datatypes.S n) f s = f n (for_loop n f s).
Proof. unfold for_loop. rewrite seq_S, fold_left_app. done. Qed.

(** The loop rule: an invariant indexed by the counter. *)
Lemma for_loop_ind {S} (P : nat → S → Prop) n f (s : S) :
  P O s → (∀ i s, (i < n)%nat → P i s → P (Datatypes.S i) (f i s)) →
  P n (for_loop n f s).
Proof.
  intros H0 HS. induction n as [|n IH].
  - done.
  - rewrite for_loop_S. apply HS; [lia|]. apply IH. intros. apply HS; [lia|done].
Qed.

(** ** Positional notation

    [dval B l] is the value of the little-endian digit list [l] in base [B];
    [to_digits B n z] writes [z] on [n] digits.  Limb arrays (base 2^32) and
    byte strings (base 256) are both instances. *)

Fixpoint dval (B : Z) (l : list Z) : Z :=
  match l with
  | [] => 0
  | x :: t => x + B * dval B t
  end.

Fixpoint to_digits (B : Z) (n : nat) (z : Z) : list Z :=
  match n with
  | O => []
  | S n => z mod B :: to_digits B n (z / B)
  end.

Abbreviation digits_ok B := (Forall (λ x, 0 <= x < B)).

Lemma length_to_digits B n z : length (to_digits B n z) = n.
Proof. revert z. induction n; simpl; auto. Qed.

Lemma pow_succ_nat B n : B ^ Z.of_nat (S n) = B * B ^ Z.of_nat n.
Proof. rewrite Nat2Z.inj_succ, Z.pow_succ_r by lia. done. Qed.

Lemma to_digits_ok B n z : 0 < B → digits_ok B (to_digits B n z).
Proof.
  intros HB. revert z. induction n; intros z; simpl; constructor; auto.
  apply Z.mod_pos_bound. done.
Qed.

Lemma dval_bound B l : 0 < B → digits_ok B l → 0 <= dval B l < B ^ Z.of_nat (length l).
Proof.
  intros HB. induction 1 as [|x l Hx Hl IH]; simpl.
  - lia.
  - assert (H := pow_succ_nat B (length l)). simpl in H. rewrite H. nia.
Qed.

Lemma dval_app B l1 l2 : 0 < B →
  dval B (l1 ++ l2) = dval B l1 + B ^ Z.of_nat (length l1) * dval B l2.
Proof.
  intros HB. induction l1 as [|x l1 IH]; simpl length; simpl app; simpl dval.
  - lia.
  - rewrite IH, pow_succ_nat. ring.
Qed.

Lemma dval_to_digits B n z : 0 < B → dval B (to_digits B n z) = z mod B ^ Z.of_nat n.
Proof.
  intros HB. revert z. induction n as [|n IH]; intros z.
  - simpl. rewrite Z.mod_1_r. done.
  - simpl. rewrite IH. rewrite pow_succ_nat.
    rewrite (Z.rem_mul_r z B (B ^ Z.of_nat n)); [done|lia|lia].
Qed.

Lemma to_digits_dval B l : 0 < B → digits_ok B l → to_digits B (length l) (dval B l) = l.
Proof.
  intros HB. induction 1 as [|x l Hx Hl IH]; simpl.
  - done.
  - assert ((x + B * dval B l) mod B = x) as ->.
    { rewrite Z.mul_comm, Z_mod_plus_full. apply Z.mod_small. done. }
    assert ((x + B * dval B l) / B = dval B l) as ->.
    { rewrite Z.mul_comm, Z.div_add by lia. rewrite Z.div_small by lia. lia. }
    rewrite IH. done.
Qed.

Lemma dval_inj B l1 l2 : 0 < B → digits_ok B l1 → digits_ok B l2 →
  length l1 = length l2 → dval B l1 = dval B l2 → l1 = l2.
Proof.
  intros HB H1 H2 Hl Hv.
  rewrite <- (to_digits_dval B l1), <- (to_digits_dval B l2) by done.
  rewrite Hl, Hv. done.
Qed.

Lemma to_digits_mod B n z : 0 < B → to_digits B n (z mod B ^ Z.of_nat n) = to_digits B n z.
Proof.
  intros HB. apply (dval_inj B); auto using to_digits_ok.
  - rewrite !length_to_digits. done.
  - rewrite !dval_to_digits by done. apply Z.mod_mod. apply Z.pow_nonzero; lia.
Qed.

Lemma dval_replicate_0 B n : dval B (replicate n 0) = 0.
Proof. induction n; simpl; lia. Qed.

Lemma digits_ok_replicate_0 B n : 0 < B → digits_ok B (replicate n 0).
Proof. intros. apply Forall_replicate. lia. Qed.

(** ** Bits of positional values *)

Lemma testbit_above x n i : 0 <= x < 2 ^ n → n <= i → Z.testbit x i = false.
Proof.
  intros Hx Hi. destruct (decide (x = 0)) as [->|Hne]; [apply Z.bits_0|].
  apply Z.bits_above_log2; [lia|].
  assert (0 <= n). { destruct (decide (0 <= n)); [done|]. rewrite Z.pow_neg_r in Hx; lia. }
  destruct Hx as [H0 Hx]. apply Z.log2_lt_pow2 in Hx; lia.
Qed.

(** Bit [j] of a little-endian base-2^w number is bit [j mod w] of digit [j / w]. *)
Lemma dval_testbit w l j : 0 < w → digits_ok (2 ^ w) l → 0 <= j →
  Z.testbit (dval (2 ^ w) l) j = Z.testbit (nth (Z.to_nat (j / w)) l 0) (j mod w).
Proof.
  intros Hw Hl. revert j. induction Hl as [|x l Hx Hl IH]; intros j Hj; simpl.
  - rewrite Z.bits_0. destruct (Z.to_nat (j / w)); rewrite Z.bits_0; done.
  - destruct (Z.lt_ge_cases j w) as [Hlt|Hge].
    + rewrite Z.div_small, Z.mod_small by lia. simpl.
      rewrite <- (Z.mod_pow2_bits_low (x + 2 ^ w * dval (2 ^ w) l) w j) by lia.
      rewrite (Z.mul_comm (2 ^ w)), Z_mod_plus_full, Z.mod_small by lia. done.
    + assert (j = w + (j - w)) as E by lia.
      assert (j / w = 1 + (j - w) / w) as ->.
      { rewrite E at 1. replace (w + (j - w)) with ((j - w) + 1 * w) by lia.
        rewrite Z.div_add by lia. lia. }
      assert (j mod w = (j - w) mod w) as ->.
      { rewrite E at 1. replace (w + (j - w)) with ((j - w) + 1 * w) by lia.
        apply Z_mod_plus_full. }
      assert (0 <= (j - w) / w) by (apply Z.div_pos; lia).
      rewrite Z2Nat.inj_add by lia. simpl.
      rewrite <- IH by lia.
      replace j with ((j - w) + w) at 1 by lia.
      rewrite <- Z.div_pow2_bits by lia.
      rewrite (Z.mul_comm (2 ^ w)), Z.div_add by lia.
      rewrite Z.div_small by lia. f_equal; lia.
Qed.

Lemma digits_nth B l i : 0 < B → digits_ok B l → 0 <= nth i l 0 < B.
Proof.
  intros HB Hl. rewrite nth_lookup. destruct (l !! i) as [x|] eqn:E; simpl; [|lia].
  rewrite Forall_lookup in Hl. eauto.
Qed.

(** Disjoint bit patterns: [or] is addition. *)
Lemma lor_add_disjoint a b n : 0 <= n → 0 <= a < 2 ^ n → Z.lor a (Z.shiftl b n) = a + 2 ^ n * b.
Proof.
  intros Hn Ha. rewrite Z.shiftl_mul_pow2 by done.
  rewrite <- Z.lxor_lor.
  - rewrite <- Z.add_nocarry_lxor; [lia|].
    apply Z.bits_inj'. intros i Hi. rewrite Z.land_spec, Z.bits_0.
    destruct (Z.lt_ge_cases i n).
    + rewrite (Z.mul_pow2_bits_low b n i) by lia. apply andb_false_r.
    + rewrite (testbit_above a n i) by lia. done.
  - apply Z.bits_inj'. intros i Hi. rewrite Z.land_spec, Z.bits_0.
    destruct (Z.lt_ge_cases i n).
    + rewrite (Z.mul_pow2_bits_low b n i) by lia. apply andb_false_r.
    + rewrite (testbit_above a n i) by lia. done.
Qed.

Create HintDb nova discriminated.
#[export] Hint Resolve u8_range u32_range u64_range i64_range i32_range to_digits_ok
  digits_ok_replicate_0 : nova.
