(* ===== verification/Uint256.v ===== *)
(** * Fixed-width unsigned integers (src/uint256.h, src/uint256.cpp)

    [base_uint<BITS>] is an array [pn] of [WIDTH = BITS/32] 32-bit limbs, least
    significant first.  The model keeps the array: a value is the list of its
    limbs, each operation is the loop of the source, and the theorems relate it
    to arithmetic modulo [2^BITS] through [val].  The byte view ([begin()],
    [memcpy]) is the little-endian one, as on the platforms the code supports. *)

From stdpp Require Import base list numbers.
From Stdlib Require Import ZArith Lia Btauto.
From S2P Require Import Prelude.

Open Scope Z_scope.

(** ** Operations of [base_uint] *)

(** [uint32_t pn[WIDTH]] *)
Abbreviation base_uint := (list Z).

Section base_uint.
Context (WIDTH : nat).

Definition limb_max : Z := 2 ^ 32 - 1.

Definition bu_max : base_uint := replicate WIDTH limb_max.

Definition bu_is_zero (pn : base_uint) : bool := forallb (λ x, x =? 0) pn.

(** [~pn[i]] on [uint32_t] *)
Definition limb_not (x : Z) : Z := u32 (Z.lnot x).

Definition bu_not (pn : base_uint) : base_uint := map limb_not pn.

(** [operator++()]: [while (++pn[i] == 0 && i < WIDTH-1) i++;] *)
Fixpoint bu_inc (pn : base_uint) : base_uint :=
  match pn with
  | [] => []
  | x :: t =>
      let x' := u32 (x + 1) in
      if (x' =? 0) && negb (bool_decide (t = [])) then x' :: bu_inc t else x' :: t
  end.

(** [operator--()]: [while (--pn[i] == -1 && i < WIDTH-1) i++;] *)
Fixpoint bu_dec (pn : base_uint) : base_uint :=
  match pn with
  | [] => []
  | x :: t =>
      let x' := u32 (x - 1) in
      if (x' =? u32 (-1)) && negb (bool_decide (t = [])) then x' :: bu_dec t else x' :: t
  end.

(** unary [operator-()] *)
Definition bu_neg (pn : base_uint) : base_uint := bu_inc (map limb_not pn).

(** [operator=(uint64_t)] *)
Definition bu_of_u64 (b : Z) : base_uint :=
  u32 b :: u32 (Z.shiftr b 32) :: replicate (WIDTH - 2) 0.

Definition bu_xor (pn b : base_uint) : base_uint := zip_with Z.lxor pn b.
Definition bu_and (pn b : base_uint) : base_uint := zip_with Z.land pn b.
Definition bu_or (pn b : base_uint) : base_uint := zip_with Z.lor pn b.

(** [operator^=(uint64_t)] and [operator|=(uint64_t)] touch the two low limbs *)
Definition bu_low2 (f : Z → Z → Z) (pn : base_uint) (b : Z) : base_uint :=
  match pn with
  | x0 :: x1 :: t => f x0 (u32 b) :: f x1 (u32 (Z.shiftr b 32)) :: t
  | _ => pn
  end.
Definition bu_xor64 (pn : base_uint) (b : Z) : base_uint := bu_low2 Z.lxor pn b.
Definition bu_or64 (pn : base_uint) (b : Z) : base_uint := bu_low2 Z.lor pn b.

(** [pn[i] |= v] *)
Definition or_limb (pn : base_uint) (i : nat) (v : Z) : base_uint := alter (λ x, Z.lor x v) i pn.

Definition bu_shl (a : base_uint) (shift : Z) : base_uint :=
  let k := Z.to_nat (shift / 32) in
  let s := shift mod 32 in
  for_loop WIDTH (λ i pn,
    let pn := if bool_decide (i + k + 1 < WIDTH)%nat && negb (s =? 0)
              then or_limb pn (i + k + 1) (Z.shiftr (nth i a 0) (32 - s)) else pn in
    if bool_decide (i + k < WIDTH)%nat
    then or_limb pn (i + k) (u32 (Z.shiftl (nth i a 0) s)) else pn)
  (replicate WIDTH 0).

Definition bu_shr (a : base_uint) (shift : Z) : base_uint :=
  let k := Z.to_nat (shift / 32) in
  let s := shift mod 32 in
  for_loop WIDTH (λ i pn,
    let pn := if bool_decide (k + 1 <= i)%nat && negb (s =? 0)
              then or_limb pn (i - k - 1) (u32 (Z.shiftl (nth i a 0) (32 - s))) else pn in
    if bool_decide (k <= i)%nat
    then or_limb pn (i - k) (Z.shiftr (nth i a 0) s) else pn)
  (replicate WIDTH 0).

(** [operator+=(const base_uint&)]: the carry loop *)
Fixpoint add_loop (carry : Z) (pn b : base_uint) : base_uint :=
  match pn, b with
  | x :: pn', y :: b' =>
      let n := u64 (carry + x + y) in
      Z.land n 0xffffffff :: add_loop (Z.shiftr n 32) pn' b'
  | _, _ => []
  end.
Definition bu_add (pn b : base_uint) : base_uint := add_loop 0 pn b.
Definition bu_sub (pn b : base_uint) : base_uint := bu_add pn (bu_neg b).
Definition bu_add64 (pn : base_uint) (b64 : Z) : base_uint := bu_add pn (bu_of_u64 b64).
Definition bu_sub64 (pn : base_uint) (b64 : Z) : base_uint := bu_add pn (bu_neg (bu_of_u64 b64)).

(** The comparison loops run from limb [WIDTH-1] down to limb 0 and fall
    through to [dflt] when every limb agrees. *)
Fixpoint lt_loop (dflt : bool) (ra rb : list Z) : bool :=
  match ra, rb with
  | x :: ra', y :: rb' => if x <? y then true else if y <? x then false else lt_loop dflt ra' rb'
  | _, _ => dflt
  end.
Fixpoint gt_loop (dflt : bool) (ra rb : list Z) : bool :=
  match ra, rb with
  | x :: ra', y :: rb' => if y <? x then true else if x <? y then false else gt_loop dflt ra' rb'
  | _, _ => dflt
  end.
Definition bu_lt (a b : base_uint) : bool := lt_loop false (rev a) (rev b).
Definition bu_le (a b : base_uint) : bool := lt_loop true (rev a) (rev b).
Definition bu_gt (a b : base_uint) : bool := gt_loop false (rev a) (rev b).
Definition bu_ge (a b : base_uint) : bool := gt_loop true (rev a) (rev b).

Fixpoint bu_eq (a b : base_uint) : bool :=
  match a, b with
  | x :: a', y :: b' => if negb (x =? y) then false else bu_eq a' b'
  | _, _ => true
  end.
Definition bu_eq64 (a : base_uint) (b : Z) : bool :=
  if negb (nth 0 a 0 =? u32 b) then false
  else if negb (nth 1 a 0 =? u32 (Z.shiftr b 32)) then false
  else forallb (λ x, x =? 0) (drop 2 a).
Definition bu_ne (a b : base_uint) : bool := negb (bu_eq a b).
Definition bu_ne64 (a : base_uint) (b : Z) : bool := negb (bu_eq64 a b).

Definition Get64 (pn : base_uint) (n : nat) : Z :=
  Z.lor (nth (2 * n) pn 0) (Z.shiftl (nth (2 * n + 1) pn 0) 32).
Definition Get32 (pn : base_uint) (n : nat) : Z := nth n pn 0.

(** [bits()]: position of the highest set bit, counted from 1 *)
Fixpoint top_bit (x : Z) (bits : nat) : Z :=
  match bits with
  | O => 1
  | S b => if negb (Z.land x (u32 (Z.shiftl 1 (Z.of_nat bits))) =? 0)
           then Z.of_nat bits + 1 else top_bit x b
  end.
Fixpoint bits_loop (pn : base_uint) (pos : nat) : Z :=
  match pos with
  | O => 0
  | S p => if negb (nth p pn 0 =? 0) then 32 * Z.of_nat p + top_bit (nth p pn 0) 31
           else bits_loop pn p
  end.
Definition bits (pn : base_uint) : Z := bits_loop pn WIDTH.

(** Byte view of the limb array, and back *)
Definition getBytes (pn : base_uint) : list Z := concat (map (to_digits 256 4) pn).
Fixpoint limbs_of_bytes (bs : list Z) : base_uint :=
  match bs with
  | b0 :: b1 :: b2 :: b3 :: t => dval 256 [b0; b1; b2; b3] :: limbs_of_bytes t
  | _ => []
  end.

(** Constructor from [vector<unsigned char>] *)
Definition bu_of_vch (vch : list Z) : base_uint :=
  if bool_decide (length vch = 4 * WIDTH)%nat then limbs_of_bytes vch else bu_of_u64 0.

(** [GetHex]: eight hexadecimal digits per limb, most significant limb first *)
Definition hexchar (d : Z) : Z := if d <? 10 then 48 + d else 87 + d.
Definition hex8 (x : Z) : list Z := map hexchar (rev (to_digits 16 8 x)).
Definition GetHex (pn : base_uint) : list Z := concat (map hex8 (rev pn)).

(** [isspace], [tolower] of the C locale; [phexdigit[c]] *)
Definition isspace (c : Z) : bool := (c =? 32) || ((9 <=? c) && (c <=? 13)).
Definition tolower (c : Z) : Z := if (65 <=? c) && (c <=? 90) then c + 32 else c.
Definition phexdigit (c : Z) : Z :=
  if (48 <=? c) && (c <=? 57) then c - 48
  else if (65 <=? c) && (c <=? 70) then c - 55
  else if (97 <=? c) && (c <=? 102) then c - 87
  else 0.

Fixpoint skip_spaces (psz : list Z) : list Z :=
  match psz with
  | c :: t => if isspace c then skip_spaces t else psz
  | [] => []
  end.
Definition skip_0x (psz : list Z) : list Z :=
  match psz with
  | c0 :: c1 :: t => if (c0 =? 48) && (tolower c1 =? 120) then t else psz
  | _ => psz
  end.
Fixpoint hex_run (psz : list Z) : list Z :=
  match psz with
  | c :: t => if negb (phexdigit c =? 0) || (c =? 48) then c :: hex_run t else []
  | [] => []
  end.
(** The digits are consumed from the last one back, two per byte, until the
    [4 * WIDTH] bytes of the number are filled. *)
Fixpoint fill_bytes (n : nat) (rdigits : list Z) : list Z :=
  match n with
  | O => []
  | S n =>
      match rdigits with
      | [] => 0 :: fill_bytes n []
      | [d0] => phexdigit d0 :: fill_bytes n []
      | d0 :: d1 :: t => u8 (Z.lor (phexdigit d0) (Z.shiftl (phexdigit d1) 4)) :: fill_bytes n t
      end
  end.
Definition SetHex (psz : list Z) : base_uint :=
  limbs_of_bytes (fill_bytes (4 * WIDTH) (rev (hex_run (skip_0x (skip_spaces psz))))).

(** [Serialize] writes the limb array; [Unserialize] reads it back *)
Definition bu_Serialize (pn : base_uint) : list Z := getBytes pn.
Definition bu_Unserialize (s : list Z) : option (base_uint * list Z) :=
  if bool_decide (4 * WIDTH <= length s)%nat
  then Some (limbs_of_bytes (take (4 * WIDTH) s), drop (4 * WIDTH) s) else None.

End base_uint.

(** ** [uint160] and [uint256] *)

Abbreviation W160 := 5%nat.
Abbreviation W256 := 8%nat.

Definition uint160_zero : base_uint := replicate W160 0.
Definition uint256_zero : base_uint := replicate W256 0.

(** [SetCompact]: the value, [*pfNegative] and [*pfOverflow] *)
Definition SetCompact (nCompact : Z) : base_uint * bool * bool :=
  let nSize := Z.shiftr nCompact 24 in
  let nWord0 := Z.land nCompact 0x007fffff in
  let '(this, nWord) :=
    if nSize <=? 3 then
      let nWord := Z.shiftr nWord0 (8 * (3 - nSize)) in
      (bu_of_u64 W256 nWord, nWord)
    else (bu_shl W256 (bu_of_u64 W256 nWord0) (8 * (nSize - 3)), nWord0) in
  let fNegative := negb (nWord =? 0) && negb (Z.land nCompact 0x00800000 =? 0) in
  let fOverflow := negb (nWord =? 0) &&
    ((nSize >? 34) || ((nWord >? 0xff) && (nSize >? 33)) || ((nWord >? 0xffff) && (nSize >? 32))) in
  (this, fNegative, fOverflow).

(** [GetCompact]: [None] is a failed [assert] *)
Definition GetCompact (this : base_uint) (fNegative : bool) : option Z :=
  let nSize := (bits W256 this + 7) / 8 in
  let nCompact :=
    if nSize <=? 3 then u32 (u64 (Z.shiftl (Get64 this 0) (8 * (3 - nSize))))
    else u32 (Get64 (bu_shr W256 this (8 * (nSize - 3))) 0) in
  let '(nCompact, nSize) :=
    if negb (Z.land nCompact 0x00800000 =? 0) then (Z.shiftr nCompact 8, nSize + 1)
    else (nCompact, nSize) in
  if negb (Z.land nCompact (u32 (Z.lnot 0x007fffff)) =? 0) then None
  else if negb (nSize <? 256) then None
  else
    let nCompact := Z.lor nCompact (u32 (Z.shiftl nSize 24)) in
    Some (Z.lor nCompact
            (if fNegative && negb (Z.land nCompact 0x007fffff =? 0) then 0x00800000 else 0)).

(** [operator*=(uint32_t)] *)
Fixpoint mul32_loop (carry b32 : Z) (pn : base_uint) : base_uint :=
  match pn with
  | [] => []
  | x :: t =>
      let n := u64 (carry + u64 (b32 * x)) in
      Z.land n 0xffffffff :: mul32_loop (Z.shiftr n 32) b32 t
  end.
Definition uint256_mul32 (pn : base_uint) (b32 : Z) : base_uint := mul32_loop 0 b32 pn.

(** [operator*=(const uint256&)], exactly as written: the accumulator is the
    object itself, the multiplicand is the default-constructed [a], and [a] is
    what is stored at the end. *)
Definition uint256_mul (this b : base_uint) : base_uint :=
  let a := uint256_zero in
  let _pn :=
    for_loop W256 (λ j pn,
      fst (for_loop (W256 - j) (λ i '(pn, carry),
             let n := u64 (carry + nth (i + j) pn 0 + u64 (nth j a 0 * nth i b 0)) in
             (<[(i + j)%nat := Z.land n 0xffffffff]> pn, Z.shiftr n 32)) (pn, 0))) this in
  a.

(** [operator/=]: shift-and-subtract division; [None] is [uint256_error] *)
Fixpoint div_loop (shift1 : nat) (q num div : base_uint) : base_uint * base_uint :=
  match shift1 with
  | O => (q, num)
  | S shift =>
      let '(q, num) :=
        if bu_ge num div
        then (or_limb q (shift / 32)
                (u32 (Z.shiftl 1 (Z.land (Z.of_nat shift) 31))), bu_sub num div)
        else (q, num) in
      div_loop shift q num (bu_shr W256 div 1)
  end.
Definition uint256_div (this b : base_uint) : option base_uint :=
  let num_bits := bits W256 this in
  let div_bits := bits W256 b in
  if div_bits =? 0 then None
  else if div_bits >? num_bits then Some (bu_of_u64 W256 0)
  else
    let shift := num_bits - div_bits in
    Some (fst (div_loop (S (Z.to_nat shift)) (bu_of_u64 W256 0) this (bu_shl W256 b shift))).

(** ** Meaning of a limb array *)

Definition val (a : base_uint) : Z := dval (2 ^ 32) a.
Definition modulus (WIDTH : nat) : Z := (2 ^ 32) ^ Z.of_nat WIDTH.

(** Representation invariant: [WIDTH] limbs of 32 bits. *)
Record wf (WIDTH : nat) (a : base_uint) : Prop := {
  wf_length : length a = WIDTH;
  wf_limbs : digits_ok (2 ^ 32) a
}.

Lemma B32_pos : 0 < 2 ^ 32.
Proof. lia. Qed.
#[local] Hint Resolve B32_pos : core.

Lemma modulus_pos n : 0 < modulus n.
Proof. unfold modulus. apply Z.pow_pos_nonneg; lia. Qed.

Lemma modulus_S n : modulus (S n) = 2 ^ 32 * modulus n.
Proof. apply pow_succ_nat. Qed.

Lemma modulus_pow2 n : modulus n = 2 ^ (32 * Z.of_nat n).
Proof. unfold modulus. rewrite <- Z.pow_mul_r by lia. done. Qed.

(** Deciding well-formedness *)
Definition wfb (WIDTH : nat) (a : base_uint) : bool := (length a =? WIDTH)%nat && forallb (λ x, (0 <=? x) && (x <? 2 ^ 32)) a.
Lemma wfb_ok W a : wfb W a = true → wf W a.
Proof.
  intros [Hl Hd]%andb_true_iff. split; [by apply Nat.eqb_eq|]. apply Forall_forall. intros x Hx.
  rewrite forallb_forall in Hd. specialize (Hd x Hx). lia.
Qed.

Lemma val_range W a : wf W a → 0 <= val a < modulus W.
Proof. intros [<- H]. apply dval_bound; done. Qed.

Lemma val_inj W a b : wf W a → wf W b → val a = val b → a = b.
Proof. intros [Ha1 Ha2] [Hb1 Hb2]. apply dval_inj; auto. congruence. Qed.

Lemma wf_cons W x a : wf (S W) (x :: a) ↔ 0 <= x < 2 ^ 32 ∧ wf W a.
Proof.
  split.
  - intros [Hl Hd]. inversion Hd; subst. repeat split; simpl in *; auto; lia.
  - intros [Hx [Hl Hd]]. split; simpl; [lia|constructor; auto].
Qed.

Lemma wf_nil_inv a : wf 0 a → a = [].
Proof. intros [H _]. destruct a; done. Qed.

Lemma wf_S_inv W a : wf (S W) a → ∃ x t, a = x :: t ∧ 0 <= x < 2 ^ 32 ∧ wf W t.
Proof.
  intros H. destruct a as [|x t]; [destruct H; done|].
  exists x, t. apply wf_cons in H as [? ?]. auto.
Qed.

(** Induction over a well-formed number, limb by limb. *)
Ltac wf_ind W a :=
  revert a; induction W as [|W IH]; intros a Ha;
  [ apply wf_nil_inv in Ha as -> | apply wf_S_inv in Ha as (x & t & -> & Hx & Ht) ].

Lemma limb_not_eq x : 0 <= x < 2 ^ 32 → limb_not x = 2 ^ 32 - 1 - x.
Proof. intros. unfold limb_not. assert (E := Z.add_lnot_diag x). mlia. Qed.

Lemma wf_zero W : wf W (replicate W 0).
Proof. split; [apply length_replicate|apply digits_ok_replicate_0; lia]. Qed.

Lemma val_zero W : val (replicate W 0) = 0.
Proof. apply dval_replicate_0. Qed.

Lemma bu_not_ok W a : wf W a → wf W (bu_not a) ∧ val (bu_not a) = modulus W - 1 - val a.
Proof.
  intros Ha. revert Ha. wf_ind W a; [done|].
  destruct (IH t Ht) as [Hw Hv]. unfold bu_not, val in *. simpl.
  rewrite limb_not_eq by done. rewrite wf_cons, modulus_S, Hv. split; [split; [lia|done]|lia].
Qed.

Lemma bu_inc_ok W a : wf W a → wf W (bu_inc a) ∧ val (bu_inc a) = (val a + 1) mod modulus W.
Proof.
  intros Ha. revert Ha. wf_ind W a; [done|].
  destruct (IH t Ht) as [Hw Hv]. assert (Hr := val_range _ _ Ht).
  assert (Hm := modulus_pos W). simpl. unfold val in *. rewrite modulus_S. simpl.
  destruct (u32 (x + 1) =? 0) eqn:E; simpl.
  - assert (x = 2 ^ 32 - 1) as -> by mlia. assert (u32 (2 ^ 32 - 1 + 1) = 0) as -> by mlia.
    case_bool_decide as Hn; simpl.
    + subst t. apply wf_length in Ht. simpl in Ht. subst W. simpl. rewrite wf_cons.
      split; [split; [lia|done]|]. unfold modulus. simpl. rewrite Z_mod_same_full. lia.
    + rewrite wf_cons. split; [split; [lia|done]|]. rewrite Hv.
      replace (2 ^ 32 - 1 + 2 ^ 32 * dval (2 ^ 32) t + 1) with (2 ^ 32 * (dval (2 ^ 32) t + 1)) by ring.
      rewrite Z.mul_mod_distr_l; lia.
  - assert (u32 (x + 1) = x + 1) as -> by mlia. assert (x + 1 < 2 ^ 32) by mlia.
    rewrite wf_cons. split; [split; [lia|done]|]. simpl. rewrite Z.mod_small; nia.
Qed.

Lemma bu_dec_ok W a : wf W a → wf W (bu_dec a) ∧ val (bu_dec a) = (val a - 1) mod modulus W.
Proof.
  intros Ha. revert Ha. wf_ind W a; [done|].
  destruct (IH t Ht) as [Hw Hv]. assert (Hr := val_range _ _ Ht).
  assert (Hm := modulus_pos W). simpl. unfold val in *. rewrite modulus_S. simpl. change (u32 (-1)) with (2 ^ 32 - 1).
  destruct (u32 (x - 1) =? 2 ^ 32 - 1) eqn:E; simpl.
  - assert (x = 0) as -> by mlia. assert (u32 (0 - 1) = 2 ^ 32 - 1) as -> by mlia.
    case_bool_decide as Hn; simpl.
    + subst t. apply wf_length in Ht. simpl in Ht. subst W. simpl. rewrite wf_cons. done.
    + rewrite wf_cons. split; [split; [lia|done]|]. rewrite Hv.
      replace (0 + 2 ^ 32 * dval (2 ^ 32) t - 1) with (2 ^ 32 - 1 + 2 ^ 32 * (dval (2 ^ 32) t - 1)) by ring.
      pose proof (Z.div_mod (dval (2 ^ 32) t - 1) (modulus W) ltac:(lia)) as Hd.
      apply Z.mod_unique with (q := (dval (2 ^ 32) t - 1) / modulus W); [left|]; pose proof (Z.mod_pos_bound (dval (2 ^ 32) t - 1) (modulus W) Hm); nia.
  - assert (u32 (x - 1) = x - 1) as -> by mlia. assert (0 < x) by mlia.
    rewrite wf_cons. split; [split; [lia|done]|]. simpl. rewrite Z.mod_small; nia.
Qed.

(** A bitwise operation limb by limb is the operation on the values *)
Lemma bitwise_limbs (op : Z → Z → Z) (f : bool → bool → bool) W a b : (∀ x y k, 0 <= k → Z.testbit (op x y) k = f (Z.testbit x k) (Z.testbit y k)) → f false false = false →
  (∀ x y, 0 <= x → 0 <= y → 0 <= op x y) → wf W a → wf W b → wf W (zip_with op a b) ∧ val (zip_with op a b) = op (val a) (val b).
Proof.
  intros Hop Hf Hpos Ha. revert b. revert Ha. wf_ind W a; intros b Hb.
  - apply wf_nil_inv in Hb as ->. cbn. split; [done|]. symmetry. apply Z.bits_inj'. intros k Hk. by rewrite Hop, Z.testbit_0_l, Hf.
  - apply wf_S_inv in Hb as (y & s & -> & Hy & Hs). destruct (IH t Ht s Hs) as [Hw Hv]. cbn [zip_with].
    assert (Hlow : 0 <= op x y < 2 ^ 32).
    { split; [apply Hpos; lia|]. apply Z.log2_lt_cancel. cbn -[Z.log2]. rewrite Z.log2_pow2 by lia.
      destruct (Z.lt_ge_cases (Z.log2 (op x y)) 32) as [|Hge]; [done|].
      assert (0 < op x y) by (destruct (Z.eq_dec (op x y) 0) as [E|]; [rewrite E in Hge; cbn in Hge; lia|pose proof (Hpos x y); lia]).
      pose proof (Z.bit_log2 (op x y) ltac:(done)) as Hbit. rewrite Hop in Hbit by (apply Z.log2_nonneg).
      rewrite (Z.bits_above_log2 x), (Z.bits_above_log2 y), Hf in Hbit; [done|lia| |lia|]; (eapply Z.lt_le_trans; [|exact Hge]);
        (destruct (Z.eq_dec x 0) as [->|]; destruct (Z.eq_dec y 0) as [->|]; try (cbn; lia)); apply Z.log2_lt_pow2; lia. }
    rewrite wf_cons. split; [done|]. unfold val in *. cbn [dval]. rewrite Hv. symmetry. apply Z.bits_inj'. intros k Hk. rewrite Hop by done.
    assert (Hsplit : ∀ u v k, 0 <= u < 2 ^ 32 → 0 <= k → Z.testbit (u + 2 ^ 32 * v) k = if k <? 32 then Z.testbit u k else Z.testbit v (k - 32)).
    { intros u v i Hu Hi. destruct (Z.ltb_spec i 32).
      - rewrite <- (Z.mod_pow2_bits_low (u + 2 ^ 32 * v) 32 i) by lia. rewrite Z.mul_comm, Z_mod_plus_full, Z.mod_small by lia. done.
      - replace i with (i - 32 + 32) at 1 by lia. rewrite <- Z.div_pow2_bits by lia. rewrite Z.mul_comm, Z.div_add, Z.div_small, Z.add_0_l by lia. done. }
    rewrite !Hsplit by lia. destruct (Z.ltb_spec k 32); rewrite Hop by lia; done.
Qed.
Lemma bu_xor_ok W a b : wf W a → wf W b → wf W (bu_xor a b) ∧ val (bu_xor a b) = Z.lxor (val a) (val b).
Proof. apply (bitwise_limbs Z.lxor xorb); [by intros; apply Z.lxor_spec|done|]. intros x y Hx Hy. by apply Z.lxor_nonneg. Qed.
Lemma bu_and_ok W a b : wf W a → wf W b → wf W (bu_and a b) ∧ val (bu_and a b) = Z.land (val a) (val b).
Proof. apply (bitwise_limbs Z.land andb); [by intros; apply Z.land_spec|done|]. intros x y Hx Hy. apply Z.land_nonneg. by left. Qed.
Lemma bu_or_ok W a b : wf W a → wf W b → wf W (bu_or a b) ∧ val (bu_or a b) = Z.lor (val a) (val b).
Proof. apply (bitwise_limbs Z.lor orb); [by intros; apply Z.lor_spec|done|]. intros x y Hx Hy. by apply Z.lor_nonneg. Qed.

Lemma add_loop_ok W a b c : wf W a → wf W b → 0 <= c <= 1 →
  wf W (add_loop c a b) ∧ val (add_loop c a b) = (c + val a + val b) mod modulus W.
Proof.
  intros Ha Hb. revert b c Hb. revert Ha.
  wf_ind W a; intros b c Hb Hc.
  - apply wf_nil_inv in Hb as ->. simpl. unfold val, modulus. simpl. rewrite Z.mod_1_r. done.
  - apply wf_S_inv in Hb as (y & s & -> & Hy & Hs). simpl.
    rewrite u64_small by lia.
    change 0xffffffff with (Z.ones 32). rewrite Z.land_ones, Z.shiftr_div_pow2 by lia.
    set (n := c + x + y). assert (0 <= n / 2 ^ 32 <= 1) as Hc'.
    { subst n. Z.div_mod_to_equations. lia. }
    destruct (IH t Ht s (n / 2 ^ 32) Hs Hc') as [Hw Hv]. assert (Hm := modulus_pos W).
    rewrite wf_cons. split; [split; [apply Z.mod_pos_bound; lia|done]|].
    unfold val in *. simpl. rewrite Hv, modulus_S.
    rewrite (Z.rem_mul_r (c + (x + 2 ^ 32 * dval (2 ^ 32) t) + (y + 2 ^ 32 * dval (2 ^ 32) s))
               (2 ^ 32) (modulus W)) by lia.
    replace (c + (x + 2 ^ 32 * dval (2 ^ 32) t) + (y + 2 ^ 32 * dval (2 ^ 32) s))
      with (n + (dval (2 ^ 32) t + dval (2 ^ 32) s) * 2 ^ 32) by (subst n; ring).
    rewrite Z_mod_plus_full, Z.div_add by lia.
    do 3 f_equal. lia.
Qed.

Lemma bu_add_ok W a b : wf W a → wf W b →
  wf W (bu_add a b) ∧ val (bu_add a b) = (val a + val b) mod modulus W.
Proof. intros. apply (add_loop_ok W a b 0); auto. lia. Qed.

Lemma bu_neg_ok W a : wf W a → wf W (bu_neg a) ∧ val (bu_neg a) = (- val a) mod modulus W.
Proof.
  intros Ha. destruct (bu_not_ok W a Ha) as [Hw Hv].
  destruct (bu_inc_ok W (bu_not a) Hw) as [Hw' Hv'].
  split; [done|]. change (bu_neg a) with (bu_inc (bu_not a)). rewrite Hv', Hv.
  replace (modulus W - 1 - val a + 1) with (- val a + 1 * modulus W) by ring.
  apply Z_mod_plus_full.
Qed.

Lemma bu_sub_ok W a b : wf W a → wf W b →
  wf W (bu_sub a b) ∧ val (bu_sub a b) = (val a - val b) mod modulus W.
Proof.
  intros Ha Hb. destruct (bu_neg_ok W b Hb) as [Hw Hv].
  destruct (bu_add_ok W a (bu_neg b) Ha Hw) as [Hw' Hv'].
  split; [done|]. unfold bu_sub. rewrite Hv', Hv. rewrite Zplus_mod_idemp_r. done.
Qed.

Lemma bu_of_u64_ok W b : (2 <= W)%nat → 0 <= b < 2 ^ 64 →
  wf W (bu_of_u64 W b) ∧ val (bu_of_u64 W b) = b.
Proof.
  intros HW Hb. destruct W as [|[|W]]; [lia..|]. unfold bu_of_u64.
  replace (S (S W) - 2)%nat with W by lia.
  rewrite !wf_cons. split.
  - repeat split; auto with nova; try apply wf_zero; mlia.
  - unfold val. cbn [dval]. rewrite dval_replicate_0, Z.shiftr_div_pow2 by lia. mlia.
Qed.

(** ** Shifts *)

Lemma length_or_limb pn i v : length (or_limb pn i v) = length pn.
Proof. apply length_alter. Qed.

Lemma nth_or_limb pn i v m : (i < length pn)%nat →
  nth m (or_limb pn i v) 0 = if decide (m = i) then Z.lor (nth m pn 0) v else nth m pn 0.
Proof.
  intros Hi. unfold or_limb. rewrite !nth_lookup, list_lookup_alter.
  destruct (decide (i = m)) as [->|Hne]; case_decide; try congruence.
  apply lookup_lt_is_Some_2 in Hi as [y Hy]. rewrite Hy. done.
Qed.

(** Both shift loops only ever [or] values into limbs, so limb [m] of the result
    is the [or] of what the iterations contribute to it. *)
Lemma lor_loop_single n p (f : nat → Z) : (∀ i, i ≠ p → f i = 0) →
  for_loop n (λ i acc, Z.lor acc (f i)) 0 = if decide (p < n)%nat then f p else 0.
Proof.
  intros Hf. induction n as [|n IH]; [done|]. rewrite for_loop_S, IH.
  destruct (decide (n = p)) as [->|Hne].
  - repeat case_decide; try lia. apply Z.lor_0_l.
  - rewrite (Hf n Hne), Z.lor_0_r. repeat case_decide; try lia; done.
Qed.

Lemma lor_loop_split n (f g : nat → Z) :
  for_loop n (λ i acc, Z.lor (Z.lor acc (f i)) (g i)) 0 =
  Z.lor (for_loop n (λ i acc, Z.lor acc (f i)) 0) (for_loop n (λ i acc, Z.lor acc (g i)) 0).
Proof.
  induction n as [|n IH]; [done|]. rewrite !for_loop_S, IH.
  apply Z.bits_inj'. intros j _. rewrite !Z.lor_spec. btauto.
Qed.

Lemma or_loop_nth n W m (hc lc : nat → bool) (hi lo : nat → nat) (hv lv : nat → Z) : (m < W)%nat →
  (∀ i, i < n → hc i = true → hi i < W)%nat → (∀ i, i < n → lc i = true → lo i < W)%nat →
  nth m (for_loop n (λ i pn,
    let pn := if hc i then or_limb pn (hi i) (hv i) else pn in
    if lc i then or_limb pn (lo i) (lv i) else pn) (replicate W 0)) 0 =
  Z.lor (for_loop n (λ i acc, Z.lor acc (if hc i && bool_decide (m = hi i) then hv i else 0)) 0)
        (for_loop n (λ i acc, Z.lor acc (if lc i && bool_decide (m = lo i) then lv i else 0)) 0).
Proof.
  intros Hm Hhi Hlo. rewrite <- lor_loop_split.
  match goal with |- nth m (for_loop _ ?F _) 0 = for_loop _ ?G _ =>
    cut (length (for_loop n F (replicate W 0)) = W ∧
         nth m (for_loop n F (replicate W 0)) 0 = for_loop n G 0); [tauto|] end.
  induction n as [|n IHn].
  - split; [apply length_replicate|]. rewrite !for_loop_0, nth_lookup, lookup_replicate_2; done.
  - destruct IHn as [IHl IH]; [intros; apply Hhi; auto; lia|intros; apply Hlo; auto; lia|].
    rewrite !for_loop_S. cbv zeta in *. specialize (Hhi n ltac:(lia)). specialize (Hlo n ltac:(lia)).
    rewrite <- IH.
    destruct (hc n), (lc n); rewrite ?length_or_limb; (split; [done|]);
      rewrite ?nth_or_limb by (rewrite ?length_or_limb, IHl; auto);
      repeat case_decide; repeat case_bool_decide; try congruence; simpl;
      rewrite ?Z.lor_0_r; done.
Qed.

(** Limb [m] of [a << shift]. *)
Lemma bu_shl_nth W a shift m : (m < W)%nat → 
  let k := Z.to_nat (shift / 32) in let s := shift mod 32 in
  nth m (bu_shl W a shift) 0 =
  Z.lor (if bool_decide (k + 1 <= m)%nat && negb (s =? 0)
         then Z.shiftr (nth (m - k - 1) a 0) (32 - s) else 0)
        (if bool_decide (k <= m)%nat then u32 (Z.shiftl (nth (m - k) a 0) s) else 0).
Proof.
  intros Hm k s. unfold bu_shl. fold k s.
  rewrite or_loop_nth; try done.
  2: { intros i _. rewrite andb_true_iff, bool_decide_eq_true. tauto. }
  2: { intros i _. rewrite bool_decide_eq_true. tauto. }
  rewrite (lor_loop_single _ (m - k - 1)), (lor_loop_single _ (m - k)).
  - f_equal; destruct (s =? 0); repeat case_decide; repeat case_bool_decide; simpl; try lia; done.
  - intros i Hi. repeat case_bool_decide; simpl; try lia; done.
  - intros i Hi. destruct (s =? 0); repeat case_bool_decide; simpl; try lia; done.
Qed.

(** Limb [m] of [a >> shift]. *)
Lemma bu_shr_nth W a shift m : (m < W)%nat →
  let k := Z.to_nat (shift / 32) in let s := shift mod 32 in
  nth m (bu_shr W a shift) 0 =
  Z.lor (if bool_decide (m + k + 1 < W)%nat && negb (s =? 0)
         then u32 (Z.shiftl (nth (m + k + 1) a 0) (32 - s)) else 0)
        (if bool_decide (m + k < W)%nat then Z.shiftr (nth (m + k) a 0) s else 0).
Proof.
  intros Hm k s. unfold bu_shr. fold k s.
  rewrite or_loop_nth by (intros; lia || done).
  rewrite (lor_loop_single _ (m + k + 1)), (lor_loop_single _ (m + k)).
  - f_equal; destruct (s =? 0); repeat case_decide; repeat case_bool_decide; simpl; try lia; done.
  - intros i Hi. repeat case_bool_decide; simpl; try lia; done.
  - intros i Hi. destruct (s =? 0); repeat case_bool_decide; simpl; try lia; done.
Qed.

Lemma or_loop_length n W (hc lc : nat → bool) (hi lo : nat → nat) (hv lv : nat → Z) :
  length (for_loop n (λ i pn,
    let pn := if hc i then or_limb pn (hi i) (hv i) else pn in
    if lc i then or_limb pn (lo i) (lv i) else pn) (replicate W 0)) = W.
Proof.
  apply for_loop_ind; [apply length_replicate|].
  intros i s _ Hs. cbv zeta. destruct (hc i), (lc i); rewrite ?length_or_limb; done.
Qed.

Lemma length_bu_shl W a shift : length (bu_shl W a shift) = W.
Proof. apply or_loop_length. Qed.
Lemma length_bu_shr W a shift : length (bu_shr W a shift) = W.
Proof. apply or_loop_length. Qed.

Lemma lor_limb x y : 0 <= x < 2 ^ 32 → 0 <= y < 2 ^ 32 → 0 <= Z.lor x y < 2 ^ 32.
Proof.
  intros Hx Hy. assert (0 <= Z.lor x y) by (apply Z.lor_nonneg; lia). split; [done|].
  destruct (decide (Z.lor x y = 0)) as [->|]; [lia|].
  apply Z.log2_lt_pow2; [lia|]. rewrite Z.log2_lor by lia.
  apply Z.max_lub_lt; [destruct (decide (x = 0)) as [->|]|destruct (decide (y = 0)) as [->|]];
    try (simpl; lia); apply Z.log2_lt_pow2; lia.
Qed.

Lemma shiftr_limb x n : 0 <= x < 2 ^ 32 → 0 <= n → 0 <= Z.shiftr x n < 2 ^ 32.
Proof.
  intros. rewrite Z.shiftr_div_pow2 by done.
  assert (0 < 2 ^ n) by (apply Z.pow_pos_nonneg; lia).
  split; [apply Z.div_pos; lia|]. apply Z.div_lt_upper_bound; nia.
Qed.

Lemma digits_ok_nth B l : (∀ i, (i < length l)%nat → 0 <= nth i l 0 < B) → digits_ok B l.
Proof.
  intros H. apply Forall_lookup. intros i x Hx. specialize (H i (lookup_lt_Some _ _ _ Hx)).
  rewrite nth_lookup, Hx in H. done.
Qed.

Lemma wf_bu_shl W a shift : wf W a → 0 <= shift → wf W (bu_shl W a shift).
Proof.
  intros [Hl Hd] Hs. split; [apply length_bu_shl|]. apply digits_ok_nth.
  intros i Hi. rewrite length_bu_shl in Hi. rewrite bu_shl_nth by done.
  assert (0 <= shift mod 32 < 32) by (apply Z.mod_pos_bound; lia).
  apply lor_limb; case_match; auto with nova; try lia.
  apply shiftr_limb; [apply digits_nth; auto|lia].
Qed.

Lemma wf_bu_shr W a shift : wf W a → 0 <= shift → wf W (bu_shr W a shift).
Proof.
  intros [Hl Hd] Hs. split; [apply length_bu_shr|]. apply digits_ok_nth.
  intros i Hi. rewrite length_bu_shr in Hi. rewrite bu_shr_nth by done.
  assert (0 <= shift mod 32 < 32) by (apply Z.mod_pos_bound; lia).
  apply lor_limb; case_match; auto with nova; try lia.
  apply shiftr_limb; [apply digits_nth; auto|lia].
Qed.

Lemma val_testbit W a j : wf W a → 0 <= j →
  Z.testbit (val a) j = Z.testbit (nth (Z.to_nat (j / 32)) a 0) (j mod 32).
Proof. intros [_ Hd] Hj. apply dval_testbit; auto; lia. Qed.

Lemma val_testbit_above W a j : wf W a → 32 * Z.of_nat W <= j → Z.testbit (val a) j = false.
Proof.
  intros Ha Hj. apply (testbit_above _ (32 * Z.of_nat W)); [|done].
  rewrite <- modulus_pow2. apply val_range. done.
Qed.

Lemma u32_testbit x i : 0 <= i → Z.testbit (u32 x) i = (i <? 32) && Z.testbit x i.
Proof.
  intros. unfold u32. destruct (Z.ltb_spec i 32).
  - rewrite Z.mod_pow2_bits_low by lia. done.
  - rewrite Z.mod_pow2_bits_high by lia. done.
Qed.

Lemma limb_testbit_high W a m i : wf W a → 32 <= i → Z.testbit (nth m a 0) i = false.
Proof. intros [_ Hd] Hi. apply (testbit_above _ 32); [apply digits_nth; auto|done]. Qed.

Lemma divmod_unique x q r : x = 32 * q + r → 0 <= r < 32 → x / 32 = q ∧ x mod 32 = r.
Proof. intros. split; [symmetry; apply (Z.div_unique x 32 q r)|symmetry; apply (Z.mod_unique x 32 q r)]; lia. Qed.

Lemma bu_shl_ok W a n : wf W a → 0 <= n →
  val (bu_shl W a n) = (val a * 2 ^ n) mod modulus W.
Proof.
  intros Ha Hn. apply Z.bits_inj'. intros j Hj.
  assert (Hw := wf_bu_shl W a n Ha Hn). rewrite modulus_pow2.
  destruct (Z.lt_ge_cases j (32 * Z.of_nat W)) as [Hlt|Hge];
    [|rewrite (val_testbit_above W) by done; rewrite Z.mod_pow2_bits_high by lia; done].
  rewrite Z.mod_pow2_bits_low, Z.mul_pow2_bits by lia.
  rewrite (val_testbit W) by done.
  assert (Hjd := Z.div_mod j 32 ltac:(lia)). assert (Hjm := Z.mod_pos_bound j 32 ltac:(lia)).
  assert (Hnd := Z.div_mod n 32 ltac:(lia)). assert (Hnm := Z.mod_pos_bound n 32 ltac:(lia)).
  assert (0 <= j / 32) by (apply Z.div_pos; lia). assert (0 <= n / 32) by (apply Z.div_pos; lia).
  rewrite bu_shl_nth by lia. rewrite Z.lor_spec.
  destruct (Z.lt_ge_cases (j - n) 0) as [Hneg|Hpos].
  { rewrite (Z.testbit_neg_r (val a)) by done.
    case_bool_decide; simpl; [lia|]. rewrite Z.bits_0. case_bool_decide; [|apply Z.bits_0].
    rewrite u32_testbit, Z.shiftl_spec, (Z.testbit_neg_r (nth _ a 0)) by lia. apply andb_false_r. }
  rewrite (val_testbit W) by done. simpl.
  destruct (Z.lt_ge_cases (j mod 32) (n mod 32)) as [Hr|Hr].
  - destruct (divmod_unique (j - n) (j / 32 - n / 32 - 1) (j mod 32 - n mod 32 + 32)) as [-> ->]; [lia..|].
    repeat case_bool_decide; destruct (Z.eqb_spec (n mod 32) 0); try lia; simpl.
    rewrite Z.shiftr_spec, u32_testbit, Z.shiftl_spec by lia.
    rewrite (Z.testbit_neg_r (nth _ a 0) (j mod 32 - n mod 32)) by lia.
    rewrite andb_false_r, orb_false_r. f_equal; [f_equal|]; lia.
  - destruct (divmod_unique (j - n) (j / 32 - n / 32) (j mod 32 - n mod 32)) as [-> ->]; [lia..|].
    rewrite (bool_decide_eq_true_2 (Z.to_nat (n / 32) <= Z.to_nat (j / 32))%nat) by lia.
    rewrite u32_testbit, Z.shiftl_spec, (proj2 (Z.ltb_lt _ _)) by lia. simpl.
    match goal with |- ?x || _ = _ => assert (x = false) as -> end.
    + case_match; [|apply Z.bits_0]. rewrite Z.shiftr_spec by lia.
      apply (limb_testbit_high W); [done|lia].
    + simpl. do 2 f_equal. lia.
Qed.

Lemma bu_shr_ok W a n : wf W a → 0 <= n → val (bu_shr W a n) = val a / 2 ^ n.
Proof.
  intros Ha Hn. apply Z.bits_inj'. intros j Hj.
  assert (Hw := wf_bu_shr W a n Ha Hn).
  rewrite Z.div_pow2_bits by lia.
  assert (Hjd := Z.div_mod j 32 ltac:(lia)). assert (Hjm := Z.mod_pos_bound j 32 ltac:(lia)).
  assert (Hnd := Z.div_mod n 32 ltac:(lia)). assert (Hnm := Z.mod_pos_bound n 32 ltac:(lia)).
  assert (0 <= j / 32) by (apply Z.div_pos; lia). assert (0 <= n / 32) by (apply Z.div_pos; lia).
  destruct (Z.lt_ge_cases j (32 * Z.of_nat W)) as [Hlt|Hge];
    [|rewrite !(val_testbit_above W) by (done || lia); done].
  rewrite !(val_testbit W) by (done || lia).
  rewrite bu_shr_nth by lia. rewrite Z.lor_spec.
  assert (Hov : ∀ m, (W <= m)%nat → nth m a 0 = 0).
  { intros m Hm. apply nth_overflow. destruct Ha. lia. }
  destruct (Z.lt_ge_cases (j mod 32 + n mod 32) 32) as [Hr|Hr].
  - destruct (divmod_unique (j + n) (j / 32 + n / 32) (j mod 32 + n mod 32)) as [-> ->]; [lia..|].
    rewrite Z2Nat.inj_add by lia.
    match goal with |- ?x || _ = _ => assert (x = false) as -> end.
    + case_match eqn:E; [|apply Z.bits_0].
      apply andb_true_iff in E as [_ E]. rewrite u32_testbit, Z.shiftl_spec by lia.
      rewrite (Z.testbit_neg_r (nth _ a 0)) by lia. apply andb_false_r.
    + simpl. case_bool_decide; [rewrite Z.shiftr_spec by lia; done|].
      rewrite Hov, !Z.bits_0 by lia. done.
  - destruct (divmod_unique (j + n) (j / 32 + n / 32 + 1) (j mod 32 + n mod 32 - 32)) as [-> ->]; [lia..|].
    destruct (Z.eqb_spec (n mod 32) 0) as [|Hs]; [lia|]. rewrite andb_true_r.
    assert (Z.to_nat (j / 32 + n / 32 + 1) = (Z.to_nat (j / 32) + Z.to_nat (n / 32) + 1)%nat) as -> by lia.
    match goal with |- _ || ?x = _ => assert (x = false) as -> end.
    + case_bool_decide; [|apply Z.bits_0]. rewrite Z.shiftr_spec by lia.
      apply (limb_testbit_high W); [done|lia].
    + rewrite orb_false_r. case_bool_decide.
      * rewrite u32_testbit, Z.shiftl_spec, (proj2 (Z.ltb_lt _ _)) by lia. simpl. f_equal. lia.
      * rewrite Hov, !Z.bits_0 by lia. done.
Qed.

(** ** Comparisons *)

Lemma val_snoc l x : val (l ++ [x]) = val l + modulus (length l) * x.
Proof. unfold val. rewrite dval_app by done. simpl. unfold modulus. lia. Qed.

Lemma wf_snoc_inv W a : wf (S W) a → ∃ x t, a = t ++ [x] ∧ 0 <= x < 2 ^ 32 ∧ wf W t.
Proof.
  intros [Hl Hd]. destruct (exists_last (l := a)) as (t & x & ->); [destruct a; done|].
  exists x, t. rewrite Forall_app, Forall_singleton in Hd. destruct Hd as [Hd Hx].
  rewrite length_app in Hl. simpl in Hl. repeat split; auto; try lia.
Qed.

(** Scanning from the top limb decides the order of the values. *)
Lemma lt_loop_ok W d a b : wf W a → wf W b →
  lt_loop d (rev a) (rev b) = (val a <? val b) || (d && (val a =? val b)).
Proof.
  revert a b. induction W as [|W IH]; intros a b Ha Hb.
  - apply wf_nil_inv in Ha as ->. apply wf_nil_inv in Hb as ->. simpl. rewrite andb_true_r. done.
  - apply wf_snoc_inv in Ha as (x & s & -> & Hx & Hs). apply wf_snoc_inv in Hb as (y & t & -> & Hy & Ht).
    rewrite !rev_app_distr, !val_snoc. simpl. rewrite (wf_length _ _ Hs), (wf_length _ _ Ht), (IH s t) by done.
    assert (Hsr := val_range _ _ Hs). assert (Htr := val_range _ _ Ht).
    destruct (Z.ltb_spec x y), (Z.ltb_spec y x), (Z.ltb_spec (val s) (val t)), (Z.eqb_spec (val s) (val t)),
      (Z.ltb_spec (val s + modulus W * x) (val t + modulus W * y)),
      (Z.eqb_spec (val s + modulus W * x) (val t + modulus W * y)); simpl; rewrite ?andb_false_r; try done; nia.
Qed.

Lemma gt_lt_loop d a b : gt_loop d a b = lt_loop d b a.
Proof. revert b. induction a as [|x a IH]; intros [|y b]; simpl; rewrite ?IH; done. Qed.

Lemma bu_lt_ok W a b : wf W a → wf W b → bu_lt a b = (val a <? val b).
Proof. intros. unfold bu_lt. rewrite (lt_loop_ok W) by done. simpl. apply orb_false_r. Qed.
Lemma bu_le_ok W a b : wf W a → wf W b → bu_le a b = (val a <=? val b).
Proof. intros. unfold bu_le. rewrite (lt_loop_ok W) by done. simpl. lia. Qed.
Lemma bu_gt_ok W a b : wf W a → wf W b → bu_gt a b = (val b <? val a).
Proof. intros. unfold bu_gt. rewrite gt_lt_loop, (lt_loop_ok W) by done. simpl. apply orb_false_r. Qed.
Lemma bu_ge_ok W a b : wf W a → wf W b → bu_ge a b = (val b <=? val a).
Proof. intros. unfold bu_ge. rewrite gt_lt_loop, (lt_loop_ok W) by done. simpl. lia. Qed.

Lemma bu_eq_ok W a b : wf W a → wf W b → bu_eq a b = (val a =? val b).
Proof.
  intros Ha Hb. destruct (bu_eq a b) eqn:E.
  - cut (a = b); [intros ->; symmetry; apply Z.eqb_refl|].
    destruct Ha as [Ha _], Hb as [Hb _]. revert a b Ha Hb E.
    induction W; intros [|x a] [|y b]; simpl; try done; intros Ha Hb.
    destruct (Z.eqb_spec x y) as [->|]; simpl; [|done]. intros. f_equal. apply IHW; auto.
  - symmetry. apply Z.eqb_neq. intros Hv. apply (val_inj W) in Hv; auto. subst b. clear Ha Hb.
    induction a as [|x a IH]; simpl in E; [done|]. rewrite Z.eqb_refl in E. auto.
Qed.

(** ** [bits()] *)

Definition bitlen (z : Z) : Z := if z =? 0 then 0 else Z.log2 z + 1.

Lemma land_pow2 x n : 0 <= n → Z.land x (2 ^ n) = if Z.testbit x n then 2 ^ n else 0.
Proof.
  intros Hn. apply Z.bits_inj'. intros i Hi. rewrite Z.land_spec, Z.pow2_bits_eqb by done.
  destruct (Z.eqb_spec n i) as [->|].
  - destruct (Z.testbit x i); simpl; rewrite ?Z.pow2_bits_eqb, ?Z.eqb_refl, ?Z.bits_0 by done; done.
  - rewrite andb_false_r. destruct (Z.testbit x n); rewrite ?Z.bits_0, ?Z.pow2_bits_eqb by done; [|done].
    symmetry. apply Z.eqb_neq. done.
Qed.

Lemma top_bit_ok n x : (n < 32)%nat → 0 < x < 2 ^ (Z.of_nat n + 1) → top_bit x n = Z.log2 x + 1.
Proof.
  induction n as [|n IH]; intros Hn Hx.
  - simpl in *. assert (x = 1) as -> by lia. done.
  - unfold top_bit. fold top_bit. rewrite Z.shiftl_1_l, u32_small.
    2: { split; [apply Z.pow_nonneg; lia|apply Z.pow_lt_mono_r; lia]. }
    rewrite land_pow2 by lia.
    assert (0 < 2 ^ Z.of_nat (S n)) by (apply Z.pow_pos_nonneg; lia).
    destruct (Z.testbit x (Z.of_nat (S n))) eqn:E.
    + destruct (Z.eqb_spec (2 ^ Z.of_nat (S n)) 0); [lia|]. simpl negb. cbv iota.
      f_equal. symmetry. apply Z.log2_unique; [lia|]. split; [|lia].
      destruct (Z.lt_ge_cases x (2 ^ Z.of_nat (S n))); [|lia].
      rewrite (testbit_above x (Z.of_nat (S n))) in E by lia. done.
    + simpl negb. cbv iota. apply IH; [lia|].
      destruct (Z.lt_ge_cases x (2 ^ Z.of_nat (S n))) as [|Hge]; [replace (Z.of_nat n + 1) with (Z.of_nat (S n)) by lia; lia|].
      assert (Z.log2 x = Z.of_nat (S n)) as Hl by (apply Z.log2_unique; lia).
      rewrite <- Hl, Z.bit_log2 in E by lia. done.
Qed.

Lemma bits_ok W a : wf W a → bits W a = bitlen (val a).
Proof.
  unfold bits. revert a. induction W as [|W IH]; intros a Ha.
  - apply wf_nil_inv in Ha as ->. done.
  - apply wf_snoc_inv in Ha as (x & t & -> & Hx & Ht). cbn [bits_loop].
    assert (Hlen := wf_length _ _ Ht). assert (Hr := val_range _ _ Ht).
    assert (nth W (t ++ [x]) 0 = x) as -> by (rewrite app_nth2, Hlen, Nat.sub_diag by lia; done).
    assert (Hpre : ∀ p, (p <= W)%nat → bits_loop (t ++ [x]) p = bits_loop t p).
    { induction p as [|p IHp]; intros Hp; [done|]. simpl. rewrite app_nth1, IHp by lia. done. }
    rewrite Hpre, IH, val_snoc, Hlen by (done || lia). unfold bitlen.
    destruct (Z.eqb_spec x 0) as [->|Hne]; cbn [negb]; [rewrite Z.mul_0_r, Z.add_0_r; done|].
    rewrite top_bit_ok by lia.
    assert (Hm := modulus_pos W). rewrite (proj2 (Z.eqb_neq _ _)) by nia.
    rewrite Z.add_assoc. f_equal. symmetry. rewrite modulus_pow2 in *.
    assert (Hlog := Z.log2_spec x ltac:(lia)). assert (Hl0 := Z.log2_nonneg x).
    apply Z.log2_unique; [lia|]. rewrite <- Z.add_succ_r, !Z.pow_add_r by lia.
    split; nia.
Qed.

(** ** Multiplication and division *)

Lemma mul32_loop_ok W c b32 a : wf W a → 0 <= b32 < 2 ^ 32 → 0 <= c < 2 ^ 32 →
  wf W (mul32_loop c b32 a) ∧ val (mul32_loop c b32 a) = (c + b32 * val a) mod modulus W.
Proof.
  intros Ha Hb. revert c. revert Ha. wf_ind W a; intros c Hc.
  - simpl. unfold val, modulus. simpl. rewrite Z.mod_1_r. done.
  - cbn [mul32_loop]. cbv zeta.
    rewrite (u64_small (b32 * x)), u64_small by nia.
    change 0xffffffff with (Z.ones 32). rewrite Z.land_ones, Z.shiftr_div_pow2 by lia.
    set (n := c + b32 * x). assert (0 <= n / 2 ^ 32 < 2 ^ 32) as Hc'.
    { subst n. split; [apply Z.div_pos; nia|apply Z.div_lt_upper_bound; nia]. }
    destruct (IH t Ht _ Hc') as [Hw Hv]. assert (Hm := modulus_pos W).
    rewrite wf_cons. split; [split; [apply Z.mod_pos_bound; lia|done]|].
    unfold val in *. simpl dval. rewrite Hv, modulus_S.
    replace (c + b32 * (x + 2 ^ 32 * dval (2 ^ 32) t)) with (n + b32 * dval (2 ^ 32) t * 2 ^ 32) by (subst n; ring).
    rewrite (Z.rem_mul_r _ (2 ^ 32) (modulus W)), Z_mod_plus_full, Z.div_add by lia. done.
Qed.

Lemma uint256_mul32_ok W a b32 : wf W a → 0 <= b32 < 2 ^ 32 →
  wf W (uint256_mul32 a b32) ∧ val (uint256_mul32 a b32) = (val a * b32) mod modulus W.
Proof. intros. rewrite (Z.mul_comm (val a)). apply (mul32_loop_ok W 0); auto; lia. Qed.

(** Setting bit [i] of a number whose low bits are clear adds [2^i]. *)
Lemma or_bit_ok W q i : wf W q → (i < 32 * W)%nat → val q mod 2 ^ (Z.of_nat i + 1) = 0 →
  let q' := or_limb q (i / 32) (u32 (Z.shiftl 1 (Z.land (Z.of_nat i) 31))) in
  wf W q' ∧ val q' = val q + 2 ^ Z.of_nat i.
Proof.
  intros Hq Hi Hz. cbv zeta. change 31 with (Z.ones 5). rewrite Z.land_ones, Z.shiftl_1_l by lia.
  change (2 ^ 5) with 32. assert (Hm := Z.mod_pos_bound (Z.of_nat i) 32 ltac:(lia)).
  assert (0 <= 2 ^ (Z.of_nat i mod 32) < 2 ^ 32) as Hp.
  { split; [apply Z.pow_nonneg; lia|apply Z.pow_lt_mono_r; lia]. }
  rewrite u32_small by done.
  assert (Hk : (i / 32 < length q)%nat).
  { rewrite (wf_length _ _ Hq). apply Nat.Div0.div_lt_upper_bound. lia. }
  set (q' := or_limb q (i / 32) (2 ^ (Z.of_nat i mod 32))).
  assert (Hw : wf W q').
  { split; [unfold q'; rewrite length_or_limb; apply Hq|]. apply digits_ok_nth. intros m _.
    unfold q'. rewrite nth_or_limb by done. destruct Hq as [_ Hd].
    case_decide; [apply lor_limb; auto|]; apply digits_nth; auto. }
  split; [done|].
  assert (val q' = Z.lor (val q) (2 ^ Z.of_nat i)) as ->.
  { apply Z.bits_inj'. intros j Hj. rewrite Z.lor_spec, !(val_testbit W) by done.
    rewrite Z.pow2_bits_eqb by lia. unfold q'. rewrite nth_or_limb by done.
    assert (Z.of_nat (i / 32) = Z.of_nat i / 32) as Hd by apply Nat2Z.inj_div.
    assert (0 <= j / 32) by (apply Z.div_pos; lia).
    case_decide as E.
    - rewrite Z.lor_spec, Z.pow2_bits_eqb by lia. f_equal.
      assert (Z.of_nat i / 32 = j / 32) by lia.
      destruct (Z.eqb_spec (Z.of_nat i) j) as [->|]; [apply Z.eqb_refl|].
      apply Z.eqb_neq. intros Hr. assert (H1 := Z.div_mod (Z.of_nat i) 32). assert (H2 := Z.div_mod j 32). lia.
    - destruct (Z.eqb_spec (Z.of_nat i) j) as [Hij|]; [|rewrite orb_false_r; done].
      subst j. lia. }
  assert (H2i : 0 < 2 ^ Z.of_nat i < 2 ^ (Z.of_nat i + 1)).
  { split; [apply Z.pow_pos_nonneg; lia|apply Z.pow_lt_mono_r; lia]. }
  apply Z.mod_divide in Hz as [z Hz]; [|lia]. rewrite Hz, Z.lor_comm, <- Z.shiftl_mul_pow2 by lia.
  rewrite lor_add_disjoint, Z.shiftl_mul_pow2 by lia. lia.
Qed.

(** The shift-and-subtract loop: quotient and remainder of what is left. *)
Lemma div_loop_ok d n q num div : 0 < d → (n <= 256)%nat →
  wf W256 q → wf W256 num → wf W256 div →
  (n = 0%nat ∨ val div = d * 2 ^ (Z.of_nat n - 1)) → val num < d * 2 ^ Z.of_nat n →
  val q mod 2 ^ Z.of_nat n = 0 →
  let r := div_loop n q num div in
  wf W256 (fst r) ∧ wf W256 (snd r) ∧ val (fst r) = val q + val num / d ∧ val (snd r) = val num mod d.
Proof.
  intros Hd. revert q num div. induction n as [|n IH]; intros q num div Hn Hq Hnum Hdiv Hdv Hlt Hz.
  - simpl in *. rewrite Z.mul_1_r in Hlt. assert (Hr := val_range _ _ Hnum).
    rewrite Z.div_small, Z.mod_small by lia. repeat split; try apply Hq; try apply Hnum; lia.
  - destruct Hdv as [|Hdv]; [done|]. replace (Z.of_nat (S n) - 1) with (Z.of_nat n) in Hdv by lia.
    assert (HpS : 2 ^ Z.of_nat (S n) = 2 * 2 ^ Z.of_nat n) by apply pow_succ_nat.
    rewrite HpS in Hlt. assert (Hp : 0 < 2 ^ Z.of_nat n) by (apply Z.pow_pos_nonneg; lia).
    assert (Hnr := val_range _ _ Hnum). cbn [div_loop].
    assert (Hs := wf_bu_shr W256 div 1 Hdiv ltac:(lia)).
    assert (Hsv : n = 0%nat ∨ val (bu_shr W256 div 1) = d * 2 ^ (Z.of_nat n - 1)).
    { destruct n as [|n]; [auto|right]. rewrite (bu_shr_ok W256) by (done || lia). rewrite Hdv, pow_succ_nat.
      replace (d * (2 * 2 ^ Z.of_nat n)) with (d * 2 ^ Z.of_nat n * 2 ^ 1) by ring.
      rewrite Z.div_mul by lia. do 2 f_equal. lia. }
    rewrite (bu_ge_ok W256) by done. destruct (Z.leb_spec (val div) (val num)) as [Hle|Hgt].
    + destruct (or_bit_ok W256 q n) as [Hq' Hqv]; [done|lia|rewrite <- Hz; f_equal; f_equal; lia|].
      destruct (bu_sub_ok W256 num div) as [Hn' Hnv]; [done..|].
      rewrite Z.mod_small in Hnv by lia.
      destruct (IH (or_limb q (n / 32) (u32 (Z.shiftl 1 (Z.land (Z.of_nat n) 31)))) (bu_sub num div)
                  (bu_shr W256 div 1)) as (H1 & H2 & H3 & H4); auto; try lia.
      { rewrite Hqv, <- (Z.mod_add _ (- 1) (2 ^ Z.of_nat n)) by lia.
        replace (val q + 2 ^ Z.of_nat n + -1 * 2 ^ Z.of_nat n) with (val q) by ring.
        rewrite HpS in Hz. apply Z.mod_divide in Hz as [z Hz]; [|lia]. rewrite Hz.
        replace (z * (2 * 2 ^ Z.of_nat n)) with (z * 2 * 2 ^ Z.of_nat n) by ring. apply Z_mod_mult. }
      cbv zeta. repeat split; try apply H1; try apply H2.
      * rewrite H3, Hqv, Hnv, Hdv. replace (val num) with (val num - d * 2 ^ Z.of_nat n + 2 ^ Z.of_nat n * d) at 2 by ring.
        rewrite Z.div_add by lia. ring.
      * rewrite H4, Hnv, Hdv. replace (val num) with (val num - d * 2 ^ Z.of_nat n + 2 ^ Z.of_nat n * d) at 2 by ring.
        rewrite Z.mod_add by lia. done.
    + apply IH; auto; try lia.
      rewrite HpS in Hz. apply Z.mod_divide in Hz as [z Hz]; [|lia]. rewrite Hz.
      replace (z * (2 * 2 ^ Z.of_nat n)) with (z * 2 * 2 ^ Z.of_nat n) by ring. apply Z_mod_mult.
Qed.

(** ** Compact representation *)

Lemma Get64_0 W a : (2 <= W)%nat → wf W a → Get64 a 0 = val a mod 2 ^ 64.
Proof.
  intros HW Ha. destruct W as [|[|W]]; [lia..|].
  apply wf_S_inv in Ha as (x & t & -> & Hx & Ha). apply wf_S_inv in Ha as (y & s & -> & Hy & _).
  unfold Get64. cbn [nth Nat.mul Nat.add]. rewrite lor_add_disjoint by lia. unfold val. cbn [dval].
  apply (Z.mod_unique _ _ (dval (2 ^ 32) s)); lia.
Qed.

Definition bytelen (v : Z) : Z := (bitlen v + 7) / 8.

Lemma bytelen_spec v : 0 < v → 0 < bytelen v ∧ 256 ^ (bytelen v - 1) <= v < 256 ^ bytelen v.
Proof.
  intros Hv. unfold bytelen, bitlen. rewrite (proj2 (Z.eqb_neq _ _)) by lia.
  assert (Hl := Z.log2_spec v Hv). assert (H0 := Z.log2_nonneg v).
  set (n := (Z.log2 v + 1 + 7) / 8). assert (8 * n <= Z.log2 v + 8 < 8 * n + 8) by (subst n; Z.div_mod_to_equations; lia).
  change 256 with (2 ^ 8). rewrite <- !Z.pow_mul_r by lia. split; [lia|]. split.
  - apply Z.le_trans with (2 ^ Z.log2 v); [apply Z.pow_le_mono_r|]; lia.
  - apply Z.lt_le_trans with (2 ^ Z.succ (Z.log2 v)); [lia|]. apply Z.pow_le_mono_r; lia.
Qed.

Lemma bytelen_le v n : 0 <= n → 0 <= v < 256 ^ n → bytelen v <= n.
Proof.
  intros Hn Hv. destruct (decide (v = 0)) as [->|]; [done|].
  destruct (bytelen_spec v) as [H0 H1]; [lia|].
  destruct (Z.le_gt_cases (bytelen v) n); [done|].
  assert (256 ^ n <= 256 ^ (bytelen v - 1)) by (apply Z.pow_le_mono_r; lia). lia.
Qed.

(** The mantissa and exponent [GetCompact] chooses before it looks at the sign
    bit: three significant bytes. *)
Lemma compact_mantissa x : wf W256 x →
  let n := bytelen (val x) in
  (if n <=? 3 then u32 (u64 (Z.shiftl (Get64 x 0) (8 * (3 - n))))
   else u32 (Get64 (bu_shr W256 x (8 * (n - 3))) 0)) =
  (if n <=? 3 then val x * 256 ^ (3 - n) else val x / 256 ^ (n - 3)) ∧
  (val x = 0 ∨ 2 ^ 16 <= (if n <=? 3 then val x * 256 ^ (3 - n) else val x / 256 ^ (n - 3)) < 2 ^ 24).
Proof.
  intros Hx n. assert (Hr := val_range _ _ Hx).
  destruct (decide (val x = 0)) as [E|Hnz].
  { subst n. rewrite E. change (bytelen 0) with 0. simpl Z.leb. cbv iota. split; [|left; done].
    rewrite (Get64_0 W256), E by (done || lia). done. }
  destruct (bytelen_spec (val x)) as [H0 [H1 H2]]; [lia|]. fold n in H0, H1, H2.
  destruct (Z.leb_spec n 3) as [Hle|Hgt].
  - rewrite (Get64_0 W256) by (done || lia).
    rewrite Z.shiftl_mul_pow2, (Z.pow_mul_r 2 8) by lia. change (2 ^ 8) with 256.
    assert (n = 1 ∨ n = 2 ∨ n = 3) as [E|[E|E]] by lia; rewrite E in *; simpl Z.sub in *;
      rewrite (Z.mod_small (val x)) by lia; (rewrite u64_small, u32_small by lia); split; [done|lia|done|lia|done|lia].
  - rewrite (Get64_0 W256) by (lia || (apply wf_bu_shr; [done|lia])).
    rewrite (bu_shr_ok W256), (Z.pow_mul_r 2 8) by (done || lia). change (2 ^ 8) with 256.
    assert (Hp : 0 < 256 ^ (n - 3)) by (apply Z.pow_pos_nonneg; lia).
    assert (2 ^ 16 <= val x / 256 ^ (n - 3) < 2 ^ 24) as Hq.
    { split; [apply Z.div_le_lower_bound; [lia|]|apply Z.div_lt_upper_bound; [lia|]].
      - replace (2 ^ 16) with (256 ^ 2) by done. rewrite <- Z.pow_add_r by lia. replace (n - 3 + 2) with (n - 1) by lia. lia.
      - replace (2 ^ 24) with (256 ^ 3) by done. rewrite <- Z.pow_add_r by lia. replace (n - 3 + 3) with n by lia. lia. }
    rewrite (Z.mod_small (val x / 256 ^ (n - 3))), u32_small by lia. split; [done|right; lia].
Qed.

Lemma land_mask_0 m k n : 0 <= n → 0 <= m < 2 ^ n → Z.land m (Z.shiftl k n) = 0.
Proof.
  intros Hn Hm. apply Z.bits_inj'. intros i Hi. rewrite Z.land_spec, Z.bits_0, Z.shiftl_spec by done.
  destruct (Z.lt_ge_cases i n).
  - rewrite (Z.testbit_neg_r k) by lia. apply andb_false_r.
  - rewrite (testbit_above m n) by lia. done.
Qed.

(** Decoding a compact whose mantissa and exponent are known. *)
Lemma SetCompact_parts size m : 0 <= size <= 255 → 0 <= m < 2 ^ 23 →
  SetCompact (m + 2 ^ 24 * size) =
  (if size <=? 3 then bu_of_u64 W256 (m / 256 ^ (3 - size))
   else bu_shl W256 (bu_of_u64 W256 m) (8 * (size - 3)),
   false,
   let w := if size <=? 3 then m / 256 ^ (3 - size) else m in
   negb (w =? 0) && ((size >? 34) || ((w >? 0xff) && (size >? 33)) || ((w >? 0xffff) && (size >? 32)))).
Proof.
  intros Hs Hm. unfold SetCompact. rewrite Z.shiftr_div_pow2 by lia.
  replace ((m + 2 ^ 24 * size) / 2 ^ 24) with size by (apply (Z.div_unique _ _ _ m); lia).
  change 0x007fffff with (Z.ones 23). rewrite Z.land_ones by lia.
  replace ((m + 2 ^ 24 * size) mod 2 ^ 23) with m by (apply (Z.mod_unique _ _ (2 * size)); lia).
  change 0x00800000 with (2 ^ 23). rewrite land_pow2 by lia.
  assert (Z.testbit (m + 2 ^ 24 * size) 23 = false) as ->.
  { rewrite <- (Z.mod_pow2_bits_low _ 24) by lia. rewrite (Z.mul_comm (2 ^ 24)), Z_mod_plus_full.
    rewrite Z.mod_small by lia. apply (testbit_above _ 23); lia. }
  destruct (Z.leb_spec size 3).
  - rewrite Z.shiftr_div_pow2, (Z.pow_mul_r 2 8) by lia. change (2 ^ 8) with 256.
    simpl negb. rewrite andb_false_r. done.
  - simpl negb. rewrite andb_false_r. done.
Qed.

Lemma testbit_23 m : 0 <= m < 2 ^ 24 → Z.testbit m 23 = (2 ^ 23 <=? m).
Proof.
  intros Hm. destruct (Z.leb_spec (2 ^ 23) m).
  - assert (Z.log2 m = 23) as <- by (apply Z.log2_unique; lia). apply Z.bit_log2. lia.
  - apply (testbit_above _ 23); lia.
Qed.

(** What [GetCompact] returns: no assertion fails, the mantissa has at least 15
    significant bits and never touches the sign bit. *)
Lemma GetCompact_parts x : wf W256 x → ∃ size m,
  GetCompact x false = Some (m + 2 ^ 24 * size) ∧ 0 <= m < 2 ^ 23 ∧ 0 <= size <= 33 ∧
  (size <= 3 → m = val x * 256 ^ (3 - size)) ∧ (3 < size → m = val x / 256 ^ (size - 3)) ∧
  (val x = 0 ∨ 2 ^ 15 <= m) ∧ (size = 33 → m < 2 ^ 16) ∧ (val x = 0 → size = 0).
Proof.
  intros Hx. assert (Hr := val_range _ _ Hx).
  destruct (compact_mantissa x Hx) as [Hm0 Hm1]. unfold GetCompact.
  rewrite (bits_ok W256) by done. fold (bytelen (val x)). cbv zeta in Hm0. rewrite Hm0.
  assert (Hn32 : bytelen (val x) <= 32).
  { apply bytelen_le; [lia|]. change (modulus W256) with (256 ^ 32) in Hr. lia. }
  assert (Hn0 : 0 <= bytelen (val x)).
  { destruct (decide (val x = 0)) as [->|]; [done|]. destruct (bytelen_spec (val x)); lia. }
  set (n := bytelen (val x)) in *.
  set (m0 := if n <=? 3 then val x * 256 ^ (3 - n) else val x / 256 ^ (n - 3)) in *.
  assert (Hm0r : 0 <= m0 < 2 ^ 24).
  { destruct Hm1 as [E|]; [|lia]. subst m0. rewrite E.
    destruct (n <=? 3) eqn:?; [rewrite Z.mul_0_l|rewrite Z.div_0_l by (apply Z.pow_nonzero; lia)]; lia. }
  change 0x00800000 with (2 ^ 23). rewrite land_pow2, testbit_23 by lia.
  assert (Hmask : ∀ m, 0 <= m < 2 ^ 23 → Z.land m (u32 (Z.lnot 0x007fffff)) = 0).
  { intros m Hm. change (u32 (Z.lnot 0x007fffff)) with (Z.shiftl 0x1ff 23). apply land_mask_0; lia. }
  assert (Hor : ∀ m s, 0 <= m < 2 ^ 23 → 0 <= s <= 33 → Z.lor (Z.lor m (u32 (Z.shiftl s 24))) 0 = m + 2 ^ 24 * s).
  { intros m s Hm Hs. rewrite Z.lor_0_r, u32_small; [|rewrite Z.shiftl_mul_pow2; lia].
    apply lor_add_disjoint; lia. }
  destruct (Z.leb_spec (2 ^ 23) m0) as [Hb|Hb].
  - simpl negb. cbv iota. exists (n + 1), (m0 / 2 ^ 8).
    rewrite Z.shiftr_div_pow2, Hmask by (try (Z.div_mod_to_equations; lia); lia).
    assert (Hq : 2 ^ 15 <= m0 / 2 ^ 8 < 2 ^ 16) by (Z.div_mod_to_equations; lia).
    simpl negb. rewrite (proj2 (Z.ltb_lt _ _)) by lia. simpl negb. cbv iota. simpl andb. cbv iota.
    rewrite Hor by lia. repeat split; try lia.
    + intros Hle. subst m0. rewrite (proj2 (Z.leb_le _ _)) by lia.
      replace (256 ^ (3 - n)) with (256 ^ (3 - (n + 1)) * 2 ^ 8).
      2: { change (2 ^ 8) with (256 ^ 1). rewrite <- Z.pow_add_r by lia. f_equal. lia. }
      rewrite Z.mul_assoc, Z.div_mul by lia. done.
    + intros Hgt. subst m0. destruct (Z.leb_spec n 3).
      * replace n with 3 by lia. simpl Z.sub. rewrite Z.pow_0_r, Z.mul_1_r, Z.pow_1_r. done.
      * change (2 ^ 8) with (256 ^ 1). rewrite Z.div_div by (try apply Z.pow_nonzero; lia).
        rewrite <- Z.pow_add_r by lia. f_equal. f_equal. lia.
    + intros E. subst m0. rewrite E in Hb. destruct (n <=? 3) eqn:?; [lia|]. rewrite Z.div_0_l in Hb by (apply Z.pow_nonzero; lia). lia.
  - rewrite Z.eqb_refl. simpl negb. cbv iota. exists n, m0.
    rewrite Hmask by lia. rewrite (proj2 (Z.ltb_lt _ _)) by lia. simpl negb. cbv iota. simpl andb. cbv iota.
    rewrite Hor by lia. repeat split; try lia.
    + intros Hle. subst m0. rewrite (proj2 (Z.leb_le _ _)) by lia. done.
    + intros Hgt. subst m0. rewrite (proj2 (Z.leb_gt _ _)) by lia. done.
    + intros E. subst n. rewrite E. done.
Qed.

(** ** Bytes and hexadecimal text *)

Lemma to_digits_dval_eq B n l : 0 < B → digits_ok B l → length l = n → to_digits B n (dval B l) = l.
Proof. intros HB Hl <-. apply to_digits_dval; done. Qed.

Lemma limbs_of_bytes_ok W bs : digits_ok 256 bs → length bs = (4 * W)%nat →
  wf W (limbs_of_bytes bs) ∧ val (limbs_of_bytes bs) = dval 256 bs ∧ getBytes (limbs_of_bytes bs) = bs.
Proof.
  revert bs. induction W as [|W IH]; intros bs Hb Hl.
  - destruct bs; [|done]. done.
  - destruct bs as [|b0 [|b1 [|b2 [|b3 t]]]]; simpl in Hl; try lia.
    do 4 (apply Forall_cons_iff in Hb as [? Hb]).
    destruct (IH t Hb) as (Hw & Hv & Hg); [lia|].
    cbn [limbs_of_bytes]. rewrite wf_cons. split; [|split].
    + split; [|done]. cbn [dval]. lia.
    + unfold val in *. cbn [dval]. rewrite Hv. ring.
    + unfold getBytes in *. cbn [map concat]. rewrite Hg.
      rewrite to_digits_dval_eq by (repeat constructor; lia). done.
Qed.

Lemma getBytes_ok W a : wf W a → digits_ok 256 (getBytes a) ∧ length (getBytes a) = (4 * W)%nat ∧
  dval 256 (getBytes a) = val a ∧ limbs_of_bytes (getBytes a) = a.
Proof.
  intros Ha. revert Ha. wf_ind W a; [repeat split; auto; constructor|].
  destruct (IH t Ht) as (H1 & H2 & H3 & H4). unfold getBytes, val in *. cbn [map concat].
  split; [|split; [|split]].
  - apply Forall_app. split; [apply to_digits_ok; lia|done].
  - rewrite length_app, length_to_digits, H2. lia.
  - rewrite dval_app, dval_to_digits, length_to_digits, H3 by lia. cbn [dval].
    rewrite Z.mod_small by lia. done.
  - assert (E : ∃ b0 b1 b2 b3, to_digits 256 4 x = [b0; b1; b2; b3]) by (simpl; eauto).
    assert (Ev := dval_to_digits 256 4 x ltac:(lia)). destruct E as (b0 & b1 & b2 & b3 & E).
    rewrite E in *. cbn [app limbs_of_bytes]. rewrite H4, Ev. f_equal. apply Z.mod_small. lia.
Qed.

Lemma hexchar_digit d : 0 <= d < 16 →
  phexdigit (hexchar d) = d ∧ (negb (phexdigit (hexchar d) =? 0) || (hexchar d =? 48)) = true ∧
  isspace (hexchar d) = false ∧ tolower (hexchar d) ≠ 120.
Proof.
  intros Hd. assert (In d (map Z.of_nat (seq 0 16))) as Hin.
  { apply in_map_iff. exists (Z.to_nat d). split; [lia|]. apply in_seq. lia. }
  clear Hd. revert d Hin. apply (proj1 (Forall_forall _ _)). simpl. repeat constructor; vm_compute; congruence.
Qed.

(** Text of a digit list, most significant digit first. *)
Definition hex_text (ds : list Z) : list Z := map hexchar ds.

Lemma hex_run_text ds : digits_ok 16 ds → hex_run (hex_text ds) = hex_text ds.
Proof.
  induction 1 as [|d ds Hd Hds IH]; [done|]. simpl.
  destruct (hexchar_digit d Hd) as (_ & -> & _). rewrite IH. done.
Qed.

Lemma fill_bytes_text n ds : digits_ok 16 ds → length ds = (2 * n)%nat →
  dval 256 (fill_bytes n (hex_text ds)) = dval 16 ds ∧ length (fill_bytes n (hex_text ds)) = n ∧
  digits_ok 256 (fill_bytes n (hex_text ds)).
Proof.
  revert ds. induction n as [|n IH]; intros ds Hd Hl.
  - destruct ds; [repeat split; auto; constructor|done].
  - destruct ds as [|d0 [|d1 t]]; simpl in Hl; try lia.
    do 2 (apply Forall_cons_iff in Hd as [? Hd]). destruct (IH t Hd) as (H1 & H2 & H3); [lia|].
    cbn [hex_text map fill_bytes]. fold (hex_text t).
    destruct (hexchar_digit d0) as [-> _]; [done|]. destruct (hexchar_digit d1) as [-> _]; [done|].
    rewrite (lor_add_disjoint d0 d1 4), u8_small by lia.
    cbn [dval length]. rewrite H1, H2. split; [ring|]. split; [done|]. constructor; [lia|done].
Qed.

Lemma GetHex_text W a : wf W a → GetHex a = hex_text (rev (concat (map (to_digits 16 8) a))).
Proof.
  intros _. unfold GetHex, hex_text. induction a as [|x a IH]; [done|].
  simpl rev at 1. rewrite map_app, concat_app, IH. cbn [map concat]. rewrite rev_app_distr, map_app.
  rewrite app_nil_r. done.
Qed.

Lemma nibbles_ok W a : wf W a → digits_ok 16 (concat (map (to_digits 16 8) a)) ∧
  length (concat (map (to_digits 16 8) a)) = (8 * W)%nat ∧ dval 16 (concat (map (to_digits 16 8) a)) = val a.
Proof.
  intros Ha. revert Ha. wf_ind W a; [repeat split; auto; constructor|].
  destruct (IH t Ht) as (H1 & H2 & H3). unfold val in *. cbn [map concat]. split; [|split].
  - apply Forall_app. split; [apply to_digits_ok; lia|done].
  - rewrite length_app, length_to_digits, H2. lia.
  - rewrite dval_app, dval_to_digits, length_to_digits, H3 by lia. cbn [dval].
    rewrite Z.mod_small by lia. done.
Qed.

Lemma skip_prefix_text d ds : digits_ok 16 (d :: ds) → 
  skip_0x (skip_spaces (hex_text (d :: ds))) = hex_text (d :: ds).
Proof.
  intros Hd. apply Forall_cons_iff in Hd as [Hd Hds]. destruct (hexchar_digit d Hd) as (_ & _ & Hs & _).
  unfold hex_text. simpl map. cbn [skip_spaces]. rewrite Hs. destruct ds as [|d1 ds]; [done|].
  apply Forall_cons_iff in Hds as [Hd1 _]. destruct (hexchar_digit d1 Hd1) as (_ & _ & _ & Ht).
  cbn [map skip_0x]. rewrite (proj2 (Z.eqb_neq (tolower (hexchar d1)) 120)) by done. rewrite andb_false_r. done.
Qed.

(** ** Properties *)

(** C40. Multi-limb arithmetic refines arithmetic modulo [2^BITS]: [+=], [-=], unary
    [-], [~], [++] and [--] compute modulo [2^BITS], [^=], [&=] and [|=] are the bitwise
    operations on the values, the limb-by-limb [<<=] and [>>=]
    loops multiply and divide by [2^shift] for every shift, also past the width,
    the top-down comparison loops and the equality loop decide order and equality
    of the values, [bits()] is the length of the binary expansion, and every
    result satisfies the representation invariant. *)
Theorem base_uint_refines W a b n : wf W a → wf W b → 0 <= n →
  ((wf W (bu_add a b) ∧ val (bu_add a b) = (val a + val b) mod modulus W) ∧
   (wf W (bu_sub a b) ∧ val (bu_sub a b) = (val a - val b) mod modulus W) ∧
   (wf W (bu_neg a) ∧ val (bu_neg a) = (- val a) mod modulus W) ∧
   (wf W (bu_not a) ∧ val (bu_not a) = modulus W - 1 - val a) ∧
   (wf W (bu_inc a) ∧ val (bu_inc a) = (val a + 1) mod modulus W) ∧
   (wf W (bu_dec a) ∧ val (bu_dec a) = (val a - 1) mod modulus W)) ∧
  ((wf W (bu_xor a b) ∧ val (bu_xor a b) = Z.lxor (val a) (val b)) ∧
   (wf W (bu_and a b) ∧ val (bu_and a b) = Z.land (val a) (val b)) ∧
   (wf W (bu_or a b) ∧ val (bu_or a b) = Z.lor (val a) (val b))) ∧
  ((wf W (bu_shl W a n) ∧ val (bu_shl W a n) = (val a * 2 ^ n) mod modulus W) ∧
   (wf W (bu_shr W a n) ∧ val (bu_shr W a n) = val a / 2 ^ n)) ∧
  (bu_lt a b = (val a <? val b) ∧ bu_le a b = (val a <=? val b) ∧
   bu_gt a b = (val b <? val a) ∧ bu_ge a b = (val b <=? val a) ∧
   bu_eq a b = (val a =? val b) ∧ bits W a = bitlen (val a)).
Proof.
  intros Ha Hb Hn. split; [|split; [|split]].
  - split; [by apply bu_add_ok|]. split; [by apply bu_sub_ok|]. split; [by apply bu_neg_ok|].
    split; [by apply bu_not_ok|]. split; [by apply bu_inc_ok|by apply bu_dec_ok].
  - split; [by apply bu_xor_ok|]. split; [by apply bu_and_ok|by apply bu_or_ok].
  - split; split; auto using wf_bu_shl, wf_bu_shr, bu_shl_ok, bu_shr_ok.
  - repeat split; eauto using bu_lt_ok, bu_le_ok, bu_gt_ok, bu_ge_ok, bu_eq_ok, bits_ok.
Qed.

Lemma base_uint_refines_witness :
  val (bu_add [limb_max; 7] [1; limb_max]) = (val [limb_max; 7] + val [1; limb_max]) mod modulus 2.
Proof.
  apply (base_uint_refines 2 [limb_max; 7] [1; limb_max] 37); [| |lia];
    split; try reflexivity; repeat constructor; vm_compute; congruence.
Defined.

(** [operator/=] throws exactly on a zero divisor and otherwise computes the
    integer quotient. *)
Theorem uint256_div_ok a b : wf W256 a → wf W256 b →
  (val b = 0 → uint256_div a b = None) ∧
  (val b ≠ 0 → ∃ q, uint256_div a b = Some q ∧ wf W256 q ∧ val q = val a / val b).
Proof.
  intros Ha Hb. unfold uint256_div. rewrite !(bits_ok W256) by done. unfold bitlen.
  assert (Har := val_range _ _ Ha). assert (Hbr := val_range _ _ Hb).
  split; intros Hb0; [rewrite Hb0; done|].
  rewrite (proj2 (Z.eqb_neq (val b) 0)) by done. assert (Hlb := Z.log2_nonneg (val b)).
  assert (Hbs := Z.log2_spec (val b) ltac:(lia)).
  rewrite (proj2 (Z.eqb_neq (_ + 1) 0)) by lia.
  destruct (bu_of_u64_ok W256 0) as [Hz Hzv]; [lia|lia|].
  destruct (Z.eqb_spec (val a) 0) as [E|Hne].
  { rewrite (proj2 (Z.gtb_lt _ _)) by lia. eexists. split; [done|]. rewrite Hzv, E, Z.div_0_l by done. auto. }
  assert (Has := Z.log2_spec (val a) ltac:(lia)). assert (Hla := Z.log2_nonneg (val a)).
  destruct (Z.gtb_spec (Z.log2 (val b) + 1) (Z.log2 (val a) + 1)) as [Hgt|Hle].
  { eexists. split; [done|]. split; [done|]. rewrite Hzv, Z.div_small; [done|]. split; [lia|].
    apply Z.lt_le_trans with (2 ^ Z.succ (Z.log2 (val a))); [lia|].
    apply Z.le_trans with (2 ^ Z.log2 (val b)); [apply Z.pow_le_mono_r|]; lia. }
  replace (Z.log2 (val a) + 1 - (Z.log2 (val b) + 1)) with (Z.log2 (val a) - Z.log2 (val b)) by lia.
  set (s := Z.log2 (val a) - Z.log2 (val b)). assert (0 <= s) as Hs by (subst s; lia).
  assert (Hs255 : Z.log2 (val a) < 256).
  { apply Z.log2_lt_pow2; [lia|]. change (modulus W256) with (2 ^ 256) in Har. lia. }
  assert (Hp : 0 < 2 ^ s) by (apply Z.pow_pos_nonneg; lia).
  assert (Hshl : val (bu_shl W256 b s) = val b * 2 ^ s).
  { rewrite bu_shl_ok by done. apply Z.mod_small. split; [nia|].
    apply Z.lt_le_trans with (2 ^ Z.succ (Z.log2 (val b)) * 2 ^ s); [nia|].
    rewrite <- Z.pow_add_r by lia. change (modulus W256) with (2 ^ 256). apply Z.pow_le_mono_r; lia. }
  destruct (div_loop_ok (val b) (S (Z.to_nat s)) (bu_of_u64 W256 0) a (bu_shl W256 b s)) as (H1 & _ & H2 & _);
    auto using wf_bu_shl; try lia.
  - right. rewrite Hshl. do 2 f_equal. lia.
  - replace (Z.of_nat (S (Z.to_nat s))) with (s + 1) by lia.
    apply Z.lt_le_trans with (2 ^ Z.succ (Z.log2 (val a))); [lia|].
    apply Z.le_trans with (2 ^ Z.log2 (val b) * 2 ^ (s + 1)).
    + rewrite <- Z.pow_add_r by lia. apply Z.pow_le_mono_r; lia.
    + apply Z.mul_le_mono_nonneg_r; lia.
  - eexists. split; [done|]. split; [done|]. rewrite H2, Hzv. lia.
Qed.

Lemma uint256_div_ok_witness :
  ∃ q, uint256_div (bu_of_u64 W256 1000007) (bu_of_u64 W256 13) = Some q ∧ wf W256 q ∧
       val q = val (bu_of_u64 W256 1000007) / val (bu_of_u64 W256 13).
Proof.
  apply (uint256_div_ok (bu_of_u64 W256 1000007) (bu_of_u64 W256 13));
    try (apply bu_of_u64_ok; lia). vm_compute. congruence.
Defined.

(** [operator*=(uint32_t)] multiplies modulo 2^256, while
    [operator*=(const uint256&)] as written returns zero whatever the operands:
    its multiplicand [a] is never loaded from [*this]. *)
Theorem uint256_mul_behaviour a b b32 : wf W256 a → 0 <= b32 < 2 ^ 32 →
  val (uint256_mul32 a b32) = (val a * b32) mod 2 ^ 256 ∧ val (uint256_mul a b) = 0.
Proof.
  intros Ha Hb. split; [|reflexivity]. apply (uint256_mul32_ok W256 a b32); done.
Qed.

Lemma uint256_mul_behaviour_witness :
  val (uint256_mul32 (bu_of_u64 W256 3) 5) = (val (bu_of_u64 W256 3) * 5) mod 2 ^ 256 ∧
  val (uint256_mul (bu_of_u64 W256 3) (bu_of_u64 W256 5)) = 0.
Proof. apply (uint256_mul_behaviour (bu_of_u64 W256 3) (bu_of_u64 W256 5) 5); [apply bu_of_u64_ok|]; lia. Defined.

(** [SetCompact] decodes mantissa and exponent; [*pfOverflow] is set exactly
    when the encoded number does not fit in 256 bits. *)
Lemma SetCompact_value size m : 0 <= size <= 255 → 0 <= m < 2 ^ 23 →
  ∃ v ov, SetCompact (m + 2 ^ 24 * size) = (v, false, ov) ∧ wf W256 v ∧
    (size <= 3 → ov = false ∧ val v = m / 256 ^ (3 - size)) ∧
    (3 < size → val v = (m * 256 ^ (size - 3)) mod 2 ^ 256 ∧
                (ov = true ↔ 2 ^ 256 <= m * 256 ^ (size - 3))).
Proof.
  intros Hs Hm. rewrite SetCompact_parts by done. do 2 eexists. split; [reflexivity|].
  destruct (Z.leb_spec size 3) as [Hle|Hgt].
  - assert (0 <= m / 256 ^ (3 - size) <= m).
    { assert (0 < 256 ^ (3 - size)) by (apply Z.pow_pos_nonneg; lia).
      split; [apply Z.div_pos; lia|apply Z.div_le_upper_bound; nia]. }
    destruct (bu_of_u64_ok W256 (m / 256 ^ (3 - size))) as [Hw Hv]; [lia|lia|].
    split; [done|]. split; [|lia]. intros _. split; [|done]. cbv zeta.
    destruct (Z.gtb_spec size 34), (Z.gtb_spec size 33), (Z.gtb_spec size 32); lia.
  - destruct (bu_of_u64_ok W256 m) as [Hw Hv]; [lia|lia|].
    split; [apply wf_bu_shl; [done|lia]|]. split; [lia|]. intros _.
    rewrite bu_shl_ok, Hv, (Z.pow_mul_r 2 8) by (done || lia). split; [done|]. cbv zeta.
    assert (Hbig : 35 <= size → 0 < m → 2 ^ 256 <= m * 256 ^ (size - 3)).
    { intros. assert (256 ^ 32 <= 256 ^ (size - 3)) by (apply Z.pow_le_mono_r; lia).
      change (2 ^ 256) with (256 ^ 32). nia. }
    assert (Hsmall : size <= 32 → m * 256 ^ (size - 3) < 2 ^ 256).
    { intros. assert (256 ^ (size - 3) <= 256 ^ 29) by (apply Z.pow_le_mono_r; lia).
      change (2 ^ 256) with (2 ^ 24 * 256 ^ 29). nia. }
    assert (size <= 32 ∨ size = 33 ∨ size = 34 ∨ 35 <= size) as [Hc|[->|[->|Hc]]] by lia;
      destruct (Z.eqb_spec m 0) as [->|]; simpl; try (split; [done|lia]).
    + destruct (Z.gtb_spec size 34), (Z.gtb_spec size 33), (Z.gtb_spec size 32); lia.
    + rewrite andb_false_r, andb_true_r. simpl. rewrite Z.gtb_lt. change (256 ^ 30) with (2 ^ 240). lia.
    + rewrite !andb_true_r. rewrite orb_true_iff, !Z.gtb_lt. change (256 ^ 31) with (2 ^ 248). lia.
    + rewrite (proj2 (Z.gtb_lt size 34)) by lia. simpl. split; [intros _; apply Hbig; lia|done].
Qed.

(** [GetCompact] never fails an assertion, and decoding its result gives the
    number truncated to its most significant bytes: nothing is lost when the
    dropped exponent [e] is zero, and at least 15 significant bits are kept
    otherwise. *)
Theorem GetCompact_SetCompact x : wf W256 x →
  ∃ c y e, GetCompact x false = Some c ∧ SetCompact c = (y, false, false) ∧ 0 <= e ∧
    val y = val x / 256 ^ e * 256 ^ e ∧ (e = 0 ∨ 2 ^ 15 <= val x / 256 ^ e < 2 ^ 23 ∨ val x = 0).
Proof.
  intros Hx. destruct (GetCompact_parts x Hx) as (size & m & Hg & Hm & Hs & H1 & H2 & H3 & H4 & _).
  destruct (SetCompact_value size m) as (v & ov & E & Hw & Hlo & Hhi); [lia|lia|].
  assert (Hr := val_range _ _ Hx). change (modulus W256) with (2 ^ 256) in Hr.
  exists (m + 2 ^ 24 * size), v, (Z.max 0 (size - 3)). split; [done|]. rewrite E.
  destruct (Z.le_gt_cases size 3) as [Hle|Hgt].
  - destruct (Hlo Hle) as [-> Hv]. split; [done|]. split; [lia|]. rewrite Z.max_l by lia.
    rewrite Z.pow_0_r, Z.div_1_r, Z.mul_1_r. split; [|auto]. rewrite Hv, (H1 Hle), Z.div_mul; [done|].
    apply Z.pow_nonzero; lia.
  - destruct (Hhi Hgt) as [Hv Hov]. rewrite Z.max_r by lia. specialize (H2 Hgt). rewrite <- H2.
    assert (Hp : 0 < 256 ^ (size - 3)) by (apply Z.pow_pos_nonneg; lia).
    assert (Hle : m * 256 ^ (size - 3) <= val x) by (rewrite H2, Z.mul_comm; apply Z.mul_div_le; lia).
    rewrite Z.mod_small in Hv by nia. split.
    + f_equal. destruct ov; [|done]. assert (2 ^ 256 <= m * 256 ^ (size - 3)) by (apply Hov; done). lia.
    + split; [lia|]. split; [done|]. right. destruct H3; [right; done|left; lia].
Qed.

Lemma GetCompact_SetCompact_witness :
  ∃ c y e, GetCompact (bu_of_u64 W256 0x123456789a) false = Some c ∧ SetCompact c = (y, false, false) ∧ 0 <= e ∧
    val y = val (bu_of_u64 W256 0x123456789a) / 256 ^ e * 256 ^ e ∧
    (e = 0 ∨ 2 ^ 15 <= val (bu_of_u64 W256 0x123456789a) / 256 ^ e < 2 ^ 23 ∨ val (bu_of_u64 W256 0x123456789a) = 0).
Proof. apply (GetCompact_SetCompact (bu_of_u64 W256 0x123456789a)). apply bu_of_u64_ok; lia. Defined.

Lemma bu_Unserialize_ok W a rest : wf W a → bu_Unserialize W (bu_Serialize a ++ rest) = Some (a, rest).
Proof.
  intros Ha. destruct (getBytes_ok W a Ha) as (_ & Hl & _ & Hb). unfold bu_Unserialize, bu_Serialize.
  rewrite bool_decide_eq_true_2 by (rewrite length_app; lia).
  rewrite take_app_length', drop_app_length' by done. rewrite Hb. done.
Qed.

(** Text and byte round trips: [SetHex] reads back what [GetHex] prints, and
    [Unserialize] what [Serialize] writes, leaving the rest of the stream. *)
Theorem base_uint_roundtrip W a rest : wf W a →
  SetHex W (GetHex a) = a ∧ bu_Unserialize W (bu_Serialize a ++ rest) = Some (a, rest).
Proof.
  intros Ha. destruct (nibbles_ok W a Ha) as (Hn1 & Hn2 & Hn3). split.
  - rewrite (GetHex_text W) by done. set (ds := concat (map (to_digits 16 8) a)) in *.
    assert (Hrev : digits_ok 16 (rev ds)) by (apply Forall_rev; done). unfold SetHex.
    assert (skip_0x (skip_spaces (hex_text (rev ds))) = hex_text (rev ds)) as ->.
    { destruct (rev ds); [done|]. apply skip_prefix_text. done. }
    rewrite hex_run_text by done. unfold hex_text at 1. rewrite <- map_rev, rev_involutive. fold (hex_text ds).
    destruct (fill_bytes_text (4 * W) ds) as (H1 & H2 & H3); [done|lia|].
    destruct (limbs_of_bytes_ok W (fill_bytes (4 * W) (hex_text ds))) as (Hw & Hv & _); [done..|].
    apply (val_inj W); [done..|]. congruence.
  - apply bu_Unserialize_ok. done.
Qed.

Lemma base_uint_roundtrip_witness :
  SetHex 2 (GetHex [0xdeadbeef; 7]) = [0xdeadbeef; 7] ∧
  bu_Unserialize 2 (bu_Serialize [0xdeadbeef; 7] ++ [9]) = Some ([0xdeadbeef; 7], [9]).
Proof.
  apply (base_uint_roundtrip 2 [0xdeadbeef; 7] [9]).
  split; try reflexivity; repeat constructor; vm_compute; congruence.
Defined.
