(* ===== verification/Bignum.v ===== *)
(** * Arbitrary precision integers (src/bignum.h, src/bignum.cpp)

    [CBigNum] wraps an OpenSSL [BIGNUM].  OpenSSL is not part of the repository:
    its functions are the fields of the class [OpenSSL_BN], and what the wrapper
    relies on (OpenSSL's manual pages) is the class of laws [OpenSSL_BN_ok].
    [BN_add] and the like report only allocation failures, which are not
    modelled; [BN_div] and [BN_nnmod] also fail on a zero divisor, which is.

    The wrapper's own code is the MPI byte shuffling: sign-and-magnitude numbers
    in the 4-byte-length big-endian format on one side, machine integers, script
    byte vectors and compact targets on the other. *)

From stdpp Require Import base list numbers.
From Stdlib Require Import ZArith Lia.
From S2P Require Import Prelude Uint256.

Open Scope Z_scope.

(** ** The OpenSSL interface *)

Class OpenSSL_BN := {
  BIGNUM : Type;
  BN_ULONG_bytes : Z;
  BN_new : BIGNUM;
  BN_set_word : Z → BIGNUM;
  BN_get_word : BIGNUM → Z;
  BN_is_negative : BIGNUM → bool;
  BN_set_negative : BIGNUM → bool → BIGNUM;
  BN_is_zero : BIGNUM → bool;
  BN_cmp : BIGNUM → BIGNUM → Z;
  BN_mpi2bn : list Z → BIGNUM;
  BN_bn2mpi : BIGNUM → list Z;
  BN_bin2bn : list Z → BIGNUM;
  BN_bn2bin : BIGNUM → list Z;
  BN_add : BIGNUM → BIGNUM → BIGNUM;
  BN_sub : BIGNUM → BIGNUM → BIGNUM;
  BN_mul : BIGNUM → BIGNUM → BIGNUM;
  BN_div : BIGNUM → BIGNUM → option (BIGNUM * BIGNUM);
  BN_nnmod : BIGNUM → BIGNUM → option BIGNUM;
  BN_lshift : BIGNUM → Z → BIGNUM;
  BN_rshift : BIGNUM → Z → BIGNUM
}.

(** Big-endian magnitude without leading zero bytes, and the body of the MPI
    format: the top bit of the first byte is the sign, so a zero byte is put in
    front of a magnitude that uses it. *)
Definition be_mag (v : Z) : list Z := rev (to_digits 256 (Z.to_nat (bytelen v)) v).
Definition mpi_body (z : Z) : list Z :=
  match be_mag (Z.abs z) with
  | [] => []
  | b :: t =>
      if 128 <=? b then (if z <? 0 then 128 else 0) :: b :: t
      else (if z <? 0 then b + 128 else b) :: t
  end.
Definition be32 (n : Z) : list Z := rev (to_digits 256 4 n).
Definition mpi_val (body : list Z) : Z :=
  match body with
  | [] => 0
  | b :: t =>
      let m := dval 256 (rev (b mod 128 :: t)) in
      if 128 <=? b then - m else m
  end.

Class OpenSSL_BN_ok (B : OpenSSL_BN) := {
  bnval : BIGNUM → Z;
  BN_ULONG_law : BN_ULONG_bytes = 4 ∨ BN_ULONG_bytes = 8;
  BN_new_law : bnval BN_new = 0;
  BN_set_word_law w : 0 <= w < 256 ^ BN_ULONG_bytes → bnval (BN_set_word w) = w;
  BN_get_word_law a : BN_get_word a =
    if Z.abs (bnval a) <? 256 ^ BN_ULONG_bytes then Z.abs (bnval a) else 256 ^ BN_ULONG_bytes - 1;
  BN_is_negative_law a : BN_is_negative a = (bnval a <? 0);
  BN_set_negative_law a s : bnval (BN_set_negative a s) = if s then - Z.abs (bnval a) else Z.abs (bnval a);
  BN_is_zero_law a : BN_is_zero a = (bnval a =? 0);
  BN_cmp_law a b : BN_cmp a b = Z.sgn (bnval a - bnval b);
  BN_mpi2bn_law body : digits_ok 256 body → Z.of_nat (length body) < 2 ^ 32 →
    bnval (BN_mpi2bn (be32 (Z.of_nat (length body)) ++ body)) = mpi_val body;
  BN_bn2mpi_law a : BN_bn2mpi a = be32 (Z.of_nat (length (mpi_body (bnval a)))) ++ mpi_body (bnval a);
  BN_bin2bn_law bs : digits_ok 256 bs → bnval (BN_bin2bn bs) = dval 256 (rev bs);
  BN_bn2bin_law a : BN_bn2bin a = be_mag (Z.abs (bnval a));
  BN_add_law a b : bnval (BN_add a b) = bnval a + bnval b;
  BN_sub_law a b : bnval (BN_sub a b) = bnval a - bnval b;
  BN_mul_law a b : bnval (BN_mul a b) = bnval a * bnval b;
  BN_div_law a b : bnval b ≠ 0 → ∃ q r, BN_div a b = Some (q, r) ∧
    bnval q = Z.quot (bnval a) (bnval b) ∧ bnval r = Z.rem (bnval a) (bnval b);
  BN_div0_law a b : bnval b = 0 → BN_div a b = None;
  BN_nnmod_law a b : bnval b ≠ 0 → ∃ r, BN_nnmod a b = Some r ∧ bnval r = bnval a mod Z.abs (bnval b);
  BN_nnmod0_law a b : bnval b = 0 → BN_nnmod a b = None;
  BN_lshift_law a n : 0 <= n → bnval (BN_lshift a n) = bnval a * 2 ^ n;
  BN_rshift_law a n : 0 <= n → bnval (BN_rshift a n) = Z.quot (bnval a) (2 ^ n)
}.

(** ** [CBigNum] *)

Section CBigNum.
Context {BN : OpenSSL_BN}.

Definition setuint32 (n : Z) : BIGNUM := BN_set_word n.
Definition getuint32 (bn : BIGNUM) : Z := u32 (BN_get_word bn).

Definition getint32 (bn : BIGNUM) : Z :=
  let n := BN_get_word bn in
  if negb (BN_is_negative bn)
  then (if n >? 2 ^ 31 - 1 then 2 ^ 31 - 1 else i32 n)
  else (if n >? 2 ^ 31 - 1 then - 2 ^ 31 else i32 (- i32 n)).

(** The bytes of a 64-bit integer, shifted out from the top:
    [c = (n >> 56) & 0xff; n <<= 8;] *)
Fixpoint shift_out (i : nat) (n : Z) : list Z :=
  match i with
  | O => []
  | S i => Z.land (Z.shiftr n 56) 0xff :: shift_out i (u64 (Z.shiftl n 8))
  end.

(** The body of the setters: skip leading zero bytes, then make room for the
    sign bit and copy. *)
Fixpoint mpi_loop (fNegative fLeadingZeroes : bool) (cs : list Z) : list Z :=
  match cs with
  | [] => []
  | c :: t =>
      if fLeadingZeroes then
        if c =? 0 then mpi_loop fNegative true t
        else if negb (Z.land c 0x80 =? 0)
             then (if fNegative then 0x80 else 0) :: c :: mpi_loop fNegative false t
             else (if fNegative then Z.lor c 0x80 else c) :: mpi_loop fNegative false t
      else c :: mpi_loop fNegative false t
  end.

(** [pch[0..3]]: the size in big-endian order, in front of the body *)
Definition with_size (body : list Z) : list Z :=
  let nSize := u32 (Z.of_nat (length body)) in
  [Z.land (Z.shiftr nSize 24) 0xff; Z.land (Z.shiftr nSize 16) 0xff;
   Z.land (Z.shiftr nSize 8) 0xff; Z.land nSize 0xff] ++ body.

Definition setint64 (sn : Z) : BIGNUM :=
  let '(n, fNegative) :=
    if sn <? 0 then (u64 (u64 (i64 (- (sn + 1))) + 1), true) else (u64 sn, false) in
  BN_mpi2bn (with_size (mpi_loop fNegative true (shift_out 8 n))).

Definition setuint64 (n : Z) : BIGNUM :=
  if 8 <=? BN_ULONG_bytes then BN_set_word n
  else BN_mpi2bn (with_size (mpi_loop false true (shift_out 8 n))).

(** Constructors from machine integers *)
Definition CBigNum_bool (b : bool) : BIGNUM := setuint32 (if b then 1 else 0).
Definition CBigNum_int32 (n : Z) : BIGNUM := if 0 <=? n then setuint32 n else setint64 n.
Definition CBigNum_int64 (n : Z) : BIGNUM := if 0 <=? n then setuint64 n else setint64 n.
Definition CBigNum_uint32 (n : Z) : BIGNUM := setuint32 n.
Definition CBigNum_uint64 (n : Z) : BIGNUM := setuint64 n.

(** [setuint160]/[setuint256] walk the bytes of the number from the end *)
Definition setuint160 (n : base_uint) : BIGNUM :=
  BN_mpi2bn (with_size (mpi_loop false true (rev (getBytes n)))).
Definition setuint256 (n : base_uint) : BIGNUM :=
  BN_mpi2bn (with_size (mpi_loop false true (rev (getBytes n)))).

(** [vch[4] &= 0x7f] when there is a body *)
Definition clear_sign (body : list Z) : list Z :=
  match body with [] => [] | b :: t => Z.land b 0x7f :: t end.

(** The getters copy bytes from the end of the MPI string into a zeroed
    little-endian integer of [size] bytes. *)
Definition low_bytes (size : nat) (bn : BIGNUM) : list Z :=
  let vch := BN_bn2mpi bn in
  let src := take size (rev (clear_sign (drop 4 vch))) in
  src ++ replicate (size - length src) 0.
Definition getuint64 (bn : BIGNUM) : Z := dval 256 (low_bytes 8 bn).
Definition getuint160 (bn : BIGNUM) : base_uint := limbs_of_bytes (low_bytes 20 bn).
Definition getuint256 (bn : BIGNUM) : base_uint := limbs_of_bytes (low_bytes 32 bn).

Definition setBytes (vchBytes : list Z) : BIGNUM := BN_bin2bn vchBytes.
Definition getBytes_bn (bn : BIGNUM) : list Z := BN_bn2bin bn.

(** Script number encoding *)
Definition setvch (vch : list Z) : BIGNUM := BN_mpi2bn (with_size (rev vch)).
Definition getvch (bn : BIGNUM) : list Z :=
  let vch := BN_bn2mpi bn in
  if bool_decide (length vch <= 4)%nat then [] else rev (drop 4 vch).

(** Compact targets *)
Definition bn_SetCompact (nCompact : Z) : BIGNUM :=
  let nSize := Z.shiftr nCompact 24 in
  let vch := replicate (4 + Z.to_nat nSize) 0 in
  let vch := <[3%nat := u8 nSize]> vch in
  let vch := if 1 <=? nSize then <[4%nat := Z.land (Z.shiftr nCompact 16) 0xff]> vch else vch in
  let vch := if 2 <=? nSize then <[5%nat := Z.land (Z.shiftr nCompact 8) 0xff]> vch else vch in
  let vch := if 3 <=? nSize then <[6%nat := Z.land nCompact 0xff]> vch else vch in
  BN_mpi2bn vch.

Definition bn_GetCompact (bn : BIGNUM) : Z :=
  let vch := BN_bn2mpi bn in
  let nSize := u32 (Z.of_nat (length vch) - 4) in
  let nCompact := u32 (Z.shiftl nSize 24) in
  let nCompact := if 1 <=? nSize then Z.lor nCompact (Z.shiftl (nth 4 vch 0) 16) else nCompact in
  let nCompact := if 2 <=? nSize then Z.lor nCompact (Z.shiftl (nth 5 vch 0) 8) else nCompact in
  if 3 <=? nSize then Z.lor nCompact (nth 6 vch 0) else nCompact.

(** Arithmetic *)
Definition bn_is_zero (a : BIGNUM) : bool := BN_is_zero a.
Definition bn_add (a b : BIGNUM) : BIGNUM := BN_add a b.
Definition bn_sub (a b : BIGNUM) : BIGNUM := BN_sub a b.
Definition bn_neg (a : BIGNUM) : BIGNUM := BN_set_negative a (negb (BN_is_negative a)).
Definition bn_mul (a b : BIGNUM) : BIGNUM := BN_mul a b.
Definition bn_div (a b : BIGNUM) : option BIGNUM := fst <$> BN_div a b.
Definition bn_mod (a b : BIGNUM) : option BIGNUM := BN_nnmod a b.
Definition bn_shl (a : BIGNUM) (shift : Z) : BIGNUM := BN_lshift a shift.
Definition bn_shr (a : BIGNUM) (shift : Z) : BIGNUM :=
  let a1 := bn_shl (CBigNum_int32 1) shift in
  if BN_cmp a1 a >? 0 then CBigNum_int32 0 else BN_rshift a shift.
Definition bn_inc (a : BIGNUM) : BIGNUM := BN_add a (BN_set_word 1).
Definition bn_dec (a : BIGNUM) : BIGNUM := BN_sub a (BN_set_word 1).
Definition bn_eq (a b : BIGNUM) : bool := BN_cmp a b =? 0.
Definition bn_ne (a b : BIGNUM) : bool := negb (BN_cmp a b =? 0).
Definition bn_le (a b : BIGNUM) : bool := BN_cmp a b <=? 0.
Definition bn_ge (a b : BIGNUM) : bool := BN_cmp a b >=? 0.
Definition bn_lt (a b : BIGNUM) : bool := BN_cmp a b <? 0.
Definition bn_gt (a b : BIGNUM) : bool := BN_cmp a b >? 0.

(** [SetHex] of a character string *)
Definition isxdigit (c : Z) : bool :=
  ((48 <=? c) && (c <=? 57)) || ((65 <=? c) && (c <=? 70)) || ((97 <=? c) && (c <=? 102)).
Fixpoint bn_hex_loop (acc : BIGNUM) (psz : list Z) : BIGNUM :=
  match psz with
  | c :: t => if isxdigit c then bn_hex_loop (bn_add (bn_shl acc 4) (CBigNum_int32 (phexdigit c))) t else acc
  | [] => acc
  end.
Definition bn_SetHex (str : list Z) : BIGNUM :=
  let psz := skip_spaces str in
  let '(fNegative, psz) := match psz with c :: t => if c =? 45 then (true, t) else (false, psz) | [] => (false, []) end in
  let psz := skip_spaces (skip_0x psz) in
  let this := bn_hex_loop (CBigNum_int32 0) psz in
  if fNegative then bn_sub (CBigNum_int32 0) this else this.

(** [ToString]: digits are produced from the least significant one while the
    running quotient is positive; the sign test at the end reads the local copy,
    whose sign was cleared on entry.  The loop runs at most once per bit of the
    number; [None] is a [bignum_error]. *)
Fixpoint tostring_loop (fuel : nat) (bn bnBase : BIGNUM) (str : list Z) : option (BIGNUM * list Z) :=
  match fuel with
  | O => Some (bn, str)
  | S fuel =>
      if BN_cmp bn (CBigNum_int32 0) >? 0 then
        match BN_div bn bnBase with
        | None => None
        | Some (dv, rem) => tostring_loop fuel dv bnBase (str ++ [hexchar (getuint32 rem)])
        end
      else Some (bn, str)
  end.
Definition ToString (this : BIGNUM) (nBase : Z) : option (list Z) :=
  let bnBase := CBigNum_int32 nBase in
  let bn := BN_set_negative this false in
  if BN_cmp bn (CBigNum_int32 0) =? 0 then Some [48]
  else
    match tostring_loop (8 * length (BN_bn2mpi this)) bn bnBase [] with
    | None => None
    | Some (bn, str) => Some (rev (if BN_is_negative bn then str ++ [45] else str))
    end.

End CBigNum.

(** ** The MPI format *)

Lemma land_0xff x : 0 <= x → Z.land x 0xff = x mod 256.
Proof. intros. change 0xff with (Z.ones 8). apply Z.land_ones. lia. Qed.

Lemma with_size_eq body : Z.of_nat (length body) < 2 ^ 32 →
  with_size body = be32 (Z.of_nat (length body)) ++ body.
Proof.
  intros Hl. unfold with_size, be32. cbv zeta. rewrite u32_small by lia.
  rewrite !land_0xff by (try apply Z.shiftr_nonneg; lia). rewrite !Z.shiftr_div_pow2 by lia.
  set (n := Z.of_nat (length body)). simpl to_digits. simpl rev. cbn [app].
  change (2 ^ 8) with 256. change (2 ^ 16) with (256 * 256). change (2 ^ 24) with (256 * 256 * 256).
  rewrite <- !Z.div_div by lia. done.
Qed.

Lemma length_be32 n : length (be32 n) = 4%nat.
Proof. unfold be32. rewrite length_rev, length_to_digits. done. Qed.

Lemma dval_rev_cons c t : dval 256 (rev (c :: t)) = dval 256 (rev t) + 256 ^ Z.of_nat (length t) * c.
Proof. simpl rev. rewrite dval_app, length_rev by lia. simpl dval. lia. Qed.

Lemma digits_ok_rev B l : digits_ok B (rev l) ↔ digits_ok B l.
Proof.
  split; intros H; [rewrite <- (rev_involutive l)|]; apply Forall_rev; done.
Qed.

Lemma be_mag_0 : be_mag 0 = [].
Proof. done. Qed.

(** A magnitude whose first digit is not zero is its own big-endian expansion. *)
Lemma be_mag_nonzero c t : digits_ok 256 (c :: t) → c ≠ 0 → be_mag (dval 256 (rev (c :: t))) = c :: t.
Proof.
  intros Hd Hc. assert (Hd' := Hd). apply Forall_cons_iff in Hd' as [Hcr Ht].
  assert (Hb := dval_bound 256 (rev (c :: t)) ltac:(lia) (proj2 (digits_ok_rev _ _) Hd)).
  rewrite length_rev in Hb. cbn [length] in Hb.
  assert (Hb' := dval_bound 256 (rev t) ltac:(lia) (proj2 (digits_ok_rev _ _) Ht)).
  assert (Hv := dval_rev_cons c t). set (v := dval 256 (rev (c :: t))) in Hb, Hv |- *.
  assert (Hp : 0 < 256 ^ Z.of_nat (length t)) by (apply Z.pow_pos_nonneg; lia).
  assert (Hbl : bytelen v = Z.of_nat (S (length t))).
  { destruct (bytelen_spec v) as [H0 [H1 H2]]; [nia|].
    assert (bytelen v <= Z.of_nat (S (length t))) by (apply bytelen_le; lia).
    destruct (Z.le_gt_cases (Z.of_nat (S (length t))) (bytelen v)); [lia|].
    assert (256 ^ bytelen v <= 256 ^ Z.of_nat (length t)) by (apply Z.pow_le_mono_r; lia). nia. }
  unfold be_mag. rewrite Hbl, Nat2Z.id. subst v.
  rewrite (to_digits_dval_eq 256 (S (length t)) (rev (c :: t))).
  - apply rev_involutive.
  - lia.
  - apply digits_ok_rev. done.
  - rewrite length_rev. done.
Qed.

Lemma be_mag_zero_head t : be_mag (dval 256 (rev (0 :: t))) = be_mag (dval 256 (rev t)).
Proof. rewrite dval_rev_cons, Z.mul_0_r, Z.add_0_r. done. Qed.

Lemma dval_be_mag v : 0 <= v → dval 256 (rev (be_mag v)) = v.
Proof.
  intros Hv. unfold be_mag. rewrite rev_involutive, dval_to_digits by lia.
  destruct (decide (v = 0)) as [->|]; [done|]. destruct (bytelen_spec v) as [H0 H1]; [lia|].
  rewrite Z2Nat.id by lia. apply Z.mod_small. lia.
Qed.

Lemma be_mag_ok v : digits_ok 256 (be_mag v).
Proof. apply digits_ok_rev. apply to_digits_ok. lia. Qed.

Lemma be_mag_head v b t : 0 < v → be_mag v = b :: t → b ≠ 0.
Proof.
  intros Hv E ->. assert (Hd := dval_be_mag v ltac:(lia)). assert (Hok := be_mag_ok v).
  assert (Hl : length (be_mag v) = Z.to_nat (bytelen v)) by (unfold be_mag; rewrite length_rev, length_to_digits; done).
  rewrite E in Hd, Hok, Hl. rewrite dval_rev_cons in Hd. apply Forall_cons_iff in Hok as [_ Hok].
  assert (Hb := dval_bound 256 (rev t) ltac:(lia) (proj2 (digits_ok_rev _ _) Hok)). rewrite length_rev in Hb.
  destruct (bytelen_spec v Hv) as [H0 [H1 _]]. simpl in Hl.
  replace (bytelen v - 1) with (Z.of_nat (length t)) in H1 by lia. lia.
Qed.

Lemma land_0x80 c : 0 <= c < 256 → (Z.land c 0x80 =? 0) = negb (128 <=? c).
Proof.
  intros Hc. change (Z.land c 0x80) with (Z.land c (2 ^ 7)). rewrite land_pow2 by lia.
  assert (Z.testbit c 7 = (128 <=? c)) as ->.
  { destruct (Z.leb_spec 128 c).
    - assert (Z.log2 c = 7) as <- by (apply Z.log2_unique; lia). apply Z.bit_log2. lia.
    - apply (testbit_above _ 7); lia. }
  destruct (128 <=? c); done.
Qed.

Lemma lor_0x80 c : 0 <= c < 128 → Z.lor c 0x80 = c + 128.
Proof. intros. change (Z.lor c 0x80) with (Z.lor c (Z.shiftl 1 7)). rewrite lor_add_disjoint by lia. done. Qed.

Lemma land_0x7f c : 0 <= c → Z.land c 0x7f = c mod 128.
Proof. intros. change 0x7f with (Z.ones 7). apply Z.land_ones. lia. Qed.

Lemma mpi_loop_false neg cs : mpi_loop neg false cs = cs.
Proof. induction cs as [|c t IH]; simpl; rewrite ?IH; done. Qed.

(** The setters' loop produces the MPI body of the number whose big-endian bytes
    it walks. *)
Lemma mpi_loop_body neg cs : digits_ok 256 cs →
  mpi_loop neg true cs = mpi_body (if neg then - dval 256 (rev cs) else dval 256 (rev cs)).
Proof.
  intros Hd. induction Hd as [|c t Hc Ht IH].
  - destruct neg; done.
  - cbn [mpi_loop]. destruct (Z.eqb_spec c 0) as [->|Hne].
    + rewrite IH, dval_rev_cons, Z.mul_0_r, Z.add_0_r. done.
    + assert (Hd : digits_ok 256 (c :: t)) by (constructor; done).
      assert (Hb := dval_bound 256 (rev (c :: t)) ltac:(lia) (proj2 (digits_ok_rev _ _) Hd)).
      assert (Hv := dval_rev_cons c t).
      assert (Hb' := dval_bound 256 (rev t) ltac:(lia) (proj2 (digits_ok_rev _ _) Ht)).
      assert (Hp : 0 < 256 ^ Z.of_nat (length t)) by (apply Z.pow_pos_nonneg; lia).
      unfold mpi_body. rewrite land_0x80, negb_involutive, mpi_loop_false by done.
      assert (Z.abs (if neg then - dval 256 (rev (c :: t)) else dval 256 (rev (c :: t)))
              = dval 256 (rev (c :: t))) as -> by (destruct neg; lia).
      rewrite be_mag_nonzero by done.
      assert (((if neg then - dval 256 (rev (c :: t)) else dval 256 (rev (c :: t))) <? 0) = neg) as ->.
      { destruct neg; [apply Z.ltb_lt|apply Z.ltb_ge]; nia. }
      destruct (Z.leb_spec 128 c); [done|]. destruct neg; rewrite ?lor_0x80 by lia; done.
Qed.

Lemma mpi_body_ok z : digits_ok 256 (mpi_body z).
Proof.
  unfold mpi_body. assert (Hok := be_mag_ok (Z.abs z)). destruct (be_mag (Z.abs z)) as [|b t]; [constructor|].
  apply Forall_cons_iff in Hok as [Hb Ht]. destruct (Z.leb_spec 128 b).
  - repeat constructor; auto; destruct (z <? 0); lia.
  - constructor; auto. destruct (z <? 0); lia.
Qed.

Lemma mpi_clear_sign z : dval 256 (rev (clear_sign (mpi_body z))) = Z.abs z.
Proof.
  transitivity (dval 256 (rev (be_mag (Z.abs z)))); [|apply dval_be_mag; lia].
  unfold mpi_body. assert (Hok := be_mag_ok (Z.abs z)).
  destruct (be_mag (Z.abs z)) as [|b t]; [done|]. apply Forall_cons_iff in Hok as [Hb Ht].
  destruct (Z.leb_spec 128 b); cbn [clear_sign].
  - rewrite land_0x7f by (destruct (z <? 0); lia).
    assert ((if z <? 0 then 128 else 0) mod 128 = 0) as -> by (destruct (z <? 0); done).
    rewrite dval_rev_cons. lia.
  - assert (Z.land (if z <? 0 then b + 128 else b) 127 = b) as ->; [|done].
    rewrite land_0x7f by (destruct (z <? 0); lia).
    destruct (z <? 0); [symmetry; apply (Z.mod_unique _ _ 1); lia|apply Z.mod_small; lia].
Qed.

Lemma mpi_body_nil z : mpi_body z = [] → z = 0.
Proof.
  intros E. assert (H := mpi_clear_sign z). rewrite E in H. simpl in H. lia.
Qed.

Lemma mpi_val_body z : mpi_val (mpi_body z) = z.
Proof.
  assert (Hc := mpi_clear_sign z). assert (Hn := mpi_body_nil z). assert (Hok := mpi_body_ok z).
  unfold mpi_val. destruct (mpi_body z) as [|b t] eqn:E.
  - rewrite Hn; done.
  - apply Forall_cons_iff in Hok as [Hb _]. cbn [clear_sign] in Hc. rewrite land_0x7f in Hc by lia. rewrite Hc.
    destruct (decide (z = 0)) as [->|Hz]; [destruct (128 <=? b); done|].
    assert ((128 <=? b) = (z <? 0)) as ->; [|destruct (Z.ltb_spec z 0); lia].
    unfold mpi_body in E. assert (Hok := be_mag_ok (Z.abs z)).
    destruct (be_mag (Z.abs z)) as [|b' t']; [done|]. apply Forall_cons_iff in Hok as [Hb' _].
    clear Hc Hn. destruct (Z.leb_spec 128 b'); injection E as <- <-;
      destruct (z <? 0); [apply Z.leb_le|apply Z.leb_gt|apply Z.leb_le|apply Z.leb_gt]; lia.
Qed.

(** ** What the wrapper computes *)

Section CBigNum_facts.
Context {BN : OpenSSL_BN} {BNok : OpenSSL_BN_ok BN}.

Lemma mpi2bn_ok body : digits_ok 256 body → Z.of_nat (length body) < 2 ^ 32 →
  bnval (BN_mpi2bn (with_size body)) = mpi_val body.
Proof. intros. rewrite with_size_eq by done. apply BN_mpi2bn_law; done. Qed.

Lemma length_mpi_loop neg b cs : (length (mpi_loop neg b cs) <= S (length cs))%nat.
Proof.
  revert b. induction cs as [|c t IH]; intros [|]; cbn [mpi_loop length]; try lia.
  - destruct (c =? 0); [specialize (IH true); lia|]. rewrite mpi_loop_false.
    case_match; cbn [length]; lia.
  - rewrite mpi_loop_false. lia.
Qed.

Lemma mpi_loop_ok neg cs : digits_ok 256 cs → (length cs <= 100)%nat →
  bnval (BN_mpi2bn (with_size (mpi_loop neg true cs))) =
  if neg then - dval 256 (rev cs) else dval 256 (rev cs).
Proof.
  intros Hd Hl. assert (Hb := length_mpi_loop neg true cs). rewrite mpi2bn_ok.
  - rewrite mpi_loop_body by done. apply mpi_val_body.
  - rewrite mpi_loop_body by done. apply mpi_body_ok.
  - lia.
Qed.

Lemma shift_out_ok i n : (i <= 8)%nat → 0 <= n < 2 ^ 64 →
  digits_ok 256 (shift_out i n) ∧ length (shift_out i n) = i ∧
  dval 256 (rev (shift_out i n)) = n / 256 ^ (8 - Z.of_nat i).
Proof.
  revert n. induction i as [|i IH]; intros n Hi Hn.
  - repeat split; [constructor|]. simpl. rewrite Z.div_small; lia.
  - cbn [shift_out]. rewrite Z.shiftr_div_pow2, Z.shiftl_mul_pow2, land_0xff by (try apply Z.div_pos; lia).
    assert (Hq : 0 <= n / 2 ^ 56 < 256) by (split; [apply Z.div_pos|apply Z.div_lt_upper_bound]; lia).
    assert (Hr := Z.mod_pos_bound n (2 ^ 56) ltac:(lia)). assert (Hdm := Z.div_mod n (2 ^ 56) ltac:(lia)).
    assert (u64 (n * 2 ^ 8) = n mod 2 ^ 56 * 256) as ->.
    { unfold u64. symmetry. apply (Z.mod_unique _ _ (n / 2 ^ 56)); lia. }
    destruct (IH (n mod 2 ^ 56 * 256)) as (H1 & H2 & H3); [lia|lia|].
    rewrite (Z.mod_small (n / 2 ^ 56)) by lia. split; [constructor; [lia|done]|]. split; [simpl; lia|].
    rewrite dval_rev_cons, H3, H2.
    set (k := 7 - Z.of_nat i). replace (8 - Z.of_nat i) with (Z.succ k) by lia.
    replace (8 - Z.of_nat (S i)) with k by lia. rewrite Z.pow_succ_r, (Z.mul_comm 256) by lia.
    rewrite Z.div_mul_cancel_r by (try apply Z.pow_nonzero; lia).
    replace n with (n mod 2 ^ 56 + (256 ^ Z.of_nat i * (n / 2 ^ 56)) * 256 ^ k) at 3.
    + rewrite Z.div_add by (apply Z.pow_nonzero; lia). lia.
    + transitivity (n mod 2 ^ 56 + (256 ^ Z.of_nat i * 256 ^ k) * (n / 2 ^ 56)); [ring|].
      rewrite <- Z.pow_add_r by lia. replace (Z.of_nat i + k) with 7 by lia. change (256 ^ 7) with (2 ^ 56). lia.
Qed.

Lemma setint64_ok n : - 2 ^ 63 <= n < 2 ^ 63 → bnval (setint64 n) = n.
Proof.
  intros Hn. unfold setint64. destruct (Z.ltb_spec n 0) as [Hneg|Hpos].
  - assert (u64 (u64 (i64 (- (n + 1))) + 1) = - n) as ->.
    { rewrite (i64_small (- (n + 1))), (u64_small (- (n + 1))), u64_small by lia. lia. }
    destruct (shift_out_ok 8 (- n)) as (H1 & H2 & H3); [lia|lia|]. rewrite mpi_loop_ok, H3 by (done || lia).
    simpl Z.sub. rewrite Z.pow_0_r, Z.div_1_r. lia.
  - rewrite u64_small by lia. destruct (shift_out_ok 8 n) as (H1 & H2 & H3); [lia|lia|].
    rewrite mpi_loop_ok, H3 by (done || lia). simpl Z.sub. rewrite Z.pow_0_r, Z.div_1_r. done.
Qed.

Lemma BN_word_le : 2 ^ 32 <= 256 ^ BN_ULONG_bytes.
Proof. destruct BN_ULONG_law as [->| ->]; done. Qed.

Lemma setuint64_ok n : 0 <= n < 2 ^ 64 → bnval (setuint64 n) = n.
Proof.
  intros Hn. unfold setuint64. destruct (Z.leb_spec 8 BN_ULONG_bytes).
  - apply BN_set_word_law. destruct BN_ULONG_law as [E|E]; rewrite E in *; lia.
  - destruct (shift_out_ok 8 n) as (H1 & H2 & H3); [lia|lia|]. rewrite mpi_loop_ok, H3 by (done || lia).
    simpl Z.sub. rewrite Z.pow_0_r, Z.div_1_r. done.
Qed.

Lemma setuint32_ok n : 0 <= n < 2 ^ 32 → bnval (setuint32 n) = n.
Proof. intros. apply BN_set_word_law. assert (H' := BN_word_le). lia. Qed.

Lemma CBigNum_bool_ok b : bnval (CBigNum_bool b) = Z.b2z b.
Proof. unfold CBigNum_bool. rewrite setuint32_ok; destruct b; simpl; lia. Qed.

Lemma CBigNum_int32_ok n : - 2 ^ 31 <= n < 2 ^ 31 → bnval (CBigNum_int32 n) = n.
Proof. intros. unfold CBigNum_int32. destruct (Z.leb_spec 0 n); [apply setuint32_ok|apply setint64_ok]; lia. Qed.

Lemma CBigNum_int64_ok n : - 2 ^ 63 <= n < 2 ^ 63 → bnval (CBigNum_int64 n) = n.
Proof. intros. unfold CBigNum_int64. destruct (Z.leb_spec 0 n); [apply setuint64_ok|apply setint64_ok]; lia. Qed.

Lemma setuint_ok W n : (W <= 20)%nat → wf W n →
  bnval (BN_mpi2bn (with_size (mpi_loop false true (rev (getBytes n))))) = val n.
Proof.
  intros HW Hn. destruct (getBytes_ok W n Hn) as (H1 & H2 & H3 & _).
  rewrite mpi_loop_ok, rev_involutive; [done|apply digits_ok_rev; done|rewrite length_rev, H2; lia].
Qed.

Lemma setuint256_ok n : wf W256 n → bnval (setuint256 n) = val n.
Proof. apply setuint_ok. lia. Qed.

(** Taking the low [size] bytes of the magnitude is reduction modulo [256^size]. *)
Lemma take_dval n l : digits_ok 256 l →
  dval 256 (take n l ++ replicate (n - length (take n l)) 0) = dval 256 l mod 256 ^ Z.of_nat n ∧
  length (take n l ++ replicate (n - length (take n l)) 0) = n ∧
  digits_ok 256 (take n l ++ replicate (n - length (take n l)) 0).
Proof.
  intros Hl. assert (Ht : digits_ok 256 (take n l)) by (apply Forall_take; done).
  assert (Hlen : length (take n l) = Nat.min n (length l)) by apply length_take.
  split; [|split].
  - rewrite dval_app, dval_replicate_0, Z.mul_0_r, Z.add_0_r by lia.
    rewrite <- (take_drop n l) at 2. rewrite dval_app by lia.
    assert (Hb := dval_bound 256 (take n l) ltac:(lia) Ht).
    destruct (decide (n <= length l)%nat).
    + replace (length (take n l)) with n in * by lia. rewrite Z.mul_comm, Z_mod_plus_full, Z.mod_small; lia.
    + rewrite drop_ge by lia. simpl dval. rewrite Z.mul_0_r, Z.add_0_r, Z.mod_small; [done|].
      split; [lia|]. apply Z.lt_le_trans with (256 ^ Z.of_nat (length (take n l))); [lia|].
      apply Z.pow_le_mono_r; lia.
  - rewrite length_app, length_replicate. lia.
  - apply Forall_app. split; [done|]. apply digits_ok_replicate_0. lia.
Qed.

Lemma low_bytes_ok size bn : digits_ok 256 (low_bytes size bn) ∧ length (low_bytes size bn) = size ∧
  dval 256 (low_bytes size bn) = Z.abs (bnval bn) mod 256 ^ Z.of_nat size.
Proof.
  unfold low_bytes. rewrite BN_bn2mpi_law. rewrite drop_app_length' by (rewrite length_be32; done).
  assert (Hok : digits_ok 256 (rev (clear_sign (mpi_body (bnval bn))))).
  { apply digits_ok_rev. assert (H := mpi_body_ok (bnval bn)). destruct (mpi_body (bnval bn)) as [|b t]; [done|].
    apply Forall_cons_iff in H as [Hb Ht]. constructor; [|done]. rewrite land_0x7f by lia.
    assert (H' := Z.mod_pos_bound b 128 ltac:(lia)). lia. }
  destruct (take_dval size _ Hok) as (H1 & H2 & H3). rewrite mpi_clear_sign in H1. auto.
Qed.

Lemma getuint64_ok bn : getuint64 bn = Z.abs (bnval bn) mod 2 ^ 64.
Proof. apply (low_bytes_ok 8 bn). Qed.

Lemma getuint256_ok bn : wf W256 (getuint256 bn) ∧ val (getuint256 bn) = Z.abs (bnval bn) mod 2 ^ 256.
Proof.
  destruct (low_bytes_ok 32 bn) as (H1 & H2 & H3).
  destruct (limbs_of_bytes_ok W256 (low_bytes 32 bn)) as (Hw & Hv & _); [done|done|].
  unfold getuint256. split; [done|]. rewrite Hv, H3. done.
Qed.

Lemma getint32_ok bn : - 2 ^ 31 < bnval bn < 2 ^ 31 → getint32 bn = bnval bn.
Proof.
  intros Hb. unfold getint32. rewrite BN_is_negative_law, BN_get_word_law. assert (H := BN_word_le).
  destruct (Z.ltb_spec (Z.abs (bnval bn)) (256 ^ BN_ULONG_bytes)); [|lia].
  destruct (Z.gtb_spec (Z.abs (bnval bn)) (2 ^ 31 - 1)); [lia|].
  destruct (Z.ltb_spec (bnval bn) 0); simpl negb; cbv iota; rewrite ?(i32_small (Z.abs _)) by lia; [rewrite i32_small by lia|]; lia.
Qed.

Lemma bn_neg_ok a : bnval (bn_neg a) = - bnval a.
Proof.
  unfold bn_neg. rewrite BN_set_negative_law, BN_is_negative_law.
  destruct (Z.ltb_spec (bnval a) 0); simpl negb; cbv iota; lia.
Qed.

Lemma bn_eq_ok a b : bn_eq a b = (bnval a =? bnval b).
Proof. unfold bn_eq. rewrite BN_cmp_law. lia. Qed.
Lemma bn_ne_ok a b : bn_ne a b = negb (bnval a =? bnval b).
Proof. unfold bn_ne. rewrite BN_cmp_law. lia. Qed.
Lemma bn_lt_ok a b : bn_lt a b = (bnval a <? bnval b).
Proof. unfold bn_lt. rewrite BN_cmp_law. lia. Qed.
Lemma bn_le_ok a b : bn_le a b = (bnval a <=? bnval b).
Proof. unfold bn_le. rewrite BN_cmp_law. lia. Qed.
Lemma bn_gt_ok a b : bn_gt a b = (bnval b <? bnval a).
Proof. unfold bn_gt. rewrite BN_cmp_law. lia. Qed.
Lemma bn_ge_ok a b : bn_ge a b = (bnval b <=? bnval a).
Proof. unfold bn_ge. rewrite BN_cmp_law. lia. Qed.

(** ** Script numbers *)

(** Little-endian sign-and-magnitude value of a byte vector. *)
Definition scriptnum (vch : list Z) : Z := mpi_val (rev vch).

Lemma setvch_ok vch : digits_ok 256 vch → Z.of_nat (length vch) < 2 ^ 32 → bnval (setvch vch) = scriptnum vch.
Proof. intros. apply mpi2bn_ok; [apply digits_ok_rev; done|rewrite length_rev; done]. Qed.

Lemma getvch_ok bn : getvch bn = rev (mpi_body (bnval bn)).
Proof.
  unfold getvch. rewrite BN_bn2mpi_law, length_app, length_be32.
  case_bool_decide as E.
  - destruct (mpi_body (bnval bn)); [done|]. simpl in E. lia.
  - rewrite drop_app_length' by (rewrite length_be32; done). done.
Qed.

Lemma scriptnum_getvch bn : scriptnum (getvch bn) = bnval bn.
Proof. unfold scriptnum. rewrite getvch_ok, rev_involutive. apply mpi_val_body. Qed.

Lemma getvch_bytes bn : digits_ok 256 (getvch bn).
Proof. rewrite getvch_ok. apply digits_ok_rev, mpi_body_ok. Qed.

(** ** Compact targets *)

Lemma lor3 n a b c : 0 <= a < 256 → 0 <= b < 256 → 0 <= c < 256 →
  Z.lor (Z.lor (Z.lor (Z.shiftl n 24) (Z.shiftl a 16)) (Z.shiftl b 8)) c = n * 2 ^ 24 + (a * 65536 + b * 256 + c).
Proof.
  intros Ha Hb Hc.
  assert (Z.lor (Z.shiftl n 24) (Z.shiftl a 16) = Z.shiftl (256 * n + a) 16) as ->.
  { replace (Z.shiftl n 24) with (Z.shiftl (Z.shiftl n 8) 16) by (rewrite Z.shiftl_shiftl by lia; done).
    rewrite <- Z.shiftl_lor, Z.lor_comm, lor_add_disjoint by lia. f_equal. lia. }
  assert (Z.lor (Z.shiftl (256 * n + a) 16) (Z.shiftl b 8) = Z.shiftl (256 * (256 * n + a) + b) 8) as ->.
  { replace (Z.shiftl (256 * n + a) 16) with (Z.shiftl (Z.shiftl (256 * n + a) 8) 8) by (rewrite Z.shiftl_shiftl by lia; done).
    rewrite <- Z.shiftl_lor, Z.lor_comm, lor_add_disjoint by lia. f_equal. lia. }
  rewrite Z.lor_comm, lor_add_disjoint by lia. lia.
Qed.

(** [GetCompact] of a non-negative number packs the length of the MPI body and
    its first three bytes. *)
Lemma bn_GetCompact_ok bn : 0 <= bnval bn → Z.of_nat (length (mpi_body (bnval bn))) < 256 →
  let n := Z.of_nat (length (mpi_body (bnval bn))) in
  bn_GetCompact bn = n * 2 ^ 24 + bnval bn * 256 ^ 3 / 256 ^ n.
Proof.
  intros Hv Hn. cbv zeta. unfold bn_GetCompact. rewrite BN_bn2mpi_law, length_app, length_be32.
  set (body := mpi_body (bnval bn)) in *.
  assert (Hd : dval 256 (rev body) = bnval bn).
  { subst body. assert (Hc := mpi_clear_sign (bnval bn)). assert (Hm := mpi_val_body (bnval bn)).
    assert (Hok := mpi_body_ok (bnval bn)).
    assert (Hz : bnval bn = 0 → mpi_body (bnval bn) = []) by (intros ->; done).
    destruct (mpi_body (bnval bn)) as [|b t]; [simpl in *; lia|]. apply Forall_cons_iff in Hok as [Hb _].
    cbn [clear_sign] in Hc. rewrite land_0x7f in Hc by lia. unfold mpi_val in Hm.
    assert (dval 256 (rev (b mod 128 :: t)) = bnval bn) as Hc' by lia. rewrite Hc' in Hm.
    destruct (Z.leb_spec 128 b).
    - assert (bnval bn = 0) as E by lia. apply Hz in E. done.
    - rewrite (Z.mod_small b) in Hc' by lia. done. }
  assert (Hok : digits_ok 256 body) by apply mpi_body_ok.
  rewrite <- Hd. clear Hd Hv. clearbody body.
  assert (E : nth 4 (be32 (Z.of_nat (length body)) ++ body) 0 = nth 0 body 0 ∧
              nth 5 (be32 (Z.of_nat (length body)) ++ body) 0 = nth 1 body 0 ∧
              nth 6 (be32 (Z.of_nat (length body)) ++ body) 0 = nth 2 body 0).
  { rewrite !app_nth2 by (rewrite length_be32; lia). rewrite length_be32. done. }
  destruct E as (-> & -> & ->).
  replace (Z.of_nat (4 + length body) - 4) with (Z.of_nat (length body)) by lia.
  rewrite (u32_small (Z.of_nat _)) by lia. rewrite u32_small by (rewrite Z.shiftl_mul_pow2; lia).
  destruct body as [|b0 [|b1 [|b2 t]]].
  - done.
  - apply Forall_cons_iff in Hok as [H0 _]. cbn [length nth rev app dval]. simpl Z.of_nat. simpl Z.leb. cbv iota.
    assert (H := lor3 1 b0 0 0 ltac:(lia) ltac:(lia) ltac:(lia)). rewrite Z.shiftl_0_l, !Z.lor_0_r in H.
    etransitivity; [exact H|]. f_equal. apply (Z.div_unique _ _ _ 0); lia.
  - do 2 (apply Forall_cons_iff in Hok as [? Hok]). cbn [length nth rev app dval]. simpl Z.of_nat. simpl Z.leb. cbv iota.
    assert (H' := lor3 2 b0 b1 0 ltac:(lia) ltac:(lia) ltac:(lia)). rewrite !Z.lor_0_r in H'.
    etransitivity; [exact H'|]. f_equal. apply (Z.div_unique _ _ _ 0); lia.
  - do 3 (apply Forall_cons_iff in Hok as [? Hok]). cbn [nth].
    rewrite !(proj2 (Z.leb_le _ _)) by (cbn [length]; lia). rewrite lor3 by lia. f_equal.
    rewrite !dval_rev_cons. cbn [length]. rewrite !pow_succ_nat.
    assert (Hb := dval_bound 256 (rev t) ltac:(lia) (proj2 (digits_ok_rev _ _) Hok)). rewrite length_rev in Hb.
    set (P := 256 ^ Z.of_nat (length t)) in *. set (D := dval 256 (rev t)) in *.
    apply (Z.div_unique _ _ _ (D * 256 ^ 3)); [left; nia|]. ring.
Qed.

Lemma be32_small n : 0 <= n < 256 → be32 n = [0; 0; 0; n].
Proof.
  intros Hn. unfold be32. cbn [to_digits rev app]. rewrite (Z.mod_small n), (Z.div_small n) by lia. done.
Qed.

(** The MPI body [SetCompact] builds. *)
Lemma bn_SetCompact_body c : 0 <= c < 2 ^ 32 → bnval (bn_SetCompact c) =
  mpi_val (take (Z.to_nat (c / 2 ^ 24)) ([c / 2 ^ 16 mod 256; c / 2 ^ 8 mod 256; c mod 256] ++
           replicate (Z.to_nat (c / 2 ^ 24) - 3) 0)).
Proof.
  intros Hc. unfold bn_SetCompact. rewrite !Z.shiftr_div_pow2, !land_0xff by (try apply Z.div_pos; lia).
  assert (Hs : 0 <= c / 2 ^ 24 < 256) by (split; [apply Z.div_pos|apply Z.div_lt_upper_bound]; lia).
  rewrite u8_small by lia.
  set (b2 := c / 2 ^ 16 mod 256). set (b1 := c / 2 ^ 8 mod 256). set (b0 := c mod 256).
  assert (Hb : 0 <= b2 < 256 ∧ 0 <= b1 < 256 ∧ 0 <= b0 < 256).
  { subst b2 b1 b0. repeat split; apply Z.mod_pos_bound; lia. }
  set (s := c / 2 ^ 24) in *. clearbody b2 b1 b0 s.
  set (body := take (Z.to_nat s) ([b2; b1; b0] ++ replicate (Z.to_nat s - 3) 0)).
  assert (Hlen : length body = Z.to_nat s).
  { unfold body. rewrite length_take, length_app, length_replicate. simpl. lia. }
  rewrite <- (BN_mpi2bn_law body).
  - f_equal. f_equal. rewrite Hlen, Z2Nat.id, be32_small by lia.
    unfold body. clear Hlen body. destruct (Z_of_nat_complete s) as [n ->]; [lia|]. rewrite Nat2Z.id.
    destruct n as [|[|[|n]]]; [done..|].
    rewrite !(proj2 (Z.leb_le _ _)) by lia.
    replace (S (S (S n)) - 3)%nat with n by lia. cbn -[Z.of_nat].
    rewrite firstn_all2 by (rewrite length_replicate; lia). done.
  - unfold body. apply Forall_take, Forall_app. split; [repeat constructor; lia|apply digits_ok_replicate_0; lia].
  - lia.
Qed.

Lemma dval_rev_replicate n l : dval 256 (rev (l ++ replicate n 0)) = 256 ^ Z.of_nat n * dval 256 (rev l).
Proof.
  rewrite rev_app_distr, dval_app, length_rev, length_replicate by lia.
  assert (rev (replicate n 0) = replicate n 0) as ->.
  { induction n; simpl; [done|]. rewrite IHn. symmetry. apply replicate_cons_app. }
  rewrite dval_replicate_0. lia.
Qed.

(** [SetCompact] as a number: sign, 23-bit mantissa and base-256 exponent. *)
Lemma bn_SetCompact_ok c : 0 <= c < 2 ^ 32 →
  let s := c / 2 ^ 24 in let m := c mod 2 ^ 23 in
  let v := if s <=? 3 then m / 256 ^ (3 - s) else m * 256 ^ (s - 3) in
  bnval (bn_SetCompact c) = if c mod 2 ^ 24 <? 2 ^ 23 then v else - v.
Proof.
  intros Hc. cbv zeta. rewrite bn_SetCompact_body by done.
  assert (Hs : 0 <= c / 2 ^ 24 < 256) by (split; [apply Z.div_pos|apply Z.div_lt_upper_bound]; lia).
  set (b2 := c / 2 ^ 16 mod 256). set (b1 := c / 2 ^ 8 mod 256). set (b0 := c mod 256).
  assert (Hb : 0 <= b2 < 256 ∧ 0 <= b1 < 256 ∧ 0 <= b0 < 256).
  { subst b2 b1 b0. repeat split; apply Z.mod_pos_bound; lia. }
  assert (Hdec : c = c / 2 ^ 24 * 2 ^ 24 + b2 * 65536 + b1 * 256 + b0).
  { subst b2 b1 b0. Z.div_mod_to_equations. lia. }
  assert (c mod 2 ^ 24 = b2 * 65536 + b1 * 256 + b0) as -> by (symmetry; apply (Z.mod_unique _ _ (c / 2 ^ 24)); lia).
  assert (Hb2 := Z.div_mod b2 128 ltac:(lia)). assert (Hb2m := Z.mod_pos_bound b2 128 ltac:(lia)).
  assert (c mod 2 ^ 23 = b2 mod 128 * 65536 + b1 * 256 + b0) as ->.
  { symmetry. apply (Z.mod_unique _ _ (2 * (c / 2 ^ 24) + b2 / 128)); lia. }
  set (s := c / 2 ^ 24) in *. clearbody b2 b1 b0. clear Hdec.
  assert (Hn : s = Z.of_nat (Z.to_nat s)) by lia.
  destruct (decide (s < 3)) as [Hlt|Hge].
  - assert (s = 0 ∨ s = 1 ∨ s = 2) as [E|[E|E]] by lia; rewrite E;
      [change (0 <=? 3) with true; change (3 - 0) with 3|change (1 <=? 3) with true; change (3 - 1) with 2
      |change (2 <=? 3) with true; change (3 - 2) with 1]; cbv iota.
    + change (mpi_val _) with 0. rewrite (Z.div_small _ (256 ^ 3)) by lia. case_match; done.
    + assert ((b2 mod 128 * 65536 + b1 * 256 + b0) / 256 ^ 2 = b2 mod 128) as ->
        by (symmetry; apply (Z.div_unique _ _ _ (b1 * 256 + b0)); lia).
      cbv [Z.to_nat Pos.to_nat Pos.iter_op Init.Nat.add]. cbn [take app]. unfold mpi_val.
      cbn [rev app dval]. destruct (Z.leb_spec 128 b2), (Z.ltb_spec (b2 * 65536 + b1 * 256 + b0) (2 ^ 23)); lia.
    + assert ((b2 mod 128 * 65536 + b1 * 256 + b0) / 256 ^ 1 = b2 mod 128 * 256 + b1) as ->
        by (symmetry; apply (Z.div_unique _ _ _ b0); lia).
      cbv [Z.to_nat Pos.to_nat Pos.iter_op Init.Nat.add]. cbn [take app]. unfold mpi_val.
      cbn [rev app dval]. destruct (Z.leb_spec 128 b2), (Z.ltb_spec (b2 * 65536 + b1 * 256 + b0) (2 ^ 23)); lia.
  - rewrite take_ge by (rewrite length_app, length_replicate; simpl; lia). unfold mpi_val. cbn [app].
    change (b2 mod 128 :: b1 :: b0 :: replicate (Z.to_nat s - 3) 0)
      with ([b2 mod 128; b1; b0] ++ replicate (Z.to_nat s - 3) 0).
    rewrite dval_rev_replicate. replace (Z.of_nat (Z.to_nat s - 3)) with (s - 3) by lia.
    cbn [rev app dval].
    assert ((if s <=? 3 then (b2 mod 128 * 65536 + b1 * 256 + b0) / 256 ^ (3 - s)
             else (b2 mod 128 * 65536 + b1 * 256 + b0) * 256 ^ (s - 3)) =
            256 ^ (s - 3) * (b0 + 256 * (b1 + 256 * (b2 mod 128 + 256 * 0)))) as ->.
    { destruct (Z.leb_spec s 3); [|ring]. replace s with 3 by lia. simpl Z.sub. rewrite !Z.pow_0_r, Z.div_1_r. ring. }
    destruct (Z.leb_spec 128 b2), (Z.ltb_spec (b2 * 65536 + b1 * 256 + b0) (2 ^ 23)); lia.
Qed.

(** A mantissa of 15 to 23 bits determines the exponent. *)
Lemma compact_exponent_unique V s s' : 0 <= V → 0 <= s → 0 <= s' →
  2 ^ 15 <= V / 256 ^ s < 2 ^ 23 → 2 ^ 15 <= V / 256 ^ s' < 2 ^ 23 → s = s'.
Proof.
  assert (Hlt : ∀ a b, 0 <= V → 0 <= a < b → V / 256 ^ a < 2 ^ 23 → V / 256 ^ b < 2 ^ 15).
  { intros a b HV Hab Ha. replace b with (a + 1 + (b - a - 1)) by lia.
    assert (0 < 256 ^ (b - a - 1)) by (apply Z.pow_pos_nonneg; lia).
    assert (0 < 256 ^ a) by (apply Z.pow_pos_nonneg; lia).
    rewrite !Z.pow_add_r, <- !Z.div_div by (try apply Z.pow_pos_nonneg; lia).
    assert (0 <= V / 256 ^ a) by (apply Z.div_pos; lia).
    apply Z.le_lt_trans with (V / 256 ^ a / 256 ^ 1); [|apply Z.div_lt_upper_bound; lia].
    apply Z.div_le_upper_bound; [lia|]. assert (0 <= V / 256 ^ a / 256 ^ 1) by (apply Z.div_pos; lia). nia. }
  intros HV Hs Hs' H1 H2. destruct (Z.lt_trichotomy s s') as [H|[H|H]]; [|done|].
  - assert (V / 256 ^ s' < 2 ^ 15) by (apply (Hlt s s'); lia). lia.
  - assert (V / 256 ^ s < 2 ^ 15) by (apply (Hlt s' s); lia). lia.
Qed.

Lemma scaled_mantissa v s : 0 <= v → 0 <= s →
  v * 256 ^ 3 / 256 ^ s = if s <=? 3 then v * 256 ^ (3 - s) else v / 256 ^ (s - 3).
Proof.
  intros Hv Hs. destruct (Z.leb_spec s 3).
  - replace (256 ^ 3) with (256 ^ (3 - s) * 256 ^ s) by (rewrite <- Z.pow_add_r by lia; f_equal; lia).
    rewrite Z.mul_assoc, Z.div_mul; [done|]. apply Z.pow_nonzero; lia.
  - replace (256 ^ s) with (256 ^ (s - 3) * 256 ^ 3) by (rewrite <- Z.pow_add_r by lia; f_equal; lia).
    rewrite Z.div_mul_cancel_r; [done|apply Z.pow_nonzero; lia|lia].
Qed.

(** The length of the MPI body of a positive number leaves a mantissa of 15 to
    23 bits. *)
Lemma mpi_body_mantissa v : 0 < v → let n := Z.of_nat (length (mpi_body v)) in
  2 ^ 15 <= v * 256 ^ 3 / 256 ^ n < 2 ^ 23 ∧ n <= bytelen v + 1.
Proof.
  intros Hv. cbv zeta. destruct (bytelen_spec v Hv) as [H0 [H1 H2]].
  assert (Hlen : length (be_mag v) = Z.to_nat (bytelen v)) by (unfold be_mag; rewrite length_rev, length_to_digits; done).
  assert (Hd := dval_be_mag v ltac:(lia)). assert (Hok := be_mag_ok v). assert (Hnz := be_mag_head v).
  unfold mpi_body. rewrite Z.abs_eq by lia.
  destruct (be_mag v) as [|b t]; [simpl in *; lia|]. specialize (Hnz b t Hv eq_refl). simpl in Hlen.
  apply Forall_cons_iff in Hok as [Hb Ht]. rewrite dval_rev_cons in Hd.
  assert (Hbt := dval_bound 256 (rev t) ltac:(lia) (proj2 (digits_ok_rev _ _) Ht)). rewrite length_rev in Hbt.
  set (P := 256 ^ Z.of_nat (length t)) in *. assert (0 < P) by (apply Z.pow_pos_nonneg; lia).
  destruct (Z.leb_spec 128 b); cbn [length].
  - split; [|lia]. rewrite !pow_succ_nat. fold P.
    split; [apply Z.div_le_lower_bound|apply Z.div_lt_upper_bound]; nia.
  - split; [|lia]. rewrite pow_succ_nat. fold P.
    split; [apply Z.div_le_lower_bound|apply Z.div_lt_upper_bound]; nia.
Qed.

(** ** Text *)

Lemma getuint32_ok bn : 0 <= bnval bn < 2 ^ 32 → getuint32 bn = bnval bn.
Proof.
  intros Hb. unfold getuint32. rewrite BN_get_word_law. assert (H := BN_word_le).
  destruct (Z.ltb_spec (Z.abs (bnval bn)) (256 ^ BN_ULONG_bytes)); [|lia]. rewrite Z.abs_eq by lia.
  apply u32_small. done.
Qed.

Lemma tostring_loop_ok base fuel bn bnBase str : 2 <= base <= 16 → bnval bnBase = base →
  0 <= bnval bn < 2 ^ Z.of_nat fuel →
  ∃ bn' ds, tostring_loop fuel bn bnBase str = Some (bn', str ++ map hexchar ds) ∧ bnval bn' = 0 ∧
    digits_ok base ds ∧ dval base ds = bnval bn ∧ last ds 1 ≠ 0.
Proof.
  intros Hbase HB. revert bn str. induction fuel as [|fuel IH]; intros bn str Hv.
  - simpl in *. exists bn, []. rewrite app_nil_r. repeat split; try done; simpl; lia.
  - rewrite pow_succ_nat in Hv. cbn [tostring_loop]. rewrite BN_cmp_law, CBigNum_int32_ok, Z.sub_0_r by lia.
    destruct (Z.gtb_spec (Z.sgn (bnval bn)) 0) as [Hp|Hp].
    + destruct (BN_div_law bn bnBase) as (q & r & -> & Hq & Hr); [lia|].
      rewrite HB, Z.quot_div_nonneg in Hq by lia. rewrite HB, Z.rem_mod_nonneg in Hr by lia.
      assert (Hrb := Z.mod_pos_bound (bnval bn) base ltac:(lia)).
      assert (Hdm := Z.div_mod (bnval bn) base ltac:(lia)).
      destruct (IH q (str ++ [hexchar (getuint32 r)])) as (bn' & ds & -> & H1 & H2 & H3 & H4).
      { rewrite Hq. split; [apply Z.div_pos; lia|apply Z.div_lt_upper_bound; [lia|]]. nia. }
      rewrite getuint32_ok by lia. exists bn', (bnval r :: ds).
      rewrite <- app_assoc. repeat split; try done.
      * constructor; [lia|done].
      * cbn [dval]. lia.
      * destruct ds as [|d ds]; [|done]. simpl in H3 |- *. lia.
    + exists bn, []. rewrite app_nil_r. simpl. repeat split; try done; lia.
Qed.

Lemma mpi_body_bound z : Z.abs z < 2 ^ (8 * Z.of_nat (length (mpi_body z))).
Proof.
  assert (Hc := mpi_clear_sign z). assert (Hok := mpi_body_ok z).
  rewrite Z.pow_mul_r by lia. change (2 ^ 8) with 256. rewrite <- Hc.
  assert (Hl : length (clear_sign (mpi_body z)) = length (mpi_body z)) by (destruct (mpi_body z); done).
  rewrite <- Hl, <- length_rev. apply dval_bound; [lia|]. apply digits_ok_rev.
  destruct (mpi_body z) as [|b t]; [done|]. apply Forall_cons_iff in Hok as [Hb Ht].
  constructor; [|done]. rewrite land_0x7f by lia. assert (H := Z.mod_pos_bound b 128 ltac:(lia)). lia.
Qed.

End CBigNum_facts.

(** ** A concrete instance

    Integers satisfy the interface, so its laws are consistent; the witnesses
    below and in the client files evaluate on it. *)

#[refine] #[export] Instance Z_BN : OpenSSL_BN := {
  BIGNUM := Z;
  BN_ULONG_bytes := 8;
  BN_new := 0;
  BN_set_word w := w;
  BN_get_word a := if Z.abs a <? 2 ^ 64 then Z.abs a else 2 ^ 64 - 1;
  BN_is_negative a := a <? 0;
  BN_set_negative a s := if s then - Z.abs a else Z.abs a;
  BN_is_zero a := a =? 0;
  BN_cmp a b := Z.sgn (a - b);
  BN_mpi2bn d := mpi_val (drop 4 d);
  BN_bn2mpi a := be32 (Z.of_nat (length (mpi_body a))) ++ mpi_body a;
  BN_bin2bn bs := dval 256 (rev bs);
  BN_bn2bin a := be_mag (Z.abs a);
  BN_add := Z.add;
  BN_sub := Z.sub;
  BN_mul := Z.mul;
  BN_div a b := if b =? 0 then None else Some (Z.quot a b, Z.rem a b);
  BN_nnmod a b := if b =? 0 then None else Some (a mod Z.abs b);
  BN_lshift a n := a * 2 ^ n;
  BN_rshift a n := Z.quot a (2 ^ n)
}.
Proof. Defined.

#[export] Instance Z_BN_ok : OpenSSL_BN_ok Z_BN.
Proof.
  refine (Build_OpenSSL_BN_ok Z_BN (λ z : Z, z) _ _ _ _ _ _ _ _ _ _ _ _ _ _ _ _ _ _ _ _ _); cbn; try done.
  - right. reflexivity.
  - intros a b Hb. exists (Z.quot a b), (Z.rem a b). rewrite (proj2 (Z.eqb_neq b 0)) by done. done.
  - intros a b Hb. rewrite Hb. done.
  - intros a b Hb. exists (a mod Z.abs b). rewrite (proj2 (Z.eqb_neq b 0)) by done. done.
  - intros a b Hb. rewrite Hb. done.
Defined.

(** ** Properties *)

(** The byte-level setters store the machine integer they are given, on
    platforms with 32-bit and with 64-bit OpenSSL words, and the getters read it
    back: every [int64_t] (the minimum included), every [uint64_t] and every
    [uint256] survives the round trip. *)
Theorem CBigNum_roundtrip {BN : OpenSSL_BN} {BNok : OpenSSL_BN_ok BN} n u x :
  - 2 ^ 63 <= n < 2 ^ 63 → 0 <= u < 2 ^ 64 → wf W256 x →
  bnval (setint64 n) = n ∧ getuint64 (setuint64 u) = u ∧ getuint256 (setuint256 x) = x ∧
  (- 2 ^ 31 < n < 2 ^ 31 → getint32 (CBigNum_int32 n) = n).
Proof.
  intros Hn Hu Hx. assert (Hr := val_range _ _ Hx). change (modulus W256) with (2 ^ 256) in Hr.
  split; [apply setint64_ok; done|]. split.
  { rewrite getuint64_ok, setuint64_ok by done. rewrite Z.abs_eq by lia. apply Z.mod_small. done. }
  split.
  { destruct (getuint256_ok (setuint256 x)) as [Hw Hv]. apply (val_inj W256); [done..|].
    rewrite Hv, setuint256_ok by done. rewrite Z.abs_eq by lia. apply Z.mod_small. done. }
  intros Hi. rewrite getint32_ok; rewrite CBigNum_int32_ok by lia; done.
Qed.

Lemma CBigNum_roundtrip_witness :
  bnval (setint64 (- 2 ^ 63)) = - 2 ^ 63 ∧ getuint64 (setuint64 (2 ^ 64 - 1)) = 2 ^ 64 - 1 ∧
  getuint256 (setuint256 (bu_of_u64 W256 77)) = bu_of_u64 W256 77 ∧
  (- 2 ^ 31 < - 2 ^ 63 < 2 ^ 31 → getint32 (CBigNum_int32 (- 2 ^ 63)) = - 2 ^ 63).
Proof. apply CBigNum_roundtrip; [lia|lia|apply bu_of_u64_ok; lia]. Defined.

(** Script byte vectors: [setvch] decodes little-endian sign-and-magnitude
    numbers and [getvch] encodes them, so that decoding an encoding gives the
    number back and re-encoding a decoding is the identity on encodings. *)
Theorem CBigNum_vch_roundtrip {BN : OpenSSL_BN} {BNok : OpenSSL_BN_ok BN} (b : BIGNUM) vch :
  digits_ok 256 vch → Z.of_nat (length vch) < 2 ^ 32 →
  bnval (setvch vch) = scriptnum vch ∧ scriptnum (getvch b) = bnval b ∧
  (Z.of_nat (length (getvch b)) < 2 ^ 32 → getvch (setvch (getvch b)) = getvch b).
Proof.
  intros Hd Hl. split; [apply setvch_ok; done|]. split; [apply scriptnum_getvch|]. intros Hb.
  rewrite (getvch_ok (setvch (getvch b))), setvch_ok, scriptnum_getvch; auto using getvch_bytes.
  symmetry. apply getvch_ok.
Qed.

Lemma CBigNum_vch_roundtrip_witness :
  bnval (setvch [0xe8; 0x83]) = scriptnum [0xe8; 0x83] ∧ scriptnum (getvch (-1000 : BIGNUM)) = bnval (-1000 : BIGNUM) ∧
  (Z.of_nat (length (getvch (-1000 : BIGNUM))) < 2 ^ 32 →
   getvch (setvch (getvch (-1000 : BIGNUM))) = getvch (-1000 : BIGNUM)).
Proof. apply CBigNum_vch_roundtrip; [repeat constructor; lia|simpl; lia]. Defined.

(** The two implementations of the compact format agree: packing a 256-bit
    number through OpenSSL ([CBigNum::GetCompact]) and with limb shifts
    ([uint256::GetCompact]) gives the same 32-bit word, for every number. *)
Theorem compact_encodings_agree {BN : OpenSSL_BN} {BNok : OpenSSL_BN_ok BN} x : wf W256 x →
  GetCompact x false = Some (bn_GetCompact (setuint256 x)).
Proof.
  intros Hx. destruct (GetCompact_parts x Hx) as (size & m & -> & Hm & Hs & H1 & H2 & H3 & _ & H4).
  assert (Hr := val_range _ _ Hx). f_equal.
  assert (Hm256 : modulus W256 = 256 ^ 32) by done. rewrite Hm256 in Hr.
  destruct (decide (val x = 0)) as [E|Hne].
  { rewrite (H4 E) in *. rewrite bn_GetCompact_ok; rewrite setuint256_ok, E by done; [|lia|done].
    rewrite H1, E by lia. done. }
  destruct (mpi_body_mantissa (val x)) as [Hbm Hbl]; [lia|].
  assert (Hb32 : bytelen (val x) <= 32) by (apply bytelen_le; lia).
  rewrite bn_GetCompact_ok; rewrite setuint256_ok by done; [|lia|lia].
  assert (Hmm : m = val x * 256 ^ 3 / 256 ^ size).
  { rewrite scaled_mantissa by lia. destruct (Z.leb_spec size 3); auto. }
  rewrite (compact_exponent_unique (val x * 256 ^ 3) (Z.of_nat (length (mpi_body (val x)))) size) in * by lia.
  lia.
Qed.

Lemma compact_encodings_agree_witness :
  GetCompact (bu_of_u64 W256 0x92340000) false = Some (bn_GetCompact (setuint256 (bu_of_u64 W256 0x92340000))).
Proof. apply compact_encodings_agree. apply bu_of_u64_ok; lia. Defined.

(** Decoding agrees as well: for every compact word without the sign bit
    whose value fits in 256 bits, [CBigNum::SetCompact] and
    [uint256::SetCompact] give the same number. *)
Theorem compact_decodings_agree {BN : OpenSSL_BN} {BNok : OpenSSL_BN_ok BN} size m :
  0 <= size <= 255 → 0 <= m < 2 ^ 23 → m * 256 ^ (size - 3) < 2 ^ 256 →
  fst (fst (SetCompact (m + 2 ^ 24 * size))) = getuint256 (bn_SetCompact (m + 2 ^ 24 * size)).
Proof.
  intros Hs Hm Hfit. destruct (SetCompact_value size m) as (v & ov & -> & Hw & Hlo & Hhi); [lia|lia|].
  cbn [fst]. destruct (getuint256_ok (bn_SetCompact (m + 2 ^ 24 * size))) as [Hgw Hgv].
  apply (val_inj W256); [done..|]. rewrite Hgv, bn_SetCompact_ok by lia.
  replace ((m + 2 ^ 24 * size) / 2 ^ 24) with size by (apply (Z.div_unique _ _ _ m); lia).
  replace ((m + 2 ^ 24 * size) mod 2 ^ 23) with m by (apply (Z.mod_unique _ _ (2 * size)); lia).
  replace ((m + 2 ^ 24 * size) mod 2 ^ 24) with m by (apply (Z.mod_unique _ _ size); lia).
  rewrite (proj2 (Z.ltb_lt m (2 ^ 23))) by lia.
  destruct (Z.leb_spec size 3) as [Hle|Hgt].
  - destruct (Hlo Hle) as [_ ->].
    assert (0 < 256 ^ (3 - size)) by (apply Z.pow_pos_nonneg; lia).
    assert (0 <= m / 256 ^ (3 - size)) by (apply Z.div_pos; lia).
    assert (m / 256 ^ (3 - size) <= m) by (apply Z.div_le_upper_bound; nia).
    rewrite Z.abs_eq, Z.mod_small by lia. done.
  - destruct (Hhi ltac:(lia)) as [-> _]. assert (0 < 256 ^ (size - 3)) by (apply Z.pow_pos_nonneg; lia).
    rewrite Z.abs_eq by nia. done.
Qed.

Lemma compact_decodings_agree_witness :
  fst (fst (SetCompact (0xffff + 2 ^ 24 * 0x1d))) = getuint256 (bn_SetCompact (0xffff + 2 ^ 24 * 0x1d)).
Proof. apply compact_decodings_agree; lia. Defined.

(** [ToString] terminates within its bit-length bound and prints the digits
    of the magnitude without leading zeros.  It never prints a sign: the test at
    the end reads the local copy whose sign was cleared, so a negative number
    and its negation print alike. *)
Theorem ToString_magnitude {BN : OpenSSL_BN} {BNok : OpenSSL_BN_ok BN} (a : BIGNUM) base : 2 <= base <= 16 →
  ∃ ds, ToString a base = Some (map hexchar (rev ds)) ∧ digits_ok base ds ∧
    dval base ds = Z.abs (bnval a) ∧ (ds = [0] ∨ last ds 1 ≠ 0).
Proof.
  intros Hbase. unfold ToString. rewrite BN_cmp_law, BN_set_negative_law, CBigNum_int32_ok, Z.sub_0_r by lia.
  destruct (Z.eqb_spec (Z.sgn (Z.abs (bnval a))) 0) as [E|Hne].
  { exists [0]. repeat split; [constructor; [lia|constructor]|simpl; lia|left; done]. }
  destruct (tostring_loop_ok base (8 * length (BN_bn2mpi a)) (BN_set_negative a false) (CBigNum_int32 base) [])
    as (bn' & ds & -> & H1 & H2 & H3 & H4).
  - done.
  - apply CBigNum_int32_ok. lia.
  - rewrite BN_set_negative_law, BN_bn2mpi_law, length_app, length_be32. split; [lia|].
    eapply Z.lt_le_trans; [apply mpi_body_bound|]. apply Z.pow_le_mono_r; lia.
  - rewrite BN_set_negative_law in H3. rewrite BN_is_negative_law, H1. exists ds. cbn [app Z.ltb Z.compare].
    rewrite map_rev. repeat split; auto.
Qed.

Lemma ToString_magnitude_witness :
  ∃ ds, ToString (-255 : BIGNUM) 16 = Some (map hexchar (rev ds)) ∧ digits_ok 16 ds ∧
    dval 16 ds = Z.abs (bnval (-255 : BIGNUM)) ∧ (ds = [0] ∨ last ds 1 ≠ 0).
Proof. apply ToString_magnitude. lia. Defined.
