(* ===== verification/Serialize.v ===== *)
(** * Stream serialization (src/serialize.h)

    A stream is the list of bytes still to be read; reading past its end throws
    [ios_base::failure], here [None].  [Codec] is what [Serialize],
    [Unserialize] and [GetSerializeSize] promise to the classes that are built
    from them with [READWRITE]; every instance comes with its law. *)

From stdpp Require Import base list numbers option.
From Stdlib Require Import ZArith Lia.
From S2P Require Import Prelude Uint256.

Open Scope Z_scope.

Definition MAX_SIZE : Z := 0x02000000.

(** [s.read(pch, n)] *)
Definition read_bytes (n : nat) (s : list Z) : option (list Z * list Z) :=
  if bool_decide (n <= length s)%nat then Some (take n s, drop n s) else None.

(** Little-endian machine integers of [n] bytes: [WRITEDATA] and [READDATA] *)
Definition write_int (n : nat) (v : Z) : list Z := to_digits 256 n v.
Definition read_uint (n : nat) (s : list Z) : option (Z * list Z) :=
  '(bs, s) ← read_bytes n s; Some (dval 256 bs, s).
Definition read_int32 (s : list Z) : option (Z * list Z) :=
  '(v, s) ← read_uint 4 s; Some (i32 v, s).
Definition read_int64 (s : list Z) : option (Z * list Z) :=
  '(v, s) ← read_uint 8 s; Some (i64 v, s).

Definition GetSizeOfCompactSize (nSize : Z) : Z :=
  if nSize <? 253 then 1
  else if nSize <=? 0xffff then 1 + 2
  else if nSize <=? 0xffffffff then 1 + 4
  else 1 + 8.

Definition WriteCompactSize (nSize : Z) : list Z :=
  if nSize <? 253 then write_int 1 nSize
  else if nSize <=? 0xffff then write_int 1 253 ++ write_int 2 nSize
  else if nSize <=? 0xffffffff then write_int 1 254 ++ write_int 4 nSize
  else write_int 1 255 ++ write_int 8 nSize.

Definition ReadCompactSize (s : list Z) : option (Z * list Z) :=
  '(chSize, s) ← read_uint 1 s;
  '(nSizeRet, s) ←
    (if chSize <? 253 then Some (chSize, s)
     else if chSize =? 253 then read_uint 2 s
     else if chSize =? 254 then read_uint 4 s
     else read_uint 8 s);
  if nSizeRet >? MAX_SIZE then None else Some (nSizeRet, s).

(** Variable-length integers.  The loops of [WriteVarInt] and
    [GetSizeOfVarInt] run once per base-128 digit; ten digits hold 64 bits. *)
Definition VARINT_MAX : nat := (8 * 8 + 6) / 7.

Fixpoint varint_digits (fuel len : nat) (n : Z) : list Z :=
  match fuel with
  | O => []
  | S fuel =>
      let tmp := Z.lor (Z.land n 0x7F) (if (0 <? Z.of_nat len) then 0x80 else 0x00) in
      if n <=? 0x7F then [tmp] else tmp :: varint_digits fuel (S len) (Z.shiftr n 7 - 1)
  end.
Definition WriteVarInt (n : Z) : list Z := rev (varint_digits VARINT_MAX 0 n).

Fixpoint varint_size (fuel : nat) (nRet n : Z) : Z :=
  match fuel with
  | O => nRet
  | S fuel => if n <=? 0x7F then nRet + 1 else varint_size fuel (nRet + 1) (Z.shiftr n 7 - 1)
  end.
Definition GetSizeOfVarInt (n : Z) : Z := varint_size VARINT_MAX 0 n.

Fixpoint varint_read (n : Z) (s : list Z) : option (Z * list Z) :=
  match s with
  | [] => None
  | chData :: s =>
      let n := Z.lor (u64 (Z.shiftl n 7)) (Z.land chData 0x7F) in
      if negb (Z.land chData 0x80 =? 0) then varint_read (u64 (n + 1)) s else Some (n, s)
  end.
Definition ReadVarInt (s : list Z) : option (Z * list Z) := varint_read 0 s.

(** ** The codec interface *)

Class Codec (T : Type) := {
  Serialize : T → list Z;
  Unserialize : list Z → option (T * list Z);
  GetSerializeSize : T → Z
}.

(** What a class gives its users: the values it can carry, the round trip and
    the size it announces, an [unsigned int]. *)
Class CodecOk (T : Type) `{Codec T} (ok : T → Prop) : Prop := {
  codec_roundtrip x rest : ok x → Unserialize (Serialize x ++ rest) = Some (x, rest);
  codec_size x : ok x → GetSerializeSize x = u32 (Z.of_nat (length (Serialize x)))
}.

(** [vector<unsigned char>] and [CScript] *)
Definition ser_bytes (v : list Z) : list Z := WriteCompactSize (Z.of_nat (length v)) ++ v.
Definition unser_bytes (s : list Z) : option (list Z * list Z) :=
  '(nSize, s) ← ReadCompactSize s; read_bytes (Z.to_nat nSize) s.
#[export] Instance bytes_codec : Codec (list Z) := {
  Serialize := ser_bytes;
  Unserialize := unser_bytes;
  GetSerializeSize v := u32 (GetSizeOfCompactSize (Z.of_nat (length v)) + Z.of_nat (length v))
}.

(** [vector<T>] of objects: the size, then the elements one by one *)
Section vector.
Context {T : Type} `{Codec T}.

Definition ser_vector (v : list T) : list Z :=
  WriteCompactSize (Z.of_nat (length v)) ++ concat (map Serialize v).
Fixpoint unser_items (n : nat) (s : list Z) : option (list T * list Z) :=
  match n with
  | O => Some ([], s)
  | S n => '(x, s) ← Unserialize s; '(v, s) ← unser_items n s; Some (x :: v, s)
  end.
Definition unser_vector (s : list Z) : option (list T * list Z) :=
  '(nSize, s) ← ReadCompactSize s; unser_items (Z.to_nat nSize) s.
Definition size_vector (v : list T) : Z :=
  fold_left (λ nSize x, u32 (nSize + GetSerializeSize x)) v (GetSizeOfCompactSize (Z.of_nat (length v))).
End vector.

(** ** Laws *)

Lemma read_bytes_app n bs rest : length bs = n → read_bytes n (bs ++ rest) = Some (bs, rest).
Proof.
  intros <-. unfold read_bytes. rewrite bool_decide_eq_true_2 by (rewrite length_app; lia).
  rewrite take_app_length, drop_app_length. done.
Qed.

Lemma read_uint_write n v rest : 0 <= v < 256 ^ Z.of_nat n → read_uint n (write_int n v ++ rest) = Some (v, rest).
Proof.
  intros Hv. unfold read_uint, write_int. rewrite read_bytes_app by apply length_to_digits. cbn.
  rewrite dval_to_digits, Z.mod_small by lia. done.
Qed.

Lemma dval_write_int n v : dval 256 (write_int n v) = v mod 256 ^ Z.of_nat n.
Proof. apply dval_to_digits. lia. Qed.

Lemma read_int_write {A} n (f : Z → A) v rest :
  ('(v, s) ← read_uint n (write_int n v ++ rest); Some (f v, s)) = Some (f (v mod 256 ^ Z.of_nat n), rest).
Proof.
  unfold read_uint. rewrite read_bytes_app by apply length_to_digits. cbn. rewrite dval_write_int. done.
Qed.

Lemma read_int32_write v rest : - 2 ^ 31 <= v < 2 ^ 31 → read_int32 (write_int 4 v ++ rest) = Some (v, rest).
Proof.
  intros Hv. unfold read_int32. rewrite read_int_write. do 2 f_equal.
  change (256 ^ Z.of_nat 4) with (2 ^ 32). mlia.
Qed.

Lemma read_int64_write v rest : - 2 ^ 63 <= v < 2 ^ 63 → read_int64 (write_int 8 v ++ rest) = Some (v, rest).
Proof.
  intros Hv. unfold read_int64. rewrite read_int_write. do 2 f_equal.
  change (256 ^ Z.of_nat 8) with (2 ^ 64). mlia.
Qed.

Lemma length_write_int n v : length (write_int n v) = n.
Proof. apply length_to_digits. Qed.

Lemma ReadCompactSize_write n rest : 0 <= n <= MAX_SIZE →
  ReadCompactSize (WriteCompactSize n ++ rest) = Some (n, rest).
Proof.
  intros Hn. unfold ReadCompactSize, WriteCompactSize.
  assert (Hm : (n >? MAX_SIZE) = false) by (rewrite Z.gtb_ltb; apply Z.ltb_ge; lia).
  assert (Hx : MAX_SIZE = 0x02000000) by done. 
  destruct (Z.ltb_spec n 253) as [Hlt|]; [|destruct (Z.leb_spec n 0xffff); [|destruct (Z.leb_spec n 0xffffffff); [|lia]]].
  - rewrite read_uint_write by lia. apply Z.ltb_lt in Hlt. cbn -[Z.gtb]. rewrite Hlt. cbn -[Z.gtb]. rewrite Hm. done.
  - rewrite <- app_assoc, read_uint_write by lia. cbn -[write_int read_uint Z.gtb].
    rewrite read_uint_write by lia. cbn -[Z.gtb]. rewrite Hm. done.
  - rewrite <- app_assoc, read_uint_write by lia. cbn -[write_int read_uint Z.gtb].
    rewrite read_uint_write by lia. cbn -[Z.gtb]. rewrite Hm. done.
Qed.

Lemma length_WriteCompactSize n : 0 <= n →
  Z.of_nat (length (WriteCompactSize n)) = GetSizeOfCompactSize n.
Proof.
  intros. unfold WriteCompactSize, GetSizeOfCompactSize.
  destruct (n <? 253), (n <=? 0xffff), (n <=? 0xffffffff); rewrite ?length_app, !length_write_int; reflexivity.
Qed.

#[export] Instance bytes_codec_ok : CodecOk (list Z) (λ v, Z.of_nat (length v) <= MAX_SIZE).
Proof.
  split.
  - intros v rest Hv. cbn. unfold unser_bytes, ser_bytes. rewrite <- app_assoc, ReadCompactSize_write by lia.
    cbn. rewrite Nat2Z.id. apply read_bytes_app. done.
  - intros v Hv. cbn. unfold ser_bytes. rewrite length_app, Nat2Z.inj_add, length_WriteCompactSize by lia. done.
Qed.

(** A vector is carried when its length and each of its elements is. *)
Definition vector_ok {T} (ok : T → Prop) (v : list T) : Prop :=
  Z.of_nat (length v) <= MAX_SIZE ∧ Forall ok v.

Lemma unser_items_ok {T} `{Codec T} ok `{!CodecOk T ok} (v : list T) rest : Forall ok v →
  unser_items (length v) (concat (map Serialize v) ++ rest) = Some (v, rest).
Proof.
  induction 1 as [|x v Hx Hv IH]; [done|].
  cbn [length map concat unser_items]. rewrite <- app_assoc, codec_roundtrip by done. cbn.
  rewrite IH. done.
Qed.

Lemma unser_vector_ok {T} `{Codec T} ok `{!CodecOk T ok} (v : list T) rest : vector_ok ok v →
  unser_vector (ser_vector v ++ rest) = Some (v, rest).
Proof.
  intros [Hl Hv]. unfold unser_vector, ser_vector. rewrite <- app_assoc, ReadCompactSize_write by lia.
  cbn. rewrite Nat2Z.id. apply (unser_items_ok ok). done.
Qed.

Lemma u32_add_l a b : u32 (u32 a + b) = u32 (a + b).
Proof. apply Z.add_mod_idemp_l. lia. Qed.
Lemma u32_add_r a b : u32 (a + u32 b) = u32 (a + b).
Proof. apply Z.add_mod_idemp_r. lia. Qed.

Lemma size_items_ok {T} `{Codec T} ok `{!CodecOk T ok} (v : list T) n : Forall ok v →
  fold_left (λ nSize x, u32 (nSize + GetSerializeSize x)) v (u32 n) =
  u32 (n + Z.of_nat (length (concat (map Serialize v)))).
Proof.
  intros Hv. revert n. induction Hv as [|x v Hx Hv IH]; intros n; cbn; [f_equal; lia|].
  rewrite codec_size, u32_add_l, u32_add_r, IH by done. rewrite length_app. f_equal. lia.
Qed.

Lemma size_vector_ok {T} `{Codec T} ok `{!CodecOk T ok} (v : list T) : vector_ok ok v →
  size_vector v = u32 (Z.of_nat (length (ser_vector v))).
Proof.
  intros [_ Hv]. unfold size_vector, ser_vector.
  rewrite <- length_WriteCompactSize by lia. rewrite length_app, Nat2Z.inj_add, <- (size_items_ok ok) by done.
  f_equal. symmetry. apply u32_small. rewrite length_WriteCompactSize by lia. unfold GetSizeOfCompactSize.
  repeat case_match; lia.
Qed.

(** ** Variable-length integers *)

(** Value of a digit string, most significant digit first, continuing from [n]. *)
Lemma land_0x7F n : 0 <= n → Z.land n 0x7F = n mod 128.
Proof. intros. change 0x7F with (Z.ones 7). apply Z.land_ones. lia. Qed.

Lemma varint_byte n (c : bool) : 0 <= n →
  let b := Z.lor (Z.land n 0x7F) (if c then 0x80 else 0x00) in
  Z.land b 0x7F = n mod 128 ∧ (Z.land b 0x80 =? 0) = negb c.
Proof.
  intros Hn. cbv zeta. rewrite (land_0x7F n) by done.
  assert (Hm := Z.mod_pos_bound n 128 ltac:(lia)).
  assert (In (n mod 128) (map Z.of_nat (seq 0 128))) as Hin.
  { apply in_map_iff. exists (Z.to_nat (n mod 128)). split; [lia|]. apply in_seq. lia. }
  revert Hin. generalize (n mod 128). clear.
  assert (∀ c : bool, Forall (λ z, Z.land (Z.lor z (if c then 0x80 else 0x00)) 0x7F = z ∧
            (Z.land (Z.lor z (if c then 0x80 else 0x00)) 0x80 =? 0) = negb c) (map Z.of_nat (seq 0 128))) as H.
  { intros [|]; vm_compute; repeat constructor. }
  intros z Hin. specialize (H c). rewrite Forall_forall in H. apply H. done.
Qed.

Lemma varint_read_digits fuel len n s : 0 <= n < 2 ^ 64 → n < 128 ^ Z.of_nat (S fuel) →
  varint_read 0 (rev (varint_digits (S fuel) len n) ++ s) =
  if (0 <? Z.of_nat len) then varint_read (u64 (n + 1)) s else Some (n, s).
Proof.
  revert len n s. induction fuel as [|fuel IH]; intros len n s Hn Hf.
  - cbn [varint_digits]. destruct (varint_byte n (0 <? Z.of_nat len)) as [H1 H2]; [lia|].
    destruct (Z.leb_spec n 0x7F); [|simpl in Hf; lia]. cbn [rev app varint_read].
    rewrite H1, H2, negb_involutive, Z.shiftl_0_l, Z.mod_small by lia. destruct (0 <? Z.of_nat len); done.
  - cbn [varint_digits]. destruct (varint_byte n (0 <? Z.of_nat len)) as [H1 H2]; [lia|].
    destruct (Z.leb_spec n 0x7F).
    + cbn [rev app varint_read].
      rewrite H1, H2, negb_involutive, Z.shiftl_0_l, Z.mod_small by lia. destruct (0 <? Z.of_nat len); done.
    + rewrite Z.shiftr_div_pow2 by lia. change (2 ^ 7) with 128. cbn [rev]. rewrite <- app_assoc.
      rewrite pow_succ_nat in Hf. assert (Hd := Z.div_mod n 128 ltac:(lia)). assert (Hm := Z.mod_pos_bound n 128 ltac:(lia)).
      change (varint_digits fuel (S (S len))) with (varint_digits fuel (S (S len))).
      rewrite (IH (S len) (n / 128 - 1)) by nia.
      replace (0 <? Z.of_nat (S len)) with true by (symmetry; apply Z.ltb_lt; lia).
      replace (n / 128 - 1 + 1) with (n / 128) by lia. rewrite u64_small by lia. cbn [app varint_read].
      rewrite H1, H2, negb_involutive.
      assert (u64 (Z.shiftl (n / 128) 7) = Z.shiftl (n / 128) 7) as ->.
      { apply u64_small. rewrite Z.shiftl_mul_pow2 by lia. lia. }
      rewrite Z.lor_comm, lor_add_disjoint by lia. change (2 ^ 7) with 128.
      replace (n mod 128 + 128 * (n / 128)) with n by lia.
      destruct (0 <? Z.of_nat len); done.
Qed.

Lemma varint_size_digits fuel len n r : Z.of_nat (length (varint_digits fuel len n)) + r = varint_size fuel r n.
Proof.
  revert len n r. induction fuel as [|fuel IH]; intros len n r; [done|].
  cbn [varint_digits varint_size]. destruct (n <=? 0x7F); cbn [length]; [lia|]. rewrite <- (IH (S len)). lia.
Qed.

(** ** Properties *)

(** Variable-length integers: every 64-bit number is written in at most ten
    bytes (the size of the writer's buffer), in exactly the number of bytes
    [GetSizeOfVarInt] announces, and is read back with the rest of the stream
    untouched. *)
Theorem VarInt_roundtrip n rest : 0 <= n < 2 ^ 64 →
  ReadVarInt (WriteVarInt n ++ rest) = Some (n, rest) ∧
  Z.of_nat (length (WriteVarInt n)) = GetSizeOfVarInt n ∧ (length (WriteVarInt n) <= VARINT_MAX)%nat.
Proof.
  intros Hn. unfold ReadVarInt, WriteVarInt, GetSizeOfVarInt. split; [|split].
  - change VARINT_MAX with 10%nat. rewrite varint_read_digits; [done|done|]. change (128 ^ Z.of_nat 10) with (2 ^ 70). lia.
  - rewrite length_rev, <- (varint_size_digits _ 0). lia.
  - rewrite length_rev. generalize VARINT_MAX, 0%nat, n. clear. intros fuel.
    induction fuel as [|fuel IH]; intros len n; cbn [varint_digits]; [done|].
    destruct (n <=? 0x7F); cbn [length]; [lia|]. specialize (IH (S len) (Z.shiftr n 7 - 1)). lia.
Qed.

Lemma VarInt_roundtrip_witness :
  ReadVarInt (WriteVarInt (2 ^ 64 - 1) ++ [1; 2]) = Some (2 ^ 64 - 1, [1; 2]) ∧
  Z.of_nat (length (WriteVarInt (2 ^ 64 - 1))) = GetSizeOfVarInt (2 ^ 64 - 1) ∧
  (length (WriteVarInt (2 ^ 64 - 1)) <= VARINT_MAX)%nat.
Proof. apply VarInt_roundtrip. lia. Defined.

(** Compact sizes: every size up to [MAX_SIZE] is read back as written, the
    announced length is the written one, and a larger size is refused. *)
Theorem CompactSize_roundtrip n rest : 0 <= n < 2 ^ 64 →
  ReadCompactSize (WriteCompactSize n ++ rest) = (if n <=? MAX_SIZE then Some (n, rest) else None) ∧
  Z.of_nat (length (WriteCompactSize n)) = GetSizeOfCompactSize n.
Proof.
  intros Hn. split; [|apply length_WriteCompactSize; lia].
  destruct (Z.leb_spec n MAX_SIZE) as [Hle|Hgt]; [apply ReadCompactSize_write; lia|].
  unfold MAX_SIZE in Hgt. unfold ReadCompactSize, WriteCompactSize.
  rewrite (proj2 (Z.ltb_ge n 253)), (proj2 (Z.leb_gt n 0xffff)) by lia.
  destruct (Z.leb_spec n 0xffffffff); rewrite <- app_assoc, read_uint_write by lia; cbn -[write_int read_uint MAX_SIZE];
    rewrite read_uint_write by lia; cbn -[MAX_SIZE]; unfold MAX_SIZE; destruct (Z.gtb_spec n 0x02000000); lia || done.
Qed.

Lemma CompactSize_roundtrip_witness :
  ReadCompactSize (WriteCompactSize 70000 ++ [5]) = (if 70000 <=? MAX_SIZE then Some (70000, [5]) else None) ∧
  Z.of_nat (length (WriteCompactSize 70000)) = GetSizeOfCompactSize 70000.
Proof. apply CompactSize_roundtrip. lia. Defined.
