(* ===== verification/Tx.v ===== *)
(** * Transactions (src/main.h, src/main.cpp, src/hash.h)

    The data types of a transaction with their serialization, and the checks
    that need no context: finality, replacement order, output value, minimum
    fee, [CheckTransaction].  OpenSSL's digests are an interface. *)

From stdpp Require Import base list numbers option gmap.
From Stdlib Require Import ZArith Lia.
From S2P Require Import Prelude Uint256 Serialize.

Open Scope Z_scope.

(** ** Digests *)

(** The digests of OpenSSL the code calls, on byte strings *)
Class Digests := {
  SHA1 : list Z → list Z;
  SHA256 : list Z → list Z;
  RIPEMD160 : list Z → list Z
}.

(** Their documented output: 20, 32 and 20 bytes *)
Class DigestsOk `{Digests} : Prop := {
  SHA1_ok x : length (SHA1 x) = 20%nat ∧ digits_ok 256 (SHA1 x);
  SHA256_ok x : length (SHA256 x) = 32%nat ∧ digits_ok 256 (SHA256 x);
  RIPEMD160_ok x : length (RIPEMD160 x) = 20%nat ∧ digits_ok 256 (RIPEMD160 x)
}.

(** [Hash]: double SHA-256 *)
Definition Hash `{Digests} (x : list Z) : base_uint := limbs_of_bytes (SHA256 (SHA256 x)).
Definition Hash160 `{Digests} (x : list Z) : base_uint := limbs_of_bytes (RIPEMD160 (SHA256 x)).
Definition SerializeHash `{Digests} {T} `{Codec T} (obj : T) : base_uint := Hash (Serialize obj).

Lemma Hash_wf `{DigestsOk} x : wf W256 (Hash x).
Proof. destruct (SHA256_ok (SHA256 x)). by apply (limbs_of_bytes_ok W256). Qed.
Lemma Hash160_wf `{DigestsOk} x : wf W160 (Hash160 x).
Proof. destruct (RIPEMD160_ok (SHA256 x)). by apply (limbs_of_bytes_ok W160). Qed.

(** ** Constants *)

Definition COIN : Z := 1000000.
Definition CENT : Z := 10000.
Definition MAX_BLOCK_SIZE : Z := 1000000.
Definition MAX_BLOCK_SIZE_GEN : Z := MAX_BLOCK_SIZE / 2.
Definition MAX_BLOCK_SIGOPS : Z := MAX_BLOCK_SIZE / 50.
Definition MIN_TX_FEE : Z := CENT / 10.
Definition MIN_RELAY_TX_FEE : Z := CENT / 50.
Definition MAX_MONEY : Z := 2 ^ 63 - 1.
Definition MAX_MINT_PROOF_OF_WORK : Z := 100 * COIN.
Definition MAX_MINT_PROOF_OF_STAKE : Z := 1 * COIN.
Definition MoneyRange (nValue : Z) : bool := (nValue >=? 0) && (nValue <=? MAX_MONEY).
Definition LOCKTIME_THRESHOLD : Z := 500000000.
Definition UINT_MAX : Z := 2 ^ 32 - 1.

(** ** Data *)

Record COutPoint := mkOutPoint { op_hash : base_uint; op_n : Z }.
#[export] Instance COutPoint_eq_dec : EqDecision COutPoint.
Proof. solve_decision. Defined.
#[export] Instance COutPoint_countable : Countable COutPoint.
Proof.
  refine (inj_countable' (λ o, (op_hash o, op_n o)) (λ p, mkOutPoint p.1 p.2) _). intros [? ?]. done.
Defined.

Definition COutPoint_SetNull : COutPoint := mkOutPoint (bu_of_u64 W256 0) UINT_MAX.
Definition COutPoint_IsNull (o : COutPoint) : bool := bu_eq64 (op_hash o) 0 && (op_n o =? UINT_MAX).
Definition COutPoint_lt (a b : COutPoint) : bool :=
  bu_lt (op_hash a) (op_hash b) || (bu_eq (op_hash a) (op_hash b) && (op_n a <? op_n b)).
Definition COutPoint_eqb (a b : COutPoint) : bool := bu_eq (op_hash a) (op_hash b) && (op_n a =? op_n b).

Record CTxIn := mkTxIn { prevout : COutPoint; scriptSig : list Z; nSequence : Z }.
#[export] Instance CTxIn_eq_dec : EqDecision CTxIn.
Proof. solve_decision. Defined.
Definition CTxIn_default : CTxIn := mkTxIn COutPoint_SetNull [] UINT_MAX.
Definition CTxIn_IsFinal (i : CTxIn) : bool := nSequence i =? UINT_MAX.

Record CTxOut := mkTxOut { nValue : Z; scriptPubKey : list Z }.
#[export] Instance CTxOut_eq_dec : EqDecision CTxOut.
Proof. solve_decision. Defined.
Definition CTxOut_SetNull : CTxOut := mkTxOut (-1) [].
Definition CTxOut_IsNull (o : CTxOut) : bool := nValue o =? -1.
Definition CTxOut_SetEmpty : CTxOut := mkTxOut 0 [].
Definition CTxOut_IsEmpty (o : CTxOut) : bool := (nValue o =? 0) && bool_decide (scriptPubKey o = []).

(** [nDoS], mutable and not serialized, is what the checks return beside their
    verdict. *)
Record CTransaction := mkTx {
  nVersion : Z;
  nTime : Z;
  vin : list CTxIn;
  vout : list CTxOut;
  nLockTime : Z
}.
#[export] Instance CTransaction_eq_dec : EqDecision CTransaction.
Proof. solve_decision. Defined.

(** ** Serialization *)

(** [READWRITE(FLATDATA( *this ))] *)
#[export] Instance COutPoint_codec : Codec COutPoint := {
  Serialize o := bu_Serialize (op_hash o) ++ write_int 4 (op_n o);
  Unserialize s := '(h, s) ← bu_Unserialize W256 s; '(k, s) ← read_uint 4 s; Some (mkOutPoint h k, s);
  GetSerializeSize o := 36
}.

#[export] Instance CTxIn_codec : Codec CTxIn := {
  Serialize i := Serialize (prevout i) ++ Serialize (scriptSig i) ++ write_int 4 (nSequence i);
  Unserialize s :=
    '(p, s) ← Unserialize s; '(sc, s) ← Unserialize s; '(q, s) ← read_uint 4 s; Some (mkTxIn p sc q, s);
  GetSerializeSize i := u32 (u32 (GetSerializeSize (prevout i) + GetSerializeSize (scriptSig i)) + 4)
}.

#[export] Instance CTxOut_codec : Codec CTxOut := {
  Serialize o := write_int 8 (nValue o) ++ Serialize (scriptPubKey o);
  Unserialize s := '(v, s) ← read_int64 s; '(sc, s) ← Unserialize s; Some (mkTxOut v sc, s);
  GetSerializeSize o := u32 (8 + GetSerializeSize (scriptPubKey o))
}.

#[export] Instance CTransaction_codec : Codec CTransaction := {
  Serialize t := write_int 4 (nVersion t) ++ write_int 4 (nTime t) ++ ser_vector (vin t) ++
                 ser_vector (vout t) ++ write_int 4 (nLockTime t);
  Unserialize s :=
    '(v, s) ← read_int32 s; '(t, s) ← read_uint 4 s; '(i, s) ← unser_vector s; '(o, s) ← unser_vector s;
    '(l, s) ← read_uint 4 s; Some (mkTx v t i o l, s);
  GetSerializeSize t :=
    u32 (u32 (u32 (8 + size_vector (vin t)) + size_vector (vout t)) + 4)
}.

Definition GetHash `{Digests} (t : CTransaction) : base_uint := SerializeHash t.

(** ** Context-free operations *)

Definition IsNull (t : CTransaction) : bool := bool_decide (vin t = []) && bool_decide (vout t = []).

(** [nBestHeight] and [GetAdjustedTime()] are the node's state. *)
Definition IsFinal (nBestHeight adjustedTime : Z) (t : CTransaction) (nBlockHeight nBlockTime : Z) : bool :=
  if nLockTime t =? 0 then true
  else
    let nBlockHeight := if nBlockHeight =? 0 then nBestHeight else nBlockHeight in
    let nBlockTime := if nBlockTime =? 0 then adjustedTime else nBlockTime in
    if nLockTime t <? (if nLockTime t <? LOCKTIME_THRESHOLD then nBlockHeight else nBlockTime) then true
    else forallb CTxIn_IsFinal (vin t).

Fixpoint newer_loop (vin old : list CTxIn) (fNewer : bool) (nLowest : Z) : bool :=
  match vin, old with
  | a :: vin, b :: old =>
      if negb (nSequence a =? nSequence b) then
        let '(fNewer, nLowest) := if nSequence a <=? nLowest then (false, nSequence a) else (fNewer, nLowest) in
        let '(fNewer, nLowest) := if nSequence b <? nLowest then (true, nSequence b) else (fNewer, nLowest) in
        newer_loop vin old fNewer nLowest
      else newer_loop vin old fNewer nLowest
  | _, _ => fNewer
  end.
Definition IsNewerThan (t old : CTransaction) : bool :=
  if negb (length (vin t) =? length (vin old))%nat then false
  else if negb (forallb (λ p, COutPoint_eqb (prevout p.1) (prevout p.2)) (zip (vin t) (vin old))) then false
  else newer_loop (vin t) (vin old) false UINT_MAX.

Definition IsCoinBase (t : CTransaction) : bool :=
  match vin t with
  | [i] => COutPoint_IsNull (prevout i) && (1 <=? length (vout t))%nat
  | _ => false
  end.
Definition IsCoinStake (t : CTransaction) : bool :=
  match vin t, vout t with
  | i :: _, o :: _ :: _ => negb (COutPoint_IsNull (prevout i)) && CTxOut_IsEmpty o
  | _, _ => false
  end.

(** [GetValueOut] throws a [runtime_error] when a value or the running total,
    an [int64_t], is out of range. *)
Fixpoint value_loop (nValueOut : Z) (vout : list CTxOut) : option Z :=
  match vout with
  | [] => Some nValueOut
  | txout :: vout =>
      let nValueOut := i64 (nValueOut + nValue txout) in
      if negb (MoneyRange (nValue txout)) || negb (MoneyRange nValueOut) then None
      else value_loop nValueOut vout
  end.
Definition GetValueOut (t : CTransaction) : option Z := value_loop 0 (vout t).

Inductive GetMinFee_mode := GMF_BLOCK | GMF_RELAY | GMF_SEND.

Definition GetMinFee (t : CTransaction) (nBlockSize : Z) (fAllowFree : bool) (mode : GetMinFee_mode)
    (nBytes : Z) : Z :=
  let '(nMinTxFee, nMinRelayTxFee) :=
    if IsCoinStake t then (CENT, CENT) else (MIN_TX_FEE, MIN_RELAY_TX_FEE) in
  let nBaseFee := match mode with GMF_RELAY => nMinRelayTxFee | _ => nMinTxFee end in
  let nNewBlockSize := u32 (nBlockSize + nBytes) in
  let nMinFee := i64 ((1 + nBytes / 1000) * nBaseFee) in
  let nMinFee :=
    if fAllowFree then
      if nBlockSize =? 1 then (if nBytes <? 1000 then 0 else nMinFee)
      else (if nNewBlockSize <? 27000 then 0 else nMinFee)
    else nMinFee in
  let nMinFee :=
    fold_left (λ nMinFee txout,
      if (nValue txout <? CENT) && negb (CTxOut_IsEmpty txout) then i64 (nMinFee + nBaseFee) else nMinFee)
      (vout t) nMinFee in
  let finish nMinFee := if negb (MoneyRange nMinFee) then MAX_MONEY else nMinFee in
  if negb (nBlockSize =? 1) && (MAX_BLOCK_SIZE_GEN / 2 <=? nNewBlockSize) then
    if MAX_BLOCK_SIZE_GEN <=? nNewBlockSize then MAX_MONEY
    else finish (i64 (nMinFee * (MAX_BLOCK_SIZE_GEN / (MAX_BLOCK_SIZE_GEN - nNewBlockSize))))
  else finish nMinFee.

(** [CheckTransaction] with the DoS penalty it adds *)
Fixpoint check_outputs (t : CTransaction) (nValueOut : Z) (vout : list CTxOut) : option (bool * Z) :=
  match vout with
  | [] => None
  | txout :: vout =>
      if CTxOut_IsEmpty txout && negb (IsCoinBase t) && negb (IsCoinStake t) then Some (false, 100)
      else if nValue txout <? 0 then Some (false, 100)
      else if nValue txout >? MAX_MONEY then Some (false, 100)
      else
        let nValueOut := i64 (nValueOut + nValue txout) in
        if negb (MoneyRange nValueOut) then Some (false, 100)
        else check_outputs t nValueOut vout
  end.

Fixpoint has_duplicate (vInOutPoints : list COutPoint) (vin : list CTxIn) : bool :=
  match vin with
  | [] => false
  | txin :: vin =>
      if existsb (COutPoint_eqb (prevout txin)) vInOutPoints then true
      else has_duplicate (prevout txin :: vInOutPoints) vin
  end.

Definition CheckTransaction (t : CTransaction) : bool * Z :=
  match vin t with
  | [] => (false, 10)
  | in0 :: _ =>
      if bool_decide (vout t = []) then (false, 10)
      else if GetSerializeSize t >? MAX_BLOCK_SIZE then (false, 100)
      else match check_outputs t 0 (vout t) with
      | Some r => r
      | None =>
          if has_duplicate [] (vin t) then (false, 0)
          else if IsCoinBase t then
            let size := Z.of_nat (length (scriptSig in0)) in
            if (size <? 2) || (size >? 100) then (false, 100) else (true, 0)
          else if existsb (λ i, COutPoint_IsNull (prevout i)) (vin t) then (false, 10)
          else (true, 0)
      end
  end.

(** ** Well-formed values: what the C++ types can hold *)

Definition outpoint_ok (o : COutPoint) : Prop := wf W256 (op_hash o) ∧ 0 <= op_n o < 2 ^ 32.
Definition script_ok (s : list Z) : Prop := Z.of_nat (length s) <= MAX_SIZE.
Definition txin_ok (i : CTxIn) : Prop :=
  outpoint_ok (prevout i) ∧ script_ok (scriptSig i) ∧ 0 <= nSequence i < 2 ^ 32.
Definition txout_ok (o : CTxOut) : Prop := - 2 ^ 63 <= nValue o < 2 ^ 63 ∧ script_ok (scriptPubKey o).
Record tx_ok (t : CTransaction) : Prop := {
  tx_version_ok : - 2 ^ 31 <= nVersion t < 2 ^ 31;
  tx_time_ok : 0 <= nTime t < 2 ^ 32;
  tx_vin_ok : vector_ok txin_ok (vin t);
  tx_vout_ok : vector_ok txout_ok (vout t);
  tx_locktime_ok : 0 <= nLockTime t < 2 ^ 32
}.

(** Executable versions, for concrete transactions *)
Definition outpoint_okb (o : COutPoint) : bool :=
  wfb W256 (op_hash o) &&
  (0 <=? op_n o) && (op_n o <? 2 ^ 32).
Definition script_okb (s : list Z) : bool := Z.of_nat (length s) <=? MAX_SIZE.
Definition txin_okb (i : CTxIn) : bool :=
  outpoint_okb (prevout i) && script_okb (scriptSig i) && (0 <=? nSequence i) && (nSequence i <? 2 ^ 32).
Definition txout_okb (o : CTxOut) : bool :=
  (- 2 ^ 63 <=? nValue o) && (nValue o <? 2 ^ 63) && script_okb (scriptPubKey o).
Definition tx_okb (t : CTransaction) : bool :=
  (- 2 ^ 31 <=? nVersion t) && (nVersion t <? 2 ^ 31) && (0 <=? nTime t) && (nTime t <? 2 ^ 32) &&
  (Z.of_nat (length (vin t)) <=? MAX_SIZE) && forallb txin_okb (vin t) &&
  (Z.of_nat (length (vout t)) <=? MAX_SIZE) && forallb txout_okb (vout t) &&
  (0 <=? nLockTime t) && (nLockTime t <? 2 ^ 32).

Ltac split_andb := repeat match goal with H : (_ && _) = true |- _ => apply andb_prop in H; destruct H end.

Lemma Forall_forallb_impl {A} (P : A → Prop) (p : A → bool) l : (∀ x, p x = true → P x) → forallb p l = true → Forall P l.
Proof. intros H Hl. rewrite forallb_forall in Hl. apply List.Forall_forall. auto. Qed.

Lemma outpoint_okb_ok o : outpoint_okb o = true → outpoint_ok o.
Proof. unfold outpoint_okb. intros H. split_andb. split; [by apply wfb_ok|lia]. Qed.
Lemma txin_okb_ok i : txin_okb i = true → txin_ok i.
Proof.
  unfold txin_okb. intros H. split_andb. split; [by apply outpoint_okb_ok|]. unfold script_ok, script_okb in *. repeat split; lia.
Qed.
Lemma txout_okb_ok o : txout_okb o = true → txout_ok o.
Proof. unfold txout_okb, txout_ok, script_ok, script_okb. intros H. split_andb. lia. Qed.
Lemma tx_okb_ok t : tx_okb t = true → tx_ok t.
Proof.
  unfold tx_okb. intros H. split_andb. split; unfold vector_ok; try lia.
  - split; [lia|]. eapply Forall_forallb_impl; [apply txin_okb_ok|done].
  - split; [lia|]. eapply Forall_forallb_impl; [apply txout_okb_ok|done].
Qed.

(** ** The codecs keep their promise *)

#[export] Instance COutPoint_codec_ok : CodecOk COutPoint outpoint_ok.
Proof.
  split.
  - intros [h k] rest [Hh Hk]. cbn [Unserialize Serialize COutPoint_codec op_hash op_n] in *.
    rewrite <- app_assoc. rewrite (bu_Unserialize_ok W256) by done. cbn -[read_uint write_int].
    rewrite read_uint_write by (cbn; lia). done.
  - intros [h k] [Hh Hk]. cbn [GetSerializeSize Serialize COutPoint_codec op_hash op_n] in *.
    unfold bu_Serialize. rewrite length_app, length_write_int. destruct (getBytes_ok W256 h Hh) as (_ & -> & _). done.
Qed.

#[export] Instance CTxIn_codec_ok : CodecOk CTxIn txin_ok.
Proof.
  split.
  - intros [p s q] rest (Hp & Hs & Hq). cbn [prevout scriptSig nSequence] in *.
    change (Serialize (mkTxIn p s q)) with (Serialize p ++ Serialize s ++ write_int 4 q).
    cbn [Unserialize CTxIn_codec]. rewrite <- !app_assoc, codec_roundtrip by done. cbn [mbind option_bind].
    rewrite codec_roundtrip by done. cbn [mbind option_bind]. rewrite read_uint_write by (cbn; lia). done.
  - intros [p s q] (Hp & Hs & Hq). cbn [prevout scriptSig nSequence] in *.
    change (Serialize (mkTxIn p s q)) with (Serialize p ++ Serialize s ++ write_int 4 q).
    change (GetSerializeSize (mkTxIn p s q)) with (u32 (u32 (GetSerializeSize p + GetSerializeSize s) + 4)).
    rewrite !codec_size by done. rewrite !length_app, length_write_int.
    rewrite !Nat2Z.inj_add. clear. mlia.
Qed.

#[export] Instance CTxOut_codec_ok : CodecOk CTxOut txout_ok.
Proof.
  split.
  - intros [v s] rest (Hv & Hs). cbn [nValue scriptPubKey] in *.
    change (Serialize (mkTxOut v s)) with (write_int 8 v ++ Serialize s).
    cbn [Unserialize CTxOut_codec]. rewrite <- app_assoc, read_int64_write by lia. cbn [mbind option_bind].
    rewrite codec_roundtrip by done. done.
  - intros [v s] (Hv & Hs). cbn [nValue scriptPubKey] in *.
    change (Serialize (mkTxOut v s)) with (write_int 8 v ++ Serialize s).
    change (GetSerializeSize (mkTxOut v s)) with (u32 (8 + GetSerializeSize s)).
    rewrite codec_size by done. rewrite length_app, length_write_int, u32_add_r. f_equal. lia.
Qed.

#[export] Instance CTransaction_codec_ok : CodecOk CTransaction tx_ok.
Proof.
  split.
  - intros [v t i o l] rest [Hv Ht Hi Ho Hl]. cbn [nVersion nTime vin vout nLockTime] in *.
    change (Serialize (mkTx v t i o l)) with (write_int 4 v ++ write_int 4 t ++ ser_vector i ++ ser_vector o ++ write_int 4 l).
    cbn [Unserialize CTransaction_codec]. rewrite <- !app_assoc, read_int32_write by lia. cbn [mbind option_bind].
    rewrite read_uint_write by (cbn; lia). cbn [mbind option_bind].
    rewrite (unser_vector_ok txin_ok) by done. cbn [mbind option_bind].
    rewrite (unser_vector_ok txout_ok) by done. cbn [mbind option_bind].
    rewrite read_uint_write by (cbn; lia). done.
  - intros [v t i o l] [Hv Ht Hi Ho Hl]. cbn [nVersion nTime vin vout nLockTime] in *.
    change (Serialize (mkTx v t i o l)) with (write_int 4 v ++ write_int 4 t ++ ser_vector i ++ ser_vector o ++ write_int 4 l).
    change (GetSerializeSize (mkTx v t i o l)) with (u32 (u32 (u32 (8 + size_vector i) + size_vector o) + 4)).
    rewrite (size_vector_ok txin_ok), (size_vector_ok txout_ok) by done.
    rewrite !length_app, !length_write_int, !Nat2Z.inj_add. clear. mlia.
Qed.

(** ** Comparisons *)

Lemma COutPoint_eqb_ok a b : outpoint_ok a → outpoint_ok b → COutPoint_eqb a b = bool_decide (a = b).
Proof.
  destruct a as [ha na], b as [hb nb]. intros [Ha _] [Hb _]. cbn in *. unfold COutPoint_eqb. cbn.
  rewrite (bu_eq_ok W256) by done. case_bool_decide as E.
  - simplify_eq. rewrite !Z.eqb_refl. done.
  - apply andb_false_iff. destruct (Z.eqb_spec (val ha) (val hb)) as [Hv|]; [right|by left].
    apply Z.eqb_neq. intros ->. apply E. f_equal. apply (val_inj W256); done.
Qed.

Lemma has_duplicate_ok seen v : Forall outpoint_ok seen → Forall txin_ok v →
  has_duplicate seen v = false ↔ NoDup (map prevout v) ∧ Forall (λ i, prevout i ∉ seen) v.
Proof.
  intros Hs Hv. revert seen Hs. induction Hv as [|i v Hi Hv IH]; intros seen Hs; cbn [has_duplicate map].
  { split; [repeat constructor|done]. }
  assert (Hex : existsb (COutPoint_eqb (prevout i)) seen = true ↔ prevout i ∈ seen).
  { rewrite existsb_exists. split.
    - intros (o & Ho & E). rewrite COutPoint_eqb_ok in E by (try apply Hi; rewrite List.Forall_forall in Hs; auto).
      apply bool_decide_eq_true in E as ->. apply list_elem_of_In. done.
    - intros Ho. apply list_elem_of_In in Ho. exists (prevout i). split; [done|].
      rewrite COutPoint_eqb_ok by apply Hi. by apply bool_decide_eq_true_2. }
  destruct (existsb _ seen) eqn:E.
  - split; [done|]. intros [_ Hf]. apply Forall_cons in Hf as [Hf _]. exfalso. apply Hf. by apply Hex.
  - rewrite IH by (constructor; [apply Hi|done]). rewrite NoDup_cons, Forall_cons.
    rewrite !Forall_forall. rewrite list_elem_of_fmap.
    assert (prevout i ∉ seen) by (rewrite <- Hex; done).
    split.
    + intros [Hn Hf]. repeat split; auto.
      * intros (j & Hj & Hin). specialize (Hf j Hin). rewrite Hj, not_elem_of_cons in Hf. tauto.
      * intros j Hj. specialize (Hf j Hj). rewrite not_elem_of_cons in Hf. tauto.
    + intros ((Hn1 & Hn2) & _ & Hf). split; [done|]. intros j Hj. rewrite not_elem_of_cons. split; [|auto].
      intros E'. apply Hn1. eauto.
Qed.

(** ** Values and fees *)

Lemma MoneyRange_ok v : MoneyRange v = true ↔ 0 <= v <= MAX_MONEY.
Proof. unfold MoneyRange. rewrite andb_true_iff, Z.geb_le, Z.leb_le. lia. Qed.

(** The total of the output values, unbounded *)
Definition total (v : list CTxOut) : Z := foldr (λ o s, nValue o + s) 0 v.

Lemma total_nonneg v : Forall (λ o, 0 <= nValue o) v → 0 <= total v.
Proof. induction 1 as [|o v Ho Hv IH]; cbn [total foldr]; [lia|]. fold (total v). lia. Qed.

(** A running [int64_t] total of non-negative values leaves the range at the
    first overflow: two values in range add up to less than 2^64. *)
Lemma i64_add_range a b : 0 <= a <= MAX_MONEY → 0 <= b <= MAX_MONEY →
  MoneyRange (i64 (a + b)) = (a + b <=? MAX_MONEY) ∧ (a + b <= MAX_MONEY → i64 (a + b) = a + b).
Proof.
  unfold MAX_MONEY. intros Ha Hb. split.
  - apply eq_bool_prop_intro. rewrite !Is_true_true, MoneyRange_ok, Z.leb_le. unfold MAX_MONEY. mlia.
  - intros. apply i64_small. lia.
Qed.

Definition values_ok (v : list CTxOut) : Prop := Forall (λ o, 0 <= nValue o) v.
#[export] Instance values_ok_dec v : Decision (values_ok v).
Proof. unfold values_ok. apply _. Defined.

Lemma value_loop_ok acc v : 0 <= acc <= MAX_MONEY → Forall (λ o, nValue o <= MAX_MONEY) v →
  value_loop acc v = if bool_decide (values_ok v ∧ acc + total v <= MAX_MONEY) then Some (acc + total v) else None.
Proof.
  intros Hacc Hv. revert acc Hacc. induction Hv as [|o v Ho Hv IH]; intros acc Hacc; cbn [value_loop total foldr].
  { rewrite bool_decide_eq_true_2; [f_equal; lia|]. split; [constructor|lia]. }
  fold (total v). destruct (decide (0 <= nValue o)) as [Hn|Hn].
  2: { rewrite bool_decide_eq_false_2 by (intros [Hf _]; apply Forall_cons in Hf as [? _]; lia).
       destruct (MoneyRange (nValue o)) eqn:E; [apply MoneyRange_ok in E; lia|done]. }
  destruct (i64_add_range acc (nValue o)) as [H1 H2]; [lia..|].
  rewrite H1, (proj2 (MoneyRange_ok (nValue o))) by lia. cbn [negb orb].
  destruct (Z.leb_spec (acc + nValue o) MAX_MONEY) as [Hle|Hgt]; cbn [negb].
  - rewrite H2, IH by lia. rewrite <- Z.add_assoc.
    assert (E : values_ok v ∧ acc + (nValue o + total v) <= MAX_MONEY ↔
                values_ok (o :: v) ∧ acc + (nValue o + total v) <= MAX_MONEY).
    { unfold values_ok. rewrite Forall_cons. tauto. }
    rewrite (bool_decide_ext _ _ E). done.
  - rewrite bool_decide_eq_false_2; [done|]. intros [Hf Hs]. apply Forall_cons in Hf as [_ Hf].
    apply total_nonneg in Hf. lia.
Qed.

Lemma check_outputs_ok t acc v : 0 <= acc <= MAX_MONEY → Forall (λ o, nValue o <= MAX_MONEY) v →
  check_outputs t acc v = None ↔
  (values_ok v ∧ acc + total v <= MAX_MONEY ∧
   (IsCoinBase t || IsCoinStake t = true ∨ Forall (λ o, CTxOut_IsEmpty o = false) v)).
Proof.
  intros Hacc Hv. revert acc Hacc. induction Hv as [|o v Ho Hv IH]; intros acc Hacc; cbn [check_outputs total foldr].
  { split; [|done]. intros _. split; [constructor|]. split; [lia|]. right. constructor. }
  fold (total v). unfold values_ok in *. rewrite !Forall_cons.
  destruct (CTxOut_IsEmpty o && negb (IsCoinBase t) && negb (IsCoinStake t)) eqn:E1.
  { split_andb. split; [done|]. intros (_ & _ & [Hc|[Hf _]]); [|congruence].
    destruct (IsCoinBase t), (IsCoinStake t); done. }
  assert (He : IsCoinBase t || IsCoinStake t = true ∨ CTxOut_IsEmpty o = false).
  { destruct (CTxOut_IsEmpty o), (IsCoinBase t), (IsCoinStake t); auto. }
  clear E1. destruct (Z.ltb_spec (nValue o) 0); [split; [done|lia]|].
  destruct (Z.gtb_spec (nValue o) MAX_MONEY); [lia|].
  destruct (i64_add_range acc (nValue o)) as [H1 H2]; [lia..|]. rewrite H1.
  destruct (Z.leb_spec (acc + nValue o) MAX_MONEY) as [Hle|Hgt]; cbn [negb].
  - rewrite H2, IH by lia. rewrite Z.add_assoc. tauto.
  - split; [done|]. intros ((_ & Hf) & Hs & _). apply total_nonneg in Hf. lia.
Qed.

Lemma values_max v : Forall txout_ok v → Forall (λ o, nValue o <= MAX_MONEY) v.
Proof. intros H. eapply Forall_impl; [done|]. intros o [? _]. unfold MAX_MONEY. lia. Qed.

(** The code's fold over the outputs is a count of the dust outputs. *)
Definition is_dust (o : CTxOut) : bool := (nValue o <? CENT) && negb (CTxOut_IsEmpty o).
Definition dust (v : list CTxOut) : Z := Z.of_nat (length (List.filter is_dust v)).

Lemma dust_loop base v f : 0 <= base <= CENT → 0 <= f → f + CENT * Z.of_nat (length v) < 2 ^ 63 →
  fold_left (λ nMinFee txout,
      if (nValue txout <? CENT) && negb (CTxOut_IsEmpty txout) then i64 (nMinFee + base) else nMinFee) v f =
  f + base * dust v.
Proof.
  unfold dust. intros Hb. revert f. induction v as [|o v IH]; intros f Hf Hs; cbn [fold_left List.filter length] in *; [lia|].
  unfold is_dust at 1. unfold CENT in *. destruct ((nValue o <? 10000) && negb (CTxOut_IsEmpty o)).
  - rewrite i64_small by lia. rewrite IH by lia. cbn [length]. lia.
  - rewrite IH by lia. lia.
Qed.

Lemma dust_bound v : 0 <= dust v <= Z.of_nat (length v).
Proof. unfold dust. assert (H := List.filter_length_le is_dust v). lia. Qed.

Definition base_fee (t : CTransaction) (mode : GetMinFee_mode) : Z :=
  if IsCoinStake t then CENT else match mode with GMF_RELAY => MIN_RELAY_TX_FEE | _ => MIN_TX_FEE end.

(** How much the fee is multiplied as the block fills up; [None] when nothing
    more fits *)
Definition congestion (nBlockSize nNewBlockSize : Z) : option Z :=
  if (nBlockSize =? 1) || (nNewBlockSize <? MAX_BLOCK_SIZE_GEN / 2) then Some 1
  else if MAX_BLOCK_SIZE_GEN <=? nNewBlockSize then None
  else Some (MAX_BLOCK_SIZE_GEN / (MAX_BLOCK_SIZE_GEN - nNewBlockSize)).
Definition is_free (nBlockSize nBytes : Z) : bool :=
  if nBlockSize =? 1 then nBytes <? 1000 else nBlockSize + nBytes <? 27000.

(** The exact fee, over the integers *)
Definition fee_spec (t : CTransaction) (nBlockSize : Z) (fAllowFree : bool) (mode : GetMinFee_mode) (nBytes : Z) : Z :=
  let size_fee := if fAllowFree && is_free nBlockSize nBytes then 0 else 1 + nBytes / 1000 in
  match congestion nBlockSize (nBlockSize + nBytes) with
  | None => MAX_MONEY
  | Some k => base_fee t mode * (size_fee + dust (vout t)) * k
  end.

Lemma base_fee_range t mode : 0 <= base_fee t mode <= CENT.
Proof. unfold base_fee, CENT, MIN_TX_FEE, MIN_RELAY_TX_FEE. destruct (IsCoinStake t), mode; cbv; split; congruence. Qed.

Lemma GetMinFee_spec t nBlockSize fAllowFree mode nBytes :
  0 <= nBlockSize → 0 <= nBytes → nBlockSize + nBytes < 2 ^ 32 → Z.of_nat (length (vout t)) <= MAX_BLOCK_SIZE →
  GetMinFee t nBlockSize fAllowFree mode nBytes = fee_spec t nBlockSize fAllowFree mode nBytes ∧
  0 <= fee_spec t nBlockSize fAllowFree mode nBytes <= MAX_MONEY.
Proof.
  intros Hs Hb Hsb Hv. assert (Hf := base_fee_range t mode). assert (Hd := dust_bound (vout t)).
  unfold GetMinFee, fee_spec. rewrite (u32_small (nBlockSize + nBytes)) by lia.
  set (base := base_fee t mode) in *.
  assert ((let '(nMinTxFee, nMinRelayTxFee) :=
    if IsCoinStake t then (CENT, CENT) else (MIN_TX_FEE, MIN_RELAY_TX_FEE) in
    match mode with GMF_RELAY => nMinRelayTxFee | _ => nMinTxFee end) = base) as Hbase.
  { unfold base, base_fee. destruct (IsCoinStake t), mode; done. }
  destruct (if IsCoinStake t then _ else _) as [a b]. rewrite Hbase. clear Hbase a b.
  assert (Hdiv : 0 <= nBytes / 1000 <= 2 ^ 32) by (Z.div_mod_to_equations; lia).
  unfold CENT, MAX_BLOCK_SIZE in *.
  rewrite (i64_small ((1 + nBytes / 1000) * base)) by nia.
  set (size_fee := if fAllowFree && is_free nBlockSize nBytes then 0 else 1 + nBytes / 1000).
  assert (Hsize : 0 <= size_fee <= 1 + nBytes / 1000) by (unfold size_fee; destruct (_ && _); lia).
  assert ((if fAllowFree
    then if nBlockSize =? 1 then if nBytes <? 1000 then 0 else (1 + nBytes / 1000) * base
         else if nBlockSize + nBytes <? 27000 then 0 else (1 + nBytes / 1000) * base
    else (1 + nBytes / 1000) * base) = base * size_fee) as ->.
  { unfold size_fee, is_free. destruct fAllowFree, (nBlockSize =? 1), (nBytes <? 1000), (nBlockSize + nBytes <? 27000); cbn; lia. }
  rewrite dust_loop by (unfold CENT; nia).
  rewrite <- Z.mul_add_distr_l. set (sum := base * (size_fee + dust (vout t))) in *.
  assert (Hsum : 0 <= sum <= 10000 * (2 ^ 32 + 1000001)) by (unfold sum; nia).
  assert (Hfin : ∀ x, 0 <= x < 2 ^ 63 → (if negb (MoneyRange x) then MAX_MONEY else x) = x).
  { intros x Hx. rewrite (proj2 (MoneyRange_ok x)) by (unfold MAX_MONEY; lia). done. }
  unfold congestion. change (MAX_BLOCK_SIZE_GEN / 2) with 250000. change MAX_BLOCK_SIZE_GEN with 500000.
  destruct (nBlockSize =? 1); cbn [negb andb orb].
  { rewrite Hfin by lia. unfold MAX_MONEY. lia. }
  destruct (Z.leb_spec 250000 (nBlockSize + nBytes)), (Z.ltb_spec (nBlockSize + nBytes) 250000); try lia.
  2: { rewrite Hfin by lia. unfold MAX_MONEY. lia. }
  destruct (Z.leb_spec 500000 (nBlockSize + nBytes)); [unfold MAX_MONEY; lia|].
  assert (Hk : 0 <= 500000 / (500000 - (nBlockSize + nBytes)) <= 500000) by (split; [apply Z.div_pos; lia|apply Z.div_le_upper_bound; nia]).
  assert (nBytes / 1000 <= 500) by (Z.div_mod_to_equations; lia).
  assert (sum <= 10000 * 1000501) by (unfold sum; nia).
  assert (0 <= sum * (500000 / (500000 - (nBlockSize + nBytes))) <= 10000 * 1000501 * 500000) by nia.
  rewrite i64_small, Hfin by lia. unfold MAX_MONEY. lia.
Qed.

Lemma congestion_mono s1 s2 b : s1 ≠ 1 → s2 ≠ 1 → 0 <= s1 <= s2 → 0 <= b →
  match congestion s1 (s1 + b), congestion s2 (s2 + b) with
  | Some k1, Some k2 => 1 <= k1 <= k2 | None, Some _ => False | _, None => True end.
Proof.
  intros H1 H2 Hs Hb. unfold congestion.
  rewrite (proj2 (Z.eqb_neq s1 1)), (proj2 (Z.eqb_neq s2 1)) by done. cbn [orb].
  change (MAX_BLOCK_SIZE_GEN / 2) with 250000. change MAX_BLOCK_SIZE_GEN with 500000.
  assert (Hk : ∀ x, 250000 <= x < 500000 → 1 <= 500000 / (500000 - x)) by (intros; apply Z.div_le_lower_bound; lia).
  destruct (Z.ltb_spec (s1 + b) 250000), (Z.ltb_spec (s2 + b) 250000),
    (Z.leb_spec 500000 (s1 + b)), (Z.leb_spec 500000 (s2 + b)); try lia; try done.
  - split; [lia|]. apply Hk. lia.
  - split; [apply Hk; lia|]. apply Z.div_le_compat_l; lia.
Qed.

(** ** Replacement order *)

(** Positions whose sequence numbers differ, as pairs (new, old) *)
Definition differing (v old : list CTxIn) : list (Z * Z) :=
  List.filter (λ p, negb (p.1 =? p.2)) (zip (map nSequence v) (map nSequence old)).

(** One step of the loop when the new number is the lowest so far, and when
    neither number is. *)
Lemma newest f low a b (D : list (Z * Z)) : a <= low → a <= b →
  (false = true ∧ (∀ p, In p D → a < p.1) ∨ ∃ q, In q D ∧ q.2 < a ∧ ∀ p, In p D → q.2 < p.1) ↔
  (f = true ∧ low < a ∧ (∀ p, In p D → low < p.1) ∨
   (b < low ∧ b < a ∧ ∀ p, In p D → b < p.1) ∨
   ∃ q, In q D ∧ q.2 < low ∧ q.2 < a ∧ ∀ p, In p D → q.2 < p.1).
Proof.
  intros H1 H2. split.
  - intros [[? _]|(q & Hq & Hlt & Hp)]; [done|]. right; right. exists q. repeat split; lia || done.
  - intros [(_ & ? & _)|[(_ & ? & _)|(q & Hq & Hlt & Ha & Hp)]]; [lia|lia|]. right. eauto.
Qed.
Lemma older f low a b (D : list (Z * Z)) : low < a → low <= b →
  (f = true ∧ (∀ p, In p D → low < p.1) ∨ ∃ q, In q D ∧ q.2 < low ∧ ∀ p, In p D → q.2 < p.1) ↔
  (f = true ∧ low < a ∧ (∀ p, In p D → low < p.1) ∨
   (b < low ∧ b < a ∧ ∀ p, In p D → b < p.1) ∨
   ∃ q, In q D ∧ q.2 < low ∧ q.2 < a ∧ ∀ p, In p D → q.2 < p.1).
Proof.
  intros H1 H2. split.
  - intros [[-> H']|(q & Hq & Hlt & Hp)]; [left; auto|right; right]. exists q. repeat split; lia || done.
  - intros [(-> & _ & Hp)|[(? & _ & _)|(q & Hq & Hlt & Ha & Hp)]]; [by left|lia|right; eauto].
Qed.

Lemma newer_loop_ok v old f low : (length v = length old) →
  newer_loop v old f low = true ↔
  (f = true ∧ (∀ p, In p (differing v old) → low < p.1) ∨
   ∃ q, In q (differing v old) ∧ q.2 < low ∧ ∀ p, In p (differing v old) → q.2 < p.1).
Proof.
  revert old f low. induction v as [|a v IH]; intros [|b old] f low Hl; try done.
  { cbn. split; [intros ->; left; split; [done|tauto]|]. intros [[-> _]|(? & [] & _)]; done. }
  cbn [newer_loop]. unfold differing in *. cbn [map zip zip_with List.filter]. cbn [fst snd].
  destruct (Z.eqb_spec (nSequence a) (nSequence b)) as [E|E]; cbn [negb]; [apply IH; cbn in Hl; lia|].
  set (D := List.filter _ _) in *.
  assert (HIH : ∀ f low, newer_loop v old f low = true ↔
     (f = true ∧ (∀ p, In p D → low < p.1) ∨ ∃ q, In q D ∧ q.2 < low ∧ ∀ p, In p D → q.2 < p.1)).
  { intros. apply IH. cbn in Hl. lia. }
  clearbody D. clear IH.
  assert (Hall : ∀ (P : Z * Z → Prop), (∀ p, In p ((nSequence a, nSequence b) :: D) → P p) ↔
     P (nSequence a, nSequence b) ∧ ∀ p, In p D → P p).
  { intros P. split; [intros H; split; intros; apply H; cbn; auto|]. intros [H1 H2] p [<-|Hp]; auto. }
  assert (Hex : ∀ (P : Z * Z → Prop), (∃ q, In q ((nSequence a, nSequence b) :: D) ∧ P q) ↔
     P (nSequence a, nSequence b) ∨ ∃ q, In q D ∧ P q).
  { intros P. split; [intros (q & [<-|Hq] & H)|intros [H|(q & Hq & H)]]; eauto; eexists; (split; [|done]); cbn; auto. }
  rewrite Hex. setoid_rewrite Hall. cbn [fst snd].
  destruct (Z.leb_spec (nSequence a) low), (Z.ltb_spec (nSequence b) (nSequence a)), (Z.ltb_spec (nSequence b) low);
    try lia; rewrite HIH; clear HIH Hall Hex.
  - (* the old number is the lowest so far *)
    split.
    + intros [[_ H']|(q & Hq & Hlt & Hp)]; [right; left; repeat split; lia || done|].
      right; right. exists q. repeat split; lia || done.
    + intros [(_ & ? & _)|[(_ & _ & Hp)|(q & Hq & Hlt & Ha & Hp)]]; [lia|by left|].
      destruct (Z.lt_ge_cases (q.2) (nSequence b)); [right; eauto|].
      left. split; [done|]. intros p Hin. specialize (Hp p Hin). lia.
  - apply newest; lia.
  - apply newest; lia.
  - split.
    + intros [[_ H']|(q & Hq & Hlt & Hp)]; [right; left; repeat split; lia || done|].
      right; right. exists q. repeat split; lia || done.
    + intros [(_ & _ & Hp)|[(_ & _ & Hp)|(q & Hq & Hlt & Ha & Hp)]]; [|by left|].
      * left. split; [done|]. intros p Hin. specialize (Hp p Hin). lia.
      * destruct (Z.lt_ge_cases (q.2) (nSequence b)); [right; eauto|].
        left. split; [done|]. intros p Hin. specialize (Hp p Hin). lia.
  - apply older; lia.
  - apply older; lia.
Qed.

Lemma same_prevouts v old : Forall txin_ok v → Forall txin_ok old → length v = length old →
  forallb (λ p, COutPoint_eqb (prevout p.1) (prevout p.2)) (zip v old) = bool_decide (map prevout v = map prevout old).
Proof.
  intros Hv. revert old. induction Hv as [|i v Hi Hv IH]; intros [|j old] Ho Hl; try done.
  apply Forall_cons in Ho as [Hj Ho]. cbn [zip zip_with forallb map fst snd].
  rewrite COutPoint_eqb_ok by (apply Hi || apply Hj). rewrite IH by (done || (cbn in Hl; lia)).
  rewrite <- bool_decide_and. apply bool_decide_ext. split; [intros [-> ->]; done|]. intros [= -> ->]. done.
Qed.

Lemma differing_range v old q : Forall txin_ok v → In q (differing v old) → 0 <= q.1 < 2 ^ 32 ∧ q.1 ≠ q.2.
Proof.
  intros Hv Hq. apply List.filter_In in Hq as [Hq Hne]. apply negb_true_iff, Z.eqb_neq in Hne. split; [|done].
  destruct q as [a b]. apply list_elem_of_In, elem_of_zip_l in Hq. apply list_elem_of_fmap in Hq as (i & -> & Hi).
  rewrite Forall_forall in Hv. apply Hv. done.
Qed.

Lemma check_outputs_false t acc v d : check_outputs t acc v ≠ Some (true, d).
Proof.
  revert acc. induction v as [|o v IH]; intros acc; cbn; [done|]. repeat case_match; congruence.
Qed.

Lemma check_outputs_score t acc v r : check_outputs t acc v = Some r → r = (false, 100).
Proof. revert acc. induction v as [|o v IH]; intros acc; cbn; [done|]. repeat case_match; try (intros [= <-]; done). apply IH. Qed.

(** What the outputs and the size must satisfy *)
Definition outputs_fit (t : CTransaction) : Prop := GetSerializeSize t <= MAX_BLOCK_SIZE ∧ values_ok (vout t) ∧ total (vout t) <= MAX_MONEY ∧
  (IsCoinBase t || IsCoinStake t = true ∨ Forall (λ o, CTxOut_IsEmpty o = false) (vout t)).
(** The score of a refusal, by the first rule that is broken *)
Lemma CheckTransaction_score t : tx_ok t →
  ((vin t = [] ∨ vout t = []) → (CheckTransaction t).2 = 10) ∧
  (vin t ≠ [] → vout t ≠ [] → ¬ outputs_fit t → (CheckTransaction t).2 = 100) ∧
  (vin t ≠ [] → vout t ≠ [] → outputs_fit t → ¬ NoDup (map prevout (vin t)) → (CheckTransaction t).2 = 0) ∧
  (vin t ≠ [] → vout t ≠ [] → outputs_fit t → NoDup (map prevout (vin t)) → (CheckTransaction t).1 = false → (CheckTransaction t).2 = if IsCoinBase t then 100 else 10) ∧
  ((CheckTransaction t).1 = true → (CheckTransaction t).2 = 0).
Proof.
  intros [_ _ [_ Hi] [_ Ho] _]. apply values_max in Ho.
  assert (Hout := check_outputs_ok t 0 (vout t) ltac:(unfold MAX_MONEY; lia) Ho). rewrite Z.add_0_l in Hout.
  assert (Hdup := has_duplicate_ok [] (vin t) ltac:(constructor) Hi).
  assert (Hnil : Forall (λ i, prevout i ∉ []) (vin t)) by (apply Forall_forall; intros i _; apply not_elem_of_nil).
  assert (Hfit : outputs_fit t ↔ GetSerializeSize t <= MAX_BLOCK_SIZE ∧ check_outputs t 0 (vout t) = None) by (unfold outputs_fit; tauto).
  assert (Hnd : NoDup (map prevout (vin t)) ↔ has_duplicate [] (vin t) = false) by tauto. clear Hout Hdup Hnil Hi Ho. generalize dependent (outputs_fit t).
  generalize dependent (NoDup (map prevout (vin t))). intros P HP Q HQ. unfold CheckTransaction. destruct (vin t) as [|i v]; [cbn [fst snd]; repeat split; congruence|].
  case_bool_decide as Hv; [cbn [fst snd]; repeat split; try congruence|]. destruct (Z.gtb_spec (GetSerializeSize t) MAX_BLOCK_SIZE) as [Hs|Hs].
  { cbn [fst snd]. repeat split; try congruence; try (by intros [|]); intros; exfalso; intuition lia. }
  destruct (check_outputs t 0 (vout t)) as [r|] eqn:Ec.
  { pose proof (check_outputs_score _ _ _ _ Ec) as ->. cbn [fst snd]. repeat split; try congruence; try (by intros [|]); intros; exfalso; intuition congruence. }
  assert (q : Q) by intuition lia. destruct (has_duplicate [] (i :: v)); [cbn [fst snd]; repeat split; try congruence; try (by intros [|]); intros; exfalso; intuition congruence|].
  assert (p : P) by intuition. destruct (IsCoinBase t); case_match; cbn [fst snd]; repeat split; try congruence; try (by intros [|]); intros; exfalso; intuition congruence.
Qed.

Lemma CheckTransaction_ok t : tx_ok t →
  ((CheckTransaction t).1 = true ↔
   vin t ≠ [] ∧ vout t ≠ [] ∧ GetSerializeSize t <= MAX_BLOCK_SIZE ∧
   values_ok (vout t) ∧ total (vout t) <= MAX_MONEY ∧
   (IsCoinBase t || IsCoinStake t = true ∨ Forall (λ o, CTxOut_IsEmpty o = false) (vout t)) ∧
   NoDup (map prevout (vin t)) ∧
   (if IsCoinBase t
    then ∃ i, head (vin t) = Some i ∧ (2 <= length (scriptSig i) <= 100)%nat
    else Forall (λ i, COutPoint_IsNull (prevout i) = false) (vin t))) ∧
  ((CheckTransaction t).1 = true → GetValueOut t = Some (total (vout t))).
Proof.
  intros [_ _ [_ Hi] [_ Ho] _]. apply values_max in Ho.
  assert (Hout := check_outputs_ok t 0 (vout t) ltac:(unfold MAX_MONEY; lia) Ho).
  assert (Hdup := has_duplicate_ok [] (vin t) ltac:(constructor) Hi).
  assert (Hval := value_loop_ok 0 (vout t) ltac:(unfold MAX_MONEY; lia) Ho). rewrite !Z.add_0_l in *.
  assert (Hnull : existsb (λ i, COutPoint_IsNull (prevout i)) (vin t) = false ↔
                  Forall (λ i, COutPoint_IsNull (prevout i) = false) (vin t)).
  { rewrite <- not_true_iff_false, existsb_exists, List.Forall_forall. split.
    - intros H i Hin. apply not_true_iff_false. eauto.
    - intros H (i & Hin & Hn). rewrite H in Hn; done. }
  assert (Hiff : (CheckTransaction t).1 = true ↔
    (vin t ≠ [] ∧ vout t ≠ [] ∧ GetSerializeSize t <= MAX_BLOCK_SIZE ∧ check_outputs t 0 (vout t) = None ∧
     has_duplicate [] (vin t) = false ∧
     (if IsCoinBase t then ∃ i, head (vin t) = Some i ∧ (2 <= length (scriptSig i) <= 100)%nat
      else existsb (λ i, COutPoint_IsNull (prevout i)) (vin t) = false))).
  { clear Hout Hdup Hval Hnull Hi Ho. unfold CheckTransaction. destruct (vin t) as [|i v]; cbn [fst]; [naive_solver|].
    case_bool_decide; cbn [fst]; [naive_solver|].
    destruct (Z.gtb_spec (GetSerializeSize t) MAX_BLOCK_SIZE); cbn [fst]; [naive_solver lia|].
    destruct (check_outputs t 0 (vout t)) as [[r d]|] eqn:E.
    { split; [|naive_solver]. intros Hr. assert (check_outputs t 0 (vout t) ≠ Some (true, d)) as [].
      { apply check_outputs_false. }
      cbn in Hr. congruence. }
    destruct (has_duplicate [] (i :: v)); cbn [fst]; [naive_solver|]. cbn [head].
    destruct (IsCoinBase t).
    - destruct ((Z.of_nat (length (scriptSig i)) <? 2) || (Z.of_nat (length (scriptSig i)) >? 100)) eqn:Es; cbn [fst].
      + split; [done|]. intros (_ & _ & _ & _ & _ & j & [= <-] & Hj). lia.
      + split; [|done]. intros _. repeat split; auto. exists i. split; [done|]. lia.
    - destruct (existsb _ (i :: v)); naive_solver. }
  split.
  - assert (Hnil : Forall (λ i, prevout i ∉ []) (vin t)).
    { apply Forall_forall. intros i _. apply not_elem_of_nil. }
    rewrite Hiff, Hout, Hdup. destruct (IsCoinBase t); rewrite ?Hnull; tauto.
  - rewrite Hiff, Hout. intros (_ & _ & _ & (Hv & Ht & _) & _). unfold GetValueOut. rewrite Hval.
    rewrite bool_decide_eq_true_2; done.
Qed.

(** ** Properties *)

(** A transaction used by the witnesses: two inputs, two outputs *)
Definition sample_tx : CTransaction :=
  mkTx 1 1400000000
    [mkTxIn (mkOutPoint [1; 2; 3; 4; 5; 6; 7; 8] 0) [81] 7;
     mkTxIn (mkOutPoint [1; 2; 3; 4; 5; 6; 7; 8] 1) [82; 83] 9]
    [mkTxOut 5000 [118; 169]; mkTxOut (2 ^ 62) [172]] 0.

(** Serialization of transactions: a transaction whose fields fit their C++
    types is read back exactly, whatever follows it in the stream, and
    [GetSerializeSize] announces its length (as an [unsigned int]). *)
Theorem CTransaction_roundtrip t rest : tx_ok t →
  Unserialize (Serialize t ++ rest) = Some (t, rest) ∧
  GetSerializeSize t = u32 (Z.of_nat (length (Serialize t))).
Proof. intros Ht. split; [apply codec_roundtrip | apply codec_size]; done. Qed.

Lemma CTransaction_roundtrip_witness :
  Unserialize (Serialize sample_tx ++ [1]) = Some (sample_tx, [1]) ∧
  GetSerializeSize sample_tx = u32 (Z.of_nat (length (Serialize sample_tx))).
Proof. apply CTransaction_roundtrip. apply tx_okb_ok. reflexivity. Defined.

(** [GetValueOut] is the exact sum of the outputs, or throws: it throws just
    when an output is negative or the sum exceeds [MAX_MONEY].  Since
    [MAX_MONEY] is the largest [int64_t], this rests on the wrap-around of the
    running total. *)
Theorem GetValueOut_exact t : Forall txout_ok (vout t) →
  GetValueOut t =
  if bool_decide (values_ok (vout t) ∧ total (vout t) <= MAX_MONEY) then Some (total (vout t)) else None.
Proof.
  intros Hv. unfold GetValueOut. rewrite value_loop_ok; [done| |by apply values_max].
  unfold MAX_MONEY. lia.
Qed.

Lemma GetValueOut_exact_witness :
  GetValueOut sample_tx =
  if bool_decide (values_ok (vout sample_tx) ∧ total (vout sample_tx) <= MAX_MONEY)
  then Some (total (vout sample_tx)) else None.
Proof. apply GetValueOut_exact. apply (tx_okb_ok sample_tx). reflexivity. Defined.

(** C33. [CheckTransaction] accepts exactly the transactions with inputs and
    outputs, within the block size, whose outputs are non-negative with a total
    that does not overflow, non-empty unless the transaction is a coinbase or
    coinstake, whose inputs are pairwise distinct, and which are either a
    coinbase with a script of 2 to 100 bytes or have no null input; on those
    [GetValueOut] does not throw.  The score of the others is that of the first rule
    they break: 10 without inputs or outputs, 100 for the size and the outputs, none
    for repeated inputs, then 100 for the script of a coinbase and 10 for a null
    input. *)
Theorem CheckTransaction_spec t : tx_ok t →
  ((CheckTransaction t).1 = true ↔
   vin t ≠ [] ∧ vout t ≠ [] ∧ GetSerializeSize t <= MAX_BLOCK_SIZE ∧
   values_ok (vout t) ∧ total (vout t) <= MAX_MONEY ∧
   (IsCoinBase t || IsCoinStake t = true ∨ Forall (λ o, CTxOut_IsEmpty o = false) (vout t)) ∧
   NoDup (map prevout (vin t)) ∧
   (if IsCoinBase t
    then ∃ i, head (vin t) = Some i ∧ (2 <= length (scriptSig i) <= 100)%nat
    else Forall (λ i, COutPoint_IsNull (prevout i) = false) (vin t))) ∧
  ((CheckTransaction t).1 = true → GetValueOut t = Some (total (vout t))) ∧
  ((vin t = [] ∨ vout t = []) → (CheckTransaction t).2 = 10) ∧
  (vin t ≠ [] → vout t ≠ [] → ¬ outputs_fit t → (CheckTransaction t).2 = 100) ∧
  (vin t ≠ [] → vout t ≠ [] → outputs_fit t → ¬ NoDup (map prevout (vin t)) → (CheckTransaction t).2 = 0) ∧
  (vin t ≠ [] → vout t ≠ [] → outputs_fit t → NoDup (map prevout (vin t)) → (CheckTransaction t).1 = false → (CheckTransaction t).2 = if IsCoinBase t then 100 else 10) ∧
  ((CheckTransaction t).1 = true → (CheckTransaction t).2 = 0).
Proof. intros H. destruct (CheckTransaction_ok t H) as [H1 H2]. split; [exact H1|]. split; [exact H2|]. by apply CheckTransaction_score. Qed.

Lemma CheckTransaction_spec_witness :
  (CheckTransaction sample_tx).1 = true ∧ GetValueOut sample_tx = Some (total (vout sample_tx)).
Proof. split; [reflexivity|]. apply CheckTransaction_spec; [apply tx_okb_ok; reflexivity|reflexivity]. Defined.

(** Replacement order: a transaction is newer than another one spending the
    same outpoints exactly when, over the inputs whose sequence numbers differ,
    some number of the old transaction is below every number of the new one. *)
Theorem IsNewerThan_spec t old : tx_ok t → tx_ok old →
  IsNewerThan t old = true ↔
  map prevout (vin t) = map prevout (vin old) ∧
  ∃ q, In q (differing (vin t) (vin old)) ∧ ∀ p, In p (differing (vin t) (vin old)) → q.2 < p.1.
Proof.
  intros [_ _ [_ Ht] _ _] [_ _ [_ Ho] _ _]. unfold IsNewerThan.
  destruct (Nat.eqb_spec (length (vin t)) (length (vin old))) as [Hl|Hl]; cbn [negb].
  2: { split; [done|]. intros [E _]. apply (f_equal length) in E. rewrite !length_map in E. done. }
  rewrite same_prevouts by done. case_bool_decide as E; cbn [negb]; [|naive_solver].
  rewrite newer_loop_ok by done. split.
  - intros [[? _]|(q & Hq & _ & Hp)]; [done|]. eauto.
  - intros (_ & q & Hq & Hp). right. exists q. split; [done|]. split; [|done].
    specialize (Hp q Hq). unfold UINT_MAX. destruct (differing_range _ _ q Ht Hq). lia.
Qed.

Lemma IsNewerThan_spec_witness :
  IsNewerThan sample_tx sample_tx = true ↔
  map prevout (vin sample_tx) = map prevout (vin sample_tx) ∧
  ∃ q, In q (differing (vin sample_tx) (vin sample_tx)) ∧
       ∀ p, In p (differing (vin sample_tx) (vin sample_tx)) → q.2 < p.1.
Proof. apply IsNewerThan_spec; apply tx_okb_ok; reflexivity. Defined.

(** The minimum fee: for a transaction that fits a block, [GetMinFee] never
    overflows and is exactly the size fee plus one base fee per dust output,
    scaled by congestion; it is a valid amount, charges every dust output even
    where the transaction is otherwise free, and does not decrease as the block
    fills up. *)
Theorem GetMinFee_ok t s1 s2 fAllowFree mode nBytes :
  0 <= s1 <= s2 → 0 <= nBytes → s2 + nBytes < 2 ^ 32 → Z.of_nat (length (vout t)) <= MAX_BLOCK_SIZE →
  let fee s := GetMinFee t s fAllowFree mode nBytes in
  fee s1 = fee_spec t s1 fAllowFree mode nBytes ∧ 0 <= fee s1 <= MAX_MONEY ∧
  base_fee t mode * dust (vout t) <= fee s1 ∧ (s1 ≠ 1 → s2 ≠ 1 → fee s1 <= fee s2).
Proof.
  cbv zeta. intros Hs Hb Hsb Hv.
  destruct (GetMinFee_spec t s1 fAllowFree mode nBytes) as [E1 R1]; [lia..|].
  destruct (GetMinFee_spec t s2 fAllowFree mode nBytes) as [E2 R2]; [lia..|].
  rewrite E1, E2. split; [done|]. split; [done|].
  assert (Hf := base_fee_range t mode). assert (Hd := dust_bound (vout t)).
  assert (0 <= nBytes / 1000) by (apply Z.div_pos; lia).
  assert (HM : base_fee t mode * dust (vout t) <= MAX_MONEY) by (unfold MAX_MONEY, CENT, MAX_BLOCK_SIZE in *; nia).
  split.
  - unfold fee_spec. destruct (congestion s1 (s1 + nBytes)) as [k|] eqn:Ek; [|done].
    assert (1 <= k).
    { unfold congestion in Ek. destruct ((s1 =? 1) || _) eqn:Eo; [simplify_eq; lia|].
      destruct (Z.leb_spec MAX_BLOCK_SIZE_GEN (s1 + nBytes)); simplify_eq.
      apply orb_false_iff in Eo as [_ Eo]. apply Z.ltb_ge in Eo. change MAX_BLOCK_SIZE_GEN with 500000 in *.
      apply Z.div_le_lower_bound; lia. }
    destruct (fAllowFree && is_free s1 nBytes); nia.
  - intros H1 H2. assert (Hc := congestion_mono s1 s2 nBytes H1 H2 Hs Hb). revert R1 R2. unfold fee_spec.
    destruct (congestion s1 (s1 + nBytes)) as [k1|], (congestion s2 (s2 + nBytes)) as [k2|]; try done; try lia.
    intros _ _. assert ((if fAllowFree && is_free s1 nBytes then 0 else 1 + nBytes / 1000) <=
      (if fAllowFree && is_free s2 nBytes then 0 else 1 + nBytes / 1000)).
    { unfold is_free. rewrite (proj2 (Z.eqb_neq s1 1)), (proj2 (Z.eqb_neq s2 1)) by done.
      destruct fAllowFree; cbn [andb]; [|lia].
      destruct (Z.ltb_spec (s1 + nBytes) 27000), (Z.ltb_spec (s2 + nBytes) 27000); lia. }
    assert (0 <= (if fAllowFree && is_free s1 nBytes then 0 else 1 + nBytes / 1000)) by (destruct (_ && _); lia).
    apply Z.mul_le_mono_nonneg; nia.
Qed.

Lemma GetMinFee_ok_witness :
  let fee s := GetMinFee sample_tx s true GMF_RELAY 300 in
  fee 1000 = fee_spec sample_tx 1000 true GMF_RELAY 300 ∧ 0 <= fee 1000 <= MAX_MONEY ∧
  base_fee sample_tx GMF_RELAY * dust (vout sample_tx) <= fee 1000 ∧ (1000 ≠ 1 → 400000 ≠ 1 → fee 1000 <= fee 400000).
Proof. apply GetMinFee_ok; vm_compute; repeat split; congruence. Defined.
