(* ===== verification/Script.v ===== *)
(** * Scripts (src/script.h, src/script.cpp)

    The byte code: opcodes, the instruction decoder [GetOp], the builders
    ([operator<<]), the static analyses that walk a script without running it,
    and the encoding checks on public keys and signatures.  A script is the list
    of its bytes; an iterator is the suffix that remains. *)

From stdpp Require Import base list numbers option.
From Stdlib Require Import ZArith Lia.
From S2P Require Import Prelude Uint256 Bignum Serialize Tx.

Open Scope Z_scope.

Definition MAX_SCRIPT_ELEMENT_SIZE : Z := 520.
Definition SEQUENCE_FINAL : Z := 0xffffffff.
Definition SEQUENCE_LOCKTIME_DISABLE_FLAG : Z := 0x80000000.
Definition SEQUENCE_LOCKTIME_TYPE_FLAG : Z := 0x00400000.
Definition SEQUENCE_LOCKTIME_MASK : Z := 0x0000ffff.

(** Signature hash types *)
Definition SIGHASH_ALL : Z := 1.
Definition SIGHASH_NONE : Z := 2.
Definition SIGHASH_SINGLE : Z := 3.
Definition SIGHASH_ANYONECANPAY : Z := 0x80.

(** Script verification flags *)
Definition SCRIPT_VERIFY_NONE : Z := 0.
Definition SCRIPT_VERIFY_P2SH : Z := Z.shiftl 1 0.
Definition SCRIPT_VERIFY_STRICTENC : Z := Z.shiftl 1 1.
Definition SCRIPT_VERIFY_LOW_S : Z := Z.shiftl 1 2.
Definition SCRIPT_VERIFY_NOCACHE : Z := Z.shiftl 1 3.
Definition SCRIPT_VERIFY_NULLDUMMY : Z := Z.shiftl 1 4.
Definition SCRIPT_VERIFY_CHECKLOCKTIMEVERIFY : Z := Z.shiftl 1 9.
Definition SCRIPT_VERIFY_CHECKSEQUENCEVERIFY : Z := Z.shiftl 1 10.
Definition has_flag (flags f : Z) : bool := negb (Z.land flags f =? 0).

(** ** Opcodes *)

Definition OP_0 : Z := 0x00.
Definition OP_FALSE : Z := OP_0.
Definition OP_PUSHDATA1 : Z := 0x4c.
Definition OP_PUSHDATA2 : Z := 0x4d.
Definition OP_PUSHDATA4 : Z := 0x4e.
Definition OP_1NEGATE : Z := 0x4f.
Definition OP_RESERVED : Z := 0x50.
Definition OP_1 : Z := 0x51.
Definition OP_TRUE : Z := OP_1.
Definition OP_2 : Z := 0x52.
Definition OP_3 : Z := 0x53.
Definition OP_4 : Z := 0x54.
Definition OP_5 : Z := 0x55.
Definition OP_6 : Z := 0x56.
Definition OP_7 : Z := 0x57.
Definition OP_8 : Z := 0x58.
Definition OP_9 : Z := 0x59.
Definition OP_10 : Z := 0x5a.
Definition OP_11 : Z := 0x5b.
Definition OP_12 : Z := 0x5c.
Definition OP_13 : Z := 0x5d.
Definition OP_14 : Z := 0x5e.
Definition OP_15 : Z := 0x5f.
Definition OP_16 : Z := 0x60.
Definition OP_NOP : Z := 0x61.
Definition OP_VER : Z := 0x62.
Definition OP_IF : Z := 0x63.
Definition OP_NOTIF : Z := 0x64.
Definition OP_VERIF : Z := 0x65.
Definition OP_VERNOTIF : Z := 0x66.
Definition OP_ELSE : Z := 0x67.
Definition OP_ENDIF : Z := 0x68.
Definition OP_VERIFY : Z := 0x69.
Definition OP_RETURN : Z := 0x6a.
Definition OP_CHECKLOCKTIMEVERIFY : Z := 0xb1.
Definition OP_CHECKSEQUENCEVERIFY : Z := 0xb2.
Definition OP_TOALTSTACK : Z := 0x6b.
Definition OP_FROMALTSTACK : Z := 0x6c.
Definition OP_2DROP : Z := 0x6d.
Definition OP_2DUP : Z := 0x6e.
Definition OP_3DUP : Z := 0x6f.
Definition OP_2OVER : Z := 0x70.
Definition OP_2ROT : Z := 0x71.
Definition OP_2SWAP : Z := 0x72.
Definition OP_IFDUP : Z := 0x73.
Definition OP_DEPTH : Z := 0x74.
Definition OP_DROP : Z := 0x75.
Definition OP_DUP : Z := 0x76.
Definition OP_NIP : Z := 0x77.
Definition OP_OVER : Z := 0x78.
Definition OP_PICK : Z := 0x79.
Definition OP_ROLL : Z := 0x7a.
Definition OP_ROT : Z := 0x7b.
Definition OP_SWAP : Z := 0x7c.
Definition OP_TUCK : Z := 0x7d.
Definition OP_CAT : Z := 0x7e.
Definition OP_SUBSTR : Z := 0x7f.
Definition OP_LEFT : Z := 0x80.
Definition OP_RIGHT : Z := 0x81.
Definition OP_SIZE : Z := 0x82.
Definition OP_INVERT : Z := 0x83.
Definition OP_AND : Z := 0x84.
Definition OP_OR : Z := 0x85.
Definition OP_XOR : Z := 0x86.
Definition OP_EQUAL : Z := 0x87.
Definition OP_EQUALVERIFY : Z := 0x88.
Definition OP_RESERVED1 : Z := 0x89.
Definition OP_RESERVED2 : Z := 0x8a.
Definition OP_1ADD : Z := 0x8b.
Definition OP_1SUB : Z := 0x8c.
Definition OP_2MUL : Z := 0x8d.
Definition OP_2DIV : Z := 0x8e.
Definition OP_NEGATE : Z := 0x8f.
Definition OP_ABS : Z := 0x90.
Definition OP_NOT : Z := 0x91.
Definition OP_0NOTEQUAL : Z := 0x92.
Definition OP_ADD : Z := 0x93.
Definition OP_SUB : Z := 0x94.
Definition OP_MUL : Z := 0x95.
Definition OP_DIV : Z := 0x96.
Definition OP_MOD : Z := 0x97.
Definition OP_LSHIFT : Z := 0x98.
Definition OP_RSHIFT : Z := 0x99.
Definition OP_BOOLAND : Z := 0x9a.
Definition OP_BOOLOR : Z := 0x9b.
Definition OP_NUMEQUAL : Z := 0x9c.
Definition OP_NUMEQUALVERIFY : Z := 0x9d.
Definition OP_NUMNOTEQUAL : Z := 0x9e.
Definition OP_LESSTHAN : Z := 0x9f.
Definition OP_GREATERTHAN : Z := 0xa0.
Definition OP_LESSTHANOREQUAL : Z := 0xa1.
Definition OP_GREATERTHANOREQUAL : Z := 0xa2.
Definition OP_MIN : Z := 0xa3.
Definition OP_MAX : Z := 0xa4.
Definition OP_WITHIN : Z := 0xa5.
Definition OP_RIPEMD160 : Z := 0xa6.
Definition OP_SHA1 : Z := 0xa7.
Definition OP_SHA256 : Z := 0xa8.
Definition OP_HASH160 : Z := 0xa9.
Definition OP_HASH256 : Z := 0xaa.
Definition OP_CODESEPARATOR : Z := 0xab.
Definition OP_CHECKSIG : Z := 0xac.
Definition OP_CHECKSIGVERIFY : Z := 0xad.
Definition OP_CHECKMULTISIG : Z := 0xae.
Definition OP_CHECKMULTISIGVERIFY : Z := 0xaf.
Definition OP_NOP1 : Z := 0xb0.
Definition OP_NOP4 : Z := 0xb3.
Definition OP_NOP5 : Z := 0xb4.
Definition OP_NOP6 : Z := 0xb5.
Definition OP_NOP7 : Z := 0xb6.
Definition OP_NOP8 : Z := 0xb7.
Definition OP_NOP9 : Z := 0xb8.
Definition OP_NOP10 : Z := 0xb9.
Definition OP_SMALLDATA : Z := 0xf9.
Definition OP_SMALLINTEGER : Z := 0xfa.
Definition OP_PUBKEYS : Z := 0xfb.
Definition OP_INTEGER : Z := 0xfc.
Definition OP_PUBKEYHASH : Z := 0xfd.
Definition OP_PUBKEY : Z := 0xfe.
Definition OP_INVALIDOPCODE : Z := 0xff.

(** ** Decoding *)

(** [GetOp2]: the opcode, its immediate operand and the iterator after it *)
Definition GetOp (pc : list Z) : option (Z * list Z * list Z) :=
  match pc with
  | [] => None
  | opcode :: pc =>
      if opcode <=? OP_PUSHDATA4 then
        '(nSize, pc) ←
          (if opcode <? OP_PUSHDATA1 then Some (opcode, pc)
           else if opcode =? OP_PUSHDATA1 then read_uint 1 pc
           else if opcode =? OP_PUSHDATA2 then read_uint 2 pc
           else read_uint 4 pc);
        if Z.of_nat (length pc) <? nSize then None
        else Some (opcode, take (Z.to_nat nSize) pc, drop (Z.to_nat nSize) pc)
      else Some (opcode, [], pc)
  end.

(** The asserts of the two functions are [None]. *)
Definition DecodeOP_N (opcode : Z) : option Z :=
  if opcode =? OP_0 then Some 0
  else if (OP_1 <=? opcode) && (opcode <=? OP_16) then Some (opcode - (OP_1 - 1)) else None.
Definition EncodeOP_N (n : Z) : option Z :=
  if (0 <=? n) && (n <=? 16) then (if n =? 0 then Some OP_0 else Some (OP_1 + n - 1)) else None.

(** ** Building *)

Definition push_opcode (script : list Z) (opcode : Z) : option (list Z) :=
  if (opcode <? 0) || (opcode >? 0xff) then None else Some (script ++ [opcode]).

Definition push_vector (script b : list Z) : list Z :=
  let size := Z.of_nat (length b) in
  (if size <? OP_PUSHDATA1 then script ++ [u8 size]
   else if size <=? 0xff then script ++ [OP_PUSHDATA1] ++ [u8 size]
   else if size <=? 0xffff then script ++ [OP_PUSHDATA2] ++ write_int 2 size
   else script ++ [OP_PUSHDATA4] ++ write_int 4 size) ++ b.

(** [operator<<(uint160)] and [operator<<(uint256)]: the size byte, the bytes *)
Definition push_uint (script : list Z) (b : base_uint) : list Z :=
  script ++ [u8 (Z.of_nat (4 * length b))] ++ getBytes b.

Definition push_int64 `{OpenSSL_BN} (script : list Z) (n : Z) : list Z :=
  if (n =? -1) || ((1 <=? n) && (n <=? 16)) then script ++ [u8 (u8 n + (OP_1 - 1))]
  else push_vector script (getvch (CBigNum_int64 n)).
Definition push_uint64 `{OpenSSL_BN} (script : list Z) (n : Z) : list Z :=
  if (1 <=? n) && (n <=? 16) then script ++ [u8 (u8 n + (OP_1 - 1))]
  else push_vector script (getvch (CBigNum_uint64 n)).

(** ** Walking a script

    Every loop consumes at least one byte per turn: the length of the script is
    enough fuel. *)

Fixpoint starts_with (b s : list Z) : bool :=
  match b, s with
  | [], _ => true
  | x :: b, y :: s => (x =? y) && starts_with b s
  | _ :: _, [] => false
  end.

(** [FindAndDelete]: the bytes behind the iterator, the number of matches *)
Fixpoint delete_here (fuel : nat) (b pc : list Z) : list Z * Z :=
  match fuel with
  | O => (pc, 0)
  | S fuel =>
      if starts_with b pc then
        let '(pc, nFound) := delete_here fuel b (drop (length b) pc) in (pc, nFound + 1)
      else (pc, 0)
  end.
Fixpoint delete_loop (fuel : nat) (b pc : list Z) : list Z * Z :=
  let '(pc, n1) := delete_here (S (length pc)) b pc in
  match fuel with
  | O => (pc, n1)
  | S fuel =>
      match GetOp pc with
      | None => (pc, n1)
      | Some (_, _, rest) =>
          let '(tail, n2) := delete_loop fuel b rest in
          (take (length pc - length rest) pc ++ tail, n1 + n2)
      end
  end.
Definition FindAndDelete (script b : list Z) : list Z * Z :=
  if bool_decide (b = []) then (script, 0) else delete_loop (length script) b script.

Fixpoint find_loop (fuel : nat) (op : Z) (pc : list Z) (nFound : Z) : Z :=
  match fuel with
  | O => nFound
  | S fuel =>
      match GetOp pc with
      | None => nFound
      | Some (opcode, _, pc) => find_loop fuel op pc (if opcode =? op then nFound + 1 else nFound)
      end
  end.
Definition Find (script : list Z) (op : Z) : Z := find_loop (length script) op script 0.

Fixpoint pushonly_loop (fuel : nat) (pc : list Z) : bool :=
  match fuel, pc with
  | _, [] => true
  | O, _ => false
  | S fuel, _ =>
      match GetOp pc with
      | None => false
      | Some (opcode, _, pc) => if opcode >? OP_16 then false else pushonly_loop fuel pc
      end
  end.
Definition IsPushOnly (script : list Z) : bool := pushonly_loop (length script) script.

Fixpoint canonical_loop (fuel : nat) (pc : list Z) : bool :=
  match fuel, pc with
  | _, [] => true
  | O, _ => false
  | S fuel, _ =>
      match GetOp pc with
      | None => false
      | Some (opcode, data, pc) =>
          let size := Z.of_nat (length data) in
          if opcode >? OP_16 then canonical_loop fuel pc
          else if (opcode <? OP_PUSHDATA1) && (opcode >? OP_0) && ((size =? 1) && (nth 0 data 0 <=? 16)) then false
          else if (opcode =? OP_PUSHDATA1) && (size <? OP_PUSHDATA1) then false
          else if (opcode =? OP_PUSHDATA2) && (size <=? 0xFF) then false
          else if (opcode =? OP_PUSHDATA4) && (size <=? 0xFFFF) then false
          else canonical_loop fuel pc
      end
  end.
Definition HasCanonicalPushes (script : list Z) : bool := canonical_loop (length script) script.

Fixpoint sigop_loop (fuel : nat) (fAccurate : bool) (pc : list Z) (lastOpcode n : Z) : Z :=
  match fuel with
  | O => n
  | S fuel =>
      match GetOp pc with
      | None => n
      | Some (opcode, _, pc) =>
          let n :=
            if (opcode =? OP_CHECKSIG) || (opcode =? OP_CHECKSIGVERIFY) then u32 (n + 1)
            else if (opcode =? OP_CHECKMULTISIG) || (opcode =? OP_CHECKMULTISIGVERIFY) then
              if fAccurate && (lastOpcode >=? OP_1) && (lastOpcode <=? OP_16)
              then u32 (n + default 0 (DecodeOP_N lastOpcode))
              else u32 (n + 20)
            else n in
          sigop_loop fuel fAccurate pc opcode n
      end
  end.
Definition GetSigOpCount (script : list Z) (fAccurate : bool) : Z :=
  sigop_loop (length script) fAccurate script OP_INVALIDOPCODE 0.

Definition IsPayToScriptHash (script : list Z) : bool :=
  (length script =? 23)%nat && (nth 0 script 0 =? OP_HASH160) && (nth 1 script 0 =? 0x14) &&
  (nth 22 script 0 =? OP_EQUAL).

(** The last push of a push-only script; [None] is the early [return 0] *)
Fixpoint last_push (fuel : nat) (pc data : list Z) : option (list Z) :=
  match fuel, pc with
  | _, [] => Some data
  | O, _ => None
  | S fuel, _ =>
      match GetOp pc with
      | None => None
      | Some (opcode, data, pc) => if opcode >? OP_16 then None else last_push fuel pc data
      end
  end.
Definition GetSigOpCount_p2sh (script scriptSig : list Z) : Z :=
  if negb (IsPayToScriptHash script) then GetSigOpCount script true
  else match last_push (length scriptSig) scriptSig [] with
       | None => 0
       | Some subscript => GetSigOpCount subscript true
       end.

(** ** Encoding checks *)

(** [CompareBigEndian] of src/key.cpp *)
Fixpoint skip_high (n : nat) (c : list Z) : option (list Z) :=
  match n with
  | O => Some c
  | S n => match c with x :: c => if x =? 0 then skip_high n c else None | [] => Some [] end
  end.
Fixpoint cmp_bytes (c1 c2 : list Z) : Z :=
  match c1, c2 with
  | x :: c1, y :: c2 => if x >? y then 1 else if y >? x then -1 else cmp_bytes c1 c2
  | _, _ => 0
  end.
Definition CompareBigEndian (c1 c2 : list Z) : Z :=
  match skip_high (length c1 - length c2) c1 with
  | None => 1
  | Some c1 =>
      match skip_high (length c2 - length c1) c2 with
      | None => -1
      | Some c2 => cmp_bytes c1 c2
      end
  end.

Definition vchMaxModOrder : list Z :=
  [0xFF;0xFF;0xFF;0xFF;0xFF;0xFF;0xFF;0xFF;
   0xFF;0xFF;0xFF;0xFF;0xFF;0xFF;0xFF;0xFE;
   0xBA;0xAE;0xDC;0xE6;0xAF;0x48;0xA0;0x3B;
   0xBF;0xD2;0x5E;0x8C;0xD0;0x36;0x41;0x40].
Definition vchMaxModHalfOrder : list Z :=
  [0x7F;0xFF;0xFF;0xFF;0xFF;0xFF;0xFF;0xFF;
   0xFF;0xFF;0xFF;0xFF;0xFF;0xFF;0xFF;0xFF;
   0x5D;0x57;0x6E;0x73;0x57;0xA4;0x50;0x1D;
   0xDF;0xE9;0x2F;0x46;0x68;0x1B;0x20;0xA0].
Definition CheckSignatureElement (vch : list Z) (half : bool) : bool :=
  (CompareBigEndian vch [] >? 0) &&
  (CompareBigEndian vch (if half then vchMaxModHalfOrder else vchMaxModOrder) <=? 0).

Definition IsCanonicalPubKey (vchPubKey : list Z) (flags : Z) : bool :=
  if negb (has_flag flags SCRIPT_VERIFY_STRICTENC) then true
  else
    let size := Z.of_nat (length vchPubKey) in
    let b0 := nth 0 vchPubKey 0 in
    if size <? 33 then false
    else if b0 =? 0x04 then size =? 65
    else if (b0 =? 0x02) || (b0 =? 0x03) then size =? 33
    else false.

Definition IsDERSignature (vchSig : list Z) (fWithHashType fCheckLow : bool) : bool :=
  let size := Z.of_nat (length vchSig) in
  let at_ i := nth (Z.to_nat i) vchSig 0 in
  if size <? 9 then false
  else if size >? 73 then false
  else if negb (at_ 0 =? 0x30) then false
  else if negb (at_ 1 =? size - (if fWithHashType then 3 else 2)) then false
  else if fWithHashType &&
          (let nHashType := Z.land (at_ (size - 1)) (Z.lnot SIGHASH_ANYONECANPAY) in
           (nHashType <? SIGHASH_ALL) || (nHashType >? SIGHASH_SINGLE)) then false
  else
    let nLenR := at_ 3 in
    if size <=? 5 + nLenR then false
    else
      let nLenS := at_ (5 + nLenR) in
      if negb (nLenR + nLenS + (if fWithHashType then 7 else 6) =? size) then false
      else
        let R i := at_ (4 + i) in
        if negb (R (-2) =? 0x02) then false
        else if nLenR =? 0 then false
        else if negb (Z.land (R 0) 0x80 =? 0) then false
        else if (nLenR >? 1) && (R 0 =? 0x00) && (Z.land (R 1) 0x80 =? 0) then false
        else
          let S i := at_ (6 + nLenR + i) in
          if negb (S (-2) =? 0x02) then false
          else if nLenS =? 0 then false
          else if negb (Z.land (S 0) 0x80 =? 0) then false
          else if (nLenS >? 1) && (S 0 =? 0x00) && (Z.land (S 1) 0x80 =? 0) then false
          else if fCheckLow then
            CheckSignatureElement (take (Z.to_nat nLenS) (drop (Z.to_nat (6 + nLenR)) vchSig)) true
          else true.

Definition IsCanonicalSignature (vchSig : list Z) (flags : Z) : bool :=
  if negb (has_flag flags SCRIPT_VERIFY_STRICTENC) then true
  else IsDERSignature vchSig true (has_flag flags SCRIPT_VERIFY_LOW_S).

(** ** Stack values *)

Definition nMaxNumSize : nat := 4.

(** [None] is the [runtime_error] *)
Definition CastToBigNum `{OpenSSL_BN} (vch : list Z) : option BIGNUM :=
  if (nMaxNumSize <? length vch)%nat then None else Some (setvch (getvch (setvch vch))).

Fixpoint CastToBool (vch : list Z) : bool :=
  match vch with
  | [] => false
  | x :: t =>
      if negb (x =? 0) then (if bool_decide (t = []) && (x =? 0x80) then false else true)
      else CastToBool t
  end.

(** ** Lock times *)

Definition CheckLockTime (nLockTime : Z) (txTo : CTransaction) (nIn : nat) : bool :=
  let txLockTime := Tx.nLockTime txTo in
  if negb (((txLockTime <? LOCKTIME_THRESHOLD) && (nLockTime <? LOCKTIME_THRESHOLD)) ||
           ((txLockTime >=? LOCKTIME_THRESHOLD) && (nLockTime >=? LOCKTIME_THRESHOLD))) then false
  else if nLockTime >? txLockTime then false
  else if SEQUENCE_FINAL =? nSequence (nth nIn (vin txTo) CTxIn_default) then false
  else true.

Definition CheckSequence (nSequence : Z) (txTo : CTransaction) (nIn : nat) : bool :=
  let txToSequence := Tx.nSequence (nth nIn (vin txTo) CTxIn_default) in
  if negb (Z.land txToSequence SEQUENCE_LOCKTIME_DISABLE_FLAG =? 0) then false
  else
    let nLockTimeMask := Z.lor SEQUENCE_LOCKTIME_TYPE_FLAG SEQUENCE_LOCKTIME_MASK in
    let txToSequenceMasked := Z.land txToSequence nLockTimeMask in
    let nSequenceMasked := Z.land nSequence nLockTimeMask in
    if negb (((txToSequenceMasked <? SEQUENCE_LOCKTIME_TYPE_FLAG) && (nSequenceMasked <? SEQUENCE_LOCKTIME_TYPE_FLAG)) ||
             ((txToSequenceMasked >=? SEQUENCE_LOCKTIME_TYPE_FLAG) && (nSequenceMasked >=? SEQUENCE_LOCKTIME_TYPE_FLAG)))
    then false
    else if nSequenceMasked >? txToSequenceMasked then false
    else true.

(** ** Decoding lemmas *)

Lemma read_uint_split k s v rest : read_uint k s = Some (v, rest) →
  s = take k s ++ rest ∧ length (take k s) = k ∧ v = dval 256 (take k s).
Proof.
  unfold read_uint, read_bytes. case_bool_decide as Hk; [|done]. cbn. intros [= <- <-].
  rewrite take_drop, length_take. split; [done|]. split; [lia|done].
Qed.

(** [GetOp] splits off a non-empty prefix, which holds the operand. *)
Lemma GetOp_split pc op data rest : GetOp pc = Some (op, data, rest) →
  ∃ hdr, pc = (op :: hdr) ++ data ++ rest.
Proof.
  destruct pc as [|b pc]; [done|]. cbn [GetOp]. destruct (b <=? OP_PUSHDATA4).
  2: { intros [= <- <- <-]. exists []. done. }
  intros H. apply bind_Some in H as ([nSize pc'] & Hs & H).
  destruct (Z.of_nat (length pc') <? nSize); [done|]. injection H as <- <- <-. rewrite take_drop.
  destruct (b <? OP_PUSHDATA1); [injection Hs as <- <-; by exists []|].
  destruct (b =? OP_PUSHDATA1); [|destruct (b =? OP_PUSHDATA2)];
    apply read_uint_split in Hs as (-> & _ & _); eexists (take _ pc); cbn; f_equal; rewrite take_drop; done.
Qed.

Lemma GetOp_shorter pc op data rest : GetOp pc = Some (op, data, rest) → (length rest < length pc)%nat.
Proof. intros H. apply GetOp_split in H as (hdr & ->). rewrite !length_app. cbn. lia. Qed.

Lemma GetOp_bytes pc op data rest : digits_ok 256 pc → GetOp pc = Some (op, data, rest) →
  0 <= op < 256 ∧ digits_ok 256 data ∧ digits_ok 256 rest.
Proof.
  intros Hd H. apply GetOp_split in H as (hdr & ->). rewrite !Forall_app, Forall_cons_iff in Hd. tauto.
Qed.

Lemma GetOp_data_small pc op data rest : digits_ok 256 pc → GetOp pc = Some (op, data, rest) →
  Z.of_nat (length data) < 2 ^ 32 ∧ (OP_PUSHDATA4 < op → data = []).
Proof.
  destruct pc as [|b pc]; [done|]. intros Hd. apply Forall_cons_iff in Hd as [Hb Hd]. cbn [GetOp].
  destruct (Z.leb_spec b OP_PUSHDATA4) as [Hle|Hgt]; [|intros [= <- <- <-]; done].
  intros H. apply bind_Some in H as ([nSize pc'] & Hs & H).
  destruct (Z.ltb_spec (Z.of_nat (length pc')) nSize); [done|]. injection H as <- <- <-. split; [|lia].
  rewrite length_take. assert (nSize < 2 ^ 32); [|lia].
  assert (Hread : ∀ k, (k <= 4)%nat → read_uint k pc = Some (nSize, pc') → nSize < 2 ^ 32).
  { intros k Hk E. apply read_uint_split in E as (_ & Hl & ->).
    assert (Hb' := dval_bound 256 (take k pc) ltac:(lia) ltac:(by apply Forall_take)). rewrite Hl in Hb'.
    assert (256 ^ Z.of_nat k <= 256 ^ Z.of_nat 4) by (apply Z.pow_le_mono_r; lia). cbn in *. lia. }
  destruct (b <? OP_PUSHDATA1); [injection Hs as <- <-; lia|].
  destruct (b =? OP_PUSHDATA1); [|destruct (b =? OP_PUSHDATA2)]; (eapply Hread; [|exact Hs]; lia).
Qed.

(** Decoding a pushed vector *)
Definition push_opcode_of (b : list Z) : Z :=
  let size := Z.of_nat (length b) in
  if size <? OP_PUSHDATA1 then size
  else if size <=? 0xff then OP_PUSHDATA1 else if size <=? 0xffff then OP_PUSHDATA2 else OP_PUSHDATA4.

Lemma take_drop_app (b rest : list Z) :
  take (Z.to_nat (Z.of_nat (length b))) (b ++ rest) = b ∧ drop (Z.to_nat (Z.of_nat (length b))) (b ++ rest) = rest.
Proof. rewrite Nat2Z.id, take_app_length, drop_app_length. done. Qed.

Lemma GetOp_sized k op size b rest : 0 <= size < 256 ^ Z.of_nat k → size = Z.of_nat (length b) →
  (op, k) = (OP_PUSHDATA1, 1%nat) ∨ (op, k) = (OP_PUSHDATA2, 2%nat) ∨ (op, k) = (OP_PUSHDATA4, 4%nat) →
  GetOp (op :: write_int k size ++ b ++ rest) = Some (op, b, rest).
Proof.
  intros Hs -> Ho. assert (Hr := read_uint_write k (Z.of_nat (length b)) (b ++ rest) Hs).
  assert (Hl : (Z.of_nat (length (b ++ rest)) <? Z.of_nat (length b)) = false) by (apply Z.ltb_ge; rewrite length_app; lia).
  destruct (take_drop_app b rest) as [Ht Hd].
  destruct Ho as [[= -> ->]|[[= -> ->]|[= -> ->]]]; unfold GetOp;
    cbn -[read_uint write_int Z.of_nat Z.to_nat app length]; rewrite Hr;
    cbn -[Z.ltb Z.to_nat Z.of_nat app length]; rewrite Hl, Ht, Hd; done.
Qed.

Lemma GetOp_push_vector b rest : Z.of_nat (length b) < 2 ^ 32 →
  GetOp (push_vector [] b ++ rest) = Some (push_opcode_of b, b, rest).
Proof.
  intros Hb. unfold push_vector, push_opcode_of. cbv zeta.
  destruct (Z.ltb_spec (Z.of_nat (length b)) OP_PUSHDATA1) as [H1|H1].
  { unfold OP_PUSHDATA1 in H1. rewrite u8_small by lia. cbn [app GetOp].
    rewrite (proj2 (Z.leb_le _ OP_PUSHDATA4)), (proj2 (Z.ltb_lt _ OP_PUSHDATA1)) by (unfold OP_PUSHDATA1, OP_PUSHDATA4; lia).
    cbn [mbind option_bind]. rewrite (proj2 (Z.ltb_ge _ _)) by (rewrite length_app; lia).
    destruct (take_drop_app b rest) as [-> ->]. done. }
  destruct (Z.leb_spec (Z.of_nat (length b)) 0xff) as [H2|H2].
  { assert ([u8 (Z.of_nat (length b))] = write_int 1 (Z.of_nat (length b))) as -> by done.
    cbn [app]. rewrite <- !app_assoc. apply GetOp_sized; [cbn; lia|done|auto]. }
  destruct (Z.leb_spec (Z.of_nat (length b)) 0xffff) as [H3|H3];
    cbn [app]; rewrite <- !app_assoc; (apply GetOp_sized; [cbn; lia|done|auto]).
Qed.

Lemma push_vector_app s b : push_vector s b = s ++ push_vector [] b.
Proof. unfold push_vector. cbv zeta. repeat case_match; cbn [app]; rewrite <- ?app_assoc; done. Qed.

(** A pushed 160- or 256-bit number is a push of its bytes. *)
Lemma push_uint_vector W s b : wf W b → (4 * Z.of_nat W < OP_PUSHDATA1) → push_uint s b = push_vector s (getBytes b).
Proof.
  intros Hb HW. destruct (getBytes_ok W b Hb) as (_ & Hl & _). unfold push_uint, push_vector. cbv zeta.
  rewrite Hl, (wf_length _ _ Hb). rewrite (proj2 (Z.ltb_lt _ _)) by lia. rewrite <- app_assoc. done.
Qed.

(** ** [FindAndDelete] *)

Lemma starts_with_app b s : starts_with b s = true ↔ ∃ t, s = b ++ t.
Proof.
  revert s. induction b as [|x b IH]; intros s; cbn.
  - split; [eauto|done].
  - destruct s as [|y s]; [split; [done|intros [? ?]; done]|].
    rewrite andb_true_iff, Z.eqb_eq, IH. split; [intros [-> [t ->]]; eauto|]. intros [t [= -> ->]]. eauto.
Qed.

Lemma starts_with_drop b s : starts_with b s = true → s = b ++ drop (length b) s.
Proof. intros [t ->]%starts_with_app. rewrite drop_app_length. done. Qed.

Lemma delete_here_ok fuel b pc : b ≠ [] → (length pc < fuel)%nat →
  let '(pc', n) := delete_here fuel b pc in
  0 <= n ∧ pc = concat (replicate (Z.to_nat n) b) ++ pc' ∧ starts_with b pc' = false.
Proof.
  intros Hb. revert pc. induction fuel as [|fuel IH]; intros pc Hf; [lia|]. cbn [delete_here].
  destruct (starts_with b pc) eqn:E; [|done].
  assert (Hpc := starts_with_drop _ _ E). assert (Hl := f_equal length Hpc). rewrite length_app in Hl.
  assert (length b ≠ 0%nat) by (destruct b; done).
  specialize (IH (drop (length b) pc) ltac:(lia)). destruct (delete_here fuel b _) as [pc' n].
  destruct IH as (Hn & HE & Hs). split; [lia|]. split; [|done]. rewrite Hpc, HE.
  replace (Z.to_nat (n + 1)) with (S (Z.to_nat n)) by lia. cbn. rewrite app_assoc. done.
Qed.

Lemma length_concat_replicate n (b : list Z) : length (concat (replicate n b)) = (n * length b)%nat.
Proof. induction n; cbn; [done|]. rewrite length_app. lia. Qed.

(** Deletion removes whole copies of [b] only, and none when [b] does not start
    at an instruction. *)
Lemma delete_loop_ok fuel b pc : b ≠ [] → (length pc <= fuel)%nat →
  let '(pc', n) := delete_loop fuel b pc in
  0 <= n ∧ Z.of_nat (length pc) = Z.of_nat (length pc') + n * Z.of_nat (length b) ∧ sublist pc' pc.
Proof.
  intros Hb. revert pc. induction fuel as [|fuel IH]; intros pc Hf; cbn [delete_loop];
    assert (Hh := delete_here_ok (S (length pc)) b pc Hb ltac:(lia));
    destruct (delete_here (S (length pc)) b pc) as [pc1 n1]; destruct Hh as (Hn & Hpc & _);
    assert (Hl := f_equal length Hpc); rewrite length_app, length_concat_replicate in Hl.
  - split; [done|]. split; [nia|]. rewrite Hpc. apply sublist_inserts_l. done.
  - destruct (GetOp pc1) as [[[op data] rest]|] eqn:E.
    2: { split; [done|]. split; [nia|]. rewrite Hpc. apply sublist_inserts_l. done. }
    assert (Hr := GetOp_shorter _ _ _ _ E). specialize (IH rest ltac:(lia)).
    destruct (delete_loop fuel b rest) as [tail n2]. destruct IH as (Hn2 & Hl2 & Hs2).
    apply GetOp_split in E as (hdr & E). rewrite app_assoc in E.
    assert (Ht : take (length pc1 - length rest) pc1 = (op :: hdr) ++ data).
    { rewrite E at 2. rewrite take_app_length'; [done|]. rewrite E, length_app. lia. }
    rewrite Ht. split; [lia|]. split.
    + rewrite length_app. rewrite E, length_app in Hl. nia.
    + rewrite Hpc, E. apply sublist_inserts_l. apply sublist_app; done.
Qed.

(** ** Signature operations *)

Lemma sigop_loop_bounds fuel pc last n m : (length pc <= fuel)%nat → 0 <= n <= m →
  m + 20 * Z.of_nat (length pc) < 2 ^ 32 →
  0 <= sigop_loop fuel true pc last n <= sigop_loop fuel false pc last m ∧
  sigop_loop fuel false pc last m <= m + 20 * Z.of_nat (length pc).
Proof.
  revert pc last n m. induction fuel as [|fuel IH]; intros pc last n m Hf Hn Hm; cbn [sigop_loop]; [lia|].
  destruct (GetOp pc) as [[[op data] rest]|] eqn:E; [|lia]. apply GetOp_shorter in E.
  destruct ((op =? OP_CHECKSIG) || (op =? OP_CHECKSIGVERIFY)).
  { rewrite !u32_small by lia. destruct (IH rest op (n + 1) (m + 1)); lia. }
  destruct ((op =? OP_CHECKMULTISIG) || (op =? OP_CHECKMULTISIGVERIFY)).
  2: { destruct (IH rest op n m); lia. }
  cbn [andb]. destruct ((last >=? OP_1) && (last <=? OP_16)) eqn:El.
  2: { rewrite !u32_small by lia. destruct (IH rest op (n + 20) (m + 20)); lia. }
  apply andb_true_iff in El as [H1 H2]. apply Z.geb_le in H1. apply Z.leb_le in H2.
  assert (default 0 (DecodeOP_N last) = last - 0x50) as ->.
  { unfold DecodeOP_N, OP_1, OP_16, OP_0 in *. rewrite (proj2 (Z.eqb_neq last 0)) by lia.
    rewrite (proj2 (Z.leb_le 0x51 last)), (proj2 (Z.leb_le last 0x60)) by lia. done. }
  unfold OP_1, OP_16 in *. rewrite !u32_small by lia. destruct (IH rest op (n + (last - 0x50)) (m + 20)); lia.
Qed.

(** ** Big-endian comparison *)

Definition be_val (c : list Z) : Z := dval 256 (rev c).

Lemma be_val_cons x c : be_val (x :: c) = be_val c + 256 ^ Z.of_nat (length c) * x.
Proof. apply dval_rev_cons. Qed.

Lemma be_val_range c : digits_ok 256 c → 0 <= be_val c < 256 ^ Z.of_nat (length c).
Proof.
  intros Hc. unfold be_val. rewrite <- (length_rev c). apply dval_bound; [lia|]. by apply digits_ok_rev.
Qed.

Lemma skip_high_ok n c : digits_ok 256 c → (n <= length c)%nat →
  match skip_high n c with
  | Some c' => be_val c = be_val c' ∧ length c' = (length c - n)%nat ∧ digits_ok 256 c'
  | None => 256 ^ Z.of_nat (length c - n) <= be_val c
  end.
Proof.
  intros Hc. revert n. induction Hc as [|x c Hx Hc IH]; intros [|n] Hn; cbn [skip_high]; try (cbn in Hn; lia).
  - repeat split; constructor.
  - split; [done|]. split; [cbn; lia|]. constructor; done.
  - cbn [length] in *. destruct (Z.eqb_spec x 0) as [->|Hne].
    + rewrite be_val_cons. specialize (IH n ltac:(lia)). destruct (skip_high n c); cbn [Nat.sub]; [|lia].
      destruct IH as (? & ? & ?). split; [lia|done].
    + rewrite be_val_cons. assert (Hr := be_val_range c Hc).
      assert (256 ^ Z.of_nat (length c - n) <= 256 ^ Z.of_nat (length c)) by (apply Z.pow_le_mono_r; lia).
      replace (S (length c) - S n)%nat with (length c - n)%nat by lia. nia.
Qed.

Lemma cmp_bytes_ok c1 c2 : digits_ok 256 c1 → digits_ok 256 c2 → length c1 = length c2 →
  cmp_bytes c1 c2 = Z.sgn (be_val c1 - be_val c2).
Proof.
  intros H1. revert c2. induction H1 as [|x c1 Hx H1 IH]; intros [|y c2] H2 Hl; try done.
  apply Forall_cons_iff in H2 as [Hy H2]. injection Hl as Hl. cbn [cmp_bytes]. rewrite !be_val_cons, Hl.
  assert (Hr1 := be_val_range c1 H1). assert (Hr2 := be_val_range c2 H2). rewrite Hl in Hr1.
  set (P := 256 ^ Z.of_nat (length c2)) in *.
  destruct (Z.gtb_spec x y); [symmetry; apply Z.sgn_pos; nia|].
  destruct (Z.gtb_spec y x); [symmetry; apply Z.sgn_neg; nia|]. assert (x = y) as -> by lia.
  rewrite IH by done. f_equal. lia.
Qed.

Lemma CompareBigEndian_ok c1 c2 : digits_ok 256 c1 → digits_ok 256 c2 →
  CompareBigEndian c1 c2 = Z.sgn (be_val c1 - be_val c2).
Proof.
  intros H1 H2. unfold CompareBigEndian.
  assert (Hs := skip_high_ok (length c1 - length c2) c1 H1 ltac:(lia)).
  destruct (skip_high _ c1) as [d1|].
  - destruct Hs as (-> & Hl & Hd1). assert (Hs2 := skip_high_ok (length c2 - length d1) c2 H2 ltac:(lia)).
    destruct (skip_high _ c2) as [d2|].
    + destruct Hs2 as (-> & Hl2 & Hd2). apply cmp_bytes_ok; [done..|lia].
    + assert (Hr := be_val_range d1 Hd1). symmetry. apply Z.sgn_neg.
      assert (256 ^ Z.of_nat (length d1) <= 256 ^ Z.of_nat (length c2 - (length c2 - length d1))) by (apply Z.pow_le_mono_r; lia).
      lia.
  - assert (Hr := be_val_range c2 H2). symmetry. apply Z.sgn_pos.
    destruct (Nat.le_gt_cases (length c1) (length c2)).
    { replace (length c1 - length c2)%nat with 0%nat in Hs by lia.
      rewrite Nat.sub_0_r in Hs. assert (Hr1 := be_val_range c1 H1). lia. }
    replace (length c1 - (length c1 - length c2))%nat with (length c2) in Hs by lia. lia.
Qed.

(** ** Strict DER *)

(** A canonical non-negative DER integer: not empty, top bit clear, no
    superfluous leading zero byte *)
Definition der_int (r : list Z) : bool :=
  match r with
  | [] => false
  | x :: t => (x <? 128) && negb ((x =? 0) && match t with [] => false | y :: _ => y <? 128 end)
  end.

Definition der_sig (R S t : list Z) : list Z :=
  [0x30; 4 + Z.of_nat (length R) + Z.of_nat (length S); 0x02; Z.of_nat (length R)] ++ R ++
  [0x02; Z.of_nat (length S)] ++ S ++ t.

Definition hashtype_ok (ht : Z) : bool :=
  (1 <=? Z.land ht (Z.lnot SIGHASH_ANYONECANPAY)) && (Z.land ht (Z.lnot SIGHASH_ANYONECANPAY) <=? 3).

Lemma nth_skip (l1 l2 : list Z) i : Z.of_nat (length l1) <= i → nth (Z.to_nat i) (l1 ++ l2) 0 = nth (Z.to_nat (i - Z.of_nat (length l1))) l2 0.
Proof. intros Hi. rewrite app_nth2 by lia. f_equal. lia. Qed.

(** The tests on one integer of the signature *)
Lemma der_int_tests r rest : digits_ok 256 r →
  (if Z.of_nat (length r) =? 0 then false
   else if negb (Z.land (nth 0 (r ++ rest) 0) 0x80 =? 0) then false
   else if (Z.of_nat (length r) >? 1) && (nth 0 (r ++ rest) 0 =? 0x00) && (Z.land (nth 1 (r ++ rest) 0) 0x80 =? 0)
        then false else true) = der_int r.
Proof.
  intros Hr. destruct r as [|x [|y r]]; [done| |]; cbn [app nth der_int length].
  - apply Forall_cons_iff in Hr as [Hx _]. rewrite land_0x80 by done.
    destruct (Z.leb_spec 128 x), (Z.ltb_spec x 128); try lia; cbn; [done|]. rewrite andb_false_r. done.
  - apply Forall_cons_iff in Hr as [Hx Hr]. apply Forall_cons_iff in Hr as [Hy _]. rewrite !land_0x80 by done.
    replace (Z.of_nat (S (S (length r))) >? 1) with true by (symmetry; apply Z.gtb_lt; lia).
    destruct (Z.eqb_spec (Z.of_nat (S (S (length r)))) 0); [lia|].
    destruct (Z.leb_spec 128 x), (Z.ltb_spec x 128); try lia; cbn; [done|].
    destruct (Z.leb_spec 128 y), (Z.ltb_spec y 128); try lia; cbn; destruct (x =? 0); done.
Qed.

(** What [IsDERSignature] computes on bytes laid out as a signature *)
Lemma IsDER_layout a b c d e f R S t (w low : bool) :
  digits_ok 256 R → digits_ok 256 S → length t = (if w then 1 else 0)%nat →
  d = Z.of_nat (length R) → f = Z.of_nat (length S) →
  let sig := [a; b; c; d] ++ R ++ [e; f] ++ S ++ t in
  IsDERSignature sig w low =
  (9 <=? Z.of_nat (length sig)) && (Z.of_nat (length sig) <=? 73) && (a =? 0x30) && (b =? 4 + d + f) &&
  (if w then hashtype_ok (nth 0 t 0) else true) && (c =? 2) && der_int R && (e =? 2) && der_int S &&
  (if low then CheckSignatureElement S true else true).
Proof.
  intros HR HS Ht Hd Hf sig.
  assert (Hlen : Z.of_nat (length sig) = 6 + d + f + (if w then 1 else 0)).
  { unfold sig. rewrite !length_app, Ht, Hd, Hf. cbn [length]. destruct w; lia. }
  assert (Hat5 : nth (Z.to_nat (5 + d)) sig 0 = f).
  { unfold sig. rewrite nth_skip by (cbn; lia). rewrite nth_skip by (cbn; lia).
    replace (5 + d - Z.of_nat (length [a; b; c; d]) - Z.of_nat (length R)) with 1 by (cbn [length]; lia). done. }
  assert (HatR : ∀ i, 0 <= i → nth (Z.to_nat (4 + i)) sig 0 = nth (Z.to_nat i) (R ++ [e; f] ++ S ++ t) 0).
  { intros i Hi. unfold sig. rewrite nth_skip by (cbn; lia). f_equal. cbn [length]. lia. }
  assert (HatS : ∀ i, -2 <= i → nth (Z.to_nat (6 + d + i)) sig 0 = nth (Z.to_nat (2 + i)) ([e; f] ++ S ++ t) 0).
  { intros i Hi. unfold sig. rewrite nth_skip by (cbn; lia). rewrite nth_skip by (cbn [length]; lia). f_equal. cbn [length]. lia. }
  assert (Hlast : w = true → nth (Z.to_nat (Z.of_nat (length sig) - 1)) sig 0 = nth 0 t 0).
  { intros ->. rewrite Hlen. replace (6 + d + f + 1 - 1) with (6 + d + f) by lia. rewrite HatS by lia.
    rewrite app_assoc, nth_skip by (rewrite length_app; cbn; lia). f_equal. rewrite length_app. cbn [length]. lia. }
  assert (HtakeS : take (Z.to_nat f) (drop (Z.to_nat (6 + d)) sig) = S).
  { assert (sig = ([a; b; c; d] ++ R ++ [e; f]) ++ S ++ t) as -> by (unfold sig; rewrite <- !app_assoc; done).
    rewrite drop_app_length' by (rewrite !length_app; cbn [length]; lia). rewrite take_app_length' by lia. done. }
  unfold IsDERSignature. cbv zeta. change (nth (Z.to_nat 3) sig 0) with d. rewrite Hat5, HtakeS.
  change (nth (Z.to_nat 0) sig 0) with a. change (nth (Z.to_nat 1) sig 0) with b.
  change (nth (Z.to_nat (4 + -2)) sig 0) with c. rewrite !HatR, !HatS by lia.
  change (Z.to_nat (2 + -2)) with 0%nat. change (Z.to_nat (2 + 0)) with 2%nat. change (Z.to_nat (2 + 1)) with 3%nat.
  change (nth 0 ([e; f] ++ S ++ t) 0) with e. change (nth 2 ([e; f] ++ S ++ t) 0) with (nth 0 (S ++ t) 0).
  change (nth 3 ([e; f] ++ S ++ t) 0) with (nth 1 (S ++ t) 0).
  change (Z.to_nat 0) with 0%nat. change (Z.to_nat 1) with 1%nat.
  assert (HdR := der_int_tests R ([e; f] ++ S ++ t) HR). assert (HdS := der_int_tests S t HS). rewrite <- Hd in HdR. rewrite <- Hf in HdS.
  destruct (Z.ltb_spec (Z.of_nat (length sig)) 9), (Z.leb_spec 9 (Z.of_nat (length sig))); try (exfalso; lia); [done|].
  destruct (Z.gtb_spec (Z.of_nat (length sig)) 73), (Z.leb_spec (Z.of_nat (length sig)) 73); try (exfalso; lia); [done|].
  cbn [andb]. destruct (a =? 0x30); [|done]. cbn [andb negb].
  assert ((b =? Z.of_nat (length sig) - (if w then 3 else 2)) = (b =? 4 + d + f)) as ->.
  { rewrite Hlen. f_equal. destruct w; lia. }
  destruct (b =? 4 + d + f); [|done]. cbn [andb negb].
  assert ((w && ((Z.land (nth (Z.to_nat (Z.of_nat (length sig) - 1)) sig 0) (Z.lnot SIGHASH_ANYONECANPAY) <? SIGHASH_ALL) ||
     (Z.land (nth (Z.to_nat (Z.of_nat (length sig) - 1)) sig 0) (Z.lnot SIGHASH_ANYONECANPAY) >? SIGHASH_SINGLE)))
     = negb (if w then hashtype_ok (nth 0 t 0) else true)) as ->.
  { destruct w; [|done]. rewrite Hlast by done. unfold hashtype_ok, SIGHASH_ALL, SIGHASH_SINGLE.
    rewrite Z.gtb_ltb, Z.ltb_antisym, (Z.ltb_antisym _ 3). cbn [andb]. rewrite negb_andb. done. }
  destruct (if w then hashtype_ok (nth 0 t 0) else true); [|done]. cbn [andb negb].
  rewrite (proj2 (Z.leb_gt (Z.of_nat (length sig)) (5 + d))) by (destruct w; lia).
  assert ((d + f + (if w then 7 else 6) =? Z.of_nat (length sig)) = true) as ->.
  { rewrite Hlen. apply Z.eqb_eq. destruct w; lia. }
  cbn [negb]. destruct (c =? 2); [|done]. cbn [andb negb]. rewrite <- HdR, <- HdS. clear. destruct (e =? 2); cbn [negb];
  repeat match goal with |- context [if ?b then _ else _] =>
    lazymatch b with context [if _ then _ else _] => fail | low => fail | _ => destruct b end end; done.
Qed.

(** Any byte string whose length bytes fit can be laid out as a signature. *)
Lemma der_layout_exists sig (w : bool) : digits_ok 256 sig → (9 <= length sig)%nat →
  let nLenR := nth 3 sig 0 in
  5 + nLenR < Z.of_nat (length sig) →
  nLenR + nth (Z.to_nat (5 + nLenR)) sig 0 + (if w then 7 else 6) = Z.of_nat (length sig) →
  ∃ a b c d e f R S t, sig = [a; b; c; d] ++ R ++ [e; f] ++ S ++ t ∧ d = Z.of_nat (length R) ∧
    f = Z.of_nat (length S) ∧ length t = (if w then 1 else 0)%nat ∧ digits_ok 256 R ∧ digits_ok 256 S.
Proof.
  intros Hd Hl. destruct sig as [|a [|b [|c [|d rest]]]]; try (cbn in Hl; lia).
  assert (Hdr : 0 <= d < 256 ∧ digits_ok 256 rest) by (rewrite !Forall_cons_iff in Hd; tauto). destruct Hdr as [Hdb Hdr].
  cbv zeta. change (nth 3 (a :: b :: c :: d :: rest) 0) with d. intros H1 H2. cbn [length] in *.
  destruct (drop (Z.to_nat d) rest) as [|e [|f rest2]] eqn:E; try (apply (f_equal length) in E; rewrite length_drop in E; cbn in E; lia).
  assert (HE : rest = take (Z.to_nat d) rest ++ e :: f :: rest2) by (rewrite <- E, take_drop; done).
  assert (HlR : length (take (Z.to_nat d) rest) = Z.to_nat d) by (rewrite length_take; lia).
  assert (Hf : nth (Z.to_nat (5 + d)) (a :: b :: c :: d :: rest) 0 = f).
  { change (a :: b :: c :: d :: rest) with ([a; b; c; d] ++ rest). rewrite nth_skip by (cbn; lia).
    rewrite HE, nth_skip by (rewrite HlR; cbn; lia). rewrite HlR.
    replace (5 + d - Z.of_nat (length [a; b; c; d]) - Z.of_nat (Z.to_nat d)) with 1 by (cbn [length]; lia). done. }
  rewrite Hf in H2.
  assert (Hdf : 0 <= f < 256 ∧ digits_ok 256 rest2 ∧ digits_ok 256 (take (Z.to_nat d) rest)).
  { rewrite HE, Forall_app, !Forall_cons_iff in Hdr. tauto. }
  destruct Hdf as (Hfb & Hd2 & HdR). apply (f_equal length) in HE. rewrite length_app, HlR in HE. cbn [length] in HE.
  exists a, b, c, d, e, f, (take (Z.to_nat d) rest), (take (Z.to_nat f) rest2), (drop (Z.to_nat f) rest2).
  split; [cbn [app]; rewrite take_drop, <- E, take_drop; done|].
  split; [lia|]. split; [rewrite length_take; destruct w; lia|].
  split; [rewrite length_drop; destruct w; lia|]. split; [done|]. apply Forall_take. done.
Qed.

Lemma IsDER_length sig (w low : bool) : IsDERSignature sig w low = true →
  (9 <= length sig)%nat ∧ 5 + nth 3 sig 0 < Z.of_nat (length sig) ∧
  nth 3 sig 0 + nth (Z.to_nat (5 + nth 3 sig 0)) sig 0 + (if w then 7 else 6) = Z.of_nat (length sig).
Proof.
  unfold IsDERSignature. cbv zeta. change (Z.to_nat 3) with 3%nat. intros H.
  repeat match type of H with (if ?b then false else _) = true => let E := fresh "E" in destruct b eqn:E; try discriminate H end. lia.
Qed.

Lemma last_push_length fuel pc data sub : last_push fuel pc data = Some sub → (length sub <= length data + length pc)%nat.
Proof.
  revert pc data. induction fuel as [|fuel IH]; intros [|x pc] data; cbn [last_push]; try (intros [= <-]; lia).
  destruct (GetOp (x :: pc)) as [[[op d] rest]|] eqn:E; [|done]. apply GetOp_split in E as (hdr & E).
  destruct (op >? OP_16); [done|]. intros H. apply IH in H. rewrite E, !length_app. lia.
Qed.

Lemma sublist_equal_length (l1 l2 : list Z) : sublist l1 l2 → length l1 = length l2 → l1 = l2.
Proof.
  induction 1 as [|x l1 l2 Hs IH|x l1 l2 Hs IH]; cbn; intros Hl; [done|f_equal; auto|].
  apply sublist_length in Hs. lia.
Qed.

Lemma mpi_body_length64 z : Z.abs z < 2 ^ 64 → (length (mpi_body z) <= 9)%nat.
Proof.
  intros Hz. assert (Hb := bytelen_le (Z.abs z) 8 ltac:(lia) ltac:(change (256 ^ 8) with (2 ^ 64); lia)).
  assert (Hl : (length (be_mag (Z.abs z)) <= 8)%nat) by (unfold be_mag; rewrite length_rev, length_to_digits; lia).
  unfold mpi_body. destruct (be_mag (Z.abs z)) as [|x t]; [cbn; lia|]. cbn [length] in Hl.
  destruct (128 <=? x); cbn [length]; lia.
Qed.

(** ** Properties *)

(** Pushing and decoding: every byte vector that is pushed is decoded with the
    rest of the script untouched, and every 64-bit integer pushed with
    [operator<<] is a single canonical push that denotes it, either as a small
    number opcode or as script-number bytes. *)
Theorem push_roundtrip {BN : OpenSSL_BN} {BNok : OpenSSL_BN_ok BN} b n rest :
  Z.of_nat (length b) < 2 ^ 32 → - 2 ^ 63 <= n < 2 ^ 63 →
  GetOp (push_vector [] b ++ rest) = Some (push_opcode_of b, b, rest) ∧
  HasCanonicalPushes (push_int64 [] n) = true ∧
  ∃ op data, GetOp (push_int64 [] n ++ rest) = Some (op, data, rest) ∧ op <= OP_16 ∧
    (if OP_1NEGATE <=? op then op - (OP_1 - 1) else scriptnum data) = n.
Proof.
  intros Hb Hn. split; [by apply GetOp_push_vector|]. unfold push_int64.
  destruct ((n =? -1) || ((1 <=? n) && (n <=? 16))) eqn:E.
  - assert (Hr : n = -1 ∨ 1 <= n <= 16) by lia. clear E.
    assert (u8 (u8 n + (OP_1 - 1)) = n + 0x50) as -> by (unfold OP_1; mlia).
    assert (HG : ∀ r, GetOp ((n + 0x50) :: r) = Some (n + 0x50, [], r)).
    { intros r. cbn [GetOp]. rewrite (proj2 (Z.leb_gt _ _)) by (unfold OP_PUSHDATA4; lia). done. }
    cbn [app]. split.
    + unfold HasCanonicalPushes. cbn [length canonical_loop]. rewrite HG.
      unfold OP_16, OP_PUSHDATA1, OP_PUSHDATA2, OP_PUSHDATA4.
      rewrite (proj2 (Z.ltb_ge (n + 0x50) 0x4c)), (proj2 (Z.eqb_neq (n + 0x50) 0x4c)),
        (proj2 (Z.eqb_neq (n + 0x50) 0x4d)), (proj2 (Z.eqb_neq (n + 0x50) 0x4e)) by lia.
      destruct (n + 0x50 >? 0x60); done.
    + exists (n + 0x50), []. split; [apply HG|]. unfold OP_16, OP_1NEGATE, OP_1.
      split; [lia|]. rewrite (proj2 (Z.leb_le _ _)) by lia. lia.
  - set (v := getvch (CBigNum_int64 n)).
    assert (Hv : scriptnum v = n) by (unfold v; rewrite scriptnum_getvch; apply CBigNum_int64_ok; lia).
    assert (Hvb := getvch_bytes (CBigNum_int64 n)). fold v in Hvb.
    assert (Hlen : (length v <= 9)%nat).
    { unfold v. rewrite getvch_ok, length_rev, CBigNum_int64_ok by lia. apply mpi_body_length64. lia. }
    assert (Hop : push_opcode_of v = Z.of_nat (length v)).
    { unfold push_opcode_of. rewrite (proj2 (Z.ltb_lt _ _)) by (unfold OP_PUSHDATA1; lia). done. }
    assert (HG : ∀ r, GetOp (push_vector [] v ++ r) = Some (Z.of_nat (length v), v, r)).
    { intros r. rewrite GetOp_push_vector, Hop by lia. done. }
    split.
    + unfold HasCanonicalPushes. specialize (HG []). rewrite app_nil_r in HG.
      destruct (push_vector [] v) as [|x l] eqn:Ep; [done|]. cbn [length canonical_loop]. rewrite HG.
      unfold OP_16, OP_PUSHDATA1, OP_PUSHDATA2, OP_PUSHDATA4, OP_0. cbv zeta.
      destruct (Z.gtb_spec (Z.of_nat (length v)) 0x60); [lia|].
      rewrite (proj2 (Z.eqb_neq _ 0x4c)), (proj2 (Z.eqb_neq _ 0x4d)), (proj2 (Z.eqb_neq _ 0x4e)) by lia. cbn [andb].
      assert (l = v) as ->.
      { unfold push_vector in Ep. rewrite (proj2 (Z.ltb_lt _ _)) in Ep by (unfold OP_PUSHDATA1; lia). by injection Ep. }
      destruct v as [|y [|? ?]] eqn:Ev; cbn [length nth]; [done| |].
      * assert (16 < y); [|destruct (Z.leb_spec y 16); [lia|done]].
        apply Z.lt_nge. intros Hy. rewrite Forall_cons_iff in Hvb. destruct Hvb as [Hvb _].
        unfold scriptnum in Hv. cbn in Hv. rewrite Z.mod_small in Hv by lia. destruct (Z.leb_spec 128 y); [lia|].
        assert (n = 0) as -> by lia. unfold v in Ev. rewrite getvch_ok, CBigNum_int64_ok in Ev by lia. done.
      * rewrite (proj2 (Z.eqb_neq (Z.of_nat (S (S _))) 1)) by lia. rewrite andb_false_r. done.
    + exists (Z.of_nat (length v)), v. split; [apply HG|]. unfold OP_16, OP_1NEGATE. split; [lia|].
      rewrite (proj2 (Z.leb_gt _ _)) by lia. done.
Qed.

Lemma push_roundtrip_witness :
  GetOp (push_vector [] [1; 2; 3] ++ [172]) = Some (push_opcode_of [1; 2; 3], [1; 2; 3], [172]) ∧
  HasCanonicalPushes (push_int64 [] (-500)) = true ∧
  ∃ op data, GetOp (push_int64 [] (-500) ++ [172]) = Some (op, data, [172]) ∧ op <= OP_16 ∧
    (if OP_1NEGATE <=? op then op - (OP_1 - 1) else scriptnum data) = -500.
Proof. apply (push_roundtrip [1; 2; 3] (-500) [172]); vm_compute; auto; split; congruence. Defined.

(** Strict DER: with [SCRIPT_VERIFY_STRICTENC] a signature is accepted exactly
    when it is the DER encoding of two canonical positive integers followed by a
    known hash type, at most 73 bytes long; with [SCRIPT_VERIFY_LOW_S] the second
    integer is moreover between 1 and half the order of the curve. *)
Theorem IsCanonicalSignature_spec vchSig flags : digits_ok 256 vchSig →
  has_flag flags SCRIPT_VERIFY_STRICTENC = true →
  IsCanonicalSignature vchSig flags = true ↔
  ∃ R S ht, vchSig = der_sig R S [ht] ∧ (length vchSig <= 73)%nat ∧ der_int R = true ∧ der_int S = true ∧
    hashtype_ok ht = true ∧
    (has_flag flags SCRIPT_VERIFY_LOW_S = true → 0 < be_val S <= be_val vchMaxModHalfOrder).
Proof.
  intros Hd Hf. unfold IsCanonicalSignature. rewrite Hf. cbn [negb].
  set (low := has_flag flags SCRIPT_VERIFY_LOW_S).
  assert (HLow : ∀ S, digits_ok 256 S →
    (if low then CheckSignatureElement S true else true) = true ↔ (low = true → 0 < be_val S <= be_val vchMaxModHalfOrder)).
  { intros S HS. destruct low; [|naive_solver]. unfold CheckSignatureElement.
    rewrite !CompareBigEndian_ok by (done || (vm_compute; repeat constructor; congruence) || constructor).
    rewrite andb_true_iff, Z.gtb_lt, Z.leb_le. change (be_val []) with 0. split.
    - intros [H1 H2] _. apply Z.sgn_pos_iff in H1. split; [lia|].
      destruct (Z.le_gt_cases (be_val S - be_val vchMaxModHalfOrder) 0); [lia|].
      rewrite Z.sgn_pos in H2 by done. lia.
    - intros H. destruct (H eq_refl) as [H1 H2]. split; [apply Z.sgn_pos_iff; lia|].
      assert (Hs := Z.sgn_nonpos (be_val S - be_val vchMaxModHalfOrder)). lia. }
  split.
  - intros HD. destruct (IsDER_length vchSig true low HD) as (H9 & H1 & H2).
    destruct (der_layout_exists vchSig true Hd H9 H1 H2) as (a & b & c & d & e & f & R & S & t & -> & -> & -> & Ht & HR & HS).
    rewrite IsDER_layout in HD by done. split_andb.
    destruct t as [|ht [|? ?]]; try done. exists R, S, ht. cbn [nth] in *.
    repeat match goal with E : (_ =? _) = true |- _ => apply Z.eqb_eq in E end. subst.
    split; [done|]. split; [lia|]. split; [done|]. split; [done|]. split; [done|]. by apply HLow.
  - intros (R & S & ht & -> & Hl & HR & HS & Hh & Hlow).
    assert (HdRS : digits_ok 256 R ∧ digits_ok 256 S).
    { unfold der_sig in Hd. rewrite !Forall_app in Hd. tauto. }
    destruct HdRS as [HdR HdS]. unfold der_sig in *. rewrite IsDER_layout by done.
    rewrite !length_app in Hl |- *. cbn [length nth] in *.
    assert (length R ≠ 0%nat) by (destruct R; done). assert (length S ≠ 0%nat) by (destruct S; done).
    rewrite HR, HS, Hh, (proj2 (HLow S HdS) Hlow), !Z.eqb_refl.
    rewrite (proj2 (Z.leb_le 9 _)), (proj2 (Z.leb_le _ 73)) by lia. done.
Qed.

Definition sample_sig : list Z := der_sig [1; 2] [0; 129] [1].

Lemma IsCanonicalSignature_spec_witness :
  IsCanonicalSignature sample_sig 6 = true ↔
  ∃ R S ht, sample_sig = der_sig R S [ht] ∧ (length sample_sig <= 73)%nat ∧
    der_int R = true ∧ der_int S = true ∧ hashtype_ok ht = true ∧
    (has_flag 6 SCRIPT_VERIFY_LOW_S = true → 0 < be_val S <= be_val vchMaxModHalfOrder).
Proof. apply IsCanonicalSignature_spec; [vm_compute; repeat constructor; congruence|reflexivity]. Defined.

(** Counting signature operations: the accurate count never exceeds the legacy
    count, which is at most twenty per byte of the script, so neither wraps; a
    pay-to-script-hash spend is never charged more than its redeem script. *)
Theorem GetSigOpCount_bounds script scriptSig : Z.of_nat (length script) < 2 ^ 27 →
  Z.of_nat (length scriptSig) < 2 ^ 27 →
  0 <= GetSigOpCount script true <= GetSigOpCount script false ∧
  GetSigOpCount script false <= 20 * Z.of_nat (length script) ∧
  0 <= GetSigOpCount_p2sh script scriptSig <= 20 * Z.of_nat (length script + length scriptSig).
Proof.
  intros Hl Hs.
  assert (Hb : ∀ s, Z.of_nat (length s) < 2 ^ 27 →
    0 <= GetSigOpCount s true <= GetSigOpCount s false ∧ GetSigOpCount s false <= 20 * Z.of_nat (length s)).
  { intros s H. apply (sigop_loop_bounds _ s OP_INVALIDOPCODE 0 0); lia. }
  destruct (Hb script Hl) as [H1 H2]. split; [done|]. split; [done|]. unfold GetSigOpCount_p2sh.
  destruct (negb (IsPayToScriptHash script)); [lia|].
  destruct (last_push (length scriptSig) scriptSig []) as [sub|] eqn:E; [|lia].
  apply last_push_length in E. cbn in E. destruct (Hb sub ltac:(lia)). lia.
Qed.

Lemma GetSigOpCount_bounds_witness :
  0 <= GetSigOpCount [82; 174] true <= GetSigOpCount [82; 174] false ∧
  GetSigOpCount [82; 174] false <= 20 * Z.of_nat (length [82; 174]) ∧
  0 <= GetSigOpCount_p2sh [82; 174] [1; 172] <= 20 * Z.of_nat (length [82; 174] + length [1; 172]).
Proof. apply (GetSigOpCount_bounds [82; 174] [1; 172]); reflexivity. Defined.

(** [FindAndDelete] removes whole copies of its argument and nothing else: what
    remains is a subsequence of the script, shorter by the length of the
    argument for each of the reported matches, and the script itself when there
    is none. *)
Theorem FindAndDelete_ok script b :
  let '(script', nFound) := FindAndDelete script b in
  0 <= nFound ∧ Z.of_nat (length script) = Z.of_nat (length script') + nFound * Z.of_nat (length b) ∧
  sublist script' script ∧ (nFound = 0 → script' = script).
Proof.
  unfold FindAndDelete. case_bool_decide as E; [subst; cbn; repeat split; lia || done|].
  assert (H := delete_loop_ok (length script) b script E ltac:(lia)).
  destruct (delete_loop (length script) b script) as [s' n]. destruct H as (H1 & H2 & H3).
  split; [done|]. split; [done|]. split; [done|]. intros ->. apply sublist_equal_length; [done|lia].
Qed.
