(* ===== verification/Interp.v ===== *)
(** * The script interpreter (src/script.cpp, [EvalScript])

    The machine: main stack and alternate stack (top first), the stack of
    conditions, the operation counter, the position in the script and the
    position the signed part starts from.  [EvalScript] leaves the stack it
    reached behind also when it fails, so failing results carry it.  Every
    exception the body can throw is caught by [EvalScript] and is a failure.

    Signature checking is a parameter: a stateful check that threads a cache. *)

From stdpp Require Import base relations list numbers option.
From Stdlib Require Import ZArith Lia.
From S2P Require Import Prelude Uint256 Bignum Serialize Tx Script.

Open Scope Z_scope.

Abbreviation valtype := (list Z).
Definition vchFalse : valtype := [].
Definition vchTrue : valtype := [1].

(** What an opcode that works on the two stacks alone leaves behind *)
Inductive op_result :=
  | Bad (stack : list valtype)
  | Good (stack altstack : list valtype).

Section Interp.
Context {BN : OpenSSL_BN} {DG : Digests}.

Definition bnZero : BIGNUM := CBigNum_int32 0.
Definition bnOne : BIGNUM := CBigNum_int32 1.

(** ** Opcodes on the stacks *)

(** OP_1NEGATE, OP_1 .. OP_16 *)
Definition op_small_int (opcode : Z) (stack : list valtype) : list valtype :=
  getvch (CBigNum_int32 (opcode - (OP_1 - 1))) :: stack.

(** OP_TOALTSTACK .. OP_2SWAP *)
Definition stack_op1 (opcode : Z) (stack altstack : list valtype) : op_result :=
  if opcode =? OP_TOALTSTACK then
    match stack with v :: s => Good s (v :: altstack) | _ => Bad stack end
  else if opcode =? OP_FROMALTSTACK then
    match altstack with v :: a => Good (v :: stack) a | _ => Bad stack end
  else if opcode =? OP_2DROP then
    match stack with _ :: _ :: s => Good s altstack | _ => Bad stack end
  else if opcode =? OP_2DUP then
    match stack with x2 :: x1 :: s => Good (x2 :: x1 :: x2 :: x1 :: s) altstack | _ => Bad stack end
  else if opcode =? OP_3DUP then
    match stack with
    | x3 :: x2 :: x1 :: s => Good (x3 :: x2 :: x1 :: x3 :: x2 :: x1 :: s) altstack | _ => Bad stack end
  else if opcode =? OP_2OVER then
    match stack with
    | x4 :: x3 :: x2 :: x1 :: s => Good (x2 :: x1 :: x4 :: x3 :: x2 :: x1 :: s) altstack | _ => Bad stack end
  else if opcode =? OP_2ROT then
    match stack with
    | x6 :: x5 :: x4 :: x3 :: x2 :: x1 :: s => Good (x2 :: x1 :: x6 :: x5 :: x4 :: x3 :: s) altstack
    | _ => Bad stack end
  else (* OP_2SWAP *)
    match stack with
    | x4 :: x3 :: x2 :: x1 :: s => Good (x2 :: x1 :: x4 :: x3 :: s) altstack | _ => Bad stack end.

(** OP_IFDUP .. OP_TUCK and OP_SIZE *)
Definition stack_op2 (opcode : Z) (stack altstack : list valtype) : op_result :=
  if opcode =? OP_IFDUP then
    match stack with
    | v :: s => Good (if CastToBool v then v :: v :: s else v :: s) altstack | _ => Bad stack end
  else if opcode =? OP_DEPTH then
    Good (getvch (CBigNum_uint32 (Z.of_nat (length stack) mod 2 ^ 16)) :: stack) altstack
  else if opcode =? OP_DROP then
    match stack with _ :: s => Good s altstack | _ => Bad stack end
  else if opcode =? OP_DUP then
    match stack with v :: s => Good (v :: v :: s) altstack | _ => Bad stack end
  else if opcode =? OP_NIP then
    match stack with x2 :: _ :: s => Good (x2 :: s) altstack | _ => Bad stack end
  else if opcode =? OP_OVER then
    match stack with x2 :: x1 :: s => Good (x1 :: x2 :: x1 :: s) altstack | _ => Bad stack end
  else if (opcode =? OP_PICK) || (opcode =? OP_ROLL) then
    match stack with
    | vn :: ((_ :: _) as s) =>
        match CastToBigNum vn with
        | None => Bad stack
        | Some bn =>
            let n := getint32 bn in
            if (n <? 0) || (Z.of_nat (length s) <=? n) then Bad s
            else
              let vch := nth (Z.to_nat n) s [] in
              Good (vch :: (if opcode =? OP_ROLL then delete (Z.to_nat n) s else s)) altstack
        end
    | _ => Bad stack
    end
  else if opcode =? OP_ROT then
    match stack with x3 :: x2 :: x1 :: s => Good (x1 :: x3 :: x2 :: s) altstack | _ => Bad stack end
  else if opcode =? OP_SWAP then
    match stack with x2 :: x1 :: s => Good (x1 :: x2 :: s) altstack | _ => Bad stack end
  else if opcode =? OP_TUCK then
    match stack with x2 :: x1 :: s => Good (x2 :: x1 :: x2 :: s) altstack | _ => Bad stack end
  else (* OP_SIZE *)
    match stack with
    | v :: s => Good (getvch (CBigNum_uint32 (Z.of_nat (length v) mod 2 ^ 16)) :: v :: s) altstack
    | _ => Bad stack end.

(** [if (opcode == OP_...VERIFY) { if (f) popstack(stack); else return false; }] *)
Definition finish_verify (verify f : bool) (stack altstack : list valtype) : op_result :=
  if verify then (if f then Good (tail stack) altstack else Bad stack) else Good stack altstack.

Definition op_equal (opcode : Z) (stack altstack : list valtype) : op_result :=
  match stack with
  | vch2 :: vch1 :: s =>
      let fEqual := bool_decide (vch1 = vch2) in
      finish_verify (opcode =? OP_EQUALVERIFY) fEqual ((if fEqual then vchTrue else vchFalse) :: s) altstack
  | _ => Bad stack
  end.

Definition unary_num (opcode : Z) (bn : BIGNUM) : BIGNUM :=
  if opcode =? OP_1ADD then bn_add bn bnOne
  else if opcode =? OP_1SUB then bn_sub bn bnOne
  else if opcode =? OP_NEGATE then bn_neg bn
  else if opcode =? OP_ABS then (if bn_lt bn bnZero then bn_neg bn else bn)
  else if opcode =? OP_NOT then CBigNum_bool (bn_eq bn bnZero)
  else (* OP_0NOTEQUAL *) CBigNum_bool (bn_ne bn bnZero).
Definition op_unary (opcode : Z) (stack altstack : list valtype) : op_result :=
  match stack with
  | v :: s =>
      match CastToBigNum v with
      | None => Bad stack
      | Some bn => Good (getvch (unary_num opcode bn) :: s) altstack
      end
  | _ => Bad stack
  end.

Definition binary_num (opcode : Z) (bn1 bn2 : BIGNUM) : BIGNUM :=
  if opcode =? OP_ADD then bn_add bn1 bn2
  else if opcode =? OP_SUB then bn_sub bn1 bn2
  else if opcode =? OP_BOOLAND then CBigNum_bool (bn_ne bn1 bnZero && bn_ne bn2 bnZero)
  else if opcode =? OP_BOOLOR then CBigNum_bool (bn_ne bn1 bnZero || bn_ne bn2 bnZero)
  else if opcode =? OP_NUMEQUAL then CBigNum_bool (bn_eq bn1 bn2)
  else if opcode =? OP_NUMEQUALVERIFY then CBigNum_bool (bn_eq bn1 bn2)
  else if opcode =? OP_NUMNOTEQUAL then CBigNum_bool (bn_ne bn1 bn2)
  else if opcode =? OP_LESSTHAN then CBigNum_bool (bn_lt bn1 bn2)
  else if opcode =? OP_GREATERTHAN then CBigNum_bool (bn_gt bn1 bn2)
  else if opcode =? OP_LESSTHANOREQUAL then CBigNum_bool (bn_le bn1 bn2)
  else if opcode =? OP_GREATERTHANOREQUAL then CBigNum_bool (bn_ge bn1 bn2)
  else if opcode =? OP_MIN then (if bn_lt bn1 bn2 then bn1 else bn2)
  else (* OP_MAX *) (if bn_gt bn1 bn2 then bn1 else bn2).
Definition op_binary (opcode : Z) (stack altstack : list valtype) : op_result :=
  match stack with
  | v2 :: v1 :: s =>
      match CastToBigNum v1, CastToBigNum v2 with
      | Some bn1, Some bn2 =>
          let out := getvch (binary_num opcode bn1 bn2) in
          finish_verify (opcode =? OP_NUMEQUALVERIFY) (CastToBool out) (out :: s) altstack
      | _, _ => Bad stack
      end
  | _ => Bad stack
  end.

Definition op_within (stack altstack : list valtype) : op_result :=
  match stack with
  | v3 :: v2 :: v1 :: s =>
      match CastToBigNum v1, CastToBigNum v2, CastToBigNum v3 with
      | Some bn1, Some bn2, Some bn3 =>
          let fValue := bn_le bn2 bn1 && bn_lt bn1 bn3 in
          Good ((if fValue then vchTrue else vchFalse) :: s) altstack
      | _, _, _ => Bad stack
      end
  | _ => Bad stack
  end.

Definition op_digest (opcode : Z) (stack altstack : list valtype) : op_result :=
  match stack with
  | vch :: s =>
      let vchHash :=
        if opcode =? OP_RIPEMD160 then RIPEMD160 vch
        else if opcode =? OP_SHA1 then SHA1 vch
        else if opcode =? OP_SHA256 then SHA256 vch
        else if opcode =? OP_HASH160 then getBytes (Hash160 vch)
        else (* OP_HASH256 *) getBytes (Hash vch) in
      Good (vchHash :: s) altstack
  | _ => Bad stack
  end.

Definition op_verify (stack altstack : list valtype) : op_result :=
  match stack with
  | v :: s => if CastToBool v then Good s altstack else Bad stack
  | _ => Bad stack
  end.

(** Lock-time opcodes leave their argument on the stack. *)
Definition op_checklocktimeverify (flags : Z) (txTo : CTransaction) (nIn : nat) (stack altstack : list valtype) : op_result :=
  if negb (has_flag flags SCRIPT_VERIFY_CHECKLOCKTIMEVERIFY) then Good stack altstack
  else
    match stack with
    | v :: _ =>
        match CastToBigNum v with
        | None => Bad stack
        | Some nLockTime =>
            if bn_lt nLockTime bnZero then Bad stack
            else if negb (CheckLockTime (i64 (getuint64 nLockTime)) txTo nIn) then Bad stack
            else Good stack altstack
        end
    | _ => Bad stack
    end.

Definition op_checksequenceverify (flags : Z) (txTo : CTransaction) (nIn : nat) (stack altstack : list valtype) : op_result :=
  if negb (has_flag flags SCRIPT_VERIFY_CHECKSEQUENCEVERIFY) then Good stack altstack
  else
    match stack with
    | v :: _ =>
        match CastToBigNum v with
        | None => Bad stack
        | Some nSequence =>
            if bn_lt nSequence bnZero then Bad stack
            else if negb (Z.land (u32 (getint32 nSequence)) SEQUENCE_LOCKTIME_DISABLE_FLAG =? 0) then Good stack altstack
            else if negb (CheckSequence (i64 (getuint64 nSequence)) txTo nIn) then Bad stack
            else Good stack altstack
        end
    | _ => Bad stack
    end.

(** ** The machine *)

Context {Cache : Type}.
(** [CheckSig(vchSig, vchPubKey, scriptCode, txTo, nIn, nHashType, flags)] *)
Variable CheckSig : valtype → valtype → list Z → Cache → bool * Cache.
Variables (txTo : CTransaction) (nIn : nat) (flags : Z).

Record machine := mkM {
  pc : list Z;
  pbegincodehash : list Z;
  stack : list valtype;
  altstack : list valtype;
  vfExec : list bool;
  nOpCount : Z;
  cache : Cache
}.

Inductive outcome :=
  | Return_false (stack : list valtype) (cache : Cache)
  | Next (m : machine).

Definition with_stacks (m : machine) (r : op_result) : outcome :=
  match r with
  | Bad s => Return_false s (cache m)
  | Good s a => Next (mkM (pc m) (pbegincodehash m) s a (vfExec m) (nOpCount m) (cache m))
  end.
Definition with_exec (m : machine) (s : list valtype) (v : list bool) : machine :=
  mkM (pc m) (pbegincodehash m) s (altstack m) v (nOpCount m) (cache m).

(** OP_IF, OP_NOTIF *)
Definition op_if (opcode : Z) (fExec : bool) (m : machine) : outcome :=
  if fExec then
    match stack m with
    | vch :: s =>
        let fValue := CastToBool vch in
        let fValue := if opcode =? OP_NOTIF then negb fValue else fValue in
        Next (with_exec m s (fValue :: vfExec m))
    | [] => Return_false (stack m) (cache m)
    end
  else Next (with_exec m (stack m) (false :: vfExec m)).

Definition op_else (m : machine) : outcome :=
  match vfExec m with
  | b :: v => Next (with_exec m (stack m) (negb b :: v))
  | [] => Return_false (stack m) (cache m)
  end.
Definition op_endif (m : machine) : outcome :=
  match vfExec m with
  | _ :: v => Next (with_exec m (stack m) v)
  | [] => Return_false (stack m) (cache m)
  end.

(** The encoding checks come first: [CheckSig] runs only when they pass. *)
Definition check_one (vchSig vchPubKey : valtype) (scriptCode : list Z) (c : Cache) : bool * Cache :=
  if IsCanonicalSignature vchSig flags && IsCanonicalPubKey vchPubKey flags
  then CheckSig vchSig vchPubKey scriptCode c else (false, c).

Definition op_checksig (opcode : Z) (m : machine) : outcome :=
  match stack m with
  | vchPubKey :: vchSig :: s =>
      let scriptCode := (FindAndDelete (pbegincodehash m) (push_vector [] vchSig)).1 in
      let '(fSuccess, c) := check_one vchSig vchPubKey scriptCode (cache m) in
      let m := mkM (pc m) (pbegincodehash m) (stack m) (altstack m) (vfExec m) (nOpCount m) c in
      with_stacks m
        (finish_verify (opcode =? OP_CHECKSIGVERIFY) fSuccess
          ((if fSuccess then vchTrue else vchFalse) :: s) (altstack m))
  | s => Return_false s (cache m)
  end.

(** [while (fSuccess && nSigsCount > 0)]: signatures and keys from the top *)
Fixpoint multisig_loop (scriptCode : list Z) (keys sigs : list valtype) (c : Cache) : bool * Cache :=
  match sigs with
  | [] => (true, c)
  | vchSig :: sigs' =>
      match keys with
      | [] => (false, c)
      | vchPubKey :: keys =>
          let '(fOk, c) := check_one vchSig vchPubKey scriptCode c in
          let sigs := if fOk then sigs' else sigs in
          if (length keys <? length sigs)%nat then (false, c)
          else multisig_loop scriptCode keys sigs c
      end
  end.

Definition op_checkmultisig (opcode : Z) (m : machine) : outcome :=
  let stack := stack m in
  let size := Z.of_nat (length stack) in
  let fail := Return_false stack (cache m) in
  let stacktop i := nth (Z.to_nat (i - 1)) stack [] in
  if size <? 1 then fail
  else match CastToBigNum (stacktop 1) with None => fail | Some bn =>
  let nKeysCount := getint32 bn in
  if (nKeysCount <? 0) || (nKeysCount >? 20) then fail
  else
  let nOpCount := nOpCount m + nKeysCount in
  if nOpCount >? 201 then fail
  else
  let ikey := 2 in
  let i := 2 + nKeysCount in
  if size <? i then fail
  else match CastToBigNum (stacktop i) with None => fail | Some bn =>
  let nSigsCount := getint32 bn in
  if (nSigsCount <? 0) || (nSigsCount >? nKeysCount) then fail
  else
  let isig := i + 1 in
  let i := i + 1 + nSigsCount in
  if size <? i then fail
  else
  let keys := take (Z.to_nat nKeysCount) (drop (Z.to_nat (ikey - 1)) stack) in
  let sigs := take (Z.to_nat nSigsCount) (drop (Z.to_nat (isig - 1)) stack) in
  let scriptCode :=
    fold_left (λ code vchSig, (FindAndDelete code (push_vector [] vchSig)).1) sigs (pbegincodehash m) in
  let '(fSuccess, c) := multisig_loop scriptCode keys sigs (cache m) in
  let stack := drop (Z.to_nat (i - 1)) stack in
  match stack with
  | [] => Return_false stack c
  | dummy :: s =>
      if has_flag flags SCRIPT_VERIFY_NULLDUMMY && negb (bool_decide (dummy = [])) then Return_false stack c
      else
        let m := mkM (pc m) (pbegincodehash m) stack (altstack m) (vfExec m) nOpCount c in
        with_stacks m
          (finish_verify (opcode =? OP_CHECKMULTISIGVERIFY) fSuccess
            ((if fSuccess then vchTrue else vchFalse) :: s) (altstack m))
  end
  end
  end.

Definition between (a x b : Z) : bool := (a <=? x) && (x <=? b).

(** The opcodes that are refused wherever they occur *)
Definition disabled_opcode (opcode : Z) : bool :=
  existsb (Z.eqb opcode)
    [OP_CAT; OP_SUBSTR; OP_LEFT; OP_RIGHT; OP_INVERT; OP_AND; OP_OR; OP_XOR; OP_2MUL; OP_2DIV; OP_MUL; OP_DIV;
     OP_MOD; OP_LSHIFT; OP_RSHIFT].

(** [switch (opcode)] *)
Definition switch (opcode : Z) (fExec : bool) (m : machine) : outcome :=
  let on_stacks f := with_stacks m (f (stack m) (altstack m)) in
  if (opcode =? OP_1NEGATE) || between OP_1 opcode OP_16 then
    Next (with_exec m (op_small_int opcode (stack m)) (vfExec m))
  else if (opcode =? OP_NOP) || (opcode =? OP_NOP1) || between OP_NOP4 opcode OP_NOP10 then Next m
  else if (opcode =? OP_IF) || (opcode =? OP_NOTIF) then op_if opcode fExec m
  else if opcode =? OP_ELSE then op_else m
  else if opcode =? OP_ENDIF then op_endif m
  else if opcode =? OP_VERIFY then on_stacks op_verify
  else if opcode =? OP_RETURN then Return_false (stack m) (cache m)
  else if opcode =? OP_CHECKLOCKTIMEVERIFY then on_stacks (op_checklocktimeverify flags txTo nIn)
  else if opcode =? OP_CHECKSEQUENCEVERIFY then on_stacks (op_checksequenceverify flags txTo nIn)
  else if between OP_TOALTSTACK opcode OP_2SWAP then on_stacks (stack_op1 opcode)
  else if between OP_IFDUP opcode OP_TUCK || (opcode =? OP_SIZE) then on_stacks (stack_op2 opcode)
  else if (opcode =? OP_EQUAL) || (opcode =? OP_EQUALVERIFY) then on_stacks (op_equal opcode)
  else if (opcode =? OP_1ADD) || (opcode =? OP_1SUB) || between OP_NEGATE opcode OP_0NOTEQUAL then
    on_stacks (op_unary opcode)
  else if (opcode =? OP_ADD) || (opcode =? OP_SUB) || between OP_BOOLAND opcode OP_MAX then
    on_stacks (op_binary opcode)
  else if opcode =? OP_WITHIN then on_stacks op_within
  else if between OP_RIPEMD160 opcode OP_HASH256 then on_stacks (op_digest opcode)
  else if opcode =? OP_CODESEPARATOR then
    Next (mkM (pc m) (pc m) (stack m) (altstack m) (vfExec m) (nOpCount m) (cache m))
  else if (opcode =? OP_CHECKSIG) || (opcode =? OP_CHECKSIGVERIFY) then op_checksig opcode m
  else if (opcode =? OP_CHECKMULTISIG) || (opcode =? OP_CHECKMULTISIGVERIFY) then op_checkmultisig opcode m
  else Return_false (stack m) (cache m).

(** One turn of [while (pc < pend)] *)
Definition step (m : machine) : outcome :=
  let fail := Return_false (stack m) (cache m) in
  let fExec := forallb id (vfExec m) in
  match GetOp (pc m) with
  | None => fail
  | Some (opcode, vchPushValue, rest) =>
      if Z.of_nat (length vchPushValue) >? MAX_SCRIPT_ELEMENT_SIZE then fail
      else
        let nOpCount := if opcode >? OP_16 then nOpCount m + 1 else nOpCount m in
        if (opcode >? OP_16) && (nOpCount >? 201) then fail
        else if disabled_opcode opcode then fail
        else
          let m := mkM rest (pbegincodehash m) (stack m) (altstack m) (vfExec m) nOpCount (cache m) in
          let r :=
            if fExec && between 0 opcode OP_PUSHDATA4 then
              Next (with_exec m (vchPushValue :: stack m) (vfExec m))
            else if fExec || between OP_IF opcode OP_ENDIF then switch opcode fExec m
            else Next m in
          match r with
          | Next m => if (1000 <? length (stack m) + length (altstack m))%nat then Return_false (stack m) (cache m) else r
          | _ => r
          end
  end.

(** The loop, one unit of fuel per instruction *)
Fixpoint eval_loop (fuel : nat) (m : machine) : bool * list valtype * Cache :=
  match pc m, fuel with
  | [], _ => (bool_decide (vfExec m = []), stack m, cache m)
  | _, O => (false, stack m, cache m)
  | _, S fuel =>
      match step m with
      | Return_false s c => (false, s, c)
      | Next m => eval_loop fuel m
      end
  end.

Definition EvalScript (stack : list valtype) (script : list Z) (c : Cache) : bool * list valtype * Cache :=
  if Z.of_nat (length script) >? 10000 then (false, stack, c)
  else eval_loop (length script) (mkM script script stack [] [] 0 c).

End Interp.

(** ** Stack elements *)

(** Elements are byte strings of at most [MAX_SCRIPT_ELEMENT_SIZE] bytes. *)
Definition elem_ok (v : valtype) : Prop := digits_ok 256 v ∧ Z.of_nat (length v) <= MAX_SCRIPT_ELEMENT_SIZE.
Abbreviation stack_ok := (Forall elem_ok).

Definition result_ok (r : op_result) : Prop :=
  match r with Bad s => stack_ok s | Good s a => stack_ok s ∧ stack_ok a end.

Lemma elem_ok_true : elem_ok vchTrue.
Proof. split; [repeat constructor; lia|done]. Qed.
Lemma elem_ok_false : elem_ok vchFalse.
Proof. split; [constructor|done]. Qed.
#[export] Hint Resolve elem_ok_true elem_ok_false : nova.

Section facts.
Context {BN : OpenSSL_BN} {BNok : OpenSSL_BN_ok BN} {DG : Digests} {DGok : DigestsOk}.

Lemma mpi_val_bound body : digits_ok 256 body → (length body <= 4)%nat → Z.abs (mpi_val body) < 2 ^ 31.
Proof.
  intros Hd Hl. destruct body as [|b t]; [done|]. cbn [mpi_val]. rewrite dval_rev_cons.
  apply Forall_cons_iff in Hd as [Hb Ht]. cbn [length] in Hl.
  assert (Hm := Z.mod_pos_bound b 128 ltac:(lia)). assert (Hr := be_val_range t Ht). unfold be_val in Hr.
  assert (256 ^ Z.of_nat (length t) <= 256 ^ 3) by (apply Z.pow_le_mono_r; lia).
  change (256 ^ 3) with (2 ^ 24) in *.
  assert (0 <= dval 256 (rev t) + 256 ^ Z.of_nat (length t) * (b mod 128) < 2 ^ 31) by nia.
  destruct (128 <=? b); lia.
Qed.

(** Numbers are read from at most four bytes. *)
Lemma CastToBigNum_ok v : digits_ok 256 v →
  match CastToBigNum v with
  | Some bn => (length v <= 4)%nat ∧ bnval bn = scriptnum v ∧ Z.abs (scriptnum v) < 2 ^ 31
  | None => (4 < length v)%nat
  end.
Proof.
  intros Hd. unfold CastToBigNum, nMaxNumSize. destruct (Nat.ltb_spec 4 (length v)); [done|].
  assert (Hb : Z.abs (scriptnum v) < 2 ^ 31).
  { unfold scriptnum. apply mpi_val_bound; [by apply digits_ok_rev|]. rewrite length_rev. lia. }
  split; [lia|]. split; [|done]. rewrite setvch_ok.
  - rewrite scriptnum_getvch. apply setvch_ok; [done|lia].
  - apply getvch_bytes.
  - rewrite getvch_ok, length_rev, setvch_ok by (done || lia). assert (H9 := mpi_body_length64 (scriptnum v)). lia.
Qed.

Lemma getvch_elem bn : Z.abs (bnval bn) < 2 ^ 64 → elem_ok (getvch bn).
Proof.
  intros Hb. split; [apply getvch_bytes|]. rewrite getvch_ok, length_rev.
  assert (H9 := mpi_body_length64 (bnval bn) Hb). unfold MAX_SCRIPT_ELEMENT_SIZE. lia.
Qed.

Lemma bnZero_ok : bnval bnZero = 0.
Proof. apply CBigNum_int32_ok. lia. Qed.
Lemma bnOne_ok : bnval bnOne = 1.
Proof. apply CBigNum_int32_ok. lia. Qed.

(** ** Arithmetic *)

Definition unary_spec (opcode : Z) (x : Z) : Z :=
  if opcode =? OP_1ADD then x + 1
  else if opcode =? OP_1SUB then x - 1
  else if opcode =? OP_NEGATE then - x
  else if opcode =? OP_ABS then Z.abs x
  else if opcode =? OP_NOT then Z.b2z (x =? 0)
  else Z.b2z (negb (x =? 0)).

Definition binary_spec (opcode : Z) (x y : Z) : Z :=
  if opcode =? OP_ADD then x + y
  else if opcode =? OP_SUB then x - y
  else if opcode =? OP_BOOLAND then Z.b2z (negb (x =? 0) && negb (y =? 0))
  else if opcode =? OP_BOOLOR then Z.b2z (negb (x =? 0) || negb (y =? 0))
  else if (opcode =? OP_NUMEQUAL) || (opcode =? OP_NUMEQUALVERIFY) then Z.b2z (x =? y)
  else if opcode =? OP_NUMNOTEQUAL then Z.b2z (negb (x =? y))
  else if opcode =? OP_LESSTHAN then Z.b2z (x <? y)
  else if opcode =? OP_GREATERTHAN then Z.b2z (y <? x)
  else if opcode =? OP_LESSTHANOREQUAL then Z.b2z (x <=? y)
  else if opcode =? OP_GREATERTHANOREQUAL then Z.b2z (y <=? x)
  else if opcode =? OP_MIN then Z.min x y
  else Z.max x y.

Lemma unary_num_ok opcode bn : bnval (unary_num opcode bn) = unary_spec opcode (bnval bn).
Proof.
  unfold unary_num, unary_spec, bn_add, bn_sub.
  repeat match goal with |- context [if opcode =? ?c then _ else _] => destruct (opcode =? c) end.
  - rewrite BN_add_law, bnOne_ok. done.
  - rewrite BN_sub_law, bnOne_ok. done.
  - apply bn_neg_ok.
  - rewrite bn_lt_ok, bnZero_ok. destruct (Z.ltb_spec (bnval bn) 0); rewrite ?bn_neg_ok; lia.
  - rewrite CBigNum_bool_ok, bn_eq_ok, bnZero_ok. done.
  - rewrite CBigNum_bool_ok, bn_ne_ok, bnZero_ok. done.
Qed.

Lemma binary_num_ok opcode a b : bnval (binary_num opcode a b) = binary_spec opcode (bnval a) (bnval b).
Proof.
  unfold binary_num, binary_spec, bn_add, bn_sub.
  rewrite ?bn_ne_ok, ?bn_eq_ok, ?bn_lt_ok, ?bn_gt_ok, ?bn_le_ok, ?bn_ge_ok, ?bnZero_ok.
  destruct (opcode =? OP_ADD); [apply BN_add_law|]. destruct (opcode =? OP_SUB); [apply BN_sub_law|].
  repeat match goal with |- context [if opcode =? ?c then _ else _] => (destruct (opcode =? c); cbn [orb]; [by rewrite CBigNum_bool_ok|]) || (destruct (opcode =? c); cbn [orb]) end.
  - destruct (Z.ltb_spec (bnval a) (bnval b)); lia.
  - destruct (Z.ltb_spec (bnval b) (bnval a)); lia.
Qed.

Lemma unary_spec_bound opcode x : Z.abs x < 2 ^ 31 → Z.abs (unary_spec opcode x) <= 2 ^ 31.
Proof.
  intros Hx. unfold unary_spec. repeat case_match; try (destruct (x =? 0); cbn); lia.
Qed.
Lemma b2z_bound b : Z.abs (Z.b2z b) < 2 ^ 32.
Proof. destruct b; cbn; lia. Qed.
Lemma binary_spec_bound opcode x y : Z.abs x < 2 ^ 31 → Z.abs y < 2 ^ 31 → Z.abs (binary_spec opcode x y) < 2 ^ 32.
Proof.
  intros Hx Hy. unfold binary_spec. repeat case_match; try apply b2z_bound; lia.
Qed.

(** ** Every opcode keeps the elements well-formed *)

Lemma digest_elem l n : length l = n → (n <= 32)%nat → digits_ok 256 l → elem_ok l.
Proof. intros <- Hn Hl. split; [done|]. unfold MAX_SCRIPT_ELEMENT_SIZE. lia. Qed.

Lemma limbs_elem W bs : digits_ok 256 bs → length bs = (4 * W)%nat → (W <= 8)%nat → elem_ok (getBytes (limbs_of_bytes bs)).
Proof.
  intros Hb Hl HW. destruct (limbs_of_bytes_ok W bs Hb Hl) as (Hw & _ & _).
  destruct (getBytes_ok W _ Hw) as (H1 & H2 & _). split; [done|]. unfold MAX_SCRIPT_ELEMENT_SIZE. lia.
Qed.

Ltac stack_cases :=
  repeat match goal with
  | H : stack_ok (_ :: _) |- _ => apply Forall_cons_iff in H; destruct H
  | |- result_ok (match ?s with [] => _ | _ => _ end) => destruct s
  | |- result_ok (if ?b then _ else _) => destruct b
  end;
  cbn [result_ok];
  repeat match goal with |- _ ∧ _ => split | |- Forall _ (_ :: _) => constructor | |- Forall _ [] => constructor end;
  auto with nova.

Lemma stack_op1_ok opcode s a : stack_ok s → stack_ok a → result_ok (stack_op1 opcode s a).
Proof. intros Hs Ha. unfold stack_op1. stack_cases. Qed.

Lemma mod16_elem n : elem_ok (getvch (CBigNum_uint32 (n mod 2 ^ 16))).
Proof.
  assert (Hm := Z.mod_pos_bound n (2 ^ 16) ltac:(lia)).
  apply getvch_elem. unfold CBigNum_uint32. rewrite setuint32_ok by lia. lia.
Qed.
Hint Resolve mod16_elem : nova.

Lemma stack_op2_ok opcode s a : stack_ok s → stack_ok a → result_ok (stack_op2 opcode s a).
Proof.
  intros Hs Ha. unfold stack_op2.
  destruct (opcode =? OP_IFDUP).
  { destruct s as [|v s]; [done|]. cbn [result_ok]. split; [|done]. destruct (CastToBool v); [|done].
    constructor; [|done]. by apply Forall_cons_iff in Hs as [? _]. }
  destruct (opcode =? OP_DEPTH); [stack_cases|]. destruct (opcode =? OP_DROP); [stack_cases|].
  destruct (opcode =? OP_DUP); [stack_cases|]. destruct (opcode =? OP_NIP); [stack_cases|].
  destruct (opcode =? OP_OVER); [stack_cases|].
  destruct ((opcode =? OP_PICK) || (opcode =? OP_ROLL)); [|stack_cases].
  destruct s as [|vn [|v s]]; [stack_cases..|]. apply Forall_cons_iff in Hs as [Hvn Hs].
  destruct (CastToBigNum vn) as [bn|]; [|cbn; by constructor].
  destruct ((getint32 bn <? 0) || _) eqn:E; [cbn; done|]. apply orb_false_iff in E as [E1 E2].
  cbn [result_ok]. split; [|done]. constructor.
  - rewrite Forall_nth in Hs. apply Hs. apply Z.leb_gt in E2. apply Z.ltb_ge in E1. lia.
  - destruct (opcode =? OP_ROLL); [|done]. by apply Forall_delete.
Qed.

Lemma finish_verify_ok verify f s a : stack_ok s → stack_ok a → result_ok (finish_verify verify f s a).
Proof.
  intros Hs Ha. unfold finish_verify. destruct verify, f; cbn; auto. split; [|done].
  destruct s; [done|]. cbn. by apply Forall_cons_iff in Hs as [_ ?].
Qed.

Lemma op_equal_ok opcode s a : stack_ok s → stack_ok a → result_ok (op_equal opcode s a).
Proof.
  intros Hs Ha. unfold op_equal. destruct s as [|v2 [|v1 s]]; [stack_cases..|].
  rewrite !Forall_cons_iff in Hs. apply finish_verify_ok; [|done]. constructor; [|tauto].
  case_bool_decide; auto with nova.
Qed.

Lemma op_unary_ok opcode s a : stack_ok s → stack_ok a → result_ok (op_unary opcode s a).
Proof.
  intros Hs Ha. unfold op_unary. destruct s as [|v s]; [done|]. assert (Hs' := Hs).
  apply Forall_cons_iff in Hs as [[Hv _] Hs]. assert (Hc := CastToBigNum_ok v Hv).
  destruct (CastToBigNum v) as [bn|]; [|done]. destruct Hc as (_ & Hb & Hr). cbn. split; [|done].
  constructor; [|done]. apply getvch_elem. rewrite unary_num_ok, Hb.
  assert (H := unary_spec_bound opcode _ Hr). lia.
Qed.

Lemma op_binary_ok opcode s a : stack_ok s → stack_ok a → result_ok (op_binary opcode s a).
Proof.
  intros Hs Ha. unfold op_binary. destruct s as [|v2 [|v1 s]]; [done..|]. assert (Hs' := Hs).
  rewrite !Forall_cons_iff in Hs. destruct Hs as ([Hv2 _] & [Hv1 _] & Hs).
  assert (Hc1 := CastToBigNum_ok v1 Hv1). assert (Hc2 := CastToBigNum_ok v2 Hv2).
  destruct (CastToBigNum v1) as [bn1|], (CastToBigNum v2) as [bn2|]; try done.
  destruct Hc1 as (_ & Hb1 & Hr1), Hc2 as (_ & Hb2 & Hr2). apply finish_verify_ok; [|done].
  constructor; [|done]. apply getvch_elem. rewrite binary_num_ok, Hb1, Hb2.
  assert (H := binary_spec_bound opcode _ _ Hr1 Hr2). lia.
Qed.

Lemma op_within_ok s a : stack_ok s → stack_ok a → result_ok (op_within s a).
Proof.
  intros Hs Ha. unfold op_within. destruct s as [|v3 [|v2 [|v1 s]]]; try done.
  destruct (CastToBigNum v1), (CastToBigNum v2), (CastToBigNum v3); try done.
  rewrite !Forall_cons_iff in Hs. cbn [result_ok]. split; [|done]. constructor; [|tauto].
  destruct (_ && _); auto with nova.
Qed.

Lemma op_digest_ok opcode s a : stack_ok s → stack_ok a → result_ok (op_digest opcode s a).
Proof.
  intros Hs Ha. unfold op_digest. destruct s as [|v s]; [done|]. apply Forall_cons_iff in Hs as [_ Hs].
  cbn [result_ok]. split; [|done]. constructor; [|done].
  destruct (RIPEMD160_ok v), (SHA1_ok v), (SHA256_ok v), (RIPEMD160_ok (SHA256 v)), (SHA256_ok (SHA256 v)).
  destruct (opcode =? OP_RIPEMD160); [eapply digest_elem; [done|lia|done]|].
  destruct (opcode =? OP_SHA1); [eapply digest_elem; [done|lia|done]|].
  destruct (opcode =? OP_SHA256); [eapply digest_elem; [done|lia|done]|].
  destruct (opcode =? OP_HASH160); [apply (limbs_elem W160)|apply (limbs_elem W256)]; done || lia.
Qed.

Lemma op_verify_ok s a : stack_ok s → stack_ok a → result_ok (op_verify s a).
Proof. intros Hs Ha. unfold op_verify. stack_cases. Qed.

Lemma op_cltv_ok flags tx k s a : stack_ok s → stack_ok a → result_ok (op_checklocktimeverify flags tx k s a).
Proof. intros Hs Ha. unfold op_checklocktimeverify. repeat case_match; done. Qed.
Lemma op_csv_ok flags tx k s a : stack_ok s → stack_ok a → result_ok (op_checksequenceverify flags tx k s a).
Proof. intros Hs Ha. unfold op_checksequenceverify. repeat case_match; done. Qed.

(** ** Executing one instruction *)

Lemma push_vector_small b : Z.of_nat (length b) < OP_PUSHDATA1 → push_vector [] b = Z.of_nat (length b) :: b.
Proof.
  intros Hb. unfold push_vector. rewrite (proj2 (Z.ltb_lt _ _)) by done. unfold OP_PUSHDATA1 in Hb.
  rewrite u8_small by lia. done.
Qed.

(** ** The machine invariant *)

Context {Cache : Type} (CheckSig : valtype → valtype → list Z → Cache → bool * Cache).
Context (txTo : CTransaction) (nIn : nat) (flags : Z).

Record machine_ok (m : machine) : Prop := {
  m_pc : digits_ok 256 (pc (Cache:=Cache) m);
  m_stack : stack_ok (stack m);
  m_alt : stack_ok (altstack m);
  m_ops : 0 <= nOpCount m <= 201
}.
Definition outcome_ok (o : outcome) : Prop :=
  match o with Return_false s _ => stack_ok s | Next m => machine_ok m end.

Lemma with_stacks_ok m r : machine_ok m → result_ok r → outcome_ok (with_stacks m r).
Proof. intros [] Hr. destruct r; cbn in *; [done|]. destruct Hr. by split. Qed.

Lemma op_checksig_ok opcode m : machine_ok m → outcome_ok (op_checksig CheckSig flags opcode m).
Proof.
  intros Hm. assert (Hs := m_stack _ Hm). unfold op_checksig. destruct (stack m) as [|k [|g s]] eqn:E; [done..|].
  destruct (check_one _ _ _ _ _ _) as [f c]. rewrite !Forall_cons_iff in Hs. destruct Hs as (Hk & Hg & Hs).
  apply with_stacks_ok.
  - destruct Hm. split; cbn; rewrite ?E; auto.
  - apply finish_verify_ok; [|apply Hm]. constructor; [|done]. destruct f; auto with nova.
Qed.

Lemma op_checkmultisig_ok opcode m : machine_ok m → outcome_ok (op_checkmultisig CheckSig flags opcode m).
Proof.
  intros Hm. assert (Hs := m_stack _ Hm). assert (Ho := m_ops _ Hm). unfold op_checkmultisig. cbv zeta.
  repeat match goal with
  | |- outcome_ok (if ?b then _ else _) => destruct b eqn:?; [done|]
  | |- outcome_ok (match CastToBigNum ?v with _ => _ end) => destruct (CastToBigNum v); [|done]
  end.
  destruct (multisig_loop _ _ _ _ _ _) as [f c].
  destruct (drop _ (stack m)) as [|d s] eqn:E; [constructor|].
  assert (Hd : stack_ok (d :: s)) by (rewrite <- E; by apply Forall_drop).
  destruct (_ && _); [done|]. apply Forall_cons_iff in Hd as [Hd Hds]. apply with_stacks_ok.
  - destruct Hm. split; cbn; auto; try lia.
  - apply finish_verify_ok; [|apply Hm]. constructor; [|done]. destruct f; auto with nova.
Qed.

Lemma small_int_elem opcode : 0 <= opcode < 256 → elem_ok (getvch (CBigNum_int32 (opcode - (OP_1 - 1)))).
Proof. intros Ho. apply getvch_elem. unfold OP_1. rewrite CBigNum_int32_ok by lia. lia. Qed.

Lemma switch_ok opcode fExec m : 0 <= opcode < 256 → machine_ok m →
  outcome_ok (switch CheckSig txTo nIn flags opcode fExec m).
Proof.
  intros Hop Hm. assert (Hs := m_stack _ Hm). assert (Ha := m_alt _ Hm). unfold switch. cbv zeta.
  repeat match goal with |- outcome_ok (if ?b then _ else _) => destruct b eqn:? end;
    try (apply with_stacks_ok; [done|]); auto using stack_op1_ok, stack_op2_ok, op_equal_ok, op_unary_ok,
      op_binary_ok, op_within_ok, op_digest_ok, op_verify_ok, op_cltv_ok, op_csv_ok, op_checksig_ok, op_checkmultisig_ok.
  - destruct Hm. split; cbn; auto. constructor; [by apply small_int_elem|done].
  - unfold op_if. destruct fExec; [|destruct Hm; by split]. destruct (stack m) as [|v s] eqn:E; [done|].
    apply Forall_cons_iff in Hs as [_ Hs]. destruct Hm. by split.
  - unfold op_else. destruct (vfExec m); [done|]. destruct Hm; by split.
  - unfold op_endif. destruct (vfExec m); [done|]. destruct Hm; by split.
  - destruct Hm; by split.
Qed.

Definition keeps_pc (p : list Z) (o : outcome (Cache:=Cache)) : Prop :=
  match o with Next m => pc m = p | _ => True end.

Lemma with_stacks_pc p m r : pc m = p → keeps_pc p (with_stacks m r).
Proof. by destruct r. Qed.

Lemma switch_pc opcode fExec m : keeps_pc (pc m) (switch CheckSig txTo nIn flags opcode fExec m).
Proof.
  unfold switch. cbv zeta.
  repeat match goal with |- keeps_pc _ (if ?b then _ else _) => destruct b end; try (by apply with_stacks_pc); try done.
  - unfold op_if. repeat case_match; done.
  - unfold op_else. by destruct (vfExec m).
  - unfold op_endif. by destruct (vfExec m).
  - unfold op_checksig. destruct (stack m) as [|k [|g s]]; try done. destruct (check_one _ _ _ _ _ _).
    cbn. destruct (finish_verify _ _ _ _); done.
  - unfold op_checkmultisig. cbv zeta. repeat (case_match; try done); by apply with_stacks_pc.
Qed.

(** After every instruction the two stacks hold at most 1000 elements. *)
Lemma step_ok m : machine_ok m →
  match step CheckSig txTo nIn flags m with
  | Return_false s _ => stack_ok s
  | Next m' => machine_ok m' ∧ (length (stack m') + length (altstack m') <= 1000)%nat ∧
               (length (pc m') < length (pc m))%nat
  end.
Proof.
  intros Hm. assert (Hs := m_stack _ Hm). assert (Ho := m_ops _ Hm). unfold step. cbv zeta.
  destruct (GetOp (pc m)) as [[[op v] rest]|] eqn:E; [|done].
  destruct (GetOp_bytes _ _ _ _ (m_pc _ Hm) E) as (Hop & Hv & Hrest). assert (Hlen := GetOp_shorter _ _ _ _ E).
  destruct (Z.gtb_spec (Z.of_nat (length v)) MAX_SCRIPT_ELEMENT_SIZE); [done|].
  destruct ((op >? OP_16) && _) eqn:E2; [done|]. destruct (disabled_opcode op); [done|].
  set (m1 := mkM rest (pbegincodehash m) (stack m) (altstack m) (vfExec m) _ (cache m)).
  assert (Hm1 : machine_ok m1).
  { destruct Hm. split; cbn; auto. destruct (op >? OP_16); cbn in E2; lia. }
  set (r := if _ && _ then _ else _).
  assert (Hr : outcome_ok r ∧ keeps_pc rest r).
  { unfold r. destruct (_ && between 0 op OP_PUSHDATA4).
    - split; [|done]. destruct Hm1. split; cbn; auto. constructor; [split; [done|lia]|done].
    - destruct (_ || _); [|done]. split; [by apply switch_ok|]. apply (switch_pc _ _ m1). }
  clearbody r. destruct Hr as [Hr1 Hr2]. destruct r as [s c|m']; [done|]. cbn in Hr1, Hr2.
  destruct (Nat.ltb_spec 1000 (length (stack m') + length (altstack m'))); [apply Hr1|].
  rewrite Hr2. repeat split; try apply Hr1; lia.
Qed.

(** ** Termination: the length of the script is enough fuel *)

Lemma step_shorter m m' : step CheckSig txTo nIn flags m = Next m' → (length (pc m') < length (pc m))%nat.
Proof.
  unfold step. cbv zeta. destruct (GetOp (pc m)) as [[[op v] rest]|] eqn:E; [|done].
  apply GetOp_shorter in E. destruct (_ >? MAX_SCRIPT_ELEMENT_SIZE); [done|].
  destruct ((op >? OP_16) && _); [done|]. destruct (disabled_opcode op); [done|].
  set (m1 := mkM rest _ _ _ _ _ _). set (r := if _ && _ then _ else _).
  assert (Hr : keeps_pc rest r).
  { unfold r. destruct (_ && between 0 op OP_PUSHDATA4); [done|]. destruct (_ || _); [|done]. apply (switch_pc _ _ m1). }
  clearbody r. destruct r as [s c|m2]; [done|]. cbn in Hr. destruct (_ <? _)%nat; [done|]. intros [= <-]. rewrite Hr. done.
Qed.

Lemma eval_loop_fuel f1 f2 m : (length (pc m) <= f1)%nat → (length (pc m) <= f2)%nat →
  eval_loop CheckSig txTo nIn flags f1 m = eval_loop CheckSig txTo nIn flags f2 m.
Proof.
  revert f2 m. induction f1 as [|f1 IH]; intros f2 m H1 H2; destruct (pc m) as [|x l] eqn:E.
  - destruct f2; cbn; rewrite E; done.
  - cbn in H1. lia.
  - destruct f2; cbn; rewrite E; done.
  - destruct f2 as [|f2]; [cbn in H2; lia|]. cbn [eval_loop]. rewrite E.
    destruct (step CheckSig txTo nIn flags m) as [|m'] eqn:Es; [done|]. apply step_shorter in Es.
    rewrite E in Es. cbn in *. apply IH; lia.
Qed.

Definition eval (m : machine) : bool * list valtype * Cache := eval_loop CheckSig txTo nIn flags (length (pc m)) m.

Lemma eval_step m : pc m ≠ [] →
  eval m = match step CheckSig txTo nIn flags m with Return_false s c => (false, s, c) | Next m' => eval m' end.
Proof.
  intros Hne. unfold eval at 1. destruct (pc m) as [|x l] eqn:E; [done|]. cbn [length eval_loop]. rewrite E.
  destruct (step CheckSig txTo nIn flags m) as [|m'] eqn:Es; [done|]. apply step_shorter in Es. rewrite E in Es. cbn in Es.
  unfold eval. apply eval_loop_fuel; lia.
Qed.

Lemma eval_end m : pc m = [] → eval m = (bool_decide (vfExec m = []), stack m, cache m).
Proof. intros E. unfold eval. rewrite E. cbn. rewrite E. done. Qed.

(** All states between instructions *)
Lemma steps_ok m0 m : rtc (λ m m', step CheckSig txTo nIn flags m = Next m') m0 m → machine_ok m0 → (length (stack m0) + length (altstack m0) <= 1000)%nat →
  stack_ok (stack m) ∧ stack_ok (altstack m) ∧ (length (stack m) + length (altstack m) <= 1000)%nat ∧ 0 <= nOpCount m <= 201.
Proof.
  induction 1 as [m|m1 m2 m3 H12 _ IH]; intros Hm Hl; [by destruct Hm|]. assert (Hs := step_ok m1 Hm). rewrite H12 in Hs. destruct Hs as (Hm2 & Hl2 & _). by apply IH.
Qed.

Lemma eval_loop_ok fuel m : machine_ok m → (length (stack m) <= 1000)%nat →
  let '(b, s, c) := eval_loop CheckSig txTo nIn flags fuel m in
  stack_ok s ∧ (b = true → (length s <= 1000)%nat).
Proof.
  revert m. induction fuel as [|fuel IH]; intros m Hm Hl; destruct (pc m) eqn:E; cbn [eval_loop]; rewrite E.
  1-3: split; [apply Hm|done].
  assert (Hs := step_ok m Hm). destruct (step CheckSig txTo nIn flags m) as [s c|m'].
  - split; [done|]. done.
  - destruct Hs as (Hm' & Hl' & _). apply IH; [done|lia].
Qed.

(** One instruction outside of any conditional *)
Definition limit (o : outcome (Cache:=Cache)) : outcome :=
  match o with
  | Next m => if (1000 <? length (stack m) + length (altstack m))%nat then Return_false (stack m) (cache m) else o
  | _ => o
  end.
Lemma eval_exec op v rest code s a k c : GetOp (pc (mkM op code s a [] k c)) = Some (v.1, v.2, rest) →
  Z.of_nat (length v.2) <= MAX_SCRIPT_ELEMENT_SIZE → k < 201 → disabled_opcode v.1 = false →
  let m1 := mkM rest code s a [] (if v.1 >? OP_16 then k + 1 else k) c in
  eval (mkM op code s a [] k c) =
  match limit (if between 0 v.1 OP_PUSHDATA4 then Next (with_exec m1 (v.2 :: s) []) else switch CheckSig txTo nIn flags v.1 true m1) with
  | Return_false s c => (false, s, c) | Next m' => eval m' end.
Proof.
  destruct v as [o v]. cbn [fst snd pc]. intros HG Hl Hk Hd. cbv zeta.
  assert (op ≠ []) by (intros ->; done). rewrite eval_step by done. unfold step. cbn [pc stack altstack vfExec nOpCount cache pbegincodehash].
  rewrite HG, Hd. destruct (Z.gtb_spec (Z.of_nat (length v)) MAX_SCRIPT_ELEMENT_SIZE); [lia|].
  assert (((o >? OP_16) && ((if o >? OP_16 then k + 1 else k) >? 201)) = false) as ->.
  { destruct (o >? OP_16); [|done]. cbn. destruct (Z.gtb_spec (k + 1) 201); [lia|done]. }
  done.
Qed.

End facts.

(** ** Multisignature matching *)

Section multisig.
Context (ok : valtype → valtype → bool).

(** The loop with a check that has no state *)
Fixpoint match_sigs (keys sigs : list valtype) : bool :=
  match sigs with
  | [] => true
  | g :: sigs' =>
      match keys with
      | [] => false
      | k :: keys =>
          let sigs := if ok g k then sigs' else sigs in
          if (length keys <? length sigs)%nat then false else match_sigs keys sigs
      end
  end.

(** Matching greedily from the top is complete: it succeeds as soon as some
    order-preserving assignment of distinct keys verifies every signature. *)
Lemma match_sigs_ok keys sigs :
  match_sigs keys sigs = true ↔ ∃ ks, sublist ks keys ∧ Forall2 (λ g k, ok g k = true) sigs ks.
Proof.
  revert sigs. induction keys as [|k keys IH]; intros [|g sigs]; cbn [match_sigs].
  - split; [|done]. intros _. exists []. split; constructor.
  - split; [done|]. intros (ks & Hs & Hf). apply sublist_nil_r in Hs as ->. inversion Hf.
  - split; [|done]. intros _. exists []. split; [apply sublist_nil_l|constructor].
  - set (sigs1 := if ok g k then sigs else g :: sigs).
    assert (Hrest : (if (length keys <? length sigs1)%nat then false else match_sigs keys sigs1) = true ↔
      ∃ ks, sublist ks keys ∧ Forall2 (λ g k, ok g k = true) sigs1 ks).
    { destruct (Nat.ltb_spec (length keys) (length sigs1)) as [Hlt|]; [|apply IH]. split; [done|].
      intros (ks & Hs & Hf). apply sublist_length in Hs. apply Forall2_length in Hf. lia. }
    rewrite Hrest. unfold sigs1. clear Hrest sigs1 IH. destruct (ok g k) eqn:E; split.
    + intros (ks & Hs & Hf). exists (k :: ks). split; [by apply sublist_skip|by constructor].
    + intros (ks & Hs & Hf). apply Forall2_cons_inv_l in Hf as (k' & ks' & Hk' & Hf & ->). exists ks'. split; [|done].
      apply sublist_cons_r in Hs as [Hs|(l & [= -> ->] & Hs)]; [|done].
      eapply transitivity; [|exact Hs]. by apply sublist_cons.
    + intros (ks & Hs & Hf). exists ks. split; [by apply sublist_cons|done].
    + intros (ks & Hs & Hf). apply Forall2_cons_inv_l in Hf as (k' & ks' & Hk' & Hf & ->).
      apply sublist_cons_r in Hs as [Hs|(l & [= -> ->] & Hs)]; [|congruence].
      exists (k' :: ks'). split; [done|by constructor].
Qed.
End multisig.

(** ** Interpreters that differ in how they check signatures *)

Section simulation.
Context {BN : OpenSSL_BN} {DG : Digests} {C1 C2 : Type}.
Context (CheckSig1 : valtype → valtype → list Z → C1 → bool * C1).
Context (CheckSig2 : valtype → valtype → list Z → C2 → bool * C2).
Context (R : C1 → C2 → Prop).
Definition agree {A} (x : A * C1) (y : A * C2) : Prop := x.1 = y.1 ∧ R x.2 y.2.
Context (HC : ∀ g k code c1 c2, R c1 c2 → agree (CheckSig1 g k code c1) (CheckSig2 g k code c2)).
Context (txTo : CTransaction) (nIn : nat) (flags : Z).

Definition msim (m1 : machine (Cache:=C1)) (m2 : machine (Cache:=C2)) : Prop :=
  m2 = mkM (pc m1) (pbegincodehash m1) (stack m1) (altstack m1) (vfExec m1) (nOpCount m1) (cache m2) ∧
  R (cache m1) (cache m2).
Definition osim (o1 : outcome (Cache:=C1)) (o2 : outcome (Cache:=C2)) : Prop :=
  match o1, o2 with
  | Return_false s1 c1, Return_false s2 c2 => s1 = s2 ∧ R c1 c2
  | Next m1, Next m2 => msim m1 m2
  | _, _ => False
  end.

Lemma check_one_sim g k code c1 c2 : R c1 c2 →
  agree (check_one CheckSig1 flags g k code c1) (check_one CheckSig2 flags g k code c2).
Proof. intros HR. unfold check_one. destruct (_ && _); [by apply HC|by split]. Qed.

Lemma multisig_loop_sim code keys sigs c1 c2 : R c1 c2 →
  agree (multisig_loop CheckSig1 flags code keys sigs c1) (multisig_loop CheckSig2 flags code keys sigs c2).
Proof.
  revert sigs c1 c2. induction keys as [|k keys IH]; intros [|g sigs] c1 c2 HR; cbn [multisig_loop]; [by split..|].
  destruct (check_one_sim g k code c1 c2 HR) as [E HR'].
  destruct (check_one CheckSig1 flags g k code c1) as [b1 c1'], (check_one CheckSig2 flags g k code c2) as [b2 c2'].
  cbn in E, HR'. subst b2. destruct (_ <? _)%nat; [by split|]. by apply IH.
Qed.

Lemma with_stacks_sim m1 m2 r : msim m1 m2 → osim (with_stacks m1 r) (with_stacks m2 r).
Proof. intros [E HR]. rewrite E. destruct r; cbn; [done|]. by split. Qed.

Lemma op_checksig_sim opcode m1 m2 : msim m1 m2 →
  osim (op_checksig CheckSig1 flags opcode m1) (op_checksig CheckSig2 flags opcode m2).
Proof.
  intros [E HR]. rewrite E. unfold op_checksig. cbn [stack pbegincodehash cache pc altstack vfExec nOpCount].
  destruct (stack m1) as [|k [|g s]]; [by split..|].
  destruct (check_one_sim g k (FindAndDelete (pbegincodehash m1) (push_vector [] g)).1 _ _ HR) as [E' HR'].
  destruct (check_one CheckSig1 flags g k _ _) as [b1 c1'], (check_one CheckSig2 flags g k _ _) as [b2 c2'].
  cbn in E', HR'. subst b2. apply with_stacks_sim. by split.
Qed.

Lemma op_checkmultisig_sim opcode m1 m2 : msim m1 m2 →
  osim (op_checkmultisig CheckSig1 flags opcode m1) (op_checkmultisig CheckSig2 flags opcode m2).
Proof.
  intros [E HR]. rewrite E. unfold op_checkmultisig. cbv zeta. cbn [stack pbegincodehash cache pc altstack vfExec nOpCount].
  repeat match goal with
  | |- osim (if ?b then _ else _) _ => destruct b; [by split|]
  | |- osim (match CastToBigNum ?v with _ => _ end) _ => destruct (CastToBigNum v); [|by split]
  end.
  match goal with |- osim (let '(_, _) := multisig_loop _ _ ?code ?keys ?sigs _ in _) _ =>
    destruct (multisig_loop_sim code keys sigs _ _ HR) as [E' HR'];
    destruct (multisig_loop CheckSig1 flags code keys sigs _) as [b1 c1'], (multisig_loop CheckSig2 flags code keys sigs _) as [b2 c2'] end.
  cbn in E', HR'. subst b2. destruct (drop _ (stack m1)); [by split|]. destruct (_ && _); [by split|].
  apply with_stacks_sim. by split.
Qed.

Lemma switch_sim opcode fExec m1 m2 : msim m1 m2 →
  osim (switch CheckSig1 txTo nIn flags opcode fExec m1) (switch CheckSig2 txTo nIn flags opcode fExec m2).
Proof.
  intros Hm. assert (Hm' := Hm). destruct Hm' as [E HR]. unfold switch. cbv zeta.
  assert (stack m2 = stack m1 ∧ altstack m2 = altstack m1 ∧ vfExec m2 = vfExec m1) as (-> & -> & Ev) by (rewrite E; done).
  repeat match goal with |- osim (if ?b then _ else _) _ => destruct b end;
    try (apply with_stacks_sim; done); auto using op_checksig_sim, op_checkmultisig_sim; try (by split).
  - rewrite Ev. rewrite E. by split.
  - unfold op_if. rewrite E. cbn. destruct fExec; [|by split]. destruct (stack m1); by split.
  - unfold op_else. rewrite E. cbn. destruct (vfExec m1); by split.
  - unfold op_endif. rewrite E. cbn. destruct (vfExec m1); by split.
  - rewrite E. by split.
Qed.

Lemma step_sim m1 m2 : msim m1 m2 → osim (step CheckSig1 txTo nIn flags m1) (step CheckSig2 txTo nIn flags m2).
Proof.
  intros [E HR]. rewrite E. unfold step. cbv zeta. cbn [stack pbegincodehash cache pc altstack vfExec nOpCount].
  destruct (GetOp (pc m1)) as [[[op v] rest]|]; [|by split].
  repeat match goal with |- osim (if ?b then _ else _) _ => destruct b; [by split|] end.
  set (r1 := if _ && _ then _ else _). set (r2 := if _ && _ then _ else _).
  assert (Hr : osim r1 r2).
  { unfold r1, r2. destruct (_ && between 0 op OP_PUSHDATA4); [by split|].
    destruct (_ || _); [apply switch_sim|]; by split. }
  clearbody r1 r2. destruct r1 as [s1 c1|m1'], r2 as [s2 c2|m2']; try done.
  destruct Hr as [E' HR']. rewrite E'. cbn [stack altstack]. destruct (_ <? _)%nat; by split.
Qed.

Lemma EvalScript_sim s script c1 c2 : R c1 c2 →
  agree (EvalScript CheckSig1 txTo nIn flags s script c1) (EvalScript CheckSig2 txTo nIn flags s script c2).
Proof.
  intros HR. unfold EvalScript. destruct (_ >? 10000); [by split|].
  set (m1 := mkM script script s [] [] 0 c1). set (m2 := mkM script script s [] [] 0 c2).
  assert (Hm : msim m1 m2) by by split. clearbody m1 m2. revert m1 m2 Hm.
  generalize (length script) as fuel. induction fuel as [|fuel IH]; intros m1 m2 Hm; cbn [eval_loop];
    assert (pc m2 = pc m1 ∧ vfExec m2 = vfExec m1 ∧ stack m2 = stack m1) as (Ep & Ev & Es) by (destruct Hm as [-> _]; done);
    rewrite Ep; destruct (pc m1) eqn:Epc; rewrite ?Ev, ?Es; try (split; [done|apply Hm]).
  assert (Hs := step_sim m1 m2 Hm).
  destruct (step CheckSig1 txTo nIn flags m1), (step CheckSig2 txTo nIn flags m2); try done; [|by apply IH].
  destruct Hs as [-> ?]. by split.
Qed.
End simulation.

(** ** Concrete digests and signature checks for the witnesses *)

#[local] Instance sample_digests : Digests := {
  SHA1 _ := replicate 20 1;
  SHA256 x := replicate 31 2 ++ [Z.of_nat (length x) mod 256];
  RIPEMD160 x := replicate 19 3 ++ [List.last x 0 mod 256]
}.
#[local] Instance sample_digests_ok : DigestsOk.
Proof.
  assert (Hm : ∀ n, 0 <= n mod 256 < 256) by (intros; apply Z.mod_pos_bound; lia).
  split; intros x; cbn -[Z.of_nat Z.modulo]; (split; [done|]); repeat constructor; try lia; apply Hm.
Qed.

(** A signature is valid for a key when they are equal byte strings. *)
Definition sample_checksig (g k code : list Z) (c : unit) : bool * unit := (bool_decide (g = k), c).

(** A digest computed by [Hash160] is what OP_HASH160 pushes. *)
Definition p2pkh (h : base_uint) : list Z :=
  push_uint [OP_DUP; OP_HASH160] h ++ [OP_EQUALVERIFY; OP_CHECKSIG].

(** ** Properties *)

(** C28. Resource limits: from a stack of at most 1000 elements of at most 520 bytes,
    whatever the script and the outcome of its signature checks, every state of the
    machine between two instructions has at most 1000 elements on both stacks
    together, each of at most 520 bytes, and has counted at most 201 operations.
    [EvalScript] leaves elements of at most 520 bytes, and at most 1000 of them when it
    succeeds; it succeeds only on scripts of at most 10000 bytes. *)
Theorem EvalScript_limits {BN : OpenSSL_BN} {BNok : OpenSSL_BN_ok BN} {DG : Digests} {DGok : DigestsOk} {Cache}
    (CheckSig : valtype → valtype → list Z → Cache → bool * Cache) txTo nIn flags s script c :
  stack_ok s → (length s <= 1000)%nat → digits_ok 256 script →
  (∀ m, rtc (λ m m', step CheckSig txTo nIn flags m = Next m') (mkM script script s [] [] 0 c) m →
    stack_ok (stack m) ∧ stack_ok (altstack m) ∧ (length (stack m) + length (altstack m) <= 1000)%nat ∧ 0 <= nOpCount m <= 201) ∧
  let '(b, s', _) := EvalScript CheckSig txTo nIn flags s script c in
  stack_ok s' ∧ (b = true → (length s' <= 1000)%nat ∧ Z.of_nat (length script) <= 10000).
Proof.
  intros Hs Hl Hd. assert (Hm : machine_ok (mkM script script s [] [] 0 c)) by (split; cbn; auto; lia). split.
  { intros m Hr. apply (steps_ok CheckSig txTo nIn flags _ _ Hr Hm). cbn [stack altstack length]. lia. }
  unfold EvalScript. destruct (Z.gtb_spec (Z.of_nat (length script)) 10000); [done|].
  assert (H' := eval_loop_ok CheckSig txTo nIn flags (length script) _ Hm Hl).
  destruct (eval_loop _ _ _ _ _ _) as [[b s'] c']. destruct H' as [H1 H2]. auto with lia.
Qed.

Lemma EvalScript_limits_witness :
  let '(b, s', _) := EvalScript sample_checksig sample_tx 0 0 [[5]] [118; 147] tt in
  stack_ok s' ∧ (b = true → (length s' <= 1000)%nat ∧ Z.of_nat (length [118; 147]) <= 10000).
Proof.
  apply (EvalScript_limits sample_checksig sample_tx 0 0 [[5]] [118; 147] tt).
  - constructor; [|constructor]. split; [constructor; [lia|constructor]|vm_compute; congruence].
  - cbn. lia.
  - constructor; [lia|]. constructor; [lia|constructor].
Defined.

(** Termination: running the interpreter loop with any fuel from the length of
    the script on gives the result of [EvalScript]; the loop never stops for
    want of fuel, since every instruction consumes at least one byte. *)
Theorem EvalScript_terminates {BN : OpenSSL_BN} {DG : Digests} {Cache}
    (CheckSig : valtype → valtype → list Z → Cache → bool * Cache) txTo nIn flags s script c fuel :
  Z.of_nat (length script) <= 10000 → (length script <= fuel)%nat →
  eval_loop CheckSig txTo nIn flags fuel (mkM script script s [] [] 0 c) =
  EvalScript CheckSig txTo nIn flags s script c.
Proof.
  intros Hl Hf. unfold EvalScript. destruct (Z.gtb_spec (Z.of_nat (length script)) 10000); [lia|].
  apply eval_loop_fuel; done.
Qed.

Lemma EvalScript_terminates_witness :
  eval_loop sample_checksig sample_tx 0 0 100 (mkM [81; 82; 147] [81; 82; 147] [] [] [] 0 tt) =
  EvalScript sample_checksig sample_tx 0 0 [] [81; 82; 147] tt.
Proof. apply EvalScript_terminates; cbn; lia. Defined.

(** Script arithmetic: on operands of at most four bytes the numeric opcodes
    compute over the integers, with results of up to five bytes that never wrap;
    longer operands make the script fail and leave the stack as it was. *)
Theorem script_arithmetic {BN : OpenSSL_BN} {BNok : OpenSSL_BN_ok BN} op v1 v2 s a :
  digits_ok 256 v1 → digits_ok 256 v2 →
  (if (length v1 <=? 4)%nat
   then ∃ r, op_unary op (v1 :: s) a = Good (r :: s) a ∧ scriptnum r = unary_spec op (scriptnum v1)
   else op_unary op (v1 :: s) a = Bad (v1 :: s)) ∧
  (op ≠ OP_NUMEQUALVERIFY →
   if (length v1 <=? 4)%nat && (length v2 <=? 4)%nat
   then ∃ r, op_binary op (v2 :: v1 :: s) a = Good (r :: s) a ∧
             scriptnum r = binary_spec op (scriptnum v1) (scriptnum v2)
   else op_binary op (v2 :: v1 :: s) a = Bad (v2 :: v1 :: s)).
Proof.
  intros H1 H2. assert (Hc1 := CastToBigNum_ok v1 H1). assert (Hc2 := CastToBigNum_ok v2 H2).
  unfold op_unary, op_binary, finish_verify. split.
  - destruct (Nat.leb_spec (length v1) 4), (CastToBigNum v1) as [b1|]; try lia; [|done].
    destruct Hc1 as (_ & Hb & _). eexists. split; [done|]. rewrite scriptnum_getvch, unary_num_ok, Hb. done.
  - intros Hop. apply Z.eqb_neq in Hop. rewrite Hop.
    destruct (Nat.leb_spec (length v1) 4), (CastToBigNum v1) as [b1|]; try lia; [|done].
    destruct (Nat.leb_spec (length v2) 4), (CastToBigNum v2) as [b2|]; try lia; [|done].
    destruct Hc1 as (_ & Hb1 & _), Hc2 as (_ & Hb2 & _). cbn [andb]. eexists. split; [done|].
    rewrite scriptnum_getvch, binary_num_ok, Hb1, Hb2. done.
Qed.

Lemma script_arithmetic_witness :
  ∃ r, op_unary OP_NEGATE [[7]] [] = Good [r] [] ∧ scriptnum r = unary_spec OP_NEGATE (scriptnum [7]).
Proof. apply (script_arithmetic OP_NEGATE [7] [8] [] []); repeat constructor; lia. Defined.

(** The lock-time opcodes, where enabled, succeed exactly when the operand has
    at most four bytes, is not negative and passes [CheckLockTime] or
    [CheckSequence], and never change the stacks.  So no operand makes
    CHECKSEQUENCEVERIFY a no-op: the test for the disable flag, bit 31, is made
    on a number below 2^31. *)
Theorem locktime_opcodes {BN : OpenSSL_BN} {BNok : OpenSSL_BN_ok BN} flags txTo nIn v s a : digits_ok 256 v →
  let operand_ok := (length v <=? 4)%nat && (0 <=? scriptnum v) in
  (has_flag flags SCRIPT_VERIFY_CHECKLOCKTIMEVERIFY = true →
   op_checklocktimeverify flags txTo nIn (v :: s) a =
   if operand_ok && CheckLockTime (scriptnum v) txTo nIn then Good (v :: s) a else Bad (v :: s)) ∧
  (has_flag flags SCRIPT_VERIFY_CHECKSEQUENCEVERIFY = true →
   op_checksequenceverify flags txTo nIn (v :: s) a =
   if operand_ok && CheckSequence (scriptnum v) txTo nIn then Good (v :: s) a else Bad (v :: s)).
Proof.
  intros Hv. cbv zeta. assert (Hc := CastToBigNum_ok v Hv).
  unfold op_checklocktimeverify, op_checksequenceverify. split; intros ->; cbn [negb].
  - destruct (Nat.leb_spec (length v) 4), (CastToBigNum v) as [b|]; try lia; [|done].
    destruct Hc as (_ & Hb & Hr). rewrite bn_lt_ok, bnZero_ok, Hb. cbn [andb].
    destruct (Z.ltb_spec (scriptnum v) 0), (Z.leb_spec 0 (scriptnum v)); try lia; [done|]. cbn [andb].
    rewrite getuint64_ok, Hb, Z.abs_eq, Z.mod_small, i64_small by lia. by destruct (CheckLockTime _ _ _).
  - destruct (Nat.leb_spec (length v) 4), (CastToBigNum v) as [b|]; try lia; [|done].
    destruct Hc as (_ & Hb & Hr). rewrite bn_lt_ok, bnZero_ok, Hb. cbn [andb].
    destruct (Z.ltb_spec (scriptnum v) 0), (Z.leb_spec 0 (scriptnum v)); try lia; [done|]. cbn [andb].
    rewrite getint32_ok, Hb, u32_small by (rewrite ?Hb; lia).
    assert (Z.land (scriptnum v) SEQUENCE_LOCKTIME_DISABLE_FLAG = 0) as ->.
    { change SEQUENCE_LOCKTIME_DISABLE_FLAG with (2 ^ 31). rewrite land_pow2 by lia.
      rewrite (testbit_above _ 31) by lia. done. }
    cbn [negb Z.eqb]. rewrite getuint64_ok, Hb, Z.abs_eq, Z.mod_small, i64_small by lia. by destruct (CheckSequence _ _ _).
Qed.

Lemma locktime_opcodes_witness :
  op_checksequenceverify 1024 sample_tx 0 [[7]] [] =
  if ((length [7] <=? 4)%nat && (0 <=? scriptnum [7])) && CheckSequence (scriptnum [7]) sample_tx 0
  then Good [[7]] [] else Bad [[7]].
Proof. apply (locktime_opcodes 1024 sample_tx 0 [7] [] []); [repeat constructor; lia|reflexivity]. Defined.

(** CHECKMULTISIG finds a matching whenever there is one: with a check that has
    no state, the loop succeeds exactly when some keys, in the order of the key
    list and each used once, verify the signatures one by one. *)
Theorem multisig_complete (CheckSig : valtype → valtype → list Z → unit → bool * unit) flags code keys sigs :
  (multisig_loop CheckSig flags code keys sigs tt).1 = true ↔
  ∃ ks, sublist ks keys ∧ Forall2 (λ g k, (check_one CheckSig flags g k code tt).1 = true) sigs ks.
Proof.
  assert (E : ∀ sigs, (multisig_loop CheckSig flags code keys sigs tt).1 =
    match_sigs (λ g k, (check_one CheckSig flags g k code tt).1) keys sigs).
  { clear sigs. induction keys as [|k keys IH]; intros [|g sigs]; cbn [multisig_loop match_sigs]; try done.
    destruct (check_one CheckSig flags g k code tt) as [b []]. cbn [fst]. destruct (_ <? _)%nat; [done|]. apply IH. }
  rewrite E. apply match_sigs_ok.
Qed.

(** Rewrite the result of one instruction to the next machine state. *)
Ltac to_next m := match goal with |- context [limit ?o] => change (limit o) with (Next m); cbv iota end.

(** Pay to public key hash: run on a key and a signature, the script checks that
    the key hashes to the committed value, then succeeds leaving the verdict of
    the signature check as its only element. *)
Theorem p2pkh_eval {BN : OpenSSL_BN} {DG : Digests} {Cache}
    (CheckSig : valtype → valtype → list Z → Cache → bool * Cache) txTo nIn flags h vchSig vchPubKey c :
  wf W160 h →
  EvalScript CheckSig txTo nIn flags [vchPubKey; vchSig] (p2pkh h) c =
  if bool_decide (getBytes (Hash160 vchPubKey) = getBytes h) then
    let code := (FindAndDelete (p2pkh h) (push_vector [] vchSig)).1 in
    let '(fSuccess, c) := check_one CheckSig flags vchSig vchPubKey code c in
    (true, [if fSuccess then vchTrue else vchFalse], c)
  else (false, [vchFalse; vchPubKey; vchSig], c).
Proof.
  intros Hh. destruct (getBytes_ok W160 h Hh) as (_ & Hlen & _). unfold EvalScript.
  assert (Hs : p2pkh h = OP_DUP :: OP_HASH160 :: push_vector [] (getBytes h) ++ [OP_EQUALVERIFY; OP_CHECKSIG]).
  { unfold p2pkh. rewrite (push_uint_vector W160) by done. rewrite push_vector_app. done. }
  assert (HG := GetOp_push_vector (getBytes h) [OP_EQUALVERIFY; OP_CHECKSIG] ltac:(rewrite Hlen; done)).
  assert (Hop : push_opcode_of (getBytes h) = 20) by (unfold push_opcode_of; rewrite Hlen; done). rewrite Hop in HG.
  destruct (Z.gtb_spec (Z.of_nat (length (p2pkh h))) 10000) as [Hgt|_].
  { exfalso. rewrite Hs, push_vector_small in Hgt by (rewrite Hlen; done).
    cbn [length app] in Hgt. rewrite length_app, Hlen in Hgt. cbn in Hgt. lia. }
  change (eval_loop CheckSig txTo nIn flags (length (p2pkh h)) ?m) with (eval CheckSig txTo nIn flags m).
  set (code := p2pkh h) in *. rewrite Hs at 1.
  assert (HG0 : ∀ o r, OP_PUSHDATA4 < o → GetOp (o :: r) = Some (o, [], r)).
  { intros o r Ho. cbn [GetOp]. rewrite (proj2 (Z.leb_gt _ _)) by done. done. }
  erewrite (eval_exec _ _ _ _ _ (OP_DUP, [])) by (done || by apply HG0).
  to_next (mkM (Cache:=Cache) (OP_HASH160 :: push_vector [] (getBytes h) ++ [OP_EQUALVERIFY; OP_CHECKSIG]) code
    [vchPubKey; vchPubKey; vchSig] [] [] 1 c).
  erewrite (eval_exec _ _ _ _ _ (OP_HASH160, [])) by (done || by apply HG0).
  to_next (mkM (Cache:=Cache) (push_vector [] (getBytes h) ++ [OP_EQUALVERIFY; OP_CHECKSIG]) code
    [getBytes (Hash160 vchPubKey); vchPubKey; vchSig] [] [] 2 c).
  erewrite (eval_exec _ _ _ _ _ (20, getBytes h)) by (done || (cbn [snd]; rewrite Hlen; done)).
  to_next (mkM (Cache:=Cache) [OP_EQUALVERIFY; OP_CHECKSIG] code
    [getBytes h; getBytes (Hash160 vchPubKey); vchPubKey; vchSig] [] [] 2 c).
  erewrite (eval_exec _ _ _ _ _ (OP_EQUALVERIFY, [])) by (done || by apply HG0).
  change (between 0 (OP_EQUALVERIFY, @nil Z).1 OP_PUSHDATA4) with false. cbv iota.
  match goal with |- context [switch ?a ?b ?c ?d ?e ?f ?m] => change (switch a b c d e f m) with (with_stacks m (op_equal OP_EQUALVERIFY (stack m) (altstack m))) end.
  unfold op_equal. cbn [stack altstack]. case_bool_decide as E; [|done].
  to_next (mkM (Cache:=Cache) [OP_CHECKSIG] code [vchPubKey; vchSig] [] [] 3 c).
  erewrite (eval_exec _ _ _ _ _ (OP_CHECKSIG, [])) by (done || by apply HG0).
  change (between 0 (OP_CHECKSIG, @nil Z).1 OP_PUSHDATA4) with false. cbv iota.
  match goal with |- context [switch ?a ?b ?c ?d ?e ?f ?m] => change (switch a b c d e f m) with (op_checksig a d OP_CHECKSIG m) end.
  unfold op_checksig. cbn [stack pbegincodehash cache]. destruct (check_one _ _ _ _ _ _) as [b c'].
  to_next (mkM (Cache:=Cache) [] code [if b then vchTrue else vchFalse] [] [] 4 c').
  rewrite eval_end; done.
Qed.

Lemma p2pkh_eval_witness :
  EvalScript sample_checksig sample_tx 0 0 [[2; 3]; [2; 3]] (p2pkh (Hash160 [2; 3])) tt =
  if bool_decide (getBytes (Hash160 [2; 3]) = getBytes (Hash160 [2; 3])) then
    let code := (FindAndDelete (p2pkh (Hash160 [2; 3])) (push_vector [] [2; 3])).1 in
    let '(fSuccess, c) := check_one sample_checksig 0 [2; 3] [2; 3] code tt in
    (true, [if fSuccess then vchTrue else vchFalse], c)
  else (false, [vchFalse; [2; 3]; [2; 3]], tt).
Proof.
  apply p2pkh_eval. apply Hash160_wf.
Defined.
