(* ===== verification/SigCheck.v ===== *)
(** * Signature checking and script verification (src/script.cpp, src/key.h)

    The hash a signature commits to, the cache of valid signatures, [CheckSig]
    and [VerifyScript].  ECDSA verification ([CPubKey::Verify], a call to
    OpenSSL) is a parameter.  The cache is shown to be transparent: with a sound
    cache, verification returns what it returns without one. *)

From stdpp Require Import base list numbers option gmap.
From Stdlib Require Import ZArith Lia.
From S2P Require Import Prelude Uint256 Bignum Serialize Tx Script Interp.

Open Scope Z_scope.

(** ** Public keys *)

(** A [CPubKey] is the bytes from [begin()] to [end()]: none when invalid. *)
Definition GetLen (chHeader : Z) : Z :=
  if (chHeader =? 2) || (chHeader =? 3) then 33
  else if (chHeader =? 4) || (chHeader =? 6) || (chHeader =? 7) then 65
  else 0.
Definition CPubKey_Set (vch : list Z) : list Z :=
  let len := match vch with [] => 0 | b :: _ => GetLen b end in
  if negb (len =? 0) && (len =? Z.of_nat (length vch)) then vch else [].
Definition CPubKey_size (key : list Z) : Z := match key with [] => 0 | b :: _ => GetLen b end.
Definition CPubKey_IsValid (key : list Z) : bool := CPubKey_size key >? 0.

(** ** Signature hashes *)

Definition set_scriptSig (s : list Z) (i : CTxIn) : CTxIn := mkTxIn (prevout i) s (nSequence i).
Definition set_nSequence (q : Z) (i : CTxIn) : CTxIn := mkTxIn (prevout i) (scriptSig i) q.

(** "Let the others update at will" *)
Definition zero_sequences (nIn : nat) (v : list CTxIn) : list CTxIn :=
  imap (λ i txin, if bool_decide (i ≠ nIn) then set_nSequence 0 txin else txin) v.

Definition SignatureHash `{Digests} (scriptCode : list Z) (txTo : CTransaction) (nIn : nat) (nHashType : Z) : base_uint :=
  let one := bu_of_u64 W256 1 in
  if (length (vin txTo) <=? nIn)%nat then one
  else
    let scriptCode := (FindAndDelete scriptCode [OP_CODESEPARATOR]).1 in
    let vin1 := map (set_scriptSig []) (vin txTo) in
    let vin1 := alter (set_scriptSig scriptCode) nIn vin1 in
    let finish vin1 vout1 :=
      let vin1 :=
        if negb (Z.land nHashType SIGHASH_ANYONECANPAY =? 0) then [nth nIn vin1 CTxIn_default] else vin1 in
      let txTmp := mkTx (nVersion txTo) (nTime txTo) vin1 vout1 (nLockTime txTo) in
      Hash (Serialize txTmp ++ write_int 4 nHashType) in
    if Z.land nHashType 0x1f =? SIGHASH_NONE then finish (zero_sequences nIn vin1) []
    else if Z.land nHashType 0x1f =? SIGHASH_SINGLE then
      let nOut := nIn in
      if (length (vout txTo) <=? nOut)%nat then one
      else
        let vout1 := imap (λ i txout, if (i <? nOut)%nat then CTxOut_SetNull else txout) (take (S nOut) (vout txTo)) in
        finish (zero_sequences nIn vin1) vout1
    else finish vin1 (vout txTo).

(** ** The cache of valid signatures *)

Abbreviation sigdata := (base_uint * list Z * list Z)%type.

Section CheckSig.
Context {DG : Digests}.
(** [CPubKey::Verify(hash, vchSig)] *)
Variable Verify : list Z → base_uint → list Z → bool.
(** [GetArg("-maxsigcachesize", 50000)] *)
Variable nMaxCacheSize : Z.
(** The entry a random hash selects: the first one not below it, else the first *)
Variable random_entry : gset sigdata → sigdata.

Definition cache_Get (setValid : gset sigdata) (hash : base_uint) (vchSig pubKey : list Z) : bool :=
  bool_decide ((hash, vchSig, pubKey) ∈ setValid).

Fixpoint cache_evict (fuel : nat) (setValid : gset sigdata) : gset sigdata :=
  match fuel with
  | O => setValid
  | S fuel =>
      if Z.of_nat (size setValid) >? nMaxCacheSize
      then cache_evict fuel (setValid ∖ {[random_entry setValid]})
      else setValid
  end.
Definition cache_Set (setValid : gset sigdata) (hash : base_uint) (vchSig pubKey : list Z) : gset sigdata :=
  if nMaxCacheSize <=? 0 then setValid
  else {[(hash, vchSig, pubKey)]} ∪ cache_evict (size setValid) setValid.

(** [CheckSig]; the arguments before the signature are those the interpreter
    keeps fixed. *)
Definition CheckSig (txTo : CTransaction) (nIn : nat) (nHashType flags : Z)
    (vchSig vchPubKey scriptCode : list Z) (cache : gset sigdata) : bool * gset sigdata :=
  let pubkey := CPubKey_Set vchPubKey in
  if negb (CPubKey_IsValid pubkey) then (false, cache)
  else if bool_decide (vchSig = []) then (false, cache)
  else
    let back := List.last vchSig 0 in
    if negb (nHashType =? 0) && negb (nHashType =? back) then (false, cache)
    else
      let nHashType := back in
      let vchSig := removelast vchSig in
      let sighash := SignatureHash scriptCode txTo nIn nHashType in
      if cache_Get cache sighash vchSig pubkey then (true, cache)
      else if negb (Verify pubkey sighash vchSig) then (false, cache)
      else (true, if negb (has_flag flags SCRIPT_VERIFY_NOCACHE)
                  then cache_Set cache sighash vchSig pubkey else cache).

(** The check the cache stands for *)
Definition CheckSig_spec (txTo : CTransaction) (nIn : nat) (nHashType : Z)
    (vchSig vchPubKey scriptCode : list Z) : bool :=
  let pubkey := CPubKey_Set vchPubKey in
  let back := List.last vchSig 0 in
  CPubKey_IsValid pubkey && negb (bool_decide (vchSig = [])) && ((nHashType =? 0) || (nHashType =? back)) &&
  Verify pubkey (SignatureHash scriptCode txTo nIn back) (removelast vchSig).

End CheckSig.

(** ** [VerifyScript]

    [None] is the assertion that the copied stack is not empty. *)
Section VerifyScript.
Context {BN : OpenSSL_BN} {DG : Digests} {Cache : Type}.
Context (CheckSig : valtype → valtype → list Z → Cache → bool * Cache).

Definition VerifyScript (txTo : CTransaction) (nIn : nat) (flags : Z) (scriptSig scriptPubKey : list Z) (c : Cache)
    : option bool * Cache :=
  let '(ok, stack, c) := EvalScript CheckSig txTo nIn flags [] scriptSig c in
  if negb ok then (Some false, c)
  else
    let stackCopy := if has_flag flags SCRIPT_VERIFY_P2SH then stack else [] in
    let '(ok, stack, c) := EvalScript CheckSig txTo nIn flags stack scriptPubKey c in
    if negb ok then (Some false, c)
    else match stack with
    | [] => (Some false, c)
    | top :: _ =>
        if negb (CastToBool top) then (Some false, c)
        else if has_flag flags SCRIPT_VERIFY_P2SH && IsPayToScriptHash scriptPubKey then
          if negb (IsPushOnly scriptSig) then (Some false, c)
          else match stackCopy with
          | [] => (None, c)
          | pubKey2 :: stackCopy =>
              let '(ok, stackCopy, c) := EvalScript CheckSig txTo nIn flags stackCopy pubKey2 c in
              if negb ok then (Some false, c)
              else match stackCopy with
              | [] => (Some false, c)
              | top :: _ => (Some (CastToBool top), c)
              end
          end
        else (Some true, c)
    end.
End VerifyScript.

(** ** The cache is transparent *)

Section cache.
Context {DG : Digests}.
Context (Verify : list Z → base_uint → list Z → bool) (nMaxCacheSize : Z) (random_entry : gset sigdata → sigdata).
Context (random_entry_in : ∀ S, S ≠ ∅ → random_entry S ∈ S).

(** Every entry verifies, and there is at most one more than the limit. *)
Record cache_ok (S : gset sigdata) : Prop := {
  cache_sound : ∀ h g k, (h, g, k) ∈ S → Verify k h g = true;
  cache_bound : Z.of_nat (size S) <= Z.max 0 (nMaxCacheSize + 1)
}.

Lemma cache_evict_ok fuel S : 0 < nMaxCacheSize → (size S <= fuel)%nat →
  cache_evict nMaxCacheSize random_entry fuel S ⊆ S ∧
  Z.of_nat (size (cache_evict nMaxCacheSize random_entry fuel S)) <= nMaxCacheSize.
Proof.
  intros Hn. revert S. induction fuel as [|fuel IH]; intros S Hf; cbn [cache_evict]; [split; [done|lia]|].
  destruct (Z.gtb_spec (Z.of_nat (size S)) nMaxCacheSize); [|split; [done|lia]].
  assert (S ≠ ∅) as Hne by (intros ->; rewrite size_empty in *; lia).
  assert (Hin := random_entry_in S Hne).
  assert (Hsz : size (S ∖ {[random_entry S]}) = (size S - 1)%nat).
  { rewrite size_difference by set_solver. rewrite size_singleton. done. }
  destruct (IH (S ∖ {[random_entry S]})) as [H1 H2]; [lia|]. split; [set_solver|done].
Qed.

Lemma cache_Set_ok S h g k : cache_ok S → Verify k h g = true →
  cache_ok (cache_Set nMaxCacheSize random_entry S h g k).
Proof.
  intros [Hs Hb] Hv. unfold cache_Set. destruct (Z.leb_spec nMaxCacheSize 0); [by split|].
  destruct (cache_evict_ok (size S) S) as [H1 H2]; [lia|lia|]. split.
  - intros h' g' k' [E|Hin]%elem_of_union; [|eauto]. apply elem_of_singleton in E. by simplify_eq.
  - assert (Hu := size_union_alt ({[(h, g, k)]} : gset sigdata) (cache_evict nMaxCacheSize random_entry (size S) S)).
    assert (Hd := subseteq_size (cache_evict nMaxCacheSize random_entry (size S) S ∖ {[(h, g, k)]})
                    (cache_evict nMaxCacheSize random_entry (size S) S) ltac:(set_solver)).
    rewrite size_singleton in Hu. lia.
Qed.

Lemma CheckSig_cache tx nIn ht flags g k code S : cache_ok S →
  let r := CheckSig Verify nMaxCacheSize random_entry tx nIn ht flags g k code S in
  r.1 = CheckSig_spec Verify tx nIn ht g k code ∧ cache_ok r.2.
Proof.
  intros HS. unfold CheckSig, CheckSig_spec. cbv zeta. destruct (CPubKey_IsValid _); [|done].
  destruct (bool_decide (g = [])); [done|]. cbn [andb negb].
  destruct (ht =? 0), (ht =? List.last g 0); cbn [andb negb orb]; try done;
    unfold cache_Get; case_bool_decide as Hin; cbn [fst snd];
    (split; [by rewrite (cache_sound _ HS _ _ _ Hin)|done]) ||
    (destruct (Verify _ _ _) eqn:E; cbn; [|done]; split; [done|];
     destruct (has_flag flags SCRIPT_VERIFY_NOCACHE); cbn; [done|by apply cache_Set_ok]).
Qed.
End cache.

Section simulation.
Context {BN : OpenSSL_BN} {DG : Digests} {C1 C2 : Type}.
Context (CheckSig1 : valtype → valtype → list Z → C1 → bool * C1).
Context (CheckSig2 : valtype → valtype → list Z → C2 → bool * C2).
Context (R : C1 → C2 → Prop).
Context (HC : ∀ g k code c1 c2, R c1 c2 → agree R (CheckSig1 g k code c1) (CheckSig2 g k code c2)).

Lemma VerifyScript_sim txTo nIn flags scriptSig scriptPubKey c1 c2 : R c1 c2 →
  agree R (VerifyScript CheckSig1 txTo nIn flags scriptSig scriptPubKey c1)
          (VerifyScript CheckSig2 txTo nIn flags scriptSig scriptPubKey c2).
Proof.
  intros HR. unfold VerifyScript.
  assert (Heval : ∀ s script c1 c2, R c1 c2 → ∃ b s' d1 d2,
    EvalScript CheckSig1 txTo nIn flags s script c1 = (b, s', d1) ∧
    EvalScript CheckSig2 txTo nIn flags s script c2 = (b, s', d2) ∧ R d1 d2).
  { intros s script e1 e2 He. destruct (EvalScript_sim CheckSig1 CheckSig2 R HC txTo nIn flags s script e1 e2 He) as [E1 E2].
    destruct (EvalScript CheckSig1 _ _ _ _ _ _) as [[b s1] d1], (EvalScript CheckSig2 _ _ _ _ _ _) as [[b2 s2] d2].
    cbn in E1, E2. simplify_eq. eauto 10. }
  destruct (Heval [] scriptSig c1 c2 HR) as (b & s & d1 & d2 & -> & -> & HR1). destruct b; cbn [negb]; [|by split].
  destruct (Heval s scriptPubKey d1 d2 HR1) as (b & s2 & e1 & e2 & -> & -> & HR2). destruct b; cbn [negb]; [|by split].
  destruct s2 as [|top s2]; [by split|]. destruct (CastToBool top); cbn [negb]; [|by split].
  destruct (_ && _); [|by split]. destruct (IsPushOnly scriptSig); cbn [negb]; [|by split].
  destruct (if has_flag _ _ then s else []) as [|p s3]; [by split|].
  destruct (Heval s3 p e1 e2 HR2) as (b & s4 & f1 & f2 & -> & -> & HR3). destruct b; cbn [negb]; [|by split].
  destruct s4; by split.
Qed.
End simulation.

(** ** Pay to script hash *)

Definition p2sh (h : list Z) : list Z := OP_HASH160 :: 20 :: h ++ [OP_EQUAL].

Lemma IsPayToScriptHash_shape script :
  IsPayToScriptHash script = true ↔ ∃ h, length h = 20%nat ∧ script = p2sh h.
Proof.
  unfold IsPayToScriptHash, p2sh. split.
  - intros H. apply andb_true_iff in H as [H H4]. apply andb_true_iff in H as [H H3].
    apply andb_true_iff in H as [H1 H2]. apply Nat.eqb_eq in H1. apply Z.eqb_eq in H2, H3, H4.
    destruct script as [|a [|b t]]; try (cbn in H1; lia). cbn in H1, H2, H3. subst a b.
    destruct (decide (t = [])) as [->|Hne]; [cbn in H1; lia|].
    destruct (exists_last Hne) as (h & x & ->). rewrite length_app in H1. cbn in H1.
    exists h. split; [lia|]. change (nth 20 (h ++ [x]) 0 = OP_EQUAL) in H4.
    rewrite app_nth2 in H4 by lia. replace (20 - length h)%nat with 0%nat in H4 by lia. cbn in H4. subst x. done.
  - intros (h & Hl & ->). rewrite !andb_true_iff, !Z.eqb_eq, Nat.eqb_eq. cbn [length nth].
    rewrite length_app. cbn [length]. split; [split; [split; [lia|done]|done]|].
    change (nth 22 (OP_HASH160 :: 20 :: h ++ [OP_EQUAL]) 0) with (nth 20 (h ++ [OP_EQUAL]) 0).
    rewrite app_nth2 by lia. replace (20 - length h)%nat with 0%nat by lia. done.
Qed.

Section p2sh.
Context {BN : OpenSSL_BN} {DG : Digests} {Cache : Type}.
Context (CheckSig : valtype → valtype → list Z → Cache → bool * Cache) (txTo : CTransaction) (nIn : nat) (flags : Z).

(** The output script leaves one verdict in place of the top element. *)
Lemma p2sh_eval h stk c : length h = 20%nat → (length stk < 1000)%nat →
  EvalScript CheckSig txTo nIn flags stk (p2sh h) c =
  match stk with
  | [] => (false, [], c)
  | v :: s => (true, (if bool_decide (getBytes (Hash160 v) = h) then vchTrue else vchFalse) :: s, c)
  end.
Proof.
  intros Hl Hstk. unfold EvalScript. destruct (Z.gtb_spec (Z.of_nat (length (p2sh h))) 10000) as [Hgt|_].
  { exfalso. unfold p2sh in Hgt. cbn [length] in Hgt. rewrite length_app in Hgt. cbn [length] in Hgt. lia. }
  change (eval_loop CheckSig txTo nIn flags (length (p2sh h)) ?m) with (eval CheckSig txTo nIn flags m).
  set (code := p2sh h) at 2. assert (Hs : p2sh h = OP_HASH160 :: push_vector [] h ++ [OP_EQUAL]).
  { unfold p2sh. rewrite push_vector_small by (rewrite Hl; done). rewrite Hl. done. }
  assert (HG := GetOp_push_vector h [OP_EQUAL] ltac:(rewrite Hl; done)).
  assert (Hop : push_opcode_of h = 20) by (unfold push_opcode_of; rewrite Hl; done). rewrite Hop in HG.
  rewrite Hs. clearbody code.
  assert (HG0 : ∀ o r, OP_PUSHDATA4 < o → GetOp (o :: r) = Some (o, [], r)).
  { intros o r Ho. cbn [GetOp]. rewrite (proj2 (Z.leb_gt _ _)) by done. done. }
  erewrite (eval_exec _ _ _ _ _ (OP_HASH160, [])) by (done || by apply HG0).
  change (between 0 (OP_HASH160, @nil Z).1 OP_PUSHDATA4) with false. cbv iota.
  match goal with |- context [switch ?a ?b ?c ?d ?e ?f ?m] =>
    change (switch a b c d e f m) with (with_stacks m (op_digest OP_HASH160 (stack m) (altstack m))) end.
  destruct stk as [|v s]; [done|]. cbn [length] in Hstk.
  change (op_digest OP_HASH160 _ _) with (Good (getBytes (Hash160 v) :: s) []). cbn [with_stacks limit].
  rewrite (proj2 (Nat.ltb_ge _ _)) by (cbn [stack altstack length]; lia). cbn [pc pbegincodehash vfExec nOpCount cache].
  erewrite (eval_exec _ _ _ _ _ (20, h)) by (done || (cbn [snd]; rewrite Hl; done)).
  change (between 0 (20, h).1 OP_PUSHDATA4) with true. cbv iota. unfold with_exec. cbn [limit snd].
  rewrite (proj2 (Nat.ltb_ge _ _)) by (cbn [stack altstack length]; lia). cbn [pc pbegincodehash vfExec nOpCount cache altstack].
  erewrite (eval_exec _ _ _ _ _ (OP_EQUAL, [])) by (done || by apply HG0).
  change (between 0 (OP_EQUAL, @nil Z).1 OP_PUSHDATA4) with false. cbv iota.
  match goal with |- context [switch ?a ?b ?c ?d ?e ?f ?m] =>
    change (switch a b c d e f m) with (with_stacks m (op_equal OP_EQUAL (stack m) (altstack m))) end.
  unfold op_equal, finish_verify. cbn [stack altstack]. change (OP_EQUAL =? OP_EQUALVERIFY) with false. cbv iota.
  cbn [with_stacks limit]. rewrite (proj2 (Nat.ltb_ge _ _)) by (cbn [stack altstack length]; lia).
  rewrite eval_end by done. done.
Qed.
End p2sh.

(** ** Properties *)

(** Two transactions are the same up to the scripts of their inputs. *)
Definition same_but_scripts (v1 v2 : list CTxIn) : Prop := map (set_scriptSig []) v1 = map (set_scriptSig []) v2.

Lemma alter_scriptSig code k v1 v2 : same_but_scripts v1 v2 →
  alter (set_scriptSig code) k (map (set_scriptSig []) v1) = alter (set_scriptSig code) k (map (set_scriptSig []) v2).
Proof. intros E. unfold same_but_scripts in E. rewrite E. done. Qed.

(** Ignoring the sequence numbers of the inputs other than [k] *)
Definition same_but_sequences (k : nat) (v1 v2 : list CTxIn) : Prop :=
  same_but_scripts (zero_sequences k v1) (zero_sequences k v2).

Lemma zero_sequences_scripts k code v : zero_sequences k (alter (set_scriptSig code) k (map (set_scriptSig []) v)) =
  alter (set_scriptSig code) k (map (set_scriptSig []) (zero_sequences k v)).
Proof.
  apply list_eq. intros i. unfold zero_sequences. rewrite list_lookup_imap.
  destruct (decide (i = k)) as [->|Hne].
  - rewrite !list_lookup_alter_eq, !list_lookup_fmap, list_lookup_imap.
    destruct (v !! k) as [x|]; [|done]. cbn. rewrite !bool_decide_eq_false_2 by tauto. done.
  - rewrite !list_lookup_alter_ne by done. rewrite !list_lookup_fmap, list_lookup_imap.
    destruct (v !! i) as [x|]; [|done]. cbn. rewrite !bool_decide_eq_true_2 by done. done.
Qed.

(** What a signature does not commit to: the scripts of the inputs, never; with
    SIGHASH_NONE also the outputs and the sequence numbers of the other inputs;
    an output-less SIGHASH_SINGLE input signs the constant 1. *)
Theorem SignatureHash_commits `{Digests} code t1 t2 nIn ht :
  nVersion t1 = nVersion t2 → nTime t1 = nTime t2 → nLockTime t1 = nLockTime t2 →
  length (vin t1) = length (vin t2) →
  (same_but_scripts (vin t1) (vin t2) → vout t1 = vout t2 →
   SignatureHash code t1 nIn ht = SignatureHash code t2 nIn ht) ∧
  (Z.land ht 0x1f = SIGHASH_NONE → same_but_sequences nIn (vin t1) (vin t2) →
   SignatureHash code t1 nIn ht = SignatureHash code t2 nIn ht) ∧
  (Z.land ht 0x1f = SIGHASH_SINGLE → (length (vout t1) <= nIn)%nat →
   SignatureHash code t1 nIn ht = bu_of_u64 W256 1).
Proof.
  intros Hv Ht Hlt Hlen. unfold SignatureHash. rewrite Hv, Ht, Hlt, Hlen. split; [|split].
  - intros E1 E2. rewrite E2. destruct (_ <=? nIn)%nat; [done|]. rewrite (alter_scriptSig _ _ _ _ E1). done.
  - intros -> E. destruct (_ <=? nIn)%nat; [done|]. cbn [Z.eqb SIGHASH_NONE Pos.eqb].
    rewrite !zero_sequences_scripts, (alter_scriptSig _ _ _ _ E). done.
  - intros -> Hl. destruct (length (vin t2) <=? nIn)%nat; [done|]. change (SIGHASH_SINGLE =? SIGHASH_NONE) with false.
    change (SIGHASH_SINGLE =? SIGHASH_SINGLE) with true. cbv iota.
    rewrite (proj2 (Nat.leb_le _ _)) by done. done.
Qed.

(** The sample with other input scripts *)
Definition sample_resigned : CTransaction :=
  mkTx 1 1400000000 (map (set_scriptSig [83]) (vin sample_tx)) (vout sample_tx) 0.

#[local] Existing Instances sample_digests sample_digests_ok.

Lemma SignatureHash_commits_witness : SignatureHash [81] sample_tx 1 1 = SignatureHash [81] sample_resigned 1 1.
Proof.
  destruct (SignatureHash_commits [81] sample_tx sample_resigned 1 1) as [H _]; [reflexivity..|].
  apply H; reflexivity.
Defined.

(** Running a script keeps the cache sound. *)
Lemma EvalScript_cache_ok {BN : OpenSSL_BN} {DG : Digests} Verify nMaxCacheSize random_entry txTo nIn flags nHashType stk script S :
  (∀ S, S ≠ ∅ → random_entry S ∈ S) → cache_ok Verify nMaxCacheSize S →
  cache_ok Verify nMaxCacheSize
    (EvalScript (CheckSig Verify nMaxCacheSize random_entry txTo nIn nHashType flags) txTo nIn flags stk script S).2.
Proof.
  intros Hin HS.
  set (plain := λ g k code (c : unit), (CheckSig_spec Verify txTo nIn nHashType g k code, c)).
  assert (HC : ∀ g k code c1 (c2 : unit), cache_ok Verify nMaxCacheSize c1 →
    agree (λ S _, cache_ok Verify nMaxCacheSize S)
      (CheckSig Verify nMaxCacheSize random_entry txTo nIn nHashType flags g k code c1) (plain g k code c2)).
  { intros g k code c1 c2 Hc. exact (CheckSig_cache Verify nMaxCacheSize random_entry Hin txTo nIn nHashType flags g k code c1 Hc). }
  exact (proj2 (EvalScript_sim _ plain (λ S _, cache_ok Verify nMaxCacheSize S) HC txTo nIn flags stk script S tt HS)).
Qed.

(** The cached verification simulates the plain one. *)
Lemma VerifyScript_cached {BN : OpenSSL_BN} {DG : Digests} Verify nMaxCacheSize random_entry txTo nIn flags nHashType
    scriptSig scriptPubKey S :
  (∀ S, S ≠ ∅ → random_entry S ∈ S) → cache_ok Verify nMaxCacheSize S →
  let cached := CheckSig Verify nMaxCacheSize random_entry txTo nIn nHashType flags in
  let plain g k code (c : unit) := (CheckSig_spec Verify txTo nIn nHashType g k code, c) in
  let r := VerifyScript cached txTo nIn flags scriptSig scriptPubKey S in
  r.1 = (VerifyScript plain txTo nIn flags scriptSig scriptPubKey tt).1 ∧ cache_ok Verify nMaxCacheSize r.2.
Proof.
  intros Hin HS cached plain r.
  assert (HC : ∀ g k code c1 (c2 : unit), cache_ok Verify nMaxCacheSize c1 →
    agree (λ S _, cache_ok Verify nMaxCacheSize S) (cached g k code c1) (plain g k code c2)).
  { intros g k code c1 c2 Hc. exact (CheckSig_cache Verify nMaxCacheSize random_entry Hin txTo nIn nHashType flags g k code c1 Hc). }
  exact (VerifyScript_sim cached plain (λ S _, cache_ok Verify nMaxCacheSize S) HC txTo nIn flags scriptSig scriptPubKey S tt HS).
Qed.

(** The assertion on the copied stack never fails. *)
Lemma VerifyScript_no_assert {BN : OpenSSL_BN} {DG : Digests} {Cache}
    (CheckSig : valtype → valtype → list Z → Cache → bool * Cache) txTo nIn flags scriptSig scriptPubKey c :
  (VerifyScript CheckSig txTo nIn flags scriptSig scriptPubKey c).1 ≠ None.
Proof.
  unfold VerifyScript. destruct (EvalScript CheckSig txTo nIn flags [] scriptSig c) as [[ok stk] c1]. destruct ok; [|done]. cbn [negb].
  destruct (EvalScript CheckSig txTo nIn flags stk scriptPubKey c1) as [[ok s'] c2] eqn:E2. destruct ok; [|done]. cbn [negb].
  destruct s' as [|top s']; [done|]. destruct (CastToBool top); [|done]. cbn [negb].
  destruct (has_flag flags SCRIPT_VERIFY_P2SH); [|done].
  destruct (IsPayToScriptHash scriptPubKey) eqn:Ep; [|done]. cbn [andb]. destruct (IsPushOnly scriptSig); [|done]. cbn [negb].
  destruct stk as [|redeem s].
  - apply IsPayToScriptHash_shape in Ep as (h' & Hh' & ->). rewrite p2sh_eval in E2 by (done || (cbn; lia)). done.
  - destruct (EvalScript CheckSig txTo nIn flags s redeem c2) as [[ok s''] c3]. destruct ok; [|done]. by destruct s''.
Qed.

(** C34. The signature cache is transparent: with a cache all of whose entries verify,
    [VerifyScript] gives the verdict it gives with plain ECDSA verification,
    whichever entries are evicted, and leaves a cache whose entries verify and
    which holds at most one entry more than its limit. *)
Theorem VerifyScript_cache {BN : OpenSSL_BN} {DG : Digests} Verify nMaxCacheSize random_entry txTo nIn flags nHashType
    scriptSig scriptPubKey S :
  (∀ S, S ≠ ∅ → random_entry S ∈ S) → cache_ok Verify nMaxCacheSize S →
  let cached := CheckSig Verify nMaxCacheSize random_entry txTo nIn nHashType flags in
  let plain g k code (c : unit) := (CheckSig_spec Verify txTo nIn nHashType g k code, c) in
  let r := VerifyScript cached txTo nIn flags scriptSig scriptPubKey S in
  r.1 = (VerifyScript plain txTo nIn flags scriptSig scriptPubKey tt).1 ∧ cache_ok Verify nMaxCacheSize r.2.
Proof. apply VerifyScript_cached. Qed.

Definition sample_verify (k : list Z) (h : base_uint) (g : list Z) : bool := bool_decide (g = k).
Definition first_entry (S : gset sigdata) : sigdata := default ([], [], []) (head (elements S)).
Lemma first_entry_in S : S ≠ ∅ → first_entry S ∈ S.
Proof.
  intros Hne. unfold first_entry. destruct (elements S) as [|x l] eqn:E.
  - apply elements_empty_inv in E. by apply leibniz_equiv in E.
  - cbn. apply elem_of_elements. rewrite E. set_solver.
Qed.

Lemma VerifyScript_cache_witness :
  let cached := CheckSig sample_verify 1 first_entry sample_tx 0 0 0 in
  let plain g k code (c : unit) := (CheckSig_spec sample_verify sample_tx 0 0 g k code, c) in
  let r := VerifyScript cached sample_tx 0 0 [81] [172] ∅ in
  r.1 = (VerifyScript plain sample_tx 0 0 [81] [172] tt).1 ∧ cache_ok sample_verify 1 r.2.
Proof.
  refine (VerifyScript_cache sample_verify 1 first_entry sample_tx 0 0 0 [81] [172] ∅ first_entry_in _).
  split; [set_solver|]. rewrite size_empty. lia.
Defined.

(** Pay to script hash: the spend of a script-hash output is valid exactly when
    the input script only pushes data, its last element hashes to the committed
    value, and that element, run as a script on the remaining ones, leaves a
    true value.  The assertion on the copied stack never fails, for any output
    script. *)
Theorem VerifyScript_p2sh {BN : OpenSSL_BN} {DG : Digests} {Cache}
    (CheckSig : valtype → valtype → list Z → Cache → bool * Cache) txTo nIn flags scriptSig scriptPubKey h stk c c1 :
  has_flag flags SCRIPT_VERIFY_P2SH = true → length h = 20%nat → (length stk < 1000)%nat →
  EvalScript CheckSig txTo nIn flags [] scriptSig c = (true, stk, c1) →
  VerifyScript CheckSig txTo nIn flags scriptSig (p2sh h) c =
  match stk with
  | [] => (Some false, c1)
  | redeem :: s =>
      if bool_decide (getBytes (Hash160 redeem) = h) && IsPushOnly scriptSig then
        let '(ok, s', c2) := EvalScript CheckSig txTo nIn flags s redeem c1 in
        (Some (ok && match s' with [] => false | top :: _ => CastToBool top end), c2)
      else (Some false, c1)
  end ∧
  (VerifyScript CheckSig txTo nIn flags scriptSig scriptPubKey c).1 ≠ None.
Proof.
  intros Hf Hh Hstk HE. assert (Hp : IsPayToScriptHash (p2sh h) = true) by (apply IsPayToScriptHash_shape; eauto). split.
  - unfold VerifyScript. rewrite HE, Hf. cbn [negb]. rewrite p2sh_eval by done. destruct stk as [|redeem s]; [done|]. cbn [negb]. rewrite Hp. cbn [andb].
    case_bool_decide; cbn [CastToBool vchTrue vchFalse negb andb bool_decide Z.eqb]; [|done].
    destruct (IsPushOnly scriptSig); [|done]. cbn [negb].
    destruct (EvalScript CheckSig txTo nIn flags s redeem c1) as [[ok s'] c2]. destruct ok; cbn [negb andb]; [|done].
    destruct s'; done.
  - apply VerifyScript_no_assert.
Qed.

Lemma VerifyScript_p2sh_witness :
  VerifyScript sample_checksig sample_tx 0 1 [1; 81] (p2sh (getBytes (Hash160 [81]))) tt =
  (let '(ok, s', c2) := EvalScript sample_checksig sample_tx 0 1 [] [81] tt in
   (Some (ok && match s' with [] => false | top :: _ => CastToBool top end), c2)).
Proof.
  destruct (VerifyScript_p2sh sample_checksig sample_tx 0 1 [1; 81] [81] (getBytes (Hash160 [81])) [[81]] tt tt)
    as [H _]; [reflexivity| reflexivity | cbn; lia | reflexivity | exact H].
Defined.
