(* ===== verification/Chain.v ===== *)
(** * Consensus arithmetic on the chain (src/main.cpp, src/main.h)

    Block rewards, difficulty targets, proof-of-work and the trust score that
    selects the best chain.  A block index is seen as the list of its ancestors,
    itself first: [pprev] is the tail.  Division by zero throws a
    [bignum_error], here [None]. *)

From stdpp Require Import base list numbers option sorting.
From Stdlib Require Import ZArith Lia.
From S2P Require Import Prelude Uint256 Bignum Tx.

Open Scope Z_scope.

Definition nOneHour : Z := 60 * 60.
Definition nOneDay : Z := 24 * 60 * 60.
Definition TARGETS_SWITCH_TIME : Z := 1374278400.
Definition nTargetTimespan : Z := 7 * nOneDay.

(** ** The block index *)

Record CBlockIndex := mkIndex {
  bi_nFile : Z;
  bi_nBlockPos : Z;
  bi_nHeight : Z;
  bi_nFlags : Z;
  bi_nChainTrust : base_uint;
  bi_nVersion : Z;
  bi_nTime : Z;
  bi_nBits : Z
}.
Definition BLOCK_PROOF_OF_STAKE : Z := Z.shiftl 1 0.
Definition BLOCK_STAKE_ENTROPY : Z := Z.shiftl 1 1.
Definition BLOCK_STAKE_MODIFIER : Z := Z.shiftl 1 2.
Definition IsProofOfWork (b : CBlockIndex) : bool := Z.land (bi_nFlags b) BLOCK_PROOF_OF_STAKE =? 0.
Definition IsProofOfStake (b : CBlockIndex) : bool := negb (Z.land (bi_nFlags b) BLOCK_PROOF_OF_STAKE =? 0).
Definition GetBlockTime (b : CBlockIndex) : Z := bi_nTime b.

(** [GetMedianTimePast]: the middle of the sorted times of up to eleven blocks *)
Definition nMedianTimeSpan : nat := 11.
Definition GetMedianTimePast (chain : list CBlockIndex) : Z :=
  let pmedian := merge_sort Z.le (rev (map GetBlockTime (take nMedianTimeSpan chain))) in
  nth (length pmedian / 2) pmedian 0.

Fixpoint majority_loop (minVersion nRequired : Z) (nToCheck : nat) (pstart : list CBlockIndex) (nFound : Z) : Z :=
  match nToCheck, pstart with
  | S nToCheck, b :: pprev =>
      if nFound <? nRequired
      then majority_loop minVersion nRequired nToCheck pprev (if bi_nVersion b >=? minVersion then nFound + 1 else nFound)
      else nFound
  | _, _ => nFound
  end.
Definition IsSuperMajority (minVersion : Z) (pstart : list CBlockIndex) (nRequired : Z) (nToCheck : nat) : bool :=
  majority_loop minVersion nRequired nToCheck pstart 0 >=? nRequired.

(** [while (pindex && pindex->pprev && ...)] *)
Fixpoint GetLastBlockIndex (pindex : list CBlockIndex) (fProofOfStake : bool) : list CBlockIndex :=
  match pindex with
  | b :: ((_ :: _) as pprev) =>
      if negb (Bool.eqb (IsProofOfStake b) fProofOfStake) then GetLastBlockIndex pprev fProofOfStake else pindex
  | _ => pindex
  end.

Section Chain.
Context {BN : OpenSSL_BN}.

(** ** Network parameters *)

(** [CBigNum(~uint256(0) >> n)] *)
Definition limit_bits (n : Z) : BIGNUM := setuint256 (bu_shr W256 (bu_not (bu_of_u64 W256 0)) n).
Definition bnProofOfStakeLegacyLimit : BIGNUM := limit_bits 24.
Definition bnProofOfStakeLimit : BIGNUM := limit_bits 27.
Definition bnProofOfStakeHardLimit : BIGNUM := limit_bits 30.
Definition bnProofOfWorkLimitTestNet : BIGNUM := limit_bits 16.
Definition nPoWBase : base_uint := SetHex W256 ([48; 120] ++ replicate 8 48 ++ replicate 4 102 ++ replicate 52 48).

(** The globals that [LoadBlockIndex] changes on the test network *)
Variable fTestNet : bool.
Definition bnProofOfWorkLimit : BIGNUM := if fTestNet then bnProofOfWorkLimitTestNet else limit_bits 20.
Definition nStakeTargetSpacing : Z := if fTestNet then 5 * 60 else 10 * 60.
Definition nStakeMinAge : Z := if fTestNet then 2 * nOneHour else 30 * nOneDay.
Definition nModifierInterval : Z := if fTestNet then 20 * 60 else 6 * nOneHour.
Definition nCoinbaseMaturity : Z := if fTestNet then 10 else 500.

Definition GetProofOfStakeLimit (nHeight nTime : Z) : BIGNUM :=
  if fTestNet then bnProofOfStakeLimit
  else if nTime >? TARGETS_SWITCH_TIME then bnProofOfStakeLimit
  else if nHeight + 1 >? 15000 then bnProofOfStakeLegacyLimit
  else if nHeight + 1 >? 14060 then bnProofOfStakeHardLimit
  else bnProofOfWorkLimit.

(** ** Rewards *)

Definition pow6 (a : BIGNUM) (l : BIGNUM) : BIGNUM :=
  bn_mul (bn_mul (bn_mul (bn_mul (bn_mul (bn_mul a a) a) a) a) a) l.
Definition pow3 (a : BIGNUM) : BIGNUM := bn_mul (bn_mul a a) a.

(** [while (bnLowerBound + CENT <= bnUpperBound)]: bisection; the interval of at
    most 100 coins shrinks to less than a cent within [bisect_fuel] halvings. *)
Fixpoint bisect (fuel : nat) (too_high : BIGNUM → bool) (bnLowerBound bnUpperBound : BIGNUM) : option (BIGNUM * BIGNUM) :=
  match fuel with
  | O => None
  | S fuel =>
      if bn_le (bn_add bnLowerBound (CBigNum_int64 CENT)) bnUpperBound then
        bnMidValue ← bn_div (bn_add bnLowerBound bnUpperBound) (CBigNum_int32 2);
        if too_high bnMidValue then bisect fuel too_high bnLowerBound bnMidValue
        else bisect fuel too_high bnMidValue bnUpperBound
      else Some (bnLowerBound, bnUpperBound)
  end.
Definition bisect_fuel : nat := 30.

Definition GetProofOfWorkReward (nBits : Z) : option Z :=
  let bnSubsidyLimit := CBigNum_int64 MAX_MINT_PROOF_OF_WORK in
  let bnTarget := bn_SetCompact nBits in
  let bnTargetLimit := bn_SetCompact (bn_GetCompact bnProofOfWorkLimit) in
  let too_high bnMidValue := bn_gt (pow6 bnMidValue bnTargetLimit) (pow6 bnSubsidyLimit bnTarget) in
  '(_, bnUpperBound) ← bisect bisect_fuel too_high (CBigNum_int64 CENT) bnSubsidyLimit;
  let nSubsidy := i64 (getuint64 bnUpperBound) in
  let nSubsidy := i64 (Z.quot nSubsidy CENT * CENT) in
  Some (Z.min nSubsidy MAX_MINT_PROOF_OF_WORK).

Definition GetProofOfStakeReward (nCoinAge nBits nTime : Z) (bCoinYearOnly : bool) : option Z :=
  let nSubsidyLimit := 10 * COIN in
  let bnRewardCoinYearLimit := CBigNum_int64 MAX_MINT_PROOF_OF_STAKE in
  let bnTarget := bn_SetCompact nBits in
  let bnTargetLimit := bn_SetCompact (bn_GetCompact (GetProofOfStakeLimit 0 (u32 nTime))) in
  let too_high bnMidValue :=
    bn_gt (bn_mul (pow3 bnMidValue) bnTargetLimit) (bn_mul (pow3 bnRewardCoinYearLimit) bnTarget) in
  '(_, bnUpperBound) ← bisect bisect_fuel too_high (CBigNum_int64 (1 * CENT)) bnRewardCoinYearLimit;
  let nRewardCoinYear := i64 (getuint64 bnUpperBound) in
  let nRewardCoinYear := Z.min (i64 (Z.quot nRewardCoinYear CENT * CENT)) MAX_MINT_PROOF_OF_STAKE in
  if bCoinYearOnly then Some nRewardCoinYear
  else
    let nSubsidy := Z.quot (i64 (i64 (nCoinAge * nRewardCoinYear) * 33)) (365 * 33 + 8) in
    Some (Z.min nSubsidy nSubsidyLimit).

(** ** Targets *)

Definition GetTargetSpacingWorkMax (nHeight nTime : Z) : Z :=
  if nTime >? TARGETS_SWITCH_TIME then 3 * nStakeTargetSpacing
  else if fTestNet then 3 * nStakeTargetSpacing
  else 12 * nStakeTargetSpacing.

(** [while (nTime > 0 && bnResult < bnTargetLimit)]: one turn per day *)
Fixpoint maxbits_loop (fuel : nat) (bnTargetLimit bnResult : BIGNUM) (nTime : Z) : BIGNUM :=
  match fuel with
  | O => bnResult
  | S fuel =>
      if (nTime >? 0) && bn_lt bnResult bnTargetLimit
      then maxbits_loop fuel bnTargetLimit (bn_mul bnResult (CBigNum_int32 2)) (nTime - nOneDay)
      else bnResult
  end.
Definition maxbits_fuel (nTime : Z) : nat := Z.to_nat (nTime / nOneDay + 1).
Definition ComputeMaxTarget (bnTargetLimit : BIGNUM) (nBase nTime : Z) : BIGNUM :=
  let bnResult := bn_mul (bn_SetCompact nBase) (CBigNum_int32 2) in
  let bnResult := maxbits_loop (maxbits_fuel nTime) bnTargetLimit bnResult nTime in
  if bn_gt bnResult bnTargetLimit then bnTargetLimit else bnResult.
Definition ComputeMaxBits (bnTargetLimit : BIGNUM) (nBase nTime : Z) : Z :=
  bn_GetCompact (ComputeMaxTarget bnTargetLimit nBase nTime).
Definition ComputeMinWork (nBase nTime : Z) : Z := ComputeMaxBits bnProofOfWorkLimit nBase nTime.
Definition ComputeMinStake (nBase nTime nBlockTime : Z) : Z :=
  ComputeMaxBits (GetProofOfStakeLimit 0 nBlockTime) nBase nTime.

(** [GetNextTargetRequired] before the final [GetCompact] *)
Definition NextTarget (pindexLast : list CBlockIndex) (fProofOfStake : bool) : option BIGNUM :=
  match pindexLast with
  | [] => Some bnProofOfWorkLimit
  | last :: _ =>
      let bnTargetLimit :=
        if negb fProofOfStake then bnProofOfWorkLimit else GetProofOfStakeLimit (bi_nHeight last) (bi_nTime last) in
      match GetLastBlockIndex pindexLast fProofOfStake with
      | prev :: ((_ :: _) as pprev) =>
          match GetLastBlockIndex pprev fProofOfStake with
          | prevprev :: _ :: _ =>
              let nActualSpacing := GetBlockTime prev - GetBlockTime prevprev in
              let bnNew := bn_SetCompact (bi_nBits prev) in
              let nTargetSpacing :=
                if fProofOfStake then nStakeTargetSpacing
                else Z.min (GetTargetSpacingWorkMax (bi_nHeight last) (bi_nTime last))
                           (nStakeTargetSpacing * (1 + bi_nHeight last - bi_nHeight prev)) in
              let nInterval := Z.quot nTargetTimespan nTargetSpacing in
              let bnNew := bn_mul bnNew (CBigNum_int64 (i64 ((nInterval - 1) * nTargetSpacing + nActualSpacing + nActualSpacing))) in
              bnNew ← bn_div bnNew (CBigNum_int64 (i64 ((nInterval + 1) * nTargetSpacing)));
              Some (if bn_gt bnNew bnTargetLimit then bnTargetLimit else bnNew)
          | _ => Some bnTargetLimit
          end
      | _ => Some bnTargetLimit
      end
  end.
Definition GetNextTargetRequired (pindexLast : list CBlockIndex) (fProofOfStake : bool) : option Z :=
  bn_GetCompact <$> NextTarget pindexLast fProofOfStake.

Definition CheckProofOfWork (hash : base_uint) (nBits : Z) : bool :=
  let bnTarget := bn_SetCompact nBits in
  if bn_le bnTarget (CBigNum_int32 0) || bn_gt bnTarget bnProofOfWorkLimit then false
  else if bu_gt hash (getuint256 bnTarget) then false
  else true.

(** ** Trust *)

(** [while (pprev->nHeight - currentIndex->nHeight < 12)]; the walk stays within
    the chain because heights descend to zero *)
Fixpoint count_recent (p : CBlockIndex → bool) (height : Z) (currentIndex : list CBlockIndex) : Z :=
  match currentIndex with
  | [] => 0
  | b :: t => if height - bi_nHeight b <? 12 then (if p b then 1 else 0) + count_recent p height t else 0
  end.

(** [(CBigNum(1) << 256) / (bnTarget + 1)] *)
Definition inverse_target (bnTarget : BIGNUM) : option BIGNUM :=
  bn_div (bn_shl (CBigNum_int32 1) 256) (bn_add bnTarget (CBigNum_int32 1)).

Definition GetBlockTrust (this : CBlockIndex) (pprev : list CBlockIndex) : option base_uint :=
  let bnTarget := bn_SetCompact (bi_nBits this) in
  if bn_le bnTarget (CBigNum_int32 0) then Some (bu_of_u64 W256 0)
  else match pprev with
  | prev :: prevs =>
      if bi_nHeight prev <? 12 then Some (bu_of_u64 W256 1)
      else if IsProofOfStake this then
        bnNewTrust ← inverse_target bnTarget;
        let third := getuint256 <$> bn_div bnNewTrust (CBigNum_int32 3) in
        if negb (IsProofOfWork prev) then third
        else if count_recent IsProofOfWork (bi_nHeight prev) pprev <? 3 then third
        else Some (getuint256 bnNewTrust)
      else
        bnPoWTrust ← bn_div (setuint256 nPoWBase) (bn_add bnTarget (CBigNum_int32 1));
        let bnPoWTrust := if bn_lt bnPoWTrust (CBigNum_int32 1) then CBigNum_int32 1 else bnPoWTrust in
        match prevs with
        | [] => None
        | prevprev :: _ =>
            let bnLastBlockTrust := setuint256 (bu_sub (bi_nChainTrust prev) (bi_nChainTrust prevprev)) in
            let partial :=
              x ← bn_div (bn_mul (CBigNum_int32 2) bnLastBlockTrust) (CBigNum_int32 3);
              Some (getuint256 (bn_add bnPoWTrust x)) in
            if negb (IsProofOfStake prev && IsProofOfStake prevprev) then partial
            else if count_recent IsProofOfStake (bi_nHeight prev) pprev <? 7 then partial
            else
              let bnTarget := bn_SetCompact (bi_nBits prev) in
              if bn_le bnTarget (CBigNum_int32 0) then Some (bu_of_u64 W256 0)
              else
                bnNewTrust ← inverse_target bnTarget;
                Some (getuint256 (bn_add bnPoWTrust bnNewTrust))
        end
  | [] => Some (bu_of_u64 W256 1)
  end.

End Chain.

(** ** Facts *)

Section facts.
Context {BN : OpenSSL_BN} {BNok : OpenSSL_BN_ok BN}.

Lemma limit_bits_ok n : 0 <= n <= 256 → bnval (limit_bits n) = 2 ^ (256 - n) - 1.
Proof.
  intros Hn. unfold limit_bits.
  destruct (bu_of_u64_ok W256 0) as [Hw Hv]; [lia|lia|]. destruct (bu_not_ok W256 _ Hw) as [Hw1 Hv1].
  rewrite setuint256_ok by (apply wf_bu_shr; [done|lia]). rewrite bu_shr_ok by (done || lia). rewrite Hv1, Hv.
  change (modulus W256 - 1 - 0) with (2 ^ 256 - 1).
  assert (E : 2 ^ 256 = 2 ^ n * 2 ^ (256 - n)) by (rewrite <- Z.pow_add_r by lia; f_equal; lia).
  assert (0 < 2 ^ n) by (apply Z.pow_pos_nonneg; lia). assert (0 < 2 ^ (256 - n)) by (apply Z.pow_pos_nonneg; lia).
  symmetry. apply (Z.div_unique_pos _ _ _ (2 ^ n - 1)); lia.
Qed.

Lemma PoWLimit_ok net : bnval (bnProofOfWorkLimit net) = 2 ^ (if net then 240 else 236) - 1.
Proof. unfold bnProofOfWorkLimit, bnProofOfWorkLimitTestNet. destruct net; rewrite limit_bits_ok by lia; done. Qed.

(** A stake limit is one of four powers of two. *)
Lemma PoSLimit_ok net h t : ∃ n, In n [229; 232; 226; 236] ∧ bnval (GetProofOfStakeLimit net h t) = 2 ^ n - 1.
Proof.
  unfold GetProofOfStakeLimit, bnProofOfStakeLimit, bnProofOfStakeLegacyLimit, bnProofOfStakeHardLimit.
  repeat case_match.
  1,2: exists 229. 3: exists 232. 4: exists 226. 5: exists 236.
  all: rewrite ?PoWLimit_ok, ?limit_bits_ok by lia; cbn [In]; auto 6.
Qed.

(** Rounding a limit to its compact form keeps it positive. *)
Lemma compact_limit_pos bn n : In n [229; 232; 226; 236; 240] → bnval bn = 2 ^ n - 1 →
  0 < bnval (bn_SetCompact (bn_GetCompact bn)).
Proof.
  intros Hn Hv.
  assert (Hc : bn_GetCompact bn = let v := 2 ^ n - 1 in let k := Z.of_nat (length (mpi_body v)) in
    k * 2 ^ 24 + v * 256 ^ 3 / 256 ^ k).
  { cbv zeta. rewrite <- Hv. apply bn_GetCompact_ok; rewrite Hv.
    - assert (0 < 2 ^ n); [|lia]. apply Z.pow_pos_nonneg; [lia|]. cbn in Hn. lia.
    - cbn in Hn. destruct Hn as [<-|[<-|[<-|[<-|[<-|[]]]]]]; reflexivity. }
  rewrite Hc. clear Hc Hv. rewrite bn_SetCompact_ok.
  - cbn in Hn. destruct Hn as [<-|[<-|[<-|[<-|[<-|[]]]]]]; reflexivity.
  - cbn in Hn. destruct Hn as [<-|[<-|[<-|[<-|[<-|[]]]]]]; vm_compute; split; congruence.
Qed.

(** ** Bisection *)

Lemma bn_half_ok a : 0 <= bnval a → ∃ b, bn_div a (CBigNum_int32 2) = Some b ∧ bnval b = bnval a / 2.
Proof.
  intros Ha. destruct (BN_div_law a (CBigNum_int32 2)) as (q & r & E & Hq & _).
  { rewrite CBigNum_int32_ok; lia. }
  exists q. unfold bn_div. rewrite E. split; [done|]. rewrite Hq, CBigNum_int32_ok by lia. apply Z.quot_div_nonneg; lia.
Qed.

Lemma bisect_ok (too_high : BIGNUM → bool) (P : Z → bool) k fuel lo hi :
  (∀ bn, too_high bn = P (bnval bn)) → (k < fuel)%nat →
  0 <= bnval lo <= bnval hi → bnval hi - bnval lo <= 9999 * 2 ^ Z.of_nat k →
  ∃ lo' hi', bisect fuel too_high lo hi = Some (lo', hi') ∧
    bnval lo <= bnval lo' <= bnval hi' ∧ bnval hi' <= bnval hi ∧ bnval hi' - bnval lo' < CENT ∧
    (bnval hi' = bnval hi ∨ P (bnval hi') = true) ∧ (bnval lo' = bnval lo ∨ P (bnval lo') = false).
Proof.
  intros HP. revert k lo hi. induction fuel as [|fuel IH]; intros k lo hi Hk Hr Hg; [lia|]. cbn [bisect].
  rewrite bn_le_ok. unfold bn_add. rewrite BN_add_law, CBigNum_int64_ok by (unfold CENT; lia).
  unfold CENT in *. destruct (Z.leb_spec (bnval lo + 10000) (bnval hi)) as [Hle|Hgt].
  2: { exists lo, hi. split; [done|]. repeat split; auto with lia; lia. }
  destruct (bn_half_ok (BN_add lo hi)) as (mid & -> & Hmid); [rewrite BN_add_law; lia|].
  rewrite BN_add_law in Hmid. cbn [mbind option_bind].
  destruct k as [|k]; [cbn in Hg; lia|]. rewrite Nat2Z.inj_succ, Z.pow_succ_r in Hg by lia.
  assert (Hm : bnval lo <= bnval mid <= bnval hi) by (rewrite Hmid; Z.div_mod_to_equations; lia).
  rewrite HP. destruct (P (bnval mid)) eqn:EP.
  - destruct (IH k lo mid) as (lo' & hi' & -> & H1 & H2 & H3 & H4 & H5); [lia|lia| |].
    { rewrite Hmid. Z.div_mod_to_equations. lia. }
    exists lo', hi'. split; [done|]. repeat split; try lia; [|done]. destruct H4 as [->|?]; auto.
  - destruct (IH k mid hi) as (lo' & hi' & -> & H1 & H2 & H3 & H4 & H5); [lia|lia| |].
    { rewrite Hmid. Z.div_mod_to_equations. lia. }
    exists lo', hi'. split; [done|]. repeat split; try lia; [done|]. destruct H5 as [->|?]; auto.
Qed.

(** The reward read off the final interval is within a cent of the root of
    [x^e * L = S^e * T]. *)
Definition on_curve (e L S T r : Z) : Prop :=
  CENT <= r <= S ∧ r mod CENT = 0 ∧
  (r < S → S ^ e * T < (r + CENT) ^ e * L) ∧ (CENT < r → (r - CENT) ^ e * L <= S ^ e * T).

Lemma bisect_reward too_high e L S T lo hi :
  0 < e → 0 < L → 0 < S <= 100 * COIN → S mod CENT = 0 → CENT <= S → bnval lo = CENT → bnval hi = S →
  (∀ bn, too_high bn = (S ^ e * T <? bnval bn ^ e * L)) →
  ∃ lo' hi', bisect bisect_fuel too_high lo hi = Some (lo', hi') ∧
    let r := i64 (Z.quot (i64 (getuint64 hi')) CENT * CENT) in on_curve e L S T r.
Proof.
  unfold CENT, COIN. intros He HL HS HSm HSc Hlo Hhi HP.
  destruct (bisect_ok too_high (λ x, S ^ e * T <? x ^ e * L) 14 bisect_fuel lo hi HP) as (lo' & hi' & E & H1 & H2 & H3 & H4 & H5);
    [unfold bisect_fuel; lia|lia|rewrite Hlo, Hhi; unfold CENT; cbn; lia|].
  exists lo', hi'. split; [done|]. cbv zeta. unfold CENT in *. rewrite Hlo in *. rewrite Hhi in *.
  rewrite getuint64_ok, Z.abs_eq, Z.mod_small, (i64_small (bnval hi')) by lia.
  rewrite Z.quot_div_nonneg by lia.
  assert (Hd : 10000 * (bnval hi' / 10000) <= bnval hi' < 10000 * (bnval hi' / 10000) + 10000) by (Z.div_mod_to_equations; lia).
  set (q := bnval hi' / 10000) in *. rewrite i64_small by lia.
  assert (Hq : 1 <= q ∧ 0 <= bnval hi' <= q * 10000 + 10000 ∧ q * 10000 - 10000 <= bnval lo') by lia. clearbody q.
  assert (Hmul : ∀ x y, 0 <= x <= y → x ^ e * L <= y ^ e * L).
  { intros x y Hxy. apply Z.mul_le_mono_nonneg_r; [lia|]. apply Z.pow_le_mono_l. lia. }
  split; [unfold CENT; lia|]. split; [apply Z.mod_mul; unfold CENT; lia|]. unfold CENT. split.
  - intros Hlt. destruct H4 as [H4|H4].
    + exfalso. rewrite H4 in *. Z.div_mod_to_equations. lia.
    + apply Z.ltb_lt in H4. assert (Hm := Hmul (bnval hi') (q * 10000 + 10000) (proj1 (proj2 Hq))). clear - Hm H4. lia.
  - intros Hgt. destruct H5 as [H5|H5]; [lia|]. apply Z.ltb_ge in H5.
    assert (Hr : 0 <= q * 10000 - 10000 <= bnval lo') by (clear - Hq; lia).
    assert (Hm := Hmul (q * 10000 - 10000) (bnval lo') Hr). clear - Hm H5. lia.
Qed.

Lemma pow6_ok a l : bnval (pow6 a l) = bnval a ^ 6 * bnval l.
Proof. unfold pow6, bn_mul. rewrite !BN_mul_law. ring. Qed.
Lemma pow3_ok a : bnval (pow3 a) = bnval a ^ 3.
Proof. unfold pow3, bn_mul. rewrite !BN_mul_law. ring. Qed.

(** ** Targets *)

(** The loop stops above the limit, or after one doubling per started day. *)
Lemma maxbits_loop_min fuel L r t : (t <= 0 ∨ t / nOneDay < Z.of_nat fuel) → 0 <= bnval r →
  Z.min (bnval L) (bnval (maxbits_loop fuel L r t)) = Z.min (bnval L) (bnval r * 2 ^ Z.max 0 (- (- t / nOneDay))).
Proof.
  unfold nOneDay. change (24 * 60 * 60) with 86400. revert r t. induction fuel as [|fuel IH]; intros r t Hf Hr; cbn [maxbits_loop].
  { assert (t <= 0) by (Z.div_mod_to_equations; lia). rewrite Z.max_l by (Z.div_mod_to_equations; lia). f_equal; lia. }
  rewrite bn_lt_ok. destruct (Z.gtb_spec t 0) as [Ht|Ht]; cbn [andb].
  2: { rewrite Z.max_l by (Z.div_mod_to_equations; lia). f_equal; lia. }
  assert (Hd : - t / 86400 <= -1) by (Z.div_mod_to_equations; lia).
  destruct (Z.ltb_spec (bnval r) (bnval L)) as [Hlt|Hge].
  - assert (Hm : bnval (bn_mul r (CBigNum_int32 2)) = bnval r * 2) by (unfold bn_mul; rewrite BN_mul_law, CBigNum_int32_ok; lia).
    change (t - nOneDay) with (t - 86400). rewrite IH; [| |rewrite Hm; lia].
    + rewrite Hm. rewrite <- Z.mul_assoc. do 2 f_equal. rewrite <- Z.pow_succ_r by lia. f_equal.
      replace (- (t - 86400)) with (- t + 1 * 86400) by lia. rewrite Z.div_add by lia. lia.
    + replace (t - 86400) with (t + (-1) * 86400) by lia. rewrite Z.div_add by lia.
      destruct Hf as [?|Hf]; [lia|]. destruct (Z.le_gt_cases t 86400); [left; lia|right]. lia.
  - rewrite !Z.min_l; [done| |lia].
    assert (1 <= 2 ^ Z.max 0 (- (- t / 86400))) by (change 1 with (2 ^ 0); apply Z.pow_le_mono_r; lia). nia.
Qed.

Lemma majority_loop_ok v req k chain found :
  (majority_loop v req k chain found >=? req) =
  (found + Z.of_nat (length (List.filter (λ b, bi_nVersion b >=? v) (take k chain))) >=? req).
Proof.
  revert chain found. induction k as [|k IH]; intros [|b chain] found; cbn [majority_loop take List.filter length]; try (f_equal; lia).
  destruct (Z.ltb_spec found req) as [Hlt|Hge].
  - rewrite IH. destruct (bi_nVersion b >=? v); cbn [length]; f_equal; lia.
  - rewrite !Z.geb_leb, !(proj2 (Z.leb_le _ _)) by lia. done.
Qed.

(** ** Trust *)

Lemma bn_div_pos a d : 0 <= bnval a → 0 < bnval d → ∃ q, bn_div a d = Some q ∧ bnval q = bnval a / bnval d.
Proof.
  intros Ha Hd. destruct (BN_div_law a d) as (q & r & E & Hq & _); [lia|]. exists q. unfold bn_div. rewrite E.
  split; [done|]. rewrite Hq. apply Z.quot_div_nonneg; lia.
Qed.

Lemma add1_ok a : bnval (bn_add a (CBigNum_int32 1)) = bnval a + 1.
Proof. unfold bn_add. rewrite BN_add_law, CBigNum_int32_ok; lia. Qed.

Lemma inverse_target_ok t : 0 < bnval t → ∃ q, inverse_target t = Some q ∧ bnval q = 2 ^ 256 / (bnval t + 1).
Proof.
  intros Ht. unfold inverse_target, bn_shl.
  destruct (bn_div_pos (BN_lshift (CBigNum_int32 1) 256) (bn_add t (CBigNum_int32 1))) as (q & -> & Hq).
  - rewrite BN_lshift_law, CBigNum_int32_ok by lia. lia.
  - rewrite add1_ok. lia.
  - exists q. split; [done|]. rewrite Hq, add1_ok, BN_lshift_law, CBigNum_int32_ok by lia. done.
Qed.

Lemma nPoWBase_ok : wf W256 nPoWBase ∧ val nPoWBase = 0xffff * 2 ^ 208.
Proof.
  assert (nPoWBase = [0; 0; 0; 0; 0; 0; 0xffff0000; 0]) as -> by reflexivity.
  split; [|reflexivity]. split; [reflexivity|]. repeat (constructor; [lia|]). constructor.
Qed.

Lemma getuint256_val bn : 0 <= bnval bn < 2 ^ 256 → val (getuint256 bn) = bnval bn.
Proof. intros Hb. destruct (getuint256_ok bn) as [_ ->]. rewrite Z.abs_eq, Z.mod_small; lia. Qed.

Lemma zero_le_zero t : bn_le t (CBigNum_int32 0) = (bnval t <=? 0).
Proof. rewrite bn_le_ok, CBigNum_int32_ok by lia. done. Qed.

(** A block on a valid target, whose parent has one too, adds to the chain's
    trust: at least one, and the sum does not wrap. *)
Lemma GetBlockTrust_range this prev prevprev rest t p :
  t = bnval (bn_SetCompact (bi_nBits this)) → p = bnval (bn_SetCompact (bi_nBits prev)) →
  0 < t < 2 ^ 254 → 0 < p < 2 ^ 254 → wf W256 (bi_nChainTrust prev) → wf W256 (bi_nChainTrust prevprev) →
  ∃ r, GetBlockTrust this (prev :: prevprev :: rest) = Some r ∧ 1 <= val r < 2 ^ 256.
Proof.
  intros Et Ep Ht Hp Hw1 Hw2. unfold GetBlockTrust. rewrite zero_le_zero, <- Et.
  destruct (Z.leb_spec t 0); [lia|].
  destruct (bi_nHeight prev <? 12); [eexists; split; [done|]; split; [vm_compute; congruence|done]|].
  assert (Hinv : ∀ x, 0 < x < 2 ^ 254 → 4 <= 2 ^ 256 / (x + 1) <= 2 ^ 255).
  { intros x Hx. split; [apply Z.div_le_lower_bound; lia|]. apply Z.div_le_upper_bound; [lia|]. nia. }
  destruct (IsProofOfStake this).
  - destruct (inverse_target_ok (bn_SetCompact (bi_nBits this))) as (q & -> & Hq); [lia|]. cbn [mbind option_bind].
    rewrite <- Et in Hq. assert (Hq' := Hinv t Ht). rewrite <- Hq in Hq'.
    assert (Hthird : ∃ r, getuint256 <$> bn_div q (CBigNum_int32 3) = Some r ∧ 1 <= val r < 2 ^ 256).
    { destruct (bn_div_pos q (CBigNum_int32 3)) as (q3 & -> & Hq3); [lia|rewrite CBigNum_int32_ok; lia|].
      rewrite CBigNum_int32_ok in Hq3 by lia. exists (getuint256 q3). split; [done|].
      assert (1 <= bnval q3 <= 2 ^ 255) by (rewrite Hq3; Z.div_mod_to_equations; lia). rewrite getuint256_val; lia. }
    destruct (negb (IsProofOfWork prev)); [done|]. destruct (_ <? 3); [done|].
    exists (getuint256 q). split; [done|]. rewrite getuint256_val; lia.
  - destruct nPoWBase_ok as [Hwb Hvb].
    destruct (bn_div_pos (setuint256 nPoWBase) (bn_add (bn_SetCompact (bi_nBits this)) (CBigNum_int32 1))) as (w & -> & Hwv).
    { rewrite setuint256_ok by done. lia. } { rewrite add1_ok. lia. }
    cbn [mbind option_bind]. rewrite add1_ok, setuint256_ok, Hvb, <- Et in Hwv by done.
    set (w1 := if bn_lt w (CBigNum_int32 1) then CBigNum_int32 1 else w).
    assert (Hw : 1 <= bnval w1 <= 2 ^ 224).
    { assert (0 <= bnval w <= 2 ^ 224) by (rewrite Hwv; split; [apply Z.div_pos; lia|apply Z.div_le_upper_bound; nia]).
      unfold w1. rewrite bn_lt_ok, CBigNum_int32_ok by lia. destruct (Z.ltb_spec (bnval w) 1); rewrite ?CBigNum_int32_ok by lia; lia. }
    clearbody w1. destruct (bu_sub_ok W256 _ _ Hw1 Hw2) as [Hws _]. assert (Hr := val_range _ _ Hws).
    set (d := bu_sub (bi_nChainTrust prev) (bi_nChainTrust prevprev)) in *. change (modulus W256) with (2 ^ 256) in Hr.
    assert (Hpart : ∃ r, (x ← bn_div (bn_mul (CBigNum_int32 2) (setuint256 d)) (CBigNum_int32 3);
      Some (getuint256 (bn_add w1 x))) = Some r ∧ 1 <= val r < 2 ^ 256).
    { assert (Hm : bnval (bn_mul (CBigNum_int32 2) (setuint256 d)) = 2 * val d).
      { unfold bn_mul. rewrite BN_mul_law, CBigNum_int32_ok, setuint256_ok by (done || lia). done. }
      destruct (bn_div_pos (bn_mul (CBigNum_int32 2) (setuint256 d)) (CBigNum_int32 3)) as (x & -> & Hx);
        [lia|rewrite CBigNum_int32_ok; lia|].
      rewrite Hm, CBigNum_int32_ok in Hx by lia. cbn [mbind option_bind]. eexists. split; [done|].
      assert (0 <= bnval x <= 2 * 2 ^ 256 / 3) by (rewrite Hx; split; [apply Z.div_pos; lia|apply Z.div_le_mono; lia]).
      assert (Ha : bnval (bn_add w1 x) = bnval w1 + bnval x) by apply BN_add_law.
      assert (2 * 2 ^ 256 / 3 < 2 ^ 256 - 2 ^ 254) by reflexivity. rewrite getuint256_val; lia. }
    destruct (negb (_ && _)); [done|]. destruct (_ <? 7); [done|].
    rewrite zero_le_zero, <- Ep. destruct (Z.leb_spec p 0); [lia|].
    destruct (inverse_target_ok (bn_SetCompact (bi_nBits prev))) as (q & -> & Hq); [lia|]. cbn [mbind option_bind].
    rewrite <- Ep in Hq. assert (Hq' := Hinv p Hp). rewrite <- Hq in Hq'. eexists. split; [done|].
    assert (Ha : bnval (bn_add w1 q) = bnval w1 + bnval q) by apply BN_add_law. rewrite getuint256_val; lia.
Qed.

End facts.

Lemma PoS_reward_ok {BN : OpenSSL_BN} {BNok : OpenSSL_BN_ok BN} net nCoinAge nBits nTime : 0 <= nCoinAge <= 2 * 10 ^ 11 →
  ∃ rate, GetProofOfStakeReward net nCoinAge nBits nTime true = Some rate ∧
    on_curve 3 (bnval (bn_SetCompact (bn_GetCompact (GetProofOfStakeLimit net 0 (u32 nTime))))) MAX_MINT_PROOF_OF_STAKE
      (bnval (bn_SetCompact nBits)) rate ∧
    GetProofOfStakeReward net nCoinAge nBits nTime false =
      Some (Z.min (nCoinAge * rate * 33 / (365 * 33 + 8)) (10 * COIN)).
Proof.
  intros Hage. unfold GetProofOfStakeReward. cbv zeta.
  set (L := bn_SetCompact (bn_GetCompact (GetProofOfStakeLimit net 0 (u32 nTime)))). set (T := bn_SetCompact nBits).
  assert (HS : bnval (CBigNum_int64 MAX_MINT_PROOF_OF_STAKE) = MAX_MINT_PROOF_OF_STAKE) by (apply CBigNum_int64_ok; split; done).
  assert (HL : 0 < bnval L).
  { destruct (PoSLimit_ok net 0 (u32 nTime)) as (n & Hin & Hn). apply (compact_limit_pos _ n); [|done]. cbn in *. intuition. }
  destruct (bisect_reward (λ m, bn_gt (bn_mul (pow3 m) L) (bn_mul (pow3 (CBigNum_int64 MAX_MINT_PROOF_OF_STAKE)) T)) 3 (bnval L)
    MAX_MINT_PROOF_OF_STAKE (bnval T) (CBigNum_int64 (1 * CENT)) (CBigNum_int64 MAX_MINT_PROOF_OF_STAKE))
    as (lo & hi & -> & Hr); try done; [apply CBigNum_int64_ok; split; done| |].
  { intros bn. rewrite bn_gt_ok. unfold bn_mul. rewrite !BN_mul_law, !pow3_ok, HS. done. }
  cbn [mbind option_bind]. eexists. split; [done|]. rewrite Z.min_l by apply Hr. split; [exact Hr|]. cbv zeta in Hr.
  destruct Hr as [Hrange _]. set (r := i64 (Z.quot _ _ * _)) in *. clearbody r.
  unfold CENT, MAX_MINT_PROOF_OF_STAKE, COIN in *.
  assert (0 <= nCoinAge * r <= 2 * 10 ^ 11 * 10 ^ 6) by nia.
  rewrite (i64_small (nCoinAge * r)), i64_small by lia. rewrite Z.quot_div_nonneg by lia. done.
Qed.

Lemma PoW_reward_ok {BN : OpenSSL_BN} {BNok : OpenSSL_BN_ok BN} net nBits :
  ∃ r, GetProofOfWorkReward net nBits = Some r ∧
    on_curve 6 (bnval (bn_SetCompact (bn_GetCompact (bnProofOfWorkLimit net)))) MAX_MINT_PROOF_OF_WORK
      (bnval (bn_SetCompact nBits)) r.
Proof.
  unfold GetProofOfWorkReward. cbv zeta.
  set (L := bn_SetCompact (bn_GetCompact (bnProofOfWorkLimit net))). set (T := bn_SetCompact nBits).
  assert (HS : bnval (CBigNum_int64 MAX_MINT_PROOF_OF_WORK) = MAX_MINT_PROOF_OF_WORK) by (apply CBigNum_int64_ok; split; done).
  assert (HL : 0 < bnval L).
  { apply (compact_limit_pos _ (if net then 240 else 236)); [destruct net; cbn; auto 7|apply PoWLimit_ok]. }
  destruct (bisect_reward (λ m, bn_gt (pow6 m L) (pow6 (CBigNum_int64 MAX_MINT_PROOF_OF_WORK) T)) 6 (bnval L)
    MAX_MINT_PROOF_OF_WORK (bnval T) (CBigNum_int64 CENT) (CBigNum_int64 MAX_MINT_PROOF_OF_WORK))
    as (lo & hi & -> & Hr); try done; [apply CBigNum_int64_ok; split; done| |].
  { intros bn. rewrite bn_gt_ok, !pow6_ok, HS. done. }
  cbn [mbind option_bind]. eexists. split; [done|]. rewrite Z.min_l by apply Hr. done.
Qed.

(** ** Properties *)

(** Proof-of-work reward: for every difficulty the bisection finishes and the
    reward is a whole number of cents between one cent and 100 coins, within one
    cent of the solution of (limit / reward)^6 = target limit / target. *)
Theorem PoW_reward {BN : OpenSSL_BN} {BNok : OpenSSL_BN_ok BN} net nBits :
  ∃ r, GetProofOfWorkReward net nBits = Some r ∧
    on_curve 6 (bnval (bn_SetCompact (bn_GetCompact (bnProofOfWorkLimit net)))) MAX_MINT_PROOF_OF_WORK
      (bnval (bn_SetCompact nBits)) r.
Proof. apply PoW_reward_ok. Qed.

(** Proof-of-stake reward: the yearly rate is a whole number of cents between 1%
    and 100%, within one cent of the solution of (limit / rate)^3 = target limit
    / target, and the reward is the coin age times the rate per year of 365 and
    8/33 days, rounded down, and never more than ten coins; coin ages up to
    2 * 10^11 coin-days do not overflow. *)
Theorem PoS_reward {BN : OpenSSL_BN} {BNok : OpenSSL_BN_ok BN} net nCoinAge nBits nTime : 0 <= nCoinAge <= 2 * 10 ^ 11 →
  ∃ rate, GetProofOfStakeReward net nCoinAge nBits nTime true = Some rate ∧
    on_curve 3 (bnval (bn_SetCompact (bn_GetCompact (GetProofOfStakeLimit net 0 (u32 nTime))))) MAX_MINT_PROOF_OF_STAKE
      (bnval (bn_SetCompact nBits)) rate ∧
    GetProofOfStakeReward net nCoinAge nBits nTime false =
      Some (Z.min (nCoinAge * rate * 33 / (365 * 33 + 8)) (10 * COIN)).
Proof. apply PoS_reward_ok. Qed.

Lemma PoS_reward_witness :
  ∃ rate, GetProofOfStakeReward false 1000 0x1c00ffff 1500000000 true = Some rate ∧
    on_curve 3 (bnval (bn_SetCompact (bn_GetCompact (GetProofOfStakeLimit false 0 (u32 1500000000))))) MAX_MINT_PROOF_OF_STAKE
      (bnval (bn_SetCompact 0x1c00ffff)) rate ∧
    GetProofOfStakeReward false 1000 0x1c00ffff 1500000000 false =
      Some (Z.min (1000 * rate * 33 / (365 * 33 + 8)) (10 * COIN)).
Proof. apply (PoS_reward false 1000 0x1c00ffff 1500000000). lia. Defined.

(** Retargeting: from the third block of a kind on, the new target is the
    previous one scaled by the moving average of the last spacing, capped by the
    limit; a block exactly on schedule leaves a target within the limit
    unchanged.  The computation neither overflows nor divides by zero. *)
Theorem NextTarget_ok {BN : OpenSSL_BN} {BNok : OpenSSL_BN_ok BN} net pos last prev p1 prevprev p2 p3 chain chain2 spacing :
  let h := bi_nHeight last in let t := bi_nTime last in
  GetLastBlockIndex (last :: chain) pos = prev :: p1 :: chain2 →
  GetLastBlockIndex (p1 :: chain2) pos = prevprev :: p2 :: p3 →
  bi_nHeight prev <= h < 2 ^ 31 → 0 <= bi_nTime prev < 2 ^ 32 → 0 <= bi_nTime prevprev < 2 ^ 32 →
  spacing = (if pos then nStakeTargetSpacing net
             else Z.min (GetTargetSpacingWorkMax net h t) (nStakeTargetSpacing net * (1 + h - bi_nHeight prev))) →
  let limit := if pos then GetProofOfStakeLimit net h t else bnProofOfWorkLimit net in
  let T := bnval (bn_SetCompact (bi_nBits prev)) in
  let interval := nTargetTimespan / spacing in
  let actual := bi_nTime prev - bi_nTime prevprev in
  ∃ bn, NextTarget net (last :: chain) pos = Some bn ∧
    bnval bn = Z.min (bnval limit) (Z.quot (T * ((interval - 1) * spacing + 2 * actual)) ((interval + 1) * spacing)) ∧
    (actual = spacing → 0 <= T <= bnval limit → bnval bn = T).
Proof.
  intros h t E1 E2 Hh Ht1 Ht2 Hsp limit T interval actual. unfold NextTarget. rewrite E1, E2.
  assert (Hn : nStakeTargetSpacing net = 300 ∨ nStakeTargetSpacing net = 600) by (unfold nStakeTargetSpacing; destruct net; auto).
  assert (Hmax : GetTargetSpacingWorkMax net h t = 3 * nStakeTargetSpacing net ∨ GetTargetSpacingWorkMax net h t = 12 * nStakeTargetSpacing net).
  { unfold GetTargetSpacingWorkMax. repeat case_match; auto. }
  assert (Hs : 300 <= spacing <= 7200) by (rewrite Hsp; destruct pos; lia).
  fold h t. rewrite <- Hsp. unfold GetBlockTime. fold actual.
  assert (Hi : Z.quot nTargetTimespan spacing = interval) by (apply Z.quot_div_nonneg; [done|lia]). rewrite Hi.
  assert (Hib : 84 <= interval <= 2016).
  { unfold interval. change nTargetTimespan with 604800. split; [apply Z.div_le_lower_bound|apply Z.div_le_upper_bound]; lia. }
  assert (Hact : - 2 ^ 32 < actual < 2 ^ 32) by (unfold actual; lia).
  assert (Hm : 0 <= (interval - 1) * spacing <= 2016 * 7200 ∧ 0 < (interval + 1) * spacing <= 2017 * 7200) by nia.
  rewrite (i64_small ((interval + 1) * spacing)) by lia.
  replace ((interval - 1) * spacing + actual + actual) with ((interval - 1) * spacing + 2 * actual) by lia.
  rewrite (i64_small ((interval - 1) * spacing + 2 * actual)) by lia.
  set (a := bn_mul _ _). set (d := CBigNum_int64 ((interval + 1) * spacing)).
  assert (Ha : bnval a = T * ((interval - 1) * spacing + 2 * actual)).
  { unfold a, bn_mul. rewrite BN_mul_law, CBigNum_int64_ok by lia. done. }
  assert (Hd : bnval d = (interval + 1) * spacing) by (unfold d; rewrite CBigNum_int64_ok; lia).
  destruct (BN_div_law a d) as (q & r & E & Hq & _); [lia|]. unfold bn_div. rewrite E. cbn [fmap option_fmap option_map fst mbind option_bind].
  assert (Hlim : (if negb pos then bnProofOfWorkLimit net else GetProofOfStakeLimit net h t) = limit) by (destruct pos; done).
  rewrite Hlim. rewrite Ha, Hd in Hq. eexists. split; [done|]. rewrite bn_gt_ok, <- Hq. split.
  - destruct (Z.ltb_spec (bnval limit) (bnval q)); lia.
  - intros Eact HT. assert (bnval q = T) as Eq.
    { rewrite Hq, Eact. replace ((interval - 1) * spacing + 2 * spacing) with ((interval + 1) * spacing) by lia.
      apply Z.quot_mul. lia. }
    rewrite Eq. destruct (Z.ltb_spec (bnval limit) T); lia.
Qed.

Definition sample_index (h t : Z) : CBlockIndex := mkIndex 1 0 h 0 uint256_zero 1 t 0x1c00ffff.

Lemma NextTarget_ok_witness :
  ∃ bn, NextTarget false [sample_index 9 5000; sample_index 8 4400; sample_index 7 4000] false = Some bn ∧
    bnval bn = Z.min (bnval (bnProofOfWorkLimit false))
      (Z.quot (bnval (bn_SetCompact 0x1c00ffff) * ((1008 - 1) * 600 + 2 * 600)) ((1008 + 1) * 600)) ∧
    (600 = 600 → 0 <= bnval (bn_SetCompact 0x1c00ffff) <= bnval (bnProofOfWorkLimit false) → bnval bn = bnval (bn_SetCompact 0x1c00ffff)).
Proof.
  apply (NextTarget_ok false false (sample_index 9 5000) (sample_index 9 5000) (sample_index 8 4400) (sample_index 8 4400)
    (sample_index 7 4000) [] [sample_index 8 4400; sample_index 7 4000] [sample_index 7 4000] 600);
    try reflexivity; vm_compute; split; congruence.
Defined.

(** Proof of work and the difficulty floor: a hash is accepted exactly when the
    decoded target is positive and within the limit and the hash does not exceed
    it; the target [ComputeMaxBits] allows is twice the base doubled once per
    started day, capped by the limit. *)
Theorem work_targets {BN : OpenSSL_BN} {BNok : OpenSSL_BN_ok BN} net hash nBits limit nBase nTime : wf W256 hash →
  let T := bnval (bn_SetCompact nBits) in
  (CheckProofOfWork net hash nBits = true ↔ 0 < T <= bnval (bnProofOfWorkLimit net) ∧ val hash <= T) ∧
  (0 <= bnval (bn_SetCompact nBase) →
   bnval (ComputeMaxTarget limit nBase nTime) =
   Z.min (bnval limit) (bnval (bn_SetCompact nBase) * 2 * 2 ^ Z.max 0 (- (- nTime / nOneDay)))).
Proof.
  intros Hh T. split.
  - unfold CheckProofOfWork. rewrite zero_le_zero, bn_gt_ok, PoWLimit_ok. fold T.
    assert (Hlim : 0 < 2 ^ (if net then 240 else 236) - 1 < 2 ^ 256) by (destruct net; done).
    destruct (Z.leb_spec T 0); cbn [orb]; [split; [done|lia]|].
    destruct (Z.ltb_spec (2 ^ (if net then 240 else 236) - 1) T); [split; [done|lia]|].
    destruct (getuint256_ok (bn_SetCompact nBits)) as [Hw _].
    rewrite (bu_gt_ok W256), getuint256_val by (done || (fold T; lia)). fold T.
    destruct (Z.ltb_spec T (val hash)); split; done || lia.
  - intros HB. unfold ComputeMaxTarget. set (r := bn_mul _ _).
    assert (Hr : bnval r = bnval (bn_SetCompact nBase) * 2) by (unfold r, bn_mul; rewrite BN_mul_law, CBigNum_int32_ok; lia).
    assert (Hm := maxbits_loop_min (maxbits_fuel nTime) limit r nTime). rewrite Hr in Hm. rewrite <- Hm.
    + rewrite bn_gt_ok. destruct (Z.ltb_spec (bnval limit) (bnval (maxbits_loop (maxbits_fuel nTime) limit r nTime))); lia.
    + unfold maxbits_fuel, nOneDay. destruct (Z.le_gt_cases nTime 0); [left; lia|right].
      assert (0 <= nTime / (24 * 60 * 60)) by (apply Z.div_pos; lia). lia.
    + lia.
Qed.

Lemma work_targets_witness :
  bnval (ComputeMaxTarget (bnProofOfWorkLimit false) 0x1c00ffff 100000) =
  Z.min (bnval (bnProofOfWorkLimit false)) (bnval (bn_SetCompact 0x1c00ffff) * 2 * 2 ^ Z.max 0 (- (- 100000 / nOneDay))).
Proof.
  apply (work_targets false uint256_zero 0x1c00ffff (bnProofOfWorkLimit false) 0x1c00ffff 100000); [apply wf_zero|].
  vm_compute. discriminate.
Defined.

(** Chain trust grows: a block whose target and whose parent's target decode to
    positive numbers below 2^254 gets a trust score of at least one, computed
    without wrapping, whatever kinds of blocks precede it. *)
Theorem GetBlockTrust_positive {BN : OpenSSL_BN} {BNok : OpenSSL_BN_ok BN} this prev prevprev rest :
  0 < bnval (bn_SetCompact (bi_nBits this)) < 2 ^ 254 → 0 < bnval (bn_SetCompact (bi_nBits prev)) < 2 ^ 254 →
  wf W256 (bi_nChainTrust prev) → wf W256 (bi_nChainTrust prevprev) →
  ∃ r, GetBlockTrust this (prev :: prevprev :: rest) = Some r ∧ 1 <= val r < 2 ^ 256.
Proof. intros. eapply GetBlockTrust_range; done. Qed.

Lemma GetBlockTrust_positive_witness :
  ∃ r, GetBlockTrust (sample_index 40 7) [sample_index 39 6; sample_index 38 5] = Some r ∧ 1 <= val r < 2 ^ 256.
Proof. apply (GetBlockTrust_positive (sample_index 40 7) (sample_index 39 6) (sample_index 38 5) []); try apply wf_zero; vm_compute; split; congruence. Defined.
