(* ===== verification/Utxo.v ===== *)
(** * Spending outputs (src/main.cpp, src/main.h)

    The transaction index keeps, for every output of a transaction, the position
    of the transaction that spends it.  [FetchInputs] collects the index entries
    a transaction needs, [ConnectInputs] checks it against them and marks the
    outputs as spent, [DisconnectInputs] takes that back.

    The databases are maps, the block files partial functions from positions.
    Scripts are verified by [VerifyScript] with the signature cache as state.
    [None] stands for a failed assertion or an exception. *)

From stdpp Require Import base list numbers option gmap.
From Stdlib Require Import ZArith Lia.
From S2P Require Import Prelude Uint256 Bignum Serialize Tx Script Interp SigCheck Chain.

Open Scope Z_scope.

(** ** Data *)

Record CDiskTxPos := mkPos { nFile : Z; nBlockPos : Z; nTxPos : Z }.
#[export] Instance CDiskTxPos_eq_dec : EqDecision CDiskTxPos.
Proof. solve_decision. Defined.
Definition CDiskTxPos_SetNull : CDiskTxPos := mkPos UINT_MAX 0 0.
Definition CDiskTxPos_IsNull (p : CDiskTxPos) : bool := nFile p =? UINT_MAX.
Definition CDiskTxPos_eqb (a b : CDiskTxPos) : bool :=
  (nFile a =? nFile b) && (nBlockPos a =? nBlockPos b) && (nTxPos a =? nTxPos b).

Record CTxIndex := mkTxIndex { pos : CDiskTxPos; vSpent : list CDiskTxPos }.
#[export] Instance CTxIndex_eq_dec : EqDecision CTxIndex.
Proof. solve_decision. Defined.
(** [CTxIndex(posIn, nOutputs)] *)
Definition CTxIndex_new (posIn : CDiskTxPos) (nOutputs : nat) : CTxIndex :=
  mkTxIndex posIn (replicate nOutputs CDiskTxPos_SetNull).

Abbreviation TxMap := (gmap base_uint CTxIndex).
Abbreviation MapPrevTx := (gmap base_uint (CTxIndex * CTransaction)).

(** The transaction database and the block files *)
Record Disk := mkDisk {
  txdb : TxMap;
  tx_at : CDiskTxPos → option CTransaction;
  block_time_at : Z → Z → option Z
}.

(** [ReadFromDisk(txdb, prevout, txindexRet)] *)
Definition ReadFromDisk (d : Disk) (prevout : COutPoint) : option (CTransaction * CTxIndex) :=
  txindex ← txdb d !! op_hash prevout;
  tx ← tx_at d (pos txindex);
  if Z.of_nat (length (vout tx)) <=? op_n prevout then None else Some (tx, txindex).

(** ** Fetching *)

Inductive fetch_result :=
  | Fetched (inputs : MapPrevTx)
  | Missing
  | Invalid (nDoS : Z).

Definition memory_pos : CDiskTxPos := mkPos 1 1 1.

(** One turn of the first loop; [mempool] is [mempool.mapTx] *)
Definition fetch_one (d : Disk) (mempool : gmap base_uint CTransaction) (mapTestPool : TxMap) (fBlock fMiner : bool)
    (prevout : COutPoint) (inputs : MapPrevTx) : option MapPrevTx :=
  let h := op_hash prevout in
  if bool_decide (is_Some (inputs !! h)) then Some inputs
  else
    let found :=
      match (if fBlock || fMiner then mapTestPool !! h else None) with
      | Some txindex => Some txindex
      | None => txdb d !! h
      end in
    match found with
    | None =>
        if fBlock || fMiner then None
        else
          txPrev ← mempool !! h;
          Some (<[h := (mkTxIndex CDiskTxPos_SetNull (replicate (length (vout txPrev)) CDiskTxPos_SetNull), txPrev)]> inputs)
    | Some txindex =>
        txPrev ← (if CDiskTxPos_eqb (pos txindex) memory_pos then mempool !! h else tx_at d (pos txindex));
        Some (<[h := (txindex, txPrev)]> inputs)
    end.

Fixpoint fetch_loop (d : Disk) (mempool : gmap base_uint CTransaction) (mapTestPool : TxMap) (fBlock fMiner : bool)
    (vin : list CTxIn) (inputs : MapPrevTx) : option MapPrevTx :=
  match vin with
  | [] => Some inputs
  | txin :: vin =>
      inputs ← fetch_one d mempool mapTestPool fBlock fMiner (prevout txin) inputs;
      fetch_loop d mempool mapTestPool fBlock fMiner vin inputs
  end.

(** [prevout.n >= txPrev.vout.size() || prevout.n >= txindex.vSpent.size()] *)
Definition out_of_range (prevout : COutPoint) (entry : CTxIndex * CTransaction) : bool :=
  (Z.of_nat (length (vout entry.2)) <=? op_n prevout) || (Z.of_nat (length (vSpent entry.1)) <=? op_n prevout).

(** "Make sure all prevout.n indexes are valid"; [None] is the failed assertion *)
Fixpoint range_loop (vin : list CTxIn) (inputs : MapPrevTx) : option bool :=
  match vin with
  | [] => Some true
  | txin :: vin =>
      entry ← inputs !! op_hash (prevout txin);
      if out_of_range (prevout txin) entry then Some false else range_loop vin inputs
  end.

Definition FetchInputs (d : Disk) (mempool : gmap base_uint CTransaction) (mapTestPool : TxMap) (fBlock fMiner : bool)
    (t : CTransaction) (inputsRet : MapPrevTx) : option fetch_result :=
  if IsCoinBase t then Some (Fetched inputsRet)
  else
    match fetch_loop d mempool mapTestPool fBlock fMiner (vin t) inputsRet with
    | None => Some Missing
    | Some inputs =>
        valid ← range_loop (vin t) inputs;
        Some (if valid : bool then Fetched inputs else Invalid 100)
    end.

(** [GetOutputFor] throws when the output is not there. *)
Definition GetOutputFor (input : CTxIn) (inputs : MapPrevTx) : option CTxOut :=
  '(_, txPrev) ← inputs !! op_hash (prevout input);
  if Z.of_nat (length (vout txPrev)) <=? op_n (prevout input) then None
  else vout txPrev !! Z.to_nat (op_n (prevout input)).

Fixpoint valuein_loop (inputs : MapPrevTx) (vin : list CTxIn) (nResult : Z) : option Z :=
  match vin with
  | [] => Some nResult
  | txin :: vin => o ← GetOutputFor txin inputs; valuein_loop inputs vin (i64 (nResult + nValue o))
  end.
Definition GetValueIn (t : CTransaction) (inputs : MapPrevTx) : option Z :=
  if IsCoinBase t then Some 0 else valuein_loop inputs (vin t) 0.

Definition GetLegacySigOpCount (t : CTransaction) : Z :=
  let nSigOps :=
    if negb (IsCoinBase t) then fold_left (λ n txin, u32 (n + GetSigOpCount (scriptSig txin) false)) (vin t) 0 else 0 in
  fold_left (λ n txout, u32 (n + GetSigOpCount (scriptPubKey txout) false)) (vout t) nSigOps.

Fixpoint p2sh_sigops (inputs : MapPrevTx) (vin : list CTxIn) (nSigOps : Z) : option Z :=
  match vin with
  | [] => Some nSigOps
  | txin :: vin =>
      o ← GetOutputFor txin inputs;
      p2sh_sigops inputs vin
        (if IsPayToScriptHash (scriptPubKey o)
         then u32 (nSigOps + GetSigOpCount_p2sh (scriptPubKey o) (scriptSig txin)) else nSigOps)
  end.
Definition GetP2SHSigOpCount (t : CTransaction) (inputs : MapPrevTx) : option Z :=
  if IsCoinBase t then Some 0 else p2sh_sigops inputs (vin t) 0.

(** ** Coin age *)

Section CoinAge.
Context {BN : OpenSSL_BN} (fTestNet : bool).

(** [None]: the timestamp violation or the unreadable block; the divisors are
    constants. *)
Fixpoint coinage_loop (d : Disk) (nTime : Z) (vin : list CTxIn) (bnCentSecond : BIGNUM) : option BIGNUM :=
  match vin with
  | [] => Some bnCentSecond
  | txin :: vin =>
      match ReadFromDisk d (prevout txin) with
      | None => coinage_loop d nTime vin bnCentSecond
      | Some (txPrev, txindex) =>
          if nTime <? Tx.nTime txPrev then None
          else
            blockTime ← block_time_at d (nFile (pos txindex)) (nBlockPos (pos txindex));
            if blockTime + nStakeMinAge fTestNet >? nTime then coinage_loop d nTime vin bnCentSecond
            else
              let nValueIn := nValue (nth (Z.to_nat (op_n (prevout txin))) (vout txPrev) CTxOut_SetNull) in
              x ← bn_div (bn_mul (CBigNum_int64 nValueIn) (CBigNum_uint32 (u32 (nTime - Tx.nTime txPrev)))) (CBigNum_int64 CENT);
              coinage_loop d nTime vin (bn_add bnCentSecond x)
      end
  end.
Definition GetCoinAge (d : Disk) (t : CTransaction) : option Z :=
  if IsCoinBase t then Some 0
  else
    bnCentSecond ← coinage_loop d (nTime t) (vin t) (CBigNum_int32 0);
    a ← bn_div (bn_mul bnCentSecond (CBigNum_int64 CENT)) (CBigNum_int64 COIN);
    bnCoinDay ← bn_div a (CBigNum_int32 nOneDay);
    Some (getuint64 bnCoinDay).
End CoinAge.

(** ** Connecting *)

Definition STRICT_FORMAT_FLAGS : Z := Z.lor (Z.lor SCRIPT_VERIFY_STRICTENC SCRIPT_VERIFY_LOW_S) SCRIPT_VERIFY_NULLDUMMY.
Definition STRICT_FLAGS : Z := Z.lor SCRIPT_VERIFY_P2SH STRICT_FORMAT_FLAGS.

Record CScriptCheck := mkCheck {
  sc_scriptPubKey : list Z;
  sc_ptxTo : CTransaction;
  sc_nIn : nat;
  sc_nFlags : Z;
  sc_nHashType : Z
}.
(** [CScriptCheck(txFrom, txTo, nIn, nFlags, nHashType)] *)
Definition CScriptCheck_new (txFrom txTo : CTransaction) (nIn : nat) (nFlags nHashType : Z) : CScriptCheck :=
  mkCheck (scriptPubKey (nth (Z.to_nat (op_n (prevout (nth nIn (vin txTo) CTxIn_default)))) (vout txFrom) CTxOut_SetNull))
    txTo nIn nFlags nHashType.

Inductive connect_result :=
  | Rejected (nDoS : Z) (mapTestPool : TxMap)
  | Connected (mapTestPool : TxMap) (vChecks : list CScriptCheck).

Definition set_spent (p : CDiskTxPos) (k : Z) (x : CTxIndex) : CTxIndex :=
  mkTxIndex (pos x) (<[Z.to_nat k := p]> (vSpent x)).

Section Connect.
Context {BN : OpenSSL_BN} {DG : Digests} (fTestNet : bool).
(** [CPubKey::Verify], the cache limit and the random eviction of [CheckSig] *)
Variable Verify : list Z → base_uint → list Z → bool.
Variable nMaxCacheSize : Z.
Variable random_entry : gset sigdata → sigdata.
(** [Checkpoints::GetLastCheckpointTime()] *)
Variable lastCheckpointTime : Z.

(** [CScriptCheck::operator()] *)
Definition CScriptCheck_call (check : CScriptCheck) (cache : gset sigdata) : option bool * gset sigdata :=
  let scriptSig := scriptSig (nth (sc_nIn check) (vin (sc_ptxTo check)) CTxIn_default) in
  VerifyScript (CheckSig Verify nMaxCacheSize random_entry (sc_ptxTo check) (sc_nIn check) (sc_nHashType check) (sc_nFlags check))
    (sc_ptxTo check) (sc_nIn check) (sc_nFlags check) scriptSig (sc_scriptPubKey check) cache.

(** The walk back over the blocks that are too recent for the spent output *)
Fixpoint immature (height : Z) (pindex : list CBlockIndex) (p : CDiskTxPos) : bool :=
  match pindex with
  | [] => false
  | b :: pprev =>
      if height - bi_nHeight b <? nCoinbaseMaturity fTestNet then
        if (bi_nBlockPos b =? nBlockPos p) && (bi_nFile b =? nFile p) then true else immature height pprev p
      else false
  end.

(** First loop: [inl] is a rejection with its DoS score, [inr] the value in *)
Fixpoint connect_values (t : CTransaction) (pindexBlock : list CBlockIndex) (inputs : MapPrevTx) (vin : list CTxIn)
    (nValueIn : Z) : option (Z + Z) :=
  match vin with
  | [] => Some (inr nValueIn)
  | txin :: vin =>
      '(txindex, txPrev) ← inputs !! op_hash (prevout txin);
      if out_of_range (prevout txin) (txindex, txPrev) then Some (inl 100)
      else if (IsCoinBase txPrev || IsCoinStake txPrev) &&
              immature (match pindexBlock with b :: _ => bi_nHeight b | [] => 0 end) pindexBlock (pos txindex) then Some (inl 0)
      else if nTime txPrev >? nTime t then Some (inl 100)
      else
        let value := nValue (nth (Z.to_nat (op_n (prevout txin))) (vout txPrev) CTxOut_SetNull) in
        let nValueIn := i64 (nValueIn + value) in
        if negb (MoneyRange value) || negb (MoneyRange nValueIn) then Some (inl 100)
        else connect_values t pindexBlock inputs vin nValueIn
  end.

(** Second loop: double spends, scripts, marking; [inl] is a rejection *)
Fixpoint connect_scripts (t : CTransaction) (posThisTx : CDiskTxPos) (fBlock fMiner fScriptChecks : bool) (flags : Z)
    (pvChecks : bool) (i : nat) (vin : list CTxIn) (inputs : MapPrevTx) (mapTestPool : TxMap) (vChecks : list CScriptCheck)
    (cache : gset sigdata) : option ((Z * TxMap + TxMap * list CScriptCheck) * gset sigdata) :=
  match vin with
  | [] => Some (inr (mapTestPool, vChecks), cache)
  | txin :: vin =>
      let h := op_hash (prevout txin) in let k := op_n (prevout txin) in
      '(txindex, txPrev) ← inputs !! h;
      if negb (CDiskTxPos_IsNull (nth (Z.to_nat k) (vSpent txindex) CDiskTxPos_SetNull))
      then Some (inl (0, mapTestPool), cache)
      else
        let check := CScriptCheck_new txPrev t i flags 0 in
        let mark_spent vChecks cache :=
          let txindex := set_spent posThisTx k txindex in
          let mapTestPool := if fBlock || fMiner then <[h := txindex]> mapTestPool else mapTestPool in
          connect_scripts t posThisTx fBlock fMiner fScriptChecks flags pvChecks (S i) vin
            (<[h := (txindex, txPrev)]> inputs) mapTestPool vChecks cache in
        if negb fScriptChecks then mark_spent vChecks cache
        else if pvChecks then mark_spent (vChecks ++ [check]) cache
        else
          match CScriptCheck_call check cache with
          | (None, _) => None
          | (Some true, cache) => mark_spent vChecks cache
          | (Some false, cache) =>
              if negb (Z.land flags STRICT_FLAGS =? 0) then
                match CScriptCheck_call (CScriptCheck_new txPrev t i (Z.land flags (Z.lnot STRICT_FLAGS)) 0) cache with
                | (None, _) => None
                | (Some true, cache) => Some (inl (0, mapTestPool), cache)
                | (Some false, cache) => Some (inl (100, mapTestPool), cache)
                end
              else Some (inl (100, mapTestPool), cache)
          end
  end.

(** The final checks: the reward of a coinstake, the fee of any other transaction *)
Definition connect_finish (d : Disk) (t : CTransaction) (pindexBlock : list CBlockIndex) (nValueIn : Z)
    (mapTestPool : TxMap) (vChecks : list CScriptCheck) : option connect_result :=
  if IsCoinStake t then
    if nTime t >? lastCheckpointTime then
      match GetCoinAge fTestNet d t with
      | None => Some (Rejected 0 mapTestPool)
      | Some nCoinAge =>
          nValueOut ← GetValueOut t;
          let nReward := i64 (nValueOut - nValueIn) in
          stakeReward ← GetProofOfStakeReward fTestNet (i64 nCoinAge)
            (match pindexBlock with b :: _ => bi_nBits b | [] => 0 end) (nTime t) false;
          let nCalculatedReward :=
            i64 (i64 (stakeReward - GetMinFee t 1 false GMF_BLOCK (GetSerializeSize t)) + CENT) in
          if nReward >? nCalculatedReward then Some (Rejected 100 mapTestPool)
          else Some (Connected mapTestPool vChecks)
      end
    else Some (Connected mapTestPool vChecks)
  else
    nValueOut ← GetValueOut t;
    if nValueIn <? nValueOut then Some (Rejected 100 mapTestPool)
    else
      let nTxFee := i64 (nValueIn - nValueOut) in
      if nTxFee <? 0 then Some (Rejected 100 mapTestPool)
      else if negb (MoneyRange (i64 (0 + nTxFee))) then Some (Rejected 100 mapTestPool)
      else Some (Connected mapTestPool vChecks).

Definition ConnectInputs (d : Disk) (t : CTransaction) (inputs : MapPrevTx) (mapTestPool : TxMap) (posThisTx : CDiskTxPos)
    (pindexBlock : list CBlockIndex) (fBlock fMiner fScriptChecks : bool) (flags : Z) (pvChecks : bool) (cache : gset sigdata)
    : option (connect_result * gset sigdata) :=
  if IsCoinBase t then Some (Connected mapTestPool [], cache)
  else
    match connect_values t pindexBlock inputs (vin t) 0 with
    | None => None
    | Some (inl nDoS) => Some (Rejected nDoS mapTestPool, cache)
    | Some (inr nValueIn) =>
        match connect_scripts t posThisTx fBlock fMiner fScriptChecks flags pvChecks 0 (vin t) inputs mapTestPool [] cache with
        | None => None
        | Some (inl (nDoS, mapTestPool), cache) => Some (Rejected nDoS mapTestPool, cache)
        | Some (inr (mapTestPool, vChecks), cache) =>
            r ← connect_finish d t pindexBlock nValueIn mapTestPool vChecks; Some (r, cache)
        end
    end.
End Connect.

(** ** Disconnecting *)

Fixpoint disconnect_loop (vin : list CTxIn) (db : TxMap) : option TxMap :=
  match vin with
  | [] => Some db
  | txin :: vin =>
      txindex ← db !! op_hash (prevout txin);
      if Z.of_nat (length (vSpent txindex)) <=? op_n (prevout txin) then None
      else disconnect_loop vin (<[op_hash (prevout txin) := set_spent CDiskTxPos_SetNull (op_n (prevout txin)) txindex]> db)
  end.
(** The [bool] result as an option; a failure aborts the database transaction. *)
Definition DisconnectInputs `{Digests} (t : CTransaction) (db : TxMap) : option TxMap :=
  db ← (if negb (IsCoinBase t) then disconnect_loop (vin t) db else Some db);
  Some (delete (GetHash t) db).

(** ** Marking outputs *)

Definition mark (p : CDiskTxPos) (m : TxMap) (o : COutPoint) : TxMap := alter (set_spent p (op_n o)) (op_hash o) m.
Definition mark_all (p : CDiskTxPos) (m : TxMap) (os : list COutPoint) : TxMap := fold_left (mark p) os m.

(** The output exists in the index and is not spent. *)
Definition unspent (m : TxMap) (o : COutPoint) : Prop :=
  ∃ x, m !! op_hash o = Some x ∧ 0 <= op_n o < Z.of_nat (length (vSpent x)) ∧
       vSpent x !! Z.to_nat (op_n o) = Some CDiskTxPos_SetNull.

Lemma set_spent_id k x : vSpent x !! Z.to_nat k = Some CDiskTxPos_SetNull →
  set_spent CDiskTxPos_SetNull k x = x.
Proof. intros H. destruct x as [p v]. unfold set_spent. cbn in *. rewrite list_insert_id; done. Qed.

Lemma set_spent_twice p q k x : set_spent p k (set_spent q k x) = set_spent p k x.
Proof. unfold set_spent. cbn. rewrite list_insert_insert_eq. done. Qed.

Lemma set_spent_comm p q j k x : Z.to_nat j ≠ Z.to_nat k →
  set_spent p j (set_spent q k x) = set_spent q k (set_spent p j x).
Proof. intros Hne. unfold set_spent. cbn. rewrite list_insert_insert_ne by done. done. Qed.

Lemma mark_comm p q m o o' : 0 <= op_n o → 0 <= op_n o' → o ≠ o' → mark p (mark q m o) o' = mark q (mark p m o') o.
Proof.
  intros H1 H2 Hne. unfold mark. destruct (decide (op_hash o = op_hash o')) as [E|E].
  - rewrite E, !alter_alter_eq. apply alter_ext. intros x _. cbn. apply set_spent_comm.
    intros En. apply Hne. destruct o, o'. cbn in *. f_equal; [done|]. lia.
  - by rewrite alter_alter_ne.
Qed.

Lemma unmark_mark p m o : unspent m o → mark CDiskTxPos_SetNull (mark p m o) o = m.
Proof.
  intros (x & Hx & _ & Hn). unfold mark. rewrite alter_alter_eq. apply map_eq. intros h.
  destruct (decide (h = op_hash o)) as [->|Hne].
  - rewrite lookup_alter_eq, Hx. cbn. rewrite set_spent_twice, set_spent_id by done. done.
  - rewrite lookup_alter_ne by done. done.
Qed.

Lemma unspent_mark_ne p m o o' : 0 <= op_n o' → o ≠ o' → unspent m o → unspent (mark p m o') o.
Proof.
  intros H1 Hne (x & Hx & Hr & Hn). unfold mark, unspent. destruct (decide (op_hash o = op_hash o')) as [E|E].
  - exists (set_spent p (op_n o') x). rewrite <- E, lookup_alter_eq, Hx. split; [done|]. unfold set_spent. cbn [vSpent].
    rewrite length_insert. split; [done|]. rewrite list_lookup_insert_ne; [done|]. intros En. apply Hne.
    destruct o, o'. cbn in *. f_equal; [done|]. lia.
  - exists x. rewrite lookup_alter_ne by done. done.
Qed.

Lemma mark_all_comm p q m o os : 0 <= op_n o → Forall (λ o, 0 <= op_n o) os → o ∉ os →
  mark q (mark_all p m os) o = mark_all p (mark q m o) os.
Proof.
  intros Ho Hos Hn. unfold mark_all. revert m. induction Hos as [|o' os Ho' Hos IH]; intros m; cbn [fold_left]; [done|].
  apply not_elem_of_cons in Hn as [Hne Hn]. rewrite IH by done. rewrite mark_comm by done. done.
Qed.

(** Taking marks back in the order they were made restores the index. *)
Lemma mark_all_inverse p m os : NoDup os → Forall (λ o, 0 <= op_n o) os → Forall (unspent m) os →
  mark_all CDiskTxPos_SetNull (mark_all p m os) os = m.
Proof.
  intros Hnd. revert m. induction Hnd as [|o os Hn Hnd IH]; intros m Hpos Hu; [done|].
  apply Forall_cons in Hpos as [Ho Hpos]. apply Forall_cons in Hu as [Huo Hu].
  change (mark_all CDiskTxPos_SetNull (mark CDiskTxPos_SetNull (mark_all p (mark p m o) os) o) os = m).
  rewrite mark_all_comm by done. rewrite unmark_mark by done. by apply IH.
Qed.

Lemma mark_all_lookup p m os h x : mark_all p m os !! h = Some x → ∃ y, m !! h = Some y ∧ length (vSpent x) = length (vSpent y).
Proof.
  unfold mark_all. revert m. induction os as [|o os IH]; intros m; cbn [fold_left]; [eauto|].
  intros Hx. apply IH in Hx as (y & Hy & Hl). unfold mark in Hy. destruct (decide (h = op_hash o)) as [->|Hne].
  - rewrite lookup_alter_eq in Hy. destruct (m !! op_hash o) as [z|] eqn:E; [|done]. cbn in Hy. simplify_eq.
    exists z. split; [done|]. rewrite Hl. unfold set_spent. cbn [vSpent]. apply length_insert.
  - rewrite lookup_alter_ne in Hy by done. eauto.
Qed.

Lemma mark_all_some p m os h : is_Some (m !! h) → is_Some (mark_all p m os !! h).
Proof.
  unfold mark_all. revert m. induction os as [|o os IH]; intros m Hm; cbn [fold_left]; [done|]. apply IH.
  unfold mark. rewrite lookup_alter. destruct Hm as [x Hx]. case_decide; subst; rewrite Hx; eauto.
Qed.

(** ** [DisconnectInputs] unmarks *)

Lemma disconnect_loop_ok v db : Forall (λ i, ∃ x, db !! op_hash (prevout i) = Some x ∧ op_n (prevout i) < Z.of_nat (length (vSpent x))) v →
  disconnect_loop v db = Some (mark_all CDiskTxPos_SetNull db (map prevout v)).
Proof.
  intros Hv. revert db Hv. induction v as [|i v IH]; intros db Hv; [done|]. apply Forall_cons in Hv as [(x & Hx & Hr) Hv].
  cbn [disconnect_loop map]. rewrite Hx. cbn [mbind option_bind].
  destruct (Z.leb_spec (Z.of_nat (length (vSpent x))) (op_n (prevout i))); [lia|].
  assert (E : <[op_hash (prevout i) := set_spent CDiskTxPos_SetNull (op_n (prevout i)) x]> db =
    mark CDiskTxPos_SetNull db (prevout i)).
  { unfold mark. apply map_eq. intros h. destruct (decide (h = op_hash (prevout i))) as [->|Hne].
    - rewrite lookup_insert_eq, lookup_alter_eq, Hx. done.
    - rewrite lookup_insert_ne, lookup_alter_ne by done. done. }
  rewrite E, IH; [done|]. eapply Forall_impl; [exact Hv|]. intros j (y & Hy & Hyr). unfold mark.
  destruct (decide (op_hash (prevout j) = op_hash (prevout i))) as [Ej|Ej].
  - rewrite Ej, lookup_alter_eq, Hx. eexists. split; [done|]. unfold set_spent. cbn [vSpent]. rewrite length_insert.
    rewrite Ej, Hx in Hy. by simplify_eq.
  - rewrite lookup_alter_ne by done. eauto.
Qed.

(** The outputs a transaction spends *)
Definition spends (t : CTransaction) : list COutPoint := if IsCoinBase t then [] else map prevout (vin t).

(** Disconnecting a transaction from an index in which its outputs are marked and
    its own entry is the newest one *)
Lemma disconnect_marked {DG : Digests} p t m : tx_ok t → NoDup (spends t) → Forall (unspent m) (spends t) → m !! GetHash t = None →
  DisconnectInputs t (<[GetHash t := CTxIndex_new p (length (vout t))]> (mark_all p m (spends t))) = Some m.
Proof.
  intros Ht Hnd Hun Hnew. unfold DisconnectInputs, spends in *. destruct (IsCoinBase t); cbn [negb].
  { cbn [mbind option_bind mark_all fold_left]. by rewrite delete_insert_eq, delete_id. }
  assert (Hpos : Forall (λ o, 0 <= op_n o) (map prevout (vin t))).
  { apply Forall_fmap. destruct Ht as [_ _ [_ Hi] _ _]. eapply Forall_impl; [exact Hi|]. intros i [[_ ?] _]. cbn. lia. }
  assert (Hh : Forall (λ o, op_hash o ≠ GetHash t) (map prevout (vin t))).
  { eapply Forall_impl; [exact Hun|]. intros o (x & Hx & _) E. rewrite E in Hx. congruence. }
  assert (Hmark : ∀ q m x os, Forall (λ o, op_hash o ≠ GetHash t) os →
    mark_all q (<[GetHash t := x]> m) os = <[GetHash t := x]> (mark_all q m os)).
  { intros q m0 x os Hos. unfold mark_all. revert m0. induction Hos as [|o os Ho Hos IH]; intros m0; cbn [fold_left]; [done|].
    rewrite <- IH. f_equal. unfold mark. rewrite alter_insert_ne by done. done. }
  rewrite disconnect_loop_ok.
  - cbn [mbind option_bind]. rewrite Hmark, mark_all_inverse by done. rewrite delete_insert_eq, delete_id by done. done.
  - rewrite Forall_fmap in Hun, Hh. apply Forall_forall. intros i Hi. rewrite Forall_forall in Hun, Hh.
    destruct (Hun i Hi) as (x & Hx & Hr & _). specialize (Hh i Hi). cbn in Hx, Hr, Hh. rewrite lookup_insert_ne by done.
    assert (Hsome : is_Some (mark_all p m (map prevout (vin t)) !! op_hash (prevout i))).
    { apply mark_all_some. eauto. }
    destruct Hsome as [y Hy]. exists y. split; [done|]. apply mark_all_lookup in Hy as (z & Hz & ->). rewrite Hx in Hz. simplify_eq. lia.
Qed.

(** ** [ConnectInputs] *)

Definition coherent (inputs : MapPrevTx) (m : TxMap) : Prop :=
  ∀ h x tx, inputs !! h = Some (x, tx) → m !! h = Some x.

Lemma fetch_one_ok d mempool pool fBlock fMiner o inputs inputs' :
  fetch_one d mempool pool fBlock fMiner o inputs = Some inputs' →
  inputs ⊆ inputs' ∧ is_Some (inputs' !! op_hash o) ∧
  (fBlock || fMiner = true → coherent inputs (pool ∪ txdb d) → coherent inputs' (pool ∪ txdb d)).
Proof.
  unfold fetch_one. case_bool_decide as Hin; [intros [= <-]; done|]. rewrite <- eq_None_not_Some in Hin.
  assert (Hfresh : ∀ e, inputs ⊆ <[op_hash o := e]> inputs ∧ is_Some (<[op_hash o := e]> inputs !! op_hash o)).
  { intros e. split; [by apply insert_subseteq|]. rewrite lookup_insert_eq. eauto. }
  destruct (match (if fBlock || fMiner then pool !! op_hash o else None) with Some x => Some x | None => txdb d !! op_hash o end)
    as [x|] eqn:Ef.
  - intros (tx & _ & [= <-])%bind_Some. destruct (Hfresh (x, tx)) as [H1 H2]. split; [done|]. split; [done|]. intros HB Hco.
    rewrite HB in Ef. intros h y ty. destruct (decide (h = op_hash o)) as [->|Hne].
    + rewrite lookup_insert_eq. intros [= <- <-]. rewrite lookup_union. destruct (pool !! op_hash o); [injection Ef as ->|rewrite Ef].
      * by destruct (txdb d !! _).
      * done.
    + rewrite lookup_insert_ne by done. apply Hco.
  - destruct (fBlock || fMiner); [done|]. intros (tx & _ & [= <-])%bind_Some. destruct (Hfresh
      (mkTxIndex CDiskTxPos_SetNull (replicate (length (vout tx)) CDiskTxPos_SetNull), tx)) as [H1 H2]. done.
Qed.

Lemma fetch_loop_ok d mempool pool fBlock fMiner v inputs inputs' :
  fetch_loop d mempool pool fBlock fMiner v inputs = Some inputs' →
  inputs ⊆ inputs' ∧ Forall (λ i, is_Some (inputs' !! op_hash (prevout i))) v ∧
  (fBlock || fMiner = true → coherent inputs (pool ∪ txdb d) → coherent inputs' (pool ∪ txdb d)).
Proof.
  revert inputs. induction v as [|i v IH]; intros inputs; cbn [fetch_loop]; [intros [= <-]; done|].
  intros (inputs1 & H1 & H2)%bind_Some. apply fetch_one_ok in H1 as (Hs1 & [e He] & Hc1).
  apply IH in H2 as (Hs2 & Hf2 & Hc2). split; [by etrans|]. split; [|auto]. constructor; [|done].
  exists e. eapply lookup_weaken; done.
Qed.

Lemma range_loop_ok v inputs : Forall (λ i, is_Some (inputs !! op_hash (prevout i))) v →
  ∃ b, range_loop v inputs = Some b ∧
    (b = true → Forall (λ i, ∃ x tx, inputs !! op_hash (prevout i) = Some (x, tx) ∧
       op_n (prevout i) < Z.of_nat (length (vout tx)) ∧ op_n (prevout i) < Z.of_nat (length (vSpent x))) v).
Proof.
  induction 1 as [|i v [[x tx] He] _ (b & Hb & IH)]; cbn [range_loop]; [by exists true|]. rewrite He. cbn [mbind option_bind].
  destruct (out_of_range (prevout i) (x, tx)) eqn:Er; [by exists false|]. exists b. split; [done|]. intros ->. constructor; [|auto].
  apply orb_false_iff in Er as [E1 E2]. cbn in E1, E2. apply Z.leb_gt in E1, E2. eauto.
Qed.

Lemma FetchInputs_total d mempool pool fBlock fMiner t inputs : IsCoinBase t = false → Forall txin_ok (vin t) →
  ∃ r, FetchInputs d mempool pool fBlock fMiner t inputs = Some r ∧
    ∀ inputs', r = Fetched inputs' →
      inputs ⊆ inputs' ∧
      (fBlock || fMiner = true → coherent inputs (pool ∪ txdb d) → coherent inputs' (pool ∪ txdb d)) ∧
      Forall (λ i, is_Some (GetOutputFor i inputs') ∧
                   ∃ x tx, inputs' !! op_hash (prevout i) = Some (x, tx) ∧ op_n (prevout i) < Z.of_nat (length (vSpent x))) (vin t).
Proof.
  intros Hcb Hv. unfold FetchInputs. rewrite Hcb.
  destruct (fetch_loop _ _ _ _ _ _ _) as [inputs1|] eqn:Ef; [|by exists Missing].
  apply fetch_loop_ok in Ef as (Hs & Hf & Hc). destruct (range_loop_ok _ _ Hf) as (b & -> & Hb). cbn [mbind option_bind].
  eexists. split; [done|]. intros inputs'. destruct b; [|done]. intros [= <-]. split; [done|]. split; [done|].
  specialize (Hb eq_refl). rewrite Forall_forall in Hv, Hb |- *. intros i Hi. destruct (Hb i Hi) as (x & tx & Hx & H1 & H2).
  split; [|eauto]. unfold GetOutputFor. rewrite Hx. cbn [mbind option_bind].
  destruct (Z.leb_spec (Z.of_nat (length (vout tx))) (op_n (prevout i))); [lia|]. apply lookup_lt_is_Some_2.
  destruct (Hv i Hi) as [[_ ?] _]. lia.
Qed.

Definition value_of (inputs : MapPrevTx) (i : CTxIn) : Z :=
  match inputs !! op_hash (prevout i) with
  | Some (_, tx) => nValue (nth (Z.to_nat (op_n (prevout i))) (vout tx) CTxOut_SetNull)
  | None => 0
  end.
Definition total_in (inputs : MapPrevTx) (v : list CTxIn) : Z := foldr (λ i s, value_of inputs i + s) 0 v.

Definition script_of (inputs : MapPrevTx) (i : CTxIn) : list Z :=
  match inputs !! op_hash (prevout i) with
  | Some (_, tx) => scriptPubKey (nth (Z.to_nat (op_n (prevout i))) (vout tx) CTxOut_SetNull)
  | None => []
  end.

Lemma script_of_insert inputs h x y tx i : inputs !! h = Some (x, tx) → script_of (<[h := (y, tx)]> inputs) i = script_of inputs i.
Proof.
  intros Hx. unfold script_of. destruct (decide (op_hash (prevout i) = h)) as [->|Hne].
  - by rewrite lookup_insert_eq, Hx.
  - by rewrite lookup_insert_ne.
Qed.

Section connect_facts.
Context {BN : OpenSSL_BN} {DG : Digests} (net : bool).
Context (Verify : list Z → base_uint → list Z → bool) (nMaxCacheSize : Z) (random_entry : gset sigdata → sigdata).

(** What the first loop establishes of an input *)
Definition input_ok (t : CTransaction) (chain : list CBlockIndex) (inputs : MapPrevTx) (i : CTxIn) : Prop :=
  ∃ x tx, inputs !! op_hash (prevout i) = Some (x, tx) ∧
    op_n (prevout i) < Z.of_nat (length (vout tx)) ∧ op_n (prevout i) < Z.of_nat (length (vSpent x)) ∧
    nTime tx <= nTime t ∧
    (IsCoinBase tx || IsCoinStake tx = true →
     immature net (match chain with b :: _ => bi_nHeight b | [] => 0 end) chain (pos x) = false).

Lemma connect_values_ok t chain inputs v acc r : 0 <= acc <= MAX_MONEY →
  connect_values net t chain inputs v acc = Some (inr r) →
  Forall (input_ok t chain inputs) v ∧ r = acc + total_in inputs v ∧ 0 <= r <= MAX_MONEY ∧
  Forall (λ i, 0 <= value_of inputs i) v.
Proof.
  revert acc. induction v as [|i v IH]; intros acc Hacc; cbn [connect_values].
  { intros [= <-]. cbn. repeat split; try constructor; lia. }
  destruct (inputs !! op_hash (prevout i)) as [[x tx]|] eqn:E; [|done]. cbn [mbind option_bind].
  destruct (out_of_range (prevout i) (x, tx)) eqn:Er; [done|]. destruct (_ && _) eqn:Em; [done|].
  destruct (Z.gtb_spec (nTime tx) (nTime t)); [done|].
  set (value := nValue (nth (Z.to_nat (op_n (prevout i))) (vout tx) CTxOut_SetNull)).
  destruct (MoneyRange value) eqn:Ev; [|done]. destruct (MoneyRange (i64 (acc + value))) eqn:Ea; [|done]. cbn [negb orb].
  apply MoneyRange_ok in Ev. destruct (i64_add_range acc value Hacc Ev) as [H1 H2]. rewrite H1 in Ea. apply Z.leb_le in Ea.
  rewrite H2 by done. intros Hc. apply IH in Hc as (Hf & Hr & Hm & Hp); [|lia].
  assert (Hval : value_of inputs i = value) by (unfold value_of; rewrite E; done).
  apply orb_false_iff in Er as [Er1 Er2]. cbn [fst snd] in *. apply Z.leb_gt in Er1, Er2.
  split; [|split; [cbn [total_in foldr]; rewrite Hval; fold (total_in inputs v); lia|split; [done|]]].
  - constructor; [|done]. exists x, tx. split; [done|]. split; [lia|]. split; [lia|]. split; [lia|].
    intros Hc. rewrite Hc in Em. done.
  - constructor; [lia|done].
Qed.

(** One accepted turn of the second loop *)
Lemma connect_scripts_cons t p fBlock fMiner fScript flags pv k i v inputs pool checks cache pool' checks' cache' :
  connect_scripts Verify nMaxCacheSize random_entry t p fBlock fMiner fScript flags pv k (i :: v) inputs pool checks cache =
    Some (inr (pool', checks'), cache') →
  ∃ x tx checks1 cache1,
    inputs !! op_hash (prevout i) = Some (x, tx) ∧
    CDiskTxPos_IsNull (nth (Z.to_nat (op_n (prevout i))) (vSpent x) CDiskTxPos_SetNull) = true ∧
    (if fScript then
       if pv then checks1 = checks ++ [CScriptCheck_new tx t k flags 0] ∧ cache1 = cache
       else checks1 = checks ∧
            CScriptCheck_call Verify nMaxCacheSize random_entry (CScriptCheck_new tx t k flags 0) cache = (Some true, cache1)
     else checks1 = checks ∧ cache1 = cache) ∧
    let x' := set_spent p (op_n (prevout i)) x in
    connect_scripts Verify nMaxCacheSize random_entry t p fBlock fMiner fScript flags pv (S k) v
      (<[op_hash (prevout i) := (x', tx)]> inputs)
      (if fBlock || fMiner then <[op_hash (prevout i) := x']> pool else pool) checks1 cache1 =
      Some (inr (pool', checks'), cache').
Proof.
  cbn [connect_scripts]. destruct (inputs !! op_hash (prevout i)) as [[x tx]|]; [|done]. cbn [mbind option_bind].
  destruct (CDiskTxPos_IsNull _) eqn:En; [|done]. cbn [negb]. destruct fScript; cbn [negb].
  2: { intros H. exists x, tx, checks, cache. done. }
  destruct pv. { intros H. exists x, tx. eexists _, cache. done. }
  destruct (CScriptCheck_call _ _ _ _ cache) as [[[|]|] c1] eqn:Ec; [| |done].
  - intros H. exists x, tx, checks, c1. done.
  - destruct (negb _); [|done]. destruct (CScriptCheck_call _ _ _ _ c1) as [[[|]|] c2]; done.
Qed.

(** What the second loop establishes *)
Lemma connect_scripts_ok t p (fBlock fMiner fScript : bool) flags (pv : bool) k v inputs pool checks cache pool' checks' cache' db :
  CDiskTxPos_IsNull p = false → fBlock || fMiner = true → Forall txin_ok v →
  coherent inputs (pool ∪ db) →
  Forall (λ i, ∃ x tx, inputs !! op_hash (prevout i) = Some (x, tx) ∧ op_n (prevout i) < Z.of_nat (length (vSpent x)) ∧
               Forall (λ q, CDiskTxPos_IsNull q = true → q = CDiskTxPos_SetNull) (vSpent x)) v →
  connect_scripts Verify nMaxCacheSize random_entry t p fBlock fMiner fScript flags pv k v inputs pool checks cache =
    Some (inr (pool', checks'), cache') →
  pool' ∪ db = mark_all p (pool ∪ db) (map prevout v) ∧ NoDup (map prevout v) ∧ Forall (unspent (pool ∪ db)) (map prevout v).
Proof.
  intros Hp HB. revert k inputs pool checks cache. induction v as [|i v IH]; intros k inputs pool checks cache Hv Hco Hin.
  { cbn [connect_scripts map]. intros [= <- <- <-]. split; [done|]. split; constructor. }
  apply Forall_cons in Hin as [(x & tx & Hx & Hr & Hq) Hin]. apply Forall_cons in Hv as [Hi Hv]. cbn [map].
  intros (x0 & tx0 & checks1 & cache1 & Hx0 & En & _ & Hc)%connect_scripts_cons.
  rewrite Hx in Hx0. injection Hx0 as <- <-. cbv zeta in Hc. rewrite HB in Hc.
  set (h := op_hash (prevout i)) in *. set (n := op_n (prevout i)) in *.
  assert (Hn0 : 0 <= n) by apply Hi.
  assert (Hlk : vSpent x !! Z.to_nat n = Some CDiskTxPos_SetNull).
  { destruct (lookup_lt_is_Some_2 (vSpent x) (Z.to_nat n)) as [q Hqv]; [lia|]. rewrite Hqv. f_equal.
    rewrite Forall_lookup in Hq. apply (Hq _ _ Hqv). rewrite nth_lookup, Hqv in En. done. }
  assert (Hun : unspent (pool ∪ db) (prevout i)).
  { exists x. split; [apply (Hco _ _ _ Hx)|]. split; [fold n; lia|]. done. }
  assert (Hpool : <[h := set_spent p n x]> pool ∪ db = mark p (pool ∪ db) (prevout i)).
  { rewrite <- insert_union_l. unfold mark. fold h n. apply map_eq. intros g. destruct (decide (g = h)) as [->|Hne].
    - rewrite lookup_insert_eq, lookup_alter_eq, (Hco _ _ _ Hx). done.
    - rewrite lookup_insert_ne, lookup_alter_ne by done. done. }
  apply IH in Hc as (H1 & H2 & H3); [|done| |].
  - rewrite Hpool in H1, H3. split; [exact H1|].
    assert (Hni : prevout i ∉ map prevout v).
    { intros Hel. rewrite Forall_forall in H3. destruct (H3 _ Hel) as (y & Hy & Hyr & Hyn). unfold mark in Hy. fold h n in Hy, Hyn.
      rewrite lookup_alter_eq, (Hco _ _ _ Hx) in Hy. cbn in Hy. simplify_eq. unfold set_spent in Hyn. cbn [vSpent] in Hyn.
      rewrite list_lookup_insert_eq in Hyn by lia. simplify_eq. }
    split; [by constructor|]. constructor; [done|]. apply Forall_forall. intros o Ho. rewrite Forall_forall in H3.
    specialize (H3 o Ho). rewrite <- (unmark_mark p (pool ∪ db) (prevout i)) by done.
    apply unspent_mark_ne; [done|set_solver|done].
  - rewrite Hpool. intros g y ty Hy. destruct (decide (g = h)) as [->|Hne].
    + rewrite lookup_insert_eq in Hy. simplify_eq. unfold mark. fold h n. rewrite lookup_alter_eq, (Hco _ _ _ Hx). done.
    + rewrite lookup_insert_ne in Hy by done. unfold mark. fold h n. rewrite lookup_alter_ne by done. eauto.
  - eapply Forall_impl; [exact Hin|]. intros j (y & ty & Hy & Hyr & Hyq). destruct (decide (op_hash (prevout j) = h)) as [Ej|Ej].
    + rewrite Ej, lookup_insert_eq. exists (set_spent p n x), tx. rewrite Ej, Hx in Hy. simplify_eq. split; [done|].
      unfold set_spent. cbn [vSpent]. rewrite length_insert. split; [done|]. apply Forall_insert; [done|]. congruence.
    + rewrite lookup_insert_ne by done. eauto.
Qed.

(** The verdict of plain ECDSA verification on the script input [k] spends *)
Definition script_valid (t : CTransaction) (flags : Z) (k : nat) (script : list Z) : Prop :=
  (VerifyScript (λ g key code (c : unit), (CheckSig_spec Verify t k 0 g key code, c)) t k flags
     (scriptSig (nth k (vin t) CTxIn_default)) script tt).1 = Some true.

Lemma connect_scripts_checks t p fBlock fMiner (fScript : bool) flags (pv : bool) k v inputs pool checks cache pool' checks' cache' :
  (∀ S, S ≠ ∅ → random_entry S ∈ S) → cache_ok Verify nMaxCacheSize cache → drop k (vin t) = v →
  connect_scripts Verify nMaxCacheSize random_entry t p fBlock fMiner fScript flags pv k v inputs pool checks cache =
    Some (inr (pool', checks'), cache') →
  cache_ok Verify nMaxCacheSize cache' ∧
  checks' = checks ++ (if fScript && pv then imap (λ j i, mkCheck (script_of inputs i) t (k + j) flags 0) v else []) ∧
  (fScript && negb pv = true → ∀ j i, v !! j = Some i → script_valid t flags (k + j) (script_of inputs i)).
Proof.
  intros Hrnd. revert k inputs pool checks cache. induction v as [|i v IH]; intros k inputs pool checks cache HS Hv.
  { cbn [connect_scripts]. intros [= <- <- <-]. split; [done|]. split; [|done]. by destruct (fScript && pv); rewrite ?app_nil_r. }
  intros (x & tx & checks1 & cache1 & Hx & _ & Hstep & Hc)%connect_scripts_cons. cbv zeta in Hc.
  assert (Hi : nth k (vin t) CTxIn_default = i).
  { assert (E : vin t !! k = Some i) by (rewrite <- (Nat.add_0_r k), <- lookup_drop, Hv; done). by rewrite nth_lookup, E. }
  assert (Hnew : ∀ f, CScriptCheck_new tx t k f 0 = mkCheck (script_of inputs i) t k f 0).
  { intros f. unfold CScriptCheck_new, script_of. by rewrite Hi, Hx. }
  assert (Hv' : drop (S k) (vin t) = v) by (rewrite <- Nat.add_1_r, <- drop_drop, Hv; done).
  assert (H1 : cache_ok Verify nMaxCacheSize cache1 ∧
    checks1 = checks ++ (if fScript && pv then [mkCheck (script_of inputs i) t k flags 0] else []) ∧
    (fScript && negb pv = true → script_valid t flags k (script_of inputs i))).
  { rewrite Hnew in Hstep. destruct fScript; cbn [andb]; [|destruct Hstep as [-> ->]; by rewrite app_nil_r].
    destruct pv; cbn [negb]; [by destruct Hstep as [-> ->]|]. destruct Hstep as [-> Hcall]. rewrite app_nil_r.
    destruct (VerifyScript_cached Verify nMaxCacheSize random_entry t k flags 0 (scriptSig (nth k (vin t) CTxIn_default))
      (script_of inputs i) cache Hrnd HS) as [E1 E2].
    change (VerifyScript _ _ _ _ _ _ cache) with
      (CScriptCheck_call Verify nMaxCacheSize random_entry (mkCheck (script_of inputs i) t k flags 0) cache) in E1, E2.
    rewrite Hcall in E1, E2. cbn [fst snd] in E1, E2. split; [done|]. split; [done|]. intros _. symmetry. exact E1. }
  destruct H1 as (HS1 & Hc1 & Hs1). destruct (IH _ _ _ _ _ HS1 Hv' Hc) as (HS2 & Hc2 & Hs2). split; [done|].
  assert (Hso : ∀ j, script_of (<[op_hash (prevout i) := (set_spent p (op_n (prevout i)) x, tx)]> inputs) j = script_of inputs j).
  { intros j. by apply (script_of_insert _ _ x). }
  split.
  - rewrite Hc2, Hc1, <- app_assoc. f_equal. destruct (fScript && pv); [|done]. cbn [imap app]. rewrite Nat.add_0_r. f_equal.
    apply imap_ext. intros j y _. cbn. rewrite Hso. f_equal; lia.
  - intros Hf j y Hj. destruct j as [|j]; cbn in Hj; [injection Hj as <-; rewrite Nat.add_0_r; by apply Hs1|].
    specialize (Hs2 Hf j y Hj). rewrite Hso in Hs2. by rewrite Nat.add_succ_r.
Qed.

Lemma connect_scripts_pool t p fBlock fMiner fScript flags pv k v inputs pool checks cache pool' checks' cache' :
  fBlock || fMiner = false →
  connect_scripts Verify nMaxCacheSize random_entry t p fBlock fMiner fScript flags pv k v inputs pool checks cache =
    Some (inr (pool', checks'), cache') → pool' = pool.
Proof.
  intros HB. revert k inputs checks cache. induction v as [|i v IH]; intros k inputs checks cache.
  - cbn [connect_scripts]. congruence.
  - intros (x & tx & checks1 & cache1 & _ & _ & _ & Hc)%connect_scripts_cons. rewrite HB in Hc. eauto.
Qed.
End connect_facts.

(** Null positions are the ones [SetNull] makes. *)
Definition index_wf (m : TxMap) : Prop :=
  map_Forall (λ _ x, Forall (λ q, CDiskTxPos_IsNull q = true → q = CDiskTxPos_SetNull) (vSpent x)) m.

Lemma GetValueOut_total t v : Forall txout_ok (vout t) → GetValueOut t = Some v → v = total (vout t) ∧ 0 <= v <= MAX_MONEY.
Proof.
  intros Ho. unfold GetValueOut. rewrite value_loop_ok by (apply values_max; done) || (unfold MAX_MONEY; lia).
  case_bool_decide as E; [|done]. intros [= <-]. destruct E as [E1 E2]. apply total_nonneg in E1. lia.
Qed.

Lemma GetMinFee_range t n f m b : 0 <= GetMinFee t n f m b <= MAX_MONEY.
Proof.
  unfold GetMinFee. cbv zeta. destruct (if IsCoinStake t then _ else _) as [x y]. set (fee := fold_left _ _ _). clearbody fee.
  assert (H : ∀ z, 0 <= (if negb (MoneyRange z) then MAX_MONEY else z) <= MAX_MONEY).
  { intros z. destruct (MoneyRange z) eqn:E; cbn [negb]; [by apply MoneyRange_ok|unfold MAX_MONEY; lia]. }
  destruct (_ && _); [|apply H]. destruct (_ <=? _); [unfold MAX_MONEY; lia|apply H].
Qed.

Lemma IsCoinStake_not_base t : IsCoinStake t = true → IsCoinBase t = false.
Proof.
  unfold IsCoinStake, IsCoinBase. destruct (vin t) as [|i [|j v]]; [done| |].
  - destruct (vout t) as [|o [|o' w]]; [done|done|]. by destruct (COutPoint_IsNull (prevout i)).
  - done.
Qed.

Lemma GetCoinAge_nonneg {BN : OpenSSL_BN} {BNok : OpenSSL_BN_ok BN} net d t a : GetCoinAge net d t = Some a → 0 <= a.
Proof.
  unfold GetCoinAge. destruct (IsCoinBase t); [by intros [= <-]|].
  intros (x & _ & (y & _ & (z & _ & [= <-])%bind_Some)%bind_Some)%bind_Some. rewrite getuint64_ok. apply Z.mod_pos_bound. lia.
Qed.

(** Summing the inputs does not overflow when the sum fits. *)
Lemma valuein_loop_ok inputs v acc : Forall (λ i, is_Some (GetOutputFor i inputs) ∧ 0 <= op_n (prevout i)) v →
  Forall (λ i, 0 <= value_of inputs i) v → 0 <= acc → acc + total_in inputs v <= MAX_MONEY →
  valuein_loop inputs v acc = Some (acc + total_in inputs v).
Proof.
  intros Hv. revert acc. induction Hv as [|i v [[o Ho] Hn] _ IH]; intros acc Hp Ha Hm; cbn [valuein_loop total_in foldr].
  { by rewrite Z.add_0_r. }
  apply Forall_cons in Hp as [Hp1 Hp]. cbn [total_in foldr] in Hm. fold (total_in inputs v) in *.
  assert (Hval : nValue o = value_of inputs i).
  { unfold GetOutputFor in Ho. unfold value_of. apply bind_Some in Ho as ([x tx] & -> & Ho).
    destruct (_ <=? _); [done|]. by rewrite nth_lookup, Ho. }
  assert (0 <= total_in inputs v).
  { clear -Hp. induction Hp; cbn [total_in foldr]; [done|]. fold (total_in inputs l). lia. }
  rewrite Ho. cbn [mbind option_bind]. rewrite Hval, i64_small by (unfold MAX_MONEY in *; lia).
  rewrite IH by (done || lia). f_equal. lia.
Qed.

Section success.
Context {BN : OpenSSL_BN} {DG : Digests} (net : bool).
Context (Verify : list Z → base_uint → list Z → bool) (nMaxCacheSize : Z) (random_entry : gset sigdata → sigdata) (cpTime : Z).
Context (d : Disk) (t : CTransaction) (inputs : MapPrevTx) (pool : TxMap) (p : CDiskTxPos) (chain : list CBlockIndex).
Context (fBlock fMiner fScript : bool) (flags : Z) (pv : bool) (cache : gset sigdata).

(** The reward of an accepted coinstake after the last checkpoint *)
Definition stake_ok (nValueIn : Z) : Prop :=
  ∃ nCoinAge stakeReward, GetCoinAge net d t = Some nCoinAge ∧
    GetProofOfStakeReward net (i64 nCoinAge) (match chain with b :: _ => bi_nBits b | [] => 0 end) (nTime t) false =
      Some stakeReward ∧
    total (vout t) - nValueIn <=
      i64 (i64 (stakeReward - GetMinFee t 1 false GMF_BLOCK (GetSerializeSize t)) + CENT).

Lemma connect_finish_ok nValueIn pool0 checks0 pool' checks : Forall txout_ok (vout t) → 0 <= nValueIn <= MAX_MONEY →
  connect_finish net cpTime d t chain nValueIn pool0 checks0 = Some (Connected pool' checks) →
  pool0 = pool' ∧ checks0 = checks ∧ (IsCoinStake t = false → total (vout t) <= nValueIn) ∧
  (IsCoinStake t = true → cpTime < nTime t → stake_ok nValueIn).
Proof.
  intros Ho HV. unfold connect_finish. destruct (IsCoinStake t).
  - intros Hres. destruct (Z.gtb_spec (nTime t) cpTime).
    2: { injection Hres as <- <-. split; [done|]. split; [done|]. split; [done|]. lia. }
    destruct (GetCoinAge net d t) as [age|] eqn:Ea; [|done]. apply bind_Some in Hres as (out & Eo & Hres).
    apply GetValueOut_total in Eo as [-> Hout]; [|done]. apply bind_Some in Hres as (rw & Hrw & Hres).
    match type of Hres with (if ?b then _ else _) = _ => destruct b eqn:Eb end; [done|]. injection Hres as <- <-.
    split; [done|]. split; [done|]. split; [done|]. intros _ _. exists age, rw. split; [done|]. split; [done|].
    rewrite Z.gtb_ltb in Eb. apply Z.ltb_ge in Eb. rewrite (i64_small (total (vout t) - nValueIn)) in Eb
      by (unfold MAX_MONEY in *; lia). exact Eb.
  - intros Hres. apply bind_Some in Hres as (out & Eo & Hres). apply GetValueOut_total in Eo as [-> _]; [|done].
    destruct (Z.ltb_spec nValueIn (total (vout t))); [done|].
    do 2 match type of Hres with (if ?b then _ else _) = _ => destruct b; [done|] end.
    injection Hres as -> ->. done.
Qed.

(** The stages an accepted transaction has passed *)
Lemma ConnectInputs_inv pool' checks cache' : Forall txout_ok (vout t) → IsCoinBase t = false →
  ConnectInputs net Verify nMaxCacheSize random_entry cpTime d t inputs pool p chain fBlock fMiner fScript flags pv cache =
    Some (Connected pool' checks, cache') →
  Forall (input_ok net t chain inputs) (vin t) ∧
  connect_scripts Verify nMaxCacheSize random_entry t p fBlock fMiner fScript flags pv 0 (vin t) inputs pool [] cache =
    Some (inr (pool', checks), cache') ∧
  (IsCoinStake t = false → total (vout t) <= total_in inputs (vin t)) ∧
  (IsCoinStake t = true → cpTime < nTime t → stake_ok (total_in inputs (vin t))) ∧
  0 <= total_in inputs (vin t) <= MAX_MONEY ∧ Forall (λ i, 0 <= value_of inputs i) (vin t).
Proof.
  intros Ho Hcb. unfold ConnectInputs. rewrite Hcb.
  destruct (connect_values _ _ _ _ _ _) as [[?|nValueIn]|] eqn:E1; try done.
  apply connect_values_ok in E1 as (Hin & Hval & Hr & Hnn); [|unfold MAX_MONEY; lia]. rewrite Z.add_0_l in Hval.
  destruct (connect_scripts _ _ _ _ _ _ _ _ _ _ _ _ _ _ _ _) as [[[[??]|[pool1 checks1]] c1]|] eqn:E2; try done.
  intros Hres. apply bind_Some in Hres as (r & Hfin & [= -> ->]).
  apply connect_finish_ok in Hfin as (-> & -> & Hout & Hst); [|done|done]. rewrite Hval in Hout, Hst, Hr. auto 7.
Qed.

Lemma ConnectInputs_marks pool' checks cache' : tx_ok t → IsCoinBase t = false → CDiskTxPos_IsNull p = false →
  fBlock || fMiner = true → coherent inputs (pool ∪ txdb d) → index_wf (pool ∪ txdb d) →
  ConnectInputs net Verify nMaxCacheSize random_entry cpTime d t inputs pool p chain fBlock fMiner fScript flags pv cache =
    Some (Connected pool' checks, cache') →
  pool' ∪ txdb d = mark_all p (pool ∪ txdb d) (map prevout (vin t)) ∧
  NoDup (map prevout (vin t)) ∧ Forall (unspent (pool ∪ txdb d)) (map prevout (vin t)).
Proof.
  intros [_ _ [_ Hi] [_ Ho] _] Hcb Hp HB Hco Hwf HC. apply ConnectInputs_inv in HC as (Hin & Hs & _); [|done|done].
  apply (connect_scripts_ok Verify nMaxCacheSize random_entry) with (db := txdb d) in Hs; try done.
  eapply Forall_impl; [exact Hin|]. intros i (x & tx & Hx & _ & Hl & _). exists x, tx. split; [done|]. split; [done|].
  apply (Hwf (op_hash (prevout i)) x). eauto.
Qed.
End success.

(** The reward of a stake, bounded *)
Lemma stake_ok_bound {BN : OpenSSL_BN} {BNok : OpenSSL_BN_ok BN} net d t chain v : stake_ok net d t chain v →
  ∃ nCoinAge, GetCoinAge net d t = Some nCoinAge ∧
    (nCoinAge <= 2 * 10 ^ 11 →
     ∃ stakeReward,
       GetProofOfStakeReward net nCoinAge (match chain with b :: _ => bi_nBits b | [] => 0 end) (nTime t) false = Some stakeReward ∧
       total (vout t) <= v + stakeReward - GetMinFee t 1 false GMF_BLOCK (GetSerializeSize t) + CENT ∧
       total (vout t) <= v + 10 * COIN + CENT).
Proof.
  intros (age & r & Ha & Hr & Hle). exists age. split; [done|]. intros Hage.
  assert (0 <= age) by (by apply GetCoinAge_nonneg in Ha). rewrite i64_small in Hr by lia. exists r. split; [done|].
  destruct (PoS_reward_ok net age (match chain with b :: _ => bi_nBits b | [] => 0 end) (nTime t)) as (rate & _ & Hrate & E); [lia|].
  rewrite E in Hr. injection Hr as <-. destruct Hrate as [Hrate _].
  assert (0 <= age * rate * 33 / (365 * 33 + 8)) by (apply Z.div_pos; unfold CENT in *; nia).
  assert (Hf := GetMinFee_range t 1 false GMF_BLOCK (GetSerializeSize t)). revert Hle Hf. generalize (GetMinFee t 1 false GMF_BLOCK (GetSerializeSize t)).
  intros fee Hle Hf. unfold MAX_MONEY, CENT, COIN in *. rewrite (i64_small (_ - fee)), i64_small in Hle by lia. lia.
Qed.

(** A funding transaction for [sample_tx], indexed and on disk *)
Definition sample_hash : base_uint := [1; 2; 3; 4; 5; 6; 7; 8].
Definition sample_prev : CTransaction :=
  mkTx 1 1300000000 [mkTxIn (mkOutPoint [9; 9; 9; 9; 9; 9; 9; 9] 0) [] 0]
    [mkTxOut (2 ^ 62) [81]; mkTxOut 7000000 [81]] 0.
Definition sample_idx : CTxIndex := CTxIndex_new (mkPos 1 100 200) 2.
Definition sample_disk : Disk := mkDisk {[sample_hash := sample_idx]} (λ _, Some sample_prev) (λ _ _, Some 1300000000).
Definition sample_inputs : MapPrevTx := {[sample_hash := (sample_idx, sample_prev)]}.
Definition sample_pos : CDiskTxPos := mkPos 1 300 400.
Definition sample_pool : TxMap :=
  {[sample_hash := mkTxIndex (mkPos 1 100 200) [sample_pos; sample_pos]]}.

Lemma sample_coherent : coherent sample_inputs (∅ ∪ txdb sample_disk).
Proof.
  intros h x tx. unfold sample_inputs. rewrite lookup_singleton_Some. intros [<- [= <- <-]].
  rewrite map_empty_union. cbn [txdb sample_disk]. apply lookup_singleton_eq.
Qed.
Lemma sample_index_wf : index_wf (∅ ∪ txdb sample_disk).
Proof. rewrite map_empty_union. apply map_Forall_singleton. repeat constructor; done. Qed.

(** ** Properties *)

(** Fetching prepares connecting: the assertion never fails, entries that were
    already there are kept, and after success every input refers to an existing
    output with a spent marker, so [GetOutputFor] does not throw; for a block or
    the miner the entries fetched are those of the index with the pending changes
    on top, as [ConnectInputs] needs them. *)
Theorem FetchInputs_ok d mempool pool fBlock fMiner t inputs : IsCoinBase t = false → Forall txin_ok (vin t) →
  ∃ r, FetchInputs d mempool pool fBlock fMiner t inputs = Some r ∧
    ∀ inputs', r = Fetched inputs' →
      inputs ⊆ inputs' ∧
      (fBlock || fMiner = true → coherent inputs (pool ∪ txdb d) → coherent inputs' (pool ∪ txdb d)) ∧
      Forall (λ i, is_Some (GetOutputFor i inputs') ∧
                   ∃ x tx, inputs' !! op_hash (prevout i) = Some (x, tx) ∧ op_n (prevout i) < Z.of_nat (length (vSpent x))) (vin t).
Proof. apply FetchInputs_total. Qed.

Lemma FetchInputs_ok_witness :
  ∃ r, FetchInputs sample_disk ∅ ∅ true false sample_tx ∅ = Some r ∧
    ∀ inputs', r = Fetched inputs' →
      ∅ ⊆ inputs' ∧
      (true = true → coherent ∅ (∅ ∪ txdb sample_disk) → coherent inputs' (∅ ∪ txdb sample_disk)) ∧
      Forall (λ i, is_Some (GetOutputFor i inputs') ∧
                   ∃ x tx, inputs' !! op_hash (prevout i) = Some (x, tx) ∧ op_n (prevout i) < Z.of_nat (length (vSpent x)))
        (vin sample_tx).
Proof.
  apply (FetchInputs_ok sample_disk ∅ ∅ true false sample_tx ∅); [reflexivity|].
  apply (tx_okb_ok sample_tx). reflexivity.
Defined.

(** C27. Connecting a transaction to a block is safe: when [ConnectInputs] accepts it,
    its inputs are pairwise different outputs that exist and were unspent, each
    as old as required and not newer than the transaction, and the effect on the
    index is to mark exactly these outputs as spent by it; unless it is a
    coinstake, the outputs are worth no more than the inputs, as sums that
    cannot overflow. *)
Theorem ConnectInputs_safe {BN : OpenSSL_BN} {DG : Digests} net Verify nMaxCacheSize random_entry cpTime d t inputs pool p chain
    fBlock fMiner fScript flags pv cache pool' checks cache' :
  tx_ok t → IsCoinBase t = false → CDiskTxPos_IsNull p = false → fBlock || fMiner = true →
  coherent inputs (pool ∪ txdb d) → index_wf (pool ∪ txdb d) →
  ConnectInputs net Verify nMaxCacheSize random_entry cpTime d t inputs pool p chain fBlock fMiner fScript flags pv cache =
    Some (Connected pool' checks, cache') →
  pool' ∪ txdb d = mark_all p (pool ∪ txdb d) (map prevout (vin t)) ∧
  NoDup (map prevout (vin t)) ∧ Forall (unspent (pool ∪ txdb d)) (map prevout (vin t)) ∧
  Forall (input_ok net t chain inputs) (vin t) ∧
  (IsCoinStake t = false → total (vout t) <= total_in inputs (vin t)).
Proof.
  intros Ht Hcb Hp HB Hco Hwf HC. assert (Ho : Forall txout_ok (vout t)) by apply Ht.
  destruct (ConnectInputs_inv _ _ _ _ _ _ _ _ _ _ _ _ _ _ _ _ _ _ _ _ Ho Hcb HC) as (Hin & _ & Hout & _ & _).
  destruct (ConnectInputs_marks _ _ _ _ _ _ _ _ _ _ _ _ _ _ _ _ _ _ _ _ Ht Hcb Hp HB Hco Hwf HC) as (? & ? & ?). auto.
Qed.

(** Every script is checked: when an accepted transaction's scripts are checked at
    once, each input satisfies the script of the output it spends under plain
    ECDSA verification, whatever the state of the signature cache, as long as
    the entries of that cache are valid, which they remain; when the checks are
    deferred, the queue receives the check of each input, in order, and no other.
    In memory-pool mode the index is not written. *)
Theorem ConnectInputs_scripts {BN : OpenSSL_BN} {DG : Digests} net Verify nMaxCacheSize random_entry cpTime d t inputs pool p chain
    fBlock fMiner fScript flags pv cache pool' checks cache' :
  (∀ S, S ≠ ∅ → random_entry S ∈ S) → cache_ok Verify nMaxCacheSize cache → Forall txout_ok (vout t) → IsCoinBase t = false →
  ConnectInputs net Verify nMaxCacheSize random_entry cpTime d t inputs pool p chain fBlock fMiner fScript flags pv cache =
    Some (Connected pool' checks, cache') →
  cache_ok Verify nMaxCacheSize cache' ∧
  (fScript && negb pv = true → ∀ k i, vin t !! k = Some i → script_valid Verify t flags k (script_of inputs i)) ∧
  checks = (if fScript && pv then imap (λ k i, mkCheck (script_of inputs i) t k flags 0) (vin t) else []) ∧
  (fBlock || fMiner = false → pool' = pool).
Proof.
  intros Hr HS Ho Hcb HC. apply ConnectInputs_inv in HC as (_ & Hs & _); [|done|done].
  destruct (connect_scripts_checks _ _ _ _ _ _ _ _ _ _ _ _ _ _ _ _ _ _ _ Hr HS (drop_0 _) Hs) as (HS' & Hc & Hv).
  split; [done|]. split; [done|]. split; [exact Hc|]. intros HB. by apply connect_scripts_pool in Hs.
Qed.

(** What a stake may create: an accepted coinstake after the last checkpoint pays
    out at most the reward of the coin age it spends, less the minimum fee, plus
    one cent, so at most ten coins and one cent above its inputs, for any coin
    age up to 2 * 10^11 coin-days. *)
Theorem ConnectInputs_stake {BN : OpenSSL_BN} {BNok : OpenSSL_BN_ok BN} {DG : Digests} net Verify nMaxCacheSize random_entry cpTime
    d t inputs pool p chain fBlock fMiner fScript flags pv cache pool' checks cache' :
  Forall txout_ok (vout t) → IsCoinStake t = true → cpTime < nTime t →
  ConnectInputs net Verify nMaxCacheSize random_entry cpTime d t inputs pool p chain fBlock fMiner fScript flags pv cache =
    Some (Connected pool' checks, cache') →
  ∃ nCoinAge, GetCoinAge net d t = Some nCoinAge ∧
    (nCoinAge <= 2 * 10 ^ 11 →
     ∃ stakeReward,
       GetProofOfStakeReward net nCoinAge (match chain with b :: _ => bi_nBits b | [] => 0 end) (nTime t) false = Some stakeReward ∧
       total (vout t) <= total_in inputs (vin t) + stakeReward - GetMinFee t 1 false GMF_BLOCK (GetSerializeSize t) + CENT ∧
       total (vout t) <= total_in inputs (vin t) + 10 * COIN + CENT).
Proof.
  intros Ho Hcs Ht HC. apply ConnectInputs_inv in HC as (_ & _ & _ & Hst & _); [|done|by apply IsCoinStake_not_base].
  exact (stake_ok_bound net d t chain _ (Hst Hcs Ht)).
Qed.

(** Disconnecting undoes connecting: once a transaction is connected, its marks
    and its own index entry written to the database, [DisconnectInputs] succeeds
    and restores the index as it was. *)
Theorem Connect_Disconnect {BN : OpenSSL_BN} {DG : Digests} net Verify nMaxCacheSize random_entry cpTime d t inputs pool p chain
    fBlock fMiner fScript flags pv cache pool' checks cache' :
  tx_ok t → IsCoinBase t = false → CDiskTxPos_IsNull p = false → fBlock || fMiner = true →
  coherent inputs (pool ∪ txdb d) → index_wf (pool ∪ txdb d) → (pool ∪ txdb d) !! GetHash t = None →
  ConnectInputs net Verify nMaxCacheSize random_entry cpTime d t inputs pool p chain fBlock fMiner fScript flags pv cache =
    Some (Connected pool' checks, cache') →
  DisconnectInputs t (<[GetHash t := CTxIndex_new p (length (vout t))]> (pool' ∪ txdb d)) = Some (pool ∪ txdb d).
Proof.
  intros Ht Hcb Hp HB Hco Hwf Hnew HC.
  destruct (ConnectInputs_marks _ _ _ _ _ _ _ _ _ _ _ _ _ _ _ _ _ _ _ _ Ht Hcb Hp HB Hco Hwf HC) as (-> & Hnd & Hun).
  assert (E := disconnect_marked p t (pool ∪ txdb d) Ht). unfold spends in E. rewrite Hcb in E. by apply E.
Qed.

#[local] Existing Instances sample_digests sample_digests_ok.

Lemma ConnectInputs_safe_witness :
  sample_pool ∪ txdb sample_disk = mark_all sample_pos (∅ ∪ txdb sample_disk) (map prevout (vin sample_tx)) ∧
  NoDup (map prevout (vin sample_tx)) ∧ Forall (unspent (∅ ∪ txdb sample_disk)) (map prevout (vin sample_tx)) ∧
  Forall (input_ok false sample_tx [] sample_inputs) (vin sample_tx) ∧
  (IsCoinStake sample_tx = false → total (vout sample_tx) <= total_in sample_inputs (vin sample_tx)).
Proof.
  apply (ConnectInputs_safe false sample_verify 1 first_entry 0 sample_disk sample_tx sample_inputs ∅ sample_pos [] true false true 0
    false ∅ sample_pool [] ∅).
  - apply tx_okb_ok. reflexivity.
  - reflexivity.
  - reflexivity.
  - reflexivity.
  - exact sample_coherent.
  - exact sample_index_wf.
  - vm_compute. reflexivity.
Defined.

Lemma ConnectInputs_scripts_witness :
  cache_ok sample_verify 1 ∅ ∧
  (true = true → ∀ k i, vin sample_tx !! k = Some i → script_valid sample_verify sample_tx 0 k (script_of sample_inputs i)) ∧
  ([] : list CScriptCheck) = [] ∧ (true = false → sample_pool = ∅).
Proof.
  apply (ConnectInputs_scripts false sample_verify 1 first_entry 0 sample_disk sample_tx sample_inputs ∅ sample_pos [] true false true 0
    false ∅ sample_pool [] ∅).
  - exact first_entry_in.
  - split; [set_solver|]. rewrite size_empty. lia.
  - apply (tx_okb_ok sample_tx). reflexivity.
  - reflexivity.
  - vm_compute. reflexivity.
Defined.

(** A coinstake that spends the second output *)
Definition sample_stake : CTransaction :=
  mkTx 1 1310000000 [mkTxIn (mkOutPoint sample_hash 1) [] 0] [CTxOut_SetEmpty; mkTxOut 7000000 [81]] 0.
Definition sample_stake_pool : TxMap :=
  {[sample_hash := mkTxIndex (mkPos 1 100 200) [CDiskTxPos_SetNull; sample_pos]]}.

Lemma ConnectInputs_stake_witness :
  ∃ nCoinAge, GetCoinAge false sample_disk sample_stake = Some nCoinAge ∧
    (nCoinAge <= 2 * 10 ^ 11 →
     ∃ stakeReward,
       GetProofOfStakeReward false nCoinAge 0 1310000000 false = Some stakeReward ∧
       total (vout sample_stake) <= total_in sample_inputs (vin sample_stake) + stakeReward -
         GetMinFee sample_stake 1 false GMF_BLOCK (GetSerializeSize sample_stake) + CENT ∧
       total (vout sample_stake) <= total_in sample_inputs (vin sample_stake) + 10 * COIN + CENT).
Proof.
  apply (ConnectInputs_stake false sample_verify 1 first_entry 0 sample_disk sample_stake sample_inputs ∅ sample_pos [] true false
    true 0 false ∅ sample_stake_pool [] ∅).
  - apply (tx_okb_ok sample_stake). reflexivity.
  - reflexivity.
  - reflexivity.
  - vm_compute. reflexivity.
Defined.

Lemma Connect_Disconnect_witness :
  DisconnectInputs sample_tx (<[GetHash sample_tx := CTxIndex_new sample_pos 2]> (sample_pool ∪ txdb sample_disk)) =
  Some (∅ ∪ txdb sample_disk).
Proof.
  apply (Connect_Disconnect false sample_verify 1 first_entry 0 sample_disk sample_tx sample_inputs ∅ sample_pos [] true false true 0
    false ∅ sample_pool [] ∅).
  - apply tx_okb_ok. reflexivity.
  - reflexivity.
  - reflexivity.
  - reflexivity.
  - exact sample_coherent.
  - exact sample_index_wf.
  - vm_compute. reflexivity.
  - vm_compute. reflexivity.
Defined.
