(* ===== verification/ScriptStd.v ===== *)
(** * Standard scripts (src/script.cpp, src/main.cpp)

    The templates [Solver] recognises, the standard forms of output scripts, and
    the checks of whole transactions built on them: [IsStandard] and
    [AreInputsStandard]. *)

From stdpp Require Import base list numbers option gmap.
From Stdlib Require Import ZArith Lia.
From S2P Require Import Prelude Uint256 Bignum Serialize Tx Script Interp SigCheck Utxo.

Open Scope Z_scope.

(** ** Templates *)

Inductive txnouttype :=
  | TX_NONSTANDARD
  | TX_PUBKEY
  | TX_PUBKEY_DROP
  | TX_PUBKEYHASH
  | TX_SCRIPTHASH
  | TX_MULTISIG
  | TX_NULL_DATA.
#[export] Instance txnouttype_eq_dec : EqDecision txnouttype.
Proof. solve_decision. Defined.

(** The map of templates, in the order of its keys *)
Definition mTemplates : list (txnouttype * list Z) :=
  [(TX_PUBKEY, [OP_PUBKEY; OP_CHECKSIG]);
   (TX_PUBKEY_DROP, [OP_PUBKEY; OP_PUBKEY; OP_DROP; OP_CHECKSIG]);
   (TX_PUBKEYHASH, [OP_DUP; OP_HASH160; OP_PUBKEYHASH; OP_EQUALVERIFY; OP_CHECKSIG]);
   (TX_MULTISIG, [OP_SMALLINTEGER; OP_PUBKEYS; OP_SMALLINTEGER; OP_CHECKMULTISIG]);
   (TX_NULL_DATA, [OP_RETURN; OP_SMALLDATA])].

Definition key_size (vch : valtype) : bool := (33 <=? length vch)%nat && (length vch <=? 120)%nat.

Section Solver.
Context {BN : OpenSSL_BN}.

(** [while (vch1.size() >= 33 && vch1.size() <= 120)]: the instruction after the
    keys; where [GetOp] fails it leaves an invalid opcode and no data. *)
Fixpoint pubkeys_loop (fuel : nat) (opcode1 : Z) (vch1 pc1 : list Z) (vSolutions : list valtype)
    : Z * list Z * list Z * list valtype :=
  match fuel with
  | O => (opcode1, vch1, pc1, vSolutions)
  | S fuel =>
      if key_size vch1 then
        match GetOp pc1 with
        | None => (OP_INVALIDOPCODE, [], [], vSolutions ++ [vch1])
        | Some (opcode1, vch1', pc1) => pubkeys_loop fuel opcode1 vch1' pc1 (vSolutions ++ [vch1])
        end
      else (opcode1, vch1, pc1, vSolutions)
  end.

(** The matching of one instruction with one template opcode; [None] is a break. *)
Definition match_op (opcode1 : Z) (vch1 : list Z) (opcode2 : Z) (vch2 : list Z) (vSolutions : list valtype)
    : option (list valtype) :=
  if opcode2 =? OP_PUBKEY then
    if key_size vch1 then Some (vSolutions ++ [vch1]) else None
  else if opcode2 =? OP_PUBKEYHASH then
    if (length vch1 =? 20)%nat then Some (vSolutions ++ [vch1]) else None
  else if opcode2 =? OP_SMALLINTEGER then
    n ← DecodeOP_N opcode1; Some (vSolutions ++ [[n]])
  else if opcode2 =? OP_INTEGER then
    bnVal ← CastToBigNum vch1;
    if bn_le bnVal (CBigNum_int32 16) then None else Some (vSolutions ++ [vch1])
  else if opcode2 =? OP_SMALLDATA then
    if (1024 <? length vch1)%nat then None else Some vSolutions
  else if (opcode1 =? opcode2) && bool_decide (vch1 = vch2) then Some vSolutions else None.

(** "Additional checks for TX_MULTISIG" *)
Definition multisig_counts (vSolutions : list valtype) : bool :=
  let m := nth 0 (nth 0 vSolutions []) 0 in
  let n := nth 0 (List.last vSolutions []) 0 in
  negb ((m <? 1) || (n <? 1) || (m >? n) || negb (Z.of_nat (length vSolutions) - 2 =? n)).

(** The comparison with one template: [None] is a break, else the result of [Solver] *)
Fixpoint compare_loop (fuel : nat) (type : txnouttype) (pc1 pc2 : list Z) (vSolutions : list valtype)
    : option (bool * txnouttype * list valtype) :=
  match pc1, pc2, fuel with
  | [], [], _ =>
      Some (if bool_decide (type = TX_MULTISIG) then multisig_counts vSolutions else true, type, vSolutions)
  | _, _, O => None
  | _, _, S fuel =>
      '(opcode1, vch1, pc1) ← GetOp pc1;
      '(opcode2, vch2, pc2) ← GetOp pc2;
      if opcode2 =? OP_PUBKEYS then
        let '(opcode1, vch1, pc1, vSolutions) := pubkeys_loop (S (length pc1)) opcode1 vch1 pc1 vSolutions in
        '(opcode2, vch2, pc2) ← GetOp pc2;
        vSolutions ← match_op opcode1 vch1 opcode2 vch2 vSolutions;
        compare_loop fuel type pc1 pc2 vSolutions
      else
        vSolutions ← match_op opcode1 vch1 opcode2 vch2 vSolutions;
        compare_loop fuel type pc1 pc2 vSolutions
  end.

Fixpoint scan_templates (templates : list (txnouttype * list Z)) (script1 : list Z) : bool * txnouttype * list valtype :=
  match templates with
  | [] => (false, TX_NONSTANDARD, [])
  | (type, script2) :: templates =>
      match compare_loop (length script2) type script1 script2 [] with
      | Some r => r
      | None => scan_templates templates script1
      end
  end.

Definition Solver (scriptPubKey : list Z) : bool * txnouttype * list valtype :=
  if IsPayToScriptHash scriptPubKey then (true, TX_SCRIPTHASH, [take 20 (drop 2 scriptPubKey)])
  else if (1 <=? length scriptPubKey)%nat && (nth 0 scriptPubKey 0 =? OP_RETURN) && IsPushOnly (drop 1 scriptPubKey)
  then (true, TX_NULL_DATA, [])
  else scan_templates mTemplates scriptPubKey.

Definition ScriptSigArgsExpected (t : txnouttype) (vSolutions : list valtype) : Z :=
  match t with
  | TX_NONSTANDARD => -1
  | TX_NULL_DATA => 1
  | TX_PUBKEY | TX_PUBKEY_DROP => 1
  | TX_PUBKEYHASH => 2
  | TX_MULTISIG => match vSolutions with (n :: _) :: _ => n + 1 | _ => -1 end
  | TX_SCRIPTHASH => 1
  end.

(** [::IsStandard(scriptPubKey, whichType)] *)
Definition IsStandard_script (scriptPubKey : list Z) : bool * txnouttype :=
  let '(ok, whichType, vSolutions) := Solver scriptPubKey in
  if negb ok then (false, whichType)
  else if bool_decide (whichType = TX_MULTISIG) then
    let m := nth 0 (nth 0 vSolutions []) 0 in
    let n := nth 0 (List.last vSolutions []) 0 in
    if (n <? 1) || (n >? 3) then (false, whichType)
    else if (m <? 1) || (m >? n) then (false, whichType)
    else (true, whichType)
  else (negb (bool_decide (whichType = TX_NONSTANDARD)), whichType).

(** ** Transactions *)

Inductive nonstandard_reason :=
  | reason_version
  | reason_scriptsig_size
  | reason_scriptsig_not_pushonly
  | reason_scriptsig_not_canonicalpushes
  | reason_scriptpubkey
  | reason_txout_value_0
  | reason_txout_not_canonicalpushes
  | reason_multi_op_return.

Fixpoint standard_inputs (vin : list CTxIn) : option nonstandard_reason :=
  match vin with
  | [] => None
  | txin :: vin =>
      if 1650 <? Z.of_nat (length (scriptSig txin)) then Some reason_scriptsig_size
      else if negb (IsPushOnly (scriptSig txin)) then Some reason_scriptsig_not_pushonly
      else if negb (HasCanonicalPushes (scriptSig txin)) then Some reason_scriptsig_not_canonicalpushes
      else standard_inputs vin
  end.

Fixpoint standard_outputs (vout : list CTxOut) (nDataOut : Z) : option nonstandard_reason :=
  match vout with
  | [] => if nDataOut >? 1 then Some reason_multi_op_return else None
  | txout :: vout =>
      let '(ok, whichType) := IsStandard_script (scriptPubKey txout) in
      if negb ok then Some reason_scriptpubkey
      else if bool_decide (whichType = TX_NULL_DATA) then standard_outputs vout (u32 (nDataOut + 1))
      else if nValue txout =? 0 then Some reason_txout_value_0
      else if negb (HasCanonicalPushes (scriptPubKey txout)) then Some reason_txout_not_canonicalpushes
      else standard_outputs vout nDataOut
  end.

(** [CTransaction::IsStandard(strReason)]: [None] is standard *)
Definition IsStandard (t : CTransaction) : option nonstandard_reason :=
  if nVersion t >? 1 then Some reason_version
  else match standard_inputs (vin t) with
       | Some r => Some r
       | None => standard_outputs (vout t) 0
       end.

Context {DG : Digests} {Cache : Type}.
(** [CheckSig] of input [nIn] with hash type 0 and no flags *)
Variable CheckSig : nat → valtype → valtype → list Z → Cache → bool * Cache.

(** One input of [AreInputsStandard]; [None] is the exception of [GetOutputFor]. *)
Definition input_standard (t : CTransaction) (mapInputs : MapPrevTx) (i : nat) (txin : CTxIn) (c : Cache)
    : option (bool * Cache) :=
  prev ← GetOutputFor txin mapInputs;
  let '(ok, whichType, vSolutions) := Solver (scriptPubKey prev) in
  if negb ok then Some (false, c)
  else
    let nArgsExpected := ScriptSigArgsExpected whichType vSolutions in
    if nArgsExpected <? 0 then Some (false, c)
    else
      let '(ok, stack, c) := EvalScript (CheckSig i) t i 0 [] (scriptSig txin) c in
      if negb ok then Some (false, c)
      else if bool_decide (whichType = TX_SCRIPTHASH) then
        match stack with
        | [] => Some (false, c)
        | subscript :: _ =>
            let '(ok, whichType2, vSolutions2) := Solver subscript in
            if negb ok then Some (false, c)
            else if bool_decide (whichType2 = TX_SCRIPTHASH) then Some (false, c)
            else
              let tmpExpected := ScriptSigArgsExpected whichType2 vSolutions2 in
              if tmpExpected <? 0 then Some (false, c)
              else Some (Z.of_nat (length stack) =? nArgsExpected + tmpExpected, c)
        end
      else Some (Z.of_nat (length stack) =? nArgsExpected, c).

Fixpoint inputs_loop (t : CTransaction) (mapInputs : MapPrevTx) (i : nat) (vin : list CTxIn) (c : Cache)
    : option (bool * Cache) :=
  match vin with
  | [] => Some (true, c)
  | txin :: vin =>
      '(ok, c) ← input_standard t mapInputs i txin c;
      if negb ok then Some (false, c) else inputs_loop t mapInputs (S i) vin c
  end.

Definition AreInputsStandard (t : CTransaction) (mapInputs : MapPrevTx) (c : Cache) : option (bool * Cache) :=
  if IsCoinBase t then Some (true, c) else inputs_loop t mapInputs 0 (vin t) c.
End Solver.

(** ** Decoded scripts *)

Inductive decodes : list Z → list (Z * valtype) → Prop :=
  | decodes_nil : decodes [] []
  | decodes_cons pc op v rest l : GetOp pc = Some (op, v, rest) → decodes rest l → decodes pc ((op, v) :: l).

Lemma decodes_fun s l1 l2 : decodes s l1 → decodes s l2 → l1 = l2.
Proof.
  intros H. revert l2. induction H as [|pc op v rest l Hop _ IH]; intros l2 H2; inversion H2; subst; try done.
  match goal with H : GetOp pc = Some _ |- _ => rewrite Hop in H; injection H as <- <- <- end. f_equal. auto.
Qed.

Lemma GetOp_head b pc op v rest : GetOp (b :: pc) = Some (op, v, rest) → op = b ∧ (v ≠ [] → b <= OP_PUSHDATA4).
Proof.
  cbn [GetOp]. destruct (Z.leb_spec b OP_PUSHDATA4).
  - intros ([nSize pc'] & _ & H1)%bind_Some. destruct (_ <? nSize); [done|]. injection H1 as <- _ _. done.
  - intros [= <- <- _]. done.
Qed.

(** Opcodes above the pushes carry no data. *)
Lemma GetOp_plain b pc : OP_PUSHDATA4 < b → GetOp (b :: pc) = Some (b, [], pc).
Proof. intros H. cbn [GetOp]. destruct (Z.leb_spec b OP_PUSHDATA4); [lia|done]. Qed.

Lemma small_int_data pc op v rest n : GetOp pc = Some (op, v, rest) → DecodeOP_N op = Some n → v = [].
Proof.
  destruct pc as [|b pc]; [done|]. intros H Hn. destruct (GetOp_head _ _ _ _ _ H) as [-> _]. unfold DecodeOP_N in Hn.
  destruct (Z.eqb_spec b OP_0) as [->|].
  - change (GetOp (OP_0 :: pc)) with (if Z.of_nat (length pc) <? 0 then None else Some (0, @nil Z, pc)) in H.
    destruct (_ <? 0); congruence.
  - destruct (Z.leb_spec OP_1 b); [|done]. rewrite GetOp_plain in H by (unfold OP_1, OP_PUSHDATA4 in *; lia). congruence.
Qed.

(** ** Matching a template *)

Section matching.
Context {BN : OpenSSL_BN}.

(** Matching a decoded script, opcode by opcode *)
Fixpoint run (tpl : list Z) (ops : list (Z * valtype)) (sols : list valtype) : option (list valtype) :=
  match tpl, ops with
  | [], [] => Some sols
  | o :: tpl, (op, v) :: ops => sols ← match_op op v o [] sols; run tpl ops sols
  | _, _ => None
  end.

Definition verdict (T : txnouttype) (sols : list valtype) : bool * txnouttype * list valtype :=
  (if bool_decide (T = TX_MULTISIG) then multisig_counts sols else true, T, sols).

Definition plain_template (tpl : list Z) : Prop := Forall (λ o, OP_PUSHDATA4 < o ∧ o ≠ OP_PUBKEYS) tpl.

Lemma compare_step fuel T pc o tpl sols : OP_PUSHDATA4 < o →
  compare_loop (S fuel) T pc (o :: tpl) sols =
  ('(op, v, pc) ← GetOp pc;
   if o =? OP_PUBKEYS then
     let '(op, v, pc, sols) := pubkeys_loop (S (length pc)) op v pc sols in
     '(o2, v2, tpl) ← GetOp tpl;
     sols ← match_op op v o2 v2 sols; compare_loop fuel T pc tpl sols
   else sols ← match_op op v o [] sols; compare_loop fuel T pc tpl sols).
Proof.
  intros Ho. assert (E := GetOp_plain o tpl Ho).
  destruct pc as [|b pc]; cbn -[GetOp match_op pubkeys_loop]; [done|].
  destruct (GetOp (b :: pc)) as [[[op v] pc']|]; [|done]. cbn -[GetOp match_op pubkeys_loop compare_loop]. rewrite E. done.
Qed.

Lemma compare_run fuel T pc tpl sols r : plain_template tpl → (length tpl <= fuel)%nat →
  compare_loop fuel T pc tpl sols = Some r ↔
  ∃ ops sols', decodes pc ops ∧ run tpl ops sols = Some sols' ∧ r = verdict T sols'.
Proof.
  revert fuel pc sols. induction tpl as [|o tpl IH]; intros fuel pc sols Hp Hf.
  - destruct pc as [|b pc].
    + assert (E : compare_loop fuel T [] [] sols = Some (verdict T sols)) by (destruct fuel; done). rewrite E. split.
      * intros [= <-]. exists [], sols. split; [constructor|]. done.
      * intros (ops & sols' & Hd & Hr & ->). inversion Hd; subst; [|done]. by injection Hr as ->.
    + assert (E : compare_loop fuel T (b :: pc) [] sols = None).
      { destruct fuel; [done|]. cbn [compare_loop]. by destruct (GetOp (b :: pc)) as [[[??]?]|]. }
      rewrite E. split; [done|]. intros (ops & sols' & Hd & Hr & _). inversion Hd; subst. done.
  - apply Forall_cons in Hp as [[Ho1 Ho2] Hp]. cbn [length] in Hf. destruct fuel as [|fuel]; [lia|].
    rewrite compare_step, (proj2 (Z.eqb_neq _ _) Ho2) by done. split.
    + intros ([[op v] pc'] & Hop & (sols1 & Hm & Hc)%bind_Some)%bind_Some.
      apply IH in Hc as (ops & sols' & Hd & Hr & ->); [|done|lia]. exists ((op, v) :: ops), sols'.
      split; [by econstructor|]. split; [|done]. cbn [run]. by rewrite Hm.
    + intros (ops & sols' & Hd & Hr & ->). inversion Hd as [|? op v rest l Hop Hl]; subst; [done|]. rewrite Hop. cbn [mbind option_bind].
      cbn [run] in Hr. apply bind_Some in Hr as (sols1 & Hm & Hr). rewrite Hm. cbn [mbind option_bind].
      apply IH; [done|lia|]. eauto.
Qed.

(** The loop over the keys of a multi-signature script stops at the first
    instruction that pushes no key. *)
Lemma pubkeys_loop_sound fuel op v pc sols op' v' pc' sols' n : (length pc < fuel)%nat →
  pubkeys_loop fuel op v pc sols = (op', v', pc', sols') → DecodeOP_N op' = Some n →
  ∃ keys, Forall (λ k, key_size k.2 = true) keys ∧ sols' = sols ++ map snd keys ∧
    ∀ l, decodes pc' l → ∃ l0, decodes pc l0 ∧ (op, v) :: l0 = keys ++ (op', v') :: l.
Proof.
  revert op v pc sols. induction fuel as [|fuel IH]; intros op v pc sols Hf; [lia|]. cbn [pubkeys_loop].
  destruct (key_size v) eqn:Ek.
  - destruct (GetOp pc) as [[[op1 v1] pc1]|] eqn:Eo.
    + intros Hl Hn. apply IH in Hl as (keys & Hk & -> & Hd); [|apply GetOp_shorter in Eo; lia|done].
      exists ((op, v) :: keys). split; [by constructor|]. split; [by rewrite <- app_assoc|].
      intros l Hl. destruct (Hd l Hl) as (l0 & Hl0 & E). exists ((op1, v1) :: l0). split; [by econstructor|].
      rewrite E. done.
    + intros [= <- <- <- <-]. done.
  - intros [= <- <- <- <-] _. exists []. split; [constructor|]. split; [by rewrite app_nil_r|]. eauto.
Qed.

Lemma pubkeys_loop_complete fuel op v pc sols keys on vn l l0 : (length pc < fuel)%nat →
  Forall (λ k, key_size k.2 = true) keys → key_size vn = false → decodes pc l0 → (op, v) :: l0 = keys ++ (on, vn) :: l →
  ∃ pc', pubkeys_loop fuel op v pc sols = (on, vn, pc', sols ++ map snd keys) ∧ decodes pc' l.
Proof.
  revert op v pc sols keys l0. induction fuel as [|fuel IH]; intros op v pc sols keys l0 Hf Hk Hn Hd E; [lia|]. cbn [pubkeys_loop].
  destruct keys as [|[opk k] keys]; cbn [app] in E; injection E as -> -> E.
  - rewrite Hn. subst. exists pc. rewrite app_nil_r. done.
  - apply Forall_cons in Hk as [Hk1 Hk]. cbn [snd] in Hk1. rewrite Hk1. subst l0.
    destruct keys as [|[op1 v1] keys]; cbn [app] in Hd; inversion Hd as [|? ? ? rest ? Hop Hrest]; subst; rewrite Hop.
    + destruct (IH on vn rest (sols ++ [k]) [] l) as (pc' & Hp & Hl);
        [apply GetOp_shorter in Hop; lia|by apply Forall_nil|done|done|done|].
      exists pc'. rewrite Hp, app_nil_r. done.
    + destruct (IH op1 v1 rest (sols ++ [k]) ((op1, v1) :: keys) (keys ++ (on, vn) :: l)) as (pc' & Hp & Hl);
        [apply GetOp_shorter in Hop; lia|done|done|done|done|].
      exists pc'. rewrite Hp, <- app_assoc. done.
Qed.

Lemma compare_multisig pc r :
  compare_loop 4 TX_MULTISIG pc [OP_SMALLINTEGER; OP_PUBKEYS; OP_SMALLINTEGER; OP_CHECKMULTISIG] [] = Some r ↔
  ∃ om m keys on n, decodes pc ((om, []) :: keys ++ [(on, []); (OP_CHECKMULTISIG, [])]) ∧
    DecodeOP_N om = Some m ∧ DecodeOP_N on = Some n ∧ Forall (λ k, key_size k.2 = true) keys ∧
    r = verdict TX_MULTISIG ([[m]] ++ map snd keys ++ [[n]]).
Proof.
  assert (E : compare_loop 4 TX_MULTISIG pc [OP_SMALLINTEGER; OP_PUBKEYS; OP_SMALLINTEGER; OP_CHECKMULTISIG] [] =
    ('(om, _, pc) ← GetOp pc; m ← DecodeOP_N om; '(op, v, pc) ← GetOp pc;
     let '(on, vn, pc, sols) := pubkeys_loop (S (length pc)) op v pc [[m]] in
     n ← DecodeOP_N on;
     compare_loop 2 TX_MULTISIG pc [OP_CHECKMULTISIG] (sols ++ [[n]]))).
  { rewrite compare_step by done. change (OP_SMALLINTEGER =? OP_PUBKEYS) with false. cbv iota.
    destruct (GetOp pc) as [[[om v0] pc1]|]; [|done]. cbn [mbind option_bind].
    change (match_op om v0 OP_SMALLINTEGER [] []) with (m ← DecodeOP_N om; Some ([[m]] : list valtype)).
    destruct (DecodeOP_N om) as [m|]; [|done]. cbn [mbind option_bind]. rewrite compare_step by done.
    change (OP_PUBKEYS =? OP_PUBKEYS) with true. cbv iota. destruct (GetOp pc1) as [[[op v] pc2]|]; [|done].
    cbn [mbind option_bind]. destruct (pubkeys_loop _ op v pc2 [[m]]) as [[[on vn] pc3] sols].
    rewrite GetOp_plain by done. cbn [mbind option_bind].
    change (match_op on vn OP_SMALLINTEGER [] sols) with (n ← DecodeOP_N on; Some (sols ++ [[n]])).
    destruct (DecodeOP_N on); done. }
  rewrite E. clear E. split.
  - intros ([[om v0] pc1] & Hom & (m & Hm & ([[op v] pc2] & Hop & H)%bind_Some)%bind_Some)%bind_Some.
    destruct (pubkeys_loop _ op v pc2 [[m]]) as [[[on vn] pc3] sols] eqn:El. apply bind_Some in H as (n & Hn & H).
    apply (pubkeys_loop_sound (S (length pc2)) _ _ _ _ _ _ _ _ n) in El as (keys & Hk & -> & Hd); [|lia|done].
    apply compare_run in H as (ops & sols' & Hdec & Hr & ->); [|repeat constructor; done|cbn; lia].
    destruct ops as [|[oc vc] [|]]; cbn [run] in Hr; [done| |by apply bind_Some in Hr as (? & _ & ?)].
    apply bind_Some in Hr as (s1 & Hmo & [= ->]). unfold match_op in Hmo. cbn in Hmo.
    destruct (Z.eqb_spec oc OP_CHECKMULTISIG) as [->|]; [|done]. case_bool_decide; [|done]. subst vc. injection Hmo as <-.
    destruct (Hd _ Hdec) as (l0 & Hl0 & El0).
    assert (Hvn : vn = []).
    { assert (Hsome : ∃ pc4 pc5, GetOp pc4 = Some (on, vn, pc5)).
      { assert (Hall : decodes (pc1) ((op, v) :: l0)) by (by econstructor). rewrite El0 in Hall. clear -Hall.
        revert pc1 Hall. induction keys as [|[? ?] keys IH]; intros pc1 Hall; inversion Hall; subst; eauto. }
      destruct Hsome as (pc4 & pc5 & Hs). by apply (small_int_data _ _ _ _ n) in Hs. }
    subst vn. exists om, m, keys, on, n. split; [|by rewrite app_assoc].
    assert (v0 = []) as -> by (by apply (small_int_data _ _ _ _ m) in Hom). econstructor; [done|]. rewrite <- El0. by econstructor.
  - intros (om & m & keys & on & n & Hd & Hm & Hn & Hk & ->). inversion Hd as [|? ? ? pc1 ? Hom Hd1]; subst. rewrite Hom.
    cbn [mbind option_bind]. rewrite Hm. cbn [mbind option_bind].
    assert (Hl : ∃ op v l0, keys ++ [(on, []); (OP_CHECKMULTISIG, [])] = (op, v) :: l0).
    { destruct keys as [|[op v] keys]; cbn; eauto. }
    destruct Hl as (op & v & l0 & El). rewrite El in Hd1. inversion Hd1 as [|? ? ? pc2 ? Hop Hd2]; subst. rewrite Hop.
    cbn [mbind option_bind].
    destruct (pubkeys_loop_complete (S (length pc2)) op v pc2 [[m]] keys on [] [(OP_CHECKMULTISIG, [])] l0)
      as (pc3 & -> & Hd3); try done; [lia|]. rewrite Hn. cbn [mbind option_bind]. apply compare_run; [repeat constructor; done|cbn; lia|].
    eexists _, _. split; [exact Hd3|]. split; [done|]. by rewrite app_assoc.
Qed.
End matching.

(** ** The standard forms *)

(** Where a script hash, data or keys stand in the standard scripts *)
Inductive standard_form (s : list Z) : txnouttype → list valtype → Prop :=
  | form_scripthash : IsPayToScriptHash s = true → standard_form s TX_SCRIPTHASH [take 20 (drop 2 s)]
  | form_null_data rest : s = OP_RETURN :: rest → IsPushOnly rest = true → standard_form s TX_NULL_DATA []
  | form_null_op op v : decodes s [(OP_RETURN, []); (op, v)] → (length v <= 1024)%nat → standard_form s TX_NULL_DATA []
  | form_pubkey op k : decodes s [(op, k); (OP_CHECKSIG, [])] → key_size k = true → standard_form s TX_PUBKEY [k]
  | form_pubkey_drop op k op' r :
      decodes s [(op, k); (op', r); (OP_DROP, []); (OP_CHECKSIG, [])] → key_size k = true → key_size r = true →
      standard_form s TX_PUBKEY_DROP [k; r]
  | form_pubkeyhash op h :
      decodes s [(OP_DUP, []); (OP_HASH160, []); (op, h); (OP_EQUALVERIFY, []); (OP_CHECKSIG, [])] → length h = 20%nat →
      standard_form s TX_PUBKEYHASH [h]
  | form_multisig om m keys on n :
      decodes s ((om, []) :: keys ++ [(on, []); (OP_CHECKMULTISIG, [])]) →
      DecodeOP_N om = Some m → DecodeOP_N on = Some n → Forall (λ k, key_size k.2 = true) keys →
      1 <= m <= n → Z.of_nat (length keys) = n →
      standard_form s TX_MULTISIG ([[m]] ++ map snd keys ++ [[n]]).

Section spec.
Context {BN : OpenSSL_BN}.

Lemma multisig_counts_ok m (keys : list valtype) n :
  multisig_counts ([[m]] ++ keys ++ [[n]]) = bool_decide (1 <= m <= n ∧ Z.of_nat (length keys) = n).
Proof.
  unfold multisig_counts. rewrite app_assoc, last_last, <- app_assoc. cbn [nth app length]. rewrite length_app. cbn [length].
  replace (Z.of_nat (S (length keys + 1)) - 2) with (Z.of_nat (length keys)) by lia.
  symmetry. case_bool_decide as H; symmetry; [apply negb_true_iff|apply negb_false_iff]; lia.
Qed.

(** What each template accepts *)
Lemma compare_plain T tpl pc r : plain_template tpl → T ≠ TX_MULTISIG →
  compare_loop (length tpl) T pc tpl [] = Some r ↔ ∃ ops sols, decodes pc ops ∧ run tpl ops [] = Some sols ∧ r = (true, T, sols).
Proof.
  intros Hp HT. rewrite compare_run by done. unfold verdict. rewrite bool_decide_eq_false_2 by done. done.
Qed.

Lemma run_cons o tpl ops sols sols' : run (o :: tpl) ops sols = Some sols' ↔
  ∃ op v ops' sols1, ops = (op, v) :: ops' ∧ match_op op v o [] sols = Some sols1 ∧ run tpl ops' sols1 = Some sols'.
Proof.
  destruct ops as [|[op v] ops]; cbn [run]; [split; [done|by intros (? & ? & ? & ? & ? & _)]|]. rewrite bind_Some. split.
  - intros (s1 & H1 & H2). eauto 8.
  - intros (? & ? & ? & s1 & [= <- <- <-] & H1 & H2). eauto.
Qed.
Lemma run_nil ops sols sols' : run [] ops sols = Some sols' ↔ ops = [] ∧ sols' = sols.
Proof. destruct ops; cbn; [|naive_solver]. split; [intros [= ->]; done|intros [_ ->]; done]. Qed.

Lemma match_pubkey op v sols sols' : match_op op v OP_PUBKEY [] sols = Some sols' ↔ key_size v = true ∧ sols' = sols ++ [v].
Proof. unfold match_op. cbn [Z.eqb OP_PUBKEY Pos.eqb]. destruct (key_size v); naive_solver. Qed.
Lemma match_pubkeyhash op v sols sols' : match_op op v OP_PUBKEYHASH [] sols = Some sols' ↔ length v = 20%nat ∧ sols' = sols ++ [v].
Proof.
  unfold match_op. change (OP_PUBKEYHASH =? OP_PUBKEY) with false. change (OP_PUBKEYHASH =? OP_PUBKEYHASH) with true. cbv iota.
  destruct (Nat.eqb_spec (length v) 20); naive_solver.
Qed.
Lemma match_smalldata op v sols sols' : match_op op v OP_SMALLDATA [] sols = Some sols' ↔ (length v <= 1024)%nat ∧ sols' = sols.
Proof.
  unfold match_op. do 4 match goal with |- context [OP_SMALLDATA =? ?x] =>
    lazymatch x with OP_SMALLDATA => fail | _ => change (OP_SMALLDATA =? x) with false end end.
  change (OP_SMALLDATA =? OP_SMALLDATA) with true. cbv iota. destruct (Nat.ltb_spec 1024 (length v)); split; try lia; try done.
  - intros [= <-]. split; [lia|done].
  - by intros [_ ->].
Qed.
(** Opcodes below the special ones match themselves. *)
Lemma match_exact op v o sols sols' : o < OP_SMALLDATA → match_op op v o [] sols = Some sols' ↔ op = o ∧ v = [] ∧ sols' = sols.
Proof.
  intros Ho. unfold match_op.
  do 5 match goal with |- context [o =? ?x] => destruct (Z.eqb_spec o x); [subst; done|] end.
  destruct (Z.eqb_spec op o); cbn [andb]; [case_bool_decide|]; naive_solver.
Qed.

(** Invert the matching of a decoded script with a template. *)
Ltac run_inv :=
  repeat match goal with
  | H : run (_ :: _) _ _ = Some _ |- _ => apply run_cons in H as (? & ? & ? & ? & -> & ? & H)
  | H : run [] _ _ = Some _ |- _ => apply run_nil in H as [-> ->]
  | H : match_op _ _ OP_PUBKEY _ _ = Some _ |- _ => apply match_pubkey in H as [? ->]
  | H : match_op _ _ OP_PUBKEYHASH _ _ = Some _ |- _ => apply match_pubkeyhash in H as [? ->]
  | H : match_op _ _ OP_SMALLDATA _ _ = Some _ |- _ => apply match_smalldata in H as [? ->]
  | H : match_op _ _ _ _ _ = Some _ |- _ => apply match_exact in H as (-> & -> & ->); [|done]
  end.
Ltac run_ok :=
  repeat match goal with
  | |- run (_ :: _) _ _ = Some _ => apply run_cons; eexists _, _, _, _; split; [reflexivity|split]
  | |- run [] _ _ = Some _ => apply run_nil; done
  | |- match_op _ _ OP_PUBKEY _ _ = Some _ => apply match_pubkey; split; [eassumption|reflexivity]
  | |- match_op _ _ OP_PUBKEYHASH _ _ = Some _ => apply match_pubkeyhash; split; [eassumption|reflexivity]
  | |- match_op _ _ OP_SMALLDATA _ _ = Some _ => apply match_smalldata; split; [eassumption|reflexivity]
  | |- match_op _ _ _ _ _ = Some _ => apply match_exact; [done|split; [reflexivity|split; reflexivity]]
  end.

Lemma compare_pubkey pc r : compare_loop 2 TX_PUBKEY pc [OP_PUBKEY; OP_CHECKSIG] [] = Some r ↔
  ∃ op k, decodes pc [(op, k); (OP_CHECKSIG, [])] ∧ key_size k = true ∧ r = (true, TX_PUBKEY, [k]).
Proof.
  rewrite (compare_plain TX_PUBKEY [_; _]) by solve [done | repeat constructor; done]. split.
  - intros (ops & sols & Hd & Hr & ->). run_inv. eauto 6.
  - intros (op & k & Hd & Hk & ->). eexists _, _. split; [done|]. split; [|reflexivity]. run_ok.
Qed.
Lemma compare_pubkey_drop pc r : compare_loop 4 TX_PUBKEY_DROP pc [OP_PUBKEY; OP_PUBKEY; OP_DROP; OP_CHECKSIG] [] = Some r ↔
  ∃ op k op' x, decodes pc [(op, k); (op', x); (OP_DROP, []); (OP_CHECKSIG, [])] ∧ key_size k = true ∧ key_size x = true ∧
    r = (true, TX_PUBKEY_DROP, [k; x]).
Proof.
  rewrite (compare_plain TX_PUBKEY_DROP [_; _; _; _]) by solve [done | repeat constructor; done]. split.
  - intros (ops & sols & Hd & Hr & ->). run_inv. eauto 10.
  - intros (op & k & op' & x & Hd & Hk & Hx & ->). eexists _, _. split; [done|]. split; [|reflexivity]. run_ok.
Qed.
Lemma compare_pubkeyhash pc r :
  compare_loop 5 TX_PUBKEYHASH pc [OP_DUP; OP_HASH160; OP_PUBKEYHASH; OP_EQUALVERIFY; OP_CHECKSIG] [] = Some r ↔
  ∃ op h, decodes pc [(OP_DUP, []); (OP_HASH160, []); (op, h); (OP_EQUALVERIFY, []); (OP_CHECKSIG, [])] ∧ length h = 20%nat ∧
    r = (true, TX_PUBKEYHASH, [h]).
Proof.
  rewrite (compare_plain TX_PUBKEYHASH [_; _; _; _; _]) by solve [done | repeat constructor; done]. split.
  - intros (ops & sols & Hd & Hr & ->). run_inv. eauto 10.
  - intros (op & h & Hd & Hh & ->). eexists _, _. split; [done|]. split; [|reflexivity]. run_ok.
Qed.
Lemma compare_null_data pc r : compare_loop 2 TX_NULL_DATA pc [OP_RETURN; OP_SMALLDATA] [] = Some r ↔
  ∃ op v, decodes pc [(OP_RETURN, []); (op, v)] ∧ (length v <= 1024)%nat ∧ r = (true, TX_NULL_DATA, []).
Proof.
  rewrite (compare_plain TX_NULL_DATA [_; _]) by solve [done | repeat constructor; done]. split.
  - intros (ops & sols & Hd & Hr & ->). run_inv. eauto 10.
  - intros (op & v & Hd & Hv & ->). eexists _, _. split; [done|]. split; [|reflexivity]. run_ok.
Qed.

Lemma decodes_head s op v l : decodes s ((op, v) :: l) → ∃ rest, s = op :: rest ∧ (v ≠ [] → op <= OP_PUSHDATA4).
Proof.
  inversion 1 as [|? ? ? rest ? Hop _]; subst. destruct s as [|b pc]; [done|]. destruct (GetOp_head _ _ _ _ _ Hop) as [-> ?]. eauto.
Qed.

Lemma key_size_some k : key_size k = true → k ≠ [].
Proof. by intros H ->. Qed.

Lemma IsPayToScriptHash_head b rest : b ≠ OP_HASH160 → IsPayToScriptHash (b :: rest) = false.
Proof. intros Hb. unfold IsPayToScriptHash. cbn [nth]. rewrite (proj2 (Z.eqb_neq _ _) Hb). by rewrite andb_false_r. Qed.

(** Past the two shortcuts the templates decide. *)
Lemma Solver_templates b rest : b ≠ OP_HASH160 → b ≠ OP_RETURN ∨ IsPushOnly rest = false →
  Solver (b :: rest) = scan_templates mTemplates (b :: rest).
Proof.
  intros H1 H2. unfold Solver. rewrite IsPayToScriptHash_head by done. cbn [nth drop skipn length].
  destruct H2 as [H2|H2]; [rewrite (proj2 (Z.eqb_neq _ _) H2)|rewrite drop_0, H2]; by rewrite ?andb_false_r.
Qed.

(** Exclude a template by the decoded form [Hd] of the script. *)
Ltac exclude Hd :=
  let r := fresh "r" in let Hd' := fresh "Hd'" in let E := fresh "E" in
  match goal with |- context [compare_loop ?f ?T ?s ?t ?a] =>
    assert (compare_loop f T s t a = None) as ->;
    [apply eq_None_not_Some; intros [r E];
     lazymatch T with
     | TX_PUBKEY => apply compare_pubkey in E as (? & ? & Hd' & ? & _)
     | TX_PUBKEY_DROP => apply compare_pubkey_drop in E as (? & ? & ? & ? & Hd' & ? & ? & _)
     | TX_PUBKEYHASH => apply compare_pubkeyhash in E as (? & ? & Hd' & ? & _)
     | TX_MULTISIG => apply compare_multisig in E as (? & ? & ? & ? & ? & Hd' & ? & ? & ? & _)
     end; pose proof (decodes_fun _ _ _ Hd Hd'); simplify_eq; done|] end.

Lemma Solver_complete s T sols : standard_form s T sols → Solver s = (true, T, sols).
Proof.
  intros HF. destruct HF as [H|rest -> H|op v Hd Hv|op k Hd Hk|op k op' x Hd Hk Hx|op h Hd Hh|om m keys on n Hd Hm Hn Hk Hr Hl].
  - unfold Solver. by rewrite H.
  - unfold Solver. rewrite IsPayToScriptHash_head by done. change (drop 1 (OP_RETURN :: rest)) with rest. by rewrite H.
  - destruct (decodes_head _ _ _ _ Hd) as (rest & -> & _). destruct (IsPushOnly rest) eqn:Ep.
    + unfold Solver. rewrite IsPayToScriptHash_head by done. change (drop 1 (OP_RETURN :: rest)) with rest. by rewrite Ep.
    + rewrite Solver_templates by auto. cbn [scan_templates mTemplates length]. do 4 exclude Hd.
      by rewrite (proj2 (compare_null_data _ (true, TX_NULL_DATA, []))) by eauto 10.
  - destruct (decodes_head _ _ _ _ Hd) as (rest & -> & Hop). assert (Hle := Hop (key_size_some _ Hk)).
    rewrite Solver_templates by (unfold OP_PUSHDATA4, OP_HASH160, OP_RETURN in *; lia). cbn [scan_templates mTemplates length].
    by rewrite (proj2 (compare_pubkey _ (true, TX_PUBKEY, [k]))) by eauto 10.
  - destruct (decodes_head _ _ _ _ Hd) as (rest & -> & Hop). assert (Hle := Hop (key_size_some _ Hk)).
    rewrite Solver_templates by (unfold OP_PUSHDATA4, OP_HASH160, OP_RETURN in *; lia). cbn [scan_templates mTemplates length].
    exclude Hd. by rewrite (proj2 (compare_pubkey_drop _ (true, TX_PUBKEY_DROP, [k; x]))) by eauto 10.
  - destruct (decodes_head _ _ _ _ Hd) as (rest & -> & _). rewrite Solver_templates by auto.
    cbn [scan_templates mTemplates length]. do 2 exclude Hd. by rewrite (proj2 (compare_pubkeyhash _ (true, TX_PUBKEYHASH, [h]))) by eauto 10.
  - destruct (decodes_head _ _ _ _ Hd) as (rest & -> & _).
    assert (om ≠ OP_HASH160 ∧ om ≠ OP_RETURN) as [] by (split; intros ->; done). rewrite Solver_templates by auto.
    cbn [scan_templates mTemplates length]. do 3 exclude Hd. rewrite (proj2 (compare_multisig _ (verdict TX_MULTISIG ([[m]] ++ map snd keys ++ [[n]])))) by eauto 12.
    unfold verdict. rewrite multisig_counts_ok, length_map, !bool_decide_eq_true_2 by done. done.
Qed.

Lemma Solver_sound s T sols : Solver s = (true, T, sols) → standard_form s T sols.
Proof.
  unfold Solver. destruct (IsPayToScriptHash s) eqn:Ep; [intros [= <- <-]; by constructor|].
  destruct ((1 <=? length s)%nat && (nth 0 s 0 =? OP_RETURN) && IsPushOnly (drop 1 s)) eqn:En.
  { intros [= <- <-]. apply andb_prop in En as [[E1 E2%Z.eqb_eq]%andb_prop E3]. destruct s as [|b rest]; [done|].
    cbn in E2, E3. subst b. by apply (form_null_data _ rest). }
  clear Ep En. cbn [scan_templates mTemplates length].
  destruct (compare_loop 2 TX_PUBKEY _ _ _) as [r|] eqn:E1.
  { apply compare_pubkey in E1 as (op & k & Hd & Hk & ->). intros [= <- <-]. by apply (form_pubkey _ op). }
  destruct (compare_loop 4 TX_PUBKEY_DROP _ _ _) as [r|] eqn:E2.
  { apply compare_pubkey_drop in E2 as (op & k & op' & x & Hd & Hk & Hx & ->). intros [= <- <-]. by apply (form_pubkey_drop _ op k op'). }
  destruct (compare_loop 5 TX_PUBKEYHASH _ _ _) as [r|] eqn:E3.
  { apply compare_pubkeyhash in E3 as (op & h & Hd & Hh & ->). intros [= <- <-]. by apply (form_pubkeyhash _ op). }
  destruct (compare_loop 4 TX_MULTISIG _ _ _) as [r|] eqn:E4.
  { apply compare_multisig in E4 as (om & m & keys & on & n & Hd & Hm & Hn & Hk & ->). unfold verdict.
    rewrite bool_decide_eq_true_2, multisig_counts_ok, length_map by done. case_bool_decide as Hc; [|done].
    destruct Hc. intros [= <- <-]. by apply (form_multisig _ om m keys on n). }
  destruct (compare_loop 2 TX_NULL_DATA _ _ _) as [r|] eqn:E5; [|done].
  apply compare_null_data in E5 as (op & v & Hd & Hv & ->). intros [= <- <-]. by apply (form_null_op _ op v).
Qed.
End spec.

(** ** Properties *)

(** What [Solver] recognises: it succeeds with a type and solutions exactly on the
    scripts of the corresponding standard form: a script hash, data behind
    OP_RETURN, a public key, a public key with a dropped parameter, a key hash,
    or m of n keys with 1 <= m <= n; the solutions are the hash, the keys and
    the counts found there. *)
Theorem Solver_spec {BN : OpenSSL_BN} s T sols : Solver s = (true, T, sols) ↔ standard_form s T sols.
Proof. split; [apply Solver_sound|apply Solver_complete]. Qed.
