(* ===== verification/Mempool.v ===== *)
(** * The memory pool (src/main.cpp, src/main.h)

    [CTxMemPool]: the transactions waiting for a block ([mapTx]) and the outputs
    they spend ([mapNextTx]).  A [CInPoint] points into [mapTx]; the pointer is
    the key of the entry.  The operations keep the two maps consistent, so that
    no output is spent twice within the pool. *)

From stdpp Require Import base list numbers option gmap.
From Stdlib Require Import ZArith Lia.
From S2P Require Import Prelude Uint256 Bignum Serialize Tx Script Interp SigCheck Chain Utxo ScriptStd.

Open Scope Z_scope.

(** ** Data *)

Record CInPoint := mkInPoint { ip_ptx : base_uint; ip_n : nat }.
#[export] Instance CInPoint_eq_dec : EqDecision CInPoint.
Proof. solve_decision. Defined.

Record CTxMemPool := mkPool {
  mapTx : gmap base_uint CTransaction;
  mapNextTx : gmap COutPoint CInPoint;
  nTransactionsUpdated : Z
}.

Definition FutureDrift (nTime : Z) : Z := nTime + 2 * nOneHour.
Definition PastDrift (nTime : Z) : Z := nTime - 2 * nOneHour.

(** ** Operations *)

Definition addUnchecked (M : CTxMemPool) (hash : base_uint) (tx : CTransaction) : CTxMemPool :=
  mkPool (<[hash := tx]> (mapTx M))
    (foldl (λ m '(i, txin), <[prevout txin := mkInPoint hash i]> m) (mapNextTx M) (imap pair (vin tx)))
    (u32 (nTransactionsUpdated M + 1)).

Definition remove `{Digests} (M : CTxMemPool) (tx : CTransaction) : CTxMemPool :=
  let hash := GetHash tx in
  if bool_decide (is_Some (mapTx M !! hash)) then
    mkPool (delete hash (mapTx M))
      (foldl (λ m txin, delete (prevout txin) m) (mapNextTx M) (vin tx))
      (u32 (nTransactionsUpdated M + 1))
  else M.

Definition clear (M : CTxMemPool) : CTxMemPool := mkPool ∅ ∅ (u32 (nTransactionsUpdated M + 1)).

(** The result of [accept]: the DoS score it adds, and [*pfMissingInputs] *)
Inductive accept_result :=
  | Accepted
  | Refused (nDoS : Z) (fMissingInputs : bool).

Section accept.
Context {BN : OpenSSL_BN} {DG : Digests} (fTestNet : bool).
Variable Verify : list Z → base_uint → list Z → bool.
Variable nMaxCacheSize : Z.
Variable random_entry : gset sigdata → sigdata.
Variable lastCheckpointTime : Z.
(** [GetAdjustedTime()] and the verdict of the rate limiter, whose decaying
    average of free bytes is a floating-point number *)
Variable adjustedTime : Z.
Variable rate_limited : bool.

(** The checks on the inputs, up to [ConnectInputs]: [None] is an exception or
    a failed assertion, [inl] a refusal *)
Definition accept_inputs (d : Disk) (pindexBest : list CBlockIndex) (M : CTxMemPool) (tx : CTransaction) (cache : gset sigdata)
    : option ((accept_result + unit) * gset sigdata) :=
  r ← FetchInputs d (mapTx M) ∅ false false tx ∅;
  match r with
  | Invalid nDoS => Some (inl (Refused nDoS false), cache)
  | Missing => Some (inl (Refused 0 true), cache)
  | Fetched mapInputs =>
      '(standard, cache) ←
        AreInputsStandard (λ i, CheckSig Verify nMaxCacheSize random_entry tx i 0 0) tx mapInputs cache;
      if negb standard && negb fTestNet then Some (inl (Refused 0 false), cache)
      else
        nValueIn ← GetValueIn tx mapInputs;
        nValueOut ← GetValueOut tx;
        let nFees := i64 (nValueIn - nValueOut) in
        let nSize := GetSerializeSize tx in
        let txMinFee := GetMinFee tx 1000 true GMF_RELAY nSize in
        if nFees <? txMinFee then Some (inl (Refused 0 false), cache)
        else if (nFees <? MIN_RELAY_TX_FEE) && rate_limited then Some (inl (Refused 0 false), cache)
        else
          '(connected, cache) ←
            ConnectInputs fTestNet Verify nMaxCacheSize random_entry lastCheckpointTime d tx mapInputs ∅ memory_pos pindexBest
              false false true STRICT_FLAGS false cache;
          match connected with
          | Rejected nDoS _ => Some (inl (Refused nDoS false), cache)
          | Connected _ _ => Some (inr tt, cache)
          end
  end.

Definition accept (d : Disk) (pindexBest : list CBlockIndex) (M : CTxMemPool) (tx : CTransaction) (fCheckInputs : bool)
    (cache : gset sigdata) : option (accept_result * CTxMemPool * gset sigdata) :=
  let refuse nDoS := Some (Refused nDoS false, M, cache) in
  if nTime tx >? FutureDrift adjustedTime then refuse 10
  else if negb (CheckTransaction tx).1 then refuse (CheckTransaction tx).2
  else if IsCoinBase tx then refuse 100
  else if IsCoinStake tx then refuse 100
  else if nLockTime tx >? 2 ^ 31 - 1 then refuse 0
  else if negb fTestNet && bool_decide (is_Some (IsStandard tx)) then refuse 0
  else
    let hash := GetHash tx in
    if bool_decide (is_Some (mapTx M !! hash)) then refuse 0
    else if fCheckInputs && bool_decide (is_Some (txdb d !! hash)) then refuse 0
    else if existsb (λ txin, bool_decide (is_Some (mapNextTx M !! prevout txin))) (vin tx) then refuse 0
    else
      '(r, cache) ← (if fCheckInputs then accept_inputs d pindexBest M tx cache else Some (inr tt, cache));
      match r with
      | inl refused => Some (refused, M, cache)
      | inr _ => Some (Accepted, addUnchecked M hash tx, cache)
      end.
End accept.

(** ** The pool invariant *)

(** Entries are filed under their hash, and the spent outputs are exactly the
    inputs of the entries. *)
Record pool_ok `{Digests} (M : CTxMemPool) : Prop := {
  pool_hash : ∀ h tx, mapTx M !! h = Some tx → GetHash tx = h;
  pool_next : ∀ o h i, mapNextTx M !! o = Some (mkInPoint h i) ↔
    ∃ tx txin, mapTx M !! h = Some tx ∧ vin tx !! i = Some txin ∧ prevout txin = o
}.

Section invariant.
Context {DG : Digests}.

Lemma next_inserted hash k v (m : gmap COutPoint CInPoint) o x : NoDup (map prevout v) →
  (foldl (λ m '(i, txin), <[prevout txin := mkInPoint hash i]> m) m (imap (λ i, pair (k + i)%nat) v)) !! o = Some x ↔
  (∃ i txin, v !! i = Some txin ∧ prevout txin = o ∧ x = mkInPoint hash (k + i)) ∨ ((o ∉ map prevout v) ∧ m !! o = Some x).
Proof.
  revert k m. induction v as [|t v IH]; intros k m Hnd; cbn [imap foldl map].
  { split; [intros H; right; split; [apply not_elem_of_nil|done]|]. intros [(i & txin & H & _)|[_ H]]; done. }
  apply NoDup_cons in Hnd as [Hni Hnd].
  assert (E : imap ((λ i, pair (k + i)%nat) ∘ S) v = imap (λ i, pair (S k + i)%nat) v).
  { apply imap_ext. intros i y _. cbn. f_equal. lia. }
  rewrite E, IH by done. rewrite Nat.add_0_r. split.
  - intros [(i & txin & Hi & Ho & ->)|[Hno Hm]].
    + left. exists (S i), txin. split; [done|]. split; [done|]. f_equal. lia.
    + destruct (decide (o = prevout t)) as [->|Hne].
      * rewrite lookup_insert_eq in Hm. injection Hm as <-. left. exists O, t. rewrite Nat.add_0_r. done.
      * rewrite lookup_insert_ne in Hm by done. right. split; [|done]. by apply not_elem_of_cons.
  - intros [(i & txin & Hi & Ho & ->)|[Hno Hm]].
    + destruct i as [|i]; cbn in Hi.
      * injection Hi as ->. right. subst o. split; [done|]. rewrite lookup_insert_eq, Nat.add_0_r. done.
      * left. exists i, txin. split; [done|]. split; [done|]. f_equal. lia.
    + apply not_elem_of_cons in Hno as [Hne Hno]. right. split; [done|]. by rewrite lookup_insert_ne.
Qed.

Lemma next_deleted v (m : gmap COutPoint CInPoint) o :
  (foldl (λ m txin, delete (prevout txin) m) m v) !! o = if decide (o ∈ map prevout v) then None else m !! o.
Proof.
  revert m. induction v as [|t v IH]; intros m; cbn [foldl map].
  { rewrite decide_False by apply not_elem_of_nil. done. }
  rewrite IH. destruct (decide (o ∈ map prevout v)) as [H|H].
  - rewrite decide_True by (by apply elem_of_cons; right). done.
  - destruct (decide (o = prevout t)) as [->|Hne].
    + rewrite lookup_delete_eq, decide_True by (by apply elem_of_cons; left). done.
    + rewrite lookup_delete_ne, decide_False by (done || by apply not_elem_of_cons). done.
Qed.

Lemma pool_ok_empty n : pool_ok (mkPool ∅ ∅ n).
Proof.
  split; cbn; [done|]. intros o h i. rewrite lookup_empty. split; [done|]. intros (tx & _ & H & _). by rewrite lookup_empty in H.
Qed.

Lemma elem_of_prevouts o v : o ∈ map prevout v ↔ ∃ i txin, v !! i = Some txin ∧ prevout txin = o.
Proof.
  rewrite list_elem_of_fmap. split.
  - intros (txin & -> & [i Hi]%list_elem_of_lookup). eauto.
  - intros (i & txin & Hi & <-). exists txin. split; [done|]. apply list_elem_of_lookup. eauto.
Qed.

Lemma pool_ok_add M tx : pool_ok M → mapTx M !! GetHash tx = None → NoDup (map prevout (vin tx)) →
  Forall (λ txin, mapNextTx M !! prevout txin = None) (vin tx) → pool_ok (addUnchecked M (GetHash tx) tx).
Proof.
  intros [Hh Hn] Hnew Hnd Hfree. split; cbn [mapTx mapNextTx addUnchecked].
  - intros h t [[<- <-]|[_ H]]%lookup_insert_Some; [done|]. eauto.
  - intros o h i. assert (E := next_inserted (GetHash tx) 0 (vin tx) (mapNextTx M) o (mkInPoint h i) Hnd).
    cbn [Nat.add] in E. change (imap (λ i, pair i) (vin tx)) with (imap pair (vin tx)) in E. rewrite E. clear E. split.
    + intros [(j & txin & Hj & Ho & [= -> ->])|[Hno Hm]].
      * exists tx, txin. by rewrite lookup_insert_eq.
      * apply Hn in Hm as (t & txin & Ht & Hi & Ho). exists t, txin.
        rewrite lookup_insert_ne by (intros <-; rewrite Hnew in Ht; done). done.
    + intros (t & txin & [[<- <-]|[Hne Ht]]%lookup_insert_Some & Hi & Ho).
      * left. eauto.
      * assert (Hm : mapNextTx M !! o = Some (mkInPoint h i)) by (apply Hn; eauto). right. split; [|done].
        intros (j & txin' & Hj & Ho')%elem_of_prevouts. rewrite Forall_lookup in Hfree. specialize (Hfree j txin' Hj).
        rewrite Ho', Hm in Hfree. done.
Qed.

Lemma pool_ok_remove M tx : pool_ok M → (∀ tx', mapTx M !! GetHash tx = Some tx' → tx' = tx) → pool_ok (remove M tx).
Proof.
  intros [Hh Hn] Hsame. unfold remove. case_bool_decide as Hin; [|by split]. destruct Hin as [t0 Ht0].
  assert (t0 = tx) as -> by auto. split; cbn [mapTx mapNextTx].
  - intros h t [_ H]%lookup_delete_Some. eauto.
  - intros o h i. rewrite next_deleted. split.
    + destruct (decide (o ∈ map prevout (vin tx))) as [|Hno]; [done|]. intros (t & txin & Ht & Hi & Ho)%Hn. exists t, txin.
      split; [|done]. rewrite lookup_delete_ne; [done|]. intros <-. rewrite Ht0 in Ht. injection Ht as <-.
      apply Hno, elem_of_prevouts. eauto.
    + intros (t & txin & [Hne Ht]%lookup_delete_Some & Hi & Ho).
      assert (Hm : mapNextTx M !! o = Some (mkInPoint h i)) by (apply Hn; eauto).
      destruct (decide (o ∈ map prevout (vin tx))) as [(j & txin' & Hj & Ho')%elem_of_prevouts|]; [|done].
      assert (Hm' : mapNextTx M !! o = Some (mkInPoint (GetHash tx) j)) by (apply Hn; eauto). congruence.
Qed.

(** No output is spent twice. *)
Lemma pool_no_conflict M h1 h2 t1 t2 i1 i2 in1 in2 : pool_ok M →
  mapTx M !! h1 = Some t1 → mapTx M !! h2 = Some t2 → vin t1 !! i1 = Some in1 → vin t2 !! i2 = Some in2 →
  prevout in1 = prevout in2 → h1 = h2 ∧ i1 = i2.
Proof.
  intros [_ Hn] H1 H2 Hi1 Hi2 E. assert (E1 := proj2 (Hn (prevout in1) h1 i1) ltac:(eauto)).
  assert (E2 := proj2 (Hn (prevout in1) h2 i2) ltac:(eauto)). rewrite E1 in E2. by injection E2 as -> ->.
Qed.
End invariant.

(** ** [accept] *)

Section accept_facts.
Context {BN : OpenSSL_BN} {DG : Digests} (net : bool).
Context (Verify : list Z → base_uint → list Z → bool) (nMaxCacheSize : Z) (random_entry : gset sigdata → sigdata).
Context (cpTime adjustedTime : Z) (rate_limited : bool) (d : Disk) (chain : list CBlockIndex).

(** What a transaction that got in has passed *)
Lemma accept_inv M tx fCheckInputs cache r M' cache' :
  accept net Verify nMaxCacheSize random_entry cpTime adjustedTime rate_limited d chain M tx fCheckInputs cache =
    Some (r, M', cache') →
  (r ≠ Accepted → M' = M) ∧
  (r = Accepted →
   M' = addUnchecked M (GetHash tx) tx ∧ nTime tx <= FutureDrift adjustedTime ∧ (CheckTransaction tx).1 = true ∧
   IsCoinBase tx = false ∧ IsCoinStake tx = false ∧ (net = false → IsStandard tx = None) ∧
   mapTx M !! GetHash tx = None ∧ Forall (λ txin, mapNextTx M !! prevout txin = None) (vin tx) ∧
   (fCheckInputs = true → txdb d !! GetHash tx = None ∧
    accept_inputs net Verify nMaxCacheSize random_entry cpTime rate_limited d chain M tx cache = Some (inr tt, cache'))).
Proof.
  unfold accept. cbv zeta.
  destruct (Z.gtb_spec (nTime tx) (FutureDrift adjustedTime)) as [|Hdrift]; [intros [= <- <- <-]; done|].
  destruct (CheckTransaction tx).1; cbn [negb]; [|intros [= <- <- <-]; done].
  destruct (IsCoinBase tx); [intros [= <- <- <-]; done|]. destruct (IsCoinStake tx); [intros [= <- <- <-]; done|].
  destruct (nLockTime tx >? 2 ^ 31 - 1); [intros [= <- <- <-]; done|].
  destruct (negb net && _) eqn:Est; [intros [= <- <- <-]; done|].
  destruct (bool_decide (is_Some (mapTx M !! GetHash tx))) eqn:Hnew; [intros [= <- <- <-]; done|]. apply bool_decide_eq_false in Hnew.
  destruct (fCheckInputs && _) eqn:Edb; [intros [= <- <- <-]; done|].
  destruct (existsb _ (vin tx)) eqn:Ex; [intros [= <- <- <-]; done|].
  assert (Hfree : Forall (λ txin, mapNextTx M !! prevout txin = None) (vin tx)).
  { apply List.Forall_forall. intros txin Hin. apply eq_None_not_Some. intros Hs.
    assert (existsb (λ txin, bool_decide (is_Some (mapNextTx M !! prevout txin))) (vin tx) = true) by
      (apply existsb_exists; exists txin; split; [done|]; by apply bool_decide_eq_true_2). congruence. }
  intros ([r1 c1] & Hr1 & Hres)%bind_Some. destruct r1 as [refused|[]].
  - injection Hres as <- <- <-. split; [done|]. intros ->. exfalso. destruct fCheckInputs; [|done]. revert Hr1. unfold accept_inputs.
    intros ([inputs| |nDoS] & _ & H)%bind_Some; [|done|done]. apply bind_Some in H as ([std c2] & _ & H).
    destruct (negb std && negb net); [done|]. apply bind_Some in H as (vi & _ & H). apply bind_Some in H as (vo & _ & H).
    cbv zeta in H. do 2 (match type of H with (if ?b then _ else _) = _ => destruct b; [done|] end).
    apply bind_Some in H as ([[|] c3] & _ & H); done.
  - injection Hres as <- <- <-. split; [done|]. intros _. split; [done|]. split; [done|]. split; [done|]. split; [done|].
    split; [done|]. split.
    { intros ->. cbn [negb andb] in Est. apply bool_decide_eq_false in Est. by apply eq_None_not_Some. }
    split; [by apply eq_None_not_Some|]. split; [done|]. intros ->. cbn [andb] in Edb. apply bool_decide_eq_false in Edb.
    split; [by apply eq_None_not_Some|done].
Qed.

Lemma pool_ok_accept M tx fCheckInputs cache r M' cache' : pool_ok M → tx_ok tx →
  accept net Verify nMaxCacheSize random_entry cpTime adjustedTime rate_limited d chain M tx fCheckInputs cache =
    Some (r, M', cache') → pool_ok M'.
Proof.
  intros HM Ht HA. apply accept_inv in HA as [Hno Hyes]. destruct r; [|by rewrite Hno].
  destruct (Hyes eq_refl) as (-> & _ & Hct & _ & _ & _ & Hnew & Hfree & _). apply pool_ok_add; try done.
  by apply (CheckTransaction_ok tx Ht) in Hct as (_ & _ & _ & _ & _ & _ & Hnd & _).
Qed.

Lemma AreInputsStandard_cache tx inputs cache b cache' :
  (∀ S, S ≠ ∅ → random_entry S ∈ S) → cache_ok Verify nMaxCacheSize cache →
  AreInputsStandard (λ i, CheckSig Verify nMaxCacheSize random_entry tx i 0 0) tx inputs cache = Some (b, cache') →
  cache_ok Verify nMaxCacheSize cache'.
Proof.
  intros Hrnd HS. unfold AreInputsStandard. destruct (IsCoinBase tx); [by intros [= _ <-]|].
  assert (Hone : ∀ i txin c b c', cache_ok Verify nMaxCacheSize c →
    input_standard (λ i, CheckSig Verify nMaxCacheSize random_entry tx i 0 0) tx inputs i txin c = Some (b, c') →
    cache_ok Verify nMaxCacheSize c').
  { intros i txin c b0 c' Hc. unfold input_standard. intros (prev & _ & H)%bind_Some. revert H.
    assert (He := EvalScript_cache_ok Verify nMaxCacheSize random_entry tx i 0 0 [] (scriptSig txin) c Hrnd Hc).
    destruct (EvalScript _ _ _ _ _ _ _) as [[ok stk] c1]. cbn [snd] in He.
    repeat case_match; intros [= _ <-]; done. }
  generalize (vin tx) as v, 0%nat as i. intros v. revert cache HS. induction v as [|txin v IH]; intros c Hc i; cbn [inputs_loop].
  { by intros [= _ <-]. }
  intros ([ok c1] & H1 & H)%bind_Some. apply Hone in H1; [|done]. destruct ok; cbn [negb] in H; [eauto|by injection H as _ <-].
Qed.

(** The inputs of an accepted transaction *)
Lemma accept_inputs_ok M tx cache cache' : tx_ok tx → IsCoinBase tx = false → IsCoinStake tx = false →
  (∀ S, S ≠ ∅ → random_entry S ∈ S) → cache_ok Verify nMaxCacheSize cache →
  accept_inputs net Verify nMaxCacheSize random_entry cpTime rate_limited d chain M tx cache = Some (inr tt, cache') →
  ∃ inputs, FetchInputs d (mapTx M) ∅ false false tx ∅ = Some (Fetched inputs) ∧
    (net = false → ∃ c, AreInputsStandard (λ i, CheckSig Verify nMaxCacheSize random_entry tx i 0 0) tx inputs cache = Some (true, c)) ∧
    Forall (input_ok net tx chain inputs) (vin tx) ∧
    (∀ k i, vin tx !! k = Some i → script_valid Verify tx STRICT_FLAGS k (script_of inputs i)) ∧
    GetMinFee tx 1000 true GMF_RELAY (GetSerializeSize tx) <= total_in inputs (vin tx) - total (vout tx).
Proof.
  intros Ht Hcb Hcs Hrnd HS. assert (Ho : Forall txout_ok (vout tx)) by apply Ht. unfold accept_inputs.
  intros ([inputs| |nDoS] & Hf & H)%bind_Some; [|done|done]. apply bind_Some in H as ([std c2] & Hstd & H).
  apply AreInputsStandard_cache in Hstd as HS2; [|done|done]. destruct (negb std && negb net) eqn:Es; [done|].
  apply bind_Some in H as (vi & Hvi & H). apply bind_Some in H as (vo & Hvo & H). cbv zeta in H.
  destruct (Z.ltb_spec (i64 (vi - vo)) (GetMinFee tx 1000 true GMF_RELAY (GetSerializeSize tx))) as [|Hfee]; [done|].
  match type of H with (if ?b then _ else _) = _ => destruct b; [done|] end.
  apply bind_Some in H as ([[|pool' checks] c3] & Hc & H); [done|].
  destruct (ConnectInputs_inv _ _ _ _ _ _ _ _ _ _ _ _ _ _ _ _ _ _ _ _ Ho Hcb Hc) as (Hin & Hs & Hout & _ & Hr & Hnn).
  destruct (connect_scripts_checks _ _ _ _ _ _ _ _ _ _ _ _ _ _ _ _ _ _ _ Hrnd HS2 (drop_0 _) Hs) as (_ & _ & Hv).
  exists inputs. split; [done|]. split; [intros ->; destruct std; [eauto|done]|]. split; [done|]. split; [intros k i; apply (Hv eq_refl)|].
  apply GetValueOut_total in Hvo as [-> Hvo]; [|done]. unfold GetValueIn in Hvi. rewrite Hcb in Hvi.
  rewrite valuein_loop_ok in Hvi; [|eapply Forall_impl; [apply Forall_and; split; [exact Hin|apply Ht]|]|done|lia|lia].
  - injection Hvi as <-. rewrite Z.add_0_l in Hfee. rewrite i64_small in Hfee by (unfold MAX_MONEY in *; lia). lia.
  - intros i [(x & t & Hx & Hn & _) [[_ Hn0] _]]. split; [|lia]. unfold GetOutputFor. rewrite Hx. cbn [mbind option_bind].
    destruct (Z.leb_spec (Z.of_nat (length (vout t))) (op_n (prevout i))); [lia|]. apply lookup_lt_is_Some_2. lia.
Qed.
End accept_facts.

(** ** Histories of the pool *)

Inductive pool_step `{OpenSSL_BN} `{Digests} : CTxMemPool → CTxMemPool → Prop :=
  | step_accept net Verify nMaxCacheSize random_entry cpTime adjustedTime rate_limited d chain M tx fCheckInputs cache r M' cache' :
      tx_ok tx →
      accept net Verify nMaxCacheSize random_entry cpTime adjustedTime rate_limited d chain M tx fCheckInputs cache =
        Some (r, M', cache') → pool_step M M'
  | step_remove M tx : (∀ tx', mapTx M !! GetHash tx = Some tx' → tx' = tx) → pool_step M (remove M tx)
  | step_clear M : pool_step M (clear M).

Lemma reachable_pool_ok `{OpenSSL_BN} `{Digests} M : rtc pool_step (mkPool ∅ ∅ 0) M → pool_ok M.
Proof.
  intros HR. refine (rtc_ind_r pool_ok (mkPool ∅ ∅ 0) (pool_ok_empty 0) _ M HR). clear M HR. intros M1 M2 _ Hs IH.
  destruct Hs as [? ? ? ? ? ? ? ? ? ? ? ? ? ? ? ? Ht HA|? ? Hsame|?].
  - by apply (pool_ok_accept _ _ _ _ _ _ _ _ _ _ _ _ _ _ _ _ IH Ht HA).
  - by apply pool_ok_remove.
  - apply pool_ok_empty.
Qed.

(** ** Properties *)

#[local] Existing Instances sample_digests sample_digests_ok.

Definition sample_mempool : CTxMemPool := addUnchecked (mkPool ∅ ∅ 0) (GetHash sample_tx) sample_tx.

(** C37. The pool is consistent: whatever the history of acceptances, removals and
    clearings, every entry is filed under its hash, the outputs marked as spent
    are exactly the inputs of the entries, with their positions, and no output
    is spent by two inputs of the pool.  (Removals are those of a block: a
    transaction with the hash of an entry is that entry.) *)
Theorem mempool_consistent {BN : OpenSSL_BN} {DG : Digests} M : rtc pool_step (mkPool ∅ ∅ 0) M →
  pool_ok M ∧
  (∀ h1 h2 t1 t2 i1 i2 in1 in2, mapTx M !! h1 = Some t1 → mapTx M !! h2 = Some t2 → vin t1 !! i1 = Some in1 → vin t2 !! i2 = Some in2 →
   prevout in1 = prevout in2 → h1 = h2 ∧ i1 = i2).
Proof.
  intros HM%reachable_pool_ok. split; [done|]. intros. by apply (pool_no_conflict M h1 h2 t1 t2 i1 i2 in1 in2).
Qed.

Lemma mempool_consistent_witness :
  pool_ok sample_mempool ∧
  (∀ h1 h2 t1 t2 i1 i2 in1 in2, mapTx sample_mempool !! h1 = Some t1 → mapTx sample_mempool !! h2 = Some t2 →
   vin t1 !! i1 = Some in1 → vin t2 !! i2 = Some in2 → prevout in1 = prevout in2 → h1 = h2 ∧ i1 = i2).
Proof.
  apply (mempool_consistent sample_mempool). eapply rtc_once.
  apply (step_accept true sample_verify 1 first_entry 0 1400000000 false sample_disk [] (mkPool ∅ ∅ 0) sample_tx true ∅ Accepted
    sample_mempool ∅).
  - apply tx_okb_ok. reflexivity.
  - vm_compute. reflexivity.
Defined.


(** A standard payment on the main network, from an output to a public key *)
Definition payer_key : list Z := 2 :: replicate 32 7.
Definition paid_prev : CTransaction :=
  mkTx 1 1300000000 [mkTxIn (mkOutPoint [9; 9; 9; 9; 9; 9; 9; 9] 0) [] 0] [mkTxOut 5000000 ([33] ++ payer_key ++ [OP_CHECKSIG])] 0.
Definition main_disk : Disk := mkDisk {[sample_hash := CTxIndex_new (mkPos 1 100 200) 1]} (λ _, Some paid_prev) (λ _ _, Some 1300000000).
Definition main_tx : CTransaction :=
  mkTx 1 1400000000 [mkTxIn (mkOutPoint sample_hash 0) [9; 48; 6; 2; 1; 1; 2; 1; 1; 1] UINT_MAX]
    [mkTxOut 4000000 ([118; 169; 20] ++ replicate 20 5 ++ [136; 172])] 0.
Definition verify_all (k : list Z) (h : base_uint) (g : list Z) : bool := true.
Definition main_accept : option (accept_result * CTxMemPool * gset sigdata) :=
  accept false verify_all 1 first_entry 0 1400000000 false main_disk [] (mkPool ∅ ∅ 0) main_tx true ∅.
Definition got_in (r : option (accept_result * CTxMemPool * gset sigdata)) : bool := match r with Some (Accepted, _, _) => true | _ => false end.
Definition left_by (r : option (accept_result * CTxMemPool * gset sigdata)) : CTxMemPool * gset sigdata :=
  match r with Some (_, M, c) => (M, c) | None => (mkPool ∅ ∅ 0, ∅) end.
Lemma got_in_left r : got_in r = true → r = Some (Accepted, (left_by r).1, (left_by r).2).
Proof. by destruct r as [[[[] ?] ?]|]. Qed.

