(* ===== verification/Block.v ===== *)
(** * Blocks (src/main.h, src/main.cpp)

    [CBlock] with its serialization, the merkle tree over its transactions and
    the branches that prove membership, and the context-free checks of
    [CheckBlock].  The scrypt hash of the header is a parameter. *)

From stdpp Require Import base list numbers option gmap.
From Stdlib Require Import ZArith Lia.
From S2P Require Import Prelude Uint256 Bignum Serialize Tx Script Interp SigCheck Chain Utxo ScriptStd Mempool.

Open Scope Z_scope.

(** ** Data *)

Record CBlock := mkBlock {
  blk_nVersion : Z;
  hashPrevBlock : base_uint;
  hashMerkleRoot : base_uint;
  blk_nTime : Z;
  blk_nBits : Z;
  nNonce : Z;
  vtx : list CTransaction;
  vchBlockSig : list Z
}.

(** The header, which is also the memory [scrypt_blockhash] reads *)
Definition ser_header (b : CBlock) : list Z :=
  write_int 4 (blk_nVersion b) ++ bu_Serialize (hashPrevBlock b) ++ bu_Serialize (hashMerkleRoot b) ++
  write_int 4 (blk_nTime b) ++ write_int 4 (blk_nBits b) ++ write_int 4 (nNonce b).

#[export] Instance CBlock_codec : Codec CBlock := {
  Serialize b := ser_header b ++ ser_vector (vtx b) ++ Serialize (vchBlockSig b);
  Unserialize s :=
    '(v, s) ← read_int32 s; '(p, s) ← bu_Unserialize W256 s; '(m, s) ← bu_Unserialize W256 s;
    '(t, s) ← read_uint 4 s; '(n, s) ← read_uint 4 s; '(c, s) ← read_uint 4 s;
    '(x, s) ← unser_vector s; '(g, s) ← Unserialize s; Some (mkBlock v p m t n c x g, s);
  GetSerializeSize b := u32 (u32 (80 + size_vector (vtx b)) + GetSerializeSize (vchBlockSig b))
}.

Definition blk_GetBlockTime (b : CBlock) : Z := blk_nTime b.

Definition blk_IsProofOfStake (b : CBlock) : bool :=
  (1 <? length (vtx b))%nat && match vtx b with _ :: t :: _ => IsCoinStake t | _ => false end.
Definition blk_IsProofOfWork (b : CBlock) : bool := negb (blk_IsProofOfStake b).

Definition GetMaxTransactionTime (b : CBlock) : Z := fold_left (λ m tx, Z.max m (nTime tx)) (vtx b) 0.

(** ** The merkle tree *)

Section Merkle.
Context {DG : Digests}.

(** [Hash(p1begin, p1end, p2begin, p2end)] of two hashes *)
Definition Hash2 (a b : base_uint) : base_uint := Hash (getBytes a ++ getBytes b).

(** One level: [for (int i = 0; i < nSize; i += 2)] *)
Definition merkle_level (j nSize : nat) (vMerkleTree : list base_uint) : list base_uint :=
  for_loop ((nSize + 1) / 2) (λ k vMerkleTree,
    let i := (2 * k)%nat in
    let i2 := Nat.min (i + 1) (nSize - 1) in
    vMerkleTree ++ [Hash2 (nth (j + i) vMerkleTree uint256_zero) (nth (j + i2) vMerkleTree uint256_zero)]) vMerkleTree.

Fixpoint merkle_loop (fuel j nSize : nat) (vMerkleTree : list base_uint) : list base_uint :=
  match fuel with
  | O => vMerkleTree
  | S fuel =>
      if (1 <? nSize)%nat then merkle_loop fuel (j + nSize) ((nSize + 1) / 2) (merkle_level j nSize vMerkleTree)
      else vMerkleTree
  end.

(** The tree and the root; [(nSize + 1) / 2 < nSize], so the number of
    transactions bounds the number of levels. *)
Definition BuildMerkleTree (vtx : list CTransaction) : list base_uint * base_uint :=
  let vMerkleTree := merkle_loop (length vtx) 0 (length vtx) (map GetHash vtx) in
  (vMerkleTree, match vMerkleTree with [] => bu_of_u64 W256 0 | _ => List.last vMerkleTree uint256_zero end).

Fixpoint branch_loop (fuel : nat) (vMerkleTree : list base_uint) (j nSize : nat) (nIndex : Z) : list base_uint :=
  match fuel with
  | O => []
  | S fuel =>
      if (1 <? nSize)%nat then
        let i := Z.min (Z.lxor nIndex 1) (Z.of_nat nSize - 1) in
        nth (j + Z.to_nat i) vMerkleTree uint256_zero ::
          branch_loop fuel vMerkleTree (j + nSize) ((nSize + 1) / 2) (Z.shiftr nIndex 1)
      else []
  end.

(** [vMerkleTree] is the tree kept in memory, built when it is empty. *)
Definition GetMerkleBranch (vtx : list CTransaction) (vMerkleTree : list base_uint) (nIndex : Z) : list base_uint :=
  let vMerkleTree := match vMerkleTree with [] => (BuildMerkleTree vtx).1 | _ => vMerkleTree end in
  branch_loop (length vtx) vMerkleTree 0 (length vtx) nIndex.

Fixpoint check_branch (hash : base_uint) (vMerkleBranch : list base_uint) (nIndex : Z) : base_uint :=
  match vMerkleBranch with
  | [] => hash
  | otherside :: vMerkleBranch =>
      check_branch (if negb (Z.land nIndex 1 =? 0) then Hash2 otherside hash else Hash2 hash otherside)
        vMerkleBranch (Z.shiftr nIndex 1)
  end.
Definition CheckMerkleBranch (hash : base_uint) (vMerkleBranch : list base_uint) (nIndex : Z) : base_uint :=
  if nIndex =? -1 then bu_of_u64 W256 0 else check_branch hash vMerkleBranch nIndex.
End Merkle.

(** ** [CheckBlock] *)

Section CheckBlock.
Context {BN : OpenSSL_BN} {DG : Digests} (fTestNet : bool).
(** [scrypt_blockhash] of the header *)
Variable scrypt_blockhash : list Z → base_uint.
Variable Verify : list Z → base_uint → list Z → bool.
(** [GetAdjustedTime()] *)
Variable adjustedTime : Z.

Definition blk_GetHash (b : CBlock) : base_uint := scrypt_blockhash (ser_header b).

Definition CheckBlockSignature (b : CBlock) : bool :=
  if bool_decide (vchBlockSig b = []) then false
  else
    let script := scriptPubKey (nth 1 (vout (nth 1 (vtx b) (mkTx 0 0 [] [] 0))) CTxOut_SetNull) in
    let '(ok, whichType, vSolutions) := Solver script in
    if negb ok then false
    else if bool_decide (whichType = TX_PUBKEY) then
      let key := CPubKey_Set (nth 0 vSolutions []) in
      if negb (CPubKey_IsValid key) then false else Verify key (blk_GetHash b) (vchBlockSig b)
    else false.

(** The loop over the remaining transactions: [inl] is the DoS score of a
    refusal, [inr] the set of hashes and the number of signature operations *)
Fixpoint check_txs (nBlockTime : Z) (txs : list CTransaction) (uniqueTx : gset base_uint) (nSigOps : Z)
    : Z + gset base_uint * Z :=
  match txs with
  | [] => inr (uniqueTx, nSigOps)
  | tx :: txs =>
      if IsCoinBase tx then inl 100
      else if IsCoinStake tx then inl 100
      else if nBlockTime <? nTime tx then inl 50
      else if negb (CheckTransaction tx).1 then inl (CheckTransaction tx).2
      else check_txs nBlockTime txs ({[GetHash tx]} ∪ uniqueTx) (u32 (nSigOps + GetLegacySigOpCount tx))
  end.

(** What [CheckBlock] does after the first transactions *)
Definition check_rest (b : CBlock) (fCheckMerkleRoot : bool) (txs : list CTransaction) (uniqueTx : gset base_uint) (nSigOps : Z)
    : bool * Z :=
  match check_txs (blk_GetBlockTime b) txs uniqueTx nSigOps with
  | inl nDoS => (false, nDoS)
  | inr (uniqueTx, nSigOps) =>
      if negb (size uniqueTx =? length (vtx b))%nat then (false, 100)
      else if nSigOps >? MAX_BLOCK_SIGOPS then (false, 100)
      else if fCheckMerkleRoot && bu_ne (hashMerkleRoot b) (BuildMerkleTree (vtx b)).2 then (false, 100)
      else (true, 0)
  end.

(** The verdict with the DoS score *)
Definition CheckBlock (b : CBlock) (fCheckPOW fCheckMerkleRoot fCheckSig : bool) : bool * Z :=
  match vtx b with
  | [] => (false, 100)
  | tx0 :: txs =>
      if (MAX_BLOCK_SIZE <? Z.of_nat (length (vtx b))) || (GetSerializeSize b >? MAX_BLOCK_SIZE) then (false, 100)
      else if negb (IsCoinBase tx0) then (false, 100)
      else if negb (CheckTransaction tx0).1 then (false, (CheckTransaction tx0).2)
      else
        let uniqueTx := {[GetHash tx0]} in
        let nSigOps := u32 (0 + GetLegacySigOpCount tx0) in
        match blk_IsProofOfStake b, txs with
        | true, tx1 :: txs =>
            if negb (nNonce b =? 0) then (false, 100)
            else if negb ((length (vout tx0) =? 1)%nat && match vout tx0 with o :: _ => CTxOut_IsEmpty o | [] => false end)
            then (false, 100)
            else if negb (blk_GetBlockTime b =? nTime tx1) then (false, 50)
            else if fCheckSig && negb (CheckBlockSignature b) then (false, 100)
            else if negb (CheckTransaction tx1).1 then (false, (CheckTransaction tx1).2)
            else check_rest b fCheckMerkleRoot txs ({[GetHash tx1]} ∪ uniqueTx) (u32 (nSigOps + GetLegacySigOpCount tx1))
        | _, _ =>
            if fCheckPOW && negb (CheckProofOfWork fTestNet (blk_GetHash b) (blk_nBits b)) then (false, 50)
            else if blk_GetBlockTime b >? FutureDrift adjustedTime then (false, 0)
            else if blk_GetBlockTime b <? PastDrift (nTime tx0) then (false, 50)
            else check_rest b fCheckMerkleRoot txs uniqueTx nSigOps
        end
  end.
End CheckBlock.

(** ** The tree level by level *)

Section merkle_facts.
Context {DG : Digests}.

(** The hashes above a level: the last one of an odd number is paired with itself. *)
Fixpoint pair_up (l : list base_uint) : list base_uint :=
  match l with
  | a :: b :: l => Hash2 a b :: pair_up l
  | [a] => [Hash2 a a]
  | [] => []
  end.

Lemma list_ind2 {A} (P : list A → Prop) : P [] → (∀ a, P [a]) → (∀ a b l, P l → P (a :: b :: l)) → ∀ l, P l.
Proof.
  intros H0 H1 H2. fix IH 1. intros [|a [|b l]]; [exact H0|exact (H1 a)|]. apply H2, IH.
Qed.

Lemma length_pair_up l : length (pair_up l) = ((length l + 1) / 2)%nat.
Proof.
  induction l as [|a|a b l IH] using list_ind2; [done|done|]. cbn [pair_up length]. rewrite IH.
  replace (S (S (length l)) + 1)%nat with (length l + 1 + 1 * 2)%nat by lia. rewrite Nat.div_add by lia. lia.
Qed.

Lemma nth_pair_up l k : (2 * k < length l)%nat →
  nth k (pair_up l) uint256_zero =
  Hash2 (nth (2 * k) l uint256_zero) (nth (Nat.min (2 * k + 1) (length l - 1)) l uint256_zero).
Proof.
  revert k. induction l as [|a|a b l IH] using list_ind2; intros k Hk; cbn [length] in Hk; [lia| |].
  - replace k with 0%nat by lia. done.
  - destruct k as [|k].
    + cbn [pair_up nth length Nat.mul]. replace (Nat.min (0 + 1) (S (S (length l)) - 1)) with 1%nat by lia. done.
    + cbn [pair_up nth]. rewrite IH by lia. cbn [length].
      replace (2 * S k)%nat with (S (S (2 * k))) by lia.
      replace (Nat.min (S (S (2 * k)) + 1) (S (S (length l)) - 1)) with (S (S (Nat.min (2 * k + 1) (length l - 1)))) by lia. done.
Qed.

Lemma merkle_level_ok j tree l : (j <= length tree)%nat → drop j tree = l → merkle_level j (length l) tree = tree ++ pair_up l.
Proof.
  intros Hj Hl. unfold merkle_level. rewrite <- (length_pair_up l).
  assert (Hlen : length tree = (j + length l)%nat) by (rewrite <- Hl, length_drop; lia).
  assert (Hnth : ∀ more i, (i < length l)%nat → nth (j + i) (tree ++ more) uint256_zero = nth i l uint256_zero).
  { intros more i Hi. rewrite app_nth1 by lia. rewrite <- Hl. rewrite nth_skipn. done. }
  set (body := λ k t, _). rewrite <- (take_ge (pair_up l) (length (pair_up l))) at 2 by done.
  apply (for_loop_ind (λ k t, t = tree ++ take k (pair_up l)) (length (pair_up l)) body tree).
  - by rewrite app_nil_r.
  - intros k t Hk ->. unfold body. assert (2 * k < length l)%nat.
    { rewrite length_pair_up in Hk. assert (H := Nat.div_mod (length l + 1) 2 ltac:(lia)).
      assert (Hm := Nat.mod_upper_bound (length l + 1) 2 ltac:(lia)). lia. }
    rewrite !Hnth by lia. rewrite <- nth_pair_up by done. rewrite <- app_assoc. f_equal.
    rewrite (take_S_r _ _ (nth k (pair_up l) uint256_zero)); [done|].
    destruct (lookup_lt_is_Some_2 (pair_up l) k Hk) as [x Hx]. by rewrite nth_lookup, Hx.
Qed.

(** All levels above [l], and the root *)
Fixpoint levels (fuel : nat) (l : list base_uint) : list base_uint :=
  match fuel with
  | O => []
  | S fuel => if (1 <? length l)%nat then pair_up l ++ levels fuel (pair_up l) else []
  end.
Fixpoint root (fuel : nat) (l : list base_uint) : base_uint :=
  match fuel with
  | O => List.last l uint256_zero
  | S fuel => if (1 <? length l)%nat then root fuel (pair_up l) else List.last l uint256_zero
  end.

Lemma pair_up_shorter l : (1 < length l)%nat → (1 <= length (pair_up l) < length l)%nat.
Proof.
  intros Hl. rewrite length_pair_up. assert (H := Nat.div_mod (length l + 1) 2 ltac:(lia)).
  assert (Hm := Nat.mod_upper_bound (length l + 1) 2 ltac:(lia)). lia.
Qed.

Lemma merkle_loop_ok fuel j tree l : (j <= length tree)%nat → drop j tree = l →
  merkle_loop fuel j (length l) tree = tree ++ levels fuel l.
Proof.
  revert j tree l. induction fuel as [|fuel IH]; intros j tree l Hj Hl; cbn [merkle_loop levels]; [by rewrite app_nil_r|].
  destruct (1 <? length l)%nat; [|by rewrite app_nil_r]. rewrite (merkle_level_ok j tree l) by done. rewrite <- length_pair_up.
  assert (Hlen : (j + length l)%nat = length tree) by (rewrite <- Hl, length_drop; lia).
  rewrite IH; [by rewrite <- app_assoc| |]; rewrite Hlen, ?length_app; [lia|]. rewrite drop_app_length. done.
Qed.

Lemma last_levels fuel l : (length l <= fuel)%nat → l ≠ [] → List.last (l ++ levels fuel l) uint256_zero = root fuel l.
Proof.
  revert l. induction fuel as [|fuel IH]; intros l Hf Hne; cbn [levels root]; [by rewrite app_nil_r|].
  destruct (Nat.ltb_spec 1 (length l)); [|by rewrite app_nil_r]. apply pair_up_shorter in H as Hs.
  assert (pair_up l ≠ []) as Hp by (intros E; rewrite E in Hs; cbn in Hs; lia). rewrite <- IH by (done || lia).
  destruct (exists_last (l := pair_up l ++ levels fuel (pair_up l))) as (t & x & ->).
  { intros [E _]%app_nil. done. }
  by rewrite app_assoc, !last_last.
Qed.

Lemma BuildMerkleTree_ok v : v ≠ [] →
  BuildMerkleTree v = (map GetHash v ++ levels (length v) (map GetHash v), root (length v) (map GetHash v)).
Proof.
  intros Hv. unfold BuildMerkleTree. assert (E := merkle_loop_ok (length v) 0 (map GetHash v) (map GetHash v) ltac:(lia) eq_refl).
  rewrite length_map in E. rewrite E. f_equal. rewrite <- last_levels by (rewrite ?length_map; done || by destruct v).
  by destruct v.
Qed.

(** ** Branches *)

Lemma lxor_even q : 0 <= q → Z.lxor (2 * q) 1 = 2 * q + 1 ∧ Z.lxor (2 * q + 1) 1 = 2 * q.
Proof.
  intros Hq. assert (E : 2 * q + 1 = Z.lxor (2 * q) 1).
  { apply Z.add_nocarry_lxor. change 1 with (Z.ones 1). rewrite Z.land_ones by lia. rewrite Z.mul_comm. apply Z.mod_mul. lia. }
  split; [done|]. rewrite E, Z.lxor_assoc, Z.lxor_nilpotent. apply Z.lxor_0_r.
Qed.

Lemma index_cases (n : Z) : 0 <= n → ∃ q b, 0 <= q ∧ (b = 0 ∨ b = 1) ∧ n = 2 * q + b ∧ Z.shiftr n 1 = q ∧ Z.land n 1 = b.
Proof.
  intros Hn. exists (n / 2), (n mod 2). assert (H := Z.div_mod n 2 ltac:(lia)). assert (Hm := Z.mod_pos_bound n 2 ltac:(lia)).
  split; [lia|]. split; [lia|]. split; [done|]. split; [by rewrite Z.shiftr_div_pow2|].
  change 1 with (Z.ones 1). by rewrite Z.land_ones.
Qed.

Lemma branch_ok fuel tree j l n : (length l <= fuel)%nat → (j <= length tree)%nat → drop j tree = l ++ levels fuel l →
  0 <= n < Z.of_nat (length l) →
  check_branch (nth (Z.to_nat n) l uint256_zero) (branch_loop fuel tree j (length l) n) n = root fuel l.
Proof.
  revert j l n. induction fuel as [|fuel IH]; intros j l n Hf Hj Hd Hn; [lia|]. cbn [branch_loop root]. cbn [levels] in Hd.
  destruct (Nat.ltb_spec 1 (length l)) as [Hl|Hl].
  2: { cbn [check_branch]. destruct l as [|x [|]]; cbn [length] in Hl, Hn; [lia| |lia]. by replace (Z.to_nat n) with 0%nat by lia. }
  apply pair_up_shorter in Hl as Hs. destruct (index_cases n) as (q & b & Hq & Hb & En & Esh & Eb); [lia|].
  cbn [check_branch]. rewrite Esh, Eb.
  assert (Hnth : ∀ i, 0 <= i < Z.of_nat (length l) → nth (j + Z.to_nat i) tree uint256_zero = nth (Z.to_nat i) l uint256_zero).
  { intros i Hi. assert (E : nth (Z.to_nat i) (drop j tree) uint256_zero = nth (j + Z.to_nat i) tree uint256_zero) by apply nth_skipn.
    rewrite <- E, Hd, app_nth1 by lia. done. }
  assert (Hpar : (if negb (b =? 0) then Hash2 (nth (j + Z.to_nat (Z.min (Z.lxor n 1) (Z.of_nat (length l) - 1))) tree uint256_zero)
      (nth (Z.to_nat n) l uint256_zero) else Hash2 (nth (Z.to_nat n) l uint256_zero)
      (nth (j + Z.to_nat (Z.min (Z.lxor n 1) (Z.of_nat (length l) - 1))) tree uint256_zero)) = nth (Z.to_nat q) (pair_up l) uint256_zero).
  { rewrite nth_pair_up by lia. destruct (lxor_even q Hq) as [X1 X2]. destruct Hb as [-> | ->]; cbn [negb Z.eqb].
    - rewrite En, Z.add_0_r, X1, Hnth by lia. f_equal; f_equal; lia.
    - rewrite En, X2, Hnth by lia. f_equal; f_equal; lia. }
  rewrite Hpar. rewrite <- length_pair_up. assert (Hlj : (j + length l <= length tree)%nat).
  { apply (f_equal length) in Hd. rewrite length_drop, !length_app in Hd. lia. }
  apply IH; [lia|done| |].
  - rewrite <- drop_drop, Hd. by rewrite drop_app_length.
  - rewrite length_pair_up. assert (H := Nat.div_mod (length l + 1) 2 ltac:(lia)).
    assert (Hm := Nat.mod_upper_bound (length l + 1) 2 ltac:(lia)). lia.
Qed.

(** The root does not depend on spare fuel. *)
Lemma root_fuel f1 f2 l : (length l <= f1)%nat → (length l <= f2)%nat → root f1 l = root f2 l.
Proof.
  revert f2 l. induction f1 as [|f1 IH]; intros f2 l H1 H2.
  - destruct l; [|cbn in H1; lia]. destruct f2; done.
  - destruct f2 as [|f2]; [destruct l; [done|cbn in H2; lia]|]. cbn [root]. destruct (Nat.ltb_spec 1 (length l)) as [Hl|]; [|done].
    apply pair_up_shorter in Hl. apply IH; lia.
Qed.

(** An odd level looks like the level with its last element repeated. *)
Lemma pair_up_repeat l k : length l = (2 * k + 1)%nat → pair_up (l ++ [List.last l uint256_zero]) = pair_up l.
Proof.
  revert k. induction l as [|a|a b l IH] using list_ind2; intros k Hk; [cbn in Hk; lia|done|].
  cbn [length] in Hk. destruct k as [|k]; [lia|]. assert (Hl : l ≠ []) by (intros ->; cbn in Hk; lia).
  assert (E : List.last (a :: b :: l) uint256_zero = List.last l uint256_zero) by (by destruct l).
  rewrite E. cbn [app pair_up]. f_equal. apply (IH k). lia.
Qed.

(** ** What the root commits to *)

Definition collision : Prop := ∃ x y : list Z, x ≠ y ∧ Hash x = Hash y.

Lemma Hash2_inj a b c d : wf W256 a → wf W256 b → wf W256 c → wf W256 d → Hash2 a b = Hash2 c d → (a = c ∧ b = d) ∨ collision.
Proof.
  intros Ha Hb Hc Hd E. destruct (decide (getBytes a ++ getBytes b = getBytes c ++ getBytes d)) as [Eb|Hne].
  - left. destruct (getBytes_ok W256 a Ha) as (_ & La & _ & Ia), (getBytes_ok W256 b Hb) as (_ & Lb & _ & Ib),
      (getBytes_ok W256 c Hc) as (_ & Lc & _ & Ic), (getBytes_ok W256 d Hd) as (_ & Ld & _ & Id).
    apply app_inj_1 in Eb as [E1 E2]; [|by rewrite La, Lc]. split; congruence.
  - right. by exists (getBytes a ++ getBytes b), (getBytes c ++ getBytes d).
Qed.

Context {DGok : DigestsOk}.

Lemma pair_up_wf l : Forall (wf W256) (pair_up l).
Proof. induction l as [|a|a b l IH] using list_ind2; cbn [pair_up]; repeat constructor; try apply Hash_wf. done. Qed.

Lemma pair_up_inj l1 l2 : Forall (wf W256) l1 → Forall (wf W256) l2 → length l1 = length l2 → pair_up l1 = pair_up l2 →
  l1 = l2 ∨ collision.
Proof.
  revert l2. induction l1 as [|a|a b l1 IH] using list_ind2; intros [|c [|d l2]] H1 H2 Hl E; try (cbn in Hl; lia); [by left| |].
  - apply Forall_cons in H1 as [Ha _], H2 as [Hc _]. injection E as E. destruct (Hash2_inj a a c c) as [[-> _]|]; auto.
  - apply Forall_cons in H1 as [Ha H1], H2 as [Hc H2]. apply Forall_cons in H1 as [Hb H1], H2 as [Hd H2]. injection Hl as Hl.
    cbn [pair_up] in E. injection E as E1 E2. destruct (Hash2_inj a b c d) as [[-> ->]|]; auto.
    destruct (IH l2) as [->|]; auto.
Qed.

Lemma root_inj fuel l1 l2 : (length l1 <= fuel)%nat → l1 ≠ [] → Forall (wf W256) l1 → Forall (wf W256) l2 → length l1 = length l2 →
  root fuel l1 = root fuel l2 → l1 = l2 ∨ collision.
Proof.
  revert l1 l2. induction fuel as [|fuel IH]; intros l1 l2 Hf Hne H1 H2 Hl E; [destruct l1; cbn in Hf; [done|lia]|].
  cbn [root] in E. rewrite <- Hl in E. destruct (Nat.ltb_spec 1 (length l1)) as [Hlt|Hge].
  - apply pair_up_shorter in Hlt as Hs. apply IH in E; [| |intros E'; rewrite E' in Hs; cbn in Hs; lia|apply pair_up_wf..|]; [|lia|].
    + destruct E as [E|]; [|auto]. by apply pair_up_inj.
    + rewrite !length_pair_up. by rewrite Hl.
  - destruct l1 as [|x [|]]; [done| |cbn in Hge; lia]. destruct l2 as [|y [|]]; try done. cbn in E. left. by f_equal.
Qed.
End merkle_facts.

(** ** The codec keeps its promise *)

Record block_ok (b : CBlock) : Prop := {
  blk_version_ok : - 2 ^ 31 <= blk_nVersion b < 2 ^ 31;
  blk_prev_ok : wf W256 (hashPrevBlock b);
  blk_root_ok : wf W256 (hashMerkleRoot b);
  blk_time_ok : 0 <= blk_nTime b < 2 ^ 32;
  blk_bits_ok : 0 <= blk_nBits b < 2 ^ 32;
  blk_nonce_ok : 0 <= nNonce b < 2 ^ 32;
  blk_vtx_ok : vector_ok tx_ok (vtx b);
  blk_sig_ok : Z.of_nat (length (vchBlockSig b)) <= MAX_SIZE
}.

Lemma length_ser_header b : block_ok b → length (ser_header b) = 80%nat.
Proof.
  intros [_ Hp Hm _ _ _ _ _]. unfold ser_header, bu_Serialize. rewrite !length_app, !length_write_int.
  destruct (getBytes_ok W256 _ Hp) as (_ & -> & _), (getBytes_ok W256 _ Hm) as (_ & -> & _). done.
Qed.

#[export] Instance CBlock_codec_ok : CodecOk CBlock block_ok.
Proof.
  split.
  - intros [v p m t n c x g] rest [Hv Hp Hm Ht Hn Hc Hx Hg].
    cbn [blk_nVersion hashPrevBlock hashMerkleRoot blk_nTime blk_nBits nNonce vtx vchBlockSig] in *.
    change (Serialize (mkBlock v p m t n c x g)) with
      ((write_int 4 v ++ bu_Serialize p ++ bu_Serialize m ++ write_int 4 t ++ write_int 4 n ++ write_int 4 c) ++
       ser_vector x ++ Serialize g).
    cbn [Unserialize CBlock_codec]. rewrite <- !app_assoc, read_int32_write by lia. cbn [mbind option_bind].
    rewrite !(bu_Unserialize_ok W256) by done. cbn [mbind option_bind]. rewrite !(bu_Unserialize_ok W256) by done. cbn [mbind option_bind].
    do 3 (rewrite read_uint_write by (cbn; lia); cbn [mbind option_bind]).
    rewrite (unser_vector_ok tx_ok) by done. cbn [mbind option_bind]. rewrite codec_roundtrip by done. done.
  - intros b Hb. assert (Hh := length_ser_header b Hb). destruct Hb as [_ _ _ _ _ _ Hx Hg].
    change (Serialize b) with (ser_header b ++ ser_vector (vtx b) ++ Serialize (vchBlockSig b)).
    change (GetSerializeSize b) with (u32 (u32 (80 + size_vector (vtx b)) + GetSerializeSize (vchBlockSig b))).
    rewrite (size_vector_ok tx_ok), codec_size by done. rewrite !length_app, Hh, !Nat2Z.inj_add. clear. mlia.
Qed.

(** ** [CheckBlock] *)

Lemma size_list_to_set_le (l : list base_uint) : (size (list_to_set l : gset base_uint) <= length l)%nat.
Proof.
  induction l as [|x l IH]; cbn [list_to_set length]; [by rewrite size_empty|].
  assert (H := size_union_alt ({[x]} : gset base_uint) (list_to_set l)). rewrite size_singleton in H.
  assert (H2 := subseteq_size (list_to_set l ∖ {[x]} : gset base_uint) (list_to_set l) ltac:(set_solver)). lia.
Qed.

(** The set has as many elements as were inserted just when none was repeated. *)
Lemma size_list_to_set_NoDup (l : list base_uint) : size (list_to_set l : gset base_uint) = length l ↔ NoDup l.
Proof.
  split; [|intros H; by apply size_list_to_set].
  induction l as [|x l IH]; cbn [list_to_set length]; [constructor|]. intros H. destruct (decide (x ∈ l)) as [Hin|Hn].
  - rewrite subseteq_union_1_L in H by set_solver. assert (Hle := size_list_to_set_le l). lia.
  - constructor; [done|]. apply IH. rewrite size_union in H by set_solver. rewrite size_singleton in H. lia.
Qed.

Section CheckBlock_facts.
Context {BN : OpenSSL_BN} {DG : Digests}.

(** A transaction after the coinbase and the coinstake *)
Definition ordinary (nBlockTime : Z) (tx : CTransaction) : Prop :=
  IsCoinBase tx = false ∧ IsCoinStake tx = false ∧ nTime tx <= nBlockTime.
Definition sigops (txs : list CTransaction) (n : Z) : Z := fold_left (λ n tx, u32 (n + GetLegacySigOpCount tx)) txs n.
Definition txids (txs : list CTransaction) : gset base_uint := list_to_set (map GetHash txs).

Lemma check_txs_ok nBlockTime txs U n U' n' : check_txs nBlockTime txs U n = inr (U', n') ↔
  Forall (ordinary nBlockTime) txs ∧ Forall (λ tx, (CheckTransaction tx).1 = true) txs ∧ U' = txids txs ∪ U ∧ n' = sigops txs n.
Proof.
  revert U n. induction txs as [|tx txs IH]; intros U n; cbn [check_txs].
  { unfold txids, sigops. cbn. rewrite (left_id_L ∅ (∪)). split; [intros [= <- <-]; repeat split; constructor|].
    by intros (_ & _ & -> & ->). }
  unfold ordinary. rewrite !Forall_cons. destruct (IsCoinBase tx); [split; [done|naive_solver]|].
  destruct (IsCoinStake tx); [split; [done|naive_solver]|].
  destruct (Z.ltb_spec nBlockTime (nTime tx)); [split; [done|intros ((( _ & _ & ?) & _) & _); lia]|].
  destruct (CheckTransaction tx).1; cbn [negb]; [|split; [done|naive_solver]]. rewrite IH.
  assert (E : txids txs ∪ ({[GetHash tx]} ∪ U) = txids (tx :: txs) ∪ U) by (unfold txids; cbn; set_solver).
  rewrite E. unfold ordinary, sigops. cbn [fold_left]. naive_solver.
Qed.

Lemma guard_pass (c : bool) (d : Z) X : (if c then (false, d) else X).1 = true ↔ c = false ∧ X.1 = true.
Proof. destruct c; cbn; [split; [done|by intros [? _]]|tauto]. Qed.

Lemma check_rest_ok b fMerkle txs U n : (check_rest b fMerkle txs U n).1 = true ↔
  Forall (ordinary (blk_GetBlockTime b)) txs ∧ Forall (λ tx, (CheckTransaction tx).1 = true) txs ∧
  size (txids txs ∪ U) = length (vtx b) ∧ sigops txs n <= MAX_BLOCK_SIGOPS ∧
  (fMerkle = true → bu_ne (hashMerkleRoot b) (BuildMerkleTree (vtx b)).2 = false).
Proof.
  unfold check_rest. destruct (check_txs _ _ _ _) as [nDoS|[U' n']] eqn:E.
  - split; [done|]. intros (H1 & H2 & _). assert (Hc := proj2 (check_txs_ok (blk_GetBlockTime b) txs U n _ _) (conj H1 (conj H2 (conj eq_refl eq_refl)))).
    congruence.
  - apply check_txs_ok in E as (H1 & H2 & -> & ->).
    destruct (Nat.eqb_spec (size (txids txs ∪ U)) (length (vtx b))); cbn [negb]; [|split; [done|naive_solver]].
    rewrite Z.gtb_ltb. destruct (Z.ltb_spec MAX_BLOCK_SIGOPS (sigops txs n)); [split; [done|intros (_ & _ & _ & ? & _); lia]|].
    destruct fMerkle; cbn [andb]; [destruct (bu_ne _ _)|]; naive_solver.
Qed.

Context (net : bool) (scrypt : list Z → base_uint) (Verify : list Z → base_uint → list Z → bool) (now : Z).
Context (b : CBlock) (fPOW fMerkle fSig : bool).
Local Abbreviation time := (blk_GetBlockTime b).

(** The part of the verdict both kinds of blocks share *)
Definition block_common : Prop :=
  Forall (λ tx, (CheckTransaction tx).1 = true) (vtx b) ∧ NoDup (map GetHash (vtx b)) ∧ sigops (vtx b) 0 <= MAX_BLOCK_SIGOPS ∧
  (fMerkle = true → bu_ne (hashMerkleRoot b) (BuildMerkleTree (vtx b)).2 = false).

Lemma check_rest_common first rest U n : vtx b = first ++ rest → U = txids first → n = sigops first 0 →
  Forall (λ tx, (CheckTransaction tx).1 = true) first →
  (check_rest b fMerkle rest U n).1 = true ↔ block_common ∧ Forall (ordinary time) rest.
Proof.
  intros Ev -> -> Hf. rewrite check_rest_ok. unfold block_common.
  assert (EU : txids rest ∪ txids first = list_to_set (map GetHash (vtx b))).
  { rewrite Ev, map_app, list_to_set_app_L. unfold txids. set_solver. }
  assert (ES : sigops rest (sigops first 0) = sigops (vtx b) 0) by (rewrite Ev; unfold sigops; by rewrite fold_left_app).
  assert (EF : Forall (λ tx, (CheckTransaction tx).1 = true) (vtx b) ↔ Forall (λ tx, (CheckTransaction tx).1 = true) rest).
  { rewrite Ev, Forall_app. tauto. }
  rewrite EU, ES, EF. rewrite <- (length_map GetHash (vtx b)) at 1. rewrite size_list_to_set_NoDup. tauto.
Qed.

Lemma guard_flag (f c : bool) : f && negb c = false ↔ (f = true → c = true).
Proof. destruct f, c; cbn; split; auto. intros H. by specialize (H eq_refl). Qed.

Lemma CheckBlock_stake tx0 tx1 rest : vtx b = tx0 :: tx1 :: rest → blk_IsProofOfStake b = true →
  (CheckBlock net scrypt Verify now b fPOW fMerkle fSig).1 = true ↔
  Z.of_nat (length (vtx b)) <= MAX_BLOCK_SIZE ∧ GetSerializeSize b <= MAX_BLOCK_SIZE ∧ IsCoinBase tx0 = true ∧ block_common ∧
  Forall (ordinary time) rest ∧ nNonce b = 0 ∧ (∃ o, vout tx0 = [o] ∧ CTxOut_IsEmpty o = true) ∧ time = nTime tx1 ∧
  (fSig = true → CheckBlockSignature scrypt Verify b = true).
Proof.
  intros Ev Eps. unfold CheckBlock. rewrite Ev, Eps, !guard_pass, orb_false_iff, !negb_false_iff, guard_flag, Z.gtb_ltb, !Z.ltb_ge,
    !Z.eqb_eq.
  assert (Eo : (length (vout tx0) =? 1)%nat && match vout tx0 with o :: _ => CTxOut_IsEmpty o | [] => false end = true ↔
    ∃ o, vout tx0 = [o] ∧ CTxOut_IsEmpty o = true).
  { destruct (vout tx0) as [|o [|]]; cbn; split; try done; [by intros (? & ? & _)|eauto|by intros (? & [= ->] & ?)|by intros (? & ? & _)]. }
  rewrite Eo. clear Eo.
  assert (Hr : (CheckTransaction tx0).1 = true → (CheckTransaction tx1).1 = true →
    ((check_rest b fMerkle rest ({[GetHash tx1]} ∪ {[GetHash tx0]})
      (u32 (u32 (0 + GetLegacySigOpCount tx0) + GetLegacySigOpCount tx1))).1 = true ↔ block_common ∧ Forall (ordinary time) rest)).
  { intros. apply (check_rest_common [tx0; tx1]); [done| |done|by repeat constructor]. unfold txids. cbn. set_solver. }
  split.
  - intros ((H1 & H2) & H3 & H4 & H5 & H6 & H7 & H8 & H9 & H10). apply Hr in H10 as [? ?]; auto 15.
  - intros (H1 & H2 & H3 & H4 & H5 & H6 & H7 & H8 & H9).
    assert (Hc := proj1 H4). rewrite Ev in Hc. apply Forall_cons in Hc as [Hc0 [Hc1 _]%Forall_cons].
    rewrite Hr by done. auto 15.
Qed.

Lemma CheckBlock_work tx0 txs : vtx b = tx0 :: txs → blk_IsProofOfStake b = false →
  (CheckBlock net scrypt Verify now b fPOW fMerkle fSig).1 = true ↔
  Z.of_nat (length (vtx b)) <= MAX_BLOCK_SIZE ∧ GetSerializeSize b <= MAX_BLOCK_SIZE ∧ IsCoinBase tx0 = true ∧ block_common ∧
  Forall (ordinary time) txs ∧ (fPOW = true → CheckProofOfWork net (blk_GetHash scrypt b) (blk_nBits b) = true) ∧
  nTime tx0 - 2 * nOneHour <= time <= now + 2 * nOneHour.
Proof.
  intros Ev Eps. unfold CheckBlock. rewrite Ev, Eps, !guard_pass, orb_false_iff, !negb_false_iff, guard_flag, !Z.gtb_ltb, !Z.ltb_ge.
  unfold FutureDrift, PastDrift.
  assert (Hr : (CheckTransaction tx0).1 = true →
    ((check_rest b fMerkle txs {[GetHash tx0]} (u32 (0 + GetLegacySigOpCount tx0))).1 = true ↔
     block_common ∧ Forall (ordinary time) txs)).
  { intros. apply (check_rest_common [tx0]); [done| |done|by repeat constructor]. unfold txids. cbn. set_solver. }
  split.
  - intros ((H1 & H2) & H3 & H4 & H5 & H6 & H7 & H8). apply Hr in H8 as [? ?]; auto 15.
  - intros (H1 & H2 & H3 & H4 & H5 & H6 & H7 & H8).
    assert (Hc := proj1 H4). rewrite Ev in Hc. apply Forall_cons in Hc as [Hc0 _]. rewrite Hr by done. auto 15.
Qed.
End CheckBlock_facts.

(** ** Properties *)

(** Merkle branches: the branch of any transaction of a block, whether the tree is
    already in memory or not, leads from its hash to the root of the tree. *)
Theorem merkle_branch {DG : Digests} vtx tree n : tree = [] ∨ tree = (BuildMerkleTree vtx).1 → 0 <= n < Z.of_nat (length vtx) →
  CheckMerkleBranch (nth (Z.to_nat n) (map GetHash vtx) uint256_zero) (GetMerkleBranch vtx tree n) n = (BuildMerkleTree vtx).2.
Proof.
  intros Htree Hn. assert (Hv : vtx ≠ []) by (intros ->; cbn in Hn; lia).
  assert (Ht : match tree with [] => (BuildMerkleTree vtx).1 | _ => tree end = map GetHash vtx ++ levels (length vtx) (map GetHash vtx)).
  { rewrite BuildMerkleTree_ok in * by done. cbn [fst] in *. destruct Htree as [->| ->]; [done|]. by destruct (_ ++ _). }
  unfold CheckMerkleBranch, GetMerkleBranch. destruct (Z.eqb_spec n (-1)); [lia|]. rewrite Ht.
  assert (E := branch_ok (length vtx) (map GetHash vtx ++ levels (length vtx) (map GetHash vtx)) 0 (map GetHash vtx) n).
  rewrite length_map in E. rewrite E by (rewrite ?drop_0; done || lia). by rewrite BuildMerkleTree_ok.
Qed.

#[local] Existing Instances sample_digests sample_digests_ok.

Lemma merkle_branch_witness :
  let vtx := [sample_tx; sample_prev; sample_tx] in
  CheckMerkleBranch (nth 2 (map GetHash vtx) uint256_zero) (GetMerkleBranch vtx [] 2) 2 = (BuildMerkleTree vtx).2.
Proof. apply (merkle_branch [sample_tx; sample_prev; sample_tx] [] 2); [by left|cbn; lia]. Defined.

(** What the merkle root commits to: two lists of the same number of transactions
    with the same root have the same hashes, unless double SHA-256 collides.  The
    number matters: repeating the last transaction of an odd list keeps the root,
    which is why [CheckBlock] counts distinct hashes. *)
Theorem merkle_commits {DG : Digests} {DGok : DigestsOk} v1 v2 : v1 ≠ [] → length v1 = length v2 →
  (BuildMerkleTree v1).2 = (BuildMerkleTree v2).2 → map GetHash v1 = map GetHash v2 ∨ collision.
Proof.
  intros Hne Hl. rewrite !BuildMerkleTree_ok by (done || by destruct v1, v2). cbn [snd]. rewrite <- Hl. intros E.
  assert (Hwf : ∀ v, Forall (wf W256) (map GetHash v)).
  { intros v. apply Forall_fmap, Forall_true. intros t. apply Hash_wf. }
  apply (root_inj (length v1)); rewrite ?length_map; try done. by destruct v1.
Qed.

Lemma merkle_commits_witness : map GetHash [sample_tx; sample_prev] = map GetHash [sample_tx; sample_prev] ∨ collision.
Proof. apply (merkle_commits [sample_tx; sample_prev] [sample_tx; sample_prev]); [discriminate|reflexivity|reflexivity]. Defined.

(** The duplication the count of distinct hashes guards against *)
Lemma merkle_repeat {DG : Digests} v k t : length v = (2 * k + 3)%nat → List.last v t = t → v ≠ [] →
  (BuildMerkleTree (v ++ [t])).2 = (BuildMerkleTree v).2.
Proof.
  intros Hl Ht Hv. rewrite !BuildMerkleTree_ok by (done || by destruct v). cbn [snd]. rewrite map_app. cbn [map].
  assert (E : GetHash t = List.last (map GetHash v) uint256_zero).
  { destruct (exists_last Hv) as (w & x & ->). rewrite last_last in Ht. subst x. rewrite map_app. cbn. by rewrite last_last. }
  rewrite E. set (l := map GetHash v) in *. assert (Hll : length l = (2 * k + 3)%nat) by (unfold l; by rewrite length_map).
  rewrite (root_fuel (length (v ++ [t])) (S (S (2 * k + 3)))), (root_fuel (length v) (S (S (2 * k + 3))) l)
    by (rewrite ?length_app; cbn [length]; lia).
  assert (E1 : ∀ m, (1 < length m)%nat → root (S (S (2 * k + 3))) m = root (S (2 * k + 3)) (pair_up m)).
  { intros m Hm. cbn [root]. by rewrite (proj2 (Nat.ltb_lt _ _) Hm). }
  rewrite !E1 by (rewrite ?length_app; cbn [length]; lia). rewrite (pair_up_repeat l (k + 1)) by lia. done.
Qed.

(** C36. [CheckBlock] accepts exactly the blocks within the size limits whose first
    transaction is the only coinbase, in which only the second one may be a
    coinstake, whose transactions are all valid, with distinct hashes, not later
    than the block and within the limit of signature operations, and whose
    merkle root is right if that is checked; a stake block has no nonce, an empty
    coinbase, the time of its coinstake and a valid signature, a work block a
    hash below its target and a time within the drift. *)
Theorem CheckBlock_spec {BN : OpenSSL_BN} {DG : Digests} net scrypt Verify now b fPOW fMerkle fSig :
  let time := blk_GetBlockTime b in
  (CheckBlock net scrypt Verify now b fPOW fMerkle fSig).1 = true ↔
  ∃ tx0 txs, vtx b = tx0 :: txs ∧ Z.of_nat (length (vtx b)) <= MAX_BLOCK_SIZE ∧ GetSerializeSize b <= MAX_BLOCK_SIZE ∧
    IsCoinBase tx0 = true ∧ block_common b fMerkle ∧
    if blk_IsProofOfStake b then
      ∃ tx1 rest, txs = tx1 :: rest ∧ Forall (ordinary time) rest ∧ nNonce b = 0 ∧
        (∃ o, vout tx0 = [o] ∧ CTxOut_IsEmpty o = true) ∧ time = nTime tx1 ∧
        (fSig = true → CheckBlockSignature scrypt Verify b = true)
    else
      Forall (ordinary time) txs ∧ (fPOW = true → CheckProofOfWork net (blk_GetHash scrypt b) (blk_nBits b) = true) ∧
      nTime tx0 - 2 * nOneHour <= time <= now + 2 * nOneHour.
Proof.
  intros time. destruct (vtx b) as [|tx0 txs] eqn:Ev.
  { unfold CheckBlock. rewrite Ev. split; [done|by intros (? & ? & ? & _)]. }
  destruct (blk_IsProofOfStake b) eqn:Eps.
  - destruct txs as [|tx1 rest]; [unfold blk_IsProofOfStake in Eps; by rewrite Ev in Eps|].
    rewrite (CheckBlock_stake _ _ _ _ _ _ _ _ tx0 tx1 rest Ev Eps). fold time. split.
    + intros (H1 & H2 & H3 & H4 & H5 & H6 & H7 & H8 & H9). exists tx0, (tx1 :: rest). rewrite Ev in H1. eauto 20.
    + intros (? & ? & [= <- <-] & H1 & H2 & H3 & H4 & ? & ? & [= <- <-] & H5 & H6 & H7 & H8 & H9). rewrite Ev. auto 20.
  - rewrite (CheckBlock_work _ _ _ _ _ _ _ _ tx0 txs Ev Eps). fold time. split.
    + intros (H1 & H2 & H3 & H4 & H5 & H6 & H7). exists tx0, txs. rewrite Ev in H1. auto 20.
    + intros (? & ? & [= <- <-] & H1 & H2 & H3 & H4 & H5 & H6 & H7). rewrite Ev. auto 20.
Qed.
