(* ===== verification/Decode.v ===== *)
(** * The types of decoded values

    What comes from a peer or from a file is bytes.  Whatever the bytes are, the
    readers of [Serialize], [Tx] and [Block] either refuse them or yield values the
    C++ types can hold, and such a value is written back in no more bytes than were
    read.  The well-formedness conditions [tx_ok] and [block_ok] of the other files
    therefore hold for everything that is received. *)

From stdpp Require Import base list numbers option gmap.
From Stdlib Require Import ZArith Lia.
From S2P Require Import Prelude Uint256 Serialize Tx Block.

Open Scope Z_scope.

Abbreviation bytes := (digits_ok 256).

(** [f] reads values of [ok] that [ser] writes in at most as many bytes. *)
Class Typed {A} (f : list Z → option (A * list Z)) (ok : A → Prop) (ser : A → list Z) : Prop :=
  typed s x r : bytes s → f s = Some (x, r) → ok x ∧ bytes r ∧ (length (ser x) + length r <= length s)%nat.

(** ** Machine integers and compact sizes *)

Lemma read_bytes_inv n s x r : bytes s → read_bytes n s = Some (x, r) → bytes x ∧ bytes r ∧ length x = n ∧ (n + length r = length s)%nat.
Proof.
  unfold read_bytes. intros Hs H. case_bool_decide as Hn; [|done]. injection H as <- <-. rewrite length_take, length_drop.
  split; [by apply Forall_take|]. split; [by apply Forall_drop|]. lia.
Qed.
Lemma read_uint_inv n s x r : bytes s → read_uint n s = Some (x, r) → 0 <= x < 256 ^ Z.of_nat n ∧ bytes r ∧ (n + length r = length s)%nat.
Proof.
  unfold read_uint. intros Hs H. apply bind_Some in H as ([b r'] & H & [= <- <-]). apply read_bytes_inv in H as (Hb & Hr & <- & Hl); [|done].
  split; [by apply dval_bound|done].
Qed.

#[export] Instance typed_uint n : Typed (read_uint n) (λ x, 0 <= x < 256 ^ Z.of_nat n) (write_int n).
Proof. intros s x r Hs H. apply read_uint_inv in H as (? & ? & ?); [|done]. rewrite length_write_int. auto with lia. Qed.
#[export] Instance typed_int32 : Typed read_int32 (λ x, - 2 ^ 31 <= x < 2 ^ 31) (write_int 4).
Proof.
  intros s x r Hs H. unfold read_int32 in H. apply bind_Some in H as ([v r'] & H & [= <- <-]). apply read_uint_inv in H as (_ & ? & ?); [|done].
  rewrite length_write_int. split; [apply i32_range|]. split; [done|lia].
Qed.
#[export] Instance typed_int64 : Typed read_int64 (λ x, - 2 ^ 63 <= x < 2 ^ 63) (write_int 8).
Proof.
  intros s x r Hs H. unfold read_int64 in H. apply bind_Some in H as ([v r'] & H & [= <- <-]). apply read_uint_inv in H as (_ & ? & ?); [|done].
  rewrite length_write_int. split; [apply i64_range|]. split; [done|lia].
Qed.

(** A size is read from at least as many bytes as it takes. *)
#[export] Instance typed_compact : Typed ReadCompactSize (λ n, 0 <= n <= MAX_SIZE) WriteCompactSize.
Proof.
  intros s x r Hs H. unfold ReadCompactSize in H. apply bind_Some in H as ([c s1] & H1 & H). apply bind_Some in H as ([n s2] & H2 & H).
  destruct (Z.gtb_spec n MAX_SIZE) as [|Hle]; [done|]. injection H as <- <-. apply read_uint_inv in H1 as (Hc & Hs1 & L1); [|done].
  assert (Hn : 0 <= n ∧ bytes s2 ∧ (length (WriteCompactSize n) + length s2 <= length s)%nat); [|split; [lia|tauto]].
  assert (Hsz : ∀ k, 0 <= n → GetSizeOfCompactSize n <= Z.of_nat k → (k + length s2 <= length s)%nat → (length (WriteCompactSize n) + length s2 <= length s)%nat).
  { intros k H0 Hk Hl. pose proof (length_WriteCompactSize n H0). lia. }
  revert H2. destruct (Z.ltb_spec c 253) as [Hlt|Hge].
  { intros [= <- <-]. split; [lia|]. split; [done|]. apply (Hsz 1%nat); [lia| |lia]. unfold GetSizeOfCompactSize. by rewrite (proj2 (Z.ltb_lt c 253)). }
  intros H2. assert (Hread : ∃ k, read_uint k s1 = Some (n, s2) ∧ (k = 2 ∨ k = 4 ∨ k = 8)%nat).
  { destruct (c =? 253); [eauto|]. destruct (c =? 254); eauto. }
  destruct Hread as (k & Hk & Hk'). apply read_uint_inv in Hk as (Hn & Hs2 & L2); [|done]. split; [lia|]. split; [done|]. apply (Hsz (1 + k)%nat); [lia| |lia].
  unfold GetSizeOfCompactSize. destruct (n <? 253); [lia|]. destruct (Z.leb_spec n 0xffff); [lia|]. destruct Hk' as [->|[->| ->]]; [cbn in Hn; lia|..].
  - destruct (Z.leb_spec n 0xffffffff); [lia|]. cbn in Hn. lia.
  - destruct (n <=? 0xffffffff); lia.
Qed.

(** ** Composing readers *)

(** Reads the next field in the hypothesis [H : ('(x, s) ← f s; _) = Some _]. *)
Ltac read_field H :=
  let x := fresh "x" in let s := fresh "s" in let H1 := fresh "Hf" in let L := fresh "L" in let Hb := fresh "Hb" in let Hx := fresh "Hx" in
  apply bind_Some in H as ([x s] & H1 & H); apply typed in H1 as (Hx & Hb & L); [|assumption].

#[export] Instance typed_bu W : Typed (bu_Unserialize W) (wf W) bu_Serialize.
Proof.
  intros s x r Hs H. unfold bu_Unserialize in H. case_bool_decide as Hn; [|done]. injection H as <- <-.
  assert (Ht : bytes (take (4 * W) s)) by by apply Forall_take. assert (Hl : length (take (4 * W) s) = (4 * W)%nat) by (rewrite length_take; lia).
  destruct (limbs_of_bytes_ok W _ Ht Hl) as [Hw _]. split; [done|]. split; [by apply Forall_drop|]. assert (Hg := getBytes_ok W _ Hw).
  destruct Hg as (_ & Hg & _). unfold bu_Serialize. rewrite length_drop. change (W + (W + (W + (W + 0))))%nat with (4 * W)%nat. lia.
Qed.

#[export] Instance typed_bytes : Typed unser_bytes (λ v, script_ok v ∧ bytes v) ser_bytes.
Proof.
  intros s x r Hs H. unfold unser_bytes in H. read_field H. apply read_bytes_inv in H as (Hv & Hr & Hl & Hlen); [|done]. split; [|split; [done|]].
  - split; [|done]. unfold script_ok. lia.
  - unfold ser_bytes. rewrite length_app, Hl, Z2Nat.id by lia. lia.
Qed.

Lemma typed_items {T} `{Codec T} (ok : T → Prop) `{!Typed Unserialize ok Serialize} n : ∀ s v r, bytes s → unser_items n s = Some (v, r) →
  Forall ok v ∧ bytes r ∧ length v = n ∧ (length (concat (map Serialize v)) + length r <= length s)%nat.
Proof.
  induction n as [|n IH]; intros s v r Hs; cbn [unser_items]; [by intros [= <- <-]|]. intros H1. read_field H1.
  apply bind_Some in H1 as ([v' s'] & H1 & [= <- <-]). apply IH in H1 as (Hv & Hr & Hl & L'); [|done]. cbn [map concat length]. rewrite length_app.
  split; [by constructor|]. split; [done|]. split; [lia|lia].
Qed.
#[export] Instance typed_vector {T} `{Codec T} (ok : T → Prop) `{!Typed Unserialize ok Serialize} : Typed unser_vector (vector_ok ok) ser_vector.
Proof.
  intros s x r Hs H1. unfold unser_vector in H1. read_field H1. apply (typed_items ok) in H1 as (Hv & Hr & Hl & L'); [|done].
  split; [split; [lia|done]|]. split; [done|]. unfold ser_vector. rewrite length_app, Hl, Z2Nat.id by lia. lia.
Qed.

(** ** Transactions and blocks *)

#[export] Instance typed_outpoint : Typed (Unserialize (T := COutPoint)) outpoint_ok Serialize.
Proof.
  intros s x r Hs H. cbn [Unserialize COutPoint_codec] in H. do 2 read_field H. injection H as <- <-. split; [done|]. split; [done|].
  cbn [Serialize COutPoint_codec op_hash op_n]. rewrite length_app. lia.
Qed.
#[export] Instance typed_script : Typed (Unserialize (T := list Z)) (λ v, script_ok v ∧ bytes v) Serialize := typed_bytes.
Lemma vector_split {A} (P Q : A → Prop) l : vector_ok (λ x, P x ∧ Q x) l → vector_ok P l ∧ Forall Q l.
Proof. intros [Hl H]. apply Forall_and in H as [H1 H2]. by repeat split. Qed.

(** The scripts and the block signature are bytes as well *)
Definition tx_bytes (t : CTransaction) : Prop := Forall (λ i, bytes (scriptSig i)) (vin t) ∧ Forall (λ o, bytes (scriptPubKey o)) (vout t).
Definition block_bytes (b : CBlock) : Prop := Forall tx_bytes (vtx b) ∧ bytes (vchBlockSig b).
#[export] Instance typed_txin : Typed (Unserialize (T := CTxIn)) (λ i, txin_ok i ∧ bytes (scriptSig i)) Serialize.
Proof.
  intros s x r Hs H. cbn [Unserialize CTxIn_codec] in H. do 3 read_field H. injection H as <- <-. split; [split; [split; [done|]; split; [tauto|done]|cbn; tauto]|].
  split; [done|]. cbn [Serialize CTxIn_codec prevout scriptSig nSequence]. rewrite !length_app. lia.
Qed.
#[export] Instance typed_txout : Typed (Unserialize (T := CTxOut)) (λ o, txout_ok o ∧ bytes (scriptPubKey o)) Serialize.
Proof.
  intros s x r Hs H. cbn [Unserialize CTxOut_codec] in H. do 2 read_field H. injection H as <- <-. split; [split; [split; [done|tauto]|cbn; tauto]|]. split; [done|].
  cbn [Serialize CTxOut_codec nValue scriptPubKey]. rewrite !length_app. lia.
Qed.
#[export] Instance typed_tx : Typed (Unserialize (T := CTransaction)) (λ t, tx_ok t ∧ tx_bytes t) Serialize.
Proof.
  intros s x r Hs H. cbn [Unserialize CTransaction_codec] in H. do 5 read_field H. injection H as <- <-.
  apply vector_split in Hx1 as [? ?], Hx2 as [? ?]. split; [split; by split|]. split; [done|].
  cbn [Serialize CTransaction_codec nVersion nTime vin vout nLockTime]. rewrite !length_app. lia.
Qed.
#[export] Instance typed_block : Typed (Unserialize (T := CBlock)) (λ b, block_ok b ∧ block_bytes b) Serialize.
Proof.
  intros s x r Hs H. cbn [Unserialize CBlock_codec] in H. do 8 read_field H. injection H as <- <-.
  apply vector_split in Hx5 as [? ?]. destruct Hx6 as [? ?]. split; [split; by split|]. split; [done|].
  cbn [Serialize CBlock_codec vtx vchBlockSig]. unfold ser_header. cbn [blk_nVersion hashPrevBlock hashMerkleRoot blk_nTime blk_nBits nNonce].
  rewrite !length_app. lia.
Qed.

(** What the network and the disk hold: bytes *)
Definition byte_string (s : list Z) : Prop := Forall (λ c, 0 <= c < 256) s.

(** C26. Types of what is received.  From any bytes, a transaction or a block that is
    read has every field in the range of its C++ type, hashes included, and its scripts
    and the block signature are strings of bytes within the size limit; what is left
    over are bytes again; and the value takes no more bytes when it is written than
    were read, from which it is then read back. *)
Theorem received_types s : byte_string s →
  (∀ tx r, Unserialize s = Some (tx, r) → tx_ok tx ∧ tx_bytes tx ∧ byte_string r ∧ (length (Serialize tx) + length r <= length s)%nat ∧
    Unserialize (Serialize tx ++ r) = Some (tx, r)) ∧
  (∀ b r, Unserialize s = Some (b, r) → block_ok b ∧ block_bytes b ∧ byte_string r ∧ (length (Serialize b) + length r <= length s)%nat ∧
    Unserialize (Serialize b ++ r) = Some (b, r)).
Proof.
  intros Hs. split; intros x r H; apply typed in H as ((Hx & Hy) & Hr & Hl); try exact Hs; (do 4 (split; [done|])); by apply codec_roundtrip.
Qed.

(** A transaction with an input and an output whose counts are written in the long
    form, which takes two bytes more than needed *)
Definition long_form : list Z :=
  write_int 4 1 ++ write_int 4 1400000000 ++ [253; 1; 0] ++ replicate 32 7 ++ write_int 4 0 ++ [2; 81; 81] ++ write_int 4 5 ++
  [1] ++ write_int 8 5000 ++ [1; 81] ++ write_int 4 0.
Lemma received_types_witness : ∃ tx, Unserialize long_form = Some (tx, []) ∧ tx_ok tx ∧ length long_form = (length (Serialize tx) + 2)%nat.
Proof.
  destruct (received_types long_form) as [H _]; [by repeat constructor|].
  eexists. split; [vm_compute; reflexivity|]. split; [|vm_compute; reflexivity].
  eapply (H _ []). vm_compute. reflexivity.
Defined.
