(* ===== verification/Scrypt.v ===== *)
(** * The proof-of-work hash

    [scrypt_blockhash] in its two implementations: the portable one of
    crypto/scrypt/generic/scrypt-generic.cpp and the one with
    128-bit vector instructions of crypto/scrypt/intrin/scrypt-intrin.cpp (the
    definitions that end in [sse2]).  The reference is the scrypt of RFC 7914 with N = 1024, r = 1 and
    p = 1 ([scrypt_spec]), over the Salsa20/8 core written with the quarter-round,
    row-round and column-round of the Salsa20 specification.

    Memory is modelled as the code lays it out: the 128 bytes of PBKDF2 seen as 32
    little-endian words, the scratchpad as one flat array of words (or of
    vectors) whose first contents are arbitrary, written and read at computed
    offsets.  PBKDF2-HMAC-SHA256 is OpenSSL's: a parameter, with the length and
    the range of its output as the only laws. *)
From stdpp Require Import base list numbers option.
From Stdlib Require Import ZArith Lia.
From S2P Require Import Prelude Uint256.
Local Open Scope Z_scope.

(** ** 32-bit words *)

(** [uint32_t] addition, and the shifts that lose what leaves the word *)
Definition add32 (a b : Z) : Z := u32 (a + b).
Definition shl32 (a b : Z) : Z := u32 (Z.shiftl a b).
Definition shr32 (a b : Z) : Z := Z.shiftr a b.
(** The macro [R] of xor_salsa8 *)
Definition R (a b : Z) : Z := Z.lor (shl32 a b) (shr32 a (32 - b)).

(** ** The reference: Salsa20/8 and scrypt *)

(** The rotation of the specification: the word times 2^b, with what passes 2^32
    brought back at the bottom *)
Definition rotl (a b : Z) : Z := (a * 2 ^ b) mod 2 ^ 32 + (a * 2 ^ b) / 2 ^ 32.

Definition quarterround (y0 y1 y2 y3 : Z) : Z * Z * Z * Z :=
  let z1 := Z.lxor y1 (rotl (add32 y0 y3) 7) in
  let z2 := Z.lxor y2 (rotl (add32 z1 y0) 9) in
  let z3 := Z.lxor y3 (rotl (add32 z2 z1) 13) in
  let z0 := Z.lxor y0 (rotl (add32 z3 z2) 18) in
  (z0, z1, z2, z3).

Definition rowround (y : list Z) : list Z :=
  match y with
  | [y0; y1; y2; y3; y4; y5; y6; y7; y8; y9; y10; y11; y12; y13; y14; y15] =>
    let '(z0, z1, z2, z3) := quarterround y0 y1 y2 y3 in
    let '(z5, z6, z7, z4) := quarterround y5 y6 y7 y4 in
    let '(z10, z11, z8, z9) := quarterround y10 y11 y8 y9 in
    let '(z15, z12, z13, z14) := quarterround y15 y12 y13 y14 in
    [z0; z1; z2; z3; z4; z5; z6; z7; z8; z9; z10; z11; z12; z13; z14; z15]
  | _ => y
  end.
(** The matrix of words transposed *)
Definition transpose4 (y : list Z) : list Z := map (λ i, nth ((i mod 4) * 4 + i / 4) y 0) (seq 0 16).
Definition columnround (y : list Z) : list Z := transpose4 (rowround (transpose4 y)).
Definition doubleround (y : list Z) : list Z := rowround (columnround y).
Definition salsa20_8 (y : list Z) : list Z := zip_with add32 y (Nat.iter 4 doubleround y).

(** scryptBlockMix with r = 1 on two blocks of 16 words: X starts as the last
    block and goes through the core after each block is added to it *)
Definition scryptBlockMix (B : list Z) : list Z :=
  let Y0 := salsa20_8 (zip_with Z.lxor (drop 16 B) (take 16 B)) in
  let Y1 := salsa20_8 (zip_with Z.lxor Y0 (drop 16 B)) in
  Y0 ++ Y1.
(** Integerify: the last block as a little-endian number *)
Definition Integerify (X : list Z) : Z := dval (2 ^ 32) (drop 16 X).
(** scryptROMix: V_i is the block after [i] mixes; then N times the block that
    the number picks is added before the next mix *)
Definition scryptROMix (N : nat) (B : list Z) : list Z :=
  let V i := Nat.iter i scryptBlockMix B in
  Nat.iter N (λ X, scryptBlockMix (zip_with Z.lxor X (V (Z.to_nat (Integerify X mod Z.of_nat N))))) (V N).

(** OpenSSL's PKCS5_PBKDF2_HMAC with SHA-256: password, salt, iterations and the
    length of the key that is wanted *)
Class EVP_PBKDF2 := { PKCS5_PBKDF2_HMAC : list Z → list Z → Z → nat → list Z }.
(** What its documentation says of the output: as many bytes as were asked for *)
Class EVP_PBKDF2_ok `{EVP_PBKDF2} : Prop := {
  PBKDF2_length pass salt n len : length (PKCS5_PBKDF2_HMAC pass salt n len) = len;
  PBKDF2_bytes pass salt n len : digits_ok 256 (PKCS5_PBKDF2_HMAC pass salt n len)
}.

(** scrypt (P, S, N = 1024, r = 1, p = 1, dkLen = 32) *)
Definition scrypt_spec `{EVP_PBKDF2} (P S : list Z) : list Z :=
  let B := PKCS5_PBKDF2_HMAC P S 1 128 in
  PKCS5_PBKDF2_HMAC P (getBytes (scryptROMix 1024 (limbs_of_bytes B))) 1 32.

(** ** Arrays *)

(** [memcpy] into an array, and reading [n] elements of one *)
Definition mem_write {A} (V : list A) (off : nat) (data : list A) : list A := take off V ++ data ++ drop (off + length data) V.
Definition mem_read {A} (V : list A) (off n : nat) : list A := take n (drop off V).
(** [f(&X[0], &X[n]); f(&X[n], &X[0]);] where [f] writes its first array, of [n] elements *)
Definition in_place {A} (f : list A → list A → list A) (n : nat) (X : list A) : list A :=
  let X := mem_write X 0 (f (mem_read X 0 n) (mem_read X n n)) in
  mem_write X n (f (mem_read X n n) (mem_read X 0 n)).

(** ** The scratchpad *)
Definition SCRYPT_BUFFER_SIZE : Z := 131072 + 63.
(** [((uintptr_t)(scratchpad) + 63) & ~ (uintptr_t)(63)] *)
Definition scratch_base (scratchpad : Z) : Z := Z.land (scratchpad + 63) (Z.lnot 63).

(** ** scrypt-generic.cpp *)
(** The statements of the loop body of xor_salsa8, in their order: [(d, a, b, s)] is
    [x_d ^= R(x_a + x_b, s)] *)
Definition column_statements : list (nat * nat * nat * Z) :=
  [(4, 0, 12, 7%Z); (9, 5, 1, 7%Z); (14, 10, 6, 7%Z); (3, 15, 11, 7%Z);
   (8, 4, 0, 9%Z); (13, 9, 5, 9%Z); (2, 14, 10, 9%Z); (7, 3, 15, 9%Z);
   (12, 8, 4, 13%Z); (1, 13, 9, 13%Z); (6, 2, 14, 13%Z); (11, 7, 3, 13%Z);
   (0, 12, 8, 18%Z); (5, 1, 13, 18%Z); (10, 6, 2, 18%Z); (15, 11, 7, 18%Z)]%nat.
Definition row_statements : list (nat * nat * nat * Z) :=
  [(1, 0, 3, 7%Z); (6, 5, 4, 7%Z); (11, 10, 9, 7%Z); (12, 15, 14, 7%Z);
   (2, 1, 0, 9%Z); (7, 6, 5, 9%Z); (8, 11, 10, 9%Z); (13, 12, 15, 9%Z);
   (3, 2, 1, 13%Z); (4, 7, 6, 13%Z); (9, 8, 11, 13%Z); (14, 13, 12, 13%Z);
   (0, 3, 2, 18%Z); (5, 4, 7, 18%Z); (10, 9, 8, 18%Z); (15, 14, 13, 18%Z)]%nat.
Definition statement (x : list Z) (st : nat * nat * nat * Z) : list Z :=
  let '(d, a, b, s) := st in
  <[d := Z.lxor (nth d x 0) (R (add32 (nth a x 0) (nth b x 0)) s)]> x.
(** Operate on columns, operate on rows *)
Definition salsa_body (x : list Z) : list Z := foldl statement (foldl statement x column_statements) row_statements.

(** [xor_salsa8]: [B] is updated in place, [Bx] only read; [for (i = 0; i < 8; i += 2)]
    runs four times *)
Definition xor_salsa8 (B Bx : list Z) : list Z :=
  let B := zip_with Z.lxor B Bx in
  zip_with add32 B (Nat.iter 4 salsa_body B).

(** [xor_salsa8(&X[0], &X[16]); xor_salsa8(&X[16], &X[0]);] *)
Definition mix (X : list Z) : list Z := in_place xor_salsa8 16 X.

(** The first loop, over the counters [i] *)
Definition fill_step (st : list Z * list Z) (i : nat) : list Z * list Z :=
  let '(X, V) := st in (mix X, mem_write V (i * 32) X).
(** The second loop: [j] is a [uint16_t] *)
Definition pick_step (V X : list Z) : list Z :=
  let j := (32 * Z.land (nth 16 X 0) 1023) mod 2 ^ 16 in
  mix (zip_with Z.lxor X (mem_read V (Z.to_nat j) 32)).

(** [scrypt_blockhash], with the words [V] that the aligned scratchpad happens to hold *)
Definition scrypt_blockhash `{EVP_PBKDF2} (V : list Z) (input : list Z) : base_uint :=
  let X := limbs_of_bytes (PKCS5_PBKDF2_HMAC input input 1 128) in
  let '(X, V) := foldl fill_step (X, V) (seq 0 1024) in
  let X := Nat.iter 1024 (pick_step V) X in
  limbs_of_bytes (PKCS5_PBKDF2_HMAC input (getBytes X) 1 32).

(** ** scrypt-intrin.cpp *)
(** [__m128i]: four lanes of 32 bits, the lowest first *)
Abbreviation m128 := (list Z).
Definition mm_xor (a b : m128) : m128 := zip_with Z.lxor a b.
Definition mm_add_epi32 (a b : m128) : m128 := zip_with add32 a b.
Definition mm_slli_epi32 (a : m128) (n : Z) : m128 := map (λ x, shl32 x n) a.
Definition mm_srli_epi32 (a : m128) (n : Z) : m128 := map (λ x, shr32 x n) a.
(** Lane [i] of the result is the lane that bits [2i] and [2i+1] of the control name *)
Definition mm_shuffle_epi32 (a : m128) (imm : Z) : m128 :=
  map (λ i, nth (Z.to_nat (Z.land (Z.shiftr imm (2 * i)) 3)) a 0) [0; 1; 2; 3].

(** [le32dec] and [le32enc] *)
Definition le32dec (p : list Z) : Z :=
  u32 (u32 (u32 (nth 0 p 0 + shl32 (nth 1 p 0) 8) + shl32 (nth 2 p 0) 16) + shl32 (nth 3 p 0) 24).
Definition le32enc (x : Z) : list Z :=
  [Z.land x 255; Z.land (shr32 x 8) 255; Z.land (shr32 x 16) 255; Z.land (shr32 x 24) 255].

(** The three lines [T = add(a, b); d = xor(d, slli(T, s)); d = xor(d, srli(T, 32 - s));] *)
Definition arx (d a b : m128) (s : Z) : m128 :=
  let T := mm_add_epi32 a b in
  mm_xor (mm_xor d (mm_slli_epi32 T s)) (mm_srli_epi32 T (32 - s)).

Definition salsa_body_sse2 (X : m128 * m128 * m128 * m128) : m128 * m128 * m128 * m128 :=
  let '(X0, X1, X2, X3) := X in
  (* columns *)
  let X1 := arx X1 X0 X3 7 in
  let X2 := arx X2 X1 X0 9 in
  let X3 := arx X3 X2 X1 13 in
  let X0 := arx X0 X3 X2 18 in
  let X1 := mm_shuffle_epi32 X1 0x93 in
  let X2 := mm_shuffle_epi32 X2 0x4E in
  let X3 := mm_shuffle_epi32 X3 0x39 in
  (* rows *)
  let X3 := arx X3 X0 X1 7 in
  let X2 := arx X2 X3 X0 9 in
  let X1 := arx X1 X2 X3 13 in
  let X0 := arx X0 X1 X2 18 in
  let X1 := mm_shuffle_epi32 X1 0x39 in
  let X2 := mm_shuffle_epi32 X2 0x4E in
  let X3 := mm_shuffle_epi32 X3 0x93 in
  (X0, X1, X2, X3).

(** [xor_salsa8_sse2] on arrays of four vectors *)
Definition xor_salsa8_sse2 (B Bx : list m128) : list m128 :=
  let B := zip_with mm_xor B Bx in
  let '(X0, X1, X2, X3) := Nat.iter 4 salsa_body_sse2 (nth 0 B [], nth 1 B [], nth 2 B [], nth 3 B []) in
  zip_with mm_add_epi32 B [X0; X1; X2; X3].

(** [xor_salsa8_sse2(&X.i128[0], &X.i128[4]); xor_salsa8_sse2(&X.i128[4], &X.i128[0]);] *)
Definition mix_sse2 (X : list m128) : list m128 := in_place xor_salsa8_sse2 4 X.

(** The word of [B] that the loops over [k] and [i] pair with [X.u32[n]], [n = k * 16 + i] *)
Definition word_of (n : nat) : nat := (n / 16) * 16 + (n mod 16) * 5 mod 16.
(** The union [X]: 32 words seen as 8 vectors *)
Fixpoint vectors (u32 : list Z) : list m128 :=
  match u32 with
  | a :: b :: c :: d :: t => [a; b; c; d] :: vectors t
  | _ => []
  end.
Definition load (B : list Z) : list m128 :=
  vectors (map (λ n, le32dec (drop (word_of n * 4) B)) (seq 0 32)).
Definition store (X : list m128) (B : list Z) : list Z :=
  foldl (λ B n, mem_write B (word_of n * 4) (le32enc (nth n (concat X) 0))) B (seq 0 32).

Definition fill_step_sse2 (st : list m128 * list m128) (i : nat) : list m128 * list m128 :=
  let '(X, V) := st in (mix_sse2 X, mem_write V (i * 8) X).
(** [j] is a [uint32_t] here *)
Definition pick_step_sse2 (V X : list m128) : list m128 :=
  let j := u32 (8 * Z.land (nth 16 (concat X) 0) 1023) in
  mix_sse2 (zip_with mm_xor X (mem_read V (Z.to_nat j) 8)).

Definition scrypt_blockhash_sse2 `{EVP_PBKDF2} (V : list m128) (input : list Z) : base_uint :=
  let B := PKCS5_PBKDF2_HMAC input input 1 128 in
  let X := load B in
  let '(X, V) := foldl fill_step_sse2 (X, V) (seq 0 1024) in
  let X := Nat.iter 1024 (pick_step_sse2 V) X in
  limbs_of_bytes (PKCS5_PBKDF2_HMAC input (store X B) 1 32).


(** ** The core *)

(** The low bits of [a << s] are zero, the high bits of [a >> (32 - s)] too *)
Lemma rotation_disjoint a s : 0 <= a < 2 ^ 32 → 0 <= s <= 32 → Z.land (shl32 a s) (shr32 a (32 - s)) = 0.
Proof.
  intros Ha Hs. apply Z.bits_inj'. intros n Hn. rewrite Z.land_spec, Z.bits_0. unfold shl32, shr32, u32.
  destruct (Z.lt_ge_cases n s) as [Hlt|Hge].
  - destruct (Z.lt_ge_cases n 32); [|lia]. by rewrite Z.mod_pow2_bits_low, Z.shiftl_spec_low by lia.
  - rewrite Z.shiftr_spec by lia. rewrite (Z.bits_above_log2 a (n + (32 - s))), andb_false_r; [done|lia|].
    destruct (Z.eq_dec a 0) as [->|]; [cbn; lia|]. apply Z.log2_lt_pow2; [lia|]. eapply Z.lt_le_trans; [apply Ha|].
    apply Z.pow_le_mono_r; lia.
Qed.
Lemma R_rotl a s : 0 <= a < 2 ^ 32 → 0 <= s <= 32 → R a s = rotl a s.
Proof.
  intros Ha Hs. unfold R. rewrite <- Z.lxor_lor, <- Z.add_nocarry_lxor by (by apply rotation_disjoint).
  unfold rotl, shl32, shr32, u32. rewrite Z.shiftl_mul_pow2, Z.shiftr_div_pow2 by lia. f_equal.
  replace (2 ^ 32) with (2 ^ (32 - s) * 2 ^ s) by (rewrite <- Z.pow_add_r by lia; f_equal; lia).
  symmetry. apply Z.div_mul_cancel_r; apply Z.pow_nonzero; lia.
Qed.
Lemma add32_range a b : 0 <= add32 a b < 2 ^ 32.
Proof. apply Z.mod_pos_bound. lia. Qed.
Lemma R_add a b s : 0 <= s <= 32 → R (add32 a b) s = rotl (add32 a b) s.
Proof. apply R_rotl, add32_range. Qed.
(** Two exclusive-ors with the halves of a rotation are one with the rotation *)
Lemma xor_halves d a b s : 0 <= s <= 32 →
  Z.lxor (Z.lxor d (shl32 (add32 a b) s)) (shr32 (add32 a b) (32 - s)) = Z.lxor d (rotl (add32 a b) s).
Proof.
  intros Hs. rewrite <- R_add by done. unfold R. rewrite Z.lxor_assoc. f_equal. apply Z.lxor_lor, rotation_disjoint; [apply add32_range|done].
Qed.

Lemma columns_ok x : length x = 16%nat → foldl statement x column_statements = columnround x.
Proof.
  intros Hl. do 16 (destruct x as [|? x]; [done|]). destruct x; [|done]. clear Hl.
  cbv -[Z.lxor R add32 rotl]. rewrite !R_add by lia. done.
Qed.
Lemma rows_ok x : length x = 16%nat → foldl statement x row_statements = rowround x.
Proof.
  intros Hl. do 16 (destruct x as [|? x]; [done|]). destruct x; [|done]. clear Hl.
  cbv -[Z.lxor R add32 rotl]. rewrite !R_add by lia. done.
Qed.

(** The words of the vectors: [X.u32[n]] is the word [5 n mod 16] of its block, so
    that the vectors hold the diagonals of the matrix *)
Definition diagonals (x : list Z) : list m128 := vectors (map (λ n, nth (word_of n) x 0) (seq 0 16)).
Definition quadruple (X : list m128) : m128 * m128 * m128 * m128 := (nth 0 X [], nth 1 X [], nth 2 X [], nth 3 X []).

Ltac split_words x Hl := do 16 (destruct x as [|? x]; [done|]); destruct x; [clear Hl|done].

Lemma salsa_body_ok x : length x = 16%nat → salsa_body x = doubleround x ∧ length (doubleround x) = 16%nat.
Proof.
  intros Hl. assert (length (columnround x) = 16%nat) as Hc by done.
  unfold salsa_body, doubleround. rewrite columns_ok, rows_ok by done. split; [done|].
  revert Hc. generalize (columnround x). intros y Hy. by split_words y Hy.
Qed.

(** The four words of a quarter-round one by one, and a quarter-round in each lane *)
Definition q (n : nat) (y0 y1 y2 y3 : Z) : Z :=
  let '(z0, z1, z2, z3) := quarterround y0 y1 y2 y3 in nth n [z0; z1; z2; z3] 0.
Definition lanes (n : nat) (X0 X1 X2 X3 : m128) : m128 :=
  map (λ i, q n (nth i X0 0) (nth i X1 0) (nth i X2 0) (nth i X3 0)) (seq 0 4).

Ltac split_lanes X Hl := do 4 (destruct X as [|? X]; [done|]); destruct X; [clear Hl|done].

(** The twelve lines of a half of the loop body: what the vectors have become *)
Lemma lanes_ok X0 X1 X2 X3 : length X0 = 4%nat → length X1 = 4%nat → length X2 = 4%nat → length X3 = 4%nat →
  let Y1 := arx X1 X0 X3 7 in let Y2 := arx X2 Y1 X0 9 in let Y3 := arx X3 Y2 Y1 13 in
  arx X0 Y3 Y2 18 = lanes 0 X0 X1 X2 X3 ∧ Y1 = lanes 1 X0 X1 X2 X3 ∧ Y2 = lanes 2 X0 X1 X2 X3 ∧ Y3 = lanes 3 X0 X1 X2 X3.
Proof.
  intros H0 H1 H2 H3. split_lanes X0 H0. split_lanes X1 H1. split_lanes X2 H2. split_lanes X3 H3.
  cbn [arx mm_xor mm_add_epi32 mm_slli_epi32 mm_srli_epi32 zip_with map lanes q quarterround nth seq].
  rewrite !xor_halves by lia. done.
Qed.
Lemma salsa_body_lanes X0 X1 X2 X3 : length X0 = 4%nat → length X1 = 4%nat → length X2 = 4%nat → length X3 = 4%nat →
  let C0 := lanes 0 X0 X1 X2 X3 in
  let C1 := mm_shuffle_epi32 (lanes 1 X0 X1 X2 X3) 0x93 in
  let C2 := mm_shuffle_epi32 (lanes 2 X0 X1 X2 X3) 0x4E in
  let C3 := mm_shuffle_epi32 (lanes 3 X0 X1 X2 X3) 0x39 in
  salsa_body_sse2 (X0, X1, X2, X3) =
    (lanes 0 C0 C3 C2 C1, mm_shuffle_epi32 (lanes 3 C0 C3 C2 C1) 0x39,
     mm_shuffle_epi32 (lanes 2 C0 C3 C2 C1) 0x4E, mm_shuffle_epi32 (lanes 1 C0 C3 C2 C1) 0x93).
Proof.
  intros H0 H1 H2 H3 C0 C1 C2 C3. unfold salsa_body_sse2.
  destruct (lanes_ok X0 X1 X2 X3 H0 H1 H2 H3) as (-> & -> & -> & ->). fold C0 C1 C2 C3.
  by destruct (lanes_ok C0 C3 C2 C1 eq_refl eq_refl eq_refl eq_refl) as (-> & -> & -> & ->).
Qed.
Lemma rowround_q y0 y1 y2 y3 y4 y5 y6 y7 y8 y9 y10 y11 y12 y13 y14 y15 :
  rowround [y0; y1; y2; y3; y4; y5; y6; y7; y8; y9; y10; y11; y12; y13; y14; y15] =
  [q 0 y0 y1 y2 y3; q 1 y0 y1 y2 y3; q 2 y0 y1 y2 y3; q 3 y0 y1 y2 y3;
   q 3 y5 y6 y7 y4; q 0 y5 y6 y7 y4; q 1 y5 y6 y7 y4; q 2 y5 y6 y7 y4;
   q 2 y10 y11 y8 y9; q 3 y10 y11 y8 y9; q 0 y10 y11 y8 y9; q 1 y10 y11 y8 y9;
   q 1 y15 y12 y13 y14; q 2 y15 y12 y13 y14; q 3 y15 y12 y13 y14; q 0 y15 y12 y13 y14].
Proof. done. Qed.
(** One pass of the vector loop: a column round between the diagonals, the
    shuffles, and a row round *)
Lemma salsa_body_sse2_ok x : length x = 16%nat → salsa_body_sse2 (quadruple (diagonals x)) = quadruple (diagonals (doubleround x)).
Proof.
  intros Hl. split_words x Hl. unfold doubleround, columnround, transpose4 at 2. cbn [map seq nth Nat.div Nat.modulo Nat.divmod Nat.mul Nat.add fst snd Nat.sub].
  rewrite rowround_q. unfold transpose4. cbn [map seq nth Nat.div Nat.modulo Nat.divmod Nat.mul Nat.add fst snd Nat.sub]. rewrite rowround_q.
  unfold quadruple at 1. rewrite salsa_body_lanes by done. cbv -[q]. done.
Qed.

(** The four double rounds, and the core over a whole block *)
Lemma doublerounds_ok n x : length x = 16%nat → let y := Nat.iter n doubleround x in
  length y = 16%nat ∧ Nat.iter n salsa_body x = y ∧ Nat.iter n salsa_body_sse2 (quadruple (diagonals x)) = quadruple (diagonals y).
Proof.
  intros Hl. cbn zeta. induction n as [|n (IH1 & IH2 & IH3)]; [done|]. rewrite !Nat.iter_succ, IH2, IH3.
  destruct (salsa_body_ok _ IH1) as [-> ?]. by rewrite salsa_body_sse2_ok.
Qed.
Definition core (B Bx : list Z) : list Z := salsa20_8 (zip_with Z.lxor B Bx).
Lemma length_core B Bx : length B = 16%nat → length Bx = 16%nat → length (core B Bx) = 16%nat.
Proof.
  intros H1 H2. assert (length (zip_with Z.lxor B Bx) = 16%nat) as H by (rewrite length_zip_with; lia).
  unfold core, salsa20_8. rewrite length_zip_with. destruct (doublerounds_ok 4 _ H) as (-> & _). lia.
Qed.
Lemma xor_salsa8_ok B Bx : length B = 16%nat → length Bx = 16%nat → xor_salsa8 B Bx = core B Bx.
Proof.
  intros H1 H2. assert (length (zip_with Z.lxor B Bx) = 16%nat) as H by (rewrite length_zip_with; lia).
  unfold xor_salsa8, core, salsa20_8. by destruct (doublerounds_ok 4 _ H) as (_ & -> & _).
Qed.
(** What is done word by word may be done before or after the words are dealt out *)
Lemma diagonals_zip (f : Z → Z → Z) x y : length x = 16%nat → length y = 16%nat →
  zip_with (zip_with f) (diagonals x) (diagonals y) = diagonals (zip_with f x y).
Proof. intros Hx Hy. split_words x Hx. by split_words y Hy. Qed.
Lemma xor_salsa8_sse2_ok B Bx : length B = 16%nat → length Bx = 16%nat →
  xor_salsa8_sse2 (diagonals B) (diagonals Bx) = diagonals (core B Bx).
Proof.
  intros H1 H2. assert (length (zip_with Z.lxor B Bx) = 16%nat) as H by (rewrite length_zip_with; lia).
  unfold xor_salsa8_sse2. change mm_xor with (zip_with Z.lxor). rewrite diagonals_zip by done.
  destruct (doublerounds_ok 4 _ H) as (Hy & _ & Hs). fold (quadruple (diagonals (zip_with Z.lxor B Bx))). rewrite Hs.
  unfold quadruple. cbn [diagonals vectors]. unfold core, salsa20_8. rewrite <- (diagonals_zip add32) by done. done.
Qed.

(** ** The mix *)

Lemma lxor_zip_comm x y : zip_with Z.lxor x y = zip_with Z.lxor y x.
Proof. revert y. induction x as [|a x IH]; intros [|b y]; try done. cbn. by rewrite IH, Z.lxor_comm. Qed.
Lemma halves {A} (X : list A) n : length X = (2 * n)%nat → length (take n X) = n ∧ length (drop n X) = n ∧ take n (drop n X) = drop n X.
Proof. intros H. rewrite length_take, length_drop. split; [lia|]. split; [lia|]. apply take_ge. rewrite length_drop. lia. Qed.

Definition two_cores (lo hi : list Z) : list Z := core lo hi ++ core hi (core lo hi).
Lemma blockmix_cores X : length X = 32%nat → scryptBlockMix X = two_cores (take 16 X) (drop 16 X) ∧ length (scryptBlockMix X) = 32%nat.
Proof.
  intros Hl. destruct (halves X 16 Hl) as (H1 & H2 & _). unfold scryptBlockMix, two_cores.
  rewrite (lxor_zip_comm (drop 16 X) (take 16 X)). fold (core (take 16 X) (drop 16 X)).
  rewrite (lxor_zip_comm (core _ _) (drop 16 X)). fold (core (drop 16 X) (core (take 16 X) (drop 16 X))).
  split; [done|]. rewrite length_app, !length_core; auto using length_core.
Qed.
(** Both halves written back in place, the second from the new first one *)
Lemma in_place_ok {A} (f : list A → list A → list A) n X : length X = (2 * n)%nat →
  (∀ a b, length a = n → length b = n → length (f a b) = n) →
  in_place f n X = f (take n X) (drop n X) ++ f (drop n X) (f (take n X) (drop n X)).
Proof.
  intros Hl Hf. destruct (halves X n Hl) as (H1 & H2 & H3). unfold in_place, mem_write, mem_read. rewrite drop_0, H3.
  set (lo := f (take n X) (drop n X)). assert (length lo = n) as Hlo by (by apply Hf).
  rewrite take_0, Nat.add_0_l, Hlo, drop_0. cbn [app].
  assert (take n (lo ++ drop n X) = lo) as -> by (by rewrite <- Hlo, take_app_length).
  assert (drop n (lo ++ drop n X) = drop n X) as -> by (rewrite <- Hlo at 1; by rewrite drop_app_length). rewrite H3. f_equal.
  rewrite (drop_ge (lo ++ _)); [by rewrite app_nil_r|]. rewrite length_app, Hlo, H2, Hf by done. lia.
Qed.
Lemma mix_ok X : length X = 32%nat → mix X = scryptBlockMix X.
Proof.
  intros Hl. destruct (blockmix_cores X Hl) as [-> _]. destruct (halves X 16 Hl) as (H1 & H2 & H3). unfold mix.
  assert (∀ a b, length a = 16%nat → length b = 16%nat → length (xor_salsa8 a b) = 16%nat) as Hf.
  { intros a b Ha Hb. rewrite xor_salsa8_ok by done. by apply length_core. }
  rewrite in_place_ok by done. unfold two_cores. rewrite !xor_salsa8_ok; auto using length_core.
Qed.

(** The 32 words of [X] dealt out to the eight vectors *)
Definition dealt (X : list Z) : list m128 := vectors (map (λ n, nth (word_of n) X 0) (seq 0 32)).
Lemma dealt_app lo hi : length lo = 16%nat → length hi = 16%nat → dealt (lo ++ hi) = diagonals lo ++ diagonals hi.
Proof. intros H1 H2. split_words lo H1. by split_words hi H2. Qed.
Lemma dealt_halves X : length X = 32%nat → dealt X = diagonals (take 16 X) ++ diagonals (drop 16 X).
Proof. intros Hl. destruct (halves X 16 Hl) as (H1 & H2 & _). by rewrite <- dealt_app, take_drop. Qed.
Lemma mix_sse2_ok X : length X = 32%nat → mix_sse2 (dealt X) = dealt (scryptBlockMix X).
Proof.
  intros Hl. destruct (blockmix_cores X Hl) as [-> _]. destruct (halves X 16 Hl) as (H1 & H2 & _).
  rewrite (dealt_halves X Hl). unfold two_cores. rewrite dealt_app; auto using length_core.
  rewrite <- (xor_salsa8_sse2_ok (drop 16 X) (core _ _)), <- (xor_salsa8_sse2_ok (take 16 X)) by auto using length_core.
  unfold mix_sse2. rewrite in_place_ok; [done..|]. intros a b Ha Hb. unfold xor_salsa8_sse2.
  destruct (Nat.iter 4 _ _) as [[[? ?] ?] ?]. rewrite !length_zip_with, Ha, Hb. done.
Qed.

(** ** The loops *)

Section loops.
Context {A : Type} (w : nat).

Lemma read_write_same (V data : list A) i : length data = w → (i * w + w <= length V)%nat → mem_read (mem_write V (i * w) data) (i * w) w = data.
Proof.
  intros Hd HV. unfold mem_read, mem_write. rewrite drop_app_le by (rewrite length_take; lia).
  rewrite drop_ge by (rewrite length_take; lia). cbn [app]. by rewrite <- Hd, take_app_length.
Qed.
Lemma read_write_below (V data : list A) i j : (j < i)%nat → (i * w <= length V)%nat → mem_read (mem_write V (i * w) data) (j * w) w = mem_read V (j * w) w.
Proof.
  intros Hj HV. unfold mem_read, mem_write. assert (j * w + w <= i * w)%nat by nia.
  rewrite drop_app_le, take_app_le by (rewrite ?length_drop, length_take; lia).
  rewrite <- (take_drop (i * w) V) at 2. by rewrite (drop_app_le (take _ _)), (take_app_le (drop _ _)) by (rewrite ?length_drop, length_take; lia).
Qed.
Lemma length_write (V data : list A) off : (off + length data <= length V)%nat → length (mem_write V off data) = length V.
Proof. intros H. unfold mem_write. rewrite !length_app, length_take, length_drop. lia. Qed.

(** The first loop leaves in row [j] the block after [j] mixes, whatever the array
    held before *)
Lemma fill_ok (f : list A → list A) X V n : (∀ i, length (Nat.iter i f X) = w) → (n * w <= length V)%nat →
  ∃ V', foldl (λ st i, let '(X, V) := st in (f X, mem_write V (i * w) X)) (X, V) (seq 0 n) = (Nat.iter n f X, V') ∧ length V' = length V ∧
    ∀ j, (j < n)%nat → mem_read V' (j * w) w = Nat.iter j f X.
Proof.
  intros Hw. induction n as [|n IH]; intros HV; [exists V; split; [done|split; [done|lia]]|].
  destruct IH as (V' & E & Hl & Hr); [lia|]. rewrite seq_S, foldl_app, E. cbn [foldl]. eexists. split; [by rewrite Nat.add_0_l, Nat.iter_succ|].
  split; [rewrite length_write; [done|rewrite Hw; lia]|]. intros j Hj. destruct (decide (j = n)) as [->|].
  - apply read_write_same; [apply Hw|lia].
  - rewrite read_write_below by lia. apply Hr. lia.
Qed.
End loops.

(** [Integerify] modulo 1024 is in the first word of the last block *)
Lemma Integerify_low X : length X = 32%nat → Integerify X mod 1024 = Z.land (nth 16 X 0) 1023.
Proof.
  intros Hl. do 17 (destruct X as [|? X]; [done|]). unfold Integerify. cbn [drop skipn nth]. cbn [dval].
  change 1023 with (Z.ones 10). rewrite Z.land_ones by lia. change (2 ^ 10) with 1024.
  rewrite Zplus_mod. replace (2 ^ 32 * dval (2 ^ 32) X) with (2 ^ 22 * dval (2 ^ 32) X * 1024) by lia.
  by rewrite Z.mod_mul, Z.add_0_r, Z.mod_mod by lia.
Qed.

Section blockhash.
Context `{PB : EVP_PBKDF2_ok}.

Lemma blockmix_iter i X : length X = 32%nat → length (Nat.iter i scryptBlockMix X) = 32%nat.
Proof. intros Hl. induction i as [|i IH]; [done|]. rewrite Nat.iter_succ. by apply blockmix_cores. Qed.
(** The first loop of either implementation in terms of the reference *)
Lemma mix_iter i X : length X = 32%nat → Nat.iter i mix X = Nat.iter i scryptBlockMix X.
Proof. intros Hl. induction i as [|i IH]; [done|]. rewrite !Nat.iter_succ, IH. by apply mix_ok, blockmix_iter. Qed.
Lemma mix_sse2_iter i X : length X = 32%nat → Nat.iter i mix_sse2 (dealt X) = dealt (Nat.iter i scryptBlockMix X).
Proof. intros Hl. induction i as [|i IH]; [done|]. rewrite !Nat.iter_succ, IH. by apply mix_sse2_ok, blockmix_iter. Qed.

(** The step of the second loop of scryptROMix, over the rows [row] *)
Definition romix_step (row : nat → list Z) (X : list Z) : list Z :=
  scryptBlockMix (zip_with Z.lxor X (row (Z.to_nat (Integerify X mod Z.of_nat 1024)))).
Lemma romix_step_length row X : (∀ i, length (row i) = 32%nat) → length X = 32%nat → length (romix_step row X) = 32%nat.
Proof. intros Hr Hl. apply blockmix_cores. rewrite length_zip_with, Hr. lia. Qed.
Lemma picked_row X : 0 <= Z.land (nth 16 X 0) 1023 < 1024.
Proof. change 1023 with (Z.ones 10). rewrite Z.land_ones by lia. apply Z.mod_pos_bound. lia. Qed.

Lemma pick_step_ok V row X : length X = 32%nat → (∀ i, length (row i) = 32%nat) →
  (∀ j, (j < 1024)%nat → mem_read V (j * 32) 32 = row j) → pick_step V X = romix_step row X.
Proof.
  intros Hl Hr HV. unfold pick_step, romix_step. change (Z.of_nat 1024) with 1024. rewrite Integerify_low by done.
  pose proof (picked_row X) as Hj. rewrite Z.mod_small by lia.
  replace (Z.to_nat (32 * Z.land (nth 16 X 0) 1023)) with (Nat.mul (Z.to_nat (Z.land (nth 16 X 0) 1023)) 32) by lia.
  rewrite HV by lia. apply mix_ok. rewrite length_zip_with, Hr. lia.
Qed.
(** [X.u32[16]] is word 16 also when the words are dealt out *)
Lemma dealt_word16 X : length X = 32%nat → nth 16 (concat (dealt X)) 0 = nth 16 X 0.
Proof. done. Qed.
Lemma dealt_zip x y : length x = 32%nat → length y = 32%nat → zip_with mm_xor (dealt x) (dealt y) = dealt (zip_with Z.lxor x y).
Proof.
  intros Hx Hy. destruct (halves x 16 Hx) as (H1 & H2 & _), (halves y 16 Hy) as (H3 & H4 & _).
  rewrite <- (take_drop 16 x), <- (take_drop 16 y), !dealt_app, !zip_with_app, dealt_app by (rewrite ?length_zip_with; lia || done).
  change mm_xor with (zip_with Z.lxor). by rewrite !diagonals_zip.
Qed.
Lemma pick_step_sse2_ok V row X : length X = 32%nat → (∀ i, length (row i) = 32%nat) →
  (∀ j, (j < 1024)%nat → mem_read V (j * 8) 8 = dealt (row j)) → pick_step_sse2 V (dealt X) = dealt (romix_step row X).
Proof.
  intros Hl Hr HV. unfold pick_step_sse2, romix_step. change (Z.of_nat 1024) with 1024. rewrite Integerify_low, dealt_word16 by done.
  pose proof (picked_row X) as Hj. unfold u32. rewrite Z.mod_small by lia.
  replace (Z.to_nat (8 * Z.land (nth 16 X 0) 1023)) with (Nat.mul (Z.to_nat (Z.land (nth 16 X 0) 1023)) 8) by lia.
  rewrite HV, dealt_zip by (done || lia). apply mix_sse2_ok. rewrite length_zip_with, Hr. lia.
Qed.

(** [le32dec] reads the word that the bytes make in memory, [le32enc] writes it *)
Lemma le32enc_bytes x : le32enc x = to_digits 256 4 x.
Proof.
  unfold le32enc, shr32. change 255 with (Z.ones 8). rewrite !Z.land_ones, !Z.shiftr_div_pow2 by lia. cbn [to_digits].
  rewrite !Z.div_div by lia. done.
Qed.
Lemma le32dec_bytes b0 b1 b2 b3 t : digits_ok 256 [b0; b1; b2; b3] → le32dec (b0 :: b1 :: b2 :: b3 :: t) = dval 256 [b0; b1; b2; b3].
Proof.
  intros Hd. rewrite !Forall_cons_iff in Hd. unfold le32dec, shl32, u32. cbn [nth dval].
  rewrite !Z.shiftl_mul_pow2 by lia. rewrite (Z.mod_small (b1 * _)), (Z.mod_small (b2 * _)), (Z.mod_small (b3 * _)) by lia.
  rewrite (Z.mod_small (b0 + _)) by lia. rewrite (Z.mod_small (b0 + _ + _)) by lia. rewrite Z.mod_small by lia. lia.
Qed.
Lemma le32dec_word k B : digits_ok 256 B → (4 * k + 4 <= length B)%nat → le32dec (drop (k * 4) B) = nth k (limbs_of_bytes B) 0.
Proof.
  revert B. induction k as [|k IH]; intros B Hd Hl; do 4 (destruct B as [|? B]; [cbn in Hl; lia|]).
  - cbn [Nat.mul]. rewrite drop_0. cbn [limbs_of_bytes nth]. apply le32dec_bytes. rewrite !Forall_cons_iff in Hd. destruct Hd as (? & ? & ? & ? & _). repeat (apply Forall_cons_2; [done|]). by apply Forall_nil_2.
  - change (S k * 4)%nat with (4 + k * 4)%nat. cbn [limbs_of_bytes nth]. rewrite <- IH; [done|..].
    + rewrite !Forall_cons_iff in Hd. tauto.
    + cbn in Hl. lia.
Qed.
Lemma load_ok B : digits_ok 256 B → length B = 128%nat → load B = dealt (limbs_of_bytes B).
Proof.
  intros Hd Hl. unfold load, dealt. f_equal. apply map_ext_in. intros n Hn. apply le32dec_word; [done|]. apply in_seq in Hn.
  rewrite Hl. unfold word_of. assert (n / 16 < 2)%nat by (apply Nat.Div0.div_lt_upper_bound; lia).
  assert (n mod 16 * 5 mod 16 < 16)%nat by (apply Nat.mod_upper_bound; lia). lia.
Qed.
Lemma store_ok X B : length X = 32%nat → length B = 128%nat → store (dealt X) B = getBytes X.
Proof.
  intros HX HB. do 32 (destruct X as [|? X]; [done|]). destruct X; [clear HX|done].
  do 128 (destruct B as [|? B]; [done|]). destruct B; [clear HB|done].
  unfold getBytes. rewrite <- (map_ext _ _ le32enc_bytes).
  cbv -[Z.land shr32]. done.
Qed.

Lemma romix_1024 X : scryptROMix 1024 X = Nat.iter 1024 (romix_step (λ i, Nat.iter i scryptBlockMix X)) (Nat.iter 1024 scryptBlockMix X).
Proof. done. Qed.
(** The second loop keeps the block in step with the reference *)
Lemma pick_iter V row n X : length X = 32%nat → (∀ i, length (row i) = 32%nat) →
  (∀ j, (j < 1024)%nat → mem_read V (j * 32) 32 = row j) →
  Nat.iter n (pick_step V) X = Nat.iter n (romix_step row) X ∧ length (Nat.iter n (romix_step row) X) = 32%nat.
Proof.
  intros Hl Hr HV. induction n as [|n [IH1 IH2]]; [done|]. rewrite !Nat.iter_succ, IH1, (pick_step_ok V row) by done.
  split; [done|]. by apply romix_step_length.
Qed.
Lemma pick_sse2_iter V row n X : length X = 32%nat → (∀ i, length (row i) = 32%nat) →
  (∀ j, (j < 1024)%nat → mem_read V (j * 8) 8 = dealt (row j)) →
  Nat.iter n (pick_step_sse2 V) (dealt X) = dealt (Nat.iter n (romix_step row) X) ∧ length (Nat.iter n (romix_step row) X) = 32%nat.
Proof.
  intros Hl Hr HV. induction n as [|n [IH1 IH2]]; [done|]. rewrite !Nat.iter_succ, IH1, (pick_step_sse2_ok V row) by done.
  split; [done|]. by apply romix_step_length.
Qed.

Abbreviation key input := (limbs_of_bytes (PKCS5_PBKDF2_HMAC input input 1 128)).
Lemma key_length input : length (key input) = 32%nat.
Proof. apply (limbs_of_bytes_ok 32); [apply PBKDF2_bytes|apply PBKDF2_length]. Qed.

Lemma generic_ok V input : (1024 * 32 <= length V)%nat → scrypt_blockhash V input = limbs_of_bytes (scrypt_spec input input).
Proof.
  intros HV. pose proof (key_length input) as Hk. unfold scrypt_blockhash, scrypt_spec. rewrite romix_1024.
  destruct (fill_ok 32 mix (key input) V 1024) as (V' & E & _ & Hr); [intros i; by rewrite mix_iter, blockmix_iter|done|].
  change fill_step with (λ st i, let '(X, V) := st in (mix X, mem_write V (i * 32) X)). rewrite E, mix_iter by done. cbn beta iota zeta.
  destruct (pick_iter V' (λ i, Nat.iter i scryptBlockMix (key input)) 1024 (Nat.iter 1024 scryptBlockMix (key input))) as [-> Hl].
  - by apply blockmix_iter.
  - intros i. by apply blockmix_iter.
  - intros j Hj. by rewrite Hr, mix_iter.
  - reflexivity.
Qed.
Lemma sse2_ok V input : (1024 * 8 <= length V)%nat → scrypt_blockhash_sse2 V input = limbs_of_bytes (scrypt_spec input input).
Proof.
  intros HV. pose proof (key_length input) as Hk. unfold scrypt_blockhash_sse2, scrypt_spec. rewrite romix_1024.
  rewrite load_ok by auto using PBKDF2_bytes, PBKDF2_length.
  destruct (fill_ok 8 mix_sse2 (dealt (key input)) V 1024) as (V' & E & _ & Hr); [intros i; by rewrite mix_sse2_iter|done|].
  change fill_step_sse2 with (λ st i, let '(X, V) := st in (mix_sse2 X, mem_write V (i * 8) X)). rewrite E, mix_sse2_iter by done. cbn beta iota zeta.
  destruct (pick_sse2_iter V' (λ i, Nat.iter i scryptBlockMix (key input)) 1024 (Nat.iter 1024 scryptBlockMix (key input))) as [-> Hl].
  - by apply blockmix_iter.
  - intros i. by apply blockmix_iter.
  - intros j Hj. by rewrite Hr, mix_sse2_iter.
  - by rewrite store_ok by auto using PBKDF2_length.
Qed.

(** C39. The proof-of-work hash.  Whatever the scratchpad holds and wherever it is
    put, the aligned array lies inside it; and the portable and the vector
    implementation of scrypt_blockhash both return the 32 bytes of the scrypt of
    RFC 7914 with N = 1024, r = p = 1 and the block header as password and salt,
    read as a well-formed uint256. *)
Theorem scrypt_equivalent input V W scratchpad : 0 <= scratchpad → (1024 * 32 <= length V)%nat → (1024 * 8 <= length W)%nat →
  scrypt_blockhash V input = scrypt_blockhash_sse2 W input ∧ wf W256 (scrypt_blockhash V input) ∧
  getBytes (scrypt_blockhash V input) = scrypt_spec input input ∧
  (scratchpad <= scratch_base scratchpad ∧ scratch_base scratchpad mod 64 = 0 ∧
   scratch_base scratchpad + 4 * (1024 * 32) <= scratchpad + SCRYPT_BUFFER_SIZE).
Proof.
  intros Ha HV HW. rewrite generic_ok, sse2_ok by done.
  destruct (limbs_of_bytes_ok W256 (scrypt_spec input input)) as (Hw & _ & Hb); [apply PBKDF2_bytes|apply PBKDF2_length|].
  split; [done|]. split; [done|]. split; [done|]. unfold scratch_base, SCRYPT_BUFFER_SIZE.
  assert (Z.land (scratchpad + 63) (Z.lnot 63) = (scratchpad + 63) / 64 * 64) as ->.
  { change (Z.lnot 63) with (Z.lnot (Z.ones 6)). rewrite <- Z.ldiff_land, Z.ldiff_ones_r, Z.shiftr_div_pow2, Z.shiftl_mul_pow2 by lia. done. }
  rewrite Z.mod_mul by lia. pose proof (Z.div_mod (scratchpad + 63) 64). pose proof (Z.mod_pos_bound (scratchpad + 63) 64). lia.
Qed.
End blockhash.

(** A function with the interface of PBKDF2, and a header hashed with it *)
Definition toy_pbkdf2 : EVP_PBKDF2 := {| PKCS5_PBKDF2_HMAC pass salt n len := to_digits 256 len (dval 256 pass + 3 * dval 256 salt + n) |}.
Lemma toy_pbkdf2_ok : @EVP_PBKDF2_ok toy_pbkdf2.
Proof. split; intros; [apply length_to_digits|by apply to_digits_ok]. Qed.
Lemma scrypt_equivalent_witness :
  @scrypt_blockhash toy_pbkdf2 (replicate (1024 * 32) 7) (replicate 80 1) =
    @scrypt_blockhash_sse2 toy_pbkdf2 (replicate (1024 * 8) [1; 2; 3; 4]) (replicate 80 1) ∧
  scratch_base 1001 = 1024.
Proof.
  split; [|reflexivity].
  refine (proj1 (scrypt_equivalent (PB := toy_pbkdf2_ok) (replicate 80 1) (replicate (1024 * 32) 7) (replicate (1024 * 8) [1; 2; 3; 4]) 1001 _ _ _)).
  - lia.
  - rewrite length_replicate. apply Nat.le_refl.
  - rewrite length_replicate. apply Nat.le_refl.
Defined.

(** The test vectors of RFC 7914 for the core and for scryptROMix with N = 16 *)
Definition test_words (n : nat) (hex : Z) : list Z := limbs_of_bytes (rev (to_digits 256 n hex)).
Example salsa20_8_vector : salsa20_8 (test_words 64 0x7e879a214f3ec9867ca940e641718f26baee555b8c61c1b50df846116dcd3b1dee24f319df9b3d8514121e4b5ac5aa3276021d2909c74829edebc68db8b8c25e) =
  test_words 64 0xa41f859c6608cc993b81cacb020cef05044b2181a2fd337dfd7b1c6396682f29b4393168e3c9e6bcfe6bc5b7a06d96bae424cc102c91745c24ad673dc7618f81.
Proof. vm_compute. reflexivity. Qed.
Example scryptROMix_vector : scryptROMix 16 (test_words 128 0xf7ce0b653d2d72a4108cf5abe912ffdd777616dbbb27a70e8204f3ae2d0f6fad89f68f4811d1e87bcc3bd7400a9ffd29094f0184639574f39ae5a1315217bcd7894991447213bb226c25b54da86370fbcd984380374666bb8ffcb5bf40c254b067d27c51ce4ad5fed829c90b505a571b7f4d1cad6a523cda770e67bceaaf7e89) =
  test_words 128 0x79ccc193629debca047f0b70604bf6b62ce3dd4a9626e355fafc6198e6ea2b46d58413673b99b029d665c357601fb426a0b2f4bba200ee9f0a43d19b571a9c71ef1142e65d5a266fddca832ce59faa7cac0b9cf1be2bffca300d01ee387619c4ae12fd4438f203a0e4e1c47ec314861f4e9087cb33396a6873e8f9d2539a4b8e.
Proof. vm_compute. reflexivity. Qed.
