(* ===== verification/CheckQueue.v ===== *)
(** * The script-check queue (src/checkqueue.h)

    [CCheckQueue]: a master adds batches of checks and then joins the worker
    threads until every check is done.  Each thread is a small automaton whose
    moves are the critical sections of [Loop] (one atomic step under the mutex),
    the calls of the checks between them, and the waits on the two condition
    variables.  The system is a step relation on the shared fields and the
    threads: the interleavings of any number of workers. *)

From stdpp Require Import base list numbers option relations.
From Stdlib Require Import ZArith Lia.
From S2P Require Import Prelude.

Open Scope Z_scope.

Section CheckQueue.
Context {T : Type}.
(** [T::operator()] *)
Variable check : T → bool.

(** ** The shared fields *)

Record CCheckQueue := mkQueue {
  queue : list T;
  nIdle : Z;
  nTotal : Z;
  fAllOk : bool;
  nTodo : Z;
  fQuit : bool;
  nBatchSize : nat
}.

Definition CCheckQueue_new (nBatchSizeIn : nat) : CCheckQueue := mkQueue [] 0 0 true 0 false nBatchSizeIn.

(** Where a thread is *)
Inductive thread :=
  | Out                                                    (* not in [Loop] *)
  | Entering (nNow : nat) (fOk : bool)                     (* about to take the mutex *)
  | WaitingOn (notified : bool)                            (* in [cond.wait] *)
  | Working (nNow : nat) (vChecks : list T) (fOk : bool)   (* executing a batch *)
  | Returned (fRet : bool)                                 (* returned the status *)
  | Exited (nNow : nat).                                   (* returned false at shutdown *)

(** "first do the clean-up of the previous loop run"; the second result is
    whether [condMaster] is notified *)
Definition clean_up (fMaster : bool) (nNow : nat) (fOk : bool) (q : CCheckQueue) : CCheckQueue * bool :=
  if (nNow =? 0)%nat then
    (mkQueue (queue q) (nIdle q) (nTotal q + 1) (fAllOk q) (nTodo q) (fQuit q) (nBatchSize q), false)
  else
    let q := mkQueue (queue q) (nIdle q) (nTotal q) (fAllOk q && fOk) (u32 (nTodo q - Z.of_nat nNow)) (fQuit q) (nBatchSize q) in
    (q, (nTodo q =? 0) && negb fMaster).

(** "Decide how many work units to process now." *)
Definition batch_size (q : CCheckQueue) : nat :=
  Nat.max 1 (Nat.min (nBatchSize q) (length (queue q) / Z.to_nat (nTotal q + nIdle q + 1))).

(** One evaluation of [while (queue.empty())], and the taking of a batch *)
Definition take_batch (fMaster : bool) (q : CCheckQueue) : thread * CCheckQueue :=
  match queue q with
  | [] =>
      if (fMaster || fQuit q) && (nTodo q =? 0) then
        (Returned (fAllOk q),
         mkQueue [] (nIdle q) (nTotal q - 1) (if fMaster then true else fAllOk q) (nTodo q) (fQuit q) (nBatchSize q))
      else (WaitingOn false, mkQueue [] (nIdle q + 1) (nTotal q) (fAllOk q) (nTodo q) (fQuit q) (nBatchSize q))
  | _ =>
      let nNow := batch_size q in
      let rest := (length (queue q) - nNow)%nat in
      (Working nNow (rev (drop rest (queue q))) (fAllOk q),
       mkQueue (take rest (queue q)) (nIdle q) (nTotal q) (fAllOk q) (nTodo q) (fQuit q) (nBatchSize q))
  end.

(** [nIdle--] after the wait *)
Definition wake_up (q : CCheckQueue) : CCheckQueue :=
  mkQueue (queue q) (nIdle q - 1) (nTotal q) (fAllOk q) (nTodo q) (fQuit q) (nBatchSize q).

(** The next move of a thread in [Loop(fMaster)]: its new place, the shared
    fields, and whether it notifies the master; [None] while it is blocked,
    has returned, or never entered *)
Definition advance (fShutdown fMaster : bool) (t : thread) (q : CCheckQueue) : option (thread * CCheckQueue * bool) :=
  match t with
  | Entering nNow fOk =>
      let '(q, notify) := clean_up fMaster nNow fOk q in
      Some (take_batch fMaster q, notify)
  | WaitingOn true => Some (take_batch fMaster (wake_up q), false)
  | Working nNow (c :: vChecks) fOk => Some (Working nNow vChecks (if fOk then check c else fOk), q, false)
  | Working nNow [] fOk => Some (if fShutdown then Exited nNow else Entering nNow fOk, q, false)
  | _ => None
  end.

Definition Add (vChecks : list T) (q : CCheckQueue) : CCheckQueue :=
  mkQueue (queue q ++ vChecks) (nIdle q) (nTotal q) (fAllOk q) (u32 (nTodo q + Z.of_nat (length vChecks))) (fQuit q) (nBatchSize q).
Definition Quit (q : CCheckQueue) : CCheckQueue :=
  mkQueue (queue q) (nIdle q) (nTotal q) (fAllOk q) (nTodo q) true (nBatchSize q).
Definition IsIdle (q : CCheckQueue) : bool := (nTotal q =? nIdle q) && (nTodo q =? 0) && fAllOk q.

(** ** The system *)

(** [added] records what the master added since the control object was made. *)
Record system := mkSystem {
  shared : CCheckQueue;
  master : thread;
  workers : list thread;
  fShutdown : bool;
  added : list T
}.

Definition notify_master (b : bool) (t : thread) : thread :=
  match t with WaitingOn n => WaitingOn (n || b) | _ => t end.
(** [condWorker.notify_one()] wakes some waiting thread, if there is one. *)
Inductive notify_one : list thread → list thread → Prop :=
  | notify_none ws : WaitingOn false ∉ ws → notify_one ws ws
  | notify_some l1 l2 : notify_one (l1 ++ WaitingOn false :: l2) (l1 ++ WaitingOn true :: l2).
Definition notify_all (ws : list thread) : list thread := map (notify_master true) ws.
Definition notify_added (n : nat) (ws ws' : list thread) : Prop :=
  match n with O => ws' = ws | 1%nat => notify_one ws ws' | _ => ws' = notify_all ws end.

(** A move of the master or of a worker *)
Inductive work_step : system → system → Prop :=
  | step_master q t ws sd a t' q' n :
      advance sd true t q = Some (t', q', n) → work_step (mkSystem q t ws sd a) (mkSystem q' t' ws sd a)
  | step_worker q m l1 t l2 sd a t' q' n :
      advance sd false t q = Some (t', q', n) →
      work_step (mkSystem q m (l1 ++ t :: l2) sd a) (mkSystem q' (notify_master n m) (l1 ++ t' :: l2) sd a).

(** The master has left [Loop], with a status or because of a shutdown *)
Definition loop_left (t : thread) : bool := match t with Returned _ | Exited _ => true | _ => false end.
(** The users of the queue, spurious wake-ups, and shutdown.  The checks waiting
    at one time stay below 2^32.  A new control object asserts that the queue is
    idle: where it is not, the program ends and there is no step. *)
Inductive env_step : system → system → Prop :=
  | env_add q ws ws' sd a vChecks :
      Z.of_nat (length a) + Z.of_nat (length vChecks) < 2 ^ 32 → notify_added (length vChecks) ws ws' →
      env_step (mkSystem q Out ws sd a) (mkSystem (Add vChecks q) Out ws' sd (a ++ vChecks))
  | env_wait q ws sd a : env_step (mkSystem q Out ws sd a) (mkSystem q (Entering 0 true) ws sd a)
  | env_control q m ws sd a : loop_left m = true → IsIdle q = true → env_step (mkSystem q m ws sd a) (mkSystem q Out ws sd [])
  | env_thread q m ws sd a : env_step (mkSystem q m ws sd a) (mkSystem q m (ws ++ [Entering 0 true]) sd a)
  | env_spurious_master q ws sd a : env_step (mkSystem q (WaitingOn false) ws sd a) (mkSystem q (WaitingOn true) ws sd a)
  | env_spurious_worker q m l1 l2 sd a :
      env_step (mkSystem q m (l1 ++ WaitingOn false :: l2) sd a) (mkSystem q m (l1 ++ WaitingOn true :: l2) sd a)
  | env_quit q m ws sd a : env_step (mkSystem q m ws sd a) (mkSystem (Quit q) m (notify_all ws) sd a)
  | env_shutdown q m ws sd a : env_step (mkSystem q m ws sd a) (mkSystem q m ws true a).

Definition queue_step (s s' : system) : Prop := work_step s s' ∨ env_step s s'.
Definition initial (n : nat) : system := mkSystem (CCheckQueue_new n) Out [] false [].
Definition reachable (n : nat) (s : system) : Prop := rtc queue_step (initial n) s.

(** ** The invariant *)

(** What a thread holds: checks taken and not accounted for, being counted in
    [nTotal], in [nIdle], and what its checks will say *)
Definition held (t : thread) : Z :=
  match t with Entering n _ | Working n _ _ | Exited n => Z.of_nat n | _ => 0 end.
Definition counted (t : thread) : Z :=
  match t with Entering (S _) _ | Working _ _ _ | WaitingOn _ | Exited _ => 1 | _ => 0 end.
Definition idle (t : thread) : Z := match t with WaitingOn _ => 1 | _ => 0 end.
Definition verdict (fMaster : bool) (t : thread) : bool :=
  match t with
  | Entering _ fOk => fOk
  | Working _ vChecks fOk => fOk && forallb check vChecks
  | Returned r => if fMaster then r else true
  | _ => true
  end.
Definition not_exited (t : thread) : Prop := match t with Exited _ => False | _ => True end.
Definition thread_ok (t : thread) : Prop :=
  match t with
  | Entering O fOk => fOk = true
  | Working n _ _ | Exited n => (1 <= n)%nat
  | _ => True
  end.

Definition sum_of (f : thread → Z) (ws : list thread) : Z := foldr (λ t s, f t + s) 0 ws.

Record queue_ok (s : system) : Prop := {
  ok_threads : thread_ok (master s) ∧ Forall thread_ok (workers s);
  ok_workers : Out ∉ workers s;
  ok_todo : nTodo (shared s) = Z.of_nat (length (queue (shared s))) + held (master s) + sum_of held (workers s);
  ok_bound : nTodo (shared s) <= Z.of_nat (length (added s)) < 2 ^ 32;
  ok_total : nTotal (shared s) = counted (master s) + sum_of counted (workers s);
  ok_idle : nIdle (shared s) = idle (master s) + sum_of idle (workers s);
  ok_verdict : not_exited (master s) → Forall not_exited (workers s) →
    verdict true (master s) && forallb (verdict false) (workers s) && (fAllOk (shared s) && forallb check (queue (shared s))) =
    forallb check (added s);
  ok_returned : ∀ r, master s = Returned r → nTodo (shared s) = 0 ∧ fAllOk (shared s) = true;
  ok_waiting : master s = WaitingOn false → nTodo (shared s) ≠ 0 ∧ queue (shared s) = [];
  ok_exited : fShutdown s = false → not_exited (master s) ∧ Forall not_exited (workers s)
}.

Lemma sum_of_app f l1 l2 : sum_of f (l1 ++ l2) = sum_of f l1 + sum_of f l2.
Proof. induction l1 as [|t l1 IH]; cbn [sum_of foldr app]; [done|]. fold (sum_of f l1) (sum_of f (l1 ++ l2)). lia. Qed.
Lemma sum_of_cons f t l : sum_of f (t :: l) = f t + sum_of f l.
Proof. done. Qed.
Lemma held_nonneg ws : 0 <= sum_of held ws.
Proof. induction ws as [|t ws IH]; [done|]. rewrite sum_of_cons. destruct t; cbn [held]; lia. Qed.

(** The shared part of the verdict *)
Definition pending (q : CCheckQueue) : bool := fAllOk q && forallb check (queue q).

(** What a move changes, seen from the rest of the system *)
Record moves (fMaster : bool) (t : thread) (q : CCheckQueue) (t' : thread) (q' : CCheckQueue) : Prop := {
  mv_thread : thread_ok t' ∧ t' ≠ Out;
  mv_todo : nTodo q' - Z.of_nat (length (queue q')) - held t' = nTodo q - Z.of_nat (length (queue q)) - held t;
  mv_less : nTodo q' <= nTodo q;
  mv_total : nTotal q' - counted t' = nTotal q - counted t;
  mv_idle : nIdle q' - idle t' = nIdle q - idle t;
  mv_verdict : not_exited t' → verdict fMaster t' && pending q' = verdict fMaster t && pending q;
  mv_returned : fMaster = true → ∀ r, t' = Returned r → nTodo q' = 0 ∧ fAllOk q' = true;
  mv_waiting : fMaster = true → t' = WaitingOn false → nTodo q' ≠ 0 ∧ queue q' = [];
  mv_queue : queue q = [] → queue q' = [];
  mv_status : fMaster = false → held t = 0 → fAllOk q' = fAllOk q
}.

Lemma forallb_rev (l : list T) : forallb check (rev l) = forallb check l.
Proof. induction l as [|c l IH]; [done|]. cbn [rev forallb]. rewrite forallb_app, IH. cbn [forallb]. rewrite andb_true_r. apply andb_comm. Qed.

Lemma batch_size_ok q : queue q ≠ [] → (1 <= batch_size q <= length (queue q))%nat.
Proof.
  intros Hq. unfold batch_size. split; [lia|]. apply Nat.max_lub; [by destruct (queue q); [|cbn; lia]|]. etrans; [apply Nat.le_min_r|].
  destruct (Z.to_nat (nTotal q + nIdle q + 1)) as [|k]; [cbn; lia|]. apply Nat.Div0.div_le_upper_bound. nia.
Qed.

(** The batch is a part of the queue and holds at least one check. *)
Lemma take_batch_ok fMaster q t' q' : take_batch fMaster q = (t', q') →
  thread_ok t' ∧ t' ≠ Out ∧ not_exited t' ∧ nTodo q' = nTodo q ∧
  Z.of_nat (length (queue q')) + held t' = Z.of_nat (length (queue q)) ∧
  nTotal q' - counted t' = nTotal q - 1 ∧ nIdle q' - idle t' = nIdle q ∧
  verdict fMaster t' && pending q' = pending q ∧
  (fMaster = true → ∀ r, t' = Returned r → nTodo q' = 0 ∧ fAllOk q' = true) ∧
  (fMaster = true → t' = WaitingOn false → nTodo q' ≠ 0 ∧ queue q' = []) ∧
  (queue q = [] → queue q' = []) ∧ (fMaster = false → fAllOk q' = fAllOk q).
Proof.
  unfold take_batch, pending. destruct (queue q) as [|c l] eqn:Eq.
  - destruct ((fMaster || fQuit q) && (nTodo q =? 0)) eqn:Eb; intros [= <- <-]; cbn.
    + apply andb_prop in Eb as [_ Ez]. apply Z.eqb_eq in Ez. rewrite !andb_true_r.
      repeat split; try done; try lia; destruct fMaster; cbn; by rewrite ?andb_true_r.
    + repeat split; try done; try lia. destruct fMaster; [|done]. cbn [orb andb] in Eb. by apply Z.eqb_neq in Eb.
  - assert (Hn := batch_size_ok q). rewrite Eq in Hn. specialize (Hn ltac:(done)). set (nNow := batch_size q) in *.
    set (L := c :: l) in *. clearbody nNow. intros [= <- <-]. cbn [queue nTodo nTotal nIdle fAllOk verdict held counted idle thread_ok].
    rewrite length_take, forallb_rev. assert (Hf : forallb check L = forallb check (take (length L - nNow) L) && forallb check (drop (length L - nNow) L)).
    { rewrite <- forallb_app, take_drop. done. }
    rewrite Hf. change (S (length l)) with (length L). split_and!; try done; try lia.
    destruct (fAllOk q), (forallb check (take _ L)), (forallb check (drop _ L)); done.
Qed.

Lemma advance_ok fShutdown fMaster t q t' q' n : thread_ok t → held t + Z.of_nat (length (queue q)) <= nTodo q < 2 ^ 32 →
  advance fShutdown fMaster t q = Some (t', q', n) →
  moves fMaster t q t' q' ∧ (fShutdown = false → not_exited t') ∧
  (fMaster = false → nTodo q ≠ 0 → nTodo q' = 0 → n = true).
Proof.
  intros Ht Hb. destruct t as [|k ok|[]|k l ok|r|k]; cbn [advance]; try done.
  - destruct (clean_up fMaster k ok q) as [q1 n1] eqn:Ec. intros [= Hb' <-].
    apply take_batch_ok in Hb' as (H1 & H2 & H3 & H4 & H5 & H6 & H7 & H8 & H9 & H10 & H11 & H12). unfold clean_up in Ec.
    destruct (Nat.eqb_spec k 0) as [->|Hk].
    + injection Ec as <- <-. cbn in Ht. subst ok. cbn [queue nTodo nTotal nIdle fAllOk fQuit held] in *. split; [|split; [done|lia]].
      split; try done; try (cbn [held counted idle]; lia); auto.
    + injection Ec as <- <-. cbn [queue nTodo nTotal nIdle fAllOk fQuit held] in *. rewrite u32_small in * by lia. split; [|split; [done|]].
      * destruct k as [|k]; [done|]. split; try done; try (cbn [held counted idle]; lia). intros _. rewrite H8. unfold pending. cbn [queue fAllOk verdict].
        destruct ok, (fAllOk q), (forallb check (queue q)); done.
      * intros -> _ Hz. rewrite H4 in Hz. rewrite Hz. done.
  - intros [= Hb']. apply take_batch_ok in Hb' as (H1 & H2 & H3 & H4 & H5 & H6 & H7 & H8 & H9 & H10 & H11 & H12). subst.
    cbn [wake_up queue nTodo nTotal nIdle fAllOk fQuit] in *. split; [|split; [done|lia]].
    split; try done; try (cbn [held counted idle]; lia); auto.
  - cbn in Ht. destruct l as [|c l]; intros [= <- <- <-]; (split; [|split; [|lia]]).
    + split; try done; try lia; destruct fShutdown; try done; cbn; try lia.
      * split; [by destruct k; [lia|]|done].
      * destruct k; cbn; lia.
      * by rewrite andb_true_r.
    + intros ->. done.
    + split; try done; try lia. intros _. cbn [verdict forallb]. destruct ok; [|done]. cbn [andb]. by destruct (check c).
    + done.
Qed.

(** ** Every step keeps the invariant *)

(** Threads that hold nothing have nothing to say. *)
Lemma none_held ws : Forall thread_ok ws → Out ∉ ws → sum_of held ws <= 0 →
  Forall not_exited ws ∧ forallb (verdict false) ws = true ∧ sum_of counted ws = sum_of idle ws.
Proof.
  induction 1 as [|t ws Ht _ IH]; [done|]. intros [Hne Hno]%not_elem_of_cons. rewrite !sum_of_cons. assert (Hn := held_nonneg ws). intros Hs.
  destruct IH as (IH1 & IH2 & IH3); [done|destruct t; cbn [held] in Hs; lia|]. rewrite IH3.
  assert (Hv : not_exited t ∧ verdict false t = true ∧ counted t = idle t).
  { destruct t as [|[|k] ok|b|k l ok|r|k]; cbn in *; try done; lia. }
  destruct Hv as (H1 & H2 & ->). split; [by constructor|]. split; [|done]. cbn [forallb]. by rewrite H2, IH2.
Qed.

Lemma andb_swap (a b c d e : bool) : a && c = b && d → a && e && c = b && e && d.
Proof. destruct a, b, c, d, e; done. Qed.
Lemma andb_swap_mid (m x y a b c d : bool) : a && c = b && d → m && (x && (a && y)) && c = m && (x && (b && y)) && d.
Proof. destruct m, x, y, a, b, c, d; done. Qed.

Lemma work_step_ok s s' : queue_ok s → work_step s s' → queue_ok s'.
Proof.
  intros Hok Hstep. destruct Hstep as [q t ws sd a t' q' n Ha|q m l1 t l2 sd a t' q' n Ha];
    destruct Hok as [[Hm Hw] Hout Htodo Hbound Htotal Hidle Hverd Hret Hwait Hex]; cbn [shared master workers fShutdown added] in *.
  - assert (Hn := held_nonneg ws). assert (Hh : held t + Z.of_nat (length (queue q)) <= nTodo q < 2 ^ 32) by lia.
    destruct (advance_ok _ _ _ _ _ _ _ Hm Hh Ha) as ([[Ht' Hto] Htodo' Hless Htotal' Hidle' Hverd' Hret' Hwait' Hq' Hst] & Hsd & _).
    split; cbn [shared master workers fShutdown added]; try done; try lia.
    + intros H1 H2. rewrite <- Hverd; [|by destruct t|done]. unfold pending in *. apply andb_swap. auto.
    + exact (Hret' eq_refl).
    + exact (Hwait' eq_refl).
    + intros E. split; [auto|apply Hex, E].
  - apply Forall_app in Hw as [Hw1 Hw2]. apply Forall_cons in Hw2 as [Ht Hw2]. rewrite !sum_of_app, !sum_of_cons in *.
    assert (H1 := held_nonneg l1). assert (H2 := held_nonneg l2). assert (H3 : 0 <= held m) by (destruct m; cbn; lia).
    assert (Hh : held t + Z.of_nat (length (queue q)) <= nTodo q < 2 ^ 32) by lia.
    destruct (advance_ok _ _ _ _ _ _ _ Ht Hh Ha) as ([[Ht' Hto] Htodo' Hless Htotal' Hidle' Hverd' _ _ Hq' Hst] & Hsd & Hnot).
    assert (0 <= held t ∧ 0 <= held t') by (destruct t, t'; cbn; lia).
    assert (Hmm : held (notify_master n m) = held m ∧ counted (notify_master n m) = counted m ∧ idle (notify_master n m) = idle m ∧
      verdict true (notify_master n m) = verdict true m ∧ (not_exited (notify_master n m) ↔ not_exited m)) by (by destruct m).
    destruct Hmm as (E1 & E2 & E3 & E4 & E5).
    split; cbn [shared master workers fShutdown added]; rewrite ?sum_of_app, ?sum_of_cons, ?E1, ?E2, ?E3, ?E4, ?E5; try done; try lia.
    + split; [by destruct m|]. apply Forall_app. split; [done|]. by constructor.
    + intros Hin. apply elem_of_app in Hin as [Hin|[Hin|Hin]%elem_of_cons]; [|by subst|]; apply Hout, elem_of_app; [by left|right].
      apply elem_of_cons. by right.
    + intros G1 [G2 [G3 G4]%Forall_cons]%Forall_app. rewrite <- Hverd; [|done|apply Forall_app; split; [done|constructor; [by destruct t|done]]].
      rewrite !forallb_app. cbn [forallb]. unfold pending in *. apply andb_swap_mid. auto.
    + intros r Hr. destruct m; try done. cbn in Hr. destruct (Hret r Hr) as [Hz Hok].
      rewrite Hst by (done || lia). split; [|done]. lia.
    + intros Hr. destruct m as [|?|[]| | |]; try done. cbn in Hr. injection Hr as ->. destruct (Hwait eq_refl) as [Hz Hq].
      split; [|auto]. intros Hz'. by specialize (Hnot eq_refl Hz Hz').
    + intros E. destruct (Hex E) as [G1 G2]. split; [done|]. apply Forall_app in G2 as [G2 [_ G3]%Forall_cons].
      apply Forall_app. split; [done|]. constructor; auto.
Qed.

(** Notifications only change who is awake. *)
Inductive renotified : thread → thread → Prop :=
  | renotified_same t : renotified t t
  | renotified_wait b b' : renotified (WaitingOn b) (WaitingOn b').

Lemma renotified_workers ws ws' : Forall2 renotified ws ws' →
  sum_of held ws' = sum_of held ws ∧ sum_of counted ws' = sum_of counted ws ∧ sum_of idle ws' = sum_of idle ws ∧
  forallb (verdict false) ws' = forallb (verdict false) ws ∧ (Forall not_exited ws' ↔ Forall not_exited ws) ∧
  (Forall thread_ok ws → Forall thread_ok ws') ∧ (Out ∉ ws → Out ∉ ws').
Proof.
  induction 1 as [|t t' ws ws' Ht _ (E1 & E2 & E3 & E4 & E5 & E6 & E7)]; [done|]. rewrite !sum_of_cons, E1, E2, E3. cbn [forallb]. rewrite E4.
  rewrite !Forall_cons, E5, !not_elem_of_cons. destruct Ht; cbn; split_and!; try done; try tauto; (intros [? ?]; split; auto || done).
Qed.

Lemma renotified_refl ws : Forall2 renotified ws ws.
Proof. induction ws; constructor; [constructor|done]. Qed.

Lemma notify_added_same n ws ws' : notify_added n ws ws' → Forall2 renotified ws ws'.
Proof.
  assert (Hall : Forall2 renotified ws (notify_all ws)).
  { induction ws as [|t ws IH]; constructor; [|done]. destruct t; constructor. }
  destruct n as [|[|n]]; cbn [notify_added]; [intros ->; apply renotified_refl| |by intros ->].
  intros [ws0 _|l1 l2]; [apply renotified_refl|]. apply Forall2_app; [apply renotified_refl|]. constructor; [constructor|apply renotified_refl].
Qed.

(** Changing who is awake, among the workers and, awake only, in the master *)
Lemma renotified_ok q m m' ws ws' sd a : queue_ok (mkSystem q m ws sd a) → m' = m ∨ m = WaitingOn false ∧ m' = WaitingOn true →
  Forall2 renotified ws ws' → queue_ok (mkSystem q m' ws' sd a).
Proof.
  intros [[Hm Hw] Hout Htodo Hbound Htotal Hidle Hverd Hret Hwait Hex] Hmm Hws. cbn [shared master workers fShutdown added] in *.
  apply renotified_workers in Hws as (E1 & E2 & E3 & E4 & E5 & E6 & E7).
  split; cbn [shared master workers fShutdown added]; rewrite ?E1, ?E2, ?E3, ?E4, ?E5; auto;
    destruct Hmm as [->|[-> ->]]; auto; done.
Qed.

Lemma env_step_ok s s' : queue_ok s → env_step s s' → queue_ok s'.
Proof.
  intros Hok Hstep. destruct Hstep as [q ws ws' sd a v Hv Hws|q ws sd a|q m ws sd a Hleft Hidl|q m ws sd a|q ws sd a|q m l1 l2 sd a|q m ws sd a|q m ws sd a].
  - apply (renotified_ok _ _ Out _ ws') in Hok; [|by left|by eapply notify_added_same].
    destruct Hok as [[_ Hw] Hout Htodo Hbound Htotal Hidle Hverd Hret Hwait Hex].
    cbn [shared master workers fShutdown added held] in *. assert (Hn := held_nonneg ws').
    split; cbn [shared master workers fShutdown added Add queue nIdle nTotal fAllOk nTodo held]; try done;
      rewrite ?length_app, ?u32_small by lia; try lia.
    intros H1 H2. rewrite !forallb_app, <- Hverd by done. cbn [verdict]. by rewrite <- !andb_assoc.
  - destruct Hok as [[_ Hw] Hout Htodo Hbound Htotal Hidle Hverd Hret Hwait Hex]. split; try done.
  - destruct Hok as [[Hmt Hw] Hout Htodo Hbound Htotal Hidle Hverd Hret Hwait Hex]. cbn [shared master workers fShutdown added held] in *.
    unfold IsIdle in Hidl. apply andb_prop in Hidl as [[_ Hz%Z.eqb_eq]%andb_prop Hall]. assert (Hn := held_nonneg ws).
    assert (Hm : held m = 0 ∧ counted m = 0 ∧ idle m = 0).
    { destruct m as [| | | |r|k]; try done. cbn [held thread_ok] in *. lia. }
    destruct Hm as (Hm1 & Hm2 & Hm3). destruct (none_held ws) as (H1 & H2 & H3); [done|done|lia|]. split; cbn -[sum_of]; try done; try lia.
    intros _ _. rewrite H2, Hall. destruct (queue q); [done|cbn [length] in Htodo; lia].
  - destruct Hok as [[Hm Hw] Hout Htodo Hbound Htotal Hidle Hverd Hret Hwait Hex]. cbn [shared master workers fShutdown added held] in *.
    split; cbn [shared master workers fShutdown added]; rewrite ?sum_of_app; cbn [sum_of foldr held counted idle]; try done; try lia.
    + split; [done|]. apply Forall_app. by repeat constructor.
    + intros [H|H]%elem_of_app; [done|]. by apply list_elem_of_singleton in H.
    + intros H1 [H2 _]%Forall_app. rewrite forallb_app. cbn [forallb verdict]. rewrite !andb_true_r. auto.
    + intros E. destruct (Hex E) as [G1 G2]. split; [done|]. apply Forall_app. by repeat constructor.
  - eapply renotified_ok; [exact Hok|by right|apply renotified_refl].
  - eapply renotified_ok; [exact Hok|by left|]. apply Forall2_app; [apply renotified_refl|].
    constructor; [constructor|apply renotified_refl].
  - apply (renotified_ok _ _ m _ (notify_all ws)) in Hok; [|by left|by apply (notify_added_same 2)].
    by destruct Hok.
  - destruct Hok. by split.
Qed.

Lemma reachable_ok n s : reachable n s → queue_ok s.
Proof.
  intros Hr. assert (H0 : queue_ok (initial n)).
  { split; cbn; try done. by apply not_elem_of_nil. }
  revert H0. unfold reachable in Hr. induction Hr as [s|s1 s2 s3 Hs _ IH]; [done|]. intros H0. apply IH.
  destruct Hs; [eapply work_step_ok|eapply env_step_ok]; done.
Qed.

(** ** The work left *)

(** Every move of a thread, waking up included, takes from this measure: six for a
    check in the queue, and the moves a thread has left before it looks at the
    queue again. *)
Definition thread_work (t : thread) : nat :=
  match t with
  | Entering _ _ => 3
  | WaitingOn true => 1
  | Working _ vChecks _ => 4 + length vChecks
  | _ => 0
  end.
Definition work (s : system) : nat :=
  6 * length (queue (shared s)) + thread_work (master s) + foldr (λ t n, thread_work t + n)%nat O (workers s).

Lemma take_batch_work fMaster q t' q' : take_batch fMaster q = (t', q') →
  (6 * length (queue q') + thread_work t' <= 6 * length (queue q))%nat.
Proof.
  unfold take_batch. destruct (queue q) as [|c l] eqn:Eq.
  - destruct (_ && _); intros [= <- <-]; cbn; eauto.
  - assert (Hn := batch_size_ok q). rewrite Eq in Hn. specialize (Hn ltac:(done)). set (nNow := batch_size q) in *.
    set (L := c :: l) in *. clearbody nNow. intros [= <- <-]. cbn [queue thread_work]. change (S (length l)) with (length L) in *.
    rewrite length_rev, length_drop, length_take. lia.
Qed.

Lemma advance_work fMaster t q t' q' n : advance false fMaster t q = Some (t', q', n) →
  (6 * length (queue q') + thread_work t' + (if n then 1 else 0) < 6 * length (queue q) + thread_work t)%nat.
Proof.
  destruct t as [|k ok|[]|k l ok|r|k]; cbn [advance]; try done.
  - destruct (clean_up fMaster k ok q) as [q1 n1] eqn:Ec. intros [= Hb <-].
    assert (Hq : queue q1 = queue q) by (unfold clean_up in Ec; destruct (k =? 0)%nat; injection Ec as <- _; done).
    apply take_batch_work in Hb. rewrite Hq in Hb. cbn [thread_work]. destruct n1; lia.
  - intros [= Hb <-]. apply take_batch_work in Hb. cbn [wake_up queue thread_work] in *. lia.
  - destruct l; intros [= <- <- <-]; cbn [thread_work length]; lia.
Qed.

Lemma work_decreases s s' : fShutdown s = false → work_step s s' → (work s' < work s)%nat.
Proof.
  intros Hsd Hstep. destruct Hstep as [q t ws sd a t' q' n Ha|q m l1 t l2 sd a t' q' n Ha]; cbn in Hsd; subst sd;
    apply advance_work in Ha; unfold work; cbn [shared master workers].
  - destruct n; lia.
  - rewrite !foldr_app. cbn [foldr]. assert (Hm : (thread_work (notify_master n m) <= thread_work m + (if n then 1 else 0))%nat).
    { destruct m as [| |[]| | |], n; cbn; lia. }
    set (k1 := foldr _ O l2) in *. assert (Hf : ∀ k, foldr (λ t n, (thread_work t + n)%nat) k l1 = (foldr (λ t n, (thread_work t + n)%nat) 0 l1 + k)%nat).
    { intros k. clear. induction l1 as [|x l1 IH]; cbn [foldr]; [done|]. rewrite IH. lia. }
    rewrite (Hf (thread_work t' + k1)%nat), (Hf (thread_work t + k1)%nat). destruct n; lia.
Qed.

(** A thread that holds checks can move. *)
Lemma holder_moves fMaster t q : not_exited t → 0 < held t → is_Some (advance false fMaster t q).
Proof.
  destruct t as [|k ok|b|k l ok|r|k]; cbn; try done; try lia.
  - intros _ _. destruct (clean_up fMaster k ok q). eauto.
  - intros _ _. destruct l; eauto.
Qed.

Lemma some_holder ws : 0 < sum_of held ws → ∃ l1 t l2, ws = l1 ++ t :: l2 ∧ 0 < held t.
Proof.
  induction ws as [|t ws IH]; [done|]. rewrite sum_of_cons. intros Hs. destruct (decide (0 < held t)) as [Ht|Ht].
  - by exists [], t, ws.
  - destruct IH as (l1 & x & l2 & -> & Hx); [lia|]. by exists (t :: l1), x, l2.
Qed.

(** While the master is in [Loop] somebody can move. *)
Lemma progress s : queue_ok s → fShutdown s = false → master s ≠ Out → (∀ r, master s ≠ Returned r) → ∃ s', work_step s s'.
Proof.
  destruct s as [q m ws sd a]. intros [[Hm Hw] Hout Htodo Hbound Htotal Hidle Hverd Hret Hwait Hex] Hsd Ho Hr.
  cbn [shared master workers fShutdown added] in *. subst sd. destruct (Hex eq_refl) as [Hxm Hxw].
  assert (Hcase : m = WaitingOn false ∨ m ≠ WaitingOn false) by (destruct m as [| |[]| | |]; auto).
  destruct Hcase as [->|Hnw].
  - destruct (Hwait eq_refl) as [Hz Hq]. rewrite Hq in Htodo. cbn [length held] in Htodo. assert (Hn := held_nonneg ws).
    destruct (some_holder ws) as (l1 & t & l2 & -> & Ht); [lia|]. apply Forall_app in Hxw as [_ [Hx _]%Forall_cons].
    destruct (holder_moves false t q Hx Ht) as [[[t' q'] n] E]. eexists. by eapply step_worker.
  - assert (Ha : is_Some (advance false true m q)).
    { destruct m as [|k ok|[]|k l ok|r|k]; cbn [advance]; try done; try (by eexists).
      - destruct (clean_up true k ok q). by eexists.
      - destruct l; by eexists.
      - by destruct (Hr r). }
    destruct Ha as [[[t' q'] n] E]. eexists. by eapply step_master.
Qed.

Lemma work_step_keeps s s' : work_step s s' → fShutdown s' = fShutdown s ∧ added s' = added s ∧ (master s ≠ Out → master s' ≠ Out).
Proof.
  intros [q t ws sd a t' q' n Ha|q m l1 t l2 sd a t' q' n Ha]; cbn; (split; [done|split; [done|]]); [|by destruct m].
  intros _. destruct t as [|k ok|[]|k l ok|r|k]; cbn in Ha; try done.
  - destruct (clean_up true k ok q). injection Ha as E _. by apply take_batch_ok in E as (_ & ? & _).
  - injection Ha as E _. by apply take_batch_ok in E as (_ & ? & _).
  - destruct l; injection Ha as <- _ _; [|done]. by destruct sd.
Qed.

Lemma run_keeps s s' : rtc work_step s s' → queue_ok s →
  queue_ok s' ∧ fShutdown s' = fShutdown s ∧ added s' = added s ∧ (master s ≠ Out → master s' ≠ Out).
Proof.
  induction 1 as [s|s1 s2 s3 H _ IH]; [done|]. intros H0. apply (work_step_ok s1 s2) in H0; [|done]. apply work_step_keeps in H as (E1 & E2 & E3).
  destruct (IH H0) as (G0 & G1 & G2 & G3). split; [done|]. rewrite G1, G2, E1, E2. auto.
Qed.

Lemma returned_verdict s r : queue_ok s → master s = Returned r → r = forallb check (added s).
Proof.
  intros [[Hm Hw] Hout Htodo Hbound Htotal Hidle Hverd Hret Hwait Hex] E. destruct (Hret r E) as [Hz Hall]. rewrite E in *.
  assert (Hn := held_nonneg (workers s)). cbn [held] in Htodo. destruct (none_held (workers s)) as (H1 & H2 & _); [done|done|lia|].
  rewrite <- Hverd by done. rewrite H2, Hall. destruct (queue (shared s)); [|cbn [length] in Htodo; lia]. cbn. by rewrite !andb_true_r.
Qed.

Lemma reaches_return s : queue_ok s → fShutdown s = false → master s ≠ Out →
  ∃ s' r, rtc work_step s s' ∧ master s' = Returned r.
Proof.
  remember (work s) as k eqn:Hk. revert s Hk. induction k as [k IH] using lt_wf_ind. intros s -> H0 Hsd Ho.
  assert (Hdec : (∃ r, master s = Returned r) ∨ ∀ r, master s ≠ Returned r) by (destruct (master s); eauto).
  destruct Hdec as [[r Hr]|Hr]; [exists s, r; split; [constructor|done]|].
  destruct (progress s) as [s1 H1]; [done..|]. destruct (work_step_keeps _ _ H1) as (E1 & _ & E3).
  destruct (IH (work s1) (work_decreases s s1 Hsd H1) s1 eq_refl) as (s' & r & Hrun & Hr'); [by eapply work_step_ok|congruence|auto|].
  exists s', r. split; [by eapply rtc_l|done].
Qed.

(** ** Properties *)

(** A queue nobody holds checks of is idle. *)
Lemma settled_idle s : queue_ok s → held (master s) = 0 → counted (master s) = idle (master s) → nTodo (shared s) = 0 → fAllOk (shared s) = true →
  IsIdle (shared s) = true.
Proof.
  intros [[Hm Hw] Hout Htodo Hbound Htotal Hidle Hverd Hret Hwait Hex] E1 E2 Hz Ha. assert (Hn := held_nonneg (workers s)).
  destruct (none_held (workers s)) as (_ & _ & H3); [done|done|lia|]. unfold IsIdle. rewrite Ha, (proj2 (Z.eqb_eq _ _) Hz), (proj2 (Z.eqb_eq _ _)) by lia. done.
Qed.
Lemma idle_counted ws : sum_of idle ws <= sum_of counted ws.
Proof. induction ws as [|t ws IH]; [done|]. rewrite !sum_of_cons. destruct t as [|[]| | | |]; cbn [idle counted]; lia. Qed.

(** C30. The queue gives the verdict of all checks: however the master and any number
    of workers interleave, with spurious wake-ups and up to a shutdown, when [Wait]
    returns a status it is true exactly when every check added since the control
    object was made succeeds, and the next control object finds the queue idle, as it
    asserts.  Only at a shutdown can the master leave [Loop] with false whatever the
    checks say; the queue is then not idle, so the assertion of a further control
    object fails. *)
Theorem check_queue_verdict n s : reachable n s →
  (∀ r, master s = Returned r → r = forallb check (added s) ∧ IsIdle (shared s) = true) ∧
  (master s = Out → added s = [] → IsIdle (shared s) = true) ∧
  (∀ k, master s = Exited k → fShutdown s = true ∧ IsIdle (shared s) = false).
Proof.
  intros H%reachable_ok. assert (Hs := settled_idle s H). split; [|split].
  - intros r Em. split; [by apply returned_verdict|]. destruct (ok_returned _ H r Em). apply Hs; by rewrite ?Em.
  - intros Em Ea. destruct H as [[Hm Hw] Hout Htodo Hbound Htotal Hidle Hverd Hret Hwait Hex]. rewrite Em, Ea in *. cbn [length held] in *.
    assert (Hn := held_nonneg (workers s)). destruct (none_held (workers s)) as (H1 & H2 & _); [done|done|lia|].
    specialize (Hverd I H1). cbn [verdict andb forallb] in Hverd. apply andb_prop in Hverd as [_ Hverd]. apply andb_prop in Hverd as [? _]. apply Hs; try done. lia.
  - intros k Em. destruct H as [_ _ _ _ Htotal Hidle _ _ _ Hex]. split.
    + destruct (fShutdown s) eqn:E; [done|]. destruct (Hex eq_refl) as [He _]. by rewrite Em in He.
    + unfold IsIdle. pose proof (idle_counted (workers s)). rewrite Em in Htotal, Hidle. cbn [counted idle] in *. rewrite (proj2 (Z.eqb_neq _ _)) by lia. done.
Qed.

(** C31. Waiting for the checks ends: without a shutdown, as long as no thread is added and
    no wait wakes up by itself, the moves of the threads from any point inside [Wait] are bounded in number, nobody is
    left blocked (when no thread can move the master has returned), and so a
    run that returns the verdict exists from every such point. *)
Theorem check_queue_terminates n s : reachable n s → fShutdown s = false → master s ≠ Out →
  (∀ k s', nsteps work_step k s s' → (k <= work s)%nat) ∧
  (∀ s', rtc work_step s s' → (∀ s'', ¬ work_step s' s'') → master s' = Returned (forallb check (added s))) ∧
  ∃ s', rtc work_step s s' ∧ master s' = Returned (forallb check (added s)).
Proof.
  intros H0%reachable_ok Hsd Ho. split_and!.
  - intros k s' Hr. clear H0 Ho. induction Hr as [s|k s1 s2 s3 H1 _ IH]; [lia|].
    apply work_decreases in H1 as Hw; [|done]. apply work_step_keeps in H1 as [E _]. rewrite E in IH. specialize (IH Hsd). lia.
  - intros s' Hr Hstuck. destruct (run_keeps _ _ Hr H0) as (G0 & G1 & G2 & G3). specialize (G3 Ho).
    destruct (master s') as [|k ok|b|k l ok|r|k] eqn:Em; try (destruct (progress s') as [s'' H]; [done|congruence|congruence|congruence|by destruct (Hstuck s'')]).
    f_equal. rewrite <- G2. by apply returned_verdict.
  - destruct (reaches_return s H0 Hsd Ho) as (s' & r & Hr & Em). exists s'. split; [done|].
    destruct (run_keeps _ _ Hr H0) as (G0 & _ & G2 & _). rewrite Em. f_equal. rewrite <- G2. by apply returned_verdict.
Qed.
End CheckQueue.

(** The master alone on a queue of two checks *)
Definition sample_run : list (system (T := bool)) :=
  let q queue total todo ok := mkQueue queue 0 total ok todo false 128 in
  [initial 128; mkSystem (q [true; false] 0 2 true) Out [] false [true; false];
   mkSystem (q [true; false] 0 2 true) (Entering 0 true) [] false [true; false];
   mkSystem (q [true] 1 2 true) (Working 1 [false] true) [] false [true; false];
   mkSystem (q [true] 1 2 true) (Working 1 [] false) [] false [true; false];
   mkSystem (q [true] 1 2 true) (Entering 1 false) [] false [true; false];
   mkSystem (q [] 1 1 false) (Working 1 [true] false) [] false [true; false];
   mkSystem (q [] 1 1 false) (Working 1 [] false) [] false [true; false];
   mkSystem (q [] 1 1 false) (Entering 1 false) [] false [true; false];
   mkSystem (q [] 0 0 true) (Returned false) [] false [true; false]].

(** A chain of steps through a list *)
Lemma rtc_chain {A} (R : relation A) x l : (∀ i a b, (x :: l) !! i = Some a → (x :: l) !! S i = Some b → R a b) →
  rtc R x (List.last l x).
Proof.
  revert x. induction l as [|y l IH]; intros x H; [constructor|]. eapply rtc_l; [by apply (H O)|].
  assert (E : List.last (y :: l) x = List.last l y).
  { clear. revert x y. induction l as [|z l IH]; intros x y; [done|]. transitivity (List.last (z :: l) x); [done|].
    by rewrite !IH. }
  rewrite E. apply IH. intros i a b Ha Hb. by apply (H (S i)).
Qed.

Lemma sample_step i a b : sample_run !! i = Some a → sample_run !! S i = Some b → queue_step id a b.
Proof.
  intros Ha Hb. destruct i as [|[|[|[|[|[|[|[|[|[|i]]]]]]]]]]; cbn in Ha, Hb; try done; injection Ha as <-; injection Hb as <-;
    [right; by apply (env_add (CCheckQueue_new 128) [] [] false [] [true; false])|right; constructor|
     left; by apply step_master with false..].
Qed.

Lemma check_queue_verdict_witness :
  let s := mkSystem (mkQueue [] 0 0 true 0 false 128) (Returned false) [] false [true; false] in
  (∀ r, master s = Returned r → r = forallb id (added s) ∧ IsIdle (shared s) = true) ∧ (master s = Out → added s = [] → IsIdle (shared s) = true) ∧
  (∀ k, master s = Exited k → fShutdown s = true ∧ IsIdle (shared s) = false).
Proof.
  intros s. apply (check_queue_verdict id 128).
  exact (rtc_chain (queue_step id) (initial 128) (tail sample_run) sample_step).
Defined.

Lemma check_queue_terminates_witness :
  let s := mkSystem (mkQueue [true; false] 0 0 true 2 false 128) (Entering 0 true) [] false [true; false] in
  (∀ k s', nsteps (work_step id) k s s' → (k <= work s)%nat) ∧
  (∀ s', rtc (work_step id) s s' → (∀ s'', ¬ work_step id s' s'') → master s' = Returned (forallb id (added s))) ∧
  ∃ s', rtc (work_step id) s s' ∧ master s' = Returned (forallb id (added s)).
Proof.
  intros s. apply (check_queue_terminates id 128); [|done|done].
  exact (rtc_chain (queue_step id) (initial 128) (take 2 (tail sample_run))
    (λ i a b Ha Hb, sample_step i a b (proj1 (proj1 (lookup_take_Some sample_run 3 i a) Ha))
      (proj1 (proj1 (lookup_take_Some sample_run 3 (S i) b) Hb)))).
Defined.
