(* ===== verification/ConnectBlock.v ===== *)
(** * Connecting blocks (src/main.cpp)

    [ConnectBlock] runs a block's transactions against the transaction index,
    collecting their changes in a map that is written at the end; script checks
    are made at once or left to the queue of [CheckQueue].  [DisconnectBlock]
    takes a block back. *)

From stdpp Require Import base list numbers option gmap.
From Stdlib Require Import ZArith Lia.
From S2P Require Import Prelude CheckQueue Uint256 Bignum Serialize Tx Script Interp SigCheck Chain Utxo ScriptStd Mempool Block.

Open Scope Z_scope.

Definition CHECKLOCKTIMEVERIFY_SWITCH_TIME : Z := 1461110400.
Definition CHECKSEQUENCEVERIFY_SWITCH_TIME : Z := 1645797620.

(** [CBlock()] *)
Definition CBlock_SetNull : CBlock := mkBlock 6 (bu_of_u64 W256 0) (bu_of_u64 W256 0) 0 0 0 [] [].

(** What the loop over the transactions accumulates *)
Record tally := mkTally {
  mapQueuedChanges : TxMap;
  vQueued : list CScriptCheck;     (* the checks handed to the control object *)
  nFees : Z;
  nValueIn : Z;
  nValueOut : Z;
  nSigOps : Z;
  nTxPos_next : Z
}.

Inductive block_result :=
  | BlockRejected (nDoS : Z)
  | BlockConnected (nMint nMoneySupply : Z) (db : TxMap).

(** The flags of a transaction's scripts *)
Definition block_flags (nTime : Z) : Z :=
  let nFlags := Z.lor SCRIPT_VERIFY_NOCACHE SCRIPT_VERIFY_P2SH in
  let nFlags := if nTime >=? CHECKLOCKTIMEVERIFY_SWITCH_TIME then Z.lor nFlags SCRIPT_VERIFY_CHECKLOCKTIMEVERIFY else nFlags in
  if nTime >=? CHECKSEQUENCEVERIFY_SWITCH_TIME then Z.lor nFlags SCRIPT_VERIFY_CHECKSEQUENCEVERIFY else nFlags.

(** BIP30: an indexed transaction of that hash with an output left *)
Definition overwrites (db : TxMap) (hashTx : base_uint) : bool :=
  match db !! hashTx with
  | Some txindexOld => existsb CDiskTxPos_IsNull (vSpent txindexOld)
  | None => false
  end.

Section ConnectBlock.
Context {BN : OpenSSL_BN} {DG : Digests} (fTestNet : bool).
Variable scrypt_blockhash : list Z → base_uint.
Variable Verify : list Z → base_uint → list Z → bool.
Variable nMaxCacheSize : Z.
Variable random_entry : gset sigdata → sigdata.
(** [GetAdjustedTime()], [Checkpoints::GetLastCheckpointTime()],
    [Checkpoints::GetTotalBlocksEstimate()], [mempool.mapTx] and whether there
    are script-check threads *)
Variable adjustedTime : Z.
Variable lastCheckpointTime : Z.
Variable totalBlocksEstimate : Z.
Variable mempool : gmap base_uint CTransaction.
Variable fThreads : bool.

(** One turn of the loop; [inl] is a rejection with its score, [None] an
    exception *)
Definition connect_tx (d : Disk) (pindex : list CBlockIndex) (nFile nBlockPos : Z) (fJustCheck fScriptChecks : bool)
    (tx : CTransaction) (s : tally) (cache : gset sigdata) : option ((Z + tally) * gset sigdata) :=
  let hashTx := GetHash tx in
  if overwrites (txdb d) hashTx then Some (inl 0, cache)
  else
    let nSigOps := u32 (nSigOps s + GetLegacySigOpCount tx) in
    if nSigOps >? MAX_BLOCK_SIGOPS then Some (inl 100, cache)
    else
      let posThisTx := mkPos nFile nBlockPos (nTxPos_next s) in
      let nTxPos := if fJustCheck then nTxPos_next s else u32 (nTxPos_next s + GetSerializeSize tx) in
      let add_entry m := <[hashTx := CTxIndex_new posThisTx (length (vout tx))]> m in
      if IsCoinBase tx then
        nTxValueOut ← GetValueOut tx;
        Some (inr (mkTally (add_entry (mapQueuedChanges s)) (vQueued s) (nFees s) (nValueIn s)
                     (i64 (nValueOut s + nTxValueOut)) nSigOps nTxPos), cache)
      else
        r ← FetchInputs d mempool (mapQueuedChanges s) true false tx ∅;
        match r with
        | Missing => Some (inl 0, cache)
        | Invalid nDoS => Some (inl 0, cache)
        | Fetched mapInputs =>
            p2sh ← GetP2SHSigOpCount tx mapInputs;
            let nSigOps := u32 (nSigOps + p2sh) in
            if nSigOps >? MAX_BLOCK_SIGOPS then Some (inl 100, cache)
            else
              nTxValueIn ← GetValueIn tx mapInputs;
              nTxValueOut ← GetValueOut tx;
              let nFees := if IsCoinStake tx then nFees s else i64 (nFees s + i64 (nTxValueIn - nTxValueOut)) in
              '(connected, cache) ←
                ConnectInputs fTestNet Verify nMaxCacheSize random_entry lastCheckpointTime d tx mapInputs (mapQueuedChanges s)
                  posThisTx pindex true false fScriptChecks (block_flags (nTime tx)) fThreads cache;
              match connected with
              | Rejected _ _ => Some (inl 0, cache)
              | Connected m vChecks =>
                  Some (inr (mkTally (add_entry m)
                               (if fScriptChecks && fThreads then vQueued s ++ vChecks else vQueued s) nFees
                               (i64 (nValueIn s + nTxValueIn)) (i64 (nValueOut s + nTxValueOut)) nSigOps nTxPos), cache)
              end
        end.

Fixpoint connect_txs (d : Disk) (pindex : list CBlockIndex) (nFile nBlockPos : Z) (fJustCheck fScriptChecks : bool)
    (txs : list CTransaction) (s : tally) (cache : gset sigdata) : option ((Z + tally) * gset sigdata) :=
  match txs with
  | [] => Some (inr s, cache)
  | tx :: txs =>
      '(r, cache) ← connect_tx d pindex nFile nBlockPos fJustCheck fScriptChecks tx s cache;
      match r with
      | inl nDoS => Some (inl nDoS, cache)
      | inr s => connect_txs d pindex nFile nBlockPos fJustCheck fScriptChecks txs s cache
      end
  end.

(** The verdict of a queued check, and of [control.Wait()] *)
Definition check_passes (cache : gset sigdata) (check : CScriptCheck) : bool :=
  bool_decide ((CScriptCheck_call Verify nMaxCacheSize random_entry check cache).1 = Some true).
Definition control_Wait (fQueue : bool) (cache : gset sigdata) (vQueued : list CScriptCheck) : bool :=
  if fQueue then forallb (check_passes cache) vQueued else true.

(** The coinbase of a proof-of-work block pays at most the reward and the fees. *)
Definition reward_exceeded (b : CBlock) (nFees : Z) : option bool :=
  if blk_IsProofOfWork b then
    reward ← GetProofOfWorkReward fTestNet (blk_nBits b);
    out ← GetValueOut (nth 0 (vtx b) (mkTx 0 0 [] [] 0));
    Some (out >? i64 (reward + nFees))
  else Some false.

(** [pindex] is the block's index and those before it; [nPrevSupply] the money
    supply of the previous one. *)
Definition ConnectBlock (d : Disk) (pindex : list CBlockIndex) (nPrevSupply : Z) (b : CBlock) (fJustCheck : bool)
    (cache : gset sigdata) : option (block_result * gset sigdata) :=
  let '(ok, nDoS) := CheckBlock fTestNet scrypt_blockhash Verify adjustedTime b (negb fJustCheck) (negb fJustCheck) false in
  if negb ok then Some (BlockRejected nDoS, cache)
  else
    this ← head pindex;
    let fScriptChecks := bi_nHeight this >=? totalBlocksEstimate in
    let nTxPos :=
      if fJustCheck then 1
      else u32 (bi_nBlockPos this + GetSerializeSize CBlock_SetNull - 2 * GetSizeOfCompactSize 0 +
                GetSizeOfCompactSize (Z.of_nat (length (vtx b)))) in
    '(r, cache) ← connect_txs d pindex (bi_nFile this) (bi_nBlockPos this) fJustCheck fScriptChecks (vtx b)
                    (mkTally ∅ [] 0 0 0 0 nTxPos) cache;
    match r with
    | inl nDoS => Some (BlockRejected nDoS, cache)
    | inr s =>
        if negb (control_Wait (fScriptChecks && fThreads) cache (vQueued s)) then Some (BlockRejected 100, cache)
        else
          exceeded ← reward_exceeded b (nFees s);
          if exceeded : bool then Some (BlockRejected 0, cache)
          else
            let nMint := i64 (i64 (nValueOut s - nValueIn s) + nFees s) in
            let nMoneySupply := i64 (i64 (nPrevSupply + nValueOut s) - nValueIn s) in
            Some (BlockConnected nMint nMoneySupply (if fJustCheck then txdb d else mapQueuedChanges s ∪ txdb d), cache)
    end.
End ConnectBlock.

(** [DisconnectBlock], from the last transaction to the first *)
Fixpoint disconnect_txs `{Digests} (txs : list CTransaction) (db : TxMap) : option TxMap :=
  match txs with
  | [] => Some db
  | tx :: txs => db ← disconnect_txs txs db; DisconnectInputs tx db
  end.
Definition DisconnectBlock `{Digests} (b : CBlock) (db : TxMap) : option TxMap := disconnect_txs (vtx b) db.

(** ** The effect of a block *)

(** Where the transactions of a block are stored *)
Fixpoint positions (fJustCheck : bool) (nFile nBlockPos nTxPos : Z) (txs : list CTransaction) : list CDiskTxPos :=
  match txs with
  | [] => []
  | tx :: txs =>
      mkPos nFile nBlockPos nTxPos ::
      positions fJustCheck nFile nBlockPos (if fJustCheck then nTxPos else u32 (nTxPos + GetSerializeSize tx)) txs
  end.

Definition add_tx `{Digests} (m : TxMap) (tx : CTransaction) (p : CDiskTxPos) : TxMap :=
  <[GetHash tx := CTxIndex_new p (length (vout tx))]> (mark_all p m (spends tx)).

Section effect.
Context {BN : OpenSSL_BN} {DG : Digests} (net : bool).
Context (Verify : list Z → base_uint → list Z → bool) (cpTime : Z) (d : Disk) (chain : list CBlockIndex) (fScript : bool).

(** What it takes to connect one transaction to the index [m]: the value that
    goes in *)
Inductive connectable (m : TxMap) (tx : CTransaction) : Z → Prop :=
  | connectable_base : IsCoinBase tx = true → connectable m tx 0
  | connectable_spend inputs :
      IsCoinBase tx = false →
      coherent inputs m → Forall (input_ok net tx chain inputs) (vin tx) →
      NoDup (spends tx) → Forall (unspent m) (spends tx) →
      (fScript = true → ∀ k i, vin tx !! k = Some i → script_valid Verify tx (block_flags (nTime tx)) k (script_of inputs i)) →
      (IsCoinStake tx = false → total (vout tx) <= total_in inputs (vin tx)) →
      (IsCoinStake tx = true → cpTime < nTime tx → stake_ok net d tx chain (total_in inputs (vin tx))) →
      0 <= total_in inputs (vin tx) <= MAX_MONEY →
      connectable m tx (total_in inputs (vin tx)).

(** Connecting transactions one after the other: [ins] are the values that go
    in, transaction by transaction *)
Inductive connects : TxMap → list CTransaction → list CDiskTxPos → list Z → TxMap → Prop :=
  | connects_nil m : connects m [] [] [] m
  | connects_cons m tx p v txs ps ins m' :
      overwrites (txdb d) (GetHash tx) = false → 0 <= total (vout tx) <= MAX_MONEY →
      connectable m tx v → connects (add_tx m tx p) txs ps ins m' →
      connects m (tx :: txs) (p :: ps) (v :: ins) m'.

(** Sums over a block *)
Definition sum_list (l : list Z) : Z := foldr Z.add 0 l.
Definition outs (txs : list CTransaction) : list Z := map (λ tx, total (vout tx)) txs.
(** The fee a transaction with value [v] in leaves *)
Definition fee_of (tx : CTransaction) (v : Z) : Z := if IsCoinBase tx || IsCoinStake tx then 0 else v - total (vout tx).
Definition fees (txs : list CTransaction) (ins : list Z) : list Z := zip_with fee_of txs ins.

Lemma sum_list_cons x l : sum_list (x :: l) = x + sum_list l.
Proof. done. Qed.
Lemma outs_cons tx txs : outs (tx :: txs) = total (vout tx) :: outs txs.
Proof. done. Qed.
Lemma fees_cons tx txs v ins : fees (tx :: txs) (v :: ins) = fee_of tx v :: fees txs ins.
Proof. done. Qed.

Lemma index_wf_add m tx p : CDiskTxPos_IsNull p = false → index_wf m → index_wf (add_tx m tx p).
Proof.
  intros Hp Hm. unfold add_tx. apply map_Forall_insert_2.
  - cbn. apply Forall_replicate. done.
  - unfold mark_all. revert m Hm. induction (spends tx) as [|o os IH]; intros m Hm; [done|]. cbn [fold_left]. apply IH.
    unfold mark. intros h x. rewrite lookup_alter_Some. intros [(_ & y & Hy & ->)|[_ Hx]]; [|by apply (Hm h)].
    unfold set_spent. cbn [vSpent]. apply Forall_insert; [by eapply Hm|]. congruence.
Qed.

(** ** One transaction *)

Context (nMaxCacheSize : Z) (random_entry : gset sigdata → sigdata) (mempool : gmap base_uint CTransaction) (fThreads : bool).
Hypothesis Hrandom : ∀ S, S ≠ ∅ → random_entry S ∈ S.

(** A queued check that holds under plain verification *)
Definition valid_check (c : CScriptCheck) : Prop :=
  script_valid Verify (sc_ptxTo c) (sc_nFlags c) (sc_nIn c) (sc_scriptPubKey c) ∧ sc_nHashType c = 0.

Lemma check_passes_valid cache c : cache_ok Verify nMaxCacheSize cache → sc_nHashType c = 0 →
  check_passes Verify nMaxCacheSize random_entry cache c = true → valid_check c.
Proof.
  intros HS Hh Hc. apply bool_decide_eq_true in Hc. split; [|done]. destruct c as [script t k flags h]. cbn in Hh. subst h. cbn.
  destruct (VerifyScript_cached Verify nMaxCacheSize random_entry t k flags 0 (scriptSig (nth k (vin t) CTxIn_default))
      script cache Hrandom HS) as [E _]. unfold script_valid. rewrite <- E. exact Hc.
Qed.

Definition cur (s : tally) : TxMap := mapQueuedChanges s ∪ txdb d.

Lemma FetchInputs_fresh pool t inputs : IsCoinBase t = false → Forall txin_ok (vin t) →
  FetchInputs d mempool pool true false t ∅ = Some (Fetched inputs) →
  coherent inputs (pool ∪ txdb d) ∧ Forall (λ i, is_Some (GetOutputFor i inputs) ∧ 0 <= op_n (prevout i)) (vin t).
Proof.
  intros Hcb Hv E. destruct (FetchInputs_total d mempool pool true false t ∅ Hcb Hv) as (r & Er & H). rewrite E in Er. injection Er as <-.
  destruct (H inputs eq_refl) as (_ & Hc & Hf). split; [by apply Hc|]. rewrite Forall_forall in Hv, Hf |- *. intros i Hi.
  destruct (Hv i Hi) as [[_ ?] _], (Hf i Hi) as [? _]. split; [done|lia].
Qed.

Local Abbreviation step_tx fJust nFile nBlockPos tx s cache :=
  (connect_tx net Verify nMaxCacheSize random_entry cpTime mempool fThreads d chain nFile nBlockPos fJust fScript tx s cache).

(** The counters of a tally are the sums modulo 2^64. *)
Definition counts (s : tally) (vin vout fee : Z) : Prop :=
  nValueIn s = i64 vin ∧ nValueOut s = i64 vout ∧ nFees s = i64 fee.

Lemma connect_tx_ok fJust nFile nBlockPos tx s cache s' cache' vi vo fee : tx_ok tx → index_wf (cur s) → nFile ≠ UINT_MAX →
  cache_ok Verify nMaxCacheSize cache → counts s vi vo fee →
  step_tx fJust nFile nBlockPos tx s cache = Some (inr s', cache') →
  cache_ok Verify nMaxCacheSize cache' ∧ overwrites (txdb d) (GetHash tx) = false ∧ 0 <= total (vout tx) <= MAX_MONEY ∧
  cur s' = add_tx (cur s) tx (mkPos nFile nBlockPos (nTxPos_next s)) ∧
  nTxPos_next s' = (if fJust then nTxPos_next s else u32 (nTxPos_next s + GetSerializeSize tx)) ∧
  ∃ new v, vQueued s' = vQueued s ++ new ∧ Forall (λ c, sc_nHashType c = 0) new ∧ (fScript && fThreads = false → new = []) ∧
    (Forall valid_check new → connectable (cur s) tx v) ∧
    counts s' (vi + v) (vo + total (vout tx)) (fee + fee_of tx v).
Proof.
  intros Ht Hwf Hfile HS (Ci & Co & Cf). assert (Ho : Forall txout_ok (vout tx)) by apply Ht.
  unfold connect_tx. cbv zeta. destruct (overwrites _ _); [done|]. destruct (_ >? _); [done|].
  destruct (IsCoinBase tx) eqn:Hcb.
  - intros (out & Eo & [= <- <-])%bind_Some. apply GetValueOut_total in Eo as [-> Hout]; [|done].
    split; [done|]. split; [done|]. split; [done|]. unfold cur, add_tx, spends. rewrite Hcb. cbn [mapQueuedChanges mark_all fold_left].
    split; [by rewrite insert_union_l|]. split; [done|]. exists [], 0. cbn [vQueued]. rewrite app_nil_r. split; [done|]. split; [constructor|].
    split; [done|]. split; [by constructor|]. unfold counts, fee_of. rewrite Hcb. cbn [orb CheckQueue.nIdle nValueIn nValueOut nFees].
    rewrite !Z.add_0_r, Co, i64_add_l. done.
  - intros (r & Er & H)%bind_Some. destruct r as [inputs| |]; [|done|done].
    assert (Hv : Forall txin_ok (vin tx)) by apply Ht.
    destruct (FetchInputs_fresh _ _ _ Hcb Hv Er) as [Hco Hget]. fold (cur s) in Hco.
    apply bind_Some in H as (p2sh & _ & H). match type of H with (if ?b then _ else _) = _ => destruct b end; [done|].
    apply bind_Some in H as (tin & Ein & H). apply bind_Some in H as (out & Eo & H). apply GetValueOut_total in Eo as [-> Hout]; [|done].
    apply bind_Some in H as ([[nDoS ?|m checks] c1] & Ec & H); [done|]. injection H as <- <-.
    set (p := mkPos nFile nBlockPos (nTxPos_next s)) in *.
    assert (Hp : CDiskTxPos_IsNull p = false) by (by apply Z.eqb_neq).
    destruct (ConnectInputs_inv _ _ _ _ _ _ _ _ _ _ _ _ _ _ _ _ _ _ _ _ Ho Hcb Ec) as (Hin & Hsc & Hle & Hst & Hrange & Hnn).
    destruct (ConnectInputs_marks _ _ _ _ _ _ _ _ _ _ _ _ _ _ _ _ _ _ _ _ Ht Hcb Hp (eq_refl : true || false = true) Hco Hwf Ec) as (Hm & Hnd & Hun).
    destruct (connect_scripts_checks _ _ _ _ _ _ _ _ _ _ _ _ _ _ _ _ _ _ _ Hrandom HS (drop_0 _) Hsc) as (HS' & Hchk & Hvalid).
    assert (Etin : tin = total_in inputs (vin tx)).
    { unfold GetValueIn in Ein. rewrite Hcb, valuein_loop_ok in Ein by (done || lia). by injection Ein as <-. }
    subst tin. assert (Hsp : spends tx = map prevout (vin tx)) by (unfold spends; by rewrite Hcb).
    split; [done|]. split; [done|]. split; [done|]. unfold cur in *. cbn [mapQueuedChanges].
    split; [by rewrite <- insert_union_l, Hm; unfold add_tx; rewrite Hsp|]. split; [done|].
    exists (if fScript && fThreads then checks else []), (total_in inputs (vin tx)). cbn [vQueued app] in *.
    split; [destruct (fScript && fThreads); [done|by rewrite app_nil_r]|].
    split; [destruct (fScript && fThreads); [|constructor]; rewrite Hchk; apply Forall_lookup; intros k c; rewrite list_lookup_imap;
      destruct (vin tx !! k); [|done]; by intros [= <-]|].
    split; [by intros ->|]. split.
    + intros Hq. apply connectable_spend; rewrite ?Hsp; try done. intros -> k i Hk. cbn [andb] in *. destruct fThreads; cbn [negb] in *.
      * rewrite Hchk in Hq. rewrite Forall_lookup in Hq. destruct (Hq k (mkCheck (script_of inputs i) tx (0 + k) (block_flags (nTime tx)) 0)) as [Hs _].
        { rewrite list_lookup_imap, Hk. done. }
        exact Hs.
      * exact (Hvalid eq_refl k i Hk).
    + unfold counts, fee_of. rewrite Hcb. cbn [orb nValueIn nValueOut nFees]. rewrite Ci, Co, !i64_add_l. split; [done|]. split; [done|].
      destruct (IsCoinStake tx); [by rewrite Z.add_0_r|]. rewrite Cf, i64_add_l. rewrite (i64_small (_ - _)) by (unfold MAX_MONEY in *; lia). done.
Qed.

(** ** The loop *)

Lemma connect_txs_ok fJust nFile nBlockPos txs s cache s' cache' vi vo fee : Forall tx_ok txs → index_wf (cur s) → nFile ≠ UINT_MAX →
  cache_ok Verify nMaxCacheSize cache → counts s vi vo fee →
  connect_txs net Verify nMaxCacheSize random_entry cpTime mempool fThreads d chain nFile nBlockPos fJust fScript txs s cache =
    Some (inr s', cache') →
  cache_ok Verify nMaxCacheSize cache' ∧
  ∃ new ins, vQueued s' = vQueued s ++ new ∧ Forall (λ c, sc_nHashType c = 0) new ∧ (fScript && fThreads = false → new = []) ∧
    (Forall valid_check new → connects (cur s) txs (positions fJust nFile nBlockPos (nTxPos_next s) txs) ins (cur s')) ∧
    counts s' (vi + sum_list ins) (vo + sum_list (outs txs)) (fee + sum_list (fees txs ins)).
Proof.
  intros Ht. revert s cache vi vo fee. induction Ht as [|tx txs Ht Hts IH]; intros s cache vi vo fee Hwf Hfile HS HC; cbn [connect_txs].
  { intros [= <- <-]. split; [done|]. exists [], []. rewrite app_nil_r. cbn. rewrite !Z.add_0_r.
    split; [done|]. split; [constructor|]. split; [done|]. split; [constructor|done]. }
  intros ([[nDoS|s1] c1] & Htx & H)%bind_Some; [done|].
  apply (connect_tx_ok _ _ _ _ _ _ _ _ vi vo fee) in Htx as (HS1 & Hov & Hout & Hcur & Hpos & new & v & Hq & Hh & Hnt & Hco & HC1); try done.
  assert (Hwf1 : index_wf (cur s1)) by (rewrite Hcur; apply index_wf_add; [by apply Z.eqb_neq|done]).
  destruct (IH s1 c1 _ _ _ Hwf1 Hfile HS1 HC1 H) as (HS' & new' & ins & Hq' & Hh' & Hnt' & Hco' & HC').
  split; [done|]. exists (new ++ new'), (v :: ins). rewrite Hq', Hq, <- app_assoc. split; [done|]. split; [by apply Forall_app|].
  split; [intros E; by rewrite (Hnt E), (Hnt' E)|]. split.
  - intros [Hv Hv']%Forall_app. cbn [positions]. rewrite <- Hpos. constructor; [done|done|by apply Hco|]. rewrite <- Hcur. by apply Hco'.
  - rewrite fees_cons, outs_cons, !sum_list_cons, !Z.add_assoc. exact HC'.
Qed.

End effect.

(** ** What connected transactions have in common *)

Section common.
Context {BN : OpenSSL_BN} {DG : Digests} (net : bool).
Context (Verify : list Z → base_uint → list Z → bool) (cpTime : Z) (d : Disk) (chain : list CBlockIndex) (fScript : bool).
Local Abbreviation connects := (connects net Verify cpTime d chain fScript).
Local Abbreviation connectable := (connectable net Verify cpTime d chain fScript).

Lemma connectable_fee m tx v : connectable m tx v → 0 <= total (vout tx) →
  0 <= v ∧ (IsCoinStake tx = false → 0 <= fee_of tx v <= v) ∧
  (IsCoinBase tx = false → IsCoinStake tx = false → total (vout tx) = v - fee_of tx v).
Proof.
  intros [Hcb|inputs Hcb _ _ _ _ _ Hle _ Hr] Ho; unfold fee_of; rewrite Hcb; cbn [orb]; [done|].
  split; [lia|]. split; intros; destruct (IsCoinStake tx); try done; lia.
Qed.

(** Ordinary transactions give up what they do not pay out. *)
Lemma connects_ordinary m txs ps ins m' : connects m txs ps ins m' →
  Forall (λ tx, IsCoinBase tx = false ∧ IsCoinStake tx = false) txs →
  0 <= sum_list (fees txs ins) <= sum_list ins ∧ sum_list (outs txs) = sum_list ins - sum_list (fees txs ins).
Proof.
  induction 1 as [m|m tx p v txs ps ins m' _ Ho Hco _ IH]; [done|]. intros [[Hcb Hcs] Hts]%Forall_cons.
  destruct (connectable_fee _ _ _ Hco) as (H1 & H2 & H3); [lia|]. specialize (H2 Hcs). specialize (H3 Hcb Hcs). specialize (IH Hts).
  rewrite fees_cons, outs_cons, !sum_list_cons. lia.
Qed.

(** Outputs spent in the block: marked, and not to be overwritten *)
Lemma mark_all_in p m os o : CDiskTxPos_IsNull p = false → NoDup os → Forall (unspent m) os → o ∈ os → ¬ unspent (mark_all p m os) o.
Proof.
  intros Hp Hnd Hun Hin. apply list_elem_of_split in Hin as (l1 & l2 & ->). rewrite Forall_forall in Hun.
  assert (Ho := Hun o ltac:(set_solver)). assert (Hpos : ∀ o', o' ∈ l1 ++ o :: l2 → 0 <= op_n o').
  { intros o' Ho'. destruct (Hun o' Ho') as (x & _ & [? _] & _). done. }
  unfold mark_all. rewrite fold_left_app. cbn [fold_left]. fold (mark_all p m l1). fold (mark_all p (mark p (mark_all p m l1) o) l2).
  apply NoDup_app in Hnd as (Hnd1 & Hdis & [Hno Hnd2]%NoDup_cons).
  assert (Hpo : 0 <= op_n o) by (apply Hpos; set_solver).
  assert (Hpl : Forall (λ o, 0 <= op_n o) l2) by (apply Forall_forall; intros o' Ho'; apply Hpos; set_solver).
  rewrite <- mark_all_comm by done.
  intros (x & Hx & Hr & Hn). unfold mark in Hx. rewrite lookup_alter_eq in Hx.
  destruct (mark_all p (mark_all p m l1) l2 !! op_hash o) as [y|]; [|done]. cbn in Hx. injection Hx as <-. cbn in Hr, Hn.
  rewrite length_insert in Hr. rewrite list_lookup_insert_eq in Hn by lia. injection Hn as ->. done.
Qed.

Lemma mark_all_unspent p m os o : CDiskTxPos_IsNull p = false → unspent (mark_all p m os) o → unspent m o.
Proof.
  intros Hp. unfold mark_all. revert m. induction os as [|o' os IH]; intros m; cbn [fold_left]; [done|].
  intros (x & Hx & Hr & Hn)%IH. unfold mark in Hx. destruct (decide (op_hash o = op_hash o')) as [E|E].
  - rewrite E, lookup_alter_eq in Hx. rewrite <- E in Hx. destruct (m !! op_hash o) as [y|] eqn:Ey; [|done]. cbn in Hx. injection Hx as <-.
    cbn in Hr, Hn. rewrite length_insert in Hr. exists y. split; [done|]. split; [done|].
    destruct (decide (Z.to_nat (op_n o') = Z.to_nat (op_n o))) as [En|En].
    + rewrite En, list_lookup_insert_eq in Hn by lia. injection Hn as ->. done.
    + by rewrite list_lookup_insert_ne in Hn.
  - rewrite lookup_alter_ne in Hx by done. by exists x.
Qed.

Lemma connectable_spends m tx v : connectable m tx v → NoDup (spends tx) ∧ Forall (unspent m) (spends tx).
Proof.
  intros [Hcb|inputs Hcb _ _ Hnd Hun _ _ _ _]; [|done]. unfold spends. rewrite Hcb. split; constructor.
Qed.

Lemma unspent_add_ne m tx p o : CDiskTxPos_IsNull p = false → op_hash o ≠ GetHash tx →
  unspent (add_tx m tx p) o → unspent (mark_all p m (spends tx)) o.
Proof. intros Hp Hne (x & Hx & H). unfold add_tx in Hx. rewrite lookup_insert_ne in Hx by done. by exists x. Qed.

(** What is not unspent stays so, but for a transaction of its hash. *)
Lemma spent_stays m txs ps ins m' o : connects m txs ps ins m' → Forall (λ p, CDiskTxPos_IsNull p = false) ps →
  ¬ unspent m o → op_hash o ∉ map GetHash txs → o ∉ concat (map spends txs).
Proof.
  induction 1 as [m|m tx p v txs ps ins m' _ _ Hco _ IH]; [intros; by apply not_elem_of_nil|]. intros [Hp Hps]%Forall_cons Hno. cbn [map concat].
  intros [Hne Hni]%not_elem_of_cons. apply connectable_spends in Hco as [_ Hun]. rewrite Forall_forall in Hun.
  intros [Hin|Hin]%elem_of_app; [by apply Hno, Hun|]. revert Hin. apply IH; [done| |done].
  intros Hu%unspent_add_ne; [|done..]. by apply mark_all_unspent in Hu.
Qed.

Lemma connects_overwrites m txs ps ins m' : connects m txs ps ins m' → Forall (λ tx, overwrites (txdb d) (GetHash tx) = false) txs.
Proof. induction 1; constructor; done. Qed.

Lemma unspent_overwrites m o : unspent m o → overwrites m (op_hash o) = true.
Proof.
  intros (x & Hx & _ & Hn). unfold overwrites. rewrite Hx. apply existsb_exists. exists CDiskTxPos_SetNull. split; [|done].
  apply list_elem_of_In. by eapply list_elem_of_lookup_2.
Qed.

(** No output is spent twice in a block: [older] are the hashes connected before. *)
Lemma connects_nodup (older : list base_uint) m txs ps ins m' : connects m txs ps ins m' → Forall (λ p, CDiskTxPos_IsNull p = false) ps →
  NoDup (map GetHash txs) → (∀ h, h ∈ older → h ∉ map GetHash txs) →
  (∀ o, unspent m o → op_hash o ∈ older ∨ unspent (txdb d) o) → NoDup (concat (map spends txs)).
Proof.
  intros HC. assert (How := connects_overwrites _ _ _ _ _ HC). revert older How.
  induction HC as [m|m tx p v txs ps ins m' _ _ Hco HC IH]; intros older How Hps Hnd Hold Hun; [constructor|].
  apply Forall_cons in Hps as [Hp Hps]. apply connectable_spends in Hco as [Hnds Huns]. cbn [map concat] in *.
  assert (Hfresh : ∀ o, o ∈ spends tx → op_hash o ∉ GetHash tx :: map GetHash txs).
  { intros o Ho. rewrite Forall_forall in Huns. destruct (Hun o (Huns o Ho)) as [Hin|Hu]; [by apply Hold|].
    apply unspent_overwrites in Hu. intros Hin. change (GetHash tx :: map GetHash txs) with (map GetHash (tx :: txs)) in Hin.
    apply list_elem_of_fmap in Hin as (tx' & E & Hin'). rewrite Forall_forall in How. specialize (How tx' Hin'). cbn in How. congruence. }
  apply NoDup_cons in Hnd as [Hnh Hnd]. apply NoDup_app. split; [done|]. split.
  - intros o Ho. specialize (Hfresh o Ho). apply not_elem_of_cons in Hfresh as [Hne Hni].
    eapply spent_stays; [exact HC|done| |done]. intros Hu%unspent_add_ne; [|done..]. by eapply mark_all_in in Hu.
  - apply (IH (GetHash tx :: older)); try done.
    + by apply Forall_cons in How as [_ ?].
    + intros h [->|Hh]%elem_of_cons; [done|]. apply Hold in Hh. by apply not_elem_of_cons in Hh as [_ ?].
    + intros o Hu. destruct (decide (op_hash o = GetHash tx)) as [E|E]; [left; rewrite E; by constructor|].
      apply unspent_add_ne, mark_all_unspent, Hun in Hu as [?|?]; [left; by constructor|by right|done..].
Qed.

(** Taking the transactions back in reverse order restores the index. *)
Lemma connects_disconnect m txs ps ins m' : connects m txs ps ins m' → Forall tx_ok txs → NoDup (map GetHash txs) →
  Forall (λ tx, m !! GetHash tx = None) txs → disconnect_txs txs m' = Some m.
Proof.
  induction 1 as [m|m tx p v txs ps ins m' _ _ Hco HC IH]; [done|]. intros [Ht Hts]%Forall_cons [Hni Hnd]%NoDup_cons [Hm Hms]%Forall_cons.
  apply connectable_spends in Hco as [Hnds Huns]. cbn [disconnect_txs]. rewrite IH; [|done|done|].
  - cbn [mbind option_bind]. by apply disconnect_marked.
  - rewrite Forall_forall in Hms |- *. intros tx' Hin. unfold add_tx. rewrite lookup_insert_ne.
    2: { intros E. apply Hni. rewrite E. apply list_elem_of_fmap. eauto. }
    destruct (mark_all p m (spends tx) !! GetHash tx') as [x|] eqn:E; [|done].
    apply mark_all_lookup in E as (y & Hy & _). specialize (Hms tx' Hin). cbn in Hms. congruence.
Qed.

Lemma positions_file fJust nFile nBlockPos n txs : nFile ≠ UINT_MAX →
  Forall (λ p, CDiskTxPos_IsNull p = false) (positions fJust nFile nBlockPos n txs).
Proof. intros Hf. revert n. induction txs as [|tx txs IH]; intros n; constructor; [by apply Z.eqb_neq|apply IH]. Qed.
End common.

(** ** The queue of checks *)

Section wait.
Context {BN : OpenSSL_BN} {DG : Digests} (Verify : list Z → base_uint → list Z → bool) (nMaxCacheSize : Z).
Context (random_entry : gset sigdata → sigdata).

(** Checks of blocks do not write the signature cache. *)
Lemma CScriptCheck_nocache c cache : has_flag (sc_nFlags c) SCRIPT_VERIFY_NOCACHE = true →
  (CScriptCheck_call Verify nMaxCacheSize random_entry c cache).2 = cache.
Proof.
  intros Hf. unfold CScriptCheck_call. set (check := CheckSig _ _ _ _ _ _ _).
  assert (HC : ∀ g k code c1 c2, c1 = cache ∧ c2 = cache → agree (λ x y, x = cache ∧ y = cache) (check g k code c1) (check g k code c2)).
  { intros g k code c1 c2 [-> ->]. split; [done|]. assert (E : (check g k code cache).2 = cache); [|done].
    unfold check, CheckSig. rewrite Hf. change (negb true) with false. cbv iota zeta. by repeat match goal with |- context [if ?b then _ else _] => destruct b end. }
  refine (proj1 (proj2 (VerifyScript_sim check check (λ x y, x = cache ∧ y = cache) HC _ _ _ _ _ cache cache _))). done.
Qed.

Lemma block_flags_nocache n : has_flag (block_flags n) SCRIPT_VERIFY_NOCACHE = true.
Proof. unfold block_flags. by destruct (n >=? _), (n >=? _). Qed.

(** [control_Wait] is what the queue returns, in every interleaving of the
    threads that run it: with the cache unchanged a check is a function. *)
Lemma control_Wait_queue cache n s r :
  CheckQueue.reachable (check_passes Verify nMaxCacheSize random_entry cache) n s → master s = Returned r →
  r = control_Wait Verify nMaxCacheSize random_entry true cache (added s).
Proof. intros H%reachable_ok E. by eapply returned_verdict. Qed.
End wait.

(** ** An accepted block *)

Section accepted.
Context {BN : OpenSSL_BN} {DG : Digests} (net : bool) (scrypt : list Z → base_uint).
Context (Verify : list Z → base_uint → list Z → bool) (nMaxCacheSize : Z) (random_entry : gset sigdata → sigdata).
Context (adjustedTime cpTime estimate : Z) (mempool : gmap base_uint CTransaction) (fThreads : bool).
Context (d : Disk) (this : CBlockIndex) (prev : list CBlockIndex) (nPrevSupply : Z) (b : CBlock) (fJust : bool) (cache : gset sigdata).

Definition block_connects (ins : list Z) (m : TxMap) : Prop :=
  connects net Verify cpTime d (this :: prev) (bi_nHeight this >=? estimate) (txdb d) (vtx b)
    (positions fJust (bi_nFile this) (bi_nBlockPos this)
       (if fJust then 1 else u32 (bi_nBlockPos this + 80 + GetSizeOfCompactSize (Z.of_nat (length (vtx b))))) (vtx b)) ins m.

Definition connect_block : option (block_result * gset sigdata) :=
  ConnectBlock net scrypt Verify nMaxCacheSize random_entry adjustedTime cpTime estimate mempool fThreads d (this :: prev)
    nPrevSupply b fJust cache.

Lemma ConnectBlock_inv mint supply db cache' : (∀ S, S ≠ ∅ → random_entry S ∈ S) → cache_ok Verify nMaxCacheSize cache →
  Forall tx_ok (vtx b) → index_wf (txdb d) → bi_nFile this ≠ UINT_MAX →
  connect_block = Some (BlockConnected mint supply db, cache') →
  (CheckBlock net scrypt Verify adjustedTime b (negb fJust) (negb fJust) false).1 = true ∧ cache_ok Verify nMaxCacheSize cache' ∧
  ∃ ins m, block_connects ins m ∧ db = (if fJust then txdb d else m) ∧
    mint = i64 (sum_list (outs (vtx b)) - sum_list ins + sum_list (fees (vtx b) ins)) ∧
    supply = i64 (nPrevSupply + sum_list (outs (vtx b)) - sum_list ins) ∧
    reward_exceeded net b (i64 (sum_list (fees (vtx b) ins))) = Some false.
Proof.
  intros Hr HS Ht Hwf Hf. unfold connect_block, ConnectBlock. destruct (CheckBlock _ _ _ _ _ _ _ _) as [[] nDoS]; [|done]. cbn [negb fst].
  cbn [head mbind option_bind]. set (pos0 := if fJust then 1 else _).
  intros H. apply bind_Some in H as ([[?|s] c1] & Hloop & H); [done|].
  apply (connect_txs_ok _ _ _ _ _ _ _ _ _ _ Hr _ _ _ _ _ _ _ _ 0 0 0) in Hloop as (HS' & new & ins & Hq & Hh & Hnt & Hco & (Ci & Co & Cf));
    [|done|by unfold cur; cbn; rewrite map_empty_union|done|done|done].
  destruct (control_Wait _ _ _ _ _ _) eqn:Ew; [|done]. cbn [negb] in H. apply bind_Some in H as ([] & Hx & H); [done|].
  injection H as <- <- <- <-. split; [done|]. split; [done|]. cbn [vQueued app] in Hq.
  assert (Hv : Forall (valid_check Verify) new).
  { rewrite Hq in Ew. unfold control_Wait in Ew. destruct ((bi_nHeight this >=? estimate) && fThreads); [|rewrite Hnt by done; constructor].
    rewrite Forall_forall in Hh |- *. intros c Hc. rewrite forallb_forall in Ew.
    eapply check_passes_valid; [done|exact HS'|by apply Hh|]. apply Ew. by apply list_elem_of_In. }
  specialize (Hco Hv). rewrite !Z.add_0_l in *. unfold cur in Hco. cbn [mapQueuedChanges nTxPos_next] in Hco. rewrite map_empty_union in Hco.
  exists ins, (mapQueuedChanges s ∪ txdb d). split.
  { unfold block_connects. replace (if fJust then 1 else u32 (bi_nBlockPos this + 80 + _)) with pos0; [exact Hco|].
    unfold pos0. destruct fJust; [done|]. f_equal. change (GetSerializeSize CBlock_SetNull) with 82. change (GetSizeOfCompactSize 0) with 1. lia. }
  rewrite Ci, Co, Cf in *. split; [done|]. split; [by rewrite i64_sub, i64_add|]. split; [|done].
  clear. mlia.
Qed.

(** What [CheckBlock] says about the transactions *)
Lemma CheckBlock_shape fPOW fMerkle fSig : (CheckBlock net scrypt Verify adjustedTime b fPOW fMerkle fSig).1 = true →
  NoDup (map GetHash (vtx b)) ∧
  ∃ tx0 txs, vtx b = tx0 :: txs ∧ IsCoinBase tx0 = true ∧
    if blk_IsProofOfStake b then
      ∃ tx1 rest, txs = tx1 :: rest ∧ IsCoinStake tx1 = true ∧ total (vout tx0) = 0 ∧ Forall (ordinary (blk_GetBlockTime b)) rest
    else Forall (ordinary (blk_GetBlockTime b)) txs.
Proof.
  destruct (vtx b) as [|tx0 txs] eqn:Ev; [unfold CheckBlock; by rewrite Ev|]. destruct (blk_IsProofOfStake b) eqn:Eps.
  - assert (Hs : ∃ tx1 rest, txs = tx1 :: rest ∧ IsCoinStake tx1 = true).
    { unfold blk_IsProofOfStake in Eps. rewrite Ev in Eps. destruct txs as [|tx1 rest]; [done|]. exists tx1, rest. split; [done|].
      by apply andb_prop in Eps as [_ ?]. }
    destruct Hs as (tx1 & rest & -> & Hcs). rewrite (CheckBlock_stake _ _ _ _ _ _ _ _ tx0 tx1 rest Ev Eps).
    intros (_ & _ & H3 & (_ & Hnd & _) & H5 & _ & (o & Ho & He) & _). rewrite Ev in Hnd. split; [done|]. exists tx0, (tx1 :: rest).
    split; [done|]. split; [done|]. exists tx1, rest. split; [done|]. split; [done|]. split; [|done]. rewrite Ho.
    apply andb_prop in He as [He _]. apply Z.eqb_eq in He. cbn. lia.
  - rewrite (CheckBlock_work _ _ _ _ _ _ _ _ tx0 txs Ev Eps). intros (_ & _ & H3 & (_ & Hnd & _) & H5 & _). rewrite Ev in Hnd.
    split; [done|]. exists tx0, txs. done.
Qed.

Lemma ordinary_plain n txs : Forall (ordinary n) txs → Forall (λ tx, IsCoinBase tx = false ∧ IsCoinStake tx = false) txs.
Proof. intros H. eapply Forall_impl; [exact H|]. intros tx (? & ? & _). done. Qed.

Lemma connectable_base_in m tx v fScript : connectable net Verify cpTime d (this :: prev) fScript m tx v → IsCoinBase tx = true → v = 0.
Proof. intros [|inputs E]; [done|congruence]. Qed.

Lemma reward_not_exceeded nFees : reward_exceeded net b nFees = Some false → blk_IsProofOfStake b = false →
  ∃ reward out, GetProofOfWorkReward net (blk_nBits b) = Some reward ∧
    GetValueOut (nth 0 (vtx b) (mkTx 0 0 [] [] 0)) = Some out ∧ out <= i64 (reward + nFees).
Proof.
  unfold reward_exceeded, blk_IsProofOfWork. intros H E. rewrite E in H. revert H. cbn [negb].
  generalize (GetProofOfWorkReward net (blk_nBits b)). intros [reward|]; [|done]. cbn [mbind option_bind].
  destruct (GetValueOut _) as [out|]; [|done]. cbn [mbind option_bind]. intros [= H]. exists reward, out.
  rewrite Z.gtb_ltb in H. by apply Z.ltb_ge in H.
Qed.

(** A proof-of-work block creates at most its reward. *)
Lemma block_work_mint {BNok : OpenSSL_BN_ok BN} ins m : block_connects ins m →
  (CheckBlock net scrypt Verify adjustedTime b (negb fJust) (negb fJust) false).1 = true →
  Forall tx_ok (vtx b) → reward_exceeded net b (i64 (sum_list (fees (vtx b) ins))) = Some false →
  blk_IsProofOfStake b = false → sum_list ins <= MAX_MONEY - 100 * COIN →
  ∃ reward, GetProofOfWorkReward net (blk_nBits b) = Some reward ∧ reward <= 100 * COIN ∧
    sum_list (outs (vtx b)) - sum_list ins <= reward.
Proof.
  intros HC Hchk Ht Hrew Eps Hin. apply CheckBlock_shape in Hchk as (_ & tx0 & txs & Ev & Hcb & Hord). rewrite Eps in Hord.
  unfold block_connects in HC. rewrite Ev in *. inversion HC as [|? ? ? v0 ? ? ins0 ? _ Ho0 Hc0 HC0]; subst. clear HC.
  apply connectable_base_in in Hc0 as ->; [|done]. apply connects_ordinary in HC0 as [Hf Hsum]; [|by eapply ordinary_plain].
  apply reward_not_exceeded in Hrew as (reward & out & Er & Eo & Hrew); [|done]. rewrite Ev in Eo. cbn [nth] in Eo.
  apply Forall_cons in Ht as [Ht _]. apply GetValueOut_total in Eo as [-> _]; [|apply Ht].
  destruct (PoW_reward_ok net (blk_nBits b)) as (r & Er' & [Hr _]). rewrite Er in Er'. injection Er' as <-. exists reward. split; [done|].
  assert (reward <= 100 * COIN) by (etrans; [apply Hr|]; done). split; [done|].
  rewrite sum_list_cons in Hin. rewrite outs_cons, !sum_list_cons. rewrite fees_cons, sum_list_cons in Hrew.
  unfold fee_of in Hrew at 1. rewrite Hcb in Hrew. cbn [orb] in Hrew. rewrite !Z.add_0_l in *.
  assert (Hlow : 0 <= reward) by (etrans; [|apply Hr]; done). clear Hr Er.
  revert Hf Hsum Hrew. generalize (sum_list (fees txs ins0)), (sum_list (outs txs)). intros f o Hf Hsum Hrew.
  assert (Hmax : MAX_MONEY = 2 ^ 63 - 1) by done. assert (0 <= COIN) by done.
  rewrite (i64_small f), i64_small in Hrew by lia. lia.
Qed.

(** A proof-of-stake block creates at most the reward of its coinstake. *)
Lemma block_stake_mint {BNok : OpenSSL_BN_ok BN} ins m : block_connects ins m →
  (CheckBlock net scrypt Verify adjustedTime b (negb fJust) (negb fJust) false).1 = true →
  blk_IsProofOfStake b = true →
  ∃ tx1, vtx b !! 1%nat = Some tx1 ∧
    (cpTime < nTime tx1 → (∀ age, GetCoinAge net d tx1 = Some age → age <= 2 * 10 ^ 11) →
     sum_list (outs (vtx b)) - sum_list ins <= 10 * COIN + CENT).
Proof.
  intros HC Hchk Eps. apply CheckBlock_shape in Hchk as (_ & tx0 & txs & Ev & Hcb & Hord). rewrite Eps in Hord.
  destruct Hord as (tx1 & rest & -> & Hcs & Hz & Hord). exists tx1. rewrite Ev. split; [done|]. intros Htime Hage.
  unfold block_connects in HC. rewrite Ev in HC. inversion HC as [|? ? ? v0 ? ? ins0 ? _ _ Hc0 HC0]; subst. clear HC.
  inversion HC0 as [|? ? ? v1 ? ? ins1 ? _ _ Hc1 HC1]; subst. clear HC0.
  apply connectable_base_in in Hc0 as ->; [|done]. apply connects_ordinary in HC1 as [Hf Hsum]; [|by eapply ordinary_plain].
  rewrite !outs_cons, !sum_list_cons, Hz. assert (Hncb := IsCoinStake_not_base _ Hcs).
  destruct Hc1 as [E|inputs _ _ _ _ _ _ _ Hst _]; [congruence|].
  destruct (stake_ok_bound _ _ _ _ _ (Hst Hcs Htime)) as (age & Ea & Hb). destruct (Hb (Hage _ Ea)) as (r & _ & _ & Hle). lia.
Qed.
End accepted.

(** ** Properties *)

(** C1. Connecting a block is the connection of its transactions one after the other:
    an accepted block passes [CheckBlock], and starting from the index on disk
    every transaction in turn spends pairwise different existing outputs that
    are unspent at that point, old enough, with scripts that hold under plain
    verification (made at once or through the queue; the code skips them, and nothing
    is said of them, below the height of the last hardened checkpoint), pays out no more than it takes in unless it mints, and does not
    overwrite unspent outputs; the index written is exactly the result, and no
    output is spent twice in the block. *)
Theorem ConnectBlock_sound {BN : OpenSSL_BN} {DG : Digests} net scrypt Verify nMaxCacheSize random_entry adjustedTime cpTime estimate
    mempool fThreads d this prev nPrevSupply b fJust cache mint supply db cache' :
  (∀ S, S ≠ ∅ → random_entry S ∈ S) → cache_ok Verify nMaxCacheSize cache →
  Forall tx_ok (vtx b) → index_wf (txdb d) → bi_nFile this ≠ UINT_MAX →
  ConnectBlock net scrypt Verify nMaxCacheSize random_entry adjustedTime cpTime estimate mempool fThreads d (this :: prev)
    nPrevSupply b fJust cache = Some (BlockConnected mint supply db, cache') →
  (CheckBlock net scrypt Verify adjustedTime b (negb fJust) (negb fJust) false).1 = true ∧
  cache_ok Verify nMaxCacheSize cache' ∧ NoDup (concat (map spends (vtx b))) ∧
  ∃ ins m, block_connects net Verify cpTime estimate d this prev b fJust ins m ∧ db = (if fJust then txdb d else m).
Proof.
  intros Hr HS Ht Hwf Hf H. apply ConnectBlock_inv in H as (Hchk & HS' & ins & m & HC & Hdb & _); try done.
  split; [done|]. split; [done|]. split; [|by exists ins, m]. apply CheckBlock_shape in Hchk as [Hnd _].
  eapply connects_nodup with (older := []); [exact HC|by apply positions_file|done|intros h Hh; by apply not_elem_of_nil in Hh|auto].
Qed.

(** C2. No money out of nothing.  When the inputs of a block stay 100 coins below
    [MAX_MONEY], an accepted proof-of-work block pays out at most its inputs and the
    reward of its difficulty (so at most 100 coins more), and an accepted
    proof-of-stake block whose coinstake is after the time of the last checkpoint and
    has at most 2 * 10^11 coin days at most its inputs and ten coins and one cent.  The
    recorded money supply changes by exactly that difference, modulo 2^64. *)
Theorem ConnectBlock_mint {BN : OpenSSL_BN} {BNok : OpenSSL_BN_ok BN} {DG : Digests} net scrypt Verify nMaxCacheSize random_entry
    adjustedTime cpTime estimate mempool fThreads d this prev nPrevSupply b fJust cache mint supply db cache' :
  (∀ S, S ≠ ∅ → random_entry S ∈ S) → cache_ok Verify nMaxCacheSize cache →
  Forall tx_ok (vtx b) → index_wf (txdb d) → bi_nFile this ≠ UINT_MAX →
  ConnectBlock net scrypt Verify nMaxCacheSize random_entry adjustedTime cpTime estimate mempool fThreads d (this :: prev)
    nPrevSupply b fJust cache = Some (BlockConnected mint supply db, cache') →
  ∃ ins m, block_connects net Verify cpTime estimate d this prev b fJust ins m ∧
    supply = i64 (nPrevSupply + sum_list (outs (vtx b)) - sum_list ins) ∧
    (sum_list ins <= MAX_MONEY - 100 * COIN →
     if blk_IsProofOfStake b then
       ∃ tx1, vtx b !! 1%nat = Some tx1 ∧
         (cpTime < nTime tx1 → (∀ age, GetCoinAge net d tx1 = Some age → age <= 2 * 10 ^ 11) →
          sum_list (outs (vtx b)) - sum_list ins <= 10 * COIN + CENT)
     else
       ∃ reward, GetProofOfWorkReward net (blk_nBits b) = Some reward ∧ reward <= 100 * COIN ∧
         sum_list (outs (vtx b)) - sum_list ins <= reward).
Proof.
  intros Hr HS Ht Hwf Hf H. apply ConnectBlock_inv in H as (Hchk & HS' & ins & m & HC & Hdb & Hmint & Hsup & Hrew); try done.
  exists ins, m. split; [done|]. split; [done|]. intros Hin. destruct (blk_IsProofOfStake b) eqn:Eps.
  - by eapply block_stake_mint.
  - by eapply block_work_mint.
Qed.

(** C29. Disconnecting a block undoes connecting it: when none of its transactions was
    in the index, [DisconnectBlock] succeeds on the index an accepted block
    left and restores it as it was. *)
Theorem Connect_DisconnectBlock {BN : OpenSSL_BN} {DG : Digests} net scrypt Verify nMaxCacheSize random_entry adjustedTime cpTime estimate
    mempool fThreads d this prev nPrevSupply b cache mint supply db cache' :
  (∀ S, S ≠ ∅ → random_entry S ∈ S) → cache_ok Verify nMaxCacheSize cache →
  Forall tx_ok (vtx b) → index_wf (txdb d) → bi_nFile this ≠ UINT_MAX → Forall (λ tx, txdb d !! GetHash tx = None) (vtx b) →
  ConnectBlock net scrypt Verify nMaxCacheSize random_entry adjustedTime cpTime estimate mempool fThreads d (this :: prev)
    nPrevSupply b false cache = Some (BlockConnected mint supply db, cache') →
  DisconnectBlock b db = Some (txdb d).
Proof.
  intros Hr HS Ht Hwf Hf Hnew H. apply ConnectBlock_inv in H as (Hchk & _ & ins & m & HC & -> & _); try done.
  apply CheckBlock_shape in Hchk as [Hnd _]. eapply connects_disconnect; [exact HC|done..].
Qed.

(** A block of a coinbase and [sample_tx], over digests that tell them apart *)
Definition block_digests : Digests := {|
  SHA1 _ := replicate 20 1;
  SHA256 x := if (length x =? 32)%nat then x else replicate 31 2 ++ [Z.of_nat (length x) mod 256];
  RIPEMD160 x := replicate 19 3 ++ [List.last x 0 mod 256]
|}.
Definition sample_coinbase : CTransaction :=
  mkTx 1 1400000000 [mkTxIn (mkOutPoint (bu_of_u64 W256 0) UINT_MAX) [81; 81] 0] [mkTxOut 5000 [81]] 0.
Definition sample_block : CBlock :=
  let vtx := [sample_coinbase; sample_tx] in
  mkBlock 6 (bu_of_u64 W256 0) (BuildMerkleTree (DG := block_digests) vtx).2 1400000000 0x1d00ffff 0 vtx [].
Definition sample_index : CBlockIndex := mkIndex 1 300 5 0 (bu_of_u64 W256 0) 6 1400000000 0x1d00ffff.
Definition sample_connected : option (block_result * gset sigdata) :=
  ConnectBlock (DG := block_digests) false (λ _, bu_of_u64 W256 1) sample_verify 1 first_entry 1400000000 0 0 ∅ false sample_disk
    [sample_index] 0 sample_block false ∅.
Definition sample_db : TxMap := match sample_connected with Some (BlockConnected _ _ m, _) => m | _ => ∅ end.
Lemma sample_connected_ok : sample_connected = Some (BlockConnected 5000 (-6990000) sample_db, ∅).
Proof. vm_compute. reflexivity. Qed.
Lemma sample_block_txs : Forall tx_ok (vtx sample_block).
Proof. apply Forall_cons; split; [|apply Forall_singleton]; apply tx_okb_ok; reflexivity. Qed.
Lemma sample_cache_ok : cache_ok sample_verify 1 ∅.
Proof. split; [set_solver|]. rewrite size_empty. lia. Qed.
Lemma sample_disk_wf : index_wf (txdb sample_disk).
Proof. apply map_Forall_singleton. repeat constructor; done. Qed.

Lemma ConnectBlock_sound_witness :
  (CheckBlock (DG := block_digests) false (λ _, bu_of_u64 W256 1) sample_verify 1400000000 sample_block true true false).1 = true ∧
  cache_ok sample_verify 1 ∅ ∧ NoDup (concat (map spends (vtx sample_block))) ∧
  ∃ ins m, block_connects (DG := block_digests) false sample_verify 0 0 sample_disk sample_index [] sample_block false ins m ∧ sample_db = m.
Proof.
  apply (ConnectBlock_sound (DG := block_digests) false (λ _, bu_of_u64 W256 1) sample_verify 1 first_entry 1400000000 0 0 ∅ false
    sample_disk sample_index [] 0 sample_block false ∅ 5000 (-6990000) sample_db ∅).
  - exact first_entry_in.
  - exact sample_cache_ok.
  - exact sample_block_txs.
  - exact sample_disk_wf.
  - discriminate.
  - exact sample_connected_ok.
Defined.

Lemma ConnectBlock_mint_witness :
  ∃ ins m, block_connects (DG := block_digests) false sample_verify 0 0 sample_disk sample_index [] sample_block false ins m ∧
    -6990000 = i64 (0 + sum_list (outs (vtx sample_block)) - sum_list ins) ∧
    (sum_list ins <= MAX_MONEY - 100 * COIN →
     ∃ reward, GetProofOfWorkReward false 0x1d00ffff = Some reward ∧ reward <= 100 * COIN ∧
       sum_list (outs (vtx sample_block)) - sum_list ins <= reward).
Proof.
  apply (ConnectBlock_mint (DG := block_digests) false (λ _, bu_of_u64 W256 1) sample_verify 1 first_entry 1400000000 0 0 ∅ false
    sample_disk sample_index [] 0 sample_block false ∅ 5000 (-6990000) sample_db ∅).
  - exact first_entry_in.
  - exact sample_cache_ok.
  - exact sample_block_txs.
  - exact sample_disk_wf.
  - discriminate.
  - exact sample_connected_ok.
Defined.

Lemma Connect_DisconnectBlock_witness : DisconnectBlock (H := block_digests) sample_block sample_db = Some (txdb sample_disk).
Proof.
  apply (Connect_DisconnectBlock (DG := block_digests) false (λ _, bu_of_u64 W256 1) sample_verify 1 first_entry 1400000000 0 0 ∅ false
    sample_disk sample_index [] 0 sample_block ∅ 5000 (-6990000) sample_db ∅).
  - exact first_entry_in.
  - exact sample_cache_ok.
  - exact sample_block_txs.
  - exact sample_disk_wf.
  - discriminate.
  - repeat constructor; vm_compute; reflexivity.
  - exact sample_connected_ok.
Defined.
