(* ===== verification/Base58.v ===== *)
(** * Base58 (src/base58.cpp, src/base58.h)

    The conversion of byte vectors to base 58 and back by long multiplication in
    a buffer of estimated size, the checksummed form, addresses and secrets.
    Characters are their codes; the buffers, which the code fills from the back,
    are lists with the least significant digit first. *)

From stdpp Require Import base list numbers option gmap.
From Stdlib Require Import ZArith Lia.
From S2P Require Import Prelude Uint256 Bignum Serialize Tx Script Interp.

Open Scope Z_scope.

(** ** Tables *)

Definition digits : list Z :=
  [49; 50; 51; 52; 53; 54; 55; 56; 57; 65; 66; 67; 68; 69; 70;
   71; 72; 74; 75; 76; 77; 78; 80; 81; 82; 83; 84; 85; 86; 87;
   88; 89; 90; 97; 98; 99; 100; 101; 102; 103; 104; 105; 106; 107; 109;
   110; 111; 112; 113; 114; 115; 116; 117; 118; 119; 120; 121; 122].

Definition characterMap : list Z :=
  [-1; -1; -1; -1; -1; -1; -1; -1; -1; -1; -1; -1; -1; -1; -1; -1;
   -1; -1; -1; -1; -1; -1; -1; -1; -1; -1; -1; -1; -1; -1; -1; -1;
   -1; -1; -1; -1; -1; -1; -1; -1; -1; -1; -1; -1; -1; -1; -1; -1;
   -1;  0;  1;  2;  3;  4;  5;  6;  7;  8; -1; -1; -1; -1; -1; -1;
   -1;  9; 10; 11; 12; 13; 14; 15; 16; -1; 17; 18; 19; 20; 21; -1;
   22; 23; 24; 25; 26; 27; 28; 29; 30; 31; 32; -1; -1; -1; -1; -1;
   -1; 33; 34; 35; 36; 37; 38; 39; 40; 41; 42; 43; -1; 44; 45; 46;
   47; 48; 49; 50; 51; 52; 53; 54; 55; 56; 57; -1; -1; -1; -1; -1].

(** ** The conversions *)

(** "Apply b58 = b58 * 256 + ch" over the digits from the lowest: the carry left,
    the number of digits visited, the digits *)
Fixpoint carry_loop (base mult carry : Z) (i length : nat) (b : list Z) : Z * nat * list Z :=
  match b with
  | [] => (carry, i, [])
  | d :: b =>
      if negb (carry =? 0) || (i <? length)%nat then
        let carry := carry + mult * d in
        let '(c, j, b) := carry_loop base mult (carry / base) (S i) length b in
        (c, j, carry mod base :: b)
      else (carry, i, d :: b)
  end.

(** All input digits; [None] is the failed assertion *)
Fixpoint convert (base mult : Z) (input : list Z) (length : nat) (b : list Z) : option (nat * list Z) :=
  match input with
  | [] => Some (length, b)
  | ch :: input =>
      let '(carry, i, b) := carry_loop base mult ch 0 length b in
      if carry =? 0 then convert base mult input i b else None
  end.

Fixpoint skip_zeroes (l : list Z) : list Z :=
  match l with
  | 0 :: l => skip_zeroes l
  | _ => l
  end.
Fixpoint count_leading (c : Z) (l : list Z) : nat :=
  match l with
  | d :: l => if d =? c then S (count_leading c l) else O
  | [] => O
  end.

Definition EncodeBase58 (vch : list Z) : option (list Z) :=
  let zeroes := count_leading 0 vch in
  let rest := drop zeroes vch in
  let base58Size := (length rest * 138 / 100 + 1)%nat in
  '(len, b58) ← convert 58 256 rest 0 (replicate base58Size 0);
  let it := skip_zeroes (rev (take len b58)) in
  Some (replicate zeroes (nth 0 digits 0) ++ map (λ d, nth (Z.to_nat d) digits 0) it).

(** The characters up to the next space or the end: [None] is the failed
    assertion, [Some None] an invalid character *)
Fixpoint decode_loop (s : list Z) (length : nat) (b256 : list Z) : option (option (nat * list Z * list Z)) :=
  match s with
  | [] => Some (Some (length, b256, []))
  | c :: s' =>
      if isspace c then Some (Some (length, b256, s))
      else if c >=? 128 then Some None
      else
        let carry := nth (Z.to_nat c) characterMap (-1) in
        if carry =? -1 then Some None
        else
          let '(carry, i, b256) := carry_loop 256 58 carry 0 length b256 in
          if carry =? 0 then decode_loop s' i b256 else None
  end.

(** [Some None] is the result false, [None] a failed assertion. *)
Definition DecodeBase58 (psz : list Z) : option (option (list Z)) :=
  let it := skip_spaces psz in
  let zeroes := count_leading (nth 0 digits 0) it in
  let it := drop zeroes it in
  let base256Size := (length it * 733 / 1000 + 1)%nat in
  r ← decode_loop it 0 (replicate base256Size 0);
  match r with
  | None => Some None
  | Some (len, b256, rest) =>
      if bool_decide (skip_spaces rest = []) then
        Some (Some (replicate zeroes 0 ++ skip_zeroes (rev (take len b256))))
      else Some None
  end.

(** ** With a checksum *)

Section Check.
Context {DG : Digests}.

Definition EncodeBase58Check (vchIn : list Z) : option (list Z) :=
  EncodeBase58 (vchIn ++ take 4 (getBytes (Hash vchIn))).

Definition DecodeBase58Check (psz : list Z) : option (option (list Z)) :=
  r ← DecodeBase58 psz;
  match r with
  | None => Some None
  | Some vch =>
      if (length vch <? 4)%nat then Some None
      else
        let body := take (length vch - 4) vch in
        if bool_decide (take 4 (getBytes (Hash body)) = drop (length vch - 4) vch) then Some (Some body) else Some None
  end.

(** ** Addresses and secrets *)

Record CBase58Data := mkBase58 { b58_nVersion : Z; vchData : list Z }.

Definition SetString (psz : list Z) : option (bool * CBase58Data) :=
  r ← DecodeBase58Check psz;
  match r with
  | None | Some [] => Some (false, mkBase58 0 [])
  | Some (v :: data) => Some (true, mkBase58 v data)
  end.
Definition b58_ToString (b : CBase58Data) : option (list Z) := EncodeBase58Check (b58_nVersion b :: vchData b).

Definition PUBKEY_PAIR_ADDRESS : Z := 1.
Definition PUBKEY_ADDRESS : Z := 8.
Definition SCRIPT_ADDRESS : Z := 20.
Definition PUBKEY_PAIR_ADDRESS_TEST : Z := 6.
Definition PUBKEY_ADDRESS_TEST : Z := 111.
Definition SCRIPT_ADDRESS_TEST : Z := 196.

(** What an address stands for; a malleable key is given by its bytes *)
Inductive CTxDestination :=
  | CNoDestination
  | CKeyID (id : base_uint)
  | CScriptID (id : base_uint).

Variable fTestNet : bool.
(** [CMalleablePubKey::setvch] and [IsValid], which ask OpenSSL about the points *)
Variable pair_valid : list Z → bool.

Definition addr_Set (dest : CTxDestination) : bool * CBase58Data :=
  match dest with
  | CNoDestination => (false, mkBase58 0 [])
  | CKeyID id => (true, mkBase58 (if fTestNet then PUBKEY_ADDRESS_TEST else PUBKEY_ADDRESS) (getBytes id))
  | CScriptID id => (true, mkBase58 (if fTestNet then SCRIPT_ADDRESS_TEST else SCRIPT_ADDRESS) (getBytes id))
  end.

Definition addr_IsValid (b : CBase58Data) : bool :=
  let v := b58_nVersion b in
  let check nExpectedSize fExpectTestNet (fSimple : bool) :=
    let fSeemsSane := Bool.eqb fExpectTestNet fTestNet && (length (vchData b) =? nExpectedSize)%nat in
    if fSeemsSane && negb fSimple then pair_valid (vchData b) else fSeemsSane in
  if v =? PUBKEY_PAIR_ADDRESS then check 68%nat false false
  else if v =? PUBKEY_ADDRESS then check 20%nat false true
  else if v =? SCRIPT_ADDRESS then check 20%nat false true
  else if v =? PUBKEY_PAIR_ADDRESS_TEST then check 68%nat true false
  else if v =? PUBKEY_ADDRESS_TEST then check 20%nat true true
  else if v =? SCRIPT_ADDRESS_TEST then check 20%nat true true
  else false.

Definition addr_Get (b : CBase58Data) : CTxDestination :=
  let v := b58_nVersion b in
  if negb (addr_IsValid b) then CNoDestination
  else if (v =? PUBKEY_ADDRESS) || (v =? PUBKEY_ADDRESS_TEST) then CKeyID (limbs_of_bytes (take 20 (vchData b)))
  else if (v =? SCRIPT_ADDRESS) || (v =? SCRIPT_ADDRESS_TEST) then CScriptID (limbs_of_bytes (take 20 (vchData b)))
  else CNoDestination.

Definition addr_IsScript (b : CBase58Data) : bool :=
  addr_IsValid b && ((b58_nVersion b =? SCRIPT_ADDRESS) || (b58_nVersion b =? SCRIPT_ADDRESS_TEST)).
Definition addr_IsPubKey (b : CBase58Data) : bool :=
  addr_IsValid b && ((b58_nVersion b =? PUBKEY_ADDRESS) || (b58_nVersion b =? PUBKEY_ADDRESS_TEST)).
Definition addr_IsPair (b : CBase58Data) : bool :=
  addr_IsValid b && ((b58_nVersion b =? PUBKEY_PAIR_ADDRESS) || (b58_nVersion b =? PUBKEY_PAIR_ADDRESS_TEST)).

(** [CBitcoinSecret]; [None] is the assertion on the size *)
Definition SetSecret (vchSecret : list Z) (fCompressed : bool) : option CBase58Data :=
  if (length vchSecret =? 32)%nat then
    Some (mkBase58 (u8 (128 + (if fTestNet then PUBKEY_ADDRESS_TEST else PUBKEY_ADDRESS)))
            (vchSecret ++ if fCompressed then [1] else []))
  else None.
Definition GetSecret (b : CBase58Data) : list Z * bool := (take 32 (vchData b), (length (vchData b) =? 33)%nat).
Definition secret_IsValid (b : CBase58Data) : bool :=
  let v := b58_nVersion b in
  let sizes := (length (vchData b) =? 32)%nat || ((length (vchData b) =? 33)%nat && (nth 32 (vchData b) 0 =? 1)) in
  if v =? 128 + PUBKEY_ADDRESS then Bool.eqb false fTestNet && sizes
  else if v =? 128 + PUBKEY_ADDRESS_TEST then Bool.eqb true fTestNet && sizes
  else false.
Definition secret_SetString (pszSecret : list Z) : option (bool * CBase58Data) :=
  '(ok, b) ← SetString pszSecret; Some (ok && secret_IsValid b, b).
End Check.

(** ** Long multiplication *)

(** Digits beyond the first [n] are zero. *)
Definition low (n : nat) (b : list Z) : Prop := ∀ k, (n <= k)%nat → nth k b 0 = 0.

Lemma low_0_value base b : low 0 b → dval base b = 0.
Proof.
  induction b as [|d b IH]; intros H; [done|]. cbn [dval]. assert (Hd := H 0%nat ltac:(lia)). cbn in Hd. rewrite IH; [lia|].
  intros k _. exact (H (S k) ltac:(lia)).
Qed.

Lemma carry_loop_ok base mult carry i len b c j b' : 1 < base → 0 <= mult → 0 <= carry → digits_ok base b → low (len - i) b →
  carry_loop base mult carry i len b = (c, j, b') →
  length b' = length b ∧ digits_ok base b' ∧ 0 <= c ∧ (i <= j)%nat ∧ low (j - i) b' ∧
  dval base b' + base ^ Z.of_nat (length b) * c = carry + mult * dval base b.
Proof.
  intros Hb Hm. revert carry i c j b'. induction b as [|d b IH]; intros carry i c j b' Hc Hd Hl; cbn [carry_loop].
  { intros [= <- <- <-]. cbn. split; [done|]. split; [constructor|]. split; [done|]. split; [lia|]. split; [by intros [|?]|]. lia. }
  apply Forall_cons in Hd as [Hd0 Hd]. destruct (negb (carry =? 0) || (i <? len)%nat) eqn:E.
  - destruct (carry_loop base mult ((carry + mult * d) / base) (S i) len b) as [[c1 j1] b1] eqn:Er. intros [= <- <- <-].
    assert (Hcd : 0 <= carry + mult * d) by nia.
    assert (Hdiv : 0 <= (carry + mult * d) / base) by (apply Z.div_pos; lia).
    assert (Hl' : low (len - S i) b) by (intros k Hk; exact (Hl (S k) ltac:(lia))).
    destruct (IH _ _ _ _ _ Hdiv Hd Hl' Er) as (H1 & H2 & H3 & H4 & H5 & H6).
    cbn [length dval]. split; [lia|]. split; [constructor; [apply Z.mod_pos_bound; lia|done]|]. split; [done|]. split; [lia|]. split.
    + intros [|k] Hk; [lia|]. cbn [nth]. apply H5. lia.
    + rewrite pow_succ_nat. assert (Hdm := Z.div_mod (carry + mult * d) base ltac:(lia)). nia.
  - apply orb_false_iff in E as [E1 E2]. apply negb_false_iff, Z.eqb_eq in E1. apply Nat.ltb_ge in E2. intros [= <- <- <-].
    assert (Hz : low 0 (d :: b)) by (intros k _; apply Hl; lia).
    split; [done|]. split; [by constructor|]. split; [done|]. split; [lia|]. split; [intros k _; apply Hz; lia|].
    rewrite !low_0_value by done. lia.
Qed.

(** A carry is left only when the number does not fit. *)
Lemma carry_loop_fits base mult carry len b c j b' : 1 < base → 0 <= mult → 0 <= carry → digits_ok base b → low len b →
  carry_loop base mult carry 0 len b = (c, j, b') → carry + mult * dval base b < base ^ Z.of_nat (length b) →
  c = 0 ∧ length b' = length b ∧ digits_ok base b' ∧ low j b' ∧ dval base b' = carry + mult * dval base b.
Proof.
  intros Hb Hm Hc Hd Hl E Hfit. apply carry_loop_ok in E as (H1 & H2 & H3 & _ & H5 & H6); try done; [|by rewrite Nat.sub_0_r].
  rewrite Nat.sub_0_r in H5. assert (Hbound := dval_bound base b' ltac:(lia) H2). rewrite H1 in Hbound.
  assert (c = 0) by nia. subst c. split; [done|]. split; [done|]. split; [done|]. split; [done|]. lia.
Qed.

(** The value of big-endian digits, from an accumulator *)
Definition be_from (base acc : Z) (l : list Z) : Z := fold_left (λ a d, a * base + d) l acc.

Lemma be_from_mono base acc l : 0 < base → 0 <= acc → digits_ok base l → acc <= be_from base acc l.
Proof.
  intros Hb. revert acc. induction l as [|d l IH]; intros acc Ha Hl; [done|]. apply Forall_cons in Hl as [Hd Hl].
  cbn [be_from fold_left]. etrans; [|apply IH; [nia|done]]. nia.
Qed.

Lemma be_from_dval base acc l : 0 < base → be_from base acc l = acc * base ^ Z.of_nat (length l) + dval base (rev l).
Proof.
  intros Hb. revert acc. induction l as [|d l IH]; intros acc; [cbn; lia|]. cbn [be_from fold_left].
  change (fold_left (λ a d, a * base + d) l (acc * base + d)) with (be_from base (acc * base + d) l). rewrite IH. cbn [rev length].
  rewrite dval_app, length_rev by done. cbn [dval]. rewrite pow_succ_nat. ring.
Qed.

(** Converting succeeds when the buffer is large enough, and gives the number. *)
Lemma convert_ok base mult input len b : 1 < base → 0 < mult → digits_ok mult input → digits_ok base b → low len b →
  be_from mult (dval base b) input < base ^ Z.of_nat (length b) →
  ∃ len' b', convert base mult input len b = Some (len', b') ∧ length b' = length b ∧ digits_ok base b' ∧ low len' b' ∧
    dval base b' = be_from mult (dval base b) input.
Proof.
  intros Hb Hm. revert len b. induction input as [|ch input IH]; intros len b Hi Hd Hl Hfit; cbn [convert].
  { exists len, b. done. }
  apply Forall_cons in Hi as [Hch Hi]. assert (Hbound := dval_bound base b ltac:(lia) Hd).
  assert (Hstep : ch + mult * dval base b < base ^ Z.of_nat (length b)).
  { cbn [be_from fold_left] in Hfit. eapply Z.le_lt_trans; [|exact Hfit]. etrans; [|apply (be_from_mono mult); [done|nia|done]]. lia. }
  destruct (carry_loop base mult ch 0 len b) as [[c j] b1] eqn:E.
  apply carry_loop_fits in E as (-> & H1 & H2 & H3 & H4); try done; try lia. cbn [Z.eqb].
  assert (Hv : dval base b * mult + ch = dval base b1) by lia.
  destruct (IH j b1) as (len' & b' & E' & G1 & G2 & G3 & G4); try done.
  { rewrite H1, <- Hv. exact Hfit. }
  exists len', b'. split; [done|]. split; [lia|]. split; [done|]. split; [done|]. rewrite G4, <- Hv. done.
Qed.

(** ** Canonical digits *)

Lemma skip_zeroes_dval base l : 0 < base → be_from base 0 (skip_zeroes l) = be_from base 0 l.
Proof.
  intros Hb. induction l as [|d l IH]; [done|]. destruct d; [|done|done]. cbn [skip_zeroes]. rewrite IH. done.
Qed.
Lemma skip_zeroes_ok base l : digits_ok base l → digits_ok base (skip_zeroes l).
Proof. induction 1 as [|d l Hd Hl IH]; [constructor|]. destruct d; [done|by constructor..]. Qed.
Lemma skip_zeroes_head l : match skip_zeroes l with 0 :: _ => False | _ => True end.
Proof. induction l as [|d l IH]; [done|]. by destruct d. Qed.

Lemma canonical base l : 0 < base → digits_ok base l → match l with 0 :: _ => False | _ => True end →
  ∀ l', digits_ok base l' → match l' with 0 :: _ => False | _ => True end → be_from base 0 l = be_from base 0 l' → l = l'.
Proof.
  intros Hb.
  assert (Hlen : ∀ l l', digits_ok base l → digits_ok base l' → match l' with 0 :: _ => False | _ => True end →
    be_from base 0 l = be_from base 0 l' → (length l' <= length l)%nat).
  { intros l1 l2 H1 H2 Hh E. rewrite !be_from_dval in E by done. assert (B1 := dval_bound base (rev l1) Hb ltac:(by apply Forall_rev)).
    rewrite length_rev in B1. destruct l2 as [|d l2]; [cbn; lia|]. apply Forall_cons in H2 as [Hd H2].
    assert (B2 := dval_bound base (rev l2) Hb ltac:(by apply Forall_rev)). cbn [rev] in E. rewrite dval_app, length_rev in E by done.
    cbn [dval length] in *. assert (1 <= d) by (destruct d; [done|lia|lia]).
    assert (base ^ Z.of_nat (length l2) < base ^ Z.of_nat (length l1)) by nia.
    destruct (le_lt_dec (S (length l2)) (length l1)) as [|Hlt]; [done|]. exfalso.
    assert (base ^ Z.of_nat (length l1) <= base ^ Z.of_nat (length l2)) by (apply Z.pow_le_mono_r; lia). lia. }
  intros Hl Hh l' Hl' Hh' E. assert (length l = length l') by (apply Nat.le_antisymm; apply Hlen; done).
  rewrite !be_from_dval in E by done. rewrite <- (rev_involutive l), <- (rev_involutive l'). f_equal.
  apply (dval_inj base); rewrite ?length_rev; try done; try (by apply Forall_rev); lia.
Qed.

(** The digits a conversion leaves, stripped, are those of the number. *)
Lemma stripped base len b v : 0 < base → digits_ok base b → low len b → dval base b = v →
  let l := skip_zeroes (rev (take len b)) in
  digits_ok base l ∧ match l with 0 :: _ => False | _ => True end ∧ be_from base 0 l = v.
Proof.
  intros Hb Hd Hl <-. cbv zeta. split; [apply skip_zeroes_ok, Forall_rev; by apply Forall_take|]. split; [apply skip_zeroes_head|].
  rewrite skip_zeroes_dval, be_from_dval, rev_involutive by done. rewrite Z.mul_0_l, Z.add_0_l.
  rewrite <- (take_drop len b) at 2. rewrite dval_app by done. rewrite (low_0_value base (drop len b)); [lia|].
  intros k _. rewrite nth_skipn. apply Hl. lia.
Qed.

(** ** The buffers are large enough *)

Lemma pow_ratio a b p q n : 1 < a → 1 < b → (0 < q)%nat → a ^ Z.of_nat q <= b ^ Z.of_nat p →
  a ^ Z.of_nat n <= b ^ Z.of_nat (n * p / q + 1).
Proof.
  intros Ha Hb Hq Hpq. set (k := (n * p / q + 1)%nat). assert (Hk : (n * p <= q * k)%nat).
  { unfold k. assert (H := Nat.div_mod (n * p) q ltac:(lia)). assert (Hm := Nat.mod_upper_bound (n * p) q ltac:(lia)). nia. }
  destruct (Z.le_gt_cases (a ^ Z.of_nat n) (b ^ Z.of_nat k)) as [|Hlt]; [done|]. exfalso.
  assert (H1 : (b ^ Z.of_nat k) ^ Z.of_nat q < (a ^ Z.of_nat n) ^ Z.of_nat q).
  { apply Z.pow_lt_mono_l; [lia|]. split; [apply Z.pow_nonneg; lia|lia]. }
  rewrite <- !Z.pow_mul_r in H1 by lia.
  assert (H2 : a ^ (Z.of_nat n * Z.of_nat q) <= b ^ (Z.of_nat p * Z.of_nat n)).
  { rewrite (Z.mul_comm (Z.of_nat n)), !Z.pow_mul_r by lia. apply Z.pow_le_mono_l. split; [apply Z.pow_nonneg; lia|done]. }
  assert (H3 : b ^ (Z.of_nat p * Z.of_nat n) <= b ^ (Z.of_nat k * Z.of_nat q)) by (apply Z.pow_le_mono_r; nia). lia.
Qed.

Lemma encode_size n : 256 ^ Z.of_nat n <= 58 ^ Z.of_nat (n * 138 / 100 + 1).
Proof. apply pow_ratio; [lia|lia|lia|]. vm_compute. discriminate. Qed.
Lemma decode_size n : 58 ^ Z.of_nat n <= 256 ^ Z.of_nat (n * 733 / 1000 + 1).
Proof. apply pow_ratio; [lia|lia|lia|]. vm_compute. discriminate. Qed.

Lemma low_replicate n k : low k (replicate n 0).
Proof. intros j _. revert j. induction n as [|n IH]; intros [|j]; cbn; auto. Qed.

Lemma be_from_bound base l : 0 < base → digits_ok base l → 0 <= be_from base 0 l < base ^ Z.of_nat (length l).
Proof.
  intros Hb Hl. rewrite be_from_dval by done. assert (H := dval_bound base (rev l) Hb ltac:(by apply Forall_rev)).
  rewrite length_rev in H. lia.
Qed.

(** ** Characters *)

Definition digit_char (d : Z) : Z := nth (Z.to_nat d) digits 0.

Lemma digit_chars : forallb (λ n, let c := digit_char (Z.of_nat n) in
  negb (isspace c) && negb (c >=? 128) && (nth (Z.to_nat c) characterMap (-1) =? Z.of_nat n) && ((c =? 49) || (0 <? n)%nat) &&
  (negb (c =? 49) || (n =? 0)%nat)) (seq 0 58) = true.
Proof. vm_compute. reflexivity. Qed.

Lemma digit_char_ok d : 0 <= d < 58 →
  isspace (digit_char d) = false ∧ (digit_char d >=? 128) = false ∧ nth (Z.to_nat (digit_char d)) characterMap (-1) = d ∧
  (digit_char d = 49 ↔ d = 0).
Proof.
  intros Hd. assert (H := digit_chars). rewrite forallb_forall in H. specialize (H (Z.to_nat d)).
  rewrite Z2Nat.id in H by lia. cbv zeta in H. assert (Hin : In (Z.to_nat d) (seq 0 58)) by (apply in_seq; lia).
  apply H in Hin. clear H. rewrite !andb_true_iff, !orb_true_iff, !negb_true_iff, !Z.eqb_eq, Z.eqb_neq, Nat.ltb_lt, Nat.eqb_eq in Hin.
  destruct Hin as ((((H1 & H2) & H3) & H4) & H5). split; [done|]. split; [done|]. split; [done|]. lia.
Qed.

Lemma char_digit c : 0 <= c < 128 → -1 <= nth (Z.to_nat c) characterMap (-1) < 58.
Proof.
  intros Hc. assert (H : forallb (λ d, (-1 <=? d) && (d <? 58)) characterMap = true) by (vm_compute; reflexivity).
  rewrite forallb_forall in H. destruct (nth_in_or_default (Z.to_nat c) characterMap (-1)) as [Hin|E]; [|rewrite E; lia].
  apply H in Hin. apply andb_prop in Hin as [H1 H2]. apply Z.leb_le in H1. apply Z.ltb_lt in H2. lia.
Qed.

(** Decoding what was encoded is the conversion of its digits. *)
Lemma decode_loop_digits ds len b : digits_ok 58 ds →
  decode_loop (map digit_char ds) len b =
  match convert 256 58 ds len b with Some (len', b') => Some (Some (len', b', [])) | None => None end.
Proof.
  intros Hd. revert len b. induction Hd as [|d ds Hd Hds IH]; intros len b; [done|]. cbn [map decode_loop convert].
  destruct (digit_char_ok d Hd) as (-> & -> & -> & _). destruct (Z.eqb_spec d (-1)); [lia|].
  destruct (carry_loop 256 58 d 0 len b) as [[c j] b1]. destruct (c =? 0); [apply IH|done].
Qed.

(** The assertion of the decoder holds for every string of characters. *)
Lemma decode_loop_total s len b k : Forall (λ c, 0 <= c < 256) s → digits_ok 256 b → low len b → dval 256 b < 58 ^ Z.of_nat k →
  58 ^ Z.of_nat (k + length s) <= 256 ^ Z.of_nat (length b) → decode_loop s len b ≠ None.
Proof.
  intros Hs. revert len b k. induction Hs as [|c s Hc Hs IH]; intros len b k Hd Hl Hv Hfit; cbn [decode_loop]; [done|].
  destruct (isspace c); [done|]. destruct (Z.geb_spec c 128); [done|]. destruct (Z.eqb_spec (nth (Z.to_nat c) characterMap (-1)) (-1)); [done|].
  assert (Hd' := char_digit c ltac:(lia)). set (d := nth (Z.to_nat c) characterMap (-1)) in *.
  assert (Hbound := dval_bound 256 b ltac:(lia) Hd). cbn [length] in Hfit.
  assert (Hk : 58 ^ Z.of_nat (S k) = 58 * 58 ^ Z.of_nat k) by apply pow_succ_nat.
  assert (Hle : 58 ^ Z.of_nat (S k) <= 58 ^ Z.of_nat (k + S (length s))) by (apply Z.pow_le_mono_r; lia).
  destruct (carry_loop 256 58 d 0 len b) as [[c1 j] b1] eqn:E.
  apply carry_loop_fits in E as (-> & H1 & H2 & H3 & H4); try done; try lia. cbn [Z.eqb].
  apply (IH j b1 (S k)); try done; [rewrite H4; lia|]. rewrite H1. replace (S k + length s)%nat with (k + S (length s))%nat by lia. done.
Qed.

Lemma count_leading_split c l : ∃ l', l = replicate (count_leading c l) c ++ l' ∧ match l' with d :: _ => d ≠ c | [] => True end.
Proof.
  induction l as [|d l (l' & E & H)]; [by exists []|]. cbn [count_leading]. destruct (Z.eqb_spec d c) as [->|Hne].
  - exists l'. cbn [replicate app]. split; [by f_equal|done].
  - by exists (d :: l).
Qed.
Lemma count_leading_app c n l : match l with d :: _ => d ≠ c | [] => True end → count_leading c (replicate n c ++ l) = n.
Proof.
  intros Hl. induction n as [|n IH]; cbn [replicate app count_leading]; [|by rewrite Z.eqb_refl, IH].
  destruct l as [|d l]; [done|]. cbn [count_leading]. by destruct (Z.eqb_spec d c).
Qed.

(** Encoding: the zeroes, then the digits of the number *)
Lemma EncodeBase58_ok v : digits_ok 256 v → ∃ zeroes rest ds,
  v = replicate zeroes 0 ++ rest ∧ match rest with 0 :: _ => False | _ => True end ∧ digits_ok 256 rest ∧
  digits_ok 58 ds ∧ match ds with 0 :: _ => False | _ => True end ∧ be_from 58 0 ds = be_from 256 0 rest ∧
  EncodeBase58 v = Some (replicate zeroes 49 ++ map digit_char ds).
Proof.
  intros Hv. unfold EncodeBase58. destruct (count_leading_split 0 v) as (rest & E & Hh). set (z := count_leading 0 v) in *.
  assert (Er : drop z v = rest) by (rewrite E, drop_app, length_replicate, drop_ge, Nat.sub_diag by (by rewrite length_replicate); done).
  cbv zeta. rewrite Er. assert (Hr : digits_ok 256 rest) by (rewrite E in Hv; by apply Forall_app in Hv as [_ ?]).
  assert (Hb := be_from_bound 256 rest ltac:(lia) Hr). assert (Hs := encode_size (length rest)).
  destruct (convert_ok 58 256 rest 0 (replicate (length rest * 138 / 100 + 1) 0)) as (len & b & Ec & Hlb & Hdb & Hlow & Hval);
    [lia|lia|done|apply digits_ok_replicate_0; lia|apply low_replicate|rewrite dval_replicate_0, length_replicate; lia|].
  rewrite Ec. cbn [mbind option_bind]. rewrite dval_replicate_0 in Hval.
  destruct (stripped 58 len b _ ltac:(lia) Hdb Hlow Hval) as (H1 & H2 & H3).
  exists z, rest, (skip_zeroes (rev (take len b))). split; [done|]. split; [by destruct rest as [|[] ?]|]. auto 10.
Qed.

Lemma skip_spaces_none s : match s with c :: _ => isspace c = false | [] => True end → skip_spaces s = s.
Proof. destruct s as [|c s]; [done|]. cbn [skip_spaces]. by intros ->. Qed.

Lemma DecodeBase58_digits zeroes ds rest : digits_ok 58 ds → match ds with 0 :: _ => False | _ => True end →
  digits_ok 256 rest → match rest with 0 :: _ => False | _ => True end → be_from 58 0 ds = be_from 256 0 rest →
  DecodeBase58 (replicate zeroes 49 ++ map digit_char ds) = Some (Some (replicate zeroes 0 ++ rest)).
Proof.
  intros Hds Hh Hr Hhr E. unfold DecodeBase58. cbv zeta. change (nth 0 digits 0) with 49.
  assert (Hhead : match map digit_char ds with d :: _ => d ≠ 49 ∧ isspace d = false | [] => True end).
  { destruct ds as [|d ds]; [done|]. cbn. apply Forall_cons in Hds as [Hd _]. destruct (digit_char_ok d Hd) as (H1 & _ & _ & H2).
    split; [|done]. rewrite H2. by intros ->. }
  rewrite skip_spaces_none by (destruct zeroes; [|done]; cbn; by destruct (map digit_char ds); [|destruct Hhead]).
  rewrite count_leading_app by (by destruct (map digit_char ds); [|destruct Hhead]).
  rewrite drop_app, length_replicate, Nat.sub_diag, drop_ge by (by rewrite length_replicate). cbn [app drop].
  rewrite drop_0, length_map. assert (Hb := be_from_bound 58 ds ltac:(lia) Hds). assert (Hs := decode_size (length ds)).
  destruct (convert_ok 256 58 ds 0 (replicate (length ds * 733 / 1000 + 1) 0)) as (len & b & Ec & Hlb & Hdb & Hlow & Hval);
    [lia|lia|done|apply digits_ok_replicate_0; lia|apply low_replicate|rewrite dval_replicate_0, length_replicate; lia|].
  rewrite decode_loop_digits, Ec by done. cbn [mbind option_bind]. rewrite dval_replicate_0 in Hval.
  destruct (stripped 256 len b _ ltac:(lia) Hdb Hlow Hval) as (H1 & H2 & H3). rewrite E in H3.
  rewrite (canonical 256 _ ltac:(lia) H1 H2 rest Hr Hhr H3). by rewrite bool_decide_eq_true_2.
Qed.

Lemma Base58_inverse v : digits_ok 256 v → ∃ s, EncodeBase58 v = Some s ∧ DecodeBase58 s = Some (Some v).
Proof.
  intros Hv. destruct (EncodeBase58_ok v Hv) as (z & rest & ds & -> & H1 & H2 & H3 & H4 & H5 & E). eexists. split; [exact E|].
  by apply DecodeBase58_digits.
Qed.

Lemma Forall_skip_spaces (P : Z → Prop) s : Forall P s → Forall P (skip_spaces s).
Proof. induction 1 as [|c s Hc Hs IH]; [constructor|]. cbn [skip_spaces]. destruct (isspace c); [done|by constructor]. Qed.

Lemma DecodeBase58_total psz : Forall (λ c, 0 <= c < 256) psz → DecodeBase58 psz ≠ None.
Proof.
  intros Hp. unfold DecodeBase58. cbv zeta. set (it := drop _ _). assert (Hit : Forall (λ c, 0 <= c < 256) it).
  { apply Forall_drop. by apply Forall_skip_spaces. }
  clearbody it. assert (H := decode_loop_total it 0 (replicate (length it * 733 / 1000 + 1) 0) 0 Hit).
  destruct (decode_loop it 0 _) as [[[[len b] rest]|]|]; cbn [mbind option_bind]; [by case_bool_decide|done|].
  exfalso. apply H; try done; [apply digits_ok_replicate_0; lia|apply low_replicate|rewrite dval_replicate_0; lia|].
  rewrite length_replicate. apply decode_size.
Qed.

Section check_facts.
Context {DG : Digests} {DGok : DigestsOk}.

Lemma Base58Check_inverse v : digits_ok 256 v → ∃ s, EncodeBase58Check v = Some s ∧ DecodeBase58Check s = Some (Some v).
Proof.
  intros Hv. unfold EncodeBase58Check. destruct (getBytes_ok W256 _ (Hash_wf v)) as (Hd & Hl & _).
  assert (H4 : length (take 4 (getBytes (Hash v))) = 4%nat) by (rewrite length_take, Hl; done).
  destruct (Base58_inverse (v ++ take 4 (getBytes (Hash v)))) as (s & E & D); [apply Forall_app; split; [done|by apply Forall_take]|].
  exists s. split; [done|]. unfold DecodeBase58Check. rewrite D. cbn [mbind option_bind]. rewrite length_app, H4.
  destruct (Nat.ltb_spec (length v + 4) 4); [lia|]. replace (length v + 4 - 4)%nat with (length v) by lia.
  rewrite take_app_length, drop_app_length. by rewrite bool_decide_eq_true_2.
Qed.

Lemma SetString_inverse b : 0 <= b58_nVersion b < 256 → digits_ok 256 (vchData b) → ∃ s, b58_ToString b = Some s ∧ SetString s = Some (true, b).
Proof.
  intros Hn Hd. unfold b58_ToString. destruct (Base58Check_inverse (b58_nVersion b :: vchData b)) as (s & E & D); [by constructor|].
  exists s. split; [done|]. unfold SetString. rewrite D. cbn [mbind option_bind]. by destruct b.
Qed.

Lemma SetString_total psz : Forall (λ c, 0 <= c < 256) psz → SetString psz ≠ None.
Proof.
  intros Hp. unfold SetString, DecodeBase58Check. assert (H := DecodeBase58_total psz Hp).
  destruct (DecodeBase58 psz) as [[v|]|]; cbn [mbind option_bind]; [|done|done].
  destruct (_ <? _)%nat; [done|]. case_bool_decide; [|done]. cbn [mbind option_bind]. by destruct (take _ v).
Qed.
End check_facts.

(** ** Properties *)

(** Base58: every byte vector is encoded without the assertion on the carry
    failing (the estimated buffer is large enough), decoding gives it back with
    its leading zero bytes, and decoding never fails its assertion either, for
    any string of characters. *)
Theorem base58_roundtrip v psz : digits_ok 256 v → Forall (λ c, 0 <= c < 256) psz →
  (∃ s, EncodeBase58 v = Some s ∧ DecodeBase58 s = Some (Some v)) ∧ DecodeBase58 psz ≠ None.
Proof. intros Hv Hp. split; [by apply Base58_inverse|by apply DecodeBase58_total]. Qed.

Lemma base58_roundtrip_witness :
  (∃ s, EncodeBase58 [0; 0; 1; 255] = Some s ∧ DecodeBase58 s = Some (Some [0; 0; 1; 255])) ∧ DecodeBase58 [32; 49; 73] ≠ None.
Proof. apply (base58_roundtrip [0; 0; 1; 255] [32; 49; 73]); repeat constructor; lia. Defined.

(** Addresses and secrets survive their text form: the text of an address of a key
    or script hash is read back as the same address, valid on its network only,
    for the same destination; the text of a secret gives the secret and its
    compression flag back; no string makes the reader fail an assertion. *)
Theorem address_roundtrip {DG : Digests} {DGok : DigestsOk} net pair_valid id secret fCompressed psz :
  wf W160 id → digits_ok 256 secret → length secret = 32%nat → Forall (λ c, 0 <= c < 256) psz →
  (∀ dest, dest = CKeyID id ∨ dest = CScriptID id →
    let b := (addr_Set net dest).2 in
    (∃ s, b58_ToString b = Some s ∧ SetString s = Some (true, b)) ∧ addr_Get net pair_valid b = dest ∧
    addr_IsValid net pair_valid b = true ∧ addr_IsValid (negb net) pair_valid b = false) ∧
  (∃ b s, SetSecret net secret fCompressed = Some b ∧ b58_ToString b = Some s ∧ secret_SetString net s = Some (true, b) ∧
    GetSecret b = (secret, fCompressed)) ∧
  SetString psz ≠ None.
Proof.
  intros Hid Hs Hlen Hp. destruct (getBytes_ok W160 id Hid) as (Hd & Hl & _ & Hback). split; [|split; [|by apply SetString_total]].
  - assert (Ht : take 20 (getBytes id) = getBytes id) by (apply take_ge; rewrite Hl; done).
    intros dest [-> | ->]; cbv zeta; (split; [apply SetString_inverse; [by destruct net|done]|]);
      cbn [addr_Set snd]; unfold addr_Get, addr_IsValid; destruct net; cbn [b58_nVersion vchData]; rewrite Hl; vm_compute Nat.eqb;
      cbn -[take getBytes]; rewrite Ht, Hback; done.
  - unfold SetSecret. rewrite Hlen. cbn [Nat.eqb]. eexists. destruct (SetString_inverse (mkBase58 (u8 (128 + (if net then PUBKEY_ADDRESS_TEST
      else PUBKEY_ADDRESS))) (secret ++ (if fCompressed then [1] else [])))) as (s & E & D).
    { by destruct net. }
    { cbn. apply Forall_app. split; [done|]. destruct fCompressed; repeat constructor; lia. }
    exists s. split; [done|]. split; [exact E|]. unfold secret_SetString. rewrite D. cbn [mbind option_bind andb]. split.
    + do 2 f_equal. unfold secret_IsValid. cbn [b58_nVersion vchData]. rewrite length_app, Hlen.
      destruct net, fCompressed; cbn -[nth]; try done; rewrite app_nth2 by lia; by rewrite Hlen.
    + unfold GetSecret. cbn [vchData]. rewrite length_app, Hlen, take_app_le, take_ge by lia. by destruct fCompressed.
Qed.

#[local] Existing Instances sample_digests sample_digests_ok.

Lemma address_roundtrip_witness :
  let id := [1; 2; 3; 4; 4294967295] in
  (∀ dest, dest = CKeyID id ∨ dest = CScriptID id →
    let b := (addr_Set true dest).2 in
    (∃ s, b58_ToString b = Some s ∧ SetString s = Some (true, b)) ∧ addr_Get true (λ _, false) b = dest ∧
    addr_IsValid true (λ _, false) b = true ∧ addr_IsValid false (λ _, false) b = false) ∧
  (∃ b s, SetSecret true (replicate 32 7) true = Some b ∧ b58_ToString b = Some s ∧ secret_SetString true s = Some (true, b) ∧
    GetSecret b = (replicate 32 7, true)) ∧
  SetString [49; 32] ≠ None.
Proof.
  apply (address_roundtrip true (λ _, false) [1; 2; 3; 4; 4294967295] (replicate 32 7) true [49; 32]);
    [split; [reflexivity|repeat constructor; vm_compute; auto; discriminate]|apply Forall_replicate; lia|reflexivity|repeat constructor; lia].
Defined.
