(* ===== verification/Encoding.v ===== *)
(** * Text encodings (src/util.cpp, src/util.h)

    Base64 and base32, hexadecimal, amounts of money, the escapes of wallet dumps
    and wildcard masks.  A character is its code; a C string is the list of its
    characters before the terminating zero, and reading at the end gives zero. *)

From stdpp Require Import base list numbers option gmap.
From Stdlib Require Import ZArith Lia.
From S2P Require Import Prelude Uint256 Tx.

Open Scope Z_scope.

(** ** Tables *)

Definition pbase64 : list Z :=
  [65; 66; 67; 68; 69; 70; 71; 72; 73; 74; 75; 76; 77; 78; 79; 80;
   81; 82; 83; 84; 85; 86; 87; 88; 89; 90; 97; 98; 99; 100; 101; 102;
   103; 104; 105; 106; 107; 108; 109; 110; 111; 112; 113; 114; 115; 116; 117; 118;
   119; 120; 121; 122; 48; 49; 50; 51; 52; 53; 54; 55; 56; 57; 43; 47].

Definition decode64_table : list Z :=
  [-1; -1; -1; -1; -1; -1; -1; -1; -1; -1; -1; -1; -1; -1; -1; -1;
   -1; -1; -1; -1; -1; -1; -1; -1; -1; -1; -1; -1; -1; -1; -1; -1;
   -1; -1; -1; -1; -1; -1; -1; -1; -1; -1; -1; 62; -1; -1; -1; 63;
   52; 53; 54; 55; 56; 57; 58; 59; 60; 61; -1; -1; -1; -1; -1; -1;
   -1; 0; 1; 2; 3; 4; 5; 6; 7; 8; 9; 10; 11; 12; 13; 14;
   15; 16; 17; 18; 19; 20; 21; 22; 23; 24; 25; -1; -1; -1; -1; -1;
   -1; 26; 27; 28; 29; 30; 31; 32; 33; 34; 35; 36; 37; 38; 39; 40;
   41; 42; 43; 44; 45; 46; 47; 48; 49; 50; 51; -1; -1; -1; -1; -1;
   -1; -1; -1; -1; -1; -1; -1; -1; -1; -1; -1; -1; -1; -1; -1; -1;
   -1; -1; -1; -1; -1; -1; -1; -1; -1; -1; -1; -1; -1; -1; -1; -1;
   -1; -1; -1; -1; -1; -1; -1; -1; -1; -1; -1; -1; -1; -1; -1; -1;
   -1; -1; -1; -1; -1; -1; -1; -1; -1; -1; -1; -1; -1; -1; -1; -1;
   -1; -1; -1; -1; -1; -1; -1; -1; -1; -1; -1; -1; -1; -1; -1; -1;
   -1; -1; -1; -1; -1; -1; -1; -1; -1; -1; -1; -1; -1; -1; -1; -1;
   -1; -1; -1; -1; -1; -1; -1; -1; -1; -1; -1; -1; -1; -1; -1; -1;
   -1; -1; -1; -1; -1; -1; -1; -1; -1; -1; -1; -1; -1; -1; -1; -1].

Definition pbase32 : list Z :=
  [97; 98; 99; 100; 101; 102; 103; 104; 105; 106; 107; 108; 109; 110; 111; 112;
   113; 114; 115; 116; 117; 118; 119; 120; 121; 122; 50; 51; 52; 53; 54; 55].

Definition decode32_table : list Z :=
  [-1; -1; -1; -1; -1; -1; -1; -1; -1; -1; -1; -1; -1; -1; -1; -1;
   -1; -1; -1; -1; -1; -1; -1; -1; -1; -1; -1; -1; -1; -1; -1; -1;
   -1; -1; -1; -1; -1; -1; -1; -1; -1; -1; -1; -1; -1; -1; -1; -1;
   -1; -1; 26; 27; 28; 29; 30; 31; -1; -1; -1; -1; -1; -1; -1; -1;
   -1; 0; 1; 2; 3; 4; 5; 6; 7; 8; 9; 10; 11; 12; 13; 14;
   15; 16; 17; 18; 19; 20; 21; 22; 23; 24; 25; -1; -1; -1; -1; -1;
   -1; 0; 1; 2; 3; 4; 5; 6; 7; 8; 9; 10; 11; 12; 13; 14;
   15; 16; 17; 18; 19; 20; 21; 22; 23; 24; 25; -1; -1; -1; -1; -1;
   -1; -1; -1; -1; -1; -1; -1; -1; -1; -1; -1; -1; -1; -1; -1; -1;
   -1; -1; -1; -1; -1; -1; -1; -1; -1; -1; -1; -1; -1; -1; -1; -1;
   -1; -1; -1; -1; -1; -1; -1; -1; -1; -1; -1; -1; -1; -1; -1; -1;
   -1; -1; -1; -1; -1; -1; -1; -1; -1; -1; -1; -1; -1; -1; -1; -1;
   -1; -1; -1; -1; -1; -1; -1; -1; -1; -1; -1; -1; -1; -1; -1; -1;
   -1; -1; -1; -1; -1; -1; -1; -1; -1; -1; -1; -1; -1; -1; -1; -1;
   -1; -1; -1; -1; -1; -1; -1; -1; -1; -1; -1; -1; -1; -1; -1; -1;
   -1; -1; -1; -1; -1; -1; -1; -1; -1; -1; -1; -1; -1; -1; -1; -1].

(** The table [phexdigit] of src/util.cpp; the one of src/uint256.cpp has 0 where
    this one has -1 *)
Definition util_phexdigit : list Z :=
  [-1; -1; -1; -1; -1; -1; -1; -1; -1; -1; -1; -1; -1; -1; -1; -1;
   -1; -1; -1; -1; -1; -1; -1; -1; -1; -1; -1; -1; -1; -1; -1; -1;
   -1; -1; -1; -1; -1; -1; -1; -1; -1; -1; -1; -1; -1; -1; -1; -1;
   0; 1; 2; 3; 4; 5; 6; 7; 8; 9; -1; -1; -1; -1; -1; -1;
   -1; 10; 11; 12; 13; 14; 15; -1; -1; -1; -1; -1; -1; -1; -1; -1;
   -1; -1; -1; -1; -1; -1; -1; -1; -1; -1; -1; -1; -1; -1; -1; -1;
   -1; 10; 11; 12; 13; 14; 15; -1; -1; -1; -1; -1; -1; -1; -1; -1;
   -1; -1; -1; -1; -1; -1; -1; -1; -1; -1; -1; -1; -1; -1; -1; -1;
   -1; -1; -1; -1; -1; -1; -1; -1; -1; -1; -1; -1; -1; -1; -1; -1;
   -1; -1; -1; -1; -1; -1; -1; -1; -1; -1; -1; -1; -1; -1; -1; -1;
   -1; -1; -1; -1; -1; -1; -1; -1; -1; -1; -1; -1; -1; -1; -1; -1;
   -1; -1; -1; -1; -1; -1; -1; -1; -1; -1; -1; -1; -1; -1; -1; -1;
   -1; -1; -1; -1; -1; -1; -1; -1; -1; -1; -1; -1; -1; -1; -1; -1;
   -1; -1; -1; -1; -1; -1; -1; -1; -1; -1; -1; -1; -1; -1; -1; -1;
   -1; -1; -1; -1; -1; -1; -1; -1; -1; -1; -1; -1; -1; -1; -1; -1;
   -1; -1; -1; -1; -1; -1; -1; -1; -1; -1; -1; -1; -1; -1; -1; -1].

Definition hexmap : list Z :=
  [48; 49; 50; 51; 52; 53; 54; 55; 56; 57; 97; 98; 99; 100; 101; 102].

Definition at_ (l : list Z) (i : Z) : Z := nth (Z.to_nat i) l 0.

(** ** Base64 *)

(** One byte: the characters written, the mode and the bits left *)
Definition encode64_step (mode bits_left enc : Z) : list Z * Z * Z :=
  match mode with
  | 0 => ([at_ pbase64 (Z.shiftr enc 2)], 1, Z.shiftl (Z.land enc 3) 4)
  | 1 => ([at_ pbase64 (Z.lor bits_left (Z.shiftr enc 4))], 2, Z.shiftl (Z.land enc 15) 2)
  | 2 => ([at_ pbase64 (Z.lor bits_left (Z.shiftr enc 6)); at_ pbase64 (Z.land enc 63)], 0, bits_left)
  | _ => ([], mode, bits_left)
  end.
Fixpoint encode64_loop (mode bits_left : Z) (pch : list Z) : list Z * Z * Z :=
  match pch with
  | [] => ([], mode, bits_left)
  | enc :: pch =>
      let '(out, mode, bits_left) := encode64_step mode bits_left enc in
      let '(rest, mode, bits_left) := encode64_loop mode bits_left pch in
      (out ++ rest, mode, bits_left)
  end.
Definition EncodeBase64 (pch : list Z) : list Z :=
  let '(strRet, mode, bits_left) := encode64_loop 0 0 pch in
  if mode =? 0 then strRet
  else strRet ++ [at_ pbase64 bits_left; 61] ++ (if mode =? 1 then [61] else []).

(** One character with its value: the bytes pushed, the mode and the bits left *)
Definition decode64_step (mode bits_left dec : Z) : list Z * Z * Z :=
  match mode with
  | 0 => ([], 1, dec)
  | 1 => ([u8 (Z.lor (Z.shiftl bits_left 2) (Z.shiftr dec 4))], 2, Z.land dec 15)
  | 2 => ([u8 (Z.lor (Z.shiftl bits_left 4) (Z.shiftr dec 2))], 3, Z.land dec 3)
  | 3 => ([u8 (Z.lor (Z.shiftl bits_left 6) dec)], 0, bits_left)
  | _ => ([], mode, bits_left)
  end.

(** The loops of both decoders: bytes, mode, bits left, and where they stopped *)
Fixpoint decode_chars (step : Z → Z → Z → list Z * Z * Z) (table : list Z) (mode bits_left : Z) (p : list Z) : list Z * Z * Z * list Z :=
  match p with
  | [] => ([], mode, bits_left, [])
  | c :: t =>
      let dec := at_ table c in
      if dec =? -1 then ([], mode, bits_left, p)
      else
        let '(out, mode, bits_left) := step mode bits_left dec in
        let '(rest, mode, bits_left, p) := decode_chars step table mode bits_left t in
        (out ++ rest, mode, bits_left, p)
  end.

(** [p[0] = '=', ..., p[n-1] = '='] and no character of the alphabet after that *)
Definition padded (n : nat) (table p : list Z) : bool :=
  forallb (λ k, nth k p 0 =? 61) (seq 0 n) && (at_ table (nth n p 0) =? -1).

(** [*pfInvalid] *)
Definition base64_invalid (mode bits_left : Z) (p : list Z) : bool :=
  match mode with
  | 1 => true
  | 2 => negb (bits_left =? 0) || negb (padded 2 decode64_table p)
  | 3 => negb (bits_left =? 0) || negb (padded 1 decode64_table p)
  | _ => false
  end.
Definition DecodeBase64 (p : list Z) : list Z * bool :=
  let '(vchRet, mode, bits_left, p) := decode_chars decode64_step decode64_table 0 0 p in
  (vchRet, base64_invalid mode bits_left p).

(** ** Base32 *)

Definition encode32_step (mode bits_left enc : Z) : list Z * Z * Z :=
  match mode with
  | 0 => ([at_ pbase32 (Z.shiftr enc 3)], 1, Z.shiftl (Z.land enc 7) 2)
  | 1 => ([at_ pbase32 (Z.lor bits_left (Z.shiftr enc 6)); at_ pbase32 (Z.land (Z.shiftr enc 1) 31)], 2, Z.shiftl (Z.land enc 1) 4)
  | 2 => ([at_ pbase32 (Z.lor bits_left (Z.shiftr enc 4))], 3, Z.shiftl (Z.land enc 15) 1)
  | 3 => ([at_ pbase32 (Z.lor bits_left (Z.shiftr enc 7)); at_ pbase32 (Z.land (Z.shiftr enc 2) 31)], 4, Z.shiftl (Z.land enc 3) 3)
  | 4 => ([at_ pbase32 (Z.lor bits_left (Z.shiftr enc 5)); at_ pbase32 (Z.land enc 31)], 0, bits_left)
  | _ => ([], mode, bits_left)
  end.
Fixpoint encode32_loop (mode bits_left : Z) (pch : list Z) : list Z * Z * Z :=
  match pch with
  | [] => ([], mode, bits_left)
  | enc :: pch =>
      let '(out, mode, bits_left) := encode32_step mode bits_left enc in
      let '(rest, mode, bits_left) := encode32_loop mode bits_left pch in
      (out ++ rest, mode, bits_left)
  end.
Definition nPadding : list nat := [0; 6; 4; 3; 1]%nat.
Definition EncodeBase32 (pch : list Z) : list Z :=
  let '(strRet, mode, bits_left) := encode32_loop 0 0 pch in
  if mode =? 0 then strRet
  else strRet ++ [at_ pbase32 bits_left] ++ replicate (nth (Z.to_nat mode) nPadding 0%nat) 61.

Definition decode32_step (mode bits_left dec : Z) : list Z * Z * Z :=
  match mode with
  | 0 => ([], 1, dec)
  | 1 => ([u8 (Z.lor (Z.shiftl bits_left 3) (Z.shiftr dec 2))], 2, Z.land dec 3)
  | 2 => ([], 3, Z.lor (Z.shiftl bits_left 5) dec)
  | 3 => ([u8 (Z.lor (Z.shiftl bits_left 1) (Z.shiftr dec 4))], 4, Z.land dec 15)
  | 4 => ([u8 (Z.lor (Z.shiftl bits_left 4) (Z.shiftr dec 1))], 5, Z.land dec 1)
  | 5 => ([], 6, Z.lor (Z.shiftl bits_left 5) dec)
  | 6 => ([u8 (Z.lor (Z.shiftl bits_left 2) (Z.shiftr dec 3))], 7, Z.land dec 7)
  | 7 => ([u8 (Z.lor (Z.shiftl bits_left 5) dec)], 0, bits_left)
  | _ => ([], mode, bits_left)
  end.
Definition base32_invalid (mode bits_left : Z) (p : list Z) : bool :=
  match mode with
  | 1 | 3 | 6 => true
  | 2 => negb (bits_left =? 0) || negb (padded 6 decode32_table p)
  | 4 => negb (bits_left =? 0) || negb (padded 4 decode32_table p)
  | 5 => negb (bits_left =? 0) || negb (padded 3 decode32_table p)
  | 7 => negb (bits_left =? 0) || negb (padded 1 decode32_table p)
  | _ => false
  end.
Definition DecodeBase32 (p : list Z) : list Z * bool :=
  let '(vchRet, mode, bits_left, p) := decode_chars decode32_step decode32_table 0 0 p in
  (vchRet, base32_invalid mode bits_left p).

(** ** Hexadecimal *)

Fixpoint hex_loop (fSpaces first : bool) (vch : list Z) : list Z :=
  match vch with
  | [] => []
  | val :: vch =>
      (if fSpaces && negb first then [32] else []) ++
      at_ hexmap (Z.shiftr val 4) :: at_ hexmap (Z.land val 15) :: hex_loop fSpaces false vch
  end.
Definition HexStr (vch : list Z) (fSpaces : bool) : list Z := hex_loop fSpaces true vch.
Definition IsHex (str : list Z) : bool :=
  forallb (λ c, 0 <=? at_ util_phexdigit c) str && (0 <? length str)%nat && (length str mod 2 =? 0)%nat.
Fixpoint ParseHex (psz : list Z) : list Z :=
  match psz with
  | [] => []
  | c :: t =>
      if isspace c then ParseHex t
      else
        let h := at_ util_phexdigit c in
        if h =? -1 then []
        else
          match t with
          | [] => []
          | c2 :: t2 =>
              let l := at_ util_phexdigit c2 in
              if l =? -1 then [] else Z.lor (u8 (Z.shiftl h 4)) l :: ParseHex t2
          end
  end.

(** ** Escapes in wallet dumps *)

Definition dump_char (c : Z) : list Z := if (c <=? 32) || (c >=? 128) || (c =? 37) then 37 :: HexStr [c] false else [c].
Definition EncodeDumpString (str : list Z) : list Z := concat (map dump_char str).

(** A plain [char] of the string is signed. *)
Definition dump_digit (c : Z) : Z :=
  let c := if c >=? 128 then c - 256 else c in Z.shiftr c 6 * 9 + Z.land (c - 48) 15.
Fixpoint DecodeDumpString (str : list Z) : list Z :=
  match str with
  | c :: t =>
      match t with
      | h :: l :: t' =>
          if c =? 37 then u8 (Z.lor (Z.shiftl (dump_digit h) 4) (dump_digit l)) :: DecodeDumpString t'
          else c :: DecodeDumpString t
      | _ => c :: DecodeDumpString t
      end
  | [] => []
  end.

(** ** Wildcard masks *)

(** The loop and its recursive calls; each consumes a character of the string or
    of the mask. [None] is the end of the fuel. *)
Fixpoint WildcardMatch (fuel : nat) (psz mask : list Z) : option bool :=
  match fuel with
  | O => None
  | S fuel =>
      match mask with
      | [] => Some (bool_decide (psz = []))
      | m :: mask' =>
          if m =? 42 then
            r ← WildcardMatch fuel psz mask';
            if r : bool then Some true
            else match psz with [] => Some false | _ :: psz' => WildcardMatch fuel psz' mask end
          else
            match psz with
            | [] => Some false
            | c :: psz' => if (m =? 63) || (c =? m) then WildcardMatch fuel psz' mask' else Some false
            end
      end
  end.

(** ** Money *)

Definition isdigit (c : Z) : bool := (48 <=? c) && (c <=? 57).

(** Decimal digits of a number of at most 20 digits, and the number of a string of digits *)
Fixpoint dec_loop (fuel : nat) (n : Z) (acc : list Z) : list Z :=
  match fuel with
  | O => acc
  | S fuel => let acc := 48 + n mod 10 :: acc in if n / 10 =? 0 then acc else dec_loop fuel (n / 10) acc
  end.
Definition dec_text (n : Z) : list Z := dec_loop 20 n [].
Definition dec_value (l : list Z) : Z := fold_left (λ a c, a * 10 + (c - 48)) l 0.
(** [strtoll] of a string of digits *)
Definition atoi64 (str : list Z) : Z := Z.min (2 ^ 63 - 1) (dec_value str).

(** "Right-trim excess zeros", on the reversed string *)
Fixpoint trim_zeros (r : list Z) : list Z :=
  match r with
  | c0 :: t =>
      match t with
      | c1 :: c2 :: _ => if (c0 =? 48) && isdigit c2 then trim_zeros t else r
      | _ => r
      end
  | [] => []
  end.

(** [None] is the overflow of [-n] at the least integer *)
Definition FormatMoney (n : Z) (fPlus : bool) : option (list Z) :=
  if n =? - 2 ^ 63 then None
  else
    let n_abs := if n >? 0 then n else - n in
    let quotient := n_abs / COIN in
    let remainder := dec_text (n_abs mod COIN) in
    let str := dec_text quotient ++ 46 :: replicate (6 - length remainder) 48 ++ remainder in
    let str := rev (trim_zeros (rev str)) in
    Some (if n <? 0 then 45 :: str else if fPlus && (n >? 0) then 43 :: str else str).

(** The digits after the point: the units and the rest of the string *)
Fixpoint money_units (nMult nUnits : Z) (p : list Z) : Z * list Z :=
  match p with
  | c :: t => if isdigit c && (nMult >? 0) then money_units (nMult / 10) (nUnits + nMult * (c - 48)) t else (nUnits, p)
  | [] => (nUnits, [])
  end.
Fixpoint money_whole (strWhole p : list Z) : option (list Z * Z * list Z) :=
  match p with
  | [] => Some (strWhole, 0, [])
  | c :: t =>
      if c =? 46 then let '(nUnits, rest) := money_units (CENT * 10) 0 t in Some (strWhole, nUnits, rest)
      else if isspace c then Some (strWhole, 0, p)
      else if negb (isdigit c) then None
      else money_whole (strWhole ++ [c]) t
  end.
Definition ParseMoney (pszIn : list Z) : option Z :=
  '(strWhole, nUnits, p) ← money_whole [] (skip_spaces pszIn);
  if negb (forallb isspace p) then None
  else if (10 <? length strWhole)%nat then None
  else if (nUnits <? 0) || (nUnits >? COIN) then None
  else Some (i64 (atoi64 strWhole * COIN + nUnits)).

(** ** Bits as numbers *)

Lemma lor_shl x k y : 0 <= k → 0 <= y < 2 ^ k → Z.lor (Z.shiftl x k) y = x * 2 ^ k + y.
Proof. intros Hk Hy. rewrite Z.lor_comm, lor_add_disjoint by done. lia. Qed.

(** Bit operations on bytes, as arithmetic *)
Lemma land_ones_n x n m : 0 <= n → m = Z.ones n → Z.land x m = x mod 2 ^ n.
Proof. intros Hn ->. by apply Z.land_ones. Qed.
Lemma land_1 x : Z.land x 1 = x mod 2.
Proof. by apply (land_ones_n x 1). Qed.
Lemma land_3 x : Z.land x 3 = x mod 4.
Proof. by apply (land_ones_n x 2). Qed.
Lemma land_7 x : Z.land x 7 = x mod 8.
Proof. by apply (land_ones_n x 3). Qed.
Lemma land_15 x : Z.land x 15 = x mod 16.
Proof. by apply (land_ones_n x 4). Qed.
Lemma land_31 x : Z.land x 31 = x mod 32.
Proof. by apply (land_ones_n x 5). Qed.
Lemma land_63 x : Z.land x 63 = x mod 64.
Proof. by apply (land_ones_n x 6). Qed.
Ltac bits_arith :=
  rewrite ?land_1, ?land_3, ?land_7, ?land_15, ?land_31, ?land_63; repeat rewrite Z.shiftr_div_pow2 by lia;
  change (2 ^ 1) with 2; change (2 ^ 2) with 4; change (2 ^ 3) with 8; change (2 ^ 4) with 16; change (2 ^ 5) with 32;
  change (2 ^ 6) with 64; change (2 ^ 7) with 128.

Lemma forallb_range (f : Z → bool) n x : forallb (λ k, f (Z.of_nat k)) (seq 0 n) = true → 0 <= x < Z.of_nat n → f x = true.
Proof.
  intros H Hx. rewrite forallb_forall in H. specialize (H (Z.to_nat x)). rewrite Z2Nat.id in H by lia. apply H, in_seq. lia.
Qed.

Lemma char64 d : 0 <= d < 64 → at_ decode64_table (at_ pbase64 d) = d.
Proof. intros Hd. apply Z.eqb_eq. apply (forallb_range (λ d, at_ decode64_table (at_ pbase64 d) =? d) 64); [vm_compute; reflexivity|done]. Qed.
Lemma char32 d : 0 <= d < 32 → at_ decode32_table (at_ pbase32 d) = d.
Proof. intros Hd. apply Z.eqb_eq. apply (forallb_range (λ d, at_ decode32_table (at_ pbase32 d) =? d) 32); [vm_compute; reflexivity|done]. Qed.

Lemma decode_chars_cons step table mode rest c d p : at_ table c = d → 0 <= d →
  decode_chars step table mode rest (c :: p) =
  let '(out, mode, rest) := step mode rest d in
  let '(more, mode, rest, p) := decode_chars step table mode rest p in (out ++ more, mode, rest, p).
Proof. intros E Hd. cbn [decode_chars]. rewrite E. destruct (Z.eqb_spec d (-1)); [lia|done]. Qed.

(** Characters whose values are given, decoded one after the other *)
Ltac decode_next lem := erewrite decode_chars_cons; [cbn [decode64_step decode32_step]|apply lem; mlia|mlia].

Section base64.
Variables a b c : Z.
Hypotheses (Ha : 0 <= a < 256) (Hb : 0 <= b < 256) (Hc : 0 <= c < 256).

Lemma sextets : Z.shiftr a 2 = a / 4 ∧ Z.lor (Z.shiftl (Z.land a 3) 4) (Z.shiftr b 4) = a mod 4 * 16 + b / 16 ∧
  Z.lor (Z.shiftl (Z.land b 15) 2) (Z.shiftr c 6) = b mod 16 * 4 + c / 64 ∧ Z.land c 63 = c mod 64 ∧
  Z.shiftl (Z.land a 3) 4 = a mod 4 * 16 ∧ Z.shiftl (Z.land b 15) 2 = b mod 16 * 4.
Proof.
  bits_arith. rewrite !lor_shl by mlia. rewrite !Z.shiftl_mul_pow2 by lia. done.
Qed.
End base64.

Lemma octets x y z w : 0 <= x < 64 → 0 <= y < 64 → 0 <= z < 64 → 0 <= w < 64 →
  u8 (Z.lor (Z.shiftl x 2) (Z.shiftr y 4)) = x * 4 + y / 16 ∧
  u8 (Z.lor (Z.shiftl (Z.land y 15) 4) (Z.shiftr z 2)) = y mod 16 * 16 + z / 4 ∧
  u8 (Z.lor (Z.shiftl (Z.land z 3) 6) w) = z mod 4 * 64 + w.
Proof.
  intros Hx Hy Hz Hw. bits_arith. rewrite !lor_shl by mlia. repeat split; mlia.
Qed.

(** What the decoder makes of the characters of whole groups of three bytes *)
Lemma base64_group a b c q l p : 0 <= a < 256 → 0 <= b < 256 → 0 <= c < 256 →
  ∃ x y z w q' l', encode64_loop 0 q (a :: b :: c :: p) =
      (let '(out, mode, r) := encode64_loop 0 q' p in (at_ pbase64 x :: at_ pbase64 y :: at_ pbase64 z :: at_ pbase64 w :: out, mode, r)) ∧
    ∀ t, decode_chars decode64_step decode64_table 0 l (at_ pbase64 x :: at_ pbase64 y :: at_ pbase64 z :: at_ pbase64 w :: t) =
      let '(more, mode, r, t) := decode_chars decode64_step decode64_table 0 l' t in (a :: b :: c :: more, mode, r, t).
Proof.
  intros Ha Hb Hc. destruct (sextets a b c Ha Hb Hc) as (E1 & E2 & E3 & E4 & _).
  exists (a / 4), (a mod 4 * 16 + b / 16), (b mod 16 * 4 + c / 64), (c mod 64),
    (Z.shiftl (Z.land b 15) 2), (Z.land (b mod 16 * 4 + c / 64) 3). split.
  - cbn [encode64_loop encode64_step]. rewrite E1, E2, E3, E4.
    destruct (encode64_loop 0 _ p) as [[out mode] r]. reflexivity.
  - intros t. do 4 decode_next char64.
    destruct (octets (a / 4) (a mod 4 * 16 + b / 16) (b mod 16 * 4 + c / 64) (c mod 64)) as (-> & -> & ->); [mlia..|].
    destruct (decode_chars _ _ 0 _ t) as [[[more mode] r] t']. cbn [app].
    repeat f_equal; mlia.
Qed.

Definition tail64 (mode r : Z) : list Z := if mode =? 0 then [] else [at_ pbase64 r; 61] ++ (if mode =? 1 then [61] else []).

Lemma decode_chars_stop step table mode l p : at_ table (nth 0 p 0) = -1 → decode_chars step table mode l p = ([], mode, l, p).
Proof. destruct p as [|c p]; [done|]. cbn [nth decode_chars]. by intros ->. Qed.

Lemma base64_inverse v q l : digits_ok 256 v → ∀ out mode r, encode64_loop 0 q v = (out, mode, r) →
  ∃ m l' p, decode_chars decode64_step decode64_table 0 l (out ++ tail64 mode r) = (v, m, l', p) ∧ base64_invalid m l' p = false.
Proof.
  remember (length v) as n eqn:Hn. revert v q l Hn. induction n as [n IH] using lt_wf_ind.
  intros [|a [|b [|c v]]] q l -> Hv out mode r E; rewrite ?Forall_cons in Hv.
  - injection E as <- <- <-. do 3 eexists. split; reflexivity.
  - destruct Hv as [Ha _]. cbn [encode64_loop encode64_step] in E. injection E as <- <- <-. cbn [app tail64 Z.eqb].
    destruct (sextets a 0 0 Ha) as (E1 & _ & _ & _ & E5 & _); [lia..|]. rewrite E1, E5. unfold tail64. cbn [Z.eqb app].
    do 2 decode_next char64. rewrite decode_chars_stop by reflexivity. do 3 eexists. split.
    + f_equal. f_equal. f_equal. cbn [app]. f_equal. destruct (octets (a / 4) (a mod 4 * 16) 0 0) as (-> & _ & _); mlia.
    + cbn -[Z.land]. rewrite land_15. replace (_ =? 0) with true; [reflexivity|]. symmetry. apply Z.eqb_eq. mlia.
  - destruct Hv as (Ha & Hb & _). cbn [encode64_loop encode64_step] in E. injection E as <- <- <-.
    destruct (sextets a b 0 Ha Hb) as (E1 & E2 & _ & _ & _ & E6); [lia..|]. rewrite E1, E2, E6. unfold tail64. cbn [Z.eqb app].
    do 3 decode_next char64. rewrite decode_chars_stop by reflexivity. do 3 eexists. split.
    + destruct (octets (a / 4) (a mod 4 * 16 + b / 16) (b mod 16 * 4) 0) as (-> & -> & _); [mlia..|]. cbn [app]. repeat f_equal; mlia.
    + cbn -[Z.land]. rewrite land_3. replace (_ =? 0) with true; [reflexivity|]. symmetry. apply Z.eqb_eq. mlia.
  - destruct Hv as (Ha & Hb & Hc & Hv). destruct (base64_group a b c q l v Ha Hb Hc) as (x & y & z & w & q' & l' & E' & D).
    rewrite E' in E. destruct (encode64_loop 0 q' v) as [[out0 mode0] r0] eqn:E0. injection E as <- <- <-.
    destruct (IH (length v) ltac:(cbn; lia) v q' l' eq_refl Hv _ _ _ E0) as (m & l2 & p & D0 & Hi).
    exists m, l2, p. split; [|done]. cbn [app]. rewrite D, D0. reflexivity.
Qed.

Section base32.
Variables a b c d e : Z.
Hypotheses (Ha : 0 <= a < 256) (Hb : 0 <= b < 256) (Hc : 0 <= c < 256) (Hd : 0 <= d < 256) (He : 0 <= e < 256).

Lemma quintets : Z.shiftr a 3 = a / 8 ∧ Z.lor (Z.shiftl (Z.land a 7) 2) (Z.shiftr b 6) = a mod 8 * 4 + b / 64 ∧
  Z.land (Z.shiftr b 1) 31 = b / 2 mod 32 ∧ Z.lor (Z.shiftl (Z.land b 1) 4) (Z.shiftr c 4) = b mod 2 * 16 + c / 16 ∧
  Z.lor (Z.shiftl (Z.land c 15) 1) (Z.shiftr d 7) = c mod 16 * 2 + d / 128 ∧ Z.land (Z.shiftr d 2) 31 = d / 4 mod 32 ∧
  Z.lor (Z.shiftl (Z.land d 3) 3) (Z.shiftr e 5) = d mod 4 * 8 + e / 32 ∧ Z.land e 31 = e mod 32.
Proof. bits_arith. rewrite !lor_shl by mlia. done. Qed.
Lemma quintets_left : Z.shiftl (Z.land a 7) 2 = a mod 8 * 4 ∧ Z.shiftl (Z.land b 1) 4 = b mod 2 * 16 ∧
  Z.shiftl (Z.land c 15) 1 = c mod 16 * 2 ∧ Z.shiftl (Z.land d 3) 3 = d mod 4 * 8.
Proof. bits_arith. rewrite !Z.shiftl_mul_pow2 by lia. done. Qed.
End base32.

Lemma octet32_0 x y : 0 <= x < 32 → 0 <= y < 32 →
  u8 (Z.lor (Z.shiftl x 3) (Z.shiftr y 2)) = x * 8 + y / 4.
Proof. intros. bits_arith. rewrite !lor_shl by mlia. mlia. Qed.
Lemma octet32_1 x y z : 0 <= x < 32 → 0 <= y < 32 → 0 <= z < 32 →
  u8 (Z.lor (Z.shiftl (Z.lor (Z.shiftl (Z.land x 3) 5) y) 1) (Z.shiftr z 4)) = x mod 4 * 64 + y * 2 + z / 16.
Proof. intros. bits_arith. rewrite !lor_shl by mlia. mlia. Qed.
Lemma octet32_2 x y : 0 <= x < 32 → 0 <= y < 32 →
  u8 (Z.lor (Z.shiftl (Z.land x 15) 4) (Z.shiftr y 1)) = x mod 16 * 16 + y / 2.
Proof. intros. bits_arith. rewrite !lor_shl by mlia. mlia. Qed.
Lemma octet32_3 x y z : 0 <= x < 32 → 0 <= y < 32 → 0 <= z < 32 →
  u8 (Z.lor (Z.shiftl (Z.lor (Z.shiftl (Z.land x 1) 5) y) 2) (Z.shiftr z 3)) = x mod 2 * 128 + y * 4 + z / 8.
Proof. intros. bits_arith. rewrite !lor_shl by mlia. mlia. Qed.
Lemma octet32_4 x y : 0 <= x < 32 → 0 <= y < 32 →
  u8 (Z.lor (Z.shiftl (Z.land x 7) 5) y) = x mod 8 * 32 + y.
Proof. intros. bits_arith. rewrite !lor_shl by mlia. mlia. Qed.
Ltac octets32 := repeat first [rewrite octet32_0 by mlia | rewrite octet32_1 by mlia | rewrite octet32_2 by mlia
  | rewrite octet32_3 by mlia | rewrite octet32_4 by mlia].

Lemma base32_group a b c d e q l p : digits_ok 256 [a; b; c; d; e] →
  ∃ cs q' l', encode32_loop 0 q (a :: b :: c :: d :: e :: p) = (let '(out, mode, r) := encode32_loop 0 q' p in (cs ++ out, mode, r)) ∧
    ∀ t, decode_chars decode32_step decode32_table 0 l (cs ++ t) =
      let '(more, mode, r, t) := decode_chars decode32_step decode32_table 0 l' t in (a :: b :: c :: d :: e :: more, mode, r, t).
Proof.
  rewrite !Forall_cons. intros (Ha & Hb & Hc & Hd & He & _).
  destruct (quintets a b c d e Ha Hb Hc Hd He) as (E0 & E1 & E2 & E3 & E4 & E5 & E6 & E7).
  exists (map (at_ pbase32) [a / 8; a mod 8 * 4 + b / 64; b / 2 mod 32; b mod 2 * 16 + c / 16; c mod 16 * 2 + d / 128;
    d / 4 mod 32; d mod 4 * 8 + e / 32; e mod 32]), (Z.shiftl (Z.land d 3) 3), (Z.land (d mod 4 * 8 + e / 32) 7). split.
  - cbn [encode32_loop encode32_step]. rewrite E0, E1, E2, E3, E4, E5, E6, E7.
    destruct (encode32_loop 0 _ p) as [[out mode] r]. reflexivity.
  - intros t. cbn [map app]. do 8 decode_next char32.
    octets32. destruct (decode_chars _ _ 0 _ t) as [[[more mode] r] t']. cbn [app]. repeat f_equal; mlia.
Qed.

Definition tail32 (mode r : Z) : list Z :=
  if mode =? 0 then [] else [at_ pbase32 r] ++ replicate (nth (Z.to_nat mode) nPadding 0%nat) 61.

(** The characters of the last one to four bytes *)
Tactic Notation "finish32" integer(n) :=
  unfold tail32, nPadding; cbn [Z.eqb Pos.eqb Z.to_nat Pos.to_nat Pos.iter_op Nat.add nth replicate app]; do n decode_next char32;
  rewrite decode_chars_stop by reflexivity; do 3 eexists; split;
  [octets32; cbn [app]; repeat f_equal; mlia
  |cbn -[Z.land Z.lor Z.shiftl Z.eqb Z.modulo Z.mul]; bits_arith; replace (_ =? 0) with true; [reflexivity|]; symmetry; apply Z.eqb_eq; mlia].

Lemma base32_inverse v q l : digits_ok 256 v → ∀ out mode r, encode32_loop 0 q v = (out, mode, r) →
  ∃ m l' p, decode_chars decode32_step decode32_table 0 l (out ++ tail32 mode r) = (v, m, l', p) ∧ base32_invalid m l' p = false.
Proof.
  remember (length v) as n eqn:Hn. revert v q l Hn. induction n as [n IH] using lt_wf_ind.
  intros [|a [|b [|c [|d [|e v]]]]] q l -> Hv out mode r E; rewrite ?Forall_cons in Hv.
  - injection E as <- <- <-. do 3 eexists. split; reflexivity.
  - destruct Hv as [Ha _]. cbn [encode32_loop encode32_step] in E. injection E as <- <- <-.
    destruct (quintets a 0 0 0 0 Ha) as (E0 & _); [lia..|]. destruct (quintets_left a 0 0 0) as (L & _). rewrite E0, L. finish32 2.
  - destruct Hv as (Ha & Hb & _). cbn [encode32_loop encode32_step] in E. injection E as <- <- <-.
    destruct (quintets a b 0 0 0 Ha Hb) as (E0 & E1 & E2 & _); [lia..|]. destruct (quintets_left a b 0 0) as (_ & L & _).
    rewrite E0, E1, E2, L. finish32 4.
  - destruct Hv as (Ha & Hb & Hc & _). cbn [encode32_loop encode32_step] in E. injection E as <- <- <-.
    destruct (quintets a b c 0 0 Ha Hb Hc) as (E0 & E1 & E2 & E3 & _); [lia..|]. destruct (quintets_left a b c 0) as (_ & _ & L & _).
    rewrite E0, E1, E2, E3, L. finish32 5.
  - destruct Hv as (Ha & Hb & Hc & Hd & _). cbn [encode32_loop encode32_step] in E. injection E as <- <- <-.
    destruct (quintets a b c d 0 Ha Hb Hc Hd) as (E0 & E1 & E2 & E3 & E4 & E5 & _); [lia..|]. destruct (quintets_left a b c d) as (_ & _ & _ & L).
    rewrite E0, E1, E2, E3, E4, E5, L. finish32 7.
  - destruct Hv as (Ha & Hb & Hc & Hd & He & Hv). destruct (base32_group a b c d e q l v) as (cs & q' & l' & E' & D);
      [rewrite !Forall_cons; auto 10|].
    rewrite E' in E. destruct (encode32_loop 0 q' v) as [[out0 mode0] r0] eqn:E0. injection E as <- <- <-.
    destruct (IH (length v) ltac:(cbn; lia) v q' l' eq_refl Hv _ _ _ E0) as (m & l2 & p & D0 & Hi).
    exists m, l2, p. split; [|done]. rewrite <- app_assoc, D, D0. reflexivity.
Qed.

(** Decoding what was encoded *)
Lemma base64_ok v : digits_ok 256 v → DecodeBase64 (EncodeBase64 v) = (v, false).
Proof.
  intros Hv. unfold DecodeBase64, EncodeBase64. destruct (encode64_loop 0 0 v) as [[out mode] r] eqn:E.
  destruct (base64_inverse v 0 0 Hv out mode r E) as (m & l & p & D & Hi).
  replace (if mode =? 0 then out else _) with (out ++ tail64 mode r) by (unfold tail64; destruct (mode =? 0); [by rewrite app_nil_r|done]).
  by rewrite D, Hi.
Qed.
Lemma base32_ok v : digits_ok 256 v → DecodeBase32 (EncodeBase32 v) = (v, false).
Proof.
  intros Hv. unfold DecodeBase32, EncodeBase32. destruct (encode32_loop 0 0 v) as [[out mode] r] eqn:E.
  destruct (base32_inverse v 0 0 Hv out mode r E) as (m & l & p & D & Hi).
  replace (if mode =? 0 then out else _) with (out ++ tail32 mode r) by (unfold tail32; destruct (mode =? 0); [by rewrite app_nil_r|done]).
  by rewrite D, Hi.
Qed.

(** ** Hexadecimal and escapes *)

Lemma hex_chars d : 0 <= d < 16 → at_ util_phexdigit (at_ hexmap d) = d ∧ isspace (at_ hexmap d) = false ∧ dump_digit (at_ hexmap d) = d.
Proof.
  intros Hd. assert (H := forallb_range (λ d, (at_ util_phexdigit (at_ hexmap d) =? d) && negb (isspace (at_ hexmap d)) &&
    (dump_digit (at_ hexmap d) =? d)) 16 d ltac:(vm_compute; reflexivity) Hd). cbv beta in H.
  rewrite !andb_true_iff, negb_true_iff, !Z.eqb_eq in H. tauto.
Qed.

Lemma nibbles c : 0 <= c < 256 → Z.lor (u8 (Z.shiftl (Z.shiftr c 4) 4)) (Z.land c 15) = c ∧
  u8 (Z.lor (Z.shiftl (Z.shiftr c 4) 4) (Z.land c 15)) = c ∧ 0 <= Z.shiftr c 4 < 16 ∧ 0 <= Z.land c 15 < 16.
Proof.
  intros Hc. bits_arith. assert (Hs : u8 (Z.shiftl (c / 16) 4) = Z.shiftl (c / 16) 4) by (rewrite Z.shiftl_mul_pow2 by lia; mlia).
  rewrite Hs, !lor_shl by mlia. mlia.
Qed.

Lemma hex_inverse v fSpaces first : digits_ok 256 v → ParseHex (hex_loop fSpaces first v) = v.
Proof.
  intros Hv. revert first. induction Hv as [|c v Hc Hv IH]; intros first; [done|]. cbn [hex_loop].
  destruct (nibbles c Hc) as (E & _ & Hh & Hl). destruct (hex_chars _ Hh) as (Eh & Sh & _). destruct (hex_chars _ Hl) as (El & _ & _).
  assert (H : ParseHex (at_ hexmap (Z.shiftr c 4) :: at_ hexmap (Z.land c 15) :: hex_loop fSpaces false v) = c :: v).
  { cbn [ParseHex]. rewrite Sh, Eh, El. destruct (Z.eqb_spec (Z.shiftr c 4) (-1)); [lia|].
    destruct (Z.eqb_spec (Z.land c 15) (-1)); [lia|]. by rewrite E, IH. }
  destruct (fSpaces && negb first); exact H.
Qed.

Lemma hex_is_hex v : digits_ok 256 v → v ≠ [] → IsHex (HexStr v false) = true.
Proof.
  intros Hv Hne. unfold IsHex, HexStr. rewrite !andb_true_iff. assert (H : ∀ first, forallb (λ c, 0 <=? at_ util_phexdigit c) (hex_loop false first v) = true ∧
    (length (hex_loop false first v) = 2 * length v)%nat).
  { clear Hne. induction Hv as [|c v Hc Hv IH]; intros first; [done|]. cbn [hex_loop andb app forallb length].
    destruct (nibbles c Hc) as (_ & _ & Hh & Hl). destruct (hex_chars _ Hh) as (-> & _ & _). destruct (hex_chars _ Hl) as (-> & _ & _).
    destruct (IH false) as [-> ->]. rewrite !(proj2 (Z.leb_le _ _)) by lia. split; [done|lia]. }
  destruct (H true) as [-> ->]. split; [split; [done|]|].
  - apply Nat.ltb_lt. destruct v; [done|cbn; lia].
  - apply Nat.eqb_eq. rewrite Nat.mul_comm. by apply Nat.Div0.mod_mul.
Qed.

Lemma dump_inverse s : digits_ok 256 s → DecodeDumpString (EncodeDumpString s) = s.
Proof.
  unfold EncodeDumpString. induction 1 as [|c s Hc Hs IH]; [done|]. cbn [map concat]. unfold dump_char at 1.
  destruct ((c <=? 32) || (c >=? 128) || (c =? 37)) eqn:E.
  - cbn [HexStr hex_loop andb app DecodeDumpString Z.eqb Pos.eqb]. destruct (nibbles c Hc) as (_ & E' & Hh & Hl).
    destruct (hex_chars _ Hh) as (_ & _ & ->). destruct (hex_chars _ Hl) as (_ & _ & ->). by rewrite E', IH.
  - apply orb_false_iff in E as [_ E]. cbn [app DecodeDumpString]. rewrite E, IH.
    by destruct (concat _) as [|? [|? ?]].
Qed.

(** ** Wildcards *)

(** What a character of a mask stands for *)
Definition stands_for (m : Z) (seg : list Z) : Prop :=
  if m =? 42 then True else if m =? 63 then length seg = 1%nat else seg = [m].
Definition matches (psz mask : list Z) : Prop := ∃ segs, psz = concat segs ∧ Forall2 stands_for mask segs.

Lemma matches_nil psz : matches psz [] ↔ psz = [].
Proof. split; [intros (segs & -> & H); by inversion H|intros ->; by exists []]. Qed.
Lemma matches_star psz mask : matches psz (42 :: mask) ↔ matches psz mask ∨ ∃ c psz', psz = c :: psz' ∧ matches psz' (42 :: mask).
Proof.
  split.
  - intros (segs & -> & H). inversion H as [|? seg ? segs' _ H']; subst. destruct seg as [|c seg]; [left; by exists segs'|].
    right. exists c, (seg ++ concat segs'). split; [done|]. exists (seg :: segs'). split; [done|]. by constructor.
  - intros [(segs & -> & H)|(c & psz' & -> & segs & -> & H)]; [exists ([] :: segs); split; [done|by constructor]|].
    inversion H as [|? seg ? segs' _ H']; subst. exists ((c :: seg) :: segs'). split; [done|by constructor].
Qed.
Lemma matches_char psz m mask : m ≠ 42 →
  matches psz (m :: mask) ↔ ∃ c psz', psz = c :: psz' ∧ (m = 63 ∨ c = m) ∧ matches psz' mask.
Proof.
  intros Hm. unfold matches, stands_for. split.
  - intros (segs & -> & H). inversion H as [|? seg ? segs' Hs H']; subst. destruct (Z.eqb_spec m 42); [done|].
    destruct (Z.eqb_spec m 63) as [->|].
    + destruct seg as [|c [|]]; try done. exists c, (concat segs'). split; [done|]. split; [by left|]. by exists segs'.
    + subst seg. exists m, (concat segs'). split; [done|]. split; [by right|]. by exists segs'.
  - intros (c & psz' & -> & Hc & segs & -> & H). exists ([c] :: segs). split; [done|]. constructor; [|done].
    destruct (Z.eqb_spec m 42); [done|]. destruct (Z.eqb_spec m 63); [done|]. destruct Hc; [done|congruence].
Qed.

Lemma WildcardMatch_ok fuel psz mask : (length psz + length mask < fuel)%nat →
  ∃ r, WildcardMatch fuel psz mask = Some r ∧ (r = true ↔ matches psz mask).
Proof.
  revert psz mask. induction fuel as [|fuel IH]; intros psz mask Hf; [lia|]. cbn [WildcardMatch]. destruct mask as [|m mask].
  { eexists. split; [done|]. by rewrite bool_decide_eq_true, matches_nil. }
  cbn [length] in Hf. destruct (Z.eqb_spec m 42) as [->|Hm].
  - setoid_rewrite (matches_star psz mask). destruct (IH psz mask) as (r & -> & Hr); [lia|]. cbn [mbind option_bind]. destruct r.
    { exists true. split; [done|]. split; [intros _; left; by apply Hr|done]. }
    assert (Hno : ¬ matches psz mask) by (rewrite <- Hr; done). destruct psz as [|c psz'].
    + exists false. split; [done|]. split; [done|]. by intros [?|(? & ? & ? & _)].
    + destruct (IH psz' (42 :: mask)) as (r & -> & Hr'); [cbn in *; lia|]. exists r. split; [done|]. rewrite Hr'. split.
      * intros H. right. by exists c, psz'.
      * intros [?|(? & ? & [= <- <-] & ?)]; done.
  - setoid_rewrite (matches_char psz m mask Hm). destruct psz as [|c psz'].
    + exists false. split; [done|]. split; [done|]. by intros (? & ? & ? & _).
    + destruct ((m =? 63) || (c =? m)) eqn:E.
      * destruct (IH psz' mask) as (r & -> & Hr); [cbn in *; lia|]. exists r. split; [done|]. rewrite Hr. split.
        { intros H. exists c, psz'. split; [done|]. split; [|done]. apply orb_true_iff in E as [E|E]; apply Z.eqb_eq in E; auto. }
        by intros (? & ? & [= <- <-] & _ & ?).
      * exists false. split; [done|]. split; [done|]. apply orb_false_iff in E as [E1 E2]. apply Z.eqb_neq in E1, E2.
        intros (? & ? & [= <- <-] & [?|?] & _); done.
Qed.

(** ** Money *)

Abbreviation decimal := (Forall (λ c, isdigit c = true)).

Lemma isdigit_range c : isdigit c = true ↔ 48 <= c <= 57.
Proof. unfold isdigit. rewrite andb_true_iff, !Z.leb_le. done. Qed.
Lemma isdigit_plain c : isdigit c = true → isspace c = false ∧ (c =? 46) = false.
Proof. rewrite isdigit_range. intros Hc. unfold isspace. split; [|lia]. apply orb_false_iff. split; [lia|]. apply andb_false_iff. lia. Qed.

Lemma dec_value_snoc l c : dec_value (l ++ [c]) = dec_value l * 10 + (c - 48).
Proof. unfold dec_value. by rewrite fold_left_app. Qed.
Lemma dec_value_bound l : decimal l → 0 <= dec_value l < 10 ^ Z.of_nat (length l).
Proof.
  induction l as [|c l IH] using rev_ind; intros Hl; [done|]. apply Forall_app in Hl as [Hl Hc]. apply Forall_cons in Hc as [Hc%isdigit_range _].
  specialize (IH Hl). rewrite dec_value_snoc, length_app, Nat.add_1_r, pow_succ_nat. lia.
Qed.

Lemma dec_loop_ok fuel n acc : 0 <= n < 10 ^ Z.of_nat (S fuel) →
  ∃ ds, dec_loop (S fuel) n acc = ds ++ acc ∧ decimal ds ∧ dec_value ds = n ∧ ds ≠ [] ∧
    ∀ k, n < 10 ^ Z.of_nat (S k) → (length ds <= S k)%nat.
Proof.
  revert n acc. induction fuel as [|fuel IH]; intros n acc Hn; cbn [dec_loop].
  - exists [48 + n mod 10]. split; [by destruct (_ =? 0)|]. change (10 ^ Z.of_nat 1) with 10 in Hn. rewrite Z.mod_small by lia.
    repeat split; [|cbn; lia|done|cbn; lia]. repeat constructor. apply isdigit_range. lia.
  - assert (Hm := Z.mod_pos_bound n 10 ltac:(lia)). assert (Hdm := Z.div_mod n 10 ltac:(lia)).
    destruct (Z.eqb_spec (n / 10) 0) as [E|E].
    + exists [48 + n mod 10]. repeat split; [|cbn; lia|done|cbn; lia]. repeat constructor. apply isdigit_range. lia.
    + rewrite pow_succ_nat in Hn. assert (Hq : 0 <= n / 10) by (apply Z.div_pos; lia).
      destruct (IH (n / 10) (48 + n mod 10 :: acc)) as (ds & Eds & H1 & H2 & H3 & H4); [lia|]. cbn [dec_loop] in Eds. rewrite Eds.
      exists (ds ++ [48 + n mod 10]). rewrite <- app_assoc. split; [done|]. split; [|split; [|split]].
      * apply Forall_app. split; [done|]. repeat constructor. apply isdigit_range. lia.
      * rewrite dec_value_snoc, H2. lia.
      * by destruct ds.
      * intros k Hk. rewrite length_app, Nat.add_1_r. destruct k as [|k]; [change (10 ^ Z.of_nat 1) with 10 in Hk; lia|].
        apply le_n_S, H4. rewrite pow_succ_nat in Hk. lia.
Qed.
Lemma dec_text_ok n : 0 <= n < 10 ^ 20 →
  decimal (dec_text n) ∧ dec_value (dec_text n) = n ∧ dec_text n ≠ [] ∧ ∀ k, n < 10 ^ Z.of_nat (S k) → (length (dec_text n) <= S k)%nat.
Proof.
  intros Hn. destruct (dec_loop_ok 19 n [] Hn) as (ds & E & H). unfold dec_text. rewrite E, app_nil_r. done.
Qed.

Lemma dec_value_zeros n l : dec_value (replicate n 48 ++ l) = dec_value l.
Proof. induction n as [|n IH]; [done|]. exact IH. Qed.

(** The text of an amount: whole coins, the point, at least two of six digits of the units *)
Lemma FormatMoney_text n : 0 <= n < 2 ^ 63 → ∃ d1 d2 d3 d4 d5 d6 k,
  decimal [d1; d2; d3; d4; d5; d6] ∧ dec_value [d1; d2; d3; d4; d5; d6] = n mod COIN ∧ (2 <= k <= 6)%nat ∧
  drop k [d1; d2; d3; d4; d5; d6] = replicate (6 - k) 48 ∧
  FormatMoney n false = Some (dec_text (n / COIN) ++ 46 :: take k [d1; d2; d3; d4; d5; d6]).
Proof.
  intros Hn. assert (Hr := Z.mod_pos_bound n COIN ltac:(done)). destruct (dec_text_ok (n mod COIN)) as (H1 & H2 & _ & H4).
  { split; [lia|]. etrans; [apply Hr|done]. }
  assert (Hlen := H4 5%nat ltac:(apply Hr)). set (r := dec_text (n mod COIN)) in *.
  set (u := replicate (6 - length r) 48 ++ r). assert (Hu : length u = 6%nat) by (unfold u; rewrite length_app, length_replicate; lia).
  assert (Hud : decimal u) by (apply Forall_app; split; [by apply Forall_replicate|done]).
  assert (Huv : dec_value u = n mod COIN) by (unfold u; by rewrite dec_value_zeros).
  assert (Ef : FormatMoney n false = Some (rev (trim_zeros (rev (dec_text (n / COIN) ++ 46 :: u))))).
  { unfold FormatMoney. destruct (Z.eqb_spec n (- 2 ^ 63)); [lia|]. destruct (Z.ltb_spec n 0); [lia|]. cbn [andb].
    replace (if n >? 0 then n else - n) with n by (destruct (Z.gtb_spec n 0); lia). done. }
  clearbody u. destruct u as [|d1 [|d2 [|d3 [|d4 [|d5 [|d6 [|]]]]]]]; try done. exists d1, d2, d3, d4, d5, d6.
  rewrite Ef, rev_app_distr. cbn [rev app]. rewrite !Forall_cons in Hud. destruct Hud as (D1 & D2 & D3 & D4 & D5 & D6 & _).
  assert (Hp : isdigit 46 = false) by done. cbn [trim_zeros]. rewrite D4, D3, D2, D1, Hp, !andb_true_r, !andb_false_r.
  assert (Hrev : ∀ l, rev (l ++ 46 :: rev (dec_text (n / COIN))) = dec_text (n / COIN) ++ 46 :: rev l).
  { intros l. rewrite rev_app_distr. cbn [rev]. by rewrite rev_involutive, <- app_assoc. }
  assert (Hall : decimal [d1; d2; d3; d4; d5; d6]) by (by repeat constructor).
  destruct (Z.eqb_spec d6 48) as [->|]; [|exists 6%nat; split_and!; try done; [lia|]; f_equal; exact (Hrev [d6; d5; d4; d3; d2; d1])].
  destruct (Z.eqb_spec d5 48) as [->|]; [|exists 5%nat; split_and!; try done; try lia; f_equal; exact (Hrev [d5; d4; d3; d2; d1])].
  destruct (Z.eqb_spec d4 48) as [->|]; [|exists 4%nat; split_and!; try done; try lia; f_equal; exact (Hrev [d4; d3; d2; d1])].
  destruct (Z.eqb_spec d3 48) as [->|]; [|exists 3%nat; split_and!; try done; try lia; f_equal; exact (Hrev [d3; d2; d1])].
  exists 2%nat. split_and!; try done; try lia. f_equal. exact (Hrev [d2; d1]).
Qed.

Lemma money_whole_digits ds w p : decimal ds → money_whole w (ds ++ 46 :: p) =
  Some (w ++ ds, (money_units (CENT * 10) 0 p).1, (money_units (CENT * 10) 0 p).2).
Proof.
  intros Hd. revert w. induction Hd as [|c ds Hc Hd IH]; intros w; cbn [app money_whole].
  - cbn [Z.eqb Pos.eqb]. destruct (money_units _ _ p). by rewrite app_nil_r.
  - destruct (isdigit_plain c Hc) as [-> ->]. rewrite Hc. cbn [negb]. by rewrite IH, <- app_assoc.
Qed.

Lemma money_units_ok d1 d2 d3 d4 d5 d6 k : decimal [d1; d2; d3; d4; d5; d6] → (2 <= k <= 6)%nat →
  drop k [d1; d2; d3; d4; d5; d6] = replicate (6 - k) 48 →
  money_units (CENT * 10) 0 (take k [d1; d2; d3; d4; d5; d6]) = (dec_value [d1; d2; d3; d4; d5; d6], []).
Proof.
  rewrite !Forall_cons. intros (D1 & D2 & D3 & D4 & D5 & D6 & _) Hk Hz.
  destruct k as [|[|[|[|[|[|[|k]]]]]]]; try lia; cbn in Hz; simplify_eq; cbn [take money_units]; rewrite ?D1, ?D2, ?D3, ?D4, ?D5, ?D6;
    cbn [andb]; change (CENT * 10) with 100000; change (100000 / 10) with 10000; change (10000 / 10) with 1000;
    change (1000 / 10) with 100; change (100 / 10) with 10; change (10 / 10) with 1; repeat (match goal with |- context [?a >? 0] => change (a >? 0) with true end; cbn iota);
    unfold dec_value; cbn -[Z.mul]; f_equal; lia.
Qed.

Lemma money_inverse n : 0 <= n < 10 ^ 16 → ∃ s, FormatMoney n false = Some s ∧ ParseMoney s = Some n.
Proof.
  intros Hn. destruct (FormatMoney_text n) as (d1 & d2 & d3 & d4 & d5 & d6 & k & Hd & Hv & Hk & Hz & E).
  { split; [lia|]. etrans; [apply Hn|done]. }
  eexists. split; [exact E|]. assert (Hdm := Z.div_mod n COIN ltac:(done)).
  assert (Hr := Z.mod_pos_bound n COIN ltac:(done)). assert (Hq : 0 <= n / COIN < 10 ^ 10).
  { split; [apply Z.div_pos; [lia|done]|]. apply Z.div_lt_upper_bound; [done|]. apply Hn. }
  destruct (dec_text_ok (n / COIN)) as (H1 & H2 & H3 & H4); [split; [lia|]; etrans; [apply Hq|done]|].
  assert (Hlen := H4 9%nat ltac:(apply Hq)). unfold ParseMoney.
  assert (Hs : skip_spaces (dec_text (n / COIN) ++ 46 :: take k [d1; d2; d3; d4; d5; d6]) = dec_text (n / COIN) ++ 46 :: take k [d1; d2; d3; d4; d5; d6]).
  { destruct (dec_text (n / COIN)) as [|c t]; [done|]. apply Forall_cons in H1 as [Hc _]. cbn [app skip_spaces].
    by destruct (isdigit_plain c Hc) as [-> _]. }
  rewrite Hs, money_whole_digits, money_units_ok by done. cbn [mbind option_bind fst snd forallb negb app].
  destruct (Nat.ltb_spec 10 (length (dec_text (n / COIN)))); [lia|]. rewrite Hv.
  replace ((n mod COIN <? 0) || (n mod COIN >? COIN)) with false by lia. unfold atoi64. rewrite H2.
  f_equal. rewrite Z.min_r, i64_small by lia. lia.
Qed.

Lemma money_whole_decimal w p w' u r : decimal w → money_whole w p = Some (w', u, r) → decimal w'.
Proof.
  revert w. induction p as [|c p IH]; intros w Hw; cbn [money_whole]; [by intros [= <- _ _]|].
  destruct (c =? 46); [destruct (money_units _ _ p); by intros [= <- _ _]|]. destruct (isspace c); [by intros [= <- _ _]|].
  destruct (isdigit c) eqn:E; [|done]. apply IH. apply Forall_app. split; [done|]. by repeat constructor.
Qed.

Lemma ParseMoney_range psz n : ParseMoney psz = Some n → 0 <= n <= 10 ^ 16.
Proof.
  unfold ParseMoney. destruct (money_whole [] _) as [[[w u] r]|] eqn:E; [|done]. cbn [mbind option_bind].
  apply money_whole_decimal in E; [|constructor]. destruct (negb (forallb isspace r)); [done|]. destruct (Nat.ltb_spec 10 (length w)) as [|Hl]; [done|].
  destruct ((u <? 0) || (u >? COIN)) eqn:Eu; [done|]. intros [= <-]. assert (Hb := dec_value_bound w E).
  assert (10 ^ Z.of_nat (length w) <= 10 ^ 10) by (apply Z.pow_le_mono_r; lia). change COIN with 1000000 in *. unfold atoi64.
  rewrite Z.min_r by lia. rewrite i64_small by lia. lia.
Qed.

(** A sign is no digit. *)
Lemma ParseMoney_sign c s : c = 43 ∨ c = 45 → ParseMoney (c :: s) = None.
Proof. by intros [-> | ->]. Qed.

Lemma FormatMoney_sign n fPlus s : FormatMoney n fPlus = Some s → n < 0 ∨ (fPlus = true ∧ 0 < n) → ParseMoney s = None.
Proof.
  unfold FormatMoney. destruct (n =? - 2 ^ 63); [done|]. cbv zeta. intros [= <-] [Hn|[-> Hn]].
  - destruct (Z.ltb_spec n 0); [|lia]. apply ParseMoney_sign. by right.
  - destruct (Z.ltb_spec n 0); [lia|]. destruct (Z.gtb_spec n 0); [|lia]. apply ParseMoney_sign. by left.
Qed.

(** ** Properties *)

(** The text encodings are undone by their decoders: base64, base32, hexadecimal
    (with or without spaces) and the escapes of wallet dumps give every byte
    string back, and the base64 and base32 texts are not reported as invalid. *)
Theorem text_roundtrips v : digits_ok 256 v →
  DecodeBase64 (EncodeBase64 v) = (v, false) ∧ DecodeBase32 (EncodeBase32 v) = (v, false) ∧
  (∀ fSpaces, ParseHex (HexStr v fSpaces) = v) ∧ (v ≠ [] → IsHex (HexStr v false) = true) ∧
  DecodeDumpString (EncodeDumpString v) = v.
Proof.
  intros Hv. split; [by apply base64_ok|]. split; [by apply base32_ok|]. split; [intros; by apply hex_inverse|].
  split; [by apply hex_is_hex|by apply dump_inverse].
Qed.

Lemma text_roundtrips_witness : let v := [0; 255; 37; 32] in
  DecodeBase64 (EncodeBase64 v) = (v, false) ∧ DecodeBase32 (EncodeBase32 v) = (v, false) ∧
  (∀ fSpaces, ParseHex (HexStr v fSpaces) = v) ∧ (v ≠ [] → IsHex (HexStr v false) = true) ∧
  DecodeDumpString (EncodeDumpString v) = v.
Proof. apply (text_roundtrips [0; 255; 37; 32]). repeat constructor; lia. Defined.

(** Amounts of money: an amount of at most ten digits of whole coins is printed
    and parsed back exactly; whatever string is parsed, the amount is not
    negative and the arithmetic does not overflow; amounts printed with a sign
    are refused. *)
Theorem money_roundtrip n psz m : 0 <= n < 10 ^ 16 → ParseMoney psz = Some m →
  (∃ s, FormatMoney n false = Some s ∧ ParseMoney s = Some n) ∧ 0 <= m <= 10 ^ 16 ∧
  (∀ k fPlus s, FormatMoney k fPlus = Some s → k < 0 ∨ (fPlus = true ∧ 0 < k) → ParseMoney s = None).
Proof.
  intros Hn Hm. split; [by apply money_inverse|]. split; [by eapply ParseMoney_range|]. intros. by eapply FormatMoney_sign.
Qed.

Lemma money_roundtrip_witness :
  (∃ s, FormatMoney 1234500 false = Some s ∧ ParseMoney s = Some 1234500) ∧ 0 <= 10500000 <= 10 ^ 16 ∧
  (∀ k fPlus s, FormatMoney k fPlus = Some s → k < 0 ∨ (fPlus = true ∧ 0 < k) → ParseMoney s = None).
Proof. apply (money_roundtrip 1234500 [32; 49; 48; 46; 53; 32] 10500000); [lia|reflexivity]. Defined.

(** Wildcard masks: the matcher returns for every string and mask (one more turn
    than their joint length is enough), and answers whether the string splits into
    one piece per character of the mask: any piece for a star, one character for
    a question mark, the character itself otherwise. *)
Theorem WildcardMatch_spec fuel psz mask : (length psz + length mask < fuel)%nat →
  ∃ r, WildcardMatch fuel psz mask = Some r ∧ (r = true ↔ matches psz mask).
Proof. apply WildcardMatch_ok. Qed.

Lemma WildcardMatch_spec_witness : ∃ r, WildcardMatch 6 [97; 98; 99] [42; 99] = Some r ∧ (r = true ↔ matches [97; 98; 99] [42; 99]).
Proof. apply (WildcardMatch_spec 6 [97; 98; 99] [42; 99]). vm_compute. lia. Defined.
