(* ===== verification/NetAddr.v ===== *)
(** * Network addresses (src/netbase.cpp, src/netbase.h)

    An address is its sixteen bytes in network order (IPv4 and the private
    networks are ranges of IPv6); a service adds a port.  Names that need a
    resolver are not modelled; hidden-service names are. *)

From stdpp Require Import base list numbers option gmap.
From Stdlib Require Import ZArith Lia.
From S2P Require Import Prelude Uint256 Bignum Serialize Tx Script Encoding.

Open Scope Z_scope.

Inductive Network := NET_UNROUTABLE | NET_IPV4 | NET_IPV6 | NET_TOR | NET_I2P.
#[export] Instance Network_eq_dec : EqDecision Network.
Proof. solve_decision. Defined.
Definition Network_Z (n : Network) : Z :=
  match n with NET_UNROUTABLE => 0 | NET_IPV4 => 1 | NET_IPV6 => 2 | NET_TOR => 3 | NET_I2P => 4 end.

(** [unsigned char ip[16]] *)
Abbreviation CNetAddr := (list Z).
Abbreviation is_addr ip := (length ip = 16%nat ∧ digits_ok 256 ip).

Definition pchIPv4 : list Z := [0; 0; 0; 0; 0; 0; 0; 0; 0; 0; 255; 255].
Definition pchOnionCat : list Z := [0xFD; 0x87; 0xD8; 0x7E; 0xEB; 0x43].
Definition pchGarliCat : list Z := [0xFD; 0x60; 0xDB; 0x4D; 0xDD; 0xB5].

(** [memcmp(ip, pch, sizeof(pch)) == 0] *)
Definition has_prefix (ip pch : list Z) : bool := bool_decide (take (length pch) ip = pch).

Definition addr_Init : CNetAddr := replicate 16 0.
Definition CNetAddr_in (ipv4Addr : list Z) : CNetAddr := pchIPv4 ++ ipv4Addr.
Definition GetByte (ip : CNetAddr) (n : nat) : Z := nth (15 - n) ip 0.

(** ".onion" and ".oc.b32.i2p" *)
Definition dot_onion : list Z := [46; 111; 110; 105; 111; 110].
Definition dot_i2p : list Z := [46; 111; 99; 46; 98; 51; 50; 46; 105; 50; 112].
Definition ends_with (strName suffix : list Z) : bool :=
  (length suffix <? length strName)%nat && bool_decide (drop (length strName - length suffix) strName = suffix).

(** [None] is false, the address being left as it was *)
Definition SetSpecial (strName : list Z) : option CNetAddr :=
  if ends_with strName dot_onion then
    let vchAddr := (DecodeBase32 (take (length strName - 6) strName)).1 in
    if (length vchAddr =? 10)%nat then Some (pchOnionCat ++ vchAddr) else None
  else if ends_with strName dot_i2p then
    let vchAddr := (DecodeBase32 (take (length strName - 11) strName)).1 in
    if (length vchAddr =? 10)%nat then Some (pchOnionCat ++ vchAddr) else None
  else None.

(** ** Classes of addresses *)

Definition IsIPv4 (ip : CNetAddr) : bool := has_prefix ip pchIPv4.
Definition IsTor (ip : CNetAddr) : bool := has_prefix ip pchOnionCat.
Definition IsI2P (ip : CNetAddr) : bool := has_prefix ip pchGarliCat.
Definition IsIPv6 (ip : CNetAddr) : bool := negb (IsIPv4 ip) && negb (IsTor ip) && negb (IsI2P ip).

Definition IsRFC1918 (ip : CNetAddr) : bool :=
  IsIPv4 ip && ((GetByte ip 3 =? 10) || ((GetByte ip 3 =? 192) && (GetByte ip 2 =? 168)) ||
                ((GetByte ip 3 =? 172) && ((GetByte ip 2 >=? 16) && (GetByte ip 2 <=? 31)))).
Definition IsRFC3927 (ip : CNetAddr) : bool := IsIPv4 ip && ((GetByte ip 3 =? 169) && (GetByte ip 2 =? 254)).
Definition IsRFC3849 (ip : CNetAddr) : bool :=
  (GetByte ip 15 =? 0x20) && (GetByte ip 14 =? 0x01) && (GetByte ip 13 =? 0x0D) && (GetByte ip 12 =? 0xB8).
Definition IsRFC3964 (ip : CNetAddr) : bool := (GetByte ip 15 =? 0x20) && (GetByte ip 14 =? 0x02).
Definition IsRFC6052 (ip : CNetAddr) : bool := has_prefix ip [0; 0x64; 0xFF; 0x9B; 0; 0; 0; 0; 0; 0; 0; 0].
Definition IsRFC4380 (ip : CNetAddr) : bool :=
  (GetByte ip 15 =? 0x20) && (GetByte ip 14 =? 0x01) && (GetByte ip 13 =? 0) && (GetByte ip 12 =? 0).
Definition IsRFC4862 (ip : CNetAddr) : bool := has_prefix ip [0xFE; 0x80; 0; 0; 0; 0; 0; 0].
Definition IsRFC4193 (ip : CNetAddr) : bool := Z.land (GetByte ip 15) 0xFE =? 0xFC.
Definition IsRFC6145 (ip : CNetAddr) : bool := has_prefix ip [0; 0; 0; 0; 0; 0; 0; 0; 0xFF; 0xFF; 0; 0].
Definition IsRFC4843 (ip : CNetAddr) : bool :=
  (GetByte ip 15 =? 0x20) && (GetByte ip 14 =? 0x01) && (GetByte ip 13 =? 0x00) && (Z.land (GetByte ip 12) 0xF0 =? 0x10).

Definition IsLocal (ip : CNetAddr) : bool :=
  if IsIPv4 ip && ((GetByte ip 3 =? 127) || (GetByte ip 3 =? 0)) then true
  else bool_decide (ip = replicate 15 0 ++ [1]).
Definition IsMulticast (ip : CNetAddr) : bool :=
  (IsIPv4 ip && (Z.land (GetByte ip 3) 0xF0 =? 0xE0)) || (GetByte ip 15 =? 0xFF).

Definition net_IsValid (ip : CNetAddr) : bool :=
  if has_prefix ip (drop 3 pchIPv4) then false
  else if bool_decide (ip = replicate 16 0) then false
  else if IsRFC3849 ip then false
  else if IsIPv4 ip then
    if bool_decide (drop 12 ip = [255; 255; 255; 255]) then false
    else negb (bool_decide (drop 12 ip = [0; 0; 0; 0]))
  else true.

Definition IsRoutable (ip : CNetAddr) : bool :=
  net_IsValid ip && negb (IsRFC1918 ip || IsRFC3927 ip || IsRFC4862 ip || (IsRFC4193 ip && negb (IsTor ip) && negb (IsI2P ip)) ||
                          IsRFC4843 ip || IsLocal ip).

Definition GetNetwork (ip : CNetAddr) : Network :=
  if negb (IsRoutable ip) then NET_UNROUTABLE
  else if IsIPv4 ip then NET_IPV4
  else if IsTor ip then NET_TOR
  else if IsI2P ip then NET_I2P
  else NET_IPV6.

(** The text of hidden-service addresses; the numeric text of the others comes
    from the system's resolver or, failing that, from a format string *)
Definition ToStringIP (numeric : CNetAddr → list Z) (ip : CNetAddr) : list Z :=
  if IsTor ip then EncodeBase32 (drop 6 ip) ++ dot_onion
  else if IsI2P ip then EncodeBase32 (drop 6 ip) ++ dot_i2p
  else numeric ip.

Definition addr_eq (a b : CNetAddr) : bool := cmp_bytes a b =? 0.
Definition addr_lt (a b : CNetAddr) : bool := cmp_bytes a b <? 0.

Definition GetInAddr (ip : CNetAddr) : option (list Z) := if negb (IsIPv4 ip) then None else Some (drop 12 ip).
Definition GetIn6Addr (ip : CNetAddr) : list Z := ip.

(** ** Groups *)

(** "while (nBits >= 8)": the bytes pushed and what is left *)
Fixpoint group_loop (ip : CNetAddr) (fuel nStartByte nBits : nat) : list Z :=
  match fuel with
  | O => []
  | S fuel =>
      if (8 <=? nBits)%nat then GetByte ip (15 - nStartByte) :: group_loop ip fuel (S nStartByte) (nBits - 8)
      else if (0 <? nBits)%nat then [Z.lor (GetByte ip (15 - nStartByte)) (Z.shiftl 1 (Z.of_nat nBits) - 1)]
      else []
  end.

(** Where the group starts and how many bits it has; [inl] is the early return for Teredo *)
Definition group_class (ip : CNetAddr) : list Z + Z * nat * nat :=
  let '(nClass, nBits) := if IsLocal ip then (255, 0%nat) else (Network_Z NET_IPV6, 16%nat) in
  if negb (IsRoutable ip) then inr (Network_Z NET_UNROUTABLE, 0%nat, 0%nat)
  else if IsIPv4 ip || IsRFC6145 ip || IsRFC6052 ip then inr (Network_Z NET_IPV4, 12%nat, nBits)
  else if IsRFC3964 ip then inr (Network_Z NET_IPV4, 2%nat, nBits)
  else if IsRFC4380 ip then inl [Network_Z NET_IPV4; Z.lxor (GetByte ip 3) 0xFF; Z.lxor (GetByte ip 2) 0xFF]
  else if IsTor ip then inr (Network_Z NET_TOR, 6%nat, 4%nat)
  else if IsI2P ip then inr (Network_Z NET_I2P, 6%nat, 4%nat)
  else if (GetByte ip 15 =? 0x20) && (GetByte ip 14 =? 0x01) && (GetByte ip 13 =? 0x04) && (GetByte ip 12 =? 0x70)
  then inr (nClass, 0%nat, 36%nat)
  else inr (nClass, 0%nat, 32%nat).
Definition GetGroup (ip : CNetAddr) : list Z :=
  match group_class ip with
  | inl vchRet => vchRet
  | inr (nClass, nStartByte, nBits) => nClass :: group_loop ip 6 nStartByte nBits
  end.

Definition addr_GetHash `{Digests} (ip : CNetAddr) : Z := dval 256 (take 8 (getBytes (Hash ip))).

(** ** Reachability *)

Inductive ext_network := NET_EXT (n : Network) | NET_UNKNOWN | NET_TEREDO.
Definition GetExtNetwork (addr : option CNetAddr) : ext_network :=
  match addr with
  | None => NET_UNKNOWN
  | Some addr => if IsRFC4380 addr then NET_TEREDO else NET_EXT (GetNetwork addr)
  end.

Definition REACH_UNREACHABLE : Z := 0.
Definition REACH_DEFAULT : Z := 1.
Definition REACH_TEREDO : Z := 2.
Definition REACH_IPV6_WEAK : Z := 3.
Definition REACH_IPV4 : Z := 4.
Definition REACH_IPV6_STRONG : Z := 5.
Definition REACH_PRIVATE : Z := 6.

Definition GetReachabilityFrom (ip : CNetAddr) (paddrPartner : option CNetAddr) : Z :=
  if negb (IsRoutable ip) then REACH_UNREACHABLE
  else
    let ourNet := GetExtNetwork (Some ip) in
    let fTunnel := IsRFC3964 ip || IsRFC6052 ip || IsRFC6145 ip in
    match GetExtNetwork paddrPartner with
    | NET_EXT NET_IPV4 => match ourNet with NET_EXT NET_IPV4 => REACH_IPV4 | _ => REACH_DEFAULT end
    | NET_EXT NET_IPV6 =>
        match ourNet with
        | NET_TEREDO => REACH_TEREDO
        | NET_EXT NET_IPV4 => REACH_IPV4
        | NET_EXT NET_IPV6 => if fTunnel then REACH_IPV6_WEAK else REACH_IPV6_STRONG
        | _ => REACH_DEFAULT
        end
    | NET_EXT NET_TOR =>
        match ourNet with
        | NET_EXT NET_IPV4 => REACH_IPV4
        | NET_EXT NET_TOR => REACH_PRIVATE
        | _ => REACH_DEFAULT
        end
    | NET_EXT NET_I2P => match ourNet with NET_EXT NET_I2P => REACH_PRIVATE | _ => REACH_DEFAULT end
    | NET_TEREDO =>
        match ourNet with
        | NET_TEREDO => REACH_TEREDO
        | NET_EXT NET_IPV6 => REACH_IPV6_WEAK
        | NET_EXT NET_IPV4 => REACH_IPV4
        | _ => REACH_DEFAULT
        end
    | _ =>
        match ourNet with
        | NET_TEREDO => REACH_TEREDO
        | NET_EXT NET_IPV6 => REACH_IPV6_WEAK
        | NET_EXT NET_IPV4 => REACH_IPV4
        | NET_EXT NET_I2P => REACH_PRIVATE
        | NET_EXT NET_TOR => REACH_PRIVATE
        | _ => REACH_DEFAULT
        end
    end.

(** ** Services *)

Record CService := mkService { sv_ip : CNetAddr; port : Z }.
#[export] Instance CService_eq_dec : EqDecision CService.
Proof. solve_decision. Defined.
#[export] Instance CService_countable : Countable CService.
Proof.
  refine (inj_countable' (λ s, (sv_ip s, port s)) (λ p, mkService p.1 p.2) _). by intros [].
Defined.

Definition service_eq (a b : CService) : bool := addr_eq (sv_ip a) (sv_ip b) && (port a =? port b).
Definition service_lt (a b : CService) : bool :=
  addr_lt (sv_ip a) (sv_ip b) || (addr_eq (sv_ip a) (sv_ip b) && (port a <? port b)).
Definition GetKey (s : CService) : list Z := take 16 (sv_ip s) ++ [port s / 0x100; Z.land (port s) 0x0FF].

(** Socket addresses, with the port in network order *)
Inductive sockaddr :=
  | sockaddr_in (sin_addr : list Z) (sin_port : Z)
  | sockaddr_in6 (sin6_addr : list Z) (sin6_port : Z).
Definition htons (p : Z) : Z := p mod 256 * 256 + p / 256.
Definition SetSockAddr (use_ipv6 : bool) (paddr : sockaddr) : option CService :=
  match paddr with
  | sockaddr_in a p => Some (mkService (CNetAddr_in a) (htons p))
  | sockaddr_in6 a p => if use_ipv6 then Some (mkService a (htons p)) else None
  end.
Definition GetSockAddr (use_ipv6 : bool) (s : CService) : option sockaddr :=
  if IsIPv4 (sv_ip s) then a ← GetInAddr (sv_ip s); Some (sockaddr_in a (htons (port s)))
  else if use_ipv6 && IsIPv6 (sv_ip s) then Some (sockaddr_in6 (GetIn6Addr (sv_ip s)) (htons (port s)))
  else None.

(** ** Classes *)

Lemma has_prefix_true ip pch : has_prefix ip pch = true ↔ ip = pch ++ drop (length pch) ip.
Proof.
  unfold has_prefix. rewrite bool_decide_eq_true. split; intros E.
  - by rewrite <- E at 1; rewrite take_drop.
  - rewrite E. by rewrite take_app_length.
Qed.
Lemma has_prefix_excl ip p q : has_prefix ip p = true → has_prefix ip q = true →
  take (Nat.min (length p) (length q)) p = take (Nat.min (length p) (length q)) q.
Proof.
  unfold has_prefix. rewrite !bool_decide_eq_true. intros <- <-. rewrite !length_take, !take_take. f_equal. lia.
Qed.

(** Decide that two prefixes exclude each other. *)
Ltac exclusive := intros H1 H2; exfalso; assert (H := has_prefix_excl _ _ _ H1 H2); vm_compute in H; discriminate.

Lemma IPv4_not_Tor ip : IsIPv4 ip = true → IsTor ip = true → False.
Proof. exclusive. Qed.
Lemma IPv4_not_I2P ip : IsIPv4 ip = true → IsI2P ip = true → False.
Proof. exclusive. Qed.
Lemma Tor_not_I2P ip : IsTor ip = true → IsI2P ip = true → False.
Proof. exclusive. Qed.

Lemma routable_not_local ip : IsRoutable ip = true → IsLocal ip = false.
Proof. unfold IsRoutable. intros [_ H]%andb_prop. apply negb_true_iff in H. by apply orb_false_iff in H as [_ H]. Qed.

(** ** Groups *)

Inductive net_group :=
  | GUnroutable
  | GIPv4 (a b : Z)             (* the first two bytes of the IPv4 address *)
  | GTor (h : Z)                (* the upper four bits of the key *)
  | GI2P (h : Z)
  | GHurricane (h : Z)          (* four bits after 2001:470::/32 *)
  | GIPv6 (a b c d : Z).        (* 32 bits *)

(** The IPv4 address an address stands for, by what carries it *)
Definition ipv4_prefix (ip : CNetAddr) : option (Z * Z) :=
  if IsIPv4 ip || IsRFC6145 ip || IsRFC6052 ip then Some (nth 12 ip 0, nth 13 ip 0)
  else if IsRFC3964 ip then Some (nth 2 ip 0, nth 3 ip 0)
  else if IsRFC4380 ip then Some (255 - nth 12 ip 0, 255 - nth 13 ip 0)
  else None.
Definition group_of (ip : CNetAddr) : net_group :=
  if IsRoutable ip then
    match ipv4_prefix ip with
    | Some (a, b) => GIPv4 a b
    | None =>
        if IsTor ip then GTor (nth 6 ip 0 / 16)
        else if IsI2P ip then GI2P (nth 6 ip 0 / 16)
        else if bool_decide (take 4 ip = [0x20; 0x01; 0x04; 0x70]) then GHurricane (nth 4 ip 0 / 16)
        else GIPv6 (nth 0 ip 0) (nth 1 ip 0) (nth 2 ip 0) (nth 3 ip 0)
    end
  else GUnroutable.
Definition group_bytes (g : net_group) : list Z :=
  match g with
  | GUnroutable => [0]
  | GIPv4 a b => [1; a; b]
  | GTor h => [3; h * 16 + 15]
  | GI2P h => [4; h * 16 + 15]
  | GHurricane h => [2; 0x20; 0x01; 0x04; 0x70; h * 16 + 15]
  | GIPv6 a b c d => [2; a; b; c; d]
  end.

Lemma group_bytes_inj g g' : group_bytes g = group_bytes g' → g = g'.
Proof. destruct g, g'; cbn; intros; simplify_eq; f_equal; lia. Qed.

Lemma lor_15 b : 0 <= b < 256 → Z.lor b 15 = b / 16 * 16 + 15.
Proof. intros Hb. apply Z.eqb_eq. apply (forallb_range (λ b, Z.lor b 15 =? b / 16 * 16 + 15) 256); [vm_compute; reflexivity|done]. Qed.
Lemma lxor_255 b : 0 <= b < 256 → Z.lxor b 255 = 255 - b.
Proof. intros Hb. apply Z.eqb_eq. apply (forallb_range (λ b, Z.lxor b 255 =? 255 - b) 256); [vm_compute; reflexivity|done]. Qed.
Lemma nth_byte ip n : digits_ok 256 ip → 0 <= nth n ip 0 < 256.
Proof.
  intros H. destruct (nth_in_or_default n ip 0) as [Hin|E]; [|rewrite E; lia]. rewrite Forall_forall in H. apply H. by apply list_elem_of_In.
Qed.

Lemma take_4 (ip : list Z) a b c d : length ip = 16%nat →
  (nth 0 ip 0 =? a) && (nth 1 ip 0 =? b) && (nth 2 ip 0 =? c) && (nth 3 ip 0 =? d) = bool_decide (take 4 ip = [a; b; c; d]).
Proof.
  destruct ip as [|x0 [|x1 [|x2 [|x3 ip]]]]; try done. intros _. cbn [nth take]. case_bool_decide as E.
  - injection E as -> -> -> ->. by rewrite !Z.eqb_refl.
  - destruct (Z.eqb_spec x0 a), (Z.eqb_spec x1 b), (Z.eqb_spec x2 c), (Z.eqb_spec x3 d); subst; done.
Qed.

Lemma GetGroup_bytes ip : is_addr ip → GetGroup ip = group_bytes (group_of ip).
Proof.
  intros [Hlen Hip]. unfold GetGroup, group_class, group_of, ipv4_prefix. destruct (IsRoutable ip) eqn:Er; [|by destruct (IsLocal ip)].
  rewrite (routable_not_local ip Er). cbn [negb]. destruct (IsIPv4 ip || IsRFC6145 ip || IsRFC6052 ip); [done|].
  destruct (IsRFC3964 ip); [done|]. destruct (IsRFC4380 ip).
  { cbn [group_bytes Network_Z]. by rewrite !lxor_255 by (by apply nth_byte). }
  destruct (IsTor ip).
  { cbn -[Z.lor Z.div nth]. unfold GetByte. cbn [Nat.sub]. by rewrite lor_15 by (by apply nth_byte). }
  destruct (IsI2P ip).
  { cbn -[Z.lor Z.div nth]. unfold GetByte. cbn [Nat.sub]. by rewrite lor_15 by (by apply nth_byte). }
  unfold GetByte. cbn [Nat.sub]. rewrite take_4 by done. case_bool_decide as E; [|done].
  cbn -[Z.lor Z.div nth]. unfold GetByte. cbn [Nat.sub]. rewrite lor_15 by (by apply nth_byte).
  destruct ip as [|x0 [|x1 [|x2 [|x3 ip]]]]; try done. by injection E as -> -> -> ->.
Qed.

(** ** Names of hidden services *)

Lemma ends_with_app s suffix : s ≠ [] → ends_with (s ++ suffix) suffix = true.
Proof.
  intros Hs. unfold ends_with. rewrite length_app. replace (length s + length suffix - length suffix)%nat with (length s) by lia.
  rewrite drop_app_length, bool_decide_eq_true_2, andb_true_r by done. apply Nat.ltb_lt. destruct s; [done|cbn; lia].
Qed.
Lemma i2p_not_onion s : ends_with (s ++ dot_i2p) dot_onion = false.
Proof.
  unfold ends_with. apply andb_false_intro2, bool_decide_eq_false_2. rewrite length_app. change (length dot_i2p) with 11%nat.
  change (length dot_onion) with 6%nat. replace (length s + 11 - 6)%nat with (length s + 5)%nat by lia. rewrite drop_app_add. done.
Qed.
Lemma EncodeBase32_nonempty v : digits_ok 256 v → v ≠ [] → EncodeBase32 v ≠ [].
Proof. intros Hv Hne E. apply Hne. assert (H := base32_ok v Hv). rewrite E in H. by injection H as <-. Qed.

Lemma prefix_6 ip pch : length pch = 6%nat → has_prefix ip pch = true → ip = pch ++ drop 6 ip.
Proof. intros Hl H. apply has_prefix_true in H. by rewrite Hl in H. Qed.

Lemma SetSpecial_onion v : digits_ok 256 v → length v = 10%nat → SetSpecial (EncodeBase32 v ++ dot_onion) = Some (pchOnionCat ++ v).
Proof.
  intros Hv Hl. assert (Hne : EncodeBase32 v ≠ []) by (apply EncodeBase32_nonempty; [done|by intros ->]). unfold SetSpecial.
  rewrite ends_with_app by done. rewrite length_app. change (length dot_onion) with 6%nat. rewrite Nat.add_sub, take_app_length.
  rewrite base32_ok by done. cbn [fst]. by rewrite Hl.
Qed.
Lemma SetSpecial_i2p v : digits_ok 256 v → length v = 10%nat → SetSpecial (EncodeBase32 v ++ dot_i2p) = Some (pchOnionCat ++ v).
Proof.
  intros Hv Hl. assert (Hne : EncodeBase32 v ≠ []) by (apply EncodeBase32_nonempty; [done|by intros ->]). unfold SetSpecial.
  rewrite i2p_not_onion, ends_with_app by done. rewrite length_app. change (length dot_i2p) with 11%nat. rewrite Nat.add_sub, take_app_length.
  rewrite base32_ok by done. cbn [fst]. by rewrite Hl.
Qed.

(** ** The order of services *)

Abbreviation is_service s := (is_addr (sv_ip s) ∧ 0 <= port s < 65536).
Definition service_num (s : CService) : Z := be_val (sv_ip s) * 65536 + port s.

Lemma be_val_inj a b : digits_ok 256 a → digits_ok 256 b → length a = length b → be_val a = be_val b → a = b.
Proof.
  intros Ha Hb Hl E. unfold be_val in E. rewrite <- (rev_involutive a), <- (rev_involutive b). f_equal. apply (dval_inj 256); rewrite ?length_rev; try done;
    try (by apply Forall_rev); lia.
Qed.
Lemma service_num_inj a b : is_service a → is_service b → service_num a = service_num b → a = b.
Proof.
  destruct a as [ipa pa], b as [ipb pb]. unfold service_num. cbn [sv_ip port]. intros [[La Ha] Hpa] [[Lb Hb] Hpb] E.
  assert (be_val ipa = be_val ipb ∧ pa = pb) as [Ev ->] by lia. f_equal. apply be_val_inj; [done..|congruence|done].
Qed.

Lemma addr_order a b : is_addr a → is_addr b →
  addr_eq a b = (be_val a =? be_val b) ∧ addr_lt a b = (be_val a <? be_val b).
Proof.
  intros [La Ha] [Lb Hb]. unfold addr_eq, addr_lt. rewrite cmp_bytes_ok by (done || congruence). split; lia.
Qed.
Lemma service_order_num a b : is_service a → is_service b →
  service_eq a b = (service_num a =? service_num b) ∧ service_lt a b = (service_num a <? service_num b).
Proof.
  intros [Ha Hpa] [Hb Hpb]. unfold service_eq, service_lt, service_num. destruct (addr_order (sv_ip a) (sv_ip b) Ha Hb) as [-> ->]. split; lia.
Qed.

Lemma GetKey_num s : is_service s → digits_ok 256 (GetKey s) ∧ length (GetKey s) = 18%nat ∧ be_val (GetKey s) = service_num s.
Proof.
  destruct s as [ip p]. cbn [sv_ip port]. intros [[Hl Hd] Hp]. unfold GetKey, service_num. cbn [sv_ip port]. rewrite take_ge by lia.
  rewrite (land_ones_n p 8) by done. split; [|split].
  - apply Forall_app. split; [done|]. rewrite !Forall_cons. repeat split; try constructor; mlia.
  - by rewrite length_app, Hl.
  - unfold be_val. rewrite rev_app_distr. cbn [rev app dval]. mlia.
Qed.

Lemma htons_involutive p : 0 <= p < 65536 → htons (htons p) = p.
Proof. intros Hp. unfold htons. mlia. Qed.

(** ** Properties *)

(** Groups of addresses: two addresses are in the same group exactly when both are
    unroutable, or they stand for IPv4 addresses (plain, translated or tunnelled)
    with the same first sixteen bits, or are hidden services of the same network
    with the same first four bits of the key, or agree on the first 32 bits (36
    within 2001:470::/32). *)
Theorem GetGroup_spec a b : is_addr a → is_addr b → GetGroup a = GetGroup b ↔ group_of a = group_of b.
Proof.
  intros Ha Hb. rewrite !GetGroup_bytes by done. split; [apply group_bytes_inj|by intros ->].
Qed.

Lemma GetGroup_spec_witness :
  GetGroup (CNetAddr_in [8; 8; 4; 4]) = GetGroup (CNetAddr_in [8; 8; 8; 8]) ↔
  group_of (CNetAddr_in [8; 8; 4; 4]) = group_of (CNetAddr_in [8; 8; 8; 8]).
Proof.
  apply (GetGroup_spec (CNetAddr_in [8; 8; 4; 4]) (CNetAddr_in [8; 8; 8; 8])); (split; [reflexivity|repeat constructor; lia]).
Defined.

(** The name of a Tor address is read back as that address.  The name of an I2P
    address is not: it is read as the Tor address with the same ten bytes, because
    [SetSpecial] copies the prefix of the Tor range in both branches. *)
Theorem hidden_service_names numeric ip : is_addr ip →
  (IsTor ip = true → SetSpecial (ToStringIP numeric ip) = Some ip) ∧
  (IsI2P ip = true → ∃ ip', SetSpecial (ToStringIP numeric ip) = Some ip' ∧ IsTor ip' = true ∧ ip' ≠ ip ∧ drop 6 ip' = drop 6 ip).
Proof.
  intros [Hl Hd]. assert (Hd6 : digits_ok 256 (drop 6 ip)) by (by apply Forall_drop).
  assert (Hl6 : length (drop 6 ip) = 10%nat) by (rewrite length_drop, Hl; done). unfold ToStringIP. split; intros E.
  - rewrite E, SetSpecial_onion by done. f_equal. symmetry. by apply (prefix_6 ip pchOnionCat).
  - assert (Ht : IsTor ip = false) by (destruct (IsTor ip) eqn:Et; [by destruct (Tor_not_I2P ip)|done]). rewrite Ht, E, SetSpecial_i2p by done.
    eexists. split; [done|]. split; [unfold IsTor; by apply has_prefix_true|]. split; [|done].
    intros E'. rewrite <- E' in Ht. unfold IsTor in Ht. rewrite (proj2 (has_prefix_true _ pchOnionCat)) in Ht; done.
Qed.

Lemma hidden_service_names_witness : let ip := pchGarliCat ++ replicate 10 7 in
  (IsTor ip = true → SetSpecial (ToStringIP (λ _, []) ip) = Some ip) ∧
  (IsI2P ip = true → ∃ ip', SetSpecial (ToStringIP (λ _, []) ip) = Some ip' ∧ IsTor ip' = true ∧ ip' ≠ ip ∧ drop 6 ip' = drop 6 ip).
Proof. apply (hidden_service_names (λ _, []) (pchGarliCat ++ replicate 10 7)). split; [reflexivity|repeat constructor; lia]. Defined.

(** Services are totally ordered: equality is equality of address and port, the
    order is strict, transitive and total, and the 18-byte keys identify services
    and are ordered alike; a service survives its socket address. *)
Theorem service_order a b c : is_service a → is_service b → is_service c →
  (service_eq a b = true ↔ a = b) ∧ service_lt a a = false ∧
  (service_lt a b = true → service_lt b c = true → service_lt a c = true) ∧
  (service_lt a b = true ∨ a = b ∨ service_lt b a = true) ∧
  (GetKey a = GetKey b → a = b) ∧ service_lt a b = (cmp_bytes (GetKey a) (GetKey b) <? 0) ∧
  (∀ v6 sa, GetSockAddr v6 a = Some sa → SetSockAddr v6 sa = Some a).
Proof.
  intros Ha Hb Hc. destruct (service_order_num a b Ha Hb) as [-> Eab]. destruct (service_order_num b a Hb Ha) as [_ Eba].
  destruct (service_order_num b c Hb Hc) as [_ ->]. destruct (service_order_num a c Ha Hc) as [_ ->].
  destruct (service_order_num a a Ha Ha) as [_ ->]. rewrite Eab, Eba.
  assert (Hinj := service_num_inj a b Ha Hb). split; [|split; [|split; [|split; [|split; [|split]]]]].
  - rewrite Z.eqb_eq. split; [done|by intros ->].
  - lia.
  - lia.
  - destruct (Z.lt_trichotomy (service_num a) (service_num b)) as [?|[?|?]]; [left; lia|right; left; auto|right; right; lia].
  - intros E. apply Hinj. destruct (GetKey_num a Ha) as (_ & _ & <-). destruct (GetKey_num b Hb) as (_ & _ & <-). by rewrite E.
  - destruct (GetKey_num a Ha) as (Da & La & <-). destruct (GetKey_num b Hb) as (Db & Lb & <-).
    rewrite cmp_bytes_ok by (done || congruence). lia.
  - intros v6 sa. destruct a as [ip p]. cbn [sv_ip port] in Ha. destruct Ha as [[Hl Hd] Hp]. unfold GetSockAddr. cbn [sv_ip port].
    destruct (IsIPv4 ip) eqn:E4.
    + unfold GetInAddr. rewrite E4. cbn [negb mbind option_bind]. intros [= <-]. cbn [SetSockAddr]. rewrite htons_involutive by done.
      do 2 f_equal. unfold CNetAddr_in. symmetry. by apply has_prefix_true in E4.
    + destruct v6; [|done]. destruct (IsIPv6 ip); [|done]. cbn [andb]. intros [= <-]. cbn [SetSockAddr].
      by rewrite htons_involutive.
Qed.

Lemma service_order_witness :
  let a := mkService (CNetAddr_in [8; 8; 4; 4]) 7777 in let b := mkService (CNetAddr_in [8; 8; 4; 4]) 7778 in
  (service_eq a b = true ↔ a = b) ∧ service_lt a a = false ∧
  (service_lt a b = true → service_lt b a = true → service_lt a a = true) ∧
  (service_lt a b = true ∨ a = b ∨ service_lt b a = true) ∧
  (GetKey a = GetKey b → a = b) ∧ service_lt a b = (cmp_bytes (GetKey a) (GetKey b) <? 0) ∧
  (∀ v6 sa, GetSockAddr v6 a = Some sa → SetSockAddr v6 sa = Some a).
Proof.
  apply (service_order (mkService (CNetAddr_in [8; 8; 4; 4]) 7777) (mkService (CNetAddr_in [8; 8; 4; 4]) 7778)
    (mkService (CNetAddr_in [8; 8; 4; 4]) 7777)); (split; [split; [reflexivity|repeat constructor; lia]|cbn; lia]).
Defined.

(** Every address belongs to exactly one network: the four ranges exclude each
    other and [GetNetwork] names the range of a routable address; an address
    that is not routable has no reachability, and among routable addresses an
    untunnelled one of the partner's own network is preferred to all others. *)
Theorem net_classes ip other partner :
  (length (filter (λ f : CNetAddr → bool, f ip = true) [IsIPv4; IsTor; IsI2P; IsIPv6]) = 1%nat) ∧
  (GetNetwork ip = NET_UNROUTABLE ↔ IsRoutable ip = false) ∧
  (IsRoutable ip = true → GetNetwork ip = if IsIPv4 ip then NET_IPV4 else if IsIPv6 ip then NET_IPV6 else if IsTor ip then NET_TOR else NET_I2P) ∧
  (GetReachabilityFrom ip partner = REACH_UNREACHABLE ↔ IsRoutable ip = false) ∧
  (IsRoutable ip = true → GetExtNetwork (Some ip) = GetExtNetwork partner → GetExtNetwork partner ≠ NET_TEREDO →
   IsRFC3964 ip || IsRFC6052 ip || IsRFC6145 ip = false →
   GetReachabilityFrom other partner <= GetReachabilityFrom ip partner).
Proof.
  split; [|split; [|split; [|split]]].
  - unfold IsIPv6. assert (H1 := IPv4_not_Tor ip). assert (H2 := IPv4_not_I2P ip). assert (H3 := Tor_not_I2P ip).
    cbn [filter list_filter]. destruct (IsIPv4 ip), (IsTor ip), (IsI2P ip); try (by destruct H1); try (by destruct H2); try (by destruct H3); done.
  - unfold GetNetwork. destruct (IsRoutable ip); [|done]. cbn [negb]. destruct (IsIPv4 ip), (IsTor ip), (IsI2P ip); done.
  - intros E. unfold GetNetwork, IsIPv6. rewrite E. cbn [negb]. destruct (IsIPv4 ip), (IsTor ip), (IsI2P ip); done.
  - unfold GetReachabilityFrom. destruct (IsRoutable ip); [|done]. cbn [negb].
    destruct (GetExtNetwork partner) as [[]| |], (GetExtNetwork (Some ip)) as [[]| |]; try done; by destruct (_ || _).
  - intros Er En Ht Hf. unfold GetReachabilityFrom. rewrite Er, En, Hf. cbn [negb].
    assert (Hu : GetExtNetwork (Some ip) ≠ NET_UNKNOWN) by (cbn; by destruct (IsRFC4380 ip)).
    assert (Hn : GetExtNetwork (Some ip) ≠ NET_EXT NET_UNROUTABLE).
    { cbn. destruct (IsRFC4380 ip); [done|]. intros [= E]. unfold GetNetwork in E. rewrite Er in E. cbn [negb] in E.
      destruct (IsIPv4 ip), (IsTor ip), (IsI2P ip); done. }
    rewrite En in Hu, Hn. destruct (negb (IsRoutable other)); [destruct (GetExtNetwork partner) as [[]| |]; done|].
    destruct (GetExtNetwork partner) as [[]| |]; try done; destruct (GetExtNetwork (Some other)) as [[]| |]; try congruence; try done; by destruct (IsRFC3964 other), (IsRFC6052 other), (IsRFC6145 other).
Qed.

Lemma net_classes_witness : let ip := CNetAddr_in [8; 8; 8; 8] in let partner := Some (CNetAddr_in [9; 9; 9; 9]) in
  (length (filter (λ f : CNetAddr → bool, f ip = true) [IsIPv4; IsTor; IsI2P; IsIPv6]) = 1%nat) ∧
  (GetNetwork ip = NET_UNROUTABLE ↔ IsRoutable ip = false) ∧ GetNetwork ip = NET_IPV4 ∧
  (GetReachabilityFrom ip partner = REACH_UNREACHABLE ↔ IsRoutable ip = false) ∧
  GetReachabilityFrom (pchOnionCat ++ replicate 10 7) partner <= GetReachabilityFrom ip partner.
Proof.
  destruct (net_classes (CNetAddr_in [8; 8; 8; 8]) (pchOnionCat ++ replicate 10 7) (Some (CNetAddr_in [9; 9; 9; 9]))) as (H1 & H2 & H3 & H4 & H5).
  split; [exact H1|]. split; [exact H2|]. split; [exact (H3 eq_refl)|]. split; [exact H4|].
  apply H5; [reflexivity|reflexivity|discriminate|reflexivity].
Defined.
