(* ===== verification/AddrMan.v ===== *)
(** * The address manager (src/addrman.cpp, src/addrman.h)

    Peer addresses in "new" and "tried" buckets.  The tables are those of
    [CAddrMan]: a pointer to an entry is its id in [mapInfo], looked up again
    after every change; a [std::set<int>] is a [gset], iterated in increasing
    order.  An operation gets the random numbers it draws as a function of the
    number of the draw and its bound, and the clock as an argument; a failed
    assertion, or an access the code does not guard, is [None].  The choice of
    an entry to connect to takes the floating-point coin flips as arguments. *)

From stdpp Require Import base list numbers option gmap sets sorting.
From Stdlib Require Import ZArith Lia.
From S2P Require Import Prelude Uint256 Bignum Serialize Tx Script Interp Chain Encoding NetAddr.

Open Scope Z_scope.

Definition ADDRMAN_TRIED_BUCKET_COUNT : nat := 64.
Definition ADDRMAN_TRIED_BUCKET_SIZE : nat := 64.
Definition ADDRMAN_NEW_BUCKET_COUNT : nat := 256.
Definition ADDRMAN_NEW_BUCKET_SIZE : nat := 64.
Definition ADDRMAN_TRIED_BUCKETS_PER_GROUP : Z := 4.
Definition ADDRMAN_NEW_BUCKETS_PER_SOURCE_GROUP : Z := 32.
Definition ADDRMAN_NEW_BUCKETS_PER_ADDRESS : Z := 4.
Definition ADDRMAN_TRIED_ENTRIES_INSPECT_ON_EVICT : nat := 4.
Definition ADDRMAN_HORIZON_DAYS : Z := 30.
Definition ADDRMAN_RETRIES : Z := 3.
Definition ADDRMAN_MAX_FAILURES : Z := 10.
Definition ADDRMAN_MIN_FAIL_DAYS : Z := 7.
Definition ADDRMAN_GETADDR_MAX_PCT : nat := 23.
Definition ADDRMAN_GETADDR_MAX : nat := 2500.

(** ** Entries *)

Record CAddress := mkAddress { ad_service : CService; ad_nServices : Z; ad_nTime : Z }.

Record CAddrInfo := mkInfo {
  ai_addr : CAddress;
  ai_source : CNetAddr;
  nLastSuccess : Z;
  nLastTry : Z;
  nAttempts : Z;
  nRefCount : Z;
  fInTried : bool;
  nRandomPos : Z
}.
Definition ai_service (i : CAddrInfo) : CService := ad_service (ai_addr i).
Definition ai_ip (i : CAddrInfo) : CNetAddr := sv_ip (ai_service i).
Definition ai_nTime (i : CAddrInfo) : Z := ad_nTime (ai_addr i).

Definition CAddrInfo_new (addrIn : CAddress) (addrSource : CNetAddr) : CAddrInfo :=
  mkInfo addrIn addrSource 0 0 0 0 false (-1).

(** Assignments to single fields *)
Definition set_nTime (t : Z) (i : CAddrInfo) : CAddrInfo :=
  mkInfo (mkAddress (ai_service i) (ad_nServices (ai_addr i)) (u32 t)) (ai_source i) (nLastSuccess i) (nLastTry i) (nAttempts i)
    (nRefCount i) (fInTried i) (nRandomPos i).
Definition add_services (s : Z) (i : CAddrInfo) : CAddrInfo :=
  mkInfo (mkAddress (ai_service i) (Z.lor (ad_nServices (ai_addr i)) s) (ai_nTime i)) (ai_source i) (nLastSuccess i) (nLastTry i)
    (nAttempts i) (nRefCount i) (fInTried i) (nRandomPos i).
Definition set_try (success last attempts : Z) (i : CAddrInfo) : CAddrInfo :=
  mkInfo (ai_addr i) (ai_source i) success last attempts (nRefCount i) (fInTried i) (nRandomPos i).
Definition set_place (refs : Z) (tried : bool) (i : CAddrInfo) : CAddrInfo :=
  mkInfo (ai_addr i) (ai_source i) (nLastSuccess i) (nLastTry i) (nAttempts i) refs tried (nRandomPos i).
Definition set_pos (p : Z) (i : CAddrInfo) : CAddrInfo :=
  mkInfo (ai_addr i) (ai_source i) (nLastSuccess i) (nLastTry i) (nAttempts i) (nRefCount i) (fInTried i) p.

Section Buckets.
Context {DG : Digests}.

Definition GetTriedBucket (nKey : list Z) (i : CAddrInfo) : nat :=
  let hash1 := Get64 (Hash (Serialize nKey ++ Serialize (GetKey (ai_service i)))) 0 in
  let hash2 := Get64 (Hash (Serialize nKey ++ Serialize (GetGroup (ai_ip i)) ++ write_int 8 (hash1 mod ADDRMAN_TRIED_BUCKETS_PER_GROUP))) 0 in
  Z.to_nat (hash2 mod Z.of_nat ADDRMAN_TRIED_BUCKET_COUNT).

Definition GetNewBucket (nKey : list Z) (i : CAddrInfo) (src : CNetAddr) : nat :=
  let hash1 := Get64 (Hash (Serialize nKey ++ Serialize (GetGroup (ai_ip i)) ++ Serialize (GetGroup src))) 0 in
  let hash2 := Get64 (Hash (Serialize nKey ++ Serialize (GetGroup src) ++ write_int 8 (hash1 mod ADDRMAN_NEW_BUCKETS_PER_SOURCE_GROUP))) 0 in
  Z.to_nat (hash2 mod Z.of_nat ADDRMAN_NEW_BUCKET_COUNT).
End Buckets.

Definition IsTerrible (nNow : Z) (i : CAddrInfo) : bool :=
  if negb (nLastTry i =? 0) && (nLastTry i >=? nNow - 60) then false
  else if ai_nTime i >? nNow + 10 * 60 then true
  else if (ai_nTime i =? 0) || (nNow - ai_nTime i >? ADDRMAN_HORIZON_DAYS * nOneDay) then true
  else if (nLastSuccess i =? 0) && (nAttempts i >=? ADDRMAN_RETRIES) then true
  else (nNow - nLastSuccess i >? ADDRMAN_MIN_FAIL_DAYS * nOneDay) && (nAttempts i >=? ADDRMAN_MAX_FAILURES).

(** ** The manager *)

Record CAddrMan := mkMan {
  nKey : list Z;
  nIdCount : Z;
  mapInfo : gmap Z CAddrInfo;
  mapAddr : gmap CNetAddr Z;
  vRandom : list Z;
  nTried : Z;
  vvTried : list (list Z);
  nNew : Z;
  vvNew : list (gset Z)
}.
Definition CAddrMan_new (key : list Z) : CAddrMan :=
  mkMan key 0 ∅ ∅ [] 0 (replicate ADDRMAN_TRIED_BUCKET_COUNT []) 0 (replicate ADDRMAN_NEW_BUCKET_COUNT ∅).

Definition set_info (nId : Z) (i : CAddrInfo) (am : CAddrMan) : CAddrMan :=
  mkMan (nKey am) (nIdCount am) (<[nId := i]> (mapInfo am)) (mapAddr am) (vRandom am) (nTried am) (vvTried am) (nNew am) (vvNew am).
Definition set_new (n : Z) (vv : list (gset Z)) (am : CAddrMan) : CAddrMan :=
  mkMan (nKey am) (nIdCount am) (mapInfo am) (mapAddr am) (vRandom am) (nTried am) (vvTried am) n vv.
Definition set_tried (n : Z) (vv : list (list Z)) (am : CAddrMan) : CAddrMan :=
  mkMan (nKey am) (nIdCount am) (mapInfo am) (mapAddr am) (vRandom am) n vv (nNew am) (vvNew am).

(** A [std::set<int>] from the least element to the greatest *)
Definition in_order (s : gset Z) : list Z := merge_sort Z.le (elements s).

(** The id and the entry *)
Definition am_Find (addr : CNetAddr) (am : CAddrMan) : option (Z * CAddrInfo) :=
  nId ← mapAddr am !! addr; i ← mapInfo am !! nId; Some (nId, i).

Definition Create (addr : CAddress) (addrSource : CNetAddr) (am : CAddrMan) : Z * CAddrMan :=
  let nId := nIdCount am in
  let i := set_pos (Z.of_nat (length (vRandom am))) (CAddrInfo_new addr addrSource) in
  (nId, mkMan (nKey am) (nIdCount am + 1) (<[nId := i]> (mapInfo am)) (<[sv_ip (ad_service addr) := nId]> (mapAddr am))
          (vRandom am ++ [nId]) (nTried am) (vvTried am) (nNew am) (vvNew am)).

(** A negative position converts to an unsigned one that fails the assertion. *)
Definition SwapRandom (nRndPos1 nRndPos2 : Z) (am : CAddrMan) : option CAddrMan :=
  if nRndPos1 =? nRndPos2 then Some am
  else if negb ((0 <=? nRndPos1) && (0 <=? nRndPos2)) then None
  else
    nId1 ← vRandom am !! Z.to_nat nRndPos1;
    nId2 ← vRandom am !! Z.to_nat nRndPos2;
    i1 ← mapInfo am !! nId1;
    i2 ← mapInfo am !! nId2;
    Some (mkMan (nKey am) (nIdCount am) (<[nId2 := set_pos nRndPos1 i2]> (<[nId1 := set_pos nRndPos2 i1]> (mapInfo am))) (mapAddr am)
            (<[Z.to_nat nRndPos2 := nId1]> (<[Z.to_nat nRndPos1 := nId2]> (vRandom am))) (nTried am) (vvTried am) (nNew am) (vvNew am)).

(** The loop of [SelectTried] from [i], at most [k] turns: the shuffled bucket and the position *)
Fixpoint select_loop (m : gmap Z CAddrInfo) (rnd : nat → nat → nat) (k i : nat) (vTried : list Z) (nOldest nOldestPos : Z) :
    option (list Z * Z) :=
  match k with
  | O => Some (vTried, nOldestPos)
  | S k =>
      if (i <? length vTried)%nat then
        let nPos := (rnd i (length vTried - i) + i)%nat in
        nTemp ← vTried !! nPos;
        vi ← vTried !! i;
        let vTried := <[i := nTemp]> (<[nPos := vi]> vTried) in
        it ← m !! nTemp;
        if nOldest =? -1 then select_loop m rnd k (S i) vTried nTemp (Z.of_nat nPos)
        else
          io ← m !! nOldest;
          if nLastSuccess it <? nLastSuccess io then select_loop m rnd k (S i) vTried nTemp (Z.of_nat nPos)
          else select_loop m rnd k (S i) vTried nOldest nOldestPos
      else Some (vTried, nOldestPos)
  end.
Definition SelectTried (rnd : nat → nat → nat) (nKBucket : nat) (am : CAddrMan) : option (Z * CAddrMan) :=
  vTried ← vvTried am !! nKBucket;
  '(vTried, nOldestPos) ← select_loop (mapInfo am) rnd ADDRMAN_TRIED_ENTRIES_INSPECT_ON_EVICT 0 vTried (-1) (-1);
  Some (nOldestPos, set_tried (nTried am) (<[nKBucket := vTried]> (vvTried am)) am).

(** "if (--info.nRefCount == 0)" and the removal of the entry *)
Definition drop_ref (nId : Z) (am : CAddrMan) : option CAddrMan :=
  i ← mapInfo am !! nId;
  let i := set_place (nRefCount i - 1) (fInTried i) i in
  let am := set_info nId i am in
  if nRefCount i =? 0 then
    am ← SwapRandom (nRandomPos i) (Z.of_nat (length (vRandom am)) - 1) am;
    Some (mkMan (nKey am) (nIdCount am) (delete nId (mapInfo am)) (delete (ai_ip i) (mapAddr am))
            (take (length (vRandom am) - 1) (vRandom am)) (nTried am) (vvTried am) (nNew am - 1) (vvNew am))
  else Some am.

(** The first entry that is terrible *)
Fixpoint find_terrible (m : gmap Z CAddrInfo) (nNow : Z) (ids : list Z) : option (option Z) :=
  match ids with
  | [] => Some None
  | nId :: ids => i ← m !! nId; if IsTerrible nNow i then Some (Some nId) else find_terrible m nNow ids
  end.

(** The oldest of the entries at the positions [n] *)
Fixpoint shrink_pick (m : gmap Z CAddrInfo) (n : list nat) (nI : nat) (nOldest : Z) (ids : list Z) : option Z :=
  match ids with
  | [] => Some nOldest
  | nId :: ids =>
      if bool_decide (nI ∈ n) then
        i ← m !! nId;
        if nOldest =? -1 then shrink_pick m n (S nI) nId ids
        else
          io ← m !! nOldest;
          shrink_pick m n (S nI) (if ai_nTime i <? ai_nTime io then nId else nOldest) ids
      else shrink_pick m n (S nI) nOldest ids
  end.

Definition ShrinkNew (nNow : Z) (rnd : nat → nat → nat) (nUBucket : nat) (am : CAddrMan) : option CAddrMan :=
  vNew ← vvNew am !! nUBucket;
  found ← find_terrible (mapInfo am) nNow (in_order vNew);
  nId ← match found with
        | Some nId => Some nId
        | None => shrink_pick (mapInfo am) (map (λ k, rnd k (size vNew)) (seq 0 4)) 0 (-1) (in_order vNew)
        end;
  am ← drop_ref nId am;
  Some (set_new (nNew am) (<[nUBucket := vNew ∖ {[nId]}]> (vvNew am)) am).

Section Operations.
Context {DG : Digests}.

(** "remove the entry from all new buckets": the buckets and the reference count *)
Fixpoint erase_all (nId : Z) (vv : list (gset Z)) (refs : Z) : list (gset Z) * Z :=
  match vv with
  | [] => ([], refs)
  | s :: vv =>
      let '(vv', refs') := erase_all nId vv (if bool_decide (nId ∈ s) then refs - 1 else refs) in
      (s ∖ {[nId]} :: vv', refs')
  end.

(** The entry evicted from a full tried bucket goes back to a new bucket. *)
Definition evict (rnd : nat → nat → nat) (nId : Z) (nKBucket nOrigin : nat) (am : CAddrMan) : option CAddrMan :=
  '(nPos, am) ← SelectTried rnd nKBucket am;
  vTried ← vvTried am !! nKBucket;
  nOld ← (if nPos <? 0 then None else vTried !! Z.to_nat nPos);
  infoOld ← mapInfo am !! nOld;
  let nUBucket := GetNewBucket (nKey am) infoOld (ai_source infoOld) in
  vNew ← vvNew am !! nUBucket;
  vOrigin ← vvNew am !! nOrigin;
  let am := set_info nOld (set_place 1 false infoOld) am in
  let vv := if (size vNew <? ADDRMAN_NEW_BUCKET_SIZE)%nat then <[nUBucket := {[nOld]} ∪ vNew]> (vvNew am)
            else <[nOrigin := {[nOld]} ∪ vOrigin]> (vvNew am) in
  let am := set_new (nNew am + 1) vv am in
  let am := set_tried (nTried am) (<[nKBucket := <[Z.to_nat nPos := nId]> vTried]> (vvTried am)) am in
  info ← mapInfo am !! nId;
  Some (set_info nId (set_place (nRefCount info) true info) am).

Definition MakeTried (rnd : nat → nat → nat) (nId : Z) (nOrigin : nat) (am : CAddrMan) : option CAddrMan :=
  vOrigin ← vvNew am !! nOrigin;
  info ← mapInfo am !! nId;
  if negb (bool_decide (nId ∈ (vOrigin : gset Z))) then None
  else
    let '(vv, refs) := erase_all nId (vvNew am) (nRefCount info) in
    let info := set_place refs (fInTried info) info in
    let am := set_info nId info (set_new (nNew am - 1) vv am) in
    if negb (refs =? 0) then None
    else
      let nKBucket := GetTriedBucket (nKey am) info in
      vTried ← vvTried am !! nKBucket;
      if (length vTried <? ADDRMAN_TRIED_BUCKET_SIZE)%nat then
        Some (set_info nId (set_place refs true info)
                (set_tried (nTried am + 1) (<[nKBucket := vTried ++ [nId]]> (vvTried am)) am))
      else evict rnd nId nKBucket nOrigin am.

(** "find a bucket it is in now" *)
Fixpoint find_bucket (vv : list (gset Z)) (nId : Z) (nRnd : nat) (k n : nat) : option nat :=
  match k with
  | O => None
  | S k =>
      let nB := ((n + nRnd) mod length vv)%nat in
      if bool_decide (nId ∈ (nth nB vv ∅ : gset Z)) then Some nB else find_bucket vv nId nRnd k (S n)
  end.

Definition Good_ (rnd : nat → nat → nat) (addr : CService) (nTime : Z) (am : CAddrMan) : option CAddrMan :=
  match am_Find (sv_ip addr) am with
  | None => Some am
  | Some (nId, info) =>
      if negb (service_eq (ai_service info) addr) then Some am
      else
        let info := set_nTime nTime (set_try nTime nTime 0 info) in
        let am := set_info nId info am in
        if fInTried info then Some am
        else
          match find_bucket (vvNew am) nId (rnd 0%nat (length (vvNew am))) (length (vvNew am)) 0 with
          | None => Some am
          | Some nUBucket => MakeTried (λ k, rnd (S k)) nId nUBucket am
          end
  end.

(** The entry of a known address is refreshed; the second result is whether to go
    on and put it in another bucket *)
Definition add_known (nNow : Z) (rnd : nat → nat → nat) (addr : CAddress) (nTimePenalty : Z) (nId : Z) (info : CAddrInfo)
    (am : CAddrMan) : CAddrMan * bool :=
  let fCurrentlyOnline := nNow - ad_nTime addr <? nOneDay in
  let nUpdateInterval := if fCurrentlyOnline then nOneHour else nOneDay in
  let info :=
    if negb (ad_nTime addr =? 0) && ((ai_nTime info =? 0) || (ai_nTime info <? ad_nTime addr - nUpdateInterval - nTimePenalty))
    then set_nTime (Z.max 0 (ad_nTime addr - nTimePenalty)) info else info in
  let info := add_services (ad_nServices addr) info in
  let am := set_info nId info am in
  if (ad_nTime addr =? 0) || (negb (ai_nTime info =? 0) && (ad_nTime addr <=? ai_nTime info)) then (am, false)
  else if fInTried info then (am, false)
  else if nRefCount info =? ADDRMAN_NEW_BUCKETS_PER_ADDRESS then (am, false)
  else
    let nFactor := for_loop (Z.to_nat (nRefCount info)) (λ _ f, f * 2)%nat 1%nat in
    (am, negb ((1 <? nFactor)%nat && negb (rnd 0%nat nFactor =? 0)%nat)).

(** Putting an entry in the new bucket of a source *)
Definition add_place (nNow : Z) (rnd : nat → nat → nat) (source : CNetAddr) (nId : Z) (am : CAddrMan) : option CAddrMan :=
  info ← mapInfo am !! nId;
  let nUBucket := GetNewBucket (nKey am) info source in
  vNew ← vvNew am !! nUBucket;
  if bool_decide (nId ∈ (vNew : gset Z)) then Some am
  else
    let am := set_info nId (set_place (nRefCount info + 1) (fInTried info) info) am in
    am ← (if (size vNew =? ADDRMAN_NEW_BUCKET_SIZE)%nat then ShrinkNew nNow rnd nUBucket am else Some am);
    vNew ← vvNew am !! nUBucket;
    Some (set_new (nNew am) (<[nUBucket := {[nId]} ∪ vNew]> (vvNew am)) am).

Definition Add_ (nNow : Z) (rnd : nat → nat → nat) (addr : CAddress) (source : CNetAddr) (nTimePenalty : Z) (am : CAddrMan) :
    option (bool * CAddrMan) :=
  if negb (IsRoutable (sv_ip (ad_service addr))) then Some (false, am)
  else
    match am_Find (sv_ip (ad_service addr)) am with
    | Some (nId, info) =>
        let '(am, go_on) := add_known nNow rnd addr nTimePenalty nId info am in
        if go_on then am ← add_place nNow (λ k, rnd (S k)) source nId am; Some (false, am) else Some (false, am)
    | None =>
        let '(nId, am) := Create addr source am in
        info ← mapInfo am !! nId;
        let am := set_info nId (set_nTime (Z.max 0 (ai_nTime info - nTimePenalty)) info) am in
        let am := set_new (nNew am + 1) (vvNew am) am in
        am ← add_place nNow (λ k, rnd (S k)) source nId am;
        Some (true, am)
    end.

Definition Attempt_ (addr : CService) (nTime : Z) (am : CAddrMan) : CAddrMan :=
  match am_Find (sv_ip addr) am with
  | None => am
  | Some (nId, info) =>
      if negb (service_eq (ai_service info) addr) then am
      else set_info nId (set_try (nLastSuccess info) nTime (i32 (nAttempts info + 1)) info) am
  end.

Definition Connected_ (addr : CService) (nTime : Z) (am : CAddrMan) : CAddrMan :=
  match am_Find (sv_ip addr) am with
  | None => am
  | Some (nId, info) =>
      if negb (service_eq (ai_service info) addr) then am
      else if nTime - ai_nTime info >? 20 * 60 then set_info nId (set_nTime nTime info) am else am
  end.
End Operations.

(** ** Selecting *)

(** [CAddress()] *)
Definition CAddress_default : CAddress := mkAddress (mkService addr_Init 0) 1 100000000.

(** The loops of [Select_]: [accept t i] is the comparison with the chance of the
    entry at turn [t]; [Some None] is the end of the fuel *)
Fixpoint select_tried (fuel : nat) (rnd : nat → nat → nat) (accept : nat → CAddrInfo → bool) (t : nat) (am : CAddrMan) :
    option (option CAddress) :=
  match fuel with
  | O => Some None
  | S fuel =>
      vTried ← vvTried am !! rnd (2 * t)%nat (length (vvTried am));
      if (length vTried =? 0)%nat then select_tried fuel rnd accept (S t) am
      else
        nId ← vTried !! rnd (2 * t + 1)%nat (length vTried);
        info ← mapInfo am !! nId;
        if accept t info then Some (Some (ai_addr info)) else select_tried fuel rnd accept (S t) am
  end.
Fixpoint select_new (fuel : nat) (rnd : nat → nat → nat) (accept : nat → CAddrInfo → bool) (t : nat) (am : CAddrMan) :
    option (option CAddress) :=
  match fuel with
  | O => Some None
  | S fuel =>
      vNew ← vvNew am !! rnd (2 * t)%nat (length (vvNew am));
      if (size vNew =? 0)%nat then select_new fuel rnd accept (S t) am
      else
        nId ← in_order vNew !! rnd (2 * t + 1)%nat (size vNew);
        info ← mapInfo am !! nId;
        if accept t info then Some (Some (ai_addr info)) else select_new fuel rnd accept (S t) am
  end.
Definition Select_ (fuel : nat) (rnd : nat → nat → nat) (use_tried : bool) (accept : nat → CAddrInfo → bool) (am : CAddrMan) :
    option (option CAddress) :=
  if (length (vRandom am) =? 0)%nat then Some (Some CAddress_default)
  else if use_tried then select_tried fuel rnd accept 0 am else select_new fuel rnd accept 0 am.

(** [k] more turns of the shuffle from position [n]: the addresses and the manager *)
Fixpoint getaddr_loop (rnd : nat → nat → nat) (k n : nat) (am : CAddrMan) : option (list CAddress * CAddrMan) :=
  match k with
  | O => Some ([], am)
  | S k =>
      let nRndPos := (rnd n (length (vRandom am) - n) + n)%nat in
      am ← SwapRandom (Z.of_nat n) (Z.of_nat nRndPos) am;
      nId ← vRandom am !! n;
      info ← mapInfo am !! nId;
      '(vAddr, am) ← getaddr_loop rnd k (S n) am;
      Some (ai_addr info :: vAddr, am)
  end.
Definition GetAddr_ (rnd : nat → nat → nat) (am : CAddrMan) : option (list CAddress * CAddrMan) :=
  let nNodes := (ADDRMAN_GETADDR_MAX_PCT * length (vRandom am) / 100)%nat in
  let nNodes := if (ADDRMAN_GETADDR_MAX <? nNodes)%nat then ADDRMAN_GETADDR_MAX else nNodes in
  getaddr_loop rnd nNodes 0 am.

(** A map from the least key to the greatest *)
Definition key_le (a b : Z * CAddrInfo) : Prop := a.1 <= b.1.
#[export] Instance key_le_dec : RelDecision key_le := λ a b, Z_le_dec a.1 b.1.
Definition entries (m : gmap Z CAddrInfo) : list (Z * CAddrInfo) := merge_sort key_le (map_to_list m).

Definition GetOnlineAddr_ (nNow : Z) (am : CAddrMan) : list CAddrInfo :=
  filter (λ i, nNow - ai_nTime i < nOneDay) (entries (mapInfo am)).*2.

(** ** The consistency check *)

(** Over the entries: an error, or the tried ids and the reference counts of the new ones *)
Fixpoint check_infos (am : CAddrMan) (l : list (Z * CAddrInfo)) (setTried : gset Z) (mapNew : gmap Z Z) : Z + gset Z * gmap Z Z :=
  match l with
  | [] => inr (setTried, mapNew)
  | (n, info) :: l =>
      let tail_checks setTried mapNew :=
        if negb (default 0 (mapAddr am !! ai_ip info) =? n) then inl (-5)
        else if (nRandomPos info <? 0) || (nRandomPos info >=? Z.of_nat (length (vRandom am))) ||
                negb (bool_decide (vRandom am !! Z.to_nat (nRandomPos info) = Some n)) then inl (-14)
        else if nLastTry info <? 0 then inl (-6)
        else if nLastSuccess info <? 0 then inl (-8)
        else check_infos am l setTried mapNew in
      if fInTried info then
        if nLastSuccess info =? 0 then inl (-1)
        else if negb (nRefCount info =? 0) then inl (-2)
        else tail_checks ({[n]} ∪ setTried) mapNew
      else
        if (nRefCount info <? 0) || (nRefCount info >? ADDRMAN_NEW_BUCKETS_PER_ADDRESS) then inl (-3)
        else if nRefCount info =? 0 then inl (-4)
        else tail_checks setTried (<[n := nRefCount info]> mapNew)
  end.
Fixpoint check_tried (ids : list Z) (setTried : gset Z) : Z + gset Z :=
  match ids with
  | [] => inr setTried
  | n :: ids => if bool_decide (n ∈ setTried) then check_tried ids (setTried ∖ {[n]}) else inl (-11)
  end.
Fixpoint check_new (ids : list Z) (mapNew : gmap Z Z) : Z + gmap Z Z :=
  match ids with
  | [] => inr mapNew
  | n :: ids =>
      match mapNew !! n with
      | None => inl (-12)
      | Some c => check_new ids (if c - 1 =? 0 then delete n mapNew else <[n := c - 1]> mapNew)
      end
  end.
Definition Check_ (am : CAddrMan) : Z :=
  if negb (Z.of_nat (length (vRandom am)) =? nTried am + nNew am) then -7
  else
    match check_infos am (entries (mapInfo am)) ∅ ∅ with
    | inl err => err
    | inr (setTried, mapNew) =>
        if negb (Z.of_nat (size setTried) =? nTried am) then -9
        else if negb (Z.of_nat (size mapNew) =? nNew am) then -10
        else
          match check_tried (concat (vvTried am)) setTried with
          | inl err => err
          | inr setTried =>
              match check_new (concat (map in_order (vvNew am))) mapNew with
              | inl err => err
              | inr mapNew => if negb (size setTried =? 0)%nat then -13 else if negb (size mapNew =? 0)%nat then -15 else 0
              end
          end
    end.

(** ** Reference counts *)

(** In how many buckets an id is *)
Definition refs (n : Z) (vv : list (gset Z)) : Z := Z.of_nat (length (filter (λ s, n ∈ s) vv)).
Definition one_if (P : Prop) `{Decision P} : Z := if decide P then 1 else 0.

Lemma refs_cons n s vv : refs n (s :: vv) = one_if (n ∈ s) + refs n vv.
Proof. unfold refs, one_if. rewrite filter_cons. case_decide; cbn [length]; lia. Qed.
Lemma refs_app n vv vv' : refs n (vv ++ vv') = refs n vv + refs n vv'.
Proof. unfold refs. rewrite filter_app, length_app. lia. Qed.
Lemma refs_nonneg n vv : 0 <= refs n vv.
Proof. unfold refs. lia. Qed.
Lemma refs_insert n vv b s s' : vv !! b = Some s → refs n (<[b := s']> vv) = refs n vv - one_if (n ∈ s) + one_if (n ∈ s').
Proof.
  intros Hb. rewrite <- (take_drop_middle vv b s Hb) at 2. rewrite insert_take_drop by (by eapply lookup_lt_Some).
  rewrite !refs_app, !refs_cons. lia.
Qed.
Lemma refs_none n vv : refs n vv = 0 ↔ ∀ b s, vv !! b = Some s → n ∉ s.
Proof.
  split.
  - intros H b s Hb Hn. rewrite <- (take_drop_middle vv b s Hb), refs_app, refs_cons in H. unfold one_if in H. rewrite decide_True in H by done.
    assert (H1 := refs_nonneg n (take b vv)). assert (H2 := refs_nonneg n (drop (S b) vv)). lia.
  - intros H. induction vv as [|s vv IH]; [done|]. rewrite refs_cons, IH by (intros b; apply (H (S b))).
    unfold one_if. rewrite decide_False; [done|]. by apply (H 0%nat).
Qed.
Lemma refs_some n vv b s : vv !! b = Some s → n ∈ s → 1 <= refs n vv.
Proof.
  intros Hb Hn. assert (H0 := refs_nonneg n vv). destruct (Z.eq_dec (refs n vv) 0) as [E|]; [|lia].
  rewrite refs_none in E. by destruct (E b s).
Qed.

Lemma refs_bucket n vv : refs n vv ≠ 0 → ∃ b s, vv !! b = Some s ∧ n ∈ s.
Proof.
  intros Hne. destruct (decide (Exists (λ s, n ∈ s) vv)) as [He|He].
  - apply Exists_exists in He as (s & Hs & Hn). apply list_elem_of_lookup_1 in Hs as [b Hb]. eauto.
  - exfalso. apply Hne. apply refs_none. intros b s Hb Hn. apply He. apply Exists_exists. exists s. split; [by eapply list_elem_of_lookup_2|done].
Qed.

(** Erasing an id from every bucket *)
Lemma erase_all_ok n vv r : erase_all n vv r = (map (λ s, s ∖ {[n]}) vv, r - refs n vv).
Proof.
  revert r. induction vv as [|s vv IH]; intros r; cbn [erase_all map]; [f_equal; unfold refs; cbn; lia|].
  rewrite IH, refs_cons. f_equal. unfold one_if. case_bool_decide; [rewrite decide_True by done|rewrite decide_False by done]; lia.
Qed.
Lemma refs_erase_all n m vv : refs m (map (λ s, s ∖ {[n]}) vv) = if decide (m = n) then 0 else refs m vv.
Proof.
  induction vv as [|s vv IH]; cbn [map]; [by destruct (decide (m = n))|]. rewrite !refs_cons, IH. unfold one_if.
  destruct (decide (m = n)) as [->|Hne]; [rewrite decide_False by set_solver; lia|].
  destruct (decide (m ∈ s)); [rewrite decide_True by set_solver|rewrite decide_False by set_solver]; lia.
Qed.

Lemma in_order_perm s : in_order s ≡ₚ elements s.
Proof. apply merge_sort_Permutation. Qed.
Lemma elem_of_in_order n s : n ∈ in_order s ↔ n ∈ s.
Proof. by rewrite in_order_perm, elem_of_elements. Qed.
Lemma NoDup_in_order s : NoDup (in_order s).
Proof. rewrite in_order_perm. apply NoDup_elements. Qed.
Lemma length_in_order s : length (in_order s) = size s.
Proof. by rewrite in_order_perm. Qed.

(** ** The invariant *)

(** Every entry knows its position in [vRandom], which holds nothing else. *)
Record random_ok (m : gmap Z CAddrInfo) (v : list Z) : Prop := {
  rnd_pos n i : m !! n = Some i → 0 <= nRandomPos i ∧ v !! Z.to_nat (nRandomPos i) = Some n;
  rnd_id k n : v !! k = Some n → ∃ i, m !! n = Some i ∧ nRandomPos i = Z.of_nat k
}.

Definition times_ok (i : CAddrInfo) : Prop := 0 <= nLastTry i ∧ 0 <= nLastSuccess i ∧ (fInTried i = true → nLastSuccess i ≠ 0).

(** The reference count; [pend] is an id that is counted but not in its bucket yet *)
Definition place_ok (pend : option Z) (vv : list (gset Z)) (n : Z) (i : CAddrInfo) : Prop :=
  if fInTried i then nRefCount i = 0
  else nRefCount i = refs n vv + one_if (pend = Some n) ∧ 1 <= nRefCount i <= ADDRMAN_NEW_BUCKETS_PER_ADDRESS.

Section Invariant.
Context {DG : Digests}.

(** What the tables record of an entry: its service and whether it is tried *)
Definition view (i : CAddrInfo) : CService * bool := (ai_service i, fInTried i).
Definition views (m : gmap Z CAddrInfo) (n : Z) : option (CService * bool) := view <$> m !! n.
Definition tried_bucket (key : list Z) (a : CService) : nat := GetTriedBucket key (CAddrInfo_new (mkAddress a 0 0) []).
Lemma GetTriedBucket_view key i : GetTriedBucket key i = tried_bucket key (ai_service i).
Proof. done. Qed.

Record shape_ok (key : list Z) (count : Z) (V : Z → option (CService * bool)) (addrs : gmap CNetAddr Z)
    (tried : list (list Z)) (vv : list (gset Z)) : Prop := {
  s_count : 0 <= count;
  s_ids n v : V n = Some v → 0 <= n < count;
  s_addr ip n : addrs !! ip = Some n ↔ ∃ v, V n = Some v ∧ sv_ip v.1 = ip;
  s_tried_len : length tried = ADDRMAN_TRIED_BUCKET_COUNT;
  s_tried_size b l : tried !! b = Some l → (length l <= ADDRMAN_TRIED_BUCKET_SIZE)%nat ∧ NoDup l;
  s_tried b l n : tried !! b = Some l → n ∈ l ↔ ∃ a, V n = Some (a, true) ∧ tried_bucket key a = b;
  s_new_len : length vv = ADDRMAN_NEW_BUCKET_COUNT;
  s_new_size b s : vv !! b = Some s → (size s <= ADDRMAN_NEW_BUCKET_SIZE)%nat;
  s_new b s n : vv !! b = Some s → n ∈ s → ∃ a, V n = Some (a, false)
}.

Definition entries_ok (pend : option Z) (m : gmap Z CAddrInfo) (vv : list (gset Z)) : Prop :=
  ∀ n i, m !! n = Some i → place_ok pend vv n i ∧ times_ok i.

Definition total_size (tried : list (list Z)) : Z := Z.of_nat (length (concat tried)).

Record am_ok (pend : option Z) (am : CAddrMan) : Prop := {
  am_shape : shape_ok (nKey am) (nIdCount am) (views (mapInfo am)) (mapAddr am) (vvTried am) (vvNew am);
  am_entries : entries_ok pend (mapInfo am) (vvNew am);
  am_random : random_ok (mapInfo am) (vRandom am);
  am_tried : nTried am = total_size (vvTried am);
  am_count : nTried am + nNew am = Z.of_nat (length (vRandom am))
}.

(** *** Changes to entries *)

Lemma views_insert m n i k : views (<[n := i]> m) k = if decide (k = n) then Some (view i) else views m k.
Proof. unfold views. destruct (decide (k = n)) as [->|]; [by rewrite lookup_insert_eq|by rewrite lookup_insert_ne]. Qed.
Lemma views_delete m n k : views (delete n m) k = if decide (k = n) then None else views m k.
Proof. unfold views. destruct (decide (k = n)) as [->|]; [by rewrite lookup_delete_eq|by rewrite lookup_delete_ne]. Qed.
Lemma views_Some m n i : m !! n = Some i → views m n = Some (view i).
Proof. unfold views. by intros ->. Qed.
Lemma views_inv m n v : views m n = Some v → ∃ i, m !! n = Some i ∧ v = view i.
Proof. unfold views. destruct (m !! n); [|done]. intros [= <-]. eauto. Qed.
Lemma views_keep m n i i' k : m !! n = Some i → view i' = view i → views (<[n := i']> m) k = views m k.
Proof. intros E Ev. rewrite views_insert. destruct (decide (k = n)) as [->|]; [|done]. by rewrite Ev, (views_Some m n i). Qed.

Lemma shape_views key count V V' addrs tried vv : (∀ n, V' n = V n) → shape_ok key count V addrs tried vv →
  shape_ok key count V' addrs tried vv.
Proof.
  intros E [H0 H1 H2 H3 H4 H5 H6 H7 H8]. constructor; try done; intros *; setoid_rewrite E; eauto.
Qed.

Lemma entries_insert pend m vv n i : entries_ok pend m vv → place_ok pend vv n i → times_ok i → entries_ok pend (<[n := i]> m) vv.
Proof.
  intros H Hp Ht k j Hk. apply lookup_insert_Some in Hk as [[<- <-]|[_ Hk]]; [done|by apply H].
Qed.

Lemma random_insert m v n i i' : random_ok m v → m !! n = Some i → nRandomPos i' = nRandomPos i → random_ok (<[n := i']> m) v.
Proof.
  intros [H1 H2] E Ep. constructor.
  - intros k j Hk. destruct (decide (k = n)) as [->|].
    + rewrite lookup_insert_eq in Hk. injection Hk as <-. rewrite Ep. by apply H1.
    + rewrite lookup_insert_ne in Hk by done. by apply H1.
  - intros k j Hk. destruct (H2 k j Hk) as (i0 & E0 & P0). destruct (decide (j = n)) as [->|].
    + exists i'. rewrite lookup_insert_eq. split; [done|]. congruence.
    + exists i0. by rewrite lookup_insert_ne.
Qed.

(** A change of an entry that keeps its place *)
Record keeps (i i' : CAddrInfo) : Prop := {
  k_view : view i' = view i;
  k_refs : nRefCount i' = nRefCount i;
  k_times : times_ok i → times_ok i'
}.
Lemma keeps_place pend vv n i i' : keeps i i' → place_ok pend vv n i → place_ok pend vv n i'.
Proof. intros [Ev Er _] H. unfold place_ok in *. injection Ev as _ Et. by rewrite Et, Er. Qed.

Lemma set_info_ok pend am n i i' : am_ok pend am → mapInfo am !! n = Some i → keeps i i' → nRandomPos i' = nRandomPos i →
  am_ok pend (set_info n i' am).
Proof.
  intros [H1 H2 H3 H4 H5] E K Ep. constructor; try done; cbn.
  - eapply shape_views; [|exact H1]. intros k. apply (views_keep _ n i); [done|apply K].
  - destruct (H2 _ _ E) as [Hp Ht]. apply entries_insert; [done|by eapply keeps_place|by apply K].
  - by eapply random_insert.
Qed.

(** *** The random order *)

(** Ids in two different positions are different. *)
Lemma random_inj m v j k n : random_ok m v → v !! j = Some n → v !! k = Some n → j = k.
Proof. intros [_ H] Hj Hk. destruct (H _ _ Hj) as (i & E & P). destruct (H _ _ Hk) as (i' & E' & P'). simplify_eq. lia. Qed.

Lemma swap_ok m v j k n1 n2 i1 i2 : random_ok m v → j ≠ k → v !! j = Some n1 → v !! k = Some n2 → m !! n1 = Some i1 → m !! n2 = Some i2 →
  random_ok (<[n2 := set_pos (Z.of_nat j) i2]> (<[n1 := set_pos (Z.of_nat k) i1]> m)) (<[k := n1]> (<[j := n2]> v)).
Proof.
  intros H Hjk Ej Ek E1 E2. assert (Hne : n1 ≠ n2) by (intros ->; by destruct Hjk; eapply random_inj).
  assert (Lj := lookup_lt_Some _ _ _ Ej). assert (Lk := lookup_lt_Some _ _ _ Ek).
  assert (Vk : <[k := n1]> (<[j := n2]> v) !! k = Some n1) by (apply list_lookup_insert_eq; by rewrite length_insert).
  assert (Vj : <[k := n1]> (<[j := n2]> v) !! j = Some n2) by (rewrite list_lookup_insert_ne by done; by apply list_lookup_insert_eq).
  assert (Vo : ∀ x, x ≠ j → x ≠ k → <[k := n1]> (<[j := n2]> v) !! x = v !! x) by (intros; by rewrite !list_lookup_insert_ne).
  destruct H as [H1 H2]. constructor.
  - intros n i Hn. destruct (decide (n = n2)) as [->|N2]; [rewrite lookup_insert_eq in Hn; injection Hn as <-; cbn; rewrite Nat2Z.id; split; [lia|done]|].
    rewrite lookup_insert_ne in Hn by done.
    destruct (decide (n = n1)) as [->|N1]; [rewrite lookup_insert_eq in Hn; injection Hn as <-; cbn; rewrite Nat2Z.id; split; [lia|done]|].
    rewrite lookup_insert_ne in Hn by done. destruct (H1 n i Hn) as [P V]. split; [done|]. rewrite Vo; [done|congruence|congruence].
  - intros x n Hx. destruct (decide (x = j)) as [->|Nj]; [|destruct (decide (x = k)) as [->|Nk]].
    + rewrite Vj in Hx. injection Hx as <-. eexists. by rewrite lookup_insert_eq.
    + rewrite Vk in Hx. injection Hx as <-. eexists. rewrite lookup_insert_ne, lookup_insert_eq by done. done.
    + rewrite Vo in Hx by done. destruct (H2 x n Hx) as (i & E & P). exists i. split; [|done].
      rewrite !lookup_insert_ne; [done| |]; intros <-; [apply Nj|apply Nk]; eapply random_inj; try done; by constructor.
Qed.

Definition set_random (m : gmap Z CAddrInfo) (v : list Z) (am : CAddrMan) : CAddrMan :=
  mkMan (nKey am) (nIdCount am) m (mapAddr am) v (nTried am) (vvTried am) (nNew am) (vvNew am).

(** Maps that differ in positions only *)
Definition moved (m m' : gmap Z CAddrInfo) : Prop := ∀ n, set_pos 0 <$> m' !! n = set_pos 0 <$> m !! n.
Lemma moved_inv m m' n i : moved m m' → m !! n = Some i → ∃ p, m' !! n = Some (set_pos p i).
Proof.
  intros H E. specialize (H n). rewrite E in H. destruct (m' !! n) as [i'|]; [|done]. injection H as E1 E2 E3 E4 E5 E6 E7.
  exists (nRandomPos i'). destruct i, i'. cbn in *. by subst.
Qed.
Lemma moved_sym m m' : moved m m' → moved m' m.
Proof. intros H n. by rewrite H. Qed.
Lemma moved_views m m' n : moved m m' → views m' n = views m n.
Proof. intros H. unfold views. specialize (H n). destruct (m !! n), (m' !! n); try done. injection H. intros. cbn. unfold view, ai_service. congruence. Qed.
Lemma moved_entries pend m m' vv : moved m m' → entries_ok pend m vv → entries_ok pend m' vv.
Proof.
  intros H He n i' E. destruct (moved_inv m' m n i' (moved_sym _ _ H) E) as [p Ep]. destruct (He _ _ Ep) as [H1 H2]. done.
Qed.

Lemma SwapRandom_ok am (j k : nat) : random_ok (mapInfo am) (vRandom am) → (j < length (vRandom am))%nat → (k < length (vRandom am))%nat →
  ∃ m v, SwapRandom (Z.of_nat j) (Z.of_nat k) am = Some (set_random m v am) ∧ random_ok m v ∧ moved (mapInfo am) m ∧
    length v = length (vRandom am) ∧ v !! j = vRandom am !! k ∧ v !! k = vRandom am !! j ∧ ∀ x, x ≠ j → x ≠ k → v !! x = vRandom am !! x.
Proof.
  intros H Lj Lk. unfold SwapRandom. destruct (Z.eqb_spec (Z.of_nat j) (Z.of_nat k)) as [E|Hne].
  { exists (mapInfo am), (vRandom am). assert (j = k) as -> by lia. split; [by destruct am|]. done. }
  replace (negb _) with false by lia. rewrite !Nat2Z.id.
  destruct (lookup_lt_is_Some_2 _ _ Lj) as [n1 E1]. destruct (lookup_lt_is_Some_2 _ _ Lk) as [n2 E2]. rewrite E1, E2. cbn [mbind option_bind].
  destruct (rnd_id _ _ H _ _ E1) as (i1 & I1 & _). destruct (rnd_id _ _ H _ _ E2) as (i2 & I2 & _). rewrite I1, I2. cbn [mbind option_bind].
  do 2 eexists. split; [done|]. split; [by apply swap_ok; try lia|]. split.
  { intros n. destruct (decide (n = n2)) as [->|]; [by rewrite lookup_insert_eq, I2|]. rewrite lookup_insert_ne by done.
    destruct (decide (n = n1)) as [->|]; [by rewrite lookup_insert_eq, I1|]. by rewrite lookup_insert_ne. }
  split; [|split; [|split]].
  - by rewrite !length_insert.
  - rewrite list_lookup_insert_ne by lia. by apply list_lookup_insert_eq.
  - apply list_lookup_insert_eq. by rewrite length_insert.
  - intros x Hj Hk. by rewrite !list_lookup_insert_ne.
Qed.

(** Removing the last id *)
Lemma random_pop m v n : random_ok m (v ++ [n]) → random_ok (delete n m) v.
Proof.
  intros H. assert (Hlast : (v ++ [n]) !! length v = Some n) by (by rewrite lookup_app_r, Nat.sub_diag by done). constructor.
  - intros k i Hk. apply lookup_delete_Some in Hk as [Hne Hk]. destruct (rnd_pos _ _ H _ _ Hk) as [P V]. split; [done|].
    apply lookup_app_Some in V as [V|[_ V]]; [done|]. by apply list_lookup_singleton_Some in V as [_ ?].
  - intros x k Hx. assert (Lx := lookup_lt_Some _ _ _ Hx). assert (Hx' : (v ++ [n]) !! x = Some k) by (by rewrite lookup_app_l).
    destruct (rnd_id _ _ H _ _ Hx') as (i & E & P). exists i. split; [|done]. rewrite lookup_delete_ne; [done|]. intros <-.
    assert (x = length v) by (by eapply random_inj). lia.
Qed.

Lemma random_push m v n i : random_ok m v → m !! n = None → nRandomPos i = Z.of_nat (length v) → random_ok (<[n := i]> m) (v ++ [n]).
Proof.
  intros H Hn Hp. constructor.
  - intros k j Hk. destruct (decide (k = n)) as [->|].
    + rewrite lookup_insert_eq in Hk. injection Hk as <-. rewrite Hp, Nat2Z.id. split; [lia|]. by rewrite lookup_app_r, Nat.sub_diag.
    + rewrite lookup_insert_ne in Hk by done. destruct (rnd_pos _ _ H _ _ Hk) as [P V]. split; [done|]. by apply lookup_app_l_Some.
  - intros x k Hx. apply lookup_app_Some in Hx as [Hx|[L Hx]].
    + destruct (rnd_id _ _ H _ _ Hx) as (j & E & P). exists j. split; [|done]. rewrite lookup_insert_ne; [done|]. intros <-. congruence.
    + apply list_lookup_singleton_Some in Hx as [Ex ->]. exists i. rewrite lookup_insert_eq. split; [done|]. lia.
Qed.

(** *** Dropping a reference *)

Lemma shape_erase key count V addrs tried vv b s n : shape_ok key count V addrs tried vv → vv !! b = Some s →
  shape_ok key count V addrs tried (<[b := s ∖ {[n]}]> vv).
Proof.
  intros [H0 H1 H2 H3 H4 H5 H6 H7 H8] Hb. constructor; try done.
  - by rewrite length_insert.
  - intros c t Hc. apply list_lookup_insert_Some in Hc as [(-> & <- & _)|[_ Hc]]; [|by eapply H7]. etrans; [|by eapply H7].
    apply subseteq_size. set_solver.
  - intros c t k Hc Hk. apply list_lookup_insert_Some in Hc as [(-> & <- & _)|[_ Hc]]; [|by eapply H8]. eapply H8; [done|set_solver].
Qed.

(** An id in one bucket only is in none once erased from it. *)
Lemma shape_delete key count m addrs tried vv n i : shape_ok key count (views m) addrs tried vv → m !! n = Some i → fInTried i = false →
  (∀ b s, vv !! b = Some s → n ∉ s) → shape_ok key count (views (delete n m)) (delete (ai_ip i) addrs) tried vv.
Proof.
  intros [H0 H1 H2 H3 H4 H5 H6 H7 H8] E Ft Hn. assert (Ev := views_Some _ _ _ E). constructor; try done.
  - intros k v. rewrite views_delete. destruct (decide (k = n)); [done|apply H1].
  - intros ip k. rewrite lookup_delete_Some, H2, views_delete. split.
    + intros (Hne & v & Hv & Hip). destruct (decide (k = n)) as [->|]; [|by exists v]. rewrite Ev in Hv. injection Hv as <-. done.
    + destruct (decide (k = n)) as [->|Hk]; intros (v & Hv & Hip); [done|]. split; [|by exists v]. intros <-. apply Hk.
      assert (addrs !! ai_ip i = Some k) by (apply H2; by exists v). assert (addrs !! ai_ip i = Some n) by (apply H2; by eexists). congruence.
  - intros b l k Hb. rewrite (H5 b l k Hb), views_delete. destruct (decide (k = n)) as [->|]; [|done].
    split; [|by intros (? & ? & _)]. intros (a & Ha & _). rewrite Ev in Ha. injection Ha as _ Ha. congruence.
  - intros b s k Hb Hk. rewrite views_delete. destruct (decide (k = n)) as [->|]; [by destruct (Hn b s)|by eapply H8].
Qed.

Lemma place_other pend vv n i vv' : place_ok pend vv n i → refs n vv' = refs n vv → place_ok pend vv' n i.
Proof. unfold place_ok. by intros H ->. Qed.
Lemma one_if_True P `{Decision P} : P → one_if P = 1.
Proof. unfold one_if. by intros; rewrite decide_True. Qed.
Lemma one_if_False P `{Decision P} : ¬ P → one_if P = 0.
Proof. unfold one_if. by intros; rewrite decide_False. Qed.
Lemma refs_erase n k vv b s : vv !! b = Some s → n ∈ s → refs k (<[b := s ∖ {[n]}]> vv) = refs k vv - one_if (k = n).
Proof.
  intros Hb Hn. rewrite (refs_insert k vv b s) by done. destruct (decide (k = n)) as [->|Hk].
  - rewrite (one_if_True (n ∈ s)), (one_if_False (n ∈ _)), one_if_True by set_solver. lia.
  - rewrite (one_if_False (k = n)) by done. destruct (decide (k ∈ s)).
    + rewrite !one_if_True by set_solver. lia.
    + rewrite !one_if_False by set_solver. lia.
Qed.

Lemma drop_ref_ok pend am n b s : am_ok pend am → vvNew am !! b = Some s → n ∈ s → pend ≠ Some n →
  ∃ am1, drop_ref n am = Some am1 ∧ vvNew am1 = vvNew am ∧ nKey am1 = nKey am ∧
    am_ok pend (set_new (nNew am1) (<[b := s ∖ {[n]}]> (vvNew am1)) am1) ∧
    ∀ k, k ≠ n → set_pos 0 <$> mapInfo am1 !! k = set_pos 0 <$> mapInfo am !! k.
Proof.
  intros [H1 H2 H3 H4 H5] Hb Hn Hp. destruct (s_new _ _ _ _ _ _ H1 _ _ _ Hb Hn) as [a Ea]. apply views_inv in Ea as (i & E & Ev).
  injection Ev as -> Ft. symmetry in Ft. destruct (H2 _ _ E) as [Hpl Ht]. unfold place_ok in Hpl. rewrite Ft in Hpl. destruct Hpl as [Hr Hr'].
  rewrite one_if_False in Hr by done. unfold drop_ref. rewrite E. cbn [mbind option_bind].
  set (i' := set_place (nRefCount i - 1) (fInTried i) i). change (nRefCount i') with (nRefCount i - 1).
  assert (He : ∀ k j, k ≠ n → mapInfo am !! k = Some j → place_ok pend (<[b := s ∖ {[n]}]> (vvNew am)) k j ∧ times_ok j).
  { intros k j Hk Ej. destruct (H2 _ _ Ej) as [P T]. split; [|done]. eapply place_other; [done|].
    rewrite refs_erase, one_if_False by done. lia. }
  destruct (Z.eqb_spec (nRefCount i - 1) 0) as [Hone|Hmore].
  - destruct (rnd_pos _ _ H3 _ _ E) as [P V]. assert (Lp := lookup_lt_Some _ _ _ V).
    assert (H3' : random_ok (mapInfo (set_info n i' am)) (vRandom (set_info n i' am))) by (cbn; by eapply random_insert).
    destruct (SwapRandom_ok (set_info n i' am) (Z.to_nat (nRandomPos i)) (length (vRandom am) - 1) H3') as (m & v & Es & R & M & L & _ & Vl & _);
      [done|cbn; lia|]. rewrite Z2Nat.id, Nat2Z.inj_sub in Es by lia. change (nRandomPos i') with (nRandomPos i).
    change (length (vRandom (set_info n i' am))) with (length (vRandom am)). change (Z.of_nat 1) with 1 in Es. rewrite Es.
    cbn [mbind option_bind]. eexists. split; [done|]. cbn. split; [done|]. split; [done|]. cbn in L, Vl. rewrite V in Vl.
    assert (Ev : v = take (length v - 1) v ++ [n]).
    { rewrite <- (take_drop (length v - 1) v) at 1. f_equal. rewrite <- L in Vl. rewrite (drop_S _ _ _ Vl). rewrite drop_ge by lia. done. }
    assert (Em : ∀ k, k ≠ n → set_pos 0 <$> delete n m !! k = set_pos 0 <$> mapInfo am !! k).
    { intros k Hk. rewrite lookup_delete_ne by done. rewrite (M k). cbn. by rewrite lookup_insert_ne. }
    split; [|exact Em].
    constructor; cbn; try done.
    + assert (S1 := shape_erase _ _ _ _ _ _ _ _ n H1 Hb). eapply shape_delete in S1; [|exact E|done|].
      * eapply shape_views; [|exact S1]. intros k. rewrite !views_delete. destruct (decide (k = n)); [done|].
        rewrite (moved_views _ _ _ M). cbn. by rewrite views_insert, decide_False.
      * apply refs_none. rewrite refs_erase, one_if_True by done. lia.
    + intros k j Hk. apply lookup_delete_Some in Hk as [Hk Hj]. destruct (moved_inv _ _ _ _ (moved_sym _ _ M) Hj) as [p Hp'].
      cbn in Hp'. rewrite lookup_insert_ne in Hp' by done. destruct (He k _ ltac:(done) Hp') as [? ?]. done.
    + apply random_pop. by rewrite <- Ev.
    + rewrite length_take. lia.
  - eexists. split; [done|]. cbn. split; [done|]. split; [done|]. split.
    + constructor; cbn; try done.
      * apply shape_erase; [|done]. eapply shape_views; [|exact H1]. intros k. by apply (views_keep _ n i).
      * intros k j Hk. apply lookup_insert_Some in Hk as [[<- <-]|[Hk Hj]]; [|by apply He]. split; [|exact Ht].
        unfold place_ok. cbn. rewrite Ft, refs_erase, (one_if_True (n = n)), one_if_False by done. lia.
      * by eapply random_insert.
    + intros k Hk. by rewrite lookup_insert_ne.
Qed.

Lemma find_terrible_ok m nNow ids : (∀ n, n ∈ ids → is_Some (m !! n)) →
  ∃ r, find_terrible m nNow ids = Some r ∧ ∀ n, r = Some n → n ∈ ids.
Proof.
  induction ids as [|n ids IH]; intros H; cbn [find_terrible]; [by exists None|].
  destruct (H n) as [i Ei]; [by left|]. rewrite Ei. cbn [mbind option_bind]. destruct (IsTerrible nNow i).
  - exists (Some n). split; [done|]. intros k [= <-]. by left.
  - destruct IH as (r & -> & Hr); [intros k Hk; apply H; by right|]. exists r. split; [done|]. intros k Hk. right. auto.
Qed.

Lemma shrink_pick_some m ns nI old ids : (∀ n, n ∈ old :: ids → is_Some (m !! n) ∧ 0 <= n) →
  ∃ r, shrink_pick m ns nI old ids = Some r ∧ r ∈ old :: ids.
Proof.
  revert nI old. induction ids as [|n ids IH]; intros nI old H; cbn [shrink_pick]; [exists old; split; [done|by left]|].
  destruct (H old) as [[io Eo] Ho]; [by left|]. destruct (H n) as [[i Ei] Hn]; [right; by left|].
  destruct (IH (S nI) old) as (r1 & E1 & R1); [intros k Hk; apply H; set_solver|].
  destruct (IH (S nI) n) as (r2 & E2 & R2); [intros k Hk; apply H; set_solver|].
  case_bool_decide; [|exists r1; split; [done|set_solver]]. rewrite Ei. cbn [mbind option_bind]. destruct (Z.eqb_spec old (-1)); [lia|].
  rewrite Eo. cbn [mbind option_bind]. destruct (ai_nTime i <? ai_nTime io); [exists r2|exists r1]; (split; [done|set_solver]).
Qed.
Lemma shrink_pick_ok m ns nI ids : (∀ n, n ∈ ids → is_Some (m !! n) ∧ 0 <= n) → (∃ k, k ∈ ns ∧ (nI <= k < nI + length ids)%nat) →
  ∃ r, shrink_pick m ns nI (-1) ids = Some r ∧ r ∈ ids.
Proof.
  revert nI. induction ids as [|n ids IH]; intros nI H (k & Hk & Hr); cbn [length] in Hr; [lia|]. cbn [shrink_pick].
  case_bool_decide as Hi.
  - destruct (H n) as [[i Ei] Hn]; [by left|]. rewrite Ei. cbn [mbind option_bind Z.eqb Pos.eqb]. by apply shrink_pick_some.
  - destruct (IH (S nI)) as (r & -> & R); [intros j Hj; apply H; by right| |exists r; split; [done|by right]].
    exists k. split; [done|]. destruct (decide (k = nI)); [congruence|lia].
Qed.

Lemma ShrinkNew_ok pend am nNow rnd b s : am_ok pend am → vvNew am !! b = Some s → (0 < size s)%nat → (∀ p, pend = Some p → p ∉ s) →
  (∀ k n, (0 < n)%nat → (rnd k n < n)%nat) →
  ∃ am' n, ShrinkNew nNow rnd b am = Some am' ∧ am_ok pend am' ∧ n ∈ s ∧ vvNew am' !! b = Some (s ∖ {[n]}) ∧ nKey am' = nKey am ∧
    ∀ k, k ≠ n → set_pos 0 <$> mapInfo am' !! k = set_pos 0 <$> mapInfo am !! k.
Proof.
  intros H Hb Hs Hp Hr. unfold ShrinkNew. rewrite Hb. cbn [mbind option_bind].
  assert (Hin : ∀ n, n ∈ in_order s → is_Some (mapInfo am !! n) ∧ 0 <= n).
  { intros n Hn. apply elem_of_in_order in Hn. destruct (s_new _ _ _ _ _ _ (am_shape _ _ H) _ _ _ Hb Hn) as [a Ea].
    destruct (s_ids _ _ _ _ _ _ (am_shape _ _ H) _ _ Ea) as [Hn0 _]. apply views_inv in Ea as (i & E & _). split; [by exists i|done]. }
  destruct (find_terrible_ok (mapInfo am) nNow (in_order s)) as (found & Ef & Hf); [intros n Hn; by apply Hin|]. rewrite Ef. cbn [mbind option_bind].
  assert (Hpick : ∃ n, match found with Some nId => Some nId
    | None => shrink_pick (mapInfo am) (map (λ k, rnd k (size s)) (seq 0 4)) 0 (-1) (in_order s) end = Some n ∧ n ∈ s).
  { destruct found as [n|]; [exists n; split; [done|]; apply elem_of_in_order; auto|].
    destruct (shrink_pick_ok (mapInfo am) (map (λ k, rnd k (size s)) (seq 0 4)) 0 (in_order s)) as (r & Er & R); [done| |].
    - exists (rnd 0%nat (size s)). split; [by left|]. rewrite length_in_order. assert (H0 := Hr 0%nat (size s) Hs). lia.
    - exists r. split; [done|]. by apply elem_of_in_order. }
  destruct Hpick as (n & -> & Hn). cbn [mbind option_bind].
  destruct (drop_ref_ok pend am n b s H Hb Hn) as (am1 & -> & Ev & Ek & Hok & Hm); [intros E; by apply (Hp n)|].
  cbn [mbind option_bind]. do 2 eexists. split; [done|]. split; [done|]. split; [done|]. split; [|by split].
  cbn. rewrite Ev. apply list_lookup_insert_eq. by eapply lookup_lt_Some.
Qed.

(** *** Adding a reference *)

Lemma shape_insert key count V addrs tried vv b s n a : shape_ok key count V addrs tried vv → vv !! b = Some s →
  (size s < ADDRMAN_NEW_BUCKET_SIZE)%nat → V n = Some (a, false) → shape_ok key count V addrs tried (<[b := {[n]} ∪ s]> vv).
Proof.
  intros [H0 H1 H2 H3 H4 H5 H6 H7 H8] Hb Hs Hv. constructor; try done.
  - by rewrite length_insert.
  - intros c t Hc. apply list_lookup_insert_Some in Hc as [(-> & <- & _)|[_ Hc]]; [|by eapply H7].
    assert (Hu := size_union_alt {[n]} s). rewrite size_singleton in Hu. assert (size (s ∖ {[n]}) <= size s)%nat by (apply subseteq_size; set_solver). lia.
  - intros c t k Hc Hk. apply list_lookup_insert_Some in Hc as [(-> & <- & _)|[_ Hc]]; [|by eapply H8].
    apply elem_of_union in Hk as [Hk%elem_of_singleton|Hk]; [subst; eauto|by eapply H8].
Qed.
Lemma refs_add n k vv b s : vv !! b = Some s → n ∉ s → refs k (<[b := {[n]} ∪ s]> vv) = refs k vv + one_if (k = n).
Proof.
  intros Hb Hn. rewrite (refs_insert k vv b s) by done. destruct (decide (k = n)) as [->|Hk].
  - rewrite (one_if_False (n ∈ s)), !one_if_True by set_solver. lia.
  - rewrite (one_if_False (k = n)) by done. destruct (decide (k ∈ s)); [rewrite !one_if_True by set_solver|rewrite !one_if_False by set_solver]; lia.
Qed.

(** The pending reference is put in its bucket. *)
Lemma settle_ok am n i b s : am_ok (Some n) am → mapInfo am !! n = Some i → fInTried i = false → vvNew am !! b = Some s → n ∉ s →
  (size s < ADDRMAN_NEW_BUCKET_SIZE)%nat → am_ok None (set_new (nNew am) (<[b := {[n]} ∪ s]> (vvNew am)) am).
Proof.
  intros [H1 H2 H3 H4 H5] E Ft Hb Hn Hs. constructor; cbn; try done.
  - eapply shape_insert; try done. rewrite (views_Some _ _ _ E). unfold view. by rewrite Ft.
  - intros k j Hk. destruct (H2 _ _ Hk) as [P T]. split; [|done]. unfold place_ok in *. destruct (fInTried j); [done|].
    rewrite refs_add, (one_if_False (None = Some k)) by done. destruct P as [P P']. rewrite P in *. split; [|lia]. rewrite Z.add_0_r. f_equal.
    unfold one_if. destruct (decide (k = n)) as [->|]; [by rewrite decide_True|by rewrite decide_False by congruence].
Qed.

Lemma GetNewBucket_lt key i src : (GetNewBucket key i src < ADDRMAN_NEW_BUCKET_COUNT)%nat.
Proof. unfold GetNewBucket. assert (H := Z.mod_pos_bound (Get64 (Hash (Serialize key ++ Serialize (GetGroup src) ++
  write_int 8 (Get64 (Hash (Serialize key ++ Serialize (GetGroup (ai_ip i)) ++ Serialize (GetGroup src))) 0 mod
    ADDRMAN_NEW_BUCKETS_PER_SOURCE_GROUP))) 0) (Z.of_nat ADDRMAN_NEW_BUCKET_COUNT) ltac:(done)). lia. Qed.
Lemma tried_bucket_lt key a : (tried_bucket key a < ADDRMAN_TRIED_BUCKET_COUNT)%nat.
Proof.
  unfold tried_bucket, GetTriedBucket. generalize (Get64 (Hash (Serialize key ++ Serialize (GetGroup (ai_ip (CAddrInfo_new (mkAddress a 0 0) []))) ++
    write_int 8 (Get64 (Hash (Serialize key ++ Serialize (GetKey (ai_service (CAddrInfo_new (mkAddress a 0 0) []))))) 0 mod
      ADDRMAN_TRIED_BUCKETS_PER_GROUP))) 0). intros h. assert (H := Z.mod_pos_bound h (Z.of_nat ADDRMAN_TRIED_BUCKET_COUNT) ltac:(done)). lia.
Qed.


Lemma pend_ok am n i : am_ok None am → mapInfo am !! n = Some i → fInTried i = false → nRefCount i < ADDRMAN_NEW_BUCKETS_PER_ADDRESS →
  am_ok (Some n) (set_info n (set_place (nRefCount i + 1) (fInTried i) i) am).
Proof.
  intros [H1 H2 H3 H4 H5] E Ft Hr. constructor; cbn; try done.
  - eapply shape_views; [|exact H1]. intros k. by apply (views_keep _ n i).
  - intros k j Hk. apply lookup_insert_Some in Hk as [[<- <-]|[Hk Hj]].
    + destruct (H2 _ _ E) as [P T]. split; [|exact T]. unfold place_ok in *. cbn. rewrite Ft in *.
      rewrite one_if_False in P by done. rewrite one_if_True by done. lia.
    + destruct (H2 _ _ Hj) as [P T]. split; [|done]. unfold place_ok in *. destruct (fInTried j); [done|].
      rewrite one_if_False in * by congruence. done.
  - by eapply random_insert.
Qed.

Lemma set_pos_eq i j : set_pos 0 i = set_pos 0 j → ai_addr i = ai_addr j ∧ fInTried i = fInTried j ∧ ai_source i = ai_source j ∧ nLastSuccess i = nLastSuccess j.
Proof. intros H. by injection H. Qed.

Lemma add_place_ok nNow rnd source am n i : mapInfo am !! n = Some i → fInTried i = false → length (vvNew am) = ADDRMAN_NEW_BUCKET_COUNT →
  am_ok (Some n) (set_info n (set_place (nRefCount i + 1) (fInTried i) i) am) →
  (∀ b s, vvNew am !! b = Some s → n ∈ s → am_ok None am) → (∀ k n, (0 < n)%nat → (rnd k n < n)%nat) →
  ∃ am', add_place nNow rnd source n am = Some am' ∧ am_ok None am' ∧ nKey am' = nKey am ∧
    ∃ i', mapInfo am' !! n = Some i' ∧ ai_addr i' = ai_addr i.
Proof.
  intros E Ft Hlen Hok Hin Hr. unfold add_place. rewrite E. cbn [mbind option_bind].
  destruct (lookup_lt_is_Some_2 (vvNew am) (GetNewBucket (nKey am) i source)) as [s Hb]; [rewrite Hlen; apply GetNewBucket_lt|].
  rewrite Hb. cbn [mbind option_bind]. case_bool_decide as Hn; [exists am; split; [done|]; split; [by eapply Hin|]; eauto|].
  set (am1 := set_info n _ am) in *. assert (E1 : mapInfo am1 !! n = Some (set_place (nRefCount i + 1) (fInTried i) i)) by apply lookup_insert_eq.
  assert (Hb1 : vvNew am1 !! GetNewBucket (nKey am) i source = Some s) by exact Hb. assert (Ek1 : nKey am1 = nKey am) by done. clearbody am1.
  destruct (Nat.eqb_spec (size s) ADDRMAN_NEW_BUCKET_SIZE) as [Hfull|Hroom].
  - destruct (ShrinkNew_ok (Some n) am1 nNow rnd _ s Hok Hb1) as (am2 & k & -> & Hok2 & Hk & Hb2 & Ek & Hm);
      [rewrite Hfull; vm_compute; lia|intros p Hp; injection Hp as <-; exact Hn|done|]. cbn [mbind option_bind]. rewrite Hb2. cbn [mbind option_bind]. eexists. split; [done|].
    assert (Hnk : n ≠ k) by congruence. specialize (Hm n Hnk). rewrite E1 in Hm. destruct (mapInfo am2 !! n) as [i2|] eqn:E2; [|done].
    apply Some_inj, set_pos_eq in Hm as (Ea & Ef & _).
    split; [|split; [cbn; congruence|by exists i2]].
    apply (settle_ok am2 n i2); try done; [by rewrite Ef|set_solver|].
    assert (Hd := size_difference s {[k]} ltac:(set_solver)). rewrite size_singleton in Hd. rewrite Hd, Hfull. vm_compute. lia.
  - cbn [mbind option_bind]. rewrite Hb1. cbn [mbind option_bind]. eexists. split; [done|].
    assert (Hs := s_new_size _ _ _ _ _ _ (am_shape _ _ Hok) _ _ Hb1).
    split; [|split; [done|by eexists]]. eapply settle_ok; try done. lia.
Qed.

Lemma am_Find_Some ip am n i : am_ok None am → am_Find ip am = Some (n, i) → mapAddr am !! ip = Some n ∧ mapInfo am !! n = Some i ∧ ai_ip i = ip.
Proof.
  intros H. unfold am_Find. destruct (mapAddr am !! ip) as [n0|] eqn:E; [|done]. cbn [mbind option_bind].
  apply (s_addr _ _ _ _ _ _ (am_shape _ _ H)) in E as (v & Hv & Hip). apply views_inv in Hv as (i0 & E0 & ->). rewrite E0. cbn [mbind option_bind].
  by intros [= <- <-].
Qed.
Lemma am_Find_None ip am : am_ok None am → am_Find ip am = None → mapAddr am !! ip = None.
Proof.
  intros H. unfold am_Find. destruct (mapAddr am !! ip) as [n0|] eqn:E; [|done]. cbn [mbind option_bind].
  apply (s_addr _ _ _ _ _ _ (am_shape _ _ H)) in E as (v & Hv & Hip). apply views_inv in Hv as (i0 & E0 & ->). by rewrite E0.
Qed.

(** A new entry, with its first reference pending *)
Lemma create_ok am addr source p : am_ok None am → mapAddr am !! sv_ip (ad_service addr) = None →
  let n := nIdCount am in
  let i := set_nTime p (set_pos (Z.of_nat (length (vRandom am))) (CAddrInfo_new addr source)) in
  am_ok (Some n) (mkMan (nKey am) (n + 1) (<[n := set_place 1 false i]> (mapInfo am)) (<[sv_ip (ad_service addr) := n]> (mapAddr am))
    (vRandom am ++ [n]) (nTried am) (vvTried am) (nNew am + 1) (vvNew am)) ∧
  mapInfo am !! n = None ∧ (∀ b s, vvNew am !! b = Some s → n ∉ s).
Proof.
  intros [H1 H2 H3 H4 H5] Ha n i. assert (Hn : mapInfo am !! n = None).
  { destruct (mapInfo am !! n) as [j|] eqn:E; [|done]. apply views_Some in E. apply (s_ids _ _ _ _ _ _ H1) in E. unfold n in E. lia. }
  assert (Hnot : ∀ b s, vvNew am !! b = Some s → n ∉ s).
  { intros b s Hb Hs. destruct (s_new _ _ _ _ _ _ H1 _ _ _ Hb Hs) as [a Ea]. unfold views in Ea. by rewrite Hn in Ea. }
  split; [|done]. assert (Hv : views (mapInfo am) n = None) by (unfold views; by rewrite Hn). constructor; cbn; try done.
  - destruct H1 as [G0 G1 G2 G3 G4 G5 G6 G7 G8]. constructor; try done.
    + unfold n. lia.
    + intros k v. rewrite views_insert. destruct (decide (k = n)) as [->|]; [unfold n; lia|]. intros Hk. apply G1 in Hk. lia.
    + intros ip k. rewrite lookup_insert_Some, views_insert, G2. destruct (decide (k = n)) as [->|Hk].
      * split; [intros [[<- _]|[_ (v & Hv' & _)]]; [by eexists|congruence]|]. intros (v & [= <-] & <-). by left.
      * split; [intros [[_ ?]|[_ ?]]; [by subst|done]|]. intros (v & Hv' & Hip). right. split; [|by exists v]. intros <-.
        assert (mapAddr am !! sv_ip (ad_service addr) = Some k) by (apply G2; by exists v). congruence.
    + intros b l k Hb. rewrite (G5 b l k Hb), views_insert. destruct (decide (k = n)) as [->|]; [|done].
      split; [intros (? & ? & _); congruence|]. by intros (? & ? & _).
    + intros b s k Hb Hk. rewrite views_insert. destruct (decide (k = n)) as [->|]; [by destruct (Hnot b s)|by eapply G8].
  - intros k j Hk. apply lookup_insert_Some in Hk as [[<- <-]|[Hk Hj]].
    + split; [|done]. unfold place_ok. cbn. rewrite one_if_True, (proj2 (refs_none n (vvNew am))) by done. done.
    + destruct (H2 _ _ Hj) as [P T]. split; [|done]. unfold place_ok in *. destruct (fInTried j); [done|].
      rewrite one_if_False in * by congruence. done.
  - by apply random_push.
  - rewrite length_app. cbn. lia.
Qed.

(** *** Moving to the tried buckets *)

Lemma swap_perm (l : list Z) j k x y : l !! j = Some y → l !! k = Some x → <[j := x]> (<[k := y]> l) ≡ₚ l.
Proof.
  intros Ej Ek. assert (Lj := lookup_lt_Some _ _ _ Ej). assert (Lk := lookup_lt_Some _ _ _ Ek). apply Permutation_inj.
  split; [by rewrite !length_insert|]. exists (λ n, if decide (n = j) then k else if decide (n = k) then j else n). split.
  - intros n n'. repeat case_decide; congruence.
  - intros n. repeat case_decide; subst.
    + rewrite list_lookup_insert_eq by (by rewrite length_insert). done.
    + rewrite list_lookup_insert_ne, list_lookup_insert_eq by done. done.
    + by rewrite !list_lookup_insert_ne by done.
Qed.

Lemma select_loop_ok m rnd k i l old pos : (∀ n, n ∈ l → is_Some (m !! n)) → (old = -1 ∨ is_Some (m !! old)) →
  (∀ k n, (0 < n)%nat → (rnd k n < n)%nat) →
  ∃ l' p, select_loop m rnd k i l old pos = Some (l', p) ∧ l' ≡ₚ l ∧ (p = pos ∨ 0 <= p < Z.of_nat (length l)) ∧
    (old = -1 → (0 < k)%nat → (i < length l)%nat → 0 <= p < Z.of_nat (length l)).
Proof.
  intros Hm Ho Hr. revert i l old pos Hm Ho. induction k as [|k IH]; intros i l old pos Hm Ho; cbn [select_loop].
  { exists l, pos. split; [done|]. split; [done|]. split; [by left|lia]. }
  destruct (Nat.ltb_spec i (length l)) as [Hi|Hi]; [|exists l, pos; split; [done|]; split; [done|]; split; [by left|lia]].
  assert (H0 := Hr i (length l - i)%nat ltac:(lia)). set (nPos := (rnd i (length l - i) + i)%nat) in *.
  destruct (lookup_lt_is_Some_2 l nPos) as [x Ex]; [lia|]. destruct (lookup_lt_is_Some_2 l i Hi) as [y Ey]. rewrite Ex, Ey. cbn [mbind option_bind].
  assert (Hp : <[i := x]> (<[nPos := y]> l) ≡ₚ l) by (by apply swap_perm). set (l1 := <[i := x]> (<[nPos := y]> l)) in *.
  assert (Hl1 : length l1 = length l) by (by rewrite Hp). assert (Hm1 : ∀ n, n ∈ l1 → is_Some (m !! n)) by (intros n; rewrite Hp; apply Hm).
  destruct (Hm x) as [ix Eix]; [by eapply list_elem_of_lookup_2|]. rewrite Eix. cbn [mbind option_bind]. clearbody l1.
  assert (Hnew : ∃ l' p, select_loop m rnd k (S i) l1 x (Z.of_nat nPos) = Some (l', p) ∧ l' ≡ₚ l ∧ 0 <= p < Z.of_nat (length l)).
  { destruct (IH (S i) l1 x (Z.of_nat nPos) Hm1) as (l' & p & -> & P1 & P2 & _); [right; by exists ix|]. exists l', p. split; [done|].
    split; [by rewrite P1|]. rewrite Hl1 in P2. lia. }
  destruct Hnew as (l' & p & En & P1 & P2). destruct (Z.eqb_spec old (-1)) as [->|Hold]; [exists l', p; auto|].
  destruct Ho as [->|[io Eo]]; [done|]. rewrite Eo. cbn [mbind option_bind]. destruct (nLastSuccess ix <? nLastSuccess io); [exists l', p; auto|].
  destruct (IH (S i) l1 old pos Hm1) as (l2 & p2 & -> & Q1 & Q2 & _); [right; by exists io|]. exists l2, p2. split; [done|].
  split; [by rewrite Q1|]. rewrite Hl1 in Q2. split; [done|lia].
Qed.

Lemma total_insert tried k l l' : tried !! k = Some l →
  total_size (<[k := l']> tried) = total_size tried - Z.of_nat (length l) + Z.of_nat (length l').
Proof.
  intros Hk. unfold total_size. rewrite <- (take_drop_middle tried k l Hk) at 2. rewrite insert_take_drop by (by eapply lookup_lt_Some).
  rewrite !concat_app, !length_app. cbn [concat]. rewrite !length_app. lia.
Qed.

Lemma shape_shuffle key count V addrs tried vv k l l' : shape_ok key count V addrs tried vv → tried !! k = Some l → l' ≡ₚ l →
  shape_ok key count V addrs (<[k := l']> tried) vv.
Proof.
  intros [H0 H1 H2 H3 H4 H5 H6 H7 H8] Hk Hp. constructor; try done.
  - by rewrite length_insert.
  - intros b t Hb. apply list_lookup_insert_Some in Hb as [(-> & <- & _)|[_ Hb]]; [rewrite Hp|]; by eapply H4.
  - intros b t n Hb. apply list_lookup_insert_Some in Hb as [(-> & <- & _)|[_ Hb]]; [rewrite Hp|]; by eapply H5.
Qed.

Lemma erased_lookup n vv b s : map (λ s : gset Z, s ∖ {[n]}) vv !! b = Some s → ∃ t, vv !! b = Some t ∧ s = t ∖ {[n]}.
Proof. intros H. change (map ?f vv) with (f <$> vv) in H. apply list_lookup_fmap_Some in H as (t & -> & E). eauto. Qed.

(** [n], which was new, becomes tried; it leaves all new buckets. *)
Definition retry (V : Z → option (CService * bool)) (n : Z) (a : CService) (x : Z) : option (CService * bool) :=
  if decide (x = n) then Some (a, true) else V x.

Lemma shape_push key count V addrs tried vv n a l : shape_ok key count V addrs tried vv → V n = Some (a, false) →
  tried !! tried_bucket key a = Some l → (length l < ADDRMAN_TRIED_BUCKET_SIZE)%nat →
  shape_ok key count (retry V n a) addrs (<[tried_bucket key a := l ++ [n]]> tried) (map (λ s, s ∖ {[n]}) vv).
Proof.
  intros [H0 H1 H2 H3 H4 H5 H6 H7 H8] Hv Hk Hl. unfold retry. constructor; try done.
  - intros x v. case_decide; [intros _; subst; by eapply H1|apply H1].
  - intros ip x. rewrite H2. case_decide as E; [|done]. subst x. rewrite Hv. split; intros (v & [= <-] & Hip); eauto.
  - by rewrite length_insert.
  - intros b t Hb. apply list_lookup_insert_Some in Hb as [(<- & <- & _)|[_ Hb]]; [|by eapply H4]. destruct (H4 _ _ Hk) as [_ Hd].
    rewrite length_app. cbn. split; [lia|]. apply NoDup_app. split; [done|]. split; [|apply NoDup_singleton].
    intros x Hx Hx'. apply list_elem_of_singleton in Hx' as ->. apply (H5 _ _ _ Hk) in Hx as (a' & Ha' & _). congruence.
  - intros b t x Hb. apply list_lookup_insert_Some in Hb as [(<- & <- & _)|[Hne Hb]].
    + rewrite elem_of_app, list_elem_of_singleton, (H5 _ _ x Hk). case_decide as E; [subst; split; [eauto|by right]|]. tauto.
    + rewrite (H5 _ _ x Hb). case_decide as E; [|done]. subst. rewrite Hv. split; intros (a' & Ha' & Hb'); [done|].
      injection Ha' as <-. congruence.
  - by rewrite length_map.
  - intros b s Hb. apply erased_lookup in Hb as (t & Hb & ->). etrans; [|by eapply H7]. apply subseteq_size. set_solver.
  - intros b s x Hb Hx. apply erased_lookup in Hb as (t & Hb & ->). case_decide as E; [set_solver|]. eapply H8; [done|set_solver].
Qed.

(** [n] takes the place of [o], which goes back to the new buckets. *)
Definition untry (V : Z → option (CService * bool)) (o : Z) (a : CService) (x : Z) : option (CService * bool) :=
  if decide (x = o) then Some (a, false) else V x.

Lemma shape_evict key count V addrs tried vv n a o ao l p b s : shape_ok key count V addrs tried vv → V n = Some (a, false) →
  V o = Some (ao, true) → tried !! tried_bucket key a = Some l → l !! p = Some o →
  map (λ s, s ∖ {[n]}) vv !! b = Some s → (size s < ADDRMAN_NEW_BUCKET_SIZE)%nat →
  shape_ok key count (retry (untry V o ao) n a) addrs (<[tried_bucket key a := <[p := n]> l]> tried) (<[b := {[o]} ∪ s]> (map (λ s, s ∖ {[n]}) vv)).
Proof.
  intros [H0 H1 H2 H3 H4 H5 H6 H7 H8] Hv Ho Hk Hp Hb Hs. assert (Hno : n ≠ o) by congruence.
  assert (Lp := lookup_lt_Some _ _ _ Hp). destruct (H4 _ _ Hk) as [Hll Hnd].
  assert (Hnl : n ∉ l) by (intros Hx; apply (H5 _ _ _ Hk) in Hx as (a' & Ha' & _); congruence).
  assert (El := take_drop_middle l p o Hp). assert (Ei : <[p := n]> l = take p l ++ n :: drop (S p) l) by (by apply insert_take_drop).
  assert (Hmem : ∀ x, x ∈ <[p := n]> l ↔ x = n ∨ (x ∈ l ∧ x ≠ o)).
  { intros x. rewrite Ei. rewrite <- El in Hnd. apply NoDup_app in Hnd as (N1 & N2 & N3). apply NoDup_cons in N3 as [N3 N4].
    rewrite <- El at 3. rewrite !elem_of_app, !elem_of_cons. split.
    - intros [Hx|[->|Hx]]; [right; split; [by left|]; intros ->; by apply (N2 o Hx); left|by left|right; split; [by right; right|by intros ->]].
    - intros [->|[[Hx|[->|Hx]] Hxo]]; [by right; left|by left|done|by right; right]. }
  unfold retry, untry. constructor; try done.
  - intros x v. case_decide; [intros _; subst; by eapply H1|]. case_decide; [intros _; subst; by eapply H1|apply H1].
  - intros ip x. rewrite H2. case_decide as E; [|case_decide as E'; [|done]]; subst x; rewrite ?Hv, ?Ho; split; intros (v & [= <-] & Hip); eauto.
  - by rewrite length_insert.
  - intros c t Hc. apply list_lookup_insert_Some in Hc as [(<- & <- & _)|[_ Hc]]; [|by eapply H4]. rewrite length_insert. split; [done|].
    rewrite Ei. rewrite <- El in Hnd, Hnl. apply NoDup_app in Hnd as (N1 & N2 & N3). apply NoDup_cons in N3 as [N3 N4].
    rewrite elem_of_app, elem_of_cons in Hnl. apply NoDup_app. split; [done|]. split; [|apply NoDup_cons; split; [tauto|done]].
    intros x Hx Hx'. apply elem_of_cons in Hx' as [->|Hx']; [tauto|]. apply (N2 x Hx). by right.
  - intros c t x Hc. apply list_lookup_insert_Some in Hc as [(<- & <- & _)|[Hne Hc]].
    + rewrite Hmem, (H5 _ _ x Hk). case_decide as E; [subst; split; [eauto|by left]|]. case_decide as E'.
      * subst. split; [intros [?|[_ ?]]; done|by intros (? & ? & _)].
      * split; [intros [?|[? _]]; done|]. intros. right. done.
    + rewrite (H5 _ _ x Hc). case_decide as E; [subst; rewrite Hv; split; intros (a' & Ha' & Hb'); [done|injection Ha' as <-; congruence]|].
      case_decide as E'; [|done]. subst. rewrite Ho. split; intros (a' & Ha' & Hb'); [|done]. injection Ha' as <-.
      assert (Hol : o ∈ l) by (by eapply list_elem_of_lookup_2). apply (H5 _ _ _ Hk) in Hol as (a' & Ha' & Hb''). rewrite Ho in Ha'.
      injection Ha' as <-. congruence.
  - by rewrite length_insert, length_map.
  - intros c t Hc. apply list_lookup_insert_Some in Hc as [(<- & <- & _)|[_ Hc]].
    + assert (Hu := size_union_alt {[o]} s). rewrite size_singleton in Hu.
      assert (size (s ∖ {[o]}) <= size s)%nat by (apply subseteq_size; set_solver). lia.
    + apply erased_lookup in Hc as (t' & Hc & ->). etrans; [|by eapply H7]. apply subseteq_size. set_solver.
  - assert (Hold : ∀ c t x, map (λ s, s ∖ {[n]}) vv !! c = Some t → x ∈ t → x ≠ n ∧ ∃ a', V x = Some (a', false)).
    { intros c t x Hc Hx. apply erased_lookup in Hc as (t' & Hc & ->). split; [set_solver|]. eapply H8; [done|set_solver]. }
    intros c t x Hc Hx. apply list_lookup_insert_Some in Hc as [(<- & <- & _)|[_ Hc]].
    + apply elem_of_union in Hx as [Hx%elem_of_singleton|Hx]; [subst x; rewrite decide_False, decide_True by done; eauto|].
      destruct (Hold _ _ _ Hb Hx) as [Hxn [a' Ha']]. rewrite decide_False by done. case_decide; eauto.
    + destruct (Hold _ _ _ Hc Hx) as [Hxn [a' Ha']]. rewrite decide_False by done. case_decide; eauto.
Qed.

(** The state after the eviction of [o] by [n] *)
Lemma evicted_ok am n i o io l p c t l0 : am_ok None am → mapInfo am !! n = Some i → fInTried i = false → nLastSuccess i ≠ 0 →
  vvTried am !! GetTriedBucket (nKey am) i = Some l0 → l ≡ₚ l0 → l !! p = Some o → mapInfo am !! o = Some io →
  map (λ s, s ∖ {[n]}) (vvNew am) !! c = Some t → (size t < ADDRMAN_NEW_BUCKET_SIZE)%nat →
  am_ok None (mkMan (nKey am) (nIdCount am)
    (<[n := set_place 0 true i]> (<[o := set_place 1 false io]> (<[n := set_place 0 false i]> (mapInfo am)))) (mapAddr am) (vRandom am)
    (nTried am) (<[GetTriedBucket (nKey am) i := <[p := n]> l]> (vvTried am)) (nNew am)
    (<[c := {[o]} ∪ t]> (map (λ s, s ∖ {[n]}) (vvNew am)))).
Proof.
  intros [H1 H2 H3 H4 H5] E Ft Hs Hk Hperm Hp Eo Hc Ht. rewrite GetTriedBucket_view in *. set (k := tried_bucket (nKey am) (ai_service i)) in *.
  assert (Ho : o ∈ l0) by (rewrite <- Hperm; by eapply list_elem_of_lookup_2). apply (s_tried _ _ _ _ _ _ H1 _ _ _ Hk) in Ho as (ao & Ho & Hbo).
  assert (Hno : n ≠ o) by (intros ->; rewrite (views_Some _ _ _ E) in Ho; unfold view in Ho; congruence).
  assert (Fo : fInTried io = true) by (rewrite (views_Some _ _ _ Eo) in Ho; unfold view in Ho; congruence).
  assert (Hao : ai_service io = ao) by (rewrite (views_Some _ _ _ Eo) in Ho; unfold view in Ho; congruence).
  assert (Hro : ∀ b s, vvNew am !! b = Some s → o ∉ s).
  { intros b s Hb Hx. destruct (s_new _ _ _ _ _ _ H1 _ _ _ Hb Hx) as [a Ha]. congruence. }
  assert (Hot : o ∉ t) by (apply erased_lookup in Hc as (t' & Hc & ->); assert (H := Hro _ _ Hc); set_solver).
  assert (Lk : (k < length (vvTried am))%nat) by (by eapply lookup_lt_Some). constructor; cbn.
  - assert (S1 := shape_shuffle _ _ _ _ _ _ _ _ _ H1 Hk Hperm). assert (Hk' : <[k := l]> (vvTried am) !! k = Some l) by (by apply list_lookup_insert_eq).
    assert (Hv : views (mapInfo am) n = Some (ai_service i, false)) by (rewrite (views_Some _ _ _ E); unfold view; by rewrite Ft).
    assert (S2 := shape_evict _ _ _ _ _ _ _ _ _ _ _ _ _ _ S1 Hv Ho Hk' Hp Hc Ht). fold k in S2. rewrite list_insert_insert_eq in S2.
    eapply shape_views; [|exact S2]. intros x. rewrite !views_insert. unfold retry, untry, view. cbn. repeat case_decide; try done.
    by rewrite <- Hao.
  - intros x j Hx. apply lookup_insert_Some in Hx as [[<- <-]|[Hxn Hx]].
    { destruct (H2 _ _ E) as [_ (T1 & T2 & _)]. split; [done|]. split; [done|]. split; [done|]. by intros _. }
    apply lookup_insert_Some in Hx as [[<- <-]|[Hxo Hx]].
    { destruct (H2 _ _ Eo) as [_ (T1 & T2 & T3)]. split; [|split; [done|]; split; [done|by intros]]. unfold place_ok. cbn.
      rewrite refs_add, refs_erase_all, decide_False, one_if_True, one_if_False by done. rewrite (proj2 (refs_none o (vvNew am))) by done. done. }
    rewrite lookup_insert_ne in Hx by done. destruct (H2 _ _ Hx) as [P T]. split; [|done]. eapply place_other; [done|].
    rewrite refs_add, refs_erase_all, decide_False, one_if_False by done. lia.
  - eapply (random_insert _ _ n (set_place 0 false i)); [|by rewrite lookup_insert_ne, lookup_insert_eq by done|done].
    eapply (random_insert _ _ o io); [|by rewrite lookup_insert_ne by done|done]. by eapply random_insert.
  - rewrite H4. rewrite (total_insert _ _ l0) by done. rewrite length_insert, Hperm. lia.
  - done.
Qed.

Lemma MakeTried_ok rnd n i b s am : am_ok None am → mapInfo am !! n = Some i → fInTried i = false → nLastSuccess i ≠ 0 →
  vvNew am !! b = Some s → n ∈ s → (∀ k n, (0 < n)%nat → (rnd k n < n)%nat) →
  ∃ am', MakeTried rnd n b am = Some am' ∧ am_ok None am' ∧ nKey am' = nKey am ∧
    ∃ i', mapInfo am' !! n = Some i' ∧ fInTried i' = true ∧ ai_addr i' = ai_addr i.
Proof.
  intros H E Ft Hs Hb Hn Hr. destruct (H) as [H1 H2 H3 H4 H5]. unfold MakeTried. rewrite Hb, E. cbn [mbind option_bind].
  rewrite bool_decide_eq_true_2 by done. cbn [negb]. rewrite erase_all_ok. destruct (H2 _ _ E) as [P (T1 & T2 & _)]. unfold place_ok in P.
  rewrite Ft in P. rewrite one_if_False in P by done. replace (nRefCount i - refs n (vvNew am)) with 0 by lia. cbn [Z.eqb negb]. rewrite Ft.
  set (am1 := set_info n (set_place 0 false i) (set_new (nNew am - 1) (map (λ s, s ∖ {[n]}) (vvNew am)) am)).
  change (nKey am1) with (nKey am). change (vvTried am1) with (vvTried am). change (GetTriedBucket (nKey am) (set_place 0 false i)) with (GetTriedBucket (nKey am) i).
  destruct (lookup_lt_is_Some_2 (vvTried am) (GetTriedBucket (nKey am) i)) as [l Hk].
  { rewrite (s_tried_len _ _ _ _ _ _ H1). apply tried_bucket_lt. }
  rewrite Hk. cbn [mbind option_bind]. assert (Hv : views (mapInfo am) n = Some (ai_service i, false)) by (rewrite (views_Some _ _ _ E); unfold view; by rewrite Ft).
  destruct (Nat.ltb_spec (length l) ADDRMAN_TRIED_BUCKET_SIZE) as [Hroom|Hfull].
  - eexists. split; [done|]. split; [|split; [done|]; eexists; split; [apply lookup_insert_eq|done]].
    constructor; cbn.
    + eapply shape_views; [|exact (shape_push _ _ _ _ _ _ _ _ _ H1 Hv Hk Hroom)]. intros x. rewrite !views_insert. unfold retry, view. cbn.
      by repeat case_decide.
    + intros x j Hx. apply lookup_insert_Some in Hx as [[<- <-]|[Hxn Hx]]; [split; [done|by repeat split]|].
      rewrite lookup_insert_ne in Hx by done. destruct (H2 _ _ Hx) as [Q T]. split; [|done]. eapply place_other; [done|].
      by rewrite refs_erase_all, decide_False by done.
    + eapply random_insert; [by eapply random_insert|apply lookup_insert_eq|done].
    + rewrite (total_insert _ _ l) by done. rewrite length_app, H4. cbn. lia.
    + lia.
  - unfold evict, SelectTried. change (vvTried am1) with (vvTried am). rewrite Hk. cbn [mbind option_bind].
    assert (Hl := s_tried_size _ _ _ _ _ _ H1 _ _ Hk). assert (Hids : ∀ x, x ∈ l → is_Some (mapInfo am1 !! x)).
    { intros x Hx. cbn. apply (s_tried _ _ _ _ _ _ H1 _ _ _ Hk) in Hx as (a & Ha & _). apply views_inv in Ha as (j & Ej & _).
      apply lookup_insert_is_Some'. right. by exists j. }
    destruct (select_loop_ok (mapInfo am1) rnd ADDRMAN_TRIED_ENTRIES_INSPECT_ON_EVICT 0 l (-1) (-1) Hids) as (l' & p & -> & Hperm & _ & Hpos); [by left|done|].
    cbn [mbind option_bind]. specialize (Hpos eq_refl ltac:(vm_compute; lia) ltac:(unfold ADDRMAN_TRIED_BUCKET_SIZE in Hfull; lia)).
    change (vvTried (set_tried _ ?v _)) with v. rewrite list_lookup_insert_eq by (by eapply lookup_lt_Some). cbn [mbind option_bind].
    destruct (Z.ltb_spec p 0); [lia|]. destruct (lookup_lt_is_Some_2 l' (Z.to_nat p)) as [o Ho]; [rewrite Hperm; lia|]. rewrite Ho. cbn [mbind option_bind].
    assert (Hol : o ∈ l) by (rewrite <- Hperm; by eapply list_elem_of_lookup_2). destruct (s_tried _ _ _ _ _ _ H1 _ _ o Hk) as [Hol' _].
    destruct (Hol' Hol) as (ao & Hao & _). apply views_inv in Hao as (io & Eo & Evo). injection Evo as -> Fo.
    assert (Hno : n ≠ o) by (intros ->; rewrite E in Eo; injection Eo as <-; congruence).
    change (mapInfo (set_tried _ _ am1)) with (<[n := set_place 0 false i]> (mapInfo am)). rewrite lookup_insert_ne, Eo by done. cbn [mbind option_bind].
    change (vvNew (set_tried _ _ am1)) with (map (λ s, s ∖ {[n]}) (vvNew am)). change (nKey (set_tried _ _ am1)) with (nKey am).
    destruct (lookup_lt_is_Some_2 (map (λ s, s ∖ {[n]}) (vvNew am)) (GetNewBucket (nKey am) io (ai_source io))) as [t Hc].
    { rewrite length_map, (s_new_len _ _ _ _ _ _ H1). apply GetNewBucket_lt. }
    rewrite Hc. cbn [mbind option_bind]. assert (Hb' : map (λ s, s ∖ {[n]}) (vvNew am) !! b = Some (s ∖ {[n]})).
    { change (map ?f (vvNew am)) with (f <$> vvNew am). by rewrite list_lookup_fmap, Hb. }
    rewrite Hb'. cbn [mbind option_bind]. cbn [mapInfo set_tried set_new set_info]. rewrite lookup_insert_ne by done. change (mapInfo am1 !! n) with (<[n := set_place 0 false i]> (mapInfo am) !! n). rewrite lookup_insert_eq. cbn [mbind option_bind].
    eexists. split; [done|].
    assert (Hsz : (size (s ∖ {[n]}) < ADDRMAN_NEW_BUCKET_SIZE)%nat).
    { assert (Hd := size_difference s {[n]} ltac:(set_solver)). rewrite size_singleton in Hd. assert (Hs64 := s_new_size _ _ _ _ _ _ H1 _ _ Hb).
      assert (0 < size s)%nat by (apply Nat.neq_0_lt_0; intros Hz; apply size_empty_inv in Hz; set_solver). lia. }
    split; [|split; [done|]; eexists; split; [apply lookup_insert_eq|done]].
    unfold set_info, set_tried, set_new. cbn -[map Nat.ltb]. change (set_place 0 true (set_place 0 false i)) with (set_place 0 true i). rewrite list_insert_insert_eq. replace (nNew am - 1 + 1) with (nNew am) by lia.
    destruct (size t <? ADDRMAN_NEW_BUCKET_SIZE)%nat eqn:Esz.
    + apply Nat.ltb_lt in Esz. eapply evicted_ok; try done.
    + eapply evicted_ok; try done.
Qed.

(** *** The operations keep the invariant *)

Lemma find_bucket_some vv n r k start b : find_bucket vv n r k start = Some b → vv ≠ [] → ∃ s, vv !! b = Some s ∧ n ∈ s.
Proof.
  intros H Hne. revert start H. induction k as [|k IH]; intros start; cbn [find_bucket]; [done|]. case_bool_decide as Hn; [|apply IH].
  intros [= <-]. destruct (lookup_lt_is_Some_2 vv ((start + r) mod length vv)) as [s Hs].
  { apply Nat.mod_upper_bound. by destruct vv. }
  exists s. split; [done|]. by rewrite (nth_lookup_Some _ _ ∅ _ Hs) in Hn.
Qed.
Lemma find_bucket_complete vv n r k start j s : (start <= j < start + k)%nat → vv !! ((j + r) mod length vv)%nat = Some s → n ∈ s →
  find_bucket vv n r k start ≠ None.
Proof.
  intros Hj Hs Hn. revert start Hj. induction k as [|k IH]; intros start Hj; cbn [find_bucket]; [lia|]. case_bool_decide as Hb; [done|].
  destruct (decide (start = j)) as [->|]; [by rewrite (nth_lookup_Some _ _ ∅ _ Hs) in Hb|]. apply IH. lia.
Qed.
Lemma find_bucket_ok vv n r b s : vv !! b = Some s → n ∈ s → ∃ b' s', find_bucket vv n r (length vv) 0 = Some b' ∧ vv !! b' = Some s' ∧ n ∈ s'.
Proof.
  intros Hb Hn. assert (Lb := lookup_lt_Some _ _ _ Hb). assert (Hne : vv ≠ []) by (by intros ->).
  set (L := length vv) in *. set (j := ((b + (L - r mod L)) mod L)%nat). assert (Hr := Nat.mod_upper_bound r L ltac:(lia)).
  assert (Hj : ((j + r) mod L = b)%nat).
  { unfold j. rewrite Nat.Div0.add_mod_idemp_l. replace (b + (L - r mod L) + r)%nat with (b + (r / L + 1) * L)%nat.
    - rewrite Nat.Div0.mod_add. by apply Nat.mod_small.
    - assert (H := Nat.div_mod r L ltac:(lia)). nia. }
  destruct (find_bucket vv n r L 0) as [b'|] eqn:E.
  - destruct (find_bucket_some _ _ _ _ _ _ E Hne) as (s' & ? & ?). eauto.
  - exfalso. eapply (find_bucket_complete vv n r L 0 j s); try done; [|by fold L; rewrite Hj].
    assert (H := Nat.mod_upper_bound (b + (L - r mod L)) L ltac:(lia)). fold j in H. lia.
Qed.

Lemma Good_ok rnd addr t am : am_ok None am → 0 < t → (∀ k n, (0 < n)%nat → (rnd k n < n)%nat) →
  ∃ am', Good_ rnd addr t am = Some am' ∧ am_ok None am' ∧ nKey am' = nKey am ∧
    ∀ n i, am_Find (sv_ip addr) am = Some (n, i) → service_eq (ai_service i) addr = true →
      ∃ i', mapInfo am' !! n = Some i' ∧ fInTried i' = true ∧ ai_service i' = ai_service i.
Proof.
  intros H Ht Hr. unfold Good_. destruct (am_Find (sv_ip addr) am) as [[n i]|] eqn:Ef; [|exists am; by split_and!].
  destruct (am_Find_Some _ _ _ _ H Ef) as (Ea & E & _).
  destruct (service_eq (ai_service i) addr) eqn:Es; cbn [negb]; [|exists am; split_and!; try done; intros ? ? [= <- <-]; congruence].
  set (i1 := set_nTime t (set_try t t 0 i)). assert (K : keeps i i1) by (constructor; [done|done|]; intros _; split_and!; cbn; intros; lia).
  assert (H1 := set_info_ok None am n i i1 H E K eq_refl). assert (E1 : mapInfo (set_info n i1 am) !! n = Some i1) by apply lookup_insert_eq.
  set (am1 := set_info n i1 am) in *. change (nKey am) with (nKey am1). change (fInTried i1) with (fInTried i).
  assert (Hsv : ai_service i1 = ai_service i) by done.
  destruct (fInTried i) eqn:Ft.
  { exists am1. split_and!; try done. intros ? ? [= <- <-] _. exists i1. done. }
  assert (Hs : nLastSuccess i1 ≠ 0) by (cbn; lia). assert (Ft1 : fInTried i1 = false) by exact Ft. clearbody am1 i1.
  destruct (am_entries _ _ H1 _ _ E1) as [P _]. unfold place_ok in P. rewrite Ft1 in P. rewrite one_if_False in P by done.
  destruct (refs_bucket n (vvNew am1)) as (b & s & Hb & Hn); [lia|]. destruct (find_bucket_ok _ _ (rnd 0%nat (length (vvNew am1))) _ _ Hb Hn) as (b' & s' & -> & Hb' & Hn').
  destruct (MakeTried_ok (λ k, rnd (S k)) n i1 b' s' am1) as (am' & -> & Hok & Ek & i' & E' & Ft' & Ead); try done; [intros; by apply Hr|].
  exists am'. split; [done|]. split; [done|]. split; [done|]. intros ? ? [= <- <-] _. exists i'. split; [done|]. split; [done|].
  rewrite <- Hsv. unfold ai_service. by rewrite Ead.
Qed.

Lemma add_known_ok nNow rnd addr p n i am am' go : am_ok None am → mapInfo am !! n = Some i →
  add_known nNow rnd addr p n i am = (am', go) →
  am_ok None am' ∧ nKey am' = nKey am ∧ ∃ i', mapInfo am' !! n = Some i' ∧ ai_service i' = ai_service i ∧
    (go = true → fInTried i' = false ∧ nRefCount i' < ADDRMAN_NEW_BUCKETS_PER_ADDRESS).
Proof.
  intros H E. unfold add_known. set (i1 := if negb _ && _ then _ else i). set (i2 := add_services (ad_nServices addr) i1).
  assert (K : keeps i i2) by (subst i2 i1; destruct (negb _ && _); constructor; done).
  assert (Ep : nRandomPos i2 = nRandomPos i) by (subst i2 i1; by destruct (negb _ && _)).
  assert (H1 := set_info_ok None am n i i2 H E K Ep). assert (E1 : mapInfo (set_info n i2 am) !! n = Some i2) by apply lookup_insert_eq.
  assert (Hs : ai_service i2 = ai_service i) by (destruct K as [Kv _ _]; by injection Kv). clearbody i2. clear i1.
  assert (Hres : ∀ go', (go' = true → fInTried i2 = false ∧ nRefCount i2 < ADDRMAN_NEW_BUCKETS_PER_ADDRESS) →
    (set_info n i2 am, go') = (am', go) → am_ok None am' ∧ nKey am' = nKey am ∧ ∃ i', mapInfo am' !! n = Some i' ∧ ai_service i' = ai_service i ∧
    (go = true → fInTried i' = false ∧ nRefCount i' < ADDRMAN_NEW_BUCKETS_PER_ADDRESS)).
  { intros go' Hg [= <- <-]. split; [done|]. split; [done|]. by exists i2. }
  destruct (_ || _); [by apply Hres|]. destruct (fInTried i2) eqn:Ft; [by apply Hres|].
  destruct (Z.eqb_spec (nRefCount i2) ADDRMAN_NEW_BUCKETS_PER_ADDRESS); [by apply Hres|]. apply Hres. intros _. split; [done|].
  destruct (am_entries _ _ H1 _ _ E1) as [P _]. unfold place_ok in P. rewrite Ft in P. lia.
Qed.

Lemma Add_ok nNow rnd addr source p am : am_ok None am → (∀ k n, (0 < n)%nat → (rnd k n < n)%nat) →
  ∃ fNew am', Add_ nNow rnd addr source p am = Some (fNew, am') ∧ am_ok None am' ∧ nKey am' = nKey am ∧
    (IsRoutable (sv_ip (ad_service addr)) = true →
     (fNew = true ↔ am_Find (sv_ip (ad_service addr)) am = None) ∧ ∃ n i, am_Find (sv_ip (ad_service addr)) am' = Some (n, i)).
Proof.
  intros H Hr. unfold Add_. destruct (IsRoutable (sv_ip (ad_service addr))); cbn [negb]; [|exists false, am; by split_and!].
  assert (Hfind : ∀ am' n i, am_ok None am' → mapInfo am' !! n = Some i → ∃ n' i', am_Find (ai_ip i) am' = Some (n', i')).
  { intros am' n i H' E'. exists n, i. unfold am_Find. assert (E := views_Some _ _ _ E').
    rewrite (proj2 (s_addr _ _ _ _ _ _ (am_shape _ _ H') (ai_ip i) n)) by (by eexists). cbn [mbind option_bind]. by rewrite E'. }
  destruct (am_Find (sv_ip (ad_service addr)) am) as [[n i]|] eqn:Ef.
  - destruct (am_Find_Some _ _ _ _ H Ef) as (_ & E & Eip). destruct (add_known nNow rnd addr p n i am) as [am1 go] eqn:Ek.
    destruct (add_known_ok _ _ _ _ _ _ _ _ _ H E Ek) as (H1 & K1 & i1 & E1 & S1 & G1).
    assert (Eip1 : ai_ip i1 = sv_ip (ad_service addr)) by (rewrite <- Eip; unfold ai_ip; by rewrite S1).
    destruct go; [|exists false, am1; split_and!; try done; intros _; split; [done|]; rewrite <- Eip1; by eapply Hfind].
    destruct (G1 eq_refl) as [Ft Hrc].
    destruct (add_place_ok nNow (λ k, rnd (S k)) source am1 n i1) as (am2 & -> & H2 & K2 & i2 & E2 & A2); try done.
    { by apply (s_new_len _ _ _ _ _ _ (am_shape _ _ H1)). }
    { by apply pend_ok. }
    { intros; by apply Hr. }
    cbn [mbind option_bind]. exists false, am2. split; [done|]. split; [done|]. split; [congruence|]. intros _. split; [done|].
    assert (Eip2 : ai_ip i2 = sv_ip (ad_service addr)) by (rewrite <- Eip1; unfold ai_ip, ai_service; by rewrite A2).
    rewrite <- Eip2. by eapply Hfind.
  - assert (Ha := am_Find_None _ _ H Ef). unfold Create. cbn [mapInfo]. rewrite lookup_insert_eq. cbn [mbind option_bind].
    set (i := set_pos (Z.of_nat (length (vRandom am))) (CAddrInfo_new addr source)).
    destruct (create_ok am addr source (Z.max 0 (ai_nTime i - p)) H Ha) as (Hok & Hn & Hnot). fold i in Hok.
    set (i1 := set_nTime (Z.max 0 (ai_nTime i - p)) i) in *. unfold set_new, set_info. cbn [nKey nIdCount mapInfo mapAddr vRandom nTried vvTried nNew vvNew].
    rewrite insert_insert_eq. set (am1 := mkMan _ _ _ _ _ _ _ _ _). assert (E1 : mapInfo am1 !! nIdCount am = Some i1) by apply lookup_insert_eq.
    destruct (add_place_ok nNow (λ k, rnd (S k)) source am1 (nIdCount am) i1 E1) as (am2 & -> & H2 & K2 & i2 & E2 & A2); try done.
    { exact (s_new_len _ _ _ _ _ _ (am_shape _ _ H)). }
    { unfold am1, set_info. cbn [nKey nIdCount mapInfo mapAddr vRandom nTried vvTried nNew vvNew]. rewrite insert_insert_eq. exact Hok. }
    { intros b s Hb Hs. by destruct (Hnot b s). }
    { intros; by apply Hr. }
    cbn [mbind option_bind]. exists true, am2. split; [done|]. split; [done|]. split; [done|]. intros _. split; [done|].
    assert (Eip2 : ai_ip i2 = sv_ip (ad_service addr)) by (unfold ai_ip, ai_service; by rewrite A2).
    rewrite <- Eip2. by eapply Hfind.
Qed.

Lemma Attempt_ok addr t am : am_ok None am → 0 <= t → am_ok None (Attempt_ addr t am).
Proof.
  intros H Ht. unfold Attempt_. destruct (am_Find (sv_ip addr) am) as [[n i]|] eqn:Ef; [|done]. destruct (am_Find_Some _ _ _ _ H Ef) as (_ & E & _).
  destruct (service_eq _ _); [|done]. cbn [negb]. apply (set_info_ok None am n i); try done. constructor; [done|done|].
  by intros (T1 & T2 & T3).
Qed.
Lemma Connected_ok addr t am : am_ok None am → am_ok None (Connected_ addr t am).
Proof.
  intros H. unfold Connected_. destruct (am_Find (sv_ip addr) am) as [[n i]|] eqn:Ef; [|done]. destruct (am_Find_Some _ _ _ _ H Ef) as (_ & E & _).
  destruct (service_eq _ _); [|done]. cbn [negb]. destruct (_ >? _); [|done]. apply (set_info_ok None am n i); try done.
Qed.

(** *** The consistency check *)

Lemma elem_of_entries m n i : (n, i) ∈ entries m ↔ m !! n = Some i.
Proof. unfold entries. rewrite merge_sort_Permutation. apply elem_of_map_to_list. Qed.

Lemma check_infos_ok am l st mn : am_ok None am → (∀ n i, (n, i) ∈ l → mapInfo am !! n = Some i) →
  ∃ st' mn', check_infos am l st mn = inr (st', mn') ∧
    (∀ n, n ∈ st' ↔ n ∈ st ∨ ∃ i, (n, i) ∈ l ∧ fInTried i = true) ∧
    (∀ n c, mn' !! n = Some c ↔ (∃ i, (n, i) ∈ l ∧ fInTried i = false ∧ nRefCount i = c) ∨
                              (mn !! n = Some c ∧ ¬ ∃ i, (n, i) ∈ l ∧ fInTried i = false)).
Proof.
  intros H. revert st mn. induction l as [|[n i] l IH]; intros st mn Hl; cbn [check_infos].
  { exists st, mn. split; [done|]. split; intros.
    - split; [by left|]. intros [?|(? & Hx & _)]; [done|]. by apply not_elem_of_nil in Hx.
    - split; [intros ?; right; split; [done|]; intros (? & Hx & _); by apply not_elem_of_nil in Hx|].
      intros [(? & Hx & _)|[? _]]; [by apply not_elem_of_nil in Hx|done]. }
  assert (E : mapInfo am !! n = Some i) by (apply Hl; by left). destruct (am_entries _ _ H _ _ E) as [P (T1 & T2 & T3)].
  destruct (rnd_pos _ _ (am_random _ _ H) _ _ E) as [R1 R2]. assert (R3 := lookup_lt_Some _ _ _ R2).
  assert (Ea : mapAddr am !! ai_ip i = Some n).
  { apply (s_addr _ _ _ _ _ _ (am_shape _ _ H)). rewrite (views_Some _ _ _ E). by eexists. }
  rewrite Ea. cbn [default]. rewrite Z.eqb_refl. cbn [negb]. rewrite bool_decide_eq_true_2 by done. cbn [negb].
  replace (nRandomPos i <? 0) with false by lia. replace (nRandomPos i >=? Z.of_nat (length (vRandom am))) with false by lia. cbn [orb].
  replace (nLastTry i <? 0) with false by lia. replace (nLastSuccess i <? 0) with false by lia.
  assert (Hl' : ∀ n i, (n, i) ∈ l → mapInfo am !! n = Some i) by (intros k j Hk; apply Hl; by right). unfold place_ok in P.
  destruct (fInTried i) eqn:Ft.
  - rewrite (proj2 (Z.eqb_neq (nLastSuccess i) 0)) by auto. rewrite P. cbn [Z.eqb negb].
    destruct (IH ({[n]} ∪ st) mn Hl') as (st' & mn' & -> & Hst & Hmn). exists st', mn'. split; [done|]. split.
    + intros k. rewrite Hst, elem_of_union, elem_of_singleton. setoid_rewrite elem_of_cons. split.
      * intros [[->|?]|(j & Hj & Fj)]; [right; exists i; by split; [left|]|by left|right; exists j; by split; [right|]].
      * intros [?|(j & [[= -> ->]|Hj] & Fj)]; [by left; right|by left; left|right; by exists j].
    + intros k c. rewrite Hmn. setoid_rewrite elem_of_cons. split.
      * intros [(j & Hj & Fj & Rj)|[Hk Hno]]; [left; exists j; by split; [right|]|right]. split; [done|].
        intros (j & [[= -> ->]|Hj] & Fj); [congruence|]. apply Hno. by exists j.
      * intros [(j & [[= -> ->]|Hj] & Fj & Rj)|[Hk Hno]]; [congruence|left; by exists j|right]. split; [done|].
        intros (j & Hj & Fj). apply Hno. exists j. by split; [right|].
  - destruct P as [P1 P2]. unfold ADDRMAN_NEW_BUCKETS_PER_ADDRESS in *. replace ((nRefCount i <? 0) || (nRefCount i >? 4)) with false by lia.
    rewrite (proj2 (Z.eqb_neq (nRefCount i) 0)) by lia.
    destruct (IH st (<[n := nRefCount i]> mn) Hl') as (st' & mn' & -> & Hst & Hmn). exists st', mn'. split; [done|]. split.
    + intros k. rewrite Hst. setoid_rewrite elem_of_cons. split.
      * intros [?|(j & Hj & Fj)]; [by left|right; exists j; by split; [right|]].
      * intros [?|(j & [[= -> ->]|Hj] & Fj)]; [by left|congruence|right; by exists j].
    + intros k c. rewrite Hmn. setoid_rewrite elem_of_cons. rewrite lookup_insert_Some. split.
      * intros [(j & Hj & Fj & Rj)|[[[<- <-]|[Hne Hk]] Hno]]; [left; exists j; by split; [right|]|left; exists i; by split; [left|]|right].
        split; [done|]. intros (j & [[= -> ->]|Hj] & Fj); [done|]. apply Hno. by exists j.
      * intros [(j & [[= -> ->]|Hj] & Fj & Rj)|[Hk Hno]].
        { destruct (decide (n ∈ l.*1)) as [Hin|Hout].
          - apply list_elem_of_fmap in Hin as ([n' j] & E' & Hj). cbn in E'. subst n'. assert (j = i) as -> by (specialize (Hl' _ _ Hj); congruence).
            left. by exists i.
          - right. split; [by left|]. intros (j & Hj & _). apply Hout. apply list_elem_of_fmap. by exists (n, j). }
        { left. by exists j. }
        right. assert (Hkn : n ≠ k) by (intros ->; apply Hno; exists i; by split; [left|]). split; [by right|].
        intros (j & Hj & Fj). apply Hno. exists j. by split; [right|].
Qed.

Lemma check_tried_ok ids st : NoDup ids → (∀ n, n ∈ ids ↔ n ∈ st) → check_tried ids st = inr ∅.
Proof.
  intros Hd. revert st. induction Hd as [|n ids Hn Hd IH]; intros st H; cbn [check_tried].
  - f_equal. apply set_eq. intros k. rewrite <- H. set_solver.
  - rewrite bool_decide_eq_true_2 by (apply H; by left). apply IH. intros k. rewrite elem_of_difference, elem_of_singleton, <- H, elem_of_cons.
    split; [intros Hk; split; [by right|by intros ->]|by intros [[->|?] ?]].
Qed.

(** How often an id occurs in a list *)
Definition occ (n : Z) (l : list Z) : Z := Z.of_nat (length (filter (λ k, k = n) l)).
Lemma occ_cons n k l : occ n (k :: l) = one_if (k = n) + occ n l.
Proof. unfold occ, one_if. rewrite filter_cons. case_decide; cbn [length]; lia. Qed.
Lemma occ_app n l l' : occ n (l ++ l') = occ n l + occ n l'.
Proof. unfold occ. rewrite filter_app, length_app. lia. Qed.
Lemma occ_nodup n l : NoDup l → occ n l = one_if (n ∈ l).
Proof.
  induction 1 as [|k l Hk Hd IH]; [done|]. rewrite occ_cons, IH. unfold one_if. repeat case_decide; try set_solver.
Qed.
Lemma occ_buckets n vv : occ n (concat (map in_order vv)) = refs n vv.
Proof.
  induction vv as [|s vv IH]; [done|]. cbn [map concat]. rewrite occ_app, IH, refs_cons, occ_nodup by apply NoDup_in_order. f_equal.
  unfold one_if. destruct (decide (n ∈ s)); [by rewrite decide_True by (by apply elem_of_in_order)|].
  by rewrite decide_False by (by rewrite elem_of_in_order).
Qed.
Lemma check_new_ok ids mn : (∀ n, mn !! n = if occ n ids =? 0 then None else Some (occ n ids)) → check_new ids mn = inr ∅.
Proof.
  revert mn. induction ids as [|n ids IH]; intros mn H; cbn [check_new].
  { f_equal. apply map_eq. intros k. rewrite H. done. }
  assert (Hn := H n). rewrite occ_cons, one_if_True in Hn by done. assert (0 <= occ n ids) by (unfold occ; lia).
  rewrite (proj2 (Z.eqb_neq (1 + occ n ids) 0)) in Hn by lia. rewrite Hn. replace (1 + occ n ids - 1) with (occ n ids) by lia.
  apply IH. intros k. destruct (decide (k = n)) as [->|Hk].
  - destruct (occ n ids =? 0); [apply lookup_delete_eq|apply lookup_insert_eq].
  - assert (H' := H k). rewrite occ_cons, one_if_False, Z.add_0_l in H' by congruence. rewrite <- H'.
    destruct (occ n ids =? 0); [by apply lookup_delete_ne|by apply lookup_insert_ne].
Qed.

Lemma NoDup_concat_buckets (ls : list (list Z)) (f : Z → nat) (k : nat) :
  (∀ b l, ls !! b = Some l → NoDup l ∧ ∀ n, n ∈ l → f n = (k + b)%nat) → NoDup (concat ls).
Proof.
  revert k. induction ls as [|l ls IH]; intros k H; cbn [concat]; [constructor|]. destruct (H 0%nat l eq_refl) as [Hd Hf].
  apply NoDup_app. split; [done|]. split.
  - intros n Hn Hn'. apply list_elem_of_In, in_concat in Hn' as (l' & Hl' & Hn'). apply list_elem_of_In, list_elem_of_lookup in Hl' as [b Hb].
    destruct (H (S b) l' Hb) as [_ Hf']. apply list_elem_of_In in Hn'. specialize (Hf' n Hn'). rewrite (Hf n Hn) in Hf'. lia.
  - apply (IH (S k)). intros b l' Hb. destruct (H (S b) l' Hb) as [Hd' Hf']. split; [done|]. intros n Hn. rewrite (Hf' n Hn). lia.
Qed.

Lemma tried_ids am : am_ok None am → NoDup (concat (vvTried am)) ∧
  ∀ n, n ∈ concat (vvTried am) ↔ ∃ i, mapInfo am !! n = Some i ∧ fInTried i = true.
Proof.
  intros H. destruct (am_shape _ _ H) as [H0 H1 H2 H3 H4 H5 H6 H7 H8]. split.
  - apply (NoDup_concat_buckets _ (λ n, match mapInfo am !! n with Some i => GetTriedBucket (nKey am) i | None => 0%nat end) 0).
    intros b l Hb. split; [by eapply H4|]. intros n Hn. apply (H5 _ _ _ Hb) in Hn as (a & Ha & Hba). apply views_inv in Ha as (i & -> & Ev).
    injection Ev as -> _. done.
  - intros n. rewrite list_elem_of_In, in_concat. split.
    + intros (l & Hl & Hn). apply list_elem_of_In, list_elem_of_lookup in Hl as [b Hb]. apply list_elem_of_In in Hn.
      apply (H5 _ _ _ Hb) in Hn as (a & Ha & _). apply views_inv in Ha as (i & E & Ev). injection Ev as -> Ft. eauto.
    + intros (i & E & Ft). destruct (lookup_lt_is_Some_2 (vvTried am) (GetTriedBucket (nKey am) i)) as [l Hl]; [rewrite H3; apply tried_bucket_lt|].
      exists l. split; [apply list_elem_of_In; by eapply list_elem_of_lookup_2|]. apply list_elem_of_In. apply (H5 _ _ _ Hl). exists (ai_service i).
      rewrite (views_Some _ _ _ E). unfold view. by rewrite Ft.
Qed.

Lemma random_dom am : am_ok None am → NoDup (vRandom am) ∧ dom (mapInfo am) = list_to_set (C := gset Z) (vRandom am).
Proof.
  intros H. assert (R := am_random _ _ H). split.
  - apply NoDup_alt. intros j k n Hj Hk. by eapply random_inj.
  - apply set_eq. intros n. rewrite elem_of_dom, elem_of_list_to_set. split.
    + intros [i E]. destruct (rnd_pos _ _ R _ _ E) as [_ V]. by eapply list_elem_of_lookup_2.
    + intros [k Hk]%list_elem_of_lookup. destruct (rnd_id _ _ R _ _ Hk) as (i & E & _). by exists i.
Qed.

Lemma Check_ok am : am_ok None am → Check_ am = 0.
Proof.
  intros H. unfold Check_. rewrite (am_count _ _ H), Z.eqb_refl. cbn [negb].
  destruct (check_infos_ok am (entries (mapInfo am)) ∅ ∅ H) as (st & mn & -> & Hst & Hmn); [intros; by apply elem_of_entries|].
  setoid_rewrite elem_of_entries in Hst. setoid_rewrite elem_of_entries in Hmn. setoid_rewrite lookup_empty in Hmn.
  destruct (tried_ids am H) as [Hnd Hids]. destruct (random_dom am H) as [Hrd Hdom].
  assert (Est : st = list_to_set (concat (vvTried am))).
  { apply set_eq. intros n. rewrite Hst, elem_of_list_to_set, Hids. set_solver. }
  assert (Sst : Z.of_nat (size st) = nTried am) by (rewrite Est, size_list_to_set by done; by rewrite (am_tried _ _ H)).
  rewrite Sst, Z.eqb_refl. cbn [negb].
  assert (Emn : dom mn = dom (mapInfo am) ∖ st).
  { apply set_eq. intros n. rewrite elem_of_difference, !elem_of_dom, Hst. split.
    - intros [c Hc]. apply Hmn in Hc as [(i & E & Ft & _)|[? _]]; [|done]. split; [by exists i|]. intros [?|(j & Ej & Fj)]; [set_solver|congruence].
    - intros [[i E] Hno]. exists (nRefCount i). apply Hmn. left. exists i. split; [done|]. split; [|done].
      destruct (fInTried i) eqn:Ft; [|done]. exfalso. apply Hno. right. by exists i. }
  assert (Smn : Z.of_nat (size mn) = nNew am).
  { rewrite <- size_dom, Emn, size_difference.
    - assert (size st <= size (dom (mapInfo am)))%nat by (apply subseteq_size; intros n; rewrite Hst, elem_of_dom; intros [?|(i & E & _)]; [set_solver|by exists i]).
      rewrite Nat2Z.inj_sub by done. rewrite Sst, Hdom, size_list_to_set by done. assert (Hc := am_count _ _ H). lia.
    - intros n. rewrite Hst, elem_of_dom. intros [?|(i & E & _)]; [set_solver|by exists i]. }
  rewrite Smn, Z.eqb_refl. cbn [negb]. rewrite check_tried_ok; [|done|intros n; rewrite Est, elem_of_list_to_set; done].
  rewrite check_new_ok; [done|]. intros n. rewrite occ_buckets. apply option_eq. intros c. rewrite Hmn. split.
  - intros [(i & E & Ft & <-)|[? _]]; [|done]. destruct (am_entries _ _ H _ _ E) as [P _]. unfold place_ok in P. rewrite Ft in P.
    rewrite one_if_False in P by done. rewrite (proj2 (Z.eqb_neq (refs n (vvNew am)) 0)) by lia. f_equal. lia.
  - destruct (Z.eqb_spec (refs n (vvNew am)) 0) as [|Hne]; [done|]. intros [= <-]. left.
    destruct (refs_bucket n (vvNew am) Hne) as (b & s & Hb & Hn). destruct (s_new _ _ _ _ _ _ (am_shape _ _ H) _ _ _ Hb Hn) as [a Ha].
    apply views_inv in Ha as (i & E & Ev). injection Ev as -> Ft. exists i. split; [done|]. split; [done|].
    destruct (am_entries _ _ H _ _ E) as [P _]. unfold place_ok in P. rewrite <- Ft in P. rewrite one_if_False in P by done. lia.
Qed.

(** *** Giving out addresses *)

Lemma set_random_ok pend am m v : am_ok pend am → random_ok m v → moved (mapInfo am) m → length v = length (vRandom am) →
  am_ok pend (set_random m v am).
Proof.
  intros [H1 H2 H3 H4 H5] R M L. constructor; cbn; try done; [| |by rewrite L].
  - eapply shape_views; [|exact H1]. intros n. by apply moved_views.
  - by eapply moved_entries.
Qed.
Lemma moved_trans m1 m2 m3 : moved m1 m2 → moved m2 m3 → moved m1 m3.
Proof. intros H1 H2 n. by rewrite H2, H1. Qed.

Lemma getaddr_loop_ok rnd k n am : am_ok None am → (n + k <= length (vRandom am))%nat → (∀ k n, (0 < n)%nat → (rnd k n < n)%nat) →
  ∃ l am', getaddr_loop rnd k n am = Some (l, am') ∧ am_ok None am' ∧ moved (mapInfo am) (mapInfo am') ∧ nKey am' = nKey am ∧
    (∀ x, (x < n)%nat → vRandom am' !! x = vRandom am !! x) ∧ length l = k ∧
    ∀ j a, l !! j = Some a → ∃ id i, vRandom am' !! (n + j)%nat = Some id ∧ mapInfo am' !! id = Some i ∧ ai_addr i = a.
Proof.
  intros H Hk Hr. revert n am H Hk. induction k as [|k IH]; intros n am H Hk; cbn [getaddr_loop].
  { exists [], am. split_and!; try done. }
  assert (H0 := Hr n (length (vRandom am) - n)%nat ltac:(lia)). set (q := (rnd n (length (vRandom am) - n) + n)%nat) in *.
  destruct (SwapRandom_ok am n q (am_random _ _ H)) as (m & v & -> & R & M & L & V1 & V2 & V3); [lia..|]. cbn [mbind option_bind].
  assert (H1 := set_random_ok _ _ _ _ H R M L). cbn [vRandom mapInfo set_random].
  destruct (lookup_lt_is_Some_2 v n) as [id Hid]; [lia|]. rewrite Hid. cbn [mbind option_bind].
  destruct (rnd_id _ _ R _ _ Hid) as (i & Ei & _). rewrite Ei. cbn [mbind option_bind].
  destruct (IH (S n) (set_random m v am) H1) as (l & am' & -> & H2 & M2 & K2 & P2 & L2 & A2); [cbn; lia|]. cbn [mbind option_bind].
  exists (ai_addr i :: l), am'. split; [done|]. split; [done|]. split; [by eapply moved_trans|]. split; [done|]. split; [|split; [by cbn; f_equal|]].
  - intros x Hx. rewrite P2 by lia. cbn. apply V3; lia.
  - intros [|j] a Hj.
    + injection Hj as <-. rewrite Nat.add_0_r. destruct (moved_inv _ _ _ _ M2 Ei) as [p Ep]. exists id, (set_pos p i).
      split; [|by split]. rewrite P2 by lia. done.
    + destruct (A2 j a Hj) as (id' & i' & E1 & E2 & E3). exists id', i'. by rewrite <- Nat.add_succ_comm.
Qed.

(** The number of addresses given out *)
Definition getaddr_count (am : CAddrMan) : nat := Nat.min ADDRMAN_GETADDR_MAX (ADDRMAN_GETADDR_MAX_PCT * length (vRandom am) / 100).

Lemma GetAddr_ok rnd am : am_ok None am → (∀ k n, (0 < n)%nat → (rnd k n < n)%nat) →
  ∃ l am', GetAddr_ rnd am = Some (l, am') ∧ am_ok None am' ∧ nKey am' = nKey am ∧ length l = getaddr_count am ∧
    NoDup ((λ a, sv_ip (ad_service a)) <$> l) ∧ ∀ a, a ∈ l → ∃ n i, mapInfo am !! n = Some i ∧ ai_addr i = a.
Proof.
  intros H Hr. unfold GetAddr_.
  set (nNodes := if (ADDRMAN_GETADDR_MAX <? ADDRMAN_GETADDR_MAX_PCT * length (vRandom am) / 100)%nat then ADDRMAN_GETADDR_MAX
    else (ADDRMAN_GETADDR_MAX_PCT * length (vRandom am) / 100)%nat). change (getaddr_loop rnd _ 0 am) with (getaddr_loop rnd nNodes 0 am).
  assert (En : nNodes = getaddr_count am).
  { unfold nNodes, getaddr_count. destruct (Nat.ltb_spec ADDRMAN_GETADDR_MAX (ADDRMAN_GETADDR_MAX_PCT * length (vRandom am) / 100)); lia. }
  assert (Hle : (getaddr_count am <= length (vRandom am))%nat).
  { unfold getaddr_count, ADDRMAN_GETADDR_MAX_PCT. assert (23 * length (vRandom am) / 100 <= length (vRandom am))%nat; [|lia].
    apply Nat.Div0.div_le_upper_bound. lia. }
  rewrite En. destruct (getaddr_loop_ok rnd (getaddr_count am) 0 am H Hle Hr) as (l & am' & -> & H' & M & K & _ & L & A).
  exists l, am'. split; [done|]. split; [done|]. split; [done|]. split; [done|]. split.
  - apply NoDup_alt. intros j k ip Hj Hk.
    apply list_lookup_fmap_Some in Hj as (a & -> & Ha). apply list_lookup_fmap_Some in Hk as (b & Eip & Hb).
    destruct (A _ _ Ha) as (id & i & V1 & E1 & <-). destruct (A _ _ Hb) as (id' & i' & V2 & E2 & <-).
    assert (S := s_addr _ _ _ _ _ _ (am_shape _ _ H')). assert (mapAddr am' !! ai_ip i = Some id) by (apply S; rewrite (views_Some _ _ _ E1); by eexists).
    assert (mapAddr am' !! ai_ip i' = Some id') by (apply S; rewrite (views_Some _ _ _ E2); by eexists).
    assert (id = id') as <- by (change (ai_ip i = ai_ip i') in Eip; congruence). by eapply random_inj; [apply (am_random _ _ H')| |].
  - intros a [j Hj]%list_elem_of_lookup. destruct (A _ _ Hj) as (id & i & _ & E & <-). destruct (moved_inv _ _ _ _ (moved_sym _ _ M) E) as [p Ep].
    exists id, (set_pos p i). done.
Qed.

Definition known (am : CAddrMan) (a : CAddress) : Prop := ∃ n i, mapInfo am !! n = Some i ∧ ai_addr i = a.

Lemma select_tried_ok fuel rnd accept t am : am_ok None am → (∀ k n, (0 < n)%nat → (rnd k n < n)%nat) →
  ∃ r, select_tried fuel rnd accept t am = Some r ∧ ∀ a, r = Some a → known am a.
Proof.
  intros H Hr. revert t. induction fuel as [|fuel IH]; intros t; cbn [select_tried]; [by exists None|]. destruct (am_shape _ _ H) as [H0 H1 H2 H3 H4 H5 H6 H7 H8].
  destruct (lookup_lt_is_Some_2 (vvTried am) (rnd (2 * t)%nat (length (vvTried am)))) as [l Hl]; [apply Hr; rewrite H3; vm_compute; lia|].
  rewrite Hl. cbn [mbind option_bind]. destruct (Nat.eqb_spec (length l) 0) as [|Hne]; [apply IH|].
  destruct (lookup_lt_is_Some_2 l (rnd (2 * t + 1)%nat (length l))) as [n Hn]; [apply Hr; lia|]. rewrite Hn. cbn [mbind option_bind].
  apply list_elem_of_lookup_2 in Hn. apply (H5 _ _ _ Hl) in Hn as (a & Ha & _). apply views_inv in Ha as (i & E & _). rewrite E. cbn [mbind option_bind].
  destruct (accept t i); [|apply IH]. eexists. split; [done|]. intros b [= <-]. by exists n, i.
Qed.
Lemma select_new_ok fuel rnd accept t am : am_ok None am → (∀ k n, (0 < n)%nat → (rnd k n < n)%nat) →
  ∃ r, select_new fuel rnd accept t am = Some r ∧ ∀ a, r = Some a → known am a.
Proof.
  intros H Hr. revert t. induction fuel as [|fuel IH]; intros t; cbn [select_new]; [by exists None|]. destruct (am_shape _ _ H) as [H0 H1 H2 H3 H4 H5 H6 H7 H8].
  destruct (lookup_lt_is_Some_2 (vvNew am) (rnd (2 * t)%nat (length (vvNew am)))) as [s Hs]; [apply Hr; rewrite H6; vm_compute; lia|].
  rewrite Hs. cbn [mbind option_bind]. destruct (Nat.eqb_spec (size s) 0) as [|Hne]; [apply IH|].
  destruct (lookup_lt_is_Some_2 (in_order s) (rnd (2 * t + 1)%nat (size s))) as [n Hn]; [rewrite length_in_order; apply Hr; lia|].
  rewrite Hn. cbn [mbind option_bind]. apply list_elem_of_lookup_2, elem_of_in_order in Hn. destruct (H8 _ _ _ Hs Hn) as [a Ha].
  apply views_inv in Ha as (i & E & _). rewrite E. cbn [mbind option_bind].
  destruct (accept t i); [|apply IH]. eexists. split; [done|]. intros b [= <-]. by exists n, i.
Qed.
Lemma Select_ok fuel rnd use_tried accept am : am_ok None am → (∀ k n, (0 < n)%nat → (rnd k n < n)%nat) →
  ∃ r, Select_ fuel rnd use_tried accept am = Some r ∧ ∀ a, r = Some a → known am a ∨ (vRandom am = [] ∧ a = CAddress_default).
Proof.
  intros H Hr. unfold Select_. destruct (Nat.eqb_spec (length (vRandom am)) 0) as [E|].
  { eexists. split; [done|]. intros a [= <-]. right. by apply nil_length_inv in E. }
  destruct use_tried.
  - destruct (select_tried_ok fuel rnd accept 0 am H Hr) as (r & -> & K). exists r. split; [done|]. intros. left. auto.
  - destruct (select_new_ok fuel rnd accept 0 am H Hr) as (r & -> & K). exists r. split; [done|]. intros. left. auto.
Qed.

(** *** Bounds *)

Lemma length_concat_le {A} (ls : list (list A)) k : Forall (λ l, (length l <= k)%nat) ls → (length (concat ls) <= length ls * k)%nat.
Proof. induction 1 as [|l ls Hl Hls IH]; [done|]. cbn [concat]. rewrite length_app. cbn. lia. Qed.

Lemma size_bound am : am_ok None am → (length (vRandom am) <= 64 * 64 + 256 * 64)%nat.
Proof.
  intros H. destruct (am_shape _ _ H) as [H0 H1 H2 H3 H4 H5 H6 H7 H8]. destruct (random_dom am H) as [Hnd Hdom].
  assert (Hsub : vRandom am ⊆+ concat (vvTried am) ++ concat (map in_order (vvNew am))).
  { apply NoDup_submseteq; [done|]. intros n Hn. assert (Hd : n ∈ dom (mapInfo am)) by (rewrite Hdom; by apply elem_of_list_to_set).
    apply elem_of_dom in Hd as [i E]. apply elem_of_app. destruct (fInTried i) eqn:Ft; [left; apply (tried_ids am H); by exists i|right].
    destruct (am_entries _ _ H _ _ E) as [P _]. unfold place_ok in P. rewrite Ft in P. rewrite one_if_False in P by done.
    destruct (refs_bucket n (vvNew am)) as (b & s & Hb & Hs); [lia|]. apply list_elem_of_In, in_concat. exists (in_order s).
    split; [|apply list_elem_of_In; by apply elem_of_in_order]. apply in_map, list_elem_of_In. by eapply list_elem_of_lookup_2. }
  apply submseteq_length in Hsub. rewrite length_app in Hsub.
  assert (L1 := length_concat_le (vvTried am) 64). assert (L2 := length_concat_le (map in_order (vvNew am)) 64). rewrite length_map, H6 in L2. rewrite H3 in L1.
  unfold ADDRMAN_TRIED_BUCKET_COUNT, ADDRMAN_NEW_BUCKET_COUNT in *. etrans; [exact Hsub|]. apply Nat.add_le_mono; [apply L1|apply L2].
  - apply Forall_lookup. intros b l Hb. by eapply H4.
  - apply Forall_map, Forall_lookup. intros b s Hb. rewrite length_in_order. by eapply H7.
Qed.

(** ** Reachable managers *)

Definition draws_ok (rnd : nat → nat → nat) : Prop := ∀ k n, (0 < n)%nat → (rnd k n < n)%nat.

(** The public operations; ids are assumed not to run out *)
Inductive am_step (am : CAddrMan) : CAddrMan → Prop :=
  | step_add nNow rnd addr source nTimePenalty fNew am' : draws_ok rnd → nIdCount am < 2 ^ 31 - 1 →
      Add_ nNow rnd addr source nTimePenalty am = Some (fNew, am') → am_step am am'
  | step_good rnd addr nTime am' : draws_ok rnd → 0 < nTime → Good_ rnd addr nTime am = Some am' → am_step am am'
  | step_attempt addr nTime : 0 <= nTime → am_step am (Attempt_ addr nTime am)
  | step_connected addr nTime : am_step am (Connected_ addr nTime am)
  | step_getaddr rnd vAddr am' : draws_ok rnd → GetAddr_ rnd am = Some (vAddr, am') → am_step am am'.
Definition am_reachable (key : list Z) (am : CAddrMan) : Prop := rtc am_step (CAddrMan_new key) am.

Lemma new_ok key : am_ok None (CAddrMan_new key).
Proof.
  assert (Ht : ∀ b l, replicate ADDRMAN_TRIED_BUCKET_COUNT [] !! b = Some l → l = ([] : list Z)) by (intros b l Hb; by apply lookup_replicate in Hb as [-> _]).
  assert (Hn : ∀ b s, replicate ADDRMAN_NEW_BUCKET_COUNT ∅ !! b = Some s → s = (∅ : gset Z)) by (intros b s Hb; by apply lookup_replicate in Hb as [-> _]).
  constructor; cbn -[replicate]; try done.
  - constructor; try done.
    + intros ip n. rewrite lookup_empty. split; [done|]. by intros (v & Hv & _).
    + intros b l ->%Ht. split; [vm_compute; lia|constructor].
    + intros b l n ->%Ht. split; [by intros ?%not_elem_of_nil|]. by intros (a & Ha & _).
    + intros b s ->%Hn. rewrite size_empty. lia.
    + intros b s n ->%Hn. set_solver.
Qed.

Lemma am_step_ok am am' : am_step am am' → am_ok None am → am_ok None am' ∧ nKey am' = nKey am.
Proof.
  intros S H. destruct S as [nNow rnd addr source p fNew am' Hr _ E|rnd addr t am' Hr Ht E|addr t Ht|addr t|rnd l am' Hr E].
  - destruct (Add_ok nNow rnd addr source p am H Hr) as (f & am1 & E' & H' & K & _). rewrite E in E'. by injection E' as <- <-.
  - destruct (Good_ok rnd addr t am H Ht Hr) as (am1 & E' & H' & K & _). rewrite E in E'. by injection E' as <-.
  - split; [by apply Attempt_ok|]. unfold Attempt_. destruct (am_Find _ _) as [[]|]; [|done]. by destruct (service_eq _ _).
  - split; [by apply Connected_ok|]. unfold Connected_. destruct (am_Find _ _) as [[]|]; [|done]. destruct (service_eq _ _); [|done]. by destruct (_ >? _).
  - destruct (GetAddr_ok rnd am H Hr) as (l' & am1 & E' & H' & K & _). rewrite E in E'. by injection E' as <- <-.
Qed.
Lemma reachable_am_ok key am : am_reachable key am → am_ok None am ∧ nKey am = key.
Proof.
  intros H. unfold am_reachable in H. remember (CAddrMan_new key) as am0 eqn:E0. assert (H0 : am_ok None am0 ∧ nKey am0 = key) by (subst; split; [apply new_ok|done]).
  clear E0. induction H as [am0|am0 am1 am2 S _ IH]; [done|]. apply IH. destruct H0 as [H0 K0]. destruct (am_step_ok _ _ S H0) as [H1 K1]. split; [done|congruence].
Qed.

(** ** Properties *)

(** C32. The tables stay consistent: in every state the operations reach, the
    consistency check of the code reports no error, no operation fails an
    assertion or reads outside a table, no bucket exceeds its size, and the
    manager holds at most 20480 addresses. *)
Theorem addrman_consistent key am : am_reachable key am →
  Check_ am = 0 ∧
  (∀ nNow rnd addr source nTimePenalty, draws_ok rnd → Add_ nNow rnd addr source nTimePenalty am ≠ None) ∧
  (∀ rnd addr nTime, draws_ok rnd → 0 < nTime → Good_ rnd addr nTime am ≠ None) ∧
  (∀ rnd, draws_ok rnd → GetAddr_ rnd am ≠ None) ∧
  (∀ fuel rnd use_tried accept, draws_ok rnd → Select_ fuel rnd use_tried accept am ≠ None) ∧
  Forall (λ l, (length l <= ADDRMAN_TRIED_BUCKET_SIZE)%nat) (vvTried am) ∧
  Forall (λ s, (size s <= ADDRMAN_NEW_BUCKET_SIZE)%nat) (vvNew am) ∧ (length (vRandom am) <= 64 * 64 + 256 * 64)%nat.
Proof.
  intros [H _]%reachable_am_ok. split; [by apply Check_ok|]. split_and!.
  - intros nNow rnd addr source p Hr. by destruct (Add_ok nNow rnd addr source p am H Hr) as (? & ? & -> & _).
  - intros rnd addr t Hr Ht. by destruct (Good_ok rnd addr t am H Ht Hr) as (? & -> & _).
  - intros rnd Hr. by destruct (GetAddr_ok rnd am H Hr) as (? & ? & -> & _).
  - intros fuel rnd u accept Hr. by destruct (Select_ok fuel rnd u accept am H Hr) as (? & -> & _).
  - apply Forall_lookup. intros b l Hb. by eapply (s_tried_size _ _ _ _ _ _ (am_shape _ _ H)).
  - apply Forall_lookup. intros b s Hb. by eapply (s_new_size _ _ _ _ _ _ (am_shape _ _ H)).
  - by apply (size_bound am).
Qed.

(** What the operations achieve: adding a routable address makes it known and
    reports whether it was new; marking a known service good puts it in the tried
    bucket of its address; the addresses given out are distinct known ones, as
    many as 23 percent of the table up to 2500; and an address selected for a
    connection is a known one, or the default when there is none. *)
Theorem addrman_service key am nNow rnd addr source nTimePenalty service nTime fuel use_tried accept :
  am_reachable key am → draws_ok rnd → 0 < nTime → IsRoutable (sv_ip (ad_service addr)) = true →
  (∃ fNew am', Add_ nNow rnd addr source nTimePenalty am = Some (fNew, am') ∧
     (fNew = true ↔ am_Find (sv_ip (ad_service addr)) am = None) ∧ ∃ n i, am_Find (sv_ip (ad_service addr)) am' = Some (n, i)) ∧
  (∃ am', Good_ rnd service nTime am = Some am' ∧
     ∀ n i, am_Find (sv_ip service) am = Some (n, i) → service_eq (ai_service i) service = true →
       ∃ l, vvTried am' !! GetTriedBucket key i = Some l ∧ n ∈ l) ∧
  (∃ vAddr am', GetAddr_ rnd am = Some (vAddr, am') ∧ length vAddr = getaddr_count am ∧
     NoDup ((λ a, sv_ip (ad_service a)) <$> vAddr) ∧ Forall (known am) vAddr) ∧
  (∃ r, Select_ fuel rnd use_tried accept am = Some r ∧ ∀ a, r = Some a → known am a ∨ (vRandom am = [] ∧ a = CAddress_default)).
Proof.
  intros [H Hkey]%reachable_am_ok Hr Ht Hroute. split; [|split; [|split]].
  - destruct (Add_ok nNow rnd addr source nTimePenalty am H Hr) as (f & am' & E & _ & _ & F). exists f, am'. split; [done|by apply F].
  - destruct (Good_ok rnd service nTime am H Ht Hr) as (am' & E & H' & K & G). exists am'. split; [done|]. intros n i Ef Es.
    destruct (G n i Ef Es) as (i' & E' & Ft & Es'). destruct (am_shape _ _ H') as [H0 H1 H2 H3 H4 H5 H6 H7 H8].
    destruct (lookup_lt_is_Some_2 (vvTried am') (GetTriedBucket key i)) as [l Hl]; [rewrite H3; apply tried_bucket_lt|].
    exists l. split; [done|]. apply (H5 _ _ _ Hl). exists (ai_service i'). rewrite (views_Some _ _ _ E'). unfold view. rewrite Ft. split; [done|].
    rewrite Es', K, Hkey. done.
  - destruct (GetAddr_ok rnd am H Hr) as (l & am' & E & _ & _ & L & D & A). exists l, am'. split; [done|]. split; [done|]. split; [done|].
    apply Forall_forall. exact A.
  - by apply Select_ok.
Qed.
End Invariant.

(** [SelectTried] records where the entry came from, not where it was swapped to:
    of two entries the one at the returned position succeeded later. *)
Definition sample_entry (t : Z) : CAddrInfo := mkInfo CAddress_default [] t t 0 0 true 0.
Example SelectTried_not_oldest :
  select_loop (<[1 := sample_entry 10]> (<[2 := sample_entry 5]> ∅)) (λ _ n, n - 1)%nat ADDRMAN_TRIED_ENTRIES_INSPECT_ON_EVICT 0 [1; 2] (-1) (-1) =
  Some ([2; 1], 1).
Proof. vm_compute. reflexivity. Qed.

(** ** A manager with one address, tried *)

#[local] Existing Instances sample_digests sample_digests_ok.

Definition sample_draw (k n : nat) : nat := k mod n.
Lemma sample_draw_ok : draws_ok sample_draw.
Proof. intros k n Hn. apply Nat.mod_upper_bound. lia. Qed.
Definition sample_address : CAddress := mkAddress (mkService (CNetAddr_in [8; 8; 4; 4]) 7777) 1 1400000000.
Definition sample_added : CAddrMan :=
  match Add_ 1400000100 sample_draw sample_address (CNetAddr_in [9; 9; 9; 9]) 0 (CAddrMan_new [7]) with
  | Some (_, am) => am
  | None => CAddrMan_new []
  end.
Definition sample_man : CAddrMan :=
  match Good_ sample_draw (ad_service sample_address) 1400000200 sample_added with Some am => am | None => CAddrMan_new [] end.
Lemma sample_steps : am_reachable [7] sample_man.
Proof.
  eapply rtc_l; [apply (step_add _ 1400000100 sample_draw sample_address (CNetAddr_in [9; 9; 9; 9]) 0 true sample_added); [exact sample_draw_ok|done|]|].
  { vm_compute. reflexivity. }
  eapply rtc_once. apply (step_good _ sample_draw (ad_service sample_address) 1400000200); [exact sample_draw_ok|done|]. vm_compute. reflexivity.
Qed.

Lemma addrman_consistent_witness : Check_ sample_man = 0 ∧ (length (vRandom sample_man) <= 64 * 64 + 256 * 64)%nat.
Proof. destruct (addrman_consistent [7] sample_man sample_steps) as (H1 & _ & _ & _ & _ & _ & _ & H2). split; [exact H1|exact H2]. Defined.

Lemma addrman_service_witness :
  ∃ fNew am', Add_ 1400000300 sample_draw sample_address (CNetAddr_in [9; 9; 9; 9]) 0 sample_man = Some (fNew, am') ∧
     (fNew = true ↔ am_Find (CNetAddr_in [8; 8; 4; 4]) sample_man = None) ∧ ∃ n i, am_Find (CNetAddr_in [8; 8; 4; 4]) am' = Some (n, i).
Proof.
  apply (addrman_service [7] sample_man 1400000300 sample_draw sample_address (CNetAddr_in [9; 9; 9; 9]) 0 (ad_service sample_address) 1400000400
    5 true (λ _ _, true) sample_steps sample_draw_ok); [lia|reflexivity].
Defined.
