(* ===== verification/BlockIndex.v ===== *)
(** * The tree of block indexes (src/main.h)

    [mapBlockIndex] holds a [CBlockIndex] for every accepted block.  The objects
    point to each other; a pointer is the hash under which the object is filed.
    [pprev] leads to the parent, [pnext] forward along the best chain.  The file
    has the index object, its flags, the walks along [pprev], the switch of
    [pnext] links that [Reorganize] makes, and [CBlockLocator]. *)

From stdpp Require Import base list numbers option gmap.
From Stdlib Require Import ZArith Lia.
From S2P Require Import Prelude Uint256 Bignum Serialize Tx Script Interp SigCheck Chain Utxo ScriptStd Mempool Block.

Open Scope Z_scope.

(** ** The index object

    [nd_index] are the fields the chain arithmetic of [Chain] reads;
    [*phashBlock] is the key. *)

Record Node := mkNode {
  nd_index : CBlockIndex;
  nd_pprev : option base_uint;
  nd_pnext : option base_uint;
  nd_nMint : Z;
  nd_nMoneySupply : Z;
  nd_nStakeModifier : Z;
  nd_nStakeModifierChecksum : Z;
  nd_prevoutStake : COutPoint;
  nd_nStakeTime : Z;
  nd_hashProofOfStake : base_uint;
  nd_hashMerkleRoot : base_uint;
  nd_nNonce : Z
}.
Abbreviation BlockMap := (gmap base_uint Node).
Abbreviation chain := (list (base_uint * Node)).

Definition nd_nHeight (n : Node) : Z := bi_nHeight (nd_index n).
Definition nd_nChainTrust (n : Node) : base_uint := bi_nChainTrust (nd_index n).
Definition nd_GetBlockTime (n : Node) : Z := GetBlockTime (nd_index n).
Definition nd_IsProofOfStake (n : Node) : bool := IsProofOfStake (nd_index n).

(** Assignments to the fields *)
Definition bi_with_flags (b : CBlockIndex) (f : Z) : CBlockIndex :=
  mkIndex (bi_nFile b) (bi_nBlockPos b) (bi_nHeight b) f (bi_nChainTrust b) (bi_nVersion b) (bi_nTime b) (bi_nBits b).
Definition bi_with_height (b : CBlockIndex) (h : Z) : CBlockIndex :=
  mkIndex (bi_nFile b) (bi_nBlockPos b) h (bi_nFlags b) (bi_nChainTrust b) (bi_nVersion b) (bi_nTime b) (bi_nBits b).
Definition bi_with_trust (b : CBlockIndex) (t : base_uint) : CBlockIndex :=
  mkIndex (bi_nFile b) (bi_nBlockPos b) (bi_nHeight b) (bi_nFlags b) t (bi_nVersion b) (bi_nTime b) (bi_nBits b).
Definition with_index (n : Node) (b : CBlockIndex) : Node :=
  mkNode b (nd_pprev n) (nd_pnext n) (nd_nMint n) (nd_nMoneySupply n) (nd_nStakeModifier n) (nd_nStakeModifierChecksum n)
    (nd_prevoutStake n) (nd_nStakeTime n) (nd_hashProofOfStake n) (nd_hashMerkleRoot n) (nd_nNonce n).
Definition with_pprev (n : Node) (p : option base_uint) : Node :=
  mkNode (nd_index n) p (nd_pnext n) (nd_nMint n) (nd_nMoneySupply n) (nd_nStakeModifier n) (nd_nStakeModifierChecksum n)
    (nd_prevoutStake n) (nd_nStakeTime n) (nd_hashProofOfStake n) (nd_hashMerkleRoot n) (nd_nNonce n).
Definition with_pnext (n : Node) (p : option base_uint) : Node :=
  mkNode (nd_index n) (nd_pprev n) p (nd_nMint n) (nd_nMoneySupply n) (nd_nStakeModifier n) (nd_nStakeModifierChecksum n)
    (nd_prevoutStake n) (nd_nStakeTime n) (nd_hashProofOfStake n) (nd_hashMerkleRoot n) (nd_nNonce n).
Definition with_supply (n : Node) (mint supply : Z) : Node :=
  mkNode (nd_index n) (nd_pprev n) (nd_pnext n) mint supply (nd_nStakeModifier n) (nd_nStakeModifierChecksum n)
    (nd_prevoutStake n) (nd_nStakeTime n) (nd_hashProofOfStake n) (nd_hashMerkleRoot n) (nd_nNonce n).
Definition with_modifier (n : Node) (modifier : Z) : Node :=
  mkNode (nd_index n) (nd_pprev n) (nd_pnext n) (nd_nMint n) (nd_nMoneySupply n) modifier (nd_nStakeModifierChecksum n)
    (nd_prevoutStake n) (nd_nStakeTime n) (nd_hashProofOfStake n) (nd_hashMerkleRoot n) (nd_nNonce n).
Definition with_checksum (n : Node) (c : Z) : Node :=
  mkNode (nd_index n) (nd_pprev n) (nd_pnext n) (nd_nMint n) (nd_nMoneySupply n) (nd_nStakeModifier n) c
    (nd_prevoutStake n) (nd_nStakeTime n) (nd_hashProofOfStake n) (nd_hashMerkleRoot n) (nd_nNonce n).
Definition with_proof (n : Node) (h : base_uint) : Node :=
  mkNode (nd_index n) (nd_pprev n) (nd_pnext n) (nd_nMint n) (nd_nMoneySupply n) (nd_nStakeModifier n) (nd_nStakeModifierChecksum n)
    (nd_prevoutStake n) (nd_nStakeTime n) h (nd_hashMerkleRoot n) (nd_nNonce n).

(** *** Flags *)

Definition or_flags (n : Node) (f : Z) : Node := with_index n (bi_with_flags (nd_index n) (Z.lor (bi_nFlags (nd_index n)) f)).
Definition SetProofOfStake (n : Node) : Node := or_flags n BLOCK_PROOF_OF_STAKE.
Definition nd_GetStakeEntropyBit (n : Node) : Z := Z.shiftr (Z.land (bi_nFlags (nd_index n)) BLOCK_STAKE_ENTROPY) 1.
Definition SetStakeEntropyBit (n : Node) (nEntropyBit : Z) : option Node :=
  if nEntropyBit >? 1 then None
  else Some (or_flags n (if nEntropyBit =? 0 then 0 else BLOCK_STAKE_ENTROPY)).
Definition GeneratedStakeModifier (n : Node) : bool := negb (Z.land (bi_nFlags (nd_index n)) BLOCK_STAKE_MODIFIER =? 0).
Definition SetStakeModifier (n : Node) (nModifier : Z) (fGeneratedStakeModifier : bool) : Node :=
  let n := with_modifier n nModifier in
  if fGeneratedStakeModifier then or_flags n BLOCK_STAKE_MODIFIER else n.



(** [CBlock::GetProofOfStake] *)
Definition GetProofOfStake (b : CBlock) : COutPoint * Z :=
  if blk_IsProofOfStake b then
    let tx := nth 1 (vtx b) (mkTx 0 0 [] [] 0) in (prevout (nth 0 (vin tx) CTxIn_default), nTime tx)
  else (COutPoint_SetNull, 0).

(** [CBlockIndex(nFileIn, nBlockPosIn, block)] *)
Definition CBlockIndex_new (nFileIn nBlockPosIn : Z) (b : CBlock) : Node :=
  let zero := bu_of_u64 W256 0 in
  let n p t := mkNode (mkIndex nFileIn nBlockPosIn 0 0 zero (blk_nVersion b) (blk_nTime b) (blk_nBits b)) None None 0 0 0 0 p t zero
                 (hashMerkleRoot b) (nNonce b) in
  if blk_IsProofOfStake b then
    let tx := nth 1 (vtx b) (mkTx 0 0 [] [] 0) in
    SetProofOfStake (n (prevout (nth 0 (vin tx) CTxIn_default)) (nTime tx))
  else n COutPoint_SetNull 0.

(** [GetBlockHeader]; the parent's hash is the key [pprev] points to *)
Definition GetBlockHeader (n : Node) : CBlock :=
  mkBlock (bi_nVersion (nd_index n)) (default (bu_of_u64 W256 0) (nd_pprev n)) (nd_hashMerkleRoot n) (bi_nTime (nd_index n))
    (bi_nBits (nd_index n)) (nd_nNonce n) [] [].

Definition IsInMainChain (m : BlockMap) (pindexBest : option base_uint) (h : base_uint) : bool :=
  bool_decide (is_Some (m !! h ≫= nd_pnext)) || bool_decide (Some h = pindexBest).

(** ** Walking back

    The indexes from [h] along [pprev]: heights go down by one to the first
    block, so the height bounds the walk ([ancestors_unfold]). *)

Fixpoint walk (fuel : nat) (m : BlockMap) (p : option base_uint) : chain :=
  match fuel, p with
  | S fuel, Some h =>
      match m !! h with
      | Some n => (h, n) :: walk fuel m (nd_pprev n)
      | None => []
      end
  | _, _ => []
  end.
Definition ancestors (m : BlockMap) (h : base_uint) : chain :=
  match m !! h with
  | Some n => walk (S (Z.to_nat (nd_nHeight n))) m (Some h)
  | None => []
  end.
Definition path (m : BlockMap) (h : base_uint) : list base_uint := map fst (ancestors m h).
(** The same walk as [Chain] sees it *)
Definition index_chain (c : chain) : list CBlockIndex := map (λ x, nd_index x.2) c.

(** [GetMedianTime]: five steps forward, then [GetMedianTimePast] *)
Fixpoint forward (k : nat) (m : BlockMap) (h : base_uint) : option base_uint :=
  match k with
  | O => Some h
  | S k => h ← m !! h ≫= nd_pnext; forward k m h
  end.
Definition GetMedianTime (m : BlockMap) (h : base_uint) : option Z :=
  n ← m !! h;
  match forward (nMedianTimeSpan / 2) m h with
  | None => Some (nd_GetBlockTime n)
  | Some h => Some (GetMedianTimePast (index_chain (ancestors m h)))
  end.

(** ** Switching branches: the pointer work of [Reorganize] *)

(** [while (plonger->nHeight > pfork->nHeight)]; [[]] is the null pointer *)
Fixpoint lower (height : Z) (plonger : chain) : chain :=
  match plonger with
  | [] => []
  | (h, n) :: pprev => if nd_nHeight n >? height then lower height pprev else plonger
  end.
Fixpoint find_fork (pfork plonger : chain) : option base_uint :=
  match pfork with
  | [] => None
  | (hf, nf) :: pprev =>
      if bool_decide (Some hf = fst <$> head plonger) then Some hf
      else
        match lower (nd_nHeight nf) plonger with
        | [] => None
        | ((hl, nl) :: _) as plonger => if bool_decide (hf = hl) then Some hf else find_fork pprev plonger
        end
  end.
(** [for (pindex = ...; pindex != pfork; pindex = pindex->pprev) push_back(pindex)] *)
Fixpoint until_fork (pfork : base_uint) (c : chain) : chain :=
  match c with
  | [] => []
  | (h, n) :: pprev => if bool_decide (h = pfork) then [] else (h, n) :: until_fork pfork pprev
  end.

(** [if (pindex->pprev) pindex->pprev->pnext = v] *)
Definition set_prev_next (n : Node) (v : option base_uint) (m : BlockMap) : BlockMap :=
  match nd_pprev n with
  | Some p => alter (λ n, with_pnext n v) p m
  | None => m
  end.
Definition unlink_all (vDisconnect : chain) (m : BlockMap) : BlockMap :=
  foldl (λ m '(h, n), set_prev_next n None m) m vDisconnect.
Definition link_all (vConnect : chain) (m : BlockMap) : BlockMap :=
  foldl (λ m '(h, n), set_prev_next n (Some h) m) m vConnect.

(** ** [CBlockLocator] *)

Section Locator.
(** The hash of the first block of the network *)
Variable hashGenesis : base_uint.

(** [Set]: the hashes pushed, [nStep] blocks apart *)
Fixpoint locator_loop (fuel : nat) (pindex : list base_uint) (nStep : Z) (vHave : list base_uint) : list base_uint :=
  match fuel, pindex with
  | S fuel, h :: _ =>
      let vHave := vHave ++ [h] in
      locator_loop fuel (drop (Z.to_nat nStep) pindex)
        (if (10 <? length vHave)%nat then i32 (nStep * 2) else nStep) vHave
  | _, _ => vHave
  end.
Definition Locator_Set (m : BlockMap) (pindex : option base_uint) : list base_uint :=
  let c := match pindex with Some h => path m h | None => [] end in
  locator_loop (length c) c 1 [] ++ [hashGenesis].

Definition in_main (m : BlockMap) (pindexBest : option base_uint) (h : base_uint) : bool :=
  bool_decide (is_Some (m !! h)) && IsInMainChain m pindexBest h.

Fixpoint distance_loop (m : BlockMap) (pindexBest : option base_uint) (vHave : list base_uint) (nDistance nStep : Z) : Z :=
  match vHave with
  | [] => nDistance
  | h :: vHave =>
      if in_main m pindexBest h then nDistance
      else
        let nDistance := i32 (nDistance + nStep) in
        distance_loop m pindexBest vHave nDistance (if nDistance >? 10 then i32 (nStep * 2) else nStep)
  end.
Definition GetDistanceBack (m : BlockMap) (pindexBest : option base_uint) (vHave : list base_uint) : Z :=
  distance_loop m pindexBest vHave 0 1.

Definition Locator_GetBlockIndex (m : BlockMap) (pindexBest pindexGenesisBlock : option base_uint) (vHave : list base_uint)
    : option base_uint :=
  match list_find (in_main m pindexBest) vHave with
  | Some (_, h) => Some h
  | None => pindexGenesisBlock
  end.
Definition Locator_GetBlockHash (m : BlockMap) (pindexBest : option base_uint) (vHave : list base_uint) : base_uint :=
  match list_find (in_main m pindexBest) vHave with
  | Some (_, h) => h
  | None => hashGenesis
  end.
Definition Locator_GetHeight (m : BlockMap) (pindexBest pindexGenesisBlock : option base_uint) (vHave : list base_uint) : Z :=
  match Locator_GetBlockIndex m pindexBest pindexGenesisBlock vHave ≫= (m !!.) with
  | Some n => nd_nHeight n
  | None => 0
  end.
End Locator.

(** ** The tree *)

(** Every parent is in the tree, one lower; the first block is the only one
    without a parent. *)
Record tree_ok (m : BlockMap) (genesis : base_uint) : Prop := {
  tree_height : ∀ h n, m !! h = Some n → 0 <= nd_nHeight n;
  tree_root : ∀ h n, m !! h = Some n → nd_pprev n = None → h = genesis ∧ nd_nHeight n = 0;
  tree_prev : ∀ h n p, m !! h = Some n → nd_pprev n = Some p →
    ∃ np, m !! p = Some np ∧ nd_nHeight n = nd_nHeight np + 1
}.

(** [pnext] leads from a block to its child on the way to the best block. *)
Record links_ok (m : BlockMap) (best : base_uint) : Prop := {
  best_in : is_Some (m !! best);
  next_iff : ∀ h n c, m !! h = Some n →
    nd_pnext n = Some c ↔ c ∈ path m best ∧ ∃ nc, m !! c = Some nc ∧ nd_pprev nc = Some h
}.

Section tree.
Context {m : BlockMap} {genesis : base_uint} (T : tree_ok m genesis).

Lemma ancestors_unfold h n : m !! h = Some n →
  ancestors m h = (h, n) :: match nd_pprev n with Some p => ancestors m p | None => [] end.
Proof.
  intros H. unfold ancestors at 1. rewrite H. cbn [walk]. rewrite H. f_equal.
  destruct (nd_pprev n) as [p|] eqn:Ep.
  - destruct (tree_prev _ _ T _ _ _ H Ep) as (np & Hp & Hh). unfold ancestors. rewrite Hp.
    pose proof (tree_height _ _ T _ _ Hp). rewrite Hh. replace (Z.to_nat (nd_nHeight np + 1)) with (S (Z.to_nat (nd_nHeight np))) by lia.
    done.
  - by destruct (Z.to_nat _).
Qed.

(** Induction from a block to its parent *)
Lemma tree_ind (P : base_uint → Node → Prop) :
  (∀ h n, m !! h = Some n → nd_pprev n = None → P h n) →
  (∀ h n p np, m !! h = Some n → nd_pprev n = Some p → m !! p = Some np → nd_nHeight n = nd_nHeight np + 1 → P p np → P h n) →
  ∀ h n, m !! h = Some n → P h n.
Proof.
  intros H0 HS h n H. pose proof (tree_height _ _ T _ _ H) as Hz. remember (Z.to_nat (nd_nHeight n)) as k eqn:Ek.
  revert h n H Hz Ek. induction k as [|k IH]; intros h n H Hz Ek.
  - destruct (nd_pprev n) as [p|] eqn:Ep; [|eauto]. destruct (tree_prev _ _ T _ _ _ H Ep) as (np & Hp & Hh).
    pose proof (tree_height _ _ T _ _ Hp). lia.
  - destruct (nd_pprev n) as [p|] eqn:Ep; [|eauto]. destruct (tree_prev _ _ T _ _ _ H Ep) as (np & Hp & Hh).
    pose proof (tree_height _ _ T _ _ Hp). eapply HS; eauto. apply IH; [done|done|lia].
Qed.

Lemma path_unfold h n : m !! h = Some n → path m h = h :: match nd_pprev n with Some p => path m p | None => [] end.
Proof. intros H. unfold path. rewrite (ancestors_unfold _ _ H). cbn. by destruct (nd_pprev n). Qed.

Lemma ancestors_node h n a na : m !! h = Some n → (a, na) ∈ ancestors m h → m !! a = Some na.
Proof.
  intros H. revert a na. pattern h, n. eapply tree_ind; [..|exact H]; clear h n H.
  - intros h n H Ep a na. rewrite (ancestors_unfold _ _ H), Ep, elem_of_cons, elem_of_nil. intros [[= -> ->]|[]]. done.
  - intros h n p np H Ep Hp _ IH a na. rewrite (ancestors_unfold _ _ H), Ep, elem_of_cons. intros [[= -> ->]|Ha]; auto.
Qed.

Lemma elem_of_path h n a : m !! h = Some n → a ∈ path m h → ∃ na, m !! a = Some na ∧ (a, na) ∈ ancestors m h.
Proof.
  intros H Ha. apply list_elem_of_fmap in Ha as ([a' na] & -> & Hin). exists na. split; [|done]. by eapply ancestors_node.
Qed.

(** A block's ancestors end with those of any of them. *)
Lemma ancestors_split h n a : m !! h = Some n → a ∈ path m h → ∃ l, ancestors m h = l ++ ancestors m a ∧ a ∉ map fst l.
Proof.
  intros H. pattern h, n. eapply tree_ind; [..|exact H]; clear h n H.
  - intros h n H Ep. rewrite (path_unfold _ _ H), Ep. intros ->%list_elem_of_singleton. exists []. split; [done|apply not_elem_of_nil].
  - intros h n p np H Ep Hp _ IH. rewrite (path_unfold _ _ H), Ep. destruct (decide (a = h)) as [->|Hne].
    { intros _. exists []. split; [done|apply not_elem_of_nil]. }
    intros [?|Ha]%elem_of_cons; [done|]. destruct (IH Ha) as (l & E & Hl).
    exists ((h, n) :: l). rewrite (ancestors_unfold _ _ H), Ep, E. split; [done|]. cbn. by apply not_elem_of_cons.
Qed.

Lemma path_split h n a : m !! h = Some n → a ∈ path m h → ∃ l, path m h = l ++ path m a ∧ a ∉ l.
Proof.
  intros H Ha. destruct (ancestors_split _ _ _ H Ha) as (l & E & Hl). exists (map fst l). unfold path. by rewrite E, map_app.
Qed.

Lemma path_trans h n a b : m !! h = Some n → a ∈ path m h → b ∈ path m a → b ∈ path m h.
Proof. intros H Ha Hb. destruct (path_split _ _ _ H Ha) as (l & -> & _). apply elem_of_app. by right. Qed.

(** Heights go down by one along the walk. *)
Lemma ancestors_height h n i a na : m !! h = Some n → ancestors m h !! i = Some (a, na) → nd_nHeight na = nd_nHeight n - Z.of_nat i.
Proof.
  intros H. revert i. pattern h, n. eapply tree_ind; [..|exact H]; clear h n H.
  - intros h n H Ep [|i]; rewrite (ancestors_unfold _ _ H), Ep; cbn; [intros [= -> ->]; lia|done].
  - intros h n p np H Ep Hp Hh IH [|i]; rewrite (ancestors_unfold _ _ H), Ep; cbn; [intros [= -> ->]; lia|].
    intros E. apply IH in E. lia.
Qed.

Lemma length_ancestors h n : m !! h = Some n → Z.of_nat (length (ancestors m h)) = nd_nHeight n + 1.
Proof.
  intros H. pattern h, n. eapply tree_ind; [..|exact H]; clear h n H.
  - intros h n H Ep. rewrite (ancestors_unfold _ _ H), Ep. destruct (tree_root _ _ T _ _ H Ep). cbn. lia.
  - intros h n p np H Ep Hp Hh IH. rewrite (ancestors_unfold _ _ H), Ep. cbn [length]. lia.
Qed.

(** An ancestor is determined by its height. *)
Lemma path_height_inj h n a b na nb : m !! h = Some n → a ∈ path m h → b ∈ path m h → m !! a = Some na → m !! b = Some nb →
  nd_nHeight na = nd_nHeight nb → a = b.
Proof.
  intros H Ha Hb Hna Hnb E. destruct (elem_of_path _ _ _ H Ha) as (na' & Hna' & [i Hi]%list_elem_of_lookup).
  destruct (elem_of_path _ _ _ H Hb) as (nb' & Hnb' & [j Hj]%list_elem_of_lookup). simplify_eq.
  pose proof (ancestors_height _ _ _ _ _ H Hi). pose proof (ancestors_height _ _ _ _ _ H Hj). assert (i = j) as -> by lia. congruence.
Qed.

Lemma path_height_le h n a na : m !! h = Some n → a ∈ path m h → m !! a = Some na → nd_nHeight na <= nd_nHeight n ∧ (nd_nHeight na = nd_nHeight n → a = h).
Proof.
  intros H Ha Hna. destruct (elem_of_path _ _ _ H Ha) as (na' & Hna' & [i Hi]%list_elem_of_lookup). simplify_eq.
  pose proof (ancestors_height _ _ _ _ _ H Hi) as Hh. split; [lia|]. intros E. assert (i = 0)%nat as -> by lia.
  rewrite (ancestors_unfold _ _ H) in Hi. by injection Hi.
Qed.

Lemma path_self h n : m !! h = Some n → h ∈ path m h.
Proof. intros H. rewrite (path_unfold _ _ H). by left. Qed.

Lemma NoDup_path h n : m !! h = Some n → NoDup (path m h).
Proof.
  intros H. pattern h, n. eapply tree_ind; [..|exact H]; clear h n H.
  - intros h n H Ep. rewrite (path_unfold _ _ H), Ep. apply NoDup_singleton.
  - intros h n p np H Ep Hp Hh IH. rewrite (path_unfold _ _ H), Ep. apply NoDup_cons. split; [|done].
    intros Hin. destruct (path_height_le _ _ _ _ Hp Hin H). lia.
Qed.

Lemma genesis_in_path h n : m !! h = Some n → genesis ∈ path m h.
Proof.
  intros H. pattern h, n. eapply tree_ind; [..|exact H]; clear h n H.
  - intros h n H Ep. destruct (tree_root _ _ T _ _ H Ep) as [-> _]. by eapply path_self.
  - intros h n p np H Ep Hp Hh IH. rewrite (path_unfold _ _ H), Ep. by right.
Qed.

(** The block of a given height, when there is one *)
Lemma path_at h n k : m !! h = Some n → 0 <= k <= nd_nHeight n → ∃ a na, a ∈ path m h ∧ m !! a = Some na ∧ nd_nHeight na = k.
Proof.
  intros H Hk. pose proof (length_ancestors _ _ H) as Hl.
  destruct (lookup_lt_is_Some_2 (ancestors m h) (Z.to_nat (nd_nHeight n - k))) as [[a na] Hi]; [lia|].
  exists a, na. pose proof (ancestors_height _ _ _ _ _ H Hi). apply list_elem_of_lookup_2 in Hi. split; [|split].
  - apply list_elem_of_fmap. by exists (a, na).
  - by eapply ancestors_node.
  - lia.
Qed.

(** *** The main chain *)

Lemma child_unique h n a b na nb p : m !! h = Some n → a ∈ path m h → b ∈ path m h → m !! a = Some na → m !! b = Some nb →
  nd_pprev na = Some p → nd_pprev nb = Some p → a = b.
Proof.
  intros H Ha Hb Hna Hnb Ea Eb. eapply path_height_inj; [exact H|done..|].
  destruct (tree_prev _ _ T _ _ _ Hna Ea) as (? & ? & ?). destruct (tree_prev _ _ T _ _ _ Hnb Eb) as (? & ? & ?). simplify_eq. lia.
Qed.

(** A proper ancestor has a child on the path. *)
Lemma path_child h n a : m !! h = Some n → a ∈ path m h → a ≠ h → ∃ c nc, c ∈ path m h ∧ m !! c = Some nc ∧ nd_pprev nc = Some a.
Proof.
  intros H. pattern h, n. eapply tree_ind; [..|exact H]; clear h n H.
  - intros h n H Ep. rewrite (path_unfold _ _ H), Ep. by intros ->%list_elem_of_singleton.
  - intros h n p np H Ep Hp Hh IH. rewrite (path_unfold _ _ H), Ep. intros [?|Ha]%elem_of_cons Hne; [done|].
    destruct (decide (a = p)) as [->|Hap]; [exists h, n; split; [by left|done]|].
    destruct (IH Ha Hap) as (c & nc & Hc & ?). exists c, nc. split; [by right|done].
Qed.

Lemma child_in_path h n c nc p : m !! h = Some n → c ∈ path m h → m !! c = Some nc → nd_pprev nc = Some p → p ∈ path m h.
Proof.
  intros H Hc Hnc Ep. destruct (tree_prev _ _ T _ _ _ Hnc Ep) as (np & Hp & _). eapply path_trans; [exact H|exact Hc|].
  rewrite (path_unfold _ _ Hnc), Ep. right. by eapply path_self.
Qed.

Lemma main_iff best h : links_ok m best → is_Some (m !! h) → IsInMainChain m (Some best) h = true ↔ h ∈ path m best.
Proof.
  intros [[nb Hb] Hn] [n H]. unfold IsInMainChain. rewrite H. cbn [mbind option_bind]. rewrite orb_true_iff, !bool_decide_eq_true. split.
  - intros [[c Hc]|[= ->]]; [|by eapply path_self]. apply (Hn _ _ _ H) in Hc as (Hc & nc & Hnc & Ep). by eapply child_in_path.
  - intros Hin. destruct (decide (h = best)) as [->|Hne]; [by right|left].
    destruct (path_child _ _ _ Hb Hin Hne) as (c & nc & Hc & Hnc & Ep). exists c. apply (Hn _ _ _ H). eauto.
Qed.
End tree.

(** ** The fork *)

Section fork.
Context {m : BlockMap} {genesis : base_uint} (T : tree_ok m genesis).

Lemma path_below h n a na c nc : m !! h = Some n → a ∈ path m h → c ∈ path m h → m !! a = Some na → m !! c = Some nc →
  nd_nHeight na <= nd_nHeight nc → a ∈ path m c.
Proof.
  intros H Ha Hc Hna Hnc Hle. pose proof (tree_height _ _ T _ _ Hna).
  destruct (path_at T _ _ (nd_nHeight na) Hnc) as (b & nb & Hb & Hnb & E); [lia|].
  assert (a = b) as ->; [|done]. eapply (path_height_inj T); [exact H|done|by eapply path_trans|done..].
Qed.

Lemma lower_ancestors l nl k : m !! l = Some nl → 0 <= k →
  ∃ l' nl', lower k (ancestors m l) = ancestors m l' ∧ m !! l' = Some nl' ∧ l' ∈ path m l ∧ nd_nHeight nl' = Z.min (nd_nHeight nl) k.
Proof.
  intros H Hk. pattern l, nl. eapply (tree_ind T); [..|exact H]; clear l nl H.
  - intros l n H Ep. destruct (tree_root _ _ T _ _ H Ep) as [_ Hz]. exists l, n. rewrite (ancestors_unfold T _ _ H), Ep. cbn [lower].
    destruct (Z.gtb_spec (nd_nHeight n) k); [lia|]. split; [done|]. split; [done|]. split; [by eapply path_self|lia].
  - intros l n p np H Ep Hp Hh (l' & nl' & E & Hl' & Hin & Hmin). rewrite (ancestors_unfold T _ _ H), Ep. cbn [lower].
    destruct (Z.gtb_spec (nd_nHeight n) k).
    + exists l', nl'. rewrite E. split; [done|]. split; [done|]. split; [|lia]. rewrite (path_unfold T _ _ H), Ep. by right.
    + exists l, n. rewrite (ancestors_unfold T _ _ H), Ep. split; [done|]. split; [done|]. split; [by eapply path_self|lia].
Qed.

(** The fork is the last common ancestor. *)
Definition last_common (a b f : base_uint) : Prop :=
  f ∈ path m a ∧ f ∈ path m b ∧ ∀ c, c ∈ path m a → c ∈ path m b → c ∈ path m f.

(** One turn of the search: it stops at [b], or [b] is no ancestor of [l] and the
    search goes on from the parent of [b], with [l] lowered. *)
Lemma find_fork_step b nb l nl rest : m !! b = Some nb → m !! l = Some nl →
  (find_fork ((b, nb) :: rest) (ancestors m l) = Some b ∧ b ∈ path m l) ∨
  ∃ l' nl', (b ∉ path m l) ∧ m !! l' = Some nl' ∧ l' ∈ path m l ∧ nd_nHeight nl' = Z.min (nd_nHeight nl) (nd_nHeight nb) ∧
    find_fork ((b, nb) :: rest) (ancestors m l) = find_fork rest (ancestors m l').
Proof.
  intros H Hl. pose proof (tree_height _ _ T _ _ H) as Hz.
  destruct (lower_ancestors l nl (nd_nHeight nb) Hl Hz) as (l' & nl' & E & Hl' & Hin & Hmin).
  assert (Ef : find_fork ((b, nb) :: rest) (ancestors m l) =
    if bool_decide (b = l) || bool_decide (b = l') then Some b else find_fork rest (ancestors m l')).
  { cbn [find_fork]. rewrite E, (ancestors_unfold T _ _ Hl), (ancestors_unfold T _ _ Hl').
    cbn [head fmap option_fmap option_map fst]. repeat case_bool_decide; cbn [orb]; congruence || done. }
  rewrite Ef. case_bool_decide as Hbl; [subst l; left; split; [done|by eapply path_self]|].
  case_bool_decide as Hbl'; [subst l'; by left|]. right. exists l', nl'. split; [|done]. intros Hbin. apply Hbl'.
  destruct (path_height_le T _ _ _ _ Hl Hbin H). eapply (path_height_inj T); [exact Hl|done..|lia].
Qed.

Lemma find_fork_ok b nb l nl : m !! b = Some nb → m !! l = Some nl →
  ∃ f, find_fork (ancestors m b) (ancestors m l) = Some f ∧ last_common b l f.
Proof.
  intros Hb. revert l nl. pattern b, nb. eapply (tree_ind T); [..|exact Hb]; clear b nb Hb.
  - intros b nb H Ep l nl Hl. rewrite (ancestors_unfold T _ _ H), Ep.
    destruct (find_fork_step b nb l nl [] H Hl) as [[E Hc]|(l' & _ & Hno & _)].
    + exists b. split; [done|]. split; [by eapply path_self|by split; [|intros]].
    + destruct (tree_root _ _ T _ _ H Ep) as [-> _]. destruct Hno. by eapply genesis_in_path.
  - intros b nb p np H Ep Hp Hh IH l nl Hl. rewrite (ancestors_unfold T _ _ H), Ep.
    destruct (find_fork_step b nb l nl (ancestors m p) H Hl) as [[E Hc]|(l' & nl' & Hno & Hl' & Hin & Hmin & E)].
    { exists b. split; [done|]. split; [by eapply path_self|by split; [|intros]]. }
    destruct (IH l' nl' Hl') as (f & Ef & Hf1 & Hf2 & Hf3). exists f. split; [by rewrite E|].
    split; [rewrite (path_unfold T _ _ H), Ep; by right|]. split; [by eapply (path_trans T)|].
    intros c Hcb Hcl. rewrite (path_unfold T _ _ H), Ep in Hcb. apply elem_of_cons in Hcb as [->|Hcp]; [done|].
    apply Hf3; [done|]. destruct (elem_of_path T _ _ _ Hp Hcp) as (nc & Hnc & _).
    destruct (path_height_le T _ _ _ _ Hp Hcp Hnc). destruct (path_height_le T _ _ _ _ Hl Hcl Hnc).
    eapply path_below; [exact Hl|done..|lia].
Qed.

Lemma until_fork_split h n f : m !! h = Some n → f ∈ path m h →
  ancestors m h = until_fork f (ancestors m h) ++ ancestors m f ∧ f ∉ map fst (until_fork f (ancestors m h)).
Proof.
  intros H. pattern h, n. eapply (tree_ind T); [..|exact H]; clear h n H.
  - intros h n H Ep. rewrite (path_unfold T _ _ H), Ep. intros ->%list_elem_of_singleton. rewrite (ancestors_unfold T _ _ H) at 2 4.
    cbn [until_fork]. rewrite bool_decide_true by done. split; [done|apply not_elem_of_nil].
  - intros h n p np H Ep Hp Hh IH. rewrite (path_unfold T _ _ H), Ep. rewrite (ancestors_unfold T _ _ H), Ep. cbn [until_fork].
    case_bool_decide as E.
    + intros _. subst f. rewrite (ancestors_unfold T _ _ H), Ep. split; [done|apply not_elem_of_nil].
    + intros [?|Hf]%elem_of_cons; [done|]. destruct (IH Hf) as [IH1 IH2]. split; [cbn; by f_equal|]. cbn. by apply not_elem_of_cons.
Qed.
End fork.

(** One block up from [c] towards [h] *)
Lemma until_step {m g} (T : tree_ok m g) h n c nc : m !! h = Some n → c ∈ path m h → m !! c = Some nc → c ≠ h →
  ∃ d nd, m !! d = Some nd ∧ d ∈ path m h ∧ nd_pprev nd = Some c ∧
    rev (until_fork c (ancestors m h)) = (d, nd) :: rev (until_fork d (ancestors m h)).
Proof.
  intros H Hc Hnc Hne. destruct (path_child T _ _ _ H Hc Hne) as (d & nd & Hd & Hnd & Ep). exists d, nd.
  split; [done|]. split; [done|]. split; [done|]. destruct (until_fork_split T _ _ _ H Hc) as [E1 _]. destruct (until_fork_split T _ _ _ H Hd) as [E2 _].
  rewrite (ancestors_unfold T _ _ Hnd), Ep in E2. rewrite E2 in E1 at 1.
  change ((d, nd) :: ancestors m c) with ([(d, nd)] ++ ancestors m c) in E1. rewrite app_assoc in E1. apply app_inv_tail in E1.
  by rewrite <- E1, rev_app_distr.
Qed.
Lemma until_self {m g} (T : tree_ok m g) h n : m !! h = Some n → until_fork h (ancestors m h) = [].
Proof. intros H. rewrite (ancestors_unfold T _ _ H). cbn [until_fork]. by rewrite bool_decide_true. Qed.

(** ** Relinking *)

(** Changes that leave parents and heights alone leave the walks alone. *)
Definition skel (n : Node) : option base_uint * Z := (nd_pprev n, nd_nHeight n).
Definition same_skel (m m' : BlockMap) : Prop := ∀ h, skel <$> m' !! h = skel <$> m !! h.

#[export] Instance same_skel_equiv : Equivalence same_skel.
Proof. split; [by intros m h|intros m m' E h; by rewrite E|intros m1 m2 m3 E1 E2 h; by rewrite E2, E1]. Qed.

Lemma same_skel_lookup m m' h n : same_skel m m' → m !! h = Some n →
  ∃ n', m' !! h = Some n' ∧ nd_pprev n' = nd_pprev n ∧ nd_nHeight n' = nd_nHeight n.
Proof.
  intros E H. specialize (E h). rewrite H in E. destruct (m' !! h) as [n'|]; [|done]. exists n'. split; [done|].
  injection E as E1 E2. split; [exact E1|exact E2].
Qed.

Lemma same_skel_tree m m' g : same_skel m m' → tree_ok m g → tree_ok m' g.
Proof.
  intros E T. assert (E' : same_skel m' m) by by symmetry. split.
  - intros h n H. destruct (same_skel_lookup _ _ _ _ E' H) as (n' & H' & _ & <-). by eapply tree_height.
  - intros h n H Ep. destruct (same_skel_lookup _ _ _ _ E' H) as (n' & H' & Ep' & <-). eapply (tree_root _ _ T); [done|congruence].
  - intros h n p H Ep. destruct (same_skel_lookup _ _ _ _ E' H) as (n' & H' & Ep' & <-). rewrite <- Ep' in Ep.
    destruct (tree_prev _ _ T _ _ _ H' Ep) as (np & Hp & ->). destruct (same_skel_lookup _ _ _ _ E Hp) as (np' & Hp' & _ & <-). eauto.
Qed.

Lemma same_skel_walk m m' k p : same_skel m m' → map fst (walk k m' p) = map fst (walk k m p).
Proof.
  intros E. revert p. induction k as [|k IH]; intros [h|]; try done. cbn [walk]. destruct (m !! h) as [n|] eqn:H.
  - destruct (same_skel_lookup _ _ _ _ E H) as (n' & -> & -> & _). cbn. by rewrite IH.
  - specialize (E h). rewrite H in E. by destruct (m' !! h).
Qed.

Lemma same_skel_path m m' h : same_skel m m' → path m' h = path m h.
Proof.
  intros E. unfold path, ancestors. destruct (m !! h) as [n|] eqn:H.
  - destruct (same_skel_lookup _ _ _ _ E H) as (n' & -> & _ & ->). by apply same_skel_walk.
  - specialize (E h). rewrite H in E. by destruct (m' !! h).
Qed.

Definition next_of (m : BlockMap) (h : base_uint) : option base_uint := m !! h ≫= nd_pnext.

Lemma set_prev_next_skel n v m : same_skel m (set_prev_next n v m).
Proof.
  unfold set_prev_next. destruct (nd_pprev n) as [p|]; [|done]. intros h. destruct (decide (h = p)) as [->|Hne].
  - rewrite lookup_alter_eq. by destruct (m !! p).
  - by rewrite lookup_alter_ne.
Qed.

Lemma set_prev_next_of n v m h : next_of (set_prev_next n v m) h =
  if bool_decide (nd_pprev n = Some h) then (if bool_decide (is_Some (m !! h)) then v else None) else next_of m h.
Proof.
  unfold set_prev_next, next_of. case_bool_decide as E.
  - rewrite E, lookup_alter_eq. destruct (m !! h); [by rewrite bool_decide_true by eauto|by rewrite bool_decide_false by by intros []].
  - destruct (nd_pprev n) as [p|]; [|done]. rewrite lookup_alter_ne; [done|]. congruence.
Qed.

Lemma unlink_all_skel D m : same_skel m (unlink_all D m).
Proof.
  revert m. induction D as [|[h n] D IH]; intros m; [done|]. cbn. etransitivity; [apply set_prev_next_skel|apply IH].
Qed.
Lemma link_all_skel C m : same_skel m (link_all C m).
Proof.
  revert m. induction C as [|[h n] C IH]; intros m; [done|]. cbn. etransitivity; [apply set_prev_next_skel|apply IH].
Qed.

Lemma unlink_all_of D m h :
  next_of (unlink_all D m) h = if bool_decide (Exists (λ x, nd_pprev x.2 = Some h) D) then None else next_of m h.
Proof.
  revert m. induction D as [|[d nd] D IH]; intros m; cbn [unlink_all foldl].
  { rewrite bool_decide_false; [done|]. by intros ?%Exists_nil. }
  change (foldl _ ?m D) with (unlink_all D m). rewrite IH, set_prev_next_of. cbn [snd].
  destruct (decide (Exists (λ x, nd_pprev x.2 = Some h) D)) as [HE|HE].
  { rewrite !bool_decide_true; [done|by apply Exists_cons; right|done]. }
  rewrite (bool_decide_false _ HE). destruct (decide (nd_pprev nd = Some h)) as [E|E].
  - rewrite (bool_decide_true (_ = _)) by done. rewrite (bool_decide_true (Exists _ _)) by (apply Exists_cons; by left).
    by repeat case_match.
  - rewrite (bool_decide_false (_ = _)) by done. rewrite bool_decide_false; [done|]. by intros [?|?]%Exists_cons.
Qed.

Lemma link_all_out C m h : ¬ Exists (λ x, nd_pprev x.2 = Some h) C → next_of (link_all C m) h = next_of m h.
Proof.
  revert m. induction C as [|[c nc] C IH]; intros m Hno; [done|]. cbn [link_all foldl].
  change (foldl _ ?m C) with (link_all C m). rewrite Exists_cons in Hno. rewrite IH by tauto.
  rewrite set_prev_next_of, bool_decide_false; [done|]. intros E. apply Hno. by left.
Qed.

Lemma link_all_in C m h c : Exists (λ x, nd_pprev x.2 = Some h) C → is_Some (m !! h) →
  (∀ x, x ∈ C → nd_pprev x.2 = Some h → x.1 = c) → next_of (link_all C m) h = Some c.
Proof.
  revert m. induction C as [|[d nd] C IH]; intros m Hex Hm Huniq; [by apply Exists_nil in Hex|]. cbn [link_all foldl].
  change (foldl _ ?m C) with (link_all C m). destruct (decide (Exists (λ x, nd_pprev x.2 = Some h) C)) as [HE|HE].
  - apply IH; [done| |intros; apply Huniq; [by right|done]]. destruct Hm as [x Hx].
    destruct (same_skel_lookup _ _ _ _ (set_prev_next_skel nd (Some d) m) Hx) as (? & ? & _). eauto.
  - apply Exists_cons in Hex as [E|?]; [|done]. cbn in E. rewrite link_all_out by done. rewrite set_prev_next_of, !bool_decide_true by done.
    f_equal. apply (Huniq (d, nd)); [by left|done].
Qed.

Lemma elem_of_rev {A} (x : A) l : x ∈ rev l ↔ x ∈ l.
Proof. by rewrite !list_elem_of_In, <- in_rev. Qed.
Lemma Exists_rev {A} (P : A → Prop) l : Exists P (rev l) ↔ Exists P l.
Proof. rewrite !Exists_exists. by setoid_rewrite elem_of_rev. Qed.

(** *** The switch

    After the links of the old branch are cut and those of the new one made,
    [pnext] leads to the new tip. *)

Section switch.
Context {m : BlockMap} {genesis : base_uint} (T : tree_ok m genesis) {best : base_uint} (L : links_ok m best).
Context (new : base_uint) (nn : Node) (Hnew : m !! new = Some nn) (f : base_uint) (Hf : last_common (m := m) best new f).

Let vDisconnect := until_fork f (ancestors m best).
Let vConnect := rev (until_fork f (ancestors m new)).
Let m' := link_all vConnect (unlink_all vDisconnect m).

Lemma switch_skel : same_skel m m'.
Proof. unfold m'. etransitivity; [apply unlink_all_skel|apply link_all_skel]. Qed.

(** A block of a branch above the fork *)
Lemma branch_elem h n c nc : m !! h = Some n → f ∈ path m h →
  (c, nc) ∈ until_fork f (ancestors m h) ↔ c ∈ path m h ∧ (c ∉ path m f) ∧ m !! c = Some nc.
Proof.
  intros H Hfh. destruct (until_fork_split T _ _ _ H Hfh) as [E Hnf]. assert (Hnd := NoDup_path T _ _ H).
  assert (Ep : path m h = map fst (until_fork f (ancestors m h)) ++ path m f).
  { unfold path at 1. by rewrite E, map_app at 1. }
  rewrite Ep in Hnd. apply NoDup_app in Hnd as (_ & Hdis & _). split.
  - intros Hin. assert (Hc : c ∈ map fst (until_fork f (ancestors m h))) by (apply list_elem_of_fmap; by exists (c, nc)).
    split; [rewrite Ep; apply elem_of_app; by left|]. split; [by apply Hdis|]. eapply (ancestors_node T); [exact H|]. rewrite E. apply elem_of_app. by left.
  - intros (Hc & Hno & Hnc). rewrite Ep in Hc. apply elem_of_app in Hc as [Hc|]; [|done]. apply list_elem_of_fmap in Hc as ([c' nc'] & -> & Hin).
    assert (m !! c' = Some nc'). { eapply (ancestors_node T); [exact H|]. rewrite E. apply elem_of_app. by left. } cbn in Hnc. by simplify_eq.
Qed.

Lemma branch_prev h n p : m !! h = Some n → f ∈ path m h →
  Exists (λ x, nd_pprev x.2 = Some p) (until_fork f (ancestors m h)) ↔
  ∃ c nc, c ∈ path m h ∧ (c ∉ path m f) ∧ m !! c = Some nc ∧ nd_pprev nc = Some p.
Proof.
  intros H Hfh. rewrite Exists_exists. split.
  - intros ([c nc] & Hin & E). apply (branch_elem _ _ _ _ H Hfh) in Hin as (? & ? & ?). by exists c, nc.
  - intros (c & nc & ? & ? & ? & ?). exists (c, nc). split; [|done]. by apply (branch_elem _ _ _ _ H Hfh).
Qed.

Lemma switch_links : links_ok m' new.
Proof.
  destruct L as [[nb Hb] Hn]. destruct Hf as (Hfb & Hfn & Hlast). split.
  { destruct (same_skel_lookup _ _ _ _ switch_skel Hnew) as (? & ? & _). eauto. }
  intros h n' c H'. destruct (same_skel_lookup _ _ h n' (symmetry switch_skel) H') as (n & H & Ep & _).
  rewrite (same_skel_path _ _ _ switch_skel).
  assert (Hrw : (∃ nc, m' !! c = Some nc ∧ nd_pprev nc = Some h) ↔ ∃ nc, m !! c = Some nc ∧ nd_pprev nc = Some h).
  { split; intros (nc & Hc & Hp).
    - destruct (same_skel_lookup _ _ _ _ (symmetry switch_skel) Hc) as (nc' & ? & E & _). exists nc'. by rewrite E.
    - destruct (same_skel_lookup _ _ _ _ switch_skel Hc) as (nc' & ? & E & _). exists nc'. by rewrite E. }
  rewrite Hrw. clear Hrw. assert (nd_pnext n' = next_of m' h) as -> by (unfold next_of; by rewrite H').
  unfold m'. destruct (decide (Exists (λ x, nd_pprev x.2 = Some h) (until_fork f (ancestors m new)))) as [HC|HC].
  - assert (HC' := HC). apply (branch_prev _ _ _ Hnew Hfn) in HC as (c' & nc' & Hc'p & Hc'f & Hc' & Ec').
    rewrite (link_all_in _ _ _ c').
    + split; [intros [= <-]; eauto|]. intros (Hcp & nc & Hc & Ec). f_equal. by eapply (child_unique T _ _ _ _ _ _ _ Hnew).
    + unfold vConnect. by apply Exists_rev.
    + destruct (same_skel_lookup _ _ _ _ (unlink_all_skel vDisconnect m) H) as (? & ? & _). eauto.
    + intros [d nd] Hin Ed. unfold vConnect in Hin. rewrite elem_of_rev in Hin.
      apply (branch_elem _ _ _ _ Hnew Hfn) in Hin as (? & ? & ?). by eapply (child_unique T _ _ _ _ _ _ _ Hnew).
  - rewrite link_all_out. 2: { unfold vConnect. by rewrite Exists_rev. }
    rewrite unlink_all_of. rewrite (branch_prev _ _ _ Hnew Hfn) in HC. case_bool_decide as HD.
    + unfold vDisconnect in HD. apply (branch_prev _ _ _ Hb Hfb) in HD as (d & nd & Hdp & Hdf & Hd & Ed). split; [done|].
      intros (Hcp & nc & Hc & Ec). exfalso. destruct (decide (c ∈ path m f)) as [Hcf|Hcf]; [|apply HC; eauto 10].
      apply Hdf. assert (d = c) as ->; [|done]. apply (child_unique T best nb d c nd nc h Hb); try done. by apply (path_trans T best nb f).
    + unfold next_of. rewrite H. cbn [mbind option_bind]. rewrite (Hn _ _ _ H). split; intros (Hcp & nc & Hc & Ec).
      * split; [|eauto]. destruct (decide (c ∈ path m f)) as [Hcf|Hcf]; [by eapply (path_trans T)|].
        exfalso. apply HD. unfold vDisconnect. apply (branch_prev _ _ _ Hb Hfb). eauto 10.
      * split; [|eauto]. destruct (decide (c ∈ path m f)) as [Hcf|Hcf]; [by eapply (path_trans T)|]. exfalso. apply HC. eauto 10.
Qed.
End switch.

(** ** Locators *)

(** Where the [k]-th hash of a locator is taken, and the step from there *)
Definition loc_pos (k : nat) : nat := if (k <=? 10)%nat then k else (9 + 2 ^ (k - 10))%nat.
Definition loc_step (k : nat) : nat := if (k <=? 10)%nat then 1%nat else (2 ^ (k - 10))%nat.

Lemma loc_pos_S k : loc_pos (S k) = (loc_pos k + loc_step k)%nat.
Proof.
  unfold loc_pos, loc_step. destruct (Nat.leb_spec k 10), (Nat.leb_spec (S k) 10); try lia.
  - assert (k = 10)%nat as -> by lia. done.
  - replace (S k - 10)%nat with (S (k - 10)) by lia. cbn. lia.
Qed.
Lemma loc_step_S k : (if (10 <? S k)%nat then 2 * loc_step k else loc_step k)%nat = loc_step (S k).
Proof.
  unfold loc_step. destruct (Nat.leb_spec k 10), (Nat.leb_spec (S k) 10), (Nat.ltb_spec 10 (S k)); try lia.
  - assert (k = 10)%nat as -> by lia. done.
  - replace (S k - 10)%nat with (S (k - 10)) by lia. cbn. lia.
Qed.
Lemma loc_step_pos k : (0 < loc_step k ∧ loc_step k <= Nat.max 1 (loc_pos k - 9))%nat.
Proof. unfold loc_step, loc_pos. destruct (k <=? 10)%nat; [lia|]. pose proof (Nat.pow_nonzero 2 (k - 10)). lia. Qed.
Lemma loc_pos_lt j k : (j < k)%nat → (loc_pos j < loc_pos k)%nat.
Proof. induction 1; rewrite loc_pos_S; [|pose proof (loc_step_pos m)]; pose proof (loc_step_pos j); lia. Qed.
Lemma loc_pos_le j k : (j <= k)%nat → (loc_pos j <= loc_pos k)%nat.
Proof. intros H. destruct (decide (j = k)) as [->|]; [done|]. pose proof (loc_pos_lt j k). lia. Qed.
Lemma loc_pos_ge k : (k <= loc_pos k)%nat.
Proof. induction k; [lia|]. pose proof (loc_pos_lt k (S k)). lia. Qed.

Lemma locator_loop_lookup c fuel k acc j : Z.of_nat (length c) <= 2 ^ 30 → length acc = k →
  locator_loop fuel (drop (loc_pos k) c) (Z.of_nat (loc_step k)) acc !! j =
  if (j <? k)%nat then acc !! j else if (j <? k + fuel)%nat then c !! loc_pos j else None.
Proof.
  intros Hc. revert k acc. induction fuel as [|fuel IH]; intros k acc Hk.
  { cbn [locator_loop]. destruct (Nat.ltb_spec j k); [done|]. destruct (Nat.ltb_spec j (k + 0)); [lia|]. apply lookup_ge_None. lia. }
  cbn [locator_loop]. destruct (drop (loc_pos k) c) as [|h t] eqn:Ed.
  { destruct (Nat.ltb_spec j k); [done|]. assert (length (drop (loc_pos k) c) = 0%nat) by by rewrite Ed. rewrite length_drop in *.
    rewrite (lookup_ge_None_2 acc) by lia. destruct (j <? _)%nat; [|done]. symmetry. apply lookup_ge_None.
    pose proof (loc_pos_le k j). lia. }
  assert (Hh : c !! loc_pos k = Some h). { rewrite <- (Nat.add_0_r (loc_pos k)), <- lookup_drop, Ed. done. }
  assert (Hlt := lookup_lt_Some _ _ _ Hh). destruct (loc_step_pos k) as [Hs0 Hs].
  rewrite length_app. cbn [length]. rewrite Nat2Z.id. rewrite <- Ed, drop_drop, <- loc_pos_S.
  replace (if (10 <? length acc + 1)%nat then i32 (Z.of_nat (loc_step k) * 2) else Z.of_nat (loc_step k)) with (Z.of_nat (loc_step (S k))).
  2: { rewrite <- loc_step_S, <- Hk. replace (length acc + 1)%nat with (S (length acc)) by lia. destruct (10 <? _)%nat; [|done].
       rewrite i32_small; [lia|]. subst k. lia. }
  rewrite IH by (rewrite length_app; cbn; lia). replace (S k + fuel)%nat with (k + S fuel)%nat by lia.
  destruct (Nat.ltb_spec j k), (Nat.ltb_spec j (S k)); try lia.
  - by rewrite lookup_app_l by lia.
  - assert (j = k) as -> by lia. rewrite (list_lookup_middle acc []) by done. rewrite Hh. by destruct (Nat.ltb_spec k (k + S fuel)); [|lia].
  - done.
Qed.

Section locator_facts.
Context {m : BlockMap} {h : base_uint} (g : base_uint).
Let c := path m h.
Context (Hc : Z.of_nat (length c) <= 2 ^ 30).

Lemma locator_lookup j : locator_loop (length c) c 1 [] !! j = c !! loc_pos j.
Proof.
  rewrite <- (drop_0 c) at 2. pose proof (locator_loop_lookup c (length c) 0 [] j Hc eq_refl) as E.
  change (Z.of_nat (loc_step 0)) with 1 in E. change (loc_pos 0) with 0%nat in E. rewrite E. cbn [Nat.add]. change (j <? 0)%nat with false. cbv iota.
  destruct (Nat.ltb_spec j (length c)); [done|]. symmetry. apply lookup_ge_None. pose proof (loc_pos_ge j). lia.
Qed.

Lemma locator_length : (length (locator_loop (length c) c 1 []) <= 11 + Nat.log2 (length c))%nat.
Proof.
  set (l := locator_loop _ _ _ _). destruct (Nat.le_gt_cases (length l) 11) as [|Hgt]; [lia|].
  destruct (lookup_lt_is_Some_2 l (length l - 1)) as [x Hx]; [lia|]. assert (E := locator_lookup (length l - 1)). fold l in E.
  rewrite Hx in E. symmetry in E. apply lookup_lt_Some in E. unfold loc_pos in E. destruct (Nat.leb_spec (length l - 1) 10); [lia|].
  assert (2 ^ (length l - 1 - 10) <= length c)%nat as H2 by lia. apply Nat.log2_le_mono in H2. rewrite Nat.log2_pow2 in H2; lia.
Qed.

(** The first hash of the locator that is past the depth [d] *)
Lemma locator_find (P : base_uint → bool) (d : nat) : (∀ i x, c !! i = Some x → P x = true ↔ (d <= i)%nat) →
  match list_find P (locator_loop (length c) c 1 []) with
  | Some (_, x) => ∃ k, c !! k = Some x ∧ (d <= k <= Nat.max d (2 * d - 11))%nat
  | None => True
  end.
Proof.
  intros HP. destruct (list_find _ _) as [[j x]|] eqn:Ef; [|done]. apply list_find_Some in Ef as (Hj & Hx & Hbefore).
  rewrite locator_lookup in Hj. exists (loc_pos j). split; [done|]. apply Is_true_true in Hx. apply (HP _ _ Hj) in Hx. split; [done|].
  destruct j as [|j]; [cbn; lia|]. destruct (loc_step_pos j). assert (Hlt := lookup_lt_Some _ _ _ Hj). rewrite loc_pos_S in *.
  destruct (lookup_lt_is_Some_2 c (loc_pos j)) as [y Hy]; [lia|]. assert (Hn : ¬ P y).
  { apply (Hbefore j y); [by rewrite locator_lookup|lia]. }
  destruct (Nat.le_gt_cases d (loc_pos j)) as [Hle|]; [|lia]. apply (HP _ _ Hy) in Hle. rewrite Hle in Hn. by destruct Hn.
Qed.
End locator_facts.

(** *** Two nodes *)

(** Indexes of the same block have the same parent: its hash is in the header. *)
Definition agree (m mp : BlockMap) : Prop :=
  ∀ h n np, m !! h = Some n → mp !! h = Some np → nd_pprev n = nd_pprev np.

Lemma path_drop {m g} (T : tree_ok m g) h n i a : m !! h = Some n → path m h !! i = Some a → drop i (path m h) = path m a.
Proof.
  intros H. revert i. pattern h, n. eapply (tree_ind T); [..|exact H]; clear h n H.
  - intros h n H Ep [|i]; rewrite (path_unfold T _ _ H), Ep; cbn; [|done]. intros [= <-]. by rewrite (path_unfold T _ _ H), Ep.
  - intros h n p np H Ep Hp _ IH [|i]; rewrite (path_unfold T _ _ H), Ep; cbn; [|by apply IH].
    intros [= <-]. by rewrite (path_unfold T _ _ H), Ep.
Qed.

Lemma agree_path {m mp g} (T : tree_ok m g) (Tp : tree_ok mp g) a n np : agree m mp → m !! a = Some n → mp !! a = Some np →
  path mp a = path m a.
Proof.
  intros A H. revert np. pattern a, n. eapply (tree_ind T); [..|exact H]; clear a n H.
  - intros a n H Ep np Hp. rewrite (path_unfold T _ _ H), (path_unfold Tp _ _ Hp), <- (A _ _ _ H Hp), Ep. done.
  - intros a n p np' H Ep Hp _ IH np Hnp. rewrite (path_unfold T _ _ H), (path_unfold Tp _ _ Hnp).
    assert (E := A _ _ _ H Hnp). rewrite <- E, Ep. rewrite Ep in E. symmetry in E.
    destruct (tree_prev _ _ Tp _ _ _ Hnp E) as (x & Hx & _). by rewrite (IH _ Hx).
Qed.

(** Where the other node's branch leaves the main chain *)
Lemma fork_depth {m mp g} (T : tree_ok m g) (Tp : tree_ok mp g) best tip : agree m mp → links_ok m best → is_Some (mp !! tip) →
  ∃ d, (d < length (path mp tip))%nat ∧ ∀ i x, path mp tip !! i = Some x → x ∈ path m best ↔ (d <= i)%nat.
Proof.
  intros A [[nb Hb] _] [nt Ht].
  destruct (list_find (λ x, x ∈ path m best) (path mp tip)) as [[d x]|] eqn:Ef.
  - apply list_find_Some in Ef as (Hd & Hx & Hbefore). exists d. split; [by eapply lookup_lt_Some|]. intros i y Hi. split.
    + intros Hy. destruct (Nat.le_gt_cases d i) as [|Hlt]; [done|]. by eapply Hbefore in Hi.
    + intros Hle. assert (Hin : y ∈ path mp x).
      { rewrite <- (path_drop Tp _ _ _ _ Ht Hd). apply (list_elem_of_lookup_2 _ (i - d)). rewrite lookup_drop. by replace (d + (i - d))%nat with i by lia. }
      destruct (elem_of_path T _ _ _ Hb Hx) as (nx & Hnx & _).
      destruct (elem_of_path Tp _ _ x Ht) as (nxp & Hnxp & _); [by eapply list_elem_of_lookup_2|].
      rewrite (agree_path T Tp _ _ _ A Hnx Hnxp) in Hin. by apply (path_trans T best nb x).
  - exfalso. apply list_find_None in Ef. rewrite Forall_forall in Ef. apply (Ef g); [by eapply (genesis_in_path Tp)|by eapply (genesis_in_path T)].
Qed.

(** ** Properties *)

(** A locator finds where two nodes parted: for a peer whose best block is
    [tip], the node that receives the peer's locator answers with a block of its
    own main chain that is also an ancestor of the peer's tip.  If the branches
    parted [d] blocks below the tip, that block is at most [max d (2d - 11)]
    blocks below it, or it is the first block; and the locator has at most
    [12 + log2] of the chain's length hashes. *)
Theorem locator_finds_fork m mp g best tip : tree_ok m g → tree_ok mp g → agree m mp → links_ok m best →
  is_Some (mp !! tip) → Z.of_nat (length (path mp tip)) <= 2 ^ 30 →
  let vHave := Locator_Set g mp (Some tip) in
  (length vHave <= 12 + Nat.log2 (length (path mp tip)))%nat ∧
  ∃ d, (d < length (path mp tip))%nat ∧ (∀ i x, path mp tip !! i = Some x → x ∈ path m best ↔ (d <= i)%nat) ∧
  ∃ h k, Locator_GetBlockIndex m (Some best) (Some g) vHave = Some h ∧ Locator_GetBlockHash g m (Some best) vHave = h ∧
    path mp tip !! k = Some h ∧ h ∈ path m best ∧ ((d <= k <= Nat.max d (2 * d - 11))%nat ∨ h = g).
Proof.
  intros T Tp A L Ht Hlen. cbv zeta. destruct (fork_depth T Tp best tip A L Ht) as (d & Hd & Hmono).
  unfold Locator_Set. split; [rewrite length_app; pose proof (locator_length Hlen); cbn; lia|].
  exists d. split; [done|]. split; [done|]. destruct Ht as [nt Ht].
  assert (Hmain : ∀ x, in_main m (Some best) x = true ↔ x ∈ path m best).
  { intros x. unfold in_main. rewrite andb_true_iff, bool_decide_eq_true. split; [intros [? ?]; by apply (main_iff T)|].
    intros Hx. destruct (best_in _ _ L) as [nb Hb]. destruct (elem_of_path T _ _ _ Hb Hx) as (nx & Hnx & _).
    split; [eauto|]. apply (main_iff T); eauto. }
  pose proof (locator_find Hlen (in_main m (Some best)) d) as Hfind. unfold Locator_GetBlockIndex, Locator_GetBlockHash.
  assert (Hg : g ∈ path m best). { destruct (best_in _ _ L) as [nb Hb]. by eapply (genesis_in_path T). }
  pose proof (genesis_in_path Tp _ _ Ht) as [kg Hkg]%list_elem_of_lookup.
  destruct (list_find (in_main m (Some best)) (locator_loop _ _ 1 [])) as [[j x]|] eqn:Ef.
  - rewrite (list_find_app_l _ _ _ j x) by done. destruct Hfind as (k & Hk & Hrange); [intros i y Hi; rewrite Hmain; by apply Hmono|].
    exists x, k. split; [done|]. split; [done|]. split; [done|]. split; [|by left]. apply (Hmono _ _ Hk). lia.
  - rewrite list_find_app_r by done. cbn [list_find]. exists g, kg.
    rewrite decide_True by (apply Is_true_true; by apply Hmain). cbn. split; [done|]. split; [done|]. split; [done|]. split; [done|by right].
Qed.

(** A tree of five blocks: 1, 2, 3 with 4 and 5 on 3; the first has a modifier *)
Definition sample_hash (k : Z) : base_uint := bu_of_u64 W256 k.
Definition sample_node (height : Z) (prev next : option Z) : Node :=
  mkNode (mkIndex 1 (100 * height) height (if height =? 0 then 6 else 2 * (height mod 2)) (bu_of_u64 W256 (height + 1)) 6
            (1400000000 + 7200 * height) 0x1c00ffff)
    (sample_hash <$> prev) (sample_hash <$> next) 0 0 0 0 COutPoint_SetNull 0 (bu_of_u64 W256 0) (bu_of_u64 W256 0) 0.
Definition sample_tree : BlockMap :=
  list_to_map [(sample_hash 1, sample_node 0 None (Some 2)); (sample_hash 2, sample_node 1 (Some 1) (Some 3));
               (sample_hash 3, sample_node 2 (Some 2) (Some 4)); (sample_hash 4, sample_node 3 (Some 3) None);
               (sample_hash 5, sample_node 3 (Some 3) None)].

(** [tree_ok] and [links_ok] on a concrete map *)
Definition map_forallb (p : base_uint → Node → bool) (m : BlockMap) : bool := forallb (λ x, p x.1 x.2) (map_to_list m).
Lemma map_forallb_ok p m h n : map_forallb p m = true → m !! h = Some n → p h n = true.
Proof.
  intros H Hn. unfold map_forallb in H. rewrite forallb_forall in H. apply (H (h, n)). apply list_elem_of_In. by apply elem_of_map_to_list.
Qed.
Definition tree_okb (m : BlockMap) (g : base_uint) : bool :=
  map_forallb (λ h n, (0 <=? nd_nHeight n) &&
    match nd_pprev n with
    | None => bool_decide (h = g) && (nd_nHeight n =? 0)
    | Some p => match m !! p with Some np => nd_nHeight n =? nd_nHeight np + 1 | None => false end
    end) m.
Lemma tree_okb_ok m g : tree_okb m g = true → tree_ok m g.
Proof.
  intros H. assert (H' := λ h n, map_forallb_ok _ m h n H). cbn beta in H'. split.
  - intros h n Hn. specialize (H' h n Hn). apply andb_true_iff in H' as [H' _]. lia.
  - intros h n Hn Ep. specialize (H' h n Hn). rewrite Ep in H'. apply andb_true_iff in H' as [_ H'].
    apply andb_true_iff in H' as [?%bool_decide_eq_true ?]. split; [done|lia].
  - intros h n p Hn Ep. specialize (H' h n Hn). rewrite Ep in H'. apply andb_true_iff in H' as [_ H'].
    destruct (m !! p) as [np|]; [|done]. exists np. split; [done|lia].
Qed.
Definition links_okb (m : BlockMap) (best : base_uint) : bool :=
  bool_decide (is_Some (m !! best)) &&
  map_forallb (λ h n,
    forallb (λ c, bool_decide ((m !! c ≫= nd_pprev) ≠ Some h) || bool_decide (nd_pnext n = Some c)) (path m best) &&
    match nd_pnext n with
    | Some c => bool_decide (c ∈ path m best) && bool_decide ((m !! c ≫= nd_pprev) = Some h)
    | None => true
    end) m.
Lemma links_okb_ok m best : links_okb m best = true → links_ok m best.
Proof.
  intros [Hb%bool_decide_eq_true H]%andb_true_iff. split; [done|]. intros h n c Hn. apply (map_forallb_ok _ _ _ _ H) in Hn.
  apply andb_true_iff in Hn as [H1 H2]. split.
  - intros E. rewrite E in H2. apply andb_true_iff in H2 as [Hc%bool_decide_eq_true Hp%bool_decide_eq_true]. split; [done|].
    apply bind_Some in Hp as (nc & Hnc & Hp). eauto.
  - intros (Hc & nc & Hnc & Ep). rewrite forallb_forall in H1. apply list_elem_of_In, H1 in Hc. rewrite Hnc in Hc. cbn in Hc.
    apply orb_true_iff in Hc as [Hc%bool_decide_eq_true|Hc%bool_decide_eq_true]; congruence.
Qed.

Lemma sample_tree_ok : tree_ok sample_tree (sample_hash 1).
Proof. apply tree_okb_ok. vm_compute. reflexivity. Qed.
Lemma sample_links_ok : links_ok sample_tree (sample_hash 4).
Proof. apply links_okb_ok. vm_compute. reflexivity. Qed.

Lemma locator_finds_fork_witness :
  let vHave := Locator_Set (sample_hash 1) sample_tree (Some (sample_hash 5)) in
  (length vHave <= 12 + Nat.log2 (length (path sample_tree (sample_hash 5))))%nat ∧
  ∃ d, (d < length (path sample_tree (sample_hash 5)))%nat ∧
  (∀ i x, path sample_tree (sample_hash 5) !! i = Some x → x ∈ path sample_tree (sample_hash 4) ↔ (d <= i)%nat) ∧
  ∃ h k, Locator_GetBlockIndex sample_tree (Some (sample_hash 4)) (Some (sample_hash 1)) vHave = Some h ∧
    Locator_GetBlockHash (sample_hash 1) sample_tree (Some (sample_hash 4)) vHave = h ∧
    path sample_tree (sample_hash 5) !! k = Some h ∧ h ∈ path sample_tree (sample_hash 4) ∧
    ((d <= k <= Nat.max d (2 * d - 11))%nat ∨ h = sample_hash 1).
Proof.
  apply (locator_finds_fork sample_tree sample_tree (sample_hash 1) (sample_hash 4) (sample_hash 5)).
  - exact sample_tree_ok.
  - exact sample_tree_ok.
  - intros h n np H H'. congruence.
  - exact sample_links_ok.
  - eexists. vm_compute. reflexivity.
  - vm_compute. discriminate.
Defined.
