(* ===== verification/Kernel.v ===== *)
(** * The stake kernel (src/kernel.cpp, src/kernel.h, src/kernel_worker.cpp)

    The stake modifier that is recomputed from selected past blocks, the modifier
    a coin hashes with, the kernel check of a coinstake and the searches for a
    kernel.  Block indexes are those of [BlockIndex]. *)

From stdpp Require Import base list numbers option gmap sorting.
From Stdlib Require Import ZArith Lia.
From S2P Require Import Prelude Uint256 Bignum Serialize Tx Script Interp SigCheck Chain Utxo ScriptStd Mempool Block BlockIndex.

Open Scope Z_scope.

Definition nModifierSwitchTime : Z := 1413763200.
Definition nModifierTestSwitchTime : Z := 1397520000.
Definition MODIFIER_INTERVAL_RATIO : Z := 3.
Definition nStakeMaxAge : Z := 90 * nOneDay.

(** A 256-bit literal *)
Definition uint256_lit (z : Z) : base_uint := to_digits (2 ^ 32) W256 z.

(** Entropy bits of the first blocks *)
Definition entropyStore : list base_uint := map uint256_lit [
  0x4555b4dcc1d690ddd9b810c90c66e82b18bf4f43cc887246c418383ec120a5ab;
  0xaa6d1198412fa77608addf6549c9198a22155e8afd7a9ded6179f6b7cfc66b0c;
  0x9442fabfa4116fb14a9769c2eea003845a1f5c3a0260f36b497d68f3a3cd4078;
  0x0e769042a9a98e42388195d699574b822d06515f7053ad884c53d7ee059f05b1;
  0x7005aac20baf70251aebfe3f1b95987d83ef1e3e6963de8fed601d4dd07bf7cf;
  0x58952c5c3de188f2e33c38d3f53d7bf44f9bc545a4289d266696273fa821be66;
  0x50b6c2ed780c08aaec3f7665b1b6004206243e3866456fc910b83b52d07eeb63;
  0x563841eefca85ba3384986c58100408ae3f1ba2ac727e1ac910ce154a06c702f;
  0x79275b03938b3e27a9b01a7f7953c6c487c58355f5d4169accfbb800213ffd13;
  0xd783f2538b3ed18f135af90adc687c5646d93aeaeaabc6667be94f7aa0a2d366;
  0xb441d0c175c40c8e88b09d88ea008af79cbed2d28219427d2e72fda682974db8;
  0x3204c43bd41f2e19628af3b0c9aca3db15bca4c8705d51056e7b17a319c04715;
  0x7e80e6ab7857d8f2f261a0a49c783bd800b365b8c9b85cc0e13f73904b0dcaa9;
  0xefaaee60ed82d2ad145c0e347941fdb131eb8fd289a45eef07121a93f283c5f1;
  0x3efc86e4334da332c1fd4c12513c40cff689f3efdc7f9913230822adacdda4f9;
  0xf0d6b8f38599a017fa35d1fbbf9ef51eca5ebc5b286aadba40c4c3e1d9bace0c;
  0x286a67f27323486036a0a92d35382fc8963c0c00bad331723318b4b9fdb2b56e;
  0xecbfaaa6567c54f08c4d5bd0118a2d7b58740f42cbfc73aa1536c1f5f76de87c;
  0xf9a4de1c5c46520de5aaf10d3796cf0e27ddce98b3398357f5726a949664e308;
  0xd75e6c4dc4be08401e3478d2467d9ab96a62af4f255c04a82c41af0de0a487bb;
  0x1a82c3bc6ad6047294c16571b5e2b7316c97bf8813e7da15798b9820d67e39f2;
  0xb49be0080de564e01829ded7e7971979565a741c5975dc9978dcc020192d396c;
  0x0d8eed113be67663b5a15a0625a9b49792b5ea59c005c4f405914877acab7000;
  0x8f9d46e2bc05a218ffa942965b747056197d393b097085523640cd59e07fe7c7;
  0x7a63ab40bc7f40ac2ebe9ede438d97b45fa6ed6f8419016da8d5f7a670111dda;
  0x63fbcc080448c43d6cf915c958314feff7a95a52ba43a68c05fc281d3a522d25;
  0xf834cf824c326d3ea861ea1e85dc3289265e37045981e28208e7344a7f8081d7;
  0xb4edc22ec98cc49b2f5af5bae3f52f5e6058280f74f2c432c2dd89ae49acceb8;
  0x0fe596037dcf81bf5c64f39755261c404ed088af5c8c31dd7549b6657ee92365;
  0xbbad51a0aeba254b01d18c328de9e932b9b859b61e622c325d64e2211b5e413d;
  0xabf0194cc787be938bc51c7fdf1cae4ec79e65ebab8fa8b8f40541c44ef384b0;
  0x83bc12d6fdbd3e854cb91c4ca7dfba3c38e8714121af88c8a8abdb33e5002438;
  0x71a2513026cabaedcbe55aeb6dc8049e5b763a3f54f10c33dd333624f764b38c;
  0xee6725632ff5c025dff6a18cd059875dcae20f399b03bccba13d9d5fcf6d9d9a;
  0xa168a2741d1e7e50cc74b79f695c25ffd3576e6bd61353c2a20e569fd63b2dac;
  0x6e462d2a87bfde9398b6747f94a8ed6a01e4d96c5b4372df5c910c106c48bd13;
  0x8eeb696181957c4b22434028990f49cb30006827c73860e77e2eecf5c38be99d;
  0x3188aaa65877b166f05cdc48f55b1f77a7d6fb221c395596d990ae5647e9ba96].

Definition mapStakeModifierCheckpoints : gmap Z Z := list_to_map [
  (0, 0x0e00670b);
  (12661, 0x5d84115d);
  (143990, 0x9c592c78);
  (149000, 0x48f2bdc4);
  (160000, 0x789df0f0);
  (200000, 0x01ec1503);
  (221047, 0x0b39ef50);
  (243100, 0xe928d83a);
  (532000, 0x3e5c2b81);
  (561108, 0x9c1860b0);
  (712891, 0xee193895)].
Definition mapStakeModifierCheckpointsTestNet : gmap Z Z := {[0 := 0x0e00670b]}.

(** The bit of an early block; [None] is a read beyond the table *)
Definition table_entropy_bit (nHeight : Z) : option Z :=
  let nBitNum := Z.land nHeight 0xFF in
  let nItemNum := nHeight / 0xFF in
  item ← entropyStore !! Z.to_nat nItemNum;
  Some (u32 (Get64 (bu_shr W256 (bu_and item (bu_shl W256 (bu_of_u64 W256 1) nBitNum)) nBitNum) 0)).

Section Kernel.
Context {BN : OpenSSL_BN} {DG : Digests} (fTestNet : bool).
(** [scrypt_blockhash] of a header *)
Variable scrypt_blockhash : list Z → base_uint.

(** [CBlock::GetStakeEntropyBit] *)
Definition GetStakeEntropyBit (b : CBlock) (nHeight : Z) : option Z :=
  if (nHeight >=? 9689) || fTestNet then Some (Z.land (Get64 (blk_GetHash scrypt_blockhash b) 0) 1)
  else table_entropy_bit nHeight.

Definition IsFixedModifierInterval (nTimeBlock : Z) : bool :=
  nTimeBlock >=? (if fTestNet then nModifierTestSwitchTime else nModifierSwitchTime).

(** ** The modifier *)

(** [while (pindex && pindex->pprev && !pindex->GeneratedStakeModifier())] *)
Fixpoint last_generated (pindex : chain) : chain :=
  match pindex with
  | (h, n) :: ((_ :: _) as pprev) => if negb (GeneratedStakeModifier n) then last_generated pprev else pindex
  | _ => pindex
  end.
Definition GetLastStakeModifier (pindex : chain) : option (Z * Z) :=
  match last_generated pindex with
  | [] => None
  | (h, n) :: _ => if negb (GeneratedStakeModifier n) then None else Some (nd_nStakeModifier n, nd_GetBlockTime n)
  end.

Definition GetStakeModifierSelectionIntervalSection (nSection : Z) : option Z :=
  if (0 <=? nSection) && (nSection <? 64)
  then Some (u32 (nModifierInterval fTestNet * 63) / (63 + (63 - nSection) * (MODIFIER_INTERVAL_RATIO - 1)))
  else None.
Definition GetStakeModifierSelectionInterval : option Z :=
  foldl (λ nSelectionInterval nSection,
    acc ← nSelectionInterval; x ← GetStakeModifierSelectionIntervalSection nSection; Some (acc + x)) (Some 0) (seqZ 0 64).

(** The hash that ranks a candidate *)
Definition selection_hash (h : base_uint) (n : Node) (nStakeModifierPrev : Z) : base_uint :=
  let hashProof := if nd_IsProofOfStake n then nd_hashProofOfStake n else h in
  let hashSelection := Hash (bu_Serialize hashProof ++ write_int 8 nStakeModifierPrev) in
  if nd_IsProofOfStake n then bu_shr W256 hashSelection 32 else hashSelection.

(** The loop of [SelectBlockFromCandidates]: [best] is [hashBest] with
    [*pindexSelected] once [fSelected]; [None] is a candidate without index *)
Fixpoint candidate_loop (m : BlockMap) (vSortedByTimestamp : list (Z * base_uint)) (mapSelectedBlocks : gset base_uint)
    (nSelectionIntervalStop nStakeModifierPrev : Z) (best : option (base_uint * base_uint)) : option (option (base_uint * base_uint)) :=
  match vSortedByTimestamp with
  | [] => Some best
  | (_, h) :: rest =>
      match m !! h with
      | None => None
      | Some n =>
          if bool_decide (is_Some best) && (nd_GetBlockTime n >? nSelectionIntervalStop) then Some best
          else if bool_decide (h ∈ (mapSelectedBlocks : gset base_uint))
          then candidate_loop m rest mapSelectedBlocks nSelectionIntervalStop nStakeModifierPrev best
          else
            let hashSelection := selection_hash h n nStakeModifierPrev in
            let best :=
              match best with
              | Some (hashBest, _) => if bu_lt hashSelection hashBest then Some (hashSelection, h) else best
              | None => Some (hashSelection, h)
              end in
            candidate_loop m rest mapSelectedBlocks nSelectionIntervalStop nStakeModifierPrev best
      end
  end.
Definition SelectBlockFromCandidates (m : BlockMap) (vSortedByTimestamp : list (Z * base_uint)) (mapSelectedBlocks : gset base_uint)
    (nSelectionIntervalStop nStakeModifierPrev : Z) : option base_uint :=
  best ← candidate_loop m vSortedByTimestamp mapSelectedBlocks nSelectionIntervalStop nStakeModifierPrev None;
  snd <$> best.

(** The order of [pair<int64_t, uint256>] *)
Definition candidate_le (a b : Z * base_uint) : Prop := a.1 < b.1 ∨ (a.1 = b.1 ∧ bu_le a.2 b.2 = true).
#[export] Instance candidate_le_dec : RelDecision candidate_le.
Proof. unfold RelDecision, candidate_le. solve_decision. Defined.

(** [while (pindex && pindex->GetBlockTime() >= nSelectionIntervalStart)] *)
Fixpoint candidates (nSelectionIntervalStart : Z) (pindex : chain) : list (Z * base_uint) :=
  match pindex with
  | [] => []
  | (h, n) :: pprev =>
      if nd_GetBlockTime n >=? nSelectionIntervalStart then (nd_GetBlockTime n, h) :: candidates nSelectionIntervalStart pprev else []
  end.

Fixpoint select_rounds (m : BlockMap) (vSortedByTimestamp : list (Z * base_uint)) (nStakeModifier : Z) (rounds : list Z)
    (nSelectionIntervalStop : Z) (mapSelectedBlocks : gset base_uint) (nStakeModifierNew : Z) : option Z :=
  match rounds with
  | [] => Some nStakeModifierNew
  | nRound :: rounds =>
      section ← GetStakeModifierSelectionIntervalSection nRound;
      let nSelectionIntervalStop := nSelectionIntervalStop + section in
      h ← SelectBlockFromCandidates m vSortedByTimestamp mapSelectedBlocks nSelectionIntervalStop nStakeModifier;
      n ← m !! h;
      select_rounds m vSortedByTimestamp nStakeModifier rounds nSelectionIntervalStop ({[h]} ∪ mapSelectedBlocks)
        (Z.lor nStakeModifierNew (u64 (Z.shiftl (nd_GetStakeEntropyBit n) nRound)))
  end.

(** [pprev] and [nTime] are those of [pindexCurrent]; the result is the modifier
    and whether it was generated, [None] an error *)
Definition ComputeNextStakeModifier (m : BlockMap) (pprev : option base_uint) (nTime : Z) : option (Z * bool) :=
  match pprev with
  | None => Some (0, true)
  | Some hPrev =>
      let pindexPrev := ancestors m hPrev in
      '(_, nPrev) ← head pindexPrev;
      '(nStakeModifier, nModifierTime) ← GetLastStakeModifier pindexPrev;
      let interval := nModifierInterval fTestNet in
      if nModifierTime / interval >=? nd_GetBlockTime nPrev / interval then Some (nStakeModifier, false)
      else if (nModifierTime / interval >=? nTime / interval) && IsFixedModifierInterval nTime then Some (nStakeModifier, false)
      else
        nSelectionInterval ← GetStakeModifierSelectionInterval;
        let nSelectionIntervalStart := nd_GetBlockTime nPrev / interval * interval - nSelectionInterval in
        let vSortedByTimestamp := merge_sort candidate_le (rev (candidates nSelectionIntervalStart pindexPrev)) in
        nStakeModifierNew ← select_rounds m vSortedByTimestamp nStakeModifier
          (seqZ 0 (Z.min 64 (Z.of_nat (length vSortedByTimestamp)))) nSelectionIntervalStart ∅ 0;
        Some (nStakeModifierNew, true)
  end.

(** *** The checksum of the modifiers *)

(** [pprev] is the previous checksum, [None] for the first block *)
Definition GetStakeModifierChecksum (pprev : option Z) (n : Node) : Z :=
  let ss := (match pprev with Some c => write_int 4 c | None => [] end) ++
            write_int 4 (bi_nFlags (nd_index n)) ++ bu_Serialize (nd_hashProofOfStake n) ++ write_int 8 (nd_nStakeModifier n) in
  u32 (Get64 (bu_shr W256 (Hash ss) (256 - 32)) 0).
Definition CheckStakeModifierCheckpoints (nHeight nStakeModifierChecksum : Z) : bool :=
  let checkpoints := if fTestNet then mapStakeModifierCheckpointsTestNet else mapStakeModifierCheckpoints in
  match checkpoints !! nHeight with
  | Some c => nStakeModifierChecksum =? c
  | None => true
  end.

(** ** The kernel *)

(** The loop of [GetKernelStakeModifier]: the outer [None] is the end of the
    fuel, the inner one the end of the chain *)
Fixpoint kernel_loop (fuel : nat) (m : BlockMap) (until : Z) (n : Node) (nStakeModifierHeight nStakeModifierTime : Z)
    : option (option (Z * Z * Z)) :=
  match fuel with
  | O => None
  | S fuel =>
      if nStakeModifierTime <? until then
        match nd_pnext n ≫= (m !!.) with
        | None => Some None
        | Some n =>
            if GeneratedStakeModifier n then kernel_loop fuel m until n (nd_nHeight n) (nd_GetBlockTime n)
            else kernel_loop fuel m until n nStakeModifierHeight nStakeModifierTime
        end
      else Some (Some (nd_nStakeModifier n, nStakeModifierHeight, nStakeModifierTime))
  end.
(** The modifier with the height and the time it was generated at *)
Definition GetKernelStakeModifier (m : BlockMap) (hashBlockFrom : base_uint) : option (Z * Z * Z) :=
  pindexFrom ← m !! hashBlockFrom;
  nStakeModifierSelectionInterval ← GetStakeModifierSelectionInterval;
  r ← kernel_loop (S (size m)) m (nd_GetBlockTime pindexFrom + nStakeModifierSelectionInterval) pindexFrom (nd_nHeight pindexFrom)
        (nd_GetBlockTime pindexFrom);
  r.

Definition GetWeight (nIntervalBeginning nIntervalEnd : Z) : Z :=
  Z.min (nIntervalEnd - nIntervalBeginning - nStakeMinAge fTestNet) nStakeMaxAge.

(** [CBigNum(nValueIn) * GetWeight(...) / COIN / nOneDay] *)
Definition coin_day_weight (nValueIn nIntervalBeginning nIntervalEnd : Z) : option BIGNUM :=
  x ← bn_div (bn_mul (CBigNum_int64 nValueIn) (CBigNum_int64 (GetWeight nIntervalBeginning nIntervalEnd))) (CBigNum_int64 COIN);
  bn_div x (CBigNum_int32 nOneDay).

(** The part of the kernel that does not depend on the time of the coinstake, as
    the searches are given it *)
Definition kernel_prefix (nStakeModifier nTimeBlockFrom nTxPrevOffset nTimeTxPrev n : Z) : list Z :=
  write_int 8 nStakeModifier ++ write_int 4 nTimeBlockFrom ++ write_int 4 nTxPrevOffset ++ write_int 4 nTimeTxPrev ++ write_int 4 n.

(** The verdict, [hashProofOfStake] and [targetProofOfStake]; [None] is an
    exception *)
Definition CheckStakeKernelHash (m : BlockMap) (nBits : Z) (blockFrom : CBlock) (nTxPrevOffset : Z) (txPrev : CTransaction)
    (prevout : COutPoint) (nTimeTx : Z) (hashProofOfStake targetProofOfStake : base_uint) : option (bool * base_uint * base_uint) :=
  if nTimeTx <? nTime txPrev then Some (false, hashProofOfStake, targetProofOfStake)
  else
    let nTimeBlockFrom := u32 (blk_GetBlockTime blockFrom) in
    if u32 (nTimeBlockFrom + nStakeMinAge fTestNet) >? nTimeTx then Some (false, hashProofOfStake, targetProofOfStake)
    else
      let bnTargetPerCoinDay := bn_SetCompact nBits in
      let nValueIn := nValue (nth (Z.to_nat (op_n prevout)) (vout txPrev) CTxOut_SetNull) in
      let hashBlockFrom := blk_GetHash scrypt_blockhash blockFrom in
      bnCoinDayWeight ← coin_day_weight nValueIn (nTime txPrev) nTimeTx;
      let targetProofOfStake := getuint256 (bn_mul bnCoinDayWeight bnTargetPerCoinDay) in
      match GetKernelStakeModifier m hashBlockFrom with
      | None => Some (false, hashProofOfStake, targetProofOfStake)
      | Some (nStakeModifier, _, _) =>
          let hashProofOfStake :=
            Hash (kernel_prefix nStakeModifier nTimeBlockFrom nTxPrevOffset (nTime txPrev) (op_n prevout) ++ write_int 4 nTimeTx) in
          if bn_gt (setuint256 hashProofOfStake) (bn_mul bnCoinDayWeight bnTargetPerCoinDay)
          then Some (false, hashProofOfStake, targetProofOfStake)
          else Some (true, hashProofOfStake, targetProofOfStake)
      end.

(** ** The searches *)

(** [fShutdown] when the loop tests it at a time *)
Variable fShutdown : Z → bool.

(** The largest target a coin can reach *)
Definition max_target (nBits nValueIn : Z) : option BIGNUM :=
  x ← bn_div (bn_mul (bn_mul (bn_SetCompact nBits) (CBigNum_int64 nValueIn)) (CBigNum_uint32 nStakeMaxAge)) (CBigNum_int64 COIN);
  bn_div x (CBigNum_int32 nOneDay).

(** Both hashing rounds: the context holds the first 24 bytes of the kernel *)
Definition kernel_hash (kernel : list Z) (nTimeTx : Z) : base_uint :=
  limbs_of_bytes (SHA256 (SHA256 (take (8 + 16) kernel ++ write_int 4 nTimeTx))).

(** [bnTargetProofOfStake >= CBigNum(hashProofOfStake)] *)
Definition meets_target (nBits nInputTxTime nValueIn nTimeTx : Z) (hashProofOfStake : base_uint) : option bool :=
  bnCoinDayWeight ← coin_day_weight nValueIn nInputTxTime nTimeTx;
  Some (bn_ge (bn_mul bnCoinDayWeight (bn_SetCompact nBits)) (setuint256 hashProofOfStake)).

(** [KernelWorker::Do_generic] over the times left to try *)
Fixpoint worker_loop (kernel : list Z) (nBits nInputTxTime nValueIn nMaxTarget32 : Z) (times : list Z)
    (solutions : list (base_uint * Z)) : option (list (base_uint * Z)) :=
  match times with
  | [] => Some solutions
  | nTimeTx :: times =>
      if fShutdown nTimeTx then Some solutions
      else
        let hashProofOfStake := kernel_hash kernel nTimeTx in
        if Get32 hashProofOfStake 7 >? nMaxTarget32
        then worker_loop kernel nBits nInputTxTime nValueIn nMaxTarget32 times solutions
        else
          meets ← meets_target nBits nInputTxTime nValueIn nTimeTx hashProofOfStake;
          worker_loop kernel nBits nInputTxTime nValueIn nMaxTarget32 times
            (if meets : bool then solutions ++ [(hashProofOfStake, nTimeTx)] else solutions)
  end.
Definition Do_generic (kernel : list Z) (nBits nInputTxTime nValueIn nIntervalBegin nIntervalEnd : Z) : option (list (base_uint * Z)) :=
  nMaxTarget ← max_target nBits nValueIn;
  worker_loop kernel nBits nInputTxTime nValueIn (Get32 (getuint256 nMaxTarget) 7)
    (seqZ nIntervalBegin (nIntervalEnd - nIntervalBegin)) [].

(** The workers share the interval; [nThreads] is [hardware_concurrency()] *)
Definition ScanKernelForward (nThreads : Z) (kernel : list Z) (nBits nInputTxTime nValueIn : Z) (SearchInterval : Z * Z)
    : option (list (base_uint * Z)) :=
  let nThreads := if nThreads =? 0 then 1 else nThreads in
  let nPart := u32 (SearchInterval.2 - SearchInterval.1) / nThreads in
  found ← mapM (λ i, Do_generic kernel nBits nInputTxTime nValueIn
    (u32 (SearchInterval.1 + nPart * i)) (u32 (SearchInterval.1 + nPart * (i + 1)))) (seqZ 0 nThreads);
  Some (concat found).

(** [ScanKernelBackward] over the times left; the inner [None] is [false] *)
Fixpoint backward_loop (kernel : list Z) (nBits nInputTxTime nValueIn : Z) (nMaxTarget : base_uint) (times : list Z)
    : option (option (base_uint * Z)) :=
  match times with
  | [] => Some None
  | nTimeTx :: times =>
      if fShutdown nTimeTx then Some None
      else
        let hashProofOfStake := kernel_hash kernel nTimeTx in
        if bu_gt hashProofOfStake nMaxTarget then backward_loop kernel nBits nInputTxTime nValueIn nMaxTarget times
        else
          meets ← meets_target nBits nInputTxTime nValueIn nTimeTx hashProofOfStake;
          if meets : bool then Some (Some (hashProofOfStake, nTimeTx))
          else backward_loop kernel nBits nInputTxTime nValueIn nMaxTarget times
  end.
Definition ScanKernelBackward (kernel : list Z) (nBits nInputTxTime nValueIn : Z) (SearchInterval : Z * Z)
    : option (option (base_uint * Z)) :=
  nMaxTarget ← max_target nBits nValueIn;
  backward_loop kernel nBits nInputTxTime nValueIn (getuint256 nMaxTarget)
    (rev (seqZ (SearchInterval.2 + 1) (SearchInterval.1 - SearchInterval.2))).
End Kernel.

(** ** The coinstake *)

Section CheckProofOfStake.
Context {BN : OpenSSL_BN} {DG : Digests} (fTestNet : bool).
Variable scrypt_blockhash : list Z → base_uint.
Variable Verify : list Z → base_uint → list Z → bool.
Variable nMaxCacheSize : Z.
Variable random_entry : gset sigdata → sigdata.

Definition MANDATORY_SCRIPT_VERIFY_FLAGS : Z := SCRIPT_VERIFY_P2SH.
Definition VerifySignature (txFrom txTo : CTransaction) (nIn : nat) (flags nHashType : Z) (cache : gset sigdata)
    : option bool * gset sigdata :=
  CScriptCheck_call Verify nMaxCacheSize random_entry (CScriptCheck_new txFrom txTo nIn flags nHashType) cache.

Inductive stake_result :=
  | StakeRefused (nDoS : Z)
  | StakeAccepted (hashProofOfStake targetProofOfStake : base_uint).

(** [header_at] reads the header of a block from its file; [None] is an
    exception.  The outputs are zero before the call, as in [ProcessBlock]. *)
Definition CheckProofOfStake (m : BlockMap) (d : Disk) (header_at : Z → Z → option CBlock) (tx : CTransaction) (nBits : Z)
    (cache : gset sigdata) : option (stake_result * gset sigdata) :=
  if negb (IsCoinStake tx) then Some (StakeRefused 0, cache)
  else
    let txin := nth 0 (vin tx) CTxIn_default in
    match ReadFromDisk d (prevout txin) with
    | None => Some (StakeRefused 1, cache)
    | Some (txPrev, txindex) =>
        let '(verified, cache) := VerifySignature txPrev tx 0 MANDATORY_SCRIPT_VERIFY_FLAGS 0 cache in
        verified ← verified;
        if negb verified then Some (StakeRefused 100, cache)
        else
          match header_at (nFile (pos txindex)) (nBlockPos (pos txindex)) with
          | None => Some (StakeRefused 0, cache)
          | Some block =>
              let zero := bu_of_u64 W256 0 in
              '(ok, hashProofOfStake, targetProofOfStake) ←
                CheckStakeKernelHash fTestNet scrypt_blockhash m nBits block (u32 (nTxPos (pos txindex) - nBlockPos (pos txindex))) txPrev
                  (prevout txin) (nTime tx) zero zero;
              if negb (ok : bool) then Some (StakeRefused 1, cache)
              else Some (StakeAccepted hashProofOfStake targetProofOfStake, cache)
          end
    end.
End CheckProofOfStake.

(** ** The entropy bit *)

Lemma table_entropy_ok nHeight : 0 <= nHeight < 9689 → table_entropy_bit nHeight = Some 0 ∨ table_entropy_bit nHeight = Some 1.
Proof.
  intros H. assert (Hin : In nHeight (seqZ 0 9689)) by (apply list_elem_of_In, elem_of_seqZ; lia).
  assert (E : forallb (λ h, match table_entropy_bit h with Some x => (x =? 0) || (x =? 1) | None => false end) (seqZ 0 9689) = true)
    by (vm_compute; reflexivity).
  rewrite forallb_forall in E.
  specialize (E nHeight Hin). destruct (table_entropy_bit nHeight) as [x|]; [|done].
  apply orb_true_iff in E as [?|?]; [left|right]; f_equal; lia.
Qed.

Lemma GetStakeEntropyBit_ok {DG : Digests} net scrypt b nHeight : 0 <= nHeight →
  GetStakeEntropyBit net scrypt b nHeight = Some 0 ∨ GetStakeEntropyBit net scrypt b nHeight = Some 1.
Proof.
  intros H. unfold GetStakeEntropyBit. destruct ((nHeight >=? 9689) || net) eqn:E.
  - set (x := Get64 _ _). assert (Z.land x 1 = x mod 2) as -> by (apply (Z.land_ones x 1); lia).
    assert (x mod 2 = 0 ∨ x mod 2 = 1) as [-> | ->] by (pose proof (Z.mod_pos_bound x 2); lia); auto.
  - apply orb_false_iff in E as [E _]. apply table_entropy_ok. lia.
Qed.

(** ** Selection *)

Section selection.
Context {DG : Digests} {DGok : DigestsOk} (m : BlockMap) (p : Z).

(** The rank of a candidate *)
Definition rank (h : base_uint) : Z := match m !! h with Some n => val (selection_hash h n p) | None => 0 end.

Lemma selection_hash_wf h n : wf W256 (selection_hash h n p).
Proof. unfold selection_hash. destruct (nd_IsProofOfStake n); [|apply Hash_wf]. apply wf_bu_shr; [apply Hash_wf|lia]. Qed.

Abbreviation cands := (list (Z * base_uint)).
(** Candidates are indexed under their times. *)
Definition indexed (l : cands) : Prop := Forall (λ x, ∃ n, m !! x.2 = Some n ∧ nd_GetBlockTime n = x.1) l.

(** [h] is the best of the candidates not yet selected with a time up to
    [stop]; if there is none, it is the first one not selected. *)
Definition picked (l : cands) (sel : gset base_uint) (stop : Z) (h : base_uint) : Prop :=
  ∃ t, (t, h) ∈ l ∧ (h ∉ sel) ∧
    ((t <= stop ∧ ∀ t' h', (t', h') ∈ l → h' ∉ sel → t' <= stop → rank h <= rank h') ∨
     (∀ t' h', (t', h') ∈ l → h' ∉ sel → stop < t' ∧ ((t', h') = (t, h) ∨ candidate_le (t, h) (t', h')))).

Abbreviation by_time := (StronglySorted candidate_le).

Lemma candidate_le_time a b : candidate_le a b → a.1 <= b.1.
Proof. unfold candidate_le. lia. Qed.

(** Once a block is selected: the best of it and the eligible rest *)
Lemma candidate_loop_some l sel stop x : by_time l → indexed l →
  ∀ nx, m !! x = Some nx →
  ∃ x', candidate_loop m l sel stop p (Some (selection_hash x nx p, x)) =
    Some ((λ n, (selection_hash x' n p, x')) <$> m !! x') ∧
    (x' = x ∨ ∃ t, (t, x') ∈ l ∧ (x' ∉ sel) ∧ t <= stop) ∧ rank x' <= rank x ∧
    (∀ t y, (t, y) ∈ l → y ∉ sel → t <= stop → rank x' <= rank y).
Proof.
  intros Hs Hi. revert x. induction Hs as [|[t h] l Hs IH Hall]; intros x nx Hx.
  { exists x. cbn. rewrite Hx. split; [done|]. split; [by left|]. split; [lia|]. intros t y H. by apply elem_of_nil in H. }
  apply Forall_cons in Hi as [(n & Hn & Ht) Hi]. cbn [fst snd] in Hn, Ht. specialize (IH Hi). cbn [candidate_loop]. rewrite Hn.
  rewrite bool_decide_true by done. cbn [andb]. rewrite Ht. destruct (Z.gtb_spec t stop) as [Hgt|Hle].
  { exists x. rewrite Hx. split; [done|]. split; [by left|]. split; [lia|]. intros t' y [[= -> ->]|Hin]%elem_of_cons _ Hle; [lia|].
    rewrite Forall_forall in Hall. apply Hall, candidate_le_time in Hin. cbn in Hin. lia. }
  case_bool_decide as Hsel.
  { destruct (IH x nx Hx) as (x' & E & Hin & Hr & Hmin). exists x'. rewrite E. split; [done|]. split.
    { destruct Hin as [?|(t' & ? & ?)]; [by left|right]. exists t'. split; [by right|done]. }
    split; [done|]. intros t' y [[= -> ->]|Hy]%elem_of_cons; [done|eauto]. }
  assert (Hr : rank h = val (selection_hash h n p)) by (unfold rank; by rewrite Hn).
  assert (Hrx : rank x = val (selection_hash x nx p)) by (unfold rank; by rewrite Hx).
  rewrite (bu_lt_ok W256), <- Hr, <- Hrx by apply selection_hash_wf. destruct (Z.ltb_spec (rank h) (rank x)) as [Hlt|Hge].
  - destruct (IH h n Hn) as (x' & E & Hin & Hr' & Hmin). exists x'. rewrite E. split; [done|]. split.
    { right. destruct Hin as [->|(t' & ? & ?)]; [exists t; split; [by left|done]|exists t'; split; [by right|done]]. }
    split; [lia|]. intros t' y [[= -> ->]|Hy]%elem_of_cons; [lia|eauto].
  - destruct (IH x nx Hx) as (x' & E & Hin & Hr' & Hmin). exists x'. rewrite E. split; [done|]. split.
    { destruct Hin as [?|(t' & ? & ?)]; [by left|right]. exists t'. split; [by right|done]. }
    split; [lia|]. intros t' y [[= -> ->]|Hy]%elem_of_cons; [lia|eauto].
Qed.

Lemma SelectBlock_ok l sel stop : by_time l → indexed l → (∃ x, x ∈ l ∧ (x.2 ∉ sel)) →
  ∃ h, SelectBlockFromCandidates m l sel stop p = Some h ∧ picked l sel stop h.
Proof.
  intros Hs Hi Hex. unfold SelectBlockFromCandidates. induction Hs as [|[t h] l Hs IH Hall].
  { destruct Hex as (x & Hx & _). by apply elem_of_nil in Hx. }
  apply Forall_cons in Hi as [(n & Hn & Ht) Hi]. cbn [fst snd] in Hn, Ht. cbn [candidate_loop]. rewrite Hn.
  rewrite (bool_decide_false (is_Some None)) by by intros []. cbn [andb]. case_bool_decide as Hsel.
  { destruct IH as (h' & E & t' & Hin & Hns & Hcase); [done| |].
    { destruct Hex as (x & [->|Hx]%elem_of_cons & Hx'); [done|eauto]. }
    exists h'. split; [done|]. exists t'. split; [by right|]. split; [done|]. destruct Hcase as [[Hle Hmin]|Hfirst].
    - left. split; [done|]. intros t0 h0 [[= -> ->]|H0]%elem_of_cons; [done|eauto].
    - right. intros t0 h0 [[= -> ->]|H0]%elem_of_cons; [done|eauto]. }
  destruct (candidate_loop_some l sel stop h Hs Hi n Hn) as (x' & E & Hin & Hr & Hmin). rewrite E.
  rewrite Forall_forall in Hall. clear IH Hex.
  assert (Hx' : is_Some (m !! x')).
  { destruct Hin as [->|(t' & Hin & _)]; [eauto|]. rewrite Forall_forall in Hi. destruct (Hi _ Hin) as (? & ? & _). cbn in *. eauto. }
  destruct Hx' as [nx' Hx']. rewrite Hx'. exists x'. split; [done|]. destruct (Z.le_gt_cases t stop) as [Hle|Hgt].
  - destruct Hin as [->|(t' & Hin & Hns & Ht')]; [exists t|exists t'].
    + split; [by left|]. split; [done|]. left. split; [done|]. intros t0 h0 [[= -> ->]|H0]%elem_of_cons; [done|eauto].
    + split; [by right|]. split; [done|]. left. split; [done|]. intros t0 h0 [[= -> ->]|H0]%elem_of_cons; [done|eauto].
  - destruct Hin as [->|(t' & Hin & Hns & Ht')]; [|apply Hall, candidate_le_time in Hin; cbn in Hin; lia].
    exists t. split; [by left|]. split; [done|]. right. intros t0 h0 [[= -> ->]|H0]%elem_of_cons _; [split; [lia|by left]|].
    assert (H0' := H0). apply Hall in H0. split; [apply candidate_le_time in H0; cbn in H0; lia|by right].
Qed.
End selection.

(** ** Rounds *)

(** The length of a section, and of the first [k] *)
Definition section_length (net : bool) (k : nat) : Z := default 0 (GetStakeModifierSelectionIntervalSection net (Z.of_nat k)).
Fixpoint sections (net : bool) (k : nat) : Z :=
  match k with
  | O => 0
  | S k => sections net k + section_length net k
  end.

Lemma section_some net k : (k < 64)%nat → GetStakeModifierSelectionIntervalSection net (Z.of_nat k) = Some (section_length net k).
Proof.
  intros H. unfold section_length, GetStakeModifierSelectionIntervalSection.
  replace ((0 <=? Z.of_nat k) && (Z.of_nat k <? 64)) with true by lia. done.
Qed.

Lemma SelectionInterval_value net : GetStakeModifierSelectionInterval net = Some (sections net 64).
Proof. destruct net; vm_compute; reflexivity. Qed.
Lemma sections_64 net : 0 < sections net 64.
Proof. destruct net; vm_compute; reflexivity. Qed.

Lemma seqZ_nat (k j : nat) : (0 < j)%nat → seqZ (Z.of_nat k) (Z.of_nat j) = Z.of_nat k :: seqZ (Z.of_nat (S k)) (Z.of_nat (j - 1)).
Proof. intros H. rewrite seqZ_cons by lia. f_equal. f_equal; lia. Qed.

Definition entropy_of (m : BlockMap) (h : base_uint) : bool :=
  match m !! h with Some n => Z.testbit (bi_nFlags (nd_index n)) 1 | None => false end.

Lemma entropy_bit n : nd_GetStakeEntropyBit n = Z.b2z (Z.testbit (bi_nFlags (nd_index n)) 1).
Proof.
  unfold nd_GetStakeEntropyBit. change BLOCK_STAKE_ENTROPY with (2 ^ 1). rewrite land_pow2 by lia. by destruct (Z.testbit _ _).
Qed.

Lemma bit_at (b : bool) k i : 0 <= k < 64 → 0 <= i → Z.testbit (u64 (Z.shiftl (Z.b2z b) k)) i = b && (i =? k).
Proof.
  intros Hk Hi. rewrite Z.shiftl_mul_pow2 by lia. assert (0 < 2 ^ k < 2 ^ 64) by (split; [lia|apply Z.pow_lt_mono_r; lia]).
  rewrite u64_small by (destruct b; cbn; lia). destruct b; cbn [Z.b2z andb].
  - rewrite Z.mul_1_l, Z.pow2_bits_eqb by lia. apply Z.eqb_sym.
  - rewrite Z.mul_0_l. apply Z.bits_0.
Qed.

Section rounds.
Context {DG : Digests} {DGok : DigestsOk} (net : bool) (m : BlockMap) (p : Z) (l : list (Z * base_uint)).
Context (Hs : StronglySorted candidate_le l) (Hi : indexed m l) (Hnd : NoDup (map snd l)).

(** While fewer blocks are selected than there are candidates, one is left. *)
Lemma unselected_left (sel : gset base_uint) : (size sel < length l)%nat → ∃ x, x ∈ l ∧ (x.2 ∉ sel).
Proof.
  intros Hlt. destruct (decide (Forall (λ x, x.2 ∈ sel) l)) as [Hall|Hno].
  - assert (list_to_set (map snd l) ⊆ sel) as Hsub.
    { intros h Hh. apply elem_of_list_to_set, list_elem_of_fmap in Hh as (x & -> & Hx). rewrite Forall_forall in Hall. by apply Hall. }
    apply subseteq_size in Hsub. rewrite size_list_to_set, length_map in Hsub by done. lia.
  - apply not_Forall_Exists in Hno; [|apply _]. apply Exists_exists in Hno as (x & Hx & Hn). by exists x.
Qed.

(** The blocks picked in the rounds from [k] on, and the bits they leave *)
Lemma select_rounds_ok start j : ∀ k sel acc, (k + j <= 64)%nat → (size sel + j <= length l)%nat →
  ∃ hs r, select_rounds net m l p (seqZ (Z.of_nat k) (Z.of_nat j)) (start + sections net k) sel acc = Some r ∧
    length hs = j ∧ NoDup hs ∧ (∀ h, h ∈ hs → h ∉ sel) ∧
    (∀ i h, hs !! i = Some h →
       picked m p l (sel ∪ list_to_set (take i hs)) (start + sections net (S (k + i))) h) ∧
    (∀ b, 0 <= b → Z.testbit r b = Z.testbit acc b || (if decide (Z.of_nat k <= b) then match hs !! (Z.to_nat b - k)%nat with Some h => entropy_of m h | None => false end else false)).
Proof.
  induction j as [|j IH]; intros k sel acc Hk Hsz.
  { exists [], acc. split; [done|]. split; [done|]. split; [constructor|]. split; [intros h Hh; by apply elem_of_nil in Hh|]. split; [done|].
    intros b _. destruct (decide _); by rewrite orb_false_r. }
  rewrite seqZ_nat by lia. cbn [select_rounds]. rewrite section_some by lia. cbn [mbind option_bind].
  destruct (SelectBlock_ok m p l sel (start + sections net k + section_length net k) Hs Hi) as (h & Eh & Hpick).
  { apply unselected_left. lia. }
  rewrite Eh. cbn [mbind option_bind]. assert (Hpick' := Hpick). destruct Hpick' as (t & Hin & Hns & _).
  assert (Hi' := Hi). unfold indexed in Hi'. rewrite Forall_forall in Hi'. destruct (Hi' _ Hin) as (n & Hn & _). cbn in Hn. rewrite Hn. cbn [mbind option_bind].
  destruct (IH (S k) ({[h]} ∪ sel) (Z.lor acc (u64 (Z.shiftl (nd_GetStakeEntropyBit n) (Z.of_nat k))))) as (hs & r & Er & Hlen & Hnd' & Hdis & Hp & Hb).
  { lia. } { rewrite size_union by set_solver. rewrite size_singleton. lia. }
  exists (h :: hs), r. replace (S j - 1)%nat with j by lia. rewrite <- Z.add_assoc. change (sections net k + section_length net k) with (sections net (S k)).
  split; [done|]. split; [cbn; lia|]. split.
  { apply NoDup_cons. split; [|done]. intros Hh. apply (Hdis _ Hh). set_solver. }
  split. { intros x [->|Hx]%elem_of_cons; [done|]. apply Hdis in Hx. set_solver. }
  split.
  - intros [|i] x Hx; cbn in Hx.
    + injection Hx as <-. cbn [take list_to_set]. rewrite Nat.add_0_r, union_empty_r_L. cbn [sections]. by rewrite Z.add_assoc.
    + specialize (Hp _ _ Hx). cbn [take list_to_set]. rewrite (union_assoc_L sel), (union_comm_L sel).
      replace (k + S i)%nat with (S k + i)%nat by lia. done.
  - intros b Hb0. rewrite Hb, Z.lor_spec, entropy_bit, bit_at by lia.
    destruct (decide (Z.of_nat (S k) <= b)), (decide (Z.of_nat k <= b)); try lia.
    + replace (Z.to_nat b - k)%nat with (S (Z.to_nat b - S k)) by lia. cbn. rewrite (proj2 (Z.eqb_neq b (Z.of_nat k))) by lia.
      by rewrite andb_false_r, orb_false_r.
    + assert (b = Z.of_nat k) as -> by lia. rewrite Z.eqb_refl, Nat2Z.id, Nat.sub_diag. cbn. unfold entropy_of. rewrite Hn.
      by rewrite andb_true_r, orb_false_r.
    + rewrite (proj2 (Z.eqb_neq b (Z.of_nat k))) by lia. by rewrite andb_false_r, !orb_false_r.
Qed.
End rounds.

(** ** Candidates *)

Definition keys_wf (m : BlockMap) : Prop := ∀ h n, m !! h = Some n → wf W256 h.

Lemma lt_loop_total a b : lt_loop true a b = true ∨ lt_loop true b a = true.
Proof.
  revert b. induction a as [|x a IH]; intros [|y b]; cbn [lt_loop]; auto.
  destruct (Z.ltb_spec x y), (Z.ltb_spec y x), (Z.gtb_spec x y), (Z.gtb_spec y x); auto; lia.
Qed.
#[export] Instance candidate_le_total : Total candidate_le.
Proof.
  intros [t a] [t' b]. unfold candidate_le. cbn. destruct (Z.lt_total t t') as [?|[->|?]]; auto.
  destruct (lt_loop_total (rev a) (rev b)); auto.
Qed.
Lemma candidate_le_trans a b c : wf W256 a.2 → wf W256 b.2 → wf W256 c.2 → candidate_le a b → candidate_le b c → candidate_le a c.
Proof. intros Ha Hb Hc. unfold candidate_le. rewrite !(bu_le_ok W256) by done. lia. Qed.

Lemma Sorted_strong l : Forall (λ x, wf W256 x.2) l → Sorted candidate_le l → StronglySorted candidate_le l.
Proof.
  intros Hw. induction 1 as [|x l Hs IH Hh]; [constructor|]. apply Forall_cons in Hw as [Hx Hw]. specialize (IH Hw). constructor; [done|].
  destruct Hh as [|y l Hxy]; [constructor|]. apply Forall_cons in Hw as [Hy Hw]. apply StronglySorted_inv in IH as [_ IH].
  constructor; [done|]. rewrite Forall_forall in IH, Hw |- *. intros z Hz. eapply candidate_le_trans; [..|exact Hxy|by apply IH]; auto.
Qed.

Section candidates.
Context {m : BlockMap} {g : base_uint} (T : tree_ok m g).

(** The candidates are the ancestors up to the first one that is too old. *)
Lemma candidates_ok hp np start : m !! hp = Some np →
  indexed m (candidates start (ancestors m hp)) ∧
  ∃ k, map snd (candidates start (ancestors m hp)) = take k (path m hp).
Proof.
  intros H. pattern hp, np. eapply (tree_ind T); [..|exact H]; clear hp np H.
  - intros h n H Ep. rewrite (path_unfold T _ _ H), (ancestors_unfold T _ _ H), Ep. cbn [candidates].
    destruct (_ >=? _); [|split; [constructor|by exists 0%nat]]. split; [|by exists 1%nat]. constructor; [|constructor]. by exists n.
  - intros h n p np H Ep Hp _ [IH1 [k IH2]]. rewrite (path_unfold T _ _ H), (ancestors_unfold T _ _ H), Ep. cbn [candidates].
    destruct (_ >=? _); [|split; [constructor|by exists 0%nat]]. split; [constructor; [by exists n|done]|]. exists (S k). cbn. by f_equal.
Qed.

(** The sorted candidates *)
Lemma sorted_candidates hp np start : keys_wf m → m !! hp = Some np →
  let l := merge_sort candidate_le (rev (candidates start (ancestors m hp))) in
  StronglySorted candidate_le l ∧ indexed m l ∧ NoDup (map snd l) ∧ l ≡ₚ candidates start (ancestors m hp).
Proof.
  intros Hk H l. destruct (candidates_ok hp np start H) as [Hi [k Hsub]].
  assert (Hp : l ≡ₚ candidates start (ancestors m hp)). { unfold l. rewrite merge_sort_Permutation. symmetry. apply Permutation_rev. }
  assert (Hil : indexed m l) by (unfold indexed; by rewrite Hp). split; [|split; [done|split; [|done]]].
  - apply Sorted_strong; [|by apply Sorted_merge_sort, _]. eapply Forall_impl; [exact Hil|]. intros x (n & Hn & _). by eapply Hk.
  - rewrite Hp, Hsub. pose proof (NoDup_path T _ _ H) as Hnd. rewrite <- (take_drop k) in Hnd. by apply NoDup_app in Hnd as [? _].
Qed.

(** *** The last modifier *)

Context (Hg : ∀ n, m !! g = Some n → GeneratedStakeModifier n = true).

Lemma GetLastStakeModifier_ok hp np : m !! hp = Some np →
  ∃ a na, a ∈ path m hp ∧ m !! a = Some na ∧ GeneratedStakeModifier na = true ∧
    GetLastStakeModifier (ancestors m hp) = Some (nd_nStakeModifier na, nd_GetBlockTime na) ∧
    ∀ b nb, b ∈ path m hp → m !! b = Some nb → nd_nHeight na < nd_nHeight nb → GeneratedStakeModifier nb = false.
Proof.
  unfold GetLastStakeModifier. intros H. pattern hp, np. eapply (tree_ind T); [..|exact H]; clear hp np H.
  - intros h n H Ep. destruct (tree_root _ _ T _ _ H Ep) as [-> Hz]. assert (Hgen := Hg _ H). exists g, n.
    rewrite (path_unfold T _ _ H), (ancestors_unfold T _ _ H), Ep. cbn [last_generated]. rewrite Hgen. split; [by left|].
    split; [done|]. split; [done|]. split; [done|]. intros b nb ->%list_elem_of_singleton Hb. simplify_eq. lia.
  - intros h n p np H Ep Hp Hh (a & na & Ha & Hna & Hgen & E & Hlast).
    rewrite (path_unfold T _ _ H), (ancestors_unfold T _ _ H), Ep. rewrite (ancestors_unfold T _ _ Hp) in E |- *.
    set (rest := match nd_pprev np with Some _ => _ | None => _ end) in *.
    change (last_generated ((h, n) :: (p, np) :: rest)) with
      (if negb (GeneratedStakeModifier n) then last_generated ((p, np) :: rest) else (h, n) :: (p, np) :: rest).
    destruct (GeneratedStakeModifier n) eqn:En; cbn [negb].
    + exists h, n. rewrite En. split; [by left|]. split; [done|]. split; [done|]. split; [done|]. intros b nb [->|Hb]%elem_of_cons Hnb Hlt.
      * simplify_eq. lia.
      * destruct (path_height_le T _ _ _ _ Hp Hb Hnb). lia.
    + exists a, na. split; [by right|]. split; [done|]. split; [done|]. split; [done|]. intros b nb [->|Hb]%elem_of_cons Hnb Hlt; [by simplify_eq|eauto].
Qed.
End candidates.

Lemma picked_perm {DG : Digests} m p l l' sel stop h : l ≡ₚ l' → picked m p l sel stop h → picked m p l' sel stop h.
Proof.
  intros E (t & Hin & Hns & Hc). exists t. split; [by rewrite <- E|]. split; [done|].
  destruct Hc as [[Hle Hmin]|Hf]; [left; split; [done|]|right]; intros t' h' Hin'; rewrite <- E in Hin'; eauto.
Qed.

Lemma bits_below r : (∀ i, 64 <= i → Z.testbit r i = false) → 0 <= r < 2 ^ 64.
Proof.
  intros H. assert (r = r mod 2 ^ 64) as ->; [|apply Z.mod_pos_bound; lia]. apply Z.bits_inj'. intros i Hi.
  destruct (Z.lt_ge_cases i 64); [by rewrite Z.mod_pow2_bits_low|]. rewrite Z.mod_pow2_bits_high by lia. by apply H.
Qed.

(** ** The way up *)

Section up.
Context {m : BlockMap} {g : base_uint} (T : tree_ok m g) {best : base_uint} (L : links_ok m best).

(** The blocks above [c] on the main chain, lowest first *)
Definition above (m : BlockMap) (best c : base_uint) : chain := rev (until_fork c (ancestors m best)).

Lemma above_step c nc : c ∈ path m best → m !! c = Some nc → c ≠ best →
  ∃ d nd, nd_pnext nc = Some d ∧ m !! d = Some nd ∧ d ∈ path m best ∧ above m best c = (d, nd) :: above m best d.
Proof.
  intros Hc Hnc Hne. destruct L as [[nb Hb] Hn]. destruct (until_step T _ _ _ _ Hb Hc Hnc Hne) as (d & nd & Hnd & Hd & Ep & E).
  exists d, nd. split; [apply (Hn _ _ _ Hnc); eauto|]. done.
Qed.

Lemma above_best nb : m !! best = Some nb → above m best best = [] ∧ nd_pnext nb = None.
Proof.
  intros Hb. split.
  - unfold above. by rewrite (until_self T _ _ Hb).
  - destruct (nd_pnext nb) as [c|] eqn:E; [|done]. exfalso. apply (next_iff _ _ L _ _ _ Hb) in E as (Hc & nc & Hnc & Ep).
    destruct (tree_prev _ _ T _ _ _ Hnc Ep) as (? & ? & ?). destruct (path_height_le T _ _ _ _ Hb Hc Hnc). simplify_eq. lia.
Qed.

Lemma path_size h n : m !! h = Some n → (length (path m h) <= size m)%nat.
Proof.
  intros H. rewrite <- (size_list_to_set (C := gset base_uint) (path m h)) by by eapply NoDup_path. rewrite <- size_dom.
  apply subseteq_size. intros a Ha. apply elem_of_list_to_set in Ha. destruct (elem_of_path T _ _ _ H Ha) as (na & Hna & _).
  apply elem_of_dom. eauto.
Qed.

Lemma above_size c : c ∈ path m best → (length (above m best c) < size m)%nat.
Proof.
  intros Hc. destruct (best_in _ _ L) as [nb Hb]. pose proof (path_size _ _ Hb) as Hs. destruct (until_fork_split T _ _ _ Hb Hc) as [E _].
  unfold above. rewrite length_rev. unfold path in Hs. rewrite E, length_map, length_app in Hs.
  destruct (elem_of_path T _ _ _ Hb Hc) as (nc & Hnc & _). rewrite (ancestors_unfold T _ _ Hnc) in Hs. cbn in Hs. lia.
Qed.

(** The first block up the chain that generated a modifier late enough *)
Definition late (until : Z) (x : base_uint * Node) : Prop := GeneratedStakeModifier x.2 = true ∧ until <= nd_GetBlockTime x.2.
#[export] Instance late_dec until x : Decision (late until x).
Proof. unfold late. apply _. Defined.

Lemma kernel_loop_ok until k : ∀ c nc fuel height time, c ∈ path m best → m !! c = Some nc → length (above m best c) = k →
  (k < fuel)%nat → time < until →
  kernel_loop fuel m until nc height time =
    Some ((λ x, (nd_nStakeModifier x.2.2, nd_nHeight x.2.2, nd_GetBlockTime x.2.2)) <$> list_find (late until) (above m best c)).
Proof.
  induction k as [|k IH]; intros c nc [|fuel] height time Hc Hnc Hlen Hf Ht; try lia; cbn [kernel_loop];
    destruct (Z.ltb_spec time until); try lia; destruct (decide (c = best)) as [->|Hne].
  - destruct (above_best _ Hnc) as [-> ->]. done.
  - destruct (above_step _ _ Hc Hnc Hne) as (d & nd & _ & _ & _ & E). rewrite E in Hlen. done.
  - destruct (above_best _ Hnc) as [E _]. by rewrite E in Hlen.
  - destruct (above_step _ _ Hc Hnc Hne) as (d & nd & En & Hnd & Hd & E). rewrite En. cbn [mbind option_bind]. rewrite Hnd.
    rewrite E in Hlen |- *. cbn [length] in Hlen. cbn [list_find].
    assert (IH' : ∀ height time, time < until → kernel_loop fuel m until nd height time =
      Some ((λ x, (nd_nStakeModifier x.2.2, nd_nHeight x.2.2, nd_GetBlockTime x.2.2)) <$> list_find (late until) (above m best d))).
    { intros. apply IH; [done|done|lia|lia|done]. }
    assert (Hskip : (λ x : nat * (base_uint * Node), (nd_nStakeModifier x.2.2, nd_nHeight x.2.2, nd_GetBlockTime x.2.2)) <$>
        (prod_map S id <$> list_find (late until) (above m best d)) =
      (λ x, (nd_nStakeModifier x.2.2, nd_nHeight x.2.2, nd_GetBlockTime x.2.2)) <$> list_find (late until) (above m best d)).
    { by destruct (list_find _ _) as [[? ?]|]. }
    destruct (GeneratedStakeModifier nd) eqn:Eg.
    + destruct (Z.lt_ge_cases (nd_GetBlockTime nd) until).
      * rewrite decide_False by (unfold late; cbn; lia). by rewrite Hskip, IH'.
      * rewrite decide_True by done. destruct fuel as [|fuel]; [lia|]. cbn [kernel_loop].
        by destruct (Z.ltb_spec (nd_GetBlockTime nd) until); [lia|].
    + rewrite decide_False by (intros [? _]; cbn in *; congruence). by rewrite Hskip, IH'.
Qed.

Lemma GetKernelStakeModifier_main net h n : m !! h = Some n →
  GetKernelStakeModifier net m h =
    if decide (h ∈ path m best) then
      (λ x, (nd_nStakeModifier x.2.2, nd_nHeight x.2.2, nd_GetBlockTime x.2.2)) <$>
        list_find (late (nd_GetBlockTime n + sections net 64)) (above m best h)
    else None.
Proof.
  intros H. unfold GetKernelStakeModifier. rewrite SelectionInterval_value, H. cbn [mbind option_bind].
  pose proof (sections_64 net) as Hpos. generalize dependent (sections net 64). intros interval Hpos.
  destruct (decide (h ∈ path m best)) as [Hin|Hout].
  - rewrite (kernel_loop_ok _ _ h n _ _ _ Hin H eq_refl); [done| |lia]. pose proof (above_size _ Hin). lia.
  - cbn [kernel_loop]. destruct (Z.ltb_spec (nd_GetBlockTime n) (nd_GetBlockTime n + interval)); [|lia].
    destruct (nd_pnext n) as [c|] eqn:En; [|done]. exfalso. apply Hout. apply (next_iff _ _ L _ _ _ H) in En as (Hc & nc & Hnc & Ep).
    destruct (best_in _ _ L) as [nb Hb]. by eapply (child_in_path T).
Qed.
End up.

(** ** Weights and targets *)

Section weights.
Context {BN : OpenSSL_BN} {BNok : OpenSSL_BN_ok BN} {DG : Digests} {DGok : DigestsOk} (net : bool).

Lemma bn_div_quot a b : bnval b ≠ 0 → ∃ q, bn_div a b = Some q ∧ bnval q = Z.quot (bnval a) (bnval b).
Proof. intros H. destruct (BN_div_law a b H) as (q & r & E & Hq & _). exists q. unfold bn_div. by rewrite E. Qed.

(** Coin-days: whole coins times whole days, rounded towards zero *)
Definition coin_days (nValueIn nIntervalBeginning nIntervalEnd : Z) : Z :=
  Z.quot (Z.quot (nValueIn * GetWeight net nIntervalBeginning nIntervalEnd) COIN) nOneDay.

Lemma minage_range : 0 <= nStakeMinAge net < 2 ^ 32.
Proof. destruct net; vm_compute; split; congruence || done. Qed.

Lemma coin_day_weight_ok v a b : 0 <= v < 2 ^ 63 → 0 <= a < 2 ^ 32 → 0 <= b < 2 ^ 32 →
  ∃ w, coin_day_weight net v a b = Some w ∧ bnval w = coin_days v a b.
Proof.
  intros Hv Ha Hb. unfold coin_day_weight, coin_days. pose proof minage_range as Hm.
  assert (Hw : - 2 ^ 63 <= GetWeight net a b < 2 ^ 63).
  { unfold GetWeight, nStakeMaxAge, nOneDay. lia. }
  destruct (bn_div_quot (bn_mul (CBigNum_int64 v) (CBigNum_int64 (GetWeight net a b))) (CBigNum_int64 COIN)) as (x & -> & Hx);
    [by rewrite CBigNum_int64_ok|]. cbn [mbind option_bind].
  destruct (bn_div_quot x (CBigNum_int32 nOneDay)) as (y & -> & Hy); [by rewrite CBigNum_int32_ok|].
  exists y. split; [done|]. rewrite Hy, Hx. unfold bn_mul. by rewrite BN_mul_law, !CBigNum_int64_ok, CBigNum_int32_ok by (lia || done).
Qed.

Lemma quot_mono a b c : 0 < c → a <= b → Z.quot a c <= Z.quot b c.
Proof. intros. by apply Z.quot_le_mono. Qed.

Lemma coin_days_bound v a b T : 0 <= v → 0 <= T →
  coin_days v a b * T <= T * v * nStakeMaxAge / COIN / nOneDay ∧ 0 <= T * v * nStakeMaxAge / COIN / nOneDay.
Proof.
  intros Hv HT. assert (Hle : coin_days v a b <= v * nStakeMaxAge / (COIN * nOneDay)).
  { rewrite <- Z.div_div by (cbv; congruence || done). rewrite <- (Z.quot_div_nonneg (v * nStakeMaxAge) COIN) by (unfold nStakeMaxAge, nOneDay, COIN; lia).
    rewrite <- Z.quot_div_nonneg; [|apply Z.quot_pos; [unfold nStakeMaxAge, nOneDay; lia|done]|done].
    apply quot_mono; [done|]. apply quot_mono; [done|]. apply Z.mul_le_mono_nonneg_l; [done|]. unfold GetWeight. lia. }
  assert (Hpos : 0 <= T * v * nStakeMaxAge) by (unfold nStakeMaxAge, nOneDay; lia).
  split; [|apply Z.div_pos; [apply Z.div_pos|]; done]. rewrite Z.div_div by (cbv; congruence || done).
  transitivity (v * nStakeMaxAge / (COIN * nOneDay) * T); [by apply Z.mul_le_mono_nonneg_r|].
  rewrite Z.mul_comm, <- Z.mul_assoc. apply Z.div_mul_le; [|done..]. unfold nStakeMaxAge, nOneDay. lia.
Qed.

Lemma max_target_ok nBits v : 0 <= v < 2 ^ 63 → 0 <= bnval (bn_SetCompact nBits) →
  ∃ t, max_target nBits v = Some t ∧ bnval t = bnval (bn_SetCompact nBits) * v * nStakeMaxAge / COIN / nOneDay.
Proof.
  intros Hv HT. unfold max_target. assert (Hpos : 0 <= bnval (bn_SetCompact nBits) * v * nStakeMaxAge) by (unfold nStakeMaxAge, nOneDay; lia).
  assert (E : bnval (bn_mul (bn_mul (bn_SetCompact nBits) (CBigNum_int64 v)) (CBigNum_uint32 nStakeMaxAge)) =
    bnval (bn_SetCompact nBits) * v * nStakeMaxAge).
  { unfold bn_mul, CBigNum_uint32. rewrite !BN_mul_law, CBigNum_int64_ok, setuint32_ok by (unfold nStakeMaxAge, nOneDay; lia). done. }
  destruct (bn_div_pos _ (CBigNum_int64 COIN) (eq_ind_r (Z.le 0) Hpos E)) as (x & -> & Hx); [by rewrite CBigNum_int64_ok|].
  cbn [mbind option_bind]. rewrite E, CBigNum_int64_ok in Hx by done.
  destruct (bn_div_pos x (CBigNum_int32 nOneDay)) as (y & -> & Hy); [rewrite Hx; by apply Z.div_pos|by rewrite CBigNum_int32_ok|].
  exists y. split; [done|]. by rewrite Hy, Hx, CBigNum_int32_ok.
Qed.

(** The top limb *)
Lemma Get32_top a : wf W256 a → Get32 a 7 = val a / 2 ^ 224.
Proof.
  intros Ha. destruct (wf_snoc_inv 7 a Ha) as (x & t & -> & Hx & Ht). rewrite val_snoc, (wf_length _ _ Ht). unfold Get32.
  rewrite app_nth2 by (rewrite (wf_length _ _ Ht); lia). rewrite (wf_length _ _ Ht). cbn [nth Nat.sub].
  pose proof (val_range _ _ Ht) as Hr. change (modulus 7) with (2 ^ 224) in *. rewrite Z.mul_comm, Z.div_add by lia. rewrite Z.div_small by done. done.
Qed.

Lemma kernel_hash_wf kernel t : wf W256 (kernel_hash kernel t).
Proof. apply Hash_wf. Qed.
End weights.

(** ** The searches *)

Section scan.
Context {BN : OpenSSL_BN} {BNok : OpenSSL_BN_ok BN} {DG : Digests} {DGok : DigestsOk} (net : bool).
Context (kernel : list Z) (nBits tIn v : Z) (Hv : 0 <= v < 2 ^ 63) (HtIn : 0 <= tIn < 2 ^ 32).
Let T := bnval (bn_SetCompact nBits).
Context (HT : 0 <= T) (Hmax : T * v * nStakeMaxAge / COIN / nOneDay < 2 ^ 256).

(** The kernel at a time meets the target of the coin's weight. *)
Definition solves (t : Z) : Prop := val (kernel_hash kernel t) <= coin_days net v tIn t * T.
#[export] Instance solves_dec t : Decision (solves t).
Proof. unfold solves. apply _. Defined.
Definition solution (t : Z) : base_uint * Z := (kernel_hash kernel t, t).

Lemma meets_target_ok t : 0 <= t < 2 ^ 32 → meets_target net nBits tIn v t (kernel_hash kernel t) = Some (bool_decide (solves t)).
Proof.
  intros Ht. unfold meets_target. destruct (coin_day_weight_ok net v tIn t Hv HtIn Ht) as (w & -> & Hw). cbn [mbind option_bind]. f_equal.
  rewrite bn_ge_ok, setuint256_ok by apply kernel_hash_wf. unfold bn_mul. rewrite BN_mul_law, Hw.
  apply Bool.eq_iff_eq_true. rewrite bool_decide_eq_true. unfold solves, T. lia.
Qed.

(** The early filters drop no solution. *)
Lemma solves_below_max mt t : max_target nBits v = Some mt → solves t →
  val (kernel_hash kernel t) <= val (getuint256 mt) ∧ Get32 (kernel_hash kernel t) 7 <= Get32 (getuint256 mt) 7.
Proof.
  intros Em Hs. destruct (max_target_ok nBits v Hv HT) as (mt' & Em' & Hmt). rewrite Em in Em'. injection Em' as <-.
  destruct (getuint256_ok mt) as [Hwf Hval]. fold T in Hmt. destruct (coin_days_bound net v tIn t T) as [Hle Hge]; [lia|lia|].
  rewrite Hmt, Z.abs_eq, Z.mod_small in Hval by lia. assert (val (kernel_hash kernel t) <= val (getuint256 mt)) by (unfold solves in Hs; lia).
  split; [done|]. rewrite !Get32_top by (done || apply kernel_hash_wf). apply Z.div_le_mono; [lia|done].
Qed.

Lemma worker_loop_ok fShutdown mt times sols : max_target nBits v = Some mt → (∀ t, t ∈ times → fShutdown t = false ∧ 0 <= t < 2 ^ 32) →
  worker_loop net fShutdown kernel nBits tIn v (Get32 (getuint256 mt) 7) times sols = Some (sols ++ map solution (filter solves times)).
Proof.
  intros Em. revert sols. induction times as [|t times IH]; intros sols Ht; cbn [worker_loop].
  { by rewrite app_nil_r. }
  destruct (Ht t) as [-> Hr]; [by left|]. rewrite filter_cons. destruct (Z.gtb_spec (Get32 (kernel_hash kernel t) 7) (Get32 (getuint256 mt) 7)).
  - rewrite decide_False; [apply IH; intros; apply Ht; by right|]. intros Hs. apply (solves_below_max mt) in Hs as [_ ?]; [lia|done].
  - rewrite meets_target_ok by done. cbn [mbind option_bind]. rewrite IH by (intros; apply Ht; by right).
    case_bool_decide as Hs; [rewrite decide_True by done|by rewrite decide_False]. by rewrite <- app_assoc.
Qed.

Lemma backward_loop_ok fShutdown mt times : max_target nBits v = Some mt → (∀ t, t ∈ times → fShutdown t = false ∧ 0 <= t < 2 ^ 32) →
  backward_loop net fShutdown kernel nBits tIn v (getuint256 mt) times = Some (solution <$> head (filter solves times)).
Proof.
  intros Em. induction times as [|t times IH]; intros Ht; cbn [backward_loop]; [done|].
  destruct (Ht t) as [-> Hr]; [by left|]. rewrite filter_cons. destruct (getuint256_ok mt) as [Hwf _].
  rewrite (bu_gt_ok W256) by (done || apply kernel_hash_wf). destruct (Z.ltb_spec (val (getuint256 mt)) (val (kernel_hash kernel t))).
  - rewrite decide_False; [apply IH; intros; apply Ht; by right|]. intros Hs. apply (solves_below_max mt) in Hs as [? _]; [lia|done].
  - rewrite meets_target_ok by done. cbn [mbind option_bind].
    case_bool_decide as Hs; [by rewrite decide_True by done|]. rewrite decide_False by done. apply IH. intros; apply Ht; by right.
Qed.

Lemma Do_generic_ok fShutdown first last : (∀ t, fShutdown t = false) → 0 <= first → last < 2 ^ 32 →
  Do_generic net fShutdown kernel nBits tIn v first last = Some (map solution (filter solves (seqZ first (last - first)))).
Proof.
  intros Hsd Hf Hl. unfold Do_generic. destruct (max_target_ok nBits v Hv HT) as (mt & Em & _). rewrite Em. cbn [mbind option_bind].
  apply (worker_loop_ok _ _ _ []); [done|]. intros t Ht. apply elem_of_seqZ in Ht. split; [done|lia].
Qed.

(** The workers' parts are consecutive. *)
Lemma workers_ok fShutdown first nPart : 0 <= first → 0 <= nPart → (∀ t, fShutdown t = false) → ∀ n k : nat,
  first + nPart * Z.of_nat (k + n) < 2 ^ 32 →
  ∃ found, mapM (λ i, Do_generic net fShutdown kernel nBits tIn v (u32 (first + nPart * i)) (u32 (first + nPart * (i + 1))))
      (seqZ (Z.of_nat k) (Z.of_nat n)) = Some found ∧
    concat found = map solution (filter solves (seqZ (first + nPart * Z.of_nat k) (nPart * Z.of_nat n))).
Proof.
  intros Hf Hp Hsd. induction n as [|n IH]; intros k Hb.
  { exists []. rewrite Z.mul_0_r. done. }
  destruct (IH (S k)) as (found & E & Hc); [lia|]. rewrite seqZ_nat by lia. replace (S n - 1)%nat with n by lia. cbn [mapM].
  rewrite Do_generic_ok by (done || rewrite ?u32_small by nia; nia). rewrite !u32_small by nia.
  replace (first + nPart * (Z.of_nat k + 1) - (first + nPart * Z.of_nat k)) with nPart by lia.
  cbn [mbind option_bind]. rewrite E. cbn [mbind option_bind mret option_ret]. eexists. split; [done|]. cbn [concat]. rewrite Hc, <- map_app, <- filter_app.
  replace (nPart * Z.of_nat (S n)) with (nPart + nPart * Z.of_nat n) by lia. rewrite seqZ_app by lia.
  do 4 f_equal. lia.
Qed.
End scan.

(** ** Properties *)

(** C4. The stake modifier is always computed, and every bit of it is accounted for:
    in a tree whose first block carries a modifier, [ComputeNextStakeModifier]
    keeps the modifier of the last generating block [a] while the parent (or,
    under the fixed-interval rule, the new block) is in the same interval.
    Otherwise, with [n] the number of candidates, it selects [min 64 n]
    different blocks, the one of round [i] being the unselected candidate of
    smallest rank with a time up to the end of section [i], or the first
    unselected one if none is that old; bit [i] of the new modifier is the entropy
    bit of that block, and the remaining bits are zero. *)
Theorem ComputeNextStakeModifier_ok {DG : Digests} {DGok : DigestsOk} net m g hp np nTime : tree_ok m g → keys_wf m →
  (∀ n, m !! g = Some n → GeneratedStakeModifier n = true) → m !! hp = Some np →
  ∃ a na, a ∈ path m hp ∧ m !! a = Some na ∧ GeneratedStakeModifier na = true ∧
  (∀ b nb, b ∈ path m hp → m !! b = Some nb → nd_nHeight na < nd_nHeight nb → GeneratedStakeModifier nb = false) ∧
  let I := nModifierInterval net in
  let start := nd_GetBlockTime np / I * I - sections net 64 in
  let cands := candidates start (ancestors m hp) in
  if (nd_GetBlockTime na / I >=? nd_GetBlockTime np / I) ||
     ((nd_GetBlockTime na / I >=? nTime / I) && IsFixedModifierInterval net nTime)
  then ComputeNextStakeModifier net m (Some hp) nTime = Some (nd_nStakeModifier na, false)
  else ∃ r picks, ComputeNextStakeModifier net m (Some hp) nTime = Some (r, true) ∧ 0 <= r < 2 ^ 64 ∧
    length picks = Nat.min 64 (length cands) ∧ NoDup picks ∧
    (∀ i h, picks !! i = Some h →
       picked m (nd_nStakeModifier na) cands (list_to_set (take i picks)) (start + sections net (S i)) h) ∧
    (∀ i, 0 <= i → Z.testbit r i = match picks !! Z.to_nat i with Some h => entropy_of m h | None => false end).
Proof.
  intros T Hk Hg H. destruct (GetLastStakeModifier_ok T Hg hp np H) as (a & na & Ha & Hna & Hgen & El & Hlast). exists a, na.
  split; [done|]. split; [done|]. split; [done|]. split; [done|]. unfold ComputeNextStakeModifier. rewrite SelectionInterval_value, El.
  assert (head (ancestors m hp) = Some (hp, np)) as -> by by rewrite (ancestors_unfold T _ _ H).
  cbn [mbind option_bind]. set (I := nModifierInterval net).
  set (start := nd_GetBlockTime np / I * I - sections net 64). cbv zeta.
  destruct (nd_GetBlockTime na / I >=? nd_GetBlockTime np / I); [done|]. cbn [orb].
  destruct (_ && _); [done|]. destruct (sorted_candidates T hp np start Hk H) as (Hs & Hi & Hnd & Hp).
  set (l := merge_sort candidate_le _) in *. assert (Hlen : length l = length (candidates start (ancestors m hp))) by by rewrite Hp.
  destruct (select_rounds_ok net m (nd_nStakeModifier na) l Hs Hi Hnd start (Nat.min 64 (length l)) 0 ∅ 0)
    as (picks & r & Er & Hpl & Hpn & _ & Hpick & Hbits); [lia|rewrite size_empty; lia|].
  change (sections net 0) with 0 in Er. rewrite Z.add_0_r in Er.
  replace (Z.min 64 (Z.of_nat (length l))) with (Z.of_nat (Nat.min 64 (length l))) by lia.
  change (seqZ 0) with (seqZ (Z.of_nat 0)). rewrite Er. cbn [mbind option_bind].
  assert (Hb : ∀ i, 0 <= i → Z.testbit r i = match picks !! Z.to_nat i with Some h => entropy_of m h | None => false end).
  { intros i Hi0. rewrite Hbits, Z.bits_0, decide_True, Nat.sub_0_r by (clear -Hi0; lia). done. }
  exists r, picks. split; [done|]. split.
  { apply bits_below. intros i Hi64. rewrite Hb by (clear -Hi64; lia). by rewrite lookup_ge_None_2 by (clear -Hpl Hi64; lia). }
  split; [by rewrite <- Hlen|]. split; [done|]. split; [|done]. intros i h Hih. specialize (Hpick i h Hih).
  rewrite union_empty_l_L in Hpick. cbn [Nat.add] in Hpick. exact (picked_perm _ _ _ _ _ _ _ Hp Hpick).
Qed.

#[local] Existing Instances sample_digests sample_digests_ok.

Definition keys_wfb (m : BlockMap) : bool := map_forallb (λ h _, wfb W256 h) m.
Lemma keys_wfb_ok m : keys_wfb m = true → keys_wf m.
Proof. intros E h n H. apply wfb_ok. exact (map_forallb_ok _ _ _ _ E H). Qed.
Lemma sample_keys_wf : keys_wf sample_tree.
Proof. apply keys_wfb_ok. vm_compute. reflexivity. Qed.
Lemma sample_genesis_generated n : sample_tree !! sample_hash 1 = Some n → GeneratedStakeModifier n = true.
Proof. vm_compute. by intros [= <-]. Qed.

Lemma ComputeNextStakeModifier_ok_witness :
  ∃ a na, a ∈ path sample_tree (sample_hash 3) ∧ sample_tree !! a = Some na ∧ GeneratedStakeModifier na = true ∧
  (∀ b nb, b ∈ path sample_tree (sample_hash 3) → sample_tree !! b = Some nb → nd_nHeight na < nd_nHeight nb →
     GeneratedStakeModifier nb = false) ∧
  let I := nModifierInterval false in
  let start := nd_GetBlockTime (sample_node 2 (Some 2) (Some 4)) / I * I - sections false 64 in
  let cands := candidates start (ancestors sample_tree (sample_hash 3)) in
  if (nd_GetBlockTime na / I >=? nd_GetBlockTime (sample_node 2 (Some 2) (Some 4)) / I) ||
     ((nd_GetBlockTime na / I >=? 1400021600 / I) && IsFixedModifierInterval false 1400021600)
  then ComputeNextStakeModifier false sample_tree (Some (sample_hash 3)) 1400021600 = Some (nd_nStakeModifier na, false)
  else ∃ r picks, ComputeNextStakeModifier false sample_tree (Some (sample_hash 3)) 1400021600 = Some (r, true) ∧ 0 <= r < 2 ^ 64 ∧
    length picks = Nat.min 64 (length cands) ∧ NoDup picks ∧
    (∀ i h, picks !! i = Some h →
       picked sample_tree (nd_nStakeModifier na) cands (list_to_set (take i picks)) (start + sections false (S i)) h) ∧
    (∀ i, 0 <= i → Z.testbit r i = match picks !! Z.to_nat i with Some h => entropy_of sample_tree h | None => false end).
Proof.
  apply (ComputeNextStakeModifier_ok false sample_tree (sample_hash 1) (sample_hash 3) (sample_node 2 (Some 2) (Some 4)) 1400021600).
  - exact sample_tree_ok.
  - exact sample_keys_wf.
  - exact sample_genesis_generated.
  - vm_compute. reflexivity.
Defined.
Example sample_modifier : ComputeNextStakeModifier false sample_tree (Some (sample_hash 3)) 1400021600 = Some (3, true).
Proof. vm_compute. reflexivity. Qed.

Lemma kernel_prefix_hash {DG : Digests} a b c d e t :
  Hash (kernel_prefix a b c d e ++ write_int 4 t) = kernel_hash (kernel_prefix a b c d e) t.
Proof.
  unfold kernel_hash, Hash. rewrite (take_ge (kernel_prefix a b c d e)); [done|].
  unfold kernel_prefix. rewrite !length_app, !length_write_int. lia.
Qed.

(** C3. The kernel check, for a coin in a block of the best chain's tree: the check
    accepts exactly when the coinstake is not older than the coin, the coin's
    block has the minimum age, that block is on the main chain with a later block
    on it that generated a modifier at least a selection interval after it, and
    the hash of the kernel with the first such modifier is at most the coin-day
    weight times the target; the reported target is that product modulo
    [2^256].  The search for the modifier always ends. *)
Theorem CheckStakeKernelHash_ok {BN : OpenSSL_BN} {BNok : OpenSSL_BN_ok BN} {DG : Digests} {DGok : DigestsOk}
    net scrypt m g best blockFrom n nBits off txPrev (o : COutPoint) t h0 t0 :
  tree_ok m g → links_ok m best → m !! blk_GetHash scrypt blockFrom = Some n →
  let v := nValue (nth (Z.to_nat (op_n o)) (vout txPrev) CTxOut_SetNull) in
  0 <= v < 2 ^ 63 → 0 <= nTime txPrev < 2 ^ 32 → 0 <= t < 2 ^ 32 →
  ∃ ok hp tp, CheckStakeKernelHash net scrypt m nBits blockFrom off txPrev o t h0 t0 = Some (ok, hp, tp) ∧
    (ok = true → val tp = (coin_days net v (nTime txPrev) t * bnval (bn_SetCompact nBits)) mod 2 ^ 256) ∧
    (ok = true ↔
     nTime txPrev <= t ∧ u32 (u32 (blk_GetBlockTime blockFrom) + nStakeMinAge net) <= t ∧
     blk_GetHash scrypt blockFrom ∈ path m best ∧
     ∃ i b nb, list_find (late (nd_GetBlockTime n + sections net 64)) (above m best (blk_GetHash scrypt blockFrom)) = Some (i, (b, nb)) ∧
       let K := kernel_prefix (nd_nStakeModifier nb) (u32 (blk_GetBlockTime blockFrom)) off (nTime txPrev) (op_n o) in
       hp = kernel_hash K t ∧ solves net K nBits (nTime txPrev) v t).
Proof.
  intros Tr L H v Hv Hp Ht. unfold CheckStakeKernelHash.
  destruct (Z.ltb_spec t (nTime txPrev)); [eexists false, _, _; split; [done|]; split; [done|]; split; [done|lia]|].
  destruct (Z.gtb_spec (u32 (u32 (blk_GetBlockTime blockFrom) + nStakeMinAge net)) t);
    [eexists false, _, _; split; [done|]; split; [done|]; split; [done|lia]|].
  destruct (coin_day_weight_ok net v (nTime txPrev) t Hv Hp Ht) as (w & Ew & Hw). fold v. rewrite Ew. cbn [mbind option_bind].
  rewrite (GetKernelStakeModifier_main Tr L net _ _ H). destruct (decide _) as [Hin|Hout].
  2: { eexists false, _, _. split; [done|]. split; [done|]. split; [done|]. by intros (_ & _ & ? & _). }
  generalize (nd_GetBlockTime n + sections net 64). intros limit.
  destruct (list_find _ _) as [[i [b nb]]|] eqn:Ef; cbn [fmap option_fmap option_map fst snd].
  2: { eexists false, _, _. split; [done|]. split; [done|]. split; [done|]. by intros (_ & _ & _ & ? & ? & ? & ? & _). }
  rewrite kernel_prefix_hash, bn_gt_ok, setuint256_ok by apply kernel_hash_wf. unfold bn_mul. rewrite BN_mul_law, Hw.
  destruct (getuint256_ok (BN_mul w (bn_SetCompact nBits))) as [_ Htp]. rewrite BN_mul_law, Hw in Htp.
  set (K := kernel_prefix _ _ _ _ _). assert (Hs : solves net K nBits (nTime txPrev) v t ↔
    (coin_days net v (nTime txPrev) t * bnval (bn_SetCompact nBits) <? val (kernel_hash K t)) = false) by (unfold solves; lia).
  pose proof (val_range _ _ (kernel_hash_wf K t)) as Hr. destruct (_ <? _) eqn:El.
  - eexists false, _, _. split; [done|]. split; [done|]. split; [done|]. intros (_ & _ & _ & i' & b' & nb' & [= <- <- <-] & _ & Hs').
    fold K in Hs'. apply Hs in Hs'. done.
  - eexists true, _, _. split; [done|]. split; [intros _; rewrite Htp, Z.abs_eq; [done|lia]|]. split; [intros _|done].
    split; [done|]. split; [done|]. split; [done|]. exists i, b, nb. split; [done|]. split; [done|]. by apply Hs.
Qed.

(** The last element of an interval that satisfies a predicate *)
Lemma last_in_interval (P : Z → Prop) `{∀ t, Decision (P t)} first (n : nat) :
  match head (filter P (rev (seqZ (first + 1) (Z.of_nat n)))) with
  | Some t => first < t <= first + Z.of_nat n ∧ P t ∧ ∀ t', t < t' <= first + Z.of_nat n → ¬ P t'
  | None => ∀ t', first < t' <= first + Z.of_nat n → ¬ P t'
  end.
Proof.
  induction n as [|n IH]; [cbn; intros t' ?; lia|]. rewrite seqZ_S, rev_app_distr. cbn [rev app]. rewrite filter_cons.
  destruct (decide (P (first + 1 + Z.of_nat n))) as [HP|HP]; cbn [head].
  - split; [lia|]. split; [done|intros t' ?; lia].
  - destruct (head _) as [t|].
    + destruct IH as (Hr & Ht & Hl). split; [lia|]. split; [done|]. intros t' Ht'.
      destruct (decide (t' = first + 1 + Z.of_nat n)) as [->|]; [done|apply Hl; lia].
    + intros t' Ht'. destruct (decide (t' = first + 1 + Z.of_nat n)) as [->|]; [done|apply IH; lia].
Qed.

(** The backward search returns the latest solution of its interval *)
Lemma ScanKernelBackward_ok {BN : OpenSSL_BN} {BNok : OpenSSL_BN_ok BN} {DG : Digests} {DGok : DigestsOk} net fShutdown kernel nBits tIn v first last :
  0 <= v < 2 ^ 63 → 0 <= tIn < 2 ^ 32 → 0 <= bnval (bn_SetCompact nBits) →
  bnval (bn_SetCompact nBits) * v * nStakeMaxAge / COIN / nOneDay < 2 ^ 256 → (∀ t, fShutdown t = false) → 0 <= first <= last → last < 2 ^ 32 →
  ∃ r, ScanKernelBackward net fShutdown kernel nBits tIn v (last, first) = Some r ∧
    match r with
    | Some (h, t) => first < t <= last ∧ h = kernel_hash kernel t ∧ solves net kernel nBits tIn v t ∧
        ∀ t', t < t' <= last → ¬ solves net kernel nBits tIn v t'
    | None => ∀ t', first < t' <= last → ¬ solves net kernel nBits tIn v t'
    end.
Proof.
  intros Hv Ht HT Hmax Hsd Hf Hl. destruct (max_target_ok nBits v Hv HT) as (mt & Em & _). unfold ScanKernelBackward. rewrite Em. cbn [mbind option_bind fst snd].
  rewrite (backward_loop_ok net kernel nBits tIn v Hv Ht HT Hmax); [|done|].
  2: { intros t Hin. rewrite elem_of_rev in Hin. apply elem_of_seqZ in Hin. split; [done|lia]. }
  eexists. split; [done|]. pose proof (last_in_interval (solves net kernel nBits tIn v) first (Z.to_nat (last - first))) as Hlast.
  rewrite Z2Nat.id in Hlast by lia. replace (first + (last - first)) with last in Hlast by lia.
  destruct (head _) as [t|]; cbn [fmap option_fmap option_map solution]; [|done]. destruct Hlast as (? & ? & ?). done.
Qed.

(** C38. The searches find exactly the kernels that meet the target.  When the
    largest target of the coin fits 256 bits (larger ones are cut off, and solutions
    lost) and no shutdown stops the search, neither the comparison with it
    ([ScanKernelBackward]) nor the one of the top 32 bits ([Do_generic]) drops a
    solution: the backward search returns the latest time of its interval that
    solves the kernel, and none only if there is none; the forward search on
    [nThreads] threads returns, in order, all solutions of the first
    [(last - first) / nThreads * nThreads] seconds of its interval. *)
Theorem ScanKernel_exact {BN : OpenSSL_BN} {BNok : OpenSSL_BN_ok BN} {DG : Digests} {DGok : DigestsOk}
    net fShutdown kernel nBits tIn v first last nThreads :
  0 <= v < 2 ^ 63 → 0 <= tIn < 2 ^ 32 → 0 <= bnval (bn_SetCompact nBits) →
  bnval (bn_SetCompact nBits) * v * nStakeMaxAge / COIN / nOneDay < 2 ^ 256 → (∀ t, fShutdown t = false) →
  0 <= first <= last → last < 2 ^ 32 → 0 < nThreads →
  (∃ r, ScanKernelBackward net fShutdown kernel nBits tIn v (last, first) = Some r ∧
    match r with
    | Some (h, t) => first < t <= last ∧ h = kernel_hash kernel t ∧ solves net kernel nBits tIn v t ∧
        ∀ t', t < t' <= last → ¬ solves net kernel nBits tIn v t'
    | None => ∀ t', first < t' <= last → ¬ solves net kernel nBits tIn v t'
    end) ∧
  ScanKernelForward net fShutdown nThreads kernel nBits tIn v (first, last) =
    Some (map (solution kernel) (filter (solves net kernel nBits tIn v) (seqZ first ((last - first) / nThreads * nThreads)))).
Proof.
  intros Hv Ht HT Hmax Hsd Hf Hl Hn. split.
  - by apply ScanKernelBackward_ok.
  - unfold ScanKernelForward. cbn [fst snd]. rewrite (proj2 (Z.eqb_neq nThreads 0)) by lia. rewrite u32_small by lia.
    assert (Hdiv : 0 <= (last - first) / nThreads * nThreads <= last - first).
    { split; [apply Z.mul_nonneg_nonneg; [apply Z.div_pos; lia|lia]|rewrite Z.mul_comm; apply Z.mul_div_le; lia]. }
    destruct (workers_ok net kernel nBits tIn v Hv Ht HT Hmax fShutdown first ((last - first) / nThreads)) with (n := Z.to_nat nThreads) (k := 0%nat)
      as (found & E & Hc); [lia|apply Z.div_pos; lia|done|rewrite Nat.add_0_l, Z2Nat.id by lia; lia|].
    rewrite Z2Nat.id in E, Hc by lia. change (Z.of_nat 0) with 0 in E, Hc. rewrite Z.mul_0_r, Z.add_0_r in Hc. rewrite E. cbn [mbind option_bind].
    by rewrite Hc.
Qed.

(** A coin in the first block, and a modifier generated 12 days later *)
Definition kernel_tree : BlockMap :=
  list_to_map [(sample_hash 1, sample_node 0 None (Some 2));
               (sample_hash 2, SetStakeModifier (with_index (sample_node 1 (Some 1) None)
                  (mkIndex 1 100 1 0 (bu_of_u64 W256 2) 6 (1400000000 + 12 * 86400) 0x1c00ffff)) 77 true)].
Definition kernel_block : CBlock := mkBlock 6 (bu_of_u64 W256 0) (bu_of_u64 W256 0) 1400000000 0x1c00ffff 0 [] [].
Definition kernel_coin : CTransaction := mkTx 1 1400000000 [] [mkTxOut (1000 * COIN) [81]] 0.

Lemma CheckStakeKernelHash_ok_witness :
  ∃ ok hp tp, CheckStakeKernelHash false (λ _, sample_hash 1) kernel_tree 0x1c00ffff kernel_block 81 kernel_coin
      (mkOutPoint (sample_hash 9) 0) (1400000000 + 40 * 86400) uint256_zero uint256_zero = Some (ok, hp, tp) ∧
    (ok = true → val tp = (coin_days false (1000 * COIN) 1400000000 (1400000000 + 40 * 86400) * bnval (bn_SetCompact 0x1c00ffff)) mod 2 ^ 256) ∧
    (ok = true ↔
     1400000000 <= 1400000000 + 40 * 86400 ∧ u32 (u32 1400000000 + nStakeMinAge false) <= 1400000000 + 40 * 86400 ∧
     sample_hash 1 ∈ path kernel_tree (sample_hash 2) ∧
     ∃ i b nb, list_find (late (1400000000 + sections false 64)) (above kernel_tree (sample_hash 2) (sample_hash 1)) = Some (i, (b, nb)) ∧
       let K := kernel_prefix (nd_nStakeModifier nb) (u32 1400000000) 81 1400000000 0 in
       hp = kernel_hash K (1400000000 + 40 * 86400) ∧ solves false K 0x1c00ffff 1400000000 (1000 * COIN) (1400000000 + 40 * 86400)).
Proof.
  apply (CheckStakeKernelHash_ok false (λ _, sample_hash 1) kernel_tree (sample_hash 1) (sample_hash 2) kernel_block
    (sample_node 0 None (Some 2)) 0x1c00ffff 81 kernel_coin (mkOutPoint (sample_hash 9) 0) (1400000000 + 40 * 86400)).
  - apply tree_okb_ok. vm_compute. reflexivity.
  - apply links_okb_ok. vm_compute. reflexivity.
  - vm_compute. reflexivity.
  - vm_compute. split; congruence.
  - vm_compute. split; congruence.
  - vm_compute. split; congruence.
Defined.

Lemma ScanKernel_exact_witness :
  let K := kernel_prefix 77 1400000000 81 1400000000 0 in
  (∃ r, ScanKernelBackward false (λ _, false) K 0x1f00ffff 1400000000 (10 * COIN) (1403456010, 1403456000) = Some r ∧
    match r with
    | Some (h, t) => 1403456000 < t <= 1403456010 ∧ h = kernel_hash K t ∧ solves false K 0x1f00ffff 1400000000 (10 * COIN) t ∧
        ∀ t', t < t' <= 1403456010 → ¬ solves false K 0x1f00ffff 1400000000 (10 * COIN) t'
    | None => ∀ t', 1403456000 < t' <= 1403456010 → ¬ solves false K 0x1f00ffff 1400000000 (10 * COIN) t'
    end) ∧
  ScanKernelForward false (λ _, false) 4 K 0x1f00ffff 1400000000 (10 * COIN) (1403456000, 1403456010) =
    Some (map (solution K) (filter (solves false K 0x1f00ffff 1400000000 (10 * COIN)) (seqZ 1403456000 ((1403456010 - 1403456000) / 4 * 4)))).
Proof.
  apply ScanKernel_exact.
  - vm_compute; split; (reflexivity || congruence).
  - vm_compute; split; (reflexivity || congruence).
  - vm_compute; (reflexivity || congruence).
  - vm_compute; (reflexivity || congruence).
  - reflexivity.
  - vm_compute; split; (reflexivity || congruence).
  - vm_compute; (reflexivity || congruence).
  - vm_compute. congruence.
Defined.
