(* ===== verification/BestChain.v ===== *)
(** * The best chain (src/main.cpp)

    [SetBestChain], with [SetBestChainInner] and [Reorganize], moves the best
    chain to a new block: blocks of the old branch are disconnected from the
    transaction index, those of the new branch connected, and the [pnext] links,
    the memory pool and the globals that describe the best chain follow.
    [AddToBlockIndex] enters a block into the tree and makes it the best block if
    its chain has more trust. *)

From stdpp Require Import base list numbers option gmap.
From Stdlib Require Import ZArith Lia.
From S2P Require Import Prelude CheckQueue Uint256 Bignum Serialize Tx Script Interp SigCheck Chain Utxo ScriptStd Mempool Block.
From S2P Require Import ConnectBlock BlockIndex Kernel.

Open Scope Z_scope.

(** ** State

    The globals of src/main.cpp; [cs_txdb] and [cs_dbBest] are what the database
    holds once its transaction is committed: the transaction index and the key
    [hashBestChain]. *)

Record ChainState := mkChainState {
  mapBlockIndex : BlockMap;
  pindexGenesisBlock : option base_uint;
  pindexBest : option base_uint;
  hashBestChain : base_uint;
  nBestHeight : Z;
  nBestChainTrust : base_uint;
  nBestInvalidTrust : base_uint;
  setStakeSeen : gset (COutPoint * Z);
  mapProofOfStake : gmap base_uint base_uint;
  cs_txdb : TxMap;
  cs_dbBest : base_uint;
  cs_mempool : CTxMemPool;
  cs_sigcache : gset sigdata
}.

Definition with_map (s : ChainState) (m : BlockMap) : ChainState :=
  mkChainState m (pindexGenesisBlock s) (pindexBest s) (hashBestChain s) (nBestHeight s) (nBestChainTrust s) (nBestInvalidTrust s)
    (setStakeSeen s) (mapProofOfStake s) (cs_txdb s) (cs_dbBest s) (cs_mempool s) (cs_sigcache s).
Definition with_cache (s : ChainState) (c : gset sigdata) : ChainState :=
  mkChainState (mapBlockIndex s) (pindexGenesisBlock s) (pindexBest s) (hashBestChain s) (nBestHeight s) (nBestChainTrust s)
    (nBestInvalidTrust s) (setStakeSeen s) (mapProofOfStake s) (cs_txdb s) (cs_dbBest s) (cs_mempool s) c.
Definition with_db (s : ChainState) (db : TxMap) (hash : base_uint) : ChainState :=
  mkChainState (mapBlockIndex s) (pindexGenesisBlock s) (pindexBest s) (hashBestChain s) (nBestHeight s) (nBestChainTrust s)
    (nBestInvalidTrust s) (setStakeSeen s) (mapProofOfStake s) db hash (cs_mempool s) (cs_sigcache s).
Definition with_pool (s : ChainState) (M : CTxMemPool) : ChainState :=
  mkChainState (mapBlockIndex s) (pindexGenesisBlock s) (pindexBest s) (hashBestChain s) (nBestHeight s) (nBestChainTrust s)
    (nBestInvalidTrust s) (setStakeSeen s) (mapProofOfStake s) (cs_txdb s) (cs_dbBest s) M (cs_sigcache s).
Definition with_invalid (s : ChainState) (t : base_uint) : ChainState :=
  mkChainState (mapBlockIndex s) (pindexGenesisBlock s) (pindexBest s) (hashBestChain s) (nBestHeight s) (nBestChainTrust s)
    t (setStakeSeen s) (mapProofOfStake s) (cs_txdb s) (cs_dbBest s) (cs_mempool s) (cs_sigcache s).
Definition with_genesis (s : ChainState) (h : base_uint) : ChainState :=
  mkChainState (mapBlockIndex s) (Some h) (pindexBest s) (hashBestChain s) (nBestHeight s) (nBestChainTrust s)
    (nBestInvalidTrust s) (setStakeSeen s) (mapProofOfStake s) (cs_txdb s) (cs_dbBest s) (cs_mempool s) (cs_sigcache s).
Definition with_seen (s : ChainState) (x : gset (COutPoint * Z)) : ChainState :=
  mkChainState (mapBlockIndex s) (pindexGenesisBlock s) (pindexBest s) (hashBestChain s) (nBestHeight s) (nBestChainTrust s)
    (nBestInvalidTrust s) x (mapProofOfStake s) (cs_txdb s) (cs_dbBest s) (cs_mempool s) (cs_sigcache s).
Definition with_proofs (s : ChainState) (x : gmap base_uint base_uint) : ChainState :=
  mkChainState (mapBlockIndex s) (pindexGenesisBlock s) (pindexBest s) (hashBestChain s) (nBestHeight s) (nBestChainTrust s)
    (nBestInvalidTrust s) (setStakeSeen s) x (cs_txdb s) (cs_dbBest s) (cs_mempool s) (cs_sigcache s).
(** [hashBestChain = hash; pindexBest = pindexNew; ...] *)
Definition new_best (s : ChainState) (hash pindexNew : base_uint) (n : Node) : ChainState :=
  mkChainState (mapBlockIndex s) (pindexGenesisBlock s) (Some pindexNew) hash (nd_nHeight n) (nd_nChainTrust n)
    (nBestInvalidTrust s) (setStakeSeen s) (mapProofOfStake s) (cs_txdb s) (cs_dbBest s)
    (mkPool (mapTx (cs_mempool s)) (mapNextTx (cs_mempool s)) (u32 (nTransactionsUpdated (cs_mempool s) + 1))) (cs_sigcache s).

(** [UnloadBlockIndex] *)
Definition UnloadBlockIndex (s : ChainState) : ChainState :=
  let zero := bu_of_u64 W256 0 in
  mkChainState ∅ None None zero 0 zero zero ∅ (mapProofOfStake s) (cs_txdb s) (cs_dbBest s) (cs_mempool s) (cs_sigcache s).

Section BestChain.
Context {BN : OpenSSL_BN} {DG : Digests} (fTestNet : bool).
Variable scrypt_blockhash : list Z → base_uint.
Variable Verify : list Z → base_uint → list Z → bool.
Variable nMaxCacheSize : Z.
Variable random_entry : gset sigdata → sigdata.
(** The clock, the checkpoint data, the rate limiter and the script threads, as
    in [ConnectBlock] and [Mempool] *)
Variable adjustedTime lastCheckpointTime totalBlocksEstimate : Z.
Variable rate_limited fThreads : bool.
(** The block files *)
Variable tx_at : CDiskTxPos → option CTransaction.
Variable block_time_at : Z → Z → option Z.
Variable block_at : Z → Z → option CBlock.
Variable hashGenesis : base_uint.

Definition disk (db : TxMap) : Disk := mkDisk db tx_at block_time_at.
Abbreviation GetHash_blk := (blk_GetHash scrypt_blockhash).

(** [CBlock::ReadFromDisk(pindex)] *)
Definition read_block (h : base_uint) (n : Node) : option CBlock :=
  b ← block_at (bi_nFile (nd_index n)) (bi_nBlockPos (nd_index n));
  if blk_IsProofOfWork b && negb (CheckProofOfWork fTestNet (GetHash_blk b) (blk_nBits b)) then None
  else if bu_ne (GetHash_blk b) h then None
  else Some b.

(** ** Connecting at an index *)

(** [block.ConnectBlock(txdb, pindex)] on the working state of the database
    transaction.  The supply of the index object is set in memory at once. *)
Definition connect_at (pool : gmap base_uint CTransaction) (h : base_uint) (b : CBlock) (m : BlockMap) (db : TxMap)
    (cache : gset sigdata) : option (option (BlockMap * TxMap) * gset sigdata) :=
  n ← m !! h;
  let nPrevSupply := match nd_pprev n with Some p => default 0 (nd_nMoneySupply <$> m !! p) | None => 0 end in
  '(r, cache) ← ConnectBlock fTestNet scrypt_blockhash Verify nMaxCacheSize random_entry adjustedTime lastCheckpointTime totalBlocksEstimate
      pool fThreads (disk db) (index_chain (ancestors m h)) nPrevSupply b false cache;
  match r with
  | BlockRejected _ => Some (None, cache)
  | BlockConnected nMint nMoneySupply db => Some (Some (alter (λ n, with_supply n nMint nMoneySupply) h m, db), cache)
  end.

(** ** [Reorganize] *)

(** The loop over [vDisconnect] *)
Fixpoint disconnect_branch (vDisconnect : chain) (db : TxMap) (vResurrect : list CTransaction) : option (TxMap * list CTransaction) :=
  match vDisconnect with
  | [] => Some (db, vResurrect)
  | (h, n) :: rest =>
      b ← read_block h n;
      db ← DisconnectBlock b db;
      disconnect_branch rest db (vResurrect ++ filter (λ tx, IsCoinBase tx || IsCoinStake tx = false) (vtx b))
  end.

(** The loop over [vConnect]: [None] inside is a failure, after which the map
    keeps the supplies set so far *)
Fixpoint connect_branch (pool : gmap base_uint CTransaction) (vConnect : chain) (m : BlockMap) (db : TxMap) (cache : gset sigdata)
    (vDelete : list CTransaction) : option (BlockMap * gset sigdata * option (TxMap * list CTransaction)) :=
  match vConnect with
  | [] => Some (m, cache, Some (db, vDelete))
  | (h, n) :: rest =>
      match read_block h n with
      | None => Some (m, cache, None)
      | Some b =>
          '(r, cache) ← connect_at pool h b m db cache;
          match r with
          | None => Some (m, cache, None)
          | Some (m, db) => connect_branch pool rest m db cache (vDelete ++ vtx b)
          end
      end
  end.

(** [tx.AcceptToMemoryPool(txdb, false)] over [vResurrect] *)
Fixpoint resurrect (s : ChainState) (vResurrect : list CTransaction) : option ChainState :=
  match vResurrect with
  | [] => Some s
  | tx :: rest =>
      let c := match pindexBest s with Some h => index_chain (ancestors (mapBlockIndex s) h) | None => [] end in
      '(_, M, cache) ← accept fTestNet Verify nMaxCacheSize random_entry lastCheckpointTime adjustedTime rate_limited (disk (cs_txdb s)) c
                         (cs_mempool s) tx false (cs_sigcache s);
      resurrect (with_cache (with_pool s M) cache) rest
  end.
Definition remove_all (s : ChainState) (vDelete : list CTransaction) : ChainState :=
  with_pool s (foldl remove (cs_mempool s) vDelete).

(** The verdict with the state; without the commit the database is unchanged *)
Definition Reorganize (s : ChainState) (pindexNew : base_uint) : option (bool * ChainState) :=
  let m := mapBlockIndex s in
  best ← pindexBest s;
  match find_fork (ancestors m best) (ancestors m pindexNew) with
  | None => Some (false, s)
  | Some pfork =>
      let vDisconnect := until_fork pfork (ancestors m best) in
      let vConnect := rev (until_fork pfork (ancestors m pindexNew)) in
      match disconnect_branch vDisconnect (cs_txdb s) [] with
      | None => Some (false, s)
      | Some (db, vResurrect) =>
          '(m, cache, r) ← connect_branch (mapTx (cs_mempool s)) vConnect m db (cs_sigcache s) [];
          let s := with_cache (with_map s m) cache in
          match r with
          | None => Some (false, s)
          | Some (db, vDelete) =>
              let s := with_db s db pindexNew in
              let s := with_map s (link_all vConnect (unlink_all vDisconnect m)) in
              s ← resurrect s vResurrect;
              Some (true, remove_all s vDelete)
          end
      end
  end.

(** ** [SetBestChain] *)

Definition InvalidChainFound (s : ChainState) (n : Node) : ChainState :=
  if bu_gt (nd_nChainTrust n) (nBestInvalidTrust s) then with_invalid s (nd_nChainTrust n) else s.

Definition SetBestChainInner (s : ChainState) (b : CBlock) (pindexNew : base_uint) : option (bool * ChainState) :=
  let hash := GetHash_blk b in
  n ← mapBlockIndex s !! pindexNew;
  '(r, cache) ← connect_at (mapTx (cs_mempool s)) pindexNew b (mapBlockIndex s) (cs_txdb s) (cs_sigcache s);
  let s := with_cache s cache in
  match r with
  | None => Some (false, InvalidChainFound s n)
  | Some (m, db) =>
      let s := with_db (with_map s m) db hash in
      p ← nd_pprev n;
      let s := with_map s (alter (λ n, with_pnext n (Some pindexNew)) p (mapBlockIndex s)) in
      Some (true, remove_all s (vtx b))
  end.

(** [while (pindexIntermediate->pprev && ...->nChainTrust > pindexBest->nChainTrust)]:
    the postponed blocks, highest first, and [pindexIntermediate] *)
Fixpoint postpone (bestTrust : base_uint) (pindexIntermediate : chain) : chain * option base_uint :=
  match pindexIntermediate with
  | [] => ([], None)
  | (h, n) :: pprev =>
      match pprev with
      | (hp, np) :: _ =>
          if bu_gt (nd_nChainTrust np) bestTrust
          then let '(v, i) := postpone bestTrust pprev in ((h, n) :: v, i)
          else ([], Some h)
      | [] => ([], Some h)
      end
  end.

(** The loop over the postponed blocks, lowest first; a failure ends it *)
Fixpoint connect_further (vpindexSecondary : chain) (s : ChainState) : option ChainState :=
  match vpindexSecondary with
  | [] => Some s
  | (h, n) :: rest =>
      match read_block h n with
      | None => Some s
      | Some b =>
          '(ok, s) ← SetBestChainInner s b h;
          if ok : bool then connect_further rest s else Some s
      end
  end.

Definition SetBestChain (s : ChainState) (b : CBlock) (pindexNew : base_uint) : option (bool * ChainState) :=
  let hash := GetHash_blk b in
  n ← mapBlockIndex s !! pindexNew;
  '(ok, s) ←
    (if bool_decide (pindexGenesisBlock s = None) && bu_eq hash hashGenesis then
       Some (true, with_genesis (with_db s (cs_txdb s) hash) pindexNew)
     else if bu_eq (hashPrevBlock b) (hashBestChain s) then SetBestChainInner s b pindexNew
     else
       best ← pindexBest s;
       nBest ← mapBlockIndex s !! best;
       let '(vpindexSecondary, pindexIntermediate) := postpone (nd_nChainTrust nBest) (ancestors (mapBlockIndex s) pindexNew) in
       pindexIntermediate ← pindexIntermediate;
       '(ok, s) ← Reorganize s pindexIntermediate;
       if negb ok then Some (false, InvalidChainFound s n)
       else s ← connect_further (rev vpindexSecondary) s; Some (true, s));
  if negb (ok : bool) then Some (false, s)
  else
    n ← mapBlockIndex s !! pindexNew;
    Some (true, new_best s hash pindexNew n).

(** ** [AddToBlockIndex] *)

Definition AddToBlockIndex (s : ChainState) (b : CBlock) (nFile nBlockPos : Z) : option (bool * ChainState) :=
  let hash := GetHash_blk b in
  let m := mapBlockIndex s in
  if bool_decide (is_Some (m !! hash)) then Some (false, s)
  else
    let pindexNew := CBlockIndex_new nFile nBlockPos b in
    let pprev := m !! hashPrevBlock b in
    let pindexNew :=
      match pprev with
      | Some np => with_index (with_pprev pindexNew (Some (hashPrevBlock b))) (bi_with_height (nd_index pindexNew) (nd_nHeight np + 1))
      | None => pindexNew
      end in
    let prevs := match pprev with Some _ => index_chain (ancestors m (hashPrevBlock b)) | None => [] end in
    trust ← GetBlockTrust (nd_index pindexNew) prevs;
    let nChainTrust := bu_add (match pprev with Some np => nd_nChainTrust np | None => bu_of_u64 W256 0 end) trust in
    let pindexNew := with_index pindexNew (bi_with_trust (nd_index pindexNew) nChainTrust) in
    bit ← GetStakeEntropyBit fTestNet scrypt_blockhash b (nd_nHeight pindexNew);
    match SetStakeEntropyBit pindexNew bit with
    | None => Some (false, s)
    | Some pindexNew =>
        let proof := if nd_IsProofOfStake pindexNew then mapProofOfStake s !! hash else Some (nd_hashProofOfStake pindexNew) in
        match proof with
        | None => Some (false, s)
        | Some hashProofOfStake =>
            let pindexNew := with_proof pindexNew hashProofOfStake in
            match ComputeNextStakeModifier fTestNet m (nd_pprev pindexNew) (bi_nTime (nd_index pindexNew)) with
            | None => Some (false, s)
            | Some (nStakeModifier, fGeneratedStakeModifier) =>
                let pindexNew := SetStakeModifier pindexNew nStakeModifier fGeneratedStakeModifier in
                if bool_decide (nd_pprev pindexNew = None) && bu_ne hash hashGenesis then None
                else
                  let pindexNew := with_checksum pindexNew (GetStakeModifierChecksum (nd_nStakeModifierChecksum <$> pprev) pindexNew) in
                  if negb (CheckStakeModifierCheckpoints fTestNet (nd_nHeight pindexNew) (nd_nStakeModifierChecksum pindexNew))
                  then Some (false, s)
                  else
                    let s := with_map s (<[hash := pindexNew]> m) in
                    let s :=
                      if nd_IsProofOfStake pindexNew
                      then with_seen s ({[(nd_prevoutStake pindexNew, nd_nStakeTime pindexNew)]} ∪ setStakeSeen s) else s in
                    if bu_gt (nd_nChainTrust pindexNew) (nBestChainTrust s) then SetBestChain s b hash
                    else Some (true, s)
            end
        end
    end.
End BestChain.

(** ** Changes that keep the index of every block *)

Definition same_index (m m' : BlockMap) : Prop :=
  ∀ h, (λ n, (nd_index n, nd_pprev n)) <$> m' !! h = (λ n, (nd_index n, nd_pprev n)) <$> m !! h.
#[export] Instance same_index_equiv : Equivalence same_index.
Proof. split; [by intros m h|intros m m' E h; by rewrite E|intros m1 m2 m3 E1 E2 h; by rewrite E2, E1]. Qed.

Lemma same_index_lookup m m' h n : same_index m m' → m !! h = Some n →
  ∃ n', m' !! h = Some n' ∧ nd_index n' = nd_index n ∧ nd_pprev n' = nd_pprev n.
Proof.
  intros E H. specialize (E h). rewrite H in E. destruct (m' !! h) as [n'|]; [|done]. exists n'. split; [done|].
  injection E as E1 E2. done.
Qed.

Lemma same_index_skel m m' : same_index m m' → same_skel m m'.
Proof.
  intros E h. specialize (E h). destruct (m !! h) as [n|], (m' !! h) as [n'|]; try done. injection E as E1 E2. cbn.
  unfold skel, nd_nHeight. by rewrite E1, E2.
Qed.

Lemma same_index_chain m m' h : same_index m m' → index_chain (ancestors m' h) = index_chain (ancestors m h).
Proof.
  intros E. assert (Hw : ∀ k p, index_chain (walk k m' p) = index_chain (walk k m p)).
  { induction k as [|k IH]; intros [a|]; try done. cbn [walk]. destruct (m !! a) as [n|] eqn:H.
    - destruct (same_index_lookup _ _ _ _ E H) as (n' & -> & Ei & ->). cbn. rewrite Ei. f_equal. apply IH.
    - specialize (E a). rewrite H in E. by destruct (m' !! a). }
  unfold ancestors. destruct (m !! h) as [n|] eqn:H.
  - destruct (same_index_lookup _ _ _ _ E H) as (n' & -> & Ei & _). unfold nd_nHeight. rewrite Ei. apply Hw.
  - specialize (E h). rewrite H in E. by destruct (m' !! h).
Qed.

Lemma alter_same_index f h m : (∀ n, nd_index (f n) = nd_index n ∧ nd_pprev (f n) = nd_pprev n) → same_index m (alter f h m).
Proof.
  intros Hf a. destruct (decide (a = h)) as [->|Hne]; [|by rewrite lookup_alter_ne].
  rewrite lookup_alter_eq. destruct (m !! h) as [n|]; [|done]. cbn. by destruct (Hf n) as [-> ->].
Qed.
Lemma alter_same_next f h m a : (∀ n, nd_pnext (f n) = nd_pnext n) → next_of (alter f h m) a = next_of m a.
Proof.
  intros Hf. unfold next_of. destruct (decide (a = h)) as [->|Hne]; [|by rewrite lookup_alter_ne].
  rewrite lookup_alter_eq. destruct (m !! h) as [n|]; [|done]. cbn. by rewrite Hf.
Qed.

Lemma set_prev_next_index n v m : same_index m (set_prev_next n v m).
Proof. unfold set_prev_next. destruct (nd_pprev n); [|done]. by apply alter_same_index. Qed.
Lemma unlink_all_index D m : same_index m (unlink_all D m).
Proof.
  revert m. induction D as [|[h n] D IH]; intros m; [done|]. cbn. etransitivity; [apply set_prev_next_index|apply IH].
Qed.
Lemma link_all_index C m : same_index m (link_all C m).
Proof.
  revert m. induction C as [|[h n] C IH]; intros m; [done|]. cbn. etransitivity; [apply set_prev_next_index|apply IH].
Qed.

Lemma links_same m m' best : same_skel m m' → (∀ h, next_of m' h = next_of m h) → links_ok m best → links_ok m' best.
Proof.
  intros E En [[nb Hb] Hn]. split. { destruct (same_skel_lookup _ _ _ _ E Hb) as (? & ? & _). eauto. }
  assert (E' : same_skel m' m) by by symmetry.
  intros h n' c H'. destruct (same_skel_lookup _ _ _ _ E' H') as (n & H & Ep & _). rewrite (same_skel_path _ _ _ E).
  assert (nd_pnext n' = nd_pnext n) as ->. { specialize (En h). unfold next_of in En. rewrite H, H' in En. exact En. }
  rewrite (Hn _ _ _ H). split; intros (Hc & nc & Hnc & Epc); (split; [done|]).
  - destruct (same_skel_lookup _ _ _ _ E Hnc) as (nc' & ? & Ec & _). exists nc'. by rewrite Ec.
  - destruct (same_skel_lookup _ _ _ _ E' Hnc) as (nc' & ? & Ec & _). exists nc'. by rewrite Ec.
Qed.

(** Linking depends on the parents of the blocks alone. *)
Definition ends (c : chain) : list (base_uint * option base_uint) := map (λ x, (x.1, nd_pprev x.2)) c.

Lemma unlink_all_ends D D' m : ends D = ends D' → unlink_all D m = unlink_all D' m.
Proof.
  revert D' m. induction D as [|[h n] D IH]; intros [|[h' n'] D'] m E; try done. injection E as -> Ep E. cbn.
  assert (set_prev_next n None m = set_prev_next n' None m) as -> by (unfold set_prev_next; by rewrite Ep). by apply IH.
Qed.
Lemma link_all_ends D D' m : ends D = ends D' → link_all D m = link_all D' m.
Proof.
  revert D' m. induction D as [|[h n] D IH]; intros [|[h' n'] D'] m E; try done. injection E as -> Ep E. cbn.
  assert (set_prev_next n (Some h') m = set_prev_next n' (Some h') m) as -> by (unfold set_prev_next; by rewrite Ep). by apply IH.
Qed.
Lemma ends_rev c : ends (rev c) = rev (ends c).
Proof. apply map_rev. Qed.
Lemma ends_until f m m' h : same_skel m m' → ends (until_fork f (ancestors m' h)) = ends (until_fork f (ancestors m h)).
Proof.
  intros E. assert (Hw : ∀ k p, ends (until_fork f (walk k m' p)) = ends (until_fork f (walk k m p))).
  { induction k as [|k IH]; intros [a|]; try done. cbn [walk]. destruct (m !! a) as [n|] eqn:H.
    - destruct (same_skel_lookup _ _ _ _ E H) as (n' & -> & Ep & _). cbn [until_fork]. case_bool_decide; [done|]. cbn. rewrite Ep. f_equal. apply IH.
    - specialize (E a). rewrite H in E. by destruct (m' !! a). }
  unfold ancestors. destruct (m !! h) as [n|] eqn:H.
  - destruct (same_skel_lookup _ _ _ _ E H) as (n' & -> & _ & ->). apply Hw.
  - specialize (E h). rewrite H in E. by destruct (m' !! h).
Qed.

(** ** The database of a chain *)

Section database.
Context {BN : OpenSSL_BN} {DG : Digests} (net : bool) (scrypt : list Z → base_uint) (Verify : list Z → base_uint → list Z → bool).
Context (nMaxCacheSize : Z) (random_entry : gset sigdata → sigdata) (now cpTime estimate : Z) (fThreads : bool).
Context (tx_at : CDiskTxPos → option CTransaction) (block_time_at : Z → Z → option Z) (block_at : Z → Z → option CBlock).
Context (Hrandom : ∀ S, S ≠ ∅ → random_entry S ∈ S).

Local Abbreviation read := (read_block net scrypt block_at).
Local Abbreviation dsk := (disk tx_at block_time_at).

(** The block filed under [h] takes the index [db] to [db']. *)
Definition connects_block (m : BlockMap) (h : base_uint) (db db' : TxMap) : Prop :=
  ∃ n b pool supply cache mint supply' cache', m !! h = Some n ∧ read h n = Some b ∧ cache_ok Verify nMaxCacheSize cache ∧
    ConnectBlock net scrypt Verify nMaxCacheSize random_entry now cpTime estimate pool fThreads (dsk db) (index_chain (ancestors m h))
      supply b false cache = Some (BlockConnected mint supply' db', cache').

(** The transaction index of the chain that ends in [h]: its blocks after the
    first connected one by one *)
Inductive db_at (m : BlockMap) (g : base_uint) : base_uint → TxMap → Prop :=
  | db_first : db_at m g g ∅
  | db_next h n p db db' : m !! h = Some n → nd_pprev n = Some p → db_at m g p db → connects_block m h db db' → db_at m g h db'.

Lemma connects_block_same m m' h db db' : same_index m m' → connects_block m h db db' → connects_block m' h db db'.
Proof.
  intros E (n & b & pool & sup & cache & mint & sup' & cache' & H & Hr & Hc & HC).
  destruct (same_index_lookup _ _ _ _ E H) as (n' & H' & Ei & _). exists n', b, pool, sup, cache, mint, sup', cache'.
  split; [done|]. rewrite (same_index_chain _ _ _ E). split; [|done]. unfold read_block in *. by rewrite Ei.
Qed.
Lemma db_at_same m m' g h db : same_index m m' → db_at m g h db → db_at m' g h db.
Proof.
  intros E. induction 1 as [|h n p db db' H Ep _ IH HC]; [constructor|]. destruct (same_index_lookup _ _ _ _ E H) as (n' & H' & _ & Ep').
  econstructor; [exact H'|by rewrite Ep'|exact IH|by eapply connects_block_same].
Qed.

(** What is assumed of the block files: transactions within the ranges of their
    types, and no block with a transaction that an ancestor has already. *)
Record files_ok (m : BlockMap) : Prop := {
  files_txs : ∀ h n b, m !! h = Some n → read h n = Some b → Forall tx_ok (vtx b) ∧ bi_nFile (nd_index n) ≠ UINT_MAX;
  files_fresh : ∀ h n b p a na ba, m !! h = Some n → read h n = Some b → nd_pprev n = Some p →
    a ∈ path m p → m !! a = Some na → read a na = Some ba → ∀ tx tx', tx ∈ vtx b → tx' ∈ vtx ba → GetHash tx ≠ GetHash tx'
}.

Lemma files_ok_same m m' : same_index m m' → files_ok m → files_ok m'.
Proof.
  intros E [H1 H2]. assert (E' : same_index m' m) by by symmetry.
  assert (Hrd : ∀ h n n', nd_index n' = nd_index n → read h n = read h n') by (intros h n n' Ei; unfold read_block; by rewrite Ei). split.
  - intros h n b H Hr. destruct (same_index_lookup _ _ _ _ E' H) as (n' & H' & Ei & _). rewrite <- Ei. apply (H1 h); [done|].
    by rewrite <- (Hrd _ _ _ Ei).
  - intros h n b p a na ba H Hr Ep Ha Hna Hra. destruct (same_index_lookup _ _ _ _ E' H) as (n' & H' & Ei & Ep').
    destruct (same_index_lookup _ _ _ _ E' Hna) as (na' & Hna' & Eia & _). rewrite (same_skel_path _ _ _ (same_index_skel _ _ E)) in Ha.
    apply (H2 h n' b p a na' ba); [done|by rewrite <- (Hrd _ _ _ Ei)|congruence|done|done|by rewrite <- (Hrd _ _ _ Eia)].
Qed.

Lemma connects_wf d c fScript m txs ps ins m' : connects net Verify cpTime d c fScript m txs ps ins m' →
  Forall (λ p, CDiskTxPos_IsNull p = false) ps → index_wf m → index_wf m'.
Proof.
  induction 1 as [|m tx p v txs ps ins m' _ _ _ _ IH]; [done|]. intros [Hp Hps]%Forall_cons Hm. apply IH; [done|]. by apply index_wf_add.
Qed.

Lemma connects_keys d c fScript m txs ps ins m' k : connects net Verify cpTime d c fScript m txs ps ins m' →
  is_Some (m' !! k) → is_Some (m !! k) ∨ k ∈ map GetHash txs.
Proof.
  induction 1 as [|m tx p v txs ps ins m' _ _ _ _ IH]; [by left|]. intros Hk. cbn [map]. destruct (IH Hk) as [[x Hx]|Hin]; [|right; by right].
  unfold add_tx in Hx. apply lookup_insert_Some in Hx as [[<- _]|[_ Hx]]; [right; by left|]. left.
  apply mark_all_lookup in Hx as (y & Hy & _). eauto.
Qed.

(** Connecting a block, and taking it back *)
Lemma connects_block_ok m g h n b db cache pool sup mint sup' db' cache' : tree_ok m g → files_ok m → m !! h = Some n → read h n = Some b →
  index_wf db → cache_ok Verify nMaxCacheSize cache →
  ConnectBlock net scrypt Verify nMaxCacheSize random_entry now cpTime estimate pool fThreads (dsk db) (index_chain (ancestors m h))
      sup b false cache = Some (BlockConnected mint sup' db', cache') →
  cache_ok Verify nMaxCacheSize cache' ∧ index_wf db' ∧ (∀ k, is_Some (db' !! k) → is_Some (db !! k) ∨ k ∈ map GetHash (vtx b)) ∧
  (Forall (λ tx, db !! GetHash tx = None) (vtx b) → DisconnectBlock b db' = Some db).
Proof.
  intros T F H Hr Hwf Hc HC. destruct (files_txs _ F _ _ _ H Hr) as [Htx Hf].
  rewrite (ancestors_unfold T _ _ H) in HC. cbn [index_chain map snd] in HC.
  apply ConnectBlock_inv in HC as (Hchk & Hc' & ins & m' & HC & -> & _); try done. split; [done|]. split; [|split].
  - eapply connects_wf; [exact HC|by apply positions_file|done].
  - intros k. by eapply connects_keys.
  - intros Hnew. apply CheckBlock_shape in Hchk as [Hnd _]. by eapply connects_disconnect.
Qed.

(** The keys of the index of a chain are the transactions of its blocks. *)
Lemma db_at_wf m g h db : tree_ok m g → files_ok m → db_at m g h db →
  index_wf db ∧ ∀ k, is_Some (db !! k) → ∃ a na ba, a ∈ path m h ∧ m !! a = Some na ∧ read a na = Some ba ∧ k ∈ map GetHash (vtx ba).
Proof.
  intros T F. induction 1 as [|h n p db db' H Ep _ [IH1 IH2] (n' & b & pool & sup & cache & mint & sup' & cache' & H' & Hr & Hc & HC)].
  - split; [apply map_Forall_empty|]. intros k [x Hx]. by rewrite lookup_empty in Hx.
  - simplify_eq. eapply connects_block_ok in HC as (_ & ? & Hk & _); eauto. split; [done|]. intros k Hin.
    rewrite (path_unfold T _ _ H), Ep. destruct (Hk k Hin) as [Hold|Hnew].
    + destruct (IH2 k Hold) as (a & na & ba & Ha & ?). exists a, na, ba. split; [by right|done].
    + exists h, n, b. split; [by left|done].
Qed.

Lemma db_at_fresh m g h n b p db : tree_ok m g → files_ok m → m !! h = Some n → read h n = Some b → nd_pprev n = Some p → db_at m g p db →
  Forall (λ tx, db !! GetHash tx = None) (vtx b).
Proof.
  intros T F H Hr Ep Hdb. destruct (db_at_wf _ _ _ _ T F Hdb) as [_ Hk]. apply Forall_forall. intros tx Hin.
  destruct (db !! GetHash tx) as [x|] eqn:E; [|done]. exfalso. destruct (Hk (GetHash tx)) as (a & na & ba & Ha & Hna & Hra & Hx); [eauto|].
  apply list_elem_of_fmap in Hx as (tx' & Ex & Hin'). by eapply (files_fresh _ F h n b p a na ba).
Qed.

(** *** Branches *)

Lemma disconnect_branch_ok m g h n f db acc : tree_ok m g → files_ok m → m !! h = Some n → f ∈ path m h → db_at m g h db →
  ∃ db' acc', disconnect_branch net scrypt block_at (until_fork f (ancestors m h)) db acc = Some (db', acc') ∧ db_at m g f db'.
Proof.
  intros T F H. revert db acc. pattern h, n. eapply (tree_ind T); [..|exact H]; clear h n H.
  - intros h n H Ep db acc. rewrite (path_unfold T _ _ H), Ep. intros ->%list_elem_of_singleton Hdb.
    rewrite (until_self T _ _ H). by exists db, acc.
  - intros h n p np H Ep Hp _ IH db acc. rewrite (path_unfold T _ _ H), Ep. destruct (decide (f = h)) as [->|Hne].
    { intros _ Hdb. rewrite (until_self T _ _ H). by exists db, acc. }
    intros [?|Hf]%elem_of_cons Hdb; [done|]. rewrite (ancestors_unfold T _ _ H), Ep. cbn [until_fork].
    rewrite bool_decide_false by done. cbn [disconnect_branch].
    inversion Hdb as [E1 E2|h' n' p' db0 db' H' Ep' Hdb0 (n2 & b & pool & sup & cache & mint & sup' & cache' & H2 & Hr & Hc & HC) E1 E2]; subst.
    { destruct (tree_prev _ _ T _ _ _ H Ep) as (? & ? & ?).
      destruct (path_height_le T _ _ _ _ Hp (genesis_in_path T _ _ Hp) H). simplify_eq. lia. }
    simplify_eq. rewrite Hr. cbn [mbind option_bind].
    destruct (db_at_wf _ _ _ _ T F Hdb0) as [Hwf _]. eapply connects_block_ok in HC as (_ & _ & _ & Hun); eauto.
    rewrite Hun by (by eapply (db_at_fresh _ _ h)). cbn [mbind option_bind]. by apply IH.
Qed.

(** [connect_branch] from [c] up to [h]; [m1] is the map as it has become *)
Lemma connect_branch_ok m g h n pool k : tree_ok m g → files_ok m → m !! h = Some n → ∀ c nc m1 db cache acc,
  length (until_fork c (ancestors m h)) = k → c ∈ path m h → m !! c = Some nc → same_index m m1 → db_at m g c db →
  cache_ok Verify nMaxCacheSize cache →
  ∀ m2 cache' r, connect_branch net scrypt Verify nMaxCacheSize random_entry now cpTime estimate fThreads tx_at block_time_at block_at pool
    (rev (until_fork c (ancestors m h))) m1 db cache acc = Some (m2, cache', r) →
  same_index m m2 ∧ (∀ a, next_of m2 a = next_of m1 a) ∧
  match r with Some (db', _) => db_at m g h db' ∧ cache_ok Verify nMaxCacheSize cache' | None => True end.
Proof.
  intros T F H. induction k as [|k IH]; intros c nc m1 db cache acc Hlen Hc Hnc E Hdb HS m2 cache' r.
  - destruct (until_fork c (ancestors m h)) eqn:Eu; [|done]. cbn [rev connect_branch]. intros [= <- <- <-].
    split; [done|]. split; [done|]. destruct (until_fork_split T _ _ _ H Hc) as [Es _]. rewrite Eu in Es. cbn in Es.
    assert (c = h) as -> by (rewrite (ancestors_unfold T _ _ H), (ancestors_unfold T _ _ Hnc) in Es; by injection Es). done.
  - destruct (decide (c = h)) as [->|Hne]; [by rewrite (until_self T _ _ H) in Hlen|].
    destruct (until_step T _ _ _ _ H Hc Hnc Hne) as (d & nd & Hnd & Hd & Ep & Es).
    assert (Hlen' : length (until_fork d (ancestors m h)) = k).
    { apply (f_equal length) in Es. cbn [length] in Es. rewrite !length_rev in Es. lia. }
    rewrite Es. cbn [connect_branch]. destruct (read d nd) as [b|] eqn:Hr; [|by intros [= <- <- <-]].
    unfold connect_at. destruct (same_index_lookup _ _ _ _ E Hnd) as (nd1 & Hnd1 & Ei & Ep1). rewrite Hnd1. cbn [mbind option_bind].
    set (sup := match nd_pprev nd1 with Some _ => _ | None => _ end). rewrite (same_index_chain _ _ d E).
    destruct (ConnectBlock _ _ _ _ _ _ _ _ _ _ _ _ _ _ _ _) as [[[?|mint sup' db1] c1]|] eqn:HC; [by intros [= <- <- <-]| |done].
    cbn [mbind option_bind]. intros HB.
    destruct (db_at_wf _ _ _ _ T F Hdb) as [Hwf _]. assert (HC' := HC). eapply connects_block_ok in HC' as (HS' & _); eauto.
    assert (Hdb1 : db_at m g d db1). { econstructor; [exact Hnd|exact Ep|exact Hdb|]. exists nd, b, pool, sup, cache, mint, sup', c1. done. }
    eapply IH in HB as (HE & Hn & Hres); [|exact Hlen'|exact Hd|exact Hnd| |exact Hdb1|exact HS'].
    + split; [done|]. split; [|done]. intros a. rewrite Hn. by apply alter_same_next.
    + etransitivity; [exact E|]. by apply alter_same_index.
Qed.
End database.

(** ** Moving the best chain *)

Section moves.
Context {BN : OpenSSL_BN} {DG : Digests} (net : bool) (scrypt : list Z → base_uint) (Verify : list Z → base_uint → list Z → bool).
Context (nMaxCacheSize : Z) (random_entry : gset sigdata → sigdata) (now cpTime estimate : Z) (rate_limited fThreads : bool).
Context (tx_at : CDiskTxPos → option CTransaction) (block_time_at : Z → Z → option Z) (block_at : Z → Z → option CBlock) (g : base_uint).
Context (Hrandom : ∀ S, S ≠ ∅ → random_entry S ∈ S) (Hscrypt : ∀ x, wf W256 (scrypt x)).

Local Abbreviation read := (read_block net scrypt block_at).
Local Abbreviation database := (db_at net scrypt Verify nMaxCacheSize random_entry now cpTime estimate fThreads tx_at block_time_at block_at).
Local Abbreviation files := (files_ok net scrypt block_at).
Local Abbreviation Reorg := (Reorganize net scrypt Verify nMaxCacheSize random_entry now cpTime estimate rate_limited fThreads tx_at block_time_at block_at).
Local Abbreviation Inner := (SetBestChainInner net scrypt Verify nMaxCacheSize random_entry now cpTime estimate fThreads tx_at block_time_at).
Local Abbreviation Further := (connect_further net scrypt Verify nMaxCacheSize random_entry now cpTime estimate fThreads tx_at block_time_at block_at).
Local Abbreviation Connect pool db c sup b cache :=
  (ConnectBlock net scrypt Verify nMaxCacheSize random_entry now cpTime estimate pool fThreads (disk tx_at block_time_at db) c sup b false cache).

(** The tree, its links and the database agree on the block [tip]. *)
Record at_tip (s : ChainState) (tip : base_uint) : Prop := {
  tip_tree : tree_ok (mapBlockIndex s) g;
  tip_keys : keys_wf (mapBlockIndex s);
  tip_links : links_ok (mapBlockIndex s) tip;
  tip_files : files (mapBlockIndex s);
  tip_db : database (mapBlockIndex s) g tip (cs_txdb s);
  tip_best : cs_dbBest s = tip
}.

(** The globals that describe the best block *)
Definition best_of (s : ChainState) : option base_uint * base_uint * Z * base_uint :=
  (pindexBest s, hashBestChain s, nBestHeight s, nBestChainTrust s).

Lemma same_index_keys m m' : same_index m m' → keys_wf m → keys_wf m'.
Proof.
  intros E Hk h n H. assert (E' : same_index m' m) by by symmetry. destruct (same_index_lookup _ _ _ _ E' H) as (? & ? & _). by eapply Hk.
Qed.

Lemma at_tip_intro m s tip : tree_ok m g → keys_wf m → files m → same_index m (mapBlockIndex s) → links_ok (mapBlockIndex s) tip →
  database m g tip (cs_txdb s) → cs_dbBest s = tip → at_tip s tip.
Proof.
  intros T Hk F E L Hdb Hd. split; [|by eapply same_index_keys|done|by eapply files_ok_same|by eapply db_at_same|done].
  by eapply same_skel_tree; [apply same_index_skel|].
Qed.

Lemma bu_eq_wf a b : wf W256 a → wf W256 b → bu_eq a b = true → a = b.
Proof. intros Ha Hb. rewrite (bu_eq_ok W256) by done. intros E%Z.eqb_eq. by eapply val_inj. Qed.

Lemma read_hash m h n b : keys_wf m → m !! h = Some n → read h n = Some b → blk_GetHash scrypt b = h.
Proof.
  intros Hk H Hr. unfold read_block in Hr. apply bind_Some in Hr as (b' & _ & Hr). destruct (_ && _); [done|].
  unfold bu_ne in Hr. destruct (bu_eq _ _) eqn:E; [|done]. cbn in Hr. injection Hr as ->. apply bu_eq_wf in E; [done|apply Hscrypt|by eapply Hk].
Qed.

Lemma accept_cache d c M tx cache r M' cache' :
  accept net Verify nMaxCacheSize random_entry cpTime now rate_limited d c M tx false cache = Some (r, M', cache') → cache' = cache.
Proof. unfold accept. cbn [mbind option_bind andb]. repeat (case_match; try by intros [= <- <- <-]). all: by intros [= <- <- <-]. Qed.

Lemma resurrect_frame l s s' :
  resurrect net Verify nMaxCacheSize random_entry now cpTime rate_limited tx_at block_time_at s l = Some s' → ∃ M, s' = with_pool s M.
Proof.
  revert s. induction l as [|tx l IH]; intros s; cbn [resurrect].
  - intros [= <-]. exists (cs_mempool s). by destruct s.
  - intros H. apply bind_Some in H as ([[r M] cache] & Ha & H). apply accept_cache in Ha as ->. apply IH in H as [M' ->]. exists M'. by destruct s.
Qed.

(** [Reorganize] moves everything but the globals to the new tip, or nothing but
    supplies and the cache. *)
Lemma Reorganize_ok s best new n ok s' : at_tip s best → cache_ok Verify nMaxCacheSize (cs_sigcache s) → pindexBest s = Some best →
  mapBlockIndex s !! new = Some n → Reorg s new = Some (ok, s') →
  same_index (mapBlockIndex s) (mapBlockIndex s') ∧ best_of s' = best_of s ∧ pindexGenesisBlock s' = pindexGenesisBlock s ∧
  if ok then at_tip s' new ∧ cache_ok Verify nMaxCacheSize (cs_sigcache s')
  else at_tip s' best ∧ cs_txdb s' = cs_txdb s ∧ cs_mempool s' = cs_mempool s.
Proof.
  intros A HS Hbest Hnew. assert (A' := A). destruct A' as [T Hk L F Hdb Hd]. destruct (best_in _ _ L) as [nb Hb].
  unfold Reorganize. rewrite Hbest. cbn [mbind option_bind]. destruct (find_fork_ok T _ _ _ _ Hb Hnew) as (f & -> & Hf).
  destruct Hf as (Hfb & Hfn & Hlast) eqn:Ef. clear Ef.
  destruct (disconnect_branch_ok net scrypt Verify nMaxCacheSize random_entry now cpTime estimate fThreads tx_at block_time_at block_at Hrandom
    _ _ _ _ f _ [] T F Hb Hfb Hdb) as (dbf & res & -> & Hdbf).
  destruct (elem_of_path T _ _ _ Hnew Hfn) as (nf & Hnf & _).
  intros H. apply bind_Some in H as ([[m1 cache1] r] & HB & H).
  eapply (connect_branch_ok net scrypt Verify nMaxCacheSize random_entry now cpTime estimate fThreads tx_at block_time_at block_at Hrandom)
    in HB as (E1 & Hn1 & Hr); [|exact T|exact F|exact Hnew|reflexivity|exact Hfn|exact Hnf|done|exact Hdbf|exact HS].
  destruct r as [[db1 del]|].
  - apply bind_Some in H as (s2 & Hs2 & [= <- <-]). apply resurrect_frame in Hs2 as [M ->]. destruct Hr as [Hdb1 HS1].
    set (m2 := link_all _ _) in *.
    assert (E2 : same_index (mapBlockIndex s) m2).
    { etransitivity; [exact E1|]. unfold m2. etransitivity; [apply unlink_all_index|apply link_all_index]. }
    assert (T1 : tree_ok m1 g) by (by eapply same_skel_tree; [apply same_index_skel|]).
    assert (L1 : links_ok m1 best) by (by eapply links_same; [apply same_index_skel| |]).
    assert (L2 : links_ok m2 new).
    { unfold m2. destruct (same_index_lookup _ _ _ _ E1 Hnew) as (n1 & Hn1' & _).
      assert (Hs : same_skel (mapBlockIndex s) m1) by by apply same_index_skel.
      rewrite <- (unlink_all_ends _ _ m1 (ends_until f _ _ best Hs)).
      rewrite <- (link_all_ends (rev (until_fork f (ancestors m1 new))) (rev (until_fork f (ancestors (mapBlockIndex s) new)))).
      2: { rewrite !ends_rev. f_equal. by apply ends_until. }
      apply (switch_links T1 L1 new n1 Hn1' f). unfold last_common. rewrite !(same_skel_path _ _ _ Hs). done. }
    split; [exact E2|]. split; [done|]. split; [done|]. split; [|exact HS1]. by apply (at_tip_intro (mapBlockIndex s)).
  - injection H as <- <-. split; [exact E1|]. split; [done|]. split; [done|]. split; [|done].
    apply (at_tip_intro (mapBlockIndex s)); try done. by eapply links_same; [apply same_index_skel| |].
Qed.

(** Linking one block on top of the tip *)
Lemma link_next m best h n : tree_ok m g → links_ok m best → m !! h = Some n → nd_pprev n = Some best →
  links_ok (alter (λ n, with_pnext n (Some h)) best m) h.
Proof.
  intros T L H Ep. destruct (best_in _ _ L) as [nb Hb].
  assert (Hlc : last_common (m := m) best h best).
  { split; [by eapply (path_self T)|]. split; [|done]. rewrite (path_unfold T _ _ H), Ep. right. by eapply (path_self T). }
  pose proof (switch_links T L h n H best Hlc) as Hs. rewrite (until_self T _ _ Hb) in Hs.
  rewrite (ancestors_unfold T _ _ H), Ep in Hs. cbn [until_fork] in Hs. rewrite bool_decide_false in Hs.
  2: { intros ->. destruct (tree_prev _ _ T _ _ _ H Ep) as (? & ? & ?). simplify_eq. lia. }
  rewrite (until_self T _ _ Hb) in Hs. cbn in Hs. unfold set_prev_next in Hs. by rewrite Ep in Hs.
Qed.

(** [SetBestChainInner] on a child of the tip *)
Lemma Inner_ok s tip h n b ok s' : at_tip s tip → cache_ok Verify nMaxCacheSize (cs_sigcache s) → mapBlockIndex s !! h = Some n →
  nd_pprev n = Some tip → read h n = Some b → Inner s b h = Some (ok, s') →
  same_index (mapBlockIndex s) (mapBlockIndex s') ∧ best_of s' = best_of s ∧ pindexGenesisBlock s' = pindexGenesisBlock s ∧
  if ok then at_tip s' h ∧ cache_ok Verify nMaxCacheSize (cs_sigcache s')
  else at_tip s' tip ∧ cs_txdb s' = cs_txdb s ∧ cs_mempool s' = cs_mempool s ∧
    ∃ sup score c, Connect (mapTx (cs_mempool s)) (cs_txdb s) (index_chain (ancestors (mapBlockIndex s) h)) sup b (cs_sigcache s) =
      Some (BlockRejected score, c).
Proof.
  intros A HS Hh Ep Hr. assert (A' := A). destruct A' as [T Hk L F Hdb Hd]. unfold SetBestChainInner, connect_at. rewrite Hh. cbn [mbind option_bind].
  set (sup := match nd_pprev n with Some _ => _ | None => _ end).
  destruct (Connect _ _ _ _ _ _) as [[[score|mint sup' db1] c1]|] eqn:HC; [| |done]; cbn [mbind option_bind].
  - intros [= <- <-]. unfold InvalidChainFound. assert (Hs : at_tip s tip ∧ cs_txdb s = cs_txdb s) by done.
    destruct (bu_gt _ _); (split; [done|]; split; [done|]; split; [done|]; split; [by split|]; split; [done|]; split; [done|]; eauto).
  - rewrite Ep. cbn [mbind option_bind]. intros [= <- <-]. cbn.
    assert (HC' := HC). eapply connects_block_ok in HC' as (HS' & _); [|done|exact T|exact F|exact Hh|exact Hr| |done].
    2: { by eapply (db_at_wf _ _ _ _ _ _ _ _ _ _ _ _ Hrandom). }
    set (m1 := alter (λ n0, with_supply n0 mint sup') h (mapBlockIndex s)).
    assert (E1 : same_index (mapBlockIndex s) m1) by by apply alter_same_index.
    assert (L1 : links_ok m1 tip).
    { eapply links_same; [by apply same_index_skel|intros a; by apply alter_same_next|done]. }
    assert (E2 : same_index (mapBlockIndex s) (alter (λ n0, with_pnext n0 (Some h)) tip m1)).
    { etransitivity; [exact E1|by apply alter_same_index]. }
    split; [exact E2|]. split; [done|]. split; [done|]. split; [|exact HS'].
    apply (at_tip_intro (mapBlockIndex s)); try done; cbn.
    + destruct (same_index_lookup _ _ _ _ E1 Hh) as (n1 & Hn1 & _ & Ep1).
      eapply link_next; [|exact L1|exact Hn1|by rewrite Ep1]. by eapply same_skel_tree; [apply same_index_skel|].
    + econstructor; [exact Hh|exact Ep|exact Hdb|]. exists n, b, (mapTx (cs_mempool s)), sup, (cs_sigcache s), mint, sup', c1. done.
    + by eapply read_hash.
Qed.

(** Why the loop over the postponed blocks can end before the last: the next
    block is unreadable or refused. *)
Definition blocked (m : BlockMap) (tip new : base_uint) : Prop :=
  ∃ d nd, d ∈ path m new ∧ m !! d = Some nd ∧ nd_pprev nd = Some tip ∧
    (read d nd = None ∨ ∃ b pool db c sup cache score cache',
       read d nd = Some b ∧ Connect pool db c sup b cache = Some (BlockRejected score, cache')).

Lemma blocked_same m m' tip new : same_index m m' → blocked m tip new → blocked m' tip new.
Proof.
  intros E (d & nd & Hd & Hnd & Ep & Hc). destruct (same_index_lookup _ _ _ _ E Hnd) as (nd' & Hnd' & Ei & Ep').
  exists d, nd'. rewrite (same_skel_path _ _ _ (same_index_skel _ _ E)). split; [done|]. split; [done|]. split; [congruence|].
  unfold read_block in *. by rewrite Ei.
Qed.

Lemma Further_ok m new nn k : m !! new = Some nn → ∀ c nc s s', length (until_fork c (ancestors m new)) = k → c ∈ path m new → m !! c = Some nc →
  same_index m (mapBlockIndex s) → at_tip s c → cache_ok Verify nMaxCacheSize (cs_sigcache s) →
  Further (rev (until_fork c (ancestors m new))) s = Some s' →
  same_index m (mapBlockIndex s') ∧ best_of s' = best_of s ∧ pindexGenesisBlock s' = pindexGenesisBlock s ∧
  ∃ tip, at_tip s' tip ∧ tip ∈ path m new ∧ c ∈ path m tip ∧ (tip = new ∨ blocked m tip new).
Proof.
  intros H. induction k as [|k IH]; intros c nc s s' Hlen Hc Hnc E A HS.
  all: assert (T : tree_ok m g) by (eapply (same_skel_tree (mapBlockIndex s)); [apply same_index_skel; by symmetry|apply A]).
  all: assert (Hcc : c ∈ path m c) by by eapply (path_self T).
  - destruct (until_fork c (ancestors m new)) eqn:Eu; [|done]. cbn [rev connect_further]. intros [= <-].
    split; [done|]. split; [done|]. split; [done|]. exists c. split; [done|]. split; [done|]. split; [done|]. left.
    destruct (until_fork_split T _ _ _ H Hc) as [Es _]. rewrite Eu in Es. cbn in Es.
    rewrite (ancestors_unfold T _ _ H), (ancestors_unfold T _ _ Hnc) in Es. by injection Es.
  - destruct (decide (c = new)) as [->|Hne]; [by rewrite (until_self T _ _ H) in Hlen|].
    destruct (until_step T _ _ _ _ H Hc Hnc Hne) as (d & nd & Hnd & Hd & Ep & Es).
    assert (Hlen' : length (until_fork d (ancestors m new)) = k).
    { apply (f_equal length) in Es. cbn [length] in Es. rewrite !length_rev in Es. lia. }
    rewrite Es. cbn [connect_further]. destruct (read d nd) as [b|] eqn:Hr.
    2: { intros [= <-]. split; [done|]. split; [done|]. split; [done|]. exists c. split; [done|]. split; [done|]. split; [done|]. right.
         exists d, nd. split; [done|]. split; [done|]. split; [done|]. by left. }
    intros HF. apply bind_Some in HF as ([ok s1] & HI & HF). destruct (same_index_lookup _ _ _ _ E Hnd) as (nd1 & Hnd1 & Ei & Ep1).
    eapply Inner_ok in HI as (E1 & Eb1 & Eg1 & Hok); [|exact A|exact HS|exact Hnd1|by rewrite Ep1|unfold read_block in *; by rewrite Ei].
    destruct ok.
    + destruct Hok as [A1 HS1]. eapply IH in HF as (E2 & Eb2 & Eg2 & tip & At & Htip & Hct & Hend); [|exact Hlen'|exact Hd|exact Hnd|by etransitivity|exact A1|exact HS1].
      split; [done|]. split; [congruence|]. split; [congruence|]. exists tip. split; [done|]. split; [done|]. split; [|done].
      destruct (elem_of_path T _ _ _ H Htip) as (nt & Hnt & _). eapply (path_trans T); [exact Hnt|exact Hct|].
      rewrite (path_unfold T _ _ Hnd), Ep. by right.
    + injection HF as <-. destruct Hok as (A1 & _ & _ & sup & score & c' & HC). split; [by etransitivity|]. split; [done|]. split; [done|].
      exists c. split; [done|]. split; [done|]. split; [done|]. right. exists d, nd. split; [done|]. split; [done|]. split; [done|]. right.
      exists b. do 7 eexists. split; [done|exact HC].
Qed.

(** The postponed blocks are those above [pindexIntermediate]; their parents have
    more trust than the best block. *)
Lemma postpone_ok m t h n : tree_ok m g → m !! h = Some n →
  ∃ i ni, postpone t (ancestors m h) = (until_fork i (ancestors m h), Some i) ∧ i ∈ path m h ∧ m !! i = Some ni ∧
    (i ≠ h → bu_gt (nd_nChainTrust ni) t = true).
Proof.
  intros T H. pattern h, n. eapply (tree_ind T); [..|exact H]; clear h n H.
  - intros h n H Ep. exists h, n. rewrite (until_self T _ _ H), (ancestors_unfold T _ _ H), Ep. cbn. split; [done|]. split; [by eapply (path_self T)|done].
  - intros h n p np H Ep Hp Hh (i & ni & IH & Hi & Hni & Ht). rewrite (ancestors_unfold T _ _ H), Ep. cbn [postpone].
    destruct (ancestors m p) as [|[p' np'] rest] eqn:Ea; [by rewrite (ancestors_unfold T _ _ Hp) in Ea|].
    assert (Ea' := Ea). rewrite (ancestors_unfold T _ _ Hp) in Ea'. injection Ea' as <- <- Erest. rewrite <- Ea in *. rewrite IH.
    assert (Hih : i ≠ h). { intros ->. destruct (path_height_le T _ _ _ _ Hp Hi H). lia. }
    destruct (bu_gt (nd_nChainTrust np) t) eqn:Eg.
    + exists i, ni. cbn [until_fork]. rewrite bool_decide_false by congruence. split; [done|]. split; [rewrite (path_unfold T _ _ H), Ep; by right|].
      split; [done|]. intros _. destruct (decide (i = p)) as [->|]; [by simplify_eq|by apply Ht].
    + exists h, n. cbn [until_fork]. rewrite bool_decide_true by done. split; [done|]. split; [by eapply (path_self T)|]. done.
Qed.

Record chain_ok (s : ChainState) (best : base_uint) : Prop := {
  chain_tip : at_tip s best;
  chain_cache : cache_ok Verify nMaxCacheSize (cs_sigcache s);
  chain_genesis : pindexGenesisBlock s = Some g;
  chain_best : ∃ nb, mapBlockIndex s !! best = Some nb ∧ best_of s = (Some best, best, nd_nHeight nb, nd_nChainTrust nb)
}.

Local Abbreviation Set_ := (SetBestChain net scrypt Verify nMaxCacheSize random_entry now cpTime estimate rate_limited fThreads tx_at block_time_at block_at g).

(** The branch [SetBestChain] takes, up to its update of the globals *)
Lemma SetBestChain_branch s best b new n ok s' : chain_ok s best → mapBlockIndex s !! new = Some n → read new n = Some b →
  nd_pprev n = Some (hashPrevBlock b) → Set_ s b new = Some (ok, s') →
  ∃ s1, same_index (mapBlockIndex s) (mapBlockIndex s1) ∧ best_of s1 = best_of s ∧
  if ok then
    (∃ tip, at_tip s1 tip ∧ tip ∈ path (mapBlockIndex s) new ∧
       (tip = new ∨ blocked (mapBlockIndex s) tip new ∧
        ∃ i ni, i ∈ path (mapBlockIndex s) tip ∧ mapBlockIndex s !! i = Some ni ∧ bu_gt (nd_nChainTrust ni) (nBestChainTrust s) = true)) ∧
    ∃ n1, mapBlockIndex s1 !! new = Some n1 ∧ s' = new_best s1 new new n1
  else s' = s1 ∧ at_tip s1 best ∧ cs_txdb s1 = cs_txdb s ∧ cs_mempool s1 = cs_mempool s.
Proof.
  intros [A HS Hgen (nb & Hb & Eb)] H Hr Ep. assert (A' := A). destruct A' as [T Hk L F Hdb Hd].
  assert (Hpb : pindexBest s = Some best ∧ hashBestChain s = best ∧ nBestChainTrust s = nd_nChainTrust nb).
  { unfold best_of in Eb. by injection Eb. }
  destruct Hpb as (Hpb & Hhb & Htb).
  unfold SetBestChain. rewrite H, Hgen. cbn [mbind option_bind]. rewrite bool_decide_false by done. cbn [andb].
  rewrite (read_hash _ _ _ _ Hk H Hr). destruct (bu_eq (hashPrevBlock b) (hashBestChain s)) eqn:Eeq.
  - assert (hashPrevBlock b = best) as Hpbest.
    { rewrite Hhb in Eeq. destruct (tree_prev _ _ T _ _ _ H Ep) as (np & Hnp & _).
      apply bu_eq_wf in Eeq; [done|by eapply Hk..]. }
    rewrite Hpbest in Ep. intros HI. apply bind_Some in HI as ([ok1 s1] & HI & HR).
    eapply Inner_ok in HI as (E1 & Eb1 & _ & Hok); [|exact A|exact HS|exact H|exact Ep|exact Hr].
    destruct ok1; cbn [negb] in HR.
    + apply bind_Some in HR as (n1 & Hn1 & [= <- <-]). exists s1. split; [done|]. split; [done|]. destruct Hok as [A1 _].
      split; [|by exists n1]. exists new. split; [done|]. split; [by eapply (path_self T)|by left].
    + injection HR as <- <-. exists s1. split; [done|]. split; [done|]. destruct Hok as (A1 & ? & ? & _). done.
  - rewrite Hpb. cbn [mbind option_bind]. rewrite Hb. cbn [mbind option_bind].
    destruct (postpone_ok _ (nd_nChainTrust nb) _ _ T H) as (i & ni & -> & Hi & Hni & Htr). cbn [mbind option_bind].
    intros HI. apply bind_Some in HI as ([ok1 s2] & HI & HR). apply bind_Some in HI as ([okr s1] & HI & HJ).
    assert (HI' := HI). eapply Reorganize_ok in HI' as (E1 & Eb1 & _ & Hok); [|exact A|exact HS|exact Hpb|exact Hni]. destruct okr; cbn [negb] in HJ.
    + apply bind_Some in HJ as (s3 & HF & [= <- <-]). cbn [negb] in HR. apply bind_Some in HR as (n1 & Hn1 & [= <- <-]). destruct Hok as [A1 HS1].
      eapply Further_ok in HF as (E2 & Eb2 & _ & tip & At & Htip & Hct & Hend); [|exact H|reflexivity|exact Hi|exact Hni|exact E1|exact A1|exact HS1].
      exists s3. split; [done|]. split; [congruence|]. split; [|by exists n1]. exists tip. split; [done|]. split; [done|].
      destruct Hend as [->|Hbl]; [by left|]. destruct (decide (tip = new)) as [->|Hne]; [by left|]. right. split; [done|]. exists i, ni.
      split; [done|]. split; [done|]. rewrite Htb. apply Htr. intros ->.
      destruct (elem_of_path T _ _ _ H Htip) as (nt & Hnt & _). destruct (path_height_le T _ _ _ _ H Htip Hnt) as [? Heq].
      destruct (path_height_le T _ _ _ _ Hnt Hct H). apply Hne, Heq. lia.
    + injection HJ as <- <-. cbn [negb] in HR. injection HR as <- <-. destruct Hok as (A1 & Edb & Epool).
      exists (InvalidChainFound s1 n). unfold InvalidChainFound.
      destruct (bu_gt (nd_nChainTrust n) _); (split; [exact E1|]; split; [exact Eb1|]; split; [done|]); [|done].
      split; [by destruct A1|]. done.
Qed.
End moves.

(** ** What never changes *)

Section frames.
Context {BN : OpenSSL_BN} {DG : Digests} (net : bool) (scrypt : list Z → base_uint) (Verify : list Z → base_uint → list Z → bool).
Context (nMaxCacheSize : Z) (random_entry : gset sigdata → sigdata) (now cpTime estimate : Z) (rate_limited fThreads : bool).
Context (tx_at : CDiskTxPos → option CTransaction) (block_time_at : Z → Z → option Z) (block_at : Z → Z → option CBlock) (g : base_uint).

Local Abbreviation Branch := (connect_branch net scrypt Verify nMaxCacheSize random_entry now cpTime estimate fThreads tx_at block_time_at block_at).
Local Abbreviation Reorg := (Reorganize net scrypt Verify nMaxCacheSize random_entry now cpTime estimate rate_limited fThreads tx_at block_time_at block_at).
Local Abbreviation Inner := (SetBestChainInner net scrypt Verify nMaxCacheSize random_entry now cpTime estimate fThreads tx_at block_time_at).
Local Abbreviation Further := (connect_further net scrypt Verify nMaxCacheSize random_entry now cpTime estimate fThreads tx_at block_time_at block_at).
Local Abbreviation Set_ := (SetBestChain net scrypt Verify nMaxCacheSize random_entry now cpTime estimate rate_limited fThreads tx_at block_time_at block_at g).

(** No step changes the index of a block; the globals of the best block are left
    to the end of [SetBestChain]. *)
Definition frame (s s' : ChainState) : Prop :=
  same_index (mapBlockIndex s) (mapBlockIndex s') ∧ best_of s' = best_of s.
#[export] Instance frame_preorder : PreOrder frame.
Proof. split; [by intros s|]. intros a b c [E1 B1] [E2 B2]. split; [by etransitivity|congruence]. Qed.

Lemma connect_at_frame pool h b m db cache m' db' cache' :
  connect_at net scrypt Verify nMaxCacheSize random_entry now cpTime estimate fThreads tx_at block_time_at pool h b m db cache =
    Some (Some (m', db'), cache') → same_index m m'.
Proof.
  unfold connect_at. intros H. apply bind_Some in H as (n & Hn & H). apply bind_Some in H as ([[?|? ? ?] c] & _ & H); [done|].
  injection H as <- _ _. by apply alter_same_index.
Qed.
Lemma connect_branch_frame pool l : ∀ m db cache acc m' cache' r, Branch pool l m db cache acc = Some (m', cache', r) → same_index m m'.
Proof.
  induction l as [|[h n] l IH]; intros m db cache acc m' cache' r; cbn [connect_branch]; [by intros [= <- _ _]|].
  destruct (read_block _ _ _ _ _) as [b|]; [|by intros [= <- _ _]]. intros H. apply bind_Some in H as ([[[m1 db1]|] c1] & H1 & H).
  - etransitivity; [by eapply connect_at_frame|by eapply IH].
  - by injection H as <- _ _.
Qed.
Lemma Invalid_frame s n : frame s (InvalidChainFound s n).
Proof. unfold InvalidChainFound. by destruct (bu_gt _ _). Qed.
Lemma Reorganize_frame s new ok s' : Reorg s new = Some (ok, s') → frame s s'.
Proof.
  unfold Reorganize. intros H. apply bind_Some in H as (best & _ & H). destruct (find_fork _ _) as [f|]; [|by injection H as <- <-].
  destruct (disconnect_branch _ _ _ _ _ _) as [[db res]|]; [|by injection H as <- <-]. apply bind_Some in H as ([[m1 c1] r] & HB & H).
  apply connect_branch_frame in HB. destruct r as [[db1 del]|]; [|by injection H as <- <-].
  apply bind_Some in H as (s2 & Hs & [= <- <-]). apply resurrect_frame in Hs as [M ->]. split; [|done]. cbn.
  etransitivity; [exact HB|]. etransitivity; [apply unlink_all_index|apply link_all_index].
Qed.
Lemma Inner_frame s b h ok s' : Inner s b h = Some (ok, s') → frame s s'.
Proof.
  unfold SetBestChainInner. intros H. apply bind_Some in H as (n & Hn & H). apply bind_Some in H as ([[[m1 db1]|] c1] & HC & H).
  - apply connect_at_frame in HC. apply bind_Some in H as (p & _ & [= <- <-]). split; [|done]. cbn.
    etransitivity; [exact HC|by apply alter_same_index].
  - injection H as <- <-. etransitivity; [|apply Invalid_frame]. by split.
Qed.
Lemma Further_frame l : ∀ s s', Further l s = Some s' → frame s s'.
Proof.
  induction l as [|[h n] l IH]; intros s s'; cbn [connect_further]; [by intros [= <-]|].
  destruct (read_block _ _ _ _ _) as [b|]; [|by intros [= <-]]. intros H. apply bind_Some in H as ([[|] s1] & HI & H); apply Inner_frame in HI.
  - etransitivity; [exact HI|by apply IH].
  - by injection H as <-.
Qed.
Lemma SetBestChain_frame s b new n ok s' : mapBlockIndex s !! new = Some n → Set_ s b new = Some (ok, s') →
  same_index (mapBlockIndex s) (mapBlockIndex s') ∧
  best_of s' = if ok then (Some new, blk_GetHash scrypt b, nd_nHeight n, nd_nChainTrust n) else best_of s.
Proof.
  intros Hn. unfold SetBestChain. rewrite Hn. cbn [mbind option_bind]. intros H. apply bind_Some in H as ([ok1 s1] & H1 & H).
  assert (F : frame s s1).
  { destruct (_ && _); [by injection H1 as <- <-|]. destruct (bu_eq _ _); [by apply Inner_frame in H1|].
    apply bind_Some in H1 as (best & _ & H1). apply bind_Some in H1 as (nb & _ & H1). destruct (postpone _ _) as [v i].
    apply bind_Some in H1 as (i' & _ & H1). apply bind_Some in H1 as ([okr s2] & HR & H1). apply Reorganize_frame in HR. destruct okr; cbn [negb] in H1.
    - apply bind_Some in H1 as (s3 & HF & [= <- <-]). apply Further_frame in HF. by etransitivity.
    - injection H1 as <- <-. etransitivity; [exact HR|apply Invalid_frame]. }
  destruct F as [E B]. destruct ok1; cbn [negb] in H.
  - apply bind_Some in H as (n1 & Hn1 & [= <- <-]). split; [done|]. destruct (same_index_lookup _ _ _ _ E Hn) as (n' & Hn' & Ei & _).
    simplify_eq. unfold best_of, new_best, nd_nHeight, nd_nChainTrust. cbn. by rewrite Ei.
  - by injection H as <- <-.
Qed.
End frames.

(** ** New blocks *)

Lemma GetBlockTrust_wf {BN : OpenSSL_BN} {BNok : OpenSSL_BN_ok BN} this prevs t : GetBlockTrust this prevs = Some t → wf W256 t.
Proof.
  assert (Hu : ∀ k, 0 <= k < 2 ^ 64 → wf W256 (bu_of_u64 W256 k)). { intros k Hk. apply bu_of_u64_ok; [lia|done]. }
  assert (Hg : ∀ x, wf W256 (getuint256 x)) by (intros x; apply getuint256_ok).
  unfold GetBlockTrust. destruct (bn_le _ _); [intros [= <-]; by apply Hu|]. destruct prevs as [|prev prevs]; [intros [= <-]; by apply Hu|].
  destruct (_ <? _); [intros [= <-]; by apply Hu|]. destruct (IsProofOfStake this).
  - intros H. apply bind_Some in H as (x & _ & H).
    destruct (negb _); [by apply fmap_Some in H as (y & _ & ->)|]. destruct (_ <? _); [by apply fmap_Some in H as (y & _ & ->)|]. by injection H as <-.
  - intros H. apply bind_Some in H as (x & _ & H). destruct prevs as [|pp prevs]; [done|].
    destruct (negb _); [by apply bind_Some in H as (y & _ & [= <-])|]. destruct (_ <? _); [by apply bind_Some in H as (y & _ & [= <-])|].
    destruct (bn_le _ _); [injection H as <-; by apply Hu|]. by apply bind_Some in H as (y & _ & [= <-]).
Qed.

(** A tree stays one when a child is added to one of its blocks. *)
Lemma tree_insert m g h n p np : tree_ok m g → m !! h = None → nd_pprev n = Some p → m !! p = Some np → nd_nHeight n = nd_nHeight np + 1 →
  tree_ok (<[h := n]> m) g.
Proof.
  intros T Hh Ep Hp Hn. split.
  - intros h' n' [[<- <-]|[_ H]]%lookup_insert_Some; [|by eapply (tree_height _ _ T)]. pose proof (tree_height _ _ T _ _ Hp). lia.
  - intros h' n' [[<- <-]|[_ H]]%lookup_insert_Some Ep'; [congruence|]. by eapply (tree_root _ _ T).
  - intros h' n' p' [[<- <-]|[_ H]]%lookup_insert_Some Ep'.
    + exists np. rewrite lookup_insert_ne by congruence. split; congruence.
    + destruct (tree_prev _ _ T _ _ _ H Ep') as (np' & Hp' & ?). exists np'. rewrite lookup_insert_ne by congruence. done.
Qed.

(** No block of the tree has more trust than the best one. *)
Definition heaviest (s : ChainState) : Prop :=
  wf W256 (nBestChainTrust s) ∧
  ∀ h n, mapBlockIndex s !! h = Some n → wf W256 (nd_nChainTrust n) ∧ val (nd_nChainTrust n) <= val (nBestChainTrust s).

Section add.
Context {BN : OpenSSL_BN} {BNok : OpenSSL_BN_ok BN} {DG : Digests} (net : bool) (scrypt : list Z → base_uint).
Context (Verify : list Z → base_uint → list Z → bool) (nMaxCacheSize : Z) (random_entry : gset sigdata → sigdata).
Context (now cpTime estimate : Z) (rate_limited fThreads : bool).
Context (tx_at : CDiskTxPos → option CTransaction) (block_time_at : Z → Z → option Z) (block_at : Z → Z → option CBlock) (g : base_uint).

Local Abbreviation Set_ := (SetBestChain net scrypt Verify nMaxCacheSize random_entry now cpTime estimate rate_limited fThreads tx_at block_time_at block_at g).
Local Abbreviation Add := (AddToBlockIndex net scrypt Verify nMaxCacheSize random_entry now cpTime estimate rate_limited fThreads tx_at block_time_at block_at g).

(** The index object of a new block with a known parent *)
Definition new_index (m : BlockMap) (b : CBlock) (np n : Node) : Prop :=
  nd_pprev n = Some (hashPrevBlock b) ∧ nd_pnext n = None ∧ nd_nHeight n = nd_nHeight np + 1 ∧
  nd_GetBlockTime n = blk_GetBlockTime b ∧ bi_nBits (nd_index n) = blk_nBits b ∧ bi_nVersion (nd_index n) = blk_nVersion b ∧
  nd_IsProofOfStake n = blk_IsProofOfStake b ∧
  ∃ idx t, IsProofOfStake idx = blk_IsProofOfStake b ∧ bi_nBits idx = blk_nBits b ∧
    GetBlockTrust idx (index_chain (ancestors m (hashPrevBlock b))) = Some t ∧ nd_nChainTrust n = bu_add (nd_nChainTrust np) t.

Lemma or_flags_stake n f : Z.land f BLOCK_PROOF_OF_STAKE = 0 → nd_IsProofOfStake (or_flags n f) = nd_IsProofOfStake n.
Proof.
  intros Hf. unfold nd_IsProofOfStake, IsProofOfStake, or_flags. cbn. rewrite Z.land_lor_distr_l. by rewrite Hf, Z.lor_0_r.
Qed.

Lemma new_flag_stake nFile nBlockPos b : nd_IsProofOfStake (CBlockIndex_new nFile nBlockPos b) = blk_IsProofOfStake b.
Proof. unfold CBlockIndex_new. by destruct (blk_IsProofOfStake b). Qed.

Lemma AddToBlockIndex_inv s b nFile nBlockPos np ok s' : mapBlockIndex s !! hashPrevBlock b = Some np → Add s b nFile nBlockPos = Some (ok, s') →
  (ok = false ∧ s' = s) ∨
  ∃ n s1, mapBlockIndex s !! blk_GetHash scrypt b = None ∧ new_index (mapBlockIndex s) b np n ∧
    mapBlockIndex s1 = <[blk_GetHash scrypt b := n]> (mapBlockIndex s) ∧ best_of s1 = best_of s ∧
    (pindexGenesisBlock s1 = pindexGenesisBlock s ∧ mapProofOfStake s1 = mapProofOfStake s ∧
     bi_nFile (nd_index n) = nFile ∧ bi_nBlockPos (nd_index n) = nBlockPos) ∧
    if bu_gt (nd_nChainTrust n) (nBestChainTrust s) then Set_ s1 b (blk_GetHash scrypt b) = Some (ok, s') else ok = true ∧ s' = s1.
Proof.
  intros Hp. unfold AddToBlockIndex. rewrite Hp. case_bool_decide as Hin; [intros [= <- <-]; by left|].
  apply eq_None_not_Some in Hin. set (n0 := CBlockIndex_new nFile nBlockPos b).
  assert (Hn0 : nd_pnext n0 = None ∧ bi_nTime (nd_index n0) = blk_nTime b ∧ bi_nBits (nd_index n0) = blk_nBits b ∧ bi_nVersion (nd_index n0) = blk_nVersion b ∧
    bi_nFile (nd_index n0) = nFile ∧ bi_nBlockPos (nd_index n0) = nBlockPos).
  { unfold n0, CBlockIndex_new. by destruct (blk_IsProofOfStake b). }
  assert (Hst : nd_IsProofOfStake n0 = blk_IsProofOfStake b) by apply new_flag_stake. clearbody n0. destruct Hn0 as (Hnext & Htime & Hbits & Hver & Hfile & Hpos).
  set (n1 := with_index (with_pprev n0 _) _). intros H. apply bind_Some in H as (t & Ht & H).
  set (n2 := with_index n1 _) in H. apply bind_Some in H as (bit & Hbit & H).
  destruct (SetStakeEntropyBit n2 bit) as [n3|] eqn:E3; [|by injection H as <- <-; left].
  assert (H3 : nd_pprev n3 = Some (hashPrevBlock b) ∧ nd_pnext n3 = None ∧ nd_nHeight n3 = nd_nHeight np + 1 ∧ nd_GetBlockTime n3 = blk_GetBlockTime b ∧
    bi_nBits (nd_index n3) = blk_nBits b ∧ bi_nVersion (nd_index n3) = blk_nVersion b ∧ nd_IsProofOfStake n3 = blk_IsProofOfStake b ∧
    nd_nChainTrust n3 = bu_add (nd_nChainTrust np) t ∧ bi_nFile (nd_index n3) = nFile ∧ bi_nBlockPos (nd_index n3) = nBlockPos).
  { unfold SetStakeEntropyBit in E3. destruct (bit >? 1); [done|]. injection E3 as <-. split; [done|]. split; [done|]. split; [done|].
    split; [exact Htime|]. split; [exact Hbits|]. split; [exact Hver|]. split; [|by split]. rewrite or_flags_stake; [exact Hst|]. by destruct (bit =? 0). }
  assert (Hx : ∃ idx t', IsProofOfStake idx = blk_IsProofOfStake b ∧ bi_nBits idx = blk_nBits b ∧
    GetBlockTrust idx (index_chain (ancestors (mapBlockIndex s) (hashPrevBlock b))) = Some t' ∧ nd_nChainTrust n3 = bu_add (nd_nChainTrust np) t').
  { exists (nd_index n1), t. split; [exact Hst|]. split; [exact Hbits|]. split; [exact Ht|]. by destruct H3 as (_ & _ & _ & _ & _ & _ & _ & ? & _). }
  clearbody n2. clear E3 Hbit Ht. destruct H3 as (P1 & P2 & P3 & P4 & P5 & P6 & P7 & P8 & P9 & P10).
  destruct (if nd_IsProofOfStake n3 then _ else _) as [proof|]; [|by injection H as <- <-; left]. set (n4 := with_proof n3 proof) in H.
  destruct (ComputeNextStakeModifier _ _ _ _) as [[modifier gen]|]; [|by injection H as <- <-; left].
  set (n5 := SetStakeModifier n4 modifier gen) in H. destruct (_ && _); [done|]. set (n6 := with_checksum n5 _) in H.
  destruct (negb (CheckStakeModifierCheckpoints _ _ _)); [by injection H as <- <-; left|].
  assert (Hn6 : new_index (mapBlockIndex s) b np n6).
  { unfold new_index. assert (nd_IsProofOfStake n6 = nd_IsProofOfStake n3) as ->.
    { unfold n6, n5, SetStakeModifier. destruct gen; [|done]. change (nd_IsProofOfStake (or_flags (with_modifier n4 modifier) BLOCK_STAKE_MODIFIER) = nd_IsProofOfStake n3).
      by rewrite or_flags_stake. }
    unfold n6, n5, SetStakeModifier. by destruct gen. }
  assert (Hloc : bi_nFile (nd_index n6) = nFile ∧ bi_nBlockPos (nd_index n6) = nBlockPos) by (unfold n6, n5, SetStakeModifier; by destruct gen).
  right. exists n6. set (s1 := with_map s _) in H. destruct (nd_IsProofOfStake n6).
  - exists (with_seen s1 ({[(nd_prevoutStake n6, nd_nStakeTime n6)]} ∪ setStakeSeen s1)).
    split; [done|]. split; [done|]. split; [done|]. split; [done|]. split; [done|]. cbn [nBestChainTrust with_seen with_map s1] in H.
    destruct (bu_gt _ _); [exact H|]. by injection H as <- <-.
  - exists s1. split; [done|]. split; [done|]. split; [done|]. split; [done|]. split; [done|]. cbn [nBestChainTrust with_map s1] in H.
    destruct (bu_gt _ _); [exact H|]. by injection H as <- <-.
Qed.
End add.

(** ** Properties *)

(** C5. Moving the best chain keeps tree, links and database in step.  Starting from a
    state in which they agree on the best block, a successful [SetBestChain]
    makes the new block the best one; the [pnext] links then lead exactly to a
    block [tip] of its chain, the transaction index is what connecting the blocks
    up to [tip] one by one gives (blocks of the old branch fully taken back), and
    the database records [tip]; [tip] is the new block unless a postponed block
    could not be read or was refused.  If [SetBestChain] fails, everything but
    the supplies noted in the index, the signature cache and the record of the
    best invalid chain is as it was. *)
Theorem SetBestChain_ok {BN : OpenSSL_BN} {DG : Digests} net scrypt Verify nMaxCacheSize random_entry now cpTime estimate rate_limited fThreads
    tx_at block_time_at block_at g s best b new n ok s' :
  (∀ S, S ≠ ∅ → random_entry S ∈ S) → (∀ x, wf W256 (scrypt x)) →
  chain_ok net scrypt Verify nMaxCacheSize random_entry now cpTime estimate fThreads tx_at block_time_at block_at g s best →
  mapBlockIndex s !! new = Some n → read_block net scrypt block_at new n = Some b → nd_pprev n = Some (hashPrevBlock b) →
  SetBestChain net scrypt Verify nMaxCacheSize random_entry now cpTime estimate rate_limited fThreads tx_at block_time_at block_at g s b new =
    Some (ok, s') →
  same_index (mapBlockIndex s) (mapBlockIndex s') ∧
  if ok then
    best_of s' = (Some new, new, nd_nHeight n, nd_nChainTrust n) ∧
    ∃ tip, at_tip net scrypt Verify nMaxCacheSize random_entry now cpTime estimate fThreads tx_at block_time_at block_at g s' tip ∧
      tip ∈ path (mapBlockIndex s) new ∧
      (tip = new ∨
       blocked net scrypt Verify nMaxCacheSize random_entry now cpTime estimate fThreads tx_at block_time_at block_at (mapBlockIndex s) tip new ∧
       ∃ i ni, i ∈ path (mapBlockIndex s) tip ∧ mapBlockIndex s !! i = Some ni ∧ bu_gt (nd_nChainTrust ni) (nBestChainTrust s) = true)
  else best_of s' = best_of s ∧
    at_tip net scrypt Verify nMaxCacheSize random_entry now cpTime estimate fThreads tx_at block_time_at block_at g s' best ∧
    cs_txdb s' = cs_txdb s ∧ cs_mempool s' = cs_mempool s.
Proof.
  intros Hrandom Hscrypt C H Hr Ep HS. eapply SetBestChain_branch in HS as (s1 & E & Eb & Hok); [|done..].
  destruct ok.
  - destruct Hok as ((tip & At & Htip & Hend) & n1 & Hn1 & ->). split; [done|]. destruct (same_index_lookup _ _ _ _ E H) as (n' & Hn' & Ei & _).
    simplify_eq. split; [unfold best_of, new_best, nd_nHeight, nd_nChainTrust; cbn; by rewrite Ei|]. exists tip. split; [|done]. destruct At as [? ? ? ? ? ?]. by split.
  - destruct Hok as (-> & A & ? & ?). done.
Qed.


(** ** A reorganisation

    Blocks with a coinbase only, whose hash is their nonce: 1 is the first block,
    2 the best one, 3 and 4 a longer branch, 5 a child of 4 that pays too much. *)

Definition nonce_hash (header : list Z) : base_uint := bu_of_u64 W256 (dval 256 (drop 76 header) mod 2 ^ 32).
Definition prefix_digests : Digests := {|
  SHA1 _ := replicate 20 1;
  SHA256 x := if (length x =? 32)%nat then x else to_digits 256 32 (dval 256 x);
  RIPEMD160 x := replicate 20 1
|}.
Definition branch_block (k prev : Z) : CBlock :=
  let time := 1400000000 + 60 * k in
  let coinbase := mkTx 1 time [mkTxIn (mkOutPoint (bu_of_u64 W256 0) UINT_MAX) [81; 81] 0]
                    [mkTxOut (if k =? 5 then 1000 * COIN else 5000) [81]] 0 in
  mkBlock 6 (bu_of_u64 W256 prev) (BuildMerkleTree (DG := prefix_digests) [coinbase]).2 time 0x1d00ffff k [coinbase] [].
Definition branch_parent (k : Z) : Z := nth (Z.to_nat k) [0; 0; 1; 1; 3; 4] 0.
Definition branch_at (nFile nBlockPos : Z) : option CBlock :=
  if (nFile =? 1) && (1 <=? nBlockPos) && (nBlockPos <=? 5) then Some (branch_block nBlockPos (branch_parent nBlockPos)) else None.
Definition branch_node (k height trust : Z) (next : option Z) : base_uint * Node :=
  (sample_hash k,
   mkNode (mkIndex 1 k height (if k =? 1 then BLOCK_STAKE_MODIFIER else 0) (bu_of_u64 W256 trust) 6 (1400000000 + 60 * k) 0x1d00ffff)
     (if k =? 1 then None else Some (sample_hash (branch_parent k))) (sample_hash <$> next) 0 0 0 0
     (mkOutPoint (bu_of_u64 W256 0) UINT_MAX) 0 (bu_of_u64 W256 0)
     (hashMerkleRoot (branch_block k (branch_parent k))) k).
Definition branch_tree (l : list (base_uint * Node)) : BlockMap :=
  list_to_map ([branch_node 1 0 1 (Some 2); branch_node 2 1 2 None; branch_node 3 1 2 None] ++ l).
Abbreviation branch_tree4 := (branch_tree [branch_node 4 2 3 None]).
Definition branch_connect (m : BlockMap) (k : Z) : option (block_result * gset sigdata) :=
  ConnectBlock (DG := prefix_digests) false nonce_hash sample_verify 1 first_entry 1400001000 0 0 ∅ false
    (disk (λ _, None) (λ _ _, None) ∅) (index_chain (ancestors m (sample_hash k))) 0 (branch_block k (branch_parent k)) false ∅.
Definition branch_db (m : BlockMap) : TxMap :=
  match branch_connect m 2 with Some (BlockConnected _ _ db, _) => db | _ => ∅ end.
Definition branch_state (m : BlockMap) : ChainState :=
  mkChainState m (Some (sample_hash 1)) (Some (sample_hash 2)) (sample_hash 2) 1 (bu_of_u64 W256 2) (bu_of_u64 W256 0) ∅ ∅
    (branch_db m) (sample_hash 2) (mkPool ∅ ∅ 0) ∅.

Definition files_okb {BN : OpenSSL_BN} {DG : Digests} (net : bool) (scrypt : list Z → base_uint) (block_at : Z → Z → option CBlock)
    (m : BlockMap) : bool :=
  map_forallb (λ h n,
    match read_block net scrypt block_at h n with
    | None => true
    | Some b =>
        forallb tx_okb (vtx b) && negb (bi_nFile (nd_index n) =? UINT_MAX) &&
        match nd_pprev n with
        | None => true
        | Some p =>
            forallb (λ a,
              match m !! a ≫= read_block net scrypt block_at a with
              | None => true
              | Some ba => forallb (λ t, forallb (λ t', negb (bool_decide (GetHash t = GetHash t'))) (vtx ba)) (vtx b)
              end) (path m p)
        end
    end) m.
Lemma files_okb_ok {BN : OpenSSL_BN} {DG : Digests} net scrypt block_at m : files_okb net scrypt block_at m = true → files_ok net scrypt block_at m.
Proof.
  intros H. assert (H' := λ h n, map_forallb_ok _ m h n H). cbn beta in H'. split.
  - intros h n b Hn Hr. specialize (H' h n Hn). rewrite Hr in H'. split_andb. split; [|lia].
    apply Forall_forall. intros tx Hin. apply tx_okb_ok. by eapply forallb_forall; [|apply list_elem_of_In].
  - intros h n b p a na ba Hn Hr Ep Ha Hna Hra tx tx' Hin Hin'. specialize (H' h n Hn). rewrite Hr, Ep in H'. split_andb.
    apply list_elem_of_In in Ha, Hin, Hin'. repeat match goal with
      | H : forallb _ ?l = true, Hi : In _ ?l |- _ => rewrite forallb_forall in H; specialize (H _ Hi); cbn beta in H
      | H : context [m !! a] |- _ => rewrite Hna in H; cbn in H; rewrite Hra in H
      end.
    by case_bool_decide.
Qed.

Definition heaviestb (s : ChainState) : bool :=
  wfb W256 (nBestChainTrust s) &&
  map_forallb (λ _ n, wfb W256 (nd_nChainTrust n) && (val (nd_nChainTrust n) <=? val (nBestChainTrust s))) (mapBlockIndex s).
Lemma heaviestb_ok s : heaviestb s = true → heaviest s.
Proof.
  intros [H1 H2]%andb_true_iff. split; [by apply wfb_ok|]. intros h n Hn. apply (map_forallb_ok _ _ _ _ H2) in Hn.
  apply andb_true_iff in Hn as [? ?]. split; [by apply wfb_ok|lia].
Qed.

Lemma nonce_hash_wf x : wf W256 (nonce_hash x).
Proof.
  apply bu_of_u64_ok; [lia|]. pose proof (Z.mod_pos_bound (dval 256 (drop 76 x)) (2 ^ 32)). lia.
Qed.

Abbreviation branch_ok := (chain_ok (DG := prefix_digests) false nonce_hash sample_verify 1 first_entry 1400001000 0 0 false
  (λ _, None) (λ _ _, None) branch_at (sample_hash 1)).
Abbreviation branch_set := (SetBestChain (DG := prefix_digests) false nonce_hash sample_verify 1 first_entry 1400001000 0 0 false false
  (λ _, None) (λ _ _, None) branch_at (sample_hash 1)).
Definition branch_after (m : BlockMap) (k : Z) : ChainState :=
  match branch_set (branch_state m) (branch_block k (branch_parent k)) (sample_hash k) with Some (_, s) => s | None => branch_state m end.

Lemma branch_connected : branch_connect branch_tree4 2 = Some (BlockConnected 5000 5000 (branch_db branch_tree4), ∅).
Proof. vm_compute. reflexivity. Qed.

Lemma branch_chain_ok : branch_ok (branch_state branch_tree4) (sample_hash 2).
Proof.
  split.
  - split.
    + apply tree_okb_ok. vm_compute. reflexivity.
    + apply keys_wfb_ok. vm_compute. reflexivity.
    + apply links_okb_ok. vm_compute. reflexivity.
    + apply files_okb_ok. vm_compute. reflexivity.
    + apply (db_next _ _ _ _ _ _ _ _ _ _ _ _ _ _ (sample_hash 2) (branch_node 2 1 2 None).2 (sample_hash 1) ∅); [reflexivity..|constructor|].
      exists (branch_node 2 1 2 None).2, (branch_block 2 1), ∅, 0, ∅, 5000, 5000, ∅. split; [vm_compute; reflexivity|].
      split; [vm_compute; reflexivity|]. split; [exact sample_cache_ok|exact branch_connected].
    + reflexivity.
  - exact sample_cache_ok.
  - reflexivity.
  - exists (branch_node 2 1 2 None).2. split; reflexivity.
Qed.

Lemma SetBestChain_ok_witness : best_of (branch_after branch_tree4 4) = (Some (sample_hash 4), sample_hash 4, 2, bu_of_u64 W256 3) ∧
  same_index branch_tree4 (mapBlockIndex (branch_after branch_tree4 4)).
Proof.
  pose proof (SetBestChain_ok (DG := prefix_digests) false nonce_hash sample_verify 1 first_entry 1400001000 0 0 false false (λ _, None) (λ _ _, None)
    branch_at (sample_hash 1) (branch_state branch_tree4) (sample_hash 2) (branch_block 4 3) (sample_hash 4) (branch_node 4 2 3 None).2 true
    (branch_after branch_tree4 4)) as H.
  destruct H as (H1 & H2 & _); [exact first_entry_in|exact nonce_hash_wf|exact branch_chain_ok|vm_compute; reflexivity..|].
  split; [exact H2|exact H1].
Defined.

(** A block that is refused after the reorganisation: [SetBestChain] reports
    success and makes block 5 the best block, while the database, its
    transaction index and the links stop at block 4. *)
Example SetBestChain_ahead_of_database :
  let m := branch_tree [branch_node 4 2 3 None; branch_node 5 3 4 None] in
  branch_set (branch_state m) (branch_block 5 4) (sample_hash 5) = Some (true, branch_after m 5) ∧
  pindexBest (branch_after m 5) = Some (sample_hash 5) ∧ nBestHeight (branch_after m 5) = 3 ∧
  cs_dbBest (branch_after m 5) = sample_hash 4 ∧ IsInMainChain (mapBlockIndex (branch_after m 5)) (Some (sample_hash 5)) (sample_hash 4) = false.
Proof. vm_compute. repeat split; reflexivity. Qed.

Definition branch_add : option (bool * ChainState) :=
  AddToBlockIndex (DG := prefix_digests) false nonce_hash sample_verify 1 first_entry 1400001000 0 0 false false (λ _, None) (λ _ _, None)
    branch_at (sample_hash 1) (branch_state (branch_tree [])) (branch_block 4 3) 1 4.
Definition branch_added : ChainState := match branch_add with Some (_, s) => s | None => branch_state (branch_tree []) end.

