(* ===== verification/BlockFiles.v ===== *)
(** * The block files (src/main.cpp, src/main.h)

    [WriteToDisk] appends a block to the current file blkNNNN.dat and returns
    where; [ReadFromDisk] reads blocks, headers and transactions back from a
    position.  The files are lists of bytes.  What was written is read back, also
    after later writes, and the positions [ConnectBlock] computes for the
    transactions of a block are where they are. *)

From stdpp Require Import base list numbers option gmap.
From Stdlib Require Import ZArith Lia.
From S2P Require Import Prelude CheckQueue Uint256 Bignum Serialize Tx Script Interp SigCheck Chain Utxo ScriptStd Mempool Block ConnectBlock.
From S2P Require Import BlockIndex Kernel BestChain.

Open Scope Z_scope.

(** ** State and operations *)

Record BlockFiles := mkFiles {
  bf_data : gmap Z (list Z);
  nCurrentBlockFile : Z
}.

Definition pchMessageStart (fTestNet : bool) : list Z :=
  if fTestNet then [0xcd; 0xf2; 0xc0; 0xef] else [0xe4; 0xe8; 0xe9; 0xe5].

(** [OpenBlockFile(nFile, nBlockPos, "rb")] *)
Definition OpenBlockFile (fs : BlockFiles) (nFile nBlockPos : Z) : option (list Z) :=
  if (nFile <? 1) || (nFile =? UINT_MAX) then None
  else data ← bf_data fs !! nFile; Some (drop (Z.to_nat nBlockPos) data).

(** [AppendBlockFile]: the files with the one to write to opened ([ab] creates
    it), and its number *)
Definition max_file_size : Z := 0x7F000000 - MAX_SIZE.
Fixpoint append_loop (fuel : nat) (fs : BlockFiles) : option (BlockFiles * Z) :=
  match fuel with
  | O => None
  | S fuel =>
      let n := nCurrentBlockFile fs in
      if (n <? 1) || (n =? UINT_MAX) then None
      else
        let data := default [] (bf_data fs !! n) in
        let files := <[n := data]> (bf_data fs) in
        if Z.of_nat (length data) <? max_file_size then Some (mkFiles files n, n)
        else append_loop fuel (mkFiles files (u32 (n + 1)))
  end.
Definition AppendBlockFile (fs : BlockFiles) : option (BlockFiles * Z) := append_loop (S (size (bf_data fs))) fs.

(** [CBlock::WriteToDisk]: the files with [nFileRet] and [nBlockPosRet] *)
Definition WriteToDisk (fTestNet : bool) (fs : BlockFiles) (b : CBlock) : option (BlockFiles * Z * Z) :=
  '(fs, nFileRet) ← AppendBlockFile fs;
  let data := default [] (bf_data fs !! nFileRet) in
  let data := data ++ pchMessageStart fTestNet ++ write_int 4 (GetSerializeSize b) in
  let nBlockPosRet := u32 (Z.of_nat (length data)) in
  Some (mkFiles (<[nFileRet := data ++ Serialize b]> (bf_data fs)) (nCurrentBlockFile fs), nFileRet, nBlockPosRet).

(** [CBlock::ReadFromDisk(nFile, nBlockPos)] up to the check of the header *)
Definition read_block_at (fs : BlockFiles) (nFile nBlockPos : Z) : option CBlock :=
  s ← OpenBlockFile fs nFile nBlockPos;
  '(b, _) ← Unserialize s;
  Some b.
(** With [SER_BLOCKHEADERONLY] *)
Definition read_header (s : list Z) : option (CBlock * list Z) :=
  '(v, s) ← read_int32 s; '(p, s) ← bu_Unserialize W256 s; '(m, s) ← bu_Unserialize W256 s;
  '(t, s) ← read_uint 4 s; '(n, s) ← read_uint 4 s; '(c, s) ← read_uint 4 s;
  Some (mkBlock v p m t n c [] [], s).
Definition read_header_at (fs : BlockFiles) (nFile nBlockPos : Z) : option CBlock :=
  s ← OpenBlockFile fs nFile nBlockPos;
  '(b, _) ← read_header s;
  Some b.
Definition read_time_at (fs : BlockFiles) (nFile nBlockPos : Z) : option Z := blk_GetBlockTime <$> read_header_at fs nFile nBlockPos.
(** [CTransaction::ReadFromDisk(pos)] *)
Definition read_tx_at (fs : BlockFiles) (p : CDiskTxPos) : option CTransaction :=
  s ← OpenBlockFile fs (nFile p) (nTxPos p);
  '(tx, _) ← Unserialize s;
  Some tx.

(** ** Readers do not look beyond what they read *)

Definition stable {A} (f : list Z → option (A * list Z)) : Prop :=
  ∀ s x r t, f s = Some (x, r) → f (s ++ t) = Some (x, r ++ t).

Lemma stable_ret {A} (x : A) : stable (λ s, Some (x, s)).
Proof. by intros s y r t [= <- <-]. Qed.
Lemma stable_none {A} : stable (A := A) (λ _, None).
Proof. done. Qed.
Lemma stable_bind {A B} (f : list Z → option (A * list Z)) (g : A → list Z → option (B * list Z)) :
  stable f → (∀ x, stable (g x)) → stable (λ s, '(x, s) ← f s; g x s).
Proof.
  intros Hf Hg s y r t H. apply bind_Some in H as ([x s'] & H1 & H2). rewrite (Hf _ _ _ t H1). cbn. by apply Hg.
Qed.
Lemma stable_if {A} (c : bool) (f g : list Z → option (A * list Z)) : stable f → stable g → stable (λ s, if c then f s else g s).
Proof. by destruct c. Qed.
Lemma stable_read_bytes n : stable (read_bytes n).
Proof.
  intros s x r t. unfold read_bytes. case_bool_decide as Hn; [|done]. intros [= <- <-].
  rewrite bool_decide_true by (rewrite length_app; lia). by rewrite take_app_le, drop_app_le by lia.
Qed.
Create HintDb stable.
#[export] Hint Resolve stable_ret stable_none stable_bind stable_if stable_read_bytes : stable.

(** A reader composed of stable ones *)
Ltac stable_tac :=
  repeat first
    [ apply stable_ret | apply stable_none | apply stable_read_bytes | solve [auto with stable]
    | apply stable_if
    | refine (stable_bind _ (λ x s, _) _ _); [|intros ?] ].

Lemma stable_read_uint n : stable (read_uint n).
Proof. unfold read_uint. stable_tac. Qed.
#[export] Hint Resolve stable_read_uint : stable.
Lemma stable_read_int32 : stable read_int32.
Proof. unfold read_int32. stable_tac. Qed.
Lemma stable_read_int64 : stable read_int64.
Proof. unfold read_int64. stable_tac. Qed.
Lemma stable_bu W : stable (bu_Unserialize W).
Proof.
  intros s x r t. unfold bu_Unserialize. case_bool_decide as Hn; [|done]. intros [= <- <-].
  rewrite bool_decide_true by (rewrite length_app; lia). by rewrite take_app_le, drop_app_le by lia.
Qed.
Lemma stable_ReadCompactSize : stable ReadCompactSize.
Proof. unfold ReadCompactSize. stable_tac. Qed.
#[export] Hint Resolve stable_read_int32 stable_read_int64 stable_bu stable_ReadCompactSize : stable.
Lemma stable_unser_bytes : stable unser_bytes.
Proof. unfold unser_bytes. stable_tac. Qed.
#[export] Hint Resolve stable_unser_bytes : stable.

Lemma stable_vector {T} `{Codec T} : stable Unserialize → stable unser_vector.
Proof.
  intros HT. assert (Hi : ∀ n, stable (unser_items n)). { induction n as [|n IH]; cbn [unser_items]; stable_tac. }
  unfold unser_vector. stable_tac.
Qed.
Lemma stable_txin : stable (Unserialize (T := CTxIn)).
Proof. cbn [Unserialize CTxIn_codec COutPoint_codec bytes_codec]. stable_tac. Qed.
Lemma stable_txout : stable (Unserialize (T := CTxOut)).
Proof. cbn [Unserialize CTxOut_codec bytes_codec]. stable_tac. Qed.
Lemma stable_tx : stable (Unserialize (T := CTransaction)).
Proof. pose proof (stable_vector stable_txin). pose proof (stable_vector stable_txout). cbn [Unserialize CTransaction_codec]. stable_tac. Qed.
Lemma stable_block : stable (Unserialize (T := CBlock)).
Proof. pose proof (stable_vector stable_tx). cbn [Unserialize CBlock_codec bytes_codec]. stable_tac. Qed.
Lemma stable_header : stable read_header.
Proof. unfold read_header. stable_tac. Qed.

(** ** Files only grow *)

Definition extends (fs fs' : BlockFiles) : Prop :=
  ∀ n data, bf_data fs !! n = Some data → ∃ more, bf_data fs' !! n = Some (data ++ more).
#[export] Instance extends_preorder : PreOrder extends.
Proof.
  split; [intros fs n d H; exists []; by rewrite app_nil_r|]. intros fs1 fs2 fs3 H1 H2 n d H.
  destruct (H1 n d H) as [m1 E1]. destruct (H2 n _ E1) as [m2 E2]. exists (m1 ++ m2). by rewrite app_assoc.
Qed.

Lemma open_extends {A} (f : list Z → option (A * list Z)) fs fs' n p x : stable f → f [] = None → extends fs fs' →
  (s ← OpenBlockFile fs n p; '(x, _) ← f s; Some x) = Some x → (s ← OpenBlockFile fs' n p; '(x, _) ← f s; Some x) = Some x.
Proof.
  intros Hf Hnil E. unfold OpenBlockFile. destruct (_ || _); [done|]. intros H. apply bind_Some in H as (s & Hs & H).
  apply bind_Some in Hs as (data & Hd & [= <-]). destruct (E _ _ Hd) as [more ->]. cbn [mbind option_bind].
  apply bind_Some in H as ([y r] & Hy & [= ->]). destruct (decide (Z.to_nat p <= length data)%nat) as [Hle|Hgt].
  - rewrite drop_app_le by done. by rewrite (Hf _ _ _ more Hy).
  - rewrite drop_ge in Hy by lia. congruence.
Qed.
Lemma read_block_extends fs fs' n p b : extends fs fs' → read_block_at fs n p = Some b → read_block_at fs' n p = Some b.
Proof. intros E. apply open_extends; [apply stable_block|done|done]. Qed.
Lemma read_header_extends fs fs' n p b : extends fs fs' → read_header_at fs n p = Some b → read_header_at fs' n p = Some b.
Proof. intros E. apply open_extends; [apply stable_header|done|done]. Qed.
Lemma read_tx_extends fs fs' p tx : extends fs fs' → read_tx_at fs p = Some tx → read_tx_at fs' p = Some tx.
Proof. intros E. apply open_extends; [apply stable_tx|done|done]. Qed.

(** ** Appending *)

Lemma open_extends_create fs n : extends fs (mkFiles (<[n := default [] (bf_data fs !! n)]> (bf_data fs)) (nCurrentBlockFile fs)).
Proof.
  intros k d H. exists []. rewrite app_nil_r. cbn. destruct (decide (k = n)) as [->|]; [rewrite lookup_insert_eq, H|rewrite lookup_insert_ne]; done.
Qed.

Lemma append_loop_ok fuel fs fs' n : append_loop fuel fs = Some (fs', n) →
  extends fs fs' ∧ nCurrentBlockFile fs' = n ∧ 1 <= n ∧ n ≠ UINT_MAX ∧
  ∃ data, bf_data fs' !! n = Some data ∧ Z.of_nat (length data) < max_file_size.
Proof.
  revert fs. induction fuel as [|fuel IH]; intros fs; [done|]. cbn [append_loop].
  destruct (_ || _) eqn:Er; [done|]. apply orb_false_iff in Er as [E1 E2]. destruct (Z.ltb_spec (Z.of_nat (length (default [] (bf_data fs !! nCurrentBlockFile fs)))) max_file_size) as [Hlt|Hge].
  - intros [= <- <-]. split; [apply open_extends_create|]. split; [done|]. split; [lia|]. split; [lia|].
    exists (default [] (bf_data fs !! nCurrentBlockFile fs)). split; [apply lookup_insert_eq|done].
  - intros H. apply IH in H as (He & ?). split; [|done]. etransitivity; [apply (open_extends_create fs (nCurrentBlockFile fs))|exact He].
Qed.

(** The files from the current one on bound the number of turns. *)
Definition files_from (fs : BlockFiles) : gset Z := filter (λ k, nCurrentBlockFile fs <= k) (dom (bf_data fs)).
Lemma append_loop_total fuel fs : 1 <= nCurrentBlockFile fs → nCurrentBlockFile fs + Z.of_nat (size (files_from fs)) < UINT_MAX →
  (size (files_from fs) < fuel)%nat → is_Some (append_loop fuel fs).
Proof.
  revert fs. induction fuel as [|fuel IH]; intros fs H1 H2 Hf; [lia|]. cbn [append_loop]. set (n := nCurrentBlockFile fs) in *.
  rewrite (proj2 (Z.ltb_ge n 1)), (proj2 (Z.eqb_neq n UINT_MAX)) by lia. cbn [orb].
  destruct (Z.ltb_spec (Z.of_nat (length (default [] (bf_data fs !! n)))) max_file_size) as [_|Hge]; [eauto|].
  destruct (bf_data fs !! n) as [d|] eqn:Hd; [|cbn in Hge; by compute in Hge]. cbn [default]. rewrite (insert_id _ _ _ Hd).
  rewrite u32_small by (unfold UINT_MAX in H2; lia).
  set (fs1 := mkFiles (bf_data fs) (n + 1)).
  assert (Hsz : size (files_from fs) = S (size (files_from fs1))).
  { assert (files_from fs = {[n]} ∪ files_from fs1) as ->.
    { apply set_eq. intros k. unfold files_from. cbn [bf_data nCurrentBlockFile fs1]. fold n. rewrite elem_of_union, !elem_of_filter, elem_of_singleton.
      split; [intros [? ?]; destruct (decide (k = n)); [by left|right; split; [lia|done]]|].
      intros [->|[? ?]]; [split; [lia|by apply elem_of_dom_2 in Hd]|split; [lia|done]]. }
    rewrite size_union, size_singleton; [done|]. unfold files_from. cbn. set_solver by lia. }
  apply IH; cbn [nCurrentBlockFile fs1]; lia.
Qed.

Lemma AppendBlockFile_total fs : 1 <= nCurrentBlockFile fs → nCurrentBlockFile fs + Z.of_nat (size (bf_data fs)) < UINT_MAX →
  is_Some (AppendBlockFile fs).
Proof.
  intros H1 H2. assert (size (files_from fs) <= size (bf_data fs))%nat.
  { rewrite <- size_dom. apply subseteq_size. unfold files_from. set_solver. }
  apply append_loop_total; lia.
Qed.

(** ** A block in a file *)

(** The bytes of [b] are at position [p] of file [n]. *)
Definition stored (fs : BlockFiles) (n p : Z) (b : CBlock) : Prop :=
  1 <= n ∧ n ≠ UINT_MAX ∧ block_ok b ∧
  ∃ pre post, bf_data fs !! n = Some (pre ++ Serialize b ++ post) ∧ Z.of_nat (length pre) = p ∧ p + Z.of_nat (length (Serialize b)) < 2 ^ 32.

Lemma stored_extends fs fs' n p b : extends fs fs' → stored fs n p b → stored fs' n p b.
Proof.
  intros E (H1 & H2 & Hb & pre & post & Hd & Hp). destruct (E _ _ Hd) as [more Hm]. split; [done|]. split; [done|]. split; [done|].
  exists pre, (post ++ more). by rewrite Hm, <- !app_assoc.
Qed.

Lemma open_at fs n pre rest : 1 <= n → n ≠ UINT_MAX → bf_data fs !! n = Some (pre ++ rest) →
  OpenBlockFile fs n (Z.of_nat (length pre)) = Some rest.
Proof.
  intros H1 H2 Hd. unfold OpenBlockFile. rewrite (proj2 (Z.ltb_ge n 1)), (proj2 (Z.eqb_neq n UINT_MAX)) by lia. cbn [orb].
  rewrite Hd. cbn. by rewrite Nat2Z.id, drop_app_length.
Qed.

Lemma stored_read fs n p b : stored fs n p b → read_block_at fs n p = Some b.
Proof.
  intros (H1 & H2 & Hb & pre & post & Hd & <- & _). unfold read_block_at. rewrite (open_at _ _ _ _ H1 H2 Hd). cbn [mbind option_bind].
  by rewrite (codec_roundtrip (ok := block_ok)).
Qed.

(** The transactions of a block start where [ConnectBlock] says. *)
Definition first_tx_pos (p : Z) (b : CBlock) : Z := u32 (p + 80 + GetSizeOfCompactSize (Z.of_nat (length (vtx b)))).

Lemma positions_lookup n p (txs : list CTransaction) : Forall tx_ok txs → ∀ start i q, 0 <= start →
  start + Z.of_nat (length (concat (map Serialize txs))) < 2 ^ 32 → positions false n p start txs !! i = Some q →
  q = mkPos n p (start + Z.of_nat (length (concat (map Serialize (take i txs))))).
Proof.
  induction 1 as [|tx txs Ht _ IH]; intros start i q Hs Hlen; [done|]. cbn [map concat] in Hlen. rewrite length_app in Hlen.
  cbn [positions]. destruct i as [|i]; [intros [= <-]; cbn; by rewrite Z.add_0_r|]. cbn [lookup list_lookup take map concat]. rewrite length_app.
  rewrite (codec_size (ok := tx_ok)), u32_add_r, u32_small by (done || lia). intros H. apply IH in H as ->; [|lia..]. f_equal. lia.
Qed.

Lemma stored_tx fs n p b i tx q : stored fs n p b → vtx b !! i = Some tx →
  positions false n p (first_tx_pos p b) (vtx b) !! i = Some q → read_tx_at fs q = Some tx.
Proof.
  intros (H1 & H2 & Hb & pre & post & Hd & <- & Hlen) Hi Hq. assert (Hx := blk_vtx_ok _ Hb). destruct Hx as [_ Hx].
  assert (Hh := length_ser_header _ Hb).
  assert (Es : Serialize b = ser_header b ++ (WriteCompactSize (Z.of_nat (length (vtx b))) ++ concat (map Serialize (vtx b))) ++ Serialize (vchBlockSig b)) by done.
  assert (Hc := length_WriteCompactSize (Z.of_nat (length (vtx b))) ltac:(lia)).
  rewrite Es, !length_app, Hh in Hlen.
  assert (Hst : first_tx_pos (Z.of_nat (length pre)) b = Z.of_nat (length pre) + 80 + GetSizeOfCompactSize (Z.of_nat (length (vtx b)))).
  { unfold first_tx_pos. apply u32_small. lia. }
  rewrite Hst in Hq. apply positions_lookup in Hq as ->; [|done|lia|lia].
  set (before := take i (vtx b)). assert (Ev : vtx b = before ++ tx :: drop (S i) (vtx b)) by (symmetry; by apply take_drop_middle).
  unfold read_tx_at. cbn [nFile nTxPos].
  replace (Z.of_nat (length pre) + 80 + _ + _) with (Z.of_nat (length (pre ++ ser_header b ++ WriteCompactSize (Z.of_nat (length (vtx b))) ++ concat (map Serialize before)))).
  2: { rewrite !length_app, Hh. lia. }
  erewrite open_at; [|done|done|].
  2: { rewrite Hd, Es. rewrite Ev at 2. rewrite map_app, concat_app. cbn [map concat]. rewrite <- !app_assoc. do 5 f_equal. }
  cbn [mbind option_bind]. rewrite (codec_roundtrip (ok := tx_ok)); [done|]. by eapply Forall_lookup_1.
Qed.

Lemma stored_header fs n p b : stored fs n p b →
  read_header_at fs n p = Some (mkBlock (blk_nVersion b) (hashPrevBlock b) (hashMerkleRoot b) (blk_nTime b) (blk_nBits b) (nNonce b) [] []).
Proof.
  intros (H1 & H2 & [Hv Hp Hm Ht Hn Hc _ _] & pre & post & Hd & <- & _). unfold read_header_at. rewrite (open_at _ _ _ _ H1 H2 Hd). cbn [mbind option_bind].
  change (Serialize b) with (ser_header b ++ ser_vector (vtx b) ++ Serialize (vchBlockSig b)). unfold read_header, ser_header. rewrite <- !app_assoc.
  rewrite read_int32_write by lia. cbn [mbind option_bind]. do 2 (rewrite (bu_Unserialize_ok W256) by done; cbn [mbind option_bind]).
  do 3 (rewrite read_uint_write by (cbn; lia); cbn [mbind option_bind]). done.
Qed.

Lemma WriteToDisk_stored net fs b fs' n p : block_ok b → Z.of_nat (length (Serialize b)) <= MAX_SIZE →
  WriteToDisk net fs b = Some (fs', n, p) → extends fs fs' ∧ stored fs' n p b.
Proof.
  intros Hb Hlen H. unfold WriteToDisk in H. apply bind_Some in H as ([fs1 n1] & Ha & H).
  apply append_loop_ok in Ha as (He & Hc & H1 & H2 & data & Hd & Hlt). rewrite Hd in H. cbn [default] in H.
  generalize dependent (GetSerializeSize b). intros size H. injection H as <- <- <-. split.
  - etransitivity; [exact He|]. intros k d Hk. cbn [bf_data]. destruct (decide (k = n1)) as [->|]; [|rewrite lookup_insert_ne by done; exists []; by rewrite app_nil_r].
    rewrite lookup_insert_eq. simplify_eq. rewrite <- app_assoc. eauto.
  - split; [done|]. split; [done|]. split; [done|]. cbn [bf_data]. rewrite lookup_insert_eq.
    assert (Hu : length (data ++ pchMessageStart net ++ write_int 4 size) = (length data + 8)%nat).
    { rewrite !length_app, length_write_int. by destruct net. }
    exists (data ++ pchMessageStart net ++ write_int 4 size), []. rewrite app_nil_r. split; [done|].
    rewrite Hu. unfold max_file_size, MAX_SIZE in *. rewrite u32_small by lia. lia.
Qed.

(** ** The transaction index and the files *)

(** Every entry of the index points to the transaction it is named after and has
    a marker for each of its outputs; a marker that is set points to a
    transaction that spends the output. *)
Definition index_on_disk {DG : Digests} (fs : BlockFiles) (db : TxMap) : Prop :=
  ∀ h e, db !! h = Some e → ∃ tx, read_tx_at fs (pos e) = Some tx ∧ GetHash tx = h ∧ length (vSpent e) = length (vout tx) ∧
    ∀ k q, vSpent e !! k = Some q → CDiskTxPos_IsNull q = false → ∃ tx', read_tx_at fs q = Some tx' ∧ mkOutPoint h (Z.of_nat k) ∈ spends tx'.

Lemma index_on_disk_extends {DG : Digests} fs fs' db : extends fs fs' → index_on_disk fs db → index_on_disk fs' db.
Proof.
  intros E H h e He. destruct (H h e He) as (tx & Htx & Hh & Hl & Hs). exists tx. split; [by eapply read_tx_extends|]. split; [done|]. split; [done|].
  intros k q Hq Hn. destruct (Hs k q Hq Hn) as (tx' & Htx' & Hin). exists tx'. split; [by eapply read_tx_extends|done].
Qed.

Lemma mark_all_entry p os m h e : Forall (λ o, 0 <= op_n o) os → mark_all p m os !! h = Some e →
  ∃ e0, m !! h = Some e0 ∧ pos e = pos e0 ∧ length (vSpent e) = length (vSpent e0) ∧
    ∀ k q, vSpent e !! k = Some q → vSpent e0 !! k = Some q ∨ (q = p ∧ mkOutPoint h (Z.of_nat k) ∈ os).
Proof.
  intros Ho. revert m. induction Ho as [|o os Ho _ IH]; intros m; cbn [mark_all fold_left]; [intros H; exists e; eauto|].
  intros H. apply IH in H as (e1 & H1 & E1 & L1 & S1). unfold mark in H1. destruct (decide (h = op_hash o)) as [->|Hne].
  - rewrite lookup_alter_eq in H1. destruct (m !! op_hash o) as [e0|] eqn:E; [|done]. injection H1 as <-. exists e0. split; [done|]. split; [done|].
    split; [rewrite L1; apply length_insert|]. intros k q Hq. destruct (S1 k q Hq) as [Hk|[-> Hin]]; [|right; split; [done|by right]].
    cbn in Hk. destruct (decide (k = Z.to_nat (op_n o))) as [->|Hk'].
    + apply list_lookup_insert_Some in Hk as [(_ & <- & _)|(? & _)]; [|done]. right. split; [done|]. rewrite Z2Nat.id by lia. destruct o. by left.
    + rewrite list_lookup_insert_ne in Hk by congruence. by left.
  - rewrite lookup_alter_ne in H1 by done. exists e1. split; [done|]. split; [done|]. split; [done|]. intros k q Hq.
    destruct (S1 k q Hq) as [?|[-> ?]]; [by left|right; split; [done|by right]].
Qed.

Lemma connects_on_disk {BN : OpenSSL_BN} {DG : Digests} net Verify cpTime d c fScript fs m txs ps ins m' :
  connects net Verify cpTime d c fScript m txs ps ins m' → (∀ i tx p, txs !! i = Some tx → ps !! i = Some p → read_tx_at fs p = Some tx) →
  index_on_disk fs m → index_on_disk fs m'.
Proof.
  induction 1 as [|m tx p v txs ps ins m' _ _ Hco _ IH]; [done|]. intros Hread Hm. apply IH; [intros i; apply (Hread (S i))|]. clear IH.
  assert (Hp := Hread 0%nat tx p eq_refl eq_refl).
  assert (Ho : Forall (λ o, 0 <= op_n o) (spends tx)).
  { destruct Hco as [Hcb|inputs Hcb _ _ _ Hun _ _ _ _]; [unfold spends; rewrite Hcb; constructor|].
    eapply Forall_impl; [exact Hun|]. intros o (x & _ & ? & _). lia. }
  intros h e. unfold add_tx. intros [[<- <-]|[_ He]]%lookup_insert_Some.
  - exists tx. cbn. split; [done|]. split; [done|]. rewrite length_replicate. split; [done|]. intros k q Hq.
    apply lookup_replicate in Hq as [-> _]. done.
  - apply (mark_all_entry _ _ _ _ _ Ho) in He as (e0 & He0 & Ep & El & Es). destruct (Hm h e0 He0) as (tx0 & Htx0 & Hh & Hl & Hs).
    exists tx0. rewrite Ep. split; [done|]. split; [done|]. split; [by rewrite El|]. intros k q Hq Hn.
    destruct (Es k q Hq) as [Hk|[-> Hin]]; [by eapply Hs|by exists tx].
Qed.

(** ** Properties *)

(** C10. Blocks survive the files.  While file numbers last, writing a block succeeds;
    from then on, however much is appended, the block and its header are read back
    from the returned position, every transaction of it from the position
    [ConnectBlock] notes in the index, and whatever could be read before the write
    is read as before. *)
Theorem block_file_roundtrip net fs b : block_ok b → Z.of_nat (length (Serialize b)) <= MAX_SIZE →
  1 <= nCurrentBlockFile fs → nCurrentBlockFile fs + Z.of_nat (size (bf_data fs)) < UINT_MAX →
  ∃ fs1 n p, WriteToDisk net fs b = Some (fs1, n, p) ∧ ∀ fs', extends fs1 fs' →
    read_block_at fs' n p = Some b ∧
    read_header_at fs' n p = Some (mkBlock (blk_nVersion b) (hashPrevBlock b) (hashMerkleRoot b) (blk_nTime b) (blk_nBits b) (nNonce b) [] []) ∧
    (∀ i tx q, vtx b !! i = Some tx → positions false n p (first_tx_pos p b) (vtx b) !! i = Some q → read_tx_at fs' q = Some tx) ∧
    (∀ n p b, read_block_at fs n p = Some b → read_block_at fs' n p = Some b) ∧
    (∀ q tx, read_tx_at fs q = Some tx → read_tx_at fs' q = Some tx).
Proof.
  intros Hb Hlen H1 H2. destruct (AppendBlockFile_total fs H1 H2) as [[fs0 n] Ha].
  assert (Hw : is_Some (WriteToDisk net fs b)) by (unfold WriteToDisk; rewrite Ha; cbn; eauto). destruct Hw as [[[fs1 n1] p] Hw].
  exists fs1, n1, p. split; [done|]. intros fs' E. apply WriteToDisk_stored in Hw as [E1 Hst]; [|done..]. apply (stored_extends _ fs') in Hst; [|done].
  assert (E' : extends fs fs') by (etransitivity; done). split; [by apply stored_read|]. split; [by apply stored_header|].
  split; [intros i tx q; by apply stored_tx|]. split; [intros ? ? ?; by apply read_block_extends|intros ? ?; by apply read_tx_extends].
Qed.

(** C9. The database describes the files: in the transaction index of any chain,
    every entry points to the transaction it is named after, with one marker per
    output, and every marker that is set points to a transaction that spends
    that output. *)
Theorem database_on_disk {BN : OpenSSL_BN} {DG : Digests} net scrypt Verify nMaxCacheSize random_entry now cpTime estimate fThreads fs m g h db :
  (∀ S, S ≠ ∅ → random_entry S ∈ S) → tree_ok m g → files_ok net scrypt (read_block_at fs) m →
  (∀ h n b, m !! h = Some n → read_block net scrypt (read_block_at fs) h n = Some b →
     stored fs (bi_nFile (nd_index n)) (bi_nBlockPos (nd_index n)) b) →
  db_at net scrypt Verify nMaxCacheSize random_entry now cpTime estimate fThreads (read_tx_at fs) (read_time_at fs) (read_block_at fs) m g h db →
  index_on_disk fs db.
Proof.
  intros Hr T F Hst Hdb. induction Hdb as [|h n p db db' H Ep Hdb IH (n' & b & pool & sup & cache & mint & sup' & cache' & H' & Hrd & Hc & HC)].
  { intros h e He. by rewrite lookup_empty in He. }
  simplify_eq. destruct (files_txs _ _ _ _ F _ _ _ H Hrd) as [Htx Hf]. rewrite (ancestors_unfold T _ _ H) in HC. cbn [index_chain map snd] in HC.
  apply ConnectBlock_inv in HC as (_ & _ & ins & m' & HC & -> & _); try done; [|by eapply db_at_wf].
  eapply connects_on_disk; [exact HC| |exact IH]. intros i tx q Hi Hq. eapply stored_tx; [by apply (Hst h n b)|exact Hi|exact Hq].
Qed.

(** Two blocks of the sample branch, written one after the other *)
Definition block_okb (b : CBlock) : bool :=
  (- 2 ^ 31 <=? blk_nVersion b) && (blk_nVersion b <? 2 ^ 31) && wfb W256 (hashPrevBlock b) && wfb W256 (hashMerkleRoot b) &&
  (0 <=? blk_nTime b) && (blk_nTime b <? 2 ^ 32) && (0 <=? blk_nBits b) && (blk_nBits b <? 2 ^ 32) && (0 <=? nNonce b) && (nNonce b <? 2 ^ 32) &&
  (Z.of_nat (length (vtx b)) <=? MAX_SIZE) && forallb tx_okb (vtx b) && (Z.of_nat (length (vchBlockSig b)) <=? MAX_SIZE).
Lemma block_okb_ok b : block_okb b = true → block_ok b.
Proof.
  unfold block_okb. intros H. split_andb. split; try lia; [by apply wfb_ok..|]. split; [lia|]. eapply Forall_forallb_impl; [apply tx_okb_ok|done].
Qed.

Definition disk_block (k : Z) : CBlock := branch_block k (branch_parent k).
Definition disk_write (fs : BlockFiles) (k : Z) : BlockFiles :=
  match WriteToDisk false fs (disk_block k) with Some (fs, _, _) => fs | None => fs end.
Definition disk_files1 : BlockFiles := disk_write (mkFiles ∅ 1) 1.
Definition disk_files : BlockFiles := disk_write disk_files1 2.
Definition disk_pos (k : Z) : Z := if k =? 1 then 8 else 16 + Z.of_nat (length (Serialize (disk_block 1))).
Definition disk_node (k height : Z) (next : option Z) : base_uint * Node :=
  let '(h, n) := branch_node k height (height + 1) next in
  (h, with_index n (mkIndex 1 (disk_pos k) height 0 (bu_of_u64 W256 (height + 1)) 6 (1400000000 + 60 * k) 0x1d00ffff)).
Definition disk_tree : BlockMap := list_to_map [disk_node 1 0 (Some 2); disk_node 2 1 None].
Definition disk_connect : option (block_result * gset sigdata) :=
  ConnectBlock (DG := prefix_digests) false nonce_hash sample_verify 1 first_entry 1400001000 0 0 ∅ false
    (disk (read_tx_at disk_files) (read_time_at disk_files) ∅) (index_chain (ancestors disk_tree (sample_hash 2))) 0 (disk_block 2) false ∅.
Definition disk_db : TxMap := match disk_connect with Some (BlockConnected _ _ db, _) => db | _ => ∅ end.
Lemma disk_connected : disk_connect = Some (BlockConnected 5000 5000 disk_db, ∅).
Proof. vm_compute. reflexivity. Qed.

Lemma disk_block1_ok : block_ok (disk_block 1).
Proof. apply block_okb_ok. vm_compute. reflexivity. Qed.
Lemma disk_block2_ok : block_ok (disk_block 2).
Proof. apply block_okb_ok. vm_compute. reflexivity. Qed.
Lemma disk_write2 : WriteToDisk false disk_files1 (disk_block 2) = Some (disk_files, 1, disk_pos 2).
Proof. vm_compute. reflexivity. Qed.
Lemma disk_stored : stored disk_files 1 (disk_pos 1) (disk_block 1) ∧ stored disk_files 1 (disk_pos 2) (disk_block 2).
Proof.
  destruct (WriteToDisk_stored false (mkFiles ∅ 1) (disk_block 1) disk_files1 1 (disk_pos 1) disk_block1_ok) as [_ H1]; [by vm_compute|vm_compute; reflexivity|].
  destruct (WriteToDisk_stored false disk_files1 (disk_block 2) disk_files 1 (disk_pos 2) disk_block2_ok) as [E H2]; [by vm_compute|exact disk_write2|].
  split; [by eapply stored_extends|done].
Qed.

Lemma block_file_roundtrip_witness : ∃ fs1 n p, WriteToDisk false disk_files1 (disk_block 2) = Some (fs1, n, p) ∧ read_block_at fs1 n p = Some (disk_block 2).
Proof.
  destruct (block_file_roundtrip false disk_files1 (disk_block 2) disk_block2_ok) as (fs1 & n & p & Hw & H); [by vm_compute..|].
  exists fs1, n, p. split; [exact Hw|]. exact (proj1 (H fs1 (reflexivity fs1))).
Defined.

Lemma disk_keys h n : disk_tree !! h = Some n → (h, n) = disk_node 1 0 (Some 2) ∨ (h, n) = disk_node 2 1 None.
Proof.
  unfold disk_tree. cbn [list_to_map foldr]. intros [[<- <-]|[_ [[<- <-]|[_ H]]%lookup_insert_Some]]%lookup_insert_Some; [by left; vm_compute|by right; vm_compute|].
  by rewrite lookup_empty in H.
Qed.

Lemma database_on_disk_witness : index_on_disk (DG := prefix_digests) disk_files disk_db.
Proof.
  apply (database_on_disk (DG := prefix_digests) false nonce_hash sample_verify 1 first_entry 1400001000 0 0 false disk_files disk_tree
    (sample_hash 1) (sample_hash 2) disk_db).
  - exact first_entry_in.
  - apply tree_okb_ok. vm_compute. reflexivity.
  - apply files_okb_ok. vm_compute. reflexivity.
  - intros h n b Hn Hr. destruct disk_stored as [S1 S2]. apply disk_keys in Hn as [[= -> ->]|[= -> ->]].
    + vm_compute in Hr. injection Hr as <-. exact S1.
    + vm_compute in Hr. injection Hr as <-. exact S2.
  - apply (db_next _ _ _ _ _ _ _ _ _ _ _ _ _ _ (sample_hash 2) (disk_node 2 1 None).2 (sample_hash 1) ∅); [vm_compute; reflexivity..|constructor|].
    exists (disk_node 2 1 None).2, (disk_block 2), ∅, 0, ∅, 5000, 5000, ∅. split; [vm_compute; reflexivity|].
    split; [vm_compute; reflexivity|]. split; [exact sample_cache_ok|exact disk_connected].
Defined.
