(* ===== verification/ChainOps.v ===== *)
(** * What the best chain promises to its users

    Checkpoints and the acceptance of blocks move the best chain through
    [SetBestChain] and [AddToBlockIndex].  [ChainOps] are these operations as the
    users call them, [ChainOpsOk] is what the users rely on: the tree only grows,
    [pnext] links only lead towards the best block, and a successful move makes the
    named block the best one.  The functions of [BestChain] are an instance. *)

From stdpp Require Import base list numbers option gmap.
From Stdlib Require Import ZArith Lia.
From S2P Require Import Prelude CheckQueue Uint256 Bignum Serialize Tx Script Interp SigCheck Chain Utxo ScriptStd Mempool Block ConnectBlock.
From S2P Require Import BlockIndex Kernel BestChain.

Open Scope Z_scope.

(** ** The invariant *)

(** [pnext] is set only below [b]. *)
Definition linked_below (m : BlockMap) (b : base_uint) : Prop := ∀ h c, next_of m h = Some c → h ∈ path m b ∧ h ≠ b.

(** The chain of the best block [best] in a tree that starts with [g] *)
Record main_chain (g : base_uint) (s : ChainState) (best : base_uint) : Prop := {
  mc_tree : tree_ok (mapBlockIndex s) g;
  mc_keys : keys_wf (mapBlockIndex s);
  mc_genesis : pindexGenesisBlock s ≠ None;
  mc_best : pindexBest s = Some best;
  mc_hash : hashBestChain s = best;
  mc_in : is_Some (mapBlockIndex s !! best);
  mc_links : linked_below (mapBlockIndex s) best
}.

(** ** Growing trees *)

(** Blocks are added, none is moved. *)
Definition grows (m m' : BlockMap) : Prop :=
  ∀ h n, m !! h = Some n → ∃ n', m' !! h = Some n' ∧ nd_index n' = nd_index n ∧ nd_pprev n' = nd_pprev n.
#[export] Instance grows_preorder : PreOrder grows.
Proof.
  split; [intros m h n H; eauto|]. intros m1 m2 m3 G1 G2 h n H. destruct (G1 h n H) as (n2 & H2 & E2 & P2).
  destruct (G2 h n2 H2) as (n3 & H3 & E3 & P3). exists n3. by rewrite E3, P3.
Qed.
Lemma grows_same m m' : same_index m m' → grows m m'.
Proof. intros E h n H. by eapply same_index_lookup. Qed.
Lemma grows_insert m h n : m !! h = None → grows m (<[h := n]> m).
Proof. intros Hh a na Ha. exists na. by rewrite lookup_insert_ne by congruence. Qed.

Lemma path_grow {m m' g} (T : tree_ok m g) (T' : tree_ok m' g) (G : grows m m') b nb : m !! b = Some nb → path m' b = path m b.
Proof.
  intros Hb. pattern b, nb. eapply (tree_ind T); [..|exact Hb]; clear b nb Hb.
  - intros b nb Hb Ep. destruct (G b nb Hb) as (nb' & Hb' & _ & Ep'). by rewrite (path_unfold T _ _ Hb), (path_unfold T' _ _ Hb'), Ep', Ep.
  - intros b nb p np Hb Ep Hp _ IH. destruct (G b nb Hb) as (nb' & Hb' & _ & Ep').
    by rewrite (path_unfold T _ _ Hb), (path_unfold T' _ _ Hb'), Ep', Ep, IH.
Qed.

(** ** The interface *)

Class ChainOps := {
  ReadBlock : base_uint → Node → option CBlock;
  SetBest : ChainState → CBlock → base_uint → option (bool * ChainState);
  AddBlock : ChainState → CBlock → Z → Z → option (bool * ChainState)
}.

Class ChainOpsOk (ops : ChainOps) (scrypt : list Z → base_uint) (g : base_uint) : Prop := {
  SetBest_law s best b h n ok s' : main_chain g s best → mapBlockIndex s !! h = Some n → nd_pprev n = Some (hashPrevBlock b) →
    blk_GetHash scrypt b = h → SetBest s b h = Some (ok, s') →
    same_index (mapBlockIndex s) (mapBlockIndex s') ∧ main_chain g s' (if ok then h else best) ∧ setStakeSeen s' = setStakeSeen s ∧
    mapProofOfStake s' = mapProofOfStake s;
  AddBlock_law s best b np nFile nBlockPos ok s' : main_chain g s best → mapBlockIndex s !! hashPrevBlock b = Some np →
    AddBlock s b nFile nBlockPos = Some (ok, s') →
    (∃ best', main_chain g s' best' ∧ (best' = best ∨ (ok = true ∧ best' = blk_GetHash scrypt b))) ∧
    grows (mapBlockIndex s) (mapBlockIndex s') ∧
    (∀ h n', mapBlockIndex s' !! h = Some n' → is_Some (mapBlockIndex s !! h) ∨
       (h = blk_GetHash scrypt b ∧ nd_pprev n' = Some (hashPrevBlock b) ∧ bi_nFile (nd_index n') = nFile ∧ bi_nBlockPos (nd_index n') = nBlockPos)) ∧
    (ok = true → is_Some (mapBlockIndex s' !! blk_GetHash scrypt b)) ∧ mapProofOfStake s' = mapProofOfStake s;
  ReadBlock_law h n b : wf W256 h → ReadBlock h n = Some b → blk_GetHash scrypt b = h
}.

(** ** Links towards the best block *)

Section links.
Context {m : BlockMap} {g : base_uint} (T : tree_ok m g).

Lemma linked_same m' b : same_skel m m' → (∀ h, next_of m' h = next_of m h) → linked_below m b → linked_below m' b.
Proof. intros E En L h c. rewrite En, (same_skel_path _ _ _ E). apply L. Qed.

Lemma path_parent h n c nc p : m !! h = Some n → c ∈ path m h → m !! c = Some nc → nd_pprev nc = Some p → p ∈ path m h ∧ p ≠ h.
Proof.
  intros H Hc Hnc Ep. destruct (tree_prev _ _ T _ _ _ Hnc Ep) as (np & Hp & Hh). assert (Hpc : p ∈ path m c).
  { rewrite (path_unfold T _ _ Hnc), Ep. right. by eapply (path_self T). }
  split; [by eapply (path_trans T)|]. intros ->. destruct (path_height_le T _ _ _ _ H Hc Hnc). simplify_eq. lia.
Qed.

Lemma linked_switch best nb new n f : m !! best = Some nb → m !! new = Some n → linked_below m best → last_common (m := m) best new f →
  linked_below (link_all (rev (until_fork f (ancestors m new))) (unlink_all (until_fork f (ancestors m best)) m)) new.
Proof.
  intros Hb H L (Hfb & Hfn & Hlast) h c. rewrite (same_skel_path m).
  2: { etransitivity; [apply unlink_all_skel|apply link_all_skel]. }
  destruct (decide (Exists (λ x, nd_pprev x.2 = Some h) (until_fork f (ancestors m new)))) as [HC|HC].
  { apply (branch_prev T f _ _ _ H Hfn) in HC as (d & nd & Hd & _ & Hnd & Ep). intros _. by eapply path_parent. }
  rewrite link_all_out by by rewrite Exists_rev. rewrite unlink_all_of. case_bool_decide as HD; [done|]. intros Hn. apply L in Hn as [Hh Hne].
  destruct (path_child T _ _ _ Hb Hh Hne) as (d & nd & Hd & Hnd & Ep).
  destruct (decide (d ∈ path m f)) as [Hdf|Hdf].
  2: { exfalso. apply HD. apply (branch_prev T f _ _ _ Hb Hfb). eauto 10. }
  destruct (elem_of_path T _ _ _ Hb Hfb) as (nf & Hnf & _). destruct (path_parent _ _ _ _ _ Hnf Hdf Hnd Ep) as [Hhf Hhf'].
  split; [by eapply (path_trans T)|]. intros ->. destruct (path_height_le T _ _ _ _ H Hfn Hnf) as [H1 H2].
  destruct (path_height_le T _ _ _ _ Hnf Hhf H) as [H3 _]. apply Hhf'. symmetry. apply H2. lia.
Qed.

Lemma linked_next best h n : linked_below m best → m !! h = Some n → nd_pprev n = Some best →
  linked_below (alter (λ n, with_pnext n (Some h)) best m) h.
Proof.
  intros L H Ep a c. assert (E : same_skel m (alter (λ n, with_pnext n (Some h)) best m)).
  { apply same_index_skel, alter_same_index. done. }
  rewrite (same_skel_path _ _ _ E), (path_unfold T _ _ H), Ep. destruct (tree_prev _ _ T _ _ _ H Ep) as (nb & Hb & Hh).
  destruct (decide (a = best)) as [->|Hne].
  - intros _. split; [right; by eapply (path_self T)|]. intros ->. simplify_eq. lia.
  - unfold next_of. rewrite lookup_alter_ne by done. intros Hn. destruct (L a c Hn) as [Ha _]. split; [by right|]. intros ->.
    destruct (path_height_le T _ _ _ _ Hb Ha H). lia.
Qed.
End links.

(** ** The functions of [BestChain] *)

(** What moving the best chain leaves alone *)
Definition kept (s s' : ChainState) : Prop :=
  same_index (mapBlockIndex s) (mapBlockIndex s') ∧ best_of s' = best_of s ∧
  pindexGenesisBlock s' = pindexGenesisBlock s ∧ setStakeSeen s' = setStakeSeen s ∧ mapProofOfStake s' = mapProofOfStake s.
#[export] Instance kept_preorder : PreOrder kept.
Proof.
  split; [by intros s|]. intros a b c (E1 & B1 & G1 & S1 & P1) (E2 & B2 & G2 & S2 & P2). split; [by etransitivity|].
  repeat split; congruence.
Qed.

Section instance.
Context {BN : OpenSSL_BN} {DG : Digests} (net : bool) (scrypt : list Z → base_uint) (Verify : list Z → base_uint → list Z → bool).
Context (nMaxCacheSize : Z) (random_entry : gset sigdata → sigdata) (now cpTime estimate : Z) (rate_limited fThreads : bool).
Context (tx_at : CDiskTxPos → option CTransaction) (block_time_at : Z → Z → option Z) (block_at : Z → Z → option CBlock) (g : base_uint).

#[local] Instance chain_ops : ChainOps := {
  ReadBlock := read_block net scrypt block_at;
  SetBest := SetBestChain net scrypt Verify nMaxCacheSize random_entry now cpTime estimate rate_limited fThreads tx_at block_time_at block_at g;
  AddBlock := AddToBlockIndex net scrypt Verify nMaxCacheSize random_entry now cpTime estimate rate_limited fThreads tx_at block_time_at block_at g
}.

Local Abbreviation Branch := (connect_branch net scrypt Verify nMaxCacheSize random_entry now cpTime estimate fThreads tx_at block_time_at block_at).
Local Abbreviation Reorg := (Reorganize net scrypt Verify nMaxCacheSize random_entry now cpTime estimate rate_limited fThreads tx_at block_time_at block_at).
Local Abbreviation Inner := (SetBestChainInner net scrypt Verify nMaxCacheSize random_entry now cpTime estimate fThreads tx_at block_time_at).
Local Abbreviation Further := (connect_further net scrypt Verify nMaxCacheSize random_entry now cpTime estimate fThreads tx_at block_time_at block_at).

Lemma connect_at_next pool h b m db cache m' db' cache' a :
  connect_at net scrypt Verify nMaxCacheSize random_entry now cpTime estimate fThreads tx_at block_time_at pool h b m db cache =
    Some (Some (m', db'), cache') → next_of m' a = next_of m a.
Proof.
  unfold connect_at. intros H. apply bind_Some in H as (n & Hn & H). apply bind_Some in H as ([[?|? ? ?] c] & _ & H); [done|].
  injection H as <- _ _. by apply alter_same_next.
Qed.
Lemma connect_branch_next pool l a : ∀ m db cache acc m' cache' r, Branch pool l m db cache acc = Some (m', cache', r) → next_of m' a = next_of m a.
Proof.
  induction l as [|[h n] l IH]; intros m db cache acc m' cache' r; cbn [connect_branch]; [by intros [= <- _ _]|].
  destruct (read_block _ _ _ _ _) as [b|]; [|by intros [= <- _ _]]. intros H. apply bind_Some in H as ([[[m1 db1]|] c1] & H1 & H).
  - rewrite (IH _ _ _ _ _ _ _ H). by eapply connect_at_next.
  - by injection H as <- _ _.
Qed.

Lemma Reorganize_main s best nb new n ok s' : tree_ok (mapBlockIndex s) g → pindexBest s = Some best → mapBlockIndex s !! best = Some nb →
  mapBlockIndex s !! new = Some n → linked_below (mapBlockIndex s) best → Reorg s new = Some (ok, s') →
  kept s s' ∧ linked_below (mapBlockIndex s') (if ok then new else best).
Proof.
  intros T Hbest Hb Hnew L H. assert (HF := H). apply Reorganize_frame in HF as [E B]. revert H. unfold Reorganize. rewrite Hbest. cbn [mbind option_bind].
  destruct (find_fork_ok T _ _ _ _ Hb Hnew) as (f & -> & Hf). destruct (disconnect_branch _ _ _ _ _ _) as [[db res]|]; [|by intros [= <- <-]].
  intros H. apply bind_Some in H as ([[m1 c1] r] & HB & H). assert (E1 := HB). apply connect_branch_frame in E1.
  assert (Hs := same_index_skel _ _ E1).
  assert (L1 : linked_below m1 best) by (eapply linked_same; [exact Hs|intros a; by eapply connect_branch_next|exact L]).
  destruct r as [[db1 del]|]; [|by injection H as <- <-].
  apply bind_Some in H as (s2 & H2 & [= <- <-]). apply resurrect_frame in H2 as [M ->]. split; [by repeat split|]. cbn.
  assert (T1 : tree_ok m1 g) by by eapply same_skel_tree.
  destruct (same_index_lookup _ _ _ _ E1 Hb) as (nb1 & Hb1 & _). destruct (same_index_lookup _ _ _ _ E1 Hnew) as (n1 & Hn1 & _).
  rewrite <- (unlink_all_ends _ _ m1 (ends_until f _ _ best Hs)).
  rewrite <- (link_all_ends (rev (until_fork f (ancestors m1 new))) (rev (until_fork f (ancestors (mapBlockIndex s) new)))).
  2: { rewrite !ends_rev. f_equal. by apply ends_until. }
  eapply (linked_switch T1); [exact Hb1|exact Hn1|exact L1|]. unfold last_common. by rewrite !(same_skel_path _ _ _ Hs).
Qed.

Lemma Inner_main s tip h n b ok s' : tree_ok (mapBlockIndex s) g → mapBlockIndex s !! h = Some n → nd_pprev n = Some tip →
  linked_below (mapBlockIndex s) tip → Inner s b h = Some (ok, s') → kept s s' ∧ linked_below (mapBlockIndex s') (if ok then h else tip).
Proof.
  intros T Hh Ep L H. assert (HF := H). apply Inner_frame in HF as [E B]. revert H. unfold SetBestChainInner. rewrite Hh. cbn [mbind option_bind].
  intros H. apply bind_Some in H as ([[[m1 db1]|] c1] & HC & H).
  - assert (E1 := HC). apply connect_at_frame in E1. rewrite Ep in H. cbn [mbind option_bind] in H. injection H as <- <-. split; [by repeat split|].
    cbn. destruct (same_index_lookup _ _ _ _ E1 Hh) as (n1 & Hn1 & _ & Ep1). eapply (linked_next (g := g)); [|  |exact Hn1|by rewrite Ep1].
    + by eapply same_skel_tree; [apply same_index_skel|].
    + eapply linked_same; [by apply same_index_skel|intros a; by eapply connect_at_next|exact L].
  - injection H as <- <-. unfold InvalidChainFound. by destruct (bu_gt _ _).
Qed.

Lemma Further_main m new nn k : tree_ok m g → m !! new = Some nn → ∀ c nc s s', length (until_fork c (ancestors m new)) = k → c ∈ path m new →
  m !! c = Some nc → same_index m (mapBlockIndex s) → linked_below (mapBlockIndex s) c →
  Further (rev (until_fork c (ancestors m new))) s = Some s' →
  kept s s' ∧ ∃ tip, tip ∈ path m new ∧ linked_below (mapBlockIndex s') tip.
Proof.
  intros T H. induction k as [|k IH]; intros c nc s s' Hlen Hc Hnc E L.
  - destruct (until_fork c (ancestors m new)) eqn:Eu; [|done]. cbn [rev connect_further]. intros [= <-]. by split; [|exists c].
  - destruct (decide (c = new)) as [->|Hne]; [by rewrite (until_self T _ _ H) in Hlen|].
    destruct (until_step T _ _ _ _ H Hc Hnc Hne) as (d & nd & Hnd & Hd & Ep & Es).
    assert (Hlen' : length (until_fork d (ancestors m new)) = k).
    { apply (f_equal length) in Es. cbn [length] in Es. rewrite !length_rev in Es. lia. }
    rewrite Es. cbn [connect_further]. destruct (read_block _ _ _ d nd) as [b|]; [|intros [= <-]; by split; [|exists c]].
    intros HF. apply bind_Some in HF as ([ok s1] & HI & HF). destruct (same_index_lookup _ _ _ _ E Hnd) as (nd1 & Hnd1 & _ & Ep1).
    eapply Inner_main in HI as [K1 L1]; [|by eapply same_skel_tree; [apply same_index_skel|]|exact Hnd1|by rewrite Ep1|exact L].
    destruct ok; [|injection HF as <-; by split; [|exists c]].
    eapply IH in HF as (K2 & Htip); [|exact Hlen'|exact Hd|exact Hnd|etransitivity; [exact E|apply K1]|exact L1].
    split; [by etransitivity|done].
Qed.

Context (Hscrypt : ∀ x, wf W256 (scrypt x)).

Lemma linked_up m tip new nn : tree_ok m g → m !! new = Some nn → tip ∈ path m new → linked_below m tip → linked_below m new.
Proof.
  intros T H Ht L h c Hn. destruct (L h c Hn) as [Hh Hne]. destruct (elem_of_path T _ _ _ H Ht) as (nt & Hnt & _).
  split; [by eapply (path_trans T)|]. intros ->. apply Hne. destruct (path_height_le T _ _ _ _ H Ht Hnt) as [? E].
  destruct (path_height_le T _ _ _ _ Hnt Hh H) as [? _]. symmetry. apply E. lia.
Qed.

Lemma SetBestChain_main s best b h n ok s' : main_chain g s best → mapBlockIndex s !! h = Some n → nd_pprev n = Some (hashPrevBlock b) →
  blk_GetHash scrypt b = h → SetBest s b h = Some (ok, s') →
  same_index (mapBlockIndex s) (mapBlockIndex s') ∧ main_chain g s' (if ok then h else best) ∧ setStakeSeen s' = setStakeSeen s ∧
  mapProofOfStake s' = mapProofOfStake s.
Proof.
  intros [T Hk Hg Hpb Hhb [nb Hb] L] H Ep Eh HS. assert (HF := HS). eapply SetBestChain_frame in HF as [E B]; [|exact H].
  assert (Hdone : ∃ s1, kept s s1 ∧ linked_below (mapBlockIndex s1) (if ok then h else best) ∧
    (s' = s1 ∧ ok = false ∨ ok = true ∧ ∃ n1, s' = new_best s1 h h n1)).
  { revert HS. cbn [SetBest chain_ops]. unfold SetBestChain. rewrite H, Eh. cbn [mbind option_bind].
    rewrite bool_decide_false by done. cbn [andb]. destruct (bu_eq (hashPrevBlock b) (hashBestChain s)) eqn:Eeq.
    - assert (hashPrevBlock b = best) as Hpbest.
      { rewrite Hhb in Eeq. destruct (tree_prev _ _ T _ _ _ H Ep) as (np & Hnp & _). apply bu_eq_wf in Eeq; [done|by eapply Hk..]. }
      rewrite Hpbest in Ep. intros HI. apply bind_Some in HI as ([ok1 s1] & HI & HR). eapply Inner_main in HI as [K1 L1]; [|done..].
      destruct ok1; cbn [negb] in HR.
      + apply bind_Some in HR as (n1 & Hn1 & [= <- <-]). exists s1. split; [done|]. split; [done|]. right. eauto.
      + injection HR as <- <-. exists s1. split; [done|]. split; [done|]. by left.
    - rewrite Hpb. cbn [mbind option_bind]. rewrite Hb. cbn [mbind option_bind].
      destruct (postpone_ok _ _ (nd_nChainTrust nb) _ _ T H) as (i & ni & -> & Hi & Hni & _). cbn [mbind option_bind].
      intros HI. apply bind_Some in HI as ([ok1 s2] & HI & HR). apply bind_Some in HI as ([okr s1] & HI & HJ).
      eapply Reorganize_main in HI as [K1 L1]; [|done..]. destruct okr; cbn [negb] in HJ.
      + apply bind_Some in HJ as (s3 & HF & [= <- <-]). cbn [negb] in HR. apply bind_Some in HR as (n1 & Hn1 & [= <- <-]).
        eapply Further_main in HF as (K2 & tip & Htip & L2); [|exact T|exact H|reflexivity|exact Hi|exact Hni|apply K1|exact L1].
        assert (K : kept s s3) by (etransitivity; done). exists s3. split; [done|]. split; [|right; eauto].
        assert (Hs : same_skel (mapBlockIndex s) (mapBlockIndex s3)) by (apply same_index_skel, K).
        destruct (same_skel_lookup _ _ _ _ Hs H) as (n3 & Hn3 & _).
        eapply linked_up; [by eapply same_skel_tree|exact Hn3|by rewrite (same_skel_path _ _ _ Hs)|exact L2].
      + injection HJ as <- <-. cbn [negb] in HR. injection HR as <- <-. exists (InvalidChainFound s1 n). unfold InvalidChainFound.
        destruct (bu_gt (nd_nChainTrust n) _); (split; [exact K1|]; split; [exact L1|]; by left). }
  destruct Hdone as (s1 & K & L1 & Hend). split; [done|].
  assert (Hfields : mapBlockIndex s' = mapBlockIndex s1 ∧ pindexGenesisBlock s' = pindexGenesisBlock s ∧ setStakeSeen s' = setStakeSeen s ∧
    mapProofOfStake s' = mapProofOfStake s). { destruct K as (_ & _ & ? & ? & ?). by destruct Hend as [[-> ->]|[-> [n1 ->]]]. }
  destruct Hfields as (Em & Eg & Es & Eps). split; [|done]. assert (Hs := same_index_skel _ _ E). rewrite <- Em in L1.
  assert (Hbest' : pindexBest s' = Some (if ok then h else best) ∧ hashBestChain s' = if ok then h else best).
  { unfold best_of in B. destruct ok; injection B as -> -> _ _; by rewrite ?Eh. }
  split; [by eapply same_skel_tree|by eapply same_index_keys|by rewrite Eg|apply Hbest'|apply Hbest'| |done].
  destruct ok; [destruct (same_skel_lookup _ _ _ _ Hs H) as (? & ? & _)|destruct (same_skel_lookup _ _ _ _ Hs Hb) as (? & ? & _)]; eauto.
Qed.

Lemma AddToBlockIndex_main s best b np nFile nBlockPos ok s' : main_chain g s best → mapBlockIndex s !! hashPrevBlock b = Some np →
  AddBlock s b nFile nBlockPos = Some (ok, s') →
  (∃ best', main_chain g s' best' ∧ (best' = best ∨ (ok = true ∧ best' = blk_GetHash scrypt b))) ∧
  grows (mapBlockIndex s) (mapBlockIndex s') ∧
  (∀ h n', mapBlockIndex s' !! h = Some n' → is_Some (mapBlockIndex s !! h) ∨
     (h = blk_GetHash scrypt b ∧ nd_pprev n' = Some (hashPrevBlock b) ∧ bi_nFile (nd_index n') = nFile ∧ bi_nBlockPos (nd_index n') = nBlockPos)) ∧
  (ok = true → is_Some (mapBlockIndex s' !! blk_GetHash scrypt b)) ∧ mapProofOfStake s' = mapProofOfStake s.
Proof.
  intros M Hp HA. eapply AddToBlockIndex_inv in HA as [[-> ->]|(n & s1 & Hnew & Hn & Em & Eb & (Eg & Ep & Ef & Eq) & HB)]; [| |exact Hp].
  { split; [exists best; split; [done|by left]|]. split; [done|]. split; [eauto|]. by split. }
  set (h := blk_GetHash scrypt b) in *. destruct Hn as (Epr & Hnx & Hh & _).
  assert (T1 : tree_ok (mapBlockIndex s1) g) by (rewrite Em; by eapply tree_insert; [apply M|..]).
  destruct M as [T Hk Hg Hpb Hhb [nb Hb] L]. assert (Hn1 : mapBlockIndex s1 !! h = Some n) by (rewrite Em; apply lookup_insert_eq).
  assert (M1 : main_chain g s1 best).
  { unfold best_of in Eb. injection Eb as E1 E2 _ _. split; [done| |congruence|congruence|congruence| |]; rewrite Em in *.
    - intros h' n' [[<- _]|[_ ?]]%lookup_insert_Some; [apply Hscrypt|by eapply Hk].
    - exists nb. rewrite lookup_insert_ne by congruence. done.
    - intros a c. unfold next_of. destruct (decide (a = h)) as [->|Hne]; [rewrite lookup_insert_eq; cbn; by rewrite Hnx|].
      rewrite lookup_insert_ne by done. intros Hc. rewrite (path_grow T T1 (grows_insert _ _ _ Hnew) _ _ Hb). by apply (L a c). }
  assert (Hend : same_index (mapBlockIndex s1) (mapBlockIndex s') ∧ (∃ best', main_chain g s' best' ∧ (best' = best ∨ (ok = true ∧ best' = h))) ∧
    mapProofOfStake s' = mapProofOfStake s1).
  { destruct (bu_gt _ _).
    - eapply SetBestChain_main in HB as (E & M' & _ & ?); [|exact M1|exact Hn1|exact Epr|done]. split; [done|]. split; [|done].
      eexists. split; [exact M'|]. destruct ok; [right|left]; done.
    - destruct HB as [-> ->]. split; [done|]. split; [|done]. exists best. split; [done|by left]. }
  destruct Hend as (E & Hbest & Eps). split; [done|]. split; [|split; [|split; [|congruence]]].
  - intros a na Ha. eapply same_index_lookup; [exact E|]. rewrite Em, lookup_insert_ne by congruence. done.
  - intros a na Ha. assert (E' : same_index (mapBlockIndex s') (mapBlockIndex s1)) by by symmetry.
    destruct (same_index_lookup _ _ _ _ E' Ha) as (x & Hx & Exi & Exp). rewrite Em in Hx.
    apply lookup_insert_Some in Hx as [[<- <-]|[_ Hx]]; [right|left; eauto]. by rewrite <- Exi, <- Exp.
  - intros _. destruct (same_index_lookup _ _ _ _ E Hn1) as (n' & Hn' & _). eauto.
Qed.

Lemma read_block_hash h n b : wf W256 h → read_block net scrypt block_at h n = Some b → blk_GetHash scrypt b = h.
Proof.
  intros Hw Hr. unfold read_block in Hr. apply bind_Some in Hr as (b' & _ & Hr). destruct (_ && _); [done|].
  unfold bu_ne in Hr. destruct (bu_eq _ _) eqn:E; [|done]. cbn in Hr. injection Hr as ->. apply bu_eq_wf in E; [done|apply Hscrypt|done].
Qed.

#[local] Instance chain_ops_ok : ChainOpsOk chain_ops scrypt g.
Proof. split; [exact SetBestChain_main|exact AddToBlockIndex_main|exact read_block_hash]. Qed.
End instance.
