(* ===== verification/Checkpoints.v ===== *)
(** * Checkpoints (src/checkpoints.cpp, src/checkpoints.h)

    The table of hashes compiled into the program, and the synchronised
    checkpoint: a block announced by a signed message, of which every new block
    must be a descendant.  The best chain is moved through the interface
    [ChainOps]. *)

From stdpp Require Import base list numbers option gmap.
From Stdlib Require Import ZArith Lia.
From S2P Require Import Prelude CheckQueue Uint256 Bignum Serialize Tx Script Interp SigCheck Chain Utxo ScriptStd Mempool Block ConnectBlock.
From S2P Require Import BlockIndex Kernel BestChain ChainOps Encoding.

Open Scope Z_scope.

(** ** The compiled-in table, by height *)

Definition hashGenesisBlock : base_uint := uint256_lit 0x00000a060336cbb72fe969666d337b87198b1add2abaa59cca226820b32933a4.
Definition hashGenesisBlockTestNet : base_uint := uint256_lit 0x000c763e402f2436da9ed36c7286f62c3f6e5dbafce9ff289bd43d7459327eb.

Definition mapCheckpoints : list (Z * (base_uint * Z)) := [
  (0, (hashGenesisBlock, 1360105017));
  (13560, (uint256_lit 0xa1591a0fcbf11f282d671581edb9f0aadcd06fee69761081e0a3245914c13729, 1364674052));
  (143990, (uint256_lit 0x00000000001ff5c3940a9f73ad4a990f64955179bde0f743c76dbf0031429efc, 1418953493));
  (149000, (uint256_lit 0x7a24acfcadcf43054e7f7d9f273522c0dfc5791ba4006e0273e7521a8d36c525, 1420872125));
  (160000, (uint256_lit 0x000000000001cb1133043d38d077c0e93f66c8b2566779f10f182137d1e34a68, 1425150237));
  (200000, (uint256_lit 0x0000000000029f8bbf66e6ea6f3e5db55009404aae0fe395a53dd33142b2bff2, 1441127233));
  (221047, (uint256_lit 0xa28aef712e7aa0c285bfe29351ca21ed416689139e3063ef770fc826a8b9e9da, 1449431646));
  (243100, (uint256_lit 0x000000000006522d1ebc0734cb0e6b83f5d4da0c3cbc72bd91b82016f611c4f0, 1458215793));
  (532000, (uint256_lit 0x0000000000018b7eba5e189c41605780c8a855f74144fa837fa05fa4c67b6ba9, 1569359486));
  (561108, (uint256_lit 0x2f3cf523ae1022300b4f40073e506d15ef0d6e208f123aed5b93016f81a10e1e, 1580943827));
  (712891, (uint256_lit 0xaaafebcb23c1b8ab49f7517b7a34bcc420cc6f284d9ffc672c1f47b5af2b0088, 1640557462))].
Definition mapCheckpointsTestnet : list (Z * (base_uint * Z)) := [(0, (hashGenesisBlockTestNet, 1360105017))].
Definition listBanned : list base_uint := [uint256_lit 0x46223e5432ceffe650d5729b4bb8479dcdf0ca1e534fa8e69382dc87b42ea94b].

Section Hardened.
Variable fTestNet : bool.
Definition checkpoints : list (Z * (base_uint * Z)) := if fTestNet then mapCheckpointsTestnet else mapCheckpoints.

Definition CheckHardened (nHeight : Z) (hash : base_uint) : bool :=
  match find (λ x, x.1 =? nHeight) checkpoints with
  | None => true
  | Some (_, (h, _)) => bu_eq hash h
  end.
Definition CheckBanned (nHash : base_uint) : bool := if fTestNet then true else negb (existsb (bu_eq nHash) listBanned).
Definition GetTotalBlocksEstimate : Z := match List.last checkpoints (0, ([], 0)) with (nHeight, _) => nHeight end.
Definition GetLastCheckpointTime : Z := match List.last checkpoints (0, ([], 0)) with (_, (_, t)) => t end.
Definition GetLastCheckpoint (m : BlockMap) : option base_uint :=
  snd <$> list_find (λ h, is_Some (m !! h)) (map (λ x, x.2.1) (rev checkpoints)).
End Hardened.

(** ** Orphan blocks: the first missing ancestor *)

(** [mapOrphanBlocks] *)
Abbreviation OrphanMap := (gmap base_uint CBlock).
(** The loop shared by [GetOrphanRoot] and [WantedByOrphan]; the orphans bound its
    turns unless their parents form a cycle *)
Fixpoint orphan_root (fuel : nat) (mapOrphanBlocks : OrphanMap) (pblock : CBlock) : option CBlock :=
  match mapOrphanBlocks !! hashPrevBlock pblock with
  | None => Some pblock
  | Some pprev => match fuel with O => None | S fuel => orphan_root fuel mapOrphanBlocks pprev end
  end.
Definition GetOrphanRoot (scrypt : list Z → base_uint) (mapOrphanBlocks : OrphanMap) (pblock : CBlock) : option base_uint :=
  blk_GetHash scrypt <$> orphan_root (size mapOrphanBlocks) mapOrphanBlocks pblock.
Definition WantedByOrphan (mapOrphanBlocks : OrphanMap) (pblockOrphan : CBlock) : option base_uint :=
  hashPrevBlock <$> orphan_root (size mapOrphanBlocks) mapOrphanBlocks pblockOrphan.

(** ** Synchronised checkpoints *)

Record CSyncCheckpoint := mkSyncCheckpoint {
  sc_nVersion : Z;
  hashCheckpoint : base_uint;
  vchMsg : list Z;
  vchSig : list Z
}.
Definition uint256_0 : base_uint := bu_of_u64 W256 0.
Definition CSyncCheckpoint_SetNull : CSyncCheckpoint := mkSyncCheckpoint 1 uint256_0 [] [].
Definition CSyncCheckpoint_IsNull (c : CSyncCheckpoint) : bool := bu_eq (hashCheckpoint c) uint256_0.

(** The variables of the namespace; [db_sync] is what the database holds *)
Record CheckpointState := mkCheckpointState {
  hashSyncCheckpoint : base_uint;
  hashPendingCheckpoint : base_uint;
  checkpointMessage : CSyncCheckpoint;
  checkpointMessagePending : CSyncCheckpoint;
  hashInvalidCheckpoint : base_uint;
  db_sync : base_uint
}.
Definition with_invalid_cp (c : CheckpointState) (h : base_uint) : CheckpointState :=
  mkCheckpointState (hashSyncCheckpoint c) (hashPendingCheckpoint c) (checkpointMessage c) (checkpointMessagePending c) h (db_sync c).
Definition with_pending (c : CheckpointState) (h : base_uint) (msg : CSyncCheckpoint) : CheckpointState :=
  mkCheckpointState (hashSyncCheckpoint c) h (checkpointMessage c) msg (hashInvalidCheckpoint c) (db_sync c).
Definition with_message (c : CheckpointState) (msg : CSyncCheckpoint) : CheckpointState :=
  mkCheckpointState (hashSyncCheckpoint c) (hashPendingCheckpoint c) msg (checkpointMessagePending c) (hashInvalidCheckpoint c) (db_sync c).

(** What a node sends to the peer it is talking to *)
Inductive NetMsg :=
  | MsgGetBlocks (tip : option base_uint) (hashEnd : base_uint)
  | MsgAskFor (hash : base_uint).

Definition GetLastSyncCheckpoint (m : BlockMap) (c : CheckpointState) : option base_uint :=
  if bool_decide (is_Some (m !! hashSyncCheckpoint c)) then Some (hashSyncCheckpoint c) else None.

(** Only descendants of the current checkpoint are allowed.  [lower] walks back
    to a height. *)
Definition ValidateSyncCheckpoint (m : BlockMap) (c : CheckpointState) (hash : base_uint) : bool * CheckpointState :=
  match m !! hashSyncCheckpoint c, m !! hash with
  | Some nSync, Some nRecv =>
      if nd_nHeight nRecv <=? nd_nHeight nSync then
        match lower (nd_nHeight nRecv) (ancestors m (hashSyncCheckpoint c)) with
        | [] => (false, c)
        | (h, _) :: _ => (false, if bu_ne h hash then with_invalid_cp c hash else c)
        end
      else
        match lower (nd_nHeight nSync) (ancestors m hash) with
        | [] => (false, c)
        | (h, _) :: _ => if bu_ne h (hashSyncCheckpoint c) then (false, with_invalid_cp c hash) else (true, c)
        end
  | _, _ => (false, c)
  end.

Definition WriteSyncCheckpoint (c : CheckpointState) (hash : base_uint) : CheckpointState :=
  mkCheckpointState hash (hashPendingCheckpoint c) (checkpointMessage c) (checkpointMessagePending c) (hashInvalidCheckpoint c) hash.

Definition CheckSync (fTestNet : bool) (m : BlockMap) (c : CheckpointState) (hashBlock hashPrev : base_uint) : option bool :=
  if fTestNet then Some true
  else
    prev ← m !! hashPrev;
    let nHeight := nd_nHeight prev + 1 in
    sync ← m !! hashSyncCheckpoint c;
    if nHeight >? nd_nHeight sync then
      match lower (nd_nHeight sync) (ancestors m hashPrev) with
      | [] => Some false
      | (h, n) :: _ => Some (negb ((nd_nHeight n <? nd_nHeight sync) || bu_ne h (hashSyncCheckpoint c)))
      end
    else if (nHeight =? nd_nHeight sync) && bu_ne hashBlock (hashSyncCheckpoint c) then Some false
    else if (nHeight <? nd_nHeight sync) && bool_decide (m !! hashBlock = None) then Some false
    else Some true.

Definition CHECKPOINT_MAX_SPAN : Z := nOneHour.
(** [AutoSelectSyncCheckpoint]: back from the best block to one old and deep enough *)
Fixpoint auto_select (tBest hBest : Z) (c : chain) : option base_uint :=
  match c with
  | [] => None
  | (h, n) :: prevs =>
      if bool_decide (is_Some (nd_pprev n)) && ((nd_GetBlockTime n + CHECKPOINT_MAX_SPAN >? tBest) || (nd_nHeight n + 8 >? hBest))
      then auto_select tBest hBest prevs
      else Some h
  end.
Definition AutoSelectSyncCheckpoint (s : ChainState) : option base_uint :=
  best ← pindexBest s; n ← mapBlockIndex s !! best;
  auto_select (nd_GetBlockTime n) (nd_nHeight n) (ancestors (mapBlockIndex s) best).

(** The loop of [WantedByOrphan] may not end: [None] *)
Definition WantedByPendingSyncCheckpoint (c : CheckpointState) (mapOrphanBlocks : OrphanMap) (hashBlock : base_uint) : option bool :=
  if bu_eq (hashPendingCheckpoint c) uint256_0 then Some false
  else if bu_eq hashBlock (hashPendingCheckpoint c) then Some true
  else match mapOrphanBlocks !! hashPendingCheckpoint c with
       | None => Some false
       | Some orphan => wanted ← WantedByOrphan mapOrphanBlocks orphan; Some (bu_eq hashBlock wanted)
       end.

Definition AskForPendingSyncCheckpoint (m : BlockMap) (mapOrphanBlocks : OrphanMap) (c : CheckpointState) (pfrom : bool) : list NetMsg :=
  if pfrom && bu_ne (hashPendingCheckpoint c) uint256_0 && bool_decide (m !! hashPendingCheckpoint c = None) &&
     bool_decide (mapOrphanBlocks !! hashPendingCheckpoint c = None)
  then [MsgAskFor (hashPendingCheckpoint c)] else [].

Definition IsMatureSyncCheckpoint (fTestNet : bool) (adjustedTime : Z) (s : ChainState) (c : CheckpointState) : option bool :=
  sync ← mapBlockIndex s !! hashSyncCheckpoint c;
  Some ((nBestHeight s >=? nd_nHeight sync + nCoinbaseMaturity fTestNet) || (nd_GetBlockTime sync + nStakeMinAge fTestNet <? adjustedTime)).

Section Sync.
Context {DG : Digests} {ops : ChainOps}.
Variable fTestNet : bool.
Variable Verify : list Z → base_uint → list Z → bool.
(** [key.SetPrivKey(vchPrivKey); key.Sign(hash, vchSig)] *)
Variable Sign : list Z → base_uint → option (list Z).

(** Making the block of a checkpoint the best one unless it is on the main chain:
    the outer [None] is a failure of the program, [inl] of reading or of
    [SetBestChain] *)
Inductive move_result :=
  | MoveUnread
  | MoveFailed (s : ChainState)
  | Moved (s : ChainState).
Definition move_to (s : ChainState) (hash : base_uint) : option move_result :=
  let m := mapBlockIndex s in
  if IsInMainChain m (pindexBest s) hash then Some (Moved s)
  else
    n ← m !! hash;
    match ReadBlock hash n with
    | None => Some MoveUnread
    | Some block => '(ok, s) ← SetBest s block hash; Some (if ok : bool then Moved s else MoveFailed s)
    end.

Definition AcceptPendingSyncCheckpoint (s : ChainState) (c : CheckpointState) : option (bool * ChainState * CheckpointState) :=
  let hash := hashPendingCheckpoint c in
  if bu_ne hash uint256_0 && bool_decide (is_Some (mapBlockIndex s !! hash)) then
    let '(ok, c) := ValidateSyncCheckpoint (mapBlockIndex s) c hash in
    if negb ok then Some (false, s, with_pending c uint256_0 CSyncCheckpoint_SetNull)
    else
      r ← move_to s hash;
      match r with
      | MoveUnread => Some (false, s, c)
      | MoveFailed s => Some (false, s, with_invalid_cp c hash)
      | Moved s =>
          let c := WriteSyncCheckpoint c hash in
          let c := with_message c (checkpointMessagePending c) in
          Some (true, s, with_pending c uint256_0 CSyncCheckpoint_SetNull)
      end
  else Some (false, s, c).

(** The last checkpoint of the table that is on the main chain *)
Fixpoint reset_loop (m : BlockMap) (pindexBest : option base_uint) (hashes : list base_uint) : option base_uint :=
  match hashes with
  | [] => None
  | hash :: hashes =>
      if bool_decide (is_Some (m !! hash)) && IsInMainChain m pindexBest hash then Some hash else reset_loop m pindexBest hashes
  end.
Definition ResetSyncCheckpoint (s : ChainState) (c : CheckpointState) : option (bool * ChainState * CheckpointState) :=
  let hashes := map (λ x, x.2.1) (rev mapCheckpoints) in
  let hash := List.hd uint256_0 hashes in
  r ← (if bool_decide (is_Some (mapBlockIndex s !! hash)) then r ← move_to s hash; Some (r, c)
       else Some (Moved s, with_pending c hash CSyncCheckpoint_SetNull));
  match r with
  | (MoveUnread, c) => Some (false, s, c)
  | (MoveFailed s, c) => Some (false, s, c)
  | (Moved s, c) =>
      match reset_loop (mapBlockIndex s) (pindexBest s) hashes with
      | None => Some (false, s, c)
      | Some hash => Some (true, s, WriteSyncCheckpoint c hash)
      end
  end.

(** *** Messages *)

(** [ParseHex(strMasterPubKey)] *)
Definition masterPubKey : list Z := rev (to_digits 256 65
  0x04a51b735f816de4ec3f891d5b38bbc91e1f7245c7c08d17990760b86b4d8fc3910a850ffecf73bfa8886f01739a0c4c4322201282d07b6e48ce931cc92af94850).

Definition ser_unsigned (c : CSyncCheckpoint) : list Z := write_int 4 (sc_nVersion c) ++ bu_Serialize (hashCheckpoint c).
Definition unser_unsigned (s : list Z) : option (Z * base_uint) :=
  '(v, s) ← read_int32 s; '(h, _) ← bu_Unserialize W256 s; Some (v, h).

(** [CheckSignature] verifies the message and then takes the fields from it; a
    message too short for them throws *)
Definition CheckSignature (msg : CSyncCheckpoint) : option (bool * CSyncCheckpoint) :=
  if negb (Verify (CPubKey_Set masterPubKey) (Hash (vchMsg msg)) (vchSig msg)) then Some (false, msg)
  else '(v, h) ← unser_unsigned (vchMsg msg); Some (true, mkSyncCheckpoint v h (vchMsg msg) (vchSig msg)).

Definition ProcessSyncCheckpoint (s : ChainState) (c : CheckpointState) (mapOrphanBlocks : OrphanMap) (msg : CSyncCheckpoint) (pfrom : bool)
    : option (bool * ChainState * CheckpointState * list NetMsg) :=
  '(ok, msg) ← CheckSignature msg;
  if negb (ok : bool) then Some (false, s, c, [])
  else
    let hash := hashCheckpoint msg in
    if bool_decide (mapBlockIndex s !! hash = None) then
      let c := with_pending c hash msg in
      if pfrom then
        ask ← match mapOrphanBlocks !! hash with Some orphan => WantedByOrphan mapOrphanBlocks orphan | None => Some hash end;
        Some (false, s, c, [MsgGetBlocks (pindexBest s) hash; MsgAskFor ask])
      else Some (false, s, c, [])
    else
      let '(ok, c) := ValidateSyncCheckpoint (mapBlockIndex s) c hash in
      if negb ok then Some (false, s, c, [])
      else
        r ← move_to s hash;
        match r with
        | MoveUnread => Some (false, s, c, [])
        | MoveFailed s => Some (false, s, with_invalid_cp c hash, [])
        | Moved s =>
            let c := with_message (WriteSyncCheckpoint c hash) msg in
            Some (true, s, with_pending c uint256_0 CSyncCheckpoint_SetNull, [])
        end.

(** [SendSyncCheckpoint] with the master key, before the relay to the peers *)
Definition SendSyncCheckpoint (masterPrivKey : list Z) (s : ChainState) (c : CheckpointState) (mapOrphanBlocks : OrphanMap) (hash : base_uint)
    : option (bool * ChainState * CheckpointState) :=
  let msg := mkSyncCheckpoint 1 hash (ser_unsigned (mkSyncCheckpoint 1 hash [] [])) [] in
  if bool_decide (masterPrivKey = []) then Some (false, s, c)
  else
    match Sign masterPrivKey (Hash (vchMsg msg)) with
    | None => Some (false, s, c)
    | Some sig =>
        '(ok, s, c, _) ← ProcessSyncCheckpoint s c mapOrphanBlocks (mkSyncCheckpoint 1 hash (vchMsg msg) sig) false;
        Some (ok : bool, s, c)
    end.
End Sync.

(** ** Descendants of the checkpoint *)

Lemma uint256_0_wf : wf W256 uint256_0.
Proof. apply bu_of_u64_ok; lia. Qed.
Lemma bu_ne_wf a b : wf W256 a → wf W256 b → bu_ne a b = negb (bool_decide (a = b)).
Proof.
  intros Ha Hb. unfold bu_ne. f_equal. destruct (bu_eq a b) eqn:E.
  - apply bu_eq_wf in E; [|done..]. by rewrite bool_decide_true.
  - rewrite bool_decide_false; [done|]. intros ->. rewrite (bu_eq_ok W256), Z.eqb_refl in E by done. done.
Qed.

Section descent.
Context {m : BlockMap} {g : base_uint} (T : tree_ok m g) (K : keys_wf m).

(** Walking back to the height of [c] ends at [c] exactly below its descendants. *)
Lemma lower_at h n c nc : m !! h = Some n → m !! c = Some nc → nd_nHeight nc <= nd_nHeight n →
  ∃ x nx rest, lower (nd_nHeight nc) (ancestors m h) = (x, nx) :: rest ∧ m !! x = Some nx ∧ nd_nHeight nx = nd_nHeight nc ∧
    (bu_ne x c = false ↔ c ∈ path m h).
Proof.
  intros H Hc Hle. pose proof (tree_height _ _ T _ _ Hc). destruct (lower_ancestors T h n (nd_nHeight nc) H) as (x & nx & E & Hx & Hin & Hh); [lia|].
  rewrite (ancestors_unfold T _ _ Hx) in E. exists x, nx. eexists. split; [exact E|]. split; [done|]. split; [lia|].
  rewrite bu_ne_wf by by eapply K. rewrite negb_false_iff, bool_decide_eq_true. split; [by intros ->|].
  intros Hcp. eapply (path_height_inj T _ _ _ _ _ _ H Hin Hcp Hx Hc). lia.
Qed.

Lemma CheckSync_iff cp hashBlock hashPrev np : wf W256 hashBlock → m !! hashPrev = Some np → is_Some (m !! hashSyncCheckpoint cp) →
  m !! hashBlock = None →
  CheckSync false m cp hashBlock hashPrev = Some (bool_decide (hashSyncCheckpoint cp ∈ path m hashPrev)).
Proof.
  intros Hw Hp [nc Hc] Hnew. unfold CheckSync. rewrite Hp, Hc. cbn [mbind option_bind]. set (c := hashSyncCheckpoint cp) in *.
  assert (Hout : nd_nHeight np < nd_nHeight nc → c ∉ path m hashPrev).
  { intros Hlt Hin. destruct (path_height_le T _ _ _ _ Hp Hin Hc). lia. }
  destruct (Z.gtb_spec (nd_nHeight np + 1) (nd_nHeight nc)) as [Hgt|Hle].
  - destruct (lower_at _ _ _ _ Hp Hc) as (x & nx & rest & -> & Hx & Hh & Hiff); [lia|].
    rewrite (proj2 (Z.ltb_ge (nd_nHeight nx) (nd_nHeight nc))) by lia. cbn [orb]. f_equal. destruct (bu_ne x c) eqn:E.
    + rewrite bool_decide_false; [done|]. intros Hin. apply Hiff in Hin. done.
    + by rewrite bool_decide_true by by apply Hiff.
  - rewrite (bool_decide_false (c ∈ _)) by (apply Hout; lia). rewrite (bu_ne_wf hashBlock c Hw (K _ _ Hc)).
    rewrite (bool_decide_false (hashBlock = c)) by (intros ->; congruence). rewrite (bool_decide_true (_ = None)) by done.
    destruct (Z.eqb_spec (nd_nHeight np + 1) (nd_nHeight nc)); [done|]. by rewrite (proj2 (Z.ltb_lt (nd_nHeight np + 1) (nd_nHeight nc))) by lia.
Qed.

Lemma Validate_iff cp h nc n : m !! hashSyncCheckpoint cp = Some nc → m !! h = Some n →
  let c := hashSyncCheckpoint cp in
  ValidateSyncCheckpoint m cp h =
    (bool_decide (c ∈ path m h ∧ c ≠ h), if bool_decide (c ∈ path m h ∨ h ∈ path m c) then cp else with_invalid_cp cp h).
Proof.
  intros Hc H c. unfold ValidateSyncCheckpoint. rewrite Hc, H. fold c in Hc |- *. destruct (Z.leb_spec (nd_nHeight n) (nd_nHeight nc)) as [Hle|Hgt].
  - destruct (lower_at _ _ _ _ Hc H Hle) as (x & nx & rest & -> & Hx & Hh & Hiff).
    assert (Hno : c ∈ path m h → c = h). { intros Hin. destruct (path_height_le T _ _ _ _ H Hin Hc) as [? E]. apply E. lia. }
    rewrite (bool_decide_false (_ ∧ _)) by (intros [? ?]; auto). f_equal. destruct (bu_ne x h) eqn:E.
    + rewrite bool_decide_false; [done|]. intros Hor. assert (Hin : h ∈ path m c).
      { destruct Hor as [Hin|Hin]; [|done]. rewrite <- (Hno Hin). by eapply (path_self T). }
      apply Hiff in Hin. congruence.
    + rewrite bool_decide_true; [done|]. right. by apply Hiff.
  - destruct (lower_at _ _ _ _ H Hc) as (x & nx & rest & -> & Hx & Hh & Hiff); [lia|]. assert (Hne : c ≠ h) by (intros ->; simplify_eq; lia).
    assert (Hno : h ∉ path m c). { intros Hin. destruct (path_height_le T _ _ _ _ Hc Hin H). lia. }
    destruct (bu_ne x c) eqn:E.
    + assert (Hnc : c ∉ path m h) by (intros Hin; by apply Hiff in Hin). rewrite !bool_decide_false; [done|tauto|tauto].
    + assert (Hin : c ∈ path m h) by by apply Hiff. rewrite !bool_decide_true by tauto. done.
Qed.
End descent.

(** ** The checkpoint stays on the best chain *)

Section advance.
Context {DG : Digests} {ops : ChainOps} {scrypt : list Z → base_uint} {g : base_uint} {OK : ChainOpsOk ops scrypt g}.

(** The headers in the block files name the parents the tree has. *)
Definition headers_ok (m : BlockMap) : Prop :=
  ∀ h n b, m !! h = Some n → is_Some (nd_pprev n) → ReadBlock h n = Some b → nd_pprev n = Some (hashPrevBlock b).

(** The synchronised checkpoint is on the chain of the best block. *)
Definition sync_ok (s : ChainState) (c : CheckpointState) : Prop :=
  ∃ best, main_chain g s best ∧ hashSyncCheckpoint c ∈ path (mapBlockIndex s) best.

(** From [c] the checkpoint moved to a descendant, or stayed; nothing but the best
    chain changed in the tree. *)
Definition sync_moved (s : ChainState) (c : CheckpointState) (s' : ChainState) (c' : CheckpointState) : Prop :=
  same_index (mapBlockIndex s) (mapBlockIndex s') ∧ sync_ok s' c' ∧ hashSyncCheckpoint c ∈ path (mapBlockIndex s') (hashSyncCheckpoint c').

Lemma sync_in s c : sync_ok s c → ∃ nc, mapBlockIndex s !! hashSyncCheckpoint c = Some nc.
Proof. intros (best & [T _ _ _ _ [nb Hb] _] & Hin). destruct (elem_of_path T _ _ _ Hb Hin) as (nc & ? & _). eauto. Qed.
Lemma sync_tree s c : sync_ok s c → tree_ok (mapBlockIndex s) g ∧ keys_wf (mapBlockIndex s).
Proof. intros (best & [T K _ _ _ _ _] & _). done. Qed.
Lemma sync_stay s c c' : sync_ok s c → hashSyncCheckpoint c' = hashSyncCheckpoint c → sync_moved s c s c'.
Proof.
  intros H E. split; [done|]. unfold sync_ok. rewrite E. split; [done|]. destruct (sync_in _ _ H) as [nc Hc].
  destruct (sync_tree _ _ H) as [T _]. by eapply (path_self T).
Qed.

Lemma move_to_ok s best h n r : main_chain g s best → headers_ok (mapBlockIndex s) → mapBlockIndex s !! h = Some n → is_Some (nd_pprev n) →
  move_to s h = Some r →
  match r with
  | MoveUnread => True
  | MoveFailed s' => same_index (mapBlockIndex s) (mapBlockIndex s') ∧ main_chain g s' best
  | Moved s' => same_index (mapBlockIndex s) (mapBlockIndex s') ∧ ∃ best', main_chain g s' best' ∧ h ∈ path (mapBlockIndex s') best'
  end.
Proof.
  intros M Hh H Hp. assert (M' := M). destruct M' as [T K _ Hpb _ [nb Hb] L]. unfold move_to. destruct (IsInMainChain _ _ _) eqn:Em.
  - intros [= <-]. split; [done|]. exists best. split; [done|]. unfold IsInMainChain in Em.
    apply orb_true_iff in Em as [Em%bool_decide_eq_true|Em%bool_decide_eq_true].
    + destruct Em as [c Hc]. by apply (L h c).
    + rewrite Hpb in Em. injection Em as ->. by eapply (path_self T).
  - rewrite H. cbn [mbind option_bind]. destruct (ReadBlock h n) as [b|] eqn:Hr; [|by intros [= <-]].
    intros HS. apply bind_Some in HS as ([ok s1] & HS & [= <-]).
    eapply SetBest_law in HS as (E & M1 & _); [|exact M|exact H|by eapply Hh|by eapply ReadBlock_law; [eapply K|]].
    destruct ok; [|done]. split; [done|]. exists h. split; [done|]. destruct M1 as [T1 _ _ _ _ [n1 H1] _]. by eapply (path_self T1).
Qed.

(** A descendant of the checkpoint, validated and moved to *)
Lemma checkpoint_advance s c h n r : sync_ok s c → headers_ok (mapBlockIndex s) → mapBlockIndex s !! h = Some n →
  (ValidateSyncCheckpoint (mapBlockIndex s) c h).1 = true → move_to s h = Some r →
  match r with
  | MoveUnread => True
  | MoveFailed s' => sync_moved s c s' c
  | Moved s' => ∀ c', hashSyncCheckpoint c' = h → sync_moved s c s' c'
  end.
Proof.
  intros Hs Hh H Hv HM. assert (Hs' := Hs). destruct Hs' as (best & M & Hin). destruct (sync_in _ _ Hs) as [nc Hc]. destruct (sync_tree _ _ Hs) as [T K].
  rewrite (Validate_iff T K _ _ _ _ Hc H) in Hv. cbn in Hv. apply bool_decide_eq_true in Hv as [Hd Hne].
  assert (Hp : is_Some (nd_pprev n)).
  { destruct (nd_pprev n) as [p|] eqn:Ep; [eauto|]. exfalso. rewrite (path_unfold T _ _ H), Ep in Hd. apply list_elem_of_singleton in Hd. done. }
  apply (move_to_ok _ _ _ _ _ M Hh H Hp) in HM. destruct r as [|s'|s']; [done| |].
  - destruct HM as [E M']. destruct (same_index_lookup _ _ _ _ E Hc) as (nc' & Hc' & _). split; [done|].
    assert (Es := same_index_skel _ _ E). split; [exists best; split; [done|by rewrite (same_skel_path _ _ _ Es)]|].
    destruct M' as [T' _ _ _ _ _ _]. by eapply (path_self T').
  - destruct HM as (E & best' & M' & Hin'). intros c' Ec. split; [done|]. assert (Es := same_index_skel _ _ E). rewrite Ec. split; [|by rewrite (same_skel_path _ _ _ Es)].
    exists best'. by rewrite Ec.
Qed.

Lemma AcceptPending_ok s c ok s' c' : sync_ok s c → headers_ok (mapBlockIndex s) → AcceptPendingSyncCheckpoint s c = Some (ok, s', c') →
  sync_moved s c s' c'.
Proof.
  intros Hs Hh. unfold AcceptPendingSyncCheckpoint. destruct (bu_ne _ _ && _) eqn:Ec; [|intros [= <- <- <-]; by apply sync_stay].
  apply andb_true_iff in Ec as [_ [n H]%bool_decide_eq_true]. destruct (ValidateSyncCheckpoint _ _ _) as [v c1] eqn:Ev.
  destruct (sync_in _ _ Hs) as [nc Hc]. destruct (sync_tree _ _ Hs) as [T K].
  assert (E1 : hashSyncCheckpoint c1 = hashSyncCheckpoint c).
  { rewrite (Validate_iff T K _ _ _ _ Hc H) in Ev. injection Ev as _ <-. by destruct (bool_decide _). }
  destruct v; [|intros [= <- <- <-]; by apply sync_stay]. cbn [negb]. intros HM. apply bind_Some in HM as (r & HM & HR).
  eapply checkpoint_advance in HM; [|exact Hs|done|exact H|by rewrite Ev]. destruct r as [|s1|s1]; injection HR as <- <- <-.
  - by apply sync_stay.
  - destruct HM as (E & Ho & Hp). split; [done|]. unfold sync_ok. cbn. by rewrite E1.
  - by apply HM.
Qed.

Lemma ProcessSync_ok Verify s c orphans msg pfrom ok s' c' out : sync_ok s c → headers_ok (mapBlockIndex s) →
  ProcessSyncCheckpoint Verify s c orphans msg pfrom = Some (ok, s', c', out) →
  sync_moved s c s' c' ∧
  (ok = true → ∃ v h, Verify (CPubKey_Set masterPubKey) (Hash (vchMsg msg)) (vchSig msg) = true ∧
     unser_unsigned (vchMsg msg) = Some (v, h) ∧ hashSyncCheckpoint c' = h).
Proof.
  intros Hs Hh. unfold ProcessSyncCheckpoint, CheckSignature. destruct (Verify _ _ _) eqn:Ever; cbn [negb].
  2: { intros [= <- <- <- <-]. by split; [apply sync_stay|]. }
  intros HP. apply bind_Some in HP as ([okm msg'] & Hm & HP). apply bind_Some in Hm as ([v h] & Hu & [= <- <-]). cbn [negb hashCheckpoint] in HP.
  destruct (mapBlockIndex s !! h) as [n|] eqn:H.
  - rewrite bool_decide_false in HP by done. destruct (ValidateSyncCheckpoint _ _ _) as [vv c1] eqn:Ev.
    destruct (sync_in _ _ Hs) as [nc Hc]. destruct (sync_tree _ _ Hs) as [T K].
    assert (E1 : hashSyncCheckpoint c1 = hashSyncCheckpoint c).
    { rewrite (Validate_iff T K _ _ _ _ Hc H) in Ev. injection Ev as _ <-. by destruct (bool_decide _). }
    destruct vv; [|injection HP as <- <- <- <-; by split; [apply sync_stay|]]. cbn [negb] in HP. apply bind_Some in HP as (r & HM & HR).
    eapply checkpoint_advance in HM; [|exact Hs|done|exact H|by rewrite Ev]. destruct r as [|s1|s1]; injection HR as <- <- <- <-.
    + by split; [apply sync_stay|].
    + destruct HM as (E & Ho & Hp). split; [|done]. split; [done|]. unfold sync_ok. cbn. by rewrite E1.
    + split; [by apply HM|]. intros _. exists v, h. done.
  - rewrite bool_decide_true in HP by done. split.
    + destruct pfrom; [|injection HP as <- <- <- <-; by apply sync_stay]. apply bind_Some in HP as (ask & _ & [= <- <- <- <-]). by apply sync_stay.
    + destruct pfrom; [apply bind_Some in HP as (ask & _ & [= <- <- <- <-])|injection HP as <- <- <- <-]; done.
Qed.
End advance.
