(* ===== verification/ProcessBlock.v ===== *)
(** * Accepting blocks (src/main.cpp)

    [AcceptBlock] checks a block against its parent and the checkpoints, writes it
    to the block files and enters it into the tree; [ProcessBlock] does the checks
    that need no parent, keeps blocks without one as orphans, and accepts the
    orphans that were waiting for the block.  Theorems: the orphan maps stay
    consistent and no orphan is left behind by an accepted parent; the synchronised
    checkpoint never leaves the best chain. *)

From stdpp Require Import base list numbers option gmap.
From Stdlib Require Import ZArith Lia.
From S2P Require Import Prelude CheckQueue Uint256 Bignum Serialize Tx Script Interp SigCheck Chain Utxo ScriptStd Mempool Block ConnectBlock.
From S2P Require Import BlockIndex Kernel BestChain BlockFiles ChainOps Checkpoints.

Open Scope Z_scope.

(** ** State *)

(** [mapOrphanBlocksByPrev] is a multimap: for a parent, its orphans in the order
    they came *)
Record NodeState := mkNodeState {
  ns_chain : ChainState;
  ns_files : BlockFiles;
  ns_cp : CheckpointState;
  mapOrphanBlocks : OrphanMap;
  mapOrphanBlocksByPrev : gmap base_uint (list CBlock);
  setStakeSeenOrphan : gset (COutPoint * Z)
}.
Definition with_chain (s : NodeState) (c : ChainState) : NodeState :=
  mkNodeState c (ns_files s) (ns_cp s) (mapOrphanBlocks s) (mapOrphanBlocksByPrev s) (setStakeSeenOrphan s).
Definition with_cp (s : NodeState) (c : CheckpointState) : NodeState :=
  mkNodeState (ns_chain s) (ns_files s) c (mapOrphanBlocks s) (mapOrphanBlocksByPrev s) (setStakeSeenOrphan s).
Definition with_files (s : NodeState) (fs : BlockFiles) : NodeState :=
  mkNodeState (ns_chain s) fs (ns_cp s) (mapOrphanBlocks s) (mapOrphanBlocksByPrev s) (setStakeSeenOrphan s).
Definition with_orphans (s : NodeState) (om : OrphanMap) (by_prev : gmap base_uint (list CBlock)) (seen : gset (COutPoint * Z)) : NodeState :=
  mkNodeState (ns_chain s) (ns_files s) (ns_cp s) om by_prev seen.
Definition ns_map (s : NodeState) : BlockMap := mapBlockIndex (ns_chain s).

Inductive CPMode := STRICT | ADVISORY | PERMISSIVE.
#[export] Instance CPMode_eq_dec : EqDecision CPMode.
Proof. solve_decision. Defined.

Section ProcessBlock.
Context {BN : OpenSSL_BN} {DG : Digests} (ops : BlockFiles → ChainOps).
Variable fTestNet : bool.
Variable scrypt_blockhash : list Z → base_uint.
Variable Verify : list Z → base_uint → list Z → bool.
Variable nMaxCacheSize : Z.
Variable random_entry : gset sigdata → sigdata.
Variable adjustedTime : Z.
Variable CheckpointsMode : CPMode.
(** [CheckDiskSpace] and [IsInitialBlockDownload()] *)
Variable fDiskSpace fInitialDownload : bool.
(** [d2i_ECDSA_SIG] and [i2d_ECDSA_SIG] on the bytes of a signature *)
Variable reserialize : list Z → option (list Z).

Abbreviation GetHash_blk := (blk_GetHash scrypt_blockhash).

(** ** [AcceptBlock] *)

Definition nOneWeek : Z := 7 * nOneDay.

(** The checks of [AcceptBlock] against the parent: a refusal with its score, or
    [Some None] for none; [None] is a failed assertion or access *)
Definition contextual_checks (s : NodeState) (b : CBlock) : option (option Z) :=
  let m := ns_map s in
  let hash := GetHash_blk b in
  if bool_decide (is_Some (m !! hash)) then Some (Some 0)
  else
    match m !! hashPrevBlock b with
    | None => Some (Some 10)
    | Some nPrev =>
        let prevs := index_chain (ancestors m (hashPrevBlock b)) in
        let nHeight := nd_nHeight nPrev + 1 in
        required ← GetNextTargetRequired fTestNet prevs (blk_IsProofOfStake b);
        if negb (blk_nBits b =? required) then Some (Some 100)
        else
          let nMedianTimePast := GetMedianTimePast prevs in
          let nMaxOffset := if fTestNet || (bi_nTime (nd_index nPrev) <? 1450569600) then 7 * nOneWeek else 12 * nOneHour in
          if (blk_GetBlockTime b <=? nMedianTimePast) || (FutureDrift (blk_GetBlockTime b) <? nd_GetBlockTime nPrev) then Some (Some 0)
          else if (nd_nHeight nPrev >? 1) && (nMedianTimePast + nMaxOffset <? blk_GetBlockTime b) then Some (Some 0)
          else if negb (forallb (λ tx, IsFinal (nBestHeight (ns_chain s)) adjustedTime tx nHeight (blk_GetBlockTime b)) (vtx b)) then Some (Some 10)
          else if negb (CheckHardened fTestNet nHeight hash) then Some (Some 100)
          else
            cpSatisfies ← CheckSync fTestNet m (ns_cp s) hash (hashPrevBlock b);
            if bool_decide (CheckpointsMode = STRICT) && negb cpSatisfies then Some (Some 0)
            else
              tx0 ← head (vtx b); in0 ← head (vin tx0);
              let expect := push_int64 [] nHeight in
              if (length (scriptSig in0) <? length expect)%nat || negb (bool_decide (take (length expect) (scriptSig in0) = expect))
              then Some (Some 100)
              else Some None
    end.

(** The verdict, the score added to [nDoS], and the state; the announcement to the
    peers is left out *)
Definition AcceptBlock (s : NodeState) (b : CBlock) : option (bool * Z * NodeState) :=
  refused ← contextual_checks s b;
  match refused with
  | Some nDoS => Some (false, nDoS, s)
  | None =>
      if negb fDiskSpace then Some (false, 0, s)
      else
        match WriteToDisk fTestNet (ns_files s) b with
        | None => Some (false, 0, s)
        | Some (fs, nFile, nBlockPos) =>
            let s := with_files s fs in
            '(ok, c) ← AddBlock (ChainOps := ops fs) (ns_chain s) b nFile nBlockPos;
            let s := with_chain s c in
            if negb (ok : bool) then Some (false, 0, s)
            else
              '(_, c, cp) ← AcceptPendingSyncCheckpoint (ops := ops fs) (ns_chain s) (ns_cp s);
              Some (true, 0, with_cp (with_chain s c) cp)
        end
  end.

(** ** Proof of stake of a block whose parent is known *)

(** [CheckProofOfStake] on the coinstake of [b], recording the hash: the verdict
    with the state *)
Definition check_stake (s : NodeState) (b : CBlock) : option (bool * NodeState) :=
  tx ← vtx b !! 1%nat;
  let c := ns_chain s in
  let fs := ns_files s in
  '(r, cache) ← CheckProofOfStake fTestNet scrypt_blockhash Verify nMaxCacheSize random_entry (mapBlockIndex c)
                  (mkDisk (cs_txdb c) (read_tx_at fs) (read_time_at fs)) (read_header_at fs) tx (blk_nBits b) (cs_sigcache c);
  let c := with_cache c cache in
  match r with
  | StakeRefused _ => Some (false, with_chain s c)
  | StakeAccepted hashProofOfStake _ =>
      let hash := GetHash_blk b in
      let proofs := match mapProofOfStake c !! hash with Some _ => mapProofOfStake c | None => <[hash := hashProofOfStake]> (mapProofOfStake c) end in
      Some (true, with_chain s (with_proofs c proofs))
  end.

(** ** Orphans *)

(** One orphan whose parent was accepted: whether it was accepted as well *)
Definition try_orphan (s : NodeState) (b : CBlock) : option (bool * NodeState) :=
  '(ok, s) ←
    (if blk_IsProofOfStake b then
       '(valid, s) ← check_stake s b;
       if valid : bool then
         '(ok, _, s) ← AcceptBlock s b;
         Some (ok : bool, with_orphans s (mapOrphanBlocks s) (mapOrphanBlocksByPrev s) (setStakeSeenOrphan s ∖ {[GetProofOfStake b]}))
       else Some (false, s)
     else '(ok, _, s) ← AcceptBlock s b; Some (ok : bool, s));
  Some (ok : bool, with_orphans s (delete (GetHash_blk b) (mapOrphanBlocks s)) (mapOrphanBlocksByPrev s) (setStakeSeenOrphan s)).

(** The inner loop: the hashes pushed on [vWorkQueue] *)
Fixpoint try_orphans (s : NodeState) (orphans : list CBlock) : option (list base_uint * NodeState) :=
  match orphans with
  | [] => Some ([], s)
  | b :: orphans =>
      '(ok, s) ← try_orphan s b;
      '(accepted, s) ← try_orphans s orphans;
      Some (if ok : bool then GetHash_blk b :: accepted else accepted, s)
  end.

(** The outer loop over what is left of [vWorkQueue]; every orphan is pushed at
    most once *)
Fixpoint work_loop (fuel : nat) (s : NodeState) (vWorkQueue : list base_uint) : option NodeState :=
  match vWorkQueue with
  | [] => Some s
  | hashPrev :: queue =>
      match fuel with
      | O => None
      | S fuel =>
          '(accepted, s) ← try_orphans s (default [] (mapOrphanBlocksByPrev s !! hashPrev));
          work_loop fuel (with_orphans s (mapOrphanBlocks s) (delete hashPrev (mapOrphanBlocksByPrev s)) (setStakeSeenOrphan s)) (queue ++ accepted)
      end
  end.

(** ** [ProcessBlock] *)

Definition IsCanonicalBlockSignature (b : CBlock) : bool :=
  if blk_IsProofOfWork b then bool_decide (vchBlockSig b = []) else IsDERSignature (vchBlockSig b) false false.
(** The block as it is left by [ReserealizeBlockSignature] *)
Definition with_sig (b : CBlock) (sig : list Z) : CBlock :=
  mkBlock (blk_nVersion b) (hashPrevBlock b) (hashMerkleRoot b) (blk_nTime b) (blk_nBits b) (nNonce b) (vtx b) sig.
Definition ReserealizeBlockSignature (b : CBlock) : CBlock :=
  if blk_IsProofOfWork b then with_sig b []
  else if bool_decide (vchBlockSig b = []) then b
  else match reserialize (vchBlockSig b) with Some sig => with_sig b sig | None => b end.
Definition canonical (b : CBlock) : CBlock := if IsCanonicalBlockSignature b then b else ReserealizeBlockSignature b.

(** The check against blocks with too little work after the checkpoint *)
Definition too_little_work (s : NodeState) (b : CBlock) : option bool :=
  match GetLastSyncCheckpoint (ns_map s) (ns_cp s) with
  | None => Some false
  | Some h =>
      if bu_ne (hashPrevBlock b) (hashBestChain (ns_chain s)) then
        wanted ← WantedByPendingSyncCheckpoint (ns_cp s) (mapOrphanBlocks s) (GetHash_blk b);
        if wanted : bool then Some false
        else
          n ← ns_map s !! h;
          let deltaTime := blk_GetBlockTime b - bi_nTime (nd_index n) in
          last ← head (GetLastBlockIndex (index_chain (ancestors (ns_map s) h)) (blk_IsProofOfStake b));
          let bnRequired := bn_SetCompact (if blk_IsProofOfStake b then ComputeMinStake fTestNet (bi_nBits last) deltaTime (blk_nTime b)
                                           else ComputeMinWork fTestNet (bi_nBits last) deltaTime) in
          Some (bn_gt (bn_SetCompact (blk_nBits b)) bnRequired)
      else Some false
  end.

(** A proof of stake seen before is allowed only for a block that an orphan or the
    pending checkpoint is waiting for *)
Definition duplicate_stake (s : NodeState) (seen : gset (COutPoint * Z)) (b : CBlock) : option bool :=
  if blk_IsProofOfStake b && bool_decide (GetProofOfStake b ∈ (seen : gset (COutPoint * Z))) &&
     bool_decide (mapOrphanBlocksByPrev s !! GetHash_blk b = None)
  then wanted ← WantedByPendingSyncCheckpoint (ns_cp s) (mapOrphanBlocks s) (GetHash_blk b); Some (negb wanted)
  else Some false.

(** What [ProcessBlock] returns: the verdict, [nDoS] of the block as [CheckBlock] and
    [AcceptBlock] set it (what [ConnectBlock] adds while the chain is moved is not
    passed on), the score given to the peer at once, the messages to it and the
    state *)
Record process_result := mkResult {
  pr_ok : bool;
  pr_nDoS : Z;
  pr_misbehaving : Z;
  pr_out : list NetMsg;
  pr_state : NodeState
}.

(** A block without parent *)
Definition keep_orphan (s : NodeState) (b : CBlock) (pfrom : bool) (out : list NetMsg) : option process_result :=
  duplicate ← duplicate_stake s (setStakeSeenOrphan s) b;
  if duplicate : bool then Some (mkResult false 0 0 out s)
  else
    let hash := GetHash_blk b in
    let seen := if blk_IsProofOfStake b then {[GetProofOfStake b]} ∪ setStakeSeenOrphan s else setStakeSeenOrphan s in
    let by_prev := <[hashPrevBlock b := default [] (mapOrphanBlocksByPrev s !! hashPrevBlock b) ++ [b]]> (mapOrphanBlocksByPrev s) in
    let s := with_orphans s (<[hash := b]> (mapOrphanBlocks s)) by_prev seen in
    if pfrom then
      root ← GetOrphanRoot scrypt_blockhash (mapOrphanBlocks s) b;
      ask ← (if fInitialDownload then Some [] else wanted ← WantedByOrphan (mapOrphanBlocks s) b; Some [MsgAskFor wanted]);
      Some (mkResult true 0 0 (out ++ MsgGetBlocks (pindexBest (ns_chain s)) root :: ask) s)
    else Some (mkResult true 0 0 out s).

(** [ProcessBlock] up to [SendSyncCheckpoint], which the owner of the master key
    calls at the end *)
Definition ProcessBlock (s : NodeState) (b : CBlock) (pfrom : bool) : option process_result :=
  let hash := GetHash_blk b in
  let refuse nDoS misbehaving s := Some (mkResult false nDoS (if pfrom then misbehaving else 0) [] s) in
  if bool_decide (is_Some (ns_map s !! hash)) then refuse 0 0 s
  else if bool_decide (is_Some (mapOrphanBlocks s !! hash)) then refuse 0 0 s
  else if negb (CheckBanned fTestNet hash) then refuse 0 100 s
  else
    duplicate ← duplicate_stake s (setStakeSeen (ns_chain s)) b;
    if duplicate : bool then refuse 0 0 s
    else
      let b := canonical b in
      let '(ok, nDoS) := CheckBlock fTestNet scrypt_blockhash Verify adjustedTime b true true (blk_nTime b >? GetLastCheckpointTime fTestNet) in
      if negb ok then refuse nDoS 0 s
      else
        little ← too_little_work s b;
        if little : bool then refuse 0 100 s
        else
          let out := if fInitialDownload then [] else AskForPendingSyncCheckpoint (ns_map s) (mapOrphanBlocks s) (ns_cp s) pfrom in
          if bool_decide (ns_map s !! hashPrevBlock b = None) then keep_orphan s b pfrom out
          else
            '(valid, s) ← (if blk_IsProofOfStake b then check_stake s b else Some (true, s));
            if negb (valid : bool) then Some (mkResult false 0 0 out s)
            else
              '(ok, nDoS, s) ← AcceptBlock s b;
              if negb (ok : bool) then Some (mkResult false nDoS 0 out s)
              else
                s ← work_loop (S (size (mapOrphanBlocks s))) s [hash];
                Some (mkResult true 0 0 out s).
End ProcessBlock.

(** ** Orphans *)

Section orphans.
Context {BN : OpenSSL_BN} {DG : Digests} (ops : BlockFiles → ChainOps) (net : bool) (scrypt : list Z → base_uint).
Context (Verify : list Z → base_uint → list Z → bool) (nMaxCacheSize : Z) (random_entry : gset sigdata → sigdata) (now : Z) (mode : CPMode).
Context (fDiskSpace : bool).

Local Abbreviation hash_of := (blk_GetHash scrypt).
Local Abbreviation Accept := (AcceptBlock ops net scrypt now mode fDiskSpace).
Local Abbreviation Stake := (check_stake net scrypt Verify nMaxCacheSize random_entry).
Local Abbreviation Try1 := (try_orphan ops net scrypt Verify nMaxCacheSize random_entry now mode fDiskSpace).
Local Abbreviation Try := (try_orphans ops net scrypt Verify nMaxCacheSize random_entry now mode fDiskSpace).
Local Abbreviation Work := (work_loop ops net scrypt Verify nMaxCacheSize random_entry now mode fDiskSpace).

(** The two maps hold the same blocks, one by hash, one by parent. *)
Record orphans_ok (s : NodeState) : Prop := {
  orphan_hash : ∀ h b, mapOrphanBlocks s !! h = Some b → hash_of b = h;
  orphan_parent : ∀ p l, mapOrphanBlocksByPrev s !! p = Some l →
    NoDup (map hash_of l) ∧ ∀ b, b ∈ l → hashPrevBlock b = p ∧ mapOrphanBlocks s !! hash_of b = Some b;
  orphan_filed : ∀ h b, mapOrphanBlocks s !! h = Some b → ∃ l, mapOrphanBlocksByPrev s !! hashPrevBlock b = Some l ∧ b ∈ l
}.

(** The orphan maps are left alone. *)
Definition same_orphans (s s' : NodeState) : Prop :=
  mapOrphanBlocks s' = mapOrphanBlocks s ∧ mapOrphanBlocksByPrev s' = mapOrphanBlocksByPrev s.
Lemma orphans_ok_same s s' : same_orphans s s' → orphans_ok s → orphans_ok s'.
Proof. intros [E1 E2] [H1 H2 H3]. split; rewrite ?E1, ?E2; done. Qed.

Lemma AcceptBlock_orphans s b ok nDoS s' : Accept s b = Some (ok, nDoS, s') → same_orphans s s'.
Proof.
  unfold AcceptBlock. intros H. apply bind_Some in H as ([r|] & _ & H); [by injection H as <- <- <-|]. destruct (negb fDiskSpace); [by injection H as <- <- <-|].
  destruct (WriteToDisk _ _ _) as [[[fs n] p]|]; [|by injection H as <- <- <-]. apply bind_Some in H as ([[] c] & _ & H); cbn [negb] in H; [|by injection H as <- <- <-].
  by apply bind_Some in H as ([[? ?] ?] & _ & [= <- <- <-]).
Qed.
Lemma check_stake_orphans s b ok s' : check_stake net scrypt Verify nMaxCacheSize random_entry s b = Some (ok, s') →
  same_orphans s s' ∧ ns_files s' = ns_files s ∧ ns_cp s' = ns_cp s ∧ ∃ cache proofs, ns_chain s' = with_proofs (with_cache (ns_chain s) cache) proofs.
Proof.
  unfold check_stake. intros H. apply bind_Some in H as (tx & _ & H). apply bind_Some in H as ([r cache] & _ & H). destruct r; injection H as <- <-.
  - split; [done|]. split; [done|]. split; [done|]. exists cache, (mapProofOfStake (ns_chain s)). by destruct (ns_chain s).
  - split; [done|]. split; [done|]. split; [done|]. eauto.
Qed.

Lemma try_orphan_ok s b ok s' : Try1 s b = Some (ok, s') →
  mapOrphanBlocks s' = delete (hash_of b) (mapOrphanBlocks s) ∧ mapOrphanBlocksByPrev s' = mapOrphanBlocksByPrev s.
Proof.
  unfold try_orphan. intros H. apply bind_Some in H as ([ok1 s1] & H & [= <- <-]). cbn.
  assert (Hs : same_orphans s s1); [|by destruct Hs as [-> ->]]. destruct (blk_IsProofOfStake b).
  - apply bind_Some in H as ([v s2] & Hc & H). apply check_stake_orphans in Hc as ([E1 E2] & _). destruct v; [|by injection H as <- <-].
    apply bind_Some in H as ([[o d] s3] & Ha & [= <- <-]). apply AcceptBlock_orphans in Ha as [E3 E4]. split; cbn; congruence.
  - apply bind_Some in H as ([[o d] s3] & Ha & [= <- <-]). by apply AcceptBlock_orphans in Ha.
Qed.

Lemma try_orphans_ok l : ∀ s acc s', Try s l = Some (acc, s') →
  (∀ h, mapOrphanBlocks s' !! h = if bool_decide (h ∈ map hash_of l) then None else mapOrphanBlocks s !! h) ∧
  mapOrphanBlocksByPrev s' = mapOrphanBlocksByPrev s ∧ acc `sublist_of` map hash_of l.
Proof.
  induction l as [|b l IH]; intros s acc s'; cbn [try_orphans].
  - intros [= <- <-]. split; [intros h; by rewrite bool_decide_false by set_solver|done].
  - intros H. apply bind_Some in H as ([ok s1] & H1 & H). apply bind_Some in H as ([acc1 s2] & H2 & [= <- <-]).
    apply try_orphan_ok in H1 as [E1 E2]. apply IH in H2 as (E3 & E4 & Hs). split; [|split; [congruence|]].
    + intros h. rewrite E3, E1. cbn [map]. destruct (decide (h ∈ map hash_of l)) as [Hin|Hin].
      { by rewrite !bool_decide_true by set_solver. }
      rewrite (bool_decide_false _ Hin). destruct (decide (h = hash_of b)) as [->|Hne].
      * by rewrite lookup_delete_eq, bool_decide_true by set_solver.
      * by rewrite lookup_delete_ne, bool_decide_false by set_solver.
    + cbn [map]. destruct ok; [by constructor|]. by apply sublist_cons.
Qed.

(** What the node decides on one block: a proof of stake is checked first, then
    [AcceptBlock] has the word *)
Definition verdict (s : NodeState) (b : CBlock) (ok : bool) (s' : NodeState) : Prop :=
  if blk_IsProofOfStake b then
    ∃ valid s1, Stake s b = Some (valid, s1) ∧ if valid : bool then ∃ nDoS, Accept s1 b = Some (ok, nDoS, s') else ok = false ∧ s' = s1
  else ∃ nDoS, Accept s b = Some (ok, nDoS, s').
(** Equal apart from the maps of orphans, which the verdicts do not read *)
Definition same_core (s s' : NodeState) : Prop := ns_chain s' = ns_chain s ∧ ns_files s' = ns_files s ∧ ns_cp s' = ns_cp s.
(** The blocks of [trace] put to the node one after the other, with the verdicts *)
Inductive attempts : NodeState → list (CBlock * bool) → NodeState → Prop :=
  | attempts_nil s s' : same_core s s' → attempts s [] s'
  | attempts_cons s s0 b ok s1 trace s' : same_core s s0 → verdict s0 b ok s1 → attempts s1 trace s' → attempts s ((b, ok) :: trace) s'.
(** The hashes of the blocks that were accepted *)
Definition accepted_in (trace : list (CBlock * bool)) : list base_uint :=
  omap (λ x : CBlock * bool, if x.2 then Some (hash_of x.1) else None) trace.

#[local] Instance same_core_preorder : PreOrder same_core.
Proof. split; [done|]. intros s1 s2 s3 (E1 & E2 & E3) (F1 & F2 & F3). split; [|split]; congruence. Qed.
Lemma attempts_core s0 s trace s' : same_core s0 s → attempts s trace s' → attempts s0 trace s'.
Proof. intros H. destruct 1 as [s s' H'|s s2 b ok s1 trace s' H' Hv Ht]; [constructor; by etransitivity|]. eapply attempts_cons; [by etransitivity|done..]. Qed.
Lemma attempts_app s trace1 s1 trace2 s2 : attempts s trace1 s1 → attempts s1 trace2 s2 → attempts s (trace1 ++ trace2) s2.
Proof. induction 1 as [s s' H|]; [by apply attempts_core|]. intros. econstructor; eauto. Qed.

Lemma try_orphan_verdict s b ok s' : Try1 s b = Some (ok, s') → ∃ s1, verdict s b ok s1 ∧ same_core s1 s'.
Proof.
  unfold try_orphan, verdict. intros H. apply bind_Some in H as ([ok1 s1] & H & [= <- <-]). destruct (blk_IsProofOfStake b).
  - apply bind_Some in H as ([v s2] & Hc & H). destruct v; [|injection H as <- <-; exists s2; split; [|done]; exists false, s2; done].
    apply bind_Some in H as ([[o d] s3] & Ha & [= <- <-]). exists s3. split; [|done]. exists true, s2. eauto.
  - apply bind_Some in H as ([[o d] s3] & Ha & [= <- <-]). exists s3. split; [|done]. eauto.
Qed.
Lemma try_orphans_trace l : ∀ s acc s', Try s l = Some (acc, s') → ∃ trace, trace.*1 = l ∧ accepted_in trace = acc ∧ attempts s trace s'.
Proof.
  induction l as [|b l IH]; intros s acc s'; cbn [try_orphans].
  - intros [= <- <-]. exists []. split; [done|]. split; [done|]. by constructor.
  - intros H. apply bind_Some in H as ([ok s1] & H1 & H). apply bind_Some in H as ([acc1 s2] & H2 & [= <- <-]).
    apply try_orphan_verdict in H1 as (s0 & Hv & Hc). apply IH in H2 as (trace & <- & <- & Ht). exists ((b, ok) :: trace).
    split; [done|]. split; [by destruct ok|]. econstructor; [reflexivity|exact Hv|]. by eapply attempts_core.
Qed.

(** One turn of the outer loop: the orphans of [p] are gone, the others stay. *)
Lemma work_turn s p acc s' : orphans_ok s → Try s (default [] (mapOrphanBlocksByPrev s !! p)) = Some (acc, s') →
  let s1 := with_orphans s' (mapOrphanBlocks s') (delete p (mapOrphanBlocksByPrev s')) (setStakeSeenOrphan s') in
  orphans_ok s1 ∧
  (∀ h o, mapOrphanBlocks s1 !! h = Some o ↔ mapOrphanBlocks s !! h = Some o ∧ hashPrevBlock o ≠ p) ∧
  (length acc + size (mapOrphanBlocks s1) <= size (mapOrphanBlocks s))%nat.
Proof.
  intros [H1 H2 H3] HT s1. apply try_orphans_ok in HT as (Em & Ep & Hsub). set (l := default [] _) in *.
  assert (Hl : NoDup (map hash_of l) ∧ ∀ b, b ∈ l → hashPrevBlock b = p ∧ mapOrphanBlocks s !! hash_of b = Some b).
  { unfold l. destruct (mapOrphanBlocksByPrev s !! p) as [l'|] eqn:E; [by apply H2|]. split; [constructor|set_solver]. }
  destruct Hl as [Hnd Hl].
  assert (Hiff : ∀ h o, mapOrphanBlocks s1 !! h = Some o ↔ mapOrphanBlocks s !! h = Some o ∧ hashPrevBlock o ≠ p).
  { intros h o. cbn. rewrite Em. case_bool_decide as Hin.
    - split; [done|]. intros [Ho Hne]. apply list_elem_of_fmap in Hin as (b & -> & Hb). destruct (Hl b Hb) as [? ?]. simplify_eq.
    - split; [|by intros [? _]]. intros Ho. split; [done|]. intros <-. apply Hin, list_elem_of_fmap. exists o.
      split; [symmetry; by apply H1|]. unfold l. destruct (H3 _ _ Ho) as (l' & -> & ?). done. }
  split; [|split; [done|]].
  - split.
    + intros h b Hb. apply Hiff in Hb as [Hb _]. by apply H1.
    + intros q l' Hq. cbn in Hq. rewrite Ep in Hq. apply lookup_delete_Some in Hq as [Hpq Hq]. destruct (H2 _ _ Hq) as [Hn Hq'].
      split; [done|]. intros b Hb. destruct (Hq' b Hb) as [Eb Hob]. split; [done|]. apply Hiff. split; [done|]. by rewrite Eb.
    + intros h b Hb. apply Hiff in Hb as [Hb Hne]. destruct (H3 _ _ Hb) as (l' & Hl' & Hin). exists l'. split; [|done]. cbn. rewrite Ep.
      by rewrite lookup_delete_ne.
  - apply sublist_length in Hsub. assert (Hsz : (length (map hash_of l) + size (mapOrphanBlocks s1) <= size (mapOrphanBlocks s))%nat); [|lia].
    rewrite <- (size_list_to_set (C := gset base_uint) _ Hnd), <- !size_dom, <- size_union.
    + apply subseteq_size. intros h [Hh|Hh]%elem_of_union.
      * apply elem_of_list_to_set, list_elem_of_fmap in Hh as (b & -> & Hb). apply elem_of_dom. exists b. by apply Hl.
      * apply elem_of_dom in Hh as [o Ho]. apply Hiff in Ho as [Ho _]. by apply elem_of_dom_2 in Ho.
    + intros h Hh Hd. apply elem_of_list_to_set, list_elem_of_fmap in Hh as (b & -> & Hb). apply elem_of_dom in Hd as [o Ho].
      apply Hiff in Ho as [Ho Hne]. destruct (Hl b Hb). simplify_eq.
Qed.

(** The orphans listed under [p] *)
Lemma listed_orphans s p : orphans_ok s → let l := default [] (mapOrphanBlocksByPrev s !! p) in
  NoDup (map hash_of l) ∧ ∀ o, o ∈ l ↔ mapOrphanBlocks s !! hash_of o = Some o ∧ hashPrevBlock o = p.
Proof.
  intros [H1 H2 H3] l. unfold l. destruct (mapOrphanBlocksByPrev s !! p) as [l'|] eqn:E; cbn [default].
  - destruct (H2 _ _ E) as [Hn Hl]. split; [done|]. intros o. split; [intros Ho; by destruct (Hl o Ho)|]. intros [Ho <-].
    destruct (H3 _ _ Ho) as (l2 & E2 & ?). rewrite E in E2. by injection E2 as <-.
  - split; [constructor|]. intros o. split; [set_solver|]. intros [Ho <-]. destruct (H3 _ _ Ho) as (l2 & E2 & ?). congruence.
Qed.

(** The blocks the loop puts to the node are the orphans whose parent is in the
    queue or accepted before, each once; the others are kept *)
Record tried (s : NodeState) (queue : list base_uint) (trace : list (CBlock * bool)) (s' : NodeState) : Prop := {
  tried_attempts : attempts s trace s';
  tried_once : NoDup (map hash_of trace.*1);
  tried_after : ∀ pre o ok post, trace = pre ++ (o, ok) :: post → hashPrevBlock o ∈ queue ++ accepted_in pre;
  tried_all : ∀ o, o ∈ trace.*1 ↔ mapOrphanBlocks s !! hash_of o = Some o ∧ hashPrevBlock o ∈ queue ++ accepted_in trace;
  tried_rest : ∀ h o, mapOrphanBlocks s' !! h = Some o ↔ mapOrphanBlocks s !! h = Some o ∧ hashPrevBlock o ∉ queue ++ accepted_in trace
}.
Lemma tried_nil s : tried s [] [] s.
Proof. split; [by constructor|constructor|by intros [|]|set_solver|set_solver]. Qed.

Lemma tried_turn s p queue trace1 s1 trace2 s' :
  trace1.*1 = default [] (mapOrphanBlocksByPrev s !! p) → attempts s trace1 s1 → orphans_ok s → orphans_ok s1 →
  (∀ h o, mapOrphanBlocks s1 !! h = Some o ↔ mapOrphanBlocks s !! h = Some o ∧ hashPrevBlock o ≠ p) →
  tried s1 (queue ++ accepted_in trace1) trace2 s' → tried s (p :: queue) (trace1 ++ trace2) s'.
Proof.
  intros El Ha Hs Hs1 Hiff [T1 T2 T3 T4 T5]. destruct (listed_orphans s p Hs) as [Hn Hl]. rewrite <- El in Hn, Hl.
  assert (Eacc : accepted_in (trace1 ++ trace2) = accepted_in trace1 ++ accepted_in trace2) by apply omap_app. split.
  - by eapply attempts_app.
  - rewrite fmap_app, map_app. apply NoDup_app. split; [done|]. split; [|done]. intros h H1 H2.
    apply list_elem_of_fmap in H1 as (o1 & -> & [Ho1 Hp]%Hl), H2 as (o2 & E & [[Ho2 Hne]%Hiff _]%T4). congruence.
  - intros pre o ok post E. apply app_eq_inv in E as [(k & -> & E)|(k & -> & E)].
    + destruct k as [|x k]; [|injection E as <- ->].
      * symmetry in E. apply (T3 [] o ok post) in E. rewrite !app_nil_r in E. set_solver.
      * assert (Ho : o ∈ (pre ++ (o, ok) :: k).*1) by (rewrite fmap_app; set_solver). apply Hl in Ho as [_ ->]. set_solver.
    + apply T3 in E. unfold accepted_in. rewrite omap_app. set_solver.
  - intros o. rewrite fmap_app, elem_of_app, Hl, T4, Hiff, Eacc. destruct (decide (hashPrevBlock o = p)); set_solver.
  - intros h o. rewrite T5, Hiff, Eacc. set_solver.
Qed.

Lemma work_loop_ok fuel : ∀ s queue s', orphans_ok s → Work fuel s queue = Some s' →
  orphans_ok s' ∧ ∃ trace, tried s queue trace s'.
Proof.
  induction fuel as [|fuel IH]; intros s [|p queue] s' Hs; cbn [work_loop]; try done.
  1-2: intros [= <-]; split; [done|]; exists []; apply tried_nil.
  intros H. apply bind_Some in H as ([acc s1] & HT & H). assert (Hw := HT). apply (work_turn _ _ _ _ Hs) in Hw as (Hs1 & Hiff & _).
  apply try_orphans_trace in HT as (trace1 & El & <- & Ha). apply (IH _ _ _ Hs1) in H as (Hs' & trace2 & Ht). split; [exact Hs'|].
  exists (trace1 ++ trace2). eapply tried_turn; [exact El| |exact Hs|exact Hs1|exact Hiff|exact Ht].
  rewrite <- (app_nil_r trace1). eapply attempts_app; [exact Ha|]. by constructor.
Qed.

(** The fuel is enough: more of it changes nothing. *)
Lemma work_loop_fuel fuel : ∀ s queue more, orphans_ok s → (length queue + size (mapOrphanBlocks s) <= fuel)%nat →
  Work (fuel + more) s queue = Work fuel s queue.
Proof.
  induction fuel as [|fuel IH]; intros s [|p queue] more Hs Hf; cbn [length] in Hf; [by destruct more|lia|done|].
  cbn [Nat.add work_loop]. destruct (Try _ _) as [[acc s1]|] eqn:HT; [|done]. cbn [mbind option_bind].
  apply (work_turn _ _ _ _ Hs) in HT as (Hs1 & _ & Hsz). apply IH; [done|]. rewrite length_app. cbn [mapOrphanBlocks with_orphans] in *. lia.
Qed.
End orphans.

Section process.
Context {BN : OpenSSL_BN} {DG : Digests} (ops : BlockFiles → ChainOps) (net : bool) (scrypt : list Z → base_uint).
Context (Verify : list Z → base_uint → list Z → bool) (nMaxCacheSize : Z) (random_entry : gset sigdata → sigdata) (now : Z) (mode : CPMode).
Context (fDiskSpace fInitialDownload : bool) (reserialize : list Z → option (list Z)).

Local Abbreviation hash_of := (blk_GetHash scrypt).
Local Abbreviation Accept := (AcceptBlock ops net scrypt now mode fDiskSpace).
Local Abbreviation Stake := (check_stake net scrypt Verify nMaxCacheSize random_entry).
Local Abbreviation Work := (work_loop ops net scrypt Verify nMaxCacheSize random_entry now mode fDiskSpace).
Local Abbreviation Process := (ProcessBlock ops net scrypt Verify nMaxCacheSize random_entry now mode fDiskSpace fInitialDownload reserialize).

(** Only the signature of a block is made canonical. *)
Lemma canonical_header b : ser_header (canonical reserialize b) = ser_header b ∧ vtx (canonical reserialize b) = vtx b ∧
  hashPrevBlock (canonical reserialize b) = hashPrevBlock b.
Proof.
  unfold canonical, ReserealizeBlockSignature. destruct (IsCanonicalBlockSignature b), (blk_IsProofOfWork b); try done.
  case_bool_decide; [done|]. by destruct (reserialize _).
Qed.
Lemma canonical_hash b : hash_of (canonical reserialize b) = hash_of b.
Proof. unfold blk_GetHash. by destruct (canonical_header b) as [-> _]. Qed.

(** What a call of [ProcessBlock] comes down to *)
Lemma ProcessBlock_inv s b pfrom r : Process s b pfrom = Some r →
  let b := canonical reserialize b in
  (pr_ok r = false ∧ pr_state r = s) ∨
  (ns_map s !! hash_of b = None ∧ mapOrphanBlocks s !! hash_of b = None ∧
   (CheckBlock net scrypt Verify now b true true (blk_nTime b >? GetLastCheckpointTime net)).1 = true ∧
   ((ns_map s !! hashPrevBlock b = None ∧ ∃ out, keep_orphan scrypt fInitialDownload s b pfrom out = Some r) ∨
    (is_Some (ns_map s !! hashPrevBlock b) ∧ ∃ valid s1,
       (if blk_IsProofOfStake b then Stake s b else Some (true, s)) = Some (valid, s1) ∧
       (valid = false ∧ pr_ok r = false ∧ pr_state r = s1 ∨
        valid = true ∧ ∃ ok nDoS s2, Accept s1 b = Some (ok, nDoS, s2) ∧ pr_ok r = ok ∧
          if ok then Work (S (size (mapOrphanBlocks s2))) s2 [hash_of b] = Some (pr_state r) else pr_state r = s2)))).
Proof.
  intros H b'. unfold ProcessBlock in H. rewrite <- (canonical_hash b) in H. fold b' in H. case_bool_decide as H1; [injection H as <-; by left|].
  case_bool_decide as H2; [injection H as <-; by left|]. apply eq_None_not_Some in H1, H2. destruct (CheckBanned _ _); cbn [negb] in H; [|injection H as <-; by left].
  apply bind_Some in H as (dup & _ & H). destruct dup; [injection H as <-; by left|]. fold b' in H.
  destruct (CheckBlock _ _ _ _ _ _ _ _) as [ok nDoS] eqn:Ec. destruct ok; cbn [negb] in H; [|injection H as <-; by left].
  apply bind_Some in H as (little & _ & H). destruct little; [injection H as <-; by left|]. right. split; [done|]. split; [done|]. split; [done|].
  case_bool_decide as Hp; [left; eauto|]. right. split; [by apply not_eq_None_Some|]. apply bind_Some in H as ([valid s1] & Hv & H). exists valid, s1. split; [done|].
  destruct valid; cbn [negb] in H; [right|left; by injection H as <-]. split; [done|]. apply bind_Some in H as ([[ok nD] s2] & Ha & H).
  exists ok, nD, s2. split; [done|]. destruct ok; cbn [negb] in H; [|by injection H as <-]. apply bind_Some in H as (s3 & Hw & [= <-]). done.
Qed.

Lemma keep_orphan_ok s b pfrom out r : orphans_ok scrypt s → mapOrphanBlocks s !! hash_of b = None →
  keep_orphan scrypt fInitialDownload s b pfrom out = Some r →
  orphans_ok scrypt (pr_state r) ∧ ns_chain (pr_state r) = ns_chain s ∧ ns_files (pr_state r) = ns_files s ∧ ns_cp (pr_state r) = ns_cp s ∧
  mapOrphanBlocks (pr_state r) = if pr_ok r then <[hash_of b := b]> (mapOrphanBlocks s) else mapOrphanBlocks s.
Proof.
  intros [H1 H2 H3] Hb. unfold keep_orphan. intros H. apply bind_Some in H as (dup & _ & H). destruct dup; [by injection H as <-|].
  set (s1 := with_orphans _ _ _ _) in H.
  assert (Hr : pr_ok r = true ∧ pr_state r = s1).
  { destruct pfrom; [|by injection H as <-]. apply bind_Some in H as (root & _ & H). by apply bind_Some in H as (ask & _ & [= <-]). }
  destruct Hr as [-> ->]. split; [|done]. set (l0 := default [] (mapOrphanBlocksByPrev s !! hashPrevBlock b)) in *.
  assert (Hl0 : NoDup (map hash_of l0) ∧ ∀ x, x ∈ l0 → hashPrevBlock x = hashPrevBlock b ∧ mapOrphanBlocks s !! hash_of x = Some x).
  { unfold l0. destruct (mapOrphanBlocksByPrev s !! hashPrevBlock b) as [l|] eqn:E; [by apply H2|]. split; [constructor|set_solver]. }
  destruct Hl0 as [Hnd Hl0].
  assert (Hold : ∀ x, mapOrphanBlocks s !! hash_of x = Some x → <[hash_of b := b]> (mapOrphanBlocks s) !! hash_of x = Some x).
  { intros x Hx. rewrite lookup_insert_ne; [done|congruence]. }
  split; cbn.
  - intros h x [[<- <-]|[_ Hx]]%lookup_insert_Some; [done|by apply H1].
  - intros p l [[<- <-]|[_ Hl]]%lookup_insert_Some.
    + split.
      * rewrite map_app. apply NoDup_app. split; [done|]. split; [|apply NoDup_singleton]. intros h Hh ->%list_elem_of_singleton.
        apply list_elem_of_fmap in Hh as (x & E & Hx). destruct (Hl0 x Hx) as [_ Hx']. congruence.
      * intros x [Hx| ->%list_elem_of_singleton]%elem_of_app; [|split; [done|apply lookup_insert_eq]]. destruct (Hl0 x Hx) as [? ?]. split; [done|by apply Hold].
    + destruct (H2 _ _ Hl) as [Hn Hx]. split; [done|]. intros x Hin. destruct (Hx x Hin) as [? ?]. split; [done|by apply Hold].
  - intros h x [[<- <-]|[_ Hx]]%lookup_insert_Some.
    + exists (l0 ++ [b]). split; [apply lookup_insert_eq|]. apply elem_of_app. right. by left.
    + destruct (H3 _ _ Hx) as (l & Hl & Hin). destruct (decide (hashPrevBlock x = hashPrevBlock b)) as [E|E].
      * exists (l0 ++ [b]). rewrite E, lookup_insert_eq. split; [done|]. apply elem_of_app. left. unfold l0. rewrite <- E, Hl. done.
      * exists l. rewrite lookup_insert_ne by done. done.
Qed.
End process.

(** ** The checkpoint and the best chain *)

Section safety.
Context {BN : OpenSSL_BN} {DG : Digests} (scrypt : list Z → base_uint) (g : base_uint).
Context (Verify : list Z → base_uint → list Z → bool) (nMaxCacheSize : Z) (random_entry : gset sigdata → sigdata).
Context (reserialize : list Z → option (list Z)).

(** What the node relies on: the laws of the best chain over any files, and that
    blocks are read from the files *)
Record ops_ok (ops : BlockFiles → ChainOps) : Prop := {
  ops_laws : ∀ fs, ChainOpsOk (ops fs) scrypt g;
  ops_read : ∀ fs h n b, ReadBlock (ChainOps := ops fs) h n = Some b → read_block_at fs (bi_nFile (nd_index n)) (bi_nBlockPos (nd_index n)) = Some b
}.

(** A block that fits into a message *)
Definition storable (b : CBlock) : Prop := block_ok b ∧ Z.of_nat (length (Serialize b)) <= MAX_SIZE.
(** Every block of the tree but the first one is in the files. *)
Definition nodes_stored (fs : BlockFiles) (m : BlockMap) : Prop :=
  ∀ h n p, m !! h = Some n → nd_pprev n = Some p → ∃ b, stored fs (bi_nFile (nd_index n)) (bi_nBlockPos (nd_index n)) b ∧ hashPrevBlock b = p.

Record core_ok (s : NodeState) : Prop := {
  core_sync : sync_ok (g := g) (ns_chain s) (ns_cp s);
  core_files : nodes_stored (ns_files s) (ns_map s)
}.
Definition lists_ok (s : NodeState) : Prop := ∀ p l, mapOrphanBlocksByPrev s !! p = Some l → Forall storable l.
Definition node_ok (s : NodeState) : Prop := core_ok s ∧ lists_ok s.

(** The master key signed a message for the checkpoint [h]. *)
Definition signed (h : base_uint) : Prop :=
  ∃ msg sig v, Verify (CPubKey_Set masterPubKey) (Hash msg) sig = true ∧ unser_unsigned msg = Some (v, h).
(** The checkpoints a node may move to: those, and the hardened ones *)
Definition authorised (h : base_uint) : Prop := signed h ∨ h ∈ map (λ x, x.2.1) mapCheckpoints.
Definition pending_ok (c : CheckpointState) : Prop := hashPendingCheckpoint c = uint256_0 ∨ authorised (hashPendingCheckpoint c).
(** The checkpoint stays or is an authorised one. *)
Definition authentic (c c' : CheckpointState) : Prop :=
  pending_ok c → pending_ok c' ∧ (hashSyncCheckpoint c' = hashSyncCheckpoint c ∨ authorised (hashSyncCheckpoint c')).
#[local] Instance authentic_preorder : PreOrder authentic.
Proof.
  split; [by intros c H; split; [|left]|]. intros c1 c2 c3 H1 H2 Hp. destruct (H1 Hp) as [Hp2 [E1|S1]], (H2 Hp2) as [Hp3 [E2|S2]]; rewrite ?E2; auto.
Qed.

(** From [s] to [s'] the tree grew and the checkpoint moved up. *)
Definition advanced (s s' : NodeState) : Prop :=
  core_ok s' ∧ grows (ns_map s) (ns_map s') ∧ hashSyncCheckpoint (ns_cp s) ∈ path (ns_map s') (hashSyncCheckpoint (ns_cp s')) ∧
  authentic (ns_cp s) (ns_cp s').

Lemma core_in s : core_ok s → tree_ok (ns_map s) g ∧ ∃ nc, ns_map s !! hashSyncCheckpoint (ns_cp s) = Some nc.
Proof. intros [H _]. split; [by destruct (sync_tree _ _ H)|by apply sync_in in H]. Qed.
Lemma advanced_refl s : core_ok s → advanced s s.
Proof. intros H. destruct (core_in _ H) as [T [nc Hc]]. split; [done|]. split; [done|]. split; [by eapply (path_self T)|done]. Qed.
Lemma advanced_trans s1 s2 s3 : core_ok s1 → advanced s1 s2 → advanced s2 s3 → advanced s1 s3.
Proof.
  intros C1 (C2 & G1 & P1 & A1) (C3 & G2 & P2 & A2). split; [done|]. split; [by etransitivity|]. split; [|by etransitivity].
  destruct (core_in _ C2) as [T2 [n2 H2]], (core_in _ C3) as [T3 [n3 H3]].
  eapply (path_trans T3); [exact H3|exact P2|]. by rewrite (path_grow T2 T3 G2 _ _ H2).
Qed.

Lemma stored_headers ops fs m : ops_ok ops → nodes_stored fs m → headers_ok (ops := ops fs) m.
Proof.
  intros [_ Hr] Hm h n b Hn [p Ep] Hb. apply Hr in Hb. destruct (Hm _ _ _ Hn Ep) as (b' & Hs & <-). apply stored_read in Hs. congruence.
Qed.

(** A move that leaves the tree and the files alone *)
Lemma moved_advanced s s' : core_ok s → ns_files s' = ns_files s →
  sync_moved (g := g) (ns_chain s) (ns_cp s) (ns_chain s') (ns_cp s') → authentic (ns_cp s) (ns_cp s') → advanced s s'.
Proof.
  intros [Hs Hf] Ef (E & Ho & Hp) Ha. split; [|by split; [apply grows_same|split]]. split; [done|]. rewrite Ef. intros h n p Hn Ep.
  assert (E' : same_index (ns_map s') (ns_map s)) by by symmetry. destruct (same_index_lookup _ _ _ _ E' Hn) as (x & Hx & <- & Ex).
  apply (Hf h x p Hx). congruence.
Qed.

(** Authenticity of the checkpoints that are taken *)
Lemma Validate_state m c h ok c' : ValidateSyncCheckpoint m c h = (ok, c') →
  hashSyncCheckpoint c' = hashSyncCheckpoint c ∧ hashPendingCheckpoint c' = hashPendingCheckpoint c.
Proof. unfold ValidateSyncCheckpoint. intros H. repeat case_match; by simplify_eq. Qed.
Lemma AcceptPending_authentic {ops : ChainOps} s c ok s' c' : AcceptPendingSyncCheckpoint s c = Some (ok, s', c') → authentic c c'.
Proof.
  unfold AcceptPendingSyncCheckpoint. destruct (bu_ne _ _ && _) eqn:Ec; [|by intros [= _ _ <-]]. apply andb_true_iff in Ec as [Hne _].
  destruct (ValidateSyncCheckpoint _ _ _) as [v c1] eqn:Ev. apply Validate_state in Ev as [E1 E2]. intros H Hp.
  assert (Hz : authorised (hashPendingCheckpoint c)).
  { destruct Hp as [Hp|]; [|done]. rewrite Hp in Hne. vm_compute in Hne. done. }
  destruct v; cbn [negb] in H; [|injection H as _ _ <-; split; [by left|by left]].
  apply bind_Some in H as (r & _ & H). unfold pending_ok. destruct r; injection H as _ _ <-; cbn; rewrite ?E1, ?E2; auto.
Qed.
(** At start-up [ResetSyncCheckpoint] takes hardened checkpoints only. *)
Lemma reset_loop_in m best hashes h : reset_loop m best hashes = Some h → h ∈ hashes.
Proof. induction hashes as [|x l IH]; cbn [reset_loop]; [done|]. destruct (_ && _); [intros [= <-]; by left|]. intros H%IH. by right. Qed.
Lemma ResetSync_authentic {ops : ChainOps} s c ok s' c' : ResetSyncCheckpoint s c = Some (ok, s', c') → authentic c c'.
Proof.
  assert (Hin : ∀ h, h ∈ map (λ x : Z * (base_uint * Z), x.2.1) (rev mapCheckpoints) → authorised h).
  { intros h Hh. right. by rewrite map_rev, list_elem_of_In, <- in_rev, <- list_elem_of_In in Hh. }
  unfold ResetSyncCheckpoint. set (hashes := map _ (rev mapCheckpoints)) in *. intros H Hp. apply bind_Some in H as ([r c1] & Hr & H).
  assert (H1 : pending_ok c1 ∧ hashSyncCheckpoint c1 = hashSyncCheckpoint c).
  { destruct (bool_decide _); [apply bind_Some in Hr as (r' & _ & [= _ <-]); done|]. injection Hr as _ <-. split; [|done]. right. apply Hin. by left. }
  destruct H1 as [Hp1 E1]. destruct r as [|s1|s1]; [injection H as _ _ <-; auto..|]. destruct (reset_loop _ _ _) as [h|] eqn:El; injection H as _ _ <-; [|auto].
  apply reset_loop_in in El. split; [exact Hp1|]. right. by apply Hin.
Qed.
Lemma ProcessSync_authentic {ops : ChainOps} s c orphans msg pfrom ok s' c' out :
  ProcessSyncCheckpoint Verify s c orphans msg pfrom = Some (ok, s', c', out) → authentic c c'.
Proof.
  unfold ProcessSyncCheckpoint, CheckSignature. destruct (Verify _ _ _) eqn:Ever; cbn [negb]; [|by intros [= _ _ <- _]].
  intros H. apply bind_Some in H as ([okm msg'] & Hm & H). apply bind_Some in Hm as ([v h] & Hu & [= <- <-]). cbn [negb hashCheckpoint] in H.
  assert (Hsig : authorised h) by (left; by exists (vchMsg msg), (vchSig msg), v). intros Hp. unfold pending_ok. case_bool_decide.
  - destruct pfrom; [apply bind_Some in H as (ask & _ & [= _ _ <- _])|injection H as _ _ <- _]; cbn; auto.
  - destruct (ValidateSyncCheckpoint _ _ _) as [vv c1] eqn:Ev. apply Validate_state in Ev as [E1 E2].
    destruct vv; cbn [negb] in H; [|injection H as _ _ <- _; rewrite E1, E2; auto].
    apply bind_Some in H as (r & _ & H). destruct r; injection H as _ _ <- _; cbn; rewrite ?E1, ?E2; auto.
Qed.

Context (Hscrypt : ∀ x, wf W256 (scrypt x)).

(** The checks of [AcceptBlock] that the checkpoint rests on *)
Lemma contextual_inv now s b : core_ok s → contextual_checks false scrypt now STRICT s b = Some None →
  ns_map s !! blk_GetHash scrypt b = None ∧ ∃ np, ns_map s !! hashPrevBlock b = Some np ∧
  hashSyncCheckpoint (ns_cp s) ∈ path (ns_map s) (hashPrevBlock b).
Proof.
  intros C. unfold contextual_checks. case_bool_decide as Hn; [done|]. apply eq_None_not_Some in Hn. destruct (ns_map s !! hashPrevBlock b) as [np|] eqn:Hp; [|done].
  intros H. apply bind_Some in H as (req & _ & H). repeat (destruct (_ : bool); [done|]). split; [done|]. exists np. split; [done|].
  apply bind_Some in H as (cps & Hc & H). destruct (core_in _ C) as [T Hnc]. destruct (sync_tree _ _ (core_sync _ C)) as [_ K].
  rewrite (CheckSync_iff T K _ _ _ np) in Hc; [|by apply Hscrypt|done..]. injection Hc as <-. destruct (decide (hashSyncCheckpoint (ns_cp s) ∈ path (ns_map s) (hashPrevBlock b))) as [|Hin]; [done|].
  by rewrite (bool_decide_true (STRICT = STRICT)), (bool_decide_false _ Hin) in H.
Qed.

(** The tree with a block added: it is the checkpoint's, or the old chain is *)
Lemma added_ok (ops : BlockFiles → ChainOps) s b fs nFile nPos ok c : ops_ok ops → core_ok s → storable b →
  ns_map s !! blk_GetHash scrypt b = None →
  (∃ np, ns_map s !! hashPrevBlock b = Some np ∧ hashSyncCheckpoint (ns_cp s) ∈ path (ns_map s) (hashPrevBlock b)) →
  WriteToDisk false (ns_files s) b = Some (fs, nFile, nPos) → AddBlock (ChainOps := ops fs) (ns_chain s) b nFile nPos = Some (ok, c) →
  advanced s (with_chain (with_files s fs) c).
Proof.
  intros O C [Hb Hl] Hnew (np & Hp & Hin) HW HA. apply WriteToDisk_stored in HW as [He Hst]; [|done..]. destruct (core_in _ C) as [T [nc Hc]].
  destruct C as [(best & M & Hbest) Hf]. destruct (ops_laws _ O fs) as [_ HL _]. eapply HL in HA as ((best' & M' & Hb') & G & Hold & _); [|exact M|exact Hp].
  assert (T' := mc_tree _ _ _ M'). destruct (G _ _ Hc) as (nc' & Hc' & _). split; [split|split; [done|split; [by eapply (path_self T')|done]]].
  - exists best'. split; [done|]. cbn. destruct Hb' as [->|[_ ->]].
    + destruct M as [_ _ _ _ _ [nb Hnb] _]. by rewrite (path_grow T T' G _ _ Hnb).
    + destruct (mc_in _ _ _ M') as [n' Hn']. destruct (Hold _ _ Hn') as [[x Hx]|(_ & Ep & _)]; [unfold ns_map in Hnew; congruence|].
      rewrite (path_unfold T' _ _ Hn'), Ep. right. by rewrite (path_grow T T' G _ _ Hp).
  - intros h n p Hn Ep. destruct (Hold _ _ Hn) as [[x Hx]|(-> & Ep' & <- & <-)].
    + destruct (G _ _ Hx) as (n' & Hn' & Ei & Epx). unfold ns_map in Hn. cbn in Hn. rewrite Hn in Hn'. injection Hn' as <-. rewrite Ei.
      destruct (Hf h x p Hx) as (b' & Hsb & ?); [congruence|]. exists b'. split; [by eapply stored_extends|done].
    + exists b. split; [done|congruence].
Qed.

Lemma AcceptBlock_advanced ops now fDiskSpace s b ok nDoS s' : ops_ok ops → core_ok s → storable b →
  AcceptBlock ops false scrypt now STRICT fDiskSpace s b = Some (ok, nDoS, s') → advanced s s'.
Proof.
  intros O C Hb. unfold AcceptBlock. intros H. apply bind_Some in H as ([r|] & Hc & H); [injection H as <- <- <-; by apply advanced_refl|].
  apply (contextual_inv _ _ _ C) in Hc as [Hnew Hp]. destruct (negb fDiskSpace); [injection H as <- <- <-; by apply advanced_refl|].
  destruct (WriteToDisk _ _ _) as [[[fs nFile] nPos]|] eqn:HW; [|injection H as <- <- <-; by apply advanced_refl].
  apply bind_Some in H as ([okA c] & HA & H). apply (added_ok ops s b fs nFile nPos okA c O C Hb Hnew Hp HW) in HA. destruct okA; cbn [negb] in H; [|by injection H as <- <- <-].
  apply bind_Some in H as ([[okP c'] cp] & HP & [= <- <- <-]). assert (Hau := HP). apply AcceptPending_authentic in Hau.
  destruct HA as (CA & HA). eapply advanced_trans; [exact C|exact (conj CA HA)|]. apply moved_advanced; [done|done| |done].
  assert (Hop := ops_laws _ O fs). eapply (AcceptPending_ok (OK := Hop)); [apply CA| |exact HP]. eapply stored_headers; [exact O|apply CA].
Qed.

Lemma check_stake_advanced s b ok s' : core_ok s → check_stake false scrypt Verify nMaxCacheSize random_entry s b = Some (ok, s') → advanced s s'.
Proof.
  intros C H. apply check_stake_orphans in H as (_ & Ef & Ec & cache & proofs & Eh). apply moved_advanced; [done..| |by rewrite Ec].
  rewrite Eh, Ec. destruct C as [(best & [T K Hg Hpb Hhb Hin L] & Hbest) _]. split; [done|]. split; [by exists best|].
  destruct Hin as [nb Hb]. destruct (elem_of_path T _ _ _ Hb Hbest) as (nc & Hc & _). by eapply (path_self T).
Qed.

Section node.
Context (ops : BlockFiles → ChainOps) (O : ops_ok ops) (now : Z) (fDiskSpace fInitialDownload : bool).

Lemma try_orphan_advanced s b ok s' : core_ok s → storable b →
  try_orphan ops false scrypt Verify nMaxCacheSize random_entry now STRICT fDiskSpace s b = Some (ok, s') → advanced s s'.
Proof.
  intros C Hb. unfold try_orphan. intros H. apply bind_Some in H as ([ok1 s1] & H & [= <- <-]).
  enough (Hs : advanced s s1) by (destruct Hs as ([? ?] & ?); split; [by split|done]). destruct (blk_IsProofOfStake b).
  - apply bind_Some in H as ([v s2] & Hv & H). apply check_stake_advanced in Hv; [|done]. destruct v; [|by injection H as <- <-].
    apply bind_Some in H as ([[o d] s3] & Ha & [= <- <-]). apply AcceptBlock_advanced in Ha; [|done|apply Hv|done].
    eapply advanced_trans in Ha; [|done..]. destruct Ha as ([? ?] & ?). split; [by split|done].
  - apply bind_Some in H as ([[o d] s3] & Ha & [= <- <-]). by apply AcceptBlock_advanced in Ha.
Qed.

Lemma try_orphans_advanced l : ∀ s acc s', core_ok s → Forall storable l →
  try_orphans ops false scrypt Verify nMaxCacheSize random_entry now STRICT fDiskSpace s l = Some (acc, s') → advanced s s'.
Proof.
  induction l as [|b l IH]; intros s acc s' C Hl; cbn [try_orphans]; [intros [= <- <-]; by apply advanced_refl|].
  apply Forall_cons in Hl as [Hb Hl]. intros H. apply bind_Some in H as ([ok s1] & H1 & H). apply bind_Some in H as ([acc1 s2] & H2 & [= <- <-]).
  apply try_orphan_advanced in H1; [|done..]. apply IH in H2; [|apply H1|done]. by eapply advanced_trans.
Qed.

Lemma work_loop_advanced fuel : ∀ s queue s', node_ok s →
  work_loop ops false scrypt Verify nMaxCacheSize random_entry now STRICT fDiskSpace fuel s queue = Some s' → advanced s s' ∧ lists_ok s'.
Proof.
  induction fuel as [|fuel IH]; intros s [|p queue] s' [C Hl]; cbn [work_loop]; try done.
  1-2: intros [= <-]; split; [by apply advanced_refl|done].
  intros H. apply bind_Some in H as ([acc s1] & HT & H). assert (HE := HT). apply try_orphans_ok in HE as (_ & Ep & _).
  apply try_orphans_advanced in HT; [|done|].
  2: { destruct (mapOrphanBlocksByPrev s !! p) as [l|] eqn:E; [by eapply Hl|constructor]. }
  assert (HT1 : advanced s (with_orphans s1 (mapOrphanBlocks s1) (delete p (mapOrphanBlocksByPrev s1)) (setStakeSeenOrphan s1))).
  { destruct HT as ([? ?] & ?). split; [by split|done]. }
  apply IH in H as [H Hl']; [split; [by eapply advanced_trans|done]|]. split; [apply HT1|]. intros q l. cbn. rewrite Ep. intros [_ Hq]%lookup_delete_Some. by eapply Hl.
Qed.

Lemma ProcessBlock_advanced s b pfrom r : node_ok s → storable (canonical reserialize b) →
  ProcessBlock ops false scrypt Verify nMaxCacheSize random_entry now STRICT fDiskSpace fInitialDownload reserialize s b pfrom = Some r →
  advanced s (pr_state r) ∧ lists_ok (pr_state r).
Proof.
  intros [C Hl] Hb H. apply ProcessBlock_inv in H as [[_ ->]|(_ & Ho & _ & [(Hp & out & Hk)|(_ & valid & s1 & Hv & H)])].
  - split; [by apply advanced_refl|done].
  - unfold keep_orphan in Hk. apply bind_Some in Hk as (dup & _ & H). destruct dup; [injection H as <-; split; [by apply advanced_refl|done]|].
    set (s1 := with_orphans _ _ _ _) in H. assert (Hr : pr_state r = s1).
    { destruct pfrom; [|by injection H as <-]. apply bind_Some in H as (root & _ & H). by apply bind_Some in H as (ask & _ & [= <-]). }
    rewrite Hr. split; [destruct (advanced_refl _ C) as ([? ?] & ?); split; [by split|done]|]. intros p l. cbn. intros [[<- <-]|[_ Hq]]%lookup_insert_Some; [|by eapply Hl].
    apply Forall_app. split; [|by constructor]. destruct (mapOrphanBlocksByPrev s !! _) as [l|] eqn:E; [by eapply Hl|constructor].
  - assert (H1 : advanced s s1 ∧ lists_ok s1).
    { destruct (blk_IsProofOfStake _); [|injection Hv as _ <-; split; [by apply advanced_refl|done]]. assert (Hv' := Hv).
      apply check_stake_advanced in Hv; [|done]. apply check_stake_orphans in Hv' as ([_ E] & _). split; [done|]. unfold lists_ok. by rewrite E. }
    destruct H1 as [A1 L1]. destruct H as [(_ & _ & ->)|(_ & ok & nDoS & s2 & Ha & _ & H)]; [done|]. assert (E := Ha). apply AcceptBlock_orphans in E as [_ E].
    apply AcceptBlock_advanced in Ha; [|done|apply A1|done]. assert (A2 : advanced s s2) by by eapply advanced_trans.
    assert (L2 : lists_ok s2) by (unfold lists_ok; by rewrite E). destruct ok; [|by rewrite H].
    apply work_loop_advanced in H as [A3 L3]; [split; [by eapply advanced_trans|done]|]. split; [apply A2|done].
Qed.
End node.

(** *** What a node does with messages

    Between two messages the time, the disk and the peers may change.  The owner of
    the master key calls [SendSyncCheckpoint] after a block. *)
Inductive node_step (s : NodeState) : NodeState → Prop :=
  | step_block ops now fDiskSpace fInitialDownload b pfrom r : ops_ok ops → storable (canonical reserialize b) →
      ProcessBlock ops false scrypt Verify nMaxCacheSize random_entry now STRICT fDiskSpace fInitialDownload reserialize s b pfrom = Some r →
      node_step s (pr_state r)
  | step_checkpoint ops msg pfrom ok c cp out : ops_ok ops →
      ProcessSyncCheckpoint (ops := ops (ns_files s)) Verify (ns_chain s) (ns_cp s) (mapOrphanBlocks s) msg pfrom = Some (ok, c, cp, out) →
      node_step s (with_cp (with_chain s c) cp)
  | step_send ops Sign masterPrivKey hash ok c cp : ops_ok ops →
      SendSyncCheckpoint (ops := ops (ns_files s)) Verify Sign masterPrivKey (ns_chain s) (ns_cp s) (mapOrphanBlocks s) hash = Some (ok, c, cp) →
      node_step s (with_cp (with_chain s c) cp).

Lemma sync_step ops s msg pfrom ok c cp out : ops_ok ops → core_ok s →
  ProcessSyncCheckpoint (ops := ops (ns_files s)) Verify (ns_chain s) (ns_cp s) (mapOrphanBlocks s) msg pfrom = Some (ok, c, cp, out) →
  advanced s (with_cp (with_chain s c) cp).
Proof.
  intros O C H. assert (Hau := H). apply ProcessSync_authentic in Hau. apply moved_advanced; [done|done| |done]. assert (Hop := ops_laws _ O (ns_files s)).
  eapply (ProcessSync_ok (OK := Hop)) in H as [H _]; [exact H|apply C|]. eapply stored_headers; [exact O|apply C].
Qed.

Lemma node_step_ok s s' : node_ok s → node_step s s' → advanced s s' ∧ lists_ok s'.
Proof.
  intros [C Hl] [ops now fD fI b pfrom r O Hb H|ops msg pfrom ok c cp out O H|ops Sign key hash ok c cp O H].
  - by eapply ProcessBlock_advanced.
  - split; [by eapply sync_step|done].
  - split; [|done]. unfold SendSyncCheckpoint in H. case_bool_decide; [injection H as _ <- <-; destruct s; by apply advanced_refl|].
    destruct (Sign _ _) as [sig|]; [|injection H as _ <- <-; destruct s; by apply advanced_refl].
    apply bind_Some in H as ([[[ok' c'] cp'] out] & H & [= _ <- <-]). by eapply sync_step.
Qed.
End safety.

(** The node over its block files *)
Definition node_ops {BN : OpenSSL_BN} {DG : Digests} net scrypt Verify nMaxCacheSize random_entry now cpTime estimate rate_limited fThreads g
    (fs : BlockFiles) : ChainOps :=
  chain_ops net scrypt Verify nMaxCacheSize random_entry now cpTime estimate rate_limited fThreads (read_tx_at fs) (read_time_at fs) (read_block_at fs) g.
Lemma node_ops_ok {BN : OpenSSL_BN} {DG : Digests} net scrypt Verify nMaxCacheSize random_entry now cpTime estimate rate_limited fThreads g :
  (∀ x, wf W256 (scrypt x)) →
  ops_ok scrypt g (node_ops net scrypt Verify nMaxCacheSize random_entry now cpTime estimate rate_limited fThreads g).
Proof.
  intros Hs. split; [intros fs; by apply chain_ops_ok|]. intros fs h n b H. cbn in H. unfold read_block in H.
  apply bind_Some in H as (b' & -> & H). destruct (_ && _); [done|]. destruct (bu_ne _ _); [done|]. exact H.
Qed.

(** ** Properties *)

(** C8. Orphans.  The maps of orphan blocks stay consistent: each block is filed
    under its hash and listed under its parent, and nowhere else.  A block
    without a known parent is added to them.  When a block with a known parent is
    accepted, there is a run of verdicts that starts with its own: each is that of
    the stake check and of [AcceptBlock] in the state the one before left, and the
    state after the last is the node's.  The blocks tried are the orphans whose
    parent was accepted earlier in the run, each once; every orphan with a parent
    accepted in the run is tried, and those kept are exactly the others.  A refusal
    leaves the maps alone, and the loop ends within its bound. *)
Theorem ProcessBlock_orphans {BN : OpenSSL_BN} {DG : Digests} (ops : BlockFiles → ChainOps) net scrypt Verify nMaxCacheSize random_entry now mode
    fDiskSpace fInitialDownload reserialize s b pfrom r :
  orphans_ok scrypt s →
  ProcessBlock ops net scrypt Verify nMaxCacheSize random_entry now mode fDiskSpace fInitialDownload reserialize s b pfrom = Some r →
  let b := canonical reserialize b in
  orphans_ok scrypt (pr_state r) ∧
  (if pr_ok r then
     if bool_decide (ns_map s !! hashPrevBlock b = None)
     then mapOrphanBlocks (pr_state r) = <[blk_GetHash scrypt b := b]> (mapOrphanBlocks s)
     else ∃ orphans : list (CBlock * bool), let trace := (b, true) :: orphans in
       attempts ops net scrypt Verify nMaxCacheSize random_entry now mode fDiskSpace s trace (pr_state r) ∧
       NoDup (map (blk_GetHash scrypt) orphans.*1) ∧
       (∀ pre o ok post, orphans = pre ++ (o, ok) :: post → hashPrevBlock o ∈ accepted_in scrypt ((b, true) :: pre)) ∧
       (∀ o, o ∈ orphans.*1 ↔ mapOrphanBlocks s !! blk_GetHash scrypt o = Some o ∧ hashPrevBlock o ∈ accepted_in scrypt trace) ∧
       (∀ h o, mapOrphanBlocks (pr_state r) !! h = Some o ↔ mapOrphanBlocks s !! h = Some o ∧ hashPrevBlock o ∉ accepted_in scrypt trace)
   else mapOrphanBlocks (pr_state r) = mapOrphanBlocks s) ∧
  ∀ s2 more, orphans_ok scrypt s2 →
    work_loop ops net scrypt Verify nMaxCacheSize random_entry now mode fDiskSpace (S (size (mapOrphanBlocks s2)) + more) s2 [blk_GetHash scrypt b] =
    work_loop ops net scrypt Verify nMaxCacheSize random_entry now mode fDiskSpace (S (size (mapOrphanBlocks s2))) s2 [blk_GetHash scrypt b].
Proof.
  intros Hs H b'. apply Logic.and_assoc. split; [|intros s2 more Hs2; apply work_loop_fuel; [done|reflexivity]].
  apply ProcessBlock_inv in H as [[-> ->]|(_ & Ho & _ & [(Hp & out & Hk)|((np & Hp) & valid & s1 & Hv & H)])]; [done|..]; fold b' in Ho, Hp.
  { rewrite (bool_decide_true _ Hp). apply keep_orphan_ok in Hk as (? & _ & _ & _ & E); [|done..]. by destruct (pr_ok r). }
  rewrite bool_decide_false by by rewrite Hp. fold b' in Hv.
  assert (Hs1 : same_orphans s s1). { destruct (blk_IsProofOfStake b'); [by apply check_stake_orphans in Hv as [? _]|by injection Hv as <- <-]. }
  destruct H as [(-> & -> & ->)|(-> & ok & nDoS & s2 & Ha & -> & H)].
  { split; [by eapply orphans_ok_same|by destruct Hs1]. }
  fold b' in Ha, H. assert (Hs2 : same_orphans s1 s2) by by eapply AcceptBlock_orphans. destruct Hs1 as [E1 E1'], Hs2 as [E2 E2'].
  assert (Ho2 : orphans_ok scrypt s2) by (eapply (orphans_ok_same _ s); [split; congruence|done]).
  destruct ok; [|rewrite H; split; [done|congruence]]. eapply work_loop_ok in H as (Ho' & orphans & [T1 T2 T3 T4 T5]); [|exact Ho2].
  split; [done|]. exists orphans. rewrite <- E1, <- E2. split; [|exact (conj T2 (conj T3 (conj T4 T5)))].
  eapply (attempts_cons _ _ _ _ _ _ _ _ _ _ s); [done| |exact T1]. unfold verdict. destruct (blk_IsProofOfStake b'); [exists true, s1; eauto|]. injection Hv as <-. eauto.
Qed.

(** C7. The synchronised checkpoint.  On the main network with checkpoints
    enforced, take any sequence of blocks and checkpoint messages, received or
    sent by the owner of the master key, whatever their order, with orphans and
    reorganisations in between.  The checkpoint is a block of the best chain at
    every moment: the node never leaves it.  It only moves to descendants of the
    one it started with, no block is lost from the tree, and a checkpoint other
    than the first is one the master key signed or a hardened one, provided the
    pending checkpoint at the start is none, or one of these; what
    [ResetSyncCheckpoint] makes pending at start-up is. *)
Theorem checkpoint_on_best_chain {BN : OpenSSL_BN} {DG : Digests} scrypt g Verify nMaxCacheSize random_entry reserialize s s' :
  (∀ x, wf W256 (scrypt x)) → node_ok g s → pending_ok Verify (ns_cp s) →
  rtc (node_step scrypt g Verify nMaxCacheSize random_entry reserialize) s s' →
  (∃ best, pindexBest (ns_chain s') = Some best ∧ hashSyncCheckpoint (ns_cp s') ∈ path (ns_map s') best) ∧
  hashSyncCheckpoint (ns_cp s) ∈ path (ns_map s') (hashSyncCheckpoint (ns_cp s')) ∧
  grows (ns_map s) (ns_map s') ∧
  (hashSyncCheckpoint (ns_cp s') = hashSyncCheckpoint (ns_cp s) ∨ authorised Verify (hashSyncCheckpoint (ns_cp s'))).
Proof.
  intros Hs Hn Hp Hr. enough (A : advanced g Verify s s').
  { destruct A as ([(best & M & Hin) _] & G & P & A). split; [exists best; split; [apply M|done]|]. split; [done|]. split; [done|]. by apply A. }
  induction Hr as [s|s s1 s' Hstep _ IH]; [by apply advanced_refl, Hn|]. apply (node_step_ok _ _ _ _ _ _ Hs) in Hstep as [A L]; [|done].
  eapply advanced_trans; [apply Hn|exact A|]. apply IH; [by split; [apply A|]|]. by apply A.
Qed.

(** ** A run of a node

    A tree with a first block only.  Block 3 comes before its parent 2 and waits;
    with block 2 both are accepted, and a message makes block 2 the checkpoint. *)

Definition node_block (k prev height : Z) : CBlock :=
  let time := 1400000000 + 60 * k in
  let coinbase := mkTx 1 time [mkTxIn (mkOutPoint (bu_of_u64 W256 0) UINT_MAX) (push_int64 [] height ++ [81]) 0] [mkTxOut 5000 [81]] 0 in
  mkBlock 6 (bu_of_u64 W256 prev) (BuildMerkleTree (DG := prefix_digests) [coinbase]).2 time 0x1e0fffff k [coinbase] [].
Definition first_node : Node :=
  mkNode (mkIndex 1 8 0 BLOCK_STAKE_MODIFIER (bu_of_u64 W256 1) 6 1400000060 0x1e0fffff) None None 0 0 0 0
    (mkOutPoint (bu_of_u64 W256 0) UINT_MAX) 0 (bu_of_u64 W256 0) (hashMerkleRoot (node_block 1 0 0)) 1.
Definition first_tree : BlockMap := {[sample_hash 1 := first_node]}.
Lemma first_tree_at h n : first_tree !! h = Some n → h = sample_hash 1 ∧ n = first_node.
Proof. unfold first_tree. by intros [<- <-]%lookup_singleton_Some. Qed.
Definition start_node : NodeState :=
  mkNodeState
    (mkChainState first_tree (Some (sample_hash 1)) (Some (sample_hash 1)) (sample_hash 1) 0 (bu_of_u64 W256 1) (bu_of_u64 W256 0)
       ∅ ∅ ∅ (sample_hash 1) (mkPool ∅ ∅ 0) ∅)
    (mkFiles ∅ 1) (mkCheckpointState (sample_hash 1) uint256_0 CSyncCheckpoint_SetNull CSyncCheckpoint_SetNull uint256_0 (sample_hash 1)) ∅ ∅ ∅.
Definition node_verify (pubkey : list Z) (hash : base_uint) (sig : list Z) : bool := bool_decide (sig = [1]).
Definition sample_ops : BlockFiles → ChainOps :=
  node_ops (DG := prefix_digests) false nonce_hash node_verify 1 first_entry 1400001000 0 0 false false (sample_hash 1).
Abbreviation sample_process s b :=
  (ProcessBlock (DG := prefix_digests) sample_ops false nonce_hash node_verify 1 first_entry 1400001000 STRICT true false (λ _, None) s b true).
Definition process_state (s : NodeState) (b : CBlock) : NodeState := match sample_process s b with Some r => pr_state r | None => s end.
Definition node1 : NodeState := process_state start_node (node_block 3 2 2).
Definition node_asks : list NetMsg := [MsgGetBlocks (Some (sample_hash 1)) (sample_hash 3); MsgAskFor (sample_hash 2)].
Definition node2 : NodeState := process_state node1 (node_block 2 1 1).
Definition node_message : CSyncCheckpoint := mkSyncCheckpoint 1 uint256_0 (ser_unsigned (mkSyncCheckpoint 1 (sample_hash 2) [] [])) [1].
Definition sample_message : option (bool * ChainState * CheckpointState * list NetMsg) :=
  ProcessSyncCheckpoint (DG := prefix_digests) (ops := sample_ops (ns_files node2)) node_verify (ns_chain node2) (ns_cp node2) (mapOrphanBlocks node2)
    node_message true.
Definition node3 : NodeState := match sample_message with Some (_, c, cp, _) => with_cp (with_chain node2 c) cp | None => node2 end.

Lemma start_orphans : orphans_ok nonce_hash start_node.
Proof. split; intros ? ?; cbn; by rewrite lookup_empty. Qed.
Lemma node_run : sample_process start_node (node_block 3 2 2) = Some (mkResult true 0 0 node_asks node1) ∧
  sample_process node1 (node_block 2 1 1) = Some (mkResult true 0 0 [] node2).
Proof. split; vm_compute; reflexivity. Qed.

Lemma ProcessBlock_orphans_witness : orphans_ok nonce_hash node2 ∧
  mapOrphanBlocks node2 !! sample_hash 3 = None ∧
  ∃ orphans : list (CBlock * bool), (node_block 3 2 2) ∈ orphans.*1 ∧
    attempts (DG := prefix_digests) sample_ops false nonce_hash node_verify 1 first_entry 1400001000 STRICT true node1
      ((node_block 2 1 1, true) :: orphans) node2.
Proof.
  destruct node_run as [R1 R2].
  destruct (ProcessBlock_orphans (DG := prefix_digests) sample_ops false nonce_hash node_verify 1 first_entry 1400001000 STRICT true false (λ _, None)
    start_node (node_block 3 2 2) true _ start_orphans R1) as [H1 _].
  destruct (ProcessBlock_orphans (DG := prefix_digests) sample_ops false nonce_hash node_verify 1 first_entry 1400001000 STRICT true false (λ _, None)
    node1 (node_block 2 1 1) true _ H1 R2) as (H2 & H3 & _).
  split; [exact H2|]. cbn [pr_ok pr_state] in H3. rewrite bool_decide_false in H3 by by vm_compute.
  destruct H3 as (orphans & Ha & _ & _ & Hall & _). split; [vm_compute; reflexivity|]. exists orphans. split; [|exact Ha].
  apply Hall. split; [vm_compute; reflexivity|]. left.
Defined.

Lemma start_ok : node_ok (sample_hash 1) start_node.
Proof.
  split; [split|].
  - exists (sample_hash 1). split.
    + split; [apply tree_okb_ok; vm_compute; reflexivity|apply keys_wfb_ok; vm_compute; reflexivity|done|done|done|vm_compute; eauto|].
      intros h c. unfold next_of. destruct (mapBlockIndex (ns_chain start_node) !! h) as [n|] eqn:E; [|done].
      by apply first_tree_at in E as [_ ->].
    + vm_compute. left.
  - intros h n p Hn Ep. by apply first_tree_at in Hn as [_ ->].
  - intros p l H. cbn in H. by rewrite lookup_empty in H.
Qed.

Lemma node3_eq : node3 = with_cp (with_chain node2 (ns_chain node3)) (ns_cp node3).
Proof. vm_compute. reflexivity. Qed.
Lemma node_message_run : sample_message = Some (true, ns_chain node3, ns_cp node3, []).
Proof. vm_compute. reflexivity. Qed.

Lemma checkpoint_on_best_chain_witness :
  (∃ best, pindexBest (ns_chain node3) = Some best ∧ hashSyncCheckpoint (ns_cp node3) ∈ path (ns_map node3) best) ∧
  hashSyncCheckpoint (ns_cp node3) = sample_hash 2 ∧ sample_hash 1 ∈ path (ns_map node3) (sample_hash 2).
Proof.
  destruct (checkpoint_on_best_chain (DG := prefix_digests) nonce_hash (sample_hash 1) node_verify 1 first_entry (λ _, None) start_node node3)
    as (H1 & H2 & _).
  - exact nonce_hash_wf.
  - exact start_ok.
  - left. reflexivity.
  - destruct node_run as [R1 R2].
    assert (O : ops_ok nonce_hash (sample_hash 1) sample_ops) by (apply (node_ops_ok (DG := prefix_digests)), nonce_hash_wf).
    eapply rtc_l; [eapply (step_block (DG := prefix_digests)); [exact O| |exact R1]|].
    { split; [apply block_okb_ok; vm_compute; reflexivity|by vm_compute]. }
    eapply rtc_l; [eapply (step_block (DG := prefix_digests)); [exact O| |exact R2]|].
    { split; [apply block_okb_ok; vm_compute; reflexivity|by vm_compute]. }
    rewrite node3_eq. apply rtc_once, (step_checkpoint (DG := prefix_digests) _ _ _ _ _ _ node2 sample_ops node_message true true _ _ []); [exact O|].
    exact node_message_run.
  - split; [exact H1|]. split; [vm_compute; reflexivity|exact H2].
Defined.
