(* ===== verification/Key.v ===== *)
(** * Keys (src/key.cpp, src/key.h)

    Public and private keys, DER and compact signatures, and malleable key pairs,
    whose owner recognises one-time keys made for him.  The curve, ECDSA and the DER
    reader are OpenSSL's: a class of operations on points, with the group laws and
    the documented behaviour as a second class.  [BIGNUM]s are integers here
    ([Z_BN]). *)

From stdpp Require Import base list numbers option.
From Stdlib Require Import ZArith Lia Zdivisibility.
From S2P Require Import Prelude Uint256 Bignum Serialize Tx Script Interp SigCheck Base58.

Open Scope Z_scope.

(** ** OpenSSL *)

(** The group of the curve with its generator, order, field and affine abscissae;
    the points of a given abscissa and parity; the octet forms (compressed or not) of
    a point; whether a key object takes a private key; ECDSA and the DER form of its
    signatures *)
Class OpenSSL_EC := {
  EC_POINT : Type;
  EC_POINT_cmp :: EqDecision EC_POINT;
  EC_infinity : EC_POINT;
  EC_generator : EC_POINT;
  EC_add : EC_POINT → EC_POINT → EC_POINT;
  EC_scale : Z → EC_POINT → EC_POINT;
  EC_order : Z;
  EC_field : Z;
  EC_degree : Z;
  EC_x : EC_POINT → Z;
  EC_set_compressed : Z → Z → option EC_POINT;
  EC_point2oct : EC_POINT → bool → list Z;
  EC_oct2point : list Z → option EC_POINT;
  EC_KEY_set_private_key : Z → bool;
  EC_KEY_check_key : Z → EC_POINT → bool;
  ECDSA_do_sign : Z → list Z → option (Z * Z);
  ECDSA_verify : EC_POINT → list Z → list Z → bool;
  i2d_ECDSA_SIG : Z * Z → list Z;
  d2i_ECDSA_SIG : list Z → option (Z * Z);
  BN_mod_inverse : Z → Z → option Z
}.

(** The equation a signature [(r, s)] of the number [e] satisfies for a public key *)
Definition ecdsa `{OpenSSL_EC} (Q : EC_POINT) (e r s : Z) : Prop :=
  0 < r < EC_order ∧ 0 < s < EC_order ∧
  ∃ w, (w * s) mod EC_order = 1 ∧
    let X := EC_add (EC_scale (e * w) EC_generator) (EC_scale (r * w) Q) in
    X ≠ EC_infinity ∧ EC_x X mod EC_order = r.

Class OpenSSL_EC_ok (C : OpenSSL_EC) : Prop := {
  EC_order_prime : Z.prime EC_order;
  EC_order_odd : 2 < EC_order <= be_val vchMaxModOrder + 1;
  EC_field_size : EC_field < 2 * EC_order;
  EC_degree_256 : EC_degree = 256;
  EC_add_comm P Q : EC_add P Q = EC_add Q P;
  EC_add_assoc P Q R : EC_add P (EC_add Q R) = EC_add (EC_add P Q) R;
  EC_add_0 P : EC_add EC_infinity P = P;
  EC_scale_1 P : EC_scale 1 P = P;
  EC_scale_plus a b P : EC_scale (a + b) P = EC_add (EC_scale a P) (EC_scale b P);
  EC_scale_mul a b P : EC_scale (a * b) P = EC_scale a (EC_scale b P);
  EC_scale_point a P Q : EC_scale a (EC_add P Q) = EC_add (EC_scale a P) (EC_scale a Q);
  EC_scale_order P : EC_scale EC_order P = EC_infinity;
  EC_generator_order k : EC_scale k EC_generator = EC_infinity → k mod EC_order = 0;
  EC_x_range P : P ≠ EC_infinity → 0 <= EC_x P < EC_field;
  EC_x_opp P : EC_x (EC_scale (-1) P) = EC_x P;
  EC_set_compressed_x x y P : EC_set_compressed x y = Some P → P ≠ EC_infinity ∧ EC_x P = x;
  EC_set_compressed_all P : P ≠ EC_infinity → ∃ y, 0 <= y <= 1 ∧ EC_set_compressed (EC_x P) y = Some P;
  EC_point2oct_form P c : P ≠ EC_infinity → ∃ b t, EC_point2oct P c = b :: t ∧
    digits_ok 256 t ∧ if c then (b = 2 ∨ b = 3) ∧ length t = 32%nat else b = 4 ∧ length t = 64%nat;
  EC_oct2point_oct P c : P ≠ EC_infinity → EC_oct2point (EC_point2oct P c) = Some P;
  ECDSA_sign_law d m : d mod EC_order ≠ 0 → length m = 32%nat → digits_ok 256 m →
    ∃ r s, ECDSA_do_sign d m = Some (r, s) ∧ ecdsa (EC_scale d EC_generator) (be_val m) r s;
  ECDSA_verify_law Q m r s : length m = 32%nat → digits_ok 256 m → 0 < r < EC_order → 0 < s < EC_order →
    ECDSA_verify Q m (i2d_ECDSA_SIG (r, s)) = true ↔ ecdsa Q (be_val m) r s;
  i2d_law r s : 0 < r < EC_order → 0 < s < EC_order → i2d_ECDSA_SIG (r, s) = der_sig (mpi_body r) (mpi_body s) [];
  d2i_law r s : 0 < r < EC_order → 0 < s < EC_order → d2i_ECDSA_SIG (i2d_ECDSA_SIG (r, s)) = Some (r, s);
  BN_mod_inverse_law a n : 1 < n → Z.gcd a n = 1 → ∃ x, BN_mod_inverse a n = Some x ∧ (a * x) mod n = 1
}.

(** ** Public keys *)

Section PubKey.
Context {DG : Digests} {C : OpenSSL_EC}.

Definition pubkey_GetID (pubkey : list Z) : base_uint := Hash160 pubkey.
Definition pubkey_GetHash (pubkey : list Z) : base_uint := Hash pubkey.
Definition pubkey_IsCompressed (pubkey : list Z) : bool := CPubKey_size pubkey =? 33.
Definition pubkey_IsFullyValid (pubkey : list Z) : bool := bool_decide (is_Some (EC_oct2point pubkey)).

Definition pubkey_Verify (pubkey : list Z) (hash : base_uint) (vchSig : list Z) : bool :=
  if bool_decide (vchSig = []) || negb (CPubKey_IsValid pubkey) then false
  else
    match EC_oct2point pubkey with
    | None => false
    | Some pkey =>
        match d2i_ECDSA_SIG vchSig with
        | None => false
        | Some norm_sig => ECDSA_verify pkey (getBytes hash) (i2d_ECDSA_SIG norm_sig)
        end
    end.
(** The verdict and [vchSig] *)
Definition ReserealizeSignature (vchSig : list Z) : bool * list Z :=
  if bool_decide (vchSig = []) then (false, vchSig)
  else
    match d2i_ECDSA_SIG vchSig with
    | None => (false, vchSig)
    | Some sig => if (0 <? length (i2d_ECDSA_SIG sig))%nat then (true, i2d_ECDSA_SIG sig) else (false, vchSig)
    end.

(** SEC1 4.1.6; [None] stands for the results other than 1 *)
Definition ECDSA_SIG_recover_key_GFp (ecsig : Z * Z) (msg : list Z) (recid : Z) (check : bool) : option EC_POINT :=
  let '(ecsig_r, ecsig_s) := ecsig in
  let i := Z.quot recid 2 in
  let x := EC_order * i + ecsig_r in
  if x >=? EC_field then None
  else
    R ← EC_set_compressed x (Z.rem recid 2);
    if check && negb (bool_decide (EC_scale EC_order R = EC_infinity)) then None
    else
      let e := be_val msg in
      let msglen := Z.of_nat (length msg) in
      let e := if 8 * msglen >? EC_degree then Z.shiftr e (8 - Z.land EC_degree 7) else e in
      let e := (0 - e) mod EC_order in
      rr ← BN_mod_inverse ecsig_r EC_order;
      let sor := (ecsig_s * rr) mod EC_order in
      let eor := (e * rr) mod EC_order in
      Some (EC_add (EC_scale eor EC_generator) (EC_scale sor R)).

(** The verdict and the key, [[]] when invalid *)
Definition SetCompactSignature (pubkey : list Z) (hash : base_uint) (vchSig : list Z) : bool * list Z :=
  if negb (length vchSig =? 65)%nat then (false, pubkey)
  else
    let nV := nth 0 vchSig 0 in
    if (nV <? 27) || (nV >=? 35) then (false, pubkey)
    else
      let sig := (be_val (take 32 (drop 1 vchSig)), be_val (take 32 (drop 33 vchSig))) in
      let '(nV, fCompressed) := if nV >=? 31 then (nV - 4, true) else (nV, false) in
      match ECDSA_SIG_recover_key_GFp sig (getBytes hash) (nV - 27) false with
      | None => (false, [])
      | Some pkey =>
          let pubkey := CPubKey_Set (EC_point2oct pkey fCompressed) in
          if CPubKey_IsValid pubkey then (true, pubkey) else (false, [])
      end.
Definition VerifyCompact (hash : base_uint) (vchSig : list Z) : bool := (SetCompactSignature [] hash vchSig).1.
End PubKey.

(** ** Private keys *)

(** A key that is set: the secret and the form of its public key *)
Record CKey := mkKey { key_secret : list Z; key_compressed : bool }.
#[export] Instance CKey_eq_dec : EqDecision CKey.
Proof. solve_decision. Defined.

Section Key.
Context {DG : Digests} {C : OpenSSL_EC}.

Definition EC_regenerate (vchSecret : list Z) : bool := EC_KEY_set_private_key (be_val vchSecret).
(** The public key of the key object *)
Definition key_point (k : CKey) : EC_POINT := EC_scale (be_val (key_secret k)) EC_generator.

(** [None] is an exception *)
Definition key_SetSecret (vchSecret : list Z) (fCompressed : bool) : option CKey :=
  if negb (length vchSecret =? 32)%nat then None
  else if negb (EC_regenerate vchSecret) then None
  else Some (mkKey vchSecret fCompressed).
Definition SetCompressedPubKey (k : CKey) (fCompressed : bool) : CKey := mkKey (key_secret k) fCompressed.
Definition key_GetSecret (k : CKey) : list Z * bool := (key_secret k, key_compressed k).
Definition key_GetPubKey (k : CKey) : list Z := CPubKey_Set (EC_point2oct (key_point k) (key_compressed k)).
Definition key_IsValid (k : CKey) : option bool :=
  if negb (EC_KEY_check_key (be_val (key_secret k)) (key_point k)) then Some false
  else
    let '(secret, fCompr) := key_GetSecret k in
    key2 ← key_SetSecret secret fCompr; Some (bool_decide (key_GetPubKey k = key_GetPubKey key2)).

(** "enforce low S values, by negating the value (modulo the order) if above order/2" *)
Definition low_s (sig : Z * Z) : Z * Z :=
  let '(r, s) := sig in
  let halforder := Z.shiftr EC_order 1 in
  if s >? halforder then (r, EC_order - s) else (r, s).
Definition key_Sign (k : CKey) (hash : base_uint) : option (list Z) :=
  match ECDSA_do_sign (be_val (key_secret k)) (getBytes hash) with
  | None => None
  | Some sig =>
      let vchSig := i2d_ECDSA_SIG (low_s sig) in
      if negb (ECDSA_verify (key_point k) (getBytes hash) vchSig) then None else Some vchSig
  end.

(** [BN_bn2bin] into the last bytes of 32 *)
Definition be_pad (v : Z) : list Z := replicate (32 - length (be_mag v)) 0 ++ be_mag v.
(** The first of the four candidates that gives back the key *)
Definition find_recid (k : CKey) (sig : Z * Z) (hash : base_uint) : option Z :=
  List.find (λ i,
    match ECDSA_SIG_recover_key_GFp sig (getBytes hash) i true with
    | Some Q => bool_decide (CPubKey_Set (EC_point2oct Q (key_compressed k)) = key_GetPubKey k)
    | None => false
    end) [0; 1; 2; 3].
(** The verdict and [vchSig]; [None] is an exception *)
Definition SignCompact (k : CKey) (hash : base_uint) (vchSig : list Z) : option (bool * list Z) :=
  match ECDSA_do_sign (be_val (key_secret k)) (getBytes hash) with
  | None => Some (false, vchSig)
  | Some sig =>
      let '(r, s) := low_s sig in
      let nBitsR := Z.log2_up (r + 1) in
      let nBitsS := Z.log2_up (s + 1) in
      if (nBitsR <=? 256) && (nBitsS <=? 256) then
        nRecId ← find_recid k (r, s) hash;
        Some (true, (nRecId + 27 + (if key_compressed k then 4 else 0)) :: be_pad r ++ be_pad s)
      else Some (false, replicate 65 0)
  end.
End Key.

(** ** Malleable keys

    Scalars of the curve operations are [CBigNum]s. *)

Record CMalleablePubKey := mkMPK { pubKeyL : list Z; pubKeyH : list Z }.
Record CMalleableKey := mkMK { mk_SecretL : list Z; mk_SecretH : list Z }.
Record CMalleableKeyView := mkMKV { mkv_SecretL : list Z; mkv_PubKeyH : list Z }.

Section Malleable.
Context {DG : Digests} {C : OpenSSL_EC}.

(** [CPoint] *)
Definition pt_setPubKey (key : list Z) : option EC_POINT := EC_oct2point key.
Definition pt_getBytes (p : EC_POINT) : list Z := EC_point2oct p true.
Definition ECMUL (p : EC_POINT) (bnMultiplier : Z) : EC_POINT := EC_scale bnMultiplier p.
Definition ECMULGEN (bnMultiplier : Z) (qPoint : EC_POINT) : EC_POINT := EC_add (EC_scale bnMultiplier EC_generator) (EC_scale 1 qPoint).
Definition pt_IsInfinity (p : EC_POINT) : bool := bool_decide (p = EC_infinity).

Definition mpk_IsValid (m : CMalleablePubKey) : bool := CPubKey_IsValid (pubKeyL m) && CPubKey_IsValid (pubKeyH m).
Definition mpk_GetID (m : CMalleablePubKey) : base_uint := pubkey_GetID (pubKeyL m).
Definition mpk_eq (a b : CMalleablePubKey) : bool := bool_decide (pubKeyL a = pubKeyL b) && bool_decide (pubKeyH a = pubKeyH b).

(** [bnHash.setuint160(Hash160(vch))] *)
Definition hash_scalar (vch : list Z) : Z := setuint160 (Hash160 vch).
(** [GetVariant] with the random key [r]: [R] and the one-time key; [None] is an
    exception.  A point that was not set is at infinity. *)
Definition mpk_GetVariant (m : CMalleablePubKey) (r : Z) : option (list Z * list Z) :=
  let R := CPubKey_Set (EC_point2oct (EC_scale r EC_generator) true) in
  point ← pt_setPubKey (pubKeyL m);
  let vchLr := pt_getBytes (ECMUL point r) in
  let bnHash := hash_scalar vchLr in
  let pointH := default EC_infinity (pt_setPubKey (pubKeyH m)) in
  let P := ECMULGEN bnHash pointH in
  if pt_IsInfinity P then None else Some (R, CPubKey_Set (pt_getBytes P)).

Definition mk_IsNull (m : CMalleableKey) : bool := negb (length (mk_SecretL m) =? 32)%nat || negb (length (mk_SecretH m) =? 32)%nat.
(** The verdict and the key, which was [Reset]; [None] is an exception *)
Definition mk_SetSecrets (L H : list Z) : option (bool * CMalleableKey) :=
  keyL ← key_SetSecret L true; keyH ← key_SetSecret H true;
  okL ← key_IsValid keyL;
  okH ← (if okL : bool then key_IsValid keyH else Some false);
  Some (if okL && okH then (true, mkMK L H) else (false, mkMK [] [])).
(** From the secrets of two new keys *)
Definition mk_MakeNewKeys (keyL keyH : CKey) : CMalleableKey := mkMK (key_secret keyL) (key_secret keyH).
Definition mk_GetMalleablePubKey (m : CMalleableKey) : option CMalleablePubKey :=
  L ← key_SetSecret (mk_SecretL m) true; H ← key_SetSecret (mk_SecretH m) true;
  Some (mkMPK (key_GetPubKey L) (key_GetPubKey H)).
Definition mk_IsValid (m : CMalleableKey) : option bool :=
  if mk_IsNull m then Some false else mpk ← mk_GetMalleablePubKey m; Some (mpk_IsValid mpk).

(** The steps the three [CheckKeyVariant] share: [Hash(R*l)] when the one-time key
    belongs to the pair; the outer [None] is an exception of [CKey H(vchSecretH)] *)
Definition check_variant (vchSecretL : list Z) (vchPubKeyH : option (list Z)) (R vchPubKeyVariant : list Z) : option (option Z) :=
  if negb (CPubKey_IsValid R) then Some None
  else if negb (CPubKey_IsValid vchPubKeyVariant) then Some None
  else
    match pt_setPubKey R with None => Some None | Some point_R =>
    vchPubKeyH ← vchPubKeyH;
    match pt_setPubKey vchPubKeyH with None => Some None | Some point_H =>
    match pt_setPubKey vchPubKeyVariant with None => Some None | Some point_P =>
    if pt_IsInfinity point_P then Some None
    else
      let bnl := setBytes vchSecretL in
      let vchRl := pt_getBytes (ECMUL point_R bnl) in
      let bnHash := hash_scalar vchRl in
      let point_Ps := ECMULGEN bnHash point_H in
      if pt_IsInfinity point_Ps then Some None
      else if negb (bool_decide (point_Ps = point_P)) then Some None
      else Some (Some bnHash)
    end end end.
(** [CMalleableKey::CheckKeyVariant]; [None] is an exception *)
Definition mk_CheckKeyVariant (m : CMalleableKey) (R vchPubKeyVariant : list Z) : option bool :=
  if mk_IsNull m then None
  else
    r ← check_variant (mk_SecretL m) (key_GetPubKey <$> key_SetSecret (mk_SecretH m) true) R vchPubKeyVariant;
    Some (bool_decide (is_Some r)).
(** The same with the private key: the verdict and [privKeyVariant] when it was set *)
Definition mk_PrivKeyVariant (m : CMalleableKey) (R vchPubKeyVariant : list Z) : option (bool * option CKey) :=
  if mk_IsNull m then None
  else
    r ← check_variant (mk_SecretL m) (key_GetPubKey <$> key_SetSecret (mk_SecretH m) true) R vchPubKeyVariant;
    match r with
    | None => Some (false, None)
    | Some bnHash =>
        let bnh := setBytes (BN := Z_BN) (mk_SecretH m) in
        let bnp := bn_add (BN := Z_BN) bnHash bnh in
        let vchp := getBytes_bn bnp in
        k ← key_SetSecret vchp true; Some (true, Some k)
    end.

(** [CMalleableKeyView] *)
Definition mkv_of_key (b : CMalleableKey) : option CMalleableKeyView :=
  if negb (length (mk_SecretL b) =? 32)%nat then None
  else if negb (length (mk_SecretH b) =? 32)%nat then None
  else H ← key_SetSecret (mk_SecretH b) true; Some (mkMKV (mk_SecretL b) (key_GetPubKey H)).
Definition mkv_GetMalleablePubKey (v : CMalleableKeyView) : option CMalleablePubKey :=
  keyL ← key_SetSecret (mkv_SecretL v) true; Some (mkMPK (key_GetPubKey keyL) (mkv_PubKeyH v)).
Definition mkv_GetID (v : CMalleableKeyView) : option base_uint := mpk ← mkv_GetMalleablePubKey v; Some (mpk_GetID mpk).
Definition mkv_IsValid (v : CMalleableKeyView) : option bool :=
  if negb (length (mkv_SecretL v) =? 32)%nat then Some false else mpk ← mkv_GetMalleablePubKey v; Some (mpk_IsValid mpk).
Definition mkv_CheckKeyVariant (v : CMalleableKeyView) (R vchPubKeyVariant : list Z) : option bool :=
  ok ← mkv_IsValid v;
  if negb (ok : bool) then None
  else r ← check_variant (mkv_SecretL v) (Some (mkv_PubKeyH v)) R vchPubKeyVariant; Some (bool_decide (is_Some r)).
(** The constructor ignores the verdict of [SetSecrets] *)
Definition mkv_GetMalleableKey (v : CMalleableKeyView) (vchSecretH : list Z) : option CMalleableKey :=
  '(_, m) ← mk_SetSecrets (mkv_SecretL v) vchSecretH; Some m.
Definition mkv_lt (v w : CMalleableKeyView) : bool := bu_lt (pubkey_GetID (mkv_PubKeyH v)) (pubkey_GetID (mkv_PubKeyH w)).
End Malleable.

(** ** Serialized keys

    [Unserialize] fills the array of 65 bytes behind the key, of which the first
    byte tells how many count. *)

Section KeyText.
Context {DG : Digests}.

Definition pubkey_Serialize (pubkey : list Z) : list Z := WriteCompactSize (CPubKey_size pubkey) ++ pubkey.
Definition pubkey_of (vbytes : list Z) : list Z := take (Z.to_nat (CPubKey_size vbytes)) vbytes.
(** The array and the bytes left; [None] is an exception *)
Definition pubkey_Unserialize (vbytes : list Z) (s : list Z) : option (list Z * list Z) :=
  '(len, s) ← ReadCompactSize s;
  if len <=? 65 then
    '(bytes, s) ← read_bytes (Z.to_nat len) s; Some (bytes ++ drop (length bytes) vbytes, s)
  else
    '(_, s) ← read_bytes (Z.to_nat len) s; Some (<[0%nat := 255]> vbytes, s).
Definition mpk_Raw (m : CMalleablePubKey) : list Z := pubkey_Serialize (pubKeyL m) ++ pubkey_Serialize (pubKeyH m).
Definition mpk_ToString (m : CMalleablePubKey) : option (list Z) := EncodeBase58Check (mpk_Raw m).
(** Reading replaces what the arrays of both keys held: the verdict and the pair *)
Definition mpk_read (vbytesL vbytesH : list Z) (s : list Z) : option CMalleablePubKey :=
  '(L, s) ← pubkey_Unserialize vbytesL s; '(H, s) ← pubkey_Unserialize vbytesH s; Some (mkMPK (pubkey_of L) (pubkey_of H)).
Definition mpk_setvch (vbytesL vbytesH vchPubKeyPair : list Z) : option (bool * CMalleablePubKey) :=
  m ← mpk_read vbytesL vbytesH vchPubKeyPair; Some (mpk_IsValid m, m).
Definition mpk_SetString (vbytesL vbytesH strMalleablePubKey : list Z) : option (bool * CMalleablePubKey) :=
  r ← DecodeBase58Check strMalleablePubKey;
  vchTemp ← r;
  if negb (length vchTemp =? 68)%nat then Some (false, mkMPK (pubkey_of vbytesL) (pubkey_of vbytesH)) else mpk_setvch vbytesL vbytesH vchTemp.

Definition mk_Raw (m : CMalleableKey) : list Z := ser_bytes (mk_SecretL m) ++ ser_bytes (mk_SecretH m).
Definition mk_ToString (m : CMalleableKey) : option (list Z) := EncodeBase58Check (mk_Raw m).
Definition mk_SetString {C : OpenSSL_EC} (m : CMalleableKey) (strMutableKey : list Z) : option (bool * CMalleableKey) :=
  r ← DecodeBase58Check strMutableKey;
  vchTemp ← r;
  if negb (length vchTemp =? 66)%nat then Some (false, m)
  else
    '(L, s) ← unser_bytes vchTemp; '(H, s) ← unser_bytes s;
    ok ← mk_IsValid (mkMK L H); Some (ok, mkMK L H).

Definition mkv_Raw (v : CMalleableKeyView) : list Z := ser_bytes (mkv_SecretL v) ++ pubkey_Serialize (mkv_PubKeyH v).
Definition mkv_ToString (v : CMalleableKeyView) : option (list Z) := EncodeBase58Check (mkv_Raw v).
Definition mkv_SetString {C : OpenSSL_EC} (v : CMalleableKeyView) (vbytesH strMutableKey : list Z) : option (bool * CMalleableKeyView) :=
  r ← DecodeBase58Check strMutableKey;
  vchTemp ← r;
  if negb (length vchTemp =? 67)%nat then Some (false, v)
  else
    '(L, s) ← unser_bytes vchTemp; '(H, s) ← pubkey_Unserialize vbytesH s;
    let v := mkMKV L (pubkey_of H) in
    ok ← mkv_IsValid v; Some (ok, v).
End KeyText.

(** ** The group *)

Section laws.
Context {DG : Digests} {DGok : DigestsOk} {C : OpenSSL_EC} {Cok : OpenSSL_EC_ok C}.

Lemma order_pos : 1 < EC_order.
Proof. destruct EC_order_odd. lia. Qed.
Lemma scale_0 P : EC_scale 0 P = EC_infinity.
Proof. replace 0 with (EC_order * 0) by lia. by rewrite EC_scale_mul, EC_scale_order. Qed.
Lemma scale_infinity a : EC_scale a EC_infinity = EC_infinity.
Proof. rewrite <- (EC_scale_order EC_generator) at 1. rewrite <- EC_scale_mul, Z.mul_comm, EC_scale_mul. apply EC_scale_order. Qed.
Lemma scale_mod a P : EC_scale (a mod EC_order) P = EC_scale a P.
Proof.
  assert (Ho := order_pos). rewrite (Z.div_mod a EC_order) at 2 by lia. by rewrite EC_scale_plus, EC_scale_mul, EC_scale_order, EC_add_0.
Qed.
Lemma scale_eq a b P : a mod EC_order = b mod EC_order → EC_scale a P = EC_scale b P.
Proof. intros E. by rewrite <- (scale_mod a), E, scale_mod. Qed.
Lemma opp_infinity P : EC_scale (-1) P = EC_infinity → P = EC_infinity.
Proof. intros E. by rewrite <- (EC_scale_1 P), (eq_refl : 1 = -1 * -1), EC_scale_mul, E, scale_infinity. Qed.
(** The sum of two points with coordinates [(a, b)] and [(a', b')] over [G] and [Q] *)
Lemma add_swap P Q R S : EC_add (EC_add P Q) (EC_add R S) = EC_add (EC_add P R) (EC_add Q S).
Proof. rewrite !EC_add_assoc. f_equal. rewrite <- !EC_add_assoc. f_equal. apply EC_add_comm. Qed.
Lemma scale_pair a b c P Q : EC_scale c (EC_add (EC_scale a P) (EC_scale b Q)) = EC_add (EC_scale (c * a) P) (EC_scale (c * b) Q).
Proof. by rewrite EC_scale_point, <- !EC_scale_mul. Qed.
Lemma inverse r : 0 < r < EC_order → ∃ x, BN_mod_inverse r EC_order = Some x ∧ (r * x) mod EC_order = 1.
Proof.
  intros Hr. apply BN_mod_inverse_law; [apply order_pos|]. rewrite Z.gcd_comm. apply Z.coprime_prime_small; [apply EC_order_prime|lia].
Qed.

(** ** Signatures *)

Lemma ecdsa_opp Q e r s : ecdsa Q e r s → ecdsa Q e r (EC_order - s).
Proof.
  intros (Hr & Hs & w & Hw & HX & Hx). split; [done|]. split; [lia|]. exists (-1 * w). split.
  { replace (-1 * w * (EC_order - s)) with (w * s + (- w) * EC_order) by ring. by rewrite Z_mod_plus_full. }
  assert (E : EC_add (EC_scale (e * (-1 * w)) EC_generator) (EC_scale (r * (-1 * w)) Q) = EC_scale (-1) (EC_add (EC_scale (e * w) EC_generator) (EC_scale (r * w) Q))).
  { rewrite scale_pair. f_equal; f_equal; ring. }
  rewrite E. split; [by intros ?%opp_infinity|by rewrite EC_x_opp].
Qed.
Lemma low_s_ok Q e r s : ecdsa Q e r s → ∃ s', low_s (r, s) = (r, s') ∧ ecdsa Q e r s' ∧ s' <= be_val vchMaxModHalfOrder.
Proof.
  intros H. assert (Ho := EC_order_odd). destruct H as (Hr & Hs & H).
  assert (Hh : EC_order = 2 * Z.shiftr EC_order 1 + EC_order mod 2) by (rewrite Z.shiftr_div_pow2 by lia; change (2 ^ 1) with 2; apply Z.div_mod; lia).
  assert (Hodd : EC_order mod 2 = 1).
  { assert (H2 := Z.mod_pos_bound EC_order 2 ltac:(lia)). destruct (Z.eq_dec (EC_order mod 2) 1) as [|Hne]; [done|exfalso]. assert (E : EC_order = 2 * Z.shiftr EC_order 1) by lia.
    destruct (Z.divide_prime_r 2 EC_order EC_order_prime) as [?|[?|[?|?]]]; [exists (Z.shiftr EC_order 1)| | | |]; lia. }
  assert (Hmax : be_val vchMaxModOrder = 2 * be_val vchMaxModHalfOrder) by (vm_compute; reflexivity).
  unfold low_s. destruct (Z.gtb_spec s (Z.shiftr EC_order 1)); eexists; (split; [reflexivity|]); (split; [|lia]); [apply ecdsa_opp|]; by split.
Qed.

Lemma mpi_body_pos v : 0 < v → be_val (mpi_body v) = v ∧ der_int (mpi_body v) = true.
Proof.
  intros Hv. assert (Hd := dval_be_mag v ltac:(lia)). unfold mpi_body. rewrite Z.abs_eq by lia. assert (Hm := be_mag_ok v). assert (Hh := be_mag_head v).
  destruct (be_mag v) as [|b t]; [cbn in Hd; lia|]. specialize (Hh b t Hv eq_refl). apply Forall_cons_iff in Hm as [Hb _].
  rewrite (proj2 (Z.ltb_ge v 0)) by lia. destruct (Z.leb_spec 128 b).
  - unfold be_val in *. cbn [rev] in *. rewrite dval_app by lia. cbn [dval foldr]. split; [rewrite Hd; lia|]. cbn [der_int]. rewrite (proj2 (Z.ltb_ge b 128)) by lia. done.
  - unfold be_val. split; [done|]. cbn [der_int]. rewrite (proj2 (Z.ltb_lt b 128)), (proj2 (Z.eqb_neq b 0)) by lia. done.
Qed.
Lemma length_be_mag v : 0 <= v < 2 ^ 256 → (length (be_mag v) <= 32)%nat.
Proof.
  intros Hv. assert (Hd := dval_be_mag v ltac:(lia)). assert (Hm := be_mag_ok v). assert (Hh := be_mag_head v). destruct (be_mag v) as [|b t] eqn:E; [cbn; lia|].
  destruct (Z.eq_dec v 0) as [->|]; [by rewrite be_mag_0 in E|]. specialize (Hh b t ltac:(lia) eq_refl). apply Forall_cons_iff in Hm as [Hb Ht].
  destruct (Nat.le_gt_cases (length (b :: t)) 32) as [|Hlt]; [done|exfalso]. fold (be_val (b :: t)) in Hd. rewrite be_val_cons in Hd. assert (Hr := be_val_range t Ht).
  cbn [length] in Hlt. assert (256 ^ 32 <= 256 ^ Z.of_nat (length t)) by (apply Z.pow_le_mono_r; lia). change (256 ^ 32) with (2 ^ 256) in *. nia.
Qed.
Lemma length_mpi_body v : 0 <= v < 2 ^ 256 → (length (mpi_body v) <= 33)%nat.
Proof.
  intros Hv. assert (Hl := length_be_mag v Hv). unfold mpi_body. rewrite Z.abs_eq by lia. destruct (be_mag v) as [|b t]; [cbn; lia|].
  destruct (128 <=? b); cbn [length] in *; lia.
Qed.
Lemma order_256 : EC_order <= 2 ^ 256.
Proof. destruct EC_order_odd as [_ H]. etransitivity; [exact H|]. vm_compute. congruence. Qed.

(** The DER form of a signature with a hash type passes the strictest encoding checks *)
Lemma der_canonical r s ht flags : 0 < r < EC_order → 0 < s < EC_order → s <= be_val vchMaxModHalfOrder → hashtype_ok ht = true → 0 <= ht < 256 →
  IsCanonicalSignature (i2d_ECDSA_SIG (r, s) ++ [ht]) flags = true.
Proof.
  intros Hr Hs Hhalf Hht Hb. assert (Ho := order_256). destruct (mpi_body_pos r) as [Hr1 Hr2]; [lia|]. destruct (mpi_body_pos s) as [Hs1 Hs2]; [lia|].
  assert (Hlr := length_mpi_body r ltac:(lia)). assert (Hls := length_mpi_body s ltac:(lia)).
  destruct (has_flag flags SCRIPT_VERIFY_STRICTENC) eqn:Ef; [|unfold IsCanonicalSignature; by rewrite Ef].
  assert (E : i2d_ECDSA_SIG (r, s) ++ [ht] = der_sig (mpi_body r) (mpi_body s) [ht]).
  { rewrite i2d_law by done. unfold der_sig. rewrite <- !app_assoc, app_nil_l. done. }
  rewrite E. apply IsCanonicalSignature_spec; [|done|].
  - unfold der_sig. repeat (apply Forall_app; split); try apply mpi_body_ok; repeat apply Forall_cons_2; try apply Forall_nil_2; lia.
  - exists (mpi_body r), (mpi_body s), ht. split; [done|]. split; [|split; [done|split; [done|split; [done|intros _; lia]]]].
    unfold der_sig. rewrite !length_app. cbn [length]. lia.
Qed.

Lemma length_i2d r s : 0 < r < EC_order → 0 < s < EC_order → (8 <= length (i2d_ECDSA_SIG (r, s)) <= 72)%nat.
Proof.
  intros Hr Hs. assert (Ho := order_256). destruct (mpi_body_pos r) as [_ Hr2]; [lia|]. destruct (mpi_body_pos s) as [_ Hs2]; [lia|].
  assert (Hlr := length_mpi_body r ltac:(lia)). assert (Hls := length_mpi_body s ltac:(lia)). rewrite i2d_law by done. unfold der_sig. rewrite !length_app. cbn [length].
  assert (length (mpi_body r) ≠ 0%nat) by (by destruct (mpi_body r)). assert (length (mpi_body s) ≠ 0%nat) by (by destruct (mpi_body s)). lia.
Qed.

(** A key a wallet can use *)
Record key_ok (k : CKey) : Prop := {
  key_length : length (key_secret k) = 32%nat;
  key_bytes : digits_ok 256 (key_secret k);
  key_accepted : EC_regenerate (key_secret k) = true;
  key_nonzero : be_val (key_secret k) mod EC_order ≠ 0
}.
Lemma key_point_ok k : key_ok k → key_point k ≠ EC_infinity.
Proof. intros H E. apply (key_nonzero _ H). by apply EC_generator_order. Qed.
Lemma key_SetSecret_ok k : key_ok k → key_SetSecret (key_secret k) (key_compressed k) = Some k.
Proof. intros H. unfold key_SetSecret. rewrite (key_length _ H), (key_accepted _ H). by destruct k. Qed.

(** The octets of a point are a public key *)
Lemma point_pubkey P c : P ≠ EC_infinity → CPubKey_Set (EC_point2oct P c) = EC_point2oct P c ∧ CPubKey_IsValid (EC_point2oct P c) = true ∧
  length (EC_point2oct P c) = (if c then 33 else 65)%nat ∧ ∀ flags, IsCanonicalPubKey (EC_point2oct P c) flags = true.
Proof.
  intros HP. destruct (EC_point2oct_form P c HP) as (b & t & -> & _ & H). unfold CPubKey_Set, CPubKey_IsValid, CPubKey_size, IsCanonicalPubKey. cbn [length nth].
  destruct c; [destruct H as [[-> | ->] Hl]|destruct H as [-> Hl]]; rewrite Hl; (split; [done|]); (split; [done|]); (split; [done|]); intros flags; by destruct (has_flag _ _).
Qed.
Lemma key_pubkey k : key_ok k → key_GetPubKey k = EC_point2oct (key_point k) (key_compressed k).
Proof. intros H. by apply point_pubkey, key_point_ok. Qed.

Lemma sign_low k h : key_ok k → wf W256 h → ∃ r s s', ECDSA_do_sign (be_val (key_secret k)) (getBytes h) = Some (r, s) ∧ low_s (r, s) = (r, s') ∧
  ecdsa (key_point k) (be_val (getBytes h)) r s' ∧ s' <= be_val vchMaxModHalfOrder.
Proof.
  intros Hk Hh. destruct (getBytes_ok W256 h Hh) as (Hd & Hl & _). destruct (ECDSA_sign_law (be_val (key_secret k)) (getBytes h) (key_nonzero _ Hk) Hl Hd) as (r & s & E & H).
  destruct (low_s_ok _ _ _ _ H) as (s' & E' & H' & Hs'). eauto 10.
Qed.
Lemma key_Sign_ok k h : key_ok k → wf W256 h → ∃ sig, key_Sign k h = Some sig ∧ pubkey_Verify (key_GetPubKey k) h sig = true ∧ head sig = Some 0x30 ∧ (8 <= length sig <= 72)%nat ∧
  ∀ ht flags, hashtype_ok ht = true → 0 <= ht < 256 → IsCanonicalSignature (sig ++ [ht]) flags = true.
Proof.
  intros Hk Hh. destruct (sign_low k h Hk Hh) as (r & s & s' & E & E' & H & Hs'). destruct (getBytes_ok W256 h Hh) as (Hd & Hl & _).
  assert (Hrs := H). destruct Hrs as (Hr & Hs & _). assert (HP := key_point_ok k Hk). destruct (point_pubkey (key_point k) (key_compressed k) HP) as (_ & Hv & _).
  exists (i2d_ECDSA_SIG (r, s')). assert (Hver := proj2 (ECDSA_verify_law (key_point k) (getBytes h) r s' Hl Hd Hr Hs) H).
  unfold key_Sign. rewrite E, E', Hver. split; [done|]. split; [|split; [by rewrite i2d_law|split; [by apply length_i2d|intros; by apply der_canonical]]].
  unfold pubkey_Verify. rewrite key_pubkey by done. rewrite bool_decide_eq_false_2 by (rewrite i2d_law by done; done). rewrite Hv, EC_oct2point_oct by done. cbn [negb orb].
  by rewrite d2i_law.
Qed.

(** ** Recovering the key of a signature *)

Lemma recover_ok Q m r s : length m = 32%nat → ecdsa Q (be_val m) r s → ∃ recid, In recid [0; 1; 2; 3] ∧ ∀ check, ECDSA_SIG_recover_key_GFp (r, s) m recid check = Some Q.
Proof.
  intros Hm (Hr & Hs & w & Hw & HX & Hx). set (X := EC_add _ _) in *. assert (Ho := order_pos). destruct (EC_x_range X HX) as [Hx0 Hx1].
  assert (Hf := EC_field_size). destruct (EC_set_compressed_all X HX) as (y & Hy & HR). destruct (inverse r Hr) as (rr & Hi & Hrr).
  assert (Hq : 0 <= EC_x X / EC_order <= 1) by (split; [by apply Z.div_pos; lia|]; apply Z.lt_succ_r, Z.div_lt_upper_bound; lia).
  assert (Hxx : EC_order * (EC_x X / EC_order) + r = EC_x X) by (rewrite <- Hx; symmetry; apply Z.div_mod; lia).
  exists (2 * (EC_x X / EC_order) + y). split.
  { assert (EC_x X / EC_order = 0 ∨ EC_x X / EC_order = 1) as [-> | ->] by lia; assert (y = 0 ∨ y = 1) as [-> | ->] by lia; cbn; tauto. }
  intros check. unfold ECDSA_SIG_recover_key_GFp.
  assert (Hdiv : Z.quot (2 * (EC_x X / EC_order) + y) 2 = EC_x X / EC_order).
  { rewrite Z.quot_div_nonneg, (Z.mul_comm 2), Z.div_add_l, (Z.div_small y) by lia. lia. }
  assert (Hrem : Z.rem (2 * (EC_x X / EC_order) + y) 2 = y) by (rewrite Z.rem_mod_nonneg, Z.add_comm, (Z.mul_comm 2), Z_mod_plus_full, Z.mod_small; lia).
  rewrite Hdiv, Hrem, Hxx. destruct (Z.geb_spec (EC_x X) EC_field); [lia|]. rewrite HR. cbn [mbind option_bind]. rewrite EC_scale_order, bool_decide_eq_true_2, andb_false_r by done.
  rewrite Hm, EC_degree_256. change (8 * Z.of_nat 32 >? 256) with false. cbv iota. rewrite Hi. cbn [mbind option_bind]. f_equal.
  rewrite !scale_mod. unfold X. rewrite scale_pair, EC_add_assoc. rewrite <- EC_scale_plus.
  rewrite (scale_eq _ 0 EC_generator), scale_0, EC_add_0; [|].
  - rewrite <- (EC_scale_1 Q) at 2. apply scale_eq. replace (s * rr * (r * w)) with (w * s * (r * rr)) by ring. by rewrite Z.mul_mod, Hw, Hrr by lia.
  - rewrite Zplus_mod. rewrite (Z.mul_mod ((0 - be_val m) mod EC_order)), Z.mod_mod by lia. rewrite <- Z.mul_mod by lia.
    replace (s * rr * (be_val m * w)) with (be_val m * rr * (w * s)) by ring. rewrite (Z.mul_mod (be_val m * rr)), Hw, Z.mul_1_r, Z.mod_mod by lia.
    rewrite <- Zplus_mod. by replace ((0 - be_val m) * rr + be_val m * rr) with 0 by ring.
Qed.

Lemma be_pad_ok v : 0 <= v < 2 ^ 256 → length (be_pad v) = 32%nat ∧ be_val (be_pad v) = v.
Proof.
  intros Hv. assert (Hl := length_be_mag v Hv). unfold be_pad. rewrite length_app, length_replicate. split; [lia|]. unfold be_val.
  rewrite rev_app_distr, dval_app, dval_be_mag by lia. assert (Hz := dval_rev_replicate (32 - length (be_mag v)) []). cbn [app] in Hz. rewrite Hz. cbn. lia.
Qed.
Lemma num_bits_256 v : 0 <= v < 2 ^ 256 → (Z.log2_up (v + 1) <=? 256) = true.
Proof. intros Hv. apply Z.leb_le. apply Z.log2_up_le_pow2; lia. Qed.

Lemma SignCompact_ok k h vch : key_ok k → wf W256 h → ∃ sig, SignCompact k h vch = Some (true, sig) ∧ ∀ old, SetCompactSignature old h sig = (true, key_GetPubKey k).
Proof.
  intros Hk Hh. destruct (sign_low k h Hk Hh) as (r & s & s' & E & E' & H & _). destruct (getBytes_ok W256 h Hh) as (Hd & Hl & _). assert (Ho := order_256).
  assert (Hrs := H). destruct Hrs as (Hr & Hs & _). unfold SignCompact. rewrite E, E'. rewrite !num_bits_256 by lia. cbn [andb].
  destruct (be_pad_ok r ltac:(lia)) as [Hlr Hvr]. destruct (be_pad_ok s' ltac:(lia)) as [Hls Hvs].
  destruct (find_recid k (r, s') h) as [recid|] eqn:Ef.
  - apply find_some in Ef as [Hin Hf]. destruct (ECDSA_SIG_recover_key_GFp (r, s') (getBytes h) recid true) as [Q'|] eqn:Er; [|done]. apply bool_decide_eq_true in Hf.
    eexists. split; [reflexivity|]. intros old. unfold SetCompactSignature. cbn [length]. rewrite length_app, Hlr, Hls. change (S (32 + 32) =? 65)%nat with true. cbn [negb nth].
    assert (Ht : take 32 (drop 1 ((recid + 27 + (if key_compressed k then 4 else 0)) :: be_pad r ++ be_pad s')) = be_pad r).
    { rewrite skipn_cons, drop_0, <- Hlr. apply take_app_length. }
    assert (Hdr : take 32 (drop 33 ((recid + 27 + (if key_compressed k then 4 else 0)) :: be_pad r ++ be_pad s')) = be_pad s').
    { rewrite skipn_cons, drop_app_length' by done. rewrite <- Hls. apply take_ge. lia. }
    rewrite Ht, Hdr, Hvr, Hvs. clear Ht Hdr.
    assert (Hnc : ECDSA_SIG_recover_key_GFp (r, s') (getBytes h) recid false = Some Q').
    { revert Er. unfold ECDSA_SIG_recover_key_GFp. destruct (_ >=? _); [done|]. destruct (EC_set_compressed _ _) as [R|]; [|done]. cbn [mbind option_bind]. by rewrite EC_scale_order, bool_decide_eq_true_2. }
    assert (Hval : CPubKey_IsValid (key_GetPubKey k) = true) by (rewrite key_pubkey by done; apply point_pubkey, key_point_ok, Hk).
    assert (Hrange : 0 <= recid <= 3) by (cbn in Hin; lia).
    destruct (key_compressed k).
    + rewrite (proj2 (Z.ltb_ge _ _)) by lia. destruct (Z.geb_spec (recid + 27 + 4) 35); [lia|]. destruct (Z.geb_spec (recid + 27 + 4) 31); [|lia]. cbn [orb].
      replace (recid + 27 + 4 - 4 - 27) with recid by lia. by rewrite Hnc, Hf, Hval.
    + rewrite (proj2 (Z.ltb_ge _ _)) by lia. destruct (Z.geb_spec (recid + 27 + 0) 35); [lia|]. destruct (Z.geb_spec (recid + 27 + 0) 31); [lia|]. cbn [orb].
      replace (recid + 27 + 0 - 27) with recid by lia. by rewrite Hnc, Hf, Hval.
  - exfalso. destruct (recover_ok _ _ _ _ Hl H) as (recid & Hin & Hrec). apply (find_none _ _ Ef) in Hin. rewrite (Hrec true) in Hin.
    by rewrite bool_decide_eq_true_2 in Hin.
Qed.

(** ** Malleable keys *)

Lemma ECMULGEN_eq a H : ECMULGEN a H = EC_add (EC_scale a EC_generator) H.
Proof. unfold ECMULGEN. by rewrite EC_scale_1. Qed.
(** What it takes to pass [CheckKeyVariant] *)
Lemma check_variant_spec l pkH R K hash : check_variant l (Some pkH) R K = Some (Some hash) ↔
  CPubKey_IsValid R = true ∧ CPubKey_IsValid K = true ∧ ∃ PR PH, EC_oct2point R = Some PR ∧ EC_oct2point pkH = Some PH ∧
    hash = hash_scalar (EC_point2oct (EC_scale (be_val l) PR) true) ∧
    EC_oct2point K = Some (EC_add (EC_scale hash EC_generator) PH) ∧ EC_add (EC_scale hash EC_generator) PH ≠ EC_infinity.
Proof.
  unfold check_variant, pt_setPubKey, pt_IsInfinity, pt_getBytes, ECMUL. change (setBytes (BN := Z_BN) l) with (be_val l). split.
  - destruct (CPubKey_IsValid R); [|done]. destruct (CPubKey_IsValid K); [|done]. cbn [negb]. destruct (EC_oct2point R) as [PR|]; [|done]. cbn [mbind option_bind].
    destruct (EC_oct2point pkH) as [PH|]; [|done]. destruct (EC_oct2point K) as [PK|]; [|done]. case_bool_decide; [done|]. rewrite ECMULGEN_eq. case_bool_decide; [done|].
    case_bool_decide as E; [|done]. cbn [negb]. intros [= <-]. subst PK. eauto 10.
  - intros (-> & -> & PR & PH & -> & HH & -> & HK & Hinf). cbn [negb mbind option_bind]. rewrite HH, HK. rewrite bool_decide_eq_false_2 by done. rewrite ECMULGEN_eq.
    rewrite bool_decide_eq_false_2, bool_decide_eq_true_2 by done. done.
Qed.

Definition secret_ok (s : list Z) : Prop := key_ok (mkKey s true).
Lemma secret_key s : secret_ok s → key_SetSecret s true = Some (mkKey s true).
Proof. apply (key_SetSecret_ok (mkKey s true)). Qed.

(** The private key of a one-time key that belongs to the pair: [Hash(R*l) + h], when it
    fills 32 bytes *)
Lemma be_mag_32 v : 0 <= v → length (be_mag v) = 32%nat ↔ 2 ^ 248 <= v < 2 ^ 256.
Proof.
  intros Hv. assert (Hd := dval_be_mag v Hv). assert (Hm := be_mag_ok v). assert (Hh := be_mag_head v). split.
  - intros Hl. destruct (be_mag v) as [|b t] eqn:E; [done|]. destruct (Z.eq_dec v 0) as [->|]; [by rewrite be_mag_0 in E|]. specialize (Hh b t ltac:(lia) eq_refl).
    apply Forall_cons_iff in Hm as [Hb Ht]. fold (be_val (b :: t)) in Hd. rewrite be_val_cons in Hd. assert (Hr := be_val_range t Ht). injection Hl as Hl. rewrite Hl in *.
    change (256 ^ Z.of_nat 31) with (2 ^ 248) in *. change (2 ^ 256) with (2 ^ 248 * 256). nia.
  - intros Hr. assert (Hl := length_be_mag v ltac:(lia)). destruct (Nat.le_gt_cases 32 (length (be_mag v))); [lia|exfalso].
    assert (Hb := dval_bound 256 (rev (be_mag v)) ltac:(lia) (proj2 (digits_ok_rev 256 _) Hm)). rewrite Hd, length_rev in Hb.
    assert (256 ^ Z.of_nat (length (be_mag v)) <= 256 ^ 31) by (apply Z.pow_le_mono_r; lia). change (256 ^ 31) with (2 ^ 248) in *. lia.
Qed.
Lemma hash_scalar_val v : 0 <= hash_scalar v < 2 ^ 160.
Proof.
  unfold hash_scalar. assert (Hw := Hash160_wf v). assert (E := setuint_ok (BN := Z_BN) W160 (Hash160 v) ltac:(lia) Hw).
  change (setuint160 (BN := Z_BN) (Hash160 v)) with (BN_mpi2bn (OpenSSL_BN := Z_BN) (with_size (mpi_loop false true (rev (getBytes (Hash160 v)))))).
  change (bnval ?x) with x in E. rewrite E. apply (val_range W160 _ Hw).
Qed.

Lemma variant_made L H r R K : secret_ok L → secret_ok H → r mod EC_order ≠ 0 →
  mpk_GetVariant (mkMPK (key_GetPubKey (mkKey L true)) (key_GetPubKey (mkKey H true))) r = Some (R, K) →
  ∃ hash, check_variant L (Some (key_GetPubKey (mkKey H true))) R K = Some (Some hash).
Proof.
  intros HL HH Hr. assert (Hp : EC_scale r EC_generator ≠ EC_infinity) by (intros E; by apply Hr, EC_generator_order). unfold mpk_GetVariant, pt_setPubKey, pt_getBytes, pt_IsInfinity, ECMUL. cbn [pubKeyL pubKeyH].
  rewrite !key_pubkey by done. rewrite !EC_oct2point_oct by (by apply key_point_ok). cbn [mbind option_bind default from_option id]. rewrite ECMULGEN_eq. case_bool_decide as Hinf; [done|]. intros [= <- <-].
  set (hash := hash_scalar _) in *. destruct (point_pubkey _ true Hp) as (-> & HR & _). destruct (point_pubkey _ true Hinf) as (-> & HK & _).
  exists hash. apply check_variant_spec. split; [done|]. split; [done|]. exists (EC_scale r EC_generator), (key_point (mkKey H true)).
  split; [by apply EC_oct2point_oct|]. split; [by apply EC_oct2point_oct, key_point_ok|]. split; [|split; [by apply EC_oct2point_oct|done]].
  unfold hash, key_point. cbn [key_secret]. by rewrite <- !EC_scale_mul, Z.mul_comm.
Qed.

Lemma be_val_add_point a H : EC_add (EC_scale a EC_generator) (key_point (mkKey H true)) = EC_scale (a + be_val H) EC_generator.
Proof. unfold key_point. by rewrite EC_scale_plus. Qed.

Lemma PrivKeyVariant_ok L H R K hash : secret_ok L → secret_ok H → check_variant L (Some (key_GetPubKey (mkKey H true))) R K = Some (Some hash) →
  let p := hash + be_val H in
  EC_oct2point K = Some (EC_scale p EC_generator) ∧ p mod EC_order ≠ 0 ∧
  mk_PrivKeyVariant (mkMK L H) R K =
    if (2 ^ 248 <=? p) && (p <? 2 ^ 256) && EC_KEY_set_private_key p then Some (true, Some (mkKey (be_mag p) true)) else None.
Proof.
  intros HL HH E p. assert (Hs := E). apply check_variant_spec in Hs as (_ & _ & PR & PH & _ & HPH & Hhash & HK & Hinf). rewrite key_pubkey, EC_oct2point_oct in HPH by (by try apply key_point_ok).
  injection HPH as <-. rewrite be_val_add_point in HK, Hinf. fold p in HK, Hinf. split; [done|]. split; [|].
  { intros E0. apply Hinf. by rewrite (scale_eq p 0), scale_0. }
  assert (Hp : 0 <= p) by (assert (H1 := be_val_range H (key_bytes _ HH)); assert (H2 := hash_scalar_val (EC_point2oct (EC_scale (be_val L) PR) true)); lia).
  unfold mk_PrivKeyVariant, mk_IsNull. cbn [mk_SecretL mk_SecretH]. rewrite (key_length _ HL : length L = 32%nat), (key_length _ HH : length H = 32%nat), secret_key by done.
  cbn [negb orb Nat.eqb fmap option_fmap option_map]. rewrite E. cbn [mbind option_bind].
  match goal with |- context [key_SetSecret ?v true] => change v with (be_mag (Z.abs p)) end. rewrite Z.abs_eq by done. unfold key_SetSecret, EC_regenerate.
  assert (Hv : be_val (be_mag p) = p) by (by apply dval_be_mag). rewrite Hv. assert (H32 := be_mag_32 p Hp).
  destruct (Nat.eqb_spec (length (be_mag p)) 32) as [El|El]; cbn [negb].
  - apply H32 in El. rewrite (proj2 (Z.leb_le _ _)), (proj2 (Z.ltb_lt _ _)) by lia. cbn [andb]. by destruct (EC_KEY_set_private_key p).
  - destruct (Z.leb_spec (2 ^ 248) p), (Z.ltb_spec p (2 ^ 256)); cbn [andb]; try done. exfalso. apply El, H32. lia.
Qed.
Lemma mkv_valid L H : secret_ok L → secret_ok H → mkv_of_key (mkMK L H) = Some (mkMKV L (key_GetPubKey (mkKey H true))) ∧
  mkv_IsValid (mkMKV L (key_GetPubKey (mkKey H true))) = Some true ∧
  mk_GetMalleablePubKey (mkMK L H) = Some (mkMPK (key_GetPubKey (mkKey L true)) (key_GetPubKey (mkKey H true))).
Proof.
  intros HL HH. unfold mkv_of_key, mkv_IsValid, mkv_GetMalleablePubKey, mk_GetMalleablePubKey. cbn [mk_SecretL mk_SecretH mkv_SecretL mkv_PubKeyH].
  rewrite (key_length _ HL : length L = 32%nat), (key_length _ HH : length H = 32%nat), !secret_key by done. cbn [negb Nat.eqb mbind option_bind]. split; [done|]. split; [|done].
  unfold mpk_IsValid. cbn [pubKeyL pubKeyH]. rewrite !key_pubkey by done. cbn [key_compressed].
  destruct (point_pubkey (key_point (mkKey L true)) true) as (_ & -> & _); [by apply key_point_ok|]. by destruct (point_pubkey (key_point (mkKey H true)) true) as (_ & -> & _); [by apply key_point_ok|].
Qed.
End laws.

(** ** Text forms *)

Section text.
Context {DG : Digests} {DGok : DigestsOk} {C : OpenSSL_EC} {Cok : OpenSSL_EC_ok C}.

Lemma key_compressed_form s : secret_ok s → let pk := key_GetPubKey (mkKey s true) in
  length pk = 33%nat ∧ CPubKey_size pk = 33 ∧ digits_ok 256 pk ∧ CPubKey_IsValid pk = true.
Proof.
  intros H. cbv zeta. rewrite key_pubkey by done. cbn [key_compressed]. assert (HP := key_point_ok _ H). destruct (point_pubkey _ true HP) as (_ & Hv & Hl & _).
  split; [done|]. destruct (EC_point2oct_form _ true HP) as (b & t & E & Hd & Hb & Ht). rewrite E in *. split; [by destruct Hb as [-> | ->]|]. split; [|done].
  apply Forall_cons_2; [lia|done].
Qed.
Lemma pubkey_stream s vb rest : secret_ok s → length vb = 65%nat →
  ∃ vb', pubkey_Unserialize vb (pubkey_Serialize (key_GetPubKey (mkKey s true)) ++ rest) = Some (vb', rest) ∧ pubkey_of vb' = key_GetPubKey (mkKey s true).
Proof.
  intros H Hvb. destruct (key_compressed_form s H) as (Hl & Hs & Hd & _). set (pk := key_GetPubKey _) in *. exists (pk ++ drop 33 vb). unfold pubkey_Serialize, pubkey_Unserialize.
  rewrite Hs, <- app_assoc, ReadCompactSize_write by (unfold MAX_SIZE; lia). cbn [mbind option_bind]. change (33 <=? 65) with true. cbv iota. rewrite read_bytes_app by done. cbn [mbind option_bind].
  rewrite Hl. split; [done|]. unfold pubkey_of. destruct pk as [|b t]; [done|]. cbn [app CPubKey_size]. cbn [CPubKey_size] in Hs. rewrite Hs.
  change (Z.to_nat 33) with 33%nat. rewrite <- Hl. apply (take_app_length (b :: t)).
Qed.
Lemma length_pubkey_Serialize s : secret_ok s → length (pubkey_Serialize (key_GetPubKey (mkKey s true))) = 34%nat ∧ digits_ok 256 (pubkey_Serialize (key_GetPubKey (mkKey s true))).
Proof.
  intros H. destruct (key_compressed_form s H) as (Hl & Hs & Hd & _). unfold pubkey_Serialize. rewrite Hs. change (WriteCompactSize 33) with [33]. split; [cbn [app length]; lia|]. by apply Forall_cons_2; [lia|].
Qed.
Lemma secret_stream s rest : secret_ok s → unser_bytes (ser_bytes s ++ rest) = Some (s, rest) ∧ length (ser_bytes s) = 33%nat ∧ digits_ok 256 (ser_bytes s).
Proof.
  intros H. assert (Hl := key_length _ H : length s = 32%nat). assert (Hd := key_bytes _ H : digits_ok 256 s). unfold unser_bytes, ser_bytes. rewrite Hl. split; [|split].
  - rewrite <- app_assoc, ReadCompactSize_write by (unfold MAX_SIZE; lia). cbn [mbind option_bind]. by apply read_bytes_app.
  - change (WriteCompactSize (Z.of_nat 32)) with [32]. cbn [app length]. lia.
  - change (WriteCompactSize (Z.of_nat 32)) with [32]. by apply Forall_cons_2; [lia|].
Qed.
(** Reading a length that does not fit the first byte keeps bytes the array held *)
Example Unserialize_stale vb : length vb = 65%nat → pubkey_Unserialize vb [0] = Some (vb, []) ∧
  pubkey_Unserialize vb [1; 2] = Some (2 :: drop 1 vb, []) ∧ pubkey_of (2 :: drop 1 vb) = 2 :: take 32 (drop 1 vb).
Proof. intros H. destruct vb; done. Qed.
End text.

(** ** Properties *)

(** C12. Signing.  A key signs every hash, and its public key verifies the result; the
    signature is in strict DER form with a low S, so that it passes the encoding
    checks under every set of flags with any standard hash type.  A compact
    signature can be made as well, and gives the public key back, in its form. *)
Theorem key_signatures {DG : Digests} {C : OpenSSL_EC} {Cok : OpenSSL_EC_ok C} k hash vch old : key_ok k → wf W256 hash →
  (∃ vchSig, key_Sign k hash = Some vchSig ∧ pubkey_Verify (key_GetPubKey k) hash vchSig = true ∧
    ∀ ht flags, hashtype_ok ht = true → 0 <= ht < 256 → IsCanonicalSignature (vchSig ++ [ht]) flags = true) ∧
  ∃ vchSig, SignCompact k hash vch = Some (true, vchSig) ∧ SetCompactSignature old hash vchSig = (true, key_GetPubKey k).
Proof.
  intros Hk Hh. split.
  - destruct (key_Sign_ok k hash Hk Hh) as (sig & H1 & H2 & _ & _ & H3). eauto.
  - destruct (SignCompact_ok k hash vch Hk Hh) as (sig & H1 & H2). eauto.
Qed.

(** C13. Malleable keys.  Every one-time key made from the public pair is recognised
    by the owner of the secret pair and by a view without the second secret.  The
    private key rebuilt for a recognised one-time key is the private key of that
    one-time key; rebuilding fails with an exception exactly when the sum of the
    second secret and the hash does not fill 32 bytes (or OpenSSL refuses it). *)
Theorem malleable_keys {DG : Digests} {DGok : DigestsOk} {C : OpenSSL_EC} {Cok : OpenSSL_EC_ok C} L H : secret_ok L → secret_ok H →
  ∃ mpk view, mk_GetMalleablePubKey (mkMK L H) = Some mpk ∧ mkv_of_key (mkMK L H) = Some view ∧
  (∀ r R K, r mod EC_order ≠ 0 → mpk_GetVariant mpk r = Some (R, K) →
    mk_CheckKeyVariant (mkMK L H) R K = Some true ∧ mkv_CheckKeyVariant view R K = Some true) ∧
  ∀ R K, mk_CheckKeyVariant (mkMK L H) R K = Some true →
    ∃ p, 0 <= p - be_val H < 2 ^ 160 ∧ EC_oct2point K = Some (EC_scale p EC_generator) ∧
    mk_PrivKeyVariant (mkMK L H) R K =
      if (2 ^ 248 <=? p) && (p <? 2 ^ 256) && EC_KEY_set_private_key p then Some (true, Some (mkKey (be_mag p) true)) else None.
Proof.
  intros HL HH. destruct (mkv_valid L H HL HH) as (Hv & Hval & Hm). eexists _, _. split; [exact Hm|]. split; [exact Hv|].
  assert (Hc : ∀ R K, mk_CheckKeyVariant (mkMK L H) R K =
    (r ← check_variant L (Some (key_GetPubKey (mkKey H true))) R K; Some (bool_decide (is_Some r)))).
  { intros R K. unfold mk_CheckKeyVariant, mk_IsNull. cbn [mk_SecretL mk_SecretH].
    rewrite (key_length _ HL : length L = 32%nat), (key_length _ HH : length H = 32%nat), secret_key by done. done. }
  split.
  - intros r R K Hr Hg. destruct (variant_made L H r R K HL HH Hr Hg) as (hash & E). rewrite Hc. unfold mkv_CheckKeyVariant. rewrite Hval. cbn [mkv_SecretL mkv_PubKeyH mbind option_bind negb].
    rewrite E. cbn [mbind option_bind]. by rewrite bool_decide_eq_true_2.
  - intros R K. rewrite Hc. destruct (check_variant _ _ R K) as [[hash|]|] eqn:E; try done. intros _. destruct (PrivKeyVariant_ok L H R K hash HL HH E) as (H1 & _ & H3).
    exists (hash + be_val H). split; [|done]. apply check_variant_spec in E as (_ & _ & PR & PH & _ & _ & -> & _). replace (hash_scalar _ + be_val H - be_val H) with (hash_scalar (EC_point2oct (EC_scale (be_val L) PR) true)) by lia.
    apply hash_scalar_val.
Qed.

(** The text forms of malleable keys.  The strings of a public pair, of a secret
    pair and of a view read back as what was written, valid, whatever the objects
    they are read into held before. *)
Theorem malleable_text {DG : Digests} {DGok : DigestsOk} {C : OpenSSL_EC} {Cok : OpenSSL_EC_ok C} L H m v vbL vbH :
  secret_ok L → secret_ok H → length vbL = 65%nat → length vbH = 65%nat →
  ∃ mpk view s1 s2 s3, mk_GetMalleablePubKey (mkMK L H) = Some mpk ∧ mkv_of_key (mkMK L H) = Some view ∧
    mpk_ToString mpk = Some s1 ∧ mpk_SetString vbL vbH s1 = Some (true, mpk) ∧
    mk_ToString (mkMK L H) = Some s2 ∧ mk_SetString m s2 = Some (true, mkMK L H) ∧
    mkv_ToString view = Some s3 ∧ mkv_SetString v vbH s3 = Some (true, view).
Proof.
  intros HL HH HvL HvH. destruct (mkv_valid L H HL HH) as (Hv & Hval & Hm). destruct (length_pubkey_Serialize L HL) as [HLl HLd]. destruct (length_pubkey_Serialize H HH) as [HHl HHd].
  destruct (secret_stream L [] HL) as (_ & Hsl & Hsd). destruct (secret_stream H [] HH) as (Hsr & Hsl' & Hsd'). rewrite app_nil_r in Hsr.
  destruct (key_compressed_form L HL) as (_ & _ & _ & HvalL). destruct (key_compressed_form H HH) as (_ & _ & _ & HvalH).
  set (pkL := key_GetPubKey (mkKey L true)) in *. set (pkH := key_GetPubKey (mkKey H true)) in *.
  destruct (Base58Check_inverse (mpk_Raw (mkMPK pkL pkH))) as (s1 & E1 & D1); [by apply Forall_app|].
  destruct (Base58Check_inverse (mk_Raw (mkMK L H))) as (s2 & E2 & D2); [by apply Forall_app|].
  destruct (Base58Check_inverse (mkv_Raw (mkMKV L pkH))) as (s3 & E3 & D3); [by apply Forall_app|].
  exists (mkMPK pkL pkH), (mkMKV L pkH), s1, s2, s3. split; [done|]. split; [done|]. split; [done|].
  destruct (pubkey_stream H vbH [] HH HvH) as (wH & HwH & HpH). rewrite app_nil_r in HwH. fold pkH in HwH, HpH. split; [|split; [done|split; [|split; [done|]]]].
  - unfold mpk_SetString, mpk_setvch, mpk_read. rewrite D1. cbn [mbind option_bind]. unfold mpk_Raw. cbn [pubKeyL pubKeyH]. rewrite length_app, HLl, HHl. cbn [Nat.add Nat.eqb negb].
    destruct (pubkey_stream L vbL (pubkey_Serialize pkH) HL HvL) as (wL & HwL & HpL). fold pkL in HwL, HpL. rewrite HwL. cbn [mbind option_bind]. rewrite HwH. cbn [mbind option_bind].
    rewrite HpL, HpH. unfold mpk_IsValid. cbn [pubKeyL pubKeyH]. by rewrite HvalL, HvalH.
  - unfold mk_SetString. rewrite D2. cbn [mbind option_bind]. unfold mk_Raw. cbn [mk_SecretL mk_SecretH]. rewrite length_app, Hsl, Hsl'. cbn [Nat.add Nat.eqb negb].
    destruct (secret_stream L (ser_bytes H) HL) as (-> & _). cbn [mbind option_bind]. rewrite Hsr. cbn [mbind option_bind]. unfold mk_IsValid, mk_IsNull. cbn [mk_SecretL mk_SecretH].
    rewrite (key_length _ HL : length L = 32%nat), (key_length _ HH : length H = 32%nat), Hm. cbn [mbind option_bind Nat.eqb negb orb]. unfold mpk_IsValid. cbn [pubKeyL pubKeyH]. by rewrite HvalL, HvalH.
  - unfold mkv_SetString. rewrite D3. cbn [mbind option_bind]. unfold mkv_Raw. cbn [mkv_SecretL mkv_PubKeyH]. rewrite length_app, Hsl, HHl. cbn [Nat.add Nat.eqb negb].
    destruct (secret_stream L (pubkey_Serialize pkH) HL) as (-> & _). cbn [mbind option_bind]. rewrite HwH. cbn [mbind option_bind]. rewrite HpH, Hval. done.
Qed.

(** ** A curve with thirteen points

    The integers modulo 13: a model of the laws, with the smaller of [P] and [-P] as
    abscissa. *)

Record toy_point := TP { tp : Z; tp_ok : bool_decide (0 <= tp < 13) = true }.
Lemma tp_eq P Q : tp P = tp Q → P = Q.
Proof. destruct P as [p Hp], Q as [q Hq]. cbn. intros <-. f_equal. apply proof_irrel. Qed.
#[export] Instance toy_point_eq : EqDecision toy_point.
Proof. intros P Q. destruct (decide (tp P = tp Q)) as [E|E]; [left; by apply tp_eq|right; by intros ->]. Defined.
Lemma mod13 z : bool_decide (0 <= z mod 13 < 13) = true.
Proof. apply bool_decide_eq_true, Z.mod_pos_bound. lia. Qed.
Definition to13 (z : Z) : toy_point := TP (z mod 13) (mod13 z).
Definition x13 (z : Z) : Z := Z.min (z mod 13) ((- z) mod 13).
Definition verify13 (q e r s : Z) : bool :=
  let w := Z.invmod s 13 in
  let X := (e * w + r * w * q) mod 13 in
  (0 <? r) && (r <? 13) && (0 <? s) && (s <? 13) && negb (X =? 0) && (x13 X =? r).
Definition pairs13 : list (Z * Z) := list_prod (seqZ 1 12) (seqZ 1 12).

Definition toy_curve : OpenSSL_EC := {|
  EC_POINT := toy_point;
  EC_infinity := to13 0;
  EC_generator := to13 1;
  EC_add P Q := to13 (tp P + tp Q);
  EC_scale k P := to13 (k * tp P);
  EC_order := 13;
  EC_field := 7;
  EC_degree := 256;
  EC_x P := x13 (tp P);
  EC_set_compressed x y := if (1 <=? x) && (x <=? 6) then Some (to13 (if x mod 2 =? y then x else - x)) else None;
  EC_point2oct P c := if tp P =? 0 then [0] else if c then 2 :: replicate 31 0 ++ [tp P] else 4 :: replicate 63 0 ++ [tp P];
  EC_oct2point l := match head (rev l) with Some z => if (1 <=? z) && (z <=? 12) then Some (to13 z) else None | None => None end;
  EC_KEY_set_private_key _ := true;
  EC_KEY_check_key d Q := bool_decide (Q = to13 d) && negb (tp Q =? 0);
  ECDSA_do_sign d m :=
    if (be_val m + d) mod 13 =? 0 then Some (2, ((be_val m + 2 * d) * 7) mod 13) else Some (1, (be_val m + d) mod 13);
  ECDSA_verify Q m sig := existsb (λ p, bool_decide (der_sig (mpi_body p.1) (mpi_body p.2) [] = sig) && verify13 (tp Q) (be_val m) p.1 p.2) pairs13;
  i2d_ECDSA_SIG p := der_sig (mpi_body p.1) (mpi_body p.2) [];
  d2i_ECDSA_SIG sig := List.find (λ p, bool_decide (der_sig (mpi_body p.1) (mpi_body p.2) [] = sig)) pairs13;
  BN_mod_inverse a n := if Z.gcd a n =? 1 then Some (Z.invmod a n) else None
|}.

Lemma in_pairs13 r s : 0 < r < 13 → 0 < s < 13 → In (r, s) pairs13.
Proof. intros Hr Hs. apply in_prod; apply list_elem_of_In, elem_of_seqZ; lia. Qed.
(** Facts about 13 are checked on all its residues. *)
Lemma all13 (P : Z → bool) z : forallb P (seqZ 0 13) = true → P (z mod 13) = true.
Proof. intros H. apply (proj1 (forallb_forall P _) H). apply list_elem_of_In, elem_of_seqZ. assert (Hz := Z.mod_pos_bound z 13). lia. Qed.
Lemma prime13 : Z.prime 13.
Proof. split; [lia|]. intros n Hn [k Hk]. assert (n ∈ seqZ 2 11) as Hin by (apply elem_of_seqZ; lia). cbn in Hin. repeat (apply elem_of_cons in Hin as [->|Hin]; [lia|]). by apply not_elem_of_nil in Hin. Qed.
Lemma tp_range (P : toy_point) : 0 <= tp P < 13.
Proof. exact (proj1 (bool_decide_eq_true _) (tp_ok P)). Qed.
Lemma tp_to13 (P : toy_point) : to13 (tp P) = P.
Proof. apply tp_eq, Z.mod_small, tp_range. Qed.
Lemma x13_mod z : x13 (z mod 13) = x13 z.
Proof. unfold x13. rewrite Z.mod_mod by lia. f_equal. rewrite <- (Z.sub_0_l (z mod 13)), <- (Z.sub_0_l z). apply Zminus_mod_idemp_r. Qed.
Lemma inverse13 w s : (w * s) mod 13 = 1 → ∀ a, (a * Z.invmod s 13) mod 13 = (a * w) mod 13.
Proof.
  intros Hw a. assert (Hs : s mod 13 ≠ 0) by (intros E; rewrite Z.mul_mod, E, Z.mul_0_r in Hw by lia; done). assert (Hi := Z.invmod_prime s 13 prime13 Hs).
  replace (a * Z.invmod s 13) with (a * Z.invmod s 13 * 1) by lia. rewrite <- Hw, Z.mul_mod_idemp_r by lia.
  replace (a * Z.invmod s 13 * (w * s)) with (a * w * (Z.invmod s 13 * s)) by lia. rewrite Z.mul_mod, Hi, Z.mul_1_r, Z.mod_mod by lia. done.
Qed.
Lemma tp_sum a b c d : EC_add (OpenSSL_EC := toy_curve) (EC_scale (OpenSSL_EC := toy_curve) a (to13 b)) (EC_scale (OpenSSL_EC := toy_curve) c d) = to13 (a * b + c * tp d).
Proof. apply tp_eq. cbn. rewrite Z.mul_mod_idemp_r, <- Z.add_mod by lia. done. Qed.
Lemma verify13_ok (Q : toy_point) e r s : verify13 (tp Q) e r s = true ↔ ecdsa (H := toy_curve) Q e r s.
Proof.
  unfold ecdsa. cbn [EC_order EC_generator EC_infinity EC_x toy_curve]. split.
  - unfold verify13. intros H. repeat (apply andb_prop in H as [H ?]). split; [lia|]. split; [lia|]. exists (Z.invmod s 13).
    assert (Hs : s mod 13 ≠ 0) by (rewrite Z.mod_small; lia). split; [by apply Z.invmod_prime; [apply prime13|]|]. rewrite tp_sum, Z.mul_1_r.
    split; [intros E; apply (f_equal tp) in E; cbn [tp to13] in E; rewrite Z.mod_0_l in E by lia; match goal with H : negb _ = true |- _ => by rewrite E in H end|]. cbn [tp to13]. assert (Hx : x13 ((e * Z.invmod s 13 + r * Z.invmod s 13 * tp Q) mod 13) = r) by lia. rewrite Hx. apply Z.mod_small. lia.
  - intros (Hr & Hs & w & Hw & HX & Hx). rewrite tp_sum, Z.mul_1_r in HX, Hx. cbn [tp to13] in Hx. unfold verify13.
    assert (E : (e * Z.invmod s 13 + r * Z.invmod s 13 * tp Q) mod 13 = (e * w + r * w * tp Q) mod 13).
    { replace (e * Z.invmod s 13 + r * Z.invmod s 13 * tp Q) with ((e + r * tp Q) * Z.invmod s 13) by ring. rewrite (inverse13 w s Hw). f_equal. ring. }
    rewrite E. rewrite (proj2 (Z.ltb_lt 0 r)), (proj2 (Z.ltb_lt r 13)), (proj2 (Z.ltb_lt 0 s)), (proj2 (Z.ltb_lt s 13)) by lia. cbn [andb].
    rewrite (proj2 (Z.eqb_neq _ 0)) by (intros E0; apply HX, tp_eq, E0). cbn [negb andb]. apply Z.eqb_eq. rewrite x13_mod in Hx |- *. rewrite Z.mod_small in Hx; [done|].
    unfold x13. assert (H1 := Z.mod_pos_bound (e * w + r * w * tp Q) 13 ltac:(lia)). assert (H2 := Z.mod_pos_bound (- (e * w + r * w * tp Q)) 13 ltac:(lia)). lia.
Qed.
Lemma verify13_mod q e r s : verify13 (q mod 13) (e mod 13) r s = verify13 (q mod 13) e r s.
Proof. unfold verify13. rewrite <- (Zplus_mod_idemp_l (e mod 13 * _)), Z.mul_mod_idemp_l, Zplus_mod_idemp_l by lia. done. Qed.
Definition sign13 (d e : Z) : Z * Z := if (e + d) mod 13 =? 0 then (2, ((e + 2 * d) * 7) mod 13) else (1, (e + d) mod 13).
Lemma sign13_mod d e : sign13 (d mod 13) (e mod 13) = sign13 d e.
Proof.
  unfold sign13. rewrite <- Zplus_mod. replace (((e mod 13 + 2 * (d mod 13)) * 7) mod 13) with (((e + 2 * d) * 7) mod 13); [done|].
  rewrite (Z.mod_eq e 13), (Z.mod_eq d 13) by lia.
  replace ((e - 13 * (e / 13) + 2 * (d - 13 * (d / 13))) * 7) with ((e + 2 * d) * 7 + (- (e / 13 + 2 * (d / 13)) * 7) * 13) by lia. symmetry. apply Z_mod_plus_full.
Qed.
Lemma sign13_ok d m : d mod 13 ≠ 0 → ∃ r s, ECDSA_do_sign (OpenSSL_EC := toy_curve) d m = Some (r, s) ∧ ecdsa (H := toy_curve) (to13 d) (be_val m) r s.
Proof.
  intros Hd. exists (sign13 d (be_val m)).1, (sign13 d (be_val m)).2. split; [cbn [ECDSA_do_sign toy_curve]; unfold sign13; by destruct (_ =? 0)|]. apply verify13_ok. cbn [tp to13]. rewrite <- verify13_mod, <- sign13_mod.
  set (P := λ d e, (d =? 0) || verify13 d e (sign13 d e).1 (sign13 d e).2). assert (H : forallb (λ d, forallb (P d) (seqZ 0 13)) (seqZ 0 13) = true) by (vm_compute; reflexivity).
  apply (all13 _ d) in H. apply (all13 _ (be_val m)) in H. unfold P in H. rewrite (proj2 (Z.eqb_neq _ 0)) in H by done. exact H.
Qed.

Lemma d2i13 r s p : 0 < r < 13 → 0 < s < 13 → In p pairs13 → der_sig (mpi_body p.1) (mpi_body p.2) [] = der_sig (mpi_body r) (mpi_body s) [] → p = (r, s).
Proof.
  intros Hr Hs Hp E. set (P := λ p q : Z * Z, bool_decide (der_sig (mpi_body p.1) (mpi_body p.2) [] = der_sig (mpi_body q.1) (mpi_body q.2) [] → p = q)).
  assert (H : forallb (λ p, forallb (P p) pairs13) pairs13 = true) by (vm_compute; reflexivity). apply (proj1 (forallb_forall _ _) H p) in Hp.
  assert (Hq := proj1 (forallb_forall _ _) Hp (r, s) (in_pairs13 r s Hr Hs)). apply bool_decide_eq_true in Hq. auto.
Qed.

Lemma compressed13 z : 0 < z < 13 → ∃ y, 0 <= y <= 1 ∧ ∃ Q, EC_set_compressed (OpenSSL_EC := toy_curve) (x13 z) y = Some Q ∧ tp Q = z.
Proof.
  intros Hz. assert (z ∈ seqZ 1 12) as Hin by (apply elem_of_seqZ; lia). change (seqZ 1 12) with [1; 2; 3; 4; 5; 6; 7; 8; 9; 10; 11; 12] in Hin.
  repeat (apply elem_of_cons in Hin as [->|Hin]; [solve [exists 0; split; [lia|]; by eexists|exists 1; split; [lia|]; by eexists]|]). by apply not_elem_of_nil in Hin.
Qed.
#[export] Instance toy_curve_ok : OpenSSL_EC_ok toy_curve.
Proof.
  split; cbn [EC_POINT EC_order EC_field EC_degree EC_infinity EC_generator EC_add EC_scale EC_x EC_set_compressed EC_point2oct EC_oct2point i2d_ECDSA_SIG d2i_ECDSA_SIG BN_mod_inverse toy_curve].
  - apply prime13.
  - vm_compute. split; congruence.
  - lia.
  - done.
  - intros P Q. apply tp_eq. cbn. f_equal. lia.
  - intros P Q R. apply tp_eq. cbn. rewrite Zplus_mod_idemp_r, Zplus_mod_idemp_l. f_equal. lia.
  - intros P. rewrite <- (tp_to13 P) at 2. apply tp_eq. cbn. done.
  - intros P. rewrite <- (tp_to13 P) at 2. apply tp_eq. cbn [tp to13]. f_equal. lia.
  - intros a b P. apply tp_eq. cbn [tp to13]. rewrite <- Zplus_mod. f_equal. lia.
  - intros a b P. apply tp_eq. cbn [tp to13]. rewrite Z.mul_mod_idemp_r by lia. f_equal. lia.
  - intros a P Q. apply tp_eq. cbn [tp to13]. rewrite Z.mul_mod_idemp_r, <- Zplus_mod by lia. f_equal. lia.
  - intros P. apply tp_eq. cbn [tp to13]. rewrite Z.mul_comm. apply Z_mod_mult.
  - intros k E. apply (f_equal tp) in E. cbn in E. by rewrite Z.mul_1_r in E.
  - intros P HP. assert (Hr := tp_range P). assert (tp P ≠ 0) by (intros E; apply HP, tp_eq, E). unfold x13. rewrite Z.mod_opp_l_nz by (rewrite ?Z.mod_small; lia). rewrite Z.mod_small by lia. lia.
  - intros P. cbn [tp to13]. rewrite x13_mod. unfold x13. rewrite Z.min_comm. f_equal; f_equal; lia.
  - intros x y P. destruct ((1 <=? x) && (x <=? 6)) eqn:E; [|done]. intros [= <-]. split.
    + intros E0. apply (f_equal tp) in E0. cbn [tp to13] in E0. destruct (_ =? y); [rewrite !Z.mod_small in E0 by lia; lia|]. rewrite Z.mod_opp_l_nz in E0 by (rewrite ?Z.mod_small; lia). rewrite !Z.mod_small in E0 by lia. lia.
    + cbn [tp to13]. rewrite x13_mod. assert (x ∈ seqZ 1 6) as Hin by (apply elem_of_seqZ; lia). cbn in Hin. repeat (apply elem_of_cons in Hin as [->|Hin]; [by destruct (_ =? y)|]). by apply not_elem_of_nil in Hin.
  - intros P HP. assert (Hr := tp_range P). assert (tp P ≠ 0) by (intros E; apply HP, tp_eq, E). destruct (compressed13 (tp P)) as (y & Hy & Q & EQ & Et); [lia|].
    exists y. split; [done|]. cbn in EQ. rewrite EQ. f_equal. by apply tp_eq.
  - intros P c HP. assert (Hr := tp_range P). assert (tp P ≠ 0) by (intros E; apply HP, tp_eq, E). rewrite (proj2 (Z.eqb_neq _ 0)) by done.
    destruct c; eexists _, _; (split; [reflexivity|]); rewrite length_app, length_replicate; (split; [|done || tauto]); (apply Forall_app; split; [by apply digits_ok_replicate_0|]); by apply Forall_cons_2; [lia|].
  - intros P c HP. assert (Hr := tp_range P). assert (tp P ≠ 0) by (intros E; apply HP, tp_eq, E). rewrite (proj2 (Z.eqb_neq _ 0)) by done.
    assert (E : head (rev (if c then 2 :: replicate 31 0 ++ [tp P] else 4 :: replicate 63 0 ++ [tp P])) = Some (tp P)) by (destruct c; cbn [rev]; by rewrite rev_app_distr). rewrite E.
    rewrite (proj2 (Z.leb_le 1 _)), (proj2 (Z.leb_le _ 12)) by lia. by rewrite tp_to13.
  - intros d m Hd _ _. rewrite (tp_eq (to13 (d * tp (to13 1))) (to13 d)) by (cbn [tp to13]; change (1 mod 13) with 1; by rewrite Z.mul_1_r). by apply sign13_ok.
  - intros Q m r s _ _ Hr Hs. rewrite <- verify13_ok. cbn [ECDSA_verify toy_curve fst snd]. rewrite existsb_exists. split.
    + intros (p & Hp & [E%bool_decide_eq_true Hv]%andb_prop). assert (Hall := d2i13 r s p Hr Hs Hp E). by subst p.
    + intros Hv. exists (r, s). split; [by apply in_pairs13|]. cbn [fst snd]. by rewrite bool_decide_eq_true_2.
  - done.
  - intros r s Hr Hs. destruct (List.find _ pairs13) as [p|] eqn:E.
    + apply find_some in E as [Hp E%bool_decide_eq_true]. f_equal. by apply d2i13.
    + assert (Hin := find_none _ _ E (r, s) (in_pairs13 r s Hr Hs)). by apply bool_decide_eq_false in Hin.
  - intros a n Hn Hg. rewrite Hg. exists (Z.invmod a n). split; [done|]. rewrite Z.mul_comm. apply Z.invmod_coprime; [lia|done].
Qed.

#[local] Existing Instances sample_digests sample_digests_ok toy_curve.
Definition toy_secret (z : Z) : list Z := replicate 31 1 ++ [z].
Lemma toy_secret_ok z c : 0 <= z < 256 → be_val (toy_secret z) mod 13 ≠ 0 → key_ok (mkKey (toy_secret z) c).
Proof. intros Hz Hm. split; [done| |done|done]. apply Forall_app. split; [repeat constructor; lia|by apply Forall_cons_2]. Qed.
Definition toy_hash : base_uint := Hash [1; 2; 3].

Lemma key_signatures_witness : ∃ vchSig, key_Sign (mkKey (toy_secret 2) true) toy_hash = Some vchSig ∧
  pubkey_Verify (key_GetPubKey (mkKey (toy_secret 2) true)) toy_hash vchSig = true ∧
  ∃ compact, SignCompact (mkKey (toy_secret 2) true) toy_hash [] = Some (true, compact) ∧
    SetCompactSignature [] toy_hash compact = (true, key_GetPubKey (mkKey (toy_secret 2) true)).
Proof.
  destruct (key_signatures (mkKey (toy_secret 2) true) toy_hash [] []) as ((sig & H1 & H2 & _) & compact & H3 & H4).
  - apply toy_secret_ok; [lia|vm_compute; congruence].
  - apply Hash_wf.
  - exists sig. split; [exact H1|]. split; [exact H2|]. exists compact. split; [exact H3|exact H4].
Defined.

Definition toy_pair : CMalleableKey := mkMK (toy_secret 2) (toy_secret 5).
Lemma malleable_keys_witness : ∃ mpk R K p, mk_GetMalleablePubKey toy_pair = Some mpk ∧ mpk_GetVariant mpk 4 = Some (R, K) ∧
  mk_CheckKeyVariant toy_pair R K = Some true ∧ EC_oct2point K = Some (EC_scale p EC_generator) ∧
  mk_PrivKeyVariant toy_pair R K = Some (true, Some (mkKey (be_mag p) true)).
Proof.
  destruct (malleable_keys (toy_secret 2) (toy_secret 5)) as (mpk & view & H1 & _ & H3 & H4).
  - apply toy_secret_ok; [lia|vm_compute; congruence].
  - apply toy_secret_ok; [lia|vm_compute; congruence].
  - assert (Hg : ∃ R K, mpk_GetVariant mpk 4 = Some (R, K)).
    { vm_compute in H1. injection H1 as <-. eexists _, _. vm_compute. reflexivity. }
    destruct Hg as (R & K & Hg). destruct (H3 4 R K) as [Hc _]; [vm_compute; congruence|exact Hg|]. destruct (H4 R K Hc) as (p & Hp & HK & Hpriv).
    exists mpk, R, K, p. split; [exact H1|]. split; [exact Hg|]. split; [exact Hc|]. split; [exact HK|]. unfold toy_pair. rewrite Hpriv.
    assert (Hh : 2 ^ 248 <= be_val (toy_secret 5) < 2 ^ 255) by (vm_compute; split; congruence).
    rewrite (proj2 (Z.leb_le _ _)), (proj2 (Z.ltb_lt _ _)) by lia. reflexivity.
Defined.

Lemma malleable_text_witness : ∃ s, mk_ToString toy_pair = Some s ∧ mk_SetString (mkMK [] []) s = Some (true, toy_pair).
Proof.
  destruct (malleable_text (toy_secret 2) (toy_secret 5) (mkMK [] []) (mkMKV [] []) (replicate 65 255) (replicate 65 255)) as (mpk & view & s1 & s2 & s3 & _ & _ & _ & _ & H1 & H2 & _).
  - apply toy_secret_ok; [lia|vm_compute; congruence].
  - apply toy_secret_ok; [lia|vm_compute; congruence].
  - reflexivity.
  - reflexivity.
  - exists s2. split; [exact H1|exact H2].
Defined.

(** A pair whose second secret starts with a zero byte: the one-time key is
    recognised, but its private key cannot be rebuilt *)
Definition short_pair : CMalleableKey := mkMK (toy_secret 2) (0 :: replicate 31 1).
Example short_secret_unspendable :
  match (mpk ← mk_GetMalleablePubKey short_pair; mpk_GetVariant mpk 4) with
  | Some (R, K) => mk_CheckKeyVariant short_pair R K = Some true ∧ mk_PrivKeyVariant short_pair R K = None
  | None => False
  end.
Proof. vm_compute. split; reflexivity. Qed.
(** A compact signature with [s = 0] is accepted, though it is no ECDSA signature for any key *)
Example SetCompactSignature_zero : (SetCompactSignature [] toy_hash (27 :: replicate 31 0 ++ [1] ++ replicate 32 0)).1 = true ∧
  ∀ Q e, ~ ecdsa Q e 1 0.
Proof. split; [vm_compute; reflexivity|]. intros Q e (_ & H & _). lia. Qed.
