(* ===== verification/KeyStore.v ===== *)
(** * Key stores (src/keystore.cpp, src/keystore.h, src/crypter.cpp)

    The store of keys, redeem scripts and watched scripts, in the clear or
    encrypted under a master key.  AES and key derivation are OpenSSL's and come as a
    class with the laws the code relies on.  Clients use
    the interface [CKeyStore] at the end of the file. *)

From stdpp Require Import base list numbers option gmap sorting.
From Stdlib Require Import ZArith Lia.
From S2P Require Import Prelude Uint256 Bignum Serialize Tx Script Interp SigCheck ScriptStd Base58 Key.

Open Scope Z_scope.

(** ** OpenSSL *)

(** AES-256 in CBC mode with a key and an initialisation vector of which it uses 16
    bytes, and [EVP_BytesToKey] *)
Class EVP := {
  EVP_encrypt : list Z → list Z → list Z → option (list Z);
  EVP_decrypt : list Z → list Z → list Z → option (list Z);
  EVP_BytesToKey : list Z → list Z → Z → Z * list Z * list Z
}.
Class EVPOk `{E : EVP} : Prop := {
  EVP_total k iv p : length k = 32%nat → is_Some (EVP_encrypt k iv p);
  EVP_inverse k iv p c : length k = 32%nat → EVP_encrypt k iv p = Some c → EVP_decrypt k iv c = Some p
}.

(** ** Keys *)

(** The tail of [GetKey], [Unlock] and [DecryptKeys] *)
Definition key_of_secret {C : OpenSSL_EC} (vchSecret : list Z) (pubkey : list Z) : option CKey :=
  k ← key_SetSecret vchSecret true; Some (SetCompressedPubKey k (pubkey_IsCompressed pubkey)).

(** ** [CCrypter] *)

Section Crypter.
Context {E : EVP}.

Definition WALLET_CRYPTO_KEY_SIZE : nat := 32.
Definition WALLET_CRYPTO_SALT_SIZE : nat := 8.
Record CCrypter := mkCrypter { chKey : list Z; chIV : list Z; fKeySet : bool }.
Definition CCrypter_new : CCrypter := mkCrypter [] [] false.

Definition SetKeyFromPassphrase (c : CCrypter) (strKeyData chSalt : list Z) (nRounds nDerivationMethod : Z) : bool * CCrypter :=
  if (nRounds <? 1) || negb (length chSalt =? WALLET_CRYPTO_SALT_SIZE)%nat then (false, c)
  else
    let '(i, key, iv) := if nDerivationMethod =? 0 then EVP_BytesToKey chSalt strKeyData nRounds else (0, chKey c, chIV c) in
    if negb (i =? Z.of_nat WALLET_CRYPTO_KEY_SIZE)
    then (false, mkCrypter (replicate WALLET_CRYPTO_KEY_SIZE 0) (replicate WALLET_CRYPTO_KEY_SIZE 0) (fKeySet c))
    else (true, mkCrypter key iv true).
Definition crypter_SetKey (c : CCrypter) (chNewKey chNewIV : list Z) : bool * CCrypter :=
  if negb (length chNewKey =? WALLET_CRYPTO_KEY_SIZE)%nat || negb (length chNewIV =? WALLET_CRYPTO_KEY_SIZE)%nat then (false, c)
  else (true, mkCrypter chNewKey chNewIV true).
Definition crypter_Encrypt (c : CCrypter) (vchPlaintext : list Z) : option (list Z) :=
  if fKeySet c then EVP_encrypt (chKey c) (chIV c) vchPlaintext else None.
Definition crypter_Decrypt (c : CCrypter) (vchCiphertext : list Z) : option (list Z) :=
  if fKeySet c then EVP_decrypt (chKey c) (chIV c) vchCiphertext else None.

Definition EncryptSecret (vMasterKey vchPlaintext : list Z) (nIV : base_uint) : option (list Z) :=
  let '(ok, c) := crypter_SetKey CCrypter_new vMasterKey (getBytes nIV) in
  if negb ok then None else crypter_Encrypt c vchPlaintext.
Definition DecryptSecret (vMasterKey vchCiphertext : list Z) (nIV : base_uint) : option (list Z) :=
  let '(ok, c) := crypter_SetKey CCrypter_new vMasterKey (getBytes nIV) in
  if negb ok then None else crypter_Decrypt c vchCiphertext.
End Crypter.

(** ** Destinations of scripts (src/script.cpp) *)

Section Destination.
Context {DG : Digests}.

Definition script_GetID (script : list Z) : base_uint := Hash160 script.
(** [CScript::SetDestination] *)
Definition SetDestination (dest : CTxDestination) : list Z :=
  match dest with
  | CNoDestination => []
  | CKeyID keyID => p2pkh keyID
  | CScriptID scriptID => push_uint [OP_HASH160] scriptID ++ [OP_EQUAL]
  end.
Definition ExtractDestination (scriptPubKey : list Z) : option CTxDestination :=
  let '(ok, whichType, vSolutions) := Solver scriptPubKey in
  if negb ok then None
  else
    match whichType with
    | TX_PUBKEY => Some (CKeyID (pubkey_GetID (CPubKey_Set (nth 0 vSolutions []))))
    | TX_PUBKEYHASH => Some (CKeyID (bu_of_vch W160 (nth 0 vSolutions [])))
    | TX_SCRIPTHASH => Some (CScriptID (bu_of_vch W160 (nth 0 vSolutions [])))
    | _ => None
    end.

(** The type, the destinations and the number of signatures required *)
Definition ExtractDestinations (scriptPubKey : list Z) : option (txnouttype * list CTxDestination * Z) :=
  let '(ok, typeRet, vSolutions) := Solver scriptPubKey in
  if negb ok then None
  else
    match typeRet with
    | TX_NULL_DATA => Some (typeRet, [], 0)
    | TX_MULTISIG =>
        let keys := take (length vSolutions - 2) (drop 1 vSolutions) in
        Some (typeRet, map (λ k, CKeyID (pubkey_GetID (CPubKey_Set k))) keys, nth 0 (nth 0 vSolutions []) 0)
    | TX_PUBKEY_DROP => Some (typeRet, [], 1)
    | _ => match ExtractDestination scriptPubKey with None => None | Some address => Some (typeRet, [address], 1) end
    end.
End Destination.

(** ** The store *)

Abbreviation View := CMalleableKeyView.

(** The entries of a [std::map] in the order of its keys *)
Definition id_le {A} (a b : base_uint * A) : Prop := bu_lt b.1 a.1 = false.
#[export] Instance id_le_dec {A} : RelDecision (id_le (A := A)).
Proof. intros a b. unfold id_le. apply _. Defined.
Definition id_order {A} (m : gmap base_uint A) : list (base_uint * A) := merge_sort id_le (map_to_list m).

Section Store.
Context {DG : Digests} {C : OpenSSL_EC} {E : EVP}.
Variable fTestNet : bool.
Variable pair_valid : list Z → bool.

(** [CBasicKeyStore] with what [CCryptoKeyStore] adds *)
Record KeyStore := mkStore {
  mapKeys : gmap base_uint (list Z * bool);
  mapMalleableKeys : gmap base_uint (View * list Z);
  mapScripts : gmap base_uint (list Z);
  setWatchOnly : gset (list Z);
  mapCryptedKeys : gmap base_uint (list Z * list Z);
  mapCryptedMalleableKeys : gmap base_uint (View * list Z);
  vMasterKey : list Z;
  fUseCrypto : bool
}.
Definition with_keys (s : KeyStore) (k : gmap base_uint (list Z * bool)) (mk : gmap base_uint (View * list Z)) : KeyStore :=
  mkStore k mk (mapScripts s) (setWatchOnly s) (mapCryptedKeys s) (mapCryptedMalleableKeys s) (vMasterKey s) (fUseCrypto s).
Definition with_scripts (s : KeyStore) (sc : gmap base_uint (list Z)) (w : gset (list Z)) : KeyStore :=
  mkStore (mapKeys s) (mapMalleableKeys s) sc w (mapCryptedKeys s) (mapCryptedMalleableKeys s) (vMasterKey s) (fUseCrypto s).
Definition with_crypted (s : KeyStore) (k : gmap base_uint (list Z * list Z)) (mk : gmap base_uint (View * list Z)) : KeyStore :=
  mkStore (mapKeys s) (mapMalleableKeys s) (mapScripts s) (setWatchOnly s) k mk (vMasterKey s) (fUseCrypto s).
Definition with_master (s : KeyStore) (master : list Z) (crypto : bool) : KeyStore :=
  mkStore (mapKeys s) (mapMalleableKeys s) (mapScripts s) (setWatchOnly s) (mapCryptedKeys s) (mapCryptedMalleableKeys s) master crypto.

(** [m[view] = x]: a view with the same [H] stays as the key of the entry *)
Definition insert_view (m : gmap base_uint (View * list Z)) (view : View) (x : list Z) : gmap base_uint (View * list Z) :=
  let id := pubkey_GetID (mkv_PubKeyH view) in
  <[id := (match m !! id with Some (view, _) => view | None => view end, x)]> m.

(** *** [CBasicKeyStore] *)

Definition basic_AddKey (s : KeyStore) (key : CKey) : KeyStore :=
  with_keys s (<[pubkey_GetID (key_GetPubKey key) := key_GetSecret key]> (mapKeys s)) (mapMalleableKeys s).
Definition basic_AddMalleableKey (s : KeyStore) (view : View) (vchSecretH : list Z) : KeyStore :=
  with_keys s (mapKeys s) (insert_view (mapMalleableKeys s) view vchSecretH).
Definition basic_HaveKey (s : KeyStore) (address : base_uint) : bool := bool_decide (is_Some (mapKeys s !! address)).
(** The outer [None] is an exception of [SetSecret] *)
Definition basic_GetKey (s : KeyStore) (address : base_uint) : option (option CKey) :=
  match mapKeys s !! address with
  | None => Some None
  | Some (secret, fCompressed) => k ← key_SetSecret secret fCompressed; Some (Some k)
  end.
Definition AddCScript (s : KeyStore) (redeemScript : list Z) : bool * KeyStore :=
  if Z.of_nat (length redeemScript) >? MAX_SCRIPT_ELEMENT_SIZE then (false, s)
  else (true, with_scripts s (<[script_GetID redeemScript := redeemScript]> (mapScripts s)) (setWatchOnly s)).
Definition HaveCScript (s : KeyStore) (hash : base_uint) : bool := bool_decide (is_Some (mapScripts s !! hash)).
Definition GetCScript (s : KeyStore) (hash : base_uint) : option (list Z) := mapScripts s !! hash.
Definition RemoveWatchOnly (s : KeyStore) (dest : list Z) : KeyStore := with_scripts s (mapScripts s) (setWatchOnly s ∖ {[dest]}).
Definition HaveWatchOnly (s : KeyStore) (dest : list Z) : bool := bool_decide (dest ∈ (setWatchOnly s : gset (list Z))).

(** The first view the one-time key belongs to; the outer [None] is an exception *)
Fixpoint find_view_in (l : list (base_uint * (View * list Z))) (R pubKeyVariant : list Z) : option (option (View * list Z)) :=
  match l with
  | [] => Some None
  | (_, (view, x)) :: l => b ← mkv_CheckKeyVariant view R pubKeyVariant; if b : bool then Some (Some (view, x)) else find_view_in l R pubKeyVariant
  end.
Definition find_view (m : gmap base_uint (View * list Z)) (R pubKeyVariant : list Z) : option (option (View * list Z)) :=
  find_view_in (id_order m) R pubKeyVariant.
Definition basic_CheckOwnership (s : KeyStore) (pubKeyVariant R : list Z) : option (option View) :=
  e ← find_view (mapMalleableKeys s) R pubKeyVariant; Some (option_map fst e).
(** The verdict and the key, which need not be set *)
Definition basic_CreatePrivKey (s : KeyStore) (pubKeyVariant R : list Z) : option (bool * option CKey) :=
  e ← find_view (mapMalleableKeys s) R pubKeyVariant;
  match e with
  | None => Some (false, None)
  | Some (view, vchSecretH) => mKey ← mkv_GetMalleableKey view vchSecretH; mk_PrivKeyVariant mKey R pubKeyVariant
  end.
Definition basic_GetMalleableKey (s : KeyStore) (keyView : View) : option (option CMalleableKey) :=
  match mapMalleableKeys s !! pubkey_GetID (mkv_PubKeyH keyView) with
  | None => Some None
  | Some (view, vchSecretH) => mKey ← mkv_GetMalleableKey view vchSecretH; Some (Some mKey)
  end.

(** *** [CCryptoKeyStore] *)

Definition IsCrypted (s : KeyStore) : bool := fUseCrypto s.
Definition IsLocked (s : KeyStore) : bool := fUseCrypto s && bool_decide (vMasterKey s = []).
Definition SetCrypted (s : KeyStore) : bool * KeyStore :=
  if fUseCrypto s then (true, s)
  else if negb (bool_decide (mapKeys s = ∅)) then (false, s)
  else (true, with_master s (vMasterKey s) true).
Definition Lock (s : KeyStore) : bool * KeyStore :=
  let '(ok, s) := SetCrypted s in
  if negb ok then (false, s) else (true, with_master s [] (fUseCrypto s)).

(** The loop looks at the first key only *)
Definition Unlock (s : KeyStore) (vMasterKeyIn : list Z) : option (bool * KeyStore) :=
  let '(ok, s) := SetCrypted s in
  if negb ok then Some (false, s)
  else
    let accept := (true, with_master s vMasterKeyIn (fUseCrypto s)) in
    match id_order (mapCryptedKeys s) with
    | [] => Some accept
    | (_, (vchPubKey, vchCryptedSecret)) :: _ =>
        match DecryptSecret vMasterKeyIn vchCryptedSecret (pubkey_GetHash vchPubKey) with
        | None => Some (false, s)
        | Some vchSecret =>
            if negb (length vchSecret =? 32)%nat then Some (false, s)
            else key ← key_of_secret vchSecret vchPubKey; Some (if bool_decide (key_GetPubKey key = vchPubKey) then accept else (false, s))
        end
    end.

Definition AddCryptedKey (s : KeyStore) (vchPubKey vchCryptedSecret : list Z) : bool * KeyStore :=
  let '(ok, s) := SetCrypted s in
  if negb ok then (false, s)
  else (true, with_crypted s (<[pubkey_GetID vchPubKey := (vchPubKey, vchCryptedSecret)]> (mapCryptedKeys s)) (mapCryptedMalleableKeys s)).
Definition AddCryptedMalleableKey (s : KeyStore) (view : View) (vchCryptedSecretH : list Z) : bool * KeyStore :=
  let '(ok, s) := SetCrypted s in
  if negb ok then (false, s)
  else (true, with_crypted s (mapCryptedKeys s) (insert_view (mapCryptedMalleableKeys s) view vchCryptedSecretH)).

Definition AddKey (s : KeyStore) (key : CKey) : bool * KeyStore :=
  let vchPubKey := key_GetPubKey key in
  if HaveWatchOnly s (SetDestination (CKeyID (pubkey_GetID vchPubKey))) then (false, s)
  else if negb (IsCrypted s) then (true, basic_AddKey s key)
  else if IsLocked s then (false, s)
  else
    match EncryptSecret (vMasterKey s) (key_secret key) (pubkey_GetHash vchPubKey) with
    | None => (false, s)
    | Some vchCryptedSecret => AddCryptedKey s vchPubKey vchCryptedSecret
    end.
Definition AddMalleableKey (s : KeyStore) (view : View) (vchSecretH : list Z) : option (bool * KeyStore) :=
  let '(ok, s) := SetCrypted s in
  if negb ok then Some (true, basic_AddMalleableKey s view vchSecretH)
  else if IsLocked s then Some (false, s)
  else
    keyH ← key_SetSecret vchSecretH true;
    match EncryptSecret (vMasterKey s) vchSecretH (pubkey_GetHash (key_GetPubKey keyH)) with
    | None => Some (false, s)
    | Some vchCryptedSecretH => Some (AddCryptedMalleableKey s view vchCryptedSecretH)
    end.

Definition HaveKey (s : KeyStore) (address : base_uint) : bool :=
  if negb (IsCrypted s) then basic_HaveKey s address else bool_decide (is_Some (mapCryptedKeys s !! address)).
Definition store_GetKey (s : KeyStore) (address : base_uint) : option (option CKey) :=
  if negb (IsCrypted s) then basic_GetKey s address
  else
    match mapCryptedKeys s !! address with
    | None => Some None
    | Some (vchPubKey, vchCryptedSecret) =>
        match DecryptSecret (vMasterKey s) vchCryptedSecret (pubkey_GetHash vchPubKey) with
        | None => Some None
        | Some vchSecret => if negb (length vchSecret =? 32)%nat then Some None else k ← key_of_secret vchSecret vchPubKey; Some (Some k)
        end
    end.
Definition GetPubKey (s : KeyStore) (address : base_uint) : option (option (list Z)) :=
  if negb (IsCrypted s) then match store_GetKey s address with None => None | Some key => Some (option_map key_GetPubKey key) end
  else Some (option_map fst (mapCryptedKeys s !! address)).
Definition GetKeys (s : KeyStore) : gset base_uint := if negb (IsCrypted s) then dom (mapKeys s) else dom (mapCryptedKeys s).

Definition AddWatchOnly (s : KeyStore) (dest : list Z) : bool * KeyStore :=
  let refused :=
    match ExtractDestination dest with
    | None => false
    | Some address =>
        let b := (addr_Set fTestNet address).2 in
        let keyID := match addr_Get fTestNet pair_valid b with CKeyID id => id | _ => bu_of_u64 W160 0 end in
        HaveKey s keyID
    end in
  if refused then (false, s) else (true, with_scripts s (mapScripts s) ({[dest]} ∪ setWatchOnly s)).

Definition CheckOwnership (s : KeyStore) (pubKeyVariant R : list Z) : option (option View) :=
  if negb (IsCrypted s) then basic_CheckOwnership s pubKeyVariant R
  else e ← find_view (mapCryptedMalleableKeys s) R pubKeyVariant; Some (option_map fst e).
(** [GetMalleablePubKey().GetH()] *)
Definition view_H (view : View) : option (list Z) := mpk ← mkv_GetMalleablePubKey view; Some (pubKeyH mpk).
Definition CreatePrivKey (s : KeyStore) (pubKeyVariant R : list Z) : option (bool * option CKey) :=
  if negb (IsCrypted s) then basic_CreatePrivKey s pubKeyVariant R
  else
    e ← find_view (mapCryptedMalleableKeys s) R pubKeyVariant;
    match e with
    | None => Some (true, None)
    | Some (view, x) =>
        H ← view_H view;
        match DecryptSecret (vMasterKey s) x (pubkey_GetHash H) with
        | None => Some (false, None)
        | Some vchSecretH =>
            if negb (length vchSecretH =? 32)%nat then Some (false, None)
            else mKey ← mkv_GetMalleableKey view vchSecretH; mk_PrivKeyVariant mKey R pubKeyVariant
        end
    end.
Definition GetMalleableKey (s : KeyStore) (keyView : View) : option (option CMalleableKey) :=
  if negb (IsCrypted s) then basic_GetMalleableKey s keyView
  else
    match mapCryptedMalleableKeys s !! pubkey_GetID (mkv_PubKeyH keyView) with
    | None => Some None
    | Some (view, x) =>
        H ← view_H keyView;
        match DecryptSecret (vMasterKey s) x (pubkey_GetHash H) with
        | None => Some None
        | Some vchSecretH =>
            if negb (length vchSecretH =? 32)%nat then Some None
            else mKey ← mkv_GetMalleableKey view vchSecretH; Some (Some mKey)
        end
    end.

(** The views in use *)
Definition views_in_use (s : KeyStore) : list View :=
  map (λ e, e.2.1) (id_order (if negb (IsCrypted s) then mapMalleableKeys s else mapCryptedMalleableKeys s)).
Definition ListMalleableViews (s : KeyStore) : list View := views_in_use s.
Fixpoint find_id (l : list View) (mpkID : base_uint) : option (option View) :=
  match l with
  | [] => Some None
  | view :: l => id ← mkv_GetID view; if bu_eq id mpkID then Some (Some view) else find_id l mpkID
  end.
Definition GetMalleableView (s : KeyStore) (mpk : CMalleablePubKey) : option (option View) := find_id (views_in_use s) (mpk_GetID mpk).

(** The loops of [EncryptKeys] and [DecryptKeys]: whether they got to the end *)
Fixpoint encrypt_keys (vMasterKeyIn : list Z) (l : list (base_uint * (list Z * bool))) (s : KeyStore) : option (bool * KeyStore) :=
  match l with
  | [] => Some (true, s)
  | (_, (secret, fCompressed)) :: l =>
      key ← key_SetSecret secret fCompressed;
      let vchPubKey := key_GetPubKey key in
      match EncryptSecret vMasterKeyIn (key_secret key) (pubkey_GetHash vchPubKey) with
      | None => Some (false, s)
      | Some vchCryptedSecret =>
          let '(ok, s) := AddCryptedKey s vchPubKey vchCryptedSecret in
          if negb ok then Some (false, s) else encrypt_keys vMasterKeyIn l s
      end
  end.
Fixpoint encrypt_views (vMasterKeyIn : list Z) (l : list (base_uint * (View * list Z))) (s : KeyStore) : option (bool * KeyStore) :=
  match l with
  | [] => Some (true, s)
  | (_, (view, vchSecretH)) :: l =>
      H ← view_H view;
      match EncryptSecret vMasterKeyIn vchSecretH (pubkey_GetHash H) with
      | None => Some (false, s)
      | Some x => let '(ok, s) := AddCryptedMalleableKey s view x in if negb ok then Some (false, s) else encrypt_views vMasterKeyIn l s
      end
  end.
Definition EncryptKeys (s : KeyStore) (vMasterKeyIn : list Z) : option (bool * KeyStore) :=
  if negb (bool_decide (mapCryptedKeys s = ∅)) || IsCrypted s then Some (false, s)
  else
    let s := with_master s (vMasterKey s) true in
    '(ok, s) ← encrypt_keys vMasterKeyIn (id_order (mapKeys s)) s;
    if negb (ok : bool) then Some (false, s)
    else
      let s := with_keys s ∅ (mapMalleableKeys s) in
      '(ok, s) ← encrypt_views vMasterKeyIn (id_order (mapMalleableKeys s)) s;
      if negb (ok : bool) then Some (false, s) else Some (true, with_keys s (mapKeys s) ∅).

Fixpoint decrypt_keys (vMasterKeyIn : list Z) (l : list (base_uint * (list Z * list Z))) (s : KeyStore) : option (bool * KeyStore) :=
  match l with
  | [] => Some (true, s)
  | (_, (vchPubKey, vchCryptedSecret)) :: l =>
      match DecryptSecret vMasterKeyIn vchCryptedSecret (pubkey_GetHash vchPubKey) with
      | None => Some (false, s)
      | Some vchSecret =>
          if negb (length vchSecret =? 32)%nat then Some (false, s)
          else key ← key_of_secret vchSecret vchPubKey; decrypt_keys vMasterKeyIn l (basic_AddKey s key)
      end
  end.
Fixpoint decrypt_views (vMasterKeyIn : list Z) (l : list (base_uint * (View * list Z))) (s : KeyStore) : option (bool * KeyStore) :=
  match l with
  | [] => Some (true, s)
  | (_, (view, x)) :: l =>
      H ← view_H view;
      match DecryptSecret vMasterKeyIn x (pubkey_GetHash H) with
      | None => Some (false, s)
      | Some vchSecretH =>
          if negb (length vchSecretH =? 32)%nat then Some (false, s) else decrypt_views vMasterKeyIn l (basic_AddMalleableKey s view vchSecretH)
      end
  end.
Definition DecryptKeys (s : KeyStore) (vMasterKeyIn : list Z) : option (bool * KeyStore) :=
  if negb (IsCrypted s) then Some (false, s)
  else
    '(ok, s) ← decrypt_keys vMasterKeyIn (id_order (mapCryptedKeys s)) s;
    if negb (ok : bool) then Some (false, s)
    else
      let s := with_crypted s ∅ (mapCryptedMalleableKeys s) in
      '(ok, s) ← decrypt_views vMasterKeyIn (id_order (mapCryptedMalleableKeys s)) s;
      if negb (ok : bool) then Some (false, s) else Some (true, with_crypted s (mapCryptedKeys s) ∅).
End Store.

(** ** Encryption *)

Lemma id_order_perm {A} (m : gmap base_uint A) : id_order m ≡ₚ map_to_list m.
Proof. apply merge_sort_Permutation. Qed.
Lemma elem_of_id_order {A} (m : gmap base_uint A) k x : (k, x) ∈ id_order m ↔ m !! k = Some x.
Proof. rewrite id_order_perm. apply elem_of_map_to_list. Qed.
Lemma id_order_nodup {A} (m : gmap base_uint A) : NoDup (id_order m).*1.
Proof. rewrite id_order_perm. apply NoDup_fst_map_to_list. Qed.

Lemma secret_cycle {E : EVP} {Eok : EVPOk} master p iv : length master = 32%nat → wf W256 iv →
  ∃ x, EncryptSecret master p iv = Some x ∧ DecryptSecret master x iv = Some p.
Proof.
  intros Hm Hiv. destruct (getBytes_ok W256 iv Hiv) as (_ & Hl & _). unfold EncryptSecret, DecryptSecret, crypter_SetKey.
  rewrite Hm, Hl. destruct (EVP_total master (getBytes iv) p Hm) as [x Hx]. exists x. split; [exact Hx|]. by apply EVP_inverse.
Qed.
Lemma no_master {E : EVP} x iv : DecryptSecret [] x iv = None.
Proof. reflexivity. Qed.

Section laws.
Context {DG : Digests} {DGok : DigestsOk} {C : OpenSSL_EC} {Cok : OpenSSL_EC_ok C} {E : EVP} {Eok : EVPOk}.

(** A stored secret is a key, filed under its public key. *)
Definition entry_ok (id : base_uint) (secret : list Z) (fCompressed : bool) : Prop :=
  key_ok (mkKey secret fCompressed) ∧ id = pubkey_GetID (key_GetPubKey (mkKey secret fCompressed)).

(** The form of the public key is recovered from its length. *)
Lemma key_of_secret_ok secret c : key_ok (mkKey secret c) → key_of_secret secret (key_GetPubKey (mkKey secret c)) = Some (mkKey secret c).
Proof.
  intros H. assert (Hl := key_length _ H : length secret = 32%nat). assert (Ha := key_accepted _ H). cbn in Ha. unfold key_of_secret, key_SetSecret.
  rewrite Hl, Ha. cbn [Nat.eqb negb mbind option_bind]. rewrite key_pubkey by done. cbn [key_compressed]. unfold SetCompressedPubKey. cbn [key_secret]. do 2 f_equal.
  unfold pubkey_IsCompressed, CPubKey_size. destruct (EC_point2oct_form _ c (key_point_ok _ H)) as (b & t & -> & _ & Hb). destruct c; [by destruct Hb as [[-> | ->] _]|by destruct Hb as [-> _]].
Qed.
(** A view that came from a pair of keys *)
Definition view_ok (v : View) : Prop := mkv_IsValid v = Some true.
Lemma view_ok_H v : view_ok v → view_H v = Some (mkv_PubKeyH v).
Proof.
  unfold view_ok, mkv_IsValid, view_H, mkv_GetMalleablePubKey. destruct (length (mkv_SecretL v) =? 32)%nat; [|done]. cbn [negb]. by destruct (key_SetSecret (mkv_SecretL v) true).
Qed.
Lemma view_ok_check v R K : view_ok v → ∃ b, mkv_CheckKeyVariant v R K = Some b.
Proof.
  intros H. unfold mkv_CheckKeyVariant. rewrite H. cbn [mbind option_bind negb]. unfold check_variant. repeat (case_match || cbn [mbind option_bind]); eauto.
Qed.

Lemma AddCrypted_on s pk x : fUseCrypto s = true →
  AddCryptedKey s pk x = (true, with_crypted s (<[pubkey_GetID pk := (pk, x)]> (mapCryptedKeys s)) (mapCryptedMalleableKeys s)).
Proof. intros H. unfold AddCryptedKey, SetCrypted. by rewrite H. Qed.

(** The encrypted entry of a key *)
Definition sealed (master : list Z) (secret : list Z) (c : bool) (e : list Z * list Z) : Prop :=
  let pk := key_GetPubKey (mkKey secret c) in e.1 = pk ∧ DecryptSecret master e.2 (pubkey_GetHash pk) = Some secret.

Lemma encrypt_keys_ok master l : length master = 32%nat → ∀ s, fUseCrypto s = true → NoDup l.*1 →
  (∀ id secret c, (id, (secret, c)) ∈ l → entry_ok id secret c) →
  ∃ m', encrypt_keys master l s = Some (true, with_crypted s m' (mapCryptedMalleableKeys s)) ∧
    (∀ id secret c, (id, (secret, c)) ∈ l → ∃ e, m' !! id = Some e ∧ sealed master secret c e) ∧
    (∀ id, id ∉ l.*1 → m' !! id = mapCryptedKeys s !! id).
Proof.
  intros Hm. induction l as [|[id [secret c]] l IH]; intros s Hc Hnd Hl; cbn [encrypt_keys].
  { exists (mapCryptedKeys s). split; [by destruct s|]. split; [set_solver|done]. }
  rewrite fmap_cons in Hnd. apply NoDup_cons in Hnd as [Hid Hnd]. cbn [fst] in Hid. destruct (Hl id secret c) as [Hs ->]; [by left|]. rewrite (key_SetSecret_ok _ Hs : key_SetSecret secret c = _). cbn [mbind option_bind key_secret].
  set (pk := key_GetPubKey (mkKey secret c)) in *. destruct (secret_cycle master secret (pubkey_GetHash pk) Hm) as (x & -> & Hd); [apply Hash_wf|].
  rewrite AddCrypted_on by done. cbn [negb].
  destruct (IH (with_crypted s (<[pubkey_GetID pk := (pk, x)]> (mapCryptedKeys s)) (mapCryptedMalleableKeys s))) as (m' & HR & Hin & Hout); [done|done|intros; apply Hl; by right|].
  exists m'. split; [exact HR|]. split.
  - intros id' secret' c' [[= -> -> ->]|Hin']%elem_of_cons; [|by apply Hin]. exists (pk, x). split; [|done].
    rewrite Hout by done. cbn. by rewrite lookup_insert_eq.
  - intros id'. rewrite fmap_cons, not_elem_of_cons. intros [Hne Hni]. rewrite Hout by done. cbn. by rewrite lookup_insert_ne by done.
Qed.

Definition sealed_view (master : list Z) (v : View) (secret : list Z) (e : View * list Z) : Prop :=
  e.1 = v ∧ DecryptSecret master e.2 (pubkey_GetHash (mkv_PubKeyH v)) = Some secret.

Lemma encrypt_views_ok master l : length master = 32%nat → ∀ s, fUseCrypto s = true → NoDup l.*1 →
  (∀ id v x, (id, (v, x)) ∈ l → id = pubkey_GetID (mkv_PubKeyH v) ∧ view_ok v ∧ mapCryptedMalleableKeys s !! id = None) →
  ∃ m', encrypt_views master l s = Some (true, with_crypted s (mapCryptedKeys s) m') ∧
    (∀ id v x, (id, (v, x)) ∈ l → ∃ e, m' !! id = Some e ∧ sealed_view master v x e) ∧
    (∀ id, id ∉ l.*1 → m' !! id = mapCryptedMalleableKeys s !! id).
Proof.
  intros Hm. induction l as [|[id [v x]] l IH]; intros s Hc Hnd Hl; cbn [encrypt_views].
  { exists (mapCryptedMalleableKeys s). split; [by destruct s|]. split; [set_solver|done]. }
  rewrite fmap_cons in Hnd. apply NoDup_cons in Hnd as [Hid Hnd]. cbn [fst] in Hid. destruct (Hl id v x) as (-> & Hok & Hnone); [by left|]. rewrite (view_ok_H v Hok). cbn [mbind option_bind].
  destruct (secret_cycle master x (pubkey_GetHash (mkv_PubKeyH v)) Hm) as (y & -> & Hd); [apply Hash_wf|].
  unfold AddCryptedMalleableKey, SetCrypted. rewrite Hc. cbn [negb]. unfold insert_view. rewrite Hnone.
  destruct (IH (with_crypted s (mapCryptedKeys s) (<[pubkey_GetID (mkv_PubKeyH v) := (v, y)]> (mapCryptedMalleableKeys s)))) as (m' & HR & Hin & Hout); [done|done| |].
  { intros id' v' x' Hi. destruct (Hl id' v' x') as (? & ? & ?); [by right|]. split; [done|]. split; [done|]. cbn. rewrite lookup_insert_ne; [done|].
    intros Heq. apply Hid. rewrite Heq. apply list_elem_of_fmap. by exists (id', (v', x')). }
  exists m'. split; [exact HR|]. split.
  - intros id' v' x' [[= -> -> ->]|Hin']%elem_of_cons; [|by apply Hin]. exists (v, y). split; [|done]. rewrite Hout by done. cbn. by rewrite lookup_insert_eq.
  - intros id'. rewrite fmap_cons, not_elem_of_cons. intros [Hne Hni]. rewrite Hout by done. cbn. by rewrite lookup_insert_ne by done.
Qed.

(** ** The invariant of a store *)

(** [decrypted] tells whether [DecryptKeys] was ever called: it moves the keys back
    into the plain maps and leaves [fUseCrypto] set, so that nobody reads them *)
Record store_ok (decrypted : bool) (s : KeyStore) : Prop := {
  store_plain : fUseCrypto s = false → mapCryptedKeys s = ∅ ∧ mapCryptedMalleableKeys s = ∅ ∧ vMasterKey s = [];
  store_crypto : decrypted = false → fUseCrypto s = true → mapKeys s = ∅;
  store_keys id secret c : fUseCrypto s = false → mapKeys s !! id = Some (secret, c) → entry_ok id secret c;
  store_views id v x : fUseCrypto s = false → mapMalleableKeys s !! id = Some (v, x) →
    id = pubkey_GetID (mkv_PubKeyH v) ∧ view_ok v ∧ length x = 32%nat;
  store_crypted id pk x : mapCryptedKeys s !! id = Some (pk, x) → id = pubkey_GetID pk;
  store_scripts h sc : mapScripts s !! h = Some sc → h = script_GetID sc ∧ Z.of_nat (length sc) <= MAX_SCRIPT_ELEMENT_SIZE;
  store_watch id : HaveKey s id = true → HaveWatchOnly s (SetDestination (CKeyID id)) = false
}.

Section operations.
Context {d : bool}.

(** What encryption with [master] does to a plain store *)
Record encrypted (master : list Z) (s s' : KeyStore) : Prop := {
  enc_frame : mapScripts s' = mapScripts s ∧ setWatchOnly s' = setWatchOnly s ∧ vMasterKey s' = vMasterKey s ∧ fUseCrypto s' = true ∧
    mapKeys s' = ∅ ∧ mapMalleableKeys s' = ∅;
  enc_key id : match mapKeys s !! id with
    | Some (secret, c) => ∃ e, mapCryptedKeys s' !! id = Some e ∧ sealed master secret c e
    | None => mapCryptedKeys s' !! id = None end;
  enc_view id : match mapMalleableKeys s !! id with
    | Some (v, x) => ∃ e, mapCryptedMalleableKeys s' !! id = Some e ∧ sealed_view master v x e
    | None => mapCryptedMalleableKeys s' !! id = None end
}.
Lemma not_in_id_order {A} (m : gmap base_uint A) id : m !! id = None → id ∉ (id_order m).*1.
Proof. intros H Hin. apply list_elem_of_fmap in Hin as ([k x] & -> & Hin). apply elem_of_id_order in Hin. cbn in H. congruence. Qed.

Lemma EncryptKeys_ok s master : store_ok d s → fUseCrypto s = false → length master = 32%nat →
  ∃ s', EncryptKeys s master = Some (true, s') ∧ encrypted master s s'.
Proof.
  intros [Hp _ Hk Hv _ _ _] Hf Hm. destruct (Hp Hf) as (Ec & Ev & _). unfold EncryptKeys. unfold IsCrypted. rewrite Hf, bool_decide_true by done. cbn [negb orb].
  set (s0 := with_master s (vMasterKey s) true).
  destruct (encrypt_keys_ok master (id_order (mapKeys s)) Hm s0) as (m1 & HR & Hin & Hout); [done|apply id_order_nodup| |].
  { intros id secret c Hi. apply Hk; [done|]. by apply elem_of_id_order. }
  change (mapKeys s0) with (mapKeys s). rewrite HR. cbn [mbind option_bind negb].
  set (s1 := with_keys _ ∅ _). destruct (encrypt_views_ok master (id_order (mapMalleableKeys s)) Hm s1) as (m2 & HR2 & Hin2 & Hout2); [done|apply id_order_nodup| |].
  { intros id v x Hi. apply elem_of_id_order in Hi. destruct (Hv _ _ _ Hf Hi) as (? & ? & _). split; [done|]. split; [done|]. cbn. by rewrite Ev. }
  change (mapMalleableKeys s1) with (mapMalleableKeys s). rewrite HR2. cbn [mbind option_bind negb]. eexists. split; [reflexivity|]. split; [done|..]; intros id; cbn.
  - destruct (mapKeys s !! id) as [[secret c]|] eqn:El; [apply Hin; by apply elem_of_id_order|]. rewrite Hout by by apply not_in_id_order. cbn. by rewrite Ec.
  - destruct (mapMalleableKeys s !! id) as [[v x]|] eqn:El; [apply Hin2; by apply elem_of_id_order|]. rewrite Hout2 by by apply not_in_id_order. cbn. by rewrite Ev.
Qed.

(** ** Reading an encrypted store *)

Lemma encrypted_has master s s' id : encrypted master s s' → mapCryptedKeys s' !! id = None ↔ mapKeys s !! id = None.
Proof. intros [_ H _]. specialize (H id). destruct (mapKeys s !! id) as [[? ?]|]; [destruct H as (e & -> & _)|rewrite H]; done. Qed.

Lemma plain_GetKey s id : store_ok d s → fUseCrypto s = false → store_GetKey s id = Some (option_map (λ e, mkKey e.1 e.2) (mapKeys s !! id)).
Proof.
  intros H Hf. unfold store_GetKey, IsCrypted, basic_GetKey. rewrite Hf. cbn [negb]. destruct (mapKeys s !! id) as [[secret c]|] eqn:El; [|done].
  destruct (store_keys _ _ H _ _ _ Hf El) as [Hs _]. by rewrite (key_SetSecret_ok _ Hs : key_SetSecret secret c = _).
Qed.

(** An entry opens with the master key, and only gives the key back. *)
Lemma sealed_opens master secret c pk x id : sealed master secret c (pk, x) → entry_ok id secret c →
  DecryptSecret master x (pubkey_GetHash pk) = Some secret ∧ length secret = 32%nat ∧ key_of_secret secret pk = Some (mkKey secret c) ∧
  pk = key_GetPubKey (mkKey secret c).
Proof.
  intros [E1 E2] [Hs _]. cbn [fst snd] in *. subst pk. split; [done|]. split; [exact (key_length _ Hs)|]. split; [by apply key_of_secret_ok|done].
Qed.

Lemma encrypted_GetKey master s s' id : store_ok d s → fUseCrypto s = false → encrypted master s s' → length master = 32%nat →
  store_GetKey (with_master s' master true) id = store_GetKey s id.
Proof.
  intros H Hf Hen Hm. rewrite (plain_GetKey s id H Hf). unfold store_GetKey. cbn [IsCrypted fUseCrypto with_master negb mapCryptedKeys vMasterKey].
  pose proof (enc_key _ _ _ Hen id) as He. destruct (mapKeys s !! id) as [[secret c]|] eqn:El; [|by rewrite He].
  destruct He as ([pk x] & -> & Hs). destruct (sealed_opens _ _ _ _ _ _ Hs (store_keys _ _ H _ _ _ Hf El)) as (-> & Hl & Hk & _).
  rewrite Hl. cbn [Nat.eqb negb]. by rewrite Hk.
Qed.

Lemma encrypted_Unlock master s s' : store_ok d s → fUseCrypto s = false → encrypted master s s' → length master = 32%nat →
  Unlock s' master = Some (true, with_master s' master true).
Proof.
  intros H Hf Hen Hm. destruct (enc_frame _ _ _ Hen) as (_ & _ & _ & Hc & _). unfold Unlock, SetCrypted. rewrite Hc. cbn [negb].
  destruct (id_order (mapCryptedKeys s')) as [|[id [pk x]] l] eqn:Eo; [by rewrite ?Hc|].
  assert (Hid : mapCryptedKeys s' !! id = Some (pk, x)) by (apply elem_of_id_order; rewrite Eo; by left).
  pose proof (enc_key _ _ _ Hen id) as He. destruct (mapKeys s !! id) as [[secret c]|] eqn:El; [|congruence]. destruct He as (e & He & Hs).
  rewrite Hid in He. injection He as <-. destruct (sealed_opens _ _ _ _ _ _ Hs (store_keys _ _ H _ _ _ Hf El)) as (-> & Hl & -> & ->).
  rewrite Hl. cbn [Nat.eqb negb mbind option_bind]. by rewrite bool_decide_true, Hc.
Qed.

Lemma encrypted_GetPubKey master s s' master' id : store_ok d s → fUseCrypto s = false → encrypted master s s' →
  GetPubKey (with_master s' master' true) id = GetPubKey s id.
Proof.
  intros H Hf Hen. unfold GetPubKey at 2. unfold IsCrypted. rewrite Hf. cbn [negb]. rewrite (plain_GetKey s id H Hf).
  unfold GetPubKey. cbn [IsCrypted fUseCrypto with_master negb mapCryptedKeys]. pose proof (enc_key _ _ _ Hen id) as He.
  destruct (mapKeys s !! id) as [[secret c]|]; [|by rewrite He]. destruct He as ([pk x] & -> & [Epk _]). cbn in Epk. by subst pk.
Qed.

(** Ownership of one-time keys does not depend on the encryption: the views are
    found in the same order. *)
#[local] Instance id_le_total {A} : Total (id_le (A := A)).
Proof.
  intros [a x] [b y]. unfold id_le, bu_lt. cbn [fst]. generalize (rev a) (rev b). intros l. induction l as [|u l IH]; intros [|w k]; cbn; auto.
  destruct (Z.ltb_spec u w), (Z.ltb_spec w u); auto; lia.
Qed.
Lemma id_order_sorted {A} (m : gmap base_uint A) : (∀ id x, m !! id = Some x → wf W160 id) → Sorted (λ a b, val a.1 <= val b.1) (id_order m).
Proof.
  intros Hm. assert (Hw : Forall (λ e, wf W160 e.1) (id_order m)) by (apply Forall_forall; intros [id x] Hin%elem_of_id_order; by eapply Hm).
  assert (Hs : Sorted id_le (id_order m)) by apply (Sorted_merge_sort _). induction Hs as [|e l Hs IH Hd]; [constructor|].
  apply Forall_cons in Hw as [He Hl]. constructor; [by apply IH|]. destruct Hd as [|e' l Hle]; constructor. apply Forall_cons in Hl as [He' _].
  unfold id_le in Hle. rewrite (bu_lt_ok W160) in Hle by done. lia.
Qed.
Lemma id_order_map {A B} (f : A → B) (m : gmap base_uint A) : (prod_map id f <$> id_order m).*1 = (id_order m).*1.
Proof. rewrite <- list_fmap_compose. by apply list_fmap_ext. Qed.
Lemma elem_of_order_map {A B} (f : A → B) (m : gmap base_uint A) k y : (k, y) ∈ prod_map id f <$> id_order m ↔ f <$> m !! k = Some y.
Proof.
  rewrite list_elem_of_fmap, fmap_Some. split.
  - intros ([k' x] & [= -> ->] & Hin%elem_of_id_order). eauto.
  - intros (x & Hx%elem_of_id_order & ->). by exists (k, x).
Qed.
Lemma same_order {A B D} (f : A → D) (g : B → D) (m1 : gmap base_uint A) (m2 : gmap base_uint B) : (∀ id x, m1 !! id = Some x → wf W160 id) →
  (∀ id, f <$> m1 !! id = g <$> m2 !! id) → prod_map id f <$> id_order m1 = prod_map id g <$> id_order m2.
Proof.
  intros Hw Hm. assert (Hn : ∀ E1 E2 (h : E1 → E2) (m : gmap base_uint E1), NoDup (prod_map id h <$> id_order m)).
  { intros E1 E2 h m. apply (NoDup_fmap_1 fst). rewrite id_order_map. apply id_order_nodup. }
  set (le := λ a b : base_uint * D, val a.1 <= val b.1). assert (Transitive le) by (intros x y z; unfold le; lia). apply (Sorted_unique_strong le).
  - intros [a x] [b y] H1%elem_of_order_map H2%elem_of_order_map. unfold le. cbn [fst]. intros Hab Hba. rewrite <- Hm in H2.
    apply fmap_Some in H1 as (x' & H1 & ->), H2 as (y' & H2 & ->). assert (E0 : a = b) by (apply (val_inj W160); [eauto..|by apply Z.le_antisymm]). subst b. congruence.
  - eapply Sorted_fmap; [|by apply id_order_sorted]. done.
  - eapply Sorted_fmap; [|apply id_order_sorted]; [done|]. intros id x Hx. specialize (Hm id). rewrite Hx in Hm.
    destruct (m1 !! id) eqn:E1; [by eapply Hw|done].
  - apply NoDup_Permutation; [apply Hn..|]. intros [k y]. by rewrite !elem_of_order_map, Hm.
Qed.
Lemma find_view_map R K l : ∀ l', prod_map id fst <$> l = prod_map id fst <$> l' →
  option_map (option_map fst) (find_view_in l R K) = option_map (option_map fst) (find_view_in l' R K).
Proof.
  induction l as [|[id [v x]] l IH]; intros [|[id' [v' x']] l']; cbn; try done. intros [= -> -> H].
  destruct (mkv_CheckKeyVariant v' R K) as [[]|]; cbn; [done|by apply IH|done].
Qed.
Lemma find_view_in_elem R K l v x : find_view_in l R K = Some (Some (v, x)) → ∃ id, (id, (v, x)) ∈ l.
Proof.
  induction l as [|[id [v' x']] l IH]; cbn; [done|]. destruct (mkv_CheckKeyVariant v' R K) as [[]|]; cbn; [intros [= -> ->]; eexists; by left| |done].
  intros H. destruct (IH H) as [i Hi]. exists i. by right.
Qed.
Lemma find_view_total m R K : (∀ id v x, m !! id = Some (v, x) → view_ok v) → is_Some (find_view m R K).
Proof.
  intros Hv. unfold find_view. assert (Hl : ∀ id v x, (id, (v, x)) ∈ id_order m → view_ok v) by (intros id v x Hin%elem_of_id_order; eauto).
  induction (id_order m) as [|[id [v x]] l IH]; cbn; [by eexists|]. destruct (view_ok_check v R K) as [b Eb]; [eapply Hl; by left|]. rewrite Eb.
  destruct b; cbn; [by eexists|]. apply IH. intros. eapply Hl. by right.
Qed.

(** The view found in the encrypted map is the one found before, with its secret
    sealed. *)
Lemma encrypted_views master s s' R K : store_ok d s → fUseCrypto s = false → encrypted master s s' →
  ∃ a b, find_view (mapCryptedMalleableKeys s') R K = Some a ∧ find_view (mapMalleableKeys s) R K = Some b ∧
    match a, b with
    | Some e, Some (v, x) => sealed_view master v x e ∧ view_ok v ∧ length x = 32%nat
    | None, None => True
    | _, _ => False
    end.
Proof.
  intros H Hf Hen.
  assert (Hsame : ∀ id, fst <$> mapMalleableKeys s !! id = fst <$> mapCryptedMalleableKeys s' !! id).
  { intros id. pose proof (enc_view _ _ _ Hen id) as He. destruct (mapMalleableKeys s !! id) as [[v x]|]; [|by rewrite He].
    destruct He as (e & -> & [E1 _]). cbn. by rewrite E1. }
  assert (Eord : prod_map id fst <$> id_order (mapMalleableKeys s) = prod_map id fst <$> id_order (mapCryptedMalleableKeys s')).
  { apply same_order; [|done]. intros id [v x] Hx. destruct (store_views _ _ H _ _ _ Hf Hx) as [-> _]. apply Hash160_wf. }
  apply (find_view_map R K) in Eord. fold (find_view (mapMalleableKeys s) R K) (find_view (mapCryptedMalleableKeys s') R K) in Eord.
  destruct (find_view_total (mapMalleableKeys s) R K) as [b Hb]; [intros id v x Hx; by destruct (store_views _ _ H _ _ _ Hf Hx) as (_ & ? & _)|].
  rewrite Hb in Eord. destruct (find_view (mapCryptedMalleableKeys s') R K) as [a|] eqn:Ha; [|done]. injection Eord as Eord.
  exists a, b. split; [done|]. split; [done|]. destruct a as [[v y]|], b as [[v' x]|]; try done. injection Eord as ->.
  apply find_view_in_elem in Ha as [i Hi%elem_of_id_order], Hb as [k Hk%elem_of_id_order]. destruct (store_views _ _ H _ _ _ Hf Hk) as (-> & Hok & Hl).
  split; [|done]. pose proof (enc_view _ _ _ Hen i) as He. destruct (mapMalleableKeys s !! i) as [[v2 x2]|] eqn:Ei; [|congruence].
  destruct He as (e & He & Hs). assert (e = (v, y)) by congruence. subst e. assert (Ev := proj1 Hs). cbn in Ev. subst v2.
  destruct (store_views _ _ H _ _ _ Hf Ei) as (-> & _). congruence.
Qed.

Lemma encrypted_CheckOwnership master s s' mk pk R : store_ok d s → fUseCrypto s = false → encrypted master s s' →
  CheckOwnership (with_master s' mk true) pk R = CheckOwnership s pk R.
Proof.
  intros H Hf Hen. unfold CheckOwnership, basic_CheckOwnership, IsCrypted. cbn. rewrite Hf. cbn [negb].
  destruct (encrypted_views master s s' R pk H Hf Hen) as (a & b & -> & -> & Hab). cbn. destruct a as [e|], b as [[v x]|]; try done.
  destruct Hab as ([Ev _] & _). cbn. by rewrite Ev.
Qed.
Lemma encrypted_GetMalleableKey master s s' id v h : store_ok d s → fUseCrypto s = false → encrypted master s s' → mapMalleableKeys s !! id = Some (v, h) →
  GetMalleableKey (with_master s' master true) v = GetMalleableKey s v.
Proof.
  intros H Hf Hen Hv. destruct (store_views _ _ H _ _ _ Hf Hv) as (-> & Hok & Hl). unfold GetMalleableKey, basic_GetMalleableKey, IsCrypted. cbn. rewrite Hf, Hv. cbn [negb].
  pose proof (enc_view _ _ _ Hen (pubkey_GetID (mkv_PubKeyH v))) as He. rewrite Hv in He. destruct He as ([v' y] & -> & [Ev Hd]). cbn [fst snd] in Ev, Hd. subst v'.
  rewrite (view_ok_H v Hok). cbn [mbind option_bind]. by rewrite Hd, Hl.
Qed.
Lemma encrypted_CreatePrivKey master s s' pk R : store_ok d s → fUseCrypto s = false → encrypted master s s' → CheckOwnership s pk R ≠ Some None →
  CreatePrivKey (with_master s' master true) pk R = CreatePrivKey s pk R.
Proof.
  intros H Hf Hen. unfold CheckOwnership, CreatePrivKey, basic_CheckOwnership, basic_CreatePrivKey, IsCrypted. cbn. rewrite Hf. cbn [negb].
  destruct (encrypted_views master s s' R pk H Hf Hen) as (a & b & -> & -> & Hab). cbn. destruct a as [[v' y]|], b as [[v x]|]; try done.
  intros _. destruct Hab as ([Ev Hd] & Hok & Hl). cbn [fst snd] in Ev, Hd. subst v'. rewrite (view_ok_H v Hok). cbn [mbind option_bind]. by rewrite Hd, Hl.
Qed.
Lemma locked_CreatePrivKey s pk R k : fUseCrypto s = true → vMasterKey s = [] → CreatePrivKey s pk R ≠ Some (true, Some k).
Proof.
  intros Hf Em. unfold CreatePrivKey, IsCrypted. rewrite Hf, Em. cbn [negb]. destruct (find_view _ R pk) as [[[v x]|]|]; cbn [mbind option_bind]; try done.
  destruct (view_H v); cbn [mbind option_bind]; [|done]. by rewrite no_master.
Qed.

(** [DecryptKeys] adds to the plain maps and may empty the encrypted ones; the flag
    stays set, so nobody reads the keys. *)
Lemma decrypt_keys_frame master l : ∀ s ok s', decrypt_keys master l s = Some (ok, s') → ∃ k, s' = with_keys s k (mapMalleableKeys s).
Proof.
  assert (Hid : ∀ s, ∃ k, s = with_keys s k (mapMalleableKeys s)) by (intros []; by eexists).
  induction l as [|[id [pk x]] l IH]; intros s ok s'; cbn [decrypt_keys]; [by intros [= _ <-]|].
  destruct (DecryptSecret _ _ _); [|by intros [= _ <-]]. destruct (negb _); [by intros [= _ <-]|]. intros H. apply bind_Some in H as (k & _ & H).
  apply IH in H as (m & ->). by exists m.
Qed.
Lemma decrypt_views_frame master l : ∀ s ok s', decrypt_views master l s = Some (ok, s') → ∃ v, s' = with_keys s (mapKeys s) v.
Proof.
  assert (Hid : ∀ s, ∃ v, s = with_keys s (mapKeys s) v) by (intros []; by eexists).
  induction l as [|[id [v x]] l IH]; intros s ok s'; cbn [decrypt_views]; [by intros [= _ <-]|].
  destruct (view_H v); [|done]. cbn [mbind option_bind]. destruct (DecryptSecret _ _ _); [|by intros [= _ <-]]. destruct (negb _); [by intros [= _ <-]|].
  intros H. apply IH in H as (m & ->). by exists m.
Qed.
Lemma DecryptKeys_frame s master ok s' : DecryptKeys s master = Some (ok, s') →
  if IsCrypted s then ∃ k v c cv, s' = with_crypted (with_keys s k v) c cv ∧ (c = ∅ ∨ ok = false ∧ c = mapCryptedKeys s) else ok = false ∧ s' = s.
Proof.
  unfold DecryptKeys. destruct (IsCrypted s); cbn [negb]; [|by intros [= <- <-]]. intros H. apply bind_Some in H as ([ok1 s1] & H1 & H).
  apply decrypt_keys_frame in H1 as (k & ->). destruct ok1; cbn [negb] in H.
  - apply bind_Some in H as ([ok2 s2] & H2 & H). apply decrypt_views_frame in H2 as (v & ->). destruct ok2; injection H as <- <-.
    + exists k, v, ∅, ∅. by split; [|left].
    + exists k, v, ∅, (mapCryptedMalleableKeys s). by split; [|left].
  - injection H as <- <-. exists k, (mapMalleableKeys s), (mapCryptedKeys s), (mapCryptedMalleableKeys s). by split; [destruct s|right].
Qed.
Lemma DecryptKeys_hides s master s' : DecryptKeys s master = Some (true, s') → IsCrypted s' = true ∧ ∀ id, HaveKey s' id = false.
Proof.
  intros H%DecryptKeys_frame. destruct (IsCrypted s) eqn:Ec; [|by destruct H]. destruct H as (k & v & c & cv & -> & [->|[? _]]); [|done].
  unfold HaveKey, IsCrypted in *. cbn. rewrite Ec. split; [done|]. intros id. cbn. by rewrite lookup_empty.
Qed.

(** ** Every operation keeps the invariant *)

(** A pay-to-public-key-hash script has its key as destination. *)
Lemma Extract_p2pkh id : wf W160 id → ExtractDestination (SetDestination (CKeyID id)) = Some (CKeyID id).
Proof.
  intros Hid. destruct (getBytes_ok W160 id Hid) as (_ & Hl & _ & Hb). unfold ExtractDestination. cbn [SetDestination].
  assert (Hs : standard_form (p2pkh id) TX_PUBKEYHASH [getBytes id]).
  { apply (form_pubkeyhash _ 20); [|done]. unfold p2pkh. rewrite (push_uint_vector W160) by done. rewrite push_vector_app.
    assert (HG := GetOp_push_vector (getBytes id) [OP_EQUALVERIFY; OP_CHECKSIG] ltac:(rewrite Hl; done)).
    assert (Hop : push_opcode_of (getBytes id) = 20) by (unfold push_opcode_of; rewrite Hl; done). rewrite Hop in HG.
    eapply decodes_cons; [reflexivity|]. eapply decodes_cons; [reflexivity|]. eapply decodes_cons; [exact HG|].
    eapply decodes_cons; [reflexivity|]. eapply decodes_cons; [reflexivity|]. constructor. }
  rewrite (Solver_complete _ _ _ Hs). cbn [negb nth]. unfold bu_of_vch. rewrite bool_decide_true by done. by rewrite Hb.
Qed.
Lemma address_of_key net pv id : wf W160 id → addr_Get net pv (addr_Set net (CKeyID id)).2 = CKeyID id.
Proof.
  intros Hid. destruct (getBytes_ok W160 id Hid) as (_ & Hl & _ & Hb). assert (Ht : take 20 (getBytes id) = getBytes id) by (apply take_ge; rewrite Hl; done).
  cbn [addr_Set snd]. unfold addr_Get, addr_IsValid. destruct net; cbn [b58_nVersion vchData]; rewrite Hl; vm_compute Nat.eqb; cbn -[take getBytes]; by rewrite Ht, Hb.
Qed.

Lemma HaveKey_wf s id : store_ok d s → HaveKey s id = true → wf W160 id.
Proof.
  intros H. unfold HaveKey, basic_HaveKey. destruct (IsCrypted s) eqn:Ec; cbn [negb]; intros [e He]%bool_decide_eq_true; destruct e as [a b].
  - rewrite (store_crypted _ _ H _ _ _ He). apply Hash160_wf.
  - destruct (store_keys _ _ H _ _ _ Ec He) as [_ ->]. apply Hash160_wf.
Qed.

Lemma SetCrypted_ok s ok s' : store_ok d s → SetCrypted s = (ok, s') →
  store_ok d s' ∧ setWatchOnly s' = setWatchOnly s ∧ (ok = true → fUseCrypto s' = true) ∧ (ok = false → s' = s ∧ fUseCrypto s = false).
Proof.
  intros H. unfold SetCrypted. destruct (fUseCrypto s) eqn:Ef; [intros [= <- <-]; by rewrite Ef|]. case_bool_decide as Ek; cbn [negb]; intros [= <- <-]; [|done].
  split; [|done]. destruct H as [Hp Hc Hk Hv Hx Hs Hw]. split; cbn; try done. intros id Hid. unfold HaveKey in Hid. cbn in Hid.
  destruct (Hp Ef) as (Em & _). rewrite Em, lookup_empty in Hid. by rewrite bool_decide_false in Hid.
Qed.
Lemma watch_same s s' : store_ok d s → setWatchOnly s' = setWatchOnly s → (∀ id, HaveKey s' id = HaveKey s id) →
  ∀ id, HaveKey s' id = true → HaveWatchOnly s' (SetDestination (CKeyID id)) = false.
Proof. intros H Ew Eh id. rewrite Eh. unfold HaveWatchOnly. rewrite Ew. apply (store_watch _ _ H). Qed.

Lemma with_master_ok s master : store_ok d s → fUseCrypto s = true → store_ok d (with_master s master true).
Proof.
  intros H Hf. destruct H as [Hp Hc Hk Hv Hx Hs Hw]. split; cbn; try done; [by intros Hd _; apply Hc|].
  intros id. unfold HaveKey, IsCrypted, HaveWatchOnly in *. cbn. intros Hid. apply Hw. by rewrite Hf.
Qed.
Lemma AddCryptedKey_ok s pk x : store_ok d s → HaveWatchOnly s (SetDestination (CKeyID (pubkey_GetID pk))) = false → store_ok d (AddCryptedKey s pk x).2.
Proof.
  intros H Hn. unfold AddCryptedKey. destruct (SetCrypted s) as [ok s1] eqn:Es. apply SetCrypted_ok in Es as (H1 & Ew & Ht & _); [|done]. destruct ok; [|exact H1].
  cbn [negb snd]. specialize (Ht eq_refl). assert (Hw1 := store_watch _ _ H1). destruct H1 as [Hp Hc Hk Hv Hx Hs _]. split; cbn; try done; [by rewrite Ht|..].
  - intros id pk' x'. intros [[<- [= <- <-]]|[_ ?]]%lookup_insert_Some; [done|by eapply Hx].
  - intros id. unfold HaveKey, IsCrypted, HaveWatchOnly in *. cbn. rewrite Ht in *. cbn [negb] in *. rewrite bool_decide_eq_true. intros [e He].
    apply lookup_insert_Some in He as [[<- _]|[_ He]]; [by rewrite Ew|]. apply Hw1. rewrite bool_decide_eq_true. eauto.
Qed.
Lemma AddCryptedMalleable_ok s v x : store_ok d s → store_ok d (AddCryptedMalleableKey s v x).2.
Proof.
  intros H. unfold AddCryptedMalleableKey. destruct (SetCrypted s) as [ok s1] eqn:Es. apply SetCrypted_ok in Es as (H1 & _ & Ht & _); [|done]. destruct ok; [|exact H1].
  cbn [negb snd]. specialize (Ht eq_refl). destruct H1 as [Hp Hc Hk Hv Hx Hs Hw]. split; cbn; try done. by rewrite Ht.
Qed.
Lemma AddKey_ok s key : store_ok d s → key_ok key → store_ok d (AddKey s key).2.
Proof.
  intros H Hkey. unfold AddKey. destruct (HaveWatchOnly s _) eqn:Ew; [done|]. unfold IsCrypted. destruct (fUseCrypto s) eqn:Ef; cbn [negb].
  { destruct (IsLocked s); [done|]. destruct (EncryptSecret _ _ _); [by apply AddCryptedKey_ok|done]. }
  cbn [snd]. assert (Hw1 := store_watch _ _ H). destruct H as [Hp Hc Hk Hv Hx Hs _]. destruct key as [secret c]. unfold basic_AddKey. split; cbn; try done; [by rewrite Ef|..].
  - intros id secret' c' _. intros [[<- [= <- <-]]|[_ ?]]%lookup_insert_Some; [done|by apply Hk].
  - intros id. unfold HaveKey, basic_HaveKey, IsCrypted, HaveWatchOnly in *. cbn. rewrite Ef in *. cbn [negb] in *. rewrite bool_decide_eq_true. intros [e He].
    apply lookup_insert_Some in He as [[<- _]|[_ He]]; [exact Ew|]. apply Hw1. rewrite bool_decide_eq_true. eauto.
Qed.
Lemma AddMalleableKey_ok s v x ok s' : store_ok d s → view_ok v → length x = 32%nat → AddMalleableKey s v x = Some (ok, s') → store_ok d s'.
Proof.
  intros H Hok Hl. unfold AddMalleableKey. destruct (SetCrypted s) as [okc s1] eqn:Es. apply SetCrypted_ok in Es as (H1 & _ & Ht & Hf); [|done]. destruct okc; cbn [negb].
  - destruct (IsLocked s1); [by intros [= _ <-]|]. intros Ha. apply bind_Some in Ha as (k & _ & Ha). destruct (EncryptSecret _ _ _); [|by injection Ha as _ <-].
    injection Ha as Ha. replace s' with (AddCryptedMalleableKey s1 v l).2 by by rewrite Ha. by apply AddCryptedMalleable_ok.
  - intros [= _ <-]. destruct (Hf eq_refl) as [-> E0]. destruct H as [Hp Hc Hk Hv Hx Hs Hw]. split; cbn; try done. intros id v' x' _. unfold insert_view.
    intros [[<- [= <- <-]]|[_ ?]]%lookup_insert_Some; [|by eapply Hv]. destruct (mapMalleableKeys s !! _) as [[v0 ?]|] eqn:El; [|done].
    destruct (Hv _ _ _ E0 El) as (? & ? & _). done.
Qed.
Lemma AddWatchOnly_ok net pv s dest : store_ok d s → store_ok d (AddWatchOnly net pv s dest).2.
Proof.
  intros H. unfold AddWatchOnly. set (refused := match ExtractDestination dest with Some _ => _ | None => _ end). destruct refused eqn:Er; [done|]. cbn [snd].
  assert (Hw1 := store_watch _ _ H). assert (Hwf := λ id, HaveKey_wf s id H). destruct H as [Hp Hc Hk Hv Hx Hs _]. split; try assumption.
  intros id Hid. specialize (Hw1 id Hid). specialize (Hwf id Hid). unfold HaveWatchOnly in *. cbn [setWatchOnly with_scripts].
  apply bool_decide_eq_false in Hw1. apply bool_decide_eq_false. intros [E1|E1]%elem_of_union; [|done]. apply elem_of_singleton in E1. subst dest.
  assert (Hex := Extract_p2pkh id Hwf). unfold refused in Er. rewrite Hex, (address_of_key net pv id Hwf) in Er.
  change (HaveKey s id = true) in Hid. congruence.
Qed.
Lemma EncryptKeys_store s master s' : store_ok d s → fUseCrypto s = false → encrypted master s s' → store_ok d s'.
Proof.
  intros H Hf Hen. destruct (enc_frame _ _ _ Hen) as (E1 & E2 & E3 & E4 & E5 & E6). split.
  - by rewrite E4.
  - done.
  - by rewrite E4.
  - by rewrite E4.
  - intros id pk x Hid. pose proof (enc_key _ _ _ Hen id) as He. destruct (mapKeys s !! id) as [[secret c]|] eqn:El; [|congruence].
    destruct He as (e & He & [Ep _]). rewrite Hid in He. injection He as <-. cbn in Ep. subst pk. by destruct (store_keys _ _ H _ _ _ Hf El).
  - rewrite E1. apply (store_scripts _ _ H).
  - apply (watch_same s); [done|done|]. intros id. unfold HaveKey, basic_HaveKey, IsCrypted. rewrite E4, Hf. cbn [negb]. apply bool_decide_ext.
    rewrite <- !not_eq_None_Some. by rewrite (encrypted_has _ _ _ id Hen).
Qed.

Lemma DecryptKeys_ok s master ok s' : store_ok d s → DecryptKeys s master = Some (ok, s') → store_ok (d || IsCrypted s) s'.
Proof.
  intros H Hd%DecryptKeys_frame. destruct (IsCrypted s) eqn:Ec; [|rewrite orb_false_r; by destruct Hd as [_ ->]]. rewrite orb_true_r. unfold IsCrypted in Ec.
  destruct Hd as (k & v & c & cv & -> & Hc). destruct H as [_ _ _ _ Hx Hs Hw]. split; cbn; rewrite ?Ec; try done.
  - intros id pk x. destruct Hc as [-> |[_ ->]]; [by rewrite lookup_empty|apply Hx].
  - intros id Hid. unfold HaveKey, IsCrypted in Hid, Hw. cbn in Hid. rewrite Ec in Hid, Hw. cbn [negb] in Hid, Hw.
    destruct Hc as [-> |[_ ->]]; [by rewrite lookup_empty, bool_decide_false in Hid by (by intros [])|by apply (Hw id)].
Qed.
End operations.

(** ** Stores in use *)

Definition KeyStore_new : KeyStore := mkStore ∅ ∅ ∅ ∅ ∅ ∅ [] false.

(** What a wallet does to its store.  Keys and views are valid ones; keys it reads
    from its file in encrypted form are not watched ones; the master key has the
    size the wallet gives it.  The flag marks the decryption of an encrypted store
    ([CWallet::DecryptWallet]), whether it succeeds or stops on the way. *)
Inductive store_step (net : bool) (pair_valid : list Z → bool) (s : KeyStore) : bool → KeyStore → Prop :=
  | do_AddKey key : key_ok key → store_step net pair_valid s false (AddKey s key).2
  | do_AddMalleableKey view x ok s' : view_ok view → length x = 32%nat → AddMalleableKey s view x = Some (ok, s') → store_step net pair_valid s false s'
  | do_AddCScript script : store_step net pair_valid s false (AddCScript s script).2
  | do_AddWatchOnly dest : store_step net pair_valid s false (AddWatchOnly net pair_valid s dest).2
  | do_RemoveWatchOnly dest : store_step net pair_valid s false (RemoveWatchOnly s dest)
  | do_AddCryptedKey pk x : HaveWatchOnly s (SetDestination (CKeyID (pubkey_GetID pk))) = false → store_step net pair_valid s false (AddCryptedKey s pk x).2
  | do_AddCryptedMalleableKey view x : store_step net pair_valid s false (AddCryptedMalleableKey s view x).2
  | do_Lock : store_step net pair_valid s false (Lock s).2
  | do_Unlock master ok s' : Unlock s master = Some (ok, s') → store_step net pair_valid s false s'
  | do_EncryptKeys master s' : length master = 32%nat → EncryptKeys s master = Some (true, s') → store_step net pair_valid s false s'
  | do_DecryptKeys master ok s' : DecryptKeys s master = Some (ok, s') → store_step net pair_valid s (IsCrypted s) s'.
(** The states of a store, and whether it was decrypted on the way *)
Inductive store_reach (net : bool) (pair_valid : list Z → bool) : bool → KeyStore → Prop :=
  | reach_new : store_reach net pair_valid false KeyStore_new
  | reach_step d s b s' : store_reach net pair_valid d s → store_step net pair_valid s b s' → store_reach net pair_valid (d || b) s'.

Lemma store_step_ok net pv d s b s' : store_ok d s → store_step net pv s b s' → store_ok (d || b) s'.
Proof.
  intros H [key Hk|view x ok s2 Hok Hl Ha|script|dest|dest|pk x Hn|view x| |master ok s2 Hu|master s2 Hm He|master ok s2 Hd]; rewrite ?orb_false_r.
  - by apply AddKey_ok.
  - by eapply AddMalleableKey_ok.
  - unfold AddCScript. destruct (Z.gtb_spec (Z.of_nat (length script)) MAX_SCRIPT_ELEMENT_SIZE); [done|]. cbn [snd]. destruct H as [Hp Hc Hk Hv Hx Hs Hw].
    split; try assumption. intros h sc. cbn. intros [[<- <-]|[_ ?]]%lookup_insert_Some; [done|by apply Hs].
  - by apply AddWatchOnly_ok.
  - unfold RemoveWatchOnly. destruct H as [Hp Hc Hk Hv Hx Hs Hw]. split; try assumption. intros id Hid. specialize (Hw id Hid).
    unfold HaveWatchOnly in *. cbn [setWatchOnly with_scripts]. apply bool_decide_eq_false in Hw. apply bool_decide_eq_false. set_solver.
  - by apply AddCryptedKey_ok.
  - by apply AddCryptedMalleable_ok.
  - unfold Lock. destruct (SetCrypted s) as [ok s1] eqn:Es. apply (SetCrypted_ok (d := d)) in Es as (H1 & _ & Ht & _); [|done]. destruct ok; [|done]. cbn [negb snd].
    rewrite (Ht eq_refl). apply with_master_ok; auto.
  - unfold Unlock in Hu. destruct (SetCrypted s) as [okc s1] eqn:Es. apply (SetCrypted_ok (d := d)) in Es as (H1 & _ & Ht & _); [|done]. destruct okc; cbn [negb] in Hu; [|by injection Hu as _ <-].
    rewrite (Ht eq_refl) in Hu. assert (Hacc : store_ok d (with_master s1 master true)) by (apply with_master_ok; auto).
    destruct (id_order _) as [|[id [pk x]] l]; [by injection Hu as _ <-|]. destruct (DecryptSecret _ _ _); [|by injection Hu as _ <-].
    destruct (negb _); [by injection Hu as _ <-|]. apply bind_Some in Hu as (k & _ & [= Hu]). case_bool_decide; by injection Hu as _ <-.
  - destruct (fUseCrypto s) eqn:Ef; [unfold EncryptKeys, IsCrypted in He; rewrite Ef, orb_true_r in He; done|].
    destruct (EncryptKeys_ok s master H Ef Hm) as (s3 & He' & Hen). rewrite He in He'. injection He' as <-. by eapply EncryptKeys_store.
  - by eapply DecryptKeys_ok.
Qed.
Lemma KeyStore_new_ok : store_ok false KeyStore_new.
Proof.
  split; try done; intros *; cbn; rewrite ?lookup_empty; try done.
Qed.
Lemma reachable_store_ok net pv d s : store_reach net pv d s → store_ok d s.
Proof. induction 1; [apply KeyStore_new_ok|by eapply store_step_ok]. Qed.
End laws.

(** ** The interface *)

(** What [CKeyStore] offers to the code that signs and recognises its own outputs *)
Class CKeyStore := {
  ks_HaveKey : base_uint → bool;
  ks_GetKey : base_uint → option (option CKey);
  ks_GetPubKey : base_uint → option (option (list Z));
  ks_GetCScript : base_uint → option (list Z);
  ks_HaveWatchOnly : list Z → bool;
  ks_CheckOwnership : list Z → list Z → option bool;
  ks_CreatePrivKey : list Z → list Z → option (bool * option CKey);
  ks_nScripts : nat
}.
(** What they rely on: the store gives every key it has.  That is so for a plain store
    and for an encrypted one that is unlocked ([plain_store_ok], [unlocked_store_ok]);
    a locked one has keys and gives none.  [ks_nScripts] bounds how deep redeem
    scripts may be nested *)
Class CKeyStoreOk {DG : Digests} {C : OpenSSL_EC} (KS : CKeyStore) : Prop := {
  ks_key id : ks_HaveKey id = true → ∃ secret c, ks_GetKey id = Some (Some (mkKey secret c)) ∧
    ks_GetPubKey id = Some (Some (key_GetPubKey (mkKey secret c))) ∧ id = pubkey_GetID (key_GetPubKey (mkKey secret c)) ∧
    key_ok (mkKey secret c);
  ks_nokey id : ks_HaveKey id = false → ks_GetKey id = Some None;
  ks_script h script : ks_GetCScript h = Some script → h = script_GetID script ∧ Z.of_nat (length script) <= MAX_SCRIPT_ELEMENT_SIZE
}.

Section interface.
Context {DG : Digests} {DGok : DigestsOk} {C : OpenSSL_EC} {Cok : OpenSSL_EC_ok C} {E : EVP} {Eok : EVPOk}.

Definition as_keystore (s : KeyStore) : CKeyStore := {|
  ks_HaveKey := HaveKey s;
  ks_GetKey := store_GetKey s;
  ks_GetPubKey := GetPubKey s;
  ks_GetCScript := GetCScript s;
  ks_HaveWatchOnly := HaveWatchOnly s;
  ks_CheckOwnership pubKeyVariant R := view ← CheckOwnership s pubKeyVariant R; Some (bool_decide (is_Some view));
  ks_CreatePrivKey := CreatePrivKey s;
  ks_nScripts := size (mapScripts s)
|}.

Lemma plain_store_ok d s : store_ok d s → fUseCrypto s = false → CKeyStoreOk (as_keystore s).
Proof.
  intros H Hf. split; cbn.
  - intros id Hid. unfold HaveKey, basic_HaveKey, IsCrypted in Hid. rewrite Hf in Hid. cbn [negb] in Hid. apply bool_decide_eq_true in Hid as [[secret c] Hid].
    destruct (store_keys _ _ H _ _ _ Hf Hid) as [Hs Hi]. exists secret, c. unfold GetPubKey, IsCrypted. rewrite Hf. cbn [negb].
    rewrite (plain_GetKey s id H Hf), Hid. done.
  - intros id Hid. rewrite (plain_GetKey s id H Hf). unfold HaveKey, basic_HaveKey, IsCrypted in Hid. rewrite Hf in Hid. cbn [negb] in Hid.
    apply bool_decide_eq_false in Hid. by rewrite (proj2 (eq_None_not_Some _) Hid).
  - apply (store_scripts _ _ H).
Qed.
Lemma unlocked_store_ok d s master s' : store_ok d s → fUseCrypto s = false → length master = 32%nat → encrypted master s s' →
  CKeyStoreOk (as_keystore (with_master s' master true)).
Proof.
  intros H Hf Hm Hen. destruct (plain_store_ok d s H Hf) as [P1 P2 P3]. cbn [as_keystore ks_HaveKey ks_GetKey ks_GetPubKey ks_GetCScript] in P1, P2, P3.
  assert (Eh : ∀ id, HaveKey (with_master s' master true) id = HaveKey s id).
  { intros id. unfold HaveKey, basic_HaveKey, IsCrypted. cbn. rewrite Hf. cbn [negb]. apply bool_decide_ext.
    rewrite <- !not_eq_None_Some. by rewrite (encrypted_has _ _ _ id Hen). }
  split; cbn [as_keystore ks_HaveKey ks_GetKey ks_GetPubKey ks_GetCScript].
  - intros id. rewrite Eh. intros Hid. destruct (P1 id Hid) as (secret & c & E1 & E2 & E3). exists secret, c.
    by rewrite (encrypted_GetKey _ _ _ _ H Hf Hen Hm), (encrypted_GetPubKey _ _ _ _ _ H Hf Hen).
  - intros id. rewrite Eh, (encrypted_GetKey _ _ _ _ H Hf Hen Hm). apply P2.
  - intros h script. unfold GetCScript. cbn. destruct (enc_frame _ _ _ Hen) as (-> & _). apply P3.
Qed.
End interface.

(** ** Properties *)

(** C14. Key stores.  In every state a wallet brings its store into, encrypted or
    not, a key it has is filed under the hash of its public key, which can be read
    even while the store is locked, and the script paying to it is not watched.
    A store that is not encrypted has no encrypted key and no master key; one that
    is has no key in the clear, unless [DecryptKeys] was called, and one that
    [DecryptKeys] decrypts still counts as encrypted and has no key any more.  A
    locked store gives no private key; redeem scripts are filed under their hash
    and fit on the stack. *)
Theorem keystore_consistent {DG : Digests} {DGok : DigestsOk} {C : OpenSSL_EC} {Cok : OpenSSL_EC_ok C} {E : EVP} {Eok : EVPOk} net pair_valid decrypted s :
  store_reach net pair_valid decrypted s →
  (∀ id, HaveKey s id = true →
    (∃ pk, GetPubKey s id = Some (Some pk) ∧ pubkey_GetID pk = id) ∧ HaveWatchOnly s (SetDestination (CKeyID id)) = false) ∧
  (if IsCrypted s then decrypted = false → mapKeys s = ∅ else mapCryptedKeys s = ∅ ∧ mapCryptedMalleableKeys s = ∅ ∧ vMasterKey s = []) ∧
  (∀ master s', DecryptKeys s master = Some (true, s') → IsCrypted s' = true ∧ ∀ id, HaveKey s' id = false) ∧
  (IsLocked s = true → ∀ id, store_GetKey s id = Some None) ∧
  (∀ h script, GetCScript s h = Some script → h = script_GetID script ∧ Z.of_nat (length script) <= MAX_SCRIPT_ELEMENT_SIZE).
Proof.
  rename decrypted into d.
  intros H%reachable_store_ok. split; [|split; [|split; [by intros; eapply DecryptKeys_hides|split]]].
  - intros id Hid. split; [|by apply (store_watch _ _ H)]. assert (Hid' := Hid). unfold HaveKey, basic_HaveKey in Hid. destruct (IsCrypted s) eqn:Ec; cbn [negb] in Hid.
    + apply bool_decide_eq_true in Hid as [[pk x] Hid]. exists pk. unfold GetPubKey. rewrite Ec, Hid. split; [done|]. symmetry. by eapply store_crypted.
    + destruct (ks_key (CKeyStoreOk := plain_store_ok d s H Ec) id Hid') as (secret & c & _ & Hp & Hi & _). eauto.
  - unfold IsCrypted. destruct (fUseCrypto s) eqn:Ef; [intros Hd; by eapply store_crypto|]. by apply (store_plain _ _ H).
  - unfold IsLocked. intros [Ef Em%bool_decide_eq_true]%andb_true_iff id. unfold store_GetKey, IsCrypted. rewrite Ef, Em. cbn [negb].
    destruct (mapCryptedKeys s !! id) as [[pk x]|]; [by rewrite no_master|done].
  - apply (store_scripts _ _ H).
Qed.

(** C15. Encrypting a wallet.  [EncryptKeys] succeeds on every plain store and keeps
    everything but the private keys readable: the same keys, public keys, scripts
    and owned one-time keys, found through the same views; no secret stays in the
    clear and no private key can be had.  Unlocking with the same master key gives
    every private key back as it was: those of the addresses, the malleable keys of
    the views and the one-time keys made from them. *)
Theorem EncryptKeys_roundtrip {DG : Digests} {DGok : DigestsOk} {C : OpenSSL_EC} {Cok : OpenSSL_EC_ok C} {E : EVP} {Eok : EVPOk} net pair_valid d s master :
  store_reach net pair_valid d s → IsCrypted s = false → length master = 32%nat →
  ∃ s1 s2, EncryptKeys s master = Some (true, s1) ∧ Unlock s1 master = Some (true, s2) ∧
    mapKeys s1 = ∅ ∧ mapMalleableKeys s1 = ∅ ∧ IsLocked s1 = true ∧ IsLocked s2 = false ∧
    (∀ id, store_GetKey s1 id = Some None) ∧ (∀ pk R k, CreatePrivKey s1 pk R ≠ Some (true, Some k)) ∧
    (∀ x, x = s1 ∨ x = s2 →
      mapScripts x = mapScripts s ∧ setWatchOnly x = setWatchOnly s ∧
      (∀ id, HaveKey x id = HaveKey s id ∧ GetPubKey x id = GetPubKey s id) ∧
      (∀ pk R, CheckOwnership x pk R = CheckOwnership s pk R)) ∧
    (∀ id, store_GetKey s2 id = store_GetKey s id) ∧
    (∀ id v h, mapMalleableKeys s !! id = Some (v, h) →
      GetMalleableKey s2 v = GetMalleableKey s v ∧ GetMalleableKey s v = (mKey ← mkv_GetMalleableKey v h; Some (Some mKey))) ∧
    (∀ pk R, CheckOwnership s pk R ≠ Some None → CreatePrivKey s2 pk R = CreatePrivKey s pk R).
Proof.
  intros H%reachable_store_ok Hf Hm. destruct (EncryptKeys_ok s master H Hf Hm) as (s1 & He & Hen). exists s1, (with_master s1 master true).
  destruct (enc_frame _ _ _ Hen) as (E1 & E2 & E3 & E4 & E5 & E6). destruct (store_plain _ _ H Hf) as (_ & _ & Em). assert (Ems := eq_trans E3 Em).
  split; [done|]. split; [by eapply encrypted_Unlock|]. split; [done|]. split; [done|].
  assert (Hs1 : s1 = with_master s1 [] true) by (clear -Ems E4; destruct s1; cbn in Ems, E4; by subst).
  split; [unfold IsLocked; by rewrite E4, Ems|]. split; [unfold IsLocked; cbn; destruct master; [done|reflexivity]|]. split.
  { intros id. unfold store_GetKey, IsCrypted. rewrite E4, Ems. cbn [negb]. destruct (mapCryptedKeys s1 !! id) as [[pk x]|]; [by rewrite no_master|done]. }
  split; [intros pk R k; by apply locked_CreatePrivKey|]. split; [|split; [intros id; by eapply encrypted_GetKey|split]].
  - intros x Hx. assert (Hmk : ∃ mk, x = with_master s1 mk true) by (destruct Hx as [-> | ->]; eauto). destruct Hmk as [mk ->].
    split; [done|]. split; [done|]. split; [|intros; by eapply encrypted_CheckOwnership]. intros id. split; [|by eapply encrypted_GetPubKey].
    unfold HaveKey, basic_HaveKey. cbn. rewrite Hf. cbn [negb]. apply bool_decide_ext. rewrite <- !not_eq_None_Some. by rewrite (encrypted_has _ _ _ id Hen).
  - intros id v h Hv. split; [by eapply encrypted_GetMalleableKey|]. unfold GetMalleableKey, basic_GetMalleableKey. rewrite Hf. cbn [negb].
    destruct (store_views _ _ H _ _ _ Hf Hv) as (<- & _). by rewrite Hv.
  - intros pk R Ho. by eapply encrypted_CreatePrivKey.
Qed.

(** On a store that has no key yet, adding a malleable key does not add it but turns
    encryption on, without a master key. *)
Example AddMalleableKey_encrypts {DG : Digests} {C : OpenSSL_EC} {E : EVP} view x :
  AddMalleableKey KeyStore_new view x = Some (false, with_master KeyStore_new [] true).
Proof. reflexivity. Qed.

(** ** A store with one key *)

Definition toy_evp : EVP := {| EVP_encrypt k iv p := Some (rev p); EVP_decrypt k iv c := Some (rev c); EVP_BytesToKey _ _ _ := (0, [], []) |}.
#[local] Existing Instances sample_digests sample_digests_ok toy_curve toy_evp.
#[local] Instance toy_evp_ok : EVPOk.
Proof. split; cbn; [eauto|]. intros k iv p c _ [= <-]. by rewrite rev_involutive. Qed.

Definition toy_key : CKey := mkKey (toy_secret 2) false.
Lemma toy_key_ok : key_ok toy_key.
Proof. apply toy_secret_ok; [lia|vm_compute; congruence]. Qed.
Definition toy_store : KeyStore := (AddCScript (AddKey KeyStore_new toy_key).2 [81]).2.
Lemma toy_reach script : store_reach false (λ _, false) false (AddCScript (AddKey KeyStore_new toy_key).2 script).2.
Proof. eapply (reach_step _ _ false _ false); [|apply do_AddCScript]. eapply (reach_step _ _ false _ false); [constructor|]. apply (do_AddKey _ _ _ toy_key), toy_key_ok. Qed.
Definition toy_reachable : store_reach false (λ _, false) false toy_store := toy_reach [81].
Definition toy_id : base_uint := pubkey_GetID (key_GetPubKey toy_key).

Lemma keystore_consistent_witness : HaveKey toy_store toy_id = true ∧ HaveWatchOnly toy_store (SetDestination (CKeyID toy_id)) = false ∧
  ∃ pk, GetPubKey toy_store toy_id = Some (Some pk) ∧ pubkey_GetID pk = toy_id.
Proof.
  destruct (keystore_consistent false (λ _, false) false toy_store toy_reachable) as [H _]. assert (Hk : HaveKey toy_store toy_id = true) by (vm_compute; reflexivity).
  destruct (H toy_id Hk) as [H1 H2]. split; [exact Hk|]. split; [exact H2|exact H1].
Defined.

Lemma EncryptKeys_roundtrip_witness : ∃ s1 s2, EncryptKeys toy_store (replicate 32 1) = Some (true, s1) ∧ Unlock s1 (replicate 32 1) = Some (true, s2) ∧
  store_GetKey s1 toy_id = Some None ∧ store_GetKey s2 toy_id = Some (Some toy_key).
Proof.
  destruct (EncryptKeys_roundtrip false (λ _, false) false toy_store (replicate 32 1) toy_reachable) as (s1 & s2 & H1 & H2 & _ & _ & _ & _ & H3 & _ & _ & H4 & _); [vm_compute; reflexivity..|].
  exists s1, s2. split; [exact H1|]. split; [exact H2|]. split; [apply H3|]. rewrite H4. vm_compute. reflexivity.
Defined.
