(* ===== verification/Sign.v ===== *)
(** * Owning and signing outputs (src/script.cpp)

    [IsMine] tells which outputs a key store can spend, [SignSignature] makes the
    input script that spends one, [CombineSignatures] merges two partly signed
    input scripts.  The store is used through
    [CKeyStore].  The main theorem: what [IsMine] calls spendable can be signed, and
    the node accepts the result. *)

From stdpp Require Import base list numbers option gmap sorting.
From Stdlib Require Import ZArith Lia.
From S2P Require Import Prelude Uint256 Bignum Serialize Tx Script Interp SigCheck Utxo ScriptStd Base58 Key KeyStore.

Open Scope Z_scope.

Inductive isminetype := MINE_NO | MINE_WATCH_ONLY | MINE_SPENDABLE.
#[export] Instance isminetype_eq_dec : EqDecision isminetype.
Proof. solve_decision. Defined.

(** ** Scripts for destinations *)

(** [SetMultisig]; [None] is the assertion of [EncodeOP_N] *)
Definition SetMultisig (nRequired : Z) (keys : list (list Z)) : option (list Z) :=
  m ← EncodeOP_N nRequired; n ← EncodeOP_N (i32 (Z.of_nat (length keys)));
  Some (fold_left push_vector keys [m] ++ [n; OP_CHECKMULTISIG]).

(** [SetAddress]; a new one-time key of a malleable address is drawn by [GetVariant] *)
Definition SetAddress (fTestNet : bool) (pair_valid : list Z → bool) (GetVariant : list Z → option (list Z * list Z)) (dest : CBase58Data) : list Z :=
  if addr_IsScript fTestNet pair_valid dest then push_vector [OP_HASH160] (vchData dest) ++ [OP_EQUAL]
  else if addr_IsPubKey fTestNet pair_valid dest then push_vector [OP_DUP; OP_HASH160] (vchData dest) ++ [OP_EQUALVERIFY; OP_CHECKSIG]
  else if addr_IsPair fTestNet pair_valid dest then
    match GetVariant (vchData dest) with
    | None => []
    | Some (R, pubKeyVariant) => push_vector (push_vector [] pubKeyVariant) R ++ [OP_DROP; OP_CHECKSIG]
    end
  else [].

Section Sign.
Context {BN : OpenSSL_BN} {DG : Digests} {C : OpenSSL_EC} {KS : CKeyStore}.

(** ** Which outputs are mine *)

Definition HaveKeys (pubkeys : list valtype) : Z :=
  fold_left (λ nResult pubkey, if ks_HaveKey (pubkey_GetID (CPubKey_Set pubkey)) then u32 (nResult + 1) else nResult) pubkeys 0.

(** Redeem scripts may be nested: [None] when there are more levels than scripts,
    where the program would not return *)
Fixpoint ismine (fuel : nat) (scriptPubKey : list Z) : option isminetype :=
  let watch := if ks_HaveWatchOnly scriptPubKey then MINE_WATCH_ONLY else MINE_NO in
  let mine (b : bool) := Some (if b then MINE_SPENDABLE else watch) in
  let '(ok, whichType, vSolutions) := Solver scriptPubKey in
  if negb ok then Some watch
  else
    match whichType with
    | TX_NONSTANDARD | TX_NULL_DATA => Some watch
    | TX_PUBKEY => mine (ks_HaveKey (pubkey_GetID (CPubKey_Set (nth 0 vSolutions []))))
    | TX_PUBKEY_DROP => b ← ks_CheckOwnership (CPubKey_Set (nth 0 vSolutions [])) (CPubKey_Set (nth 1 vSolutions [])); mine b
    | TX_PUBKEYHASH => mine (ks_HaveKey (bu_of_vch W160 (nth 0 vSolutions [])))
    | TX_SCRIPTHASH =>
        match ks_GetCScript (bu_of_vch W160 (nth 0 vSolutions [])) with
        | None => Some watch
        | Some subscript =>
            match fuel with
            | O => None
            | S fuel => ret ← ismine fuel subscript; mine (bool_decide (ret = MINE_SPENDABLE))
            end
        end
    | TX_MULTISIG =>
        let keys := take (length vSolutions - 2) (drop 1 vSolutions) in
        mine (HaveKeys keys =? Z.of_nat (length keys))
    end.
Definition IsMine (scriptPubKey : list Z) : option isminetype := ismine (S ks_nScripts) scriptPubKey.

(** The keys of the store that are needed to spend: [CAffectedKeysVisitor] *)
Fixpoint affected_keys (fuel : nat) (script : list Z) : option (list base_uint) :=
  match ExtractDestinations script with
  | None => Some []
  | Some (_, vDest, _) =>
      foldr (λ dest acc,
        keys ← match dest with
               | CNoDestination => Some []
               | CKeyID keyId => Some (if ks_HaveKey keyId then [keyId] else [])
               | CScriptID scriptId =>
                   match ks_GetCScript scriptId with
                   | None => Some []
                   | Some script => match fuel with O => None | S fuel => affected_keys fuel script end
                   end
               end;
        rest ← acc; Some (keys ++ rest)) (Some []) vDest
  end.
Definition ExtractAffectedKeys (script : list Z) : option (list base_uint) := affected_keys (S ks_nScripts) script.

(** ** Signing

    The script behind the verdict is [scriptSigRet]; the outer [None] is an
    exception of the store. *)

(** [key.Sign] and the push of the signature with its hash type *)
Definition push_signature (key : CKey) (hash : base_uint) (nHashType : Z) (scriptSigRet : list Z) : bool * list Z :=
  match key_Sign key hash with
  | None => (false, scriptSigRet)
  | Some vchSig => (true, push_vector scriptSigRet (vchSig ++ [u8 nHashType]))
  end.
Definition Sign1 (address : base_uint) (hash : base_uint) (nHashType : Z) (scriptSigRet : list Z) : option (bool * list Z) :=
  key ← ks_GetKey address;
  match key with
  | None => Some (false, scriptSigRet)
  | Some key => Some (push_signature key hash nHashType scriptSigRet)
  end.
(** A key that was not set cannot sign *)
Definition SignR (pubKey R : list Z) (hash : base_uint) (nHashType : Z) (scriptSigRet : list Z) : option (bool * list Z) :=
  '(ok, key) ← ks_CreatePrivKey pubKey R;
  match (ok : bool), key with
  | true, Some key => Some (push_signature key hash nHashType scriptSigRet)
  | _, _ => Some (false, scriptSigRet)
  end.
Fixpoint signn_loop (nRequired : Z) (pubkeys : list valtype) (hash : base_uint) (nHashType : Z) (nSigned : Z) (scriptSigRet : list Z) : option (Z * list Z) :=
  match pubkeys with
  | [] => Some (nSigned, scriptSigRet)
  | pubkey :: pubkeys =>
      if nSigned <? nRequired then
        '(ok, scriptSigRet) ← Sign1 (pubkey_GetID (CPubKey_Set pubkey)) hash nHashType scriptSigRet;
        signn_loop nRequired pubkeys hash nHashType (if ok : bool then nSigned + 1 else nSigned) scriptSigRet
      else Some (nSigned, scriptSigRet)
  end.
Definition SignN (multisigdata : list valtype) (hash : base_uint) (nHashType : Z) (scriptSigRet : list Z) : option (bool * list Z) :=
  let nRequired := nth 0 (nth 0 multisigdata []) 0 in
  '(nSigned, scriptSigRet) ← signn_loop nRequired (take (length multisigdata - 2) (drop 1 multisigdata)) hash nHashType 0 scriptSigRet;
  Some (nSigned =? nRequired, scriptSigRet).

(** [Solver] with a key store: the verdict, [scriptSigRet] and [whichTypeRet] *)
Definition SolverSign (scriptPubKey : list Z) (hash : base_uint) (nHashType : Z) : option (bool * list Z * txnouttype) :=
  let '(ok, whichTypeRet, vSolutions) := Solver scriptPubKey in
  let ret (r : bool * list Z) := Some (r, whichTypeRet) in
  if negb ok then ret (false, [])
  else
    match whichTypeRet with
    | TX_NONSTANDARD | TX_NULL_DATA => ret (false, [])
    | TX_PUBKEY => r ← Sign1 (pubkey_GetID (CPubKey_Set (nth 0 vSolutions []))) hash nHashType []; ret r
    | TX_PUBKEY_DROP => r ← SignR (CPubKey_Set (nth 0 vSolutions [])) (CPubKey_Set (nth 1 vSolutions [])) hash nHashType []; ret r
    | TX_PUBKEYHASH =>
        let keyID := bu_of_vch W160 (nth 0 vSolutions []) in
        '(ok, scriptSigRet) ← Sign1 keyID hash nHashType [];
        if negb (ok : bool) then ret (false, scriptSigRet)
        else vch ← ks_GetPubKey keyID; ret (true, push_vector scriptSigRet (default [] vch))
    | TX_SCRIPTHASH =>
        match ks_GetCScript (bu_of_vch W160 (nth 0 vSolutions [])) with
        | None => ret (false, [])
        | Some script => ret (true, script)
        end
    | TX_MULTISIG => r ← SignN vSolutions hash nHashType [OP_0]; ret r
    end.

Section Verify.
Variable Verify : list Z → base_uint → list Z → bool.
Variable nMaxCacheSize : Z.
Variable random_entry : gset sigdata → sigdata.

Definition set_input_script (txTo : CTransaction) (nIn : nat) (script : list Z) : CTransaction :=
  mkTx (nVersion txTo) (nTime txTo) (alter (set_scriptSig script) nIn (vin txTo)) (vout txTo) (nLockTime txTo).

(** [SignSignature]: the verdict, [txTo] and the signature cache; [None] is a failed
    assertion or an exception *)
Definition SignSignature (fromPubKey : list Z) (txTo : CTransaction) (nIn : nat) (nHashType : Z) (cache : gset sigdata)
    : option (bool * CTransaction * gset sigdata) :=
  if (length (vin txTo) <=? nIn)%nat then None
  else
    let hash := SignatureHash fromPubKey txTo nIn nHashType in
    '(ok, scriptSig, whichType) ← SolverSign fromPubKey hash nHashType;
    if negb (ok : bool) then Some (false, set_input_script txTo nIn scriptSig, cache)
    else
      '(fSolved, scriptSig) ←
        (if bool_decide (whichType = TX_SCRIPTHASH) then
           let subscript := scriptSig in
           let txTo := set_input_script txTo nIn scriptSig in
           let hash2 := SignatureHash subscript txTo nIn nHashType in
           '(ok, scriptSig, subType) ← SolverSign subscript hash2 nHashType;
           Some ((ok : bool) && negb (bool_decide (subType = TX_SCRIPTHASH)), push_vector scriptSig subscript)
         else Some (true, scriptSig));
      let txTo := set_input_script txTo nIn scriptSig in
      if negb (fSolved : bool) then Some (false, txTo, cache)
      else
        let '(r, cache) := VerifyScript (CheckSig Verify nMaxCacheSize random_entry txTo nIn 0 STRICT_FLAGS) txTo nIn STRICT_FLAGS scriptSig fromPubKey cache in
        ok ← r; Some (ok : bool, txTo, cache).
(** [SignSignature] of an input that spends [txFrom] *)
Definition SignSignature_from (txFrom txTo : CTransaction) (nIn : nat) (nHashType : Z) (cache : gset sigdata)
    : option (bool * CTransaction * gset sigdata) :=
  txin ← vin txTo !! nIn;
  txout ← vout txFrom !! Z.to_nat (op_n (prevout txin));
  if negb (bu_eq (op_hash (prevout txin)) (GetHash txFrom)) then None
  else SignSignature (scriptPubKey txout) txTo nIn nHashType cache.

(** ** Merging partly signed scripts

    Stacks are vectors here, the top last. *)

Definition PushAll (values : list valtype) : list Z := fold_left push_vector values [].

(** [set<valtype>]: byte strings in lexicographic order, without repetition *)
Fixpoint lex_le (a b : list Z) : bool :=
  match a, b with
  | [], _ => true
  | _ :: _, [] => false
  | x :: a, y :: b => (x <? y) || ((x =? y) && lex_le a b)
  end.
Definition lex (a b : list Z) : Prop := lex_le a b = true.
#[local] Instance lex_dec : RelDecision lex.
Proof. intros a b. unfold lex. apply _. Defined.

(** The first key without a signature that [sig] is valid for *)
Fixpoint match_pubkey_sig (check : valtype → valtype → gset sigdata → bool * gset sigdata) (sig : valtype) (pubkeys : list valtype)
    (sigs : gmap valtype valtype) (cache : gset sigdata) : gmap valtype valtype * gset sigdata :=
  match pubkeys with
  | [] => (sigs, cache)
  | pubkey :: pubkeys =>
      if bool_decide (is_Some (sigs !! pubkey)) then match_pubkey_sig check sig pubkeys sigs cache
      else
        let '(ok, cache) := check sig pubkey cache in
        if ok : bool then (<[pubkey := sig]> sigs, cache) else match_pubkey_sig check sig pubkeys sigs cache
  end.
Fixpoint match_all_sigs (check : valtype → valtype → gset sigdata → bool * gset sigdata) (allsigs : list valtype) (pubkeys : list valtype)
    (sigs : gmap valtype valtype) (cache : gset sigdata) : gmap valtype valtype * gset sigdata :=
  match allsigs with
  | [] => (sigs, cache)
  | sig :: allsigs => let '(sigs, cache) := match_pubkey_sig check sig pubkeys sigs cache in match_all_sigs check allsigs pubkeys sigs cache
  end.
(** The merged script: signatures in the order of the keys, then placeholders *)
Fixpoint merged_sigs (nSigsRequired nSigsHave : Z) (pubkeys : list valtype) (sigs : gmap valtype valtype) (result : list Z) : Z * list Z :=
  match pubkeys with
  | [] => (nSigsHave, result)
  | pubkey :: pubkeys =>
      if nSigsHave <? nSigsRequired then
        match sigs !! pubkey with
        | Some sig => merged_sigs nSigsRequired (nSigsHave + 1) pubkeys sigs (push_vector result sig)
        | None => merged_sigs nSigsRequired nSigsHave pubkeys sigs result
        end
      else (nSigsHave, result)
  end.
Definition CombineMultisig (scriptPubKey : list Z) (txTo : CTransaction) (nIn : nat) (vSolutions sigs1 sigs2 : list valtype) (cache : gset sigdata)
    : list Z * gset sigdata :=
  let allsigs := merge_sort lex (elements (list_to_set (filter (λ v, v ≠ []) (sigs1 ++ sigs2)) : gset valtype)) in
  let nSigsRequired := nth 0 (nth 0 vSolutions []) 0 in
  let pubkeys := take (length vSolutions - 2) (drop 1 vSolutions) in
  let check sig pubkey cache := CheckSig Verify nMaxCacheSize random_entry txTo nIn 0 0 sig pubkey scriptPubKey cache in
  let '(sigs, cache) := match_all_sigs check allsigs pubkeys ∅ cache in
  let '(nSigsHave, result) := merged_sigs nSigsRequired 0 pubkeys sigs [OP_0] in
  (result ++ replicate (Z.to_nat (nSigsRequired - nSigsHave)) OP_0, cache).

Definition is_empty_or (l : list valtype) (x : option valtype) : bool := bool_decide (l = []) || bool_decide (x = Some []).
(** Every level of script hashes takes an element from both vectors *)
Fixpoint combine (fuel : nat) (scriptPubKey : list Z) (txTo : CTransaction) (nIn : nat) (txType : txnouttype) (vSolutions sigs1 sigs2 : list valtype)
    (cache : gset sigdata) : list Z * gset sigdata :=
  match txType with
  | TX_NONSTANDARD | TX_NULL_DATA => (if (length sigs2 <=? length sigs1)%nat then PushAll sigs1 else PushAll sigs2, cache)
  | TX_PUBKEY | TX_PUBKEY_DROP | TX_PUBKEYHASH => (if is_empty_or sigs1 (head sigs1) then PushAll sigs2 else PushAll sigs1, cache)
  | TX_SCRIPTHASH =>
      if is_empty_or sigs1 (last sigs1) then (PushAll sigs2, cache)
      else if is_empty_or sigs2 (last sigs2) then (PushAll sigs1, cache)
      else
        match fuel with
        | O => ([], cache)
        | S fuel =>
            let spk := default [] (last sigs1) in
            let '(_, txType2, vSolutions2) := Solver spk in
            let '(result, cache) := combine fuel spk txTo nIn txType2 vSolutions2 (removelast sigs1) (removelast sigs2) cache in
            (push_vector result spk, cache)
        end
  | TX_MULTISIG => CombineMultisig scriptPubKey txTo nIn vSolutions sigs1 sigs2 cache
  end.
(** [CTransaction()] is empty but for its version and time *)
Definition CombineSignatures (adjustedTime : Z) (scriptPubKey : list Z) (txTo : CTransaction) (nIn : nat) (scriptSig1 scriptSig2 : list Z) (cache : gset sigdata)
    : list Z * gset sigdata :=
  let '(_, txType, vSolutions) := Solver scriptPubKey in
  let eval scriptSig cache :=
    let '(_, stack, cache) := EvalScript (CheckSig Verify nMaxCacheSize random_entry (mkTx 1 adjustedTime [] [] 0) 0 0 SCRIPT_VERIFY_STRICTENC) (mkTx 1 adjustedTime [] [] 0) 0
                                SCRIPT_VERIFY_STRICTENC [] scriptSig cache in
    (rev stack, cache) in
  let '(stack1, cache) := eval scriptSig1 cache in
  let '(stack2, cache) := eval scriptSig2 cache in
  combine (length stack1) scriptPubKey txTo nIn txType vSolutions stack1 stack2 cache.
End Verify.
End Sign.

(** ** Running the standard scripts *)

Section run.
Context {BN : OpenSSL_BN} {BNok : OpenSSL_BN_ok BN} {DG : Digests}.
Context (verify : valtype → valtype → list Z → bool) (txTo : CTransaction) (nIn : nat) (flags : Z).

Local Abbreviation plain := (λ (g k : valtype) (code : list Z) (c : unit), (verify g k code, c)).
Local Abbreviation run := (eval plain txTo nIn flags).
Local Abbreviation at_pc pc code s k := (mkM (Cache := unit) pc code s [] [] k tt).

(** The signature check with the checks of the encodings *)
Definition accepts (g k : valtype) (code : list Z) : bool := IsCanonicalSignature g flags && IsCanonicalPubKey k flags && verify g k code.
Lemma check_one_plain g k code c : check_one plain flags g k code c = (accepts g k code, c).
Proof. unfold check_one, accepts. by destruct (IsCanonicalSignature g flags && IsCanonicalPubKey k flags). Qed.

Lemma run_push op v rest pc code s k : GetOp pc = Some (op, v, rest) → 0 <= op <= OP_PUSHDATA4 → Z.of_nat (length v) <= MAX_SCRIPT_ELEMENT_SIZE →
  (length s < 1000)%nat → k < 201 → run (at_pc pc code s k) = run (at_pc rest code (v :: s) k).
Proof.
  intros HG Hop Hv Hs Hk. assert (Hop' : op <= 78) by exact (proj2 Hop). rewrite (eval_exec _ _ _ _ pc (op, v) rest); [|exact HG|exact Hv|exact Hk|].
  2: { apply not_true_is_false. unfold disabled_opcode. rewrite existsb_exists. intros (x & Hin & E%Z.eqb_eq). cbn [fst] in E. subst x.
       repeat (destruct Hin as [<-|Hin]; [by cbv in Hop'|]). done. }
  cbn [fst snd]. assert (between 0 op OP_PUSHDATA4 = true) as -> by (unfold between; lia). assert ((op >? OP_16) = false) as -> by (unfold OP_16; lia).
  unfold limit, with_exec. cbn [stack altstack Interp.pc pbegincodehash vfExec nOpCount cache]. cbn [length]. destruct (Nat.ltb_spec 1000 (S (length s) + 0)); [lia|]. done.
Qed.

(** Scripts that push values *)
Lemma push_opcode_range v : Z.of_nat (length v) <= MAX_SCRIPT_ELEMENT_SIZE → 0 <= push_opcode_of v <= OP_PUSHDATA4.
Proof. intros Hv. unfold push_opcode_of, OP_PUSHDATA4, OP_PUSHDATA1, OP_PUSHDATA2. repeat case_match; lia. Qed.
Definition pushes (l : list valtype) : list Z := concat (map (push_vector []) l).
Lemma pushes_fold l : ∀ s, fold_left push_vector l s = s ++ pushes l.
Proof.
  induction l as [|v l IH]; intros s; cbn [fold_left]; [by rewrite app_nil_r|]. rewrite IH, push_vector_app. unfold pushes. cbn [map concat]. by rewrite app_assoc.
Qed.
Definition elems_ok (l : list valtype) : Prop := Forall (λ v : valtype, Z.of_nat (length v) <= MAX_SCRIPT_ELEMENT_SIZE) l.
Lemma run_pushes l code : elems_ok l → ∀ s, (length l + length s <= 1000)%nat →
  run (at_pc (pushes l) code s 0) = run (at_pc [] code (rev l ++ s) 0).
Proof.
  intros Hl. induction Hl as [|v l Hv _ IH]; intros s Hs; [done|]. cbn [length] in Hs. unfold pushes. cbn [map concat].
  rewrite (run_push (push_opcode_of v) v (pushes l)); [|apply GetOp_push_vector; unfold MAX_SCRIPT_ELEMENT_SIZE in Hv; lia|by apply push_opcode_range|done|lia|lia].
  rewrite IH by (cbn [length]; lia). cbn [rev]. by rewrite <- app_assoc.
Qed.
Lemma EvalScript_pushes l : elems_ok l → (length l <= 1000)%nat → Z.of_nat (length (pushes l)) <= 10000 →
  EvalScript plain txTo nIn flags [] (pushes l) tt = (true, rev l, tt).
Proof.
  intros Hl Hn Hlen. unfold EvalScript. destruct (Z.gtb_spec (Z.of_nat (length (pushes l))) 10000); [lia|].
  change (run (at_pc (pushes l) (pushes l) [] 0) = (true, rev l, tt)). rewrite run_pushes by (done || cbn [length]; lia). rewrite eval_end by done. cbn. by rewrite app_nil_r.
Qed.
Lemma IsPushOnly_pushes l : elems_ok l → IsPushOnly (pushes l) = true.
Proof.
  intros Hl. unfold IsPushOnly. generalize (le_n (length (pushes l))). generalize (length (pushes l)) at 2 3. intros fuel Hf. revert fuel Hf.
  induction Hl as [|v l Hv Hl IH]; intros fuel Hf; [by destruct fuel|].
  assert (HG : GetOp (pushes (v :: l)) = Some (push_opcode_of v, v, pushes l)).
  { apply GetOp_push_vector. unfold MAX_SCRIPT_ELEMENT_SIZE in Hv. lia. }
  assert (Hlt := GetOp_shorter _ _ _ _ HG). destruct (push_opcode_range v Hv) as [_ Hop]. destruct fuel as [|fuel]; [lia|].
  cbn [pushonly_loop]. destruct (pushes (v :: l)) eqn:Ep; [done|]. rewrite HG. destruct (Z.gtb_spec (push_opcode_of v) OP_16) as [Hgt|_].
  { unfold OP_16, OP_PUSHDATA4 in *. lia. }
  apply IH. cbn [length] in *. lia.
Qed.

Lemma GetOp_push_op pc op v rest : GetOp pc = Some (op, v, rest) → v ≠ [] → 0 <= op <= OP_PUSHDATA4.
Proof.
  intros HG Hv. destruct pc as [|b pc]; [done|]. destruct (GetOp_head _ _ _ _ _ HG) as [-> Hle]. split; [|auto]. destruct (Z.ltb_spec b 0) as [Hneg|]; [|lia].
  exfalso. cbn [GetOp] in HG. rewrite (proj2 (Z.leb_le _ _)) in HG by auto. rewrite (proj2 (Z.ltb_lt b OP_PUSHDATA1)) in HG by (unfold OP_PUSHDATA1; lia).
  cbn [mbind option_bind] in HG. destruct (_ <? b); [done|]. injection HG as <- _. destruct b; [lia|lia|done].
Qed.
Lemma run_key op v rest pc code s n : GetOp pc = Some (op, v, rest) → key_size v = true → (length s < 1000)%nat → n < 201 →
  run (at_pc pc code s n) = run (at_pc rest code (v :: s) n).
Proof.
  intros HG Hv Hs Hn. apply (run_push op); [done| | |done|done].
  - eapply GetOp_push_op; [done|by apply key_size_some].
  - unfold key_size in Hv. apply andb_prop in Hv as [_ Hv%Nat.leb_le]. unfold MAX_SCRIPT_ELEMENT_SIZE. lia.
Qed.

(** The signatures a CHECKSIG of [code] removes from it *)
Definition without (code : list Z) (g : valtype) : list Z := (FindAndDelete code (push_vector [] g)).1.
Definition verdict_of (b : bool) : valtype := if b then vchTrue else vchFalse.

Lemma run_checksig rest pc code k g s n : GetOp pc = Some (OP_CHECKSIG, [], rest) → (length s < 900)%nat → n < 201 →
  run (at_pc pc code (k :: g :: s) n) = run (at_pc rest code (verdict_of (accepts g k (without code g)) :: s) (n + 1)).
Proof.
  intros HG Hs Hn. rewrite (eval_exec _ _ _ _ pc (OP_CHECKSIG, []) rest); [|exact HG|done|exact Hn|done]. cbn [fst snd].
  change (between 0 OP_CHECKSIG OP_PUSHDATA4) with false. cbv iota.
  match goal with |- context [switch ?a ?b ?c ?d ?e ?f ?m] => change (switch a b c d e f m) with (op_checksig a d OP_CHECKSIG m) end.
  unfold op_checksig. cbn [stack pbegincodehash cache]. rewrite check_one_plain. change (OP_CHECKSIG =? OP_CHECKSIGVERIFY) with false.
  unfold finish_verify, with_stacks, limit. cbn [stack altstack Interp.pc pbegincodehash vfExec nOpCount cache]. cbn [length]. destruct (Nat.ltb_spec 1000 (S (length s) + 0)); [lia|]. done.
Qed.
Lemma run_end code b n : run (at_pc [] code [b] n) = (true, [b], tt).
Proof. by rewrite eval_end. Qed.

Lemma EvalScript_pubkey script op k g : decodes script [(op, k); (OP_CHECKSIG, [])] → key_size k = true → Z.of_nat (length script) <= 10000 →
  EvalScript plain txTo nIn flags [g] script tt = (true, [verdict_of (accepts g k (without script g))], tt).
Proof.
  intros Hd Hk Hlen. unfold EvalScript. destruct (Z.gtb_spec (Z.of_nat (length script)) 10000); [lia|].
  change (run (at_pc script script [g] 0) = (true, [verdict_of (accepts g k (without script g))], tt)).
  inversion Hd as [|? ? ? r1 ? HG1 Hd1]; subst. inversion Hd1 as [|? ? ? r2 ? HG2 Hd2]; subst. inversion Hd2; subst.
  rewrite (run_key op k r1) by (done || cbn [length]; lia). rewrite (run_checksig []) by (done || cbn [length]; lia). apply run_end.
Qed.

Lemma EvalScript_pubkeyhash script op h k g : 
  decodes script [(OP_DUP, []); (OP_HASH160, []); (op, h); (OP_EQUALVERIFY, []); (OP_CHECKSIG, [])] → length h = 20%nat →
  getBytes (Hash160 k) = h → Z.of_nat (length script) <= 10000 →
  EvalScript plain txTo nIn flags [k; g] script tt = (true, [verdict_of (accepts g k (without script g))], tt).
Proof.
  intros Hd Hh Hk Hlen. unfold EvalScript. destruct (Z.gtb_spec (Z.of_nat (length script)) 10000); [lia|].
  change (run (at_pc script script [k; g] 0) = (true, [verdict_of (accepts g k (without script g))], tt)).
  inversion Hd as [|? ? ? r1 ? HG1 Hd1]; subst. inversion Hd1 as [|? ? ? r2 ? HG2 Hd2]; subst. inversion Hd2 as [|? ? ? r3 ? HG3 Hd3]; subst.
  inversion Hd3 as [|? ? ? r4 ? HG4 Hd4]; subst. inversion Hd4 as [|? ? ? r5 ? HG5 Hd5]; subst. inversion Hd5; subst.
  rewrite (eval_exec _ _ _ _ script (OP_DUP, []) r1) by done. to_next (at_pc r1 script [k; k; g] 1).
  rewrite (eval_exec _ _ _ _ r1 (OP_HASH160, []) r2) by done. to_next (at_pc r2 script [getBytes (Hash160 k); k; g] 2).
  rewrite (run_push op (getBytes (Hash160 k)) r3); [|done|eapply GetOp_push_op; [done|by intros E; rewrite E in Hh]|rewrite Hh; done|cbn [length]; lia|lia].
  rewrite (eval_exec _ _ _ _ r3 (OP_EQUALVERIFY, []) r4) by done. change (between 0 (OP_EQUALVERIFY, @nil Z).1 OP_PUSHDATA4) with false. cbv iota.
  match goal with |- context [switch ?a ?b ?c ?d ?e ?f ?m] => change (switch a b c d e f m) with (with_stacks m (op_equal OP_EQUALVERIFY (stack m) (altstack m))) end.
  unfold op_equal. cbn [stack altstack]. rewrite bool_decide_true by done. to_next (at_pc r4 script [k; g] 3).
  rewrite (run_checksig []) by (done || cbn [length]; lia). apply run_end.
Qed.

(** The keys of a multi-signature script *)
Lemma run_keys (keys : list (Z * valtype)) tl code n : Forall (λ k, key_size k.2 = true) keys → n < 201 → ∀ pc s, (length keys + length s < 1000)%nat →
  decodes pc (keys ++ tl) → ∃ rest, decodes rest tl ∧ run (at_pc pc code s n) = run (at_pc rest code (rev (map snd keys) ++ s) n).
Proof.
  intros Hk Hn. induction Hk as [|[op k] keys Hk _ IH]; intros pc s Hs Hd; [by exists pc|]. cbn [app length] in *. inversion Hd as [|? ? ? r ? HG Hd']; subst.
  destruct (IH r (k :: s)) as (rest & Hr & E); [cbn [length]; lia|done|]. exists rest. split; [done|]. rewrite (run_key op k r) by (done || lia).
  rewrite E. cbn [map rev snd]. by rewrite <- app_assoc.
Qed.
Definition small (n : Z) : valtype := getvch (CBigNum_int32 n).
Lemma run_small op n rest pc code s k : GetOp pc = Some (op, [], rest) → DecodeOP_N op = Some n → 1 <= n → (length s < 1000)%nat → k < 201 →
  run (at_pc pc code s k) = run (at_pc rest code (small n :: s) k) ∧ n <= 16.
Proof.
  intros HG Hop Hn Hs Hk. unfold DecodeOP_N in Hop. destruct (op =? OP_0); [injection Hop as <-; lia|].
  destruct ((OP_1 <=? op) && (op <=? OP_16)) eqn:Eo; [|done]. injection Hop as <-. assert (Hr : OP_1 <= op <= OP_16) by lia. split; [|unfold OP_1, OP_16 in *; lia].
  rewrite (eval_exec _ _ _ _ pc (op, []) rest); [|exact HG|done|exact Hk|].
  2: { apply not_true_is_false. unfold disabled_opcode. rewrite existsb_exists. intros (x & Hin & E%Z.eqb_eq). cbn [fst] in E. subst x.
       destruct Hr as [Hr1 Hr2]. repeat (destruct Hin as [<-|Hin]; [by cbv in Hr1, Hr2|]). done. }
  cbn [fst snd]. assert ((op >? OP_16) = false) as -> by lia. assert (between 0 op OP_PUSHDATA4 = false) as -> by (unfold between, OP_PUSHDATA4, OP_1 in *; lia).
  cbv iota. unfold switch. assert (between OP_1 op OP_16 = true) as -> by (unfold between; lia). rewrite orb_true_r.
  unfold limit, with_exec, op_small_int. cbn [stack altstack Interp.pc pbegincodehash vfExec nOpCount cache]. cbn [length]. destruct (Nat.ltb_spec 1000 (S (length s) + 0)); [lia|]. done.
Qed.
Lemma cast_small n : 0 <= n <= 16 → ∃ bn, CastToBigNum (small n) = Some bn ∧ getint32 bn = n.
Proof.
  intros Hn. assert (Hd := getvch_bytes (CBigNum_int32 n)). assert (Hs := scriptnum_getvch (CBigNum_int32 n)). rewrite CBigNum_int32_ok in Hs by lia.
  assert (Hc := CastToBigNum_ok (small n) Hd). fold (small n) in Hs. destruct (CastToBigNum (small n)) as [bn|].
  - exists bn. split; [done|]. destruct Hc as (_ & Hb & _). rewrite getint32_ok; rewrite Hb, Hs; lia.
  - exfalso. unfold small in Hc. rewrite getvch_ok, length_rev, CBigNum_int32_ok in Hc by lia.
    assert (Hl : (length (mpi_body n) <= 1)%nat); [|lia]. clear -Hn.
    assert (Hcase : n ∈ seqZ 0 17) by (apply elem_of_seqZ; lia). cbn in Hcase. repeat (apply elem_of_cons in Hcase as [->|Hcase]; [vm_compute; lia|]).
    by apply not_elem_of_nil in Hcase.
Qed.

Definition without_all (code : list Z) (sigs : list valtype) : list Z := fold_left without sigs code.

Lemma run_checkmultisig pc code (keys sigs : list valtype) : GetOp pc = Some (OP_CHECKMULTISIG, [], []) → (length keys <= 16)%nat → (1 <= length sigs <= length keys)%nat →
  run (at_pc pc code (small (Z.of_nat (length keys)) :: keys ++ small (Z.of_nat (length sigs)) :: sigs ++ [[]]) 0) =
  (true, [verdict_of (multisig_loop plain flags (without_all code sigs) keys sigs tt).1], tt).
Proof.
  intros HG Hk Hs. rewrite (eval_exec _ _ _ _ pc (OP_CHECKMULTISIG, []) []); [|exact HG|done|lia|done]. cbn [fst snd].
  change (between 0 OP_CHECKMULTISIG OP_PUSHDATA4) with false. cbv iota.
  match goal with |- context [switch ?a ?b ?c ?d ?e ?f ?m] => change (switch a b c d e f m) with (op_checkmultisig a d OP_CHECKMULTISIG m) end.
  set (n := Z.of_nat (length keys)). set (m := Z.of_nat (length sigs)). set (st := small n :: keys ++ small m :: sigs ++ [[]]).
  assert (Hsize : Z.of_nat (length st) = n + m + 3) by (unfold st; cbn [length]; rewrite length_app; cbn [length]; rewrite length_app; cbn [length]; lia).
  destruct (cast_small n) as (bn & Hbn & Hin); [lia|]. destruct (cast_small m) as (bm & Hbm & Him); [lia|].
  unfold op_checkmultisig. cbn [stack altstack cache nOpCount pbegincodehash Interp.pc vfExec]. rewrite Hsize.
  rewrite (proj2 (Z.ltb_ge (n + m + 3) 1)) by lia. change (nth (Z.to_nat (1 - 1)) st []) with (small n). rewrite Hbn, Hin.
  assert (((n <? 0) || (n >? 20)) = false) as -> by lia. change (OP_CHECKMULTISIG >? OP_16) with true. cbv iota. assert ((0 + 1 + n >? 201) = false) as -> by lia.
  rewrite (proj2 (Z.ltb_ge (n + m + 3) (2 + n))) by lia.
  assert (Hm : nth (Z.to_nat (2 + n - 1)) st [] = small m).
  { unfold st. replace (Z.to_nat (2 + n - 1)) with (S (length keys)) by lia. cbn [nth]. rewrite app_nth2 by lia. by rewrite Nat.sub_diag. }
  rewrite Hm, Hbm, Him. assert (((m <? 0) || (m >? n)) = false) as -> by lia. rewrite (proj2 (Z.ltb_ge (n + m + 3) (2 + n + 1 + m))) by lia.
  assert (Htk : take (Z.to_nat n) (drop (Z.to_nat (2 - 1)) st) = keys).
  { unfold st, n. rewrite Nat2Z.id. change (Z.to_nat (2 - 1)) with 1%nat. rewrite skipn_cons, drop_0. apply take_app_length. }
  assert (Hts : take (Z.to_nat m) (drop (Z.to_nat (2 + n + 1 - 1)) st) = sigs).
  { unfold st. replace (Z.to_nat (2 + n + 1 - 1)) with (S (length keys + 1)) by lia. rewrite skipn_cons, drop_app_add, skipn_cons, drop_0. unfold m. rewrite Nat2Z.id. apply take_app_length. }
  assert (Hdr : drop (Z.to_nat (2 + n + 1 + m - 1)) st = [[]]).
  { unfold st. replace (Z.to_nat (2 + n + 1 + m - 1)) with (S (length keys + S (length sigs))) by lia. rewrite skipn_cons, drop_app_add, skipn_cons. apply drop_app_length. }
  rewrite Htk, Hts, Hdr. unfold without_all, without. destruct (multisig_loop _ _ _ _ _ _) as [b []]. rewrite bool_decide_true by done. cbn [negb]. rewrite andb_false_r.
  change (OP_CHECKMULTISIG =? OP_CHECKMULTISIGVERIFY) with false. unfold finish_verify, with_stacks, limit. cbn [stack altstack Interp.pc pbegincodehash vfExec nOpCount cache fst length Nat.ltb Nat.leb Nat.add].
  apply run_end.
Qed.

Lemma op_n_small op n : DecodeOP_N op = Some n → n <= 16.
Proof.
  unfold DecodeOP_N. destruct (op =? OP_0); [intros [= <-]; lia|]. destruct ((OP_1 <=? op) && (op <=? OP_16)) eqn:Eo; [|done]. intros [= <-]. unfold OP_1, OP_16 in *. lia.
Qed.
Lemma EvalScript_multisig script om m (keys : list (Z * valtype)) on n (sigs : list valtype) :
  decodes script ((om, []) :: keys ++ [(on, []); (OP_CHECKMULTISIG, [])]) → DecodeOP_N om = Some m → DecodeOP_N on = Some n →
  Forall (λ k, key_size k.2 = true) keys → 1 <= m <= n → Z.of_nat (length keys) = n → Z.of_nat (length script) <= 10000 → Z.of_nat (length sigs) = m →
  EvalScript plain txTo nIn flags (sigs ++ [[]]) script tt =
  (true, [verdict_of (multisig_loop plain flags (without_all script sigs) (rev (map snd keys)) sigs tt).1], tt).
Proof.
  intros Hd Hm Hn Hk Hmn Hlk Hlen Hls. unfold EvalScript. destruct (Z.gtb_spec (Z.of_nat (length script)) 10000); [lia|].
  match goal with |- _ = ?r => change (run (at_pc script script (sigs ++ [[]]) 0) = r) end.
  inversion Hd as [|? ? ? r1 ? HG1 Hd1]; subst.
  assert (Hn16 := op_n_small _ _ Hn).
  assert (Hl1 : length (sigs ++ [[]]) = S (length sigs)) by (rewrite length_app; cbn [length]; lia).
  destruct (run_small om _ r1 script script (sigs ++ [[]]) 0 HG1 Hm) as [-> _]; [lia|lia|lia|].
  destruct (run_keys keys [(on, []); (OP_CHECKMULTISIG, [])] script 0 Hk ltac:(lia) r1 (small (Z.of_nat (length sigs)) :: sigs ++ [[]])) as (r2 & Hd2 & ->); [cbn [length]; lia|done|].
  inversion Hd2 as [|? ? ? r3 ? HG3 Hd3]; subst. inversion Hd3 as [|? ? ? r4 ? HG4 Hd4]; subst. inversion Hd4; subst.
  destruct (run_small on _ r3 r2 script (rev (map snd keys) ++ small (Z.of_nat (length sigs)) :: sigs ++ [[]]) 0 HG3 Hn) as [-> _]; [lia| |lia|].
  { rewrite length_app, length_rev, length_map. cbn [length]. lia. }
  assert (Hlr : length (rev (map snd keys)) = length keys) by by rewrite length_rev, length_map.
  rewrite <- Hlr. apply run_checkmultisig; [done|lia|lia].
Qed.
End run.

(** ** Signatures do not occur in the scripts they sign *)

Lemma starts_with_split b pc : starts_with b pc = true → ∃ rest, pc = b ++ rest.
Proof.
  revert pc. induction b as [|x b IH]; intros pc H; [by exists pc|]. destruct pc as [|y pc]; [done|]. cbn [starts_with] in H. apply andb_prop in H as [->%Z.eqb_eq H].
  destruct (IH pc H) as [rest ->]. by exists rest.
Qed.
Lemma delete_loop_absent (g : valtype) : (1 <= length g <= 75)%nat → ∀ pc ops, decodes pc ops → Forall (λ o, o.2 ≠ g) ops → ∀ fuel, (delete_loop fuel (push_vector [] g) pc).2 = 0.
Proof.
  intros Hg. assert (Hp : push_vector [] g = Z.of_nat (length g) :: g).
  { unfold push_vector. rewrite (proj2 (Z.ltb_lt _ _)) by (unfold OP_PUSHDATA1; lia). cbn [app]. by rewrite u8_small by lia. }
  assert (Hhere : ∀ pc fuel, starts_with (push_vector [] g) pc = false → delete_here fuel (push_vector [] g) pc = (pc, 0)) by (intros pc [|fuel] E; cbn [delete_here]; by rewrite ?E).
  intros pc ops Hd. induction Hd as [|pc op v rest l HG _ IH]; intros Ho fuel.
  - assert (Hf : starts_with (push_vector [] g) [] = false) by (by rewrite Hp). destruct fuel; cbn [delete_loop]; by rewrite (Hhere _ _ Hf).
  - apply Forall_cons_iff in Ho as [Hv Ho].
    assert (Hf : starts_with (push_vector [] g) pc = false).
    { apply not_true_is_false. intros [rest' ->]%starts_with_split. rewrite GetOp_push_vector in HG by lia. injection HG as _ E _. by cbn in Hv. }
    destruct fuel as [|fuel]; cbn [delete_loop]; rewrite (Hhere _ _ Hf); [done|]. rewrite HG. specialize (IH Ho fuel). destruct (delete_loop fuel _ rest) as [tail n]. cbn [snd] in *. lia.
Qed.
Lemma without_absent script ops g : decodes script ops → Forall (λ o, o.2 ≠ g) ops → (1 <= length g <= 75)%nat → without script g = script.
Proof.
  intros Hd Ho Hg. assert (H := FindAndDelete_ok script (push_vector [] g)). unfold without. destruct (FindAndDelete script (push_vector [] g)) as [s' n] eqn:E.
  destruct H as (_ & _ & _ & H). apply H. assert (H0 := delete_loop_absent g Hg script ops Hd Ho (length script)). unfold FindAndDelete in E.
  case_bool_decide; [by injection E|]. by rewrite E in H0.
Qed.
Lemma without_all_absent script ops sigs : decodes script ops → Forall (λ g : valtype, Forall (λ o, o.2 ≠ g) ops ∧ (1 <= length g <= 75)%nat) sigs → without_all script sigs = script.
Proof.
  intros Hd Hs. unfold without_all. induction Hs as [|g sigs [Hg Hl] _ IH]; [done|]. cbn [fold_left]. by rewrite (without_absent script ops g).
Qed.

(** The signature of an input does not cover its script. *)
Lemma set_input_scripts t k s : same_but_scripts (vin (set_input_script t k s)) (vin t).
Proof.
  unfold same_but_scripts. cbn [vin set_input_script]. apply list_eq. intros i. rewrite !list_lookup_fmap. destruct (decide (i = k)) as [->|Hne].
  - rewrite list_lookup_alter_eq. by destruct (vin t !! k).
  - by rewrite list_lookup_alter_ne.
Qed.
Lemma SignatureHash_input `{Digests} code t k s ht : SignatureHash code (set_input_script t k s) k ht = SignatureHash code t k ht.
Proof.
  destruct (SignatureHash_commits code (set_input_script t k s) t k ht) as [Hs _]; [done..| |apply Hs; [apply set_input_scripts|done]].
  cbn [vin set_input_script]. by rewrite length_alter.
Qed.
Lemma SignatureHash_wf `{DigestsOk} code t k ht : wf W256 (SignatureHash code t k ht).
Proof.
  assert (H1 : wf W256 (bu_of_u64 W256 1)) by (apply bu_of_u64_ok; lia). unfold SignatureHash. repeat (first [exact H1 | apply Hash_wf | case_match]).
Qed.

(** ** What the store signs is accepted *)

Section complete.
Context {BN : OpenSSL_BN} {BNok : OpenSSL_BN_ok BN} {DG : Digests} {DGok : DigestsOk} {C : OpenSSL_EC} {Cok : OpenSSL_EC_ok C} {KS : CKeyStore} {KSok : CKeyStoreOk KS}.
Context (nIn : nat) (ht : Z) (Hht : hashtype_ok ht = true) (Hbyte : 0 <= ht < 256).
(** No signature of the store has the size of a key hash. *)
Context (Hshort : ∀ id key hash sig, ks_GetKey id = Some (Some key) → key_Sign key hash = Some sig → length sig ≠ 19%nat).

Local Abbreviation checks tx := (CheckSig_spec pubkey_Verify tx nIn 0).

(** A signature with its hash type that verifies against [pk] *)
Record good_sig (hash : base_uint) (pk g : valtype) : Prop := {
  good_head : head g = Some 0x30;
  good_length : (9 <= length g <= 73)%nat ∧ length g ≠ 20%nat;
  good_accepts tx code flags : SignatureHash code tx nIn ht = hash → accepts (checks tx) flags g pk code = true
}.

Lemma Sign1_ok id hash acc : ks_HaveKey id = true → wf W256 hash → ∃ key g, key_ok key ∧ ks_GetKey id = Some (Some key) ∧
  ks_GetPubKey id = Some (Some (key_GetPubKey key)) ∧ id = pubkey_GetID (key_GetPubKey key) ∧
  Sign1 id hash ht acc = Some (true, push_vector acc g) ∧ good_sig hash (key_GetPubKey key) g.
Proof.
  intros Hid Hh. destruct (ks_key id Hid) as (secret & c & HG & HP & Hi & Hk). destruct (key_Sign_ok _ hash Hk Hh) as (sig & Hs & Hv & Hhd & Hl & Hcan).
  exists (mkKey secret c), (sig ++ [ht]). split; [done|]. split; [done|]. split; [done|]. split; [done|]. split.
  { unfold Sign1, push_signature. rewrite HG. cbn [mbind option_bind]. rewrite Hs. by rewrite u8_small by lia. }
  assert (Hn := Hshort _ _ _ _ HG Hs). destruct (point_pubkey (key_point (mkKey secret c)) c (key_point_ok _ Hk)) as (Hset & Hval & _ & Hcp). split.
  - by destruct sig.
  - rewrite length_app. cbn [length]. lia.
  - intros tx code flags E. unfold accepts. rewrite Hcan by done. rewrite key_pubkey by done. cbn [key_compressed]. rewrite Hcp. cbn [andb].
    unfold CheckSig_spec. rewrite Hset, Hval. rewrite bool_decide_eq_false_2 by (by destruct sig). rewrite last_last, removelast_last, E. cbn [negb andb Z.eqb orb].
    by rewrite key_pubkey in Hv.
Qed.
Lemma good_absent hash pk g (v : valtype) : good_sig hash pk g → head v ≠ Some 0x30 → v ≠ g.
Proof. intros H Hv ->. by rewrite (good_head _ _ _ H) in Hv. Qed.
Lemma key_head k : key_ok k → head (key_GetPubKey k) ≠ Some 0x30.
Proof.
  intros H. rewrite key_pubkey by done. destruct (EC_point2oct_form _ (key_compressed k) (key_point_ok _ H)) as (b & t & -> & _ & Hb). cbn.
  destruct (key_compressed k); [destruct Hb as [[-> | ->] _]|destruct Hb as [-> _]]; done.
Qed.
Lemma CPubKey_Set_inv k pk : CPubKey_Set k = pk → pk ≠ [] → k = pk.
Proof. unfold CPubKey_Set. case_match; by intros <-. Qed.

(** The script names the keys of the store that sign for it: no key of the store has
    the hash of another key the script names. *)
Definition named_keys (T : txnouttype) (sols : list valtype) : list valtype :=
  match T with TX_PUBKEY => take 1 sols | TX_MULTISIG => take (length sols - 2) (drop 1 sols) | _ => [] end.
Definition signable (script : list Z) : Prop :=
  let '(ok, T, sols) := Solver script in
  (T = TX_PUBKEY ∨ T = TX_PUBKEYHASH ∨ T = TX_MULTISIG) ∧
  ∀ k key, k ∈ named_keys T sols → ks_GetKey (pubkey_GetID (CPubKey_Set k)) = Some (Some key) → key_GetPubKey key = CPubKey_Set k.

(** The input script [pushes l] is made for [script] and satisfies it. *)
Record solved (script : list Z) (hash : base_uint) (T : txnouttype) (l : list valtype) : Prop := {
  solved_sign : SolverSign script hash ht = Some (true, pushes l, T);
  solved_elems : elems_ok l;
  solved_size : (length l <= 20)%nat ∧ (length (pushes l) <= 2000)%nat;
  solved_eval tx flags : SignatureHash script tx nIn ht = hash →
    EvalScript (λ g k code (c : unit), (checks tx g k code, c)) tx nIn flags (rev l) script tt = (true, [vchTrue], tt)
}.
Lemma length_push (v : valtype) : (length v <= 73)%nat → length (push_vector [] v) = S (length v).
Proof. intros Hv. unfold push_vector. rewrite (proj2 (Z.ltb_lt _ _)) by (unfold OP_PUSHDATA1; lia). done. Qed.
Lemma pushes_size l : Forall (λ v : valtype, (length v <= 73)%nat) l → (length l <= 20)%nat →
  elems_ok l ∧ (length l <= 20)%nat ∧ (length (pushes l) <= 2000)%nat.
Proof.
  intros Hl Hn. split; [|split; [done|]].
  - eapply Forall_impl; [exact Hl|]. cbn. unfold MAX_SCRIPT_ELEMENT_SIZE. lia.
  - assert (H : (length (pushes l) <= 74 * length l)%nat); [|lia]. clear Hn. induction Hl as [|v l Hv _ IH]; [done|]. unfold pushes in *. cbn [map concat length]. rewrite length_app, length_push by done. lia.
Qed.
Lemma solved_of script hash T l : SolverSign script hash ht = Some (true, pushes l, T) → Forall (λ v : valtype, (length v <= 73)%nat) l → (length l <= 20)%nat →
  (∀ tx flags, SignatureHash script tx nIn ht = hash →
    EvalScript (λ g k code (c : unit), (checks tx g k code, c)) tx nIn flags (rev l) script tt = (true, [vchTrue], tt)) → solved script hash T l.
Proof. intros H1 H2 H3 H4. destruct (pushes_size l H2 H3) as (? & ? & ?). by split. Qed.
Lemma good_73 hash pk g : good_sig hash pk g → (length g <= 73)%nat.
Proof. intros H. destruct (good_length _ _ _ H). lia. Qed.
Lemma pushes_app l1 l2 : pushes (l1 ++ l2) = pushes l1 ++ pushes l2.
Proof. unfold pushes. by rewrite map_app, concat_app. Qed.

Lemma solve_pubkey script hash op k : decodes script [(op, k); (OP_CHECKSIG, [])] → key_size k = true → Z.of_nat (length script) <= 10000 → wf W256 hash →
  ks_HaveKey (pubkey_GetID (CPubKey_Set k)) = true → signable script → ∃ l, solved script hash TX_PUBKEY l.
Proof.
  intros Hd Hk Hlen Hh Hhave Hsig. assert (HS := Solver_complete _ _ _ (form_pubkey script op k Hd Hk)). unfold signable in Hsig. rewrite HS in Hsig. destruct Hsig as [_ Hsig].
  destruct (Sign1_ok _ hash [] Hhave Hh) as (key & g & Hok & HG & _ & _ & Hs & Hg). specialize (Hsig k key ltac:(by left) HG). symmetry in Hsig.
  assert (Hne : key_GetPubKey key ≠ []) by (rewrite key_pubkey by done; destruct (EC_point2oct_form _ (key_compressed key) (key_point_ok _ Hok)) as (b & t & -> & _); done).
  assert (Ek := CPubKey_Set_inv _ _ Hsig Hne). rewrite <- Ek in Hg. exists [g]. apply solved_of.
  - unfold SolverSign. rewrite HS. cbn [negb nth]. rewrite Hs. cbn [mbind option_bind]. unfold pushes. cbn [map concat]. by rewrite app_nil_r.
  - apply Forall_cons_2; [by eapply good_73|done].
  - cbn. lia.
  - intros tx flags Hash. cbn [rev app]. rewrite (EvalScript_pubkey (checks tx) tx nIn flags script op k g Hd Hk Hlen).
    destruct (good_length _ _ _ Hg) as [Hl _]. rewrite (without_absent script _ g Hd); [|repeat apply Forall_cons_2; [|by cbn; intros E; rewrite <- E in Hl; cbn in Hl; lia|done]|lia].
    + by rewrite (good_accepts _ _ _ Hg).
    + cbn. eapply good_absent; [exact Hg|]. rewrite Ek. by apply key_head.
Qed.
Lemma bytes_160 h : digits_ok 256 h → length h = 20%nat → getBytes (bu_of_vch W160 h) = h.
Proof. intros Hd Hl. unfold bu_of_vch. rewrite bool_decide_true by done. by apply (limbs_of_bytes_ok W160). Qed.
Lemma decodes_bytes s ops : digits_ok 256 s → decodes s ops → Forall (λ o, digits_ok 256 o.2) ops.
Proof. intros Hs Hd. induction Hd as [|pc op v rest l HG _ IH]; [done|]. destruct (GetOp_bytes _ _ _ _ Hs HG) as (? & ? & ?). apply Forall_cons_2; auto. Qed.
Lemma solve_pubkeyhash script hash op h : decodes script [(OP_DUP, []); (OP_HASH160, []); (op, h); (OP_EQUALVERIFY, []); (OP_CHECKSIG, [])] → length h = 20%nat →
  digits_ok 256 script → Z.of_nat (length script) <= 10000 → wf W256 hash → ks_HaveKey (bu_of_vch W160 h) = true → ∃ l, solved script hash TX_PUBKEYHASH l.
Proof.
  intros Hd Hh Hb Hlen Hw Hhave. assert (HS := Solver_complete _ _ _ (form_pubkeyhash script op h Hd Hh)). destruct (Sign1_ok _ hash [] Hhave Hw) as (key & g & Hok & HG & HP & Hi & Hs & Hg).
  assert (Hbytes := decodes_bytes _ _ Hb Hd). do 2 apply Forall_cons_iff in Hbytes as [_ Hbytes]. apply Forall_cons_iff in Hbytes as [Hbh _]. cbn in Hbh.
  destruct (point_pubkey _ (key_compressed key) (key_point_ok _ Hok)) as (_ & _ & Hlp & _). rewrite <- key_pubkey in Hlp by done. destruct (good_length _ _ _ Hg) as [Hl Hl20].
  exists [g; key_GetPubKey key]. apply solved_of.
  - unfold SolverSign. rewrite HS. cbn [negb nth]. rewrite Hs. cbn [mbind option_bind negb]. rewrite HP. cbn [mbind option_bind default from_option id]. unfold pushes. cbn [map concat].
    by rewrite app_nil_r, push_vector_app.
  - apply Forall_cons_2; [lia|]. apply Forall_cons_2; [destruct (key_compressed key); lia|done].
  - cbn. lia.
  - intros tx flags Hash. cbn [rev app]. rewrite (EvalScript_pubkeyhash (checks tx) tx nIn flags script op h (key_GetPubKey key) g Hd Hh); [| |done].
    + rewrite (without_absent script _ g Hd); [by rewrite (good_accepts _ _ _ Hg)| |lia].
      repeat apply Forall_cons_2; try done; cbn; intros E; subst; cbn in Hl; lia.
    + unfold pubkey_GetID in Hi. rewrite <- Hi. by apply bytes_160.
Qed.

(** A key of the script the store has *)
Definition owned (k : valtype) : Prop := ks_HaveKey (pubkey_GetID (CPubKey_Set k)) = true ∧
  ∀ key, ks_GetKey (pubkey_GetID (CPubKey_Set k)) = Some (Some key) → key_GetPubKey key = CPubKey_Set k.
Lemma owned_sign k hash acc : owned k → wf W256 hash → head k ≠ Some 0x30 ∧
  ∃ g, Sign1 (pubkey_GetID (CPubKey_Set k)) hash ht acc = Some (true, push_vector acc g) ∧ good_sig hash k g.
Proof.
  intros [Hhave Hown] Hh. destruct (Sign1_ok _ hash acc Hhave Hh) as (key & g & Hok & HG & _ & _ & Hs & Hg). specialize (Hown key HG). symmetry in Hown.
  assert (Hne : key_GetPubKey key ≠ []) by (rewrite key_pubkey by done; destruct (EC_point2oct_form _ (key_compressed key) (key_point_ok _ Hok)) as (b & t & -> & _); done).
  assert (Ek := CPubKey_Set_inv _ _ Hown Hne). rewrite Ek at 1. split; [by apply key_head|]. exists g. split; [done|]. by rewrite Ek.
Qed.
Lemma signn_loop_ok hash keys : wf W256 hash → Forall owned keys → ∀ m n acc, n <= m → m - n <= Z.of_nat (length keys) →
  ∃ sigs, signn_loop m keys hash ht n acc = Some (m, acc ++ pushes sigs) ∧ Forall2 (good_sig hash) (take (Z.to_nat (m - n)) keys) sigs.
Proof.
  intros Hh Hk. induction Hk as [|k keys Hown _ IH]; intros m n acc Hnm Hl; cbn [signn_loop length] in *.
  - exists []. rewrite take_nil. split; [|done]. rewrite app_nil_r. do 2 f_equal. lia.
  - destruct (Z.ltb_spec n m) as [Hlt|Hge].
    + destruct (owned_sign k hash acc Hown Hh) as (_ & g & -> & Hg). cbn [mbind option_bind]. destruct (IH m (n + 1) (push_vector acc g)) as (sigs & -> & Hf); [lia|lia|].
      exists (g :: sigs). split; [|]. { rewrite push_vector_app. unfold pushes. cbn [map concat]. by rewrite app_assoc. }
      replace (Z.to_nat (m - n)) with (S (Z.to_nat (m - (n + 1)))) by lia. cbn [take]. by constructor.
    + exists []. replace (Z.to_nat (m - n)) with 0%nat by lia. cbn [take]. split; [|done]. rewrite app_nil_r. do 2 f_equal. lia.
Qed.
Lemma HaveKeys_all keys : Z.of_nat (length keys) < 2 ^ 32 → HaveKeys keys = Z.of_nat (length keys) → Forall (λ k, ks_HaveKey (pubkey_GetID (CPubKey_Set k)) = true) keys.
Proof.
  intros Hl. unfold HaveKeys. set (f := λ _ _, _). assert (H : ∀ l a, 0 <= a → a + Z.of_nat (length l) < 2 ^ 32 → fold_left f l a <= a + Z.of_nat (length l) ∧
    (fold_left f l a = a + Z.of_nat (length l) → Forall (λ k, ks_HaveKey (pubkey_GetID (CPubKey_Set k)) = true) l)).
  { induction l as [|k l IH]; intros a Ha Hal; cbn [fold_left length] in *; [split; [lia|done]|]. unfold f at 2 4. destruct (ks_HaveKey _) eqn:Eh.
    - rewrite u32_small by lia. destruct (IH (a + 1)) as [H1 H2]; [lia|lia|]. split; [lia|]. intros E. apply Forall_cons_2; [done|apply H2; lia].
    - destruct (IH a) as [H1 H2]; [lia|lia|]. split; [lia|]. intros E. lia. }
  intros E. apply (H keys 0); [lia|lia|]. by rewrite E.
Qed.

Lemma solve_multisig script hash om m (keys : list (Z * valtype)) on n :
  decodes script ((om, []) :: keys ++ [(on, []); (OP_CHECKMULTISIG, [])]) → DecodeOP_N om = Some m → DecodeOP_N on = Some n →
  Forall (λ k, key_size k.2 = true) keys → 1 <= m <= n → Z.of_nat (length keys) = n → Z.of_nat (length script) <= 10000 → wf W256 hash →
  Forall owned (map snd keys) → ∃ l, solved script hash TX_MULTISIG l.
Proof.
  intros Hd Hm Hn Hk Hmn Hlk Hlen Hh Hown. assert (HS := Solver_complete _ _ _ (form_multisig script om m keys on n Hd Hm Hn Hk Hmn Hlk)).
  assert (Hn16 := op_n_small _ _ Hn).
  destruct (signn_loop_ok hash (map snd keys) Hh Hown m 0 [OP_0]) as (sigs & Hloop & Hf); [lia|rewrite length_map; lia|]. rewrite Z.sub_0_r in Hf.
  assert (Hls : Z.of_nat (length sigs) = m). { apply Forall2_length in Hf. rewrite length_take, length_map in Hf. lia. }
  assert (Hgood : Forall (λ g, ∃ pk, good_sig hash pk g) sigs). { clear -Hf. induction Hf as [|k g ks gs Hg _ IH]; [done|]. apply Forall_cons_2; eauto. }
  exists ([] :: sigs). apply solved_of.
  - unfold SolverSign. rewrite HS. cbn [negb]. unfold SignN. cbn [app nth drop length]. rewrite length_app, length_map. cbn [length].
    replace (S (length keys + 1) - 2)%nat with (length (map snd keys)) by (rewrite length_map; lia). rewrite drop_0, take_app_length, Hloop. cbn [mbind option_bind]. by rewrite Z.eqb_refl.
  - apply Forall_cons_2; [cbn; lia|]. eapply Forall_impl; [exact Hgood|]. intros g [pk Hg]. by eapply good_73.
  - cbn [length]. lia.
  - intros tx flags Hash. cbn [rev].
    rewrite (EvalScript_multisig (checks tx) tx nIn flags script om m keys on n (rev sigs) Hd Hm Hn Hk Hmn Hlk Hlen) by (rewrite length_rev; done).
    assert (Ew : without_all script (rev sigs) = script).
    { apply (without_all_absent script _ _ Hd). apply Forall_rev. eapply Forall_impl; [exact Hgood|]. intros g [pk Hg]. destruct (good_length _ _ _ Hg) as [Hl _]. split; [|lia].
      assert (Hnil : ([] : valtype) ≠ g) by (intros <-; cbn in Hl; lia). apply Forall_cons_2; [done|]. apply Forall_app. split; [|by repeat apply Forall_cons_2].
      apply Forall_forall. intros o Ho. eapply good_absent; [exact Hg|]. apply (owned_sign o.2 hash [] ); [|done]. eapply Forall_forall; [exact Hown|]. apply list_elem_of_fmap. eauto. }
    rewrite Ew. assert (Ht : (multisig_loop (λ g k code (c : unit), (checks tx g k code, c)) flags script (rev (map snd keys)) (rev sigs) tt).1 = true); [|by rewrite Ht].
    apply multisig_complete. exists (rev (take (Z.to_nat m) (map snd keys))). split.
    + rewrite <- (take_drop (Z.to_nat m) (map snd keys)) at 2. rewrite rev_app_distr. apply sublist_inserts_l. done.
    + apply Forall2_flip. assert (Hr : ∀ ks gs, Forall2 (good_sig hash) ks gs → Forall2 (good_sig hash) (rev ks) (rev gs)).
      { clear. intros ks gs H. induction H; cbn [rev]; [done|]. apply Forall2_app; [done|]. constructor; [done|constructor]. }
      eapply Forall2_impl; [apply Hr; exact Hf|]. intros k g Hg. cbn. rewrite check_one_plain. by apply (good_accepts _ _ _ Hg).
Qed.

Lemma mine_inv script (b : bool) : (if b then MINE_SPENDABLE else if ks_HaveWatchOnly script then MINE_WATCH_ONLY else MINE_NO) = MINE_SPENDABLE → b = true.
Proof. destruct b; [done|]. by destruct (ks_HaveWatchOnly script). Qed.
Lemma ismine_plain fuel script T sols : ismine fuel script = Some MINE_SPENDABLE → Solver script = (true, T, sols) →
  match T with
  | TX_PUBKEY => ks_HaveKey (pubkey_GetID (CPubKey_Set (nth 0 sols []))) = true
  | TX_PUBKEYHASH => ks_HaveKey (bu_of_vch W160 (nth 0 sols [])) = true
  | TX_MULTISIG => let keys := take (length sols - 2) (drop 1 sols) in HaveKeys keys = Z.of_nat (length keys)
  | _ => True
  end.
Proof.
  intros Hm HS. destruct fuel; cbn [ismine] in Hm; rewrite HS in Hm; cbn [negb] in Hm; destruct T; try done; injection Hm as Hm%mine_inv; try done; by apply Z.eqb_eq.
Qed.
(** What is mine can be signed, when it is not a script hash. *)
Lemma solve script hash fuel : ismine fuel script = Some MINE_SPENDABLE → signable script → digits_ok 256 script → Z.of_nat (length script) <= 10000 → wf W256 hash →
  ∃ T l, T ≠ TX_SCRIPTHASH ∧ solved script hash T l.
Proof.
  intros Hmine Hsig Hb Hlen Hh. assert (Hs0 := Hsig). unfold signable in Hsig. destruct (Solver script) as [[ok T] sols] eqn:HS. destruct Hsig as [HT Hown].
  assert (ok = true) as ->. { destruct ok; [done|]. destruct fuel; cbn [ismine] in Hmine; rewrite HS in Hmine; cbn [negb] in Hmine; by destruct (ks_HaveWatchOnly script). }
  assert (Hm := ismine_plain _ _ _ _ Hmine HS). assert (Hform := Solver_sound _ _ _ HS). exists T.
  destruct Hform as [| | |op k Hd Hk| |op h Hd Hl|om m keys on n Hd Hom Hon Hk Hmn Hlk]; try naive_solver; cbn [nth] in Hm.
  - destruct (solve_pubkey script hash op k Hd Hk Hlen Hh Hm Hs0) as [l Hl]. by exists l.
  - destruct (solve_pubkeyhash script hash op h Hd Hl Hb Hlen Hh Hm) as [l Hsl]. by exists l.
  - assert (Ek : take (length ([[m]] ++ map snd keys ++ [[n]]) - 2) (drop 1 ([[m]] ++ map snd keys ++ [[n]])) = map snd keys).
    { rewrite !length_app, length_map. cbn [length app]. rewrite skipn_cons, drop_0. replace (1 + (length keys + 1) - 2)%nat with (length (map snd keys)) by (rewrite length_map; lia). apply take_app_length. }
    cbn [named_keys] in Hown. cbv zeta in Hm. rewrite Ek in Hm, Hown.
    assert (Hn16 := op_n_small _ _ Hon). apply HaveKeys_all in Hm; [|rewrite length_map; lia].
    destruct (solve_multisig script hash om m keys on n Hd Hom Hon Hk Hmn Hlk Hlen Hh) as [l Hsl]; [|by exists l].
    apply Forall_forall. intros k Hin. split; [exact (proj1 (Forall_forall _ _) Hm k Hin)|intros key; by apply Hown].
Qed.
End complete.

Section signed.
Context {BN : OpenSSL_BN} {DG : Digests} {C : OpenSSL_EC} {KS : CKeyStore}.
Variable Verify : list Z → base_uint → list Z → bool.
Variable nMaxCacheSize : Z.
Variable random_entry : gset sigdata → sigdata.

Lemma input_script t k s : (k < length (vin t))%nat → scriptSig (nth k (vin (set_input_script t k s)) CTxIn_default) = s.
Proof.
  intros Hk. cbn [vin set_input_script]. destruct (lookup_lt_is_Some_2 _ _ Hk) as [i Hi]. erewrite nth_lookup_Some; [|by rewrite list_lookup_alter_eq, Hi]. done.
Qed.
(** The end of [SignSignature] *)
Lemma test_solution txTo nIn s fromPubKey cache : (∀ S, S ≠ ∅ → random_entry S ∈ S) → cache_ok Verify nMaxCacheSize cache → (nIn < length (vin txTo))%nat →
  let tx := set_input_script txTo nIn s in
  let r := VerifyScript (CheckSig Verify nMaxCacheSize random_entry tx nIn 0 STRICT_FLAGS) tx nIn STRICT_FLAGS s fromPubKey cache in
  cache_ok Verify nMaxCacheSize r.2 ∧ (r.1 = Some true ↔ script_valid Verify tx STRICT_FLAGS nIn fromPubKey).
Proof.
  intros Hr Hc Hn tx r. destruct (VerifyScript_cached Verify nMaxCacheSize random_entry tx nIn STRICT_FLAGS 0 s fromPubKey cache Hr Hc) as [E Hc']. split; [exact Hc'|].
  unfold script_valid, tx. rewrite input_script by done. fold tx. change (r.1 = Some true ↔ (VerifyScript (λ g key code (c : unit), (CheckSig_spec Verify tx nIn 0 g key code, c)) tx nIn STRICT_FLAGS s fromPubKey tt).1 = Some true). unfold r. by rewrite E.
Qed.
(** [SignSignature] changes one script, and only reports what the node accepts. *)
Lemma SignSignature_sound fromPubKey txTo nIn ht cache ok tx cache' : (∀ S, S ≠ ∅ → random_entry S ∈ S) → cache_ok Verify nMaxCacheSize cache →
  SignSignature Verify nMaxCacheSize random_entry fromPubKey txTo nIn ht cache = Some (ok, tx, cache') →
  cache_ok Verify nMaxCacheSize cache' ∧ (∃ s, tx = set_input_script txTo nIn s) ∧ (ok = true → script_valid Verify tx STRICT_FLAGS nIn fromPubKey).
Proof.
  intros Hr Hc. unfold SignSignature. destruct (Nat.leb_spec (length (vin txTo)) nIn) as [|Hn]; [done|]. intros H. apply bind_Some in H as ([[ok1 s1] T] & _ & H).
  destruct ok1; cbn [negb] in H; [|injection H as <- <- <-; split; [done|]; split; [eauto|done]]. apply bind_Some in H as ([fSolved s] & _ & H). destruct fSolved; cbn [negb] in H; [|injection H as <- <- <-; split; [done|]; split; [eauto|done]].
  destruct (test_solution txTo nIn s fromPubKey cache Hr Hc Hn) as [Hc' Hv]. destruct (VerifyScript _ _ _ _ _ _ _) as [r c]. cbn [fst snd] in *. apply bind_Some in H as (b & -> & H). injection H as <- <- <-.
  split; [done|]. split; [eauto|]. intros ->. by apply Hv.
Qed.
End signed.

Section spendable.
Context {BN : OpenSSL_BN} {BNok : OpenSSL_BN_ok BN} {DG : Digests} {DGok : DigestsOk} {C : OpenSSL_EC} {Cok : OpenSSL_EC_ok C} {KS : CKeyStore} {KSok : CKeyStoreOk KS}.

(** Payments to keys of the store, directly or through a script hash *)
Definition standard_payment (fromPubKey : list Z) : Prop :=
  signable fromPubKey ∨
  ∃ h sub, length h = 20%nat ∧ fromPubKey = p2sh h ∧ ks_GetCScript (bu_of_vch W160 h) = Some sub ∧ signable sub ∧ digits_ok 256 sub.

Lemma signable_plain script : signable script → IsPayToScriptHash script = false.
Proof.
  unfold signable. intros H. apply not_true_is_false. intros Hp. rewrite (Solver_complete _ _ _ (form_scripthash script Hp)) in H. naive_solver.
Qed.
Lemma solved_type nIn ht script hash T l : solved nIn ht script hash T l → (Solver script).1.2 = T.
Proof.
  intros [H _ _ _]. unfold SolverSign in H. destruct (Solver script) as [[ok T'] sols]. cbn [fst snd]. destruct ok; cbn [negb] in H; [|done].
  destruct T'; repeat (apply bind_Some in H as (? & _ & H)); repeat case_match; repeat (apply bind_Some in H as (? & _ & H)); by simplify_eq.
Qed.

Context (txTo : CTransaction) (nIn : nat) (ht : Z).
Context (Hin : (nIn < length (vin txTo))%nat).

(** The node accepts a solved script. *)
Lemma solved_valid script T l : solved nIn ht script (SignatureHash script txTo nIn ht) T l → signable script →
  script_valid pubkey_Verify (set_input_script txTo nIn (pushes l)) STRICT_FLAGS nIn script.
Proof.
  intros H Hs. destruct (solved_size _ _ _ _ _ _ H) as [Hn Hsz]. unfold script_valid. rewrite input_script by done. unfold VerifyScript.
  rewrite (EvalScript_pushes _ _ _ _ l (solved_elems _ _ _ _ _ _ H)) by lia. cbn [negb]. rewrite (solved_eval _ _ _ _ _ _ H) by apply SignatureHash_input.
  rewrite (signable_plain _ Hs), andb_false_r. done.
Qed.
Lemma solved_script_hash h sub T l : solved nIn ht sub (SignatureHash sub txTo nIn ht) T l → length h = 20%nat → getBytes (Hash160 sub) = h →
  Z.of_nat (length sub) <= MAX_SCRIPT_ELEMENT_SIZE →
  script_valid pubkey_Verify (set_input_script txTo nIn (push_vector (pushes l) sub)) STRICT_FLAGS nIn (p2sh h).
Proof.
  intros H Hh Hsub Hlen. destruct (solved_size _ _ _ _ _ _ H) as [Hn Hsz]. assert (El : push_vector (pushes l) sub = pushes (l ++ [sub])).
  { rewrite pushes_app, push_vector_app. f_equal. unfold pushes. cbn [map concat]. by rewrite app_nil_r. }
  assert (Hels : elems_ok (l ++ [sub])) by (apply Forall_app; split; [apply (solved_elems _ _ _ _ _ _ H)|by apply Forall_cons_2]).
  assert (Hpl : (length (push_vector [] sub) <= length sub + 5)%nat) by (unfold push_vector; rewrite length_app; repeat case_match; cbn [app length]; rewrite ?length_write_int; lia).
  assert (Hps : (length (pushes (l ++ [sub])) <= 3000)%nat). { rewrite <- El, push_vector_app, length_app. unfold MAX_SCRIPT_ELEMENT_SIZE in Hlen. lia. }
  unfold script_valid. rewrite input_script by done. rewrite El.
  match goal with |- (VerifyScript ?chk ?t _ _ _ _ _).1 = _ => destruct (VerifyScript_p2sh chk t nIn STRICT_FLAGS (pushes (l ++ [sub])) [] h (rev (l ++ [sub])) tt tt) as [E _] end.
  - reflexivity.
  - done.
  - rewrite length_rev, length_app. cbn [length]. lia.
  - apply EvalScript_pushes; [done|rewrite length_app; cbn [length]; lia|lia].
  - rewrite E. rewrite rev_app_distr. cbn [rev app]. rewrite bool_decide_eq_true_2 by done. rewrite IsPushOnly_pushes by done. cbn [andb].
    rewrite (solved_eval _ _ _ _ _ _ H) by apply SignatureHash_input. done.
Qed.

Context (Hht : hashtype_ok ht = true) (Hbyte : 0 <= ht < 256).
Context (Hshort : ∀ id key hash sig, ks_GetKey id = Some (Some key) → key_Sign key hash = Some sig → length sig ≠ 19%nat).
Variable nMaxCacheSize : Z.
Variable random_entry : gset sigdata → sigdata.

Lemma SignSignature_spendable fromPubKey cache : (∀ S, S ≠ ∅ → random_entry S ∈ S) → cache_ok pubkey_Verify nMaxCacheSize cache →
  digits_ok 256 fromPubKey → Z.of_nat (length fromPubKey) <= 10000 → standard_payment fromPubKey → IsMine fromPubKey = Some MINE_SPENDABLE →
  ∃ scriptSig cache', SignSignature pubkey_Verify nMaxCacheSize random_entry fromPubKey txTo nIn ht cache = Some (true, set_input_script txTo nIn scriptSig, cache').
Proof.
  intros Hr Hc Hb Hlen Hpay Hmine. unfold SignSignature. destruct (Nat.leb_spec (length (vin txTo)) nIn); [lia|].
  assert (Hdone : ∀ s, script_valid pubkey_Verify (set_input_script txTo nIn s) STRICT_FLAGS nIn fromPubKey →
    ∃ sig cache', (let '(r, cache0) := VerifyScript (CheckSig pubkey_Verify nMaxCacheSize random_entry (set_input_script txTo nIn s) nIn 0 STRICT_FLAGS) (set_input_script txTo nIn s) nIn STRICT_FLAGS s fromPubKey cache in
       ok ← r; Some (ok : bool, set_input_script txTo nIn s, cache0)) = Some (true, set_input_script txTo nIn sig, cache')).
  { intros s Hv. destruct (test_solution pubkey_Verify nMaxCacheSize random_entry txTo nIn s fromPubKey cache Hr Hc Hin) as [_ [_ Ht]]. specialize (Ht Hv).
    destruct (VerifyScript _ _ _ _ _ _ _) as [r c]. cbn [fst] in Ht. rewrite Ht. cbn [mbind option_bind]. by exists s, c. }
  destruct Hpay as [Hs|(h & sub & Hh & -> & Hsub & Hs & Hbs)].
  - destruct (solve nIn ht Hht Hbyte Hshort fromPubKey (SignatureHash fromPubKey txTo nIn ht) _ Hmine Hs Hb Hlen (SignatureHash_wf _ _ _ _)) as (T & l & HT & Hsol).
    rewrite (solved_sign _ _ _ _ _ _ Hsol). cbn [mbind option_bind negb]. rewrite bool_decide_eq_false_2 by done. cbn [negb]. apply Hdone. by eapply solved_valid.
  - assert (HP : IsPayToScriptHash (p2sh h) = true) by (apply IsPayToScriptHash_shape; eauto). assert (HS := Solver_complete _ _ _ (form_scripthash _ HP)).
    assert (Eh : take 20 (drop 2 (p2sh h)) = h) by (unfold p2sh; rewrite !skipn_cons, drop_0, <- Hh; apply take_app_length). rewrite Eh in HS.
    destruct (ks_script _ _ Hsub) as [Hid Hls]. assert (Hbh : digits_ok 256 h) by (unfold p2sh in Hb; do 2 apply Forall_cons_iff in Hb as [_ Hb]; by apply Forall_app in Hb as [? _]).
    assert (Hm2 : ismine ks_nScripts sub = Some MINE_SPENDABLE).
    { unfold IsMine in Hmine. cbn [ismine] in Hmine. rewrite HS in Hmine. cbn [negb nth] in Hmine. rewrite Hsub in Hmine. apply bind_Some in Hmine as (ret & -> & Hm). injection Hm as Hm%mine_inv.
      apply bool_decide_eq_true in Hm. by subst. }
    destruct (solve nIn ht Hht Hbyte Hshort sub (SignatureHash sub txTo nIn ht) _ Hm2 Hs Hbs ltac:(unfold MAX_SCRIPT_ELEMENT_SIZE in Hls; lia) (SignatureHash_wf _ _ _ _)) as (T & l & HT & Hsol).
    assert (Hfirst : ∀ hash, SolverSign (p2sh h) hash ht = Some (true, sub, TX_SCRIPTHASH)) by (intros hash; unfold SolverSign; rewrite HS; cbn [negb nth]; by rewrite Hsub).
    rewrite Hfirst. cbn [mbind option_bind negb]. rewrite bool_decide_eq_true_2 by done. rewrite SignatureHash_input, (solved_sign _ _ _ _ _ _ Hsol).
    cbn [mbind option_bind]. rewrite bool_decide_eq_false_2 by done. cbn [negb andb]. apply Hdone. eapply solved_script_hash; [exact Hsol|done| |done].
    unfold script_GetID in Hid. rewrite <- Hid. by apply bytes_160.
Qed.
End spendable.

(** ** Properties *)

(** C11. Signing inputs.  With a store that gives the keys it has (a plain one, or an
    encrypted one that is unlocked; a locked one calls the same outputs spendable and
    cannot sign) whatever [IsMine] calls spendable can be spent: for an output that
    pays to keys of the store, by a public key, a key hash or a multi-signature script,
    directly or through a script hash, [SignSignature] succeeds with every standard
    hash type, only the script of the input changes, and the node accepts the signed
    input under its strictest flags; the signature cache stays sound.  No signature is
    taken to have 19 bytes: with its hash type it could be mistaken for a key hash and
    be removed from the script that is signed. *)
Theorem SignSignature_mine {BN : OpenSSL_BN} {BNok : OpenSSL_BN_ok BN} {DG : Digests} {DGok : DigestsOk} {C : OpenSSL_EC} {Cok : OpenSSL_EC_ok C}
    {KS : CKeyStore} {KSok : CKeyStoreOk KS} nMaxCacheSize random_entry fromPubKey txTo nIn ht cache :
  (∀ S, S ≠ ∅ → random_entry S ∈ S) → cache_ok pubkey_Verify nMaxCacheSize cache → (nIn < length (vin txTo))%nat → hashtype_ok ht = true → 0 <= ht < 256 →
  (∀ id key hash sig, ks_GetKey id = Some (Some key) → key_Sign key hash = Some sig → length sig ≠ 19%nat) →
  digits_ok 256 fromPubKey → Z.of_nat (length fromPubKey) <= 10000 → standard_payment fromPubKey → IsMine fromPubKey = Some MINE_SPENDABLE →
  ∃ scriptSig cache', let tx := set_input_script txTo nIn scriptSig in
    SignSignature pubkey_Verify nMaxCacheSize random_entry fromPubKey txTo nIn ht cache = Some (true, tx, cache') ∧
    script_valid pubkey_Verify tx STRICT_FLAGS nIn fromPubKey ∧ cache_ok pubkey_Verify nMaxCacheSize cache'.
Proof.
  intros Hr Hc Hin Hht Hb Hshort Hd Hl Hpay Hmine.
  destruct (SignSignature_spendable txTo nIn ht Hin Hht Hb Hshort nMaxCacheSize random_entry fromPubKey cache Hr Hc Hd Hl Hpay Hmine) as (s & c & E).
  destruct (SignSignature_sound _ _ _ _ _ _ _ _ _ _ _ Hr Hc E) as (Hc' & _ & Hv). exists s, c. split; [exact E|]. split; [by apply Hv|done].
Qed.

(** ** A spend *)

#[local] Existing Instances sample_digests sample_digests_ok toy_curve toy_evp toy_evp_ok.

Lemma toy_short k hash sig : key_Sign k hash = Some sig → length sig ≠ 19%nat.
Proof.
  assert (Hm : ∀ z, 0 <= z <= 12 → (length (mpi_body z) <= 1)%nat).
  { intros z Hz. assert (Hin : z ∈ seqZ 0 13) by (apply elem_of_seqZ; lia). change (seqZ 0 13) with [0; 1; 2; 3; 4; 5; 6; 7; 8; 9; 10; 11; 12] in Hin.
    repeat (apply elem_of_cons in Hin as [->|Hin]; [vm_compute; lia|]). by apply not_elem_of_nil in Hin. }
  unfold key_Sign. destruct (ECDSA_do_sign _ _) as [[r s]|] eqn:E; [|done]. assert (Hrs : 0 <= r <= 12 ∧ 0 <= s <= 12).
  { cbn [ECDSA_do_sign toy_curve] in E. destruct (_ =? 0); injection E as <- <-; (split; [lia|]); [assert (H := Z.mod_pos_bound ((be_val (getBytes hash) + 2 * be_val (key_secret k)) * 7) 13 ltac:(lia))|assert (H := Z.mod_pos_bound (be_val (getBytes hash) + be_val (key_secret k)) 13 ltac:(lia))]; lia. }
  assert (Hlow : ∃ s', low_s (r, s) = (r, s') ∧ 0 <= s' <= 12).
  { unfold low_s. change (Z.shiftr EC_order 1) with 6. change EC_order with 13. destruct (Z.gtb_spec s 6); eexists; split; [reflexivity|lia|reflexivity|lia]. }
  destruct Hlow as (s' & -> & Hs'). destruct (negb _); [done|]. intros [= <-]. assert (H1 := Hm r ltac:(lia)). assert (H2 := Hm s' ltac:(lia)).
  change (i2d_ECDSA_SIG (r, s')) with (der_sig (mpi_body r) (mpi_body s') []). unfold der_sig. rewrite !length_app. cbn [length]. lia.
Qed.

(** A store that can spend from a multi-signature script of its key *)
Definition toy_redeem : list Z := default [] (SetMultisig 1 [key_GetPubKey toy_key]).
Definition toy_wallet : KeyStore := (AddCScript (AddKey KeyStore_new toy_key).2 toy_redeem).2.
Lemma toy_wallet_ok : store_ok false toy_wallet.
Proof. apply (reachable_store_ok false (λ _, false)), toy_reach. Qed.
Definition toy_from : list Z := p2sh (getBytes (Hash160 toy_redeem)).
Definition toy_keystore : CKeyStore := as_keystore toy_wallet.
#[local] Existing Instance toy_keystore.
#[local] Instance toy_keystore_ok : CKeyStoreOk toy_keystore.
Proof. eapply plain_store_ok; [apply toy_wallet_ok|reflexivity]. Qed.
Lemma toy_payment : standard_payment toy_from.
Proof.
  right. exists (getBytes (Hash160 toy_redeem)), toy_redeem. split; [reflexivity|]. split; [reflexivity|]. split; [vm_compute; reflexivity|]. split; [|apply (bool_decide_unpack _); vm_compute; exact I].
  assert (E : Solver toy_redeem = (true, TX_MULTISIG, [[1]; key_GetPubKey toy_key; [1]])) by (vm_compute; reflexivity). unfold signable. rewrite E. split; [tauto|].
  intros k key Hk Hg. apply list_elem_of_singleton in Hk. subst k. assert (Eg : ks_GetKey (pubkey_GetID (CPubKey_Set (key_GetPubKey toy_key))) = Some (Some toy_key)) by (vm_compute; reflexivity).
  rewrite Eg in Hg. injection Hg as <-. vm_compute. reflexivity.
Qed.

Lemma SignSignature_mine_witness : ∃ scriptSig cache', SignSignature pubkey_Verify 10 first_entry toy_from sample_tx 0 1 ∅ = Some (true, set_input_script sample_tx 0 scriptSig, cache').
Proof.
  destruct (SignSignature_mine 10 first_entry toy_from sample_tx 0 1 ∅) as (s & c & H & _).
  - exact first_entry_in.
  - split; [set_solver|]. rewrite size_empty. lia.
  - vm_compute. lia.
  - reflexivity.
  - lia.
  - intros id key hash sig _. apply toy_short.
  - apply (bool_decide_unpack _). vm_compute. exact I.
  - vm_compute. congruence.
  - exact toy_payment.
  - vm_compute. reflexivity.
  - exists s, c. exact H.
Defined.
