(* ===== verification/WalletTx.v ===== *)
(** * Wallet transactions (src/wallet.cpp, src/wallet.h, CMerkleTx of src/main.cpp)

    What the wallet remembers of a transaction: the block it is in, which of its
    outputs are spent, and the amounts it has computed and keeps in caches.
    [CWalletTx] has the source's fields; a pair of a flag [f...Cached] and a value
    [n...Cached] is an [option].  A query that may fill a cache or set
    [fMerkleVerified] returns the transaction it leaves behind.  An exception is
    [None], as is an access past the end of a vector.

    Which scripts are the wallet's own is [mine], the verdict of IsMine of
    script.cpp for the keys of the wallet. *)

From stdpp Require Import base list numbers option gmap sorting.
From Stdlib Require Import ZArith Lia.
From S2P Require Import Prelude Uint256 Bignum Serialize Tx Chain Utxo Block BlockIndex KeyStore Sign.

Open Scope Z_scope.

(** ** Data *)

(** [isminefilter]: sets of [isminetype] as bits *)
Definition MINE_bits (m : isminetype) : Z := match m with MINE_NO => 0 | MINE_WATCH_ONLY => 1 | MINE_SPENDABLE => 2 end.
Definition WATCH_ONLY : Z := MINE_bits MINE_WATCH_ONLY.
Definition SPENDABLE : Z := MINE_bits MINE_SPENDABLE.
Definition MINE_ALL : Z := Z.lor WATCH_ONLY SPENDABLE.
(** [mine & filter] as a condition *)
Definition in_filter (m : isminetype) (filter : Z) : bool := negb (Z.land (MINE_bits m) filter =? 0).
Definition has_bit (filter bit : Z) : bool := negb (Z.land filter bit =? 0).

Record CMerkleTx := mkMerkleTx {
  mt_tx : CTransaction;
  hashBlock : base_uint;
  vMerkleBranch : list base_uint;
  mt_nIndex : Z;
  fMerkleVerified : bool
}.
(** [CMerkleTx(const CTransaction&)] *)
Definition CMerkleTx_of (tx : CTransaction) : CMerkleTx := mkMerkleTx tx (bu_of_u64 W256 0) [] (-1) false.

(** The caches, "memory only" *)
Record Caches := mkCaches {
  nDebitCached : option Z; nWatchDebitCached : option Z;
  nCreditCached : option Z; nWatchCreditCached : option Z;
  nAvailableCreditCached : option Z; nAvailableWatchCreditCached : option Z;
  nImmatureCreditCached : option Z; nImmatureWatchCreditCached : option Z;
  nChangeCached : option Z
}.
Definition no_caches : Caches := mkCaches None None None None None None None None None.

Record CWalletTx := mkWalletTx {
  wtx_mt : CMerkleTx;
  vtxPrev : list CMerkleTx;
  mapValue : gmap (list Z) (list Z);
  vOrderForm : list (list Z * list Z);
  fTimeReceivedIsTxTime : Z;
  nTimeReceived : Z;
  nTimeSmart : Z;
  fFromMe : bool;
  strFromAccount : list Z;
  vfSpent : list bool;
  nOrderPos : Z;
  caches : Caches
}.
Abbreviation wtx_tx t := (mt_tx (wtx_mt t)).
Abbreviation WalletMap := (gmap base_uint CWalletTx).

(** [Init] and the constructor from a transaction *)
Definition CWalletTx_of (tx : CTransaction) : CWalletTx := mkWalletTx (CMerkleTx_of tx) [] ∅ [] 0 0 0 false [] [] (-1) no_caches.

(** Assignments to the fields *)
Definition with_mt (t : CWalletTx) (m : CMerkleTx) : CWalletTx :=
  mkWalletTx m (vtxPrev t) (mapValue t) (vOrderForm t) (fTimeReceivedIsTxTime t) (nTimeReceived t) (nTimeSmart t) (fFromMe t)
    (strFromAccount t) (vfSpent t) (nOrderPos t) (caches t).
Definition with_spent (t : CWalletTx) (v : list bool) : CWalletTx :=
  mkWalletTx (wtx_mt t) (vtxPrev t) (mapValue t) (vOrderForm t) (fTimeReceivedIsTxTime t) (nTimeReceived t) (nTimeSmart t) (fFromMe t)
    (strFromAccount t) v (nOrderPos t) (caches t).
Definition with_caches (t : CWalletTx) (c : Caches) : CWalletTx :=
  mkWalletTx (wtx_mt t) (vtxPrev t) (mapValue t) (vOrderForm t) (fTimeReceivedIsTxTime t) (nTimeReceived t) (nTimeSmart t) (fFromMe t)
    (strFromAccount t) (vfSpent t) (nOrderPos t) c.
Definition with_from_me (t : CWalletTx) (b : bool) : CWalletTx :=
  mkWalletTx (wtx_mt t) (vtxPrev t) (mapValue t) (vOrderForm t) (fTimeReceivedIsTxTime t) (nTimeReceived t) (nTimeSmart t) b
    (strFromAccount t) (vfSpent t) (nOrderPos t) (caches t).
Definition with_received (t : CWalletTx) (received smart pos : Z) : CWalletTx :=
  mkWalletTx (wtx_mt t) (vtxPrev t) (mapValue t) (vOrderForm t) (fTimeReceivedIsTxTime t) received smart (fFromMe t)
    (strFromAccount t) (vfSpent t) pos (caches t).
Definition with_verified (m : CMerkleTx) (b : bool) : CMerkleTx :=
  mkMerkleTx (mt_tx m) (hashBlock m) (vMerkleBranch m) (mt_nIndex m) b.

Definition set_debit (c : Caches) v := mkCaches v (nWatchDebitCached c) (nCreditCached c) (nWatchCreditCached c) (nAvailableCreditCached c)
  (nAvailableWatchCreditCached c) (nImmatureCreditCached c) (nImmatureWatchCreditCached c) (nChangeCached c).
Definition set_watch_debit (c : Caches) v := mkCaches (nDebitCached c) v (nCreditCached c) (nWatchCreditCached c) (nAvailableCreditCached c)
  (nAvailableWatchCreditCached c) (nImmatureCreditCached c) (nImmatureWatchCreditCached c) (nChangeCached c).
Definition set_credit (c : Caches) v := mkCaches (nDebitCached c) (nWatchDebitCached c) v (nWatchCreditCached c) (nAvailableCreditCached c)
  (nAvailableWatchCreditCached c) (nImmatureCreditCached c) (nImmatureWatchCreditCached c) (nChangeCached c).
Definition set_watch_credit (c : Caches) v := mkCaches (nDebitCached c) (nWatchDebitCached c) (nCreditCached c) v (nAvailableCreditCached c)
  (nAvailableWatchCreditCached c) (nImmatureCreditCached c) (nImmatureWatchCreditCached c) (nChangeCached c).
Definition set_available (c : Caches) v := mkCaches (nDebitCached c) (nWatchDebitCached c) (nCreditCached c) (nWatchCreditCached c) v
  (nAvailableWatchCreditCached c) (nImmatureCreditCached c) (nImmatureWatchCreditCached c) (nChangeCached c).
Definition set_available_watch (c : Caches) v := mkCaches (nDebitCached c) (nWatchDebitCached c) (nCreditCached c) (nWatchCreditCached c)
  (nAvailableCreditCached c) v (nImmatureCreditCached c) (nImmatureWatchCreditCached c) (nChangeCached c).
Definition set_immature (c : Caches) v := mkCaches (nDebitCached c) (nWatchDebitCached c) (nCreditCached c) (nWatchCreditCached c)
  (nAvailableCreditCached c) (nAvailableWatchCreditCached c) v (nImmatureWatchCreditCached c) (nChangeCached c).
Definition set_immature_watch (c : Caches) v := mkCaches (nDebitCached c) (nWatchDebitCached c) (nCreditCached c) (nWatchCreditCached c)
  (nAvailableCreditCached c) (nAvailableWatchCreditCached c) (nImmatureCreditCached c) v (nChangeCached c).
Definition set_change (c : Caches) v := mkCaches (nDebitCached c) (nWatchDebitCached c) (nCreditCached c) (nWatchCreditCached c)
  (nAvailableCreditCached c) (nAvailableWatchCreditCached c) (nImmatureCreditCached c) (nImmatureWatchCreditCached c) v.

(** ** Spent flags *)

(** [fAvailableCreditCached = fAvailableWatchCreditCached = false] *)
Definition forget_available (t : CWalletTx) : CWalletTx :=
  with_caches t (set_available_watch (set_available (caches t) None) None).
(** [vfSpent.resize(vout.size())] *)
Definition resized (t : CWalletTx) : list bool :=
  let n := length (vout (wtx_tx t)) in take n (vfSpent t) ++ replicate (n - length (vfSpent t)) false.

Definition set_spent_flag (b : bool) (t : CWalletTx) (nOut : Z) : option CWalletTx :=
  if Z.of_nat (length (vout (wtx_tx t))) <=? nOut then None
  else
    let t := with_spent t (resized t) in
    if eqb (nth (Z.to_nat nOut) (vfSpent t) false) b then Some t
    else Some (forget_available (with_spent t (<[Z.to_nat nOut := b]> (vfSpent t)))).
Definition MarkSpent : CWalletTx → Z → option CWalletTx := set_spent_flag true.
Definition MarkUnspent : CWalletTx → Z → option CWalletTx := set_spent_flag false.
Definition IsSpent (t : CWalletTx) (nOut : Z) : option bool :=
  if Z.of_nat (length (vout (wtx_tx t))) <=? nOut then None
  else if Z.of_nat (length (vfSpent t)) <=? nOut then Some false
  else Some (nth (Z.to_nat nOut) (vfSpent t) false).

(** [UpdateSpent]: the flags of the two vectors as far as both go *)
Fixpoint update_flags (vfNewSpent vfSpent : list bool) : list bool * bool :=
  match vfNewSpent, vfSpent with
  | new :: vfNewSpent, old :: vfSpent =>
      let '(rest, fReturn) := update_flags vfNewSpent vfSpent in (old || new :: rest, (new && negb old) || fReturn)
  | _, _ => (vfSpent, false)
  end.
Definition UpdateSpent (t : CWalletTx) (vfNewSpent : list bool) : CWalletTx * bool :=
  let '(v, fReturn) := update_flags vfNewSpent (vfSpent t) in
  let t := with_spent t v in ((if fReturn then forget_available t else t), fReturn).

(** [MarkDirty]: which caches it resets *)
Definition MarkDirty (t : CWalletTx) : CWalletTx :=
  let c := set_credit (caches t) None in
  let c := set_available_watch (set_available c None) None in
  let c := set_watch_debit (set_debit c None) None in
  with_caches t (set_change c None).
(** [BindWallet]; the pointer to the wallet is an argument of the operations *)
Definition BindWallet (t : CWalletTx) : CWalletTx := MarkDirty t.

(** ** Where a transaction is in the chain *)

(** What the queries read of the node: the block index and the best block, its
    height and clock, and which transactions are in the memory pool *)
Record NodeView := mkView {
  v_index : BlockMap;
  v_best : option base_uint;
  v_bestHeight : Z;
  v_adjustedTime : Z;
  v_inPool : base_uint → bool
}.

Section Queries.
Context {DG : Digests}.
(** [nCoinbaseMaturity], [nMinimumInputValue], [fConfChange]: settings of the node *)
Variable nCoinbaseMaturity : Z.
Variable nMinimumInputValue : Z.
Variable fConfChange : bool.
(** [scrypt_blockhash] of the header *)
Variable scrypt_blockhash : list Z → base_uint.

(** [pindexBest->nHeight - pindex->nHeight + 1], with [pindexBest] not null *)
Definition blocks_deep (v : NodeView) (pindex : Node) : Z :=
  match v_best v ≫= λ h, v_index v !! h with
  | Some best => i32 (nd_nHeight best - nd_nHeight pindex + 1)
  | None => 0
  end.

(** [CMerkleTx::SetMerkleBranch], with [fClient] false as everywhere; without a block
    it is read from the disk through the transaction index *)
Definition SetMerkleBranch (v : NodeView) (block_of_tx : base_uint → option CBlock) (m : CMerkleTx) (pblock : option CBlock) : CMerkleTx * Z :=
  let pblock := match pblock with Some b => Some b | None => block_of_tx (GetHash (mt_tx m)) end in
  match pblock with
  | None => (m, 0)
  | Some b =>
      let hash := blk_GetHash scrypt_blockhash b in
      match list_find (λ tx, tx = mt_tx m) (vtx b) with
      | None => (mkMerkleTx (mt_tx m) hash [] (-1) (fMerkleVerified m), 0)
      | Some (n, _) =>
          let m := mkMerkleTx (mt_tx m) hash (GetMerkleBranch (vtx b) [] (Z.of_nat n)) (Z.of_nat n) (fMerkleVerified m) in
          match v_index v !! hash with
          | None => (m, 0)
          | Some pindex => if negb (IsInMainChain (v_index v) (v_best v) hash) then (m, 0) else (m, blocks_deep v pindex)
          end
      end
  end.

(** [CMerkleTx::GetDepthInMainChain] *)
Definition GetDepthInMainChain (v : NodeView) (m : CMerkleTx) : Z * CMerkleTx :=
  if bu_eq64 (hashBlock m) 0 || (mt_nIndex m =? -1) then (0, m)
  else
    match v_index v !! hashBlock m with
    | None => (0, m)
    | Some pindex =>
        if negb (IsInMainChain (v_index v) (v_best v) (hashBlock m)) then (0, m)
        else if fMerkleVerified m then (blocks_deep v pindex, m)
        else if bu_ne (CheckMerkleBranch (GetHash (mt_tx m)) (vMerkleBranch m) (mt_nIndex m)) (nd_hashMerkleRoot pindex) then (0, m)
        else (blocks_deep v pindex, with_verified m true)
    end.
(** [GetBlocksToMaturity] *)
Definition GetBlocksToMaturity (v : NodeView) (m : CMerkleTx) : Z * CMerkleTx :=
  if negb (IsCoinBase (mt_tx m) || IsCoinStake (mt_tx m)) then (0, m)
  else let '(d, m) := GetDepthInMainChain v m in (Z.max 0 (i32 (i32 (nCoinbaseMaturity + 20) - d)), m).
Definition wtx_depth (v : NodeView) (t : CWalletTx) : Z * CWalletTx :=
  let '(d, m) := GetDepthInMainChain v (wtx_mt t) in (d, with_mt t m).
Definition wtx_maturity (v : NodeView) (t : CWalletTx) : Z * CWalletTx :=
  let '(d, m) := GetBlocksToMaturity v (wtx_mt t) in (d, with_mt t m).
Definition generated (t : CWalletTx) : bool := IsCoinBase (wtx_tx t) || IsCoinStake (wtx_tx t).
(** [(IsCoinBase() || IsCoinStake()) && GetBlocksToMaturity() > 0] *)
Definition still_immature (v : NodeView) (t : CWalletTx) : bool * CWalletTx :=
  if generated t then let '(d, t) := wtx_maturity v t in (0 <? d, t) else (false, t).

(** ** Credit and debit of the wallet *)

Variable mine : list Z → isminetype.

(** [CWallet::IsMine(const CTxIn&)] *)
Definition mine_input (M : WalletMap) (i : CTxIn) : isminetype :=
  match M !! op_hash (prevout i) with
  | Some prev => match vout (wtx_tx prev) !! Z.to_nat (op_n (prevout i)) with
                 | Some out => mine (scriptPubKey out)
                 | None => MINE_NO
                 end
  | None => MINE_NO
  end.
(** [CWallet::GetDebit(const CTxIn&, filter)] *)
Definition debit_input (M : WalletMap) (i : CTxIn) (filter : Z) : Z :=
  match M !! op_hash (prevout i) with
  | Some prev => match vout (wtx_tx prev) !! Z.to_nat (op_n (prevout i)) with
                 | Some out => if in_filter (mine (scriptPubKey out)) filter then nValue out else 0
                 | None => 0
                 end
  | None => 0
  end.
(** A running total that is checked after each term *)
Fixpoint checked_sum (terms : list (option Z)) (n : Z) : option Z :=
  match terms with
  | [] => Some n
  | x :: terms => x ← x; let n := i64 (n + x) in if negb (MoneyRange n) then None else checked_sum terms n
  end.
(** [CWallet::GetDebit(const CTransaction&, filter)] *)
Definition debit_tx (M : WalletMap) (tx : CTransaction) (filter : Z) : option Z :=
  checked_sum (map (λ i, Some (debit_input M i filter)) (vin tx)) 0.
(** [CWallet::GetCredit(const CTxOut&, filter)] *)
Definition credit_output (filter : Z) (o : CTxOut) : option Z :=
  if negb (MoneyRange (nValue o)) then None else Some (if in_filter (mine (scriptPubKey o)) filter then nValue o else 0).
Definition credit_tx (tx : CTransaction) (filter : Z) : option Z := checked_sum (map (credit_output filter) (vout tx)) 0.
(** [IsChange]: [book] tells which destinations are in the address book *)
Definition IsChange (destination : list Z → option (list Z)) (book : list Z → bool) (o : CTxOut) : bool :=
  if bool_decide (mine (scriptPubKey o) = MINE_NO) then false
  else match destination (scriptPubKey o) with None => true | Some address => negb (book address) end.
Definition change_output (is_change : CTxOut → bool) (o : CTxOut) : option Z :=
  if negb (MoneyRange (nValue o)) then None else Some (if is_change o then nValue o else 0).
Definition change_tx (is_change : CTxOut → bool) (tx : CTransaction) : option Z := checked_sum (map (change_output is_change) (vout tx)) 0.
(** [CWallet::IsMine(const CTransaction&)] and [IsFromMe] *)
Definition mine_tx (tx : CTransaction) : bool :=
  existsb (λ o, negb (bool_decide (mine (scriptPubKey o) = MINE_NO)) && (nMinimumInputValue <=? nValue o)) (vout tx).
Definition from_me_tx (M : WalletMap) (tx : CTransaction) : option bool := d ← debit_tx M tx MINE_ALL; Some (0 <? d).

(** ** The queries of a wallet transaction *)

(** A cached value, or the computed one which is then kept *)
Definition cached (get : Caches → option Z) (set : Caches → option Z → Caches) (compute : option Z) (t : CWalletTx) : option (Z * CWalletTx) :=
  match get (caches t) with
  | Some n => Some (n, t)
  | None => n ← compute; Some (n, with_caches t (set (caches t) (Some n)))
  end.
(** Add a term when the filter has the bit *)
Definition add_if (b : bool) (q : CWalletTx → option (Z * CWalletTx)) (st : Z * CWalletTx) : option (Z * CWalletTx) :=
  if b then '(n, t) ← q st.2; Some (i64 (st.1 + n), t) else Some st.

Definition wtx_GetDebit (M : WalletMap) (filter : Z) (t : CWalletTx) : option (Z * CWalletTx) :=
  if bool_decide (vin (wtx_tx t) = []) then Some (0, t)
  else
    st ← add_if (has_bit filter SPENDABLE) (λ t, cached nDebitCached set_debit (debit_tx M (wtx_tx t) SPENDABLE) t) (0, t);
    add_if (has_bit filter WATCH_ONLY) (λ t, cached nWatchDebitCached set_watch_debit (debit_tx M (wtx_tx t) WATCH_ONLY) t) st.
Definition wtx_GetCredit (v : NodeView) (filter : Z) (t : CWalletTx) : option (Z * CWalletTx) :=
  let '(imm, t) := still_immature v t in
  if imm then Some (0, t)
  else
    st ← add_if (has_bit filter SPENDABLE) (λ t, cached nCreditCached set_credit (credit_tx (wtx_tx t) SPENDABLE) t) (0, t);
    add_if (has_bit filter WATCH_ONLY) (λ t, cached nWatchCreditCached set_watch_credit (credit_tx (wtx_tx t) WATCH_ONLY) t) st.

(** [IsCoinBase() && GetBlocksToMaturity() > 0 && IsInMainChain()] *)
Definition immature_coinbase (v : NodeView) (t : CWalletTx) : bool * CWalletTx :=
  if IsCoinBase (wtx_tx t) then
    let '(m, t) := wtx_maturity v t in
    if 0 <? m then let '(d, t) := wtx_depth v t in (0 <? d, t) else (false, t)
  else (false, t).
Definition immature_credit (get : Caches → option Z) (set : Caches → option Z → Caches) (filter : Z) (v : NodeView) (fUseCache : bool) (t : CWalletTx)
    : option (Z * CWalletTx) :=
  let '(imm, t) := immature_coinbase v t in
  if imm then
    let t := if fUseCache then t else with_caches t (set (caches t) None) in
    cached get set (credit_tx (wtx_tx t) filter) t
  else Some (0, t).
Definition GetImmatureCredit := immature_credit nImmatureCreditCached set_immature SPENDABLE.
Definition GetImmatureWatchOnlyCredit := immature_credit nImmatureWatchCreditCached set_immature_watch WATCH_ONLY.

(** The outputs that are not spent, with their credit *)
Definition unspent_credits (filter : Z) (t : CWalletTx) : list (option Z) :=
  omap (λ '(i, o), match IsSpent t (Z.of_nat i) with Some false => Some (credit_output filter o) | _ => None end) (imap pair (vout (wtx_tx t))).
Definition available_credit (get : Caches → option Z) (set : Caches → option Z → Caches) (filter : Z) (v : NodeView) (fUseCache : bool) (t : CWalletTx)
    : option (Z * CWalletTx) :=
  let '(imm, t) := still_immature v t in
  if imm then Some (0, t)
  else
    let t := if fUseCache then t else with_caches t (set (caches t) None) in
    cached get set (checked_sum (unspent_credits filter t) 0) t.
Definition GetAvailableCredit := available_credit nAvailableCreditCached set_available SPENDABLE.
Definition GetAvailableWatchCredit := available_credit nAvailableWatchCreditCached set_available_watch WATCH_ONLY.
Definition GetChange (is_change : CTxOut → bool) (t : CWalletTx) : option (Z * CWalletTx) :=
  cached nChangeCached set_change (change_tx is_change (wtx_tx t)) t.

Definition wtx_IsFinal (v : NodeView) (t : CWalletTx) : bool := IsFinal (v_bestHeight v) (v_adjustedTime v) (wtx_tx t) 0 0.
Definition wtx_IsFromMe (M : WalletMap) (filter : Z) (t : CWalletTx) : option (bool * CWalletTx) := '(d, t) ← wtx_GetDebit M filter t; Some (0 <? d, t).
(** The inputs of an unconfirmed transaction, for [IsTrusted] *)
Fixpoint inputs_trusted (M : WalletMap) (vin : list CTxIn) : option bool :=
  match vin with
  | [] => Some true
  | i :: vin =>
      match M !! op_hash (prevout i) with
      | None => Some false
      | Some parent => out ← vout (wtx_tx parent) !! Z.to_nat (op_n (prevout i));
                       if bool_decide (mine (scriptPubKey out) = MINE_SPENDABLE) then inputs_trusted M vin else Some false
      end
  end.
Definition IsTrusted (v : NodeView) (M : WalletMap) (t : CWalletTx) : option (bool * CWalletTx) :=
  if negb (wtx_IsFinal v t) then Some (false, t)
  else
    let '(nDepth, t) := wtx_depth v t in
    if 1 <=? nDepth then Some (true, t)
    else if nDepth <? 0 then Some (false, t)
    else if negb fConfChange then Some (false, t)
    else
      '(mine, t) ← wtx_IsFromMe M MINE_ALL t;
      if negb mine then Some (false, t)
      else if negb (v_inPool v (GetHash (wtx_tx t))) then Some (false, t)
      else b ← inputs_trusted M (vin (wtx_tx t)); Some (b, t).

(** ** Balances: a query of every transaction, in the order of the map *)

Fixpoint total_loop (q : WalletMap → CWalletTx → option (Z * CWalletTx)) (keys : list base_uint) (nTotal : Z) (M : WalletMap) : option (Z * WalletMap) :=
  match keys with
  | [] => Some (nTotal, M)
  | h :: keys =>
      match M !! h with
      | None => total_loop q keys nTotal M
      | Some t => '(n, t) ← q M t; total_loop q keys (i64 (nTotal + n)) (<[h := t]> M)
      end
  end.
Definition wallet_total (q : WalletMap → CWalletTx → option (Z * CWalletTx)) (M : WalletMap) : option (Z * WalletMap) :=
  total_loop q (map fst (id_order M)) 0 M.

(** [if (pcoin->IsTrusted()) nTotal += ...] *)
Definition if_trusted (v : NodeView) (want : bool) (q : CWalletTx → option (Z * CWalletTx)) (M : WalletMap) (t : CWalletTx) : option (Z * CWalletTx) :=
  '(b, t) ← IsTrusted v M t; if eqb b want then q t else Some (0, t).
Definition GetBalance (v : NodeView) := wallet_total (if_trusted v true (GetAvailableCredit v true)).
Definition GetWatchOnlyBalance (v : NodeView) := wallet_total (if_trusted v true (GetAvailableWatchCredit v true)).
(** [!pcoin->IsFinal() || !pcoin->IsTrusted()] *)
Definition unconfirmed (v : NodeView) (q : CWalletTx → option (Z * CWalletTx)) (M : WalletMap) (t : CWalletTx) : option (Z * CWalletTx) :=
  if negb (wtx_IsFinal v t) then q t else if_trusted v false q M t.
Definition GetUnconfirmedBalance (v : NodeView) := wallet_total (unconfirmed v (GetAvailableCredit v true)).
Definition GetUnconfirmedWatchOnlyBalance (v : NodeView) := wallet_total (unconfirmed v (GetAvailableWatchCredit v true)).
Definition GetImmatureBalance (v : NodeView) := wallet_total (λ _, GetImmatureCredit v true).
Definition GetImmatureWatchOnlyBalance (v : NodeView) := wallet_total (λ _, GetImmatureWatchOnlyCredit v true).

(** Credit of the generated transactions that are in the chain and not mature *)
Definition minting (is_kind : CTransaction → bool) (filter : Z) (v : NodeView) (M : WalletMap) (t : CWalletTx) : option (Z * CWalletTx) :=
  if is_kind (wtx_tx t) then
    let '(m, t) := wtx_maturity v t in
    if 0 <? m then
      let '(d, t) := wtx_depth v t in
      if 0 <? d then n ← credit_tx (wtx_tx t) filter; Some (n, t) else Some (0, t)
    else Some (0, t)
  else Some (0, t).
Definition GetStake (v : NodeView) := wallet_total (minting IsCoinStake MINE_ALL v).
Definition GetWatchOnlyStake (v : NodeView) := wallet_total (minting IsCoinStake WATCH_ONLY v).
Definition GetNewMint (v : NodeView) := wallet_total (minting IsCoinBase MINE_ALL v).
Definition GetWatchOnlyNewMint (v : NodeView) := wallet_total (minting IsCoinBase WATCH_ONLY v).

(** ** Changes of the wallet *)

(** The wallet's transactions, their records in the wallet file, the next order
    position, how often each was asked for, and the list the minting table reads *)
Record Wallet := mkWallet {
  mapWallet : WalletMap;
  w_file : WalletMap;
  nOrderPosNext : Z;
  mapRequestCount : gmap base_uint Z;
  vMintingWalletUpdated : list base_uint
}.
Definition with_wallet_map (w : Wallet) (M : WalletMap) : Wallet := mkWallet M (w_file w) (nOrderPosNext w) (mapRequestCount w) (vMintingWalletUpdated w).
Definition with_file (w : Wallet) (F : WalletMap) : Wallet := mkWallet (mapWallet w) F (nOrderPosNext w) (mapRequestCount w) (vMintingWalletUpdated w).
Definition minting_updated (w : Wallet) (h : base_uint) : Wallet :=
  mkWallet (mapWallet w) (w_file w) (nOrderPosNext w) (mapRequestCount w) (vMintingWalletUpdated w ++ [h]).
(** [WriteToDisk] *)
Definition wtx_WriteToDisk (w : Wallet) (t : CWalletTx) : Wallet := with_file w (<[GetHash (wtx_tx t) := t]> (w_file w)).
(** A change of one transaction that is then written and announced *)
Definition store_wtx (w : Wallet) (h : base_uint) (t : CWalletTx) : Wallet :=
  minting_updated (wtx_WriteToDisk (with_wallet_map w (<[h := t]> (mapWallet w))) t) h.

(** [WalletUpdateSpent]: the inputs; the credit that is logged for a coin found spent
    goes through the caches and may throw *)
Fixpoint spend_inputs (v : NodeView) (vin : list CTxIn) (w : Wallet) : option Wallet :=
  match vin with
  | [] => Some w
  | i :: vin =>
      let h := op_hash (prevout i) in let n := op_n (prevout i) in
      match mapWallet w !! h with
      | None => spend_inputs v vin w
      | Some t =>
          match vout (wtx_tx t) !! Z.to_nat n with
          | None => spend_inputs v vin w
          | Some out =>
              spent ← IsSpent t n;
              if negb spent && negb (bool_decide (mine (scriptPubKey out) = MINE_NO)) then
                '(_, t) ← wtx_GetCredit v MINE_ALL t; t ← MarkSpent t n; spend_inputs v vin (store_wtx w h t)
              else spend_inputs v vin w
          end
      end
  end.
(** Its second half, for a transaction of a block: every output of ours is marked
    unspent.  [mi] is dereferenced without a test, [None] when it is the end *)
Fixpoint unspend_outputs (h : base_uint) (vout : list CTxOut) (n : Z) (w : Wallet) : option Wallet :=
  match vout with
  | [] => Some w
  | o :: vout =>
      if bool_decide (mine (scriptPubKey o) = MINE_NO) then unspend_outputs h vout (n + 1) w
      else t ← mapWallet w !! h; t ← MarkUnspent t n; unspend_outputs h vout (n + 1) (store_wtx w h t)
  end.
Definition WalletUpdateSpent (v : NodeView) (tx : CTransaction) (fBlock : bool) (w : Wallet) : option Wallet :=
  w ← spend_inputs v (vin tx) w;
  if fBlock then unspend_outputs (GetHash tx) (vout tx) 0 w else Some w.

(** The time shown for a new transaction of a block: not before the newest entry of
    the wallet (at most five minutes ahead), not after the block *)
Definition latest_entry (entries : list Z) (latestNow : Z) : Z * Z :=
  match list_find (λ nSmartTime, nSmartTime <= u32 (latestNow + 300)) entries with
  | Some (_, nSmartTime) => (u32 nSmartTime, u32 (Z.max latestNow nSmartTime))
  | None => (0, latestNow)
  end.
(** [std::multimap::insert]: after the entries with the same key *)
Fixpoint multimap_insert {A} (e : Z * A) (l : list (Z * A)) : list (Z * A) :=
  match l with
  | [] => [e]
  | x :: l => if e.1 <? x.1 then e :: x :: l else x :: multimap_insert e l
  end.
(** [OrderedTxItems], and the smart times of its entries other than [self] from the
    last position down; an accounting entry is its position and its time *)
Definition smart_times (M : WalletMap) (self : base_uint) (acentries : list (Z * Z)) : list Z :=
  let item '(h, t) := (nOrderPos t, if nTimeSmart t =? 0 then nTimeReceived t else nTimeSmart t) in
  let txs := map item (filter (λ e : base_uint * CWalletTx, e.1 ≠ self) (id_order M)) in
  map snd (rev (fold_left (λ l e, multimap_insert e l) (txs ++ acentries) [])).
Definition smart_time (v : NodeView) (acentries : list (Z * Z)) (M : WalletMap) (self : base_uint) (block : base_uint) (received : Z) : Z :=
  if bu_eq64 block 0 then received
  else
    match v_index v !! block with
    | None => received
    | Some pindex =>
        let '(latestEntry, latestNow) := latest_entry (smart_times M self acentries) received in
        Z.max latestEntry (Z.min (bi_nTime (nd_index pindex)) latestNow)
    end.

(** What is merged into a transaction that is already there *)
Definition merge_wtx (wtxIn t : CWalletTx) : CWalletTx * bool :=
  let mi := wtx_mt wtxIn in
  let '(t, u1) :=
    if negb (bu_eq64 (hashBlock mi) 0) && bu_ne (hashBlock mi) (hashBlock (wtx_mt t))
    then (with_mt t (mkMerkleTx (wtx_tx t) (hashBlock mi) (vMerkleBranch (wtx_mt t)) (mt_nIndex (wtx_mt t)) (fMerkleVerified (wtx_mt t))), true)
    else (t, false) in
  let '(t, u2) :=
    if negb (mt_nIndex mi =? -1) && (negb (bool_decide (vMerkleBranch mi = vMerkleBranch (wtx_mt t))) || negb (mt_nIndex mi =? mt_nIndex (wtx_mt t)))
    then (with_mt t (mkMerkleTx (wtx_tx t) (hashBlock (wtx_mt t)) (vMerkleBranch mi) (mt_nIndex mi) (fMerkleVerified (wtx_mt t))), true)
    else (t, u1) in
  let '(t, u3) := if fFromMe wtxIn && negb (fFromMe t) then (with_from_me t true, true) else (t, u2) in
  let '(t, u4) := UpdateSpent t (vfSpent wtxIn) in
  (t, u3 || u4).

(** [AddToWallet] of a build with the graphical interface (the other build also
    replaces a default key that was paid).  [disk_ok] is whether the wallet file
    takes the record. *)
Definition AddToWallet (v : NodeView) (acentries : list (Z * Z)) (disk_ok : bool) (wtxIn : CWalletTx) (w : Wallet) : option (bool * Wallet) :=
  let hash := GetHash (wtx_tx wtxIn) in
  let '(t, fInsertedNew, fUpdated, next) :=
    match mapWallet w !! hash with
    | None =>
        let received := u32 (v_adjustedTime v) in
        let t := BindWallet wtxIn in
        (with_received t received (smart_time v acentries (mapWallet w) hash (hashBlock (wtx_mt wtxIn)) received) (nOrderPosNext w),
         true, false, i64 (nOrderPosNext w + 1))
    | Some t => let '(t, fUpdated) := merge_wtx wtxIn (BindWallet t) in (t, false, fUpdated, nOrderPosNext w)
    end in
  let w := mkWallet (<[hash := t]> (mapWallet w)) (w_file w) next (mapRequestCount w) (vMintingWalletUpdated w) in
  if (fInsertedNew || fUpdated) && negb disk_ok then Some (false, w)
  else
    let w := if fInsertedNew || fUpdated then wtx_WriteToDisk w t else w in
    w ← WalletUpdateSpent v (wtx_tx t) (negb (bu_eq64 (hashBlock (wtx_mt wtxIn)) 0)) w;
    Some (true, minting_updated w hash).

(** [AddToWalletIfInvolvingMe] *)
Definition AddToWalletIfInvolvingMe (v : NodeView) (block_of_tx : base_uint → option CBlock) (acentries : list (Z * Z)) (disk_ok : bool)
    (tx : CTransaction) (pblock : option CBlock) (fUpdate : bool) (w : Wallet) : option (bool * Wallet) :=
  let hash := GetHash tx in
  let fExisted := bool_decide (is_Some (mapWallet w !! hash)) in
  if fExisted && negb fUpdate then Some (false, w)
  else
    from_me ← (if fExisted || mine_tx tx then Some true else from_me_tx (mapWallet w) tx);
    if (from_me : bool) then
      let t := CWalletTx_of tx in
      let t := match pblock with Some b => with_mt t (SetMerkleBranch v block_of_tx (wtx_mt t) (Some b)).1 | None => t end in
      AddToWallet v acentries disk_ok t w
    else w ← WalletUpdateSpent v tx false w; Some (false, w).

(** [EraseFromWallet]; the wallet is backed by a file *)
Definition EraseFromWallet (h : base_uint) (w : Wallet) : Wallet :=
  match mapWallet w !! h with
  | Some _ => with_file (with_wallet_map w (delete h (mapWallet w))) (delete h (w_file w))
  | None => w
  end.

(** [DisableTransaction] *)
Fixpoint unspend_inputs (vin : list CTxIn) (w : Wallet) : option Wallet :=
  match vin with
  | [] => Some w
  | i :: vin =>
      let h := op_hash (prevout i) in let n := op_n (prevout i) in
      match mapWallet w !! h with
      | None => unspend_inputs vin w
      | Some prev =>
          match vout (wtx_tx prev) !! Z.to_nat n with
          | Some out =>
              if bool_decide (mine (scriptPubKey out) = MINE_NO) then unspend_inputs vin w
              else t ← MarkUnspent prev n; unspend_inputs vin (wtx_WriteToDisk (with_wallet_map w (<[h := t]> (mapWallet w))) t)
          | None => unspend_inputs vin w
          end
      end
  end.
Definition DisableTransaction (tx : CTransaction) (w : Wallet) : option Wallet :=
  if negb (IsCoinStake tx) then Some w
  else b ← from_me_tx (mapWallet w) tx; if negb (b : bool) then Some w else unspend_inputs (vin tx) w.

(** [ClearOrphans]: generated transactions that are not in the main chain *)
Definition orphaned (v : NodeView) (t : CWalletTx) : bool := generated t && negb (0 <? (wtx_depth v t).1).
Definition ClearOrphans (v : NodeView) (w : Wallet) : Wallet :=
  let w := with_wallet_map w ((λ t, if generated t then (wtx_depth v t).2 else t) <$> mapWallet w) in
  fold_left (λ w h, EraseFromWallet h w) (map fst (filter (λ e : base_uint * CWalletTx, orphaned v e.2 = true) (id_order (mapWallet w)))) w.

(** [CWallet::MarkDirty] *)
Definition wallet_MarkDirty (w : Wallet) : Wallet := with_wallet_map w (MarkDirty <$> mapWallet w).
End Queries.

(** ** Spent flags: what the operations do *)

(** Flag of output [k]; the vector may be shorter than the outputs *)
Definition flag (t : CWalletTx) (k : nat) : bool := nth k (vfSpent t) false.
(** What a record of the file holds of a transaction: all but what is kept in memory only *)
Definition persist (t : CWalletTx) : CWalletTx := with_caches (with_mt t (with_verified (wtx_mt t) false)) no_caches.
(** And that without the flags *)
Definition core_of (t : CWalletTx) : CWalletTx := persist (with_spent t []).
Lemma core_tx t t' : core_of t' = core_of t → wtx_tx t' = wtx_tx t.
Proof. intros H. apply (f_equal (λ t, wtx_tx t)) in H. exact H. Qed.
Lemma persist_core t t' : persist t' = persist t → core_of t' = core_of t.
Proof. intros H. exact (f_equal (λ t, with_spent t []) H). Qed.
Lemma persist_flag t t' k : persist t' = persist t → flag t' k = flag t k.
Proof. intros H. exact (f_equal (λ t, flag t k) H). Qed.

Lemma IsSpent_flag t (k : nat) : (k < length (vout (wtx_tx t)))%nat → IsSpent t (Z.of_nat k) = Some (flag t k).
Proof.
  intros Hk. unfold IsSpent, flag. rewrite (proj2 (Z.leb_gt _ _)) by lia.
  destruct (Z.leb_spec (Z.of_nat (length (vfSpent t))) (Z.of_nat k)); [rewrite nth_overflow by lia; done|]. by rewrite Nat2Z.id.
Qed.
Lemma length_resized t : length (resized t) = length (vout (wtx_tx t)).
Proof. unfold resized. rewrite length_app, length_take, length_replicate. lia. Qed.
Lemma nth_resized t k : (k < length (vout (wtx_tx t)))%nat → nth k (resized t) false = flag t k.
Proof.
  intros Hk. unfold resized, flag. destruct (decide (k < length (vfSpent t))%nat).
  - rewrite app_nth1 by (rewrite length_take; lia). rewrite !nth_lookup. by rewrite lookup_take_lt.
  - rewrite app_nth2 by (rewrite length_take; lia). rewrite nth_overflow with (l := vfSpent t) by lia.
    rewrite nth_lookup. destruct (replicate _ _ !! _) eqn:E; [|done]. by apply lookup_replicate in E as [-> _].
Qed.
Lemma nth_insert (l : list bool) n b k : (n < length l)%nat → nth k (<[n:=b]> l) false = if decide (k = n) then b else nth k l false.
Proof.
  intros Hn. rewrite !nth_lookup. destruct (decide (k = n)) as [->|]; [by rewrite list_lookup_insert_eq|by rewrite list_lookup_insert_ne].
Qed.
(** Setting a flag succeeds within the outputs, changes that flag and no other, and
    nothing else but the caches that depend on it *)
Lemma set_flag_ok b t (n : nat) : (n < length (vout (wtx_tx t)))%nat → ∃ t', set_spent_flag b t (Z.of_nat n) = Some t' ∧ core_of t' = core_of t ∧
  ∀ k, (k < length (vout (wtx_tx t)))%nat → flag t' k = if decide (k = n) then b else flag t k.
Proof.
  intros Hn. unfold set_spent_flag. rewrite (proj2 (Z.leb_gt _ _)) by lia. rewrite Nat2Z.id. cbn [vfSpent with_spent].
  rewrite (nth_resized t n Hn). destruct (eqb (flag t n) b) eqn:E.
  - eexists. split; [done|]. split; [done|]. intros k Hk. unfold flag. cbn [vfSpent with_spent]. rewrite nth_resized by done.
    apply eqb_prop in E. destruct (decide (k = n)) as [->|]; done.
  - eexists. split; [done|]. split; [done|]. intros k Hk. unfold flag. cbn [vfSpent with_spent forget_available with_caches].
    rewrite nth_insert by (by rewrite length_resized). destruct (decide (k = n)); [done|]. by apply nth_resized.
Qed.

Lemma update_flags_ok new old k : nth k (update_flags new old).1 false = nth k old false || (nth k new false && (k <? length old)%nat) ∧
  length (update_flags new old).1 = length old.
Proof.
  revert old k. induction new as [|b new IH]; intros [|c old] k; try (split; [destruct k; cbn; rewrite ?andb_false_r, ?orb_false_r; done|done]).
  cbn [update_flags]. destruct (update_flags new old) as [rest r] eqn:E. cbn [fst].
  destruct k as [|k]; [destruct (IH old 0%nat) as [_ Hl]; rewrite E in Hl; cbn in *; split; [by rewrite andb_true_r|by rewrite Hl]|].
  destruct (IH old k) as [H Hl]. rewrite E in H, Hl. cbn in *. split; [exact H|by rewrite Hl].
Qed.

(** A wallet map in which each transaction became another *)
Definition updates (P : base_uint → CWalletTx → CWalletTx → Prop) (M M' : WalletMap) : Prop := ∀ h, option_Forall2 (P h) (M !! h) (M' !! h).

Section flags.
Context {DG : Digests} (mine : list Z → isminetype).
Context (nCoinbaseMaturity : Z).

(** ** Queries keep what is filed of a transaction *)

Lemma persist_caches t c : persist (with_caches t c) = persist t.
Proof. done. Qed.
Lemma depth_persist v t : persist (wtx_depth v t).2 = persist t.
Proof.
  unfold wtx_depth, GetDepthInMainChain. destruct t as [[tx hb br ix ver] ? ? ? ? ? ? ? ? ? ? ?]; cbn.
  destruct (_ || _); [done|]. destruct (_ !! _); [|done]. destruct (negb _); [done|]. destruct ver; [done|]. by destruct (bu_ne _ _).
Qed.
Lemma maturity_persist v t : persist (wtx_maturity nCoinbaseMaturity v t).2 = persist t.
Proof.
  pose proof (depth_persist v t) as H. unfold wtx_maturity, wtx_depth, GetBlocksToMaturity in *. destruct (negb _); [by destruct t|].
  by destruct (GetDepthInMainChain v (wtx_mt t)).
Qed.
(** A query leaves what is filed of a transaction as it is *)
Definition keeps {A} (q : CWalletTx → option (A * CWalletTx)) : Prop := ∀ t n t', q t = Some (n, t') → persist t' = persist t.
Lemma immature_persist v t : persist (still_immature nCoinbaseMaturity v t).2 = persist t.
Proof.
  unfold still_immature. destruct (generated t); [|done]. pose proof (maturity_persist v t) as H. by destruct (wtx_maturity nCoinbaseMaturity v t).
Qed.
Lemma cached_keeps get set c t n t' : cached get set c t = Some (n, t') → persist t' = persist t.
Proof. unfold cached. destruct (get _); [by intros [= <- <-]|]. destruct c; [|done]. cbn. by intros [= <- <-]. Qed.
Lemma credit_keeps v f : keeps (wtx_GetCredit nCoinbaseMaturity mine v f).
Proof.
  intros t n t'. unfold wtx_GetCredit. pose proof (immature_persist v t) as Hi. destruct (still_immature nCoinbaseMaturity v t) as [[] t1]; cbn [snd] in Hi.
  { by intros [= <- <-]. }
  unfold add_if. cbn [snd fst]. intros (st & H1 & H2)%bind_Some.
  assert (persist st.2 = persist t) as E1.
  { destruct (has_bit f SPENDABLE); [|by injection H1 as <-]. apply bind_Some in H1 as ([x t2] & H1 & [= <-]). apply cached_keeps in H1. cbn. congruence. }
  destruct (has_bit f WATCH_ONLY); [|injection H2 as ->; exact E1]. apply bind_Some in H2 as ([x t2] & H2 & [= <- <-]). apply cached_keeps in H2. congruence.
Qed.
(** Transactions whose credit can be computed *)
Definition creditable (M : WalletMap) : Prop := map_Forall (λ _ t, ∀ f, is_Some (credit_tx mine (wtx_tx t) f)) M.
Lemma cached_total get set c t : is_Some c → is_Some (cached get set c t).
Proof. intros [n ->]. unfold cached. destruct (get _); eauto. Qed.
Lemma credit_total v f t : (∀ f, is_Some (credit_tx mine (wtx_tx t) f)) → is_Some (wtx_GetCredit nCoinbaseMaturity mine v f t).
Proof.
  intros H. unfold wtx_GetCredit. pose proof (immature_persist v t) as Hi. destruct (still_immature nCoinbaseMaturity v t) as [[] t1]; cbn [snd] in Hi; [eauto|].
  apply (f_equal (λ t, wtx_tx t)) in Hi. change (wtx_tx t1 = wtx_tx t) in Hi. unfold add_if. cbn [fst snd].
  assert (∃ st, (if has_bit f SPENDABLE then '(n, t) ← cached nCreditCached set_credit (credit_tx mine (wtx_tx t1) SPENDABLE) t1; Some (i64 (0 + n), t) else Some (0, t1)) = Some st ∧
    wtx_tx st.2 = wtx_tx t) as (st & -> & Hst).
  { destruct (has_bit f SPENDABLE); [|by eexists]. destruct (cached_total nCreditCached set_credit (credit_tx mine (wtx_tx t1) SPENDABLE) t1) as [[n t2] E]; [by rewrite Hi|].
    rewrite E. eexists. split; [done|]. apply cached_keeps, (f_equal (λ t, wtx_tx t)) in E. change (wtx_tx t2 = wtx_tx t1) in E. cbn. congruence. }
  cbn [mbind option_bind]. destruct (has_bit f WATCH_ONLY); [|eauto].
  destruct (cached_total nWatchCreditCached set_watch_credit (credit_tx mine (wtx_tx st.2) WATCH_ONLY) st.2) as [[n t2] ->]; [by rewrite Hst|]. eauto.
Qed.

Definition owned (o : CTxOut) : bool := negb (bool_decide (mine (scriptPubKey o) = MINE_NO)).
Definition own_output (t : CWalletTx) (k : nat) : bool := match vout (wtx_tx t) !! k with Some o => owned o | None => false end.
(** Whether the inputs spend output [k] of transaction [h] *)
Definition spends (vin : list CTxIn) (h : base_uint) (k : nat) : bool := existsb (λ i, bool_decide (prevout i = mkOutPoint h (Z.of_nat k))) vin.

Definition spend_update (vin : list CTxIn) (h : base_uint) (t t' : CWalletTx) : Prop :=
  core_of t' = core_of t ∧ ∀ k, (k < length (vout (wtx_tx t)))%nat → flag t' k = flag t k || (spends vin h k && own_output t k).

Lemma updates_refl (P : base_uint → CWalletTx → CWalletTx → Prop) M : (∀ h t, P h t t) → updates P M M.
Proof. intros H h. destruct (M !! h); by constructor. Qed.
Lemma updates_step P Q (R : base_uint → CWalletTx → CWalletTx → Prop) M1 M2 M3 : updates P M1 M2 → updates Q M2 M3 →
  (∀ h t1 t2 t3, M1 !! h = Some t1 → P h t1 t2 → Q h t2 t3 → R h t1 t3) → updates R M1 M3.
Proof.
  intros H1 H2 H h. specialize (H1 h). specialize (H2 h). destruct (M1 !! h) eqn:E1; inversion H1 as [? t2 Hp E2 E3|]; subst.
  - rewrite <- E3 in H2. inversion H2; subst. constructor. eauto.
  - rewrite <- H0 in H2. inversion H2; subst. constructor.
Qed.
Lemma updates_insert (P : base_uint → CWalletTx → CWalletTx → Prop) M h t t' : M !! h = Some t → P h t t' → (∀ h t, P h t t) → updates P M (<[h := t']> M).
Proof.
  intros E H Hr k. destruct (decide (k = h)) as [->|]; [rewrite E, lookup_insert_eq; by constructor|].
  rewrite lookup_insert_ne by done. destruct (M !! k); by constructor.
Qed.

(** ** The wallet file *)

Definition in_step (w : Wallet) : Prop := persist <$> w_file w = persist <$> mapWallet w.
Definition keys_ok (M : WalletMap) : Prop := map_Forall (λ h t, GetHash (wtx_tx t) = h) M.

Lemma updates_keys P M M' : updates P M M' → (∀ h t t', P h t t' → wtx_tx t' = wtx_tx t) → keys_ok M → keys_ok M'.
Proof.
  intros H HP K h t E. specialize (H h). rewrite E in H. inversion H as [t0 ? Hp E0|]; subst. rewrite (HP _ _ _ Hp). by apply K.
Qed.
Lemma store_in_step w h t : in_step w → GetHash (wtx_tx t) = h → in_step (store_wtx w h t).
Proof. intros H <-. unfold in_step, store_wtx in *. cbn. by rewrite !fmap_insert, H. Qed.

Lemma spend_update_refl vin h t : spends vin h = (λ _, false) → spend_update vin h t t.
Proof. intros E. split; [done|]. intros k _. by rewrite E, orb_false_r. Qed.
Lemma spends_cons i vin h k : spends (i :: vin) h k = bool_decide (prevout i = mkOutPoint h (Z.of_nat k)) || spends vin h k.
Proof. done. Qed.
Lemma own_core t t' k : core_of t' = core_of t → own_output t' k = own_output t k.
Proof. intros H%core_tx. unfold own_output. by rewrite H. Qed.

(** The first half of [WalletUpdateSpent]: it returns unless a credit is out of range;
    the outputs of ours that the inputs name are marked, the other flags stay, and the
    file follows *)
Definition spent_ok (vin : list CTxIn) (w : Wallet) (r : option Wallet) : Prop :=
  match r with
  | Some w' => updates (spend_update vin) (mapWallet w) (mapWallet w') ∧ in_step w' ∧ nOrderPosNext w' = nOrderPosNext w
  | None => ¬ creditable (mapWallet w)
  end.
Lemma creditable_updates (P : base_uint → CWalletTx → CWalletTx → Prop) M M' : updates P M M' → (∀ h t t', P h t t' → wtx_tx t' = wtx_tx t) → creditable M → creditable M'.
Proof. intros U HP Hc h t' E. specialize (U h). rewrite E in U. inversion U as [t ? Hp Ea|]; subst. rewrite (HP _ _ _ Hp). by apply (Hc h). Qed.
Lemma spend_inputs_ok v vin : ∀ w, Forall (λ i, 0 <= op_n (prevout i)) vin → keys_ok (mapWallet w) → in_step w →
  spent_ok vin w (spend_inputs nCoinbaseMaturity mine v vin w).
Proof.
  induction vin as [|i vin IH]; intros w Hn K F.
  { split; [|done]. apply updates_refl. intros h t. by apply spend_update_refl. }
  apply Forall_cons_iff in Hn as [Hi Hn]. cbn [spend_inputs]. set (h := op_hash (prevout i)). set (n := Z.to_nat (op_n (prevout i))).
  assert (prevout i = mkOutPoint h (Z.of_nat n)) as Ep. { unfold h, n. rewrite Z2Nat.id by done. by destruct (prevout i). }
  assert (op_n (prevout i) = Z.of_nat n) as En by (unfold n; lia).
  (* an input that changes nothing *)
  assert (Hskip : (∀ t, mapWallet w !! h = Some t → (n < length (vout (wtx_tx t)))%nat → flag t n || negb (own_output t n) = true) →
    spent_ok (i :: vin) w (spend_inputs nCoinbaseMaturity mine v vin w)).
  { intros Hno. specialize (IH w Hn K F). destruct (spend_inputs nCoinbaseMaturity mine v vin w) as [w'|]; [|done]. destruct IH as (U & F' & O). split; [|done].
    apply (updates_step (λ h t t', t' = t ∧ mapWallet w !! h = Some t) (spend_update vin) _ _ (mapWallet w)); [|done|].
    - intros h0. destruct (mapWallet w !! h0) eqn:E0; by constructor.
    - intros h0 t1 t2 t3 _ [-> E0] [Hc Hf]. split; [done|]. intros k Hk. rewrite (Hf k Hk), spends_cons, Ep.
      case_bool_decide as Hd; [|done]. injection Hd as <- Hd. apply Nat2Z.inj in Hd. subst k. specialize (Hno _ E0 Hk).
      destruct (flag t1 n), (own_output t1 n), (spends vin h n); done. }
  destruct (mapWallet w !! h) as [t|] eqn:Eh; [|apply Hskip; done].
  destruct (vout (wtx_tx t) !! n) as [out|] eqn:Eo.
  2:{ apply lookup_ge_None in Eo. apply Hskip. intros t0 [= <-]. lia. }
  pose proof (lookup_lt_Some _ _ _ Eo) as Hlt. rewrite En, IsSpent_flag by done. cbn [mbind option_bind].
  assert (own_output t n = owned out) as Eown by (unfold own_output; by rewrite Eo).
  fold (owned out). rewrite <- Eown. destruct (negb (flag t n) && own_output t n) eqn:Eb.
  2:{ apply Hskip. intros t0 [= <-] _. destruct (flag t n), (own_output t n); done. }
  destruct (wtx_GetCredit nCoinbaseMaturity mine v MINE_ALL t) as [[credit t0]|] eqn:Ec; cbn [mbind option_bind].
  2:{ intros Hcr. destruct (credit_total v MINE_ALL t (Hcr _ _ Eh)) as [? Ex]. congruence. }
  apply credit_keeps in Ec. pose proof (core_tx _ _ (persist_core _ _ Ec)) as Etx.
  unfold MarkSpent. destruct (set_flag_ok true t0 n ltac:(by rewrite Etx)) as (t' & -> & Hc & Hf). cbn [mbind option_bind].
  rewrite (persist_core _ _ Ec) in Hc. rewrite Etx in Hf.
  assert (Hf' : ∀ k, (k < length (vout (wtx_tx t)))%nat → flag t' k = if decide (k = n) then true else flag t k)
    by (intros k Hk; rewrite (Hf k Hk), (persist_flag t t0 k Ec); done). clear Hf. rename Hf' into Hf.
  pose proof (K _ _ Eh) as Hh. assert (GetHash (wtx_tx t') = h) as Hh' by (by rewrite (core_tx _ _ Hc)).
  set (P := λ (h0 : base_uint) (a b : CWalletTx), core_of b = core_of a ∧
    ∀ k, (k < length (vout (wtx_tx a)))%nat → flag b k = flag a k || bool_decide (h0 = h ∧ k = n)).
  assert (U1 : updates P (mapWallet w) (mapWallet (store_wtx w h t'))).
  { intros h0. cbn. destruct (decide (h0 = h)) as [->|Hne].
    - rewrite Eh, lookup_insert_eq. constructor. split; [done|]. intros k Hk. rewrite (Hf k Hk). destruct (decide (k = n)) as [->|].
      + rewrite (bool_decide_eq_true_2 (h = h ∧ n = n)) by done. by rewrite orb_true_r.
      + rewrite (bool_decide_eq_false_2 (h = h ∧ k = n)) by tauto. by rewrite orb_false_r.
    - rewrite lookup_insert_ne by done. destruct (mapWallet w !! h0); constructor. split; [done|]. intros k _.
      rewrite bool_decide_eq_false_2 by tauto. by rewrite orb_false_r. }
  assert (Hx : ∀ h0 t1 t2, P h0 t1 t2 → wtx_tx t2 = wtx_tx t1) by (intros ? ? ? [Hx _]; exact (core_tx _ _ Hx)).
  specialize (IH (store_wtx w h t') Hn ltac:(by eapply updates_keys) ltac:(by apply store_in_step)).
  destruct (spend_inputs nCoinbaseMaturity mine v vin (store_wtx w h t')) as [w'|].
  2:{ intros Hcr. apply IH. by eapply creditable_updates. }
  destruct IH as (U & F' & O). split; [|done]. eapply updates_step; [exact U1|exact U|].
  intros h0 t1 t2 t3 E1 [Hc1 Hf1] [Hc2 Hf2]. split; [congruence|]. intros k Hk.
  rewrite (Hf2 k), (Hf1 k Hk), (own_core t1 t2), spends_cons, Ep by (done || by rewrite (core_tx _ _ Hc1)).
  destruct (decide (h0 = h ∧ k = n)) as [[-> ->]|Hne].
  - assert (t1 = t) as -> by congruence. rewrite !bool_decide_eq_true_2 by done. apply andb_true_iff in Eb as [_ ->].
    by destruct (flag t n), (spends vin h n).
  - rewrite !bool_decide_eq_false_2; [by rewrite orb_false_r|intros [= -> ->%Nat2Z.inj]; tauto|done].
Qed.

(** The second half: the outputs of ours from position [n] on become unspent *)
Definition unspend_update (h0 : base_uint) (from : nat) (h : base_uint) (t t' : CWalletTx) : Prop :=
  core_of t' = core_of t ∧ ∀ k, (k < length (vout (wtx_tx t)))%nat →
    flag t' k = flag t k && negb (bool_decide (h = h0) && (from <=? k)%nat && own_output t k).
Lemma unspend_update_refl h0 n h t : (∀ k, bool_decide (h = h0) && (n <=? k)%nat && own_output t k = false) → unspend_update h0 n h t t.
Proof. intros H. split; [done|]. intros k _. by rewrite H, andb_true_r. Qed.

Lemma unspend_outputs_ok h outs : ∀ n w t, mapWallet w !! h = Some t → drop n (vout (wtx_tx t)) = outs → keys_ok (mapWallet w) → in_step w →
  ∃ w', unspend_outputs mine h outs (Z.of_nat n) w = Some w' ∧ updates (unspend_update h n) (mapWallet w) (mapWallet w') ∧ in_step w' ∧
    nOrderPosNext w' = nOrderPosNext w.
Proof.
  induction outs as [|o outs IH]; intros n w t Eh Ed K F.
  { exists w. split; [done|]. split; [|done]. intros h0. destruct (mapWallet w !! h0) as [t0|] eqn:E0; constructor. apply unspend_update_refl. intros k.
    case_bool_decide as Hd; [|done]. subst h0. assert (t0 = t) as -> by congruence. apply (f_equal length) in Ed. rewrite length_drop in Ed. cbn in Ed.
    unfold own_output. destruct (Nat.leb_spec n k); [|done]. by rewrite (proj2 (lookup_ge_None _ _)) by lia. }
  assert (vout (wtx_tx t) !! n = Some o) as Eo. { rewrite <- (Nat.add_0_r n), <- lookup_drop, Ed. done. }
  assert (drop (S n) (vout (wtx_tx t)) = outs) as Ed'. { rewrite <- (Nat.add_1_r n), <- drop_drop, Ed. done. }
  assert (own_output t n = owned o) as Eown by (unfold own_output; by rewrite Eo).
  cbn [unspend_outputs]. replace (Z.of_nat n + 1) with (Z.of_nat (S n)) by lia. case_bool_decide as Hm.
  - destruct (IH (S n) w t Eh Ed' K F) as (w' & E & U & F' & O). exists w'. split; [done|]. split; [|done].
    intros h0. specialize (U h0). destruct (mapWallet w !! h0) as [t0|] eqn:E0; inversion U as [? t1 [Hc Hf] Ea Eb|]; subst; constructor.
    split; [done|]. intros k Hk. rewrite (Hf k Hk). f_equal. f_equal. case_bool_decide as Hd; [|done]. subst h0. assert (t0 = t) as -> by congruence. cbn [andb].
    destruct (decide (k = n)) as [->|].
    + rewrite Eown. unfold owned. rewrite bool_decide_eq_true_2 by done. cbn. by rewrite !andb_false_r.
    + f_equal. destruct (Nat.leb_spec n k), (Nat.leb_spec (S n) k); lia || done.
  - rewrite Eh. cbn [mbind option_bind]. unfold MarkUnspent. destruct (set_flag_ok false t n (lookup_lt_Some _ _ _ Eo)) as (t' & -> & Hc & Hf). cbn [mbind option_bind].
    assert (Hh' : GetHash (wtx_tx t') = h) by (rewrite (core_tx _ _ Hc); by apply K).
    destruct (IH (S n) (store_wtx w h t') t') as (w' & E & U & F' & O).
    + cbn. by rewrite lookup_insert_eq.
    + by rewrite (core_tx _ _ Hc).
    + apply map_Forall_insert_2; [done|exact K].
    + by apply store_in_step.
    + exists w'. split; [done|]. split; [|done]. clear Hh'. intros h0. specialize (U h0). cbn in U. destruct (decide (h0 = h)) as [->|Hne].
      * rewrite lookup_insert_eq in U. rewrite Eh. inversion U as [? t1 [Hc1 Hf1] Ea Eb|]; subst. constructor. split; [congruence|].
        intros k Hk. rewrite (Hf1 k), (Hf k Hk), (own_core t t') by (done || by rewrite (core_tx _ _ Hc)). rewrite !(bool_decide_eq_true_2 (h = h)) by done.
        cbn [andb]. destruct (decide (k = n)) as [->|]; [rewrite Eown; unfold owned; rewrite bool_decide_eq_false_2, Nat.leb_refl by done; by destruct (flag t n)|].
        do 3 f_equal. destruct (Nat.leb_spec n k), (Nat.leb_spec (S n) k); lia || done.
      * rewrite lookup_insert_ne in U by done. destruct (mapWallet w !! h0) as [t0|]; inversion U as [? t1 [Hc1 Hf1] Ea Eb|]; subst; constructor.
        split; [done|]. intros k Hk. rewrite (Hf1 k Hk). by rewrite !(bool_decide_eq_false_2 (h0 = h)) by done.
Qed.

(** What the transaction is when [AddToWallet] has inserted or merged it *)
Definition entry_after (t t' wtxIn : CWalletTx) : Prop :=
  wtx_tx t' = wtx_tx t ∧ ∀ k, flag t' k = flag t k || (flag wtxIn k && (k <? length (vfSpent t))%nat).
Lemma update_flags_same new old : (update_flags new old).2 = false → (update_flags new old).1 = old.
Proof.
  revert old. induction new as [|b new IH]; intros [|c old]; try done. cbn [update_flags]. specialize (IH old).
  destruct (update_flags new old) as [rest r]. cbn [fst snd] in *. intros [Hb Hr]%orb_false_iff. rewrite (IH Hr). by destruct b, c.
Qed.
Lemma merge_wtx_ok wtxIn t : let '(t', fUpdated) := merge_wtx wtxIn t in
  entry_after t t' wtxIn ∧ nOrderPos t' = nOrderPos t ∧ (fUpdated = false → persist t' = persist t).
Proof.
  unfold merge_wtx, UpdateSpent.
  repeat match goal with |- context [if ?b then (?x, true) else ?y] => destruct b end; cbn [vfSpent with_mt with_from_me].
  all: pose proof (λ k, proj1 (update_flags_ok (vfSpent wtxIn) (vfSpent t) k)) as Hv.
  all: pose proof (update_flags_same (vfSpent wtxIn) (vfSpent t)) as Hs.
  all: destruct (update_flags (vfSpent wtxIn) (vfSpent t)) as [vf r]; cbn [fst snd] in *.
  all: split; [split; [by destruct r|intros k; destruct r; apply Hv]|]; split; [by destruct r|].
  all: try done; cbn [orb]; intros ->; rewrite (Hs eq_refl); by destruct t.
Qed.

(** [AddToWallet] before [WalletUpdateSpent]: the new entry, the next position, the file *)
Lemma add_entry v ac wtxIn w : let hash := GetHash (wtx_tx wtxIn) in keys_ok (mapWallet w) → in_step w →
  ∃ t w1, AddToWallet nCoinbaseMaturity mine v ac true wtxIn w =
      (w ← WalletUpdateSpent nCoinbaseMaturity mine v (wtx_tx t) (negb (bu_eq64 (hashBlock (wtx_mt wtxIn)) 0)) w1; Some (true, minting_updated w hash)) ∧
    mapWallet w1 = <[hash := t]> (mapWallet w) ∧ in_step w1 ∧ GetHash (wtx_tx t) = hash ∧
    match mapWallet w !! hash with
    | Some t0 => entry_after t0 t wtxIn ∧ nOrderPos t = nOrderPos t0 ∧ nOrderPosNext w1 = nOrderPosNext w
    | None => wtx_tx t = wtx_tx wtxIn ∧ vfSpent t = vfSpent wtxIn ∧ nOrderPos t = nOrderPosNext w ∧ nOrderPosNext w1 = i64 (nOrderPosNext w + 1)
    end.
Proof.
  intros hash K F. unfold AddToWallet. fold hash. destruct (mapWallet w !! hash) as [t0|] eqn:Eh.
  - pose proof (merge_wtx_ok wtxIn (BindWallet t0)) as Hm. destruct (merge_wtx wtxIn (BindWallet t0)) as [t u] eqn:Em.
    destruct Hm as ([Htx Hf] & Hpos & Hper). rewrite andb_false_r. exists t. eexists. split; [done|].
    assert (Hk : GetHash (wtx_tx t) = hash) by (rewrite Htx; exact (K _ _ Eh)). split; [by destruct u|].
    split; [|split; [done|]; split; [by split|]; split; [done|by destruct u]].
    destruct u; unfold in_step in *; cbn.
    + by rewrite Hk, !fmap_insert, F.
    + rewrite fmap_insert, <- F. rewrite Hper by done. rewrite insert_id; [done|]. rewrite F, lookup_fmap, Eh. done.
  - rewrite andb_false_r. eexists. eexists. split; [cbn [orb]; reflexivity|]. split; [done|]. split; [|done].
    unfold in_step in *. cbn. by rewrite !fmap_insert, F.
Qed.

Lemma AddToWallet_adds v ac wtxIn w : let tx := wtx_tx wtxIn in let hash := GetHash tx in
  keys_ok (mapWallet w) → in_step w →
  (∀ t, mapWallet w !! hash = Some t → wtx_tx t = tx) →
  creditable (mapWallet w) → (∀ f, is_Some (credit_tx mine tx f)) →
  Forall (λ i, 0 <= op_n (prevout i) ∧ op_hash (prevout i) ≠ hash) (vin tx) →
  ∃ w', AddToWallet nCoinbaseMaturity mine v ac true wtxIn w = Some (true, w') ∧ keys_ok (mapWallet w') ∧ in_step w' ∧
    (∀ h, h ≠ hash → option_Forall2 (spend_update (vin tx) h) (mapWallet w !! h) (mapWallet w' !! h)) ∧
    ∃ t', mapWallet w' !! hash = Some t' ∧ wtx_tx t' = tx ∧ ∀ k, (k < length (vout tx))%nat →
      flag t' k = (match mapWallet w !! hash with
                   | Some t => flag t k || (flag wtxIn k && (k <? length (vfSpent t))%nat)
                   | None => flag wtxIn k
                   end && negb (negb (bu_eq64 (hashBlock (wtx_mt wtxIn)) 0) && own_output wtxIn k)).
Proof.
  intros tx hash K F Hsame Cr Ctx Hv. destruct (add_entry v ac wtxIn w K F) as (t & w1 & -> & E1 & F1 & Hk & Ht). change (GetHash (wtx_tx wtxIn)) with hash in E1, Hk, Ht |- *.
  assert (Htx : wtx_tx t = tx). { destruct (mapWallet w !! hash) as [t0|] eqn:Eh; [destruct Ht as [[-> _] _]; by apply Hsame|by destruct Ht]. }
  assert (K1 : keys_ok (mapWallet w1)) by (rewrite E1; apply map_Forall_insert_2; done).
  pose proof (spend_inputs_ok v (vin tx) w1 ltac:(eapply Forall_impl; [exact Hv|]; naive_solver) K1 F1) as Hsp.
  destruct (spend_inputs nCoinbaseMaturity mine v (vin tx) w1) as [w2|] eqn:E2.
  2:{ exfalso. apply Hsp. rewrite E1. apply map_Forall_insert_2; [by rewrite Htx|done]. }
  destruct Hsp as (U2 & F2 & _).
  assert (K2 : keys_ok (mapWallet w2)). { eapply updates_keys; [exact U2| |exact K1]. intros ? ? ? [Hx _]. by rewrite (core_tx _ _ Hx). }
  assert (Hno : ∀ k, spends (vin tx) hash k = false).
  { intros k. apply not_true_is_false. unfold spends. rewrite existsb_exists. intros (i & Hi & Hd%bool_decide_eq_true).
    rewrite Forall_forall in Hv. apply list_elem_of_In, Hv in Hi as [_ Hi]. by rewrite Hd in Hi. }
  pose proof (U2 hash) as Ut. rewrite E1, lookup_insert_eq in Ut. inversion Ut as [? t2 [Hc2 Hf2] Ea Eb|]; subst. symmetry in Eb.
  unfold WalletUpdateSpent. rewrite Htx, E2. cbn [mbind option_bind]. fold hash.
  assert (Hold : ∀ k, flag t k = match mapWallet w !! hash with
    | Some t => flag t k || (flag wtxIn k && (k <? length (vfSpent t))%nat) | None => flag wtxIn k end).
  { intros k. destruct (mapWallet w !! hash) as [t0|]; [destruct Ht as [[_ ->] _]; done|]. destruct Ht as (_ & Hs & _). unfold flag. by rewrite Hs. }
  assert (H2 : ∀ k, (k < length (vout tx))%nat → flag t2 k = flag t k).
  { intros k Hkk. rewrite Hf2, Hno, orb_false_r by (by rewrite Htx). done. }
  assert (Hother : ∀ h, h ≠ hash → option_Forall2 (spend_update (vin tx) h) (mapWallet w !! h) (mapWallet w2 !! h)).
  { intros h Hh. specialize (U2 h). by rewrite E1, lookup_insert_ne in U2 by done. }
  destruct (negb (bu_eq64 (hashBlock (wtx_mt wtxIn)) 0)) eqn:Ebl; cbn [andb negb].
  - destruct (unspend_outputs_ok hash (vout tx) 0 w2 t2) as (w3 & E3 & U3 & F3 & _); [done|by rewrite drop_0, (core_tx _ _ Hc2), Htx|done..|].
    change (Z.of_nat 0) with 0 in E3. rewrite E3. cbn [mbind option_bind]. eexists. split; [done|].
    split; [eapply updates_keys; [exact U3| |exact K2]; intros ? ? ? [Hx _]; by rewrite (core_tx _ _ Hx)|]. split; [exact F3|]. split.
    + intros h Hh. specialize (Hother h Hh). specialize (U3 h). cbn. inversion Hother as [a b [Hc Hf] Ea' Eb'|Ea' Eb']; rewrite <- Eb' in U3; inversion U3 as [? c [Hc3 Hf3] Ec Ed|]; subst; constructor.
      split; [congruence|]. intros k Hkk. rewrite Hf3, Hf by (done || by rewrite (core_tx _ _ Hc)). by rewrite bool_decide_eq_false_2, andb_true_r by done.
    + pose proof (U3 hash) as Uh. rewrite Eb in Uh. inversion Uh as [? t3 [Hc3 Hf3] Ec Ed|]; subst. symmetry in Ed. exists t3. split; [exact Ed|].
      split; [by rewrite (core_tx _ _ Hc3), (core_tx _ _ Hc2)|]. intros k Hkk. rewrite Hf3 by (by rewrite (core_tx _ _ Hc2), Htx).
      rewrite H2, Hold, bool_decide_eq_true_2 by done. cbn [andb Nat.leb]. do 2 f_equal. unfold own_output. by rewrite (core_tx _ _ Hc2), Htx.
  - eexists. split; [done|]. split; [exact K2|]. split; [exact F2|]. split; [exact Hother|]. exists t2. split; [exact Eb|].
    split; [by rewrite (core_tx _ _ Hc2)|]. intros k Hkk. by rewrite andb_true_r, H2, Hold.
Qed.
(** C16. Adding to the wallet.  On a wallet whose transactions are filed under their
    hashes and whose file is in step with memory, [AddToWallet] succeeds and keeps
    both, provided the amounts are in range.  The transaction is there afterwards, with the flags of the copy that was
    there and of the one that came merged; when it comes with a block all its
    outputs of ours are unspent.  Every coin of ours that it spends is marked spent,
    and nothing else of the other transactions changes but their caches. *)
Theorem AddToWallet_spec v ac wtxIn w : let tx := wtx_tx wtxIn in let hash := GetHash tx in
  keys_ok (mapWallet w) → in_step w →
  (∀ t, mapWallet w !! hash = Some t → wtx_tx t = tx) →
  creditable (mapWallet w) → (∀ f, is_Some (credit_tx mine tx f)) →
  Forall (λ i, 0 <= op_n (prevout i) ∧ op_hash (prevout i) ≠ hash) (vin tx) →
  ∃ w', AddToWallet nCoinbaseMaturity mine v ac true wtxIn w = Some (true, w') ∧ keys_ok (mapWallet w') ∧ in_step w' ∧
    (∀ h, h ≠ hash → option_Forall2 (spend_update (vin tx) h) (mapWallet w !! h) (mapWallet w' !! h)) ∧
    ∃ t', mapWallet w' !! hash = Some t' ∧ wtx_tx t' = tx ∧ ∀ k, (k < length (vout tx))%nat →
      flag t' k = (match mapWallet w !! hash with
                   | Some t => flag t k || (flag wtxIn k && (k <? length (vfSpent t))%nat)
                   | None => flag wtxIn k
                   end && negb (negb (bu_eq64 (hashBlock (wtx_mt wtxIn)) 0) && own_output wtxIn k)).
Proof. exact (AddToWallet_adds v ac wtxIn w). Qed.

(** ** The wallet over its life *)

(** Positions are below the next one, and no two transactions have the same *)
Definition positions_ok (M : WalletMap) (next : Z) : Prop :=
  map_Forall (λ _ t, nOrderPos t < next) M ∧ ∀ h1 h2 t1 t2, M !! h1 = Some t1 → M !! h2 = Some t2 → nOrderPos t1 = nOrderPos t2 → h1 = h2.
Record wallet_ok (w : Wallet) : Prop := {
  wallet_keys : keys_ok (mapWallet w);
  wallet_positions : positions_ok (mapWallet w) (nOrderPosNext w);
  wallet_in_step : in_step w
}.

(** Changes that keep every transaction and its position keep the rest *)
Definition same_place (_ : base_uint) (t t' : CWalletTx) : Prop := wtx_tx t' = wtx_tx t ∧ nOrderPos t' = nOrderPos t.
Lemma updates_impl (P Q : base_uint → CWalletTx → CWalletTx → Prop) M M' : (∀ h t t', P h t t' → Q h t t') → updates P M M' → updates Q M M'.
Proof. intros H U h. specialize (U h). inversion U; constructor; auto. Qed.
Lemma core_place h t t' : core_of t' = core_of t → same_place h t t'.
Proof. intros H. split; [by rewrite (core_tx _ _ H)|]. exact (f_equal nOrderPos H). Qed.
Lemma updates_lookup P M M' h t' : updates P M M' → M' !! h = Some t' → ∃ t, M !! h = Some t ∧ P h t t'.
Proof. intros U E. specialize (U h). rewrite E in U. inversion U; subst. eauto. Qed.
Lemma places_ok M M' next : updates same_place M M' → keys_ok M ∧ positions_ok M next → keys_ok M' ∧ positions_ok M' next.
Proof.
  intros U (K & P1 & P2). split; [|split].
  - eapply updates_keys; [exact U| |exact K]. by intros ? ? ? [].
  - intros h t' E. destruct (updates_lookup _ _ _ _ _ U E) as (t & Et & _ & ->). by apply (P1 _ _ Et).
  - intros h1 h2 t1 t2 E1 E2 Ep. destruct (updates_lookup _ _ _ _ _ U E1) as (u1 & F1 & _ & G1), (updates_lookup _ _ _ _ _ U E2) as (u2 & F2 & _ & G2).
    eapply P2; [exact F1|exact F2|congruence].
Qed.
Lemma positions_delete M next h : positions_ok M next → positions_ok (delete h M) next.
Proof.
  intros [P1 P2]. split; [by apply map_Forall_delete|]. intros h1 h2 t1 t2 E1%lookup_delete_Some E2%lookup_delete_Some.
  eapply P2; [apply E1|apply E2].
Qed.
Lemma erase_ok h w : wallet_ok w → wallet_ok (EraseFromWallet h w).
Proof.
  intros [K P F]. unfold EraseFromWallet. destruct (mapWallet w !! h); [|done]. split; cbn.
  - by apply map_Forall_delete.
  - by apply positions_delete.
  - unfold in_step in *. cbn. by rewrite !fmap_delete, F.
Qed.
Lemma WalletUpdateSpent_ok v tx b w w' : Forall (λ i, 0 <= op_n (prevout i)) (vin tx) → (b = true → ∃ t, mapWallet w !! GetHash tx = Some t ∧ wtx_tx t = tx) →
  wallet_ok w → WalletUpdateSpent nCoinbaseMaturity mine v tx b w = Some w' → wallet_ok w' ∧ nOrderPosNext w' = nOrderPosNext w.
Proof.
  intros Hn Hb [K P F]. unfold WalletUpdateSpent. pose proof (spend_inputs_ok v (vin tx) w Hn K F) as Hsp.
  destruct (spend_inputs nCoinbaseMaturity mine v (vin tx) w) as [w2|]; [|done]. destruct Hsp as (U2 & F2 & O2). cbn [mbind option_bind].
  assert (U : updates same_place (mapWallet w) (mapWallet w2)). { eapply updates_impl; [|exact U2]. intros h t t' [Hc _]. by apply core_place. }
  destruct (places_ok _ _ _ U (conj K P)) as [K2 P2]. destruct b; [|intros [= <-]; split; [split; [done|by rewrite O2|done]|done]].
  destruct (Hb eq_refl) as (t & Et & Etx). pose proof (U2 (GetHash tx)) as Uh. rewrite Et in Uh. inversion Uh as [? t2 [Hc _] E0 E3|]; subst. symmetry in E3.
  destruct (unspend_outputs_ok (GetHash (wtx_tx t)) (vout (wtx_tx t)) 0 w2 t2) as (w3 & E4 & U3 & F3 & O3); [done|by rewrite drop_0, (core_tx _ _ Hc)|done..|].
  change (Z.of_nat 0) with 0 in E4. rewrite E4. intros [= <-].
  destruct (places_ok (mapWallet w2) (mapWallet w3) (nOrderPosNext w)) as [K3 P3].
  { eapply updates_impl; [|exact U3]. intros h t0 t' [Hc' _]. by apply core_place. }
  { done. }
  split; [|congruence]. split; [done|by rewrite O3, O2|done].
Qed.

Lemma persist_place h t t' : persist t' = persist t → same_place h t t'.
Proof. intros H. split; [exact (f_equal (λ t, wtx_tx t) H)|exact (f_equal nOrderPos H)]. Qed.
Context (nMinimumInputValue : Z) (fConfChange : bool) (scrypt_blockhash : list Z → base_uint).

Lemma available_keeps get set f v b : keeps (available_credit nCoinbaseMaturity mine get set f v b).
Proof.
  intros t n t'. unfold available_credit. pose proof (immature_persist v t) as Hi. destruct (still_immature nCoinbaseMaturity v t) as [[] t1]; cbn [snd] in Hi.
  - by intros [= <- <-].
  - intros H%cached_keeps. by destruct b; rewrite H.
Qed.
Lemma immature_keeps get set f v b : keeps (immature_credit nCoinbaseMaturity mine get set f v b).
Proof.
  intros t n t'. unfold immature_credit, immature_coinbase. destruct (IsCoinBase (wtx_tx t)); [|by intros [= <- <-]].
  pose proof (maturity_persist v t) as Hm. destruct (wtx_maturity nCoinbaseMaturity v t) as [m t1]. cbn [snd] in Hm.
  destruct (0 <? m); [|by intros [= <- <-]]. pose proof (depth_persist v t1) as Hd. destruct (wtx_depth v t1) as [d t2]. cbn [snd] in Hd.
  destruct (0 <? d); [|intros [= <- <-]; congruence]. intros H%cached_keeps. destruct b; rewrite H, ?persist_caches; congruence.
Qed.
Lemma debit_keeps M f : keeps (wtx_GetDebit mine M f).
Proof.
  intros t n t'. unfold wtx_GetDebit. case_bool_decide; [by intros [= <- <-]|]. unfold add_if. cbn [snd fst].
  intros (st & H1 & H2)%bind_Some.
  assert (persist st.2 = persist t) as E1.
  { destruct (has_bit f SPENDABLE); [|by injection H1 as <-]. apply bind_Some in H1 as ([x t1] & H1 & [= <-]). by apply cached_keeps in H1. }
  destruct (has_bit f WATCH_ONLY); [|injection H2 as ->; exact E1]. apply bind_Some in H2 as ([x t1] & H2 & [= <- <-]). apply cached_keeps in H2. congruence.
Qed.
Lemma trusted_keeps v M : keeps (IsTrusted fConfChange mine v M).
Proof.
  intros t n t'. unfold IsTrusted. destruct (negb _); [by intros [= <- <-]|]. pose proof (depth_persist v t) as Hd. destruct (wtx_depth v t) as [d t1]. cbn [snd] in Hd.
  destruct (1 <=? d); [by intros [= <- <-]|]. destruct (d <? 0); [by intros [= <- <-]|]. destruct (negb fConfChange); [by intros [= <- <-]|].
  intros ([b t2] & H & Hr)%bind_Some. unfold wtx_IsFromMe in H. apply bind_Some in H as ([x t3] & H%debit_keeps & [= <- <-]).
  destruct (negb _); [injection Hr as <- <-; congruence|]. destruct (negb _); [injection Hr as <- <-; congruence|].
  apply bind_Some in Hr as (? & _ & [= <- <-]). congruence.
Qed.
Lemma if_trusted_keeps v want q M : keeps q → keeps (if_trusted fConfChange mine v want q M).
Proof.
  intros Hq t n t' ([b t1] & H1%trusted_keeps & H2)%bind_Some. destruct (eqb b want); [apply Hq in H2; congruence|injection H2 as <- <-; done].
Qed.
Lemma unconfirmed_keeps v q M : keeps q → keeps (unconfirmed fConfChange mine v q M).
Proof. intros Hq t n t'. unfold unconfirmed. destruct (negb _); [apply Hq|by apply if_trusted_keeps]. Qed.
Lemma minting_keeps kind f v M : keeps (minting nCoinbaseMaturity mine kind f v M).
Proof.
  intros t n t'. unfold minting. destruct (kind _); [|by intros [= <- <-]].
  pose proof (maturity_persist v t) as Hm. destruct (wtx_maturity nCoinbaseMaturity v t) as [m t1]. cbn [snd] in Hm.
  destruct (0 <? m); [|by intros [= <- <-]]. pose proof (depth_persist v t1) as Hd. destruct (wtx_depth v t1) as [d t2]. cbn [snd] in Hd.
  destruct (0 <? d); [|intros [= <- <-]; congruence]. intros (? & _ & [= <- <-])%bind_Some. congruence.
Qed.
Lemma total_persist q keys : (∀ M, keeps (q M)) → ∀ n M n' M', total_loop q keys n M = Some (n', M') → persist <$> M' = persist <$> M.
Proof.
  intros Hq. induction keys as [|h keys IH]; intros n M n' M'; [by intros [= <- <-]|]. cbn [total_loop].
  destruct (M !! h) as [t|] eqn:E; [|by apply IH]. intros ([x t1] & H & Hr)%bind_Some. apply Hq in H. apply IH in Hr. rewrite Hr, fmap_insert, H.
  apply insert_id. by rewrite lookup_fmap, E.
Qed.
(** The balances the wallet can be asked for *)
Inductive balance_query (v : NodeView) : (WalletMap → option (Z * WalletMap)) → Prop :=
| BalanceQ : balance_query v (GetBalance nCoinbaseMaturity fConfChange mine v)
| WatchOnlyBalanceQ : balance_query v (GetWatchOnlyBalance nCoinbaseMaturity fConfChange mine v)
| UnconfirmedQ : balance_query v (GetUnconfirmedBalance nCoinbaseMaturity fConfChange mine v)
| UnconfirmedWatchOnlyQ : balance_query v (GetUnconfirmedWatchOnlyBalance nCoinbaseMaturity fConfChange mine v)
| ImmatureQ : balance_query v (GetImmatureBalance nCoinbaseMaturity mine v)
| ImmatureWatchOnlyQ : balance_query v (GetImmatureWatchOnlyBalance nCoinbaseMaturity mine v)
| StakeQ : balance_query v (GetStake nCoinbaseMaturity mine v)
| WatchOnlyStakeQ : balance_query v (GetWatchOnlyStake nCoinbaseMaturity mine v)
| NewMintQ : balance_query v (GetNewMint nCoinbaseMaturity mine v)
| WatchOnlyNewMintQ : balance_query v (GetWatchOnlyNewMint nCoinbaseMaturity mine v).
Lemma balance_persist v q M n M' : balance_query v q → q M = Some (n, M') → persist <$> M' = persist <$> M.
Proof.
  intros [] H; (eapply total_persist; [|exact H]); intros; auto using if_trusted_keeps, unconfirmed_keeps, minting_keeps, available_keeps, immature_keeps.
  all: first [apply if_trusted_keeps, available_keeps|apply unconfirmed_keeps, available_keeps|apply immature_keeps].
Qed.

Lemma AddToWallet_ok v ac wtxIn w r w' : Forall (λ i, 0 <= op_n (prevout i)) (vin (wtx_tx wtxIn)) →
  (∀ t, mapWallet w !! GetHash (wtx_tx wtxIn) = Some t → wtx_tx t = wtx_tx wtxIn) → 0 <= nOrderPosNext w < 2 ^ 63 - 1 →
  wallet_ok w → AddToWallet nCoinbaseMaturity mine v ac true wtxIn w = Some (r, w') → wallet_ok w' ∧ 0 <= nOrderPosNext w'.
Proof.
  intros Hn Hsame Hpos [K [P1 P2] F]. destruct (add_entry v ac wtxIn w K F) as (t & w1 & -> & E1 & F1 & Hk & Ht).
  set (hash := GetHash (wtx_tx wtxIn)) in *. intros (w2 & H2 & [= <- <-])%bind_Some.
  assert (Htx : wtx_tx t = wtx_tx wtxIn).
  { destruct (mapWallet w !! hash) as [t0|] eqn:Eh; [destruct Ht as [[-> _] _]; by apply Hsame|by destruct Ht]. }
  assert (W1 : wallet_ok w1).
  { split; [rewrite E1; by apply map_Forall_insert_2| |done]. rewrite E1. destruct (mapWallet w !! hash) as [t0|] eqn:Eh.
    - destruct Ht as ([_ _] & Hp & ->). eapply (places_ok (mapWallet w)); [|done]. apply updates_insert with (t := t0); [done|split; [|done]|done].
      by rewrite Htx, (Hsame _ eq_refl).
    - destruct Ht as (_ & _ & Hp & ->). rewrite i64_small by lia. split.
      + apply map_Forall_insert_2; [lia|]. intros h t0 E0. specialize (P1 _ _ E0). cbn in P1. lia.
      + intros h1 h2 t1 t2. rewrite !lookup_insert_Some. intros [[<- <-]|[N1 F3]] [[<- <-]|[N2 F4]] He; try done.
        * specialize (P1 _ _ F4). cbn in P1. lia.
        * specialize (P1 _ _ F3). cbn in P1. lia.
        * by eapply P2. }
  assert (0 <= nOrderPosNext w1).
  { destruct (mapWallet w !! hash); [destruct Ht as (_ & _ & ->); lia|]. destruct Ht as (_ & _ & _ & ->). rewrite i64_small; lia. }
  apply WalletUpdateSpent_ok in H2 as [[K2 P2' F2] O2]; [split; [by split|by rewrite <- O2 in H]|by rewrite Htx| |done].
  intros _. exists t. split; [|done]. rewrite Hk, E1. by rewrite lookup_insert_eq.
Qed.
Lemma unspend_inputs_ok vin : ∀ w w', wallet_ok w → unspend_inputs mine vin w = Some w' → wallet_ok w' ∧ nOrderPosNext w' = nOrderPosNext w.
Proof.
  induction vin as [|i vin IH]; intros w w' H; [by intros [= <-]|]. cbn [unspend_inputs]. destruct (mapWallet w !! _) as [t|] eqn:E; [|by apply IH].
  destruct (vout (wtx_tx t) !! _) as [out|] eqn:Eo; [|by apply IH]. case_bool_decide; [by apply IH|].
  intros (t' & Hm & Hr)%bind_Some. eapply (IH (wtx_WriteToDisk (with_wallet_map w (<[op_hash (prevout i) := t']> (mapWallet w))) t')); [|exact Hr]. destruct H as [K P F].
  assert (Hc : core_of t' = core_of t).
  { unfold MarkUnspent, set_spent_flag in Hm. destruct (_ <=? _); [done|]. destruct (eqb _ _); by injection Hm as <-. }
  destruct (places_ok (mapWallet w) (<[op_hash (prevout i) := t']> (mapWallet w)) (nOrderPosNext w)) as [K' P']; [|done|].
  { apply updates_insert with (t := t); [done|by apply core_place|done]. }
  split; [done..|]. unfold in_step in *. cbn. rewrite (core_tx _ _ Hc), (K _ _ E). by rewrite !fmap_insert, F.
Qed.
Lemma persist_map_ok w M' : wallet_ok w → persist <$> M' = persist <$> mapWallet w → wallet_ok (with_wallet_map w M').
Proof.
  intros [K P F] E. destruct (places_ok (mapWallet w) M' (nOrderPosNext w)) as [K' P']; [|done|].
  - intros h. apply (f_equal (lookup h)) in E. rewrite !lookup_fmap in E. destruct (M' !! h), (mapWallet w !! h); try done; constructor.
    apply (inj Some) in E. by apply persist_place.
  - split; [done..|]. unfold in_step in *. cbn. congruence.
Qed.
Lemma clear_ok v w : wallet_ok w → wallet_ok (ClearOrphans v w).
Proof.
  intros H. unfold ClearOrphans. assert (W : wallet_ok (with_wallet_map w ((λ t, if generated t then (wtx_depth v t).2 else t) <$> mapWallet w))).
  { apply persist_map_ok; [done|]. rewrite <- map_fmap_compose. apply map_fmap_ext. intros h t _. cbn. destruct (generated t); [apply depth_persist|done]. }
  revert W. generalize (with_wallet_map w ((λ t, if generated t then (wtx_depth v t).2 else t) <$> mapWallet w)). intros w1. generalize (map fst (filter (λ e : base_uint * CWalletTx, orphaned v e.2 = true) (id_order (mapWallet w1)))).
  intros l. revert w1. induction l as [|h l IH]; intros w1 W; [done|]. cbn. by apply IH, erase_ok.
Qed.

(** What happens to a wallet: transactions that the node tells it of, transactions of
    its own, removals, a stake that is disconnected, and queries *)
Definition sound_tx (w : Wallet) (tx : CTransaction) : Prop :=
  Forall (λ i, 0 <= op_n (prevout i)) (vin tx) ∧ (∀ t, mapWallet w !! GetHash tx = Some t → wtx_tx t = tx).
Inductive wallet_step (w : Wallet) : Wallet → Prop :=
| StepAdd v ac wtxIn r w' : sound_tx w (wtx_tx wtxIn) → nOrderPosNext w < 2 ^ 63 - 1 →
    AddToWallet nCoinbaseMaturity mine v ac true wtxIn w = Some (r, w') → wallet_step w w'
| StepInvolving v block_of_tx ac tx pblock fUpdate r w' : sound_tx w tx → nOrderPosNext w < 2 ^ 63 - 1 →
    AddToWalletIfInvolvingMe nCoinbaseMaturity nMinimumInputValue scrypt_blockhash mine v block_of_tx ac true tx pblock fUpdate w = Some (r, w') → wallet_step w w'
| StepErase h : wallet_step w (EraseFromWallet h w)
| StepDisable tx w' : DisableTransaction mine tx w = Some w' → wallet_step w w'
| StepClear v : wallet_step w (ClearOrphans v w)
| StepDirty : wallet_step w (wallet_MarkDirty w)
| StepBalance v q n M' : balance_query v q → q (mapWallet w) = Some (n, M') → wallet_step w (with_wallet_map w M').
Definition empty_wallet : Wallet := mkWallet ∅ ∅ 0 ∅ [].

Lemma erase_next h w : nOrderPosNext (EraseFromWallet h w) = nOrderPosNext w.
Proof. unfold EraseFromWallet. by destruct (mapWallet w !! h). Qed.
Lemma clear_next v w : nOrderPosNext (ClearOrphans v w) = nOrderPosNext w.
Proof.
  unfold ClearOrphans. transitivity (nOrderPosNext (with_wallet_map w ((λ t, if generated t then (wtx_depth v t).2 else t) <$> mapWallet w))); [|done].
  generalize (with_wallet_map w ((λ t, if generated t then (wtx_depth v t).2 else t) <$> mapWallet w)). intros w1.
  generalize (map fst (filter (λ e : base_uint * CWalletTx, orphaned v e.2 = true) (id_order (mapWallet w1)))). intros l.
  revert w1. induction l as [|h l IH]; intros w1; [done|]. cbn. by rewrite IH, erase_next.
Qed.
Lemma branch_tx v bt m pb : mt_tx (SetMerkleBranch scrypt_blockhash v bt m pb).1 = mt_tx m.
Proof.
  unfold SetMerkleBranch. destruct (match pb with Some b => Some b | None => _ end) as [b|]; [|done].
  destruct (list_find _ _) as [[n ?]|]; [|done]. destruct (_ !! _); [|done]. by destruct (negb _).
Qed.
Lemma wallet_step_ok w w' : wallet_ok w → 0 <= nOrderPosNext w → wallet_step w w' → wallet_ok w' ∧ 0 <= nOrderPosNext w'.
Proof.
  intros W N [v ac wtxIn r w1 [Hn Hs] Hlt H|v bt ac tx pb fu r w1 [Hn Hs] Hlt H|h|tx w1 H|v| |v q n M' Hq H].
  - eapply (AddToWallet_ok v ac wtxIn); eauto.
  - unfold AddToWalletIfInvolvingMe in H. destruct (_ && negb fu); [by injection H as <- <-|]. apply bind_Some in H as (b & _ & H). destruct b.
    + destruct pb as [b|]; apply AddToWallet_ok in H; cbn [wtx_mt with_mt CWalletTx_of]; rewrite ?branch_tx; done.
    + apply bind_Some in H as (w2 & H & [= <- <-]). apply WalletUpdateSpent_ok in H as [? ->]; done.
  - rewrite erase_next. split; [by apply erase_ok|done].
  - unfold DisableTransaction in H. destruct (negb _); [by injection H as <-|]. apply bind_Some in H as (b & _ & H). destruct b; cbn [negb] in H; [|by injection H as <-].
    apply unspend_inputs_ok in H as [? ->]; done.
  - rewrite clear_next. split; [by apply clear_ok|done].
  - split; [|done]. apply persist_map_ok; [done|]. rewrite <- map_fmap_compose. by apply map_fmap_ext.
  - split; [|done]. apply persist_map_ok; [done|]. by eapply balance_persist.
Qed.
(** C17. The wallet over its life.  Starting with an empty wallet, whatever transactions
    are added, updated, erased or disabled, whatever balances are asked for, in any
    order: every transaction is filed under its hash, order positions are distinct
    and below the next one, and the wallet file holds exactly what memory holds but
    for the caches. *)
Theorem wallet_consistent w : rtc wallet_step empty_wallet w → wallet_ok w.
Proof.
  intros H. cut (wallet_ok w ∧ 0 <= nOrderPosNext w); [by intros []|]. revert w H.
  apply (rtc_ind_r (λ w, wallet_ok w ∧ 0 <= nOrderPosNext w)); [split; [split|]; done|].
  intros w w' _ S [W N]. by eapply wallet_step_ok.
Qed.

(** ** The caches *)

Section caches.
Context (M : WalletMap) (is_change : CTxOut → bool).

(** A cache that is filled holds what would be computed now *)
Record coherent (t : CWalletTx) : Prop := {
  coh_debit n : nDebitCached (caches t) = Some n → debit_tx mine M (wtx_tx t) SPENDABLE = Some n;
  coh_watch_debit n : nWatchDebitCached (caches t) = Some n → debit_tx mine M (wtx_tx t) WATCH_ONLY = Some n;
  coh_credit n : nCreditCached (caches t) = Some n → credit_tx mine (wtx_tx t) SPENDABLE = Some n;
  coh_watch_credit n : nWatchCreditCached (caches t) = Some n → credit_tx mine (wtx_tx t) WATCH_ONLY = Some n;
  coh_available n : nAvailableCreditCached (caches t) = Some n → checked_sum (unspent_credits mine SPENDABLE t) 0 = Some n;
  coh_available_watch n : nAvailableWatchCreditCached (caches t) = Some n → checked_sum (unspent_credits mine WATCH_ONLY t) 0 = Some n;
  coh_immature n : nImmatureCreditCached (caches t) = Some n → credit_tx mine (wtx_tx t) SPENDABLE = Some n;
  coh_immature_watch n : nImmatureWatchCreditCached (caches t) = Some n → credit_tx mine (wtx_tx t) WATCH_ONLY = Some n;
  coh_change n : nChangeCached (caches t) = Some n → change_tx is_change (wtx_tx t) = Some n
}.
Definition uncached (t : CWalletTx) : CWalletTx := with_caches t no_caches.

(** The queries: what each answers is what it answers when no cache is filled *)
Inductive wtx_query (v : NodeView) : (CWalletTx → option (Z * CWalletTx)) → Prop :=
| DebitQ f : wtx_query v (wtx_GetDebit mine M f)
| CreditQ f : wtx_query v (wtx_GetCredit nCoinbaseMaturity mine v f)
| ImmatureCreditQ b : wtx_query v (GetImmatureCredit nCoinbaseMaturity mine v b)
| ImmatureWatchCreditQ b : wtx_query v (GetImmatureWatchOnlyCredit nCoinbaseMaturity mine v b)
| AvailableCreditQ b : wtx_query v (GetAvailableCredit nCoinbaseMaturity mine v b)
| AvailableWatchCreditQ b : wtx_query v (GetAvailableWatchCredit nCoinbaseMaturity mine v b)
| ChangeQ : wtx_query v (GetChange is_change).

(** [t'] is [t] with a cache filled rightly or [fMerkleVerified] set *)
Lemma coherent_mt t m : mt_tx m = wtx_tx t → coherent t → coherent (with_mt t m).
Proof.
  intros E [H1 H2 H3 H4 H5 H6 H7 H8 H9].
  assert (∀ f, unspent_credits mine f (with_mt t m) = unspent_credits mine f t) as Eu.
  { intros f. unfold unspent_credits, IsSpent. cbn. by rewrite E. }
  split; intros n; cbn; rewrite ?E, ?Eu; eauto.
Qed.
Lemma depth_tx v m : mt_tx (GetDepthInMainChain v m).2 = mt_tx m.
Proof.
  unfold GetDepthInMainChain. destruct (_ || _); [done|]. destruct (_ !! _); [|done]. destruct (negb _); [done|]. destruct (fMerkleVerified m); [done|].
  by destruct (bu_ne _ _).
Qed.
Lemma maturity_tx v m : mt_tx (GetBlocksToMaturity nCoinbaseMaturity v m).2 = mt_tx m.
Proof. unfold GetBlocksToMaturity. destruct (negb _); [done|]. pose proof (depth_tx v m). by destruct (GetDepthInMainChain v m). Qed.

(** Two coherent copies of a transaction, which differ in the caches at most *)
Definition alike (t1 t2 : CWalletTx) : Prop := coherent t1 ∧ coherent t2 ∧ uncached t1 = uncached t2.
Lemma uncached_mt t1 t2 : uncached t1 = uncached t2 → wtx_mt t1 = wtx_mt t2.
Proof. intros U. exact (f_equal wtx_mt U). Qed.
Lemma alike_mt t1 t2 m : mt_tx m = wtx_tx t1 → alike t1 t2 → alike (with_mt t1 m) (with_mt t2 m).
Proof.
  intros E (C1 & C2 & U). split; [by apply coherent_mt|]. split; [apply coherent_mt; [by rewrite <- (uncached_mt _ _ U)|done]|].
  exact (f_equal (λ t, with_mt t m) U).
Qed.
(** A condition on the chain does not look at the caches *)
Definition chain_test (test : CWalletTx → bool * CWalletTx) : Prop :=
  ∀ t1 t2, alike t1 t2 → (test t1).1 = (test t2).1 ∧ alike (test t1).2 (test t2).2.
Lemma maturity_alike v t1 t2 : alike t1 t2 →
  (wtx_maturity nCoinbaseMaturity v t1).1 = (wtx_maturity nCoinbaseMaturity v t2).1 ∧ alike (wtx_maturity nCoinbaseMaturity v t1).2 (wtx_maturity nCoinbaseMaturity v t2).2.
Proof.
  intros A. pose proof A as (_ & _ & U). unfold wtx_maturity. rewrite <- (uncached_mt _ _ U). pose proof (maturity_tx v (wtx_mt t1)) as E.
  destruct (GetBlocksToMaturity nCoinbaseMaturity v (wtx_mt t1)) as [d m]. split; [done|]. by apply alike_mt.
Qed.
Lemma depth_alike v t1 t2 : alike t1 t2 → (wtx_depth v t1).1 = (wtx_depth v t2).1 ∧ alike (wtx_depth v t1).2 (wtx_depth v t2).2.
Proof.
  intros A. pose proof A as (_ & _ & U). unfold wtx_depth. rewrite <- (uncached_mt _ _ U). pose proof (depth_tx v (wtx_mt t1)) as E.
  destruct (GetDepthInMainChain v (wtx_mt t1)) as [d m]. split; [done|]. by apply alike_mt.
Qed.
Lemma still_immature_test v : chain_test (still_immature nCoinbaseMaturity v).
Proof.
  intros t1 t2 A. pose proof A as (_ & _ & U). unfold still_immature, generated. rewrite <- (uncached_mt _ _ U). destruct (_ || _); [|done].
  destruct (maturity_alike v t1 t2 A) as [E A']. destruct (wtx_maturity _ v t1), (wtx_maturity _ v t2). cbn in *. by rewrite E.
Qed.
Lemma immature_coinbase_test v : chain_test (immature_coinbase nCoinbaseMaturity v).
Proof.
  intros t1 t2 A. pose proof A as (_ & _ & U). unfold immature_coinbase. rewrite <- (uncached_mt _ _ U). destruct (IsCoinBase _); [|done].
  destruct (maturity_alike v t1 t2 A) as [E A']. destruct (wtx_maturity _ v t1) as [d u1], (wtx_maturity _ v t2) as [? u2]. cbn [fst snd] in *. subst.
  destruct (0 <? _); [|done]. destruct (depth_alike v u1 u2 A') as [E A2]. destruct (wtx_depth v u1), (wtx_depth v u2). cbn in *. by rewrite E.
Qed.

(** A query whose answer does not depend on which caches are filled *)
Definition exact_query (q : CWalletTx → option (Z * CWalletTx)) : Prop :=
  ∀ t1 t2, alike t1 t2 →
    match q t1, q t2 with
    | Some (n1, u1), Some (n2, u2) => n1 = n2 ∧ alike u1 u2
    | None, None => True
    | _, _ => False
    end.
Record cache_field (get : Caches → option Z) (set : Caches → option Z → Caches) (compute : CWalletTx → option Z) : Prop := {
  field_get t n : coherent t → get (caches t) = Some n → compute t = Some n;
  field_set t n : coherent t → compute t = Some n → coherent (with_caches t (set (caches t) (Some n)));
  field_reset t : coherent t → coherent (with_caches t (set (caches t) None));
  field_compute t1 t2 : uncached t1 = uncached t2 → compute t1 = compute t2
}.
Lemma cached_exact get set compute : cache_field get set compute → exact_query (λ t, cached get set (compute t) t).
Proof.
  intros [Hg Hs _ Hc] t1 t2 (C1 & C2 & U). unfold cached. specialize (Hc _ _ U).
  destruct (get (caches t1)) as [n1|] eqn:E1, (get (caches t2)) as [n2|] eqn:E2.
  - apply Hg in E1; [|done]. apply Hg in E2; [|done]. split; [congruence|done].
  - apply Hg in E1; [|done]. rewrite <- Hc, E1. cbn. split; [done|]. split; [done|]. split; [apply Hs; [done|congruence]|done].
  - apply Hg in E2; [|done]. rewrite Hc, E2. cbn. split; [done|]. split; [apply Hs; [done|congruence]|done].
  - rewrite <- Hc. destruct (compute t1) as [n|] eqn:E; [|done]. cbn. split; [done|]. split; [by apply Hs|]. split; [apply Hs; [done|congruence]|done].
Qed.
Lemma add_if_exact b q n t1 t2 : exact_query q → alike t1 t2 →
  match add_if b q (n, t1), add_if b q (n, t2) with
  | Some (n1, u1), Some (n2, u2) => n1 = n2 ∧ alike u1 u2
  | None, None => True
  | _, _ => False
  end.
Proof.
  intros Hq A. unfold add_if. cbn [fst snd]. destruct b; [|done]. specialize (Hq t1 t2 A).
  destruct (q t1) as [[n1 u1]|], (q t2) as [[n2 u2]|]; try done. cbn. destruct Hq as [-> ?]. done.
Qed.
(** Two cached terms, one after the other *)
Lemma two_terms_exact b1 b2 q1 q2 t1 t2 : exact_query q1 → exact_query q2 → alike t1 t2 →
  match add_if b1 q1 (0, t1) ≫= add_if b2 q2, add_if b1 q1 (0, t2) ≫= add_if b2 q2 with
  | Some (n1, u1), Some (n2, u2) => n1 = n2 ∧ alike u1 u2
  | None, None => True
  | _, _ => False
  end.
Proof.
  intros H1 H2 A. pose proof (add_if_exact b1 q1 0 t1 t2 H1 A) as H. destruct (add_if b1 q1 (0, t1)) as [[n1 u1]|], (add_if b1 q1 (0, t2)) as [[n2 u2]|]; try done.
  destruct H as [-> A']. cbn [mbind option_bind]. by apply add_if_exact.
Qed.

Ltac cache_field := split; [intros t n C; apply C|intros t n [] E|intros t []|intros t1 t2 U; unfold unspent_credits, IsSpent;
  rewrite ?(uncached_mt _ _ U), ?(f_equal vfSpent U : vfSpent t1 = vfSpent t2); done];
  (split; intros k; cbn; first [done|by eauto|intros [= <-]; assumption]).
Lemma debit_field : cache_field nDebitCached set_debit (λ t, debit_tx mine M (wtx_tx t) SPENDABLE).
Proof. cache_field. Qed.
Lemma watch_debit_field : cache_field nWatchDebitCached set_watch_debit (λ t, debit_tx mine M (wtx_tx t) WATCH_ONLY).
Proof. cache_field. Qed.
Lemma credit_field : cache_field nCreditCached set_credit (λ t, credit_tx mine (wtx_tx t) SPENDABLE).
Proof. cache_field. Qed.
Lemma watch_credit_field : cache_field nWatchCreditCached set_watch_credit (λ t, credit_tx mine (wtx_tx t) WATCH_ONLY).
Proof. cache_field. Qed.
Lemma available_field : cache_field nAvailableCreditCached set_available (λ t, checked_sum (unspent_credits mine SPENDABLE t) 0).
Proof. cache_field. Qed.
Lemma available_watch_field : cache_field nAvailableWatchCreditCached set_available_watch (λ t, checked_sum (unspent_credits mine WATCH_ONLY t) 0).
Proof. cache_field. Qed.
Lemma immature_field : cache_field nImmatureCreditCached set_immature (λ t, credit_tx mine (wtx_tx t) SPENDABLE).
Proof. cache_field. Qed.
Lemma immature_watch_field : cache_field nImmatureWatchCreditCached set_immature_watch (λ t, credit_tx mine (wtx_tx t) WATCH_ONLY).
Proof. cache_field. Qed.
Lemma change_field : cache_field nChangeCached set_change (λ t, change_tx is_change (wtx_tx t)).
Proof. cache_field. Qed.

Lemma reset_alike get set compute (b : bool) t1 t2 : cache_field get set compute → alike t1 t2 →
  alike (if b then t1 else with_caches t1 (set (caches t1) None)) (if b then t2 else with_caches t2 (set (caches t2) None)).
Proof. intros F (C1 & C2 & U). destruct b; [done|]. split; [by apply (field_reset _ _ _ F)|]. split; [by apply (field_reset _ _ _ F)|done]. Qed.
Lemma available_exact get set f v b : cache_field get set (λ t, checked_sum (unspent_credits mine f t) 0) →
  exact_query (available_credit nCoinbaseMaturity mine get set f v b).
Proof.
  intros F t1 t2 A. unfold available_credit. destruct (still_immature_test v t1 t2 A) as [E A'].
  destruct (still_immature _ v t1) as [i u1], (still_immature _ v t2) as [j u2]. cbn [fst snd] in *. subst j. destruct i; [by split|].
  apply (cached_exact _ _ _ F). by apply (reset_alike _ _ _ b _ _ F).
Qed.
Lemma immature_exact get set f v b : cache_field get set (λ t, credit_tx mine (wtx_tx t) f) →
  exact_query (immature_credit nCoinbaseMaturity mine get set f v b).
Proof.
  intros F t1 t2 A. unfold immature_credit. destruct (immature_coinbase_test v t1 t2 A) as [E A'].
  destruct (immature_coinbase _ v t1) as [i u1], (immature_coinbase _ v t2) as [j u2]. cbn [fst snd] in *. subst j. destruct i; [|by split].
  apply (cached_exact _ _ _ F). by apply (reset_alike _ _ _ b _ _ F).
Qed.
Lemma query_exact v q : wtx_query v q → exact_query q.
Proof.
  intros [f|f|b|b|b|b|]; [| |by apply immature_exact, immature_field|by apply immature_exact, immature_watch_field|
    by apply available_exact, available_field|by apply available_exact, available_watch_field|exact (cached_exact _ _ _ change_field)].
  - intros t1 t2 A. pose proof A as (_ & _ & U). unfold wtx_GetDebit. rewrite <- (uncached_mt _ _ U). case_bool_decide; [by split|].
    apply two_terms_exact; [exact (cached_exact _ _ _ debit_field)|exact (cached_exact _ _ _ watch_debit_field)|done].
  - intros t1 t2 A. unfold wtx_GetCredit. destruct (still_immature_test v t1 t2 A) as [E A'].
    destruct (still_immature _ v t1) as [i u1], (still_immature _ v t2) as [j u2]. cbn [fst snd] in *. subst j. destruct i; [by split|].
    apply two_terms_exact; [exact (cached_exact _ _ _ credit_field)|exact (cached_exact _ _ _ watch_credit_field)|done].
Qed.

(** The operations on the flags drop the two caches that depend on them *)
Lemma coherent_flags t vf : coherent t → coherent (forget_available (with_spent t vf)).
Proof. intros []. split; intros n; cbn; done || eauto. Qed.
Lemma resized_credits f t : unspent_credits mine f (with_spent t (resized t)) = unspent_credits mine f t.
Proof.
  unfold unspent_credits. apply list_omap_ext. apply Forall_Forall2_diag, Forall_forall. intros [i o] Hi.
  apply elem_of_lookup_imap in Hi as (k & o' & [= -> ->] & Ho). apply lookup_lt_Some in Ho.
  rewrite !IsSpent_flag by done. unfold flag at 1. cbn [vfSpent with_spent]. by rewrite nth_resized.
Qed.
Lemma set_flag_coherent b t n t' : coherent t → set_spent_flag b t n = Some t' → coherent t'.
Proof.
  intros C. unfold set_spent_flag. destruct (_ <=? _); [done|]. destruct (eqb _ _); intros [= <-].
  - destruct C. split; intros k; rewrite ?resized_credits; eauto.
  - apply (coherent_flags t (<[Z.to_nat n:=b]> (resized t)) C).
Qed.
Lemma UpdateSpent_coherent t v : coherent t → coherent (UpdateSpent t v).1.
Proof.
  intros C. unfold UpdateSpent. pose proof (update_flags_same v (vfSpent t)) as Hs. destruct (update_flags v (vfSpent t)) as [vf r]. cbn [fst snd] in *.
  destruct r; [by apply coherent_flags|]. rewrite Hs by done. by destruct t.
Qed.
Lemma MarkDirty_coherent t : coherent t → coherent (MarkDirty t).
Proof. intros []. split; intros n; cbn; done || eauto. Qed.
Lemma uncached_coherent t : coherent (uncached t).
Proof. by split. Qed.

(** C18. Cached amounts.  Whatever caches are filled, as long as each was filled by a
    query since the wallet's keys and the transactions it spends from last changed,
    every query of a transaction answers what it would compute with no cache at all,
    or throws as that would, and leaves the caches right; so do marking outputs as
    spent or unspent, merging flags and [MarkDirty]. *)
Theorem caches_exact v q t : coherent t → wtx_query v q →
  match q t, q (uncached t) with
  | Some (n, t'), Some (n0, _) => n = n0 ∧ coherent t'
  | None, None => True
  | _, _ => False
  end ∧
  (∀ n t', MarkSpent t n = Some t' ∨ MarkUnspent t n = Some t' → coherent t') ∧
  (∀ vf, coherent (UpdateSpent t vf).1) ∧ coherent (MarkDirty t).
Proof.
  intros C Hq. split; [|split; [|split]].
  - pose proof (query_exact v q Hq t (uncached t) (conj C (conj (uncached_coherent t) eq_refl))) as H.
    destruct (q t) as [[n t']|], (q (uncached t)) as [[n0 t0]|]; try done. destruct H as [-> (Ct & _)]. done.
  - intros n t' [H|H]; by eapply set_flag_coherent.
  - intros vf. by apply UpdateSpent_coherent.
  - by apply MarkDirty_coherent.
Qed.
End caches.
End flags.

(** Amounts in range: non-negative outputs whose sum is *)
Lemma checked_sum_total (vals : list Z) : ∀ (terms : list (option Z)) n, Forall2 (λ o x, ∃ y, o = Some y ∧ 0 <= y <= x) terms vals →
  0 <= n → n + foldr Z.add 0 vals < 2 ^ 63 → is_Some (checked_sum terms n).
Proof.
  induction vals as [|x vals IH]; intros terms n H Hn Hs; inversion H as [|o ? terms' ? (y & -> & Hy) H']; subst; cbn; [eauto|].
  assert (Hp : 0 <= foldr Z.add 0 vals). { clear -H'. induction H' as [|? ? ? ? (? & _ & ?)]; cbn; lia. }
  cbn [foldr] in Hs. rewrite i64_small by lia. unfold MoneyRange. replace ((n + y >=? 0) && (n + y <=? MAX_MONEY)) with true.
  - cbn. apply IH; [done|lia..].
  - symmetry. apply andb_true_iff. rewrite Z.geb_le, Z.leb_le. unfold MAX_MONEY. lia.
Qed.
Lemma credit_in_range mine tx f : Forall (λ o, MoneyRange (nValue o) = true) (vout tx) → foldr Z.add 0 (map nValue (vout tx)) < 2 ^ 63 →
  is_Some (credit_tx mine tx f).
Proof.
  intros Hr Hs. unfold credit_tx. apply (checked_sum_total (map nValue (vout tx))); [|lia|lia]. clear Hs.
  induction Hr as [|o l Ho Hl IH]; cbn; constructor; [|done]. unfold credit_output. rewrite Ho. cbn. eexists. split; [done|].
  apply andb_true_iff in Ho as [?%Z.geb_le _]. destruct (in_filter _ _); lia.
Qed.

(** ** Small wallets *)

Section samples.
(** Digests that tell the sample transactions apart *)
#[local] Instance mod_digests : Digests := {
  SHA1 x := to_digits 256 20 (dval 256 x mod (2 ^ 127 - 1));
  SHA256 x := to_digits 256 32 (dval 256 x mod (2 ^ 255 - 19));
  RIPEMD160 x := to_digits 256 20 (dval 256 x mod (2 ^ 127 - 1))
}.

Definition own_script : list Z := [81].
Definition own (s : list Z) : isminetype := if bool_decide (s = own_script) then MINE_SPENDABLE else MINE_NO.
Definition payment : CTransaction := mkTx 1 1400000000 [mkTxIn (mkOutPoint (replicate W256 7) 0) [] UINT_MAX] [mkTxOut 5000 own_script; mkTxOut 300 [82]] 0.
Definition spending : CTransaction := mkTx 1 1400000100 [mkTxIn (mkOutPoint (GetHash payment) 0) [] UINT_MAX] [mkTxOut 4000 [82]] 0.
Definition sample_view : NodeView := mkView ∅ None 0 1400000200 (λ _, false).
Definition in_block (tx : CTransaction) : CWalletTx :=
  with_mt (CWalletTx_of tx) (mkMerkleTx tx (replicate W256 9) [] 0 false).
(** The wallet that was paid *)
Definition paid_wallet : Wallet := mkWallet {[GetHash payment := CWalletTx_of payment]} {[GetHash payment := CWalletTx_of payment]} 1 ∅ [].

Lemma AddToWallet_spec_witness : ∃ w' t, AddToWallet 500 own sample_view [] true (CWalletTx_of spending) paid_wallet = Some (true, w') ∧
  in_step w' ∧ mapWallet w' !! GetHash payment = Some t ∧ flag t 0 = true ∧ flag t 1 = false.
Proof.
  destruct (AddToWallet_spec own 500 sample_view [] (CWalletTx_of spending) paid_wallet) as (w' & E & _ & F & Ho & _).
  - apply map_Forall_singleton. reflexivity.
  - reflexivity.
  - intros t E. vm_compute in E. discriminate.
  - apply map_Forall_singleton. intros f. apply credit_in_range; [repeat constructor|vm_compute; reflexivity].
  - intros f. apply credit_in_range; [repeat constructor|vm_compute; reflexivity].
  - constructor; [|constructor]. split; [cbn; lia|]. vm_compute. discriminate.
  - specialize (Ho (GetHash payment)). destruct (mapWallet paid_wallet !! GetHash payment) as [t0|] eqn:E0; [|vm_compute in E0; discriminate].
    assert (t0 = CWalletTx_of payment) as -> by (vm_compute in E0; injection E0 as <-; vm_compute; reflexivity).
    destruct (mapWallet w' !! GetHash payment) as [t|] eqn:Et.
    + exists w', t. split; [exact E|]. split; [exact F|]. split; [exact Et|].
      assert (spend_update own (vin spending) (GetHash payment) (CWalletTx_of payment) t) as [_ Hf].
      { assert (H : GetHash payment ≠ GetHash spending) by (vm_compute; discriminate). specialize (Ho H). inversion Ho. done. }
      split; rewrite Hf by (vm_compute; lia); vm_compute; reflexivity.
    + exfalso. assert (H : GetHash payment ≠ GetHash spending) by (vm_compute; discriminate). specialize (Ho H). inversion Ho.
Defined.

(** The spent coin comes back: the wallet was paid, spends the coin, and then learns of
    the block that holds the payment.  [WalletUpdateSpent] marks the coin unspent,
    while the wallet holds the transaction that spends it *)
Definition add_all (l : list CWalletTx) (w : Wallet) : option Wallet :=
  fold_left (λ o t, w ← o; '(_, w) ← AddToWallet 500 own sample_view [] true t w; Some w) l (Some w).
Example confirmation_unspends :
  (w ← add_all [CWalletTx_of payment; CWalletTx_of spending] empty_wallet; t ← mapWallet w !! GetHash payment; IsSpent t 0) = Some true ∧
  (w ← add_all [CWalletTx_of payment; CWalletTx_of spending; in_block payment] empty_wallet; t ← mapWallet w !! GetHash payment; IsSpent t 0) = Some false ∧
  (w ← add_all [CWalletTx_of payment; CWalletTx_of spending; in_block payment] empty_wallet; t ← mapWallet w !! GetHash spending;
   Some (bool_decide (prevout <$> vin (wtx_tx t) = [mkOutPoint (GetHash payment) 0]))) = Some true.
Proof. vm_compute. done. Qed.

(** A watch-only script is added after the watched credit was asked for: [MarkDirty]
    leaves that cache, and the credit stays 0 *)
Definition watched (s : list Z) : isminetype := if bool_decide (s = [82]) then MINE_WATCH_ONLY else own s.
Example MarkDirty_stale :
  (fst <$> ('(_, t) ← wtx_GetCredit 500 own sample_view WATCH_ONLY (CWalletTx_of payment); wtx_GetCredit 500 watched sample_view WATCH_ONLY (MarkDirty t))) = Some 0 ∧
  (fst <$> wtx_GetCredit 500 watched sample_view WATCH_ONLY (uncached (CWalletTx_of payment))) = Some 300.
Proof. vm_compute. done. Qed.

Lemma caches_exact_witness : ∃ t, GetAvailableCredit 500 own sample_view true (CWalletTx_of payment) = Some (5000, t) ∧
  nAvailableCreditCached (caches t) = Some 5000 ∧ coherent own ∅ (λ _, false) t.
Proof.
  destruct (caches_exact own 500 ∅ (λ _, false) sample_view (GetAvailableCredit 500 own sample_view true) (CWalletTx_of payment)) as (H & _);
    [by split|constructor|].
  destruct (GetAvailableCredit 500 own sample_view true (CWalletTx_of payment)) as [[n t]|] eqn:E; [|vm_compute in E; discriminate].
  destruct (GetAvailableCredit 500 own sample_view true (uncached (CWalletTx_of payment))) as [[n0 t0]|]; [|contradiction].
  destruct H as [_ H]. exists t. vm_compute in E. injection E as E1 E2. split; [f_equal; f_equal; exact (eq_sym E1)|]. split; [rewrite <- E2; reflexivity|exact H].
Defined.

Lemma wallet_consistent_witness : ∃ w, rtc (wallet_step own 500 0 true (λ _, replicate W256 1)) empty_wallet w ∧ wallet_ok w ∧
  nOrderPosNext w = 2 ∧ size (mapWallet w) = 2%nat.
Proof.
  destruct (AddToWallet 500 own sample_view [] true (CWalletTx_of payment) empty_wallet) as [[r1 w1]|] eqn:E1; [|vm_compute in E1; discriminate].
  destruct (AddToWallet 500 own sample_view [] true (CWalletTx_of spending) w1) as [[r2 w2]|] eqn:E2; [|vm_compute in E1; injection E1 as _ <-; vm_compute in E2; discriminate].
  assert (Hn : nOrderPosNext w2 = 2 ∧ size (mapWallet w2) = 2%nat).
  { vm_compute in E1. injection E1 as _ <-. vm_compute in E2. injection E2 as _ <-. vm_compute. done. }
  assert (R : rtc (wallet_step own 500 0 true (λ _, replicate W256 1)) empty_wallet w2).
  { eapply rtc_l; [eapply (StepAdd own 500 0 true _ _ sample_view [] (CWalletTx_of payment)); [|cbn; lia|exact E1]|eapply rtc_once, (StepAdd own 500 0 true _ _ sample_view [] (CWalletTx_of spending)); [| |exact E2]].
    - split; [repeat constructor; cbn; lia|]. intros t H. vm_compute in H. discriminate.
    - vm_compute in E1. injection E1 as _ <-. split; [repeat constructor; cbn; lia|]. intros t H. vm_compute in H. discriminate.
    - vm_compute in E1. injection E1 as _ <-. cbn. lia. }
  exists w2. split; [exact R|]. split; [|exact Hn]. exact (wallet_consistent own 500 0 true (λ _, replicate W256 1) w2 R).
Defined.
End samples.
