(* ===== verification/CoinSelect.v ===== *)
(** * Choosing coins (src/wallet.cpp)

    [AvailableCoins] lists the outputs that can be spent, [SelectCoinsMinConf]
    chooses among them for an amount: a coin of the exact value, all the small
    coins, the smallest big coin, or a subset found by random tries
    ([ApproximateBestSubset]).  A pointer to a wallet transaction is its key in
    [mapWallet].  Questions to a transaction are those of WalletTx.v; the caches
    they fill are left out here, since from coherent caches no answer depends on them.

    [std::shuffle] and [std::sort] are arguments, of which only that they permute
    the vector is used; [rand()] is a stream of numbers with the position reached. *)

From stdpp Require Import base list numbers option gmap sorting.
From Stdlib Require Import ZArith Lia.
From S2P Require Import Prelude Uint256 Bignum Serialize Tx Chain Utxo Block BlockIndex KeyStore Sign WalletTx.

Open Scope Z_scope.

(** ** Data *)

Record COutput := mkOutput { out_tx : base_uint; out_i : Z; out_nDepth : Z; out_fSpendable : bool }.
(** A coin with its value: [pair<int64_t, pair<const CWalletTx*, unsigned int> >] *)
Abbreviation Coin := (base_uint * Z)%type.
Abbreviation ValuedCoin := (Z * (base_uint * Z))%type.
(** [CCoinControl]: the outputs that were selected by hand *)
Definition HasSelected (setSelected : gset COutPoint) : bool := negb (bool_decide (setSelected = ∅)).
Definition IsSelected (setSelected : gset COutPoint) (hash : base_uint) (n : Z) : bool := bool_decide (mkOutPoint hash n ∈ setSelected).

Definition int64_max : Z := 2 ^ 63 - 1.

Section Select.
Context {DG : Digests}.
Variable nCoinbaseMaturity : Z.
Variable nMinimumInputValue : Z.
Variable fConfChange : bool.
Variable mine : list Z → isminetype.

(** ** What can be spent *)

(** The outputs of one transaction *)
Definition outputs_of (M : WalletMap) (h : base_uint) (t : CWalletTx) (nDepth : Z) (ok : Z → CTxOut → bool) : list COutput :=
  omap (λ '(i, o),
    match IsSpent t (Z.of_nat i) with
    | Some false => if negb (bool_decide (mine (scriptPubKey o) = MINE_NO)) && ok (Z.of_nat i) o
                    then Some (mkOutput h (Z.of_nat i) nDepth (bool_decide (mine (scriptPubKey o) = MINE_SPENDABLE))) else None
    | _ => None
    end) (imap pair (vout (wtx_tx t))).

(** [AvailableCoins]; [setSelected] is the coin control, when there is one *)
Definition available_of (v : NodeView) (fOnlyConfirmed : bool) (coinControl : option (gset COutPoint)) (M : WalletMap) (h : base_uint) (t : CWalletTx)
    : option (list COutput) :=
  if negb (wtx_IsFinal v t) then Some []
  else
    trusted ← (if fOnlyConfirmed then fst <$> IsTrusted fConfChange mine v M t else Some true);
    if negb trusted then Some []
    else if (still_immature nCoinbaseMaturity v t).1 then Some []
    else Some (outputs_of M h t (wtx_depth v t).1 (λ i o,
           (nMinimumInputValue <=? nValue o) &&
           match coinControl with None => true | Some sel => negb (HasSelected sel) || IsSelected sel h i end)).
Definition AvailableCoins (v : NodeView) (fOnlyConfirmed : bool) (coinControl : option (gset COutPoint)) (M : WalletMap) : option (list COutput) :=
  (λ l, concat l) <$> mapM (λ '(h, t), available_of v fOnlyConfirmed coinControl M h t) (id_order M).

(** [AvailableCoinsMinConf] *)
Definition AvailableCoinsMinConf (v : NodeView) (nConf nMinValue nMaxValue : Z) (M : WalletMap) : list COutput :=
  concat (map (λ '(h, t),
    if negb (wtx_IsFinal v t) then []
    else if (wtx_depth v t).1 <? nConf then []
    else outputs_of M h t (wtx_depth v t).1 (λ _ o, (nMinValue <=? nValue o) && (nValue o <? nMaxValue))) (id_order M)).

(** ** The subset by random tries *)

Variable rand : nat → Z.

(** One pass over the coins; [vals] are the values from position [i] on.  The state
    is [nTotal], [vfIncluded], [fReachedTarget], [nBest], [vfBest] and the number of
    draws *)
Record Tries := mkTries { nTotal : Z; vfIncluded : list bool; fReachedTarget : bool; nBest : Z; vfBest : list bool; draws : nat }.
Definition try_coin (nTargetValue n : Z) (i : nat) (s : Tries) : Tries :=
  let total := i64 (nTotal s + n) in
  let included := <[i := true]> (vfIncluded s) in
  if nTargetValue <=? total then
    let better := total <? nBest s in
    mkTries (i64 (total - n)) (<[i := false]> included) true (if better then total else nBest s) (if better then included else vfBest s) (draws s)
  else mkTries total included (fReachedTarget s) (nBest s) (vfBest s) (draws s).
Fixpoint one_pass (nPass : nat) (nTargetValue : Z) (vals : list Z) (i : nat) (s : Tries) : Tries :=
  match vals with
  | [] => s
  | n :: vals =>
      let '(chosen, s) :=
        match nPass with
        | O => (negb (rand (draws s) mod 2 =? 0), mkTries (nTotal s) (vfIncluded s) (fReachedTarget s) (nBest s) (vfBest s) (S (draws s)))
        | S _ => (negb (nth i (vfIncluded s) false), s)
        end in
      one_pass nPass nTargetValue vals (S i) (if chosen then try_coin nTargetValue n i s else s)
  end.
(** The repetitions: the best flags, their value, the draws used *)
Fixpoint repetitions (iterations : nat) (nTargetValue : Z) (vals : list Z) (best : Z) (flags : list bool) (drawn : nat) : list bool * Z * nat :=
  match iterations with
  | O => (flags, best, drawn)
  | S iterations =>
      if best =? nTargetValue then (flags, best, drawn)
      else
        let s := one_pass 0 nTargetValue vals 0 (mkTries 0 (replicate (length vals) false) false best flags drawn) in
        let s := if fReachedTarget s then s else one_pass 1 nTargetValue vals 0 s in
        repetitions iterations nTargetValue vals (nBest s) (vfBest s) (draws s)
  end.
Definition ApproximateBestSubset (vals : list Z) (nTotalLower nTargetValue : Z) (drawn : nat) : list bool * Z * nat :=
  repetitions 1000 nTargetValue vals nTotalLower (replicate (length vals) true) drawn.

(** ** Choosing *)

Variable shuffle : list COutput → list COutput.
Variable sort_down : list ValuedCoin → list ValuedCoin.

(** The value of an output, and whether its transaction is from us *)
Definition coin_value (M : WalletMap) (c : Coin) : option Z := t ← M !! c.1; nValue <$> vout (wtx_tx t) !! Z.to_nat c.2.
Definition coin_from_me (M : WalletMap) (h : base_uint) : option bool := t ← M !! h; fst <$> wtx_IsFromMe mine M MINE_ALL t.
Definition coin_time (M : WalletMap) (h : base_uint) : option Z := (λ t, nTime (wtx_tx t)) <$> M !! h.

(** What the loop over the coins found: a coin of the exact value, or the coins below
    the target with their total and the smallest one above *)
Inductive Found :=
| ExactCoin (coin : ValuedCoin)
| Split (vValue : list ValuedCoin) (nTotalLower : Z) (coinLowestLarger : option ValuedCoin).
Fixpoint sort_out (M : WalletMap) (nTargetValue nSpendTime nConfMine nConfTheirs : Z) (vCoins : list COutput)
    (vValue : list ValuedCoin) (nTotalLower : Z) (coinLowestLarger : option ValuedCoin) : option Found :=
  match vCoins with
  | [] => Some (Split vValue nTotalLower coinLowestLarger)
  | out :: vCoins =>
      let next := sort_out M nTargetValue nSpendTime nConfMine nConfTheirs vCoins in
      if negb (out_fSpendable out) then next vValue nTotalLower coinLowestLarger
      else
        from_me ← coin_from_me M (out_tx out);
        if out_nDepth out <? (if (from_me : bool) then nConfMine else nConfTheirs) then next vValue nTotalLower coinLowestLarger
        else
          time ← coin_time M (out_tx out);
          if nSpendTime <? time then next vValue nTotalLower coinLowestLarger
          else
            n ← coin_value M (out_tx out, out_i out);
            let coin := (n, (out_tx out, out_i out)) in
            if n =? nTargetValue then Some (ExactCoin coin)
            else if n <? i64 (nTargetValue + CENT) then next (vValue ++ [coin]) (i64 (nTotalLower + n)) coinLowestLarger
            else if n <? from_option fst int64_max coinLowestLarger then next vValue nTotalLower (Some coin)
            else next vValue nTotalLower coinLowestLarger
  end.

(** The coins whose flag is set, put into the set, with their total *)
Definition insert_coins (l : list ValuedCoin) : gset Coin * Z :=
  fold_left (λ '(cs, n) coin, (cs ∪ {[coin.2]}, i64 (n + coin.1))) l (∅, 0).
Definition flagged (flags : list bool) (l : list ValuedCoin) : list ValuedCoin :=
  omap (λ '(b, c), if (b : bool) then Some c else None) (zip flags l).

(** [SelectCoinsMinConf]: the verdict, the coins and their value, with the draws used *)
Definition SelectCoinsMinConf (M : WalletMap) (nTargetValue nSpendTime nConfMine nConfTheirs : Z) (vCoins : list COutput) (drawn : nat)
    : option (bool * gset Coin * Z * nat) :=
  found ← sort_out M nTargetValue nSpendTime nConfMine nConfTheirs (shuffle vCoins) [] 0 None;
  let chosen l drawn := let '(cs, n) := insert_coins l in Some (true, cs, n, drawn) in
  match found with
  | ExactCoin coin => chosen [coin] drawn
  | Split vValue nTotalLower coinLowestLarger =>
      if nTotalLower =? nTargetValue then chosen vValue drawn
      else if nTotalLower <? nTargetValue then
        match coinLowestLarger with
        | None => Some (false, ∅, 0, drawn)
        | Some coin => chosen [coin] drawn
        end
      else
        let vValue := sort_down vValue in
        let vals := map fst vValue in
        let '(vfBest, nBest, drawn) := ApproximateBestSubset vals nTotalLower nTargetValue drawn in
        let '(vfBest, nBest, drawn) :=
          if negb (nBest =? nTargetValue) && (i64 (nTargetValue + CENT) <=? nTotalLower)
          then ApproximateBestSubset vals nTotalLower (i64 (nTargetValue + CENT)) drawn else (vfBest, nBest, drawn) in
        match coinLowestLarger with
        | Some coin =>
            if (negb (nBest =? nTargetValue) && (nBest <? i64 (nTargetValue + CENT))) || (coin.1 <=? nBest)
            then chosen [coin] drawn else chosen (flagged vfBest vValue) drawn
        | None => chosen (flagged vfBest vValue) drawn
        end
  end.

(** [SelectCoins]; with a coin control every coin it names that can be spent is taken *)
Definition SelectCoins (v : NodeView) (M : WalletMap) (nTargetValue nSpendTime : Z) (coinControl : option (gset COutPoint)) (drawn : nat)
    : option (bool * gset Coin * Z * nat) :=
  vCoins ← AvailableCoins v true coinControl M;
  if from_option HasSelected false coinControl then
    coins ← mapM (λ out, n ← coin_value M (out_tx out, out_i out); Some (n, (out_tx out, out_i out))) (filter (λ out, out_fSpendable out = true) vCoins);
    let '(cs, n) := insert_coins coins in Some (nTargetValue <=? n, cs, n, drawn)
  else
    '(ok, cs, n, drawn) ← SelectCoinsMinConf M nTargetValue nSpendTime 1 6 vCoins drawn;
    if (ok : bool) then Some (ok, cs, n, drawn)
    else
      '(ok, cs, n, drawn) ← SelectCoinsMinConf M nTargetValue nSpendTime 1 1 vCoins drawn;
      if (ok : bool) then Some (ok, cs, n, drawn) else SelectCoinsMinConf M nTargetValue nSpendTime 0 1 vCoins drawn.

(** [SelectCoinsSimple], in the order of the wallet *)
Fixpoint simple_loop (v : NodeView) (M : WalletMap) (nTargetValue nSpendTime : Z) (vCoins : list COutput) (cs : gset Coin) (nValueRet : Z)
    : option (gset Coin * Z) :=
  match vCoins with
  | [] => Some (cs, nValueRet)
  | out :: vCoins =>
      let next := simple_loop v M nTargetValue nSpendTime vCoins in
      if negb (out_fSpendable out) then next cs nValueRet
      else
        t ← M !! out_tx out;
        if 0 <? (wtx_maturity nCoinbaseMaturity v t).1 then next cs nValueRet
        else if nTargetValue <=? nValueRet then Some (cs, nValueRet)
        else if nSpendTime <? nTime (wtx_tx t) then next cs nValueRet
        else
          n ← coin_value M (out_tx out, out_i out);
          let cs' := cs ∪ {[(out_tx out, out_i out)]} in
          if nTargetValue <=? n then Some (cs', i64 (nValueRet + n))
          else if n <? i64 (nTargetValue + CENT) then next cs' (i64 (nValueRet + n))
          else next cs nValueRet
  end.
Definition SelectCoinsSimple (v : NodeView) (M : WalletMap) (nTargetValue nMinValue nMaxValue nSpendTime nMinConf : Z) : option (gset Coin * Z) :=
  simple_loop v M nTargetValue nSpendTime (AvailableCoinsMinConf v nMinConf nMinValue nMaxValue M) ∅ 0.
End Select.

(** ** The tries *)

Definition zsum (l : list Z) : Z := foldr Z.add 0 l.
(** The value of the coins whose flag is set *)
Definition subset_sum (flags : list bool) (vals : list Z) : Z := zsum (zip_with (λ b n, if (b : bool) then n else 0) flags vals).

Lemma zsum_app a b : zsum (a ++ b) = zsum a + zsum b.
Proof. induction a as [|x a IH]; cbn; [done|]. unfold zsum in *. lia. Qed.
Lemma zsum_nonneg l : Forall (λ n, 0 <= n) l → 0 <= zsum l.
Proof. unfold zsum. induction 1; cbn; lia. Qed.
#[export] Instance zsum_proper : Proper ((≡ₚ) ==> (=)) zsum.
Proof. unfold zsum. induction 1; cbn; lia. Qed.
Lemma subset_sum_range flags vals : Forall (λ n, 0 <= n) vals → 0 <= subset_sum flags vals <= zsum vals.
Proof.
  intros H. revert flags. induction H as [|n vals Hn H IH]; intros [|b flags]; unfold subset_sum in *; cbn; try lia.
  - pose proof (zsum_nonneg vals H). unfold zsum in *. lia.
  - specialize (IH flags). unfold zsum in *. destruct b; lia.
Qed.
Lemma subset_sum_all vals : subset_sum (replicate (length vals) true) vals = zsum vals.
Proof. unfold subset_sum, zsum. induction vals as [|n vals IH]; cbn; [done|]. by rewrite IH. Qed.
Lemma subset_sum_none vals : subset_sum (replicate (length vals) false) vals = 0.
Proof. unfold subset_sum, zsum. induction vals as [|n vals IH]; cbn; [done|]. by rewrite IH. Qed.
Lemma subset_sum_insert flags vals i n : flags !! i = Some false → vals !! i = Some n →
  subset_sum (<[i := true]> flags) vals = subset_sum flags vals + n.
Proof.
  revert vals i. induction flags as [|b flags IH]; intros [|x vals] [|i]; try done; unfold subset_sum, zsum in *; cbn.
  - intros [= ->] [= ->]. lia.
  - intros H1 H2. pose proof (IH _ _ H1 H2) as E.
    etransitivity; [exact (f_equal (Z.add (if b then x else 0)) E)|]. lia.
Qed.

Section tries.
Context (rand : nat → Z) (vals : list Z) (nTargetValue : Z).
Context (Hpos : Forall (λ n, 0 <= n) vals) (Htot : zsum vals < 2 ^ 63) (Htarget : 0 <= nTargetValue).

(** The flags add up to the totals kept with them, and the best ones reach the target *)
Record best_ok (best : Z) (flags : list bool) : Prop := {
  best_length : length flags = length vals;
  best_sum : best = subset_sum flags vals;
  best_target : nTargetValue <= best
}.
Record tries_ok (s : Tries) : Prop := {
  tries_length : length (vfIncluded s) = length vals;
  tries_sum : nTotal s = subset_sum (vfIncluded s) vals;
  tries_best : best_ok (nBest s) (vfBest s)
}.
Lemma try_coin_ok n i s : tries_ok s → vals !! i = Some n → vfIncluded s !! i = Some false →
  tries_ok (try_coin nTargetValue n i s) ∧ ∀ k, k ≠ i → vfIncluded (try_coin nTargetValue n i s) !! k = vfIncluded s !! k.
Proof.
  intros [Hl Hs Hb] Hn Hi. pose proof (subset_sum_insert _ _ _ _ Hi Hn) as E.
  pose proof (subset_sum_range (vfIncluded s) vals Hpos) as R1. pose proof (subset_sum_range (<[i := true]> (vfIncluded s)) vals Hpos) as R2.
  unfold try_coin. cbn zeta. rewrite (i64_small (nTotal s + n)) by lia. rewrite (i64_small (nTotal s + n - n)) by lia.
  assert (<[i := false]> (<[i := true]> (vfIncluded s)) = vfIncluded s) as Eb by (rewrite list_insert_insert_eq; by apply list_insert_id).
  destruct (Z.leb_spec nTargetValue (nTotal s + n)).
  - split; [|intros k Hk; cbn; by rewrite Eb]. split; cbn [nTotal vfIncluded nBest vfBest]; [by rewrite Eb|rewrite Eb; lia|].
    destruct (nTotal s + n <? nBest s); [|done]. split; [by rewrite length_insert|lia|done].
  - split; [|intros k Hk; cbn; by rewrite list_lookup_insert_ne]. split; cbn [nTotal vfIncluded nBest vfBest]; [by rewrite length_insert|lia|done].
Qed.
(** In the first pass the coins not yet seen are not included; in the second only coins
    that are not included are tried *)
Lemma one_pass_ok nPass rest : ∀ i s, drop i vals = rest → tries_ok s →
  (nPass = 0%nat → ∀ k, (i <= k < length vals)%nat → vfIncluded s !! k = Some false) → tries_ok (one_pass rand nPass nTargetValue rest i s).
Proof.
  induction rest as [|n rest IH]; intros i s Ed Hs Hf; [done|]. cbn [one_pass].
  assert (Hn : vals !! i = Some n). { rewrite <- (Nat.add_0_r i), <- lookup_drop, Ed. done. }
  assert (Ed' : drop (S i) vals = rest). { rewrite <- (Nat.add_1_r i), <- drop_drop, Ed. done. }
  pose proof (lookup_lt_Some _ _ _ Hn) as Hlt. destruct nPass as [|p].
  - destruct (negb (rand (draws s) mod 2 =? 0)).
    + destruct (try_coin_ok n i (mkTries (nTotal s) (vfIncluded s) (fReachedTarget s) (nBest s) (vfBest s) (S (draws s)))) as [H1 H2];
        [by destruct Hs; split|done|by apply Hf|]. apply IH; [done|done|]. intros _ k Hk. rewrite H2 by lia. cbn. apply Hf; [done|lia].
    + apply IH; [done|by destruct Hs; split|]. intros _ k Hk. apply Hf; [done|lia].
  - destruct (vfIncluded s !! i) as [b|] eqn:Ei; [|apply lookup_ge_None in Ei; rewrite (tries_length _ Hs) in Ei; lia].
    rewrite (nth_lookup_Some _ _ _ _ Ei). destruct b; cbn [negb]; apply IH; try done. by apply try_coin_ok.
Qed.
Lemma repetitions_ok iterations : ∀ best flags drawn, best_ok best flags →
  let '(flags', best', _) := repetitions rand iterations nTargetValue vals best flags drawn in best_ok best' flags'.
Proof.
  induction iterations as [|k IH]; intros best flags drawn Hb; [done|]. cbn [repetitions]. destruct (best =? nTargetValue); [done|].
  set (s0 := mkTries 0 (replicate (length vals) false) false best flags drawn).
  assert (H0 : tries_ok s0) by (split; cbn [nTotal vfIncluded nBest vfBest s0]; [apply length_replicate|by rewrite subset_sum_none|done]).
  assert (H1 : tries_ok (one_pass rand 0 nTargetValue vals 0 s0)).
  { apply one_pass_ok; [done|done|]. intros _ j Hj. apply lookup_replicate_2. lia. }
  apply IH. destruct (fReachedTarget (one_pass rand 0 nTargetValue vals 0 s0)); [apply H1|].
  by apply (one_pass_ok 1 vals 0).
Qed.
(** [ApproximateBestSubset] starts with all coins, so what it returns reaches the target *)
Lemma subset_ok drawn : nTargetValue <= zsum vals →
  let '(flags, best, _) := ApproximateBestSubset rand vals (zsum vals) nTargetValue drawn in best_ok best flags.
Proof. intros H. apply repetitions_ok. split; [apply length_replicate|by rewrite subset_sum_all|done]. Qed.
End tries.

(** ** The choice *)

Lemma insert_coins_ok l : Forall (λ c, 0 <= c.1) l → zsum l.*1 < 2 ^ 63 → insert_coins l = (list_to_set l.*2, zsum l.*1).
Proof.
  intros Hp Ht. unfold insert_coins. enough (G : ∀ (cs : gset Coin) n, 0 <= n → n + zsum l.*1 < 2 ^ 63 →
    fold_left (λ '(cs, n) coin, (cs ∪ {[coin.2]}, i64 (n + coin.1))) l (cs, n) = (cs ∪ list_to_set l.*2, n + zsum l.*1)).
  { rewrite G by lia. f_equal. apply leibniz_equiv. set_solver. }
  clear Ht. induction Hp as [|c l Hc Hp IH]; intros cs n Hn Ht; cbn [fold_left].
  - apply pair_equal_spec. split; [apply leibniz_equiv; set_solver|cbn; lia].
  - assert (0 <= zsum l.*1) by (apply zsum_nonneg; by apply Forall_fmap). cbn [fmap list_fmap zsum foldr] in *. fold (zsum l.*1) in *.
    rewrite (i64_small (n + c.1)) by lia. rewrite IH by lia. apply pair_equal_spec. split; [|lia]. apply leibniz_equiv. cbn. set_solver.
Qed.
Lemma flagged_sublist flags l : flagged flags l `sublist_of` l.
Proof.
  revert flags. induction l as [|c l IH]; intros [|b flags]; try (cbn; by apply sublist_nil_l). unfold flagged in *. cbn. destruct b; by constructor.
Qed.
Lemma flagged_sum flags l : length flags = length l → zsum (flagged flags l).*1 = subset_sum flags l.*1.
Proof.
  revert flags. induction l as [|c l IH]; intros [|b flags] Hl; try done. injection Hl as Hl. specialize (IH flags Hl).
  unfold flagged, subset_sum in *. cbn. destruct b; cbn; unfold zsum in *; lia.
Qed.
Lemma Forall_submseteq {A} (P : A → Prop) (a b : list A) : a ⊆+ b → Forall P b → Forall P a.
Proof. rewrite !Forall_forall. intros Hs H x Hx. apply H. by eapply elem_of_submseteq. Qed.
Lemma zsum_submseteq (a b : list Z) : Forall (λ n, 0 <= n) b → a ⊆+ b → zsum a <= zsum b.
Proof. intros Hb [k E]%submseteq_Permutation. rewrite E in Hb |- *. apply Forall_app in Hb as [_ Hk%zsum_nonneg]. rewrite zsum_app. lia. Qed.

Section choice.
Context {DG : Digests} (mine : list Z → isminetype) (rand : nat → Z).
Context (shuffle : list COutput → list COutput) (sort_down : list ValuedCoin → list ValuedCoin).
Context (Hshuffle : ∀ l, shuffle l ≡ₚ l) (Hsort : ∀ l, sort_down l ≡ₚ l).
Context (M : WalletMap) (nTargetValue nSpendTime : Z).
Context (Htarget : 0 <= nTargetValue) (Htarget2 : nTargetValue + CENT < 2 ^ 63).

(** What may be chosen: spendable, deep enough, and not later than the spending transaction *)
Definition eligible (nConfMine nConfTheirs : Z) (out : COutput) : bool :=
  out_fSpendable out &&
  match coin_from_me mine M (out_tx out), coin_time M (out_tx out) with
  | Some from_me, Some time => ((if from_me then nConfMine else nConfTheirs) <=? out_nDepth out) && (time <=? nSpendTime)
  | _, _ => false
  end.
Definition valued (out : COutput) : ValuedCoin := (default 0 (coin_value M (out_tx out, out_i out)), (out_tx out, out_i out)).
Definition eligible_coins (nConfMine nConfTheirs : Z) (vCoins : list COutput) : list ValuedCoin :=
  valued <$> filter (λ out, eligible nConfMine nConfTheirs out = true) vCoins.
(** Outputs of wallet transactions, with values in range *)
Definition readable (out : COutput) : Prop :=
  is_Some (coin_from_me mine M (out_tx out)) ∧ is_Some (coin_time M (out_tx out)) ∧ ∃ n, coin_value M (out_tx out, out_i out) = Some n ∧ 0 <= n.

Context (nConfMine nConfTheirs : Z).
Abbreviation coins_of l := (eligible_coins nConfMine nConfTheirs l).
Definition lows (l : list COutput) : list ValuedCoin := filter (λ c : ValuedCoin, c.1 < nTargetValue + CENT) (coins_of l).

Lemma eligible_nonneg l : Forall readable l → Forall (λ c, 0 <= c.1) (coins_of l).
Proof.
  intros H. apply Forall_fmap, Forall_forall. intros out [_ Hin]%list_elem_of_filter. rewrite Forall_forall in H. destruct (H _ Hin) as (_ & _ & n & E & ?).
  cbn. by rewrite E.
Qed.
Lemma eligible_cons out l : coins_of (out :: l) = (if eligible nConfMine nConfTheirs out then [valued out] else []) ++ coins_of l.
Proof. unfold eligible_coins. rewrite filter_cons. destruct (eligible nConfMine nConfTheirs out); [by rewrite decide_True|by rewrite decide_False]. Qed.

Definition found_ok (l : list COutput) (vValue : list ValuedCoin) (low : Z) (larger : option ValuedCoin) (r : Found) : Prop :=
  match r with
  | ExactCoin c => c ∈ coins_of l ∧ c.1 = nTargetValue
  | Split vValue' low' larger' =>
      vValue' = vValue ++ lows l ∧ low' = low + zsum (lows l).*1 ∧
      (larger' = larger ∨ ∃ c, larger' = Some c ∧ c ∈ coins_of l ∧ nTargetValue + CENT <= c.1) ∧
      (larger' = None → lows l = coins_of l)
  end.
Lemma sort_out_ok l : Forall readable l → ∀ vValue low larger, 0 <= low → low + zsum (coins_of l).*1 < int64_max →
  ∃ r, sort_out mine M nTargetValue nSpendTime nConfMine nConfTheirs l vValue low larger = Some r ∧ found_ok l vValue low larger r.
Proof.
  induction 1 as [|out l Hr Hl IH]; intros vValue low larger Hlow Htot.
  { eexists. split; [done|]. cbn. rewrite app_nil_r. split; [done|]. split; [lia|]. split; [by left|done]. }
  pose proof (zsum_nonneg _ (proj2 (Forall_fmap fst _ _) (eligible_nonneg l Hl))) as Hnn.
  destruct Hr as ([fm Efm] & [tm Etm] & n & En & Hn). rewrite eligible_cons in Htot.
  assert (Hval : valued out = (n, (out_tx out, out_i out))) by (unfold valued; by rewrite En).
  (* a coin that is passed over *)
  assert (Hskip : eligible nConfMine nConfTheirs out = false →
    ∃ r, sort_out mine M nTargetValue nSpendTime nConfMine nConfTheirs l vValue low larger = Some r ∧ found_ok (out :: l) vValue low larger r).
  { intros E. rewrite E in Htot. destruct (IH vValue low larger Hlow Htot) as (r & Er & Hok). exists r. split; [done|].
    unfold found_ok, lows in *. by rewrite !eligible_cons, E. }
  cbn [sort_out]. destruct (out_fSpendable out) eqn:Esp; cbn [negb]; [|apply Hskip; unfold eligible; by rewrite Esp].
  rewrite Efm. cbn [mbind option_bind]. destruct (Z.ltb_spec (out_nDepth out) (if fm then nConfMine else nConfTheirs)).
  { apply Hskip. unfold eligible. rewrite Esp, Efm, Etm. by rewrite (proj2 (Z.leb_gt _ _)) by done. }
  rewrite Etm. cbn [mbind option_bind]. destruct (Z.ltb_spec nSpendTime tm).
  { apply Hskip. unfold eligible. rewrite Esp, Efm, Etm. rewrite (proj2 (Z.leb_gt tm nSpendTime)) by done. by rewrite andb_false_r. }
  assert (Eel : eligible nConfMine nConfTheirs out = true).
  { unfold eligible. rewrite Esp, Efm, Etm. cbn. by rewrite !(proj2 (Z.leb_le _ _)). }
  rewrite Eel, Hval in Htot. cbn [app fmap list_fmap zsum foldr fst] in Htot. fold (zsum (coins_of l).*1) in Htot.
  rewrite En. cbn [mbind option_bind]. rewrite (i64_small (nTargetValue + CENT)), (i64_small (low + n)) by (unfold int64_max, CENT in *; lia).
  assert (Ec : coins_of (out :: l) = (n, (out_tx out, out_i out)) :: coins_of l) by (by rewrite eligible_cons, Eel, Hval).
  destruct (Z.eqb_spec n nTargetValue) as [->|Hne].
  { eexists. split; [done|]. split; [rewrite Ec; apply list_elem_of_here|done]. }
  destruct (Z.ltb_spec n (nTargetValue + CENT)).
  - destruct (IH (vValue ++ [(n, (out_tx out, out_i out))]) (low + n) larger) as (r & Er & Hok); [lia|lia|]. exists r. split; [done|].
    assert (El : lows (out :: l) = (n, (out_tx out, out_i out)) :: lows l) by (unfold lows; rewrite Ec, filter_cons_True; done).
    destruct r as [c|vV lw lg]; unfold found_ok in Hok |- *; cbn iota in Hok |- *; rewrite Ec, ?El.
    + destruct Hok. split; [by apply list_elem_of_further|done].
    + destruct Hok as (-> & -> & Hlg & Hn'). split; [by rewrite <- app_assoc|]. split; [cbn; fold (zsum (lows l).*1); lia|].
      split; [|intros E; f_equal; by apply Hn']. destruct Hlg as [?|(c & ? & ? & ?)]; [by left|right]. exists c. split; [done|]. split; [by apply list_elem_of_further|done].
  - assert (El : lows (out :: l) = lows l) by (unfold lows; rewrite Ec, filter_cons_False; [done|cbn; lia]).
    destruct (Z.ltb_spec n (from_option fst int64_max larger)) as [Hlt|Hge].
    + destruct (IH vValue low (Some (n, (out_tx out, out_i out)))) as (r & Er & Hok); [lia|lia|]. exists r. split; [done|].
      destruct r as [c|vV lw lg]; unfold found_ok in Hok |- *; cbn iota in Hok |- *; rewrite Ec, ?El; [destruct Hok; split; [by apply list_elem_of_further|done]|].
      destruct Hok as (-> & -> & Hlg & Hn'). split; [done|]. split; [done|]. destruct Hlg as [->|(c & -> & ? & ?)]; (split; [right|done]).
      * eexists. split; [done|]. split; [by apply list_elem_of_here|cbn; lia].
      * exists c. split; [done|]. split; [by apply list_elem_of_further|done].
    + destruct larger as [c0|]; [|cbn in Hge; lia]. destruct (IH vValue low (Some c0)) as (r & Er & Hok); [lia|lia|]. exists r. split; [done|].
      destruct r as [c|vV lw lg]; unfold found_ok in Hok |- *; cbn iota in Hok |- *; rewrite Ec, ?El; [destruct Hok; split; [by apply list_elem_of_further|done]|].
      destruct Hok as (-> & -> & Hlg & Hn'). split; [done|]. split; [done|]. destruct Hlg as [->|(c & -> & ? & ?)]; (split; [|done]); [by left|right].
      exists c. split; [done|]. split; [by apply list_elem_of_further|done].
Qed.

(** A choice for the amount: some of the eligible coins, with their value *)
Definition pays (coins : list ValuedCoin) (cs : gset Coin) (n : Z) : Prop :=
  ∃ l, l ⊆+ coins ∧ cs = list_to_set l.*2 ∧ n = zsum l.*1 ∧ nTargetValue <= n.
(** The verdict: coins that pay, or none because all that are eligible do not reach it *)
Definition verdict_ok (coins : list ValuedCoin) (r : option (bool * gset Coin * Z * nat)) : Prop :=
  ∃ (ok : bool) (cs : gset Coin) n d, r = Some (ok, cs, n, d) ∧
    if ok then pays coins cs n ∧ nTargetValue <= zsum coins.*1 else cs = ∅ ∧ n = 0 ∧ zsum coins.*1 < nTargetValue.
Lemma chosen_pays l coins : l ⊆+ coins → Forall (λ c, 0 <= c.1) coins → zsum coins.*1 < int64_max → nTargetValue <= zsum l.*1 →
  pays coins (insert_coins l).1 (insert_coins l).2 ∧ nTargetValue <= zsum coins.*1.
Proof.
  intros Hs Hp Ht Hn. assert (Hc : zsum l.*1 <= zsum coins.*1).
  { apply zsum_submseteq; [by apply Forall_fmap|]. by apply fmap_submseteq. }
  rewrite insert_coins_ok; [|by eapply Forall_submseteq|unfold int64_max in *; lia]. split; [|lia]. by exists l.
Qed.
Lemma singleton_pays (c : ValuedCoin) coins : c ∈ coins → Forall (λ c, 0 <= c.1) coins → zsum coins.*1 < int64_max → nTargetValue <= c.1 →
  pays coins (insert_coins [c]).1 (insert_coins [c]).2 ∧ nTargetValue <= zsum coins.*1.
Proof. intros Hc. intros. apply chosen_pays; [by apply singleton_submseteq_l|done|done|]. cbn. lia. Qed.

(** The tries on the small coins *)
Lemma approximate_pays small coins goal drawn : small ⊆+ coins → Forall (λ c, 0 <= c.1) coins → zsum coins.*1 < int64_max →
  nTargetValue <= goal → goal <= zsum small.*1 →
  let '(flags, _, _) := ApproximateBestSubset rand (map fst (sort_down small)) (zsum small.*1) goal drawn in
  pays coins (insert_coins (flagged flags (sort_down small))).1 (insert_coins (flagged flags (sort_down small))).2 ∧ nTargetValue <= zsum coins.*1.
Proof.
  intros Hs Hp Ht Hg Hle. assert (Es : zsum (map fst (sort_down small)) = zsum small.*1) by (apply zsum_proper; change (map fst (sort_down small)) with ((sort_down small).*1); by rewrite Hsort).
  assert (Hsc : zsum small.*1 <= zsum coins.*1) by (apply zsum_submseteq; [by apply Forall_fmap|by apply fmap_submseteq]).
  pose proof (subset_ok rand (map fst (sort_down small)) goal) as Hok. rewrite Es in Hok.
  specialize (Hok ltac:(apply Forall_fmap; rewrite Hsort; by eapply Forall_submseteq) ltac:(unfold int64_max in *; lia) drawn Hle).
  destruct (ApproximateBestSubset rand (map fst (sort_down small)) (zsum small.*1) goal drawn) as [[flags best] d].
  destruct Hok as [Hlen Hsum Hbest]. apply chosen_pays; [|done|done|].
  - etransitivity; [apply sublist_submseteq, flagged_sublist|]. by rewrite Hsort.
  - rewrite flagged_sum by (by rewrite Hlen, length_map). unfold fmap, list_fmap in Hsum |- *. fold (map fst (sort_down small)) in *. lia.
Qed.

Lemma min_conf_ok vCoins drawn : Forall readable vCoins → zsum (coins_of vCoins).*1 < int64_max →
  verdict_ok (coins_of vCoins) (SelectCoinsMinConf mine rand shuffle sort_down M nTargetValue nSpendTime nConfMine nConfTheirs vCoins drawn).
Proof.
  intros Hr Ht. assert (Ep : coins_of (shuffle vCoins) ≡ₚ coins_of vCoins) by (unfold eligible_coins; by rewrite Hshuffle).
  pose proof (eligible_nonneg vCoins Hr) as Hp.
  destruct (sort_out_ok (shuffle vCoins)) with (vValue := @nil ValuedCoin) (low := 0) (larger := @None ValuedCoin) as (r & Er & Hok);
    [by rewrite Hshuffle|lia|rewrite Ep; lia|].
  unfold SelectCoinsMinConf. rewrite Er. cbn [mbind option_bind].
  assert (Hend : ∀ l d, pays (coins_of vCoins) (insert_coins l).1 (insert_coins l).2 ∧ nTargetValue <= zsum (coins_of vCoins).*1 →
    verdict_ok (coins_of vCoins) (let '(cs, n) := insert_coins l in Some (true, cs, n, d))).
  { intros l d H. destruct (insert_coins l) as [cs n]. exists true, cs, n, d. done. }
  destruct r as [c|vV lw lg]; unfold found_ok in Hok; cbn iota in Hok.
  { destruct Hok as [Hin Ec]. apply Hend, singleton_pays; [by rewrite <- Ep|done|done|lia]. }
  destruct Hok as (-> & -> & Hlg & Hn). cbn [app]. rewrite Z.add_0_l.
  assert (Hsub : lows (shuffle vCoins) ⊆+ coins_of vCoins). { rewrite <- Ep. apply sublist_submseteq, sublist_filter. }
  set (small := lows (shuffle vCoins)) in *. destruct (Z.eqb_spec (zsum small.*1) nTargetValue) as [E|E]; [apply Hend, chosen_pays; done || lia|].
  assert (Hlarge : ∀ c, lg = Some c → c ∈ coins_of vCoins ∧ nTargetValue <= c.1).
  { intros c ->. destruct Hlg as [?|(c' & [= <-] & Hin & Hc)]; [done|]. rewrite <- Ep. split; [done|]. unfold CENT in Hc. lia. }
  destruct (Z.ltb_spec (zsum small.*1) nTargetValue) as [Hlt|Hge].
  { destruct lg as [c|].
    - destruct (Hlarge c eq_refl). by apply Hend, singleton_pays.
    - exists false, ∅, 0, drawn. split; [done|]. split; [done|]. split; [done|]. rewrite <- Ep, <- (Hn eq_refl). done. }
  pose proof (approximate_pays small (coins_of vCoins) nTargetValue drawn Hsub Hp Ht ltac:(lia) ltac:(lia)) as A1.
  destruct (ApproximateBestSubset rand (map fst (sort_down small)) (zsum small.*1) nTargetValue drawn) as [[f1 b1] d1].
  rewrite (i64_small (nTargetValue + CENT)) by (unfold CENT in *; lia).
  assert (A2 : let '(f2, b2, d2) := (if negb (b1 =? nTargetValue) && (nTargetValue + CENT <=? zsum small.*1)
      then ApproximateBestSubset rand (map fst (sort_down small)) (zsum small.*1) (nTargetValue + CENT) d1 else (f1, b1, d1)) in
    pays (coins_of vCoins) (insert_coins (flagged f2 (sort_down small))).1 (insert_coins (flagged f2 (sort_down small))).2 ∧ nTargetValue <= zsum (coins_of vCoins).*1).
  { destruct (_ && _) eqn:Eb; [|done]. apply andb_true_iff in Eb as [_ Eb%Z.leb_le].
    apply (approximate_pays small (coins_of vCoins) (nTargetValue + CENT) d1); try done. unfold CENT. lia. }
  destruct (if negb (b1 =? nTargetValue) && (nTargetValue + CENT <=? zsum small.*1)
      then ApproximateBestSubset rand (map fst (sort_down small)) (zsum small.*1) (nTargetValue + CENT) d1 else (f1, b1, d1)) as [[f2 b2] d2].
  destruct lg as [c|]; [destruct (_ || _)|]; [|by apply Hend..]. destruct (Hlarge c eq_refl). by apply Hend, singleton_pays.
Qed.
End choice.

(** ** What is available *)

Section available.
Context {DG : Digests} (nCoinbaseMaturity nMinimumInputValue : Z) (fConfChange : bool) (mine : list Z → isminetype).

Abbreviation coin_key := (λ out, (out_tx out, out_i out)).
(** An output that is listed: it is in the wallet, not spent, ours, and not too small *)
Definition listed (M : WalletMap) (out : COutput) : Prop :=
  ∃ t (k : nat) o, M !! out_tx out = Some t ∧ out_i out = Z.of_nat k ∧ vout (wtx_tx t) !! k = Some o ∧ IsSpent t (out_i out) = Some false ∧
    mine (scriptPubKey o) ≠ MINE_NO ∧ (out_fSpendable out = true ↔ mine (scriptPubKey o) = MINE_SPENDABLE) ∧ nMinimumInputValue <= nValue o.

Lemma outputs_listed M h t d ok : M !! h = Some t → (∀ i o, ok i o = true → nMinimumInputValue <= nValue o) →
  let l := outputs_of mine M h t d ok in Forall (listed M) l ∧ NoDup (coin_key <$> l) ∧ Forall (λ out, out_tx out = h) l.
Proof.
  intros Et Hok l. unfold l, outputs_of.
  set (f := λ '(i, o), _). set (outs := vout (wtx_tx t)).
  assert (Hf : ∀ k o out, f (k, o) = Some out → out_tx out = h ∧ out_i out = Z.of_nat k ∧ (outs !! k = Some o → listed M out)).
  { intros k o out. unfold f. destruct (IsSpent t (Z.of_nat k)) as [[]|] eqn:Es; try done. destruct (_ && _) eqn:Eb; [|done]. intros [= <-]. cbn.
    split; [done|]. split; [done|]. intros Ho. apply andb_true_iff in Eb as [Em%negb_true_iff%bool_decide_eq_false Ek%Hok].
    exists t, k, o. cbn. rewrite bool_decide_eq_true. done. }
  assert (G : ∀ l (n : nat), (∀ k o, l !! k = Some o → outs !! (n + k)%nat = Some o) →
    let r := omap f (imap (λ k o, ((n + k)%nat, o)) l) in
    Forall (listed M) r ∧ NoDup (coin_key <$> r) ∧ Forall (λ out, out_tx out = h ∧ Z.of_nat n <= out_i out) r).
  { induction l0 as [|o l0 IH]; intros n Hl; [by repeat constructor|]. cbn [imap omap list_omap].
    specialize (IH (S n)). destruct IH as (I1 & I2 & I3). { intros k o' Hk. replace (S n + k)%nat with (n + S k)%nat by lia. by apply (Hl (S k)). }
    assert (Ei : imap ((λ k o0, ((n + k)%nat, o0)) ∘ S) l0 = imap (λ k o0, ((S n + k)%nat, o0)) l0) by (apply imap_ext; intros; cbn; do 2 f_equal; lia).
    rewrite Ei. rewrite Nat.add_0_r. set (r := omap f (imap (λ k o0, ((S n + k)%nat, o0)) l0)) in *.
    assert (I3' : Forall (λ out, out_tx out = h ∧ Z.of_nat n <= out_i out) r) by (eapply Forall_impl; [exact I3|]; cbn; intros ? []; split; [done|lia]).
    destruct (f (n, o)) as [out|] eqn:E; [|done]. destruct (Hf _ _ _ E) as (H1 & H2 & H3).
    split; [constructor; [|done]; apply H3; rewrite <- (Nat.add_0_r n); by apply (Hl 0%nat)|].
    split; [|constructor; [split; [done|lia]|done]]. cbn. constructor; [|done].
    intros (out' & [= E1 E2] & Hin)%list_elem_of_fmap. rewrite Forall_forall in I3. destruct (I3 _ Hin) as [_ ?]. lia. }
  destruct (G outs 0%nat) as (G1 & G2 & G3); [done|]. split; [exact G1|]. split; [exact G2|]. eapply Forall_impl; [exact G3|]. by intros ? [].
Qed.
Lemma AvailableCoins_ok v b cc M vCoins : AvailableCoins nCoinbaseMaturity nMinimumInputValue fConfChange mine v b cc M = Some vCoins →
  Forall (listed M) vCoins ∧ NoDup (coin_key <$> vCoins).
Proof.
  unfold AvailableCoins. intros (ls & Hm & ->)%fmap_Some. apply mapM_Some in Hm.
  assert (Hin : ∀ h t, (h, t) ∈ id_order M → M !! h = Some t) by (intros h t; apply elem_of_id_order). pose proof (id_order_nodup M) as Hnd.
  cut (Forall (listed M) (concat ls) ∧ NoDup (coin_key <$> concat ls) ∧ Forall (λ out, out_tx out ∈ (id_order M).*1) (concat ls)); [tauto|].
  revert Hin Hnd. induction Hm as [|[h t] r l ls Hr Hm IH]; intros Hin Hnd; [by repeat constructor|].
  cbn in Hnd. apply NoDup_cons in Hnd as [Hh Hnd]. destruct IH as (I1 & I2 & I3); [intros; by apply Hin, list_elem_of_further|done|].
  assert (Hx : Forall (listed M) r ∧ NoDup (coin_key <$> r) ∧ Forall (λ out, out_tx out = h) r).
  { unfold available_of in Hr. destruct (negb _); [injection Hr as <-; by repeat constructor|]. apply bind_Some in Hr as (tr & _ & Hr).
    destruct (negb tr); [injection Hr as <-; by repeat constructor|]. destruct (still_immature _ _ _).1; [injection Hr as <-; by repeat constructor|].
    injection Hr as <-. apply outputs_listed; [by apply Hin, list_elem_of_here|]. intros i o [Ho%Z.leb_le _]%andb_true_iff. done. }
  destruct Hx as (X1 & X2 & X3). cbn [concat]. split; [by apply Forall_app|]. split.
  - rewrite fmap_app, NoDup_app. split; [done|]. split; [|done]. intros [h' i'] (o1 & [= E1 _] & H1)%list_elem_of_fmap (o2 & [= E2 _] & H2)%list_elem_of_fmap.
    rewrite Forall_forall in X3, I3. apply Hh. specialize (X3 _ H1). specialize (I3 _ H2). cbn in X3, I3. congruence.
  - apply Forall_app. split; [eapply Forall_impl; [exact X3|]; intros out ->; apply list_elem_of_here|].
    eapply Forall_impl; [exact I3|]. intros out Ho. by apply list_elem_of_further.
Qed.
(** With outputs selected by hand, only those are listed. *)
Lemma AvailableCoins_selected v b sel M vCoins : HasSelected sel = true →
  AvailableCoins nCoinbaseMaturity nMinimumInputValue fConfChange mine v b (Some sel) M = Some vCoins →
  Forall (λ out, IsSelected sel (out_tx out) (out_i out) = true) vCoins.
Proof.
  intros Hs. unfold AvailableCoins. intros (ls & Hm & ->)%fmap_Some. apply mapM_Some in Hm. apply Forall_concat.
  induction Hm as [|[h t] r l ls Hr _ IH]; constructor; [|done]. unfold available_of in Hr. destruct (negb _); [by injection Hr as <-; constructor|].
  apply bind_Some in Hr as (tr & _ & Hr). destruct (negb tr); [by injection Hr as <-; constructor|]. destruct (still_immature _ _ _).1; [by injection Hr as <-; constructor|].
  injection Hr as <-. apply Forall_forall. intros out ([k o] & _ & Ho)%list_elem_of_omap. destruct (IsSpent t _) as [[]|]; [done| |done].
  destruct (_ && _) eqn:Eb; [|done]. injection Ho as <-. cbn. apply andb_true_iff in Eb as [_ Eb]. apply andb_true_iff in Eb as [_ Eb]. by rewrite Hs in Eb.
Qed.
End available.

(** ** The theorem *)

Section SelectCoins_theorem.
Context {DG : Digests} (nCoinbaseMaturity nMinimumInputValue : Z) (fConfChange : bool) (mine : list Z → isminetype) (rand : nat → Z).
Context (shuffle : list COutput → list COutput) (sort_down : list ValuedCoin → list ValuedCoin).

Lemma listed_readable M out : 0 <= nMinimumInputValue → (∀ h t, M !! h = Some t → is_Some (wtx_IsFromMe mine M MINE_ALL t)) →
  listed nMinimumInputValue mine M out → readable mine M out.
Proof.
  intros Hmin Hd (t & k & o & Et & Ei & Ho & _ & _ & _ & Hv). split; [|split].
  - unfold coin_from_me. rewrite Et. cbn. destruct (Hd _ _ Et) as [[b t'] ->]. by eexists.
  - unfold coin_time. rewrite Et. by eexists.
  - exists (nValue o). unfold coin_value. cbn [fst snd]. rewrite Et, Ei. cbn. rewrite Nat2Z.id, Ho. split; [done|lia].
Qed.
(** Asking for fewer confirmations makes no coin ineligible *)
Lemma eligible_mono M nSpendTime a b a' b' l : a' <= a → b' <= b →
  eligible_coins mine M nSpendTime a b l ⊆+ eligible_coins mine M nSpendTime a' b' l.
Proof.
  intros Ha Hb. unfold eligible_coins. apply fmap_submseteq, sublist_submseteq. induction l as [|out l IH]; [done|].
  rewrite !filter_cons. destruct (decide (eligible mine M nSpendTime a b out = true)) as [E|E].
  - rewrite decide_True; [by constructor|]. unfold eligible in *. apply andb_true_iff in E as [-> E]. cbn.
    destruct (coin_from_me mine M (out_tx out)) as [f|], (coin_time M (out_tx out)) as [tm|]; try done.
    apply andb_true_iff in E as [E1%Z.leb_le ->]. rewrite andb_true_r. apply Z.leb_le. destruct f; lia.
  - destruct (decide _); by try constructor.
Qed.
Lemma eligible_sub M nSpendTime a b l : eligible_coins mine M nSpendTime a b l ⊆+ valued M <$> l.
Proof. apply fmap_submseteq, sublist_submseteq, sublist_filter. Qed.

Lemma NoDup_submseteq_2 {A} (l k : list A) : l ⊆+ k → NoDup k → NoDup l.
Proof. intros [r E]%submseteq_Permutation H. rewrite E in H. by apply NoDup_app in H as [? _]. Qed.

Section one_try.
Context (M : WalletMap) (nTargetValue nSpendTime : Z) (vCoins : list COutput).
Context (Hsh : ∀ l, shuffle l ≡ₚ l) (Hso : ∀ l, sort_down l ≡ₚ l) (Ht1 : 0 <= nTargetValue) (Ht2 : nTargetValue + CENT < 2 ^ 63).
Context (Hr : Forall (readable mine M) vCoins) (Htot : zsum (valued M <$> vCoins).*1 < int64_max).
Context (HL : Forall (listed nMinimumInputValue mine M) vCoins) (Hnd : NoDup ((λ out, (out_tx out, out_i out)) <$> vCoins)).
Abbreviation coins := (eligible_coins mine M nSpendTime 0 1 vCoins).

(** What a successful try returns *)
Definition good_choice (cs : gset Coin) (n : Z) : Prop :=
  nTargetValue <= n ∧ ∃ l, l ⊆+ coins ∧ NoDup l.*2 ∧ cs = list_to_set l.*2 ∧ n = zsum l.*1 ∧
    Forall (λ c, ∃ t, M !! c.1 = Some t ∧ IsSpent t c.2 = Some false) l.*2.
Lemma values_nonneg : Forall (λ c, 0 <= c.1) (valued M <$> vCoins).
Proof. apply Forall_fmap. eapply Forall_impl; [exact Hr|]. intros out (_ & _ & n & E & Hn). cbn. by rewrite E. Qed.
Lemma chosen_distinct l : l ⊆+ coins → NoDup l.*2 ∧ Forall (λ c, ∃ t, M !! c.1 = Some t ∧ IsSpent t c.2 = Some false) l.*2.
Proof.
  intros Hl. assert (Hl2 : l.*2 ⊆+ ((λ out, (out_tx out, out_i out)) <$> vCoins)).
  { replace ((λ out, (out_tx out, out_i out)) <$> vCoins) with (valued M <$> vCoins).*2 by (by rewrite <- list_fmap_compose).
    apply fmap_submseteq. etransitivity; [exact Hl|apply eligible_sub]. }
  split; [by eapply NoDup_submseteq_2|]. eapply Forall_submseteq; [exact Hl2|]. apply Forall_fmap. eapply Forall_impl; [exact HL|].
  intros out (t & k & o & Et & _ & _ & Es & _). exists t. done.
Qed.
Lemma min_conf_step a b dr : 0 <= a → 1 <= b →
  ∃ ok cs n d, SelectCoinsMinConf mine rand shuffle sort_down M nTargetValue nSpendTime a b vCoins dr = Some (ok, cs, n, d) ∧
    (ok = true → nTargetValue <= zsum coins.*1 ∧ good_choice cs n) ∧
    (ok = false → zsum (eligible_coins mine M nSpendTime a b vCoins).*1 < nTargetValue).
Proof.
  intros Ha Hb. assert (Hlt : zsum (eligible_coins mine M nSpendTime a b vCoins).*1 < int64_max).
  { eapply Z.le_lt_trans; [|exact Htot]. apply zsum_submseteq; [apply Forall_fmap, values_nonneg|]. apply fmap_submseteq, eligible_sub. }
  destruct (min_conf_ok mine rand shuffle sort_down Hsh Hso M nTargetValue nSpendTime Ht1 Ht2 a b vCoins dr Hr Hlt) as (ok & cs & n & d & E & H).
  exists ok, cs, n, d. split; [done|]. destruct ok; [|split; [done|tauto]]. destruct H as [(l & Hl & -> & -> & Hn) _]. split; [|done]. intros _.
  assert (Hs : l ⊆+ coins) by (etransitivity; [exact Hl|by apply eligible_mono]). split.
  - etransitivity; [exact Hn|]. apply zsum_submseteq; [|by apply fmap_submseteq]. apply Forall_fmap. eapply Forall_submseteq; [apply eligible_sub|apply values_nonneg].
  - split; [done|]. exists l. destruct (chosen_distinct l Hs). done.
Qed.
End one_try.

(** The choice without selected coins *)
Lemma SelectCoins_free M v cc vCoins nTargetValue nSpendTime drawn :
  from_option HasSelected false cc = false →
  (∀ l, shuffle l ≡ₚ l) → (∀ l, sort_down l ≡ₚ l) →
  0 <= nMinimumInputValue → 0 <= nTargetValue → nTargetValue + CENT < 2 ^ 63 →
  (∀ h t, M !! h = Some t → is_Some (wtx_IsFromMe mine M MINE_ALL t)) →
  AvailableCoins nCoinbaseMaturity nMinimumInputValue fConfChange mine v true cc M = Some vCoins →
  zsum (valued M <$> vCoins).*1 < int64_max →
  ∃ ok cs n d, SelectCoins nCoinbaseMaturity nMinimumInputValue fConfChange mine rand shuffle sort_down v M nTargetValue nSpendTime cc drawn =
      Some (ok, cs, n, d) ∧
    (ok = true ↔ nTargetValue <= zsum (eligible_coins mine M nSpendTime 0 1 vCoins).*1) ∧
    (ok = true → good_choice M nTargetValue nSpendTime vCoins cs n).
Proof.
  intros Hcc Hsh Hso Hmin Ht1 Ht2 Hfm Hav Htot. destruct (AvailableCoins_ok _ _ _ _ _ _ _ _ _ Hav) as [HL Hnd].
  assert (Hr : Forall (readable mine M) vCoins) by (eapply Forall_impl; [exact HL|]; intros; by eapply listed_readable).
  pose proof (min_conf_step M nTargetValue nSpendTime vCoins Hsh Hso Ht1 Ht2 Hr Htot HL Hnd) as Hstep.
  unfold SelectCoins. rewrite Hav. cbn [mbind option_bind]. rewrite Hcc.
  destruct (Hstep 1 6 drawn) as (ok1 & cs1 & n1 & d1 & E1 & H1 & _); [lia..|]. rewrite E1. cbn [mbind option_bind]. destruct ok1.
  { destruct (H1 eq_refl). eexists true, _, _, _. done. }
  destruct (Hstep 1 1 d1) as (ok2 & cs2 & n2 & d2 & E2 & H2 & _); [lia..|]. rewrite E2. cbn [mbind option_bind]. destruct ok2.
  { destruct (H2 eq_refl). eexists true, _, _, _. done. }
  destruct (Hstep 0 1 d2) as (ok3 & cs3 & n3 & d3 & E3 & H3 & H4); [lia..|]. rewrite E3. exists ok3, cs3, n3, d3. split; [done|].
  destruct ok3; [by destruct (H3 eq_refl)|]. specialize (H4 eq_refl). split; [|done]. split; [done|]. lia.
Qed.

(** A coin that is worth [c.1] and may be spent *)
Definition spendable_coin (M : WalletMap) (c : ValuedCoin) : Prop :=
  ∃ t (k : nat) o, M !! c.2.1 = Some t ∧ c.2.2 = Z.of_nat k ∧ vout (wtx_tx t) !! k = Some o ∧ c.1 = nValue o ∧ IsSpent t c.2.2 = Some false ∧
    mine (scriptPubKey o) = MINE_SPENDABLE ∧ nMinimumInputValue <= nValue o.
Lemma listed_spendable M out : listed nMinimumInputValue mine M out → out_fSpendable out = true → spendable_coin M (valued M out).
Proof.
  intros (t & k & o & Et & Ei & Ho & Hs & _ & Hm & Hv) Hsp. exists t, k, o. cbn [fst snd valued]. split; [done|]. split; [done|]. split; [done|].
  split; [|split; [done|split; [by apply Hm|done]]]. unfold valued, coin_value. cbn [fst snd]. rewrite Et, Ei. cbn. by rewrite Nat2Z.id, Ho.
Qed.
(** The choice with selected coins: all of them that can be spent *)
Lemma SelectCoins_named M v sel vCoins nTargetValue nSpendTime drawn : HasSelected sel = true → 0 <= nMinimumInputValue →
  (∀ h t, M !! h = Some t → is_Some (wtx_IsFromMe mine M MINE_ALL t)) →
  AvailableCoins nCoinbaseMaturity nMinimumInputValue fConfChange mine v true (Some sel) M = Some vCoins →
  zsum (valued M <$> vCoins).*1 < int64_max →
  let l := valued M <$> filter (λ out, out_fSpendable out = true) vCoins in
  SelectCoins nCoinbaseMaturity nMinimumInputValue fConfChange mine rand shuffle sort_down v M nTargetValue nSpendTime (Some sel) drawn =
    Some (nTargetValue <=? zsum l.*1, list_to_set l.*2, zsum l.*1, drawn) ∧
  NoDup l.*2 ∧ Forall (spendable_coin M) l ∧ Forall (λ c, IsSelected sel c.1 c.2 = true) l.*2 ∧ zsum l.*1 < int64_max.
Proof.
  intros Hs Hmin Hfm Hav Htot l. destruct (AvailableCoins_ok _ _ _ _ _ _ _ _ _ Hav) as [HL Hnd].
  assert (Hr : Forall (readable mine M) vCoins) by (eapply Forall_impl; [exact HL|]; intros; by eapply listed_readable).
  assert (Hl' : l ⊆+ valued M <$> vCoins) by apply fmap_submseteq, sublist_submseteq, sublist_filter.
  assert (Hlt : zsum l.*1 < int64_max). { eapply Z.le_lt_trans; [|exact Htot]. apply zsum_submseteq; [|by apply fmap_submseteq]. apply Forall_fmap. by eapply values_nonneg. }
  split; [|split; [|split; [|split; [|done]]]].
  - unfold SelectCoins. rewrite Hav. cbn [mbind option_bind from_option]. rewrite Hs.
    assert (Em : mapM (λ out, n ← coin_value M (out_tx out, out_i out); Some (n, (out_tx out, out_i out))) (filter (λ out, out_fSpendable out = true) vCoins) = Some l).
    { apply mapM_Some. unfold l. assert (Hf : Forall (readable mine M) (filter (λ out, out_fSpendable out = true) vCoins)) by (apply Forall_forall; rewrite Forall_forall in Hr; intros out [_ Hin]%list_elem_of_filter; by apply Hr).
      clear -Hf. induction Hf as [|out k (_ & _ & n & En & _) _ IH]; [constructor|]. rewrite fmap_cons. constructor; [|done]. unfold valued. by rewrite En. }
    rewrite Em. cbn [mbind option_bind]. rewrite insert_coins_ok; [done| |unfold int64_max in Hlt; lia].
    eapply Forall_submseteq; [exact Hl'|]. by eapply values_nonneg.
  - eapply NoDup_submseteq_2; [apply fmap_submseteq; exact Hl'|]. by rewrite <- list_fmap_compose.
  - apply Forall_fmap, Forall_forall. intros out [Ho Hin]%list_elem_of_filter. rewrite Forall_forall in HL. by apply listed_spendable; [apply HL|].
  - pose proof (AvailableCoins_selected _ _ _ _ _ _ _ _ _ Hs Hav) as Hsel. rewrite Forall_forall in Hsel. unfold l. rewrite <- list_fmap_compose. apply Forall_fmap, Forall_forall.
    intros out [_ Hin]%list_elem_of_filter. by apply Hsel.
Qed.

(** Whatever was found: different coins that may be spent, worth the value returned *)
Lemma SelectCoins_found M v cc vCoins nTargetValue nSpendTime drawn cs n d :
  (∀ l, shuffle l ≡ₚ l) → (∀ l, sort_down l ≡ₚ l) →
  0 <= nMinimumInputValue → 0 <= nTargetValue → nTargetValue + CENT < 2 ^ 63 →
  (∀ h t, M !! h = Some t → is_Some (wtx_IsFromMe mine M MINE_ALL t)) →
  AvailableCoins nCoinbaseMaturity nMinimumInputValue fConfChange mine v true cc M = Some vCoins →
  zsum (valued M <$> vCoins).*1 < int64_max →
  SelectCoins nCoinbaseMaturity nMinimumInputValue fConfChange mine rand shuffle sort_down v M nTargetValue nSpendTime cc drawn = Some (true, cs, n, d) →
  nTargetValue <= n < int64_max ∧ ∃ l, NoDup l.*2 ∧ cs = list_to_set l.*2 ∧ n = zsum l.*1 ∧ Forall (spendable_coin M) l ∧
    (from_option HasSelected false cc = false → l ⊆+ eligible_coins mine M nSpendTime 0 1 vCoins).
Proof.
  intros Hsh Hso Hmin Ht1 Ht2 Hfm Hav Htot H. destruct (AvailableCoins_ok _ _ _ _ _ _ _ _ _ Hav) as [HL Hnd].
  assert (Hr : Forall (readable mine M) vCoins) by (eapply Forall_impl; [exact HL|]; intros; by eapply listed_readable).
  assert (Hsub : ∀ l, l ⊆+ valued M <$> filter (λ out, out_fSpendable out = true) vCoins → NoDup l.*2 ∧ Forall (spendable_coin M) l ∧ zsum l.*1 < int64_max).
  { intros l Hl. assert (Hl' : l ⊆+ valued M <$> vCoins) by (etransitivity; [exact Hl|]; apply fmap_submseteq, sublist_submseteq, sublist_filter). split; [|split].
    - eapply NoDup_submseteq_2; [apply fmap_submseteq; exact Hl'|]. by rewrite <- list_fmap_compose.
    - eapply Forall_submseteq; [exact Hl|]. apply Forall_fmap, Forall_forall. intros out [Hs Hin]%list_elem_of_filter. rewrite Forall_forall in HL. by apply listed_spendable; [apply HL|].
    - eapply Z.le_lt_trans; [|exact Htot]. apply zsum_submseteq; [|by apply fmap_submseteq]. apply Forall_fmap. by eapply values_nonneg. }
  destruct (from_option HasSelected false cc) eqn:Hcc.
  - destruct cc as [sel|]; [|done]. cbn in Hcc. destruct (SelectCoins_named M v sel vCoins nTargetValue nSpendTime drawn Hcc Hmin Hfm Hav Htot) as (E & N1 & N2 & _ & N3).
    rewrite E in H. injection H as Hn <- <- <-. apply Z.leb_le in Hn. split; [done|]. eexists. do 4 (split; [done|]). done.
  - destruct (SelectCoins_free M v cc vCoins nTargetValue nSpendTime drawn Hcc Hsh Hso Hmin Ht1 Ht2 Hfm Hav Htot) as (ok & cs' & n' & d' & E & _ & Hg).
    rewrite E in H. injection H as -> -> -> ->. destruct (Hg eq_refl) as (Hn & l & Hl & _ & Ecs & En & _).
    destruct (Hsub l) as (N1 & N2 & N3).
    { etransitivity; [exact Hl|]. unfold eligible_coins. apply fmap_submseteq, sublist_submseteq. clear. induction vCoins as [|out vc IH]; [done|]. rewrite !filter_cons.
      destruct (decide (eligible mine M nSpendTime 0 1 out = true)) as [He|He].
      - rewrite decide_True; [by constructor|]. unfold eligible in He. by apply andb_true_iff in He as [? _].
      - destruct (decide _); by try constructor. }
    split; [lia|]. exists l. done.
Qed.

(** The coins a choice is made from *)
Definition usable_coins (M : WalletMap) (cc : option (gset COutPoint)) (nSpendTime : Z) (vCoins : list COutput) : list ValuedCoin :=
  if from_option HasSelected false cc then valued M <$> filter (λ out, out_fSpendable out = true) vCoins
  else eligible_coins mine M nSpendTime 0 1 vCoins.
(** A choice that failed: they do not reach the amount *)
Lemma SelectCoins_short M v cc vCoins nTargetValue nSpendTime drawn cs n d :
  (∀ l, shuffle l ≡ₚ l) → (∀ l, sort_down l ≡ₚ l) →
  0 <= nMinimumInputValue → 0 <= nTargetValue → nTargetValue + CENT < 2 ^ 63 →
  (∀ h t, M !! h = Some t → is_Some (wtx_IsFromMe mine M MINE_ALL t)) →
  AvailableCoins nCoinbaseMaturity nMinimumInputValue fConfChange mine v true cc M = Some vCoins →
  zsum (valued M <$> vCoins).*1 < int64_max →
  SelectCoins nCoinbaseMaturity nMinimumInputValue fConfChange mine rand shuffle sort_down v M nTargetValue nSpendTime cc drawn = Some (false, cs, n, d) →
  zsum (usable_coins M cc nSpendTime vCoins).*1 < nTargetValue.
Proof.
  intros Hsh Hso Hmin Ht1 Ht2 Hfm Hav Htot H. unfold usable_coins. destruct (from_option HasSelected false cc) eqn:Hcc.
  - destruct cc as [sel|]; [|done]. destruct (SelectCoins_named M v sel vCoins nTargetValue nSpendTime drawn Hcc Hmin Hfm Hav Htot) as (E & _).
    rewrite E in H. injection H as Hn _ _ _. by apply Z.leb_gt in Hn.
  - destruct (SelectCoins_free M v cc vCoins nTargetValue nSpendTime drawn Hcc Hsh Hso Hmin Ht1 Ht2 Hfm Hav Htot) as (ok & cs' & n' & d' & E & Hiff & _).
    rewrite E in H. injection H as -> _ _ _. apply Z.lt_nge. intros Hge. by apply Hiff in Hge.
Qed.

(** C19. Choosing coins.  When the wallet lists the coins it may spend without error
    and no outputs were selected by hand, [SelectCoins] finds coins for the amount
    exactly when those that are spendable, not later than the new transaction, and
    confirmed or from ourselves reach it, whatever the random draws and the order of
    the coins.  The coins it returns are different coins of that list, none of them
    spent, the value it returns is theirs, and it is at least the amount.  With
    outputs selected by hand it returns all those of them that are listed and can be
    spent, unspent and different, whatever their time, with their value, and succeeds
    exactly when they reach the amount. *)
Theorem SelectCoins_ok M v coinControl vCoins nTargetValue nSpendTime drawn :
  (∀ l, shuffle l ≡ₚ l) → (∀ l, sort_down l ≡ₚ l) →
  0 <= nMinimumInputValue → 0 <= nTargetValue → nTargetValue + CENT < 2 ^ 63 →
  (∀ h t, M !! h = Some t → is_Some (wtx_IsFromMe mine M MINE_ALL t)) →
  AvailableCoins nCoinbaseMaturity nMinimumInputValue fConfChange mine v true coinControl M = Some vCoins →
  zsum (valued M <$> vCoins).*1 < int64_max →
  ∃ ok cs n d, SelectCoins nCoinbaseMaturity nMinimumInputValue fConfChange mine rand shuffle sort_down v M nTargetValue nSpendTime coinControl drawn =
      Some (ok, cs, n, d) ∧
    if from_option HasSelected false coinControl then
      let l := valued M <$> filter (λ out, out_fSpendable out = true) vCoins in
      cs = list_to_set l.*2 ∧ n = zsum l.*1 ∧ (ok = true ↔ nTargetValue <= n) ∧ NoDup l.*2 ∧ Forall (spendable_coin M) l ∧
      Forall (λ c, from_option (λ sel, IsSelected sel c.1 c.2) false coinControl = true) l.*2
    else
      (ok = true ↔ nTargetValue <= zsum (eligible_coins mine M nSpendTime 0 1 vCoins).*1) ∧
      (ok = true → good_choice M nTargetValue nSpendTime vCoins cs n).
Proof.
  intros Hsh Hso Hmin Ht1 Ht2 Hfm Hav Htot. destruct (from_option HasSelected false coinControl) eqn:Hcc; [|by apply SelectCoins_free].
  destruct coinControl as [sel|]; [|done]. cbn in Hcc. destruct (SelectCoins_named M v sel vCoins nTargetValue nSpendTime drawn Hcc Hmin Hfm Hav Htot) as (E & H1 & H2 & H3 & _).
  do 4 eexists. split; [exact E|]. split; [done|]. split; [done|]. split; [apply Z.leb_le|done].
Qed.
End SelectCoins_theorem.

(** A wallet that was paid in the best block *)
#[local] Existing Instance mod_digests.
Definition paying_block : Node :=
  mkNode (mkIndex 1 0 10 0 (replicate W256 0) 1 1400000050 0) None None 0 0 0 0 COutPoint_SetNull 0 (replicate W256 0) (GetHash payment) 0.
Definition paid_view : NodeView := mkView {[replicate W256 9 := paying_block]} (Some (replicate W256 9)) 10 1400000200 (λ _, false).
Definition paid_map : WalletMap := {[GetHash payment := in_block payment]}.
Definition paid_coins : list COutput := [mkOutput (GetHash payment) 0 1 true].
Lemma SelectCoins_ok_witness : AvailableCoins 500 100 true own paid_view true None paid_map = Some paid_coins ∧
  ∃ ok cs n d, SelectCoins 500 100 true own (λ _, 0) id id paid_view paid_map 4000 1400000300 None 0 = Some (ok, cs, n, d) ∧
    (ok = true ↔ 4000 <= 5000) ∧ (ok = true → good_choice own paid_map 4000 1400000300 paid_coins cs n).
Proof.
  assert (E : AvailableCoins 500 100 true own paid_view true None paid_map = Some paid_coins) by (vm_compute; reflexivity).
  split; [exact E|]. refine (SelectCoins_ok 500 100 true own (λ _, 0) id id paid_map paid_view None paid_coins 4000 1400000300 0 _ _ _ _ _ _ E _).
  - intros l. reflexivity.
  - intros l. reflexivity.
  - lia.
  - lia.
  - vm_compute. reflexivity.
  - intros h t H. unfold paid_map in H. apply lookup_singleton_Some in H as [<- <-]. vm_compute. eexists. reflexivity.
  - vm_compute. reflexivity.
Defined.
