(* ===== verification/KeyPool.v ===== *)
(** * The key pool (src/wallet.cpp)

    Keys that were generated ahead: their indexes in [setKeyPool], the keys in the
    "pool" records of the wallet file, the private keys in the key store.  A
    [CReserveKey] takes the oldest index out of the set and later keeps the key
    (the record is erased) or returns the index.

    [new_key] is the stream of keys that MakeNewKey draws.  The creation times and
    the wallet version that [GenerateNewKey] also notes are left out; writing to the
    file succeeds.  An exception or a failed assertion is [None]. *)

From stdpp Require Import base list numbers option gmap sorting.
From Stdlib Require Import ZArith Lia.
From S2P Require Import Prelude Uint256 Bignum Serialize Tx Script Interp SigCheck Utxo ScriptStd Base58 Key KeyStore.

Open Scope Z_scope.

(** [CKeyPool]: when the key was made, and the public key *)
Abbreviation CKeyPool := (Z * list Z)%type.

Record KeyWallet := mkKeyWallet {
  kw_store : KeyStore;
  setKeyPool : gset Z;
  pool_file : gmap Z CKeyPool;
  vchDefaultKey : list Z;
  kw_drawn : nat
}.
Definition with_pool (w : KeyWallet) (s : gset Z) (f : gmap Z CKeyPool) : KeyWallet := mkKeyWallet (kw_store w) s f (vchDefaultKey w) (kw_drawn w).
Definition with_store (w : KeyWallet) (s : KeyStore) : KeyWallet := mkKeyWallet s (setKeyPool w) (pool_file w) (vchDefaultKey w) (kw_drawn w).

(** [*setKeyPool.begin()] and [*(--setKeyPool.end())] *)
Definition pool_order (s : gset Z) : list Z := merge_sort Z.le (elements s).
Definition first_index (s : gset Z) : option Z := head (pool_order s).
Definition last_index (s : gset Z) : option Z := head (rev (pool_order s)).

Section KeyPool.
Context {DG : Digests} {C : OpenSSL_EC} {E : EVP}.
Variable new_key : nat → CKey.
Variable now : Z.
(** [-keypool], as [max<uint64_t>(GetArg("-keypool", 100), 0)] *)
Variable keypool_arg : Z.

(** [GenerateNewKey] *)
Definition GenerateNewKey (w : KeyWallet) : option (list Z * KeyWallet) :=
  let key := new_key (kw_drawn w) in
  let '(ok, s) := AddKey (kw_store w) key in
  if negb ok then None else Some (key_GetPubKey key, mkKeyWallet s (setKeyPool w) (pool_file w) (vchDefaultKey w) (S (kw_drawn w))).
(** [walletdb.WritePool(nIndex, CKeyPool(GenerateNewKey())); setKeyPool.insert(nIndex);] *)
Definition add_pool_key (nIndex : Z) (w : KeyWallet) : option KeyWallet :=
  '(pk, w) ← GenerateNewKey w; Some (with_pool w (setKeyPool w ∪ {[nIndex]}) (<[nIndex := (now, pk)]> (pool_file w))).

(** [NewKeyPool]: all indexes are dropped, and [nKeys] keys numbered from 1 *)
Fixpoint new_keys (n : nat) (i : Z) (w : KeyWallet) : option KeyWallet :=
  match n with
  | O => Some w
  | S n => w ← add_pool_key (i + 1) w; new_keys n (i + 1) w
  end.
Definition NewKeyPool (nSize : Z) (w : KeyWallet) : option (bool * KeyWallet) :=
  let w := with_pool w ∅ (foldr delete (pool_file w) (pool_order (setKeyPool w))) in
  if IsLocked (kw_store w) then Some (false, w)
  else w ← new_keys (Z.to_nat (if 0 <? nSize then nSize else keypool_arg)) 0 w; Some (true, w).

(** [TopUpKeyPool]; the loop runs at most as often as keys are missing *)
Fixpoint top_up_loop (fuel : nat) (nTargetSize : Z) (w : KeyWallet) : option KeyWallet :=
  if Z.of_nat (size (setKeyPool w)) <? u64 (nTargetSize + 1) then
    match fuel with
    | O => None
    | S fuel =>
        let nEnd := match last_index (setKeyPool w) with None => 1 | Some n => u64 (n + 1) end in
        w ← add_pool_key nEnd w; top_up_loop fuel nTargetSize w
    end
  else Some w.
Definition TopUpKeyPool (nSize : Z) (w : KeyWallet) : option (bool * KeyWallet) :=
  if IsLocked (kw_store w) then Some (false, w)
  else
    let nTargetSize := if 0 <? nSize then nSize else keypool_arg in
    w ← top_up_loop (Z.to_nat (nTargetSize + 1)) nTargetSize w; Some (true, w).

(** [ReserveKeyFromKeyPool]: the index, or -1, and the key *)
Definition ReserveKeyFromKeyPool (w : KeyWallet) : option (Z * CKeyPool * KeyWallet) :=
  w ← (if negb (IsLocked (kw_store w)) then snd <$> TopUpKeyPool 0 w else Some w);
  match first_index (setKeyPool w) with
  | None => Some (-1, (0, []), w)
  | Some nIndex =>
      let w := with_pool w (setKeyPool w ∖ {[nIndex]}) (pool_file w) in
      keypool ← pool_file w !! nIndex;
      if negb (HaveKey (kw_store w) (pubkey_GetID keypool.2)) then None
      else if negb (CPubKey_IsValid keypool.2) then None
      else Some (nIndex, keypool, w)
  end.
Definition KeepKey (nIndex : Z) (w : KeyWallet) : KeyWallet := with_pool w (setKeyPool w) (delete nIndex (pool_file w)).
Definition ReturnKey (nIndex : Z) (w : KeyWallet) : KeyWallet := with_pool w (setKeyPool w ∪ {[nIndex]}) (pool_file w).
(** [AddReserveKey]; the set is not empty *)
Definition AddReserveKey (keypool : CKeyPool) (w : KeyWallet) : option (Z * KeyWallet) :=
  n ← last_index (setKeyPool w); Some (1 + n, with_pool w (setKeyPool w ∪ {[1 + n]}) (<[1 + n := keypool]> (pool_file w))).

(** [GetKeyFromPool] *)
Definition GetKeyFromPool (fAllowReuse : bool) (w : KeyWallet) : option (option (list Z) * KeyWallet) :=
  '(nIndex, keypool, w) ← ReserveKeyFromKeyPool w;
  if nIndex =? -1 then
    if fAllowReuse && CPubKey_IsValid (vchDefaultKey w) then Some (Some (vchDefaultKey w), w)
    else if IsLocked (kw_store w) then Some (None, w)
    else '(pk, w) ← GenerateNewKey w; Some (Some pk, w)
  else Some (Some keypool.2, KeepKey nIndex w).
(** [GetOldestKeyPoolTime] *)
Definition GetOldestKeyPoolTime (w : KeyWallet) : option (Z * KeyWallet) :=
  '(nIndex, keypool, w) ← ReserveKeyFromKeyPool w;
  if nIndex =? -1 then Some (now, w) else Some (keypool.1, ReturnKey nIndex w).

(** ** [CReserveKey] *)

Record CReserveKey := mkReserve { rk_nIndex : Z; rk_vchPubKey : list Z }.
Definition CReserveKey_new : CReserveKey := mkReserve (-1) [].
Definition GetReservedKey (r : CReserveKey) (w : KeyWallet) : option (list Z * CReserveKey * KeyWallet) :=
  '(r, w) ← (if rk_nIndex r =? -1 then
               '(nIndex, keypool, w) ← ReserveKeyFromKeyPool w;
               Some (mkReserve nIndex (if negb (nIndex =? -1) then keypool.2 else vchDefaultKey w), w)
             else Some (r, w));
  if negb (CPubKey_IsValid (rk_vchPubKey r)) then None else Some (rk_vchPubKey r, r, w).
Definition rk_KeepKey (r : CReserveKey) (w : KeyWallet) : CReserveKey * KeyWallet :=
  (CReserveKey_new, if negb (rk_nIndex r =? -1) then KeepKey (rk_nIndex r) w else w).
Definition rk_ReturnKey (r : CReserveKey) (w : KeyWallet) : CReserveKey * KeyWallet :=
  (CReserveKey_new, if negb (rk_nIndex r =? -1) then ReturnKey (rk_nIndex r) w else w).

(** [GetAllReserveKeys] *)
Definition GetAllReserveKeys (w : KeyWallet) : option (gset base_uint) :=
  foldr (λ id acc,
    acc ← acc; keypool ← pool_file w !! id;
    if negb (CPubKey_IsValid keypool.2) then None
    else if negb (HaveKey (kw_store w) (pubkey_GetID keypool.2)) then None
    else Some ({[pubkey_GetID keypool.2]} ∪ acc)) (Some ∅) (pool_order (setKeyPool w)).
End KeyPool.

(** ** First and last index *)

Lemma pool_order_perm s : pool_order s ≡ₚ elements s.
Proof. apply merge_sort_Permutation. Qed.
Lemma elem_pool_order s i : i ∈ pool_order s ↔ i ∈ s.
Proof. by rewrite pool_order_perm, elem_of_elements. Qed.
Lemma pool_order_sorted s : StronglySorted Z.le (pool_order s).
Proof. apply Sorted_StronglySorted; [exact Z.le_trans|]. apply Sorted_merge_sort. intros x y. lia. Qed.
Lemma sorted_last l x : StronglySorted Z.le l → head (rev l) = Some x → x ∈ l ∧ ∀ y, y ∈ l → y <= x.
Proof.
  intros Hs Hx. destruct (rev l) as [|z r] eqn:Er; [done|]. injection Hx as ->.
  assert (El : l = rev r ++ [x]) by (rewrite <- (rev_involutive l), Er; done). rewrite El in Hs |- *. split; [set_solver|]. intros y.
  apply StronglySorted_app in Hs as (H & _ & _). intros [Hy|Hy%list_elem_of_singleton]%elem_of_app; [|lia]. by apply H; [|apply list_elem_of_singleton].
Qed.
Lemma first_index_ok s i : first_index s = Some i → i ∈ s ∧ ∀ j, j ∈ s → i <= j.
Proof.
  unfold first_index. intros H. pose proof (pool_order_sorted s) as Hs. destruct (pool_order s) as [|x l] eqn:Eo; [done|]. injection H as ->.
  inversion Hs as [|? ? _ Hf]; subst. rewrite Forall_forall in Hf. split; [apply elem_pool_order; rewrite Eo; apply list_elem_of_here|].
  intros j Hj. apply elem_pool_order in Hj. rewrite Eo in Hj. apply elem_of_cons in Hj as [->|Hj]; [lia|by apply Hf].
Qed.
Lemma first_index_none s : first_index s = None ↔ s = ∅.
Proof.
  unfold first_index. split.
  - intros H. destruct (pool_order s) as [|x l] eqn:Eo; [|done]. apply leibniz_equiv. intros j. rewrite <- elem_pool_order, Eo. set_solver.
  - intros ->. done.
Qed.
Lemma last_index_ok s i : last_index s = Some i → i ∈ s ∧ ∀ j, j ∈ s → j <= i.
Proof. intros [H1 H2]%sorted_last; [|apply pool_order_sorted]. rewrite elem_pool_order in H1. split; [done|]. intros j Hj. apply H2. by apply elem_pool_order. Qed.
Lemma last_index_none s : last_index s = None → s = ∅.
Proof.
  unfold last_index. intros H. apply first_index_none. unfold first_index. destruct (pool_order s) as [|x l]; [done|]. cbn in H.
  destruct (rev l); done.
Qed.

(** ** Keys are handed out once *)

Section pool.
Context {DG : Digests} {C : OpenSSL_EC} {E : EVP} (new_key : nat → CKey) (now keypool_arg : Z).
(** The generator does not repeat itself in the first [N] keys, and keys have a public key *)
Context (N : nat) (Hfresh : ∀ m n, (m < N)%nat → (n < N)%nat → key_GetPubKey (new_key m) = key_GetPubKey (new_key n) → m = n).
Context (Hvalid : ∀ n, (n < N)%nat → CPubKey_IsValid (key_GetPubKey (new_key n)) = true).
Context (Harg : 0 <= keypool_arg < 2 ^ 32).

(** The wallet, the reservations that are held, and the keys that were kept *)
Record Sys := mkSys { sys_w : KeyWallet; sys_held : gmap nat CReserveKey; sys_kept : list (list Z) }.
Definition drawn_before (n : nat) (pk : list Z) : Prop := ∃ m, (m < n)%nat ∧ pk = key_GetPubKey (new_key m).
Definition holds (r : CReserveKey) : Prop := rk_nIndex r ≠ -1.

Record pool_ok (w : KeyWallet) : Prop := {
  pool_range i : i ∈ setKeyPool w → 1 <= i < 2 ^ 63;
  pool_filed i : i ∈ setKeyPool w → is_Some (pool_file w !! i);
  pool_entry i t pk : pool_file w !! i = Some (t, pk) → HaveKey (kw_store w) (pubkey_GetID pk) = true ∧ CPubKey_IsValid pk = true ∧ drawn_before (kw_drawn w) pk;
  pool_distinct i j t u pk : pool_file w !! i = Some (t, pk) → pool_file w !! j = Some (u, pk) → i = j
}.
Record held_ok (w : KeyWallet) (R : gmap nat CReserveKey) : Prop := {
  held_filed h r : R !! h = Some r → holds r → ∃ t, pool_file w !! rk_nIndex r = Some (t, rk_vchPubKey r);
  held_below h r : R !! h = Some r → holds r → (1 <= rk_nIndex r) ∧ (rk_nIndex r ∉ setKeyPool w) ∧ (∃ e, e ∈ setKeyPool w ∧ rk_nIndex r < e);
  held_distinct h g r q : R !! h = Some r → R !! g = Some q → holds r → rk_nIndex r = rk_nIndex q → h = g
}.
Record kept_ok (w : KeyWallet) (kept : list (list Z)) : Prop := {
  kept_nodup : NoDup kept;
  kept_drawn : Forall (drawn_before (kw_drawn w)) kept;
  kept_gone i t pk : pool_file w !! i = Some (t, pk) → pk ∉ kept
}.
Definition sys_ok (s : Sys) : Prop := pool_ok (sys_w s) ∧ held_ok (sys_w s) (sys_held s) ∧ kept_ok (sys_w s) (sys_kept s).

Lemma drawn_mono n m pk : (n <= m)%nat → drawn_before n pk → drawn_before m pk.
Proof. intros Hle (k & Hk & ->). exists k. split; [lia|done]. Qed.

(** A key that the store took is in it, with those it had *)
Lemma AddKey_have s key s' : AddKey s key = (true, s') →
  HaveKey s' (pubkey_GetID (key_GetPubKey key)) = true ∧ ∀ id, HaveKey s id = true → HaveKey s' id = true.
Proof.
  unfold AddKey. destruct (HaveWatchOnly s _); [done|]. unfold IsCrypted. destruct (fUseCrypto s) eqn:Ef; cbn [negb].
  - destruct (IsLocked s); [done|]. destruct (EncryptSecret _ _ _); [|done]. unfold AddCryptedKey, SetCrypted. rewrite Ef. cbn [negb]. intros [= <-].
    unfold HaveKey, IsCrypted. cbn. rewrite Ef. cbn [negb]. split; [rewrite lookup_insert_eq; by apply bool_decide_eq_true|].
    intros id. rewrite !bool_decide_eq_true. intros Hid. by apply lookup_insert_is_Some'; right.
  - intros [= <-]. unfold HaveKey, IsCrypted, basic_HaveKey. cbn. rewrite Ef. cbn [negb]. split; [rewrite lookup_insert_eq; by apply bool_decide_eq_true|].
    intros id. rewrite !bool_decide_eq_true. intros Hid. by apply lookup_insert_is_Some'; right.
Qed.
Lemma generate_ok w R kept pk w' : sys_ok (mkSys w R kept) → GenerateNewKey new_key w = Some (pk, w') →
  sys_ok (mkSys w' R kept) ∧ pk = key_GetPubKey (new_key (kw_drawn w)) ∧ kw_drawn w' = S (kw_drawn w) ∧
  setKeyPool w' = setKeyPool w ∧ pool_file w' = pool_file w ∧ HaveKey (kw_store w') (pubkey_GetID pk) = true.
Proof.
  intros ([P1 P2 P3 P4] & [H1 H2 H3] & [K1 K2 K3]). unfold GenerateNewKey. destruct (AddKey _ _) as [ok s'] eqn:Ea. destruct ok; [|done]. intros [= <- <-].
  destruct (AddKey_have _ _ _ Ea) as [Hh Hm]. split; [|done]. split; [|split; [by split|]].
  - split; cbn; try done. intros i t pk Hi. destruct (P3 i t pk Hi) as (? & ? & ?). split; [by apply Hm|]. split; [done|]. eapply (drawn_mono (kw_drawn w)); [lia|done].
  - split; cbn; try done. eapply Forall_impl; [exact K2|]. intros. eapply (drawn_mono (kw_drawn w)); [cbn; lia|done].
Qed.
Lemma not_drawn w pk : (kw_drawn w < N)%nat → drawn_before (kw_drawn w) pk → pk ≠ key_GetPubKey (new_key (kw_drawn w)).
Proof. intros HN (m & Hm & ->) Eq. apply Hfresh in Eq; lia. Qed.
(** A key filed under an index above those of the pool *)
Lemma add_pool_ok n w R kept w' : sys_ok (mkSys w R kept) → (kw_drawn w < N)%nat → 1 <= n < 2 ^ 63 → (∀ i, i ∈ setKeyPool w → i < n) →
  add_pool_key new_key now n w = Some w' → sys_ok (mkSys w' R kept) ∧ setKeyPool w' = setKeyPool w ∪ {[n]}.
Proof.
  intros S HN Hn Habove ([pk w1] & Hg & [= <-])%bind_Some. pose proof S as ([Q1 Q2 Q3 Q4] & [G1 G2 G3] & [L1 L2 L3]). cbn [sys_w sys_held sys_kept] in *.
  destruct (generate_ok _ _ _ _ _ S Hg) as (([P1 P2 P3 P4] & [H1 H2 H3] & [K1 K2 K3]) & Hpk & Hd & Hs & Hf & Hk). cbn [sys_w sys_held sys_kept] in *.
  rewrite Hf in P3. split; [|cbn; by rewrite Hs].
  assert (Hnew : ∀ i t, pool_file w !! i = Some (t, pk) → False).
  { intros i t Hi. destruct (Q3 _ _ _ Hi) as (_ & _ & Hdr). by apply (not_drawn w) in Hdr. }
  assert (Hheld : ∀ h r, R !! h = Some r → holds r → rk_nIndex r ≠ n).
  { intros h r Hr Hh Heq. destruct (G2 _ _ Hr Hh) as (_ & _ & e & He & Hlt). specialize (Habove _ He). lia. }
  split; [|split]; cbn [sys_w sys_held sys_kept].
  - split; cbn; rewrite ?Hs, ?Hf.
    + intros i [Hi| ->%elem_of_singleton]%elem_of_union; [by apply Q1|done].
    + intros i Hi. destruct (decide (i = n)) as [->|]; [by rewrite lookup_insert_eq|]. rewrite lookup_insert_ne by done. apply Q2. set_solver.
    + intros i t pk0 [[<- [= <- <-]]|[_ Hi]]%lookup_insert_Some; [|by apply (P3 i t)].
      split; [done|]. rewrite Hpk. split; [by apply Hvalid|]. exists (kw_drawn w). split; [lia|done].
    + intros i j t u pk0. rewrite !lookup_insert_Some. intros [[<- [= <- <-]]|[_ Hi]] [[<- Hj]|[_ Hj]]; try done.
      * by apply Hnew in Hj.
      * injection Hj as <- <-. by apply Hnew in Hi.
      * by eapply Q4.
  - split; cbn; rewrite ?Hs, ?Hf.
    + intros h r Hr Hh. rewrite lookup_insert_ne by (intros Heq; by eapply Hheld). by eapply G1.
    + intros h r Hr Hh. destruct (G2 _ _ Hr Hh) as (? & ? & e & ? & ?). specialize (Hheld _ _ Hr Hh). split; [done|]. split; [set_solver|]. exists e. split; [set_solver|done].
    + done.
  - split; cbn; rewrite ?Hf; [done|done|]. intros i t pk0 [[<- [= <- <-]]|[_ Hi]]%lookup_insert_Some; [|by eapply L3].
    intros Hin. rewrite Forall_forall in L2. apply L2, (not_drawn w) in Hin; done.
Qed.
(** All indexes below a bound *)
Definition below (w : KeyWallet) (b : Z) : Prop := ∀ i, i ∈ setKeyPool w → i < b.
Lemma next_index_ok w R kept b : sys_ok (mkSys w R kept) → below w b → 1 < b <= 2 ^ 63 →
  let nEnd := match last_index (setKeyPool w) with None => 1 | Some n => u64 (n + 1) end in
  1 <= nEnd <= b ∧ below w nEnd.
Proof.
  intros (P & _ & _) Hb Hb2. cbn. destruct (last_index (setKeyPool w)) as [n|] eqn:El.
  - apply last_index_ok in El as [Hin Hmax]. specialize (Hb _ Hin). pose proof (pool_range _ P _ Hin) as Hr. cbn in Hr. rewrite u64_small by lia.
    split; [lia|]. intros i Hi. specialize (Hmax _ Hi). lia.
  - apply last_index_none in El. unfold below. rewrite El. split; [lia|set_solver].
Qed.
Lemma add_pool_drawn n w w' : add_pool_key new_key now n w = Some w' → kw_drawn w' = S (kw_drawn w).
Proof.
  intros ([pk w1] & Hg & [= <-])%bind_Some. unfold GenerateNewKey in Hg. destruct (AddKey _ _) as [[] ?]; [|done]. by injection Hg as <- <-.
Qed.
Lemma top_up_drawn fuel t : ∀ w w', top_up_loop new_key now fuel t w = Some w' → (kw_drawn w <= kw_drawn w')%nat.
Proof.
  induction fuel as [|fuel IH]; intros w w'; cbn [top_up_loop]; destruct (_ <? _); try done; try (intros [= <-]; lia).
  intros (w1 & Ha%add_pool_drawn & Ht%IH)%bind_Some. lia.
Qed.
(** Topping up adds one index each time round, so it ends within the fuel given *)
Lemma top_up_ok fuel nTargetSize R kept : 0 <= nTargetSize < 2 ^ 64 - 1 → ∀ w b w', sys_ok (mkSys w R kept) → below w b → 1 < b → b + Z.of_nat fuel <= 2 ^ 63 - 1 →
  nTargetSize + 1 <= Z.of_nat (size (setKeyPool w)) + Z.of_nat fuel → top_up_loop new_key now fuel nTargetSize w = Some w' → (kw_drawn w' <= N)%nat →
  sys_ok (mkSys w' R kept) ∧ below w' (b + Z.of_nat fuel) ∧ nTargetSize < Z.of_nat (size (setKeyPool w')).
Proof.
  intros Ht. induction fuel as [|fuel IH]; intros w b w' Sy Hb Hb1 Hb2 Hsz; cbn [top_up_loop]; rewrite u64_small by lia.
  - rewrite (proj2 (Z.ltb_ge _ _)) by lia. intros [= <-] _. split; [done|]. split; [by rewrite Z.add_0_r|lia].
  - destruct (Z.ltb_spec (Z.of_nat (size (setKeyPool w))) (nTargetSize + 1)).
    + destruct (next_index_ok w R kept b Sy Hb ltac:(lia)) as [Hn Ha]. set (nEnd := match last_index (setKeyPool w) with None => 1 | Some n => u64 (n + 1) end) in *.
      intros (w1 & Ea & Et)%bind_Some HN. pose proof (top_up_drawn _ _ _ _ Et). pose proof (add_pool_drawn _ _ _ Ea).
      apply (add_pool_ok nEnd w R kept) in Ea as [Sy1 Es]; [|done|lia|lia|done].
      assert (Hsize : size (setKeyPool w1) = S (size (setKeyPool w))).
      { rewrite Es. rewrite size_union by (intros i Hi ->%elem_of_singleton; specialize (Ha _ Hi); lia). rewrite size_singleton. lia. }
      assert (Hb' : below w1 (b + 1)). { intros i. rewrite Es. intros [Hi%Hb| ->%elem_of_singleton]%elem_of_union; lia. }
      destruct (IH w1 (b + 1) w' Sy1 Hb' ltac:(lia) ltac:(lia) ltac:(lia) Et HN) as (? & Hb3 & ?).
      split; [done|]. split; [intros i Hi; specialize (Hb3 _ Hi); lia|done].
    + intros [= <-] _. split; [done|]. split; [intros i Hi; specialize (Hb _ Hi); lia|lia].
Qed.

(** Reserving: what [ReserveKeyFromKeyPool] does after topping up *)
Lemma reserve_ok w R kept i kp w' : sys_ok (mkSys w R kept) → below w (2 ^ 62) → ReserveKeyFromKeyPool new_key now keypool_arg w = Some (i, kp, w') →
  (kw_drawn w' <= N)%nat → ∃ w1, sys_ok (mkSys w1 R kept) ∧
    ((i = -1 ∧ w' = w1 ∧ setKeyPool w1 = ∅) ∨
     (1 <= i ∧ i ∈ setKeyPool w1 ∧ (∀ j, j ∈ setKeyPool w1 → i <= j) ∧ pool_file w1 !! i = Some kp ∧
      w' = with_pool w1 (setKeyPool w1 ∖ {[i]}) (pool_file w1))).
Proof.
  intros Sy Hb (w1 & Hw1 & H)%bind_Some HN.
  assert (Hd : kw_drawn w' = kw_drawn w1).
  { destruct (first_index _); [|by injection H as <- <- <-]. apply bind_Some in H as (kp0 & _ & H). destruct (negb (HaveKey _ _)); [done|].
    destruct (negb (CPubKey_IsValid _)); [done|]. by injection H as <- <- <-. }
  assert (Sy1 : sys_ok (mkSys w1 R kept)).
  { destruct (negb (IsLocked (kw_store w))) eqn:El; [|by injection Hw1 as <-]. unfold TopUpKeyPool in Hw1. rewrite (proj1 (negb_true_iff _) El) in Hw1. cbn in Hw1.
    destruct (top_up_loop new_key now _ keypool_arg w) as [w2|] eqn:Et; [|done]. injection Hw1 as <-. rewrite Hd in HN.
    apply (top_up_ok (Z.to_nat (keypool_arg + 1)) keypool_arg R kept ltac:(lia) w (2 ^ 62) w2 Sy Hb ltac:(lia) ltac:(lia) ltac:(lia) Et HN). }
  destruct (first_index (setKeyPool w1)) as [k|] eqn:Ef; [|injection H as <- <- <-; exists w1; split; [done|]; left; by apply first_index_none in Ef].
  apply first_index_ok in Ef as [Hin Hmin]. apply bind_Some in H as (kp0 & Hk & H). cbn in Hk. clear Hw1.
  destruct (negb (HaveKey _ _)); [done|]. destruct (negb (CPubKey_IsValid _)); [done|]. injection H as <- <- <-.
  exists w1. split; [done|]. right. destruct Sy1 as [P _]. specialize (pool_range _ P _ Hin). cbn. split; [lia|done].
Qed.
(** The index just taken, kept by a holder who had none, while the pool is not drained *)
Lemma reserved_held w R kept h i t pk : sys_ok (mkSys w R kept) → i ∈ setKeyPool w → (∀ j, j ∈ setKeyPool w → i <= j) → pool_file w !! i = Some (t, pk) →
  setKeyPool w ∖ {[i]} ≠ ∅ → (∀ r, R !! h = Some r → ¬ holds r) →
  sys_ok (mkSys (with_pool w (setKeyPool w ∖ {[i]}) (pool_file w)) (<[h := mkReserve i pk]> R) kept).
Proof.
  intros ([P1 P2 P3 P4] & [H1 H2 H3] & [K1 K2 K3]) Hin Hmin Hf Hne Hh. cbn [sys_w sys_held sys_kept] in *.
  apply set_choose_L in Hne as [e He].
  assert (Hlow : ∀ g r, R !! g = Some r → holds r → rk_nIndex r < i ∨ (i < rk_nIndex r)).
  { intros g r Hr Hg. destruct (H2 _ _ Hr Hg) as (_ & Hn & _). destruct (decide (rk_nIndex r = i)) as [Eq|]; [by rewrite Eq in Hn|lia]. }
  split; [|split; [|by split]]; cbn [sys_w sys_held sys_kept].
  - split; cbn; [intros j Hj; apply P1; set_solver|intros j Hj; apply P2; set_solver|done|done].
  - split; cbn.
    + intros g r [[<- <-]|[_ Hr]]%lookup_insert_Some Hg; [by exists t|by eapply H1].
    + intros g r [[<- <-]|[_ Hr]]%lookup_insert_Some Hg; cbn.
      * specialize (P1 _ Hin). split; [lia|]. split; [set_solver|]. exists e. split; [done|].
        assert (i <= e) by (apply Hmin; set_solver). assert (e ≠ i) by set_solver. lia.
      * destruct (H2 _ _ Hr Hg) as (Hp & Hn & e1 & He1 & Hlt). split; [done|]. split; [set_solver|].
        destruct (decide (e1 = i)) as [->|]; [|exists e1; set_solver]. exists e. split; [done|].
        assert (i <= e) by (apply Hmin; set_solver). lia.
    + intros g g' r q Hr Hq. rewrite !lookup_insert_Some in Hr, Hq.
      destruct Hr as [[<- <-]|[N1 Hr]], Hq as [[<- <-]|[N2 Hq]]; intros Hg Heq; cbn in *; try done.
      * destruct (decide (holds q)) as [Hq'|Hq'].
        -- destruct (Hlow _ _ Hq Hq'); lia.
        -- unfold holds in *. assert (rk_nIndex q = -1) by lia. specialize (P1 _ Hin). cbn in Hg. lia.
      * destruct (Hlow _ _ Hr Hg); lia.
      * by eapply H3.
Qed.
Lemma held_subset w R R' kept : R ⊆ R' → sys_ok (mkSys w R' kept) → sys_ok (mkSys w R kept).
Proof.
  intros Hs (P & [H1 H2 H3] & K). split; [done|]. split; [|done]. cbn [sys_w sys_held sys_kept] in *.
  assert (Hl : ∀ h r, R !! h = Some r → R' !! h = Some r) by (intros; by eapply lookup_weaken). split; eauto.
Qed.
Lemma keep_ok w R kept h r : sys_ok (mkSys w R kept) → R !! h = Some r → holds r →
  sys_ok (mkSys (KeepKey (rk_nIndex r) w) (<[h := CReserveKey_new]> R) (rk_vchPubKey r :: kept)).
Proof.
  intros ([P1 P2 P3 P4] & [H1 H2 H3] & [K1 K2 K3]) Hr Hh. cbn [sys_w sys_held sys_kept] in *. destruct (H1 _ _ Hr Hh) as [t Hf]. destruct (H2 _ _ Hr Hh) as (_ & Hn & _).
  split; [|split]; cbn [sys_w sys_held sys_kept].
  - split; cbn; [done|intros i Hi; rewrite lookup_delete_ne by (intros <-; done); by apply P2|..].
    + intros i u pk [_ Hi]%lookup_delete_Some. by apply (P3 i u).
    + intros i j u v pk [_ Hi]%lookup_delete_Some [_ Hj]%lookup_delete_Some. by eapply P4.
  - split; cbn.
    + intros g q [[<- <-]|[Ng Hq]]%lookup_insert_Some Hg; [done|]. rewrite lookup_delete_ne; [by eapply H1|]. intros Eq. apply Ng. by eapply (H3 h g r q).
    + intros g q [[<- <-]|[_ Hq]]%lookup_insert_Some Hg; [done|by eapply H2].
    + intros g g' q q' Hq Hq'. rewrite !lookup_insert_Some in Hq, Hq'. destruct Hq as [[<- <-]|[N1 Hq]]; [done|]. destruct Hq' as [[<- <-]|[N2 Hq']]; intros Hg Heq; [|by eapply H3].
      unfold holds in Hg. cbn in Heq. lia.
  - split; cbn.
    + constructor; [by eapply K3|done].
    + constructor; [by destruct (P3 _ _ _ Hf) as (_ & _ & ?)|done].
    + intros i u pk [Ni Hi]%lookup_delete_Some [->|Hk]%elem_of_cons; [|by eapply K3]. apply Ni. by eapply P4.
Qed.
Lemma return_ok w R kept h r : sys_ok (mkSys w R kept) → R !! h = Some r → holds r →
  sys_ok (mkSys (ReturnKey (rk_nIndex r) w) (<[h := CReserveKey_new]> R) kept).
Proof.
  intros ([P1 P2 P3 P4] & [H1 H2 H3] & [K1 K2 K3]) Hr Hh. cbn [sys_w sys_held sys_kept] in *. destruct (H1 _ _ Hr Hh) as [t Hf].
  destruct (H2 _ _ Hr Hh) as (Hp & Hn & e & He & Hlt). split; [|split; [|by split]]; cbn [sys_w sys_held sys_kept].
  - split; cbn; [|intros i [Hi| ->%elem_of_singleton]%elem_of_union; [by apply P2|by rewrite Hf]|done..].
    intros i [Hi| ->%elem_of_singleton]%elem_of_union; [by apply P1|]. specialize (P1 _ He). lia.
  - split; cbn.
    + intros g q [[<- <-]|[_ Hq]]%lookup_insert_Some Hg; [done|by eapply H1].
    + intros g q [[<- <-]|[Ng Hq]]%lookup_insert_Some Hg; [done|]. destruct (H2 _ _ Hq Hg) as (? & ? & e' & ? & ?). split; [done|]. split.
      * intros [?| Eq%elem_of_singleton]%elem_of_union; [done|]. apply Ng. eapply (H3 h g r q); [done..|by symmetry].
      * exists e'. split; [set_solver|done].
    + intros g g' q q' Hq Hq'. rewrite !lookup_insert_Some in Hq, Hq'. destruct Hq as [[<- <-]|[N1 Hq]]; [done|]. destruct Hq' as [[<- <-]|[N2 Hq']]; intros Hg Heq; [|by eapply H3].
      unfold holds in Hg. cbn in Heq. lia.
Qed.

(** Users of the pool: reservations are opened, used, kept and returned in any order;
    keys are taken, the pool is topped up.  The pool is not drained: what is reserved
    or taken is not its last key *)
Inductive pool_step : Sys → Sys → Prop :=
| PoolOpen w R kept h : R !! h = None → pool_step (mkSys w R kept) (mkSys w (<[h := CReserveKey_new]> R) kept)
| PoolReserve w R kept h r pk r' w' : R !! h = Some r → below w (2 ^ 62) → GetReservedKey new_key now keypool_arg r w = Some (pk, r', w') →
    setKeyPool w' ≠ ∅ → pool_step (mkSys w R kept) (mkSys w' (<[h := r']> R) kept)
| PoolKeep w R kept h r : R !! h = Some r →
    pool_step (mkSys w R kept) (mkSys (rk_KeepKey r w).2 (<[h := (rk_KeepKey r w).1]> R) (if decide (holds r) then rk_vchPubKey r :: kept else kept))
| PoolReturn w R kept h r : R !! h = Some r → pool_step (mkSys w R kept) (mkSys (rk_ReturnKey r w).2 (<[h := (rk_ReturnKey r w).1]> R) kept)
| PoolGet w R kept fAllowReuse pk w' : below w (2 ^ 62) → GetKeyFromPool new_key now keypool_arg fAllowReuse w = Some (Some pk, w') →
    setKeyPool w' ≠ ∅ → pool_step (mkSys w R kept) (mkSys w' R (pk :: kept))
| PoolTopUp w R kept nSize b w' : below w (2 ^ 62) → nSize < 2 ^ 32 → TopUpKeyPool new_key now keypool_arg nSize w = Some (b, w') →
    pool_step (mkSys w R kept) (mkSys w' R kept)
| PoolOldest w R kept t w' : below w (2 ^ 62) → GetOldestKeyPoolTime new_key now keypool_arg w = Some (t, w') → pool_step (mkSys w R kept) (mkSys w' R kept)
| PoolLock w R kept : pool_step (mkSys w R kept) (mkSys (with_store w (Lock (kw_store w)).2) R kept)
| PoolUnlock w R kept vMasterKey b s' : Unlock (kw_store w) vMasterKey = Some (b, s') → pool_step (mkSys w R kept) (mkSys (with_store w s') R kept).

(** Locking and unlocking keep the keys *)
Lemma SetCrypted_have s id : HaveKey s id = true → HaveKey (SetCrypted s).2 id = true.
Proof.
  unfold SetCrypted. destruct (fUseCrypto s) eqn:Ef; [done|]. destruct (bool_decide_reflect (mapKeys s = ∅)) as [Hk|]; [|done].
  unfold HaveKey, IsCrypted, basic_HaveKey. rewrite Ef. cbn [negb]. rewrite Hk, lookup_empty. by intros [? ?]%bool_decide_eq_true.
Qed.
Lemma Lock_have s id : HaveKey s id = true → HaveKey (Lock s).2 id = true.
Proof. intros H%SetCrypted_have. unfold Lock. destruct (SetCrypted s) as [[] s1]; exact H. Qed.
Lemma Unlock_have s k b s' id : Unlock s k = Some (b, s') → HaveKey s id = true → HaveKey s' id = true.
Proof.
  intros Hu H%SetCrypted_have. unfold Unlock in Hu. destruct (SetCrypted s) as [[] s1]; cbn [negb snd] in *; [|by injection Hu as <- <-].
  destruct (id_order _) as [|[? [? ?]] ?]; [by injection Hu as <- <-|]. destruct (DecryptSecret _ _ _); [|by injection Hu as <- <-].
  destruct (negb _); [by injection Hu as <- <-|]. apply bind_Some in Hu as (key & _ & Hu). case_bool_decide; injection Hu as <- <-; exact H.
Qed.
Lemma with_store_ok w R kept s : sys_ok (mkSys w R kept) → (∀ id, HaveKey (kw_store w) id = true → HaveKey s id = true) → sys_ok (mkSys (with_store w s) R kept).
Proof.
  intros ([P1 P2 P3 P4] & [H1 H2 H3] & [K1 K2 K3]) Hs. split; [|split; by split]. split; cbn; try done.
  intros i t pk Hi. destruct (P3 _ _ _ Hi) as (? & ? & ?). split; [by apply Hs|done].
Qed.

Lemma new_held w R kept h : sys_ok (mkSys w R kept) → (∀ r, R !! h = Some r → ¬ holds r) → sys_ok (mkSys w (<[h := CReserveKey_new]> R) kept).
Proof.
  intros (P & [H1 H2 H3] & K) Hh. split; [done|]. split; [|done]. cbn [sys_w sys_held sys_kept] in *. split.
  - intros g r [[<- <-]|[_ Hr]]%lookup_insert_Some Hg; [done|by eapply H1].
  - intros g r [[<- <-]|[_ Hr]]%lookup_insert_Some Hg; [done|by eapply H2].
  - intros g g' q q' Hq Hq'. rewrite !lookup_insert_Some in Hq, Hq'. destruct Hq as [[<- <-]|[N1 Hq]]; [done|]. destruct Hq' as [[<- <-]|[N2 Hq']]; intros Hg Heq; [|by eapply H3].
    unfold holds in Hg. cbn in Heq. lia.
Qed.
Lemma take_key_ok w R kept i t pk : sys_ok (mkSys w R kept) → i ∈ setKeyPool w → 1 <= i → (∀ j, j ∈ setKeyPool w → i <= j) → pool_file w !! i = Some (t, pk) →
  setKeyPool w ∖ {[i]} ≠ ∅ → sys_ok (mkSys (KeepKey i (with_pool w (setKeyPool w ∖ {[i]}) (pool_file w))) R (pk :: kept)).
Proof.
  intros Sy Hin H1 Hmin Hf Hne. pose (h := fresh (dom R)). assert (Hh : R !! h = None) by (apply not_elem_of_dom, is_fresh).
  pose proof (reserved_held w R kept h i t pk Sy Hin Hmin Hf Hne ltac:(intros r Hr; congruence)) as S1.
  apply (keep_ok _ _ _ h (mkReserve i pk)) in S1; [|by rewrite lookup_insert_eq|unfold holds; cbn; lia].
  eapply held_subset; [|exact S1]. rewrite insert_insert_eq. by apply insert_subseteq.
Qed.
Lemma top_up_sys nSize w R kept b w' : sys_ok (mkSys w R kept) → below w (2 ^ 62) → nSize < 2 ^ 32 →
  TopUpKeyPool new_key now keypool_arg nSize w = Some (b, w') → (kw_drawn w' <= N)%nat → sys_ok (mkSys w' R kept).
Proof.
  intros Sy Hb Hn. unfold TopUpKeyPool. destruct (IsLocked _); [by intros [= <- <-]|]. set (t := if 0 <? nSize then nSize else keypool_arg).
  assert (0 <= t < 2 ^ 32) by (unfold t; destruct (Z.ltb_spec 0 nSize); lia). intros (w1 & Ht & [= <- <-])%bind_Some HN.
  apply (top_up_ok (Z.to_nat (t + 1)) t R kept ltac:(lia) w (2 ^ 62) w1 Sy Hb ltac:(lia) ltac:(lia) ltac:(lia) Ht HN).
Qed.
Lemma get_drawn (i : Z) (t : Z) (pk : list Z) w w' fAllowReuse r :
  (if i =? -1 then
     if fAllowReuse && CPubKey_IsValid (vchDefaultKey w) then Some (Some (vchDefaultKey w), w)
     else if IsLocked (kw_store w) then Some (None, w) else '(pk, w) ← GenerateNewKey new_key w; Some (Some pk, w)
   else Some (Some (t, pk).2, KeepKey i w)) = Some (r, w') → (kw_drawn w' <= N)%nat → (kw_drawn w <= N)%nat.
Proof.
  intros Hg HN. destruct (i =? -1); [|injection Hg as <- <-; done]. destruct (_ && _); [injection Hg as <- <-; done|]. destruct (IsLocked _); [injection Hg as <- <-; done|].
  apply bind_Some in Hg as ([pk1 w4] & Hg & [= <- <-]). unfold GenerateNewKey in Hg. destruct (AddKey _ _) as [[] ?]; [|done]. injection Hg as <- <-. cbn in HN. lia.
Qed.
Lemma pool_step_ok s s' : sys_ok s → pool_step s s' → (kw_drawn (sys_w s') <= N)%nat → sys_ok s'.
Proof.
  intros Sy St. revert Sy.
  destruct St as [w R kept h Hh|w R kept h r pk r' w' Hr Hb H Hne|w R kept h r Hr|w R kept h r Hr|w R kept b pk w' Hb H Hne|w R kept n b w' Hb Hn H|w R kept t w' Hb H|w R kept|w R kept k b st H]; intros Sy HN; cbn [sys_w] in HN.
  - apply new_held; [done|]. congruence.
  - unfold GetReservedKey in H. apply bind_Some in H as ([r1 w1] & H & Hv). destruct (negb (CPubKey_IsValid _)); [done|]. injection Hv as <- <- <-.
    destruct (Z.eqb_spec (rk_nIndex r) (-1)) as [E1|E1]; [|injection H as <- <-; by rewrite insert_id].
    apply bind_Some in H as ([[i [t pk]] w2] & H & [= <- <-]). destruct (reserve_ok _ _ _ _ _ _ Sy Hb H HN) as (w3 & S3 & [(-> & -> & Es)|(Hi & Hin & Hmin & Hf & ->)]); [done|].
    rewrite (proj2 (Z.eqb_neq i (-1))) by lia. apply (reserved_held _ _ _ h i t pk); try done. intros q Hq. unfold holds. congruence.
  - unfold rk_KeepKey. cbn [fst snd]. destruct (decide (holds r)) as [Hh|Hh].
    + rewrite (proj2 (Z.eqb_neq _ _)) by exact Hh. by apply keep_ok.
    + assert (rk_nIndex r = -1) as -> by (unfold holds in Hh; lia). apply new_held; [done|].
      intros q Hq. rewrite Hr in Hq. by injection Hq as <-.
  - unfold rk_ReturnKey. cbn [fst snd]. destruct (decide (holds r)) as [Hh|Hh].
    + rewrite (proj2 (Z.eqb_neq _ _)) by exact Hh. by apply return_ok.
    + assert (rk_nIndex r = -1) as -> by (unfold holds in Hh; lia). apply new_held; [done|].
      intros q Hq. rewrite Hr in Hq. by injection Hq as <-.
  - unfold GetKeyFromPool in H. apply bind_Some in H as ([[i [t pk']] w1] & H & Hg).
    destruct (reserve_ok _ _ _ _ _ _ Sy Hb H ltac:(by eapply get_drawn)) as (w3 & S3 & [(-> & -> & Es)|(Hi & Hin & Hmin & Hf & ->)]).
    + exfalso. apply Hne. cbn in Hg. destruct (_ && _); [injection Hg as <- <-; done|]. destruct (IsLocked _); [done|].
      apply bind_Some in Hg as ([pk1 w4] & Hg & [= <- <-]). apply (generate_ok _ R kept) in Hg as (_ & _ & _ & -> & _); done.
    + rewrite (proj2 (Z.eqb_neq i (-1))) in Hg by lia. injection Hg as <- <-. by eapply take_key_ok.
  - by eapply top_up_sys.
  - unfold GetOldestKeyPoolTime in H. apply bind_Some in H as ([[i [t' pk']] w1] & H & Hg). destruct (reserve_ok _ _ _ _ _ _ Sy Hb H ltac:(destruct (i =? -1); injection Hg as <- <-; done)) as (w3 & S3 & [(-> & -> & Es)|(Hi & Hin & Hmin & Hf & ->)]).
    + cbn in Hg. by injection Hg as <- <-.
    + rewrite (proj2 (Z.eqb_neq i (-1))) in Hg by lia. injection Hg as <- <-. unfold ReturnKey. cbn.
      assert (setKeyPool w3 ∖ {[i]} ∪ {[i]} = setKeyPool w3) as -> by (apply leibniz_equiv; intros j; destruct (decide (j = i)); set_solver). by destruct w3.
  - apply with_store_ok; [done|]. intros id. apply Lock_have.
  - apply with_store_ok; [done|]. intros id. by eapply Unlock_have.
Qed.

(** Keys are only added to those drawn *)
Lemma top_up_mono nSize w b w' : TopUpKeyPool new_key now keypool_arg nSize w = Some (b, w') → (kw_drawn w <= kw_drawn w')%nat.
Proof. unfold TopUpKeyPool. destruct (IsLocked _); [by intros [= <- <-]|]. by intros (w1 & Ht%top_up_drawn & [= <- <-])%bind_Some. Qed.
Lemma reserve_mono w i kp w' : ReserveKeyFromKeyPool new_key now keypool_arg w = Some (i, kp, w') → (kw_drawn w <= kw_drawn w')%nat.
Proof.
  intros (w1 & Hw1 & H)%bind_Some. trans (kw_drawn w1).
  - destruct (negb _); [|by injection Hw1 as <-]. apply fmap_Some in Hw1 as ([b w2] & Ht%top_up_mono & ->). done.
  - destruct (first_index _); [|by injection H as <- <- <-]. apply bind_Some in H as (kp0 & _ & H). destruct (negb (HaveKey _ _)); [done|].
    destruct (negb (CPubKey_IsValid _)); [done|]. by injection H as <- <- <-.
Qed.
Lemma pool_step_mono s s' : pool_step s s' → (kw_drawn (sys_w s) <= kw_drawn (sys_w s'))%nat.
Proof.
  intros [w R kept h Hh|w R kept h r pk r' w' Hr Hb H Hne|w R kept h r Hr|w R kept h r Hr|w R kept b pk w' Hb H Hne|w R kept n b w' Hb Hn H|w R kept t w' Hb H|w R kept|w R kept k b st H]; cbn [sys_w]; [done|..].
  - apply bind_Some in H as ([r1 w1] & H & Hv). destruct (negb (CPubKey_IsValid _)); [done|]. injection Hv as <- <- <-.
    destruct (_ =? _); [|by injection H as <- <-]. by apply bind_Some in H as ([[i kp] w2] & H%reserve_mono & [= <- <-]).
  - unfold rk_KeepKey. cbn [fst snd]. by destruct (negb _).
  - unfold rk_ReturnKey. cbn [fst snd]. by destruct (negb _).
  - apply bind_Some in H as ([[i [t pk']] w1] & H%reserve_mono & Hg). trans (kw_drawn w1); [done|]. destruct (_ =? _); [|by injection Hg as <- <-].
    destruct (_ && _); [by injection Hg as <- <-|]. destruct (IsLocked _); [done|]. apply bind_Some in Hg as ([pk1 w4] & Hg & [= <- <-]).
    unfold GenerateNewKey in Hg. destruct (AddKey _ _) as [[] ?]; [|done]. injection Hg as <- <-. cbn. lia.
  - by eapply top_up_mono.
  - apply bind_Some in H as ([[i kp] w1] & H%reserve_mono & Hg). destruct (_ =? _); by injection Hg as <- <-.
  - done.
  - done.
Qed.
Lemma pool_steps_ok s s' : rtc pool_step s s' → sys_ok s → (kw_drawn (sys_w s') <= N)%nat → sys_ok s'.
Proof.
  intros H Sy. revert s' H. apply (rtc_ind_r (λ s', (kw_drawn (sys_w s') <= N)%nat → sys_ok s')); [done|].
  intros s1 s2 _ Hs IH HN. eapply pool_step_ok; [|done..]. apply IH. apply pool_step_mono in Hs. lia.
Qed.

(** The keys that were given away: those kept and those held *)
Definition held_keys (R : gmap nat CReserveKey) : list (list Z) := (λ e, rk_vchPubKey e.2) <$> filter (λ e : nat * CReserveKey, holds e.2) (map_to_list R).
Lemma given_nodup s : sys_ok s → NoDup (held_keys (sys_held s) ++ sys_kept s).
Proof.
  intros (P & [H1 H2 H3] & [K1 K2 K3]). apply NoDup_app. split; [|split; [|done]].
  - apply NoDup_fmap_2_strong; [|apply list.NoDup_filter, NoDup_map_to_list]. intros [g r] [g' r'] [Hg Hr%elem_of_map_to_list]%list_elem_of_filter [Hg' Hr'%elem_of_map_to_list]%list_elem_of_filter Eq.
    cbn in *. destruct (H1 _ _ Hr Hg) as [t Ht], (H1 _ _ Hr' Hg') as [t' Ht']. rewrite Eq in Ht. pose proof (pool_distinct _ P _ _ _ _ _ Ht Ht') as Ei.
    assert (g = g') as <- by (by eapply H3). congruence.
  - intros pk ([g r] & -> & [Hg Hr%elem_of_map_to_list]%list_elem_of_filter)%list_elem_of_fmap. cbn in *. destruct (H1 _ _ Hr Hg) as [t Ht]. by eapply K3.
Qed.

(** C20. The key pool.  Starting with an empty pool, for any number of reservations that
    are opened, used, kept and returned, keys that are taken, topping up, in any
    order, as long as the last key of the pool is not taken: no key is given away
    twice, each reservation holds a key of its own; and when the wallet is locked,
    so that no key can be made, reserving from a pool that is not empty gives a key
    the wallet has. *)
Theorem pool_keys_unique store dk s : rtc pool_step (mkSys (mkKeyWallet store ∅ ∅ dk 0) ∅ []) s → (kw_drawn (sys_w s) <= N)%nat →
  NoDup (held_keys (sys_held s) ++ sys_kept s) ∧
  (IsLocked (kw_store (sys_w s)) = true → setKeyPool (sys_w s) ≠ ∅ → ∃ i t pk w', ReserveKeyFromKeyPool new_key now keypool_arg (sys_w s) = Some (i, (t, pk), w') ∧
    HaveKey (kw_store w') (pubkey_GetID pk) = true ∧ pk ∉ held_keys (sys_held s) ++ sys_kept s).
Proof.
  intros H HN. assert (Sy : sys_ok s).
  { eapply pool_steps_ok; [exact H| |exact HN].
    split; [split; cbn; try done; intros i; set_solver|]. split; [by split|]. split; cbn; [constructor|constructor|done]. }
  split; [by apply given_nodup|]. intros Hl Hne. destruct Sy as (P & [H1 H2 H3] & [K1 K2 K3]). unfold ReserveKeyFromKeyPool. rewrite Hl. cbn [negb mbind option_bind].
  destruct (first_index (setKeyPool (sys_w s))) as [i|] eqn:Ef; [|by apply first_index_none in Ef].
  apply first_index_ok in Ef as [Hin _]. destruct (pool_filed _ P _ Hin) as [[t pk] Hf]. destruct (pool_entry _ P _ _ _ Hf) as (Hk & Hv & _).
  cbn [pool_file with_pool]. rewrite Hf. cbn [mbind option_bind kw_store with_pool snd]. rewrite Hk, Hv. cbn [negb].
  exists i, t, pk, (with_pool (sys_w s) (setKeyPool (sys_w s) ∖ {[i]}) (pool_file (sys_w s))). split; [done|]. split; [done|].
  intros [([g r] & -> & [Hg Hr%elem_of_map_to_list]%list_elem_of_filter)%list_elem_of_fmap|Hx]%elem_of_app; [|by eapply K3].
  cbn in *. destruct (H1 _ _ Hr Hg) as [u Hu]. pose proof (pool_distinct _ P _ _ _ _ _ Hf Hu) as ->. by destruct (H2 _ _ Hr Hg) as (_ & ? & _).
Qed.
End pool.


(** ** A pool of two keys, and one that is drained *)

#[local] Existing Instances sample_digests toy_curve toy_evp.
Definition toy_new_key (n : nat) : CKey := mkKey (toy_secret (Z.of_nat n + 5)) false.
Definition lock (w : KeyWallet) : KeyWallet := with_store w (Lock (kw_store w)).2.
Definition unlock (w : KeyWallet) : KeyWallet := with_store w (default (false, kw_store w) (Unlock (kw_store w) (replicate 32 1))).2.
Definition unlocked_start : KeyWallet := unlock (lock (mkKeyWallet KeyStore_new ∅ ∅ [] 0)).
(** A first reservation, in a pool that is topped up to two keys *)
Definition reserved : list Z * CReserveKey * KeyWallet := default ([], CReserveKey_new, unlocked_start) (GetReservedKey toy_new_key 7 1 CReserveKey_new unlocked_start).

Lemma pool_keys_unique_witness : ∃ i t pk w', ReserveKeyFromKeyPool toy_new_key 7 1 (lock reserved.2) = Some (i, (t, pk), w') ∧
  HaveKey (kw_store w') (pubkey_GetID pk) = true ∧ pk ≠ rk_vchPubKey reserved.1.2.
Proof.
  destruct (pool_keys_unique toy_new_key 7 1 3) with (store := KeyStore_new) (dk := @nil Z)
    (s := mkSys (lock reserved.2) (<[0%nat := reserved.1.2]> {[0%nat := CReserveKey_new]}) []) as [_ H].
  - intros [|[|[|m]]] [|[|[|n]]] Hm Hn; try lia; vm_compute; congruence.
  - intros [|[|[|n]]] Hn; try lia; vm_compute; reflexivity.
  - lia.
  - eapply rtc_l; [apply PoolLock|]. eapply rtc_l; [eapply (PoolUnlock _ _ _ _ _ _ (replicate 32 1) true); vm_compute; reflexivity|].
    eapply rtc_l; [by apply (PoolOpen _ _ _ _ _ _ 0%nat)|]. eapply rtc_l; [|apply rtc_once, PoolLock].
    apply (PoolReserve _ _ _ _ _ _ 0%nat CReserveKey_new reserved.1.1); [done| |vm_compute; reflexivity|vm_compute; congruence].
    intros i Hi. vm_compute in Hi. set_solver.
  - vm_compute. lia.
  - destruct (H ltac:(vm_compute; reflexivity) ltac:(vm_compute; congruence)) as (i & t & pk & w' & H1 & H2 & H3).
    exists i, t, pk, w'. split; [exact H1|]. split; [exact H2|]. intros ->. apply H3. vm_compute. constructor.
Defined.

(** The proviso that the pool is not emptied is needed.  The index 1 is held, the other
    key is taken while the wallet is locked; when it is unlocked the numbering starts
    at 1 again and the record of the held key is overwritten; keeping the held key
    erases the new record, and the next reservation throws "read failed". *)
Definition drained : KeyWallet := (default (None, reserved.2) (GetKeyFromPool toy_new_key 7 1 false (lock reserved.2))).2.
Definition refilled : KeyWallet := (default (false, drained) (TopUpKeyPool toy_new_key 7 1 0 (unlock drained))).2.
Example drained_pool_breaks : rk_nIndex reserved.1.2 = 1 ∧ setKeyPool drained = ∅ ∧ setKeyPool refilled = {[1; 2]} ∧
  snd <$> pool_file refilled !! 1 ≠ Some (rk_vchPubKey reserved.1.2) ∧
  ReserveKeyFromKeyPool toy_new_key 7 1 (rk_KeepKey reserved.1.2 refilled).2 = None.
Proof. vm_compute. repeat split; congruence. Qed.
