(* ===== verification/CreateTx.v ===== *)
(** * Making transactions (src/wallet.cpp)

    [CreateTransaction]: choose coins for the payments and a fee, give the change to a
    key of the pool, sign every input, and start again with the fee the result needs
    when it is more; [CommitTransaction]: hand the result to the memory pool and mark
    its coins.

    The choices the program leaves to chance or to addresses of objects are the class
    [Choices].  [CoinSelect] finds the coins, [KeyPool] the key for the change, [Sign]
    the scripts; [mine] is the verdict of IsMine for the keys of a store.  The
    priority is computed with IEEE double numbers ([SpecFloat] of the standard
    library with the parameters of binary64).  The search for transactions that
    support the new one ([AddSupportingTransactions]) fills [vtxPrev] only. *)

From stdpp Require Import base list numbers option gmap sorting.
From Stdlib Require Import ZArith Lia SpecFloat.
From S2P Require Import Prelude Uint256 Bignum Serialize Tx Script Interp SigCheck Chain Utxo ScriptStd Base58 Mempool Block BlockIndex Key KeyStore Sign WalletTx CoinSelect KeyPool.

Open Scope Z_scope.

(** ** Doubles *)

Abbreviation double := spec_float.
(** The conversion of an integer, and the operators *)
Definition double_of (z : Z) : double := binary_normalize 53 1024 z 0 false.
Definition double_add : double → double → double := SFadd 53 1024.
Definition double_mul : double → double → double := SFmul 53 1024.
Definition double_div : double → double → double := SFdiv 53 1024.
(** [CTransaction::AllowFree] *)
Definition AllowFree (dPriority : double) : bool := SFltb (double_of (COIN * 144 / 250)) dPriority.

(** ** Choices *)

Class Choices := {
  ch_rand : nat → Z;
  ch_shuffle : list COutput → list COutput;
  ch_sort : list ValuedCoin → list ValuedCoin;
  (** the order of a set of coins, which is that of the addresses of their transactions *)
  ch_order : gset Coin → list Coin;
  (** [GetRandInt(nMax)] *)
  ch_GetRandInt : nat → Z → Z
}.
Class ChoicesOk `{Choices} : Prop := {
  ch_shuffle_ok l : ch_shuffle l ≡ₚ l;
  ch_sort_ok l : ch_sort l ≡ₚ l;
  ch_order_ok s : ch_order s ≡ₚ elements s;
  ch_GetRandInt_ok k n : 0 < n → 0 <= ch_GetRandInt k n < n
}.

(** [CCoinControl] *)
Record CCoinControl := mkCoinControl { destChange : CBase58Data; setSelected : gset COutPoint }.

(** What the loop changes: the new transaction, the reserved key, the keys of the
    wallet, the signature cache, the fee, and the numbers of draws *)
Record Draft := mkDraft {
  d_wtx : CWalletTx;
  d_reserve : CReserveKey;
  d_keys : KeyWallet;
  d_cache : gset sigdata;
  d_fee : Z;
  d_drawn : nat;
  d_rolled : nat
}.
Definition with_inputs (t : CWalletTx) (ins : list CTxIn) (outs : list CTxOut) : CWalletTx :=
  let tx := wtx_tx t in
  with_mt t (mkMerkleTx (mkTx (nVersion tx) (nTime tx) ins outs (nLockTime tx)) (hashBlock (wtx_mt t)) (vMerkleBranch (wtx_mt t)) (mt_nIndex (wtx_mt t)) (fMerkleVerified (wtx_mt t))).
Definition with_draft (d : Draft) (t : CWalletTx) : Draft := mkDraft t (d_reserve d) (d_keys d) (d_cache d) (d_fee d) (d_drawn d) (d_rolled d).
Definition with_drawn (d : Draft) (n : nat) : Draft := mkDraft (d_wtx d) (d_reserve d) (d_keys d) (d_cache d) (d_fee d) n (d_rolled d).
Definition with_reserve (d : Draft) (r : CReserveKey) (k : KeyWallet) : Draft := mkDraft (d_wtx d) r k (d_cache d) (d_fee d) (d_drawn d) (d_rolled d).
Definition with_fee (d : Draft) (n : Z) : Draft := mkDraft (d_wtx d) (d_reserve d) (d_keys d) (d_cache d) n (d_drawn d) (d_rolled d).
Definition with_signed (d : Draft) (tx : CTransaction) (c : gset sigdata) : Draft :=
  mkDraft (with_inputs (d_wtx d) (vin tx) (vout tx)) (d_reserve d) (d_keys d) c (d_fee d) (d_drawn d) (d_rolled d).

(** A loop without a bound: its result, if the fuel suffices *)
Inductive Looped (A : Type) := Exhausted | Returned (r : option A).
Arguments Exhausted {A}.
Arguments Returned {A} r.

Section Create.
Context {BN : OpenSSL_BN} {DG : Digests} {C : OpenSSL_EC} {E : EVP} {CH : Choices}.
Variable nCoinbaseMaturity nMinimumInputValue : Z.
Variable fConfChange : bool.
Variable mine : KeyStore → list Z → isminetype.
(** The key generator, the clock and [-keypool] *)
Variable new_key : nat → CKey.
Variable now keypool_arg : Z.
(** The signature cache *)
Variable nMaxCacheSize : Z.
Variable random_entry : gset sigdata → sigdata.
(** The network, and the draws for malleable addresses *)
Variable fTestNet : bool.
Variable pair_valid : list Z → bool.
Variable GetVariant : list Z → option (list Z * list Z).
Variable nTransactionFee : Z.

(** [nValue], the sum of the payments: refused when it becomes negative *)
Fixpoint total_value (vecSend : list (list Z * Z)) (nValue : Z) : option Z :=
  match vecSend with
  | [] => if nValue <? 0 then None else Some nValue
  | s :: vecSend => if nValue <? 0 then None else total_value vecSend (i64 (nValue + s.2))
  end.

(** The sum of value times depth over the coins *)
Fixpoint priority (v : NodeView) (M : WalletMap) (coins : list Coin) (dPriority : double) : option double :=
  match coins with
  | [] => Some dPriority
  | c :: coins =>
      t ← M !! c.1; nCredit ← coin_value M c;
      priority v M coins (double_add dPriority (double_mul (double_of nCredit) (double_of (wtx_depth v t).1)))
  end.

(** The inputs, and their signatures one after the other *)
Definition fill_vin (M : WalletMap) (coins : list Coin) : option (list CTxIn) :=
  mapM (λ c : Coin, t ← M !! c.1; Some (mkTxIn (mkOutPoint (GetHash (wtx_tx t)) c.2) [] UINT_MAX)) coins.
Fixpoint sign_inputs (s : KeyStore) (M : WalletMap) (coins : list Coin) (nIn : nat) (tx : CTransaction) (cache : gset sigdata)
    : option (bool * CTransaction * gset sigdata) :=
  match coins with
  | [] => Some (true, tx, cache)
  | c :: coins =>
      t ← M !! c.1;
      '(ok, tx, cache) ← SignSignature_from (KS := as_keystore s) pubkey_Verify nMaxCacheSize random_entry (wtx_tx t) tx nIn SIGHASH_ALL cache;
      if negb (ok : bool) then Some (false, tx, cache) else sign_inputs s M coins (S nIn) tx cache
  end.

(** The script of the change: a custom address, or a key reserved in the pool *)
Definition change_script (coinControl : option CCoinControl) (d : Draft) : option (list Z * Draft) :=
  match coinControl with
  | Some cc =>
      if addr_IsValid fTestNet pair_valid (destChange cc) then Some (SetAddress fTestNet pair_valid GetVariant (destChange cc), d)
      else '(pk, r, k) ← GetReservedKey new_key now keypool_arg (d_reserve d) (d_keys d); Some (SetDestination (CKeyID (pubkey_GetID pk)), with_reserve d r k)
  | None => '(pk, r, k) ← GetReservedKey new_key now keypool_arg (d_reserve d) (d_keys d); Some (SetDestination (CKeyID (pubkey_GetID pk)), with_reserve d r k)
  end.
(** [vout.insert(vout.begin() + GetRandInt(vout.size()), ...)] *)
Definition insert_change (d : Draft) (out : CTxOut) : Draft :=
  let outs := vout (wtx_tx (d_wtx d)) in
  let position := Z.to_nat (ch_GetRandInt (d_rolled d) (Z.of_nat (length outs))) in
  let d := with_draft d (with_inputs (d_wtx d) (vin (wtx_tx (d_wtx d))) (take position outs ++ out :: drop position outs)) in
  mkDraft (d_wtx d) (d_reserve d) (d_keys d) (d_cache d) (d_fee d) (d_drawn d) (S (d_rolled d)).
Definition add_change (coinControl : option CCoinControl) (nChange : Z) (d : Draft) : option Draft :=
  if 0 <? nChange then '(script, d) ← change_script coinControl d; Some (insert_change d (mkTxOut nChange script))
  else let '(r, k) := rk_ReturnKey (d_reserve d) (d_keys d) in Some (with_reserve d r k).

(** The fee a transaction of [nBytes] bytes needs *)
Definition needed_fee (tx : CTransaction) (dPriority : double) (nBytes : Z) : Z :=
  let fAllowFree := AllowFree (double_div dPriority (double_of nBytes)) in
  let nPayFee := i64 (nTransactionFee * (1 + nBytes / 1000)) in
  Z.max nPayFee (GetMinFee tx 1 fAllowFree GMF_SEND nBytes).

(** One turn of the loop *)
Inductive Verdict := Refuse | Again | Done.
Definition attempt (v : NodeView) (M : WalletMap) (vecSend : list (list Z * Z)) (nValue : Z) (coinControl : option CCoinControl) (d : Draft)
    : option (Verdict * Draft) :=
  let d := with_draft d (with_from_me (with_inputs (d_wtx d) [] (map (λ s, mkTxOut s.2 s.1) vecSend)) true) in
  let nTotalValue := i64 (nValue + d_fee d) in
  '(ok, setCoins, nValueIn, drawn) ← SelectCoins nCoinbaseMaturity nMinimumInputValue fConfChange (mine (kw_store (d_keys d))) ch_rand ch_shuffle ch_sort
      v M nTotalValue (nTime (wtx_tx (d_wtx d))) (setSelected <$> coinControl) (d_drawn d);
  let d := with_drawn d drawn in
  if negb (ok : bool) then Some (Refuse, d)
  else
    let coins := ch_order setCoins in
    dPriority ← priority v M coins (double_of 0);
    let nChange := i64 (i64 (nValueIn - nValue) - d_fee d) in
    d ← add_change coinControl nChange d;
    ins ← fill_vin M coins;
    let d := with_draft d (with_inputs (d_wtx d) ins (vout (wtx_tx (d_wtx d)))) in
    '(ok, tx, cache) ← sign_inputs (kw_store (d_keys d)) M coins 0 (wtx_tx (d_wtx d)) (d_cache d);
    let d := with_signed d tx cache in
    if negb (ok : bool) then Some (Refuse, d)
    else
      let nBytes := u32 (Z.of_nat (length (Serialize tx))) in
      if MAX_BLOCK_SIZE_GEN / 5 <=? nBytes then Some (Refuse, d)
      else
        let fee := needed_fee tx dPriority nBytes in
        if d_fee d <? fee then Some (Again, with_fee d fee) else Some (Done, d).

(** ** The transactions that support a new one *)

(** [AddSupportingTransactions]: the queue of hashes, those already done, the copies
    found in [vtxPrev] of wallet transactions.  [disk] is what [ReadDiskTx] finds,
    [block_of_tx] the block a transaction is in *)
Variable scrypt_blockhash : list Z → base_uint.
Variable disk : gmap base_uint CTransaction.
Variable block_of_tx : base_uint → option CBlock.
Definition COPY_DEPTH : Z := 3.
Definition parents (tx : CTransaction) : list base_uint := map (λ i, op_hash (prevout i)) (vin tx).
Definition supporting_of (M : WalletMap) (prev : gmap base_uint CMerkleTx) (hash : base_uint) : option CMerkleTx * gmap base_uint CMerkleTx :=
  match M !! hash with
  | Some t => (Some (wtx_mt t), fold_left (λ prev m, <[GetHash (mt_tx m) := m]> prev) (vtxPrev t) prev)
  | None => (match prev !! hash with Some m => Some m | None => CMerkleTx_of <$> disk !! hash end, prev)
  end.
Fixpoint supporting_loop (fuel : nat) (v : NodeView) (M : WalletMap) (queue : list base_uint) (done : gset base_uint) (prev : gmap base_uint CMerkleTx)
    (found : list CMerkleTx) : Looped (list CMerkleTx) :=
  match queue with
  | [] => Returned (Some found)
  | hash :: queue =>
      match fuel with
      | O => Exhausted
      | S fuel =>
          if decide (hash ∈ done) then supporting_loop fuel v M queue done prev found
          else
            let '(tx, prev) := supporting_of M prev hash in
            match tx with
            | None => supporting_loop fuel v M queue ({[hash]} ∪ done) prev found
            | Some tx =>
                let '(tx, nDepth) := SetMerkleBranch scrypt_blockhash v block_of_tx tx None in
                supporting_loop fuel v M (queue ++ if nDepth <? COPY_DEPTH then parents (mt_tx tx) else []) ({[hash]} ∪ done) prev (found ++ [tx])
            end
      end
  end.
(** Every transaction that can be found, with the number of its inputs *)
Definition weights (M : WalletMap) : list (base_uint * nat) :=
  concat (map (λ '(h, t), (h, length (vin (wtx_tx t))) :: map (λ m, (GetHash (mt_tx m), length (vin (mt_tx m)))) (vtxPrev t)) (map_to_list M)) ++
  map (λ '(h, tx), (h, length (vin tx))) (map_to_list disk).
Definition weight (done : gset base_uint) (l : list (base_uint * nat)) : nat := sum_list (filter (λ e, e.1 ∉ done) l).*2.
Definition AddSupportingTransactions (v : NodeView) (M : WalletMap) (t : CWalletTx) : Looped CWalletTx :=
  let '(m, nDepth) := SetMerkleBranch scrypt_blockhash v block_of_tx (wtx_mt t) None in
  let t := with_mt t m in
  let with_prev l := mkWalletTx (wtx_mt t) l (mapValue t) (vOrderForm t) (fTimeReceivedIsTxTime t) (nTimeReceived t) (nTimeSmart t) (fFromMe t)
    (strFromAccount t) (vfSpent t) (nOrderPos t) (caches t) in
  if nDepth <? COPY_DEPTH then
    let queue := parents (wtx_tx t) in
    match supporting_loop (length queue + weight ∅ (weights M)) v M queue ∅ ∅ [] with
    | Exhausted => Exhausted
    | Returned r => Returned (l ← r; Some (with_prev (rev l)))
    end
  else Returned (Some (with_prev [])).

(** ** The loop *)

Definition received_is_tx_time (t : CWalletTx) : CWalletTx :=
  mkWalletTx (wtx_mt t) (vtxPrev t) (mapValue t) (vOrderForm t) 1 (nTimeReceived t) (nTimeSmart t) (fFromMe t)
    (strFromAccount t) (vfSpent t) (nOrderPos t) (caches t).
Fixpoint fee_loop (fuel : nat) (v : NodeView) (M : WalletMap) (vecSend : list (list Z * Z)) (nValue : Z) (coinControl : option CCoinControl) (d : Draft)
    : Looped (bool * Draft) :=
  match fuel with
  | O => Exhausted
  | S fuel =>
      match attempt v M vecSend nValue coinControl d with
      | None => Returned None
      | Some (Refuse, d) => Returned (Some (false, d))
      | Some (Again, d) => fee_loop fuel v M vecSend nValue coinControl d
      | Some (Done, d) =>
          match AddSupportingTransactions v M (d_wtx d) with
          | Exhausted => Exhausted
          | Returned r => Returned (t ← r; Some (true, with_draft d (received_is_tx_time t)))
          end
      end
  end.
(** Turns that suffice: the fee takes one of a few values and grows *)
Definition fee_fuel (vecSend : list (list Z * Z)) : nat := 1200 + 10 * length vecSend.
Definition CreateTransaction (v : NodeView) (M : WalletMap) (vecSend : list (list Z * Z)) (coinControl : option CCoinControl) (d : Draft)
    : Looped (bool * Draft) :=
  match total_value vecSend 0 with
  | None => Returned (Some (false, d))
  | Some nValue =>
      if bool_decide (vecSend = []) then Returned (Some (false, d))
      else fee_loop (fee_fuel vecSend) v M vecSend nValue coinControl (with_fee (with_draft d (BindWallet (d_wtx d))) nTransactionFee)
  end.
(** The form with one payment *)
Definition CreateTransaction1 (v : NodeView) (M : WalletMap) (scriptPubKey : list Z) (nValue : Z) (coinControl : option CCoinControl) (d : Draft)
    : Looped (bool * Draft) := CreateTransaction v M [(scriptPubKey, nValue)] coinControl d.
End Create.

(** ** Signing all inputs *)

Section signing.
Context {BN : OpenSSL_BN} {DG : Digests}.

(** A script looks at the transaction through its lock time, its own sequence number
    and the signature hash *)
Lemma EvalScript_tx {Cache} (CS : valtype → valtype → list Z → Cache → bool * Cache) t1 t2 k flags stk script c : nLockTime t1 = nLockTime t2 →
  nSequence (nth k (vin t1) CTxIn_default) = nSequence (nth k (vin t2) CTxIn_default) →
  EvalScript CS t1 k flags stk script c = EvalScript CS t2 k flags stk script c.
Proof.
  intros Hl Hs. unfold EvalScript. destruct (_ >? _); [done|]. generalize (mkM script script stk [] [] 0 c). generalize (length script).
  assert (Hlock : ∀ n, CheckLockTime n t1 k = CheckLockTime n t2 k) by (intros n; unfold CheckLockTime; by rewrite Hl, Hs).
  assert (Hseq : ∀ n, CheckSequence n t1 k = CheckSequence n t2 k) by (intros n; unfold CheckSequence; by rewrite Hs).
  assert (Hsw : ∀ op fExec m, switch CS t1 k flags op fExec m = switch CS t2 k flags op fExec m).
  { assert (H1 : ∀ s a, op_checklocktimeverify flags t1 k s a = op_checklocktimeverify flags t2 k s a).
    { intros s a. unfold op_checklocktimeverify. repeat (case_match; try done); rewrite Hlock in *; congruence. }
    assert (H2 : ∀ s a, op_checksequenceverify flags t1 k s a = op_checksequenceverify flags t2 k s a).
    { intros s a. unfold op_checksequenceverify. repeat (case_match; try done); rewrite Hseq in *; congruence. }
    intros op fExec m. unfold switch. by rewrite H1, H2. }
  assert (Hst : ∀ m, step CS t1 k flags m = step CS t2 k flags m).
  { intros m. unfold step. destruct (GetOp (pc m)) as [[[op v] rest]|]; [|done]. by rewrite Hsw. }
  intros n. induction n as [|n IH]; intros m; cbn [eval_loop]; [done|]. destruct (pc m); [done|]. rewrite Hst.
  destruct (step CS t2 k flags m); [done|apply IH].
Qed.

(** Transactions that agree but for the scripts of other inputs *)
Record same_for (k : nat) (t1 t2 : CTransaction) : Prop := {
  same_version : nVersion t1 = nVersion t2;
  same_time : nTime t1 = nTime t2;
  same_lock : nLockTime t1 = nLockTime t2;
  same_vout : vout t1 = vout t2;
  same_inputs : same_but_scripts (vin t1) (vin t2);
  same_script : scriptSig (nth k (vin t1) CTxIn_default) = scriptSig (nth k (vin t2) CTxIn_default)
}.
Lemma same_but_nth v1 v2 k : same_but_scripts v1 v2 → set_scriptSig [] (nth k v1 CTxIn_default) = set_scriptSig [] (nth k v2 CTxIn_default).
Proof.
  intros H. unfold same_but_scripts in H. rewrite <- !(map_nth (set_scriptSig [])). change (set_scriptSig [] CTxIn_default) with CTxIn_default. by rewrite H.
Qed.
Lemma script_valid_same Verify t1 t2 flags k script : same_for k t1 t2 → script_valid Verify t1 flags k script → script_valid Verify t2 flags k script.
Proof.
  intros [Hv Ht Hl Ho Hi Hs]. unfold script_valid. rewrite Hs.
  assert (Hlen : length (vin t1) = length (vin t2)) by (apply (f_equal length) in Hi; by rewrite !length_map in Hi).
  assert (Hsig : ∀ g key code, CheckSig_spec Verify t1 k 0 g key code = CheckSig_spec Verify t2 k 0 g key code).
  { intros g key code. unfold CheckSig_spec. destruct (SignatureHash_commits code t1 t2 k (List.last g 0) Hv Ht Hl Hlen) as [E _]. by rewrite E. }
  assert (Heval : ∀ stk sc, EvalScript (λ g key code (c : unit), (CheckSig_spec Verify t1 k 0 g key code, c)) t1 k flags stk sc tt =
    EvalScript (λ g key code (c : unit), (CheckSig_spec Verify t2 k 0 g key code, c)) t2 k flags stk sc tt).
  { intros stk sc. rewrite (EvalScript_tx _ t1 t2) by (done || exact (f_equal nSequence (same_but_nth _ _ k Hi))).
    destruct (EvalScript_sim (λ g key code (c : unit), (CheckSig_spec Verify t1 k 0 g key code, c)) (λ g key code (c : unit), (CheckSig_spec Verify t2 k 0 g key code, c))
      eq) with (txTo := t2) (nIn := k) (flags := flags) (s := stk) (script := sc) (c1 := tt) (c2 := tt) as [E1 E2]; [|done|by apply injective_projections].
    intros g key code c1 c2 ->. split; [apply Hsig|done]. }
  unfold VerifyScript. rewrite Heval. destruct (EvalScript _ t2 k flags [] _ tt) as [[ok stk] []]. destruct (negb ok); [done|]. rewrite Heval.
  destruct (EvalScript _ t2 k flags stk script tt) as [[ok2 stk2] []]. destruct (negb ok2); [done|]. destruct stk2 as [|top ?]; [done|].
  destruct (negb (CastToBool top)); [done|]. destruct (_ && _); [|done]. destruct (negb _); [done|].
  destruct (if has_flag flags SCRIPT_VERIFY_P2SH then stk else []) as [|pubKey2 rest]; [done|]. by rewrite Heval.
Qed.

Context {C : OpenSSL_EC} {E : EVP} (store : KeyStore) (nMaxCacheSize : Z) (random_entry : gset sigdata → sigdata).
Context (Hrandom : ∀ S, S ≠ ∅ → random_entry S ∈ S).

Lemma same_for_refl k t : same_for k t t.
Proof. by split. Qed.
Lemma set_other_script t j k s : j ≠ k → same_for k t (set_input_script t j s).
Proof.
  intros Hne. split; try done; [symmetry; apply set_input_scripts|]. cbn [vin set_input_script]. f_equal. rewrite !nth_lookup. f_equal. by rewrite list_lookup_alter_ne.
Qed.
Lemma same_for_trans k t1 t2 t3 : same_for k t1 t2 → same_for k t2 t3 → same_for k t1 t3.
Proof. intros [] []. split; congruence || (unfold same_but_scripts in *; congruence). Qed.

(** All inputs are signed: the node accepts each of them for the output it spends,
    although later signatures changed the other inputs *)
Lemma sign_inputs_ok M coins : ∀ nIn tx cache tx' cache', cache_ok pubkey_Verify nMaxCacheSize cache →
  sign_inputs nMaxCacheSize random_entry store M coins nIn tx cache = Some (true, tx', cache') →
  cache_ok pubkey_Verify nMaxCacheSize cache' ∧ (∀ k, (k < nIn)%nat → same_for k tx tx') ∧
  nVersion tx' = nVersion tx ∧ nTime tx' = nTime tx ∧ nLockTime tx' = nLockTime tx ∧ vout tx' = vout tx ∧ same_but_scripts (vin tx') (vin tx) ∧
  ∀ j c, coins !! j = Some c → ∃ t i o, M !! c.1 = Some t ∧ vin tx !! (nIn + j)%nat = Some i ∧ vout (wtx_tx t) !! Z.to_nat (op_n (prevout i)) = Some o ∧
    script_valid pubkey_Verify tx' STRICT_FLAGS (nIn + j) (scriptPubKey o).
Proof.
  induction coins as [|c coins IH]; intros nIn tx cache tx' cache' Hc; cbn [sign_inputs].
  { intros [= <- <-]. split; [done|]. split; [intros; apply same_for_refl|]. do 5 (split; [done|]). intros j c. by rewrite lookup_nil. }
  intros (t & Et & ([[ok tx1] c1] & Hs & H)%bind_Some)%bind_Some. destruct ok; [|done]. cbn [negb] in H.
  unfold SignSignature_from in Hs. apply bind_Some in Hs as (i & Ei & Hs). apply bind_Some in Hs as (o & Eo & Hs). destruct (bu_eq _ _) eqn:Eh; [|done].
  cbn [negb] in Hs. destruct (SignSignature_sound _ _ _ _ _ _ _ _ _ _ _ Hrandom Hc Hs) as (Hc1 & (s & ->) & Hv). specialize (Hv eq_refl).
  destruct (IH _ _ _ _ _ Hc1 H) as (Hc' & Hbefore & Ev & Et' & El & Eo' & Ei' & Hall). split; [done|]. split.
  { intros k Hk. eapply same_for_trans; [apply (set_other_script tx nIn k s); lia|apply Hbefore; lia]. }
  do 4 (split; [done|]). split; [unfold same_but_scripts in *; rewrite Ei'; apply set_input_scripts|].
  intros [|j] c' Hj.
  - injection Hj as <-. exists t, i, o. rewrite Nat.add_0_r. split; [done|]. split; [done|]. split; [done|].
    eapply script_valid_same; [apply Hbefore; lia|done].
  - destruct (Hall j c' Hj) as (t' & i' & o' & E1 & E2 & E3 & E4). rewrite Nat.add_succ_r. exists t', i', o'. split; [done|].
    cbn [vin set_input_script] in E2. rewrite list_lookup_alter_ne in E2 by lia. done.
Qed.
End signing.

(** ** The supporting transactions are found *)

Section supporting.
Context {DG : Digests} (scrypt_blockhash : list Z → base_uint) (disk : gmap base_uint CTransaction) (block_of_tx : base_uint → option CBlock).

Lemma weight_cons (done : gset base_uint) e l : weight done (e :: l) = ((if decide (e.1 ∉ done) then e.2 else 0) + weight done l)%nat.
Proof. unfold weight. rewrite filter_cons. by destruct (decide (e.1 ∉ done)). Qed.
Lemma weight_mono (hash : base_uint) (done : gset base_uint) (l : list (base_uint * nat)) : (weight ({[hash]} ∪ done) l <= weight done l)%nat.
Proof. induction l as [|e l IH]; [done|]. rewrite !weight_cons. destruct (decide (e.1 ∉ {[hash]} ∪ done)), (decide (e.1 ∉ done)); try lia. set_solver. Qed.
Lemma weight_done (hash : base_uint) (n : nat) (done : gset base_uint) (l : list (base_uint * nat)) : hash ∉ done → (hash, n) ∈ l → (n + weight ({[hash]} ∪ done) l <= weight done l)%nat.
Proof.
  intros Hh. induction l as [|e l IH]; [by intros ?%not_elem_of_nil|]. pose proof (weight_mono hash done l). rewrite !weight_cons.
  intros [<-|Hin]%elem_of_cons; cbn [fst snd].
  - rewrite decide_False by set_solver. rewrite decide_True by done. lia.
  - specialize (IH Hin). destruct (decide (e.1 ∉ {[hash]} ∪ done)), (decide (e.1 ∉ done)); try lia. set_solver.
Qed.

Abbreviation known M h m := ((h, length (vin (mt_tx m))) ∈ weights disk M).
Definition prev_ok (M : WalletMap) (prev : gmap base_uint CMerkleTx) : Prop := ∀ h m, prev !! h = Some m → known M h m.
Lemma wallet_known M h t : M !! h = Some t → known M h (wtx_mt t) ∧ ∀ m, m ∈ vtxPrev t → known M (GetHash (mt_tx m)) m.
Proof.
  intros Ht%elem_of_map_to_list.
  assert (Hin : ∀ e, e ∈ (h, length (vin (wtx_tx t))) :: map (λ m, (GetHash (mt_tx m), length (vin (mt_tx m)))) (vtxPrev t) → e ∈ weights disk M).
  { intros e He. unfold weights. apply elem_of_app. left. apply list_elem_of_In, in_concat. eexists. split; [|apply list_elem_of_In; exact He].
    apply list_elem_of_In, list_elem_of_fmap. by exists (h, t). }
  split; [apply Hin, list_elem_of_here|]. intros m Hm. apply Hin, list_elem_of_further, list_elem_of_fmap. by exists m.
Qed.
Lemma supporting_of_ok M prev h tx prev' : prev_ok M prev → supporting_of disk M prev h = (tx, prev') → prev_ok M prev' ∧ ∀ m, tx = Some m → known M h m.
Proof.
  intros Hp. unfold supporting_of. destruct (M !! h) as [t|] eqn:Et.
  - intros [= <- <-]. destruct (wallet_known M h t Et) as [H1 H2]. split; [|intros m [= <-]; exact H1]. clear H1 Et. revert prev Hp H2.
    induction (vtxPrev t) as [|m l IH]; intros prev Hp Hl; cbn [fold_left]; [done|]. apply IH; [|intros x Hx; apply Hl; by apply list_elem_of_further].
    intros k x [[<- <-]|[_ Hx]]%lookup_insert_Some; [apply Hl, list_elem_of_here|by apply Hp].
  - intros [= <- <-]. split; [done|]. intros m. destruct (prev !! h) as [m0|] eqn:Ep; [intros [= <-]; by apply Hp|].
    intros (tx0 & Hd & ->)%fmap_Some. unfold weights. apply elem_of_app. right. apply list_elem_of_fmap. exists (h, tx0). split; [done|by apply elem_of_map_to_list].
Qed.
(** The queue is worked off within the fuel given *)
Lemma supporting_ends v M fuel : ∀ queue done prev found, prev_ok M prev → (length queue + weight done (weights disk M) <= fuel)%nat →
  ∃ l, supporting_loop scrypt_blockhash disk block_of_tx fuel v M queue done prev found = Returned (Some l).
Proof.
  induction fuel as [|fuel IH]; intros [|hash queue] done prev found Hp Hf; cbn [supporting_loop]; eauto; cbn [length] in Hf; [lia|].
  destruct (decide (hash ∈ done)) as [|Hd]; [apply IH; [done|lia]|].
  destruct (supporting_of disk M prev hash) as [tx prev'] eqn:Es. destruct (supporting_of_ok _ _ _ _ _ Hp Es) as [Hp' Hk].
  pose proof (weight_mono hash done (weights disk M)). destruct tx as [m|]; [|apply IH; [done|lia]].
  pose proof (weight_done hash _ done _ Hd (Hk m eq_refl)) as Hw.
  destruct (SetMerkleBranch scrypt_blockhash v block_of_tx m None) as [m' nDepth] eqn:Em. apply IH; [done|].
  assert (mt_tx m' = mt_tx m) as Hm. { pose proof (branch_tx scrypt_blockhash v block_of_tx m None) as Hb. by rewrite Em in Hb. }
  rewrite length_app. assert ((length (if (nDepth <? COPY_DEPTH)%Z then parents (mt_tx m') else []) <= length (vin (mt_tx m)))%nat).
  { destruct (_ <? _); cbn [length]; [|lia]. unfold parents. rewrite length_map, Hm. lia. }
  lia.
Qed.
(** [AddSupportingTransactions] returns, and the transaction itself stays *)
Lemma supporting_total v M t : ∃ t', AddSupportingTransactions scrypt_blockhash disk block_of_tx v M t = Returned (Some t') ∧ wtx_tx t' = wtx_tx t.
Proof.
  unfold AddSupportingTransactions. destruct (SetMerkleBranch scrypt_blockhash v block_of_tx (wtx_mt t) None) as [m nDepth] eqn:Em.
  assert (mt_tx m = wtx_tx t) as Hm. { pose proof (branch_tx scrypt_blockhash v block_of_tx (wtx_mt t) None) as Hb. by rewrite Em in Hb. }
  destruct (nDepth <? COPY_DEPTH); [|eexists; split; [done|exact Hm]]. cbn [wtx_mt with_mt].
  destruct (supporting_ends v M (length (parents (mt_tx m)) + weight ∅ (weights disk M)) (parents (mt_tx m)) ∅ ∅ []) as [l ->]; [by intros h m' ?%lookup_empty_Some|lia|].
  eexists. split; [done|exact Hm].
Qed.
End supporting.

(** ** The fee loop ends *)

Lemma SignSignature_tx {BN : OpenSSL_BN} {DG : Digests} {C : OpenSSL_EC} {KS : CKeyStore} Verify n rnd script tx k ht cache ok tx' cache' :
  SignSignature Verify n rnd script tx k ht cache = Some (ok, tx', cache') → ∃ s, tx' = set_input_script tx k s.
Proof.
  unfold SignSignature. destruct (_ <=? _)%nat; [done|]. intros ([[b s] T] & _ & H)%bind_Some. destruct b; cbn [negb] in H; [|injection H as <- <- <-; eauto].
  apply bind_Some in H as ([fSolved s'] & _ & H). destruct fSolved; cbn [negb] in H; [|injection H as <- <- <-; eauto].
  destruct (VerifyScript _ _ _ _ _ _ _) as [r c]. apply bind_Some in H as (b & _ & H). injection H as <- <- <-; eauto.
Qed.
Lemma sign_inputs_frame {BN : OpenSSL_BN} {DG : Digests} {C : OpenSSL_EC} {E : EVP} n rnd s M coins : ∀ nIn tx cache ok tx' cache',
  sign_inputs n rnd s M coins nIn tx cache = Some (ok, tx', cache') →
  tx' = mkTx (nVersion tx) (nTime tx) (vin tx') (vout tx) (nLockTime tx).
Proof.
  induction coins as [|c coins IH]; intros nIn tx cache ok tx' cache'; cbn [sign_inputs]; [intros [= <- <- <-]; by destruct tx|].
  intros (t & _ & ([[b tx1] c1] & Hs & H)%bind_Some)%bind_Some. unfold SignSignature_from in Hs.
  apply bind_Some in Hs as (i & _ & Hs). apply bind_Some in Hs as (o & _ & Hs). destruct (negb _); [done|]. apply SignSignature_tx in Hs as [sc ->].
  destruct b; cbn [negb] in H; [by apply IH in H|by injection H as <- <- <-].
Qed.

Section fees.
Context (nTransactionFee : Z) (nSend : nat).
Context (Hfee : 0 <= nTransactionFee < 2 ^ 55) (Hsend : Z.of_nat nSend < MAX_BLOCK_SIZE).

(** The fees a turn may ask for *)
Definition fee_values : list Z :=
  map (λ k, nTransactionFee * (1 + k)) (seqZ 0 100) ++ map (λ j, MIN_TX_FEE * j) (seqZ 0 (10 * (102 + Z.of_nat nSend))).
Lemma MinFee_values tx free nBytes : 0 <= nBytes < MAX_BLOCK_SIZE_GEN / 5 → (length (vout tx) <= nSend + 1)%nat →
  ∃ j, 0 <= j < 10 * (102 + Z.of_nat nSend) ∧ GetMinFee tx 1 free GMF_SEND nBytes = MIN_TX_FEE * j.
Proof.
  intros Hn Hl. change (MAX_BLOCK_SIZE_GEN / 5) with 100000 in Hn.
  destruct (GetMinFee_spec tx 1 free GMF_SEND nBytes) as [-> _]; [lia..|]. unfold fee_spec, congestion. cbn [Z.eqb Pos.eqb orb]. rewrite Z.mul_1_r.
  set (size_fee := if free && is_free 1 nBytes then 0 else 1 + nBytes / 1000).
  assert (0 <= size_fee <= 100) by (unfold size_fee; destruct (_ && _); Z.div_mod_to_equations; lia).
  pose proof (dust_bound (vout tx)) as Hd.
  assert (0 <= dust (vout tx) <= Z.of_nat nSend + 1) by lia.
  unfold base_fee. destruct (IsCoinStake tx).
  - exists (10 * (size_fee + dust (vout tx))). split; [lia|]. change CENT with (MIN_TX_FEE * 10). lia.
  - exists (size_fee + dust (vout tx)). split; [lia|done].
Qed.
Lemma needed_in tx p nBytes : 0 <= nBytes < MAX_BLOCK_SIZE_GEN / 5 → (length (vout tx) <= nSend + 1)%nat →
  needed_fee nTransactionFee tx p nBytes ∈ fee_values.
Proof.
  intros Hn Hl. unfold needed_fee, fee_values. destruct (MinFee_values tx (AllowFree (double_div p (double_of nBytes))) nBytes Hn Hl) as (j & Hj & ->).
  change (MAX_BLOCK_SIZE_GEN / 5) with 100000 in Hn. assert (0 <= nBytes / 1000 < 100) by (Z.div_mod_to_equations; lia).
  rewrite i64_small by nia. apply elem_of_app. destruct (Z.max_spec (nTransactionFee * (1 + nBytes / 1000)) (MIN_TX_FEE * j)) as [[_ ->]|[_ ->]].
  - right. apply list_elem_of_fmap. exists j. split; [done|]. apply elem_of_seqZ. lia.
  - left. apply list_elem_of_fmap. exists (nBytes / 1000). split; [done|]. apply elem_of_seqZ. lia.
Qed.
(** How many of them are above a fee *)
Definition above (fee : Z) : nat := length (filter (λ f, fee < f) fee_values).
Lemma above_less fee fee' : fee < fee' → fee' ∈ fee_values → (above fee' < above fee)%nat.
Proof.
  intros Hlt. unfold above. assert (Hle : ∀ l : list Z, (length (filter (λ f, (fee' < f)%Z) l) <= length (filter (λ f, (fee < f)%Z) l))%nat).
  { intros l. induction l as [|x l IH]; [done|]. rewrite !filter_cons. destruct (decide (fee' < x)), (decide (fee < x)); cbn [length]; lia. }
  induction fee_values as [|x l IH]; [by intros ?%not_elem_of_nil|]. intros [<-|Hin]%elem_of_cons; rewrite !filter_cons.
  - rewrite decide_False by lia. rewrite decide_True by lia. cbn [length]. specialize (Hle l). lia.
  - specialize (IH Hin). destruct (decide (fee' < x)), (decide (fee < x)); cbn [length]; lia.
Qed.
Lemma above_bound fee : (above fee <= 1120 + 10 * nSend)%nat.
Proof.
  unfold above. etransitivity; [apply length_filter|]. unfold fee_values. rewrite length_app, !length_map, !length_seqZ. lia.
Qed.
End fees.

(** ** What a turn of the loop does *)

Section create.
Context {BN : OpenSSL_BN} {DG : Digests} {C : OpenSSL_EC} {E : EVP} {CH : Choices} {CHok : ChoicesOk}.
Context (nCoinbaseMaturity nMinimumInputValue : Z) (fConfChange : bool) (mine : KeyStore → list Z → isminetype).
Context (new_key : nat → CKey) (now keypool_arg : Z) (nMaxCacheSize : Z) (random_entry : gset sigdata → sigdata).
Context (fTestNet : bool) (pair_valid : list Z → bool) (GetVariant : list Z → option (list Z * list Z)) (nTransactionFee : Z).
Context (Hrandom : ∀ S, S ≠ ∅ → random_entry S ∈ S).
Abbreviation change := (add_change new_key now keypool_arg fTestNet pair_valid GetVariant).
Abbreviation turn := (attempt nCoinbaseMaturity nMinimumInputValue fConfChange mine new_key now keypool_arg nMaxCacheSize random_entry fTestNet pair_valid GetVariant nTransactionFee).

(** Version, time and lock time of the transaction, which the loop leaves alone *)
Definition frame (d : Draft) : Z * Z * Z := let tx := wtx_tx (d_wtx d) in (nVersion tx, nTime tx, nLockTime tx).
Definition payees (vecSend : list (list Z * Z)) : list CTxOut := map (λ s, mkTxOut s.2 s.1) vecSend.
(** The payments with the change, if there is any, before one of them *)
Definition with_change (nChange : Z) (outs outs' : list CTxOut) : Prop :=
  if 0 <? nChange then ∃ pos script, (pos < length outs)%nat ∧ outs' = take pos outs ++ mkTxOut nChange script :: drop pos outs
  else outs' = outs.

Lemma add_change_ok cc n d d' : vout (wtx_tx (d_wtx d)) ≠ [] → change cc n d = Some d' →
  frame d' = frame d ∧ d_fee d' = d_fee d ∧ d_cache d' = d_cache d ∧ with_change n (vout (wtx_tx (d_wtx d))) (vout (wtx_tx (d_wtx d'))).
Proof.
  intros Hne. unfold add_change, with_change. destruct (Z.ltb_spec 0 n) as [Hn|Hn].
  2:{ intros [= <-]. done. }
  intros ([script d1] & Hs & [= <-])%bind_Some.
  assert (d_wtx d1 = d_wtx d ∧ d_fee d1 = d_fee d ∧ d_cache d1 = d_cache d) as (E1 & E2 & E3).
  { unfold change_script in Hs. destruct cc as [cc|]; [destruct (addr_IsValid _ _ _); [by injection Hs as <- <-|]|]; apply bind_Some in Hs as ([[pk r] k] & _ & [= <- <-]); done. }
  unfold insert_change, frame. cbn. rewrite E1, E2, E3. split; [done|]. split; [done|]. split; [done|].
  eexists _, script. split; [|done]. assert (0 < Z.of_nat (length (vout (wtx_tx (d_wtx d))))) by (destruct (vout _); [done|cbn; lia]).
  pose proof (ch_GetRandInt_ok (d_rolled d1) (Z.of_nat (length (vout (wtx_tx (d_wtx d))))) ltac:(lia)). lia.
Qed.

(** The keys of a store with others that were generated *)
Definition grown : KeyStore → KeyStore → Prop := rtc (λ s s', ∃ n, AddKey s (new_key n) = (true, s')).
Lemma top_up_grown fuel nTargetSize : ∀ k k', top_up_loop new_key now fuel nTargetSize k = Some k' → grown (kw_store k) (kw_store k').
Proof.
  induction fuel as [|fuel IH]; intros k k'; cbn [top_up_loop]; (destruct (_ <? _); [|by intros [= <-]; constructor]); [done|].
  intros (k1 & H1 & H%IH)%bind_Some. eapply rtc_l; [|exact H]. apply bind_Some in H1 as ([pk k2] & H1 & [= <-]). unfold GenerateNewKey in H1. destruct (AddKey _ _) as [[] s] eqn:Ea; [|done].
  injection H1 as <- <-. by exists (kw_drawn k).
Qed.
Lemma reserve_grown r k pk r' k' : GetReservedKey new_key now keypool_arg r k = Some (pk, r', k') → grown (kw_store k) (kw_store k') ∧ pk = rk_vchPubKey r'.
Proof.
  intros ([r1 k1] & Hr & H)%bind_Some. destruct (negb (CPubKey_IsValid (rk_vchPubKey r1))); [done|]. injection H as <- <- <-. split; [|done]. revert Hr. destruct (_ =? _); [|intros [= <- <-]; constructor].
  intros ([[i kp] k2] & Hr & [= _ <-])%bind_Some. apply bind_Some in Hr as (k3 & Ht & Hr). assert (Hs : kw_store k2 = kw_store k3).
  { revert Hr. destruct (first_index _); [|by intros [= _ _ <-]]. intros (x & _ & Hr)%bind_Some. cbn [kw_store with_pool] in Hr. destruct (negb (HaveKey _ _)) in Hr; [done|]. destruct (negb (CPubKey_IsValid _)) in Hr; [done|]. by injection Hr as _ _ <-. }
  rewrite Hs. revert Ht. destruct (negb _); [|intros [= <-]; constructor]. intros ([b k4] & Ht & ->)%fmap_Some. revert Ht. unfold TopUpKeyPool.
  destruct (IsLocked _); [intros [= _ <-]; constructor|]. intros (k5 & Ht & [= _ <-])%bind_Some. by eapply top_up_grown.
Qed.
(** The key of the change *)
Definition change_key (r : CReserveKey) : list Z := SetDestination (CKeyID (pubkey_GetID (rk_vchPubKey r))).
(** Where the change goes *)
Definition change_to (cc : option CCoinControl) (r : CReserveKey) : list Z :=
  match cc with
  | Some c => if addr_IsValid fTestNet pair_valid (destChange c) then SetAddress fTestNet pair_valid GetVariant (destChange c) else change_key r
  | None => change_key r
  end.
Lemma change_grown cc n d d' : change cc n d = Some d' → grown (kw_store (d_keys d)) (kw_store (d_keys d')) ∧
  ∀ o, o ∈ vout (wtx_tx (d_wtx d')) → o ∈ vout (wtx_tx (d_wtx d)) ∨ scriptPubKey o = change_to cc (d_reserve d').
Proof.
  unfold add_change. destruct (0 <? n).
  2:{ unfold rk_ReturnKey. intros [= <-]. cbn. split; [by destruct (negb _); constructor|tauto]. }
  intros ([script d1] & Hs & [= <-])%bind_Some. assert (Hd : grown (kw_store (d_keys d)) (kw_store (d_keys d1)) ∧ d_wtx d1 = d_wtx d ∧ script = change_to cc (d_reserve d1)).
  { unfold change_script in Hs. unfold change_to. destruct cc as [cc|]; [destruct (addr_IsValid _ _ _); [injection Hs as <- <-; by split; [constructor|]|]|];
      apply bind_Some in Hs as ([[pk r] k] & [Hg Hp]%reserve_grown & [= <- <-]); (split; [done|]); (split; [done|]); unfold change_key; by rewrite Hp. }
  destruct Hd as (Hg & Ed & Hk). split; [done|]. intros o. cbn. rewrite Ed. intros [Ho|[->|Ho]%elem_of_cons]%elem_of_app.
  - left. apply elem_of_take in Ho as (i & Hi & _). by eapply list_elem_of_lookup_2.
  - by right.
  - left. apply list_elem_of_lookup in Ho as [i Hi]. rewrite lookup_drop in Hi. by eapply list_elem_of_lookup_2.
Qed.
Lemma attempt_grown v M vecSend nValue cc d verdict d' : turn v M vecSend nValue cc d = Some (verdict, d') →
  grown (kw_store (d_keys d)) (kw_store (d_keys d')) ∧
  (verdict = Done → ∀ o, o ∈ vout (wtx_tx (d_wtx d')) → o ∈ payees vecSend ∨ scriptPubKey o = change_to cc (d_reserve d')).
Proof.
  intros H. unfold attempt in H. apply bind_Some in H as ([[[ok cs] n] drawn] & _ & H). destruct ok; cbn [negb] in H; [|injection H as <- <-; by split; [constructor|]].
  apply bind_Some in H as (p & _ & H). apply bind_Some in H as (d1 & Hc & H). apply bind_Some in H as (ins & _ & H). apply bind_Some in H as ([[ok tx] cache] & Hs & H).
  apply change_grown in Hc as [Hg Hk]. pose proof (sign_inputs_frame _ _ _ _ _ _ _ _ _ _ _ Hs) as Etx. assert (Eo : vout tx = vout (wtx_tx (d_wtx d1))) by (by rewrite Etx).
  destruct ok; cbn [negb] in H; [|by injection H as <- <-]. destruct (_ <=? _); [by injection H as <- <-|]. destruct (_ <? _); injection H as <- <-; (split; [done|]); [done|].
  intros _ o. cbn. rewrite Eo. by apply Hk.
Qed.

(** A turn that signed: the coins, the change, the inputs and the signatures *)
Record signed_turn (v : NodeView) (M : WalletMap) (vecSend : list (list Z * Z)) (nValue : Z) (cc : option CCoinControl) (d d' : Draft) (tx : CTransaction) (dPriority : double)
    (setCoins : gset Coin) (nValueIn : Z) : Prop := {
  turn_select : ∃ drawn, SelectCoins nCoinbaseMaturity nMinimumInputValue fConfChange (mine (kw_store (d_keys d))) ch_rand ch_shuffle ch_sort
      v M (i64 (nValue + d_fee d)) (nTime (wtx_tx (d_wtx d))) (setSelected <$> cc) (d_drawn d) = Some (true, setCoins, nValueIn, drawn);
  turn_priority : priority v M (ch_order setCoins) (double_of 0) = Some dPriority;
  turn_change : with_change (i64 (i64 (nValueIn - nValue) - d_fee d)) (payees vecSend) (vout tx);
  turn_signed : ∃ s ins outs cache', fill_vin M (ch_order setCoins) = Some ins ∧
    sign_inputs nMaxCacheSize random_entry s M (ch_order setCoins) 0 (mkTx (nVersion (wtx_tx (d_wtx d))) (nTime (wtx_tx (d_wtx d))) ins outs (nLockTime (wtx_tx (d_wtx d)))) (d_cache d) =
      Some (true, tx, cache') ∧ d_cache d' = cache';
  turn_size : u32 (Z.of_nat (length (Serialize tx))) < MAX_BLOCK_SIZE_GEN / 5;
  turn_tx : wtx_tx (d_wtx d') = tx
}.
(** A turn that refused: too few coins, an input that cannot be signed, too many bytes *)
Definition refused_turn (v : NodeView) (M : WalletMap) (nValue : Z) (cc : option CCoinControl) (d d' : Draft) : Prop :=
  (∃ cs n drawn, SelectCoins nCoinbaseMaturity nMinimumInputValue fConfChange (mine (kw_store (d_keys d))) ch_rand ch_shuffle ch_sort
      v M (i64 (nValue + d_fee d)) (nTime (wtx_tx (d_wtx d))) (setSelected <$> cc) (d_drawn d) = Some (false, cs, n, drawn)) ∨
  (∃ s coins tx cache', fill_vin M coins = Some (vin tx) ∧ sign_inputs nMaxCacheSize random_entry s M coins 0 tx (d_cache d) = Some (false, wtx_tx (d_wtx d'), cache')) ∨
  MAX_BLOCK_SIZE_GEN / 5 <= u32 (Z.of_nat (length (Serialize (wtx_tx (d_wtx d'))))).
Lemma attempt_inv v M vecSend nValue cc d verdict d' : vecSend ≠ [] → turn v M vecSend nValue cc d = Some (verdict, d') →
  match verdict with
  | Refuse => refused_turn v M nValue cc d d'
  | Again => ∃ tx p cs n, signed_turn v M vecSend nValue cc d d' tx p cs n ∧ d_fee d < d_fee d' ∧ d_fee d' = needed_fee nTransactionFee tx p (u32 (Z.of_nat (length (Serialize tx))))
  | Done => ∃ tx p cs n, signed_turn v M vecSend nValue cc d d' tx p cs n ∧ d_fee d' = d_fee d ∧ needed_fee nTransactionFee tx p (u32 (Z.of_nat (length (Serialize tx)))) <= d_fee d
  end.
Proof.
  intros Hne H. unfold attempt in H. apply bind_Some in H as ([[[ok cs] n] drawn] & Hsel & H). destruct ok; cbn [negb] in H; [|injection H as <- <-; left; eauto].
  apply bind_Some in H as (p & Hp & H). apply bind_Some in H as (d1 & Hc & H). apply bind_Some in H as (ins & Hi & H). apply bind_Some in H as ([[ok tx] cache] & Hs & H).
  apply add_change_ok in Hc as (Hf & Hfee & Hca & Hw); [|cbn; by destruct vecSend].
  cbn [d_fee d_cache d_wtx with_draft with_drawn] in Hf, Hfee, Hca. unfold frame in Hf. cbn [d_wtx with_draft with_drawn wtx_mt with_inputs with_mt with_from_me mt_tx nVersion nTime nLockTime vout] in Hf, Hw.
  injection Hf as Ev Et El. pose proof (sign_inputs_frame _ _ _ _ _ _ _ _ _ _ _ Hs) as Etx. cbn [wtx_mt with_inputs with_mt mt_tx d_wtx with_draft vout nVersion nTime nLockTime] in Etx.
  assert (Eo : vout tx = vout (wtx_tx (d_wtx d1))) by (by rewrite Etx).
  assert (Htx : wtx_tx (with_inputs (d_wtx (with_draft d1 (with_inputs (d_wtx d1) ins (vout (wtx_tx (d_wtx d1)))))) (vin tx) (vout tx)) = tx) by (cbn; rewrite Eo; by symmetry).
  cbn [wtx_mt with_inputs with_mt mt_tx d_wtx with_draft d_cache] in Hs. rewrite Ev, Et, El, Hca in Hs.
  destruct ok; cbn [negb] in H; [|injection H as <- <-; right; left; eexists _, _, _, cache; split; [|cbn [d_wtx with_signed]; rewrite Htx; exact Hs]; exact Hi].
  destruct (Z.leb_spec (MAX_BLOCK_SIZE_GEN / 5) (u32 (Z.of_nat (length (Serialize tx))))) as [|Hsz]; [injection H as <- <-; right; right; cbn [d_wtx with_signed]; by rewrite Htx|].
  assert (Hturn : ∀ d2, d_cache d2 = cache → wtx_tx (d_wtx d2) = tx → signed_turn v M vecSend nValue cc d d2 tx p cs n).
  { intros d2 Hd2 Ht2. split; try done; [by exists drawn|by rewrite Eo|]. eexists _, ins, _, cache. split; [done|]. split; [exact Hs|done]. }
  cbn [d_fee with_signed with_draft] in H. rewrite Hfee in H. destruct (Z.ltb_spec (d_fee d) (needed_fee nTransactionFee tx p (u32 (Z.of_nat (length (Serialize tx)))))); injection H as <- <-.
  - exists tx, p, cs, n. split; [by apply Hturn|]. done.
  - exists tx, p, cs, n. split; [by apply Hturn|]. done.
Qed.

(** ** The loop as a whole *)

Context (scrypt_blockhash : list Z → base_uint) (disk : gmap base_uint CTransaction) (block_of_tx : base_uint → option CBlock).
Context (v : NodeView) (M : WalletMap) (vecSend : list (list Z * Z)) (cc : option CCoinControl).
Context (Hne : vecSend ≠ []) (Hlen : Z.of_nat (length vecSend) < MAX_BLOCK_SIZE) (Hfee : 0 <= nTransactionFee < 2 ^ 55).
Abbreviation loop := (fee_loop nCoinbaseMaturity nMinimumInputValue fConfChange mine new_key now keypool_arg nMaxCacheSize random_entry fTestNet pair_valid GetVariant nTransactionFee
  scrypt_blockhash disk block_of_tx).
Abbreviation fees := (fee_values nTransactionFee (length vecSend)).

Lemma change_length n outs outs' : with_change n outs outs' → (length outs' <= length outs + 1)%nat.
Proof. unfold with_change. destruct (0 <? n); [|intros ->; lia]. intros (pos & script & Hp & ->). rewrite length_app. cbn [length]. rewrite length_take, length_drop. lia. Qed.
Lemma turn_fee nValue d d' tx p cs n : signed_turn v M vecSend nValue cc d d' tx p cs n → needed_fee nTransactionFee tx p (u32 (Z.of_nat (length (Serialize tx)))) ∈ fees.
Proof.
  intros [_ _ Hc _ Hs _]. apply needed_in; [done|done|pose proof (u32_range (Z.of_nat (length (Serialize tx)))); lia|].
  apply change_length in Hc. unfold payees in Hc. by rewrite length_map in Hc.
Qed.
Lemma fee_bound f : f ∈ fees → 0 <= f < 2 ^ 62.
Proof.
  unfold fee_values. change MIN_TX_FEE with 1000. change MAX_BLOCK_SIZE with 1000000 in Hlen.
  intros [(k & -> & [? ?]%elem_of_seqZ)%list_elem_of_fmap|(j & -> & [? ?]%elem_of_seqZ)%list_elem_of_fmap]%elem_of_app; nia.
Qed.
(** Each turn that starts again has fewer fees above its own *)
Lemma fee_loop_ends nValue fuel : ∀ d, (above nTransactionFee (length vecSend) (d_fee d) < fuel)%nat → loop fuel v M vecSend nValue cc d ≠ Exhausted.
Proof.
  induction fuel as [|fuel IH]; intros d Hf; [lia|]. cbn [fee_loop]. destruct (attempt _ _ _ _ _ _ _ _ _ _ _ _ _ _ _ _ _ _ d) as [[[] d1]|] eqn:Ea; [done| | |done].
  - apply attempt_inv in Ea as (tx & p & cs & n & Ht & Hlt & E1); [|done]. apply IH.
    assert (above nTransactionFee (length vecSend) (d_fee d1) < above nTransactionFee (length vecSend) (d_fee d))%nat; [|lia].
    apply above_less; [done|]. rewrite E1. by eapply turn_fee.
  - destruct (supporting_total scrypt_blockhash disk block_of_tx v M (d_wtx d1)) as (t & -> & _). done.
Qed.
Lemma turn_frame nValue d d' tx p cs n : signed_turn v M vecSend nValue cc d d' tx p cs n → cache_ok pubkey_Verify nMaxCacheSize (d_cache d) →
  frame d' = frame d ∧ cache_ok pubkey_Verify nMaxCacheSize (d_cache d').
Proof.
  intros [_ _ _ (s & ins & outs & cache' & _ & Hs & Hc) _ Ht] Hok. rewrite Hc. split.
  - apply sign_inputs_frame in Hs. unfold frame. rewrite Ht, Hs. done.
  - by apply sign_inputs_ok in Hs as (? & _).
Qed.
(** The turn that ended the loop *)
Lemma fee_loop_inv nValue fuel : ∀ d b d', cache_ok pubkey_Verify nMaxCacheSize (d_cache d) → 0 <= d_fee d < 2 ^ 62 →
  loop fuel v M vecSend nValue cc d = Returned (Some (b, d')) →
  ∃ d0, frame d0 = frame d ∧ cache_ok pubkey_Verify nMaxCacheSize (d_cache d0) ∧ 0 <= d_fee d0 < 2 ^ 62 ∧ d_fee d <= d_fee d0 ∧
    grown (kw_store (d_keys d)) (kw_store (d_keys d0)) ∧
    if b then ∃ tx p cs n, signed_turn v M vecSend nValue cc d0 d' tx p cs n ∧ d_fee d' = d_fee d0 ∧
      needed_fee nTransactionFee tx p (u32 (Z.of_nat (length (Serialize tx)))) <= d_fee d0 ∧
      (∀ o, o ∈ vout tx → o ∈ payees vecSend ∨ scriptPubKey o = change_to cc (d_reserve d'))
    else refused_turn v M nValue cc d0 d'.
Proof.
  induction fuel as [|fuel IH]; intros d b d' Hc Hf; [done|]. cbn [fee_loop]. destruct (attempt _ _ _ _ _ _ _ _ _ _ _ _ _ _ _ _ _ _ d) as [[[] d1]|] eqn:Ea; [| | |done].
  - intros [= <- <-]. exists d. do 4 (split; [done|]). split; [constructor|]. by apply attempt_inv in Ea.
  - pose proof (attempt_grown _ _ _ _ _ _ _ _ Ea) as [Hg _]. apply attempt_inv in Ea as (tx & p & cs & n & Ht & Hlt & E1); [|done]. destruct (turn_frame _ _ _ _ _ _ _ Ht Hc) as [Ef Hc1].
    pose proof (fee_bound _ (turn_fee _ _ _ _ _ _ _ Ht)) as Hb. rewrite <- E1 in Hb.
    intros H. destruct (IH _ _ _ Hc1 Hb H) as (d0 & F0 & C0 & B0 & L0 & G0 & R0). exists d0. rewrite F0. do 3 (split; [done|]). split; [lia|]. split; [by etrans|done].
  - pose proof (attempt_grown _ _ _ _ _ _ _ _ Ea) as [_ Hk]. apply attempt_inv in Ea as (tx & p & cs & n & [T1 T2 T3 T4 T5 T6] & E1 & Hn); [|done].
    destruct (supporting_total scrypt_blockhash disk block_of_tx v M (d_wtx d1)) as (t & -> & Et). cbn. intros [= <- <-].
    exists d. do 4 (split; [done|]). split; [constructor|]. exists tx, p, cs, n. split; [split; try done; cbn; congruence|]. split; [done|]. split; [done|]. rewrite <- T6. by apply Hk.
Qed.
End create.

(** ** The transaction that is made *)

Lemma fill_vin_ok {DG : Digests} (M : WalletMap) coins ins : keys_ok M → fill_vin M coins = Some ins → prevout <$> ins = (λ c : Coin, mkOutPoint c.1 c.2) <$> coins.
Proof.
  intros K H%mapM_Some. induction H as [|c i coins ins Hc _ IH]; [done|]. cbn. rewrite IH. f_equal. apply bind_Some in Hc as (t & Et & [= <-]). cbn. by rewrite (K _ _ Et).
Qed.
Lemma prevouts_kept v1 v2 : same_but_scripts v1 v2 → prevout <$> v1 = prevout <$> v2.
Proof. intros H. apply (f_equal (map prevout)) in H. by rewrite !map_map in H. Qed.
Lemma total_value_ok vecSend : ∀ n, Forall (λ s : list Z * Z, 0 <= s.2) vecSend → 0 <= n → n + zsum vecSend.*2 < 2 ^ 63 → total_value vecSend n = Some (n + zsum vecSend.*2).
Proof.
  induction vecSend as [|s l IH]; intros n Hp Hn Ht; cbn [total_value].
  - rewrite (proj2 (Z.ltb_ge _ _)) by lia. cbn. f_equal. lia.
  - apply Forall_cons_iff in Hp as [Hs Hp]. rewrite (proj2 (Z.ltb_ge _ _)) by lia. cbn in Ht. unfold zsum in *. cbn in Ht.
    assert (0 <= foldr Z.add 0 l.*2). { apply zsum_nonneg. by apply Forall_fmap. } rewrite i64_small by lia. rewrite IH by (done || lia). f_equal. cbn. lia.
Qed.

Section made.
Context {BN : OpenSSL_BN} {DG : Digests} {C : OpenSSL_EC} {E : EVP} {CH : Choices} {CHok : ChoicesOk}.
Context (nCoinbaseMaturity nMinimumInputValue : Z) (fConfChange : bool) (mine : KeyStore → list Z → isminetype).
Context (new_key : nat → CKey) (now keypool_arg : Z) (nMaxCacheSize : Z) (random_entry : gset sigdata → sigdata).
Context (fTestNet : bool) (pair_valid : list Z → bool) (GetVariant : list Z → option (list Z * list Z)) (nTransactionFee : Z).
Context (scrypt_blockhash : list Z → base_uint) (disk : gmap base_uint CTransaction) (block_of_tx : base_uint → option CBlock).
Context (v : NodeView) (M : WalletMap) (vecSend : list (list Z * Z)) (cc : option CCoinControl).

(** What the transaction is: different coins of the wallet that may be spent with the
    keys of [store] and others that were generated, every input accepted for its coin, the payments with the change, value in equal to value
    out and fee, the fee enough for the size and the priority of the coins *)
Record made (store : KeyStore) (tx : CTransaction) (fee : Z) : Prop := {
  made_inputs : ∃ s l, grown new_key store s ∧ prevout <$> vin tx ≡ₚ (λ c : ValuedCoin, mkOutPoint c.2.1 c.2.2) <$> l ∧ Forall (spendable_coin nMinimumInputValue (mine s) M) l ∧
    ∃ nChange, 0 <= nChange ∧ with_change nChange (payees vecSend) (vout tx) ∧ zsum l.*1 = zsum vecSend.*2 + nChange + fee ∧ zsum l.*1 < int64_max;
  made_distinct : NoDup (prevout <$> vin tx);
  made_signed k i : vin tx !! k = Some i → ∃ t o, M !! op_hash (prevout i) = Some t ∧ vout (wtx_tx t) !! Z.to_nat (op_n (prevout i)) = Some o ∧
    script_valid pubkey_Verify tx STRICT_FLAGS k (scriptPubKey o);
  made_fee : let nBytes := u32 (Z.of_nat (length (Serialize tx))) in nBytes < MAX_BLOCK_SIZE_GEN / 5 ∧ nTransactionFee * (1 + nBytes / 1000) <= fee ∧
    ∃ coins dPriority, prevout <$> vin tx = (λ c : Coin, mkOutPoint c.1 c.2) <$> coins ∧ priority v M coins (double_of 0) = Some dPriority ∧
      GetMinFee tx 1 (AllowFree (double_div dPriority (double_of nBytes))) GMF_SEND nBytes <= fee
}.

Context (Hrandom : ∀ S, S ≠ ∅ → random_entry S ∈ S).
Context (Hmin : 0 <= nMinimumInputValue) (Hfee : 0 <= nTransactionFee < 2 ^ 55) (Hkeys : keys_ok M).
(** The debits and the coins of the wallet are in range *)
Context (Hdebit : ∀ s h t, M !! h = Some t → is_Some (wtx_IsFromMe (mine s) M MINE_ALL t)).
Context (Hcoins : ∀ s sel l, AvailableCoins nCoinbaseMaturity nMinimumInputValue fConfChange (mine s) v true sel M = Some l → zsum (valued M <$> l).*1 < int64_max).
Abbreviation turn_of := (signed_turn nCoinbaseMaturity nMinimumInputValue fConfChange mine nMaxCacheSize random_entry).

Lemma turn_made nValue d d' tx p cs n : nValue = zsum vecSend.*2 → 0 <= nValue < 2 ^ 61 → cache_ok pubkey_Verify nMaxCacheSize (d_cache d) → 0 <= d_fee d < 2 ^ 62 →
  turn_of v M vecSend nValue cc d d' tx p cs n → needed_fee nTransactionFee tx p (u32 (Z.of_nat (length (Serialize tx)))) <= d_fee d → made (kw_store (d_keys d)) tx (d_fee d).
Proof.
  intros EV HV Hc Hf [(drawn & Hsel) Hp Hch (s & ins & outs & cache' & Hi & Hs & _) Hsz _] Hn. rewrite (i64_small (nValue + d_fee d)) in Hsel by lia.
  destruct (AvailableCoins nCoinbaseMaturity nMinimumInputValue fConfChange (mine (kw_store (d_keys d))) v true (setSelected <$> cc) M) as [vCoins|] eqn:Eav;
    [|unfold SelectCoins in Hsel; rewrite Eav in Hsel; done].
  assert (H1 : 0 <= nValue + d_fee d) by lia. assert (H2 : nValue + d_fee d + CENT < 2 ^ 63) by (unfold CENT; lia).
  destruct (SelectCoins_found _ _ _ _ _ _ _ _ _ _ _ _ _ _ _ _ _ ch_shuffle_ok ch_sort_ok Hmin H1 H2 (Hdebit _) Eav (Hcoins _ _ _ Eav) Hsel)
    as ([Hge Hlt] & l & Hnd & Ecs & En & Hl & _).
  destruct (sign_inputs_ok s nMaxCacheSize random_entry Hrandom M (ch_order cs) 0 _ _ _ _ Hc Hs) as (_ & _ & _ & _ & _ & _ & Hsame & Hall). cbn [vin] in Hsame, Hall.
  assert (Hpre : prevout <$> vin tx = (λ c : Coin, mkOutPoint c.1 c.2) <$> ch_order cs) by (rewrite (prevouts_kept _ _ Hsame); by apply (fill_vin_ok M)).
  assert (Hperm : ch_order cs ≡ₚ l.*2) by (rewrite ch_order_ok, Ecs; by apply elements_list_to_set).
  unfold int64_max in Hlt. rewrite (i64_small (n - nValue)), (i64_small (n - nValue - d_fee d)) in Hch by lia.
  split.
  - exists (kw_store (d_keys d)), l. split; [constructor|]. split; [rewrite Hpre, Hperm; by rewrite <- list_fmap_compose|]. split; [done|]. exists (n - nValue - d_fee d). split; [lia|]. split; [done|]. split; [lia|]. unfold int64_max. lia.
  - rewrite Hpre. apply NoDup_fmap_2; [|by rewrite Hperm]. intros [a b] [a' b'] [= -> ->]. done.
  - intros k i Hk. assert (Hpk : (prevout <$> vin tx) !! k = Some (prevout i)) by (by rewrite list_lookup_fmap, Hk). rewrite Hpre, list_lookup_fmap in Hpk.
    destruct (ch_order cs !! k) as [c|] eqn:Ec; [|done]. injection Hpk as Hpk. destruct (Hall k c Ec) as (t & i' & o & Et & Ei & Eo & Hv).
    assert (Hpi : prevout i' = prevout i).
    { pose proof (prevouts_kept _ _ Hsame) as Hsp. apply (f_equal (lookup k)) in Hsp. rewrite !list_lookup_fmap, Hk in Hsp. change (0 + k)%nat with k in Ei. rewrite Ei in Hsp. by injection Hsp. }
    exists t, o. rewrite <- Hpi. split; [|done]. by rewrite Hpi, <- Hpk.
  - cbn zeta. split; [done|]. unfold needed_fee in Hn. pose proof (u32_range (Z.of_nat (length (Serialize tx)))).
    change (MAX_BLOCK_SIZE_GEN / 5) with 100000 in Hsz. assert (0 <= u32 (Z.of_nat (length (Serialize tx))) / 1000 < 100) by (Z.div_mod_to_equations; lia).
    rewrite i64_small in Hn by nia. split; [lia|]. exists (ch_order cs), p. split; [done|]. split; [done|]. etransitivity; [|exact Hn]. apply Z.le_max_r.
Qed.

Lemma made_grown s s' tx fee : grown new_key s s' → made s' tx fee → made s tx fee.
Proof. intros Hg [(s1 & l & Hg1 & Hi) ? ? ?]. split; try done. exists s1, l. split; [by etrans|done]. Qed.
(** The result of [CreateTransaction] in all cases *)
Lemma CreateTransaction_cases d : Forall (λ s : list Z * Z, 0 <= s.2) vecSend → zsum vecSend.*2 < 2 ^ 61 → Z.of_nat (length vecSend) < MAX_BLOCK_SIZE →
  cache_ok pubkey_Verify nMaxCacheSize (d_cache d) →
  let r := CreateTransaction nCoinbaseMaturity nMinimumInputValue fConfChange mine new_key now keypool_arg nMaxCacheSize random_entry fTestNet pair_valid GetVariant nTransactionFee
    scrypt_blockhash disk block_of_tx v M vecSend cc d in
  r ≠ Exhausted ∧
  (∀ d', r = Returned (Some (true, d')) → made (kw_store (d_keys d)) (wtx_tx (d_wtx d')) (d_fee d') ∧ frame d' = frame d ∧ nTransactionFee <= d_fee d' ∧
    cache_ok pubkey_Verify nMaxCacheSize (d_cache d') ∧
    (∀ o, o ∈ vout (wtx_tx (d_wtx d')) → o ∈ payees vecSend ∨ scriptPubKey o = change_to fTestNet pair_valid GetVariant cc (d_reserve d'))) ∧
  (∀ d', r = Returned (Some (false, d')) → vecSend ≠ [] →
    (∃ s fee vCoins, grown new_key (kw_store (d_keys d)) s ∧ nTransactionFee <= fee ∧
       AvailableCoins nCoinbaseMaturity nMinimumInputValue fConfChange (mine s) v true (setSelected <$> cc) M = Some vCoins ∧
       zsum (usable_coins (mine s) M (setSelected <$> cc) (nTime (wtx_tx (d_wtx d))) vCoins).*1 < zsum vecSend.*2 + fee) ∨
    (∃ s coins tx cache cache', fill_vin M coins = Some (vin tx) ∧
       sign_inputs nMaxCacheSize random_entry s M coins 0 tx cache = Some (false, wtx_tx (d_wtx d'), cache')) ∨
    MAX_BLOCK_SIZE_GEN / 5 <= u32 (Z.of_nat (length (Serialize (wtx_tx (d_wtx d')))))).
Proof.
  intros Hp Ht Hlen Hc r. assert (Hz : 0 <= zsum vecSend.*2) by (apply zsum_nonneg; by apply Forall_fmap). unfold r, CreateTransaction. clear r.
  rewrite total_value_ok by (done || lia). rewrite Z.add_0_l. case_bool_decide as Hne; [split; [done|]; split; intros d' [= <-]; done|].
  set (d0 := with_fee (with_draft d (BindWallet (d_wtx d))) nTransactionFee). split; [|split].
  - apply fee_loop_ends; try done. pose proof (above_bound nTransactionFee (length vecSend) (d_fee d0)). unfold fee_fuel. lia.
  - intros d' H. apply fee_loop_inv in H as (d1 & F1 & C1 & B1 & L1 & G1 & tx & p & cs & n & T & E1 & Hn & Hk); try done; [|cbn; lia].
    pose proof (turn_frame _ _ _ _ _ _ Hrandom _ _ _ _ _ _ _ _ _ _ _ T C1) as [F2 C2]. rewrite E1. rewrite (turn_tx _ _ _ _ _ _ _ _ _ _ _ _ _ _ _ _ _ T).
    split; [eapply made_grown; [exact G1|]; by eapply (turn_made (zsum vecSend.*2))|]. split; [by rewrite F2|]. split; [done|]. split; [done|exact Hk].
  - intros d' H _. apply fee_loop_inv in H as (d1 & F1 & C1 & B1 & L1 & G1 & R); try done; [|cbn; lia].
    destruct R as [(cs & n & drawn & Hs)|[(s & coins & tx & cache' & R)|R]]; [left|right; left; eauto 8|by right; right]. exists (kw_store (d_keys d1)), (d_fee d1).
    assert (Et : nTime (wtx_tx (d_wtx d1)) = nTime (wtx_tx (d_wtx d))) by (unfold frame in F1; cbn in F1; congruence).
    rewrite (i64_small (zsum vecSend.*2 + d_fee d1)) in Hs by lia.
    destruct (AvailableCoins nCoinbaseMaturity nMinimumInputValue fConfChange (mine (kw_store (d_keys d1))) v true (setSelected <$> cc) M) as [vCoins|] eqn:Eav;
      [|unfold SelectCoins in Hs; rewrite Eav in Hs; done].
    exists vCoins. split; [done|]. split; [done|]. split; [done|]. assert (H1 : 0 <= zsum vecSend.*2 + d_fee d1) by lia. assert (H2 : zsum vecSend.*2 + d_fee d1 + CENT < 2 ^ 63) by (unfold CENT; lia).
    rewrite <- Et. exact (SelectCoins_short _ _ _ _ ch_rand _ _ _ _ _ _ _ _ _ _ _ _ ch_shuffle_ok ch_sort_ok Hmin H1 H2 (Hdebit _) Eav (Hcoins _ _ _ Eav) Hs).
Qed.
End made.

(** ** Committing a transaction *)

(** What the wallet asks of the memory pool ([AcceptToMemoryPool]) *)
Class TxPool (P : Type) := { pool_submit : P → gset sigdata → CTransaction → option (bool * P * gset sigdata) }.
Class TxPoolOk {P} (T : TxPool P) : Prop := {
  submit_checked p c tx p' c' : pool_submit p c tx = Some (true, p', c') → (CheckTransaction tx).1 = true ∧ IsCoinBase tx = false ∧ IsCoinStake tx = false
}.

Section Commit.
Context {DG : Digests} {P : Type} {T : TxPool P}.
Variable nCoinbaseMaturity : Z.
Variable mine : KeyStore → list Z → isminetype.

(** The coins of the inputs are marked.  [mapWallet[hash]] makes an empty entry when
    there is none; [MarkSpent] then throws *)
Fixpoint mark_coins (vin : list CTxIn) (w : Wallet) : option Wallet :=
  match vin with
  | [] => Some w
  | i :: vin =>
      let h := op_hash (prevout i) in
      coin ← mapWallet w !! h; coin ← MarkSpent (BindWallet coin) (op_n (prevout i));
      mark_coins vin (minting_updated (wtx_WriteToDisk (with_wallet_map w (<[h := coin]> (mapWallet w))) coin) (GetHash (wtx_tx coin)))
  end.
Definition with_requests (w : Wallet) (m : gmap base_uint Z) : Wallet := mkWallet (mapWallet w) (w_file w) (nOrderPosNext w) m (vMintingWalletUpdated w).
(** [CommitTransaction]; announcing the transaction to peers is left out *)
Definition CommitTransaction (v : NodeView) (acentries : list (Z * Z)) (disk_ok : bool) (wtxNew : CWalletTx) (reservekey : CReserveKey) (k : KeyWallet) (w : Wallet) (p : P)
    (cache : gset sigdata) : option (bool * CReserveKey * KeyWallet * Wallet * P * gset sigdata) :=
  let w := with_requests w (<[GetHash (wtx_tx wtxNew) := 0]> (mapRequestCount w)) in
  '(ok, p, cache) ← pool_submit p cache (wtx_tx wtxNew);
  if negb (ok : bool) then Some (false, reservekey, k, w, p, cache)
  else
    let '(reservekey, k) := rk_KeepKey reservekey k in
    '(_, w) ← AddToWallet nCoinbaseMaturity (mine (kw_store k)) v acentries disk_ok wtxNew w;
    w ← mark_coins (vin (wtx_tx wtxNew)) w; Some (true, reservekey, k, w, p, cache).
End Commit.

(** ** Sending money *)

(** What [SendMoney] returns: the messages, or the empty string *)
Inductive SendResult :=
| InvalidAmount | InsufficientFunds | WalletLocked | MintOnly
| FeeRequired (nFee : Z) | CreationFailed | Aborted | Rejected | Sent.
(** The wallet with its keys, the memory pool and the signature cache, and the draws *)
Record Spender (P : Type) := mkSpender {
  sp_wallet : Wallet; sp_keys : KeyWallet; sp_pool : P; sp_cache : gset sigdata; sp_drawn : nat; sp_rolled : nat
}.
Arguments mkSpender {P}.
Arguments sp_wallet {P}.
Arguments sp_keys {P}.
Arguments sp_pool {P}.
Arguments sp_cache {P}.
Arguments sp_drawn {P}.
Arguments sp_rolled {P}.

Section Send.
Context {BN : OpenSSL_BN} {DG : Digests} {C : OpenSSL_EC} {E : EVP} {CH : Choices} {P : Type} {T : TxPool P}.
Variable nCoinbaseMaturity nMinimumInputValue : Z.
Variable fConfChange : bool.
Variable mine : KeyStore → list Z → isminetype.
Variable new_key : nat → CKey.
Variable now keypool_arg nMaxCacheSize : Z.
Variable random_entry : gset sigdata → sigdata.
Variable fTestNet : bool.
Variable pair_valid : list Z → bool.
Variable GetVariant : list Z → option (list Z * list Z).
Variable nTransactionFee : Z.
Variable scrypt_blockhash : list Z → base_uint.
Variable disk : gmap base_uint CTransaction.
Variable block_of_tx : base_uint → option CBlock.
(** [fWalletUnlockMintOnly], and the answer of the user to the fee *)
Variable fWalletUnlockMintOnly : bool.
Variable ThreadSafeAskFee : Z → bool.

Definition balance_of (v : NodeView) (k : KeyWallet) (w : Wallet) : option (Z * Wallet) :=
  '(n, M) ← GetBalance nCoinbaseMaturity fConfChange (mine (kw_store k)) v (mapWallet w); Some (n, with_wallet_map w M).
(** The reservation is returned when [reservekey] is destroyed *)
Definition leave (r : CReserveKey) (k : KeyWallet) (w : Wallet) (p : P) (cache : gset sigdata) (drawn rolled : nat) : Spender P :=
  mkSpender w (rk_ReturnKey r k).2 p cache drawn rolled.
Definition SendMoney (v : NodeView) (acentries : list (Z * Z)) (disk_ok : bool) (scriptPubKey : list Z) (nValue : Z) (wtxNew : CWalletTx) (fAskFee : bool) (st : Spender P)
    : Looped (SendResult * CWalletTx * Spender P) :=
  let end_with res wtx st := Returned (Some (res, wtx, st)) in
  if nValue <=? 0 then end_with InvalidAmount wtxNew st
  else
    match balance_of v (sp_keys st) (sp_wallet st) with
    | None => Returned None
    | Some (nBalance, w) =>
        let st1 := mkSpender w (sp_keys st) (sp_pool st) (sp_cache st) (sp_drawn st) (sp_rolled st) in
        if nBalance <? i64 (nValue + nTransactionFee) then end_with InsufficientFunds wtxNew st1
        else if IsLocked (kw_store (sp_keys st)) then end_with WalletLocked wtxNew st1
        else if fWalletUnlockMintOnly then end_with MintOnly wtxNew st1
        else
          match CreateTransaction1 nCoinbaseMaturity nMinimumInputValue fConfChange mine new_key now keypool_arg nMaxCacheSize random_entry fTestNet pair_valid GetVariant nTransactionFee
                  scrypt_blockhash disk block_of_tx v (mapWallet w) scriptPubKey nValue None
                  (mkDraft wtxNew CReserveKey_new (sp_keys st) (sp_cache st) 0 (sp_drawn st) (sp_rolled st)) with
          | Exhausted => Exhausted
          | Returned None => Returned None
          | Returned (Some (false, d)) =>
              match balance_of v (d_keys d) w with
              | None => Returned None
              | Some (nBalance, w) =>
                  end_with (if nBalance <? i64 (nValue + d_fee d) then FeeRequired (d_fee d) else CreationFailed) (d_wtx d)
                    (leave (d_reserve d) (d_keys d) w (sp_pool st) (d_cache d) (d_drawn d) (d_rolled d))
              end
          | Returned (Some (true, d)) =>
              if fAskFee && negb (ThreadSafeAskFee (d_fee d)) then
                end_with Aborted (d_wtx d) (leave (d_reserve d) (d_keys d) w (sp_pool st) (d_cache d) (d_drawn d) (d_rolled d))
              else
                match CommitTransaction nCoinbaseMaturity mine v acentries disk_ok (d_wtx d) (d_reserve d) (d_keys d) w (sp_pool st) (d_cache d) with
                | None => Returned None
                | Some (ok, r, k, w, p, cache) => end_with (if (ok : bool) then Sent else Rejected) (d_wtx d) (leave r k w p cache (d_drawn d) (d_rolled d))
                end
          end
    end.
End Send.

Section committed.
Context {DG : Digests}.

Definition coin_update (vin : list CTxIn) (h : base_uint) (t t' : CWalletTx) : Prop :=
  core_of t' = core_of t ∧ ∀ k, (k < length (vout (wtx_tx t)))%nat → flag t' k = flag t k || spends vin h k.
(** Inputs that name outputs of the wallet *)
Definition in_wallet (M : WalletMap) (i : CTxIn) : Prop :=
  ∃ t, M !! op_hash (prevout i) = Some t ∧ 0 <= op_n (prevout i) < Z.of_nat (length (vout (wtx_tx t))).
Lemma mark_coins_ok vin : ∀ w, wallet_ok w → Forall (in_wallet (mapWallet w)) vin →
  ∃ w', mark_coins vin w = Some w' ∧ wallet_ok w' ∧ updates (coin_update vin) (mapWallet w) (mapWallet w').
Proof.
  induction vin as [|i vin IH]; intros w W Hin.
  { exists w. split; [done|]. split; [done|]. apply updates_refl. intros h t. split; [done|]. intros k _. by rewrite orb_false_r. }
  apply Forall_cons_iff in Hin as [(t & Et & Hn) Hin]. cbn [mark_coins]. set (h := op_hash (prevout i)) in *. set (n := Z.to_nat (op_n (prevout i))).
  assert (op_n (prevout i) = Z.of_nat n) as En by (unfold n; lia). assert (prevout i = mkOutPoint h (Z.of_nat n)) as Ep by (rewrite <- En; by destruct (prevout i)).
  rewrite Et. cbn [mbind option_bind]. rewrite En. unfold MarkSpent. destruct (set_flag_ok true (BindWallet t) n) as (t' & -> & Hc & Hf); [cbn; lia|].
  cbn [mbind option_bind]. change (core_of (BindWallet t)) with (core_of t) in Hc. pose proof (core_tx _ _ Hc) as Htx.
  set (w1 := minting_updated _ _). assert (U1 : updates (λ h0 a b, core_of b = core_of a ∧ ∀ k, (k < length (vout (wtx_tx a)))%nat → flag b k = flag a k || bool_decide (h0 = h ∧ k = n)) (mapWallet w) (mapWallet w1)).
  { intros h0. cbn. destruct (decide (h0 = h)) as [->|Hne].
    - rewrite Et, lookup_insert_eq. constructor. split; [done|]. intros k Hk. rewrite (Hf k Hk). destruct (decide (k = n)) as [->|].
      + rewrite (bool_decide_eq_true_2 (h = h ∧ n = n)) by done. by rewrite orb_true_r.
      + rewrite (bool_decide_eq_false_2 (h = h ∧ k = n)) by tauto. by rewrite orb_false_r.
    - rewrite lookup_insert_ne by done. destruct (mapWallet w !! h0); constructor. split; [done|]. intros k _. rewrite bool_decide_eq_false_2 by tauto. by rewrite orb_false_r. }
  destruct W as [K P F]. assert (W1 : wallet_ok w1).
  { destruct (places_ok (mapWallet w) (mapWallet w1) (nOrderPosNext w)) as [K1 P1]; [|done|].
    - eapply updates_impl; [|exact U1]. intros h0 a b [Hab _]. by apply core_place.
    - split; [done|done|]. unfold w1, in_step in *. cbn. rewrite Htx, (K _ _ Et). by rewrite !fmap_insert, F. }
  destruct (IH w1 W1) as (w' & E & W' & U).
  { eapply Forall_impl; [exact Hin|]. intros j (tj & Ej & Hj). pose proof (U1 (op_hash (prevout j))) as Uj. rewrite Ej in Uj. inversion Uj as [? tj' [Hcj _] Ea Eb|]; subst.
    exists tj'. split; [by symmetry|]. by rewrite (core_tx _ _ Hcj). }
  exists w'. split; [done|]. split; [done|]. eapply updates_step; [exact U1|exact U|]. intros h0 t1 t2 t3 _ [Hc1 Hf1] [Hc2 Hf2]. split; [congruence|].
  intros k Hk. rewrite (Hf2 k), (Hf1 k Hk), spends_cons, Ep by (by rewrite (core_tx _ _ Hc1)). rewrite <- orb_assoc. f_equal. f_equal. apply bool_decide_ext.
  split; [intros [-> ->]; done|]. intros [= -> ->%Nat2Z.inj]. done.
Qed.
End committed.

(** ** What is sent *)

Section sent.
Context {BN : OpenSSL_BN} {DG : Digests} {C : OpenSSL_EC} {E : EVP} {CH : Choices} {CHok : ChoicesOk} {P : Type} {T : TxPool P} {Tok : TxPoolOk T}.
Context (nCoinbaseMaturity nMinimumInputValue : Z) (fConfChange : bool) (mine : KeyStore → list Z → isminetype).

(** The commitment of a transaction that is new to the wallet *)
Lemma commit_ok v ac wtxNew r k w p p' cache cache' : let tx := wtx_tx wtxNew in let hash := GetHash tx in
  wallet_ok w → 0 <= nOrderPosNext w < 2 ^ 63 - 1 → mapWallet w !! hash = None →
  creditable (mine (kw_store k)) (mapWallet w) → (∀ f, is_Some (credit_tx (mine (kw_store k)) tx f)) →
  Forall (in_wallet (mapWallet w)) (vin tx) → pool_submit p cache tx = Some (true, p', cache') →
  ∃ w', CommitTransaction nCoinbaseMaturity mine v ac true wtxNew r k w p cache = Some (true, (rk_KeepKey r k).1, (rk_KeepKey r k).2, w', p', cache') ∧ wallet_ok w' ∧
    (∃ t', mapWallet w' !! hash = Some t' ∧ wtx_tx t' = tx) ∧
    (∀ h, h ≠ hash → option_Forall2 (coin_update (vin tx) h) (mapWallet w !! h) (mapWallet w' !! h)).
Proof.
  intros tx hash W Hpos Hnew Hcr Hct Hin Hsub. unfold CommitTransaction. fold tx. rewrite Hsub. cbn [mbind option_bind negb]. fold hash.
  destruct (rk_KeepKey r k) as [r' k'] eqn:Ek. assert (Es : kw_store k' = kw_store k) by (unfold rk_KeepKey in Ek; injection Ek as _ <-; by destruct (negb _)).
  rewrite Es. cbn [fst snd]. set (w0 := with_requests w (<[hash := 0]> (mapRequestCount w))). assert (W0 : wallet_ok w0) by (destruct W; by split).
  assert (Hv : Forall (λ i, 0 <= op_n (prevout i) ∧ op_hash (prevout i) ≠ hash) (vin tx)).
  { eapply Forall_impl; [exact Hin|]. intros i (t & Et & Hn). split; [lia|]. intros Eq. rewrite Eq in Et. congruence. }
  destruct (AddToWallet_adds (mine (kw_store k)) nCoinbaseMaturity v ac wtxNew w0) as (w1 & E1 & K1 & F1 & Ho & t1 & Et1 & Htx1 & _); [apply W0|apply W0|intros t0 Et0; change (mapWallet w !! hash = Some t0) in Et0; congruence|done|done|exact Hv|].
  rewrite E1. cbn [mbind option_bind].
  assert (W1 : wallet_ok w1).
  { eapply (AddToWallet_ok (mine (kw_store k)) nCoinbaseMaturity v ac wtxNew w0 true w1) in W0 as [? _]; [done|eapply Forall_impl; [exact Hv|]; by intros i []|intros t0 Et0; change (mapWallet w !! hash = Some t0) in Et0; congruence|done|done]. }
  destruct (mark_coins_ok (vin tx) w1 W1) as (w' & E2 & W' & U2).
  { eapply Forall_impl; [exact Hin|]. intros i (t & Et & Hn). assert (Hh : op_hash (prevout i) ≠ hash) by (intros Eq; rewrite Eq in Et; congruence).
    pose proof (Ho _ Hh) as Hot. cbn [mapWallet with_requests w0] in Hot. rewrite Et in Hot. inversion Hot as [? t2 [Hc _] Ea Eb|]; subst. exists t2. split; [by symmetry|]. by rewrite (core_tx _ _ Hc). }
  rewrite E2. cbn [mbind option_bind]. exists w'. split; [done|]. split; [done|]. split.
  - change (mapWallet w1 !! hash = Some t1) in Et1. pose proof (U2 hash) as Uh. rewrite Et1 in Uh. inversion Uh as [? t2 [Hc _] Ea Eb|]; subst. exists t2. split; [by symmetry|]. rewrite (core_tx _ _ Hc). exact Htx1.
  - intros h Hh. specialize (Ho h Hh). specialize (U2 h). cbn [mapWallet with_requests w0] in Ho. inversion Ho as [a b [Hc Hf] Ea Eb|Ea Eb]; rewrite <- Eb in U2; inversion U2 as [? c [Hc2 Hf2] Ec Ed|]; subst; constructor.
    split; [congruence|]. intros j Hj. rewrite (Hf2 j), (Hf j Hj) by (by rewrite (core_tx _ _ Hc)).
    unfold tx. by destruct (flag a j), (spends (vin (wtx_tx wtxNew)) h j), (own_output (mine (kw_store k)) a j).
Qed.

Context (new_key : nat → CKey) (now keypool_arg : Z) (nMaxCacheSize : Z) (random_entry : gset sigdata → sigdata).
Context (fTestNet : bool) (pair_valid : list Z → bool) (GetVariant : list Z → option (list Z * list Z)) (nTransactionFee : Z).
Context (scrypt_blockhash : list Z → base_uint) (disk : gmap base_uint CTransaction) (block_of_tx : base_uint → option CBlock).
Context (fWalletUnlockMintOnly : bool) (ThreadSafeAskFee : Z → bool).
Abbreviation makes v M vecSend store := (made nMinimumInputValue mine new_key nTransactionFee v M vecSend store).

Lemma change_total n vecSend outs : with_change n (payees vecSend) outs → 0 <= n → Forall (λ s : list Z * Z, 0 <= s.2) vecSend → zsum vecSend.*2 + n < int64_max →
  Forall (λ o, MoneyRange (nValue o) = true) outs ∧ foldr Z.add 0 (map nValue outs) < 2 ^ 63.
Proof.
  intros Hw Hn Hp Ht. assert (Ez : ∀ l, zsum (map nValue (payees l)) = zsum l.*2) by (intros l; unfold payees; rewrite map_map; done).
  assert (Hperm : ∃ extra, zsum extra = n ∧ Forall (λ x, 0 <= x) extra ∧ map nValue outs ≡ₚ extra ++ map nValue (payees vecSend)).
  { unfold with_change in Hw. destruct (Z.ltb_spec 0 n).
    - destruct Hw as (pos & script & _ & ->). exists [n]. split; [unfold zsum; cbn; lia|]. split; [by repeat constructor|].
      rewrite map_app. cbn [map nValue app]. rewrite <- Permutation_middle, <- map_app, take_drop. done.
    - exists []. split; [unfold zsum; cbn; lia|]. split; [done|]. by rewrite Hw. }
  destruct Hperm as (extra & Ee & He & Hperm). assert (Hsum : zsum (map nValue outs) = n + zsum vecSend.*2) by (rewrite Hperm, zsum_app, Ez; lia).
  assert (Hall : Forall (λ x, 0 <= x) (map nValue outs)).
  { rewrite Hperm. apply Forall_app. split; [done|]. unfold payees. rewrite map_map. by apply Forall_fmap. }
  unfold int64_max in Ht. split; [|change (zsum (map nValue outs) < 2 ^ 63); lia].
  apply Forall_forall. intros o Ho. apply (list_elem_of_fmap_2 nValue) in Ho. unfold MoneyRange. apply andb_true_iff. rewrite Z.geb_le, Z.leb_le.
  rewrite Forall_forall in Hall. split; [by apply Hall|]. unfold MAX_MONEY.
  assert (nValue o <= zsum (map nValue outs)); [|lia]. apply list_elem_of_split in Ho as (l1 & l2 & El). change (map nValue outs = l1 ++ nValue o :: l2) in El.
  rewrite El in Hall |- *. rewrite zsum_app. unfold zsum. cbn [foldr].
  assert (0 <= zsum l1 ∧ 0 <= zsum l2) as [? ?]; [|unfold zsum in *; lia].
  split; apply zsum_nonneg, Forall_forall; intros x Hx; apply Hall; set_solver.
Qed.
Lemma made_in_wallet v M vecSend s tx fee : makes v M vecSend s tx fee → Forall (in_wallet M) (vin tx).
Proof.
  intros [(s' & l & _ & Hp & Hl & _) _ Hs _]. apply Forall_forall. intros i [k Hk]%list_elem_of_lookup. destruct (Hs _ _ Hk) as (t & o & Et & Eo & _).
  assert (Hin : prevout i ∈ (λ c : ValuedCoin, mkOutPoint c.2.1 c.2.2) <$> l) by (rewrite <- Hp; apply list_elem_of_fmap_2; by eapply list_elem_of_lookup_2).
  apply list_elem_of_fmap in Hin as (c & Ec & Hc). rewrite Forall_forall in Hl. destruct (Hl _ Hc) as (_ & n & _ & _ & En & _). unfold in_wallet. rewrite Ec. cbn [op_hash op_n].
  exists t. rewrite Ec in Et, Eo. cbn [op_hash op_n] in Et, Eo. split; [done|]. apply lookup_lt_Some in Eo. rewrite En in *. lia.
Qed.
Lemma made_credit v M vecSend store tx fee s f : Forall (λ s : list Z * Z, 0 <= s.2) vecSend → 0 <= fee → makes v M vecSend store tx fee → is_Some (credit_tx (mine s) tx f).
Proof.
  intros Hp Hf [(s0 & l & _ & _ & _ & n & Hn & Hc & Hz & Hlt) _ _ _]. destruct (change_total n vecSend (vout tx)) as [H1 H2]; try done; [lia|]. by apply credit_in_range.
Qed.

Context (Hrandom : ∀ S, S ≠ ∅ → random_entry S ∈ S) (Hmin : 0 <= nMinimumInputValue) (Hfee : 0 <= nTransactionFee < 2 ^ 55).
Abbreviation send := (SendMoney nCoinbaseMaturity nMinimumInputValue fConfChange mine new_key now keypool_arg nMaxCacheSize random_entry fTestNet pair_valid GetVariant nTransactionFee
  scrypt_blockhash disk block_of_tx fWalletUnlockMintOnly ThreadSafeAskFee).

(** Maps that differ in what is kept in memory only *)
Definition same_map (M M' : WalletMap) : Prop := persist <$> M' = persist <$> M.
Lemma same_map_updates M M' : same_map M M' → updates (λ _ t t', persist t' = persist t) M M'.
Proof.
  intros H h. apply (f_equal (lookup h)) in H. rewrite !lookup_fmap in H. destruct (M !! h), (M' !! h); try done; constructor. by apply (inj Some) in H.
Qed.
Lemma balance_same v k w n w' : balance_of nCoinbaseMaturity fConfChange mine v k w = Some (n, w') → wallet_ok w →
  wallet_ok w' ∧ same_map (mapWallet w) (mapWallet w') ∧ nOrderPosNext w' = nOrderPosNext w.
Proof.
  intros ([n' M'] & H & [= <- <-])%bind_Some W. assert (E1 : same_map (mapWallet w) M').
  { eapply (balance_persist (mine (kw_store k)) nCoinbaseMaturity fConfChange); [apply BalanceQ|exact H]. }
  split; [by apply persist_map_ok|done].
Qed.
(** The amounts of a wallet are in range, whatever its caches hold *)
Record amounts_ok (v : NodeView) (M : WalletMap) : Prop := {
  amounts_credit s : creditable (mine s) M;
  amounts_debit M' s h t : same_map M M' → M' !! h = Some t → is_Some (wtx_IsFromMe (mine s) M' MINE_ALL t);
  amounts_coins M' s sel l : same_map M M' → AvailableCoins nCoinbaseMaturity nMinimumInputValue fConfChange (mine s) v true sel M' = Some l → zsum (valued M' <$> l).*1 < int64_max
}.
(** What holds after money was sent *)
Record sent_ok (w w' : Wallet) (tx : CTransaction) : Prop := {
  sent_wallet : wallet_ok w';
  sent_added : ∃ t, mapWallet w' !! GetHash tx = Some t ∧ wtx_tx t = tx;
  sent_others h : h ≠ GetHash tx → option_Forall2 (coin_update (vin tx) h) (mapWallet w !! h) (mapWallet w' !! h);
  sent_spent : Forall (λ i, ∃ t, mapWallet w' !! op_hash (prevout i) = Some t ∧ IsSpent t (op_n (prevout i)) = Some true) (vin tx)
}.
Lemma committed_spent w w' tx : mapWallet w !! GetHash tx = None → Forall (in_wallet (mapWallet w)) (vin tx) →
  (∀ h, h ≠ GetHash tx → option_Forall2 (coin_update (vin tx) h) (mapWallet w !! h) (mapWallet w' !! h)) →
  Forall (λ i, ∃ t, mapWallet w' !! op_hash (prevout i) = Some t ∧ IsSpent t (op_n (prevout i)) = Some true) (vin tx).
Proof.
  intros Hnew Hin Ho. rewrite Forall_forall in Hin. apply Forall_forall. intros i Hi. destruct (Hin _ Hi) as (t & Et & Hn).
  assert (Hh : op_hash (prevout i) ≠ GetHash tx) by (intros Eq; rewrite Eq in Et; congruence).
  specialize (Ho _ Hh). rewrite Et in Ho. inversion Ho as [? t' [Hc Hf] Ea Eb|]; subst. exists t'. split; [by symmetry|].
  assert (En : op_n (prevout i) = Z.of_nat (Z.to_nat (op_n (prevout i)))) by lia. rewrite En.
  rewrite IsSpent_flag by (rewrite (core_tx _ _ Hc); lia). rewrite Hf by lia. f_equal. apply orb_true_iff. right. unfold spends. apply existsb_exists. exists i.
  split; [by apply list_elem_of_In|]. apply bool_decide_eq_true. rewrite <- En. by destruct (prevout i).
Qed.
Lemma same_then_coin (M M1 M' : WalletMap) vin (h : base_uint) : same_map M M1 → option_Forall2 (coin_update vin h) (M1 !! h) (M' !! h) → option_Forall2 (coin_update vin h) (M !! h) (M' !! h).
Proof.
  intros Hs%same_map_updates H. specialize (Hs h). inversion Hs as [a b Hp Ea Eb|Ea Eb]; rewrite <- Eb in H; [|inversion H; constructor].
  inversion H as [? c [Hc Hf] Ec Ed|]; subst. constructor. pose proof (persist_core _ _ Hp) as Hpc. split; [congruence|].
  intros k Hk. rewrite (Hf k), (persist_flag a b k Hp) by (by rewrite (core_tx _ _ Hpc)). done.
Qed.
Lemma same_map_in (M M1 : WalletMap) i : same_map M M1 → in_wallet M1 i → in_wallet M i.
Proof.
  intros Hs%same_map_updates (t1 & E1 & Hn). destruct (updates_lookup _ _ _ _ _ Hs E1) as (t & Et & Hp). exists t. split; [done|].
  by rewrite <- (core_tx _ _ (persist_core _ _ Hp)).
Qed.
(** A transaction that was made and committed *)
Lemma made_committed v ac w w1 d r k p p' w' script nValue cache c' ok store :
  wallet_ok w1 → 0 <= nOrderPosNext w1 < 2 ^ 63 - 1 → same_map (mapWallet w) (mapWallet w1) → (∀ s, creditable (mine s) (mapWallet w1)) → 0 <= nValue → 0 <= d_fee d →
  makes v (mapWallet w1) [(script, nValue)] store (wtx_tx (d_wtx d)) (d_fee d) →
  CommitTransaction nCoinbaseMaturity mine v ac true (d_wtx d) (d_reserve d) (d_keys d) w1 p cache = Some (ok, r, k, w', p', c') →
  if ok then pool_submit p cache (wtx_tx (d_wtx d)) = Some (true, p', c') ∧ (mapWallet w !! GetHash (wtx_tx (d_wtx d)) = None → sent_ok w w' (wtx_tx (d_wtx d)))
  else mapWallet w' = mapWallet w1.
Proof.
  intros W1 Hpos Hs Hcr Hv Hf Hm H. destruct (pool_submit p cache (wtx_tx (d_wtx d))) as [[[b p1] c1]|] eqn:Esub; [|unfold CommitTransaction in H; by rewrite Esub in H].
  destruct b; [|unfold CommitTransaction in H; rewrite Esub in H; by injection H as <- <- <- <- <- <-].
  assert (Hok : ok = true ∧ p' = p1 ∧ c' = c1). { unfold CommitTransaction in H. rewrite Esub in H. cbn [mbind option_bind negb] in H. destruct (rk_KeepKey _ _).
    apply bind_Some in H as ([? ?] & _ & H). apply bind_Some in H as (? & _ & H). by injection H as <- _ _ _ <- <-. }
  destruct Hok as (-> & -> & ->). split; [done|]. intros Hnew.
  assert (Hnew1 : mapWallet w1 !! GetHash (wtx_tx (d_wtx d)) = None).
  { pose proof (same_map_updates _ _ Hs (GetHash (wtx_tx (d_wtx d)))) as Hu. rewrite Hnew in Hu. by inversion Hu. }
  pose proof (made_in_wallet _ _ _ _ _ _ Hm) as Hin.
  assert (Hct : ∀ f, is_Some (credit_tx (mine (kw_store (d_keys d))) (wtx_tx (d_wtx d)) f)) by (intros f; eapply made_credit; [|exact Hf|exact Hm]; by repeat constructor).
  destruct (commit_ok v ac (d_wtx d) (d_reserve d) (d_keys d) w1 p p1 cache c1 W1 Hpos Hnew1 (Hcr _) Hct Hin Esub) as (w2 & E2 & W2 & Ha & Ho).
  rewrite E2 in H. injection H as <- <- <-.
  assert (Ho' : ∀ h, h ≠ GetHash (wtx_tx (d_wtx d)) → option_Forall2 (coin_update (vin (wtx_tx (d_wtx d))) h) (mapWallet w !! h) (mapWallet w2 !! h)).
  { intros h Hh. eapply same_then_coin; [exact Hs|by apply Ho]. }
  split; [done|done|exact Ho'|]. eapply committed_spent; [exact Hnew| |exact Ho']. eapply Forall_impl; [exact Hin|]. intros i. by apply same_map_in.
Qed.

(** C22. Sending money.  [SendMoney] ends, with one of its messages or with an
    exception.  Unless it reports success no coin of the wallet is spent and nothing is
    added to it, and only a rejection by the memory pool can have changed the pool.  On
    success the amount was positive and the wallet unlocked; the transaction pays the
    amount, is made of coins of the wallet as [CreateTransaction] promises and passes
    [CheckTransaction]; the pool was asked to take it, took it, and is left as it was
    after that; and, if the transaction is new to the wallet, it is in it afterwards,
    every coin it spends is marked spent, no other coin changes, and the wallet file
    is in step. *)
Theorem SendMoney_ok v ac script nValue wtxNew fAskFee st : wallet_ok (sp_wallet st) → 0 <= nOrderPosNext (sp_wallet st) < 2 ^ 63 - 1 →
  amounts_ok v (mapWallet (sp_wallet st)) → cache_ok pubkey_Verify nMaxCacheSize (sp_cache st) → nValue < 2 ^ 61 →
  let r := send v ac true script nValue wtxNew fAskFee st in
  r ≠ Exhausted ∧
  ∀ res wtx st', r = Returned (Some (res, wtx, st')) → let tx := wtx_tx wtx in
    (res ≠ Sent → same_map (mapWallet (sp_wallet st)) (mapWallet (sp_wallet st')) ∧ (res ≠ Rejected → sp_pool st' = sp_pool st)) ∧
    (res = Sent → 0 < nValue ∧ IsLocked (kw_store (sp_keys st)) = false ∧ (CheckTransaction tx).1 = true ∧
      (∃ cache, cache_ok pubkey_Verify nMaxCacheSize cache ∧ pool_submit (sp_pool st) cache tx = Some (true, sp_pool st', sp_cache st')) ∧
      (∃ M fee, same_map (mapWallet (sp_wallet st)) M ∧ makes v M [(script, nValue)] (kw_store (sp_keys st)) tx fee) ∧
      (mapWallet (sp_wallet st) !! GetHash tx = None → sent_ok (sp_wallet st) (sp_wallet st') tx)).
Proof.
  intros W Hpos A Hc Hv r. unfold r, SendMoney. clear r. destruct (Z.leb_spec nValue 0) as [|Hv0]; [split; [done|]; by intros res wtx st' [= <- <- <-]|].
  destruct (balance_of _ _ _ _ _ _) as [[nBalance w]|] eqn:Eb; [|done]. destruct (balance_same _ _ _ _ _ Eb W) as (W1 & Hs & Hn).
  destruct (nBalance <? _); [split; [done|]; by intros res wtx st' [= <- <- <-]|].
  destruct (IsLocked (kw_store (sp_keys st))) eqn:El; [split; [done|]; by intros res wtx st' [= <- <- <-]|].
  destruct fWalletUnlockMintOnly; [split; [done|]; by intros res wtx st' [= <- <- <-]|].
  set (d0 := mkDraft _ _ _ _ _ _ _). destruct (CreateTransaction_cases nCoinbaseMaturity nMinimumInputValue fConfChange mine new_key now keypool_arg nMaxCacheSize random_entry fTestNet pair_valid GetVariant nTransactionFee
    scrypt_blockhash disk block_of_tx v (mapWallet w) [(script, nValue)] None Hrandom Hmin Hfee) with (d := d0) as (Hend & Hmade & _);
    [apply W1|intros s h t; by apply (amounts_debit _ _ A)|intros s sel l; by apply (amounts_coins _ _ A)|by repeat constructor; cbn; lia|unfold zsum; cbn; lia|done|done|].
  unfold CreateTransaction1. set (made_r := CreateTransaction _ _ _ _ _ _ _ _ _ _ _ _ _ _ _ _ _ _ _ _ d0) in *.
  destruct made_r as [|[[[] d]|]]; [done| | |done].
  - destruct (Hmade d eq_refl) as (Hm & _ & Hlow & Hcd & _). destruct (fAskFee && _); [split; [done|]; by intros res wtx st' [= <- <- <-]|].
    destruct (CommitTransaction _ _ _ _ _ _ _ _ _ _ _) as [[[[[[ok r] k] w2] p] c]|] eqn:Ec; [|done]. split; [done|]. intros res wtx st' [= <- <- <-]. cbn [sp_wallet leave].
    assert (Hcr : ∀ s, creditable (mine s) (mapWallet w)).
    { intros s. eapply creditable_updates; [by apply same_map_updates| |apply (amounts_credit _ _ A)]. intros h t t' Hp. exact (core_tx _ _ (persist_core _ _ Hp)). }
    assert (Hv1 : 0 <= nValue) by lia. assert (Hf1 : 0 <= d_fee d) by lia. assert (Hp1 : 0 <= nOrderPosNext w < 2 ^ 63 - 1) by (by rewrite Hn). pose proof (made_committed _ _ _ _ _ _ _ _ _ _ _ _ _ _ _ _ W1 Hp1 Hs Hcr Hv1 Hf1 Hm Ec) as Hk. clear Ec. destruct ok.
    + destruct Hk as [Hck Hsent]. split; [done|]. intros _. split; [done|]. split; [done|]. split; [by apply submit_checked in Hck as (? & _)|]. split; [by exists (d_cache d)|]. split; [by exists (mapWallet w), (d_fee d)|done].
    + split; [|done]. intros _. split; [by rewrite Hk|done].
  - destruct (balance_of _ _ _ _ (d_keys d) w) as [[n2 w2]|] eqn:Eb2; [|done]. split; [done|]. intros res wtx st' [= <- <- <-]. cbn [sp_wallet sp_pool leave].
    destruct (balance_same _ _ _ _ _ Eb2 W1) as (_ & Hs2 & _). split; [|by destruct (n2 <? _)]. intros _. split; [|done]. unfold same_map in *. congruence.
Qed.
End sent.

(** ** The memory pool *)

(** [CMerkleTx::AcceptToMemoryPool] of a full node *)
Definition AcceptToMemoryPool {BN : OpenSSL_BN} {DG : Digests} (fTestNet : bool) (Verify : list Z → base_uint → list Z → bool) (nMaxCacheSize : Z) (random_entry : gset sigdata → sigdata)
    (lastCheckpointTime adjustedTime : Z) (rate_limited : bool) (d : Disk) (pindexBest : list CBlockIndex) (M : CTxMemPool) (cache : gset sigdata) (tx : CTransaction)
    : option (bool * CTxMemPool * gset sigdata) :=
  '(r, M, cache) ← accept fTestNet Verify nMaxCacheSize random_entry lastCheckpointTime adjustedTime rate_limited d pindexBest M tx true cache;
  Some (match r with Accepted => true | Refused _ _ => false end, M, cache).
Section node_pool.
Context {BN : OpenSSL_BN} {DG : Digests} (fTestNet : bool) (Verify : list Z → base_uint → list Z → bool) (nMaxCacheSize : Z) (random_entry : gset sigdata → sigdata).
Context (lastCheckpointTime adjustedTime : Z) (rate_limited : bool) (d : Disk) (pindexBest : list CBlockIndex).
Definition node_pool : TxPool CTxMemPool :=
  {| pool_submit := AcceptToMemoryPool fTestNet Verify nMaxCacheSize random_entry lastCheckpointTime adjustedTime rate_limited d pindexBest |}.
#[export] Instance node_pool_ok : TxPoolOk node_pool.
Proof.
  split. intros p c tx p' c' ([[r M] c1] & H & Hr)%bind_Some. destruct r; [|done]. apply accept_inv in H as [_ H]. destruct (H eq_refl) as (_ & _ & ? & ? & ? & _). done.
Qed.
End node_pool.

(** ** The place of the change *)

(** It is drawn below the number of the payments: the change is never the last output,
    and it is the first one when there is one payment *)
Lemma change_not_last {CH : Choices} {CHok : ChoicesOk} d out o : last (vout (wtx_tx (d_wtx d))) = Some o → last (vout (wtx_tx (d_wtx (insert_change d out)))) = Some o.
Proof.
  intros H. unfold insert_change. cbn [d_wtx with_draft with_inputs wtx_tx wtx_mt with_mt mt_tx vout]. set (outs := vout (wtx_tx (d_wtx d))) in *.
  assert (Hl : 0 < Z.of_nat (length outs)) by (destruct outs; [done|cbn; lia]). pose proof (ch_GetRandInt_ok (d_rolled d) _ Hl).
  change (vout (mt_tx (wtx_mt (with_inputs (d_wtx d) (vin (wtx_tx (d_wtx d))) ?l)))) with l.
  set (pos := Z.to_nat (ch_GetRandInt (d_rolled d) (Z.of_nat (length outs)))). assert (Hp : (pos < length outs)%nat) by lia.
  rewrite last_app, last_cons. rewrite !last_lookup, lookup_drop, length_drop in *. by replace (pos + pred (length outs - pos))%nat with (pred (length outs)) by lia; rewrite H.
Qed.

(** ** A payment from a small wallet *)

#[local] Existing Instances mod_digests toy_curve toy_evp.
#[local] Instance plain_choices : Choices := {| ch_rand := λ _, 0; ch_shuffle := id; ch_sort := id; ch_order := elements; ch_GetRandInt := λ _ _, 0 |}.
#[local] Instance plain_choices_ok : ChoicesOk.
Proof. split; cbn; try done; lia. Qed.
Definition mine_of (s : KeyStore) (script : list Z) : isminetype := default MINE_NO (IsMine (KS := as_keystore s) script).
Definition toy_script : list Z := SetDestination (CKeyID (pubkey_GetID (key_GetPubKey toy_key))).
Definition income : CTransaction := mkTx 1 1400000000 [mkTxIn (mkOutPoint (replicate W256 7) 0) [] UINT_MAX] [mkTxOut 5000000 toy_script] 0.
Definition income_block : Node :=
  mkNode (mkIndex 1 0 10 0 (replicate W256 0) 1 1400000050 0) None None 0 0 0 0 COutPoint_SetNull 0 (replicate W256 0) (GetHash income) 0.
Definition income_view : NodeView := mkView {[replicate W256 9 := income_block]} (Some (replicate W256 9)) 10 1400000200 (λ _, false).
Definition income_map : WalletMap := {[GetHash income := in_block income]}.
Definition toy_keys : KeyWallet := mkKeyWallet (AddKey KeyStore_new toy_key).2 ∅ ∅ [] 0.
(** Someone else *)
Definition payee : list Z := SetDestination (CKeyID (pubkey_GetID (key_GetPubKey (mkKey (toy_secret 3) true)))).
Definition new_payment : CWalletTx := CWalletTx_of (mkTx 1 1400000300 [] [] 0).
Definition toy_draft : Draft := mkDraft new_payment CReserveKey_new toy_keys ∅ 0 0 0.
Definition no_addresses : list Z → bool := λ _, false.
Definition no_variant : list Z → option (list Z * list Z) := λ _, None.
Definition zero_hash : list Z → base_uint := λ _, replicate W256 0.
Abbreviation paying := (CreateTransaction 500 100 true mine_of toy_new_key 7 1 10 first_entry false no_addresses no_variant 10 zero_hash ∅ (λ _, None) income_view income_map [(payee, 4000000)] None toy_draft).
Definition draft_of (r : Looped (bool * Draft)) : Draft := match r with Returned (Some (_, d)) => d | _ => toy_draft end.
Definition finished (r : Looped (bool * Draft)) : bool := match r with Returned (Some (ok, _)) => ok | _ => false end.
Lemma finished_draft r : finished r = true → r = Returned (Some (true, draft_of r)).
Proof. by destruct r as [|[[[] d]|]]. Qed.
Definition paid_draft : Draft := draft_of paying.
(** Whatever the caches of the wallet hold *)
Lemma income_only (M : WalletMap) : persist <$> M = persist <$> income_map → ∃ t, M = {[GetHash income := t]} ∧ wtx_tx t = income.
Proof.
  intros H. unfold income_map in H. rewrite map_fmap_singleton in H.
  destruct (map_fmap_singleton_inv _ _ _ _ H) as (t & Ht & ->). exists t. split; [done|]. exact (core_tx (in_block income) _ (persist_core (in_block income) t (eq_sym Ht))).
Qed.
Lemma income_debit (s : KeyStore) (M : WalletMap) h t : persist <$> M = persist <$> income_map → M !! h = Some t → is_Some (wtx_IsFromMe (mine_of s) M MINE_ALL t).
Proof.
  intros (t0 & -> & Ht)%income_only [<- <-]%lookup_singleton_Some. unfold wtx_IsFromMe, wtx_GetDebit. rewrite bool_decide_eq_false_2 by (by rewrite Ht).
  assert (Hd : ∀ f, debit_tx (mine_of s) {[GetHash income := t0]} income f = Some 0).
  { intros f. unfold debit_tx. cbn [map vin income]. assert (Hi : debit_input (mine_of s) {[GetHash income := t0]} (mkTxIn (mkOutPoint (replicate W256 7) 0) [] UINT_MAX) f = 0); [|rewrite Hi; reflexivity].
    unfold debit_input. rewrite lookup_singleton_ne; [done|]. vm_compute. discriminate. }
  unfold add_if, cached. cbn [has_bit]. repeat (case_match; simplify_eq/=; rewrite ?Ht, ?Hd; eauto).
Qed.
Lemma income_coins (s : KeyStore) (M : WalletMap) sel l : persist <$> M = persist <$> income_map →
  AvailableCoins 500 100 true (mine_of s) income_view true sel M = Some l → zsum (valued M <$> l).*1 < int64_max.
Proof.
  intros (t & -> & Ht)%income_only. generalize (GetHash income). intros h0. unfold AvailableCoins, id_order. rewrite map_to_list_singleton. cbn -[available_of]. intros (ls & H & ->)%fmap_Some. apply bind_Some in H as (x & Hx & [= <-]). cbn [concat app]. rewrite app_nil_r.
  assert (Hl : x = [] ∨ ∃ d b, x = [mkOutput h0 0 d b]).
  { unfold available_of in Hx. destruct (negb (wtx_IsFinal _ _)); [injection Hx as <-; by left|]. apply bind_Some in Hx as (trusted & _ & Hx). destruct (negb trusted); [injection Hx as <-; by left|].
    destruct (still_immature _ _ _).1; [injection Hx as <-; by left|]. injection Hx as <-. unfold outputs_of. rewrite Ht. cbn [imap vout income omap list_omap].
    destruct (IsSpent t (Z.of_nat 0)) as [[]|]; [by left| |by left]. destruct (_ && _); [right|by left]. eauto. }
  destruct Hl as [->|(d & b & ->)]; [done|]. cbn -[coin_value income]. unfold coin_value. cbn [fst]. rewrite lookup_singleton. rewrite decide_True by done. cbn [mbind option_bind]. rewrite Ht. cbn. done.
Qed.

Lemma empty_cache_ok n : 0 <= n → cache_ok pubkey_Verify n ∅.
Proof. intros Hn. split; [intros h g k Hin; set_solver|]. rewrite size_empty. lia. Qed.
(** The fee is raised once, to what the smallest transaction needs *)
Lemma income_keys : keys_ok income_map.
Proof. apply map_Forall_singleton. reflexivity. Qed.
Lemma paying_done : paying = Returned (Some (true, paid_draft)) ∧ d_fee paid_draft = 1000.
Proof. split; [apply finished_draft|]; vm_compute; reflexivity. Qed.

(** The same payment, handed to a node whose memory pool holds the income *)
#[local] Instance toy_pool : TxPool CTxMemPool := node_pool false pubkey_Verify 10 first_entry 0 1400000300 false (mkDisk ∅ (λ _, None) (λ _ _, None)) [].
Definition income_wallet : Wallet := mkWallet income_map income_map 1 ∅ [].
Definition toy_spender : Spender CTxMemPool := mkSpender income_wallet toy_keys (addUnchecked (mkPool ∅ ∅ 0) (GetHash income) income) ∅ 0 0.
Abbreviation sending := (SendMoney 500 100 true mine_of toy_new_key 7 1 10 first_entry false no_addresses no_variant 10 zero_hash ∅ (λ _, None) false (λ _, true)
  income_view [] true payee 4000000 new_payment true toy_spender).
Definition sent_of (r : Looped (SendResult * CWalletTx * Spender CTxMemPool)) : CWalletTx * Spender CTxMemPool :=
  match r with Returned (Some (_, t, st)) => (t, st) | _ => (new_payment, toy_spender) end.
Definition was_sent (r : Looped (SendResult * CWalletTx * Spender CTxMemPool)) : bool := match r with Returned (Some (Sent, _, _)) => true | _ => false end.
Lemma was_sent_of r : was_sent r = true → r = Returned (Some (Sent, (sent_of r).1, (sent_of r).2)).
Proof. by destruct r as [|[[[[] t] st]|]]. Qed.
Definition sent_tx : CTransaction := wtx_tx (sent_of sending).1.
Lemma sending_done : sending = Returned (Some (Sent, (sent_of sending).1, (sent_of sending).2)) ∧ income_map !! GetHash sent_tx = None.
Proof. split; [apply was_sent_of|]; vm_compute; reflexivity. Qed.
Lemma income_amounts : amounts_ok 500 100 true mine_of income_view income_map.
Proof.
  split.
  - intros s. apply map_Forall_singleton. intros f. apply credit_in_range; [repeat constructor|vm_compute; reflexivity].
  - intros M s h t. apply income_debit.
  - intros M s sel l. apply income_coins.
Qed.
Lemma income_wallet_ok : wallet_ok income_wallet.
Proof.
  split; [exact income_keys| |reflexivity]. split; [by apply map_Forall_singleton|]. intros h1 h2 t1 t2 H1 H2 _. change (income_map !! h1 = Some t1) in H1. change (income_map !! h2 = Some t2) in H2.
  unfold income_map in H1, H2. apply lookup_singleton_Some in H1 as [<- _]. by apply lookup_singleton_Some in H2 as [<- _].
Qed.
Lemma SendMoney_ok_witness : sending = Returned (Some (Sent, (sent_of sending).1, (sent_of sending).2)) ∧ sent_ok income_wallet (sp_wallet (sent_of sending).2) sent_tx.
Proof.
  destruct sending_done as [E F]. split; [exact E|].
  refine (proj2 (proj2 (proj2 (proj2 (proj2 (proj2 (proj2 (SendMoney_ok 500 100 true mine_of toy_new_key 7 1 10 first_entry false no_addresses no_variant 10 zero_hash ∅ (λ _, None) false (λ _, true)
    first_entry_in ltac:(lia) ltac:(lia) income_view [] payee 4000000 new_payment true toy_spender income_wallet_ok _ income_amounts (empty_cache_ok 10 ltac:(lia)) _) _ _ _ E) eq_refl))))) F).
  - cbn. lia.
  - vm_compute. reflexivity.
Defined.
