(* ===== verification/Miner.v ===== *)
(** * Making blocks (src/miner.cpp)

    [CreateNewBlock]: transactions of the memory pool are ordered by priority, then by
    fee; those that wait for others of the pool are set aside until these are in the
    block; each one is connected to the index with the block so far, as the node that
    receives the block will do.  [IncrementExtraNonce] completes the header.

    A pointer to a transaction of the pool is its key in [mapTx]; a pointer to an
    orphan is its place in the list, and the place of an orphan that was popped is
    empty ([None] when it is used).  The vector of priorities is a heap of the standard
    library: the class [Heap] says which element is at its front, the other elements
    are a list.  The arguments of the program ([-blockmaxsize] and others) are
    arguments.  Doubles are those of [CreateTx]. *)

From stdpp Require Import base list numbers option gmap sorting.
From Stdlib Require Import ZArith Lia SpecFloat.
From S2P Require Import Prelude WalletTx Uint256 Bignum Serialize Tx Script Interp SigCheck Chain Utxo ScriptStd Encoding Mempool Block BlockIndex ConnectBlock Kernel Base58 Key KeyStore Sign KeyPool CreateTx.

Open Scope Z_scope.

(** ** Data *)

Record COrphan := mkOrphan { or_ptx : base_uint; setDependsOn : gset base_uint; or_dPriority : double; or_dFeePerKb : double }.
Record TxPriority := mkPriority { tp_dPriority : double; tp_dFeePerKb : double; tp_ptx : base_uint }.
(** [TxPriorityCompare] *)
Definition TxPriorityCompare (byFee : bool) (a b : TxPriority) : bool :=
  if byFee then
    if SFeqb (tp_dFeePerKb a) (tp_dFeePerKb b) then SFltb (tp_dPriority a) (tp_dPriority b) else SFltb (tp_dFeePerKb a) (tp_dFeePerKb b)
  else
    if SFeqb (tp_dPriority a) (tp_dPriority b) then SFltb (tp_dFeePerKb a) (tp_dFeePerKb b) else SFltb (tp_dPriority a) (tp_dPriority b).

(** The front of a heap, a greatest element, and the elements that are left when it is
    popped *)
Definition greatest (byFee : bool) (l : list TxPriority) (x : TxPriority) : Prop := ∀ y, y ∈ l → TxPriorityCompare byFee x y = false.
Class Heap := { heap_pop : bool → list TxPriority → option (TxPriority * list TxPriority) }.
Class HeapOk `{Heap} : Prop := {
  heap_none byFee l : heap_pop byFee l = None → l = [];
  heap_some byFee l x r : heap_pop byFee l = Some (x, r) → l ≡ₚ x :: r;
  heap_greatest byFee l x r y : heap_pop byFee l = Some (x, r) → y ∈ l → greatest byFee l y → greatest byFee l x
}.

(** What is collected from the pool: [vOrphan], [mapDependers], [vecPriority] *)
Record Collected := mkCollected { vOrphan : list (option COrphan); mapDependers : gmap base_uint (list nat); vecPriority : list TxPriority }.
(** The variables of the loop over the inputs of a transaction *)
Record InputScan := mkScan { is_orphans : list (option COrphan); is_dependers : gmap base_uint (list nat); porphan : option nat; is_dPriority : double; nTotalIn : Z }.
(** The variables of the loop that fills the block *)
Record Assembly := mkAssembly {
  as_vecPriority : list TxPriority;
  as_vOrphan : list (option COrphan);
  as_mapTestPool : TxMap;
  as_vtx : list CTransaction;
  nBlockSize : Z;
  nBlockTx : Z;
  nBlockSigOps : Z;
  as_nFees : Z;
  fSortedByFee : bool;
  as_cache : gset sigdata
}.
Definition with_queue (s : Assembly) (q : list TxPriority) (byFee : bool) : Assembly :=
  mkAssembly q (as_vOrphan s) (as_mapTestPool s) (as_vtx s) (nBlockSize s) (nBlockTx s) (nBlockSigOps s) (as_nFees s) byFee (as_cache s).
Definition with_sig_cache (s : Assembly) (c : gset sigdata) : Assembly :=
  mkAssembly (as_vecPriority s) (as_vOrphan s) (as_mapTestPool s) (as_vtx s) (nBlockSize s) (nBlockTx s) (nBlockSigOps s) (as_nFees s) (fSortedByFee s) c.

(** [CTxIndex::GetDepthInMainChain]; [block_hash_at] is the hash of the header that is
    read at a place of the block files *)
Definition index_depth (m : BlockMap) (pindexBest : option base_uint) (nBestHeight : Z) (block_hash_at : Z → Z → option base_uint) (x : CTxIndex) : Z :=
  match block_hash_at (nFile (pos x)) (nBlockPos (pos x)) with
  | None => 0
  | Some h =>
      match m !! h with
      | None => 0
      | Some n => if negb (IsInMainChain m pindexBest h) then 0 else i32 (1 + nBestHeight - nd_nHeight n)
      end
  end.

Section Miner.
Context {BN : OpenSSL_BN} {DG : Digests} {C : OpenSSL_EC} {E : EVP} {HP : Heap}.
Variable fTestNet : bool.
Variable Verify : list Z → base_uint → list Z → bool.
Variable nMaxCacheSize : Z.
Variable random_entry : gset sigdata → sigdata.
Variable lastCheckpointTime : Z.
Variable adjustedTime : Z.
(** The transaction database, the block tree with its best block, and the pool *)
Variable d : Disk.
Variable block_hash_at : Z → Z → option base_uint.
Variable tree : BlockMap.
Variable hashBest : base_uint.
Variable mapPool : gmap base_uint CTransaction.
(** [pindexBest] and the blocks before it *)
Definition best_chain : list CBlockIndex := index_chain (ancestors tree hashBest).
Definition best_height : Z := match best_chain with b :: _ => bi_nHeight b | [] => -1 end.

(** ** Collecting the pool *)

Definition pop_orphan (l : list (option COrphan)) (porphan : option nat) : list (option COrphan) :=
  match porphan with Some k => <[k := None]> l | None => l end.
(** The loop over the inputs: [true] is [fMissingInputs] *)
Fixpoint scan_inputs (ptx : base_uint) (vin : list CTxIn) (s : InputScan) : option (bool * InputScan) :=
  match vin with
  | [] => Some (false, s)
  | txin :: vin =>
      let h := op_hash (prevout txin) in
      match ReadFromDisk d (prevout txin) with
      | None =>
          match mapPool !! h with
          | None => Some (true, mkScan (pop_orphan (is_orphans s) (porphan s)) (is_dependers s) (porphan s) (is_dPriority s) (nTotalIn s))
          | Some parent =>
              let '(orphans, k) :=
                match porphan s with
                | None => (is_orphans s ++ [Some (mkOrphan ptx ∅ (double_of 0) (double_of 0))], length (is_orphans s))
                | Some k => (is_orphans s, k)
                end in
              o ← mjoin (orphans !! k); out ← vout parent !! Z.to_nat (op_n (prevout txin));
              let o := mkOrphan (or_ptx o) ({[h]} ∪ setDependsOn o) (or_dPriority o) (or_dFeePerKb o) in
              scan_inputs ptx vin (mkScan (<[k := Some o]> orphans) (<[h := default [] (is_dependers s !! h) ++ [k]]> (is_dependers s)) (Some k)
                (is_dPriority s) (i64 (nTotalIn s + nValue out)))
          end
      | Some (txPrev, txindex) =>
          out ← vout txPrev !! Z.to_nat (op_n (prevout txin));
          let nConf := index_depth tree (Some hashBest) best_height block_hash_at txindex in
          scan_inputs ptx vin (mkScan (is_orphans s) (is_dependers s) (porphan s)
            (double_add (is_dPriority s) (double_mul (double_of (nValue out)) (double_of nConf))) (i64 (nTotalIn s + nValue out)))
      end
  end.
(** One transaction of the pool *)
Definition collect_tx (s : Collected) (e : base_uint * CTransaction) : option Collected :=
  let '(ptx, tx) := e in
  if IsCoinBase tx || IsCoinStake tx || negb (IsFinal best_height adjustedTime tx 0 0) then Some s
  else
    '(fMissingInputs, sc) ← scan_inputs ptx (vin tx) (mkScan (vOrphan s) (mapDependers s) None (double_of 0) 0);
    if (fMissingInputs : bool) then Some (mkCollected (is_orphans sc) (is_dependers sc) (vecPriority s))
    else
      let nTxSize := GetSerializeSize tx in
      let dPriority := double_div (is_dPriority sc) (double_of nTxSize) in
      nValueOut ← GetValueOut tx;
      let dFeePerKb := double_div (double_of (i64 (nTotalIn sc - nValueOut))) (double_div (double_of nTxSize) (double_of 1000)) in
      match porphan sc with
      | Some k =>
          o ← mjoin (is_orphans sc !! k);
          Some (mkCollected (<[k := Some (mkOrphan (or_ptx o) (setDependsOn o) dPriority dFeePerKb)]> (is_orphans sc)) (is_dependers sc) (vecPriority s))
      | None => Some (mkCollected (is_orphans sc) (is_dependers sc) (vecPriority s ++ [mkPriority dPriority dFeePerKb ptx]))
      end.
Fixpoint collect (l : list (base_uint * CTransaction)) (s : Collected) : option Collected :=
  match l with
  | [] => Some s
  | e :: l => s ← collect_tx s e; collect l s
  end.

(** ** Filling the block *)

Variable nBlockMaxSize nBlockPrioritySize nBlockMinSize nMinTxFee : Z.
Variable txCoinStake : option CTransaction.

(** The orphans that waited for a transaction *)
Fixpoint release (hash : base_uint) (dependers : list nat) (orphans : list (option COrphan)) (q : list TxPriority) : option (list (option COrphan) * list TxPriority) :=
  match dependers with
  | [] => Some (orphans, q)
  | k :: dependers =>
      o ← mjoin (orphans !! k);
      if bool_decide (setDependsOn o = ∅) then release hash dependers orphans q
      else
        let rest := setDependsOn o ∖ {[hash]} in
        let orphans := <[k := Some (mkOrphan (or_ptx o) rest (or_dPriority o) (or_dFeePerKb o))]> orphans in
        release hash dependers orphans (if bool_decide (rest = ∅) then q ++ [mkPriority (or_dPriority o) (or_dFeePerKb o) (or_ptx o)] else q)
  end.

(** The transaction at the front of the queue; [s] is the state after it was popped *)
Definition assemble_tx (dependers : gmap base_uint (list nat)) (p : TxPriority) (s : Assembly) : option Assembly :=
  tx ← mapPool !! tp_ptx p;
  let nTxSize := GetSerializeSize tx in
  let nNewSize := u64 (nBlockSize s + nTxSize) in
  let nTxSigOps := GetLegacySigOpCount tx in
  if nBlockMaxSize <=? nNewSize then Some s
  else if MAX_BLOCK_SIGOPS <=? u32 (nBlockSigOps s + nTxSigOps) then Some s
  else if (adjustedTime <? nTime tx) || match txCoinStake with Some t => nTime t <? nTime tx | None => false end then Some s
  else if fSortedByFee s && SFltb (tp_dFeePerKb p) (double_of nMinTxFee) && (nBlockMinSize <=? nNewSize) then Some s
  else
    let byFee := fSortedByFee s || (nBlockPrioritySize <=? nNewSize) || SFltb (tp_dPriority p) (double_of (COIN * 144 / 250)) in
    let s := with_queue s (as_vecPriority s) byFee in
    r ← FetchInputs d mapPool (as_mapTestPool s) false true tx ∅;
    match r with
    | Missing | Invalid _ => Some s
    | Fetched mapInputs =>
        nIn ← GetValueIn tx mapInputs; nOut ← GetValueOut tx;
        let nTxFees := i64 (nIn - nOut) in
        if nTxFees <? GetMinFee tx (u32 (nBlockSize s)) true GMF_BLOCK nTxSize then Some s
        else
          p2sh ← GetP2SHSigOpCount tx mapInputs;
          let nTxSigOps := u32 (nTxSigOps + p2sh) in
          if MAX_BLOCK_SIGOPS <=? u32 (nBlockSigOps s + nTxSigOps) then Some s
          else
            '(connected, cache) ← ConnectInputs fTestNet Verify nMaxCacheSize random_entry lastCheckpointTime d tx mapInputs (as_mapTestPool s) memory_pos best_chain
              false true true MANDATORY_SCRIPT_VERIFY_FLAGS false (as_cache s);
            match connected with
            | Utxo.Rejected _ _ => Some (with_sig_cache s cache)
            | Connected pool _ =>
                let hash := GetHash tx in
                '(orphans, q) ← release hash (default [] (dependers !! hash)) (as_vOrphan s) (as_vecPriority s);
                Some (mkAssembly q orphans (<[hash := CTxIndex_new memory_pos (length (vout tx))]> pool) (as_vtx s ++ [tx]) nNewSize (u64 (nBlockTx s + 1))
                  (i32 (nBlockSigOps s + nTxSigOps)) (i64 (as_nFees s + nTxFees)) (fSortedByFee s) cache)
            end
    end.
Fixpoint assemble (fuel : nat) (dependers : gmap base_uint (list nat)) (s : Assembly) : Looped Assembly :=
  match heap_pop (fSortedByFee s) (as_vecPriority s) with
  | None => Returned (Some s)
  | Some (p, q) =>
      match fuel with
      | O => Exhausted
      | S fuel =>
          match assemble_tx dependers p (with_queue s q (fSortedByFee s)) with
          | None => Returned None
          | Some s => assemble fuel dependers s
          end
      end
  end.
(** The transactions that are taken: every turn takes one from the queue, and every
    orphan is queued once *)
Definition FillBlock (cache : gset sigdata) : Looped Assembly :=
  match collect (id_order mapPool) (mkCollected [] ∅ []) with
  | None => Returned None
  | Some c =>
      assemble (length (vecPriority c) + length (vOrphan c)) (mapDependers c)
        (mkAssembly (vecPriority c) (vOrphan c) ∅ [] 1000 0 100 0 (nBlockPrioritySize <=? 0) cache)
  end.
End Miner.

(** ** The new block *)

(** The limits, from [-blockmaxsize], [-blockprioritysize], [-blockminsize] and [-mintxfee] *)
Record BlockArgs := mkArgs { arg_max : Z; arg_priority : Z; arg_min : Z; arg_fee : option (list Z) }.
Definition block_max_size (a : BlockArgs) : Z := Z.max 1000 (Z.min (MAX_BLOCK_SIZE - 1000) (arg_max a)).
Definition block_priority_size (a : BlockArgs) : Z := Z.min (block_max_size a) (arg_priority a).
Definition block_min_size (a : BlockArgs) : Z := Z.min (block_max_size a) (arg_min a).
Definition min_tx_fee (a : BlockArgs) : Z := match arg_fee a with Some s => default MIN_TX_FEE (ParseMoney s) | None => MIN_TX_FEE end.

Definition new_coinbase (time : Z) (out : CTxOut) : CTransaction := mkTx 1 time [CTxIn_default] [out] 0.
(** [vtx[0].vout[0].nValue = n] *)
Definition set_reward (n : Z) (txs : list CTransaction) : list CTransaction :=
  match txs with
  | tx :: txs => mkTx (nVersion tx) (nTime tx) (vin tx) (match vout tx with o :: os => mkTxOut n (scriptPubKey o) :: os | [] => [] end) (nLockTime tx) :: txs
  | [] => []
  end.
(** The block with the keys of the wallet, the signature cache and the counters *)
Record Template := mkTemplate { tm_block : CBlock; tm_keys : KeyWallet; tm_cache : gset sigdata; nLastBlockTx : Z; nLastBlockSize : Z }.

Section NewBlock.
Context {BN : OpenSSL_BN} {DG : Digests} {C : OpenSSL_EC} {E : EVP} {HP : Heap}.
Variable fTestNet : bool.
Variable nMaxCacheSize : Z.
Variable random_entry : gset sigdata → sigdata.
Variable lastCheckpointTime adjustedTime : Z.
Variable d : Disk.
Variable block_hash_at : Z → Z → option base_uint.
Variable tree : BlockMap.
Variable hashBest : base_uint.
Variable mapPool : gmap base_uint CTransaction.
Variable new_key : nat → CKey.
Variable now keypool_arg : Z.
Variable a : BlockArgs.

(** The first transactions, the time of the block so far, and the keys.  The reserved
    key is returned at the end of the block of statements *)
Definition first_txs (txCoinStake : option CTransaction) (k : KeyWallet) : option (list CTransaction * Z * KeyWallet) :=
  match txCoinStake with
  | None =>
      '(pk, r, k) ← GetReservedKey new_key now keypool_arg CReserveKey_new k;
      Some ([new_coinbase (u32 adjustedTime) (mkTxOut (-1) (SetDestination (CKeyID (pubkey_GetID pk))))], 0, (rk_ReturnKey r k).2)
  | Some t => Some ([new_coinbase (nTime t) CTxOut_SetEmpty; t], nTime t, k)
  end.
(** The time of a block without a stake *)
Definition work_time (pindexPrev : list CBlockIndex) (b : CBlock) : Z :=
  let nTime := u32 (Z.max (GetMedianTimePast pindexPrev + 1) (GetMaxTransactionTime b)) in
  let nTime := u32 (Z.max nTime (PastDrift (match pindexPrev with p :: _ => GetBlockTime p | [] => 0 end))) in
  u32 (Z.max nTime adjustedTime).

Definition CreateNewBlock (txCoinStake : option CTransaction) (k : KeyWallet) (cache : gset sigdata) : Looped Template :=
  let fProofOfStake := bool_decide (is_Some txCoinStake) in
  let pindexPrev := best_chain tree hashBest in
  match first_txs txCoinStake k, GetNextTargetRequired fTestNet pindexPrev fProofOfStake with
  | Some (vtx, nTime, k), Some nBits =>
      match FillBlock fTestNet pubkey_Verify nMaxCacheSize random_entry lastCheckpointTime adjustedTime d block_hash_at tree hashBest mapPool
              (block_max_size a) (block_priority_size a) (block_min_size a) (min_tx_fee a) txCoinStake cache with
      | Exhausted => Exhausted
      | Returned None => Returned None
      | Returned (Some s) =>
          let vtx := vtx ++ as_vtx s in
          let block nTime vtx := mkBlock 6 hashBest (bu_of_u64 W256 0) nTime nBits 0 vtx [] in
          Returned (
            b ← (if fProofOfStake then Some (block nTime vtx)
                 else nReward ← GetProofOfWorkReward fTestNet nBits;
                      let vtx := set_reward (i64 (nReward + as_nFees s)) vtx in
                      Some (block (work_time pindexPrev (block nTime vtx)) vtx));
            Some (mkTemplate b k (as_cache s) (nBlockTx s) (nBlockSize s)))
      end
  | _, _ => Returned None
  end.

(** [IncrementExtraNonce]; [last] is its static variable.  [None] is the failed assertion *)
Variable COINBASE_FLAGS : list Z.
Definition coinbase_script (nHeight nExtraNonce : Z) : list Z := push_vector (push_uint64 [] nHeight) (getvch (CBigNum_uint32 nExtraNonce)) ++ COINBASE_FLAGS.
Definition IncrementExtraNonce (b : CBlock) (pindexPrev : CBlockIndex) (nExtraNonce : Z) (last : base_uint) : option (CBlock * Z * base_uint) :=
  let nExtraNonce := if negb (bu_eq last (hashPrevBlock b)) then 0 else nExtraNonce in
  let nExtraNonce := u32 (nExtraNonce + 1) in
  let script := coinbase_script (u32 (bi_nHeight pindexPrev + 1)) nExtraNonce in
  if 100 <? Z.of_nat (length script) then None
  else
    tx ← head (vtx b);
    let txs := set_input_script tx 0 script :: tail (vtx b) in
    Some (mkBlock (blk_nVersion b) (hashPrevBlock b) (BuildMerkleTree txs).2 (blk_nTime b) (blk_nBits b) (nNonce b) txs (vchBlockSig b), nExtraNonce, hashPrevBlock b).
End NewBlock.

(** ** Calls that do not fail *)

Section totality.
Context {BN : OpenSSL_BN} {DG : Digests} (net : bool).
Context (Verify : list Z → base_uint → list Z → bool) (nMaxCacheSize : Z) (random_entry : gset sigdata → sigdata) (cpTime : Z).

Lemma valuein_total inputs v : ∀ acc, Forall (λ i, is_Some (GetOutputFor i inputs)) v → is_Some (valuein_loop inputs v acc).
Proof. induction v as [|i v IH]; intros acc; cbn [valuein_loop]; [eauto|]. intros [[o Ho] Hv]%Forall_cons. rewrite Ho. by apply IH. Qed.
Lemma p2sh_total inputs v : ∀ acc, Forall (λ i, is_Some (GetOutputFor i inputs)) v → is_Some (p2sh_sigops inputs v acc).
Proof. induction v as [|i v IH]; intros acc; cbn [p2sh_sigops]; [eauto|]. intros [[o Ho] Hv]%Forall_cons. rewrite Ho. by apply IH. Qed.
Lemma values_total t chain inputs v : ∀ acc, Forall (λ i, is_Some (inputs !! op_hash (prevout i))) v → is_Some (connect_values net t chain inputs v acc).
Proof.
  induction v as [|i v IH]; intros acc; cbn [connect_values]; [eauto|]. intros [[[x tx] Hx] Hv]%Forall_cons. rewrite Hx. cbn [mbind option_bind].
  repeat (case_match; try by eauto).
Qed.
Lemma check_total check cache : ∃ b c, CScriptCheck_call Verify nMaxCacheSize random_entry check cache = (Some b, c).
Proof.
  unfold CScriptCheck_call. destruct (VerifyScript _ _ _ _ _ _ _) as [[b|] c] eqn:Ev; [eauto|].
  exfalso. eapply VerifyScript_no_assert. by rewrite Ev.
Qed.
Lemma scripts_total t p fBlock fMiner fScript flags pv v : ∀ k inputs pool checks cache, Forall (λ i, is_Some (inputs !! op_hash (prevout i))) v →
  is_Some (connect_scripts Verify nMaxCacheSize random_entry t p fBlock fMiner fScript flags pv k v inputs pool checks cache).
Proof.
  induction v as [|i v IH]; intros k inputs pool checks cache; cbn [connect_scripts]; [eauto|]. intros [[[x tx] Hx] Hv]%Forall_cons. rewrite Hx. cbn [mbind option_bind].
  assert (Hv' : ∀ e, Forall (λ j, is_Some (<[op_hash (prevout i) := e]> inputs !! op_hash (prevout j))) v).
  { intros e. eapply Forall_impl; [exact Hv|]. intros j Hj. cbn in *. destruct (decide (op_hash (prevout j) = op_hash (prevout i))) as [->|]; [rewrite lookup_insert_eq; eauto|by rewrite lookup_insert_ne]. }
  destruct (negb (CDiskTxPos_IsNull _)); [eauto|]. destruct (negb fScript); [by apply IH|]. destruct pv; [by apply IH|].
  destruct (check_total (CScriptCheck_new tx t k flags 0) cache) as (b & c & ->). destruct b; [by apply IH|]. destruct (negb _); [|eauto].
  destruct (check_total (CScriptCheck_new tx t k (Z.land flags (Z.lnot STRICT_FLAGS)) 0) c) as (b & c' & ->). destruct b; eauto.
Qed.
(** [ConnectInputs] does not throw on an ordinary transaction whose inputs were fetched *)
Lemma ConnectInputs_total d t inputs pool p chain fBlock fMiner fScript flags pv cache : IsCoinStake t = false → is_Some (GetValueOut t) →
  Forall (λ i, is_Some (GetOutputFor i inputs)) (vin t) →
  is_Some (ConnectInputs net Verify nMaxCacheSize random_entry cpTime d t inputs pool p chain fBlock fMiner fScript flags pv cache).
Proof.
  intros Hcs [out Hout] Hin. unfold ConnectInputs. destruct (IsCoinBase t); [eauto|].
  assert (Hl : Forall (λ i, is_Some (inputs !! op_hash (prevout i))) (vin t)).
  { eapply Forall_impl; [exact Hin|]. intros i [o Ho]. unfold GetOutputFor in Ho. apply bind_Some in Ho as (e & He & _). eauto. }
  destruct (values_total t chain inputs (vin t) 0 Hl) as [[?|n] ->]; [eauto|].
  destruct (scripts_total t p fBlock fMiner fScript flags pv (vin t) 0 inputs pool [] cache Hl) as [[[[? ?]|[m ch]] c] ->]; [eauto|].
  unfold connect_finish. rewrite Hcs, Hout. cbn [mbind option_bind]. repeat (case_match; try by eauto).
Qed.
End totality.

(** ** Orphans *)

(** The transaction an orphan will add to the queue, while it waits *)
Definition waits (x : option COrphan) : list base_uint :=
  match x with Some o => if bool_decide (setDependsOn o = ∅) then [] else [or_ptx o] | None => [] end.
Definition waiting (l : list (option COrphan)) : list base_uint := l ≫= waits.
Lemma waiting_app l1 l2 : waiting (l1 ++ l2) = waiting l1 ++ waiting l2.
Proof. unfold waiting. apply bind_app. Qed.
Lemma waiting_insert l : ∀ k x y, l !! k = Some y → waiting (<[k := x]> l) ++ waits y ≡ₚ waiting l ++ waits x.
Proof.
  induction l as [|z l IH]; intros [|k] x y; [done|done| |].
  - cbn. intros [= ->]. change (waits x ++ waiting l) with (waits x ++ waiting l). unfold waiting. cbn. solve_Permutation.
  - cbn. intros H%(IH k x). unfold waiting in *. cbn. rewrite <- !app_assoc. by rewrite H.
Qed.
Lemma waiting_same l k x y : l !! k = Some y → waits x = waits y → waiting (<[k := x]> l) ≡ₚ waiting l.
Proof. intros H E. apply (waiting_insert l k x y) in H. rewrite E in H. by apply Permutation_app_inv_r in H. Qed.
Lemma length_waiting l : (length (waiting l) <= length l)%nat.
Proof.
  induction l as [|x l IH]; [done|]. unfold waiting in *. cbn. rewrite length_app. assert (length (waits x) <= 1)%nat; [|lia].
  destruct x as [o|]; cbn; [|lia]. case_bool_decide; cbn; lia.
Qed.

(** ** What is collected *)

Section assembly.
Context {BN : OpenSSL_BN} {DG : Digests} {HP : Heap} {HPok : HeapOk} (net : bool).
Context (Verify : list Z → base_uint → list Z → bool) (nMaxCacheSize : Z) (random_entry : gset sigdata → sigdata) (cpTime adjustedTime : Z).
Context (d : Disk) (block_hash_at : Z → Z → option base_uint) (tree : BlockMap) (hashBest : base_uint) (mapPool : gmap base_uint CTransaction).
Abbreviation chain := (best_chain tree hashBest).

(** A pool whose transactions are filed under their hash, well typed with amounts in
    range, not in the chain, and spend outputs of the chain or of the pool *)
Record pool_tx (h : base_uint) (tx : CTransaction) : Prop := {
  pool_filed : GetHash tx = h;
  pool_typed : tx_ok tx;
  pool_new : txdb d !! h = None;
  pool_value : is_Some (GetValueOut tx);
  pool_inputs : Forall (λ i, is_Some (ReadFromDisk d (prevout i)) ∨
    ∃ parent, mapPool !! op_hash (prevout i) = Some parent ∧ op_n (prevout i) < Z.of_nat (length (vout parent))) (vin tx)
}.
Context (Hpool : map_Forall pool_tx mapPool).
(** What may be put into a block *)
Definition minable (tx : CTransaction) : Prop := IsCoinBase tx = false ∧ IsCoinStake tx = false ∧ IsFinal (best_height tree hashBest) adjustedTime tx 0 0 = true.
Definition eligible_tx (h : base_uint) : Prop := ∃ tx, mapPool !! h = Some tx ∧ minable tx.
Record orphans_ok (l : list (option COrphan)) (ds : gmap base_uint (list nat)) : Prop := {
  orphans_found h ks k : ds !! h = Some ks → k ∈ ks → ∃ o, l !! k = Some (Some o);
  orphans_minable k o : l !! k = Some (Some o) → eligible_tx (or_ptx o)
}.
Lemma orphans_put l ds k o : orphans_ok l ds → (∃ o', l !! k = Some (Some o')) → eligible_tx (or_ptx o) → orphans_ok (<[k := Some o]> l) ds.
Proof.
  intros [H1 H2] (o' & Hk) He. apply lookup_lt_Some in Hk as Hlt. split.
  - intros h ks j Hd Hj. destruct (H1 _ _ _ Hd Hj) as (oj & Hoj). destruct (decide (j = k)) as [->|]; [rewrite list_lookup_insert_eq by done; eauto|rewrite list_lookup_insert_ne by done; eauto].
  - intros j oj. destruct (decide (j = k)) as [->|]; [rewrite list_lookup_insert_eq by done; by intros [= <-]|rewrite list_lookup_insert_ne by done; apply H2].
Qed.
Lemma orphans_push l ds o : orphans_ok l ds → eligible_tx (or_ptx o) → orphans_ok (l ++ [Some o]) ds.
Proof.
  intros [H1 H2] He. split.
  - intros h ks k Hd Hk. destruct (H1 _ _ _ Hd Hk) as (o' & Ho). exists o'. by apply lookup_app_l_Some.
  - intros k o'. rewrite lookup_app_Some. intros [Hk|[_ Hk]]; [by eapply H2|]. apply list_lookup_singleton_Some in Hk as [_ [= <-]]. done.
Qed.
Lemma orphans_depend l ds h k : orphans_ok l ds → (∃ o, l !! k = Some (Some o)) → orphans_ok l (<[h := default [] (ds !! h) ++ [k]]> ds).
Proof.
  intros [H1 H2] Hk. split; [|done]. intros h' ks j [[<- <-]|[_ Hd]]%lookup_insert_Some Hj; [|by eapply H1].
  apply elem_of_app in Hj as [Hj|Hj%list_elem_of_singleton]; [|by subst j]. destruct (ds !! h) eqn:Ed; [by eapply H1|by apply not_elem_of_nil in Hj].
Qed.

Abbreviation scan := (scan_inputs d block_hash_at tree hashBest mapPool).
(** During the scan of [ptx]; [W] are those that waited before *)
Record scan_ok (ptx : base_uint) (W : list base_uint) (s : InputScan) : Prop := {
  scan_orphans : orphans_ok (is_orphans s) (is_dependers s);
  scan_waiting : match porphan s with
    | None => waiting (is_orphans s) = W
    | Some k => waiting (is_orphans s) ≡ₚ W ++ [ptx] ∧ ∃ o, is_orphans s !! k = Some (Some o) ∧ or_ptx o = ptx ∧ setDependsOn o ≠ ∅
    end
}.
Lemma scan_total ptx W v : eligible_tx ptx → ∀ s, scan_ok ptx W s → Forall (λ i, 0 <= op_n (prevout i)) v →
  Forall (λ i, is_Some (ReadFromDisk d (prevout i)) ∨ ∃ parent, mapPool !! op_hash (prevout i) = Some parent ∧ op_n (prevout i) < Z.of_nat (length (vout parent))) v →
  ∃ s', scan ptx v s = Some (false, s') ∧ scan_ok ptx W s'.
Proof.
  intros He. induction v as [|i v IH]; intros s Hs Hn Hi; cbn [scan_inputs]; [eauto|]. apply Forall_cons in Hn as [Hn0 Hn]. apply Forall_cons in Hi as [Hi0 Hi].
  destruct (ReadFromDisk d (prevout i)) as [[txPrev txindex]|] eqn:Er.
  - assert (Ho : is_Some (vout txPrev !! Z.to_nat (op_n (prevout i)))).
    { apply lookup_lt_is_Some_2. unfold ReadFromDisk in Er. apply bind_Some in Er as (x & _ & (tx & _ & Er)%bind_Some).
      destruct (Z.leb_spec (Z.of_nat (length (vout tx))) (op_n (prevout i))); [done|]. injection Er as <- <-. lia. }
    destruct Ho as [out ->]. cbn [mbind option_bind]. apply IH; [|done|done]. destruct Hs as [H1 H2]. by split.
  - destruct Hi0 as [[? ?]|(parent & Hp & Hlt)]; [done|]. rewrite Hp. assert (Ho : is_Some (vout parent !! Z.to_nat (op_n (prevout i)))) by (apply lookup_lt_is_Some_2; lia).
    destruct Ho as [out Ho]. destruct Hs as [H1 H2]. set (h := op_hash (prevout i)) in *. destruct (porphan s) as [k|].
    + destruct H2 as [H2 (o & Hk & Hptx & Hne)]. rewrite Hk. cbn [mjoin option_join mbind option_bind]. rewrite Ho. apply lookup_lt_Some in Hk as Hlen.
      apply IH; [|done|done]. split; cbn [is_orphans is_dependers porphan].
      * apply orphans_depend; [|rewrite list_lookup_insert_eq by done; eauto]. apply orphans_put; [done|eauto|by cbn; rewrite Hptx].
      * split; [|eexists; rewrite list_lookup_insert_eq by done; split; [done|]; cbn; split; [done|set_solver]].
        rewrite (waiting_same _ _ (Some _) _ Hk); [done|]. cbn. rewrite (bool_decide_eq_false_2 _ Hne), Hptx. by rewrite bool_decide_eq_false_2 by set_solver.
    + set (o0 := mkOrphan ptx ∅ (double_of 0) (double_of 0)). assert (Hk : (is_orphans s ++ [Some o0]) !! length (is_orphans s) = Some (Some o0)) by (by rewrite lookup_app_r, Nat.sub_diag by lia).
      rewrite Hk. cbn [mjoin option_join mbind option_bind]. rewrite Ho. apply lookup_lt_Some in Hk as Hlen.
      apply IH; [|done|done]. split; cbn [is_orphans is_dependers porphan].
      * apply orphans_depend; [|rewrite list_lookup_insert_eq by done; eauto]. apply orphans_put; [|eauto|done]. by apply orphans_push.
      * split; [|eexists; rewrite list_lookup_insert_eq by done; split; [done|]; cbn; split; [done|set_solver]].
        pose proof (waiting_insert _ _ (Some (mkOrphan ptx ({[h]} ∪ ∅) (double_of 0) (double_of 0))) _ Hk) as Hw. rewrite waiting_app, H2 in Hw. cbn [waits setDependsOn o0] in Hw.
        rewrite bool_decide_eq_true_2, app_nil_r in Hw by done. rewrite bool_decide_eq_false_2 in Hw by set_solver.
        unfold waiting at 2 in Hw. cbn in Hw. rewrite bool_decide_eq_true_2 in Hw by done. cbn in Hw. rewrite !app_nil_r in Hw. exact Hw.
Qed.

(** Every transaction that may be mined is queued or waits, once *)
Definition keys (q : list TxPriority) (l : list (option COrphan)) : list base_uint := map tp_ptx q ++ waiting l.
Record collected_ok (c : Collected) : Prop := {
  collected_orphans : orphans_ok (vOrphan c) (mapDependers c);
  collected_queue : Forall (λ p, eligible_tx (tp_ptx p)) (vecPriority c)
}.
Abbreviation collect_one := (collect_tx adjustedTime d block_hash_at tree hashBest mapPool).
Lemma collect_tx_ok c h tx : collected_ok c → mapPool !! h = Some tx →
  ∃ c', collect_one c (h, tx) = Some c' ∧ collected_ok c' ∧ (keys (vecPriority c') (vOrphan c') ≡ₚ keys (vecPriority c) (vOrphan c) ∨
    keys (vecPriority c') (vOrphan c') ≡ₚ h :: keys (vecPriority c) (vOrphan c)).
Proof.
  intros [H1 H2] Hh. unfold collect_tx. destruct (IsCoinBase tx || IsCoinStake tx || negb _) eqn:Em; [exists c; split; [done|]; split; [by split|by left]|].
  apply orb_false_iff in Em as [[Hcb Hcs]%orb_false_iff Hfin%negb_false_iff]. destruct (Hpool _ _ Hh) as [_ Ht _ [out Ho] Hin].
  assert (He : eligible_tx h) by (by exists tx). assert (Hn : Forall (λ i, 0 <= op_n (prevout i)) (vin tx)).
  { destruct Ht as [_ _ [_ Hi] _ _]. eapply Forall_impl; [exact Hi|]. intros i [[_ ?] _]. lia. }
  destruct (scan_total h (waiting (vOrphan c)) (vin tx) He (mkScan (vOrphan c) (mapDependers c) None (double_of 0) 0)) as (s & -> & [S1 S2]); [by split|done|done|].
  cbn [mbind option_bind]. rewrite Ho. cbn [mbind option_bind]. unfold keys. destruct (porphan s) as [k|].
  - destruct S2 as [S2 (o & Hk & Hp & Hne)]. rewrite Hk. cbn [mjoin option_join mbind option_bind]. eexists. split; [done|]. split.
    + split; cbn; [|done]. apply orphans_put; [done|eauto|by rewrite Hp].
    + right. cbn [vecPriority vOrphan]. rewrite (waiting_same _ _ _ _ Hk) by (cbn; by rewrite !bool_decide_eq_false_2). rewrite S2, app_assoc. by rewrite <- Permutation_cons_append.
  - eexists. split; [done|]. split; [split; cbn; [done|]; apply Forall_app; split; [done|by constructor]|].
    right. cbn [vecPriority vOrphan]. rewrite map_app, S2. cbn [map tp_ptx]. rewrite <- app_assoc. cbn [app]. by rewrite <- Permutation_middle.
Qed.
Lemma collect_ok l : ∀ c, collected_ok c → Forall (λ e, mapPool !! e.1 = Some e.2) l → NoDup l.*1 → NoDup (keys (vecPriority c) (vOrphan c)) →
  (∀ h, h ∈ keys (vecPriority c) (vOrphan c) → h ∉ l.*1) →
  ∃ c', collect adjustedTime d block_hash_at tree hashBest mapPool l c = Some c' ∧ collected_ok c' ∧ NoDup (keys (vecPriority c') (vOrphan c')).
Proof.
  induction l as [|[h tx] l IH]; intros c Hc Hl Hnd Hk Hdis; cbn [collect]; [eauto|]. apply Forall_cons in Hl as [Hh Hl]. cbn in Hnd. apply NoDup_cons in Hnd as [Hh2 Hnd].
  destruct (collect_tx_ok c h tx Hc Hh) as (c1 & -> & Hc1 & Hperm). cbn [mbind option_bind]. apply IH; [done|done|done| |].
  - destruct Hperm as [->| ->]; [done|]. constructor; [|done]. intros Hx%Hdis. apply Hx. by left.
  - intros x Hx. destruct Hperm as [Hp|Hp]; rewrite Hp in Hx.
    + apply Hdis in Hx. cbn in Hx. by apply not_elem_of_cons in Hx as [_ ?].
    + apply elem_of_cons in Hx as [->|Hx]; [done|]. apply Hdis in Hx. cbn in Hx. by apply not_elem_of_cons in Hx as [_ ?].
Qed.
(** ** Releasing orphans *)

Lemma release_ok hash ds ks : ∀ l q, orphans_ok l ds → Forall (λ p, eligible_tx (tp_ptx p)) q → (∀ k, k ∈ ks → ∃ o, l !! k = Some (Some o)) →
  ∃ l' q', release hash ks l q = Some (l', q') ∧ orphans_ok l' ds ∧ Forall (λ p, eligible_tx (tp_ptx p)) q' ∧ keys q' l' ≡ₚ keys q l.
Proof.
  induction ks as [|k ks IH]; intros l q Hl Hq Hks; cbn [release]; [by exists l, q|]. destruct (Hks k (list_elem_of_here _ _)) as (o & Hk). rewrite Hk. cbn [mjoin option_join mbind option_bind].
  assert (Hks' : ∀ j, j ∈ ks → ∃ o, l !! j = Some (Some o)) by (intros j Hj; apply Hks; by right).
  case_bool_decide as He; [by apply IH|]. set (rest := setDependsOn o ∖ {[hash]}). set (o' := mkOrphan (or_ptx o) rest (or_dPriority o) (or_dFeePerKb o)).
  assert (Hm : eligible_tx (or_ptx o)) by (by eapply orphans_minable). apply lookup_lt_Some in Hk as Hlt.
  assert (Hl' : orphans_ok (<[k := Some o']> l) ds) by (apply orphans_put; eauto).
  assert (Hks2 : ∀ j, j ∈ ks → ∃ o, <[k := Some o']> l !! j = Some (Some o)).
  { intros j Hj. destruct (decide (j = k)) as [->|]; [rewrite list_lookup_insert_eq by done; eauto|rewrite list_lookup_insert_ne by done; by apply Hks']. }
  pose proof (waiting_insert l k (Some o') _ Hk) as Hw. cbn [waits setDependsOn or_ptx o'] in Hw. rewrite (bool_decide_eq_false_2 (setDependsOn o = ∅)) in Hw by done.
  case_bool_decide as Hr.
  - destruct (IH (<[k := Some o']> l) (q ++ [mkPriority (or_dPriority o) (or_dFeePerKb o) (or_ptx o)])) as (l2 & q2 & E2 & H1 & H2 & H3); [done| |done|].
    { apply Forall_app. split; [done|by constructor]. }
    exists l2, q2. split; [done|]. split; [done|]. split; [done|]. rewrite H3. unfold keys. rewrite map_app. cbn [map tp_ptx]. rewrite app_nil_r in Hw. rewrite <- Hw.
    rewrite <- !app_assoc. apply Permutation_app_head, Permutation_app_comm.
  - destruct (IH (<[k := Some o']> l) q) as (l2 & q2 & E2 & H1 & H2 & H3); [done..|].
    exists l2, q2. split; [done|]. split; [done|]. split; [done|]. rewrite H3. unfold keys. apply Permutation_app_head. by apply Permutation_app_inv_r in Hw.
Qed.

(** ** The block so far *)

Lemma connects_snoc m txs ps ins m1 (tx : CTransaction) p v : connects net Verify cpTime d chain false m txs ps ins m1 →
  overwrites (txdb d) (GetHash tx) = false → 0 <= total (vout tx) <= MAX_MONEY → connectable net Verify cpTime d chain false m1 tx v →
  connects net Verify cpTime d chain false m (txs ++ [tx]) (ps ++ [p]) (ins ++ [v]) (add_tx m1 tx p).
Proof. induction 1; intros; cbn [app]; constructor; try done; [constructor|auto]. Qed.
Lemma sum_list_snoc l x : sum_list (l ++ [x]) = sum_list l + x.
Proof. induction l as [|y l IH]; cbn in *; [lia|]. unfold sum_list in *. cbn. rewrite IH. lia. Qed.
Lemma fees_snoc txs ins tx v : length txs = length ins → fees (txs ++ [tx]) (ins ++ [v]) = fees txs ins ++ [fee_of tx v].
Proof. intros Hl. unfold fees. by rewrite zip_with_app by done. Qed.
Lemma connects_length fs m txs ps ins m' : connects net Verify cpTime d chain fs m txs ps ins m' → length txs = length ins ∧ length ps = length txs.
Proof. induction 1 as [|? ? ? ? ? ? ? ? _ _ _ _ [? ?]]; cbn; lia. Qed.

(** How a transaction got in: its inputs were fetched, its scripts hold, and it counts
    that many signature operations *)
Definition taken (tx : CTransaction) (nSigOps : Z) : Prop := ∃ pool inputs p2sh,
  FetchInputs d mapPool pool false true tx ∅ = Some (Fetched inputs) ∧ GetP2SHSigOpCount tx inputs = Some p2sh ∧ nSigOps = GetLegacySigOpCount tx + p2sh ∧
  ∀ k i, vin tx !! k = Some i → script_valid Verify tx MANDATORY_SCRIPT_VERIFY_FLAGS k (script_of inputs i).
Definition in_time (coinstake : option CTransaction) (tx : CTransaction) : Prop := nTime tx <= adjustedTime ∧ ∀ t, coinstake = Some t → nTime tx <= nTime t.

Record plan (nBlockMaxSize : Z) (coinstake : option CTransaction) (txs : list CTransaction) (nFees : Z) (m : TxMap) (nSize nSigOps : Z) : Prop := {
  plan_connects : ∃ ins ops, connects net Verify cpTime d chain false (txdb d) txs (replicate (length txs) memory_pos) ins m ∧
    nFees = i64 (sum_list (fees txs ins)) ∧ Forall2 taken txs ops ∧ nSigOps = u32 (100 + sum_list ops);
  plan_sigops : nSigOps < MAX_BLOCK_SIGOPS;
  plan_size : nSize = 1000 + sum_list (map GetSerializeSize txs) ∧ nSize <= nBlockMaxSize;
  plan_txs : Forall (λ tx, mapPool !! GetHash tx = Some tx ∧ minable tx ∧ in_time coinstake tx) txs
}.
Record assembly_ok (nBlockMaxSize : Z) (coinstake : option CTransaction) (ds : gmap base_uint (list nat)) (s : Assembly) : Prop := {
  as_orphans_ok : orphans_ok (as_vOrphan s) ds;
  as_queue_ok : Forall (λ p, eligible_tx (tp_ptx p)) (as_vecPriority s);
  as_once : NoDup (keys (as_vecPriority s) (as_vOrphan s) ++ map GetHash (as_vtx s));
  as_wf : index_wf (as_mapTestPool s ∪ txdb d);
  as_cache_ok : cache_ok Verify nMaxCacheSize (as_cache s);
  as_plan : plan nBlockMaxSize coinstake (as_vtx s) (as_nFees s) (as_mapTestPool s ∪ txdb d) (nBlockSize s) (nBlockSigOps s)
}.

Context (Hrandom : ∀ S, S ≠ ∅ → random_entry S ∈ S).
Context (nBlockMaxSize nBlockPrioritySize nBlockMinSize nMinTxFee : Z) (coinstake : option CTransaction) (Hmax : 1000 <= nBlockMaxSize < 2 ^ 32).
Abbreviation assemble_one := (assemble_tx net Verify nMaxCacheSize random_entry cpTime adjustedTime d tree hashBest mapPool nBlockMaxSize nBlockPrioritySize nBlockMinSize nMinTxFee coinstake).
Abbreviation good := (assembly_ok nBlockMaxSize coinstake).

Lemma good_queue ds s b : good ds s → good ds (with_queue s (as_vecPriority s) b).
Proof. intros []. by split. Qed.
Lemma good_cache ds s c : good ds s → cache_ok Verify nMaxCacheSize c → good ds (with_sig_cache s c).
Proof. intros [] Hc. by split. Qed.

(** One transaction that was connected *)
Lemma taken_ok (tx : CTransaction) (pool : TxMap) (inputs : MapPrevTx) p2sh nOut pool' checks cache cache' : minable tx → tx_ok tx → index_wf (pool ∪ txdb d) → cache_ok Verify nMaxCacheSize cache →
  FetchInputs d mapPool pool false true tx ∅ = Some (Fetched inputs) → GetP2SHSigOpCount tx inputs = Some p2sh → GetValueOut tx = Some nOut →
  ConnectInputs net Verify nMaxCacheSize random_entry cpTime d tx inputs pool memory_pos chain false true true MANDATORY_SCRIPT_VERIFY_FLAGS false cache = Some (Connected pool' checks, cache') →
  cache_ok Verify nMaxCacheSize cache' ∧ taken tx (GetLegacySigOpCount tx + p2sh) ∧ connectable net Verify cpTime d chain false (pool ∪ txdb d) tx (total_in inputs (vin tx)) ∧
  <[GetHash tx := CTxIndex_new memory_pos (length (vout tx))]> pool' ∪ txdb d = add_tx (pool ∪ txdb d) tx memory_pos ∧
  0 <= total (vout tx) <= MAX_MONEY ∧ GetValueIn tx inputs = Some (total_in inputs (vin tx)) ∧ nOut = total (vout tx) ∧ 0 <= total_in inputs (vin tx) <= MAX_MONEY.
Proof.
  intros (Hcb & Hcs & _) Ht Hwf HS Ef E2 Eo Ec. assert (Ho : Forall txout_ok (vout tx)) by apply Ht. assert (Hv : Forall txin_ok (vin tx)) by apply Ht.
  apply GetValueOut_total in Eo as [-> Hout]; [|done]. destruct (FetchInputs_total d mapPool pool false true tx ∅ Hcb Hv) as (r & Er & H). rewrite Ef in Er. injection Er as <-.
  destruct (H inputs eq_refl) as (_ & Hco & Hf). specialize (Hco eq_refl ltac:(done)).
  destruct (ConnectInputs_inv _ _ _ _ _ _ _ _ _ _ _ _ _ _ _ _ _ _ _ _ Ho Hcb Ec) as (Hin & Hsc & Hle & Hst & Hrange & Hnn).
  destruct (ConnectInputs_marks _ _ _ _ _ _ _ _ _ _ _ _ _ _ _ _ _ _ _ _ Ht Hcb (eq_refl : CDiskTxPos_IsNull memory_pos = false) (eq_refl : false || true = true) Hco Hwf Ec) as (Hm & Hnd & Hun).
  destruct (connect_scripts_checks _ _ _ _ _ _ _ _ _ _ _ _ _ _ _ _ _ _ _ Hrandom HS (drop_0 _) Hsc) as (HS' & _ & Hvalid).
  assert (Hsp : spends tx = map prevout (vin tx)) by (unfold spends; by rewrite Hcb).
  split; [done|]. split; [exists pool, inputs, p2sh; split; [done|]; split; [done|]; split; [done|]; intros k i Hk; by apply (Hvalid eq_refl)|]. split.
  { apply connectable_spend; rewrite ?Hsp; done. }
  split; [by rewrite <- insert_union_l, Hm; unfold add_tx; rewrite Hsp|]. split; [done|]. split; [|done].
  unfold GetValueIn. rewrite Hcb, valuein_loop_ok; [by f_equal| |done|lia|lia]. rewrite Forall_forall in Hv, Hf |- *. intros i Hi. destruct (Hf i Hi) as [? _], (Hv i Hi) as [[_ ?] _]. split; [done|lia].
Qed.
(** A rejected transaction leaves a valid cache as well *)
Lemma scripts_cache (tx : CTransaction) v : ∀ k (inputs : MapPrevTx) (pool : TxMap) checks cache r cache', cache_ok Verify nMaxCacheSize cache →
  connect_scripts Verify nMaxCacheSize random_entry tx memory_pos false true true MANDATORY_SCRIPT_VERIFY_FLAGS false k v inputs pool checks cache = Some (r, cache') → cache_ok Verify nMaxCacheSize cache'.
Proof.
  assert (Hcall : ∀ c cache b cache', cache_ok Verify nMaxCacheSize cache → CScriptCheck_call Verify nMaxCacheSize random_entry c cache = (b, cache') → cache_ok Verify nMaxCacheSize cache').
  { intros c cache b cache' Hc E. unfold CScriptCheck_call in E.
    destruct (VerifyScript_cached Verify nMaxCacheSize random_entry (sc_ptxTo c) (sc_nIn c) (sc_nFlags c) (sc_nHashType c) (scriptSig (nth (sc_nIn c) (vin (sc_ptxTo c)) CTxIn_default)) (sc_scriptPubKey c) cache Hrandom Hc)
      as [_ H]. by rewrite E in H. }
  induction v as [|i v IH]; intros k inputs pool checks cache r cache' Hc; cbn [connect_scripts]; [by intros [= _ <-]|].
  destruct (inputs !! _) as [[x t]|]; [|done]. cbn [mbind option_bind]. destruct (negb _); [by intros [= _ <-]|]. cbn [negb].
  destruct (CScriptCheck_call _ _ _ _ cache) as [[[]|] c1] eqn:E1; [| |done].
  - apply IH. by apply Hcall in E1.
  - destruct (negb _); [|intros [= _ <-]; by apply Hcall in E1]. apply Hcall in E1; [|done]. destruct (CScriptCheck_call _ _ _ _ c1) as [[[]|] c2] eqn:E2; [| |done]; intros [= _ <-]; by apply Hcall in E2.
Qed.
Lemma ConnectInputs_cache (tx : CTransaction) (inputs : MapPrevTx) (pool : TxMap) cache r cache' : cache_ok Verify nMaxCacheSize cache →
  ConnectInputs net Verify nMaxCacheSize random_entry cpTime d tx inputs pool memory_pos chain false true true MANDATORY_SCRIPT_VERIFY_FLAGS false cache = Some (r, cache') → cache_ok Verify nMaxCacheSize cache'.
Proof.
  intros Hc. unfold ConnectInputs. destruct (IsCoinBase tx); [by intros [= _ <-]|]. destruct (connect_values _ _ _ _ _ _) as [[|]|]; [by intros [= _ <-]| |done].
  destruct (connect_scripts _ _ _ _ _ _ _ _ _ _ _ _ _ _ _ _) as [[[[]|[]] c]|] eqn:E; [| |done].
  - intros [= _ <-]. by eapply scripts_cache.
  - intros (x & _ & [= _ <-])%bind_Some. by eapply scripts_cache.
Qed.
Lemma GetSerializeSize_range (tx : CTransaction) : 0 <= GetSerializeSize tx < 2 ^ 32.
Proof. apply u32_range. Qed.
Lemma total_sizes (txs : list CTransaction) : 0 <= sum_list (map GetSerializeSize txs).
Proof. induction txs as [|t txs IH]; [done|]. pose proof (GetSerializeSize_range t). unfold sum_list in *. cbn [map foldr]. lia. Qed.
Lemma i32_of_u32 x : u32 x < 2 ^ 31 → i32 x = u32 x.
Proof. intros H. mlia. Qed.
Lemma u32_add_add a b c : u32 (u32 a + u32 (b + c)) = u32 (a + (b + c)).
Proof. unfold u32. by rewrite <- Zplus_mod. Qed.

(** The transaction that is added to the block *)
Lemma good_added (ds : gmap base_uint (list nat)) (s : Assembly) (p : TxPriority) (tx : CTransaction) (inputs : MapPrevTx) (p2sh : Z) (pool' : TxMap) (checks : list CScriptCheck) (cache' : gset sigdata) (l : list (option COrphan)) (q : list TxPriority) : good ds s → mapPool !! tp_ptx p = Some tx → minable tx → in_time coinstake tx →
  NoDup (tp_ptx p :: keys (as_vecPriority s) (as_vOrphan s) ++ map GetHash (as_vtx s)) →
  FetchInputs d mapPool (as_mapTestPool s) false true tx ∅ = Some (Fetched inputs) → GetP2SHSigOpCount tx inputs = Some p2sh →
  ConnectInputs net Verify nMaxCacheSize random_entry cpTime d tx inputs (as_mapTestPool s) memory_pos chain false true true MANDATORY_SCRIPT_VERIFY_FLAGS false (as_cache s) =
    Some (Connected pool' checks, cache') →
  u32 (nBlockSigOps s + u32 (GetLegacySigOpCount tx + p2sh)) < MAX_BLOCK_SIGOPS → nBlockSize s + GetSerializeSize tx < nBlockMaxSize →
  orphans_ok l ds → Forall (λ p, eligible_tx (tp_ptx p)) q → keys q l ≡ₚ keys (as_vecPriority s) (as_vOrphan s) →
  ∀ nIn nOut, GetValueIn tx inputs = Some nIn → GetValueOut tx = Some nOut →
  good ds (mkAssembly q l (<[GetHash tx := CTxIndex_new memory_pos (length (vout tx))]> pool') (as_vtx s ++ [tx]) (u64 (nBlockSize s + GetSerializeSize tx)) (u64 (nBlockTx s + 1))
    (i32 (nBlockSigOps s + u32 (GetLegacySigOpCount tx + p2sh))) (i64 (as_nFees s + i64 (nIn - nOut))) (fSortedByFee s) cache').
Proof.
  intros [G1 G2 G3 G4 G5 [(ins & ops & Hc & Hfee & Hops & Hsig) Hs [Hsz Hsm] Htx]] Hp Hm Htime Hnd Ef E2 Ec Hlim Hsize Hl Hq Hk nIn nOut Ei Eo.
  destruct (Hpool _ _ Hp) as [Hh Ht Hnew _ _].
  destruct (taken_ok tx _ _ _ _ _ _ _ _ Hm Ht G4 G5 Ef E2 Eo Ec) as (HS & Htk & Hco & Hidx & Hout & Ein & -> & Hin). rewrite Ei in Ein. injection Ein as ->.
  pose proof (GetSerializeSize_range tx). split; cbn [as_vecPriority as_vOrphan as_mapTestPool as_vtx nBlockSize nBlockSigOps as_nFees as_cache]; [done|done| | |done|].
  - rewrite map_app, Hk. cbn [map]. rewrite Hh. rewrite app_assoc. by rewrite <- Permutation_cons_append.
  - rewrite Hidx. by apply index_wf_add.
  - destruct (connects_length _ _ _ _ _ _ Hc) as [Hl1 _]. assert (Hov : overwrites (txdb d) (GetHash tx) = false) by (unfold overwrites; by rewrite Hh, Hnew).
    assert (Hneg : 0 <= nBlockSize s) by (pose proof (total_sizes (as_vtx s)); lia).
    rewrite i32_of_u32 by (change MAX_BLOCK_SIGOPS with 20000 in Hlim; lia). split.
    + exists (ins ++ [total_in inputs (vin tx)]), (ops ++ [GetLegacySigOpCount tx + p2sh]). rewrite length_app, replicate_add, Hidx. split; [by apply connects_snoc|].
      split; [|split; [apply Forall2_app; [done|by constructor]|]].
      * rewrite fees_snoc, sum_list_snoc, Hfee, (i64_small (_ - _)) by (done || unfold MAX_MONEY in *; lia). rewrite i64_add_l. f_equal. f_equal.
        unfold fee_of. destruct Hm as (-> & -> & _). done.
      * rewrite Hsig, sum_list_snoc, u32_add_add. f_equal. lia.
    + done.
    + rewrite u64_small by lia. rewrite map_app. cbn [map]. rewrite sum_list_snoc. lia.
    + apply Forall_app. split; [done|]. constructor; [|done]. by rewrite Hh.
Qed.

Lemma assemble_tx_ok (ds : gmap base_uint (list nat)) (p : TxPriority) (s : Assembly) : good ds s → eligible_tx (tp_ptx p) → NoDup (tp_ptx p :: keys (as_vecPriority s) (as_vOrphan s) ++ map GetHash (as_vtx s)) →
  ∃ s', assemble_one ds p s = Some s' ∧ good ds s' ∧ length (keys (as_vecPriority s') (as_vOrphan s')) = length (keys (as_vecPriority s) (as_vOrphan s)).
Proof.
  intros G (tx & Hp & Hm) Hnd. destruct (Hpool _ _ Hp) as [Hh Ht _ [nOut Eo] _]. destruct Hm as (Hcb & Hcs & Hfin). assert (Hv : Forall txin_ok (vin tx)) by apply Ht.
  unfold assemble_tx. rewrite Hp. cbn [mbind option_bind].
  assert (Hskip : ∃ s', Some s = Some s' ∧ good ds s' ∧ length (keys (as_vecPriority s') (as_vOrphan s')) = length (keys (as_vecPriority s) (as_vOrphan s))) by eauto.
  destruct (Z.leb_spec nBlockMaxSize (u64 (nBlockSize s + GetSerializeSize tx))) as [|Hsize]; [exact Hskip|]. destruct (_ <=? _); [exact Hskip|]. destruct (_ || _) eqn:Etime; [exact Hskip|].
  destruct (_ && _); [exact Hskip|]. clear Hskip. set (byFee := fSortedByFee s || _ || _). set (s1 := with_queue s _ byFee).
  assert (G1 : good ds s1) by (by apply good_queue). change (as_mapTestPool s) with (as_mapTestPool s1).
  assert (Hskip : ∃ s', Some s1 = Some s' ∧ good ds s' ∧ length (keys (as_vecPriority s') (as_vOrphan s')) = length (keys (as_vecPriority s) (as_vOrphan s))) by eauto.
  assert (Htime : in_time coinstake tx).
  { apply orb_false_iff in Etime as [H1%Z.ltb_ge H2]. split; [done|]. intros t ->. by apply Z.ltb_ge in H2. }
  clear Etime.
  destruct (FetchInputs_total d mapPool (as_mapTestPool s1) false true tx ∅ Hcb Hv) as (r & Er & H). rewrite Er. cbn [mbind option_bind].
  destruct r as [inputs| |]; [|exact Hskip..]. destruct (H inputs eq_refl) as (_ & _ & Hf).
  assert (Hg : Forall (λ i, is_Some (GetOutputFor i inputs)) (vin tx)) by (eapply Forall_impl; [exact Hf|]; by intros i []).
  assert (Hi : is_Some (GetValueIn tx inputs)) by (unfold GetValueIn; rewrite Hcb; by apply valuein_total). destruct Hi as [nIn Ei]. rewrite Ei, Eo. cbn [mbind option_bind].
  destruct (i64 (nIn - nOut) <? _); [exact Hskip|]. assert (H2 : is_Some (GetP2SHSigOpCount tx inputs)) by (unfold GetP2SHSigOpCount; rewrite Hcb; by apply p2sh_total). destruct H2 as [p2sh E2]. rewrite E2. cbn [mbind option_bind].
  destruct (Z.leb_spec MAX_BLOCK_SIGOPS (u32 (nBlockSigOps s1 + u32 (GetLegacySigOpCount tx + p2sh)))) as [|Hlim]; [exact Hskip|]. clear Hskip.
  destruct (ConnectInputs_total net Verify nMaxCacheSize random_entry cpTime d tx inputs (as_mapTestPool s1) memory_pos chain false true true MANDATORY_SCRIPT_VERIFY_FLAGS false (as_cache s1))
    as [[connected cache'] Ec]; [done|by eexists|done|]. rewrite Ec. cbn [mbind option_bind]. destruct connected as [nDoS pool'|pool' checks].
  - eexists. split; [done|]. split; [|done]. apply good_cache; [done|]. apply (ConnectInputs_cache _ _ _ _ _ _ (as_cache_ok _ _ _ _ G1) Ec).
  - destruct (release_ok (GetHash tx) ds (default [] (ds !! GetHash tx)) (as_vOrphan s1) (as_vecPriority s1)) as (l & q & El & Hl & Hq & Hk); [apply G1|apply G1| |].
    { intros k Hk. destruct (ds !! GetHash tx) eqn:Ed; [|by apply not_elem_of_nil in Hk]. by eapply (orphans_found _ _ (as_orphans_ok _ _ _ _ G1)). }
    rewrite El. cbn [mbind option_bind]. eexists. split; [done|]. split; [|cbn; by rewrite Hk].
    assert (Hsz : nBlockSize s + GetSerializeSize tx < nBlockMaxSize).
    { pose proof (GetSerializeSize_range tx). pose proof (plan_size _ _ _ _ _ _ _ (as_plan _ _ _ _ G)) as [Hz Hz2]. rewrite u64_small in Hsize; [done|].
      pose proof (total_sizes (as_vtx s)). lia. }
    exact (good_added ds s1 p tx inputs p2sh pool' checks cache' l q G1 Hp (conj Hcb (conj Hcs Hfin)) Htime Hnd Er E2 Ec Hlim Hsz Hl Hq Hk nIn nOut Ei Eo).
Qed.

(** The loop, with one turn for each transaction that is queued or waits *)
Lemma assemble_ok ds fuel : ∀ s, good ds s → (length (keys (as_vecPriority s) (as_vOrphan s)) <= fuel)%nat →
  ∃ s', assemble net Verify nMaxCacheSize random_entry cpTime adjustedTime d tree hashBest mapPool nBlockMaxSize nBlockPrioritySize nBlockMinSize nMinTxFee coinstake fuel ds s =
    Returned (Some s') ∧ good ds s'.
Proof.
  induction fuel as [|fuel IH]; intros s G Hf; cbn [assemble]; (destruct (heap_pop (fSortedByFee s) (as_vecPriority s)) as [[p q]|] eqn:Eh; [|by eauto]);
    apply heap_some in Eh as Hperm.
  - unfold keys in Hf. rewrite length_app, length_map, Hperm in Hf. cbn in Hf. lia.
  - set (s1 := with_queue s q (fSortedByFee s)). assert (Hk : keys (as_vecPriority s) (as_vOrphan s) ≡ₚ tp_ptx p :: keys (as_vecPriority s1) (as_vOrphan s1)).
    { unfold keys. by rewrite Hperm. }
    destruct G as [G1 G2 G3 G4 G5 G6]. rewrite Hperm in G2. apply Forall_cons in G2 as [Gp G2]. rewrite Hk in G3.
    assert (Gs : good ds s1) by (split; try done; by apply NoDup_cons in G3 as [_ ?]).
    destruct (assemble_tx_ok ds p s1 Gs Gp G3) as (s2 & -> & G' & Hl). apply IH; [done|]. rewrite Hl. rewrite Hk in Hf. cbn [length] in Hf. lia.
Qed.

Lemma FillBlock_ok cache : index_wf (txdb d) → cache_ok Verify nMaxCacheSize cache →
  ∃ ds s, FillBlock net Verify nMaxCacheSize random_entry cpTime adjustedTime d block_hash_at tree hashBest mapPool nBlockMaxSize nBlockPrioritySize nBlockMinSize nMinTxFee coinstake cache =
    Returned (Some s) ∧ good ds s.
Proof.
  intros Hwf Hc. unfold FillBlock. destruct (collect_ok (id_order mapPool) (mkCollected [] ∅ [])) as (c & -> & [H1 H2] & H3).
  - split; [|by constructor]. split; cbn [vOrphan mapDependers]; [intros h ks k H _; by apply lookup_empty_Some in H|intros k o H; by rewrite lookup_nil in H].
  - apply Forall_forall. intros [h tx] H%elem_of_id_order. done.
  - apply id_order_nodup.
  - constructor.
  - intros h H. by apply not_elem_of_nil in H.
  - exists (mapDependers c). destruct (assemble_ok (mapDependers c) (length (vecPriority c) + length (vOrphan c))
      (mkAssembly (vecPriority c) (vOrphan c) ∅ [] 1000 0 100 0 (nBlockPrioritySize <=? 0) cache)) as (s & E & G).
    + split; cbn; [done|done| |by rewrite map_empty_union|done|]. { rewrite app_nil_r. exact H3. }
      rewrite map_empty_union. split; [|done| |done]. { exists [], []. split; [constructor|]. done. }
      split; [done|lia].
    + cbn [as_vecPriority as_vOrphan]. unfold keys. rewrite length_app, length_map. pose proof (length_waiting (vOrphan c)). lia.
    + exists s. done.
Qed.
End assembly.

(** ** The block as a whole *)

Section template.
Context {BN : OpenSSL_BN} {DG : Digests} {C : OpenSSL_EC} {E : EVP} {HP : Heap} {HPok : HeapOk} (net : bool).
Context (nMaxCacheSize : Z) (random_entry : gset sigdata → sigdata) (cpTime adjustedTime : Z).
Context (d : Disk) (block_hash_at : Z → Z → option base_uint) (tree : BlockMap) (hashBest : base_uint) (mapPool : gmap base_uint CTransaction).
Context (new_key : nat → CKey) (now keypool_arg : Z) (a : BlockArgs).
Context (Hrandom : ∀ S, S ≠ ∅ → random_entry S ∈ S) (Hpool : map_Forall (pool_tx d mapPool) mapPool) (Hwf : index_wf (txdb d)).
Abbreviation planned := (plan net pubkey_Verify cpTime adjustedTime d tree hashBest mapPool (block_max_size a)).
Abbreviation chain := (best_chain tree hashBest).

(** The first time that is after the median, not before the transactions and the
    clock, and at most two hours before the previous block *)
Definition earliest_time (prev median latest : Z) : Z := Z.max (Z.max (median + 1) latest) (Z.max (PastDrift prev) adjustedTime).
(** Its transactions: the coinbase, the coinstake if there is one, and those of the pool *)
Record template_ok (coinstake : option CTransaction) (nBits : Z) (b : CBlock) : Prop := {
  template_header : hashPrevBlock b = hashBest ∧ blk_nBits b = nBits;
  template_txs : ∃ base txs nFees m nSize nSigOps, vtx b = base :: option_list coinstake ++ txs ∧ IsCoinBase base = true ∧
    planned coinstake txs nFees m nSize nSigOps ∧ NoDup (map GetHash txs) ∧ NoDup (concat (map spends txs)) ∧
    match coinstake with
    | Some t => vout base = [CTxOut_SetEmpty] ∧ nTime base = nTime t ∧ blk_nTime b = nTime t
    | None => ∃ nReward script, GetProofOfWorkReward net nBits = Some nReward ∧ vout base = [mkTxOut (i64 (nReward + nFees)) script] ∧
        (GetMedianTimePast chain < 2 ^ 32 - 1 → Forall (λ tx, nTime tx < 2 ^ 32) (vtx b) → 0 <= adjustedTime < 2 ^ 32 →
          (match chain with p :: _ => GetBlockTime p | [] => 0 end) < 2 ^ 32 →
          blk_nTime b = earliest_time (match chain with p :: _ => GetBlockTime p | [] => 0 end) (GetMedianTimePast chain) (GetMaxTransactionTime b) ∧
          Forall (λ tx, nTime tx <= blk_nTime b) (vtx b))
    end
}.
Lemma max_time txs : ∀ acc, acc <= fold_left (λ m (tx : CTransaction), Z.max m (nTime tx)) txs acc ∧ Forall (λ tx, nTime tx <= fold_left (λ m (tx : CTransaction), Z.max m (nTime tx)) txs acc) txs ∧
  (∀ B, acc < B → Forall (λ tx, nTime tx < B) txs → fold_left (λ m (tx : CTransaction), Z.max m (nTime tx)) txs acc < B).
Proof.
  induction txs as [|tx txs IH]; intros acc; cbn [fold_left]; [split; [lia|]; split; [constructor|auto]|]. destruct (IH (Z.max acc (nTime tx))) as (H1 & H2 & H3).
  split; [lia|]. split; [constructor; [lia|done]|]. intros B Hb [Ht Hts]%Forall_cons. apply H3; [lia|done].
Qed.
Lemma work_time_ok prevs b : GetMedianTimePast prevs < 2 ^ 32 - 1 → Forall (λ tx, nTime tx < 2 ^ 32) (vtx b) → 0 <= adjustedTime < 2 ^ 32 →
  (match prevs with p :: _ => GetBlockTime p | [] => 0 end) < 2 ^ 32 → let t := work_time adjustedTime prevs b in
  t = earliest_time (match prevs with p :: _ => GetBlockTime p | [] => 0 end) (GetMedianTimePast prevs) (GetMaxTransactionTime b) ∧ Forall (λ tx, nTime tx <= t) (vtx b).
Proof.
  intros Hm Hts Ha Hp t. destruct (max_time (vtx b) 0) as (H1 & H2 & H3). fold (GetMaxTransactionTime b) in *. specialize (H3 (2 ^ 32) ltac:(lia) Hts).
  unfold t, work_time. set (prev := match prevs with p :: _ => GetBlockTime p | [] => 0 end) in *. unfold PastDrift, nOneHour in *.
  rewrite (u32_small (Z.max _ (GetMaxTransactionTime b))) by lia. rewrite (u32_small (Z.max _ (_ - _))) by lia. rewrite u32_small by lia.
  split; [unfold earliest_time, PastDrift, nOneHour; lia|]. eapply Forall_impl; [exact H2|]. intros tx Hx. cbn in *. lia.
Qed.

(** C23. The assembled block.  Over a memory pool whose transactions are filed under their
    hash, not in the chain and spend outputs of the chain or of the pool,
    [CreateNewBlock] ends without an exception when the key, the target and the reward
    can be had.  The block continues the best chain with the target the chain
    requires; after the coinbase, and the coinstake if there is one, come distinct
    final transactions of the pool, none later than the clock or the stake, that
    connect to the index one after the other, each with every script valid under the
    mandatory flags, and that spend no output twice; their sizes and signature
    operations stay within the limits; and without a stake the coinbase pays the
    reward and exactly the fees, and the block has the earliest time that is after
    the median, not before any transaction nor the clock, and at most two hours
    before the previous block.  ([AcceptBlock] also has a latest time, 12 hours after
    the median, which [CreateNewBlock] does not look at.) *)
Theorem CreateNewBlock_ok coinstake k cache first nBits : cache_ok pubkey_Verify nMaxCacheSize cache → first_txs adjustedTime new_key now keypool_arg coinstake k = Some first →
  GetNextTargetRequired net chain (bool_decide (is_Some coinstake)) = Some nBits → (coinstake = None → is_Some (GetProofOfWorkReward net nBits)) →
  ∃ tm, CreateNewBlock net nMaxCacheSize random_entry cpTime adjustedTime d block_hash_at tree hashBest mapPool new_key now keypool_arg a coinstake k cache = Returned (Some tm) ∧
    template_ok coinstake nBits (tm_block tm) ∧ cache_ok pubkey_Verify nMaxCacheSize (tm_cache tm) ∧ tm_keys tm = first.2.
Proof.
  intros Hc Hf Ht Hr. unfold CreateNewBlock. rewrite Hf, Ht. destruct first as [[vtx0 time0] k0].
  assert (Hmax : 1000 <= block_max_size a < 2 ^ 32) by (unfold block_max_size, MAX_BLOCK_SIZE; lia).
  destruct (FillBlock_ok net pubkey_Verify nMaxCacheSize random_entry cpTime adjustedTime d block_hash_at tree hashBest mapPool Hpool Hrandom (block_max_size a) (block_priority_size a) (block_min_size a) (min_tx_fee a)
    coinstake Hmax cache Hwf Hc) as (ds & s & -> & [_ _ Honce _ Hcache Hplan]).
  assert (Hnd : NoDup (map GetHash (as_vtx s))) by (by apply NoDup_app in Honce as (_ & _ & ?)).
  assert (Hsp : NoDup (concat (map spends (as_vtx s)))).
  { destruct Hplan as [(ins & ops & Hco & _) _ _ _]. eapply (connects_nodup _ _ _ _ _ _ []) in Hco; [done| |done|by intros h ?%not_elem_of_nil|by intros o ?; right]. by apply Forall_replicate. }
  destruct coinstake as [t|].
  - unfold first_txs in Hf. injection Hf as <- <- <-. rewrite bool_decide_eq_true_2 by eauto. cbn [mbind option_bind]. eexists. split; [done|]. split; [|done]. split; [done|].
    exists (new_coinbase (nTime t) CTxOut_SetEmpty), (as_vtx s), (as_nFees s). do 3 eexists. split; [done|]. split; [done|]. split; [exact Hplan|]. done.
  - destruct (Hr eq_refl) as [nReward Er]. unfold first_txs in Hf. apply bind_Some in Hf as ([[pk r] k1] & Hk & [= <- <- <-]). rewrite bool_decide_eq_false_2 by (by intros [? ?]). rewrite Er.
    cbn [mbind option_bind]. eexists. split; [done|]. split; [|done]. split; [done|]. cbn [tm_block vtx blk_nTime set_reward app vout new_coinbase].
    eexists _, (as_vtx s), (as_nFees s). do 3 eexists. split; [done|]. split; [done|]. split; [exact Hplan|]. split; [done|]. split; [done|].
    exists nReward. eexists. split; [done|]. split; [done|]. intros H1 H2 H3 H4.
    exact (work_time_ok _ (mkBlock 6 hashBest (bu_of_u64 W256 0) 0 nBits 0 _ []) H1 H2 H3 H4).
Qed.
End template.

(** ** A small pool *)

(** A heap that looks through its elements *)
#[local] Instance plain_heap : Heap := {| heap_pop byFee l :=
  let p := default (0%nat, mkPriority (double_of 0) (double_of 0) []) (list_find (λ x, forallb (λ y, negb (TxPriorityCompare byFee x y)) l = true) l) in
  match l !! p.1 with Some x => Some (x, delete p.1 l) | None => None end |}.
#[local] Instance plain_heap_ok : HeapOk.
Proof.
  split; cbn.
  - intros byFee l. destruct (list_find _ l) as [[i x]|] eqn:Ef; cbn; [apply list_find_Some in Ef as (-> & _); done|]. by destruct l.
  - intros byFee l x r. destruct (l !! _) as [y|] eqn:El; [|done]. intros [= <- <-]. by apply delete_Permutation.
  - intros byFee l x r y. destruct (list_find _ l) as [[i z]|] eqn:Ef; cbn.
    + apply list_find_Some in Ef as (Hi & Hz & _). rewrite Hi. intros [= <- <-] _ _ w Hw. rewrite forallb_forall in Hz. apply negb_true_iff, Hz. by apply list_elem_of_In.
    + intros _ Hy Hg. exfalso. apply list_find_None in Ef. rewrite Forall_forall in Ef. apply (Ef y Hy). apply forallb_forall. intros w Hw%list_elem_of_In. apply negb_true_iff. by apply Hg.
Qed.

#[local] Existing Instances mod_digests toy_curve toy_evp.
Definition funds : CTransaction := mkTx 1 1400000000 [mkTxIn (mkOutPoint (replicate W256 7) 0) [] UINT_MAX] [mkTxOut 5000000 [81]; mkTxOut 300000 [81]] 0.
Definition funds_disk : Disk := mkDisk {[GetHash funds := CTxIndex_new (mkPos 1 100 200) 2]} (λ _, Some funds) (λ _ _, Some 1400000000).
(** A payment, and one that spends it *)
Definition spend_of (t : CTransaction) (n v : Z) : CTransaction := mkTx 1 1400000100 [mkTxIn (mkOutPoint (GetHash t) n) [] UINT_MAX] [mkTxOut v [81]] 0.
Definition parent_tx : CTransaction := spend_of funds 0 4000000.
Definition child_tx : CTransaction := spend_of parent_tx 0 3000000.
Definition pair_pool : gmap base_uint CTransaction := <[GetHash parent_tx := parent_tx]> {[GetHash child_tx := child_tx]}.
Definition tip_hash : base_uint := replicate W256 9.
Definition tip_tree : BlockMap := {[tip_hash := mkNode (mkIndex 1 0 0 0 (replicate W256 0) 6 1400000050 0x1d00ffff) None None 0 0 0 0 COutPoint_SetNull 0 (replicate W256 0) (replicate W256 0) 0]}.
Definition miner_keys : KeyWallet := mkKeyWallet KeyStore_new ∅ ∅ [] 0.
Definition default_args : BlockArgs := mkArgs 250000 27000 0 None.
Abbreviation new_block stake := (CreateNewBlock false 10 first_entry 0 1400000200 funds_disk (λ _ _, None) tip_tree tip_hash pair_pool toy_new_key 7 1 default_args stake miner_keys ∅).
Definition vtx_of (r : Looped Template) : option (list CTransaction) := match r with Returned (Some t) => Some (vtx (tm_block t)) | _ => None end.
Lemma pair_pool_ok : map_Forall (pool_tx funds_disk pair_pool) pair_pool.
Proof.
  apply map_Forall_insert_2; [|apply map_Forall_singleton].
  - split; [reflexivity|apply (tx_okb_ok parent_tx); vm_compute; reflexivity|vm_compute; reflexivity|vm_compute; eauto|]. constructor; [|constructor]. left. vm_compute. eauto.
  - split; [reflexivity|apply (tx_okb_ok child_tx); vm_compute; reflexivity|vm_compute; reflexivity|vm_compute; eauto|]. constructor; [|constructor]. right. exists parent_tx.
    split; [apply lookup_insert_eq|vm_compute; reflexivity].
Qed.
Lemma miner_key : is_Some (first_txs 1400000200 toy_new_key 7 1 None miner_keys).
Proof. apply (bool_decide_unpack _). vm_compute. exact I. Qed.
Lemma CreateNewBlock_ok_witness : ∃ tm nBits, new_block None = Returned (Some tm) ∧ template_ok false 0 1400000200 funds_disk tip_tree tip_hash pair_pool default_args None nBits (tm_block tm).
Proof.
  destruct miner_key as [first Hf]. destruct (GetNextTargetRequired false (best_chain tip_tree tip_hash) (bool_decide (is_Some (@None CTransaction)))) as [nBits|] eqn:Et; [|vm_compute in Et; discriminate].
  destruct (CreateNewBlock_ok false 10 first_entry 0 1400000200 funds_disk (λ _ _, None) tip_tree tip_hash pair_pool toy_new_key 7 1 default_args first_entry_in pair_pool_ok) with
    (coinstake := @None CTransaction) (k := miner_keys) (cache := (∅ : gset sigdata)) (first := first) (nBits := nBits) as (tm & E & T & _).
  - apply map_Forall_singleton. repeat constructor.
  - apply empty_cache_ok. lia.
  - exact Hf.
  - exact Et.
  - intros _. apply (bool_decide_unpack _). vm_compute in Et. injection Et as <-. vm_compute. exact I.
  - exists tm, nBits. split; [exact E|exact T].
Defined.
(** The parent is in the block before its child, and the coinbase has the fees *)
Example block_of_pair : option_map (map (λ t, (vin t, map nValue (vout t)))) (vtx_of (new_block None)) =
  Some [([CTxIn_default], [102000000]); (vin parent_tx, [4000000]); (vin child_tx, [3000000])].
Proof. vm_compute. reflexivity. Qed.

(** The coinstake is not connected to the index the transactions are tried on: one that
    spends the same output is put into the block, which spends it twice *)
Definition conflicting_stake : CTransaction := mkTx 1 1400000150 (vin parent_tx) [CTxOut_SetEmpty; mkTxOut 5000100 [81]] 0.
Example stake_conflict : match vtx_of (new_block (Some conflicting_stake)) with
  | Some (_ :: stake :: tx :: _) => IsCoinStake stake = true ∧ map prevout (vin stake) = map prevout (vin tx)
  | _ => False end.
Proof. vm_compute. split; reflexivity. Qed.

(** The scripts are checked under the mandatory flags, without those of the lock times
    that [ConnectBlock] adds: a script that fails there is put into the block *)
Definition locked_script : list Z := [1; 100; OP_CHECKLOCKTIMEVERIFY].
Definition locked_funds : CTransaction := mkTx 1 1650000000 [mkTxIn (mkOutPoint (replicate W256 7) 0) [] UINT_MAX] [mkTxOut 5000000 locked_script] 0.
Definition locked_spend : CTransaction := mkTx 1 1650000100 [mkTxIn (mkOutPoint (GetHash locked_funds) 0) [] 0] [mkTxOut 4000000 [81]] 0.
Definition locked_block : Looped Template :=
  CreateNewBlock false 10 first_entry 0 1650000200 (mkDisk {[GetHash locked_funds := CTxIndex_new (mkPos 1 100 200) 1]} (λ _, Some locked_funds) (λ _ _, Some 1650000000)) (λ _ _, None)
    tip_tree tip_hash {[GetHash locked_spend := locked_spend]} toy_new_key 7 1 default_args None miner_keys ∅.
Example lock_time_ignored : option_map (λ l, last l) (vtx_of locked_block) = Some (Some locked_spend) ∧
  (VerifyScript (λ g key code (c : unit), (CheckSig_spec pubkey_Verify locked_spend 0 0 g key code, c)) locked_spend 0 (block_flags (nTime locked_spend)) [] locked_script tt).1 = Some false.
Proof. vm_compute. split; reflexivity. Qed.
