(* ===== verification/Stake.v ===== *)
(** * Minting (src/miner.cpp, src/wallet.cpp)

    The stake miner: [FillMap] keeps the kernel of every coin of the wallet that may
    mint, [ScanMap] looks for a time at which one of them meets the target,
    [CreateCoinStake] turns that coin into a coinstake, which pays the reward to the
    owner of the kernel, and [CheckStake] hands the signed block to the node.

    The static variable of [ScanMap] and the counters are in a record.  The order of a
    set of coins is that of the class [Choices], the order of the map of kernels that
    of its keys.  The balance fills the caches of the wallet, which is returned. *)

From stdpp Require Import base list numbers option gmap sorting.
From Stdlib Require Import ZArith Lia.
From S2P Require Import Prelude WalletTx Uint256 Bignum Serialize Tx Script Interp SigCheck Chain Utxo ScriptStd Mempool Block BlockIndex ConnectBlock Kernel Base58 Key KeyStore Sign CoinSelect KeyPool CreateTx.
From S2P Require Import BestChain BlockFiles ChainOps Checkpoints ProcessBlock Miner.

Open Scope Z_scope.

(** ** The map of kernels *)

Definition nMaxStakeSearchInterval : Z := 60.
(** The kernel, the time of the transaction and the amount of a coin *)
Record Midstate := mkMidstate { ms_kernel : list Z; ms_nTime : Z; ms_nAmount : Z }.
Abbreviation MidstateMap := (gmap Coin Midstate).
Record StakeSearch := mkSearch {
  inputsMap : MidstateMap;
  nStakeInputsMapSize : Z;
  nLastCoinStakeSearchTime : Z;
  nLastCoinStakeSearchInterval : Z
}.
Definition with_inputsMap (s : StakeSearch) (m : MidstateMap) (n : Z) : StakeSearch := mkSearch m n (nLastCoinStakeSearchTime s) (nLastCoinStakeSearchInterval s).

(** The order of a map whose keys are pairs of a hash and a number *)
Definition coin_le (a b : Coin * Midstate) : Prop := bu_lt a.1.1 b.1.1 = true ∨ (a.1.1 = b.1.1 ∧ a.1.2 <= b.1.2).
#[export] Instance coin_le_dec a b : Decision (coin_le a b).
Proof. unfold coin_le. apply _. Defined.
Definition coin_order (m : MidstateMap) : list (Coin * Midstate) := merge_sort coin_le (map_to_list m).

Section Search.
Context {BN : OpenSSL_BN} {DG : Digests} {C : OpenSSL_EC} {E : EVP} {CH : Choices}.
Variable fTestNet : bool.
Variable scrypt_blockhash : list Z → base_uint.
Variable nCoinbaseMaturity : Z.
Variable fConfChange : bool.
Variable mine : KeyStore → list Z → isminetype.
Variable nReserveBalance : Z.
(** The tree of blocks, the transaction index, and the header at a place of the files *)
Variable tree : BlockMap.
Variable d : Disk.
Variable header_at : Z → Z → option CBlock.

(** [txindex.pos.nTxPos - txindex.pos.nBlockPos] *)
Definition tx_offset (x : CTxIndex) : Z := u32 (nTxPos (pos x) - nBlockPos (pos x)).

(** One coin of [FillMap] *)
Definition fill_coin (M : WalletMap) (now : Z) (m : MidstateMap) (c : Coin) : option MidstateMap :=
  t ← M !! c.1;
  let tx := wtx_tx t in
  let key := (GetHash tx, c.2) in
  match m !! key with
  | Some _ => Some m
  | None =>
      out ← vout tx !! Z.to_nat c.2;
      let '(ok, whichType, _) := Solver (scriptPubKey out) in
      if negb ok then Some m
      else if negb (bool_decide (whichType = TX_PUBKEY)) && negb (bool_decide (whichType = TX_PUBKEYHASH)) then Some m
      else
        match txdb d !! GetHash tx with
        | None => Some m
        | Some txindex =>
            match header_at (nFile (pos txindex)) (nBlockPos (pos txindex)) with
            | None => Some m
            | Some block =>
                if u32 (nStakeMinAge fTestNet + blk_nTime block) >? u32 (now - nMaxStakeSearchInterval) then Some m
                else
                  match GetKernelStakeModifier fTestNet tree (blk_GetHash scrypt_blockhash block) with
                  | None => Some m
                  | Some (nStakeModifier, _, _) =>
                      Some (<[key := mkMidstate (kernel_prefix nStakeModifier (blk_nTime block) (tx_offset txindex) (nTime tx) c.2)
                                       (nTime tx) (u64 (nValue out))]> m)
                  end
            end
        end
  end.
Fixpoint fill_coins (M : WalletMap) (now : Z) (coins : list Coin) (m : MidstateMap) : option MidstateMap :=
  match coins with
  | [] => Some m
  | c :: coins => m ← fill_coin M now m c; fill_coins M now coins m
  end.
(** The verdict, the wallet and the search *)
Definition FillMap (v : NodeView) (adjustedTime nUpperTime : Z) (k : KeyWallet) (w : Wallet) (s : StakeSearch) : option (bool * Wallet * StakeSearch) :=
  '(nBalance, w) ← balance_of nCoinbaseMaturity fConfChange mine v k w;
  if nBalance <=? nReserveBalance then Some (false, w, s)
  else
    '(setCoins, _) ← SelectCoinsSimple nCoinbaseMaturity (mine (kw_store k)) v (mapWallet w) (i64 (nBalance - nReserveBalance)) MIN_TX_FEE MAX_MONEY nUpperTime (nCoinbaseMaturity * 10);
    if bool_decide (setCoins = ∅) then Some (false, w, s)
    else
      m ← fill_coins (mapWallet w) (u32 adjustedTime) (ch_order setCoins) (inputsMap s);
      Some (true, w, with_inputsMap s m (Z.of_nat (size m))).

(** [ScanMap]: the coin with the hash and the time of the solution *)
Variable fShutdown : Z → bool.
Fixpoint scan_entries (nBits : Z) (interval : Z * Z) (l : list (Coin * Midstate)) : option (option (Coin * (base_uint * Z))) :=
  match l with
  | [] => Some None
  | (c, e) :: l =>
      r ← ScanKernelBackward fTestNet fShutdown (ms_kernel e) nBits (ms_nTime e) (i64 (ms_nAmount e)) interval;
      match r with
      | Some solution => Some (Some (c, solution))
      | None => scan_entries nBits interval l
      end
  end.
Definition search_interval (nSearchTime nLast : Z) : Z * Z := (nSearchTime, u32 (nSearchTime - Z.min (u32 (nSearchTime - nLast)) nMaxStakeSearchInterval)).
Definition ScanMap (adjustedTime nBits : Z) (s : StakeSearch) : option (option (Coin * (base_uint * Z)) * StakeSearch) :=
  let nSearchTime := u32 adjustedTime in
  let nLast := nLastCoinStakeSearchTime s in
  if (0 <? Z.of_nat (size (inputsMap s))) && (nSearchTime >? nLast) then
    r ← scan_entries nBits (search_interval nSearchTime nLast) (coin_order (inputsMap s));
    match r with
    | Some found => Some (Some found, s)
    | None => Some (None, mkSearch (inputsMap s) (nStakeInputsMapSize s) nSearchTime (u32 (nSearchTime - nLast)))
    end
  else Some (None, s).
End Search.

(** ** The coinstake *)

Section Coinstake.
Context {BN : OpenSSL_BN} {DG : Digests} {C : OpenSSL_EC} {E : EVP} {CH : Choices}.
Variable fTestNet : bool.
Variable nCoinbaseMaturity : Z.
Variable fConfChange : bool.
Variable mine : KeyStore → list Z → isminetype.
Variable nReserveBalance : Z.
Variable nMaxCacheSize : Z.
Variable random_entry : gset sigdata → sigdata.
Variable d : Disk.
(** [-splitthreshold] *)
Variable split_arg : option Z.

(** The key of the kernel and the script of the stake; the inner [None] is a refusal *)
Definition kernel_key (s : KeyStore) (script : list Z) : option (option (CKey * list Z)) :=
  let '(ok, whichType, vSolutions) := Solver script in
  let vch := nth 0 vSolutions [] in
  if negb ok then Some None
  else
    match whichType with
    | TX_PUBKEYHASH =>
        key ← store_GetKey s (bu_of_vch W160 vch);
        Some (key ← key; Some (key, push_vector [] (key_GetPubKey key) ++ [OP_CHECKSIG]))
    | TX_PUBKEY =>
        key ← store_GetKey s (Hash160 vch);
        Some (key ← key; if bool_decide (key_GetPubKey key = CPubKey_Set vch) then Some (key, script) else None)
    | _ => Some None
    end.

(** The inputs, the credit and the coins of a coinstake that is being built *)
Record Staked := mkStaked { sk_vin : list CTxIn; sk_nCredit : Z; sk_coins : list Coin }.
Definition add_input (s : Staked) (hash : base_uint) (c : Coin) (n : Z) : Staked :=
  mkStaked (sk_vin s ++ [mkTxIn (mkOutPoint hash c.2) [] UINT_MAX]) (i64 (sk_nCredit s + n)) (sk_coins s ++ [c]).
(** Further inputs for an old kernel; [limit] is the balance without the reserve *)
Fixpoint combine_inputs (M : WalletMap) (nGenerationTime limit nCombineThreshold : Z) (scriptKernel scriptOut : list Z) (hashTx : base_uint)
    (coins : list Coin) (s : Staked) : option Staked :=
  match coins with
  | [] => Some s
  | c :: coins =>
      let next := combine_inputs M nGenerationTime limit nCombineThreshold scriptKernel scriptOut hashTx coins in
      if (100 <=? length (sk_vin s))%nat then Some s
      else if sk_nCredit s >? nCombineThreshold then Some s
      else
        t ← M !! c.1;
        out ← vout (wtx_tx t) !! Z.to_nat c.2;
        if i64 (sk_nCredit s + nValue out) >? limit then Some s
        else if GetWeight fTestNet (nTime (wtx_tx t)) nGenerationTime <? nStakeMaxAge then next s
        else if negb (bool_decide (scriptPubKey out = scriptKernel)) && negb (bool_decide (scriptPubKey out = scriptOut)) then next s
        else if negb (bu_eq (GetHash (wtx_tx t)) hashTx) then next s
        else if nValue out >? nCombineThreshold then next s
        else next (add_input s (GetHash (wtx_tx t)) c (nValue out))
  end.

(** The outputs for a credit: the marker, and the stake in one or two parts *)
Definition stake_outs (fDontSplitCoins : bool) (script : list Z) (n : Z) : list CTxOut :=
  let half := i64 (Z.quot (Z.quot n 2) CENT * CENT) in
  CTxOut_SetEmpty :: if fDontSplitCoins then [mkTxOut n script] else [mkTxOut half script; mkTxOut (i64 (n - half)) script].
Definition with_outs (tx : CTransaction) (outs : list CTxOut) : CTransaction := mkTx (nVersion tx) (nTime tx) (vin tx) outs (nLockTime tx).

(** The loop over the fee: the coinstake, none when it cannot be signed or is too long *)
Fixpoint stake_fee_loop (fuel : nat) (s : KeyStore) (M : WalletMap) (coins : list Coin) (fDontSplitCoins : bool) (script : list Z) (nCredit nMinFee : Z)
    (tx : CTransaction) (cache : gset sigdata) : Looped (option CTransaction * gset sigdata) :=
  match fuel with
  | O => Exhausted
  | S fuel =>
      match sign_inputs nMaxCacheSize random_entry s M coins 0 (with_outs tx (stake_outs fDontSplitCoins script (i64 (nCredit - nMinFee)))) cache with
      | None => Returned None
      | Some (false, _, cache) => Returned (Some (None, cache))
      | Some (true, tx, cache) =>
          let nBytes := GetSerializeSize tx in
          if MAX_BLOCK_SIZE_GEN / 5 <=? nBytes then Returned (Some (None, cache))
          else
            let nFee := i64 (GetMinFee tx 1 false GMF_BLOCK nBytes - CENT) in
            if nMinFee <? nFee then stake_fee_loop fuel s M coins fDontSplitCoins script nCredit nFee tx cache
            else Returned (Some (Some tx, cache))
      end
  end.
(** The fees are multiples of [MIN_TX_FEE], below 1040 of them for the size *)
Definition stake_fuel : nat := 1041.

(** The inputs and the credit with the reward, before the fee; the inner [None] is a
    refusal *)
Record StakeDraft := mkStakeDraft { sd_tx : CTransaction; sd_nCredit : Z; sd_coins : list Coin; fDontSplitCoins : bool }.
Definition draft_stake (v : NodeView) (pindexBest : list CBlockIndex) (k : KeyWallet) (w : Wallet) (hashTx : base_uint) (nOut nGenerationTime nBits : Z)
    (wtx : CTransaction) (kernel : CTxOut) (scriptOut : list Z) (txNew : CTransaction) : option (option StakeDraft * Wallet) :=
  nReward ← GetProofOfWorkReward fTestNet (match GetLastBlockIndex pindexBest false with b :: _ => bi_nBits b | [] => 0 end);
  let nCombineThreshold := Z.quot nReward 3 in
  '(nBalance, w) ← balance_of nCoinbaseMaturity fConfChange mine v k w;
  let limit := i64 (nBalance - nReserveBalance) in
  '(setCoins, _) ← SelectCoinsSimple nCoinbaseMaturity (mine (kw_store k)) v (mapWallet w) limit MIN_TX_FEE MAX_MONEY nGenerationTime (nCoinbaseMaturity * 10);
  if bool_decide (setCoins = ∅) then Some (None, w)
  else
    let first := mkStaked [mkTxIn (mkOutPoint hashTx nOut) [] UINT_MAX] (nValue kernel) [(hashTx, nOut)] in
    let old := GetWeight fTestNet (nTime wtx) nGenerationTime =? nStakeMaxAge in
    st ← (if old then combine_inputs (mapWallet w) nGenerationTime limit nCombineThreshold (scriptPubKey kernel) scriptOut hashTx (ch_order setCoins) first
          else Some first);
    let fDontSplitCoins := old || negb (nValue kernel >? default nCombineThreshold split_arg) in
    let tx := mkTx (nVersion txNew) nGenerationTime (sk_vin st) (stake_outs fDontSplitCoins scriptOut 0) (nLockTime txNew) in
    match GetCoinAge fTestNet d tx with
    | None => Some (None, w)
    | Some nCoinAge =>
        nStakeReward ← GetProofOfStakeReward fTestNet (i64 nCoinAge) nBits nGenerationTime false;
        Some (Some (mkStakeDraft tx (i64 (sk_nCredit st + nStakeReward)) (sk_coins st) fDontSplitCoins), w)
    end.

(** The coinstake with the key for the block, the wallet and the signature cache *)
Definition CreateCoinStake (v : NodeView) (pindexBest : list CBlockIndex) (k : KeyWallet) (w : Wallet) (hashTx : base_uint) (nOut nGenerationTime nBits : Z)
    (txNew : CTransaction) (cache : gset sigdata) : Looped (option (CTransaction * CKey) * Wallet * gset sigdata) :=
  match mapWallet w !! hashTx with
  | None => Returned (Some (None, w, cache))
  | Some t =>
      match (kernel ← vout (wtx_tx t) !! Z.to_nat nOut; r ← kernel_key (kw_store k) (scriptPubKey kernel); Some (kernel, r)) with
      | None => Returned None
      | Some (_, None) => Returned (Some (None, w, cache))
      | Some (kernel, Some (key, scriptOut)) =>
          match draft_stake v pindexBest k w hashTx nOut nGenerationTime nBits (wtx_tx t) kernel scriptOut txNew with
          | None => Returned None
          | Some (None, w) => Returned (Some (None, w, cache))
          | Some (Some dr, w) =>
              match stake_fee_loop stake_fuel (kw_store k) (mapWallet w) (sd_coins dr) (fDontSplitCoins dr) scriptOut (sd_nCredit dr) 0 (sd_tx dr) cache with
              | Exhausted => Exhausted
              | Returned None => Returned None
              | Returned (Some (tx, cache)) => Returned (Some (tx ← tx; Some (tx, key), w, cache))
              end
          end
      end
  end.
End Coinstake.

(** ** Handing the block to the node *)

Section Submit.
Context {BN : OpenSSL_BN} {DG : Digests} {C : OpenSSL_EC} (ops : BlockFiles → ChainOps).
Variable fTestNet : bool.
Variable scrypt_blockhash : list Z → base_uint.
Variable Verify : list Z → base_uint → list Z → bool.
Variable nMaxCacheSize : Z.
Variable random_entry : gset sigdata → sigdata.
Variable adjustedTime : Z.
Variable CheckpointsMode : CPMode.
Variable fDiskSpace fInitialDownload : bool.
Variable reserialize : list Z → option (list Z).
Abbreviation process := (ProcessBlock ops fTestNet scrypt_blockhash Verify nMaxCacheSize random_entry adjustedTime CheckpointsMode fDiskSpace fInitialDownload reserialize).

(** [wallet.mapRequestCount[hashBlock] = 0] *)
Definition track_requests (hash : base_uint) (w : Wallet) : Wallet := with_requests w (<[hash := 0]> (mapRequestCount w)).

Definition CheckWork (s : NodeState) (b : CBlock) (r : CReserveKey) (k : KeyWallet) (w : Wallet) : option (bool * NodeState * CReserveKey * KeyWallet * Wallet) :=
  let hashBlock := blk_GetHash scrypt_blockhash b in
  if negb (blk_IsProofOfWork b) then Some (false, s, r, k, w)
  else if bu_gt hashBlock (getuint256 (bn_SetCompact (blk_nBits b))) then Some (false, s, r, k, w)
  else if negb (bu_eq (hashPrevBlock b) (hashBestChain (ns_chain s))) then Some (false, s, r, k, w)
  else
    let '(r, k) := rk_KeepKey r k in
    res ← process s b false;
    Some (pr_ok res, pr_state res, r, k, track_requests hashBlock w).

Definition CheckStake (s : NodeState) (b : CBlock) (w : Wallet) : option (bool * NodeState * Wallet) :=
  if negb (blk_IsProofOfStake b) then Some (false, s, w)
  else
    tx ← vtx b !! 1%nat;
    let fs := ns_files s in
    let c := ns_chain s in
    '(r, cache) ← CheckProofOfStake fTestNet scrypt_blockhash Verify nMaxCacheSize random_entry (mapBlockIndex c)
                    (mkDisk (cs_txdb c) (read_tx_at fs) (read_time_at fs)) (read_header_at fs) tx (blk_nBits b) (cs_sigcache c);
    let s := with_chain s (with_cache c cache) in
    match r with
    | StakeRefused _ => Some (false, s, w)
    | StakeAccepted _ _ =>
        if negb (bu_eq (hashPrevBlock b) (hashBestChain (ns_chain s))) then Some (false, s, w)
        else
          res ← process s b false;
          Some (pr_ok res, pr_state res, track_requests (blk_GetHash scrypt_blockhash b) w)
    end.

(** The node sees a block only when it continues the best chain: otherwise nothing but
    the signature cache changes *)
Lemma CheckStake_stale s b w ok s' w' : bu_eq (hashPrevBlock b) (hashBestChain (ns_chain s)) = false → CheckStake s b w = Some (ok, s', w') →
  ok = false ∧ w' = w ∧ ∃ cache, s' = with_chain s (with_cache (ns_chain s) cache).
Proof.
  intros Hst. unfold CheckStake. assert (Hs : s = with_chain s (with_cache (ns_chain s) (cs_sigcache (ns_chain s)))) by (by destruct s as [[]]).
  destruct (blk_IsProofOfStake b); cbn [negb]; [|intros [= <- <- <-]; eauto]. intros (tx & _ & ([r cache] & _ & H)%bind_Some)%bind_Some.
  destruct r; [injection H as <- <- <-; eauto|]. cbn [ns_chain with_chain hashBestChain with_cache] in H. rewrite Hst in H. injection H as <- <- <-. eauto.
Qed.
Lemma CheckWork_stale s b r k w ok s' r' k' w' : bu_eq (hashPrevBlock b) (hashBestChain (ns_chain s)) = false → CheckWork s b r k w = Some (ok, s', r', k', w') →
  ok = false ∧ s' = s ∧ r' = r ∧ k' = k ∧ w' = w.
Proof. intros Hst. unfold CheckWork. rewrite Hst. destruct (negb (blk_IsProofOfWork b)); [by intros [= <- <- <- <- <-]|]. destruct (bu_gt _ _); by intros [= <- <- <- <- <-]. Qed.
End Submit.

(** ** The kernels of a map *)

Lemma coin_order_elem (m : MidstateMap) c e : (c, e) ∈ coin_order m ↔ m !! c = Some e.
Proof. unfold coin_order. rewrite merge_sort_Permutation. apply elem_of_map_to_list. Qed.

Section search.
Context {BN : OpenSSL_BN} {BNok : OpenSSL_BN_ok BN} {DG : Digests} {DGok : DigestsOk} {C : OpenSSL_EC} {E : EVP} {CH : Choices} {CHok : ChoicesOk}.
Context (net : bool) (scrypt : list Z → base_uint) (tree : BlockMap) (d : Disk) (header_at : Z → Z → option CBlock).

(** The coin of a key of the map may mint: it pays to a key, and its block is in the
    files, old enough and followed by a block that generated its modifier *)
Record may_mint (M : WalletMap) (now : Z) (c : Coin) (t : CWalletTx) (out : CTxOut) (x : CTxIndex) (block : CBlock) (nStakeModifier : Z) : Prop := {
  mint_tx : M !! c.1 = Some t;
  mint_out : vout (wtx_tx t) !! Z.to_nat c.2 = Some out;
  mint_type : ∃ ty s, Solver (scriptPubKey out) = (true, ty, s) ∧ (ty = TX_PUBKEY ∨ ty = TX_PUBKEYHASH);
  mint_index : txdb d !! c.1 = Some x;
  mint_header : header_at (nFile (pos x)) (nBlockPos (pos x)) = Some block;
  mint_age : u32 (nStakeMinAge net + blk_nTime block) <= u32 (now - nMaxStakeSearchInterval);
  mint_modifier : ∃ h s, GetKernelStakeModifier net tree (blk_GetHash scrypt block) = Some (nStakeModifier, h, s)
}.
Definition midstate_of (c : Coin) (tx : CTransaction) (out : CTxOut) (x : CTxIndex) (block : CBlock) (nStakeModifier : Z) : Midstate :=
  mkMidstate (kernel_prefix nStakeModifier (blk_nTime block) (tx_offset x) (nTime tx) c.2) (nTime tx) (u64 (nValue out)).
Definition mints (M : WalletMap) (now : Z) (c : Coin) (e : Midstate) : Prop :=
  ∃ t out x block n, may_mint M now c t out x block n ∧ e = midstate_of c (wtx_tx t) out x block n.

Lemma fill_coin_ok M now m c m' : keys_ok M → fill_coin net scrypt tree d header_at M now m c = Some m' →
  ∀ c' e, m' !! c' = Some e ↔ m !! c' = Some e ∨ (m !! c' = None ∧ c' = c ∧ mints M now c e).
Proof.
  intros K. unfold fill_coin. intros (t & Et & H)%bind_Some. assert (Hh : GetHash (wtx_tx t) = c.1) by exact (K _ _ Et). rewrite Hh in H.
  replace (c.1, c.2) with c in H by (by destruct c). destruct (m !! c) as [e0|] eqn:E0.
  { injection H as <-. intros c' e. split; [by left|]. intros [?|(? & -> & _)]; [done|congruence]. }
  apply bind_Some in H as (out & Eo & H).
  assert (Hnone : (∀ t' out' x b n, may_mint M now c t' out' x b n → False) → m' = m → ∀ c' e, m' !! c' = Some e ↔ m !! c' = Some e ∨ (m !! c' = None ∧ c' = c ∧ mints M now c e)).
  { intros Hno -> c' e. split; [by left|]. intros [?|(_ & -> & ? & ? & ? & ? & ? & Hm & _)]; [done|]. by destruct (Hno _ _ _ _ _ Hm). }
  assert (Hsame : ∀ t' out' x b n, may_mint M now c t' out' x b n → t' = t ∧ out' = out).
  { intros t' out' x b n [H1 H2]. rewrite Et in H1. injection H1 as <-. rewrite Eo in H2. by injection H2 as <-. }
  destruct (Solver (scriptPubKey out)) as [[ok ty] s] eqn:Es. destruct ok; cbn [negb] in H.
  2: { injection H as <-. apply Hnone; [|done]. intros t' out' x b n Hm. destruct (Hsame _ _ _ _ _ Hm) as [-> ->]. destruct Hm as [_ _ (? & ? & Hs & _)]. congruence. }
  destruct (negb _ && negb _) eqn:Ety.
  { injection H as <-. apply Hnone; [|done]. intros t' out' x b n Hm. destruct (Hsame _ _ _ _ _ Hm) as [-> ->]. destruct Hm as [_ _ (? & ? & Hs & Hty)]. rewrite Es in Hs.
    injection Hs as <- <-. destruct Hty as [-> | ->]; done. }
  assert (Hty : ty = TX_PUBKEY ∨ ty = TX_PUBKEYHASH).
  { destruct (bool_decide_reflect (ty = TX_PUBKEY)); [by left|]. destruct (bool_decide_reflect (ty = TX_PUBKEYHASH)); [by right|done]. }
  destruct (txdb d !! c.1) as [x|] eqn:Ex; [|injection H as <-; apply Hnone; [|done]; intros t' out' x b n []; congruence].
  destruct (header_at _ _) as [block|] eqn:Eb; [|injection H as <-; apply Hnone; [|done]; intros t' out' x' b n []; congruence].
  destruct (Z.gtb_spec (u32 (nStakeMinAge net + blk_nTime block)) (u32 (now - nMaxStakeSearchInterval))) as [Hage|Hage].
  { injection H as <-. apply Hnone; [|done]. intros t' out' x' b n []. assert (x' = x) by congruence. subst x'. assert (b = block) by congruence. subst b. lia. }
  destruct (GetKernelStakeModifier _ _ _) as [[[n hm] sm]|] eqn:Ek.
  2: { injection H as <-. apply Hnone; [|done]. intros t' out' x' b n []. assert (x' = x) by congruence. subst x'. assert (b = block) by congruence. subst b. destruct mint_modifier0 as (? & ? & ?). congruence. }
  injection H as <-. assert (Hm : may_mint M now c t out x block n) by (split; eauto). intros c' e. destruct (decide (c' = c)) as [->|Hne].
  - rewrite lookup_insert. rewrite decide_True by done. split.
    + intros [= <-]. right. split; [done|]. split; [done|]. by exists t, out, x, block, n.
    + intros [?|(_ & _ & t' & out' & x' & b' & n' & Hm' & ->)]; [congruence|]. destruct (Hsame _ _ _ _ _ Hm') as [-> ->]. destruct Hm'.
      assert (x' = x) by congruence. subst x'. assert (b' = block) by congruence. subst b'. destruct mint_modifier0 as (? & ? & Ek'). rewrite Ek in Ek'. by injection Ek' as <- _ _.
  - rewrite lookup_insert_ne by done. split; [by left|]. intros [?|(_ & ? & _)]; done.
Qed.
Lemma fill_coins_ok M now coins : keys_ok M → ∀ m m', fill_coins net scrypt tree d header_at M now coins m = Some m' →
  ∀ c e, m' !! c = Some e ↔ m !! c = Some e ∨ (m !! c = None ∧ c ∈ coins ∧ mints M now c e).
Proof.
  intros K. induction coins as [|c0 coins IH]; intros m m'; cbn [fill_coins].
  { intros [= <-] c e. split; [by left|]. intros [?|(_ & ?%not_elem_of_nil & _)]; done. }
  intros (m1 & H1 & H2)%bind_Some c e. rewrite (IH _ _ H2). pose proof (fill_coin_ok _ _ _ _ _ K H1 c) as F. rewrite (F e), elem_of_cons.
  split; [intros [[?|(? & -> & ?)]|(Hn & ? & ?)]|intros [?|(Hn & [->|Hin] & Hm)]]; auto.
  - right. split; [|auto]. destruct (m !! c) as [e'|] eqn:Em; [|done]. destruct (F e') as [_ F']. rewrite F' in Hn by auto. done.
  - destruct (m1 !! c) as [e'|] eqn:E1; [|auto]. destruct (proj1 (F e') eq_refl) as [?|(_ & -> & Hm')]; [congruence|]. left. right. done.
Qed.
End search.

(** ** The search *)

Section scanning.
Context {BN : OpenSSL_BN} {BNok : OpenSSL_BN_ok BN} {DG : Digests} {DGok : DigestsOk} {C : OpenSSL_EC} {E : EVP} {CH : Choices} {CHok : ChoicesOk}.
Context (net : bool) (scrypt : list Z → base_uint) (tree : BlockMap) (d : Disk) (header_at : Z → Z → option CBlock).

(** The check a node makes of a coin as the kernel of a coinstake of a given time *)
Definition kernel_check (M : WalletMap) (nBits : Z) (c : Coin) (t : Z) : option (bool * base_uint * base_uint) :=
  w ← M !! c.1;
  x ← txdb d !! c.1;
  block ← header_at (nFile (pos x)) (nBlockPos (pos x));
  CheckStakeKernelHash net scrypt tree nBits block (tx_offset x) (wtx_tx w) (mkOutPoint c.1 c.2) t (bu_of_u64 W256 0) (bu_of_u64 W256 0).

Lemma kernel_verdict nBits block x tx (c : Coin) out n hm sm t h0 t0 : GetKernelStakeModifier net tree (blk_GetHash scrypt block) = Some (n, hm, sm) →
  vout tx !! Z.to_nat c.2 = Some out → 0 <= nValue out < 2 ^ 63 → 0 <= nTime tx <= t → t < 2 ^ 32 → 0 <= blk_nTime block < 2 ^ 32 →
  u32 (blk_nTime block + nStakeMinAge net) <= t →
  let e := midstate_of c tx out x block n in
  ∃ tp, CheckStakeKernelHash net scrypt tree nBits block (tx_offset x) tx (mkOutPoint c.1 c.2) t h0 t0 =
    Some (bool_decide (solves net (ms_kernel e) nBits (ms_nTime e) (nValue out) t), kernel_hash (ms_kernel e) t, tp).
Proof.
  intros Hm Ho Hv Ht Ht2 Hb Hage e. unfold e, midstate_of, CheckStakeKernelHash, blk_GetBlockTime. destruct (Z.ltb_spec t (nTime tx)); [lia|].
  rewrite (u32_small (blk_nTime block)) by lia. destruct (Z.gtb_spec (u32 (blk_nTime block + nStakeMinAge net)) t); [lia|].
  cbn [op_n ms_kernel ms_nTime]. rewrite (nth_lookup_Some _ _ _ _ Ho).
  destruct (coin_day_weight_ok net (nValue out) (nTime tx) t Hv) as (wt & Ew & Hw); [lia..|]. rewrite Ew, Hm. cbn [mbind option_bind].
  rewrite kernel_prefix_hash. eexists. rewrite bn_gt_ok, setuint256_ok by apply kernel_hash_wf. unfold bn_mul at 1. rewrite BN_mul_law, Hw.
  set (K := kernel_prefix _ _ _ _ _). case_bool_decide as Hs; unfold solves in Hs.
  - rewrite (proj2 (Z.ltb_ge _ _)) by lia. done.
  - rewrite (proj2 (Z.ltb_lt _ _)) by lia. done.
Qed.

(** The coins and the target of a search: no transaction is later than its block, and
    the largest target a coin can reach fits 256 bits *)
Record scannable (M : WalletMap) (now nBits : Z) : Prop := {
  scan_target : 0 <= bnval (bn_SetCompact nBits);
  scan_coin c t out x block n : may_mint net scrypt tree d header_at M now c t out x block n → 0 <= nValue out < 2 ^ 63 ∧ 0 <= nTime (wtx_tx t) <= blk_nTime block ∧
    blk_nTime block + nStakeMinAge net < 2 ^ 32 ∧ bnval (bn_SetCompact nBits) * nValue out * nStakeMaxAge / COIN / nOneDay < 2 ^ 256
}.

Context (M : WalletMap) (now nBits : Z) (SC : scannable M now nBits).
Abbreviation entry := (mints net scrypt tree d header_at M now).
Abbreviation found_at c t := (kernel_check M nBits c t).

(** One coin: the backward search finds the latest time at which the check accepts *)
Lemma entry_scan fShutdown c e first last : entry c e → (∀ t, fShutdown t = false) → nMaxStakeSearchInterval <= now < 2 ^ 32 →
  now - nMaxStakeSearchInterval <= first <= last → last < 2 ^ 32 →
  ∃ r, ScanKernelBackward net fShutdown (ms_kernel e) nBits (ms_nTime e) (i64 (ms_nAmount e)) (last, first) = Some r ∧
    match r with
    | Some (h, t) => first < t <= last ∧ (∃ tp, found_at c t = Some (true, h, tp))
    | None => ∀ t, first < t <= last → ∃ h tp, found_at c t = Some (false, h, tp)
    end.
Proof.
  intros (tx & out & x & block & n & Hm & ->) Hsd Hnow Hf Hl. destruct (scan_coin _ _ _ SC _ _ _ _ _ _ Hm) as (Hv & Ht & Hb & Htarget).
  pose proof (minage_range net) as Hmin.
  assert (Ha : i64 (ms_nAmount (midstate_of c (wtx_tx tx) out x block n)) = nValue out).
  { cbn [ms_nAmount midstate_of]. unfold i64, u64. rewrite (Z.mod_small (nValue out)) by lia. rewrite Z.mod_small by lia. lia. }
  rewrite Ha. destruct Hm as [Et Eo _ Ex Eb Hage (hm & sm & Hmod)]. rewrite !u32_small in Hage by (unfold nMaxStakeSearchInterval in *; lia).
  assert (Hcheck : ∀ t, first < t <= last → ∃ tp, found_at c t = Some (bool_decide (solves net (ms_kernel (midstate_of c (wtx_tx tx) out x block n)) nBits (nTime (wtx_tx tx)) (nValue out) t),
    kernel_hash (ms_kernel (midstate_of c (wtx_tx tx) out x block n)) t, tp)).
  { intros t Ht'. unfold kernel_check. rewrite Et, Ex. cbn [fmap option_fmap option_map mbind option_bind]. rewrite Eb. cbn [mbind option_bind].
    apply (kernel_verdict nBits block x (wtx_tx tx) c out n hm sm t); try done; try lia.
    rewrite u32_small by lia. lia. }
  destruct (ScanKernelBackward_ok net fShutdown (ms_kernel (midstate_of c (wtx_tx tx) out x block n)) nBits (nTime (wtx_tx tx)) (nValue out) first last) as (r & Hr & Hres);
    [lia|lia|apply (scan_target _ _ _ SC)|done|done|unfold nMaxStakeSearchInterval in *; lia|done|].
  exists r. split; [exact Hr|]. destruct r as [[h t]|].
  - destruct Hres as (Hin & -> & Hs & _). split; [done|]. destruct (Hcheck t Hin) as (tp & ->). exists tp. by rewrite bool_decide_eq_true_2.
  - intros t Hin. destruct (Hcheck t Hin) as (tp & ->). do 2 eexists. rewrite bool_decide_eq_false_2; [done|]. by apply Hres.
Qed.

(** All coins, in the order of the map *)
Lemma scan_entries_ok fShutdown l first last : Forall (λ x, entry x.1 x.2) l → (∀ t, fShutdown t = false) → nMaxStakeSearchInterval <= now < 2 ^ 32 →
  now - nMaxStakeSearchInterval <= first <= last → last < 2 ^ 32 →
  ∃ r, scan_entries net fShutdown nBits (last, first) l = Some r ∧
    match r with
    | Some (c, (h, t)) => (∃ e, (c, e) ∈ l) ∧ first < t <= last ∧ (∃ tp, found_at c t = Some (true, h, tp))
    | None => ∀ c e t, (c, e) ∈ l → first < t <= last → ∃ h tp, found_at c t = Some (false, h, tp)
    end.
Proof.
  intros Hl Hsd Hnow Hf Hlast. induction Hl as [|[c e] l He Hl IH]; cbn [scan_entries].
  { eexists. split; [done|]. by intros c e t ?%not_elem_of_nil. }
  destruct (entry_scan fShutdown c e first last He Hsd Hnow Hf Hlast) as (r & -> & Hr). cbn [mbind option_bind]. destruct r as [[h t]|].
  - eexists. split; [done|]. split; [exists e; apply elem_of_cons; by left|done].
  - destruct IH as (r & -> & Hres). exists r. split; [done|]. destruct r as [[c' [h t]]|].
    + destruct Hres as ((e' & Hin) & Hres). split; [exists e'; apply elem_of_cons; by right|done].
    + intros c' e' t [[= -> ->]|Hin]%elem_of_cons; [apply Hr|by eapply Hres].
Qed.
End scanning.

Section found.
Context {BN : OpenSSL_BN} {BNok : OpenSSL_BN_ok BN} {DG : Digests} {DGok : DigestsOk} {C : OpenSSL_EC} {E : EVP} {CH : Choices} {CHok : ChoicesOk}.
Context (net : bool) (scrypt : list Z → base_uint) (nCoinbaseMaturity : Z) (fConfChange : bool) (mine : KeyStore → list Z → isminetype) (nReserveBalance : Z).
Context (tree : BlockMap) (d : Disk) (header_at : Z → Z → option CBlock) (fShutdown : Z → bool) (Hsd : ∀ t, fShutdown t = false).
Abbreviation fill := (FillMap net scrypt nCoinbaseMaturity fConfChange mine nReserveBalance tree d header_at).
Abbreviation mint M now := (mints net scrypt tree d header_at M now).
Abbreviation check M nBits := (kernel_check net scrypt tree d header_at M nBits).

(** What a filled map holds *)
Lemma FillMap_ok v T nUpper k w s w' s' : wallet_ok w → fill v T nUpper k w s = Some (true, w', s') →
  same_map (mapWallet w) (mapWallet w') ∧ keys_ok (mapWallet w') ∧ nLastCoinStakeSearchTime s' = nLastCoinStakeSearchTime s ∧ nStakeInputsMapSize s' = Z.of_nat (size (inputsMap s')) ∧
  ∃ nBalance setCoins n, nReserveBalance < nBalance ∧
    SelectCoinsSimple nCoinbaseMaturity (mine (kw_store k)) v (mapWallet w') (i64 (nBalance - nReserveBalance)) MIN_TX_FEE MAX_MONEY nUpper (nCoinbaseMaturity * 10) = Some (setCoins, n) ∧
    ∀ c e, inputsMap s' !! c = Some e ↔ inputsMap s !! c = Some e ∨ (inputsMap s !! c = None ∧ c ∈ setCoins ∧ mint (mapWallet w') (u32 T) c e).
Proof.
  intros W. unfold FillMap. intros ([nBalance w1] & Eb & H)%bind_Some. destruct (balance_same _ _ _ _ _ _ _ _ Eb W) as (W1 & Hs & _).
  destruct (Z.leb_spec nBalance nReserveBalance); [done|]. apply bind_Some in H as ([setCoins n] & Es & H). case_bool_decide; [done|].
  apply bind_Some in H as (m & Em & [= <- <-]). assert (K : keys_ok (mapWallet w1)) by apply W1. do 2 (split; [done|]). do 2 (split; [done|]).
  exists nBalance, setCoins, n. split; [lia|]. split; [done|]. intros c e. cbn [inputsMap with_inputsMap]. rewrite (fill_coins_ok _ _ _ _ _ _ _ _ K _ _ Em).
  by rewrite (ch_order_ok setCoins), elem_of_elements.
Qed.

Lemma search_interval_ok T nLast : 0 <= nLast < T → T < 2 ^ 32 → search_interval T nLast = (T, Z.max nLast (T - nMaxStakeSearchInterval)).
Proof. intros H1 H2. unfold search_interval, nMaxStakeSearchInterval. rewrite (u32_small (T - nLast)) by lia. rewrite u32_small by lia. f_equal. lia. Qed.

End found.

(** ** The coinstake *)

Lemma coinage_prevouts {BN : OpenSSL_BN} net d t v1 : ∀ v2 b, prevout <$> v1 = prevout <$> v2 → coinage_loop net d t v1 b = coinage_loop net d t v2 b.
Proof.
  induction v1 as [|i v1 IH]; intros [|i' v2] b; cbn [fmap list_fmap]; try done. intros [= Hi Hv]. cbn [coinage_loop]. rewrite Hi.
  destruct (ReadFromDisk d (prevout i')) as [[tx x]|]; [|by apply IH]. destruct (_ <? _); [done|]. destruct (block_time_at _ _ _); [|done]. cbn [mbind option_bind].
  destruct (_ >? _); [by apply IH|]. destruct (bn_div _ _); [|done]. cbn [mbind option_bind]. by apply IH.
Qed.
Lemma CoinAge_prevouts {BN : OpenSSL_BN} net d (t1 t2 : CTransaction) : IsCoinBase t1 = IsCoinBase t2 → nTime t1 = nTime t2 → prevout <$> vin t1 = prevout <$> vin t2 →
  GetCoinAge net d t1 = GetCoinAge net d t2.
Proof. intros Hc Ht Hv. unfold GetCoinAge. by rewrite Hc, Ht, (coinage_prevouts net d _ _ (vin t2) _ Hv). Qed.
Lemma StakeReward_range {BN : OpenSSL_BN} net age nBits t r : GetProofOfStakeReward net age nBits t false = Some r → - 2 ^ 50 <= r <= 10 * COIN.
Proof.
  unfold GetProofOfStakeReward. intros ([? u] & _ & H)%bind_Some. injection H as <-. split; [|lia]. apply Z.min_glb; [|done].
  set (x := i64 _ * 33). unfold i64. pose proof (Z.mod_pos_bound (x + 2 ^ 63) (2 ^ 64) ltac:(done)) as Hx. set (y := (x + 2 ^ 63) mod 2 ^ 64 - 2 ^ 63) in *.
  change (365 * 33 + 8) with 12053. pose proof (Z.quot_le_mono (- 2 ^ 63) y 12053 ltac:(lia) ltac:(unfold y; lia)) as Hq. etransitivity; [|exact Hq]. vm_compute. congruence.
Qed.

Section inputs.
Context {BN : OpenSSL_BN} {DG : Digests} {DGok : DigestsOk} (net : bool) (M : WalletMap).
Context (Hkeys : keys_ok M) (Hvalues : ∀ h t, M !! h = Some t → Forall (λ o, 0 <= nValue o < 2 ^ 50) (vout (wtx_tx t))).

(** The value of the coins of a coinstake *)
Definition worth (coins : list Coin) : Z := zsum (map (λ c, default 0 (coin_value M c)) coins).
(** A coin that pays to the key of the kernel *)
Definition same_key (hashTx : base_uint) (scriptKernel scriptOut : list Z) (c : Coin) : Prop :=
  c.1 = hashTx ∧ ∃ t out, M !! c.1 = Some t ∧ vout (wtx_tx t) !! Z.to_nat c.2 = Some out ∧ (scriptPubKey out = scriptKernel ∨ scriptPubKey out = scriptOut).
Record staked_ok (hashTx : base_uint) (nOut : Z) (scriptKernel scriptOut : list Z) (s : Staked) : Prop := {
  so_vin : prevout <$> sk_vin s = (λ c : Coin, mkOutPoint c.1 c.2) <$> sk_coins s;
  so_first : head (sk_coins s) = Some (hashTx, nOut);
  so_coins : Forall (same_key hashTx scriptKernel scriptOut) (sk_coins s);
  so_credit : sk_nCredit s = worth (sk_coins s);
  so_range : 0 <= worth (sk_coins s) <= Z.of_nat (length (sk_coins s)) * 2 ^ 50;
  so_length : (length (sk_coins s) <= 100)%nat
}.

Lemma worth_snoc l c : worth (l ++ [c]) = worth l + default 0 (coin_value M c).
Proof. unfold worth. rewrite map_app, zsum_app. unfold zsum. cbn. lia. Qed.
Lemma coin_range c n : coin_value M c = Some n → 0 <= n < 2 ^ 50.
Proof.
  intros (t & Et & (o & Eo & ->)%fmap_Some)%bind_Some. pose proof (Hvalues _ _ Et) as H. apply (Forall_lookup_1 _ _ _ _ H) in Eo. apply Eo.
Qed.

Lemma combine_ok gen limit threshold sk so hashTx nOut coins : ∀ s s', staked_ok hashTx nOut sk so s → combine_inputs net M gen limit threshold sk so hashTx coins s = Some s' →
  staked_ok hashTx nOut sk so s'.
Proof.
  induction coins as [|c coins IH]; intros s s' S; cbn [combine_inputs]; [by intros [= <-]|]. destruct (Nat.leb_spec 100 (length (sk_vin s))) as [|Hl]; [by intros [= <-]|].
  destruct (_ >? _); [by intros [= <-]|]. intros (t & Et & (out & Eo & H)%bind_Some)%bind_Some. destruct (_ >? limit); [by injection H as <-|].
  destruct (_ <? _); [by eapply IH|]. destruct (negb _ && negb _) eqn:Esc; [by eapply IH|]. destruct (bu_eq _ _) eqn:Eh; [|by eapply IH]. cbn [negb] in H.
  destruct (_ >? threshold); [by eapply IH|]. eapply IH; [|exact H]. pose proof (Hkeys _ _ Et) as Hk. cbn in Hk. destruct S as [S1 S2 S3 S4 S5 S6].
  assert (Hw : ∃ t0, M !! hashTx = Some t0) by (destruct (sk_coins s) as [|c0 l]; [done|]; injection S2 as ->; apply Forall_cons in S3 as [(_ & t0 & _ & ? & _) _]; eauto).
  destruct Hw as [t0 Et0]. pose proof (Hkeys _ _ Et0) as Hk0. cbn in Hk0. rewrite <- Hk0 in Eh. apply bu_eq_wf in Eh; [|apply Hash_wf..]. rewrite Hk, Hk0 in Eh.
  assert (Hlen : length (sk_vin s) = length (sk_coins s)) by (apply (f_equal length) in S1; by rewrite !length_fmap in S1).
  assert (Ev : coin_value M c = Some (nValue out)) by (unfold coin_value; rewrite Et; cbn [mbind option_bind]; by rewrite Eo).
  pose proof (coin_range _ _ Ev) as Hr.
  split; cbn [sk_vin sk_coins sk_nCredit add_input].
  - rewrite !fmap_app, S1. cbn [fmap list_fmap prevout]. by rewrite Hk.
  - destruct (sk_coins s); [done|exact S2].
  - apply Forall_app. split; [done|]. constructor; [|constructor]. split; [done|]. exists t, out. split; [done|]. split; [done|].
    destruct (bool_decide_reflect (scriptPubKey out = sk)); [by left|]. destruct (bool_decide_reflect (scriptPubKey out = so)); [by right|done].
  - rewrite worth_snoc, Ev, S4. cbn [default from_option id]. apply i64_small. lia.
  - rewrite worth_snoc, Ev, length_app. cbn [default from_option length id]. lia.
  - rewrite length_app. cbn [length]. lia.
Qed.
End inputs.

(** The script of the stake pays to the key that is returned *)
Lemma kernel_key_ok {BN : OpenSSL_BN} {DG : Digests} {C : OpenSSL_EC} {Cok : OpenSSL_EC_ok C} {E : EVP} s script key out : kernel_key s script = Some (Some (key, out)) → key_ok key →
  ∃ sols, Solver out = (true, TX_PUBKEY, sols) ∧ CPubKey_Set (nth 0 sols []) = key_GetPubKey key.
Proof.
  unfold kernel_key. intros H Hk. destruct (Solver script) as [[ok ty] sols] eqn:Es. destruct ok; [|done]. cbn [negb] in H. destruct ty; try done.
  - apply bind_Some in H as ([key'|] & _ & H); [|done]. cbn [mbind option_bind] in H. injection H as H. case_bool_decide as Hp; [|done]. injection H as <- <-. by exists sols.
  - apply bind_Some in H as ([key'|] & _ & H); [|done]. cbn [mbind option_bind] in H. injection H as -> <-.
    destruct (point_pubkey _ (key_compressed key) (key_point_ok _ Hk)) as (H1 & _ & H2 & _). rewrite (key_pubkey key Hk). set (pk := EC_point2oct _ _) in *.
    exists [pk]. split; [|exact H1]. apply Solver_complete. assert (Hl : key_size pk = true) by (unfold key_size; rewrite H2; by destruct (key_compressed key)).
    assert (Hs : Z.of_nat (length pk) < 2 ^ 32) by (rewrite H2; by destruct (key_compressed key)).
    eapply form_pubkey; [|exact Hl]. econstructor; [exact (GetOp_push_vector pk [OP_CHECKSIG] Hs)|]. econstructor; [reflexivity|constructor].
Qed.
(** A block that is signed with it passes the check of the block signature *)
Lemma signed_block {BN : OpenSSL_BN} {DG : Digests} {C : OpenSSL_EC} {Cok : OpenSSL_EC_ok C} scrypt b key sols : key_ok key → wf W256 (blk_GetHash scrypt b) → key_Sign key (blk_GetHash scrypt b) = Some (vchBlockSig b) →
  Solver (scriptPubKey (nth 1 (vout (nth 1 (vtx b) (mkTx 0 0 [] [] 0))) CTxOut_SetNull)) = (true, TX_PUBKEY, sols) → CPubKey_Set (nth 0 sols []) = key_GetPubKey key →
  CheckBlockSignature scrypt pubkey_Verify b = true.
Proof.
  intros Hk Hw Hs Es Hp. destruct (key_Sign_ok key _ Hk Hw) as (sig & Es' & Hv & Hh & _). rewrite Hs in Es'. injection Es' as <-.
  unfold CheckBlockSignature. case_bool_decide as He; [by rewrite He in Hh|]. rewrite Es. cbn [negb]. rewrite bool_decide_eq_true_2 by done. rewrite Hp.
  destruct (point_pubkey _ (key_compressed key) (key_point_ok _ Hk)) as (_ & H2 & _). rewrite (key_pubkey key Hk) in Hv |- *. by rewrite H2.
Qed.

Section fee_loop.
Context {BN : OpenSSL_BN} {DG : Digests} {C : OpenSSL_EC} {E : EVP} (nMaxCacheSize : Z) (random_entry : gset sigdata → sigdata).
Context (Hrandom : ∀ S, S ≠ ∅ → random_entry S ∈ S) (store : KeyStore) (M : WalletMap) (coins : list Coin) (split : bool) (script : list Z) (nCredit : Z).
Abbreviation loop := (stake_fee_loop nMaxCacheSize random_entry).

(** Every input is accepted for the output of the wallet it spends *)
Definition inputs_signed (tx : CTransaction) : Prop := ∀ j c, coins !! j = Some c → ∃ t i o, M !! c.1 = Some t ∧ vin tx !! j = Some i ∧
  vout (wtx_tx t) !! Z.to_nat (op_n (prevout i)) = Some o ∧ script_valid pubkey_Verify tx STRICT_FLAGS j (scriptPubKey o).
(** The coinstake of a turn that was the last *)
Record last_turn (tx0 tx : CTransaction) (fee : Z) : Prop := {
  lt_frame : nVersion tx = nVersion tx0 ∧ nTime tx = nTime tx0 ∧ nLockTime tx = nLockTime tx0;
  lt_vin : same_but_scripts (vin tx) (vin tx0);
  lt_vout : vout tx = stake_outs split script (i64 (nCredit - fee));
  lt_signed : inputs_signed tx;
  lt_size : GetSerializeSize tx < MAX_BLOCK_SIZE_GEN / 5;
  lt_fee : 0 <= GetMinFee tx 1 false GMF_BLOCK (GetSerializeSize tx) <= fee + CENT
}.

Lemma stake_outs_length n : (length (stake_outs split script n) <= 3)%nat.
Proof. unfold stake_outs. destruct split; cbn; lia. Qed.
Lemma stake_loop_ok fuel : ∀ j tx cache, 0 <= j < 1040 → (Z.to_nat (1040 - j) < fuel)%nat → cache_ok pubkey_Verify nMaxCacheSize cache →
  let r := loop fuel store M coins split script nCredit (MIN_TX_FEE * j) tx cache in
  r ≠ Exhausted ∧ ∀ tx' cache', r = Returned (Some (Some tx', cache')) → cache_ok pubkey_Verify nMaxCacheSize cache' ∧ ∃ fee, 0 <= fee <= MIN_TX_FEE * 1040 ∧ last_turn tx tx' fee.
Proof.
  induction fuel as [|fuel IH]; intros j tx cache Hj Hfuel Hc r; [lia|]. unfold r. cbn [stake_fee_loop].
  set (tx0 := with_outs tx _). destruct (sign_inputs nMaxCacheSize random_entry store M coins 0 tx0 cache) as [[[ok tx1] c1]|] eqn:Es; [|done].
  destruct ok; [|done].
  destruct (sign_inputs_ok store nMaxCacheSize random_entry Hrandom _ _ _ _ _ _ _ Hc Es) as (Hc1 & _ & Ev & Et & El & Eo & Ei & Hall).
  destruct (Z.leb_spec (MAX_BLOCK_SIZE_GEN / 5) (GetSerializeSize tx1)) as [|Hsize]; [done|].
  assert (Hlen : (length (vout tx1) <= 2 + 1)%nat) by (rewrite Eo; apply stake_outs_length).
  pose proof (GetSerializeSize_range tx1) as Hrange.
  destruct (MinFee_values 0 2 ltac:(done) ltac:(done) tx1 false (GetSerializeSize tx1) (conj (proj1 Hrange) Hsize) Hlen) as (j' & Hj' & Ef). change (GetMinFee tx1 1 false GMF_SEND) with (GetMinFee tx1 1 false GMF_BLOCK) in Ef.
  change (10 * (102 + Z.of_nat 2)) with 1040 in Hj'. assert (HM : MIN_TX_FEE = 1000) by done. assert (HC : CENT = MIN_TX_FEE * 10) by done.
  rewrite Ef, HC. replace (MIN_TX_FEE * j' - MIN_TX_FEE * 10) with (MIN_TX_FEE * (j' - 10)) by lia. rewrite i64_small by nia. destruct (Z.ltb_spec (MIN_TX_FEE * j) (MIN_TX_FEE * (j' - 10))) as [Hlt|Hge].
  - destruct (IH (j' - 10) tx1 c1) as [Hend Hres]; [nia|nia|done|]. split; [exact Hend|]. intros tx' cache' Hr. destruct (Hres _ _ Hr) as (Hc' & fee & Hfee & [F1 F2 F3 F4 F5 F6]). split; [done|]. exists fee. split; [done|]. destruct F1 as (? & ? & ?). split; try done.
    + cbn [nVersion nTime nLockTime with_outs tx0] in *. split; [congruence|]. split; congruence.
    + unfold same_but_scripts in *. by rewrite F2, Ei.
  - split; [done|]. intros tx' cache' [= <- <-]. split; [done|]. exists (MIN_TX_FEE * j). split; [nia|]. split; try done.
    + intros k c Hk. destruct (Hall k c Hk) as (t & i & o & H1 & H2 & H3 & H4). apply prevouts_kept in Ei. assert (Hi : (prevout <$> vin tx1) !! k = Some (prevout i)) by (rewrite Ei, list_lookup_fmap; change (0 + k)%nat with k in H2; by rewrite H2).
      rewrite list_lookup_fmap in Hi. apply fmap_Some in Hi as (i' & Hi' & Hp). exists t, i', o. by rewrite <- Hp.
    + rewrite Ef, HC. nia.
Qed.
End fee_loop.

Section made.
Context {BN : OpenSSL_BN} {DG : Digests} {DGok : DigestsOk} {C : OpenSSL_EC} {Cok : OpenSSL_EC_ok C} {E : EVP} {CH : Choices} {CHok : ChoicesOk}.
Context (net : bool) (nCoinbaseMaturity : Z) (fConfChange : bool) (mine : KeyStore → list Z → isminetype) (nReserveBalance nMaxCacheSize : Z).
Context (random_entry : gset sigdata → sigdata) (d : Disk) (split_arg : option Z) (scrypt : list Z → base_uint).
Abbreviation stake := (CreateCoinStake net nCoinbaseMaturity fConfChange mine nReserveBalance nMaxCacheSize random_entry d split_arg).
Context (Hrandom : ∀ S, S ≠ ∅ → random_entry S ∈ S).

Lemma stake_total split script n : - 2 ^ 62 < n < 2 ^ 62 → total (stake_outs split script n) = n.
Proof.
  intros Hn. unfold stake_outs. destruct split; cbn [total foldr nValue CTxOut_SetEmpty]; [lia|].
  assert (Hh : - 2 ^ 62 < Z.quot (Z.quot n 2) CENT * CENT < 2 ^ 62) by (unfold CENT; Z.to_euclidean_division_equations; lia).
  rewrite (i64_small (Z.quot _ _ * _)) by lia. rewrite i64_small; [lia|]. unfold CENT in *. Z.to_euclidean_division_equations. lia.
Qed.
Lemma same_map_tx (M M1 : WalletMap) h t1 : same_map M M1 → M1 !! h = Some t1 → ∃ t, M !! h = Some t ∧ wtx_tx t1 = wtx_tx t.
Proof. intros Hs%same_map_updates E1. destruct (updates_lookup _ _ _ _ _ Hs E1) as (t & Et & Hp). exists t. split; [done|]. by rewrite <- (core_tx _ _ (persist_core _ _ Hp)). Qed.

Lemma same_map_has (M M1 : WalletMap) h t : same_map M M1 → M !! h = Some t → ∃ t1, M1 !! h = Some t1 ∧ wtx_tx t1 = wtx_tx t.
Proof.
  intros Hs Et. assert (Hp : (persist <$> M1) !! h = Some (persist t)) by (rewrite Hs, lookup_fmap, Et; done). rewrite lookup_fmap in Hp. apply fmap_Some in Hp as (t1 & E1 & Hp).
  exists t1. split; [done|]. symmetry. apply (core_tx t1 t), persist_core. done.
Qed.

(** What a coinstake promises: [coins] are the coins it spends *)
Record coinstake_ok (M : WalletMap) (hashTx : base_uint) (nOut nGenerationTime nBits : Z) (kernel : CTxOut) (key : CKey) (tx : CTransaction) (coins : list Coin) : Prop := {
  cs_stake : IsCoinStake tx = true;
  cs_time : nTime tx = nGenerationTime;
  cs_coins : prevout <$> vin tx = (λ c : Coin, mkOutPoint c.1 c.2) <$> coins;
  cs_kernel : head coins = Some (hashTx, nOut);
  cs_signed : inputs_signed M coins tx;
  cs_young t : M !! hashTx = Some t → GetWeight net (nTime (wtx_tx t)) nGenerationTime ≠ nStakeMaxAge → coins = [(hashTx, nOut)];
  cs_size : GetSerializeSize tx < MAX_BLOCK_SIZE_GEN / 5;
  (** one script, which pays to the key; every coin pays to it or as the kernel does *)
  cs_script : ∃ script sols, Solver script = (true, TX_PUBKEY, sols) ∧ CPubKey_Set (nth 0 sols []) = key_GetPubKey key ∧
    (∃ outs, vout tx = CTxOut_SetEmpty :: outs ∧ outs ≠ [] ∧ Forall (λ o, scriptPubKey o = script) outs) ∧
    Forall (same_key M hashTx (scriptPubKey kernel) script) coins;
  (** the outputs are the coins with the reward without the fee, which is what the size asks for *)
  cs_reward : ∃ nCoinAge nReward nFee, GetCoinAge net d tx = Some nCoinAge ∧ GetProofOfStakeReward net (i64 nCoinAge) nBits nGenerationTime false = Some nReward ∧
    0 <= nFee <= MIN_TX_FEE * 1040 ∧ 0 <= GetMinFee tx 1 false GMF_BLOCK (GetSerializeSize tx) <= nFee + CENT ∧ total (vout tx) = worth M coins + nReward - nFee
}.

(** The node's own check of the reward *)
Lemma stake_reward_ok M hashTx nOut gen nBits kernel key tx coins b chain : coinstake_ok M hashTx nOut gen nBits kernel key tx coins → bi_nBits b = nBits →
  stake_ok net d tx (b :: chain) (worth M coins).
Proof.
  intros K Hb. destruct (cs_reward _ _ _ _ _ _ _ _ _ K) as (age & r & fee & Ha & Hr & Hf0 & Hf & Ht). exists age, r. split; [done|]. split; [by rewrite Hb, (cs_time _ _ _ _ _ _ _ _ _ K)|].
  pose proof (StakeReward_range _ _ _ _ _ Hr) as Hrr.
  rewrite Ht. set (m := GetMinFee _ _ _ _ _) in *. change MIN_TX_FEE with 1000 in *. unfold CENT, COIN in *. rewrite (i64_small (r - m)) by lia. rewrite i64_small by lia. lia.
Qed.

Lemma draft_ok v chain k w hashTx nOut gen nBits t kernel scriptOut txNew dr w' : wallet_ok w → (∀ h t, mapWallet w !! h = Some t → Forall (λ o, 0 <= nValue o < 2 ^ 50) (vout (wtx_tx t))) →
  mapWallet w !! hashTx = Some t → vout (wtx_tx t) !! Z.to_nat nOut = Some kernel →
  draft_stake net nCoinbaseMaturity fConfChange mine nReserveBalance d split_arg v chain k w hashTx nOut gen nBits (wtx_tx t) kernel scriptOut txNew = Some (dr, w') →
  wallet_ok w' ∧ same_map (mapWallet w) (mapWallet w') ∧ ∀ x, dr = Some x → ∃ st nCoinAge nReward, staked_ok (mapWallet w') hashTx nOut (scriptPubKey kernel) scriptOut st ∧
    sd_tx x = mkTx (nVersion txNew) gen (sk_vin st) (stake_outs (fDontSplitCoins x) scriptOut 0) (nLockTime txNew) ∧ sd_coins x = sk_coins st ∧
    GetCoinAge net d (sd_tx x) = Some nCoinAge ∧ GetProofOfStakeReward net (i64 nCoinAge) nBits gen false = Some nReward ∧ sd_nCredit x = worth (mapWallet w') (sk_coins st) + nReward ∧
    (GetWeight net (nTime (wtx_tx t)) gen ≠ nStakeMaxAge → sk_coins st = [(hashTx, nOut)]).
Proof.
  intros W Hval Et Ek. unfold draft_stake. intros (pow & _ & ([nBalance w1] & Eb & H)%bind_Some)%bind_Some. destruct (balance_same _ _ _ _ _ _ _ _ Eb W) as (W1 & Hs & _).
  apply bind_Some in H as ([setCoins n] & _ & H). case_bool_decide; [by injection H as <- <-|]. set (first := mkStaked _ _ _) in *.
  assert (Hval1 : ∀ h t, mapWallet w1 !! h = Some t → Forall (λ o, 0 <= nValue o < 2 ^ 50) (vout (wtx_tx t))).
  { intros h t1 E1. destruct (same_map_tx _ _ _ _ Hs E1) as (t2 & E2 & ->). by eapply Hval. }
  destruct (same_map_has _ _ _ _ Hs Et) as (t1 & Et1 & Etx).
  assert (Ev : coin_value (mapWallet w1) (hashTx, nOut) = Some (nValue kernel)) by (unfold coin_value; cbn [fst snd]; rewrite Et1; cbn [mbind option_bind]; by rewrite Etx, Ek).
  pose proof (coin_range _ Hval1 _ _ Ev) as Hr. assert (Hw1 : worth (mapWallet w1) [(hashTx, nOut)] = nValue kernel) by (unfold worth, zsum; cbn [map foldr]; rewrite Ev; cbn; lia).
  assert (Hfirst : staked_ok (mapWallet w1) hashTx nOut (scriptPubKey kernel) scriptOut first).
  { split; cbn [sk_vin sk_coins sk_nCredit first]; try done; [|rewrite Hw1; cbn; lia|cbn; lia]. constructor; [|constructor]. split; [done|]. exists t1, kernel. cbn [fst snd]. rewrite Etx. auto. }
  apply bind_Some in H as (st & Est & H). assert (Hst : staked_ok (mapWallet w1) hashTx nOut (scriptPubKey kernel) scriptOut st ∧ (GetWeight net (nTime (wtx_tx t)) gen ≠ nStakeMaxAge → sk_coins st = [(hashTx, nOut)])).
  { destruct (Z.eqb_spec (GetWeight net (nTime (wtx_tx t)) gen) nStakeMaxAge); [|by injection Est as <-]. split; [|done]. eapply combine_ok; [apply W1|exact Hval1|exact Hfirst|exact Est]. }
  destruct Hst as [Hst Hyoung]. set (tx := mkTx _ _ _ _ _) in H. destruct (GetCoinAge net d tx) as [age|] eqn:Ea; [|by injection H as <- <-].
  apply bind_Some in H as (r & Er & [= <- <-]). split; [done|]. split; [done|]. intros x [= <-]. exists st, age, r. split; [done|]. split; [done|]. split; [done|]. split; [done|]. split; [done|].
  split; [|done]. cbn [sd_nCredit]. pose proof (StakeReward_range _ _ _ _ _ Er). destruct Hst as [_ _ _ -> Hrange Hlen]. apply i64_small. unfold COIN in *. lia.
Qed.

(** The output a coin spends *)
Definition coin_script (M : WalletMap) (hashTx : base_uint) (nOut : Z) : option CTxOut := t ← M !! hashTx; vout (wtx_tx t) !! Z.to_nat nOut.
Lemma kernel_key_store s script key out : (∀ id key, store_GetKey s id = Some (Some key) → key_ok key) → kernel_key s script = Some (Some (key, out)) → key_ok key.
Proof.
  intros Hs. unfold kernel_key. destruct (Solver script) as [[ok ty] sols]. destruct ok; [|done]. cbn [negb]. destruct ty; try done; intros ([key'|] & Hk & H)%bind_Some; try done; cbn [mbind option_bind] in H.
  - injection H as H. case_bool_decide; [|done]. injection H as <- _. by eapply Hs.
  - injection H as <- _. by eapply Hs.
Qed.

(** The coinstake of the last turn *)
Lemma made_stake v chain k w hashTx nOut gen nBits t kernel key scriptOut txNew x w' tx fee : wallet_ok w →
  (∀ h t, mapWallet w !! h = Some t → Forall (λ o, 0 <= nValue o < 2 ^ 50) (vout (wtx_tx t))) →
  mapWallet w !! hashTx = Some t → vout (wtx_tx t) !! Z.to_nat nOut = Some kernel → kernel_key (kw_store k) (scriptPubKey kernel) = Some (Some (key, scriptOut)) → key_ok key →
  COutPoint_IsNull (mkOutPoint hashTx nOut) = false →
  draft_stake net nCoinbaseMaturity fConfChange mine nReserveBalance d split_arg v chain k w hashTx nOut gen nBits (wtx_tx t) kernel scriptOut txNew = Some (Some x, w') →
  0 <= fee <= MIN_TX_FEE * 1040 → last_turn (mapWallet w') (sd_coins x) (fDontSplitCoins x) scriptOut (sd_nCredit x) (sd_tx x) tx fee →
  coinstake_ok (mapWallet w') hashTx nOut gen nBits kernel key tx (sd_coins x).
Proof.
  intros W Hval Et Ek Hkey Hok Hnull Hd Hfee [(Ev & Ent & El) Hvin Hvout Hsigned Hsize Hf].
  destruct (draft_ok _ _ _ _ _ _ _ _ _ _ _ _ _ _ W Hval Et Ek Hd) as (W' & Hs & Hx). destruct (Hx x eq_refl) as (st & age & r & [S1 S2 S3 S4 S5 S6] & Etx & Ec & Ea & Er & En & Hyoung).
  rewrite Ec in *. apply prevouts_kept in Hvin. rewrite Etx in Hvin, Ent. cbn [vin nTime] in Hvin, Ent.
  assert (Hp : prevout <$> vin tx = (λ c : Coin, mkOutPoint c.1 c.2) <$> sk_coins st) by congruence.
  destruct (sk_coins st) as [|c0 coins] eqn:Ecoins; [done|]. injection S2 as ->.
  assert (Hhead : ∃ i ins, vin tx = i :: ins ∧ prevout i = mkOutPoint hashTx nOut) by (destruct (vin tx) as [|i ins]; [done|]; injection Hp as Hi _; eauto). destruct Hhead as (i & ins & Evin & Ei).
  assert (Hcb : ∀ y : CTransaction, prevout <$> vin y = prevout <$> vin tx → IsCoinBase y = false).
  { intros y Hy. rewrite Evin in Hy. unfold IsCoinBase. destruct (vin y) as [|a [|b l]]; [done| |done]. injection Hy as Ha _. by rewrite Ha, Ei, Hnull. }
  set (n := i64 (sd_nCredit x - fee)) in *. assert (Hn : n = sd_nCredit x - fee ∧ - 2 ^ 62 < n < 2 ^ 62).
  { pose proof (StakeReward_range _ _ _ _ _ Er). change MIN_TX_FEE with 1000 in Hfee. unfold COIN in *. cbn [length] in *. unfold n. rewrite i64_small by lia. lia. }
  assert (Houts : ∃ outs, vout tx = CTxOut_SetEmpty :: outs ∧ outs ≠ [] ∧ Forall (λ o, scriptPubKey o = scriptOut) outs).
  { rewrite Hvout. unfold stake_outs. eexists. split; [done|]. destruct (fDontSplitCoins x); split; by repeat constructor. }
  split; try done.
  - destruct Houts as (outs & Eo & Hne & _). unfold IsCoinStake. rewrite Evin, Eo. destruct outs; [done|]. by rewrite Ei, Hnull.
  - intros t1 E1 Hage. apply Hyoung. destruct (same_map_tx _ _ _ _ Hs E1) as (t2 & E2 & Heq). rewrite Et in E2. injection E2 as <-. by rewrite <- Heq.
  - destruct (kernel_key_ok _ _ _ _ Hkey Hok) as (sols & Hsol & Hpk). by exists scriptOut, sols.
  - exists age, r, fee. split; [|split; [done|]].
    + rewrite <- Ea. apply CoinAge_prevouts; [|by rewrite Etx|rewrite Etx; exact Hvin]. rewrite !Hcb; [done|rewrite Etx; symmetry; exact Hvin|done].
    + split; [done|]. split; [done|]. rewrite Hvout, stake_total by apply Hn. lia.
Qed.

(** C25. [CreateCoinStake] ends: the fee grows only within a bounded list of values.
    Whatever it answers, the wallet keeps its transactions.  A coinstake it made is one,
    at the time that was asked for, with the kernel as its first input and further
    inputs only for a kernel of the full age; every input is accepted under the
    strictest flags for the output it spends; the outputs after the marker pay to the
    key that is returned, exactly the value of the coins with the reward and without
    a fee that covers what the size asks for, so that the node that connects it in a
    block of this target finds the reward in order; and a block with it that is signed
    with that key passes the check of the block signature. *)
Theorem CreateCoinStake_ok v chain k w hashTx nOut gen nBits txNew cache : wallet_ok w →
  (∀ h t, mapWallet w !! h = Some t → Forall (λ o, 0 <= nValue o < 2 ^ 50) (vout (wtx_tx t))) → (∀ id key, store_GetKey (kw_store k) id = Some (Some key) → key_ok key) →
  COutPoint_IsNull (mkOutPoint hashTx nOut) = false → cache_ok pubkey_Verify nMaxCacheSize cache →
  let r := stake v chain k w hashTx nOut gen nBits txNew cache in
  r ≠ Exhausted ∧ ∀ res w' cache', r = Returned (Some (res, w', cache')) → same_map (mapWallet w) (mapWallet w') ∧
    ∀ tx key, res = Some (tx, key) → cache_ok pubkey_Verify nMaxCacheSize cache' ∧ ∃ kernel coins, coin_script (mapWallet w) hashTx nOut = Some kernel ∧
      coinstake_ok (mapWallet w') hashTx nOut gen nBits kernel key tx coins ∧
      (∀ b chain', bi_nBits b = nBits → stake_ok net d tx (b :: chain') (worth (mapWallet w') coins)) ∧
      ∀ b, vtx b !! 1%nat = Some tx → wf W256 (blk_GetHash scrypt b) → key_Sign key (blk_GetHash scrypt b) = Some (vchBlockSig b) →
        CheckBlockSignature scrypt pubkey_Verify b = true.
Proof.
  intros W Hval Hks Hnull Hc r. unfold r, CreateCoinStake. clear r. destruct (mapWallet w !! hashTx) as [t|] eqn:Et; [|split; [done|]; by intros res w' cache' [= <- <- <-]].
  destruct (vout (wtx_tx t) !! Z.to_nat nOut) as [kernel|] eqn:Ek; [|done]. cbn [mbind option_bind].
  destruct (kernel_key (kw_store k) (scriptPubKey kernel)) as [[[key scriptOut]|]|] eqn:Ekey; cbn [mbind option_bind]; [|split; [done|]; by intros res w' cache' [= <- <- <-]|done].
  destruct (draft_stake _ _ _ _ _ _ _ _ _ _ _ _ _ _ _ _ _ _ _) as [[dr w1]|] eqn:Ed; [|done]. destruct (draft_ok _ _ _ _ _ _ _ _ _ _ _ _ _ _ W Hval Et Ek Ed) as (W1 & Hs & _).
  destruct dr as [x|]; [|split; [done|]; by intros res w' cache' [= <- <- <-]].
  destruct (stake_loop_ok nMaxCacheSize random_entry Hrandom (kw_store k) (mapWallet w1) (sd_coins x) (fDontSplitCoins x) scriptOut (sd_nCredit x) stake_fuel 0 (sd_tx x) cache) as [Hend Hres]; [done|unfold stake_fuel; lia|done|].
  change (MIN_TX_FEE * 0) with 0 in Hend, Hres. destruct (stake_fee_loop _ _ _ _ _ _ _ _ _ _ _ _) as [|[[tx c]|]]; [done| |done]. split; [done|].
  intros res w' cache' [= <- <- <-]. split; [done|]. destruct tx as [tx|]; [|done]. intros tx' key' [= <- <-]. destruct (Hres tx c eq_refl) as (Hc' & fee & Hfee & Hlast). split; [done|].
  assert (Hok : key_ok key) by (by eapply kernel_key_store). exists kernel, (sd_coins x). split; [unfold coin_script; rewrite Et; exact Ek|].
  pose proof (made_stake _ _ _ _ _ _ _ _ _ _ _ _ _ _ _ _ _ W Hval Et Ek Ekey Hok Hnull Ed Hfee Hlast) as K. split; [done|]. split; [by intros; eapply stake_reward_ok|].
  intros b Hb Hw Hsig. destruct (cs_script _ _ _ _ _ _ _ _ _ K) as (script & sols & Hsol & Hpk & (outs & Eo & Hne & Hf) & _). apply (signed_block scrypt b key sols); try done.
  rewrite (nth_lookup_Some _ _ _ _ Hb), Eo. destruct outs as [|o outs]; [done|]. apply Forall_cons in Hf as [Ho _]. cbn [nth]. by rewrite Ho.
Qed.
End made.

(** ** A small wallet mints *)

#[local] Existing Instances mod_digests toy_curve toy_evp plain_choices plain_choices_ok.
#[local] Instance mod_digests_ok : DigestsOk.
Proof. split; intros x; cbn [SHA1 SHA256 RIPEMD160 mod_digests]; (split; [apply length_to_digits|apply to_digits_ok; lia]). Qed.
Definition block_at (nHeight : Z) (pprev pnext : option base_uint) (tx : CTransaction) : Node :=
  mkNode (mkIndex 1 0 nHeight 0 (replicate W256 0) 6 1400000050 0x1d00ffff) pprev pnext 0 0 0 0 COutPoint_SetNull 0 (replicate W256 0) (GetHash tx) 0.
(** The block of a transaction, and the best block *)
Definition view_of (tx : CTransaction) (adjustedTime : Z) : NodeView :=
  mkView (<[replicate W256 9 := block_at 10 None (Some (replicate W256 10)) tx]> {[replicate W256 10 := block_at 6000 (Some (replicate W256 9)) None tx]}) (Some (replicate W256 10)) 6000 adjustedTime (λ _, false).
Definition stake_disk : Disk := mkDisk {[GetHash income := CTxIndex_new (mkPos 1 100 200) 1]} (λ _, Some income) (λ _ _, Some 1400000000).
Definition stake_chain : list CBlockIndex := [mkIndex 1 0 0 0 (replicate W256 0) 6 1400000050 0x1d00ffff].
Abbreviation staking := (CreateCoinStake false 500 true mine_of 0 10 first_entry stake_disk None (view_of income 1403456000) stake_chain toy_keys income_wallet (GetHash income) 0 1403456000 0x1c00ffff (mkTx 1 0 [] [] 0) ∅).
Definition stake_made (r : Looped (option (CTransaction * CKey) * Wallet * gset sigdata)) : bool := match r with Returned (Some (Some _, _, _)) => true | _ => false end.
Definition stake_parts (r : Looped (option (CTransaction * CKey) * Wallet * gset sigdata)) : CTransaction * CKey * Wallet * gset sigdata :=
  match r with Returned (Some (Some (tx, key), w, c)) => (tx, key, w, c) | _ => (mkTx 0 0 [] [] 0, toy_key, income_wallet, ∅) end.
Lemma stake_made_parts r : stake_made r = true → let '(tx, key, w, c) := stake_parts r in r = Returned (Some (Some (tx, key), w, c)).
Proof. by destruct r as [|[[[[[tx key]|] w] c]|]]. Qed.
Definition coinstake : CTransaction := (stake_parts staking).1.1.1.
Lemma plain_keys_ok d s id key : store_ok d s → fUseCrypto s = false → store_GetKey s id = Some (Some key) → key_ok key.
Proof.
  intros H Hf. rewrite (plain_GetKey s id H Hf). destruct (mapKeys s !! id) as [[secret c]|] eqn:Ek; [|done]. intros [= <-]. by apply (store_keys _ _ H _ _ _ Hf Ek).
Qed.
Lemma CreateCoinStake_ok_witness : stake_made staking = true ∧ map nValue (vout coinstake) = [0; 5027379] ∧ ∃ M kernel key coins,
  coinstake_ok false stake_disk M (GetHash income) 0 1403456000 0x1c00ffff kernel key coinstake coins.
Proof.
  assert (Hm : stake_made staking = true) by (vm_compute; reflexivity). split; [exact Hm|]. split; [vm_compute; reflexivity|].
  pose proof (stake_made_parts staking Hm) as Hp. unfold coinstake. destruct (stake_parts staking) as [[[tx key] w] c].
  destruct (CreateCoinStake_ok (Cok := toy_curve_ok) false 500 true mine_of 0 10 first_entry stake_disk None zero_hash first_entry_in (view_of income 1403456000) stake_chain toy_keys income_wallet (GetHash income) 0 1403456000 0x1c00ffff (mkTx 1 0 [] [] 0) ∅)
    as [_ H].
  - exact income_wallet_ok.
  - intros h t Ht. cbn [mapWallet income_wallet] in Ht. unfold income_map in Ht. apply lookup_singleton_Some in Ht as [<- <-]. constructor; [|constructor]. split; vm_compute; congruence.
  - intros id k. apply (plain_keys_ok false); [exact (AddKey_ok _ _ KeyStore_new_ok toy_key_ok)|reflexivity].
  - vm_compute. reflexivity.
  - exact (empty_cache_ok 10 ltac:(lia)).
  - destruct (H _ _ _ Hp) as [_ H']. destruct (H' tx key eq_refl) as (_ & kernel & coins & _ & K & _). exists (mapWallet w), kernel, key, coins. exact K.
Defined.

(** The coin is found in the map of the first block's kernels *)
Definition new_search : StakeSearch := mkSearch ∅ 0 1403455980 0.
Definition first_block : list Z → base_uint := λ _, sample_hash 1.
Definition kernel_headers : Z → Z → option CBlock := λ _ _, Some kernel_block.
Abbreviation filling := (FillMap false first_block 500 true mine_of 0 kernel_tree stake_disk kernel_headers (view_of income 1403456000) 1403456000 1403456000 toy_keys income_wallet new_search).
Definition filled (r : option (bool * Wallet * StakeSearch)) : bool := match r with Some (true, _, _) => true | _ => false end.
Definition filled_parts (r : option (bool * Wallet * StakeSearch)) : Wallet * StakeSearch := match r with Some (_, w, s) => (w, s) | None => (income_wallet, new_search) end.
Lemma filled_some r : filled r = true → r = Some (true, (filled_parts r).1, (filled_parts r).2).
Proof. by destruct r as [[[[] w] s]|]. Qed.
Definition scan_found (r : option (option (Coin * (base_uint * Z)) * StakeSearch)) : bool := match r with Some (Some _, _) => true | _ => false end.
Lemma income_scannable (M : WalletMap) : persist <$> M = persist <$> income_map → scannable false first_block kernel_tree stake_disk kernel_headers M 1403456000 0x1f00ffff.
Proof.
  intros (t & -> & Ht)%income_only. split; [vm_compute; congruence|]. intros c t' out x block n [Et Eo _ _ Eb _ _]. injection Eb as <-.
  apply lookup_singleton_Some in Et as [Hc <-]. rewrite Ht in *. assert (Ho : out = mkTxOut 5000000 toy_script) by (cbn [vout income] in Eo; apply list_lookup_singleton_Some in Eo as [_ <-]; done).
  subst out. repeat split; vm_compute; congruence.
Qed.

(** A kernel of the full age is taken again as a further input, so that the coinstake
    spends the same output twice and no block with it is valid *)
Definition savings : CTransaction := mkTx 1 1400000000 (vin income) [mkTxOut 5000000 toy_script; mkTxOut 3000000 toy_script; mkTxOut 9000000 toy_script] 0.
Definition savings_map : WalletMap := {[GetHash savings := in_block savings]}.
Abbreviation old_stake := (CreateCoinStake false 500 true mine_of 0 10 first_entry (mkDisk ∅ (λ _, None) (λ _ _, None)) None (view_of savings 1411232000) stake_chain toy_keys (mkWallet savings_map savings_map 1 ∅ [])
  (GetHash savings) 0 1411232000 0x1c00ffff (mkTx 1 0 [] [] 0) ∅).
Example kernel_twice : stake_made old_stake = true ∧ (1 < length (filter (λ i, COutPoint_eqb (prevout i) (mkOutPoint (GetHash savings) 0) = true) (vin (stake_parts old_stake).1.1.1)))%nat ∧
  (CheckTransaction (stake_parts old_stake).1.1.1).1 = false.
Proof. split; [vm_compute; reflexivity|]. split; [apply Nat.ltb_lt|]; vm_compute; reflexivity. Qed.
